(* ===== verification/_CoqProject ===== *)
-Q . S2P
Prelude.v
Float.v
FloatValid.v
Parse.v
ParseProofs.v
Wire.v
Sha256.v
TextSql.v
Config.v
Session.v
DaemonConf.v
Cache.v
Daemon.v
DaemonProofs.v
Listener.v
ListenerProofs.v
Shim.v
ShimProofs.v
Hmac.v
Enterprise.v
LedgerFmt.v
Ledger.v
LedgerProofs.v
HeadProofs.v
LedgerSpec.v
AuditJson.v
JsonOut.v
JsonText.v
JsonStrict.v
Redact.v
RedactProofs.v
LedgerUdf.v
AuditProofs.v
Params.v
Search.v
SearchProofs.v
Vector.v
VectorProofs.v
Analytics.v
AnalyticsProofs.v
Portfolio.v
PortfolioProofs.v
SessionUdf.v
ConfigUdf.v
Cognition.v
T2s.v
Bridge.v
BridgeProofs.v
CognitionProofs.v
T2sProofs.v
Ctl.v
CtlProofs.v
McpConf.v
McpConfProofs.v
McpCtl.v
McpCtlProofs.v
McpServer.v
McpServerProofs.v
McpHttp.v
McpHttpProofs.v
McpPack.v
McpPackProofs.v
McpPolicy.v
McpPolicyProofs.v
McpLog.v
McpLogProofs.v
McpStart.v
McpStartProofs.v
McpLoop.v
McpLoopProofs.v
McpDb.v
McpDbProofs.v
