(* ===== verification/Prelude.v ===== *)
(** * FractalSQL for MariaDB: a verified model

    FractalSQL adds vector search, analytics, reasoning (LLM) and ledger
    functions to MariaDB.  The server loads a thin shim (service/shim/) whose
    UDFs send every call over a local socket to a daemon, fractalsqld
    (service/daemon/), which runs the bodies (src/) behind an authenticated
    frame protocol (service/protocol/).  fsqlctl (service/cli/) is a second
    client; an MCP server (mcp/src/) offers the functions, and the daemon's
    configuration, to agents.  A prebuilt core and an optional, signed
    enterprise library do the numerical work: they have no source here and are
    parameters.

    ** How the model follows the code

    A buffer with its length is a list of bytes, each a [Z]; machine integers
    are [Z] with the wrap-around written out ([u8], [u32], [u64], [s64], ...);
    doubles are the Standard Library's [spec_float].  A C function is a
    function of its arguments and of the state it touches, with the name it
    has in the source.  Allocation consults an oracle, so each out-of-memory
    branch is a branch of the model; so do system calls whose result the code
    examines.  What the operating system, OpenSSL, the core library or a
    plugin does is a parameter.  Concurrent code is a step relation, one step
    for each hold of a lock or each system call; the theorems quantify over
    every interleaving.  Recursions that are not structural take fuel, always
    a length of their input, and each is shown to have enough
    ([conf_lines]/[serve_loop]/[strtod] consume a byte or a frame a turn;
    [walk] a record; the tree recursions a byte).  The one exception is the
    code's: the block loop of the two SHA-256 copies counts in 32 bits, returns
    for a piece below 2^32 bytes and, as proved, for no longer one
    ([update_returns], [update_hangs]); callers with bounded pieces use
    [fed], what the loop returns.

    ** The files

    - Prelude: bytes, widths, list and option lemmas, tactics.  Float,
      FloatValid: reading, rounding and printing numbers exactly.
    - Wire (service/protocol/): fields, header, opcodes, function table.
      Sha256 (service/common/) and Hmac (src/fractalsql_hmac.h): the two
      digests, each, fed in pieces below 2^32 bytes, equal to FIPS 180-4 / RFC
      2104 and so to each other.
    - DaemonConf, Cache, Daemon, Listener (service/daemon/fractalsqld.c): the
      configuration file and key, the refcounted snapshots RELOAD swaps, the
      replay cache, the handles and requests, the frame loop; then main, the
      accept loop, signals and the threads.  DaemonProofs and ListenerProofs:
      authentication, exactly-once calls, handle ownership and balance,
      atomic RELOAD, the connection count, descriptors and progress.
    - Shim (service/shim/), ShimProofs: the UDF side, run over the daemon.
      Ctl (service/cli/fsqlctl.c), CtlProofs: the client, run over the daemon.
    - TextSql, T2s (src/fractalsql_textsql.c): the statement gate, the tier's
      settings.  Session, SessionUdf (src/fractalsql_session.c, fractalsql.c):
      the registry of contexts, its holders, the functions on a session.
      Config, ConfigUdf (src/fractalsql_config.c, _udf.c): the per-session
      overlay.
    - Cognition, Bridge (src/fractalsql_cognition.c, fractalsql_textsql.c):
      the reasoning tiers, what they publish into the process environment,
      when a plugin instance is loaded again.  CognitionProofs, BridgeProofs,
      T2sProofs.
    - Parse, Params, Search, Vector, Analytics (src/fractalsql_parse.c,
      fractalsql.c, fractalsql_vector.c): what reaches the core and what is
      printed.  JsonOut, JsonText: the output buffers and JSON built from
      printed numbers.  JsonStrict: the grammar of RFC 8259, a specification.
    - Enterprise, LedgerFmt, Ledger, LedgerUdf, AuditJson, Redact, Portfolio
      (src/fractalsql_enterprise.c, fsql_audit_redact.h): the signature gate
      and loader, the hash-chained ledger and its head file, the audit
      functions, the JSON gate, redaction, the portfolio searches.
      LedgerProofs, HeadProofs, LedgerSpec, RedactProofs, AuditProofs,
      PortfolioProofs: durability, what verification means, what a truncated
      or reordered file shows, what redaction hides.
    - The MCP server (mcp/src/), each file with its proofs: McpConf
      (conf_file.cpp, policy.h, the configuration tools of adapters/admin.cpp);
      McpCtl (fsqlctl.cpp: its client of the daemon and the reload it asks
      for); McpServer (jsonrpc_server.cpp, tool_registry.h, concurrency.h,
      mcp_json.h: a thread for each line, the gates, the limits, cancellation);
      McpHttp (transport_http.cpp: request head and body, origins, credentials,
      the registry of sessions and contexts) and McpPolicy (the file of named
      clients, its expiry dates, when it is read again); McpLoop (the loop of
      standard input, the accept loop); McpStart (main.cpp, config.h, the
      locks); McpLog (logging.cpp, errors.cpp); McpPack (adapters/helpers.h,
      vectors.cpp: what of a tool's arguments reaches the engine's parsers);
      McpDb (db.cpp: the calls of the client library, the values).  The
      theorems: who may call what, from which catalog, under which limits; that
      every request is answered once; what a revocation, a reload or a
      cancellation does; what no log line shows; that vectors and numbers
      arrive, both ways.
    Interfaces: [Adapter] and [Consumers] (the bodies and the reloadable
    tiers, to the daemon), [Transport] (the socket, to the three clients, given by
    the daemon's frame loop in ShimProofs, CtlProofs and McpCtlProofs), [Digest] (the HMAC,
    to the ledger, given by Hmac).

    ** What the theorems assume

    Where a property holds only with memory, on a disk that takes a whole
    write, or for reads that do not fail, its statement and comment say so, and
    where the code does something else without it a theorem shows what:
    [replay_oom_reruns], [repair_cuts_readable], [short_write_replaces],
    [same_second_unseen], [long_value_injects], [repeated_uids_lost],
    [password_rest_shown], [core_logs_raw], [zero_handle_replaces],
    [gate_bypasses].

    ** Bounds

    Payloads are at most [FSQ_MAX_PAYLOAD] (64 MiB at the daemon), arguments
    64, connections 1024, the replay cache 256 entries, a ledger record and
    file the caps of LedgerFmt, an HTTP head 64 KiB and 100 headers, its body 32
    MiB, a line of standard input 8 MiB, the workers 64; each is the source's constant and is proved to
    be respected where the code enforces it.

    ** Not modelled

    The core and enterprise libraries (binary), the reasoning plugins, the SQL
    procedures, Windows branches, the engine's log and standard-error text, timeouts and
    sleeping, the coverage flush, packaging, tests and benchmarks.  A read of
    the ledger may fail at any record ([io_read]); failing reads of the head
    file and the mirrors, and reordering of writes by a crash between [fflush]
    and the disk, are outside the model, which takes a completed write as
    durable.  A handler of the MCP server that has begun is taken to return.  Of the MCP server: the tools of adapters/*.cpp but for the
    configuration ones (to the dispatch core a handler is whatever it answers),
    the texts of resources and prompts, connecting to the database, TLS itself,
    the shutdown of the accept loop, the wait after a failed login.  Its JSON
    parser and printer, libmariadb, and OpenSSL's SHA-256 and base64 are
    parameters. *)

From Stdlib Require Export ZArith Lia Bool ZifyBool ZifyNat.
From stdpp Require Export base list numbers option strings.
#[export] Set Default Goal Selector "!".
Open Scope Z_scope.

Declare Scope fsq_scope.
Delimit Scope fsq_scope with fsq.

(** ** Automation shared by the development *)

(** Normalise boolean hypotheses and split conjunctions. *)
Ltac bools :=
  repeat match goal with
  | H : _ && _ = true |- _ => apply andb_true_iff in H; destruct H
  | H : _ || _ = false |- _ => apply orb_false_iff in H; destruct H
  | H : negb _ = true |- _ => apply negb_true_iff in H
  | H : negb _ = false |- _ => apply negb_false_iff in H
  | H : bool_decide _ = true |- _ => apply bool_decide_eq_true in H
  | H : bool_decide _ = false |- _ => apply bool_decide_eq_false in H
  end.

(** Destruct every [match]/[if] scrutinee of the goal, then simplify. *)
Ltac cases := repeat (case_match; simplify_eq/=; try done).

(** Close a decidable closed goal by evaluation. *)
Ltac by_compute :=
  lazymatch goal with
  | |- ?P => exact (bool_decide_unpack P ltac:(vm_compute; exact I))
  end.

Create HintDb fsq discriminated.

(** ** Bytes and byte strings

    A C [uint8_t] (or an [unsigned char]) is a [Z] in [0, 256); a buffer
    with its length is a [list Z]. *)

Definition byte_ok (b : Z) : Prop := 0 <= b < 256.
Definition bytes_ok (l : list Z) : Prop := Forall byte_ok l.

Definition byte_okb (b : Z) : bool := (0 <=? b) && (b <? 256).
Definition bytes_okb (l : list Z) : bool := forallb byte_okb l.

#[export] Instance byte_ok_dec b : Decision (byte_ok b).
Proof. unfold byte_ok. apply _. Defined.
#[export] Instance bytes_ok_dec l : Decision (bytes_ok l).
Proof. unfold bytes_ok. apply _. Defined.

(** The bytes of a string literal (no terminating NUL). *)
Fixpoint bs (s : String.string) : list Z :=
  match s with
  | String.EmptyString => []
  | String.String a r => Z.of_N (Ascii.N_of_ascii a) :: bs r
  end.

(** A byte read at an index the code has checked. *)
Definition at_ (l : list Z) (i : nat) : Z := nth i l 0.

(** ** Machine integers *)

Definition u8 (x : Z) : Z := x mod 2 ^ 8.
Definition u16 (x : Z) : Z := x mod 2 ^ 16.
Definition u32 (x : Z) : Z := x mod 2 ^ 32.
Definition u64 (x : Z) : Z := x mod 2 ^ 64.
Definition SIZE_MAX : Z := 2 ^ 64 - 1.
Definition LONG_MAX : Z := 2 ^ 63 - 1.
Definition LONG_MIN : Z := - 2 ^ 63.

(** Two's-complement reading of a 64-bit and of a 32-bit pattern. *)
Definition s64 (x : Z) : Z := let r := u64 x in if r <? 2 ^ 63 then r else r - 2 ^ 64.
Definition s32 (x : Z) : Z := let r := u32 x in if r <? 2 ^ 31 then r else r - 2 ^ 32.

Arguments u8 : simpl never.
Arguments u16 : simpl never.
Arguments u32 : simpl never.
Arguments u64 : simpl never.
Arguments s32 : simpl never.
Arguments s64 : simpl never.

Lemma u8_byte x : byte_ok (u8 x).
Proof. unfold u8, byte_ok. apply (Z.mod_pos_bound x (2^8)). lia. Qed.
Lemma u8_id x : byte_ok x -> u8 x = x.
Proof. intros. apply Z.mod_small. exact H. Qed.
Lemma u16_id x : 0 <= x < 2 ^ 16 -> u16 x = x.
Proof. apply Z.mod_small. Qed.
Lemma u32_id x : 0 <= x < 2 ^ 32 -> u32 x = x.
Proof. apply Z.mod_small. Qed.
Lemma u64_id x : 0 <= x < 2 ^ 64 -> u64 x = x.
Proof. apply Z.mod_small. Qed.
Lemma s32_id x : 0 <= x < 2 ^ 31 -> s32 x = x.
Proof. intros. unfold s32. rewrite u32_id by lia. by rewrite (proj2 (Z.ltb_lt _ _)) by lia. Qed.
Lemma u32_range x : 0 <= u32 x < 2 ^ 32.
Proof. apply Z.mod_pos_bound. lia. Qed.
Lemma u64_range x : 0 <= u64 x < 2 ^ 64.
Proof. apply Z.mod_pos_bound. lia. Qed.
Lemma s64_u64 x : - 2 ^ 63 <= x < 2 ^ 63 -> s64 (u64 x) = x.
Proof.
  intros H. unfold s64, u64. rewrite Z.mod_mod by lia.
  destruct (decide (0 <= x)).
  - rewrite Z.mod_small by lia. case_match; lia.
  - rewrite <- (Z.mod_add x 1), Z.mod_small by lia. case_match; lia.
Qed.
#[export] Hint Resolve u8_byte u32_range u64_range : fsq.

(** ** Little-endian words: the arithmetic behind shifts and ors *)

(** An or whose right operand is shifted clear of the left one is a sum. *)
Lemma lor_shiftl_add a b n : 0 <= n -> 0 <= a < 2 ^ n -> 0 <= b ->
  Z.lor a (Z.shiftl b n) = a + b * 2 ^ n.
Proof.
  intros Hn Ha Hb. rewrite <- Z.shiftl_mul_pow2 by lia.
  rewrite Z.add_nocarry_lxor; [symmetry; apply Z.lxor_lor |].
  all: apply Z.bits_inj'; intros i Hi; rewrite Z.land_spec, Z.bits_0.
  all: destruct (decide (i < n)).
  all: try (rewrite Z.shiftl_spec_low by lia; apply andb_false_r).
  all: replace a with (a mod 2 ^ n) by (apply Z.mod_small; lia).
  all: rewrite Z.mod_pow2_bits_high by lia; done.
Qed.

(** The value of a little-endian byte list, and its inverse. *)
Fixpoint le_val (l : list Z) : Z :=
  match l with [] => 0 | b :: r => b + 256 * le_val r end.
Fixpoint le_bytes (n : nat) (v : Z) : list Z :=
  match n with O => [] | S m => v mod 256 :: le_bytes m (v / 256) end.

Lemma le_bytes_length n v : length (le_bytes n v) = n.
Proof. revert v. induction n; intros; simpl; auto. Qed.
Lemma le_bytes_ok n v : bytes_ok (le_bytes n v).
Proof.
  revert v. induction n; intros; simpl; constructor; [|apply IHn].
  unfold byte_ok. apply (Z.mod_pos_bound v 256). lia.
Qed.
Lemma le_val_bytes n v : le_val (le_bytes n v) = v mod 256 ^ (Z.of_nat n).
Proof.
  revert v. induction n; intros v; [simpl; by rewrite Z.mod_1_r|].
  cbn [le_bytes le_val]. rewrite IHn, Nat2Z.inj_succ, Z.pow_succ_r by lia.
  rewrite (Z.rem_mul_r v 256 (256 ^ Z.of_nat n)) by lia. lia.
Qed.
Lemma le_val_range l : bytes_ok l -> 0 <= le_val l < 256 ^ (Z.of_nat (length l)).
Proof.
  induction 1 as [|b l Hb _ IH]; [simpl; lia|]. unfold byte_ok in Hb.
  cbn [le_val length]. rewrite Nat2Z.inj_succ, Z.pow_succ_r by lia. nia.
Qed.
Lemma le_bytes_val l : bytes_ok l -> le_bytes (length l) (le_val l) = l.
Proof.
  induction 1 as [|b l Hb _ IH]; [done|]. unfold byte_ok in Hb. cbn [le_val length le_bytes].
  replace (b + 256 * le_val l) with (le_val l * 256 + b) by lia.
  rewrite Z.div_add_l, Z.div_small, Z.add_0_r, IH by lia.
  rewrite Z.add_comm, Z.mod_add, Z.mod_small by lia. done.
Qed.

Lemma le_val_range_len l n : bytes_ok l -> length l = n -> 0 <= le_val l < 256 ^ Z.of_nat n.
Proof. intros Hl <-. by apply le_val_range. Qed.
Lemma le_bytes_val_len l n : bytes_ok l -> length l = n -> le_bytes n (le_val l) = l.
Proof. intros Hl <-. by apply le_bytes_val. Qed.

Lemma u8_shiftr v i : 0 <= i -> u8 (Z.shiftr v (8 * i)) = v / 256 ^ i mod 256.
Proof.
  intros. unfold u8. rewrite Z.shiftr_div_pow2 by lia.
  replace (2 ^ (8 * i)) with (256 ^ i); [done|].
  change 256 with (2 ^ 8). rewrite <- Z.pow_mul_r by lia. done.
Qed.

Lemma put_map_le n v :
  map (fun i => u8 (Z.shiftr v (8 * Z.of_nat i))) (seq 0 n) = le_bytes n v.
Proof.
  revert v. induction n as [|n IH]; intros v; [done|].
  cbn [seq map le_bytes].
  replace (u8 (Z.shiftr v (8 * Z.of_nat 0))) with (v mod 256)
    by (rewrite u8_shiftr by lia; by rewrite Z.div_1_r).
  f_equal. rewrite <- IH, <- seq_shift, map_map. apply map_ext. intros i.
  rewrite !u8_shiftr by lia. rewrite Nat2Z.inj_succ, Z.pow_succ_r by lia.
  by rewrite Z.div_div by lia.
Qed.

Lemma le_bytes_u64 v : le_bytes 8 (u64 v) = le_bytes 8 v.
Proof.
  rewrite <- (le_bytes_val_len (le_bytes 8 v) 8) by auto using le_bytes_ok, le_bytes_length.
  by rewrite le_val_bytes.
Qed.

(** ** C strings *)

(** The C string at the start of a buffer: everything before its first NUL. *)
Fixpoint cstr (l : list Z) : list Z :=
  match l with [] => [] | c :: r => if c =? 0 then [] else c :: cstr r end.

Definition no_nul (l : list Z) : Prop := Forall (fun c => c <> 0) l.

Lemma cstr_no_nul l : no_nul (cstr l).
Proof. induction l as [|c l IH]; simpl; [constructor|]. case_match; constructor; [lia|done]. Qed.
Lemma cstr_id l : no_nul l -> cstr l = l.
Proof. induction 1 as [|c l Hc _ IH]; simpl; [done|]. case_match; [lia|by rewrite IH]. Qed.
#[export] Hint Resolve cstr_no_nul cstr_id : fsq.

(** [strcmp(a, b) == 0] and [memcmp] over equal lengths. *)
Definition bytes_eqb (a b : list Z) : bool := bool_decide (a = b).
Lemma bytes_eqb_true a b : bytes_eqb a b = true <-> a = b.
Proof. apply bool_decide_eq_true. Qed.

(** ** Character classes of the C locale *)
Definition isspace (c : Z) : bool :=
  (c =? 32) || ((9 <=? c) && (c <=? 13)).
Definition isdigit (c : Z) : bool := (48 <=? c) && (c <=? 57).
Definition isupper (c : Z) : bool := (65 <=? c) && (c <=? 90).
Definition islower (c : Z) : bool := (97 <=? c) && (c <=? 122).
Definition isalpha (c : Z) : bool := isupper c || islower c.
Definition isalnum (c : Z) : bool := isalpha c || isdigit c.
Definition tolower (c : Z) : Z := if isupper c then c + 32 else c.

(** ** Generic list lemmas *)

Lemma take_app_exact {A} (l k : list A) n : n = length l -> take n (l ++ k) = l.
Proof. intros ->. apply take_app_length. Qed.
Lemma drop_app_exact {A} (l k : list A) n : n = length l -> drop n (l ++ k) = k.
Proof. intros ->. apply drop_app_length. Qed.
Lemma bytes_ok_app l k : bytes_ok (l ++ k) <-> bytes_ok l /\ bytes_ok k.
Proof. apply Forall_app. Qed.
Lemma bytes_ok_take n l : bytes_ok l -> bytes_ok (take n l).
Proof. apply Forall_take. Qed.
Lemma bytes_ok_drop n l : bytes_ok l -> bytes_ok (drop n l).
Proof. apply Forall_drop. Qed.
#[export] Hint Resolve bytes_ok_take bytes_ok_drop le_bytes_ok : fsq.

(** ** Loops

    A C loop is the iteration of its body: [inl] goes round again, [inr]
    leaves with a result.  [while] runs it with fuel; a body that decreases
    a measure needs no more fuel than the measure. *)

Section While.
Context {St R : Type} (step : St -> St + R).

Fixpoint while (fuel : nat) (s : St) : option R :=
  match fuel with
  | O => None
  | S n => match step s with inl s' => while n s' | inr r => Some r end
  end.

Lemma while_mono n m s r : while n s = Some r -> (n <= m)%nat -> while m s = Some r.
Proof.
  revert m s. induction n as [|n IH]; intros m s Hw Hm; [done|].
  destruct m as [|m]; [lia|]. cbn [while] in *. case_match; [|done].
  apply IH; [done|lia].
Qed.

(** Hoare rule: an invariant of the body holds of the result. *)
Lemma while_inv (P : St -> Prop) (Q : R -> Prop) :
  (forall s s', P s -> step s = inl s' -> P s') ->
  (forall s r, P s -> step s = inr r -> Q r) ->
  forall n s r, P s -> while n s = Some r -> Q r.
Proof.
  intros Hc He n. induction n as [|n IH]; intros s r Hp Hw; [done|].
  cbn [while] in Hw. case_match eqn:E; [eauto|]. simplify_eq. eauto.
Qed.

Section Measure.
Context (m : St -> nat).
Hypothesis decreases : forall s s', step s = inl s' -> (m s' < m s)%nat.

Lemma while_enough n s : (m s < n)%nat -> is_Some (while n s).
Proof.
  revert s. induction n as [|n IH]; intros s Hn; [lia|]. cbn [while].
  case_match eqn:E; [|by eexists]. apply IH. apply decreases in E. lia.
Qed.

(** The loop with exactly enough fuel satisfies the loop equation. *)
Lemma while_unfold s :
  while (S (m s)) s =
  match step s with inl s' => while (S (m s')) s' | inr r => Some r end.
Proof.
  cbn [while]. destruct (step s) as [s'|r] eqn:E; [|done]. apply decreases in E.
  destruct (while_enough (S (m s')) s' ltac:(lia)) as [r Hr].
  transitivity (Some r); [|done]. apply while_mono with (S (m s')); [done|lia].
Qed.
End Measure.
End While.

(** ** Decimal input ([strtol], base 10) *)
Fixpoint strip_space (l : list Z) : list Z :=
  match l with c :: r => if isspace c then strip_space r else l | [] => [] end.
(** The digits at the head of the text, accumulated, and the rest. *)
Fixpoint digits_val (acc : Z) (l : list Z) : Z * list Z :=
  match l with
  | c :: r => if isdigit c then digits_val (acc * 10 + (c - 48)) r else (acc, l)
  | [] => (acc, [])
  end.
Definition clamp (lo hi x : Z) : Z := Z.max lo (Z.min hi x).
Definition sign_of (l : list Z) : bool * list Z :=
  match l with
  | c :: r => if c =? 45 then (true, r) else if c =? 43 then (false, r) else (false, l)
  | [] => (false, [])
  end.
(** The value, saturated, and the text at [*endptr]. *)
Definition strtol (l : list Z) : Z * list Z :=
  let '(neg, t) := sign_of (strip_space l) in
  match t with
  | c :: _ =>
      if isdigit c then let '(v, r) := digits_val 0 t in (clamp LONG_MIN LONG_MAX (if neg then - v else v), r)
      else (0, l)
  | [] => (0, l)
  end.

(** The position of the first element that satisfies a test. *)
Fixpoint findi {A} (f : A -> bool) (l : list A) : option nat :=
  match l with
  | [] => None
  | x :: r => if f x then Some O else S <$> findi f r
  end.
Lemma findi_some {A} (f : A -> bool) l i : findi f l = Some i ->
  exists x, l !! i = Some x /\ f x = true /\ forall j y, (j < i)%nat -> l !! j = Some y -> f y = false.
Proof.
  revert i. induction l as [|x l IH]; intros i H; [done|]. cbn [findi] in H. destruct (f x) eqn:E.
  - simplify_eq. exists x. repeat split; try done. intros; lia.
  - destruct (findi f l) as [k|]; [|done]. simplify_eq/=. destruct (IH k eq_refl) as (y & H1 & H2 & H3).
    exists y. repeat split; try done. intros [|j] z Hj Hz; cbn in Hz; [by simplify_eq|]. apply (H3 j); [lia|done].
Qed.
Lemma findi_none {A} (f : A -> bool) l : findi f l = None <-> Forall (fun x => f x = false) l.
Proof.
  induction l as [|x l IH]; cbn [findi]; [split; [constructor|done]|]. rewrite Forall_cons. destruct (f x).
  - split; [done|]. by intros [? _].
  - rewrite <- IH. destruct (findi f l); cbn; split; try done; by intros [_ ?].
Qed.

(** ** Decimal output ([%u], [%zu], [%d], [%lld]) *)
Fixpoint digits (fuel : nat) (n : Z) (acc : list Z) : list Z :=
  match fuel with
  | O => acc
  | S f => let acc := (48 + n mod 10) :: acc in
           if n <? 10 then acc else digits f (n / 10) acc
  end.
Definition dec_u (n : Z) : list Z := digits (S (Z.to_nat (Z.log2 n))) n [].
Definition dec_d (n : Z) : list Z := if n <? 0 then 45 :: dec_u (- n) else dec_u n.

(** Printing a number and reading it back. *)
Definition dec_val (a : Z) (ds : list Z) : Z := fold_left (fun a c => a * 10 + (c - 48)) ds a.
Lemma digits_val_app a ds rest : Forall (fun c => isdigit c = true) ds ->
  digits_val a (ds ++ rest) = digits_val (dec_val a ds) rest.
Proof.
  intros H. revert a. induction H as [|c ds Hc _ IH]; intros a; [done|]. cbn [app digits_val]. by rewrite Hc, IH.
Qed.
Lemma digits_spec fuel n acc : (0 < fuel)%nat -> 0 <= n < 2 ^ Z.of_nat fuel -> exists ds, digits fuel n acc = ds ++ acc /\
  ds <> [] /\ (length ds <= fuel)%nat /\ Forall (fun c => isdigit c = true) ds /\ dec_val 0 ds = n.
Proof.
  revert n acc. induction fuel as [|f IH]; intros n acc Hf0 Hn; [lia|].
  cbn [digits]. assert (Hd : forall x, 0 <= x < 10 -> isdigit (48 + x) = true) by (intros; unfold isdigit; lia).
  destruct (n <? 10) eqn:E.
  - apply Z.ltb_lt in E. exists [48 + n mod 10]. rewrite Z.mod_small by lia. split_and!; [done|done|cbn; lia|by repeat constructor; apply Hd; lia|cbn; lia].
  - apply Z.ltb_ge in E. destruct (IH (n / 10) ((48 + n mod 10) :: acc)) as (ds & -> & Hne & Hl & Hf & Hv).
    { destruct f; [cbn in Hn|]; lia. }
    { rewrite Nat2Z.inj_succ, Z.pow_succ_r in Hn by lia. split; [apply Z.div_pos; lia|].
      apply Z.div_lt_upper_bound; lia. }
    exists (ds ++ [48 + n mod 10]). pose proof (Z.mod_pos_bound n 10 ltac:(lia)). split_and!.
    + by rewrite <- app_assoc.
    + by destruct ds.
    + rewrite length_app. cbn. lia.
    + apply Forall_app. split; [done|]. by repeat constructor; apply Hd.
    + unfold dec_val in *. rewrite fold_left_app, Hv. cbn. pose proof (Z.div_mod n 10). lia.
Qed.
Lemma dec_u_spec n : 0 <= n < 2 ^ 64 -> exists ds, dec_u n = ds /\ ds <> [] /\ (length ds <= 64)%nat /\
  Forall (fun c => isdigit c = true) ds /\ dec_val 0 ds = n.
Proof.
  intros Hn. unfold dec_u. set (f := S (Z.to_nat (Z.log2 n))).
  assert (Hl : 0 <= Z.log2 n < 64).
  { split; [apply Z.log2_nonneg|]. destruct (Z.eq_dec n 0) as [->|]; [done|]. apply Z.log2_lt_pow2; lia. }
  destruct (digits_spec f n []) as (ds & E & H1 & H2 & H3 & H4); [lia| |].
  { unfold f. rewrite Nat2Z.inj_succ, Z2Nat.id by lia. destruct (Z.eq_dec n 0) as [->|]; [done|].
    pose proof (Z.log2_spec n). lia. }
  exists ds. rewrite app_nil_r in E. unfold f in *. split_and!; try done. lia.
Qed.
(** The text of a number, read where no digit follows. *)
Definition no_digit (rest : list Z) : Prop := isdigit (at_ rest 0) = false.
Lemma strtol_dec n rest : 0 <= n <= LONG_MAX -> no_digit rest -> strtol (dec_d n ++ rest) = (n, rest).
Proof.
  intros Hn Hr. unfold dec_d. rewrite (proj2 (Z.ltb_ge _ _)) by lia. unfold LONG_MAX in *.
  destruct (dec_u_spec n) as (ds & -> & Hne & _ & Hd & Hv); [lia|]. unfold strtol.
  destruct ds as [|c ds]; [done|]. pose proof Hd as [Hc _]%Forall_cons.
  assert (Hs : isspace c = false) by (unfold isspace, isdigit in *; lia).
  cbn [app strip_space]. rewrite Hs. unfold sign_of.
  assert (H45 : (c =? 45) = false) by (unfold isdigit in *; lia). assert (H43 : (c =? 43) = false) by (unfold isdigit in *; lia).
  rewrite H45, H43, Hc. change (c :: ds ++ rest) with ((c :: ds) ++ rest). rewrite digits_val_app by done. rewrite Hv.
  assert (Hend : digits_val n rest = (n, rest)).
  { destruct rest as [|x rest]; [done|]. cbn [digits_val]. unfold no_digit in Hr. cbn in Hr. by rewrite Hr. }
  rewrite Hend. unfold clamp, LONG_MIN, LONG_MAX. f_equal. lia.
Qed.
Lemma dec_d_length n : 0 <= n <= LONG_MAX -> (0 < length (dec_d n) <= 64)%nat.
Proof.
  intros Hn. unfold dec_d, LONG_MAX in *. rewrite (proj2 (Z.ltb_ge _ _)) by lia.
  destruct (dec_u_spec n) as (ds & -> & Hne & Hl & _); [lia|]. destruct ds; [done|cbn in *; lia].
Qed.
Lemma dec_d_digits n : 0 <= n <= LONG_MAX -> Forall (fun c => isdigit c = true) (dec_d n).
Proof.
  intros Hn. unfold dec_d, LONG_MAX in *. rewrite (proj2 (Z.ltb_ge _ _)) by lia.
  by destruct (dec_u_spec n) as (ds & -> & _ & _ & ? & _); [lia|].
Qed.

(** ** The result of a UDF body: NULL, the error flag, or a value *)
Inductive udf (A : Type) := UNull | UError | UVal (v : A).
Arguments UNull {A}.
Arguments UError {A}.
Arguments UVal {A} _.

#[export] Instance udf_eq_dec {A} `{EqDecision A} : EqDecision (udf A).
Proof. solve_decision. Defined.
