(* ===== verification/Float.v ===== *)
(** * IEEE numbers: reading, narrowing and printing

    C's [double] and [float] are the binary64 and binary32 formats of the
    Standard Library's specification of floating point; [strtod] and the
    [printf] conversions the code uses ("%.10f", "%.6g", "%.9g", "%.10g") are
    computed exactly, in integers.  A NaN carries no sign and no payload. *)

From Stdlib Require Import SpecFloat.
From S2P Require Import Prelude.

Abbreviation double := spec_float (only parsing).
Abbreviation float := spec_float (only parsing).
#[export] Instance spec_float_eq_dec : EqDecision spec_float.
Proof. solve_decision. Defined.

Definition valid64 : double -> bool := valid_binary 53 1024.
Definition valid32 : float -> bool := valid_binary 24 128.
Definition isfinite (x : double) : bool :=
  match x with S754_zero _ | S754_finite _ _ _ => true | _ => false end.
Definition isnan (x : double) : bool := match x with S754_nan => true | _ => false end.

(** [(float) x] and [(double) x], [(double) n] of an integer. *)
Definition to_float (x : double) : float :=
  match x with S754_finite s m e => binary_normalize 24 128 (cond_Zopp s (Zpos m)) e s | _ => x end.
Definition to_double (x : float) : double :=
  match x with S754_finite s m e => binary_normalize 53 1024 (cond_Zopp s (Zpos m)) e s | _ => x end.
Definition of_int (n : Z) : double := binary_normalize 53 1024 n 0 false.

(** Comparisons; false when an operand is a NaN. *)
Definition fltb : double -> double -> bool := SFltb.
Definition fleb : double -> double -> bool := SFleb.
Definition feqb : double -> double -> bool := SFeqb.
Definition d_mul : double -> double -> double := SFmul 53 1024.
Definition d_add : double -> double -> double := SFadd 53 1024.
Definition d_opp : double -> double := SFopp.

(** The double towards zero of [(int) x]; [None] where C leaves it undefined. *)
Definition trunc (x : double) : option Z :=
  match x with
  | S754_zero _ => Some 0
  | S754_finite s m e =>
      let a := if 0 <=? e then Zpos m * 2 ^ e else Zpos m / 2 ^ (- e) in Some (if s then - a else a)
  | _ => None
  end.

(** ** Reading: [strtod] *)

(** The double nearest to [± m * b^e]. *)
Definition scaled (neg : bool) (m b e : Z) : double :=
  if m =? 0 then S754_zero neg
  else if 0 <=? e then binary_normalize 53 1024 (cond_Zopp neg (m * b ^ e)) 0 neg
  else let '(q, x, l) := SFdiv_core_binary 53 1024 m 0 (b ^ (- e)) 0 in binary_round_aux 53 1024 neg q x l.

Definition hexval (c : Z) : option Z :=
  if isdigit c then Some (c - 48)
  else if (97 <=? c) && (c <=? 102) then Some (c - 87)
  else if (65 <=? c) && (c <=? 70) then Some (c - 55)
  else None.
Definition decval (c : Z) : option Z := if isdigit c then Some (c - 48) else None.

(** The digits at the head: their value after [acc], how many, the rest. *)
Fixpoint run_digits (dv : Z -> option Z) (base acc : Z) (k : nat) (l : list Z) : Z * nat * list Z :=
  match l with
  | c :: r => match dv c with Some d => run_digits dv base (acc * base + d) (S k) r | None => (acc, k, l) end
  | [] => (acc, k, [])
  end.
(** Digits with at most one point, at least one digit: the value without the
    point, the digits after it, the rest. *)
Definition mantissa (dv : Z -> option Z) (base : Z) (l : list Z) : option (Z * nat * list Z) :=
  let '(a, k, r) := run_digits dv base 0 0 l in
  let '(a, f, r) := match r with c :: t => if c =? 46 then run_digits dv base a 0 t else (a, 0%nat, r) | [] => (a, 0%nat, r) end in
  if (k + f =? 0)%nat then None else Some (a, f, r).
(** An exponent: a letter, an optional sign, at least one digit. *)
Definition exponent (letter : Z) (l : list Z) : Z * list Z :=
  match l with
  | c :: t =>
      if tolower c =? letter then
        let '(neg, u) := sign_of t in
        match u with
        | d :: _ => if isdigit d then let '(v, r) := digits_val 0 u in (if neg then - v else v, r) else (0, l)
        | [] => (0, l)
        end
      else (0, l)
  | [] => (0, l)
  end.
Definition eats (w l : list Z) : option (list Z) :=
  if bool_decide (map tolower (take (length w) l) = w) then Some (drop (length w) l) else None.
Definition is_nchar (c : Z) : bool := isalnum c || (c =? 95).
Fixpoint skip_nchars (l : list Z) : list Z :=
  match l with c :: r => if is_nchar c then skip_nchars r else l | [] => [] end.

(** The subject sequence after the sign: the number, the text after it, and
    whether the text denotes zero or no finite number at all. *)
Definition subject (neg : bool) (l : list Z) : option (double * list Z * bool) :=
  match eats (bs "infinity") l with
  | Some r => Some (S754_infinity neg, r, true)
  | None =>
  match eats (bs "inf") l with
  | Some r => Some (S754_infinity neg, r, true)
  | None =>
  match eats (bs "nan") l with
  | Some r =>
      Some (S754_nan, match r with c :: t => if c =? 40 then match skip_nchars t with d :: u => if d =? 41 then u else r | [] => r end else r | [] => r end, true)
  | None =>
  match match eats (bs "0x") l with Some h => mantissa hexval 16 h | None => None end with
  | Some (a, f, r) => let '(x, r) := exponent 112 r in Some (scaled neg a 2 (x - 4 * Z.of_nat f), r, a =? 0)
  | None =>
  match mantissa decval 10 l with
  | Some (a, f, r) => let '(x, r) := exponent 101 r in Some (scaled neg a 10 (x - Z.of_nat f), r, a =? 0)
  | None => None
  end end end end end.

(** [strtod]: the value, the text at [*endptr] and [errno == ERANGE]; [None]
    when there is no conversion.  An overflow is reported; whether an underflow
    is, C leaves to the implementation: [underflow] says it of the text read. *)
Definition subnormal (x : double) : bool :=
  match x with S754_zero _ => true | S754_finite _ m _ => Zpos m <? 2 ^ 52 | _ => false end.
Definition strtod (underflow : list Z -> bool) (l : list Z) : option (double * list Z * bool) :=
  let '(neg, t) := sign_of (strip_space l) in
  match subject neg t with
  | None => None
  | Some (x, r, exact) =>
      Some (x, r, negb exact &&
                  match x with S754_infinity _ => true | _ => subnormal x && underflow (take (length t - length r) t) end)
  end.

(** ** Printing *)

(** [n / d] to the nearest integer, ties to even. *)
Definition round_div (n d : Z) : Z :=
  let q := n / d in let r := n mod d in
  if 2 * r <? d then q else if d <? 2 * r then q + 1 else if Z.even q then q else q + 1.
(** [m * 2^e] as a fraction. *)
Definition num_of (m : positive) (e : Z) : Z := if 0 <=? e then Zpos m * 2 ^ e else Zpos m.
Definition den_of (e : Z) : Z := if 0 <=? e then 1 else 2 ^ (- e).

(** A number in exactly [k] decimal digits. *)
Fixpoint pad (k : nat) (n : Z) : list Z :=
  match k with O => [] | S k => pad k (n / 10) ++ [48 + n mod 10] end.
Definition sgn (s : bool) : list Z := if s then [45] else [].
Definition special (x : double) : list Z :=
  match x with S754_infinity s => sgn s ++ bs "inf" | _ => bs "nan" end.

(** A value [v / 10^p] with [p] digits after the point. *)
Definition fixed (p : nat) (v : Z) : list Z :=
  dec_u (v / 10 ^ Z.of_nat p) ++ match p with O => [] | _ => 46 :: pad p (v mod 10 ^ Z.of_nat p) end.
(** "%.[p]f" *)
Definition fmt_f (p : nat) (x : double) : list Z :=
  match x with
  | S754_zero s => sgn s ++ fixed p 0
  | S754_finite s m e => sgn s ++ fixed p (round_div (num_of m e * 10 ^ Z.of_nat p) (den_of e))
  | _ => special x
  end.

(** The decimal exponent and the [p] significant digits of [n / d > 0]. *)
Definition ten_ge (n d k : Z) : bool := if 0 <=? k then d * 10 ^ k <=? n else d <=? n * 10 ^ (- k).
Definition dec10 (n d : Z) : Z :=
  let k := Z.of_nat (length (dec_u n)) - Z.of_nat (length (dec_u d)) in if ten_ge n d k then k else k - 1.
Definition sig (p : nat) (n d : Z) : Z * Z :=
  let x := dec10 n d in
  let k := Z.of_nat p - 1 - x in
  let v := if 0 <=? k then round_div (n * 10 ^ k) d else round_div n (d * 10 ^ (- k)) in
  if v =? 10 ^ Z.of_nat p then (x + 1, v / 10) else (x, v).
(** Trailing zeros of a fraction, and a point left bare, are dropped. *)
Fixpoint drop_zeros (l : list Z) : list Z :=
  match l with
  | [] => []
  | c :: l => match drop_zeros l with [] => if c =? 48 then [] else [c] | r => c :: r end
  end.
Definition frac (ds : list Z) : list Z := match drop_zeros ds with [] => [] | f => 46 :: f end.
(** "%.[p]g" of a positive fraction. *)
Definition general (p : nat) (n d : Z) : list Z :=
  let '(x, v) := sig p n d in
  let ds := pad p v in
  if (x <? -4) || (Z.of_nat p <=? x) then
    take 1 ds ++ frac (drop 1 ds) ++ [101; if x <? 0 then 45 else 43] ++
    (if Z.abs x <? 10 then [48] else []) ++ dec_u (Z.abs x)
  else if x <? 0 then bs "0" ++ frac (replicate (Z.to_nat (- x - 1)) 48 ++ ds)
  else take (Z.to_nat (x + 1)) ds ++ frac (drop (Z.to_nat (x + 1)) ds).
Definition fmt_g (p : nat) (x : double) : list Z :=
  match x with
  | S754_zero s => sgn s ++ bs "0"
  | S754_finite s m e => sgn s ++ general p (num_of m e) (den_of e)
  | _ => special x
  end.

(** ** The bytes of a [float] *)

(** The 32-bit pattern of a float; every NaN is the quiet one. *)
Definition float_bits (x : float) : Z :=
  match x with
  | S754_zero s => if s then 2 ^ 31 else 0
  | S754_infinity s => (if s then 2 ^ 31 else 0) + 255 * 2 ^ 23
  | S754_nan => 255 * 2 ^ 23 + 2 ^ 22
  | S754_finite s m e =>
      (if s then 2 ^ 31 else 0) + (if Zpos m <? 2 ^ 23 then Zpos m else (e + 150) * 2 ^ 23 + (Zpos m - 2 ^ 23))
  end.
Definition bits_float (b : Z) : float :=
  let s := 2 ^ 31 <=? b in
  let ex := b / 2 ^ 23 mod 256 in
  let fr := b mod 2 ^ 23 in
  if ex =? 255 then if fr =? 0 then S754_infinity s else S754_nan
  else if ex =? 0 then match fr with Zpos m => S754_finite s m (-149) | _ => S754_zero s end
  else match fr + 2 ^ 23 with Zpos m => S754_finite s m (ex - 150) | _ => S754_zero s end.

Lemma digits2_bounds m : 2 ^ (Zpos (digits2_pos m) - 1) <= Zpos m < 2 ^ Zpos (digits2_pos m).
Proof.
  induction m as [m IH|m IH|]; cbn [digits2_pos]; [| |done].
  all: rewrite Pos2Z.inj_succ, Z.pow_succ_r by lia.
  all: replace (Z.succ (Zpos (digits2_pos m)) - 1) with (Z.succ (Zpos (digits2_pos m) - 1)) by lia.
  all: rewrite Z.pow_succ_r by lia; lia.
Qed.
Lemma digits2_unique m k : 0 < k -> 2 ^ (k - 1) <= Zpos m < 2 ^ k -> Zpos (digits2_pos m) = k.
Proof.
  intros Hk H. pose proof (digits2_bounds m) as Hb. destruct (Z.lt_trichotomy (Zpos (digits2_pos m)) k) as [Hl|[He|Hl]]; [|done|].
  - pose proof (Z.pow_le_mono_r 2 (Zpos (digits2_pos m)) (k - 1) ltac:(lia) ltac:(lia)). lia.
  - pose proof (Z.pow_le_mono_r 2 k (Zpos (digits2_pos m) - 1) ltac:(lia) ltac:(lia)). lia.
Qed.

(** A float's mantissa and exponent: subnormal, or normal. *)
Lemma valid32_cases s m e : valid32 (S754_finite s m e) = true <->
  (Zpos m < 2 ^ 23 /\ e = -149) \/ (2 ^ 23 <= Zpos m < 2 ^ 24 /\ -149 <= e <= 104).
Proof.
  unfold valid32. cbn [valid_binary]. unfold bounded, canonical_mantissa, fexp, emin. rewrite andb_true_iff, Z.eqb_eq, Z.leb_le.
  pose proof (digits2_bounds m) as Hb. split.
  - intros [H1 H2]. destruct (Z.le_gt_cases (Zpos (digits2_pos m)) 23) as [Hd|Hd].
    + left. pose proof (Z.pow_le_mono_r 2 (Zpos (digits2_pos m)) 23 ltac:(lia) Hd). lia.
    + assert (Zpos (digits2_pos m) = 24) as E by lia. rewrite E in Hb. right. cbn in Hb. lia.
  - intros [[H1 ->]|[H1 H2]].
    + assert (Zpos (digits2_pos m) <= 23); [|lia]. destruct (Z.le_gt_cases (Zpos (digits2_pos m)) 23); [done|].
      pose proof (Z.pow_le_mono_r 2 23 (Zpos (digits2_pos m) - 1) ltac:(lia) ltac:(lia)). lia.
    + rewrite (digits2_unique m 24) by (cbn; lia). lia.
Qed.

Lemma float_bits_range x : valid32 x = true -> 0 <= float_bits x < 2 ^ 32.
Proof.
  destruct x as [[]|[]| |s m e]; try (intros; cbn; lia). rewrite valid32_cases. intros H. cbn [float_bits].
  destruct (Z.ltb_spec (Zpos m) (2 ^ 23)); destruct s; lia.
Qed.
Lemma bits_float_bits x : valid32 x = true -> isnan x = false -> bits_float (float_bits x) = x.
Proof.
  destruct x as [[]|[]| |s m e]; try done; [by vm_compute..|]. rewrite valid32_cases. intros H _. cbn [float_bits].
  set (body := if Zpos m <? 2 ^ 23 then Zpos m else (e + 150) * 2 ^ 23 + (Zpos m - 2 ^ 23)).
  assert (Hb : body / 2 ^ 23 = (if Zpos m <? 2 ^ 23 then 0 else e + 150) /\ body mod 2 ^ 23 = (if Zpos m <? 2 ^ 23 then Zpos m else Zpos m - 2 ^ 23)
    /\ 0 <= body < 2 ^ 31).
  { unfold body. destruct (Z.ltb_spec (Zpos m) (2 ^ 23)).
    - rewrite Z.div_small, Z.mod_small by lia. split_and!; lia.
    - rewrite Z.div_add_l, Z.div_small by lia. rewrite (Z.add_comm ((e + 150) * 2 ^ 23)), Z.mod_add, Z.mod_small by lia. split_and!; lia. }
  destruct Hb as (H1 & H2 & H3). unfold bits_float.
  replace ((if s then 2 ^ 31 else 0) + body) with ((if s then 256 else 0) * 2 ^ 23 + body) by (destruct s; lia).
  assert (Hs : (2 ^ 31 <=? (if s then 256 else 0) * 2 ^ 23 + body) = s) by (destruct s; lia). rewrite Hs.
  assert (He : ((if s then 256 else 0) * 2 ^ 23 + body) / 2 ^ 23 mod 256 = body / 2 ^ 23).
  { rewrite Z.div_add_l by lia. destruct s; [rewrite Z.add_comm; change 256 with (1 * 256) at 1; rewrite Z.mod_add by lia|];
      rewrite ?Z.add_0_l; apply Z.mod_small; rewrite H1; destruct (Z.ltb_spec (Zpos m) (2 ^ 23)); lia. }
  assert (Hf : ((if s then 256 else 0) * 2 ^ 23 + body) mod 2 ^ 23 = body mod 2 ^ 23) by (rewrite Z.add_comm, Z.mod_add by lia; done).
  rewrite He, Hf, H1, H2. clear Hs He Hf H1 H2 H3 body. destruct (Z.ltb_spec (Zpos m) (2 ^ 23)).
  - cbn [Z.eqb]. f_equal. destruct H as [[_ ->]|]; lia.
  - rewrite (proj2 (Z.eqb_neq (e + 150) 255)), (proj2 (Z.eqb_neq (e + 150) 0)) by lia.
    replace (Zpos m - 2 ^ 23 + 2 ^ 23) with (Zpos m) by lia. f_equal. lia.
Qed.
Lemma valid32_bits b : 0 <= b < 2 ^ 32 -> valid32 (bits_float b) = true.
Proof.
  intros Hb. unfold bits_float. pose proof (Z.mod_pos_bound b (2 ^ 23) ltac:(lia)) as Hf. pose proof (Z.mod_pos_bound (b / 2 ^ 23) 256 ltac:(lia)) as He.
  destruct (Z.eqb_spec (b / 2 ^ 23 mod 256) 255); [by destruct (_ =? 0)|]. destruct (Z.eqb_spec (b / 2 ^ 23 mod 256) 0).
  - destruct (b mod 2 ^ 23) as [|m|m]; try done. apply valid32_cases. left. lia.
  - destruct (b mod 2 ^ 23 + 2 ^ 23) as [|m|m] eqn:E; try done. apply valid32_cases. right. lia.
Qed.
(** The other way round: a pattern that is no NaN is the pattern of its float. *)
Lemma float_bits_float b : 0 <= b < 2 ^ 32 -> isnan (bits_float b) = false -> float_bits (bits_float b) = b.
Proof.
  intros Hb. unfold bits_float. pose proof (Z.mod_pos_bound b (2 ^ 23) ltac:(lia)) as Hf.
  assert (Hq : b / 2 ^ 23 = (if 2 ^ 31 <=? b then 256 else 0) + b / 2 ^ 23 mod 256).
  { destruct (Z.leb_spec (2 ^ 31) b) as [Hs|Hs].
    - assert (256 <= b / 2 ^ 23 < 512) by (split; [apply Z.div_le_lower_bound|apply Z.div_lt_upper_bound]; lia).
      assert (b / 2 ^ 23 mod 256 = b / 2 ^ 23 - 256); [|lia]. rewrite <- (Z.mod_add _ (-1)) by lia. apply Z.mod_small. lia.
    - assert (0 <= b / 2 ^ 23 < 256) by (split; [apply Z.div_pos|apply Z.div_lt_upper_bound]; lia). rewrite Z.mod_small by lia. done. }
  pose proof (Z.div_mod b (2 ^ 23) ltac:(lia)) as Hdm. set (ex := b / 2 ^ 23 mod 256) in *. set (fr := b mod 2 ^ 23) in *.
  assert (Hs : (if 2 ^ 31 <=? b then 2 ^ 31 else 0) = 2 ^ 23 * (if 2 ^ 31 <=? b then 256 else 0)) by (by destruct (2 ^ 31 <=? b)).
  set (s := 2 ^ 31 <=? b) in *. clearbody s ex fr.
  destruct (Z.eqb_spec ex 255) as [->|].
  - destruct (Z.eqb_spec fr 0) as [->|]; [|done]. intros _. cbn [float_bits]. lia.
  - destruct (Z.eqb_spec ex 0) as [->|].
    + destruct fr as [|m|m] eqn:E; [intros _; cbn [float_bits]; lia| |lia]. intros _. cbn [float_bits].
      rewrite (proj2 (Z.ltb_lt (Zpos m) (2 ^ 23))) by lia. lia.
    + destruct (fr + 2 ^ 23) as [|m|m] eqn:E; [lia| |lia]. intros _. cbn [float_bits].
      rewrite (proj2 (Z.ltb_ge (Zpos m) (2 ^ 23))) by lia. lia.
Qed.
