(* ===== verification/FloatValid.v ===== *)
(** * Rounding yields numbers of the format

    [binary_normalize] and the correctly rounded quotient give values of their
    format: what is read by [strtod], narrowed to a [float] or converted from
    an integer is one, so the printing bounds apply to it. *)

From Stdlib Require Import SpecFloat.
From S2P Require Import Prelude Float.

(** ** The number of binary digits *)

Lemma digits_log m : 0 < m -> Zdigits2 m = Z.log2 m + 1.
Proof.
  intros H. destruct m as [|p|]; try lia. cbn [Zdigits2]. pose proof (digits2_bounds p) as Hb.
  rewrite (Z.log2_unique (Zpos p) (Zpos (digits2_pos p) - 1)); [lia|lia|]. by replace (Z.succ (Zpos (digits2_pos p) - 1)) with (Zpos (digits2_pos p)) by lia.
Qed.
Lemma digits_nonneg m : 0 <= m -> 0 <= Zdigits2 m.
Proof. intros H. destruct m; cbn; lia. Qed.
Lemma digits_mono m n : 0 <= m <= n -> Zdigits2 m <= Zdigits2 n.
Proof.
  intros [H1 H2]. destruct (Z.eq_dec m 0) as [->|]; [apply digits_nonneg; lia|]. rewrite !digits_log by lia.
  pose proof (Z.log2_le_mono m n H2). lia.
Qed.
Lemma digits_shiftr m n : 0 <= m -> 0 <= n -> Zdigits2 (Z.shiftr m n) = Z.max 0 (Zdigits2 m - n).
Proof.
  intros Hm Hn. destruct (Z.eq_dec m 0) as [->|H0]; [rewrite Z.shiftr_0_l; cbn; lia|].
  assert (0 <= Z.shiftr m n) by (by apply Z.shiftr_nonneg). rewrite (digits_log m) by lia.
  destruct (Z.eq_dec (Z.shiftr m n) 0) as [E|E].
  - rewrite E. apply Z.shiftr_eq_0_iff in E. cbn. lia.
  - rewrite digits_log, Z.log2_shiftr by lia. assert (~ Z.log2 m < n); [|lia]. intros Hl. apply E, Z.shiftr_eq_0; lia.
Qed.
Lemma digits_shiftl m n : 0 < m -> 0 <= n -> Zdigits2 (Z.shiftl m n) = Zdigits2 m + n.
Proof. intros Hm Hn. rewrite (digits_log m), digits_log, Z.log2_shiftl by (rewrite ?Z.shiftl_mul_pow2 by lia; lia). lia. Qed.
Lemma digits_div a b : 0 <= a -> 0 < b -> Zdigits2 a - Zdigits2 b <= Zdigits2 (a / b).
Proof.
  intros Ha Hb. destruct (Z.eq_dec a 0) as [->|]; [rewrite Z.div_0_l by lia; pose proof (digits_nonneg b); cbn; lia|].
  rewrite (digits_log a), (digits_log b) by lia. destruct (Z.lt_ge_cases a b) as [Hl|Hl].
  - rewrite Z.div_small by lia. pose proof (Z.log2_le_mono a b). cbn. lia.
  - assert (0 < a / b) by (apply Z.div_str_pos; lia). rewrite digits_log by lia.
    pose proof (Z.log2_spec (a / b) ltac:(lia)). pose proof (Z.log2_spec b Hb). pose proof (Z.log2_nonneg (a / b)). pose proof (Z.log2_nonneg b).
    assert (Z.log2 a < Z.succ (Z.log2 (a / b)) + Z.succ (Z.log2 b)); [|lia]. apply Z.log2_lt_pow2; [lia|]. rewrite Z.pow_add_r by lia.
    pose proof (Z.mul_succ_div_gt a b Hb). nia.
Qed.

(** ** Rounding *)

Section Round.
Context (prec emax : Z).
Abbreviation fx := (fexp prec emax).

Lemma fexp_mono a b : a <= b -> fx a <= fx b.
Proof. unfold fexp. lia. Qed.

Lemma shr_1_m r : 0 <= shr_m r -> shr_m (shr_1 r) = Z.shiftr (shr_m r) 1.
Proof. destruct r as [m r s]. cbn [shr_m]. intros H. destruct m as [|[p|p|]|]; try done; lia. Qed.
Lemma shr_iter p r : 0 <= shr_m r -> shr_m (SpecFloat.iter_pos shr_1 p r) = Z.shiftr (shr_m r) (Zpos p).
Proof.
  revert r. induction p as [p IH|p IH|]; intros r Hr; cbn [SpecFloat.iter_pos]; [| |by apply shr_1_m].
  - pose proof (shr_1_m r Hr) as E1. assert (H1 : 0 <= shr_m (shr_1 r)) by (rewrite E1; by apply Z.shiftr_nonneg).
    assert (H2 : 0 <= shr_m (SpecFloat.iter_pos shr_1 p (shr_1 r))) by (rewrite IH by done; by apply Z.shiftr_nonneg).
    rewrite !IH, E1, !Z.shiftr_shiftr by (done || lia). f_equal. lia.
  - assert (H2 : 0 <= shr_m (SpecFloat.iter_pos shr_1 p r)) by (rewrite IH by done; by apply Z.shiftr_nonneg).
    rewrite !IH, !Z.shiftr_shiftr by (done || lia). f_equal. lia.
Qed.

(** Bringing a mantissa to the exponent of its format. *)
Lemma shr_fexp_spec m e l r e' : 0 <= m -> e <= fx (Zdigits2 m + e) -> shr_fexp prec emax m e l = (r, e') ->
  e' = fx (Zdigits2 m + e) /\ 0 <= shr_m r /\ Zdigits2 (shr_m r) = Z.max 0 (Zdigits2 m - (e' - e)).
Proof.
  intros Hm He. unfold shr_fexp, shr. assert (E0 : shr_m (shr_record_of_loc m l) = m) by (by destruct l as [|[]]).
  destruct (fx (Zdigits2 m + e) - e) as [|p|p] eqn:En; [| |lia].
  - intros [= <- <-]. rewrite E0. pose proof (digits_nonneg m Hm). split_and!; [lia|lia|lia].
  - intros [= <- <-]. rewrite shr_iter, E0 by lia. split_and!; [lia|by apply Z.shiftr_nonneg|]. rewrite digits_shiftr by lia. f_equal. lia.
Qed.
Lemma round_nearest_even_range m l : 0 <= m -> m <= round_nearest_even m l <= m + 1.
Proof. intros H. destruct l as [|[]]; cbn [round_nearest_even]; try lia. destruct (Z.even m); lia. Qed.

Lemma binary_round_aux_valid s m e l : 0 <= m -> e <= fx (Zdigits2 m + e) ->
  valid_binary prec emax (binary_round_aux prec emax s m e l) = true.
Proof.
  intros Hm He. unfold binary_round_aux. destruct (shr_fexp prec emax m e l) as [r1 e1] eqn:E1.
  apply shr_fexp_spec in E1 as (He1 & H1 & D1); [|done..]. pose proof (round_nearest_even_range (shr_m r1) (loc_of_shr_record r1) H1) as Hr.
  set (m2 := round_nearest_even (shr_m r1) (loc_of_shr_record r1)) in *. clearbody m2.
  destruct (shr_fexp prec emax m2 e1 loc_Exact) as [r2 e2] eqn:E2.
  destruct (Z.eq_dec m2 0) as [->|H0].
  { unfold shr_fexp, shr in E2. cbn [shr_record_of_loc Zdigits2] in E2.
    assert (E : shr_m r2 = 0); [|by rewrite E]. destruct (fx (0 + e1) - e1); [|pose proof (shr_iter p {| shr_m := 0; shr_r := false; shr_s := false |} ltac:(by cbn)) as Hi|];
      injection E2 as <- <-; [done| |done]. rewrite Hi. apply Z.shiftr_0_l. }
  assert (Hd : Zdigits2 m + e <= Zdigits2 m2 + e1).
  { destruct (Z.eq_dec (shr_m r1) 0) as [Z0|Z0].
    - rewrite Z0 in D1. cbn in D1. assert (0 < m2) by lia. pose proof (digits_log m2 ltac:(lia)). pose proof (Z.log2_nonneg m2). lia.
    - pose proof (digits_mono (shr_m r1) m2 ltac:(lia)). lia. }
  apply shr_fexp_spec in E2 as (He2 & H2 & D2); [|lia|rewrite He1 at 1; by apply fexp_mono].
  destruct (shr_m r2) as [|q|q] eqn:Eq; [done| |lia]. destruct (Z.leb_spec e2 (emax - prec)); [|done].
  cbn [valid_binary]. unfold bounded, canonical_mantissa. apply andb_true_iff. split; [|lia]. apply Z.eqb_eq.
  cbn [Zdigits2] in D2. replace (Zpos (digits2_pos q) + e2) with (Zdigits2 m2 + e1) by lia. done.
Qed.

Lemma shl_align_spec p e e' q x : shl_align p e e' = (q, x) -> x = Z.min e e' /\ Zpos q = Z.shiftl (Zpos p) (e - x).
Proof.
  unfold shl_align. destruct (e' - e) as [|d|d] eqn:E; intros [= <- <-]; [split; [lia|]..].
  - replace (e - e) with 0 by lia. done.
  - replace (e - e) with 0 by lia. done.
  - replace (e - e') with (Zpos d) by lia. rewrite Z.shiftl_mul_pow2, Z.mul_comm by lia. apply (shift_pos_correct d p).
Qed.
Lemma binary_round_valid s p e : valid_binary prec emax (binary_round prec emax s p e) = true.
Proof.
  unfold binary_round. destruct (shl_align _ _ _) as [q x] eqn:E. apply shl_align_spec in E as (Hx & Hq).
  apply binary_round_aux_valid; [lia|]. rewrite Hq, digits_shiftl by lia. cbn [Zdigits2]. 
  replace (Zpos (digits2_pos p) + (e - x) + x) with (Zpos (digits2_pos p) + e) by lia. lia.
Qed.
Lemma binary_normalize_valid m e s : valid_binary prec emax (binary_normalize prec emax m e s) = true.
Proof. destruct m; cbn [binary_normalize]; [done|apply binary_round_valid..]. Qed.

Lemma div_core_valid s m d : 0 < m -> 0 < d ->
  valid_binary prec emax (let '(q, x, l) := SFdiv_core_binary prec emax m 0 d 0 in binary_round_aux prec emax s q x l) = true.
Proof.
  intros Hm Hd. unfold SFdiv_core_binary. set (x := Z.min _ _). 
  assert (Hx : x <= fx (Zdigits2 m - Zdigits2 d) /\ x <= 0) by (subst x; replace (Zdigits2 m + 0 - (Zdigits2 d + 0)) with (Zdigits2 m - Zdigits2 d) by lia; lia).
  clearbody x. replace (0 - 0 - x) with (- x) by lia.
  set (m' := match - x with 0 => m | Zpos _ => Z.shiftl m (- x) | Zneg _ => 0 end).
  assert (Hm' : m' = Z.shiftl m (- x)) by (subst m'; destruct (- x) eqn:E; [done|done|lia]). clearbody m'.
  assert (H0 : 0 < m') by (rewrite Hm', Z.shiftl_mul_pow2 by lia; lia).
  assert (Hq : m' / d = fst (Z.div_eucl m' d)) by (unfold Z.div; by destruct (Z.div_eucl m' d)).
  destruct (Z.div_eucl m' d) as [q r]. cbn [fst] in Hq. subst q. apply binary_round_aux_valid; [apply Z.div_pos; lia|].
  etrans; [apply (proj1 Hx)|]. apply fexp_mono. pose proof (digits_div m' d ltac:(lia) Hd) as H. rewrite Hm', digits_shiftl in H by lia. rewrite Hm'. lia.
Qed.
End Round.

(** ** The conversions *)

Lemma valid64_of_int n : valid64 (of_int n) = true.
Proof. apply binary_normalize_valid. Qed.
Lemma valid32_to_float d : valid32 (to_float d) = true.
Proof. destruct d; try done. apply binary_normalize_valid. Qed.
Lemma valid64_to_double f : valid64 (to_double f) = true.
Proof. destruct f; try done. apply binary_normalize_valid. Qed.
Lemma valid64_scaled s m b e : 0 <= m -> 0 < b -> valid64 (scaled s m b e) = true.
Proof.
  intros Hm Hb. unfold scaled. destruct (Z.eqb_spec m 0); [done|]. destruct (Z.leb_spec 0 e); [apply binary_normalize_valid|].
  apply (div_core_valid 53 1024); [lia|]. apply Z.pow_pos_nonneg; lia.
Qed.

(** ** What is read *)

Lemma run_digits_nonneg dv base acc k l : (forall c d, dv c = Some d -> 0 <= d) -> 0 <= base -> 0 <= acc ->
  0 <= fst (fst (run_digits dv base acc k l)).
Proof.
  intros Hd Hb. revert acc k. induction l as [|c l IH]; intros acc k Ha; cbn [run_digits]; [done|].
  destruct (dv c) as [d|] eqn:E; [|done]. apply IH. apply Hd in E. nia.
Qed.
Lemma mantissa_nonneg dv base l a f r : (forall c d, dv c = Some d -> 0 <= d) -> 0 <= base -> mantissa dv base l = Some (a, f, r) -> 0 <= a.
Proof.
  intros Hd Hb. unfold mantissa. pose proof (run_digits_nonneg dv base 0 0 l Hd Hb ltac:(lia)) as H.
  destruct (run_digits dv base 0 0 l) as [[a0 k] t]. cbn [fst] in H.
  destruct t as [|c t]; [destruct (_ =? 0)%nat; intros; by simplify_eq|]. destruct (c =? 46).
  - pose proof (run_digits_nonneg dv base a0 0 t Hd Hb H) as H'. destruct (run_digits dv base a0 0 t) as [[a1 k1] t1].
    destruct (_ =? 0)%nat; intros; by simplify_eq.
  - destruct (_ =? 0)%nat; intros; by simplify_eq.
Qed.
Lemma hexval_nonneg c d : hexval c = Some d -> 0 <= d.
Proof. unfold hexval, isdigit. repeat case_match; intros; simplify_eq; lia. Qed.
Lemma decval_nonneg c d : decval c = Some d -> 0 <= d.
Proof. unfold decval, isdigit. repeat case_match; intros; simplify_eq; lia. Qed.

(** Every number read is a double. *)
Lemma strtod_valid u l x r b : strtod u l = Some (x, r, b) -> valid64 x = true.
Proof.
  unfold strtod. destruct (sign_of _) as [neg t]. destruct (subject neg t) as [[[y q] z]|] eqn:E; [|done]. intros [= <- _ _].
  unfold subject in E. destruct (eats _ t); [by simplify_eq|]. destruct (eats _ t); [by simplify_eq|]. destruct (eats _ t); [by simplify_eq|].
  destruct (match eats (bs "0x") t with Some h => mantissa hexval 16 h | None => None end) as [[[a f] r1]|] eqn:Eh.
  - destruct (eats _ t) as [h|]; [|done]. destruct (exponent 112 r1). simplify_eq. apply valid64_scaled; [|lia].
    eapply mantissa_nonneg; [apply hexval_nonneg| |done]. lia.
  - destruct (mantissa decval 10 t) as [[[a f] r1]|] eqn:Ed; [|done]. destruct (exponent 101 r1). simplify_eq. apply valid64_scaled; [|lia].
    eapply mantissa_nonneg; [apply decval_nonneg| |done]. lia.
Qed.
