(* ===== verification/Parse.v ===== *)
(** * The vector, corpus and index parsers
    (src/fractalsql_parse.c, src/fractalsql_interrupt.c)

    A text is its bytes; a [malloc]ed array is the elements written so far and
    its capacity.  The interruption hook is polled once per element and per
    row: [poll n] is its answer to the n-th poll of a call, and the count is
    threaded through. *)

From Stdlib Require Import SpecFloat.
From S2P Require Import Prelude Float.

Definition PARSE_MAX_ELEMS : Z := 1024 * 1024.

(** ** fractalsql_interrupt.c *)
Definition fractalsql_interrupt_fn : Type := nat -> bool.
Definition fractalsql_interrupt_hook_set (fn : option fractalsql_interrupt_fn) (g_hook : option fractalsql_interrupt_fn)
  : option fractalsql_interrupt_fn := fn.
Definition fractalsql_interrupt_poll (g_hook : option fractalsql_interrupt_fn) (n : nat) : bool :=
  match g_hook with Some h => h n | None => false end.

(** ** Overflow guard *)
Definition mul_ok (a b c : Z) : bool :=
  if negb (a =? 0) && (SIZE_MAX / a <? b) then false
  else negb (negb (c =? 0) && (SIZE_MAX / c <? u64 (a * b))).

Inductive parse_error :=
  | P_oom | P_interrupted | P_invalid | P_range | P_nonfinite | P_too_many | P_too_large | P_empty
  | P_row_dim (row got expected : nat) | P_negative.
#[export] Instance parse_error_eq_dec : EqDecision parse_error.
Proof. solve_decision. Defined.

Definition csv_sep (c : Z) : bool :=
  (c =? 32) || (c =? 9) || (c =? 44) || (c =? 91) || (c =? 93) || (c =? 10) || (c =? 13).
Definition is_blank (c : Z) : bool := (c =? 32) || (c =? 9) || (c =? 10) || (c =? 13).
Fixpoint skip (f : Z -> bool) (l : list Z) : list Z :=
  match l with c :: r => if f c then skip f r else l | [] => [] end.

(** Growing an array of [size]-byte elements that is full: its new capacity. *)
Definition grow (malloc : Z -> bool) (size cap : Z) : parse_error + Z :=
  let ncap := u64 (cap * 2) in
  if (ncap <? cap) || negb (mul_ok ncap size 1) then inl P_too_large
  else if malloc (u64 (ncap * size)) then inr ncap else inl P_oom.

Section Parsers.
Context (underflow : list Z -> bool).
Context (malloc : Z -> bool).              (* does an allocation of that many bytes succeed *)
Context (g_hook : option fractalsql_interrupt_fn).

(** One turn of [parse_vector_csv]'s loop: the text at [p], the elements, the
    capacity, the polls made. *)
Definition csv_turn (s : list Z * list double * Z * nat)
  : (list Z * list double * Z * nat) + ((parse_error + list double) * nat) :=
  let '(p, v, cap, k) := s in
  match p with
  | [] => inr (inr v, k)
  | _ =>
    if fractalsql_interrupt_poll g_hook k then inr (inl P_interrupted, S k) else
    let k := S k in
    let p := skip csv_sep p in
    match p with
    | [] => inr (inr v, k)
    | _ =>
      match strtod underflow p with
      | None => inr (inl P_invalid, k)
      | Some (d, e, erange) =>
        if erange then inr (inl P_range, k)
        else if negb (isfinite d) then inr (inl P_nonfinite, k)
        else if Z.of_nat (length v) =? PARSE_MAX_ELEMS then inr (inl P_too_many, k)
        else
          match (if Z.of_nat (length v) =? cap then grow malloc 8 cap else inr cap) with
          | inl x => inr (inl x, k)
          | inr cap => inl (e, v ++ [d], cap, k)
          end
      end
    end
  end.

Definition parse_vector_csv (src : list Z) (k : nat) : (parse_error + list double) * nat :=
  if negb (malloc (u64 (Z.of_nat (length src) + 1))) then (inl P_oom, k) else
  if negb (malloc (16 * 8)) then (inl P_oom, k) else
  let p := cstr src in
  match while csv_turn (S (length p)) (p, [], 16, k) with
  | Some (inr [], k) => (inl P_empty, k)
  | Some r => r
  | None => (inl P_oom, k)     (* never: the loop has fuel for every character *)
  end.

(** One turn of [parse_index_csv]'s loop. *)
Definition index_turn (s : list Z * list Z * Z * nat)
  : (list Z * list Z * Z * nat) + ((parse_error + list Z) * nat) :=
  let '(p, v, cap, k) := s in
  match p with
  | [] => inr (inr v, k)
  | _ =>
    if fractalsql_interrupt_poll g_hook k then inr (inl P_interrupted, S k) else
    let k := S k in
    let p := skip csv_sep p in
    match p with
    | [] => inr (inr v, k)
    | c :: _ =>
      if c =? 45 then inr (inl P_negative, k) else
      let '(neg, t) := sign_of (strip_space p) in
      if negb (isdigit (at_ t 0)) then inr (inl P_invalid, k) else
      let '(n, e) := digits_val 0 t in
      let x := if neg then - n else n in
      if (LONG_MAX <? x) || (x <? LONG_MIN) || (x <? 0) then inr (inl P_range, k)
      else
        match (if Z.of_nat (length v) =? cap then grow malloc 8 cap else inr cap) with
        | inl x => inr (inl x, k)
        | inr cap => inl (e, v ++ [x], cap, k)
        end
    end
  end.

Definition parse_index_csv (src : list Z) (k : nat) : (parse_error + list Z) * nat :=
  if negb (malloc (u64 (Z.of_nat (length src) + 1))) then (inl P_oom, k) else
  if negb (malloc (16 * 8)) then (inl P_oom, k) else
  let p := cstr src in
  match while index_turn (S (length p)) (p, [], 16, k) with
  | Some r => r
  | None => (inl P_oom, k)
  end.

(** ** [parse_corpus] *)

Definition row_tail (c : Z) : bool :=
  (c =? 32) || (c =? 9) || (c =? 93) || (c =? 44) || (c =? 10) || (c =? 13).
Definition row_head (c : Z) : bool :=
  (c =? 32) || (c =? 9) || (c =? 91) || (c =? 10) || (c =? 13).
(** The scan down from [hi] while the byte before it is in [f], no further
    than [lo]. *)
Fixpoint back (f : Z -> bool) (src : list Z) (lo hi : nat) : nat :=
  match hi with
  | O => O
  | S h => if (lo <? hi)%nat && f (at_ src h) then back f src lo h else hi
  end.
(** The scan up from [i] while the byte is in [f], no further than [hi]. *)
Definition fore (f : Z -> bool) (src : list Z) (i hi : nat) : nat :=
  (i + (length (take (hi - i) (drop i src)) - length (skip f (take (hi - i) (drop i src)))))%nat.

Record corpus := { store : list double; cap_rows : Z; n_rows : nat; c_dim : nat }.

(** A row's text: [src[s..end)] from [start], [end] at the separator. *)
Definition row_text (src : list Z) (start i : nat) : list Z :=
  let e := back row_tail src start i in
  let s := fore row_head src start e in
  take (e - s) (drop s src).

(** One separator: the row before it is parsed and appended. *)
Definition add_row (txt : list Z) (c : corpus) (k : nat) : (parse_error + corpus) * nat :=
  match txt with
  | [] => (inr c, k)
  | _ =>
    match parse_vector_csv txt k with
    | (inl x, k) => (inl x, k)
    | (inr row, k) =>
      let dim := if (c_dim c =? 0)%nat then length row else c_dim c in
      if negb (length row =? dim)%nat then (inl (P_row_dim (n_rows c) (length row) dim), k) else
      match
        if Z.of_nat (n_rows c) =? cap_rows c then
          let ncap := if cap_rows c =? 0 then 16 else u64 (cap_rows c * 2) in
          if (ncap <? cap_rows c) || negb (mul_ok ncap (Z.of_nat dim) 8) then inl P_too_large
          else if malloc (u64 (u64 (ncap * Z.of_nat dim) * 8)) then inr ncap else inl P_oom
        else inr (cap_rows c)
      with
      | inl x => (inl x, k)
      | inr cap => (inr {| store := store c ++ row; cap_rows := cap; n_rows := S (n_rows c); c_dim := dim |}, k)
      end
    end
  end.

(** One turn of the loop over [i <= srclen]. *)
Definition corpus_turn (src : list Z) (len : nat) (in_brackets : bool) (s : nat * nat * corpus * nat)
  : (nat * nat * corpus * nat) + ((parse_error + corpus) * nat) :=
  let '(i, start, c, k) := s in
  if (len <? i)%nat then inr (inr c, k) else
  let at_sep := (i =? len)%nat || (at_ src i =? 59) || (in_brackets && (at_ src i =? 91) && (start <? i)%nat) in
  if negb at_sep then inl (S i, start, c, k) else
  if fractalsql_interrupt_poll g_hook k then inr (inl P_interrupted, S k) else
  match add_row (row_text src start i) c (S k) with
  | (inl x, k) => inr (inl x, k)
  | (inr c, k) => inl (S i, if (i <? len)%nat && (at_ src i =? 91) then i else S i, c, k)
  end.

(** Where the rows start, where they end, and whether they are bracketed. *)
Definition corpus_frame (src : list Z) : nat * nat * bool :=
  let len := length src in
  let i := fore is_blank src 0 len in
  if (i <? len)%nat && (at_ src i =? 91) then
    let j := fore is_blank src (S i) len in
    if (j <? len)%nat && (at_ src j =? 91) then
      let i := S i in
      let e := back is_blank src i len in
      (i, if (i <? e)%nat && (at_ src (e - 1) =? 93) then (e - 1)%nat else e, true)
    else (i, len, false)
  else (i, len, false).

Definition parse_corpus (src : list Z) (expected_dim : nat) (k : nat)
  : (parse_error + (list double * nat * nat)) * nat :=
  let '(i, len, in_brackets) := corpus_frame src in
  if (len <=? fore (fun c => is_blank c || (c =? 91)%Z || (c =? 93)%Z) src i len)%nat then (inr ([], 0%nat, expected_dim), k) else
  match while (corpus_turn src len in_brackets) (S (S len)) (i, i, {| store := []; cap_rows := 0; n_rows := 0; c_dim := expected_dim |}, k) with
  | Some (inr c, k) => (inr (store c, n_rows c, c_dim c), k)
  | Some (inl x, k) => (inl x, k)
  | None => (inl P_oom, k)
  end.
End Parsers.
