(* ===== verification/ParseProofs.v ===== *)
(** * The parsers: what they accept, and that they stay inside their arrays *)

From Stdlib Require Import SpecFloat.
From S2P Require Import Prelude Float FloatValid Parse.

(** ** [strtod] reads a non-empty prefix *)

Lemma skip_suffix f l : skip f l `suffix_of` l.
Proof. induction l as [|c l IH]; cbn [skip]; [done|]. destruct (f c); [|done]. by apply suffix_cons_r. Qed.
Lemma skip_head f l c r : skip f l = c :: r -> f c = false.
Proof. induction l as [|x l IH]; cbn [skip]; [done|]. destruct (f x) eqn:E; [auto|]. intros. by simplify_eq. Qed.
Lemma skip_split f l : exists w, l = w ++ skip f l /\ Forall (fun c => f c = true) w.
Proof.
  induction l as [|c l (w & E & H)]; cbn [skip]; [by exists []|]. destruct (f c) eqn:Ec; [|by exists []].
  exists (c :: w). split; [cbn; by f_equal|by constructor].
Qed.
Lemma skip_app f w l : Forall (fun c => f c = true) w -> skip f (w ++ l) = skip f l.
Proof. induction 1 as [|c w H _ IH]; [done|]. cbn [app skip]. by rewrite H. Qed.
Lemma strip_space_suffix l : strip_space l `suffix_of` l.
Proof. induction l as [|c l IH]; cbn [strip_space]; [done|]. case_match; [|done]. by apply suffix_cons_r. Qed.
Lemma sign_suffix l : snd (sign_of l) `suffix_of` l.
Proof. destruct l as [|c l]; cbn [sign_of]; [done|]. repeat case_match; cbn [snd]; try done; by apply suffix_cons_r. Qed.

Lemma run_digits_suffix dv b acc k l a k' r : run_digits dv b acc k l = (a, k', r) ->
  r `suffix_of` l /\ (k' + length r = k + length l)%nat.
Proof.
  revert acc k. induction l as [|c l IH]; intros acc k H; cbn [run_digits] in H; [by simplify_eq|].
  destruct (dv c); [|by simplify_eq]. apply IH in H as [H1 H2]. split; [by apply suffix_cons_r|cbn [length]; lia].
Qed.
Lemma digits_val_suffix acc l a r : digits_val acc l = (a, r) -> r `suffix_of` l.
Proof.
  revert acc. induction l as [|c l IH]; intros acc H; cbn [digits_val] in H; [by simplify_eq|].
  destruct (isdigit c); [|by simplify_eq]. apply suffix_cons_r. eauto.
Qed.
Lemma exponent_suffix c l x r : exponent c l = (x, r) -> r `suffix_of` l.
Proof.
  unfold exponent. destruct l as [|d t]; [intros; by simplify_eq|]. destruct (tolower d =? c); [|intros; by simplify_eq].
  pose proof (sign_suffix t) as Hs. destruct (sign_of t) as [neg u]. cbn [snd] in Hs.
  destruct u as [|y u]; [intros; by simplify_eq|]. destruct (isdigit y); [|intros; by simplify_eq].
  destruct (digits_val 0 (y :: u)) as [v w] eqn:E. intros. simplify_eq. apply suffix_cons_r. etrans; [|done].
  by eapply digits_val_suffix.
Qed.

(** A proper suffix. *)
Definition inside (r l : list Z) : Prop := r `suffix_of` l /\ (length r < length l)%nat.
Lemma inside_l r s l : r `suffix_of` s -> inside s l -> inside r l.
Proof. intros H [H1 H2]. split; [by etrans|]. apply suffix_length in H. lia. Qed.
Lemma inside_r r s l : inside r s -> s `suffix_of` l -> inside r l.
Proof. intros [H1 H2] H. split; [by etrans|]. apply suffix_length in H. lia. Qed.

Lemma mantissa_inside dv b l a f r : mantissa dv b l = Some (a, f, r) -> inside r l.
Proof.
  unfold mantissa. destruct (run_digits dv b 0 0 l) as [[a0 k] r0] eqn:E. apply run_digits_suffix in E as [E1 E2].
  assert (Hz : forall r, r = r0 -> (k + 0 =? 0)%nat = false -> inside r l).
  { intros ? -> Hk. apply Nat.eqb_neq in Hk. split; [done|lia]. }
  destruct r0 as [|c t]; [case_match eqn:Hk; intros; simplify_eq; by apply Hz|].
  destruct (c =? 46); [|case_match eqn:Hk; intros; simplify_eq; by apply Hz].
  destruct (run_digits dv b a0 0 t) as [[a1 f1] r1] eqn:F. apply run_digits_suffix in F as [F1 F2].
  case_match; intros; simplify_eq. apply inside_l with t; [done|]. apply inside_r with (c :: t); [|done].
  split; [by apply suffix_cons_r|cbn; lia].
Qed.
Lemma eats_inside w l r : w <> [] -> eats w l = Some r -> inside r l.
Proof.
  unfold eats. case_bool_decide as E; [|done]. intros Hw [= <-]. split; [apply suffix_drop|].
  rewrite length_drop. apply (f_equal length) in E. rewrite length_map, length_take in E.
  assert (length w <> 0%nat) by (by destruct w). lia.
Qed.
Lemma skip_nchars_suffix l : skip_nchars l `suffix_of` l.
Proof. induction l as [|c l IH]; cbn [skip_nchars]; [done|]. case_match; [|done]. by apply suffix_cons_r. Qed.
Lemma nan_tail r : (match r with c :: t => if c =? 40 then match skip_nchars t with d :: u => if d =? 41 then u else r | [] => r end else r | [] => r end) `suffix_of` r.
Proof.
  destruct r as [|c t]; [done|]. destruct (c =? 40); [|done]. pose proof (skip_nchars_suffix t) as H.
  destruct (skip_nchars t) as [|d u]; [done|]. destruct (d =? 41); [|done]. apply suffix_cons_r. etrans; [|done]. by apply suffix_cons_r.
Qed.

Lemma subject_inside neg l x r e : subject neg l = Some (x, r, e) -> inside r l.
Proof.
  unfold subject. destruct (eats (bs "infinity") l) as [q|] eqn:E1; [intros; simplify_eq; by apply eats_inside in E1|].
  destruct (eats (bs "inf") l) as [q|] eqn:E2; [intros; simplify_eq; by apply eats_inside in E2|].
  destruct (eats (bs "nan") l) as [q|] eqn:E3.
  { intros. simplify_eq. apply inside_l with q; [apply nan_tail|by apply eats_inside in E3]. }
  destruct (match eats (bs "0x") l with Some h => mantissa hexval 16 h | None => None end) as [[[a f] q]|] eqn:E4.
  { destruct (eats (bs "0x") l) as [h|] eqn:E5; [|done]. apply mantissa_inside in E4. apply eats_inside in E5; [|done].
    destruct (exponent 112 q) as [y w] eqn:E6. apply exponent_suffix in E6. intros. simplify_eq.
    apply inside_l with q; [done|]. apply inside_r with h; [done|]. apply E5. }
  destruct (mantissa decval 10 l) as [[[a f] q]|] eqn:E5; [|done]. apply mantissa_inside in E5.
  destruct (exponent 101 q) as [y w] eqn:E6. apply exponent_suffix in E6. intros. simplify_eq. by apply inside_l with q.
Qed.
Lemma strtod_inside u l x r b : strtod u l = Some (x, r, b) -> inside r l.
Proof.
  unfold strtod. pose proof (sign_suffix (strip_space l)) as Hs. destruct (sign_of (strip_space l)) as [neg t]. cbn [snd] in Hs.
  destruct (subject neg t) as [[[y w] e]|] eqn:E; [|done]. apply subject_inside in E. intros. simplify_eq.
  apply inside_r with t; [done|]. etrans; [done|apply strip_space_suffix].
Qed.

(** ** Numbers separated by separators *)

Section Spec.
Context (underflow : list Z -> bool).

(** The texts a vector is read from, with its elements. *)
Inductive numbers : list Z -> list double -> Prop :=
  | numbers_end w : Forall (fun c => csv_sep c = true) w -> numbers w []
  | numbers_next w t d r vs :
      Forall (fun c => csv_sep c = true) w -> csv_sep (at_ t 0) = false ->
      strtod underflow t = Some (d, r, false) -> isfinite d = true -> numbers r vs -> numbers (w ++ t) (d :: vs).

(** The text is read in one way only. *)
Lemma numbers_inv p vs : numbers p vs ->
  match skip csv_sep p with
  | [] => vs = []
  | t => exists d r vs', strtod underflow t = Some (d, r, false) /\ isfinite d = true /\ numbers r vs' /\ vs = d :: vs'
  end.
Proof.
  intros [w Hw|w t d r vs' Hw Ht Hd Hf Hn].
  - pose proof (skip_app csv_sep w [] Hw) as H. rewrite app_nil_r in H. by rewrite H.
  - rewrite skip_app by done. destruct t as [|c t]; [done|]. cbn [skip]. cbn [at_ nth] in Ht. rewrite Ht. by exists d, r, vs'.
Qed.
Lemma numbers_intro p : match skip csv_sep p with
  | [] => numbers p []
  | t => forall d r vs, strtod underflow t = Some (d, r, false) -> isfinite d = true -> numbers r vs -> numbers p (d :: vs)
  end.
Proof.
  destruct (skip_split csv_sep p) as (w & E & Hw). destruct (skip csv_sep p) as [|c t] eqn:Es.
  - rewrite E, app_nil_r. by constructor.
  - intros d r vs Hd Hf Hn. rewrite E. apply numbers_next with r; try done. by apply skip_head in Es.
Qed.
Lemma numbers_fun p vs : numbers p vs -> forall vs', numbers p vs' -> vs = vs'.
Proof.
  intros H. induction H as [w Hw|w t d r vs Hw Ht Hd Hf _ IH]; intros vs' H'; apply numbers_inv in H'.
  - pose proof (skip_app csv_sep w [] Hw) as H. rewrite app_nil_r in H. rewrite H in H'. done.
  - rewrite skip_app in H' by done. destruct t as [|c t]; [done|]. cbn [skip] in H'. cbn [at_ nth] in Ht. rewrite Ht in H'.
    destruct H' as (d' & r' & vs1 & Hd' & _ & Hn & ->). simplify_eq. f_equal. by apply IH.
Qed.

(** ** The loop *)

Lemma grow_small malloc cap n : 0 < cap -> cap <= 2 ^ 30 -> grow malloc 8 cap = inr n -> n = cap * 2.
Proof.
  unfold grow, mul_ok, SIZE_MAX. intros H1 H2. rewrite (u64_id (cap * 2)) by lia.
  repeat case_match; intros; by simplify_eq.
Qed.
Lemma grow_ok malloc cap : (forall n, malloc n = true) -> 0 < cap -> cap <= 2 ^ 30 -> grow malloc 8 cap = inr (cap * 2).
Proof.
  unfold grow, mul_ok, SIZE_MAX. intros Hm H1 H2. rewrite (u64_id (cap * 2)) by lia. rewrite Hm.
  rewrite (proj2 (Z.ltb_ge (cap * 2) cap)) by lia.
  assert (E : (18446744073709551615 / (cap * 2) <? 8) = false).
  { apply Z.ltb_ge. apply Z.div_le_lower_bound; lia. }
  change (2 ^ 64 - 1) with 18446744073709551615. rewrite E.
  rewrite (u64_id (cap * 2 * 8)) by lia. change (18446744073709551615 / 1) with 18446744073709551615.
  rewrite (proj2 (Z.ltb_ge _ (cap * 2 * 8))) by lia.
  by rewrite andb_false_r.
Qed.

(** A power-of-two multiple of 16. *)
Definition cap_ok (cap : Z) : Prop := exists j, 0 <= j <= 16 /\ cap = 16 * 2 ^ j.
Lemma cap_ok_bounds cap : cap_ok cap -> 0 < cap <= 2 ^ 20.
Proof.
  intros (j & Hj & ->). pose proof (Z.pow_pos_nonneg 2 j ltac:(lia) ltac:(lia)).
  pose proof (Z.pow_le_mono_r 2 j 16 ltac:(lia) ltac:(lia)) as Hp. change (2 ^ 16) with 65536 in Hp. change (2 ^ 20) with 1048576. lia.
Qed.
Lemma cap_ok_double cap : cap_ok cap -> cap < 2 ^ 20 -> cap_ok (cap * 2).
Proof.
  intros (j & Hj & ->) Hl. exists (j + 1). rewrite Z.pow_add_r by lia. split; [|lia]. split; [lia|].
  destruct (Z.eq_dec j 16) as [->|]; [|lia]. by vm_compute in Hl.
Qed.

Section Loop.
Context (malloc : Z -> bool) (g_hook : option fractalsql_interrupt_fn).
Abbreviation turn := (csv_turn underflow malloc g_hook).

Lemma csv_decreases s s' : turn s = inl s' -> (length (s'.1.1.1) < length (s.1.1.1))%nat.
Proof.
  destruct s as [[[p v] cap] k]. cbn [csv_turn]. intros H. destruct p as [|c p]; [done|].
  destruct (fractalsql_interrupt_poll g_hook k); [done|]. pose proof (skip_suffix csv_sep (c :: p)) as Hs.
  destruct (skip csv_sep (c :: p)) as [|x t]; [done|]. destruct (strtod underflow (x :: t)) as [[[d e] b]|] eqn:E; [|done].
  apply strtod_inside in E as [_ E]. apply suffix_length in Hs. repeat case_match; simplify_eq/=; cbn in *; lia.
Qed.

(** What the array holds when the loop is at [p]: it has room for the elements
    written, and it is the vector of the text before [p]. *)
Definition fits (v : list double) (cap : Z) : Prop :=
  cap_ok cap /\ Z.of_nat (length v) <= cap /\ Z.of_nat (length v) <= PARSE_MAX_ELEMS.
Lemma csv_room s s' : fits s.1.1.2 s.1.2 -> turn s = inl s' ->
  fits s'.1.1.2 s'.1.2 /\ Z.of_nat (length (s.1.1.2)) < s'.1.2.
Proof.
  destruct s as [[[p v] cap] k]. cbn [fst snd]. intros (Hc & Hl & Hm). pose proof (cap_ok_bounds _ Hc) as Hb. cbn [csv_turn].
  destruct p as [|c p]; [done|]. destruct (fractalsql_interrupt_poll g_hook k); [done|].
  destruct (skip csv_sep (c :: p)) as [|x t]; [done|]. destruct (strtod underflow (x :: t)) as [[[d e] b]|]; [|done].
  destruct b; [done|]. destruct (negb (isfinite d)); [done|]. destruct (Z.of_nat (length v) =? PARSE_MAX_ELEMS) eqn:E; [done|].
  assert (Hlt : Z.of_nat (length v) < PARSE_MAX_ELEMS) by lia. unfold PARSE_MAX_ELEMS in *.
  destruct (Z.of_nat (length v) =? cap) eqn:Ec.
  - destruct (grow malloc 8 cap) as [|n] eqn:Eg; [done|]. apply grow_small in Eg; [|lia..]. intros. simplify_eq/=. cbn [fst snd].
    unfold fits. rewrite length_app. cbn [length]. split_and!; [apply cap_ok_double; [done|]|..]; unfold PARSE_MAX_ELEMS; try lia.
  - intros. simplify_eq/=. unfold fits. rewrite length_app. cbn [length]. unfold PARSE_MAX_ELEMS. split_and!; try done; lia.
Qed.

Lemma csv_sound fuel s r k : fits s.1.1.2 s.1.2 -> while turn fuel s = Some (inr r, k) ->
  exists vs, numbers s.1.1.1 vs /\ r = s.1.1.2 ++ vs /\ Z.of_nat (length r) <= PARSE_MAX_ELEMS.
Proof.
  revert s. induction fuel as [|f IH]; intros s Hf; [done|]. cbn [while]. destruct (turn s) as [s'|[r' k']] eqn:E.
  - intros Hw. destruct (csv_room _ _ Hf E) as [Hf' _]. destruct (IH _ Hf' Hw) as (vs & Hn & -> & Hl).
    destruct s as [[[p v] cap] m]. cbn [csv_turn fst snd] in *. destruct p as [|c p]; [done|].
    destruct (fractalsql_interrupt_poll g_hook m); [done|]. pose proof (numbers_intro (c :: p)) as Hi.
    destruct (skip csv_sep (c :: p)) as [|x t]; [done|]. destruct (strtod underflow (x :: t)) as [[[d e] b]|] eqn:Ed; [|done].
    destruct b; [done|]. destruct (isfinite d) eqn:Ei; [|done]. cbn [negb] in E. repeat case_match; simplify_eq/=.
    all: exists (d :: vs); rewrite <- app_assoc in *; split_and!; [by apply (Hi d e)|done|done].
  - intros [= -> ->]. destruct Hf as (_ & _ & Hl). destruct s as [[[p v] cap] m]. cbn [csv_turn fst snd] in *. exists [].
    rewrite app_nil_r. destruct p as [|c p]; [simplify_eq; split_and!; [by constructor|done|done]|].
    destruct (fractalsql_interrupt_poll g_hook m); [done|]. pose proof (numbers_intro (c :: p)) as Hi.
    destruct (skip csv_sep (c :: p)) as [|x t]; [by simplify_eq|]. destruct (strtod underflow (x :: t)) as [[[d e] b]|]; repeat case_match; by simplify_eq.
Qed.

(** With memory and no interruption, a vector of at most a million numbers is
    read to its end. *)
Definition quiet : Prop := (forall n, malloc n = true) /\ forall k, fractalsql_interrupt_poll g_hook k = false.
Lemma csv_complete fuel p v cap k vs : quiet -> fits v cap -> (length p < fuel)%nat -> numbers p vs ->
  Z.of_nat (length (v ++ vs)) <= PARSE_MAX_ELEMS -> exists k', while turn fuel (p, v, cap, k) = Some (inr (v ++ vs), k').
Proof.
  intros [Hm Hq]. revert p v cap k vs. induction fuel as [|f IH]; intros p v cap k vs Hf Hl Hn Hmax; [lia|]. cbn [while].
  destruct (turn (p, v, cap, k)) as [s'|r] eqn:E.
  - pose proof (csv_decreases _ _ E) as Hd. destruct (csv_room (p, v, cap, k) s' Hf E) as [Hf' _]. cbn [csv_turn] in E. destruct p as [|c p]; [done|].
    rewrite Hq in E. apply numbers_inv in Hn. destruct (skip csv_sep (c :: p)) as [|x t]; [done|].
    destruct Hn as (d & r & vs' & Hd' & Hi & Hn & ->). rewrite Hd', Hi in E. cbn [negb] in E. repeat case_match; simplify_eq/=.
    all: replace (v ++ d :: vs') with ((v ++ [d]) ++ vs') in * by (by rewrite <- app_assoc).
    all: apply IH; [done|cbn in *; lia|done|done].
  - cbn [csv_turn] in E. destruct p as [|c p].
    { apply numbers_inv in Hn. cbn in Hn. subst. rewrite app_nil_r. simplify_eq. by eexists. }
    rewrite Hq in E. apply numbers_inv in Hn. destruct (skip csv_sep (c :: p)) as [|x t]; [subst; rewrite app_nil_r; simplify_eq; by eexists|].
    destruct Hn as (d & q & vs' & Hd' & Hi & Hn & ->). rewrite Hd', Hi in E. cbn [negb] in E.
    destruct Hf as (Hc & Hv & _). apply cap_ok_bounds in Hc. rewrite length_app in Hmax. cbn [length] in Hmax.
    destruct (Z.of_nat (length v) =? PARSE_MAX_ELEMS) eqn:E1; [lia|]. destruct (Z.of_nat (length v) =? cap); [|done].
    rewrite grow_ok in E; [done|done|lia|lia].
Qed.

Lemma cap_start : fits [] 16.
Proof. split_and!; [by exists 0|done|done]. Qed.

Lemma parse_vector_sound src k v k' : parse_vector_csv underflow malloc g_hook src k = (inr v, k') ->
  numbers (cstr src) v /\ (0 < length v)%nat /\ Z.of_nat (length v) <= PARSE_MAX_ELEMS.
Proof.
  unfold parse_vector_csv. destruct (malloc _); [|done]. destruct (malloc _); [|done]. cbn [negb].
  destruct (while turn _ _) as [[[x|r] k1]|] eqn:E; [done| |done]. apply csv_sound in E; [|apply cap_start].
  destruct E as (vs & Hn & -> & Hl). cbn [fst snd app] in *. destruct vs as [|d vs]; [done|]. intros. simplify_eq.
  split_and!; [done|cbn; lia|done].
Qed.
Lemma parse_vector_complete src k v : quiet -> numbers (cstr src) v -> (0 < length v)%nat ->
  Z.of_nat (length v) <= PARSE_MAX_ELEMS -> exists k', parse_vector_csv underflow malloc g_hook src k = (inr v, k').
Proof.
  intros Hq Hn H0 Hl. unfold parse_vector_csv. rewrite !(proj1 Hq). cbn [negb].
  destruct (csv_complete (S (length (cstr src))) (cstr src) [] 16 k v Hq cap_start ltac:(lia) Hn Hl) as [k' ->].
  destruct v; [cbn in H0; lia|]. by exists k'.
Qed.
End Loop.

Lemma numbers_finite p vs : numbers p vs -> Forall (fun d => isfinite d = true) vs.
Proof. induction 1; by constructor. Qed.
Lemma numbers_valid p vs : numbers p vs -> Forall (fun d => valid64 d = true) vs.
Proof. induction 1 as [|w t d r vs _ _ Hd _ _ IH]; constructor; [by apply strtod_valid in Hd|done]. Qed.
End Spec.

(** ** Rows *)

Definition rstrip (f : Z -> bool) (l : list Z) : list Z := rev (skip f (rev l)).
Definition trim (l : list Z) : list Z := skip row_head (rstrip row_tail l).

Lemma rstrip_snoc f l c : rstrip f (l ++ [c]) = if f c then rstrip f l else l ++ [c].
Proof. unfold rstrip. rewrite rev_unit. cbn [skip]. destruct (f c); [done|]. cbn [rev]. by rewrite rev_involutive. Qed.

(** The piece of a text between two indices. *)
Definition piece (src : list Z) (i j : nat) : list Z := take (j - i) (drop i src).
Lemma piece_nil src i j : (j <= i)%nat -> piece src i j = [].
Proof. intros. unfold piece. replace (j - i)%nat with 0%nat by lia. done. Qed.
Lemma piece_snoc src i j : (i <= j)%nat -> (j < length src)%nat -> piece src i (S j) = piece src i j ++ [at_ src j].
Proof.
  intros. unfold piece, at_. replace (S j - i)%nat with (S (j - i)) by lia.
  rewrite (take_S_r _ _ (nth j src 0)); [done|]. rewrite lookup_drop. replace (i + (j - i))%nat with j by lia.
  destruct (lookup_lt_is_Some_2 src j ltac:(lia)) as [x Hx]. by rewrite (nth_lookup_Some _ _ 0 _ Hx).
Qed.
Lemma piece_length src i j : (j <= length src)%nat -> length (piece src i j) = (j - i)%nat.
Proof. intros. unfold piece. rewrite length_take, length_drop. lia. Qed.

Lemma back_range f src lo hi : (lo <= hi)%nat -> (lo <= back f src lo hi <= hi)%nat.
Proof.
  induction hi as [|h IH]; intros; cbn [back]; [lia|]. destruct (lo <? S h)%nat eqn:E; [|cbn [andb]; lia].
  apply Nat.ltb_lt in E. cbn [andb]. destruct (f (at_ src h)); [|lia]. specialize (IH ltac:(lia)). lia.
Qed.
Lemma back_piece f src lo hi : (lo <= hi <= length src)%nat -> piece src lo (back f src lo hi) = rstrip f (piece src lo hi).
Proof.
  induction hi as [|h IH]; intros; cbn [back]; [by rewrite !piece_nil by lia|]. destruct (lo <? S h)%nat eqn:E.
  - apply Nat.ltb_lt in E. cbn [andb]. rewrite piece_snoc, rstrip_snoc by lia. destruct (f (at_ src h)); [apply IH; lia|].
    by rewrite <- piece_snoc by lia.
  - apply Nat.ltb_ge in E. cbn [andb]. by rewrite !piece_nil by lia.
Qed.
Lemma skip_length f l : (length (skip f l) <= length l)%nat.
Proof. apply suffix_length, skip_suffix. Qed.
Lemma drop_skip f l : drop (length l - length (skip f l)) l = skip f l.
Proof.
  destruct (skip_split f l) as (w & E & _). set (t := skip f l) in *. clearbody t. subst l. rewrite length_app.
  replace (length w + length t - length t)%nat with (length w) by lia. apply drop_app_length.
Qed.
Lemma piece_drop src i j n : drop n (piece src i j) = piece src (i + n) j.
Proof. unfold piece. rewrite skipn_firstn_comm, drop_drop. f_equal. lia. Qed.
Lemma fore_piece f src i j : piece src (fore f src i j) j = skip f (piece src i j).
Proof. rewrite <- drop_skip, piece_drop. done. Qed.
Lemma fore_range f src i j : (i <= j <= length src)%nat -> (i <= fore f src i j <= j)%nat.
Proof.
  intros. unfold fore. fold (piece src i j). pose proof (skip_length f (piece src i j)).
  pose proof (piece_length src i j ltac:(lia)). lia.
Qed.
Lemma row_text_trim src start i : (start <= i <= length src)%nat -> row_text src start i = trim (piece src start i).
Proof.
  intros. unfold row_text, trim. pose proof (back_range row_tail src start i ltac:(lia)). rewrite <- back_piece by lia.
  rewrite <- fore_piece by lia. done.
Qed.

(** The rows as the text is cut: at each [';'], and in the bracketed form
    before each ['['] that does not start a row. *)
Fixpoint pieces (br : bool) (cur l : list Z) : list (list Z) :=
  match l with
  | [] => [cur]
  | c :: r =>
      if c =? 59 then cur :: pieces br [] r
      else if br && (c =? 91) && negb (bool_decide (cur = [])) then cur :: pieces br [c] r
      else pieces br (cur ++ [c]) r
  end.

(** ** [parse_corpus] against its reference: cut, trim, parse each row *)

Section Corpus.
Context (underflow : list Z -> bool) (malloc : Z -> bool) (g_hook : option fractalsql_interrupt_fn).
Abbreviation row := (add_row underflow malloc g_hook).

Fixpoint add_rows (ps : list (list Z)) (c : corpus) (k : nat) : (parse_error + corpus) * nat :=
  match ps with
  | [] => (inr c, k)
  | p :: ps =>
      if fractalsql_interrupt_poll g_hook k then (inl P_interrupted, S k) else
      match row (trim p) c (S k) with
      | (inl x, k) => (inl x, k)
      | (inr c, k) => add_rows ps c k
      end
  end.

(** The text the rows are cut from, and whether it is bracketed. *)
Definition strip_close (l : list Z) : list Z :=
  match rev l with c :: r => if c =? 93 then rev r else l | [] => l end.
Definition frame_ref (src : list Z) : list Z * bool :=
  let s := skip is_blank src in
  match s with
  | c :: t =>
      if (c =? 91) && bool_decide (at_ (skip is_blank t) 0 = 91) then (strip_close (rstrip is_blank t), true) else (s, false)
  | [] => (s, false)
  end.
Definition corpus_ref (src : list Z) (expected_dim : nat) (k : nat)
  : (parse_error + (list double * nat * nat)) * nat :=
  let '(body, br) := frame_ref src in
  if bool_decide (skip (fun c => is_blank c || (c =? 91) || (c =? 93)) body = []) then (inr ([], 0%nat, expected_dim), k) else
  match add_rows (pieces br [] body) {| store := []; cap_rows := 0; n_rows := 0; c_dim := expected_dim |} k with
  | (inr c, k) => (inr (store c, n_rows c, c_dim c), k)
  | (inl x, k) => (inl x, k)
  end.

Lemma piece_cons src i j : (i < j)%nat -> (j <= length src)%nat -> piece src i j = at_ src i :: piece src (S i) j.
Proof.
  intros. destruct (lookup_lt_is_Some_2 src i ltac:(lia)) as [x Hx]. unfold piece. rewrite (drop_S _ _ _ Hx).
  replace (j - i)%nat with (S (j - S i)) by lia. cbn [take]. unfold at_. by rewrite (nth_lookup_Some _ _ 0 _ Hx).
Qed.
Lemma piece_empty src i j : (j <= length src)%nat -> (i <= j)%nat -> bool_decide (piece src i j = []) = (j <=? i)%nat.
Proof.
  intros Hj Hi. pose proof (piece_length src i j Hj) as Hl. case_bool_decide as E; symmetry; [apply Nat.leb_le|apply Nat.leb_gt].
  - rewrite E in Hl. cbn in Hl. lia.
  - destruct (Nat.eq_dec i j) as [->|]; [|lia]. rewrite piece_nil in E by lia. done.
Qed.

Lemma corpus_loop src len br n i start c k fuel :
  (len <= length src)%nat -> (i + n = len)%nat -> (start <= i)%nat -> (n + 2 <= fuel)%nat ->
  while (corpus_turn underflow malloc g_hook src len br) fuel (i, start, c, k) =
  Some (add_rows (pieces br (piece src start i) (piece src i len)) c k).
Proof.
  revert i start c k fuel. induction n as [|n IH]; intros i start c k fuel Hlen Hi Hs Hf; destruct fuel as [|f]; try lia.
  - cbn [while corpus_turn]. rewrite (proj2 (Nat.ltb_ge len i)) by lia. replace (i =? len)%nat with true by (symmetry; apply Nat.eqb_eq; lia).
    cbn [orb negb]. rewrite (piece_nil src i len) by lia. cbn [pieces add_rows]. destruct (fractalsql_interrupt_poll g_hook k); [done|].
    rewrite row_text_trim by lia. destruct (row _ c (S k)) as [[x|c'] k']; [done|]. destruct f as [|f]; [lia|]. cbn [while corpus_turn].
    by rewrite (proj2 (Nat.ltb_lt len (S i))) by lia.
  - cbn [while corpus_turn]. rewrite (proj2 (Nat.ltb_ge len i)) by lia. replace (i =? len)%nat with false by (symmetry; apply Nat.eqb_neq; lia).
    rewrite (piece_cons src i len) by lia. cbn [orb pieces]. rewrite piece_empty by lia. set (x := at_ src i). rewrite <- Nat.ltb_antisym.
    assert (Hskip : while (corpus_turn underflow malloc g_hook src len br) f (S i, start, c, k) =
      Some (add_rows (pieces br (piece src start i ++ [x]) (piece src (S i) len)) c k)).
    { unfold x. rewrite <- (piece_snoc src start i) by lia. apply IH; lia. }
    assert (Hsep : forall start' cur, (start' <= S i)%nat -> piece src start' (S i) = cur ->
      match (if fractalsql_interrupt_poll g_hook k then inr (inl P_interrupted, S k)
             else match row (row_text src start i) c (S k) with (inl y, k') => inr (inl y, k') | (inr c', k') => inl (S i, start', c', k') end) with
      | inl s => while (corpus_turn underflow malloc g_hook src len br) f s
      | inr r => Some r
      end = Some (add_rows (piece src start i :: pieces br cur (piece src (S i) len)) c k)).
    { intros start' cur Hst <-. cbn [add_rows]. destruct (fractalsql_interrupt_poll g_hook k); [done|]. rewrite row_text_trim by lia.
      destruct (row _ c (S k)) as [[y|c'] k']; [done|]. apply IH; lia. }
    destruct (x =? 59) eqn:E59.
    { cbn [orb negb]. replace (x =? 91) with false by lia. rewrite andb_false_r. apply Hsep; [lia|by apply piece_nil]. }
    cbn [orb]. destruct (br && (x =? 91) && (start <? i)%nat) eqn:Eb; cbn [negb]; [|done].
    apply andb_true_iff in Eb as [Eb Hsi]. apply andb_true_iff in Eb as [-> E91]. rewrite E91, (proj2 (Nat.ltb_lt i len)) by lia. cbn [andb].
    apply Hsep; [lia|]. by rewrite piece_snoc, piece_nil by lia.
Qed.

Lemma piece_full src : piece src 0 (length src) = src.
Proof. unfold piece. rewrite Nat.sub_0_r. apply firstn_all. Qed.
Lemma at_piece src i j : (i < j)%nat -> (j <= length src)%nat -> at_ (piece src i j) 0 = at_ src i.
Proof. intros. by rewrite piece_cons. Qed.

Lemma frame_spec src : let '(i, len, br) := corpus_frame src in (i <= len <= length src)%nat /\ frame_ref src = (piece src i len, br).
Proof.
  unfold corpus_frame, frame_ref. set (i := fore is_blank src 0 (length src)).
  pose proof (fore_range is_blank src 0 (length src) ltac:(lia)) as Hi. fold i in Hi.
  pose proof (fore_piece is_blank src 0 (length src)) as Hp. rewrite piece_full in Hp. fold i in Hp. rewrite <- Hp.
  destruct (i <? length src)%nat eqn:E; [apply Nat.ltb_lt in E|apply Nat.ltb_ge in E; cbn [andb]; rewrite (piece_nil src i) by lia; split; [lia|done]].
  assert (Hwhole : (i <= length src <= length src)%nat /\ (at_ src i :: piece src (S i) (length src), false) = (piece src i (length src), false))
    by (rewrite (piece_cons src i) by lia; split; [lia|done]).
  rewrite (piece_cons src i) by lia. cbn [andb]. destruct (at_ src i =? 91) eqn:E91; [|done]. cbn [andb].
  rewrite <- fore_piece. set (j := fore is_blank src (S i) (length src)).
  pose proof (fore_range is_blank src (S i) (length src) ltac:(lia)) as Hj. fold j in Hj.
  assert (Eb : bool_decide (at_ (piece src j (length src)) 0 = 91) = (j <? length src)%nat && (at_ src j =? 91)).
  { destruct (j <? length src)%nat eqn:Ej; [apply Nat.ltb_lt in Ej|apply Nat.ltb_ge in Ej; by rewrite piece_nil by lia].
    rewrite at_piece by lia. case_bool_decide; cbn [andb]; lia. }
  rewrite Eb. destruct ((j <? length src)%nat && (at_ src j =? 91)); [|done].
  rewrite <- back_piece by lia. set (e := back is_blank src (S i) (length src)).
  pose proof (back_range is_blank src (S i) (length src) ltac:(lia)) as He. fold e in He.
  destruct (S i <? e)%nat eqn:Ee.
  - apply Nat.ltb_lt in Ee. destruct e as [|h]; [lia|]. replace (S h - 1)%nat with h by lia. rewrite piece_snoc by lia.
    unfold strip_close. rewrite rev_unit. cbn [andb]. destruct (at_ src h =? 93); [rewrite rev_involutive; split; [lia|done]|].
    rewrite <- piece_snoc by lia. split; [lia|done].
  - apply Nat.ltb_ge in Ee. cbn [andb]. rewrite piece_nil by lia. split; [lia|done].
Qed.

Lemma parse_corpus_ref src expected_dim k :
  parse_corpus underflow malloc g_hook src expected_dim k = corpus_ref src expected_dim k.
Proof.
  unfold parse_corpus, corpus_ref. pose proof (frame_spec src) as H. destruct (corpus_frame src) as [[i len] br].
  destruct H as [Hi ->]. rewrite <- fore_piece.
  pose proof (fore_range (fun c => is_blank c || (c =? 91) || (c =? 93)) src i len ltac:(lia)) as Hr.
  rewrite piece_empty by lia. destruct (len <=? _)%nat; [done|].
  rewrite (corpus_loop src len br (len - i) i i) by lia. by rewrite (piece_nil src i i) by lia.
Qed.

(** ** The rows' store *)

(** What every row keeps: the rows are packed, each of the agreed dimension,
    and the array has room for them, at a size that did not wrap. *)
Record packed (expected : nat) (c : corpus) : Prop := {
  k_length : length (store c) = (n_rows c * c_dim c)%nat;
  k_room : Z.of_nat (n_rows c) <= cap_rows c;
  k_bytes : cap_rows c = 0 \/ (u64 (u64 (cap_rows c * Z.of_nat (c_dim c)) * 8) = cap_rows c * Z.of_nat (c_dim c) * 8 /\ 0 < cap_rows c < 2 ^ 64);
  k_dim : expected <> 0%nat -> c_dim c = expected;
  k_finite : Forall (fun d => isfinite d = true) (store c);
  k_none : c_dim c = 0%nat -> n_rows c = 0%nat /\ cap_rows c = 0
}.

Lemma mul_ok_spec a b c : 0 < a -> 0 <= b -> 0 < c -> mul_ok a b c = true -> a * b <= SIZE_MAX /\ a * b * c <= SIZE_MAX.
Proof.
  unfold mul_ok. intros Ha Hb Hc. assert (HS : 0 <= SIZE_MAX < 2 ^ 64) by (unfold SIZE_MAX; lia).
  pose proof (Z.mul_div_le SIZE_MAX a Ha). pose proof (Z.mul_div_le SIZE_MAX c Hc).
  destruct (negb (a =? 0) && (SIZE_MAX / a <? b)) eqn:E1; [done|].
  apply andb_false_iff in E1 as [E1|E1]; [lia|]. apply Z.ltb_ge in E1. assert (Hab : a * b <= SIZE_MAX) by nia.
  rewrite (u64_id (a * b)) by nia. intros E2. apply negb_true_iff, andb_false_iff in E2 as [E2|E2]; [lia|].
  apply Z.ltb_ge in E2. split; [done|]. nia.
Qed.

Lemma packed_row expected txt c k c' k' : packed expected c -> row txt c k = (inr c', k') -> packed expected c'.
Proof.
  unfold add_row. intros Hp. destruct txt as [|x txt]; [intros; by simplify_eq|].
  destruct (parse_vector_csv underflow malloc g_hook (x :: txt) k) as [[e|r] k1] eqn:Er; [done|].
  apply parse_vector_sound in Er as (Hn & H0 & Hmax). apply numbers_finite in Hn. unfold PARSE_MAX_ELEMS in Hmax.
  set (dim := if (c_dim c =? 0)%nat then length r else c_dim c). destruct (negb (length r =? dim)%nat) eqn:Ed; [done|].
  apply negb_false_iff, Nat.eqb_eq in Ed. destruct Hp as [H1 H2 H3 H4 H5 H6].
  assert (Hd : c_dim c = 0%nat \/ c_dim c = length r) by (unfold dim in Ed; destruct (c_dim c =? 0)%nat eqn:E; [left; lia|right; lia]).
  assert (Hl : length (store c ++ r) = (S (n_rows c) * dim)%nat).
  { rewrite length_app, H1, <- Ed. destruct Hd as [Hd|Hd]; [destruct (H6 Hd) as [-> _]|rewrite Hd]; lia. }
  assert (He : expected <> 0%nat -> dim = expected) by (intros Hne; specialize (H4 Hne); destruct Hd; lia).
  clearbody dim.
  destruct (Z.of_nat (n_rows c) =? cap_rows c) eqn:Ec.
  - set (ncap := if cap_rows c =? 0 then 16 else u64 (cap_rows c * 2)). destruct ((ncap <? cap_rows c) || negb (mul_ok ncap (Z.of_nat dim) 8)) eqn:E1; [done|].
    apply orb_false_iff in E1 as [Eg Em%negb_false_iff]. destruct (malloc _); [|done]. intros [= <- <-].
    assert (Hnc : cap_rows c < ncap < 2 ^ 64).
    { unfold ncap in *. destruct (cap_rows c =? 0) eqn:E0; [lia|]. pose proof (u64_range (cap_rows c * 2)).
      destruct H3 as [|[_ H3]]; [lia|]. destruct (Z.ltb_spec (cap_rows c * 2) (2 ^ 64)); [rewrite u64_id by lia; lia|].
      exfalso. unfold u64 in Eg. rewrite <- (Z.mod_add _ (-1)), Z.mod_small in Eg by lia. lia. }
    apply mul_ok_spec in Em as [Hm1 Hm2]; [unfold SIZE_MAX in *|lia..].
    constructor; cbn [store n_rows c_dim cap_rows]; [done|lia| |done|by apply Forall_app|lia].
    assert (0 <= ncap * Z.of_nat dim) by (apply Z.mul_nonneg_nonneg; lia). right. rewrite (u64_id (ncap * _)), u64_id by lia. split; [done|lia].
  - intros [= <- <-]. assert (Hd' : c_dim c = length r) by (destruct Hd as [Hd|]; [destruct (H6 Hd) as [E1 E2]; rewrite E1, E2 in Ec; done|done]).
    constructor; cbn [store n_rows c_dim cap_rows]; [done|lia|rewrite <- Ed, <- Hd'; done|done|by apply Forall_app|lia].
Qed.
Lemma packed_rows expected ps c k c' k' : packed expected c -> add_rows ps c k = (inr c', k') -> packed expected c'.
Proof.
  revert c k. induction ps as [|p ps IH]; intros c k Hp; cbn [add_rows]; [intros; by simplify_eq|].
  destruct (fractalsql_interrupt_poll g_hook k); [done|]. destruct (row (trim p) c (S k)) as [[x|c1] k1] eqn:E; [done|].
  apply IH. by eapply packed_row.
Qed.
Lemma packed_start expected : packed expected {| store := []; cap_rows := 0; n_rows := 0; c_dim := expected |}.
Proof. constructor; cbn; try done; try lia. Qed.

Lemma corpus_sound src expected k st n d k' :
  parse_corpus underflow malloc g_hook src expected k = (inr (st, n, d), k') ->
  length st = (n * d)%nat /\ (expected <> 0%nat -> d = expected) /\ Forall (fun x => isfinite x = true) st.
Proof.
  rewrite parse_corpus_ref. unfold corpus_ref. destruct (frame_ref src) as [body br].
  case_bool_decide; [intros; simplify_eq; by split_and!|].
  destruct (add_rows _ _ k) as [[x|c] k1] eqn:E; [done|]. intros. simplify_eq.
  apply (packed_rows expected) in E; [|apply packed_start]. destruct E. by split_and!.
Qed.

(** ** Cancellation

    A poll that answers yes is the last one: the call ends there, with the
    interruption. *)
Definition polled {A} (k : nat) (r : (parse_error + A) * nat) : Prop :=
  (k <= snd r)%nat /\
  forall j, (k <= j < snd r)%nat -> fractalsql_interrupt_poll g_hook j = true -> fst r = inl P_interrupted /\ snd r = S j.

Lemma polled_none {A} k (x : parse_error + A) : polled k (x, k).
Proof. split; cbn; [lia|intros; lia]. Qed.
Lemma polled_hit {A} k : polled (A := A) k (inl P_interrupted, S k).
Proof. split; cbn; [lia|]. intros. split; [done|lia]. Qed.
Lemma polled_step {A} k (r : (parse_error + A) * nat) : fractalsql_interrupt_poll g_hook k = false -> polled (S k) r -> polled k r.
Proof. intros Hk [H1 H2]. split; [lia|]. intros j Hj Hp. apply H2; [|done]. destruct (Nat.eq_dec j k) as [->|]; [congruence|lia]. Qed.
Lemma polled_bind {A B} k (x : parse_error + A) k1 (r : (parse_error + B) * nat) :
  polled k (x, k1) -> polled k1 r -> (x = inl P_interrupted -> r = (inl P_interrupted, k1)) -> polled k r.
Proof.
  intros [H1 H2] [H3 H4] Hx. cbn in *. split; [lia|]. intros j Hj Hp. destruct (Nat.lt_ge_cases j k1) as [Hlt|Hge].
  - destruct (H2 j ltac:(lia) Hp) as [-> ->]. by rewrite (Hx eq_refl).
  - apply H4; [lia|done].
Qed.

Lemma polled_err {A B} k k1 e : polled k ((inl e : parse_error + A), k1) -> polled k ((inl e : parse_error + B), k1).
Proof. intros [H1 H2]. split; [done|]. intros j Hj Hp. destruct (H2 j Hj Hp) as [He Hk]. cbn in *. split; [by simplify_eq|done]. Qed.
Lemma csv_polled fuel s r : while (csv_turn underflow malloc g_hook) fuel s = Some r -> polled s.2 r.
Proof.
  revert s. induction fuel as [|f IH]; intros [[[p v] cap] k]; [done|]. cbn [while csv_turn snd].
  destruct p as [|c p]; [intros; simplify_eq; apply polled_none|].
  destruct (fractalsql_interrupt_poll g_hook k) eqn:Ek; [intros; simplify_eq; apply polled_hit|].
  destruct (skip csv_sep (c :: p)) as [|y t]; [intros; simplify_eq; apply polled_step; [done|apply polled_none]|].
  destruct (strtod underflow (y :: t)) as [[[d e] b]|]; [|intros; simplify_eq; apply polled_step; [done|apply polled_none]].
  repeat case_match; intros; simplify_eq; apply polled_step; try done; try apply polled_none.
  all: match goal with H : while _ _ ?s = Some _ |- _ => apply (IH s H) end.
Qed.
Lemma vector_polled src k : polled k (parse_vector_csv underflow malloc g_hook src k).
Proof.
  unfold parse_vector_csv. destruct (malloc _); [|apply polled_none]. destruct (malloc _); [|apply polled_none]. cbn [negb].
  destruct (while _ _ _) as [[[x|v] k']|] eqn:E; [| |apply polled_none]; apply csv_polled in E; cbn [snd] in E; [done|].
  destruct v; [|done]. destruct E as [E1 E2]. split; [done|]. intros j Hj Hp. by destruct (E2 j Hj Hp) as [? _].
Qed.
Lemma row_polled txt c k : polled k (row txt c k).
Proof.
  unfold add_row. destruct txt as [|x txt]; [apply polled_none|]. pose proof (vector_polled (x :: txt) k) as H.
  destruct (parse_vector_csv underflow malloc g_hook (x :: txt) k) as [[e|r] k1].
  { by eapply polled_err. }
  repeat case_match; simplify_eq; apply (polled_bind k (inr r) k1); try done; apply polled_none.
Qed.
Lemma rows_polled ps c k : polled k (add_rows ps c k).
Proof.
  revert c k. induction ps as [|p ps IH]; intros c k; cbn [add_rows]; [apply polled_none|].
  destruct (fractalsql_interrupt_poll g_hook k) eqn:Ek; [apply polled_hit|]. apply polled_step; [done|].
  pose proof (row_polled (trim p) c (S k)) as H. destruct (row (trim p) c (S k)) as [[x|c'] k']; [|by apply (polled_bind _ (inr c') k')].
  by eapply polled_err.
Qed.
Lemma corpus_polled src expected k : polled k (parse_corpus underflow malloc g_hook src expected k).
Proof.
  rewrite parse_corpus_ref. unfold corpus_ref. destruct (frame_ref src) as [body br]. case_bool_decide as Hb; [apply polled_none|].
  pose proof (rows_polled (pieces br [] body) {| store := []; cap_rows := 0; n_rows := 0; c_dim := expected |} k) as H.
  destruct (add_rows _ _ k) as [[x|c] k'].
  - by eapply polled_err.
  - apply (polled_bind _ (inr c) k'); [done|apply polled_none|done].
Qed.
End Corpus.

(** ** What the parsers promise *)

(** With memory, and uninterrupted, the vector parser accepts exactly the
    texts (up to their first NUL) that are one to a million finite numbers
    between separators, none of them reported out of range by [strtod], and
    yields exactly those numbers. *)
Theorem vector_parser_exact underflow malloc g_hook src k v : quiet malloc g_hook ->
  fst (parse_vector_csv underflow malloc g_hook src k) = inr v <->
  numbers underflow (cstr src) v /\ (0 < length v)%nat /\ Z.of_nat (length v) <= PARSE_MAX_ELEMS.
Proof.
  intros Hq. split.
  - destruct (parse_vector_csv _ _ _ src k) as [r k'] eqn:E. cbn [fst]. intros ->. by apply parse_vector_sound in E.
  - intros (Hn & H0 & Hm). by destruct (parse_vector_complete underflow malloc g_hook src k v Hq Hn H0 Hm) as [k' ->].
Qed.

(** The corpus parser, which scans by index, is the reference that cuts the
    text into rows, trims each row, and parses and appends the rows one by one;
    the same on every text, every error and every interruption. *)
Theorem corpus_parser_reference underflow malloc g_hook src expected k :
  parse_corpus underflow malloc g_hook src expected k = corpus_ref underflow malloc g_hook src expected k.
Proof. apply parse_corpus_ref. Qed.

(** Whatever the rows, the store stays packed while they are appended: rows
    of the agreed dimension one behind the other, within a capacity whose size
    in bytes never wrapped; and what the parser returns is that store, every
    number in it finite, its length the rows times the dimension, the dimension
    the one the caller asked for. *)
Theorem corpus_rows_packed underflow malloc g_hook :
  (forall expected ps k c k',
     add_rows underflow malloc g_hook ps {| store := []; cap_rows := 0; n_rows := 0; c_dim := expected |} k = (inr c, k') -> packed expected c) /\
  (forall src expected k st n d k', parse_corpus underflow malloc g_hook src expected k = (inr (st, n, d), k') ->
     length st = (n * d)%nat /\ (expected <> 0%nat -> d = expected) /\ Forall (fun x => isfinite x = true) st).
Proof.
  split; [|intros; by eapply corpus_sound]. intros expected ps k c k' H. eapply packed_rows; [|exact H]. apply packed_start.
Qed.

(** A cancellation is honoured at the poll that sees it: the parse makes no
    further poll, hence reads no further element, and reports the interruption. *)
Theorem cancel_honoured underflow malloc g_hook src expected k r k' j :
  parse_corpus underflow malloc g_hook src expected k = (r, k') ->
  (k <= j < k')%nat -> fractalsql_interrupt_poll g_hook j = true -> r = inl P_interrupted /\ k' = S j.
Proof. intros E Hj Hp. pose proof (corpus_polled underflow malloc g_hook src expected k) as [_ H]. rewrite E in H. by apply H. Qed.

Lemma vector_parser_exact_witness : fst (parse_vector_csv (fun _ => false) (fun _ => true) None (bs "[1, 2]") 0) = inr [of_int 1; of_int 2] /\
  numbers (fun _ => false) (cstr (bs "[1, 2]")) [of_int 1; of_int 2].
Proof.
  assert (H : fst (parse_vector_csv (fun _ => false) (fun _ => true) None (bs "[1, 2]") 0) = inr [of_int 1; of_int 2]) by (vm_compute; reflexivity).
  split; [exact H|]. apply (vector_parser_exact (fun _ => false) (fun _ => true) None (bs "[1, 2]") 0%nat [of_int 1; of_int 2]); [|exact H].
  split; [intros; reflexivity|intros; reflexivity].
Defined.
Lemma corpus_rows_packed_witness : length [of_int 1; of_int 2; of_int 3; of_int 4] = (2 * 2)%nat.
Proof.
  assert (H : parse_corpus (fun _ => false) (fun _ => true) None (bs "1,2;3,4") 2 0 = (inr ([of_int 1; of_int 2; of_int 3; of_int 4], 2%nat, 2%nat), 6%nat))
    by (vm_compute; reflexivity).
  exact (proj1 (proj2 (corpus_rows_packed (fun _ => false) (fun _ => true) None) _ _ _ _ _ _ _ H)).
Defined.
Lemma cancel_honoured_witness : exists r k',
  parse_corpus (fun _ => false) (fun _ => true) (Some (fun n => Nat.eqb n 3)) (bs "1,2;3,4") 2 0 = (r, k') /\ r = inl P_interrupted /\ k' = 4%nat.
Proof.
  exists (inl P_interrupted), 4%nat.
  assert (H : parse_corpus (fun _ => false) (fun _ => true) (Some (fun n => Nat.eqb n 3)) (bs "1,2;3,4") 2 0 = (inl P_interrupted, 4%nat)) by (vm_compute; reflexivity).
  split; [exact H|]. apply (cancel_honoured (fun _ => false) (fun _ => true) (Some (fun n => Nat.eqb n 3)) (bs "1,2;3,4") 2%nat 0%nat _ _ 3%nat H); [lia|reflexivity].
Defined.
