(* ===== verification/Wire.v ===== *)
(** * The FSQ wire protocol (service/protocol/)

    The fixed-width little-endian fields, the 32-byte frame header, the
    constant-time tag comparison, the control opcodes (opcodes.def) and the
    function registry (functions.def) both ends are generated from. *)

From S2P Require Import Prelude.

Definition FSQ_MAGIC : list Z := bs "FSQ1".
Definition FSQ_PROTOCOL_VERSION : Z := 2.
Definition FSQ_HEADER_LEN : nat := 32.
Definition FSQ_TAG_LEN : Z := 32.
Definition FSQ_MAX_PAYLOAD : Z := 80 * 1024 * 1024.
Definition FSQ_MAX_ARGS : Z := 64.
Definition FSQ_MSG_MAX : Z := 512.
Definition FSQ_FLAG_RESPONSE : Z := 1.
Definition FSQ_FLAG_ERROR : Z := 2.

(** enum fsq_status *)
Definition FSQ_OK : Z := 0.
Definition FSQ_ERR_ARGS : Z := 1.
Definition FSQ_ERR_LIMIT : Z := 2.
Definition FSQ_ERR_CORE : Z := 3.
Definition FSQ_ERR_NOT_LICENSED : Z := 4.
Definition FSQ_ERR_AUTH : Z := 5.
Definition FSQ_ERR_INTERNAL : Z := 6.
Definition FSQ_ERR_NOTSUP : Z := 7.
Definition FSQ_ERR_BUSY : Z := 8.

(** enum fsq_type *)
Definition FSQ_T_NULL : Z := 0.
Definition FSQ_T_STRING : Z := 1.
Definition FSQ_T_INT : Z := 2.
Definition FSQ_T_REAL : Z := 3.
Definition FSQ_T_DECIMAL : Z := 4.
Definition FSQ_T_BINARY : Z := 5.

(** opcodes.def *)
Definition FSQ_OP_PING : Z := 1.
Definition FSQ_OP_VERSION : Z := 2.
Definition FSQ_OP_UDF_INIT : Z := 16.
Definition FSQ_OP_UDF_CALL : Z := 17.
Definition FSQ_OP_UDF_DEINIT : Z := 18.
Definition FSQ_OP_CANCEL : Z := 19.
Definition FSQ_OP_RELOAD : Z := 20.

(** ** Little-endian fields *)

Definition fsq_put_u16 (v : Z) : list Z := [u8 v; u8 (Z.shiftr v 8)].
Definition fsq_put_u32 (v : Z) : list Z :=
  map (fun i => u8 (Z.shiftr v (8 * Z.of_nat i))) (seq 0 4).
Definition fsq_put_u64 (v : Z) : list Z :=
  map (fun i => u8 (Z.shiftr v (8 * Z.of_nat i))) (seq 0 8).

Definition fsq_get_u16 (p : list Z) : Z :=
  u16 (Z.lor (at_ p 0) (Z.shiftl (at_ p 1) 8)).
Definition fsq_get_u32 (p : list Z) : Z :=
  Z.lor (Z.lor (Z.lor (at_ p 0) (Z.shiftl (at_ p 1) 8))
               (Z.shiftl (at_ p 2) 16)) (Z.shiftl (at_ p 3) 24).
(** [for (i = 7; i >= 0; i--) v = (v << 8) | p[i];] *)
Definition fsq_get_u64 (p : list Z) : Z :=
  fold_left (fun v i => Z.lor (u64 (Z.shiftl v 8)) (at_ p i)) [7;6;5;4;3;2;1;0]%nat 0.

(** ** The frame header *)

Record fsq_header := {
  h_version : Z;
  h_opcode : Z;
  h_flags : Z;
  h_request_id : Z;
  h_context : Z;
  h_auth_len : Z;
  h_payload_len : Z
}.

#[export] Instance fsq_header_eq_dec : EqDecision fsq_header.
Proof. solve_decision. Defined.

Definition fsq_header_encode (h : fsq_header) : list Z :=
  FSQ_MAGIC ++ fsq_put_u16 (h_version h) ++ fsq_put_u16 (h_opcode h) ++
  fsq_put_u32 (h_flags h) ++ fsq_put_u32 (h_request_id h) ++
  fsq_put_u64 (h_context h) ++ fsq_put_u32 (h_auth_len h) ++
  fsq_put_u32 (h_payload_len h).

(** [None] is the -1 of a bad magic. *)
Definition fsq_header_decode (inp : list Z) : option fsq_header :=
  if negb (bytes_eqb (take 4 inp) FSQ_MAGIC) then None
  else Some {|
    h_version := fsq_get_u16 (drop 4 inp);
    h_opcode := fsq_get_u16 (drop 6 inp);
    h_flags := fsq_get_u32 (drop 8 inp);
    h_request_id := fsq_get_u32 (drop 12 inp);
    h_context := fsq_get_u64 (drop 16 inp);
    h_auth_len := fsq_get_u32 (drop 24 inp);
    h_payload_len := fsq_get_u32 (drop 28 inp) |}.

(** The fields fit their C types. *)
Definition header_ok (h : fsq_header) : Prop :=
  0 <= h_version h < 2 ^ 16 /\ 0 <= h_opcode h < 2 ^ 16 /\
  0 <= h_flags h < 2 ^ 32 /\ 0 <= h_request_id h < 2 ^ 32 /\
  0 <= h_context h < 2 ^ 64 /\ 0 <= h_auth_len h < 2 ^ 32 /\
  0 <= h_payload_len h < 2 ^ 32.

(** ** Constant-time comparison of two tags *)
Definition fsq_ct_equal (a b : list Z) (n : nat) : bool :=
  fold_left (fun diff i => Z.lor diff (u8 (Z.lxor (at_ a i) (at_ b i)))) (seq 0 n) 0 =? 0.

(** ** The function registry (functions.def) *)

Inductive fsq_kind := FSQ_KIND_CTL | FSQ_KIND_STR | FSQ_KIND_INT | FSQ_KIND_REAL.
Inductive fsq_cls := cls_r | cls_s | cls_e.

#[export] Instance fsq_kind_eq_dec : EqDecision fsq_kind.
Proof. solve_decision. Defined.
#[export] Instance fsq_cls_eq_dec : EqDecision fsq_cls.
Proof. solve_decision. Defined.

Definition functions_def : list (list Z * fsq_kind * fsq_cls) :=
  [ (bs "fractal_search", FSQ_KIND_STR, cls_r);
    (bs "fractal_search_explore", FSQ_KIND_STR, cls_r);
    (bs "fractal_search_debug", FSQ_KIND_STR, cls_r);
    (bs "fractal_version", FSQ_KIND_STR, cls_r);
    (bs "fractal_edition", FSQ_KIND_STR, cls_r);
    (bs "fractal_dimension_dfa", FSQ_KIND_REAL, cls_r);
    (bs "fractal_dimension_boxcount", FSQ_KIND_REAL, cls_r);
    (bs "fractal_dimension_drift", FSQ_KIND_STR, cls_r);
    (bs "fractal_change_point_detect", FSQ_KIND_STR, cls_r);
    (bs "fractal_periodogram", FSQ_KIND_STR, cls_r);
    (bs "fractal_spectrogram_entropy", FSQ_KIND_STR, cls_r);
    (bs "fractal_state_fingerprint", FSQ_KIND_STR, cls_r);
    (bs "fractal_cycle_detect", FSQ_KIND_STR, cls_r);
    (bs "fractal_tda_persistence_diagram", FSQ_KIND_STR, cls_r);
    (bs "fractal_isolate_background", FSQ_KIND_INT, cls_r);
    (bs "fractal_optimize_portfolio", FSQ_KIND_STR, cls_r);
    (bs "fractal_optimize_subset", FSQ_KIND_STR, cls_r);
    (bs "fractal_optimize_portfolio_multimodal", FSQ_KIND_STR, cls_r);
    (bs "fractal_optimize_portfolio_multimodal_ex", FSQ_KIND_STR, cls_r);
    (bs "fractal_optimize_portfolio_multimodal_pareto", FSQ_KIND_STR, cls_r);
    (bs "fractal_vector", FSQ_KIND_STR, cls_r);
    (bs "fractal_vector_from_text", FSQ_KIND_STR, cls_r);
    (bs "fractal_vector_to_json", FSQ_KIND_STR, cls_r);
    (bs "fractal_vector_dims", FSQ_KIND_INT, cls_r);
    (bs "fractal_vector_norm", FSQ_KIND_REAL, cls_r);
    (bs "fractal_vector_normalize", FSQ_KIND_STR, cls_r);
    (bs "fractal_vector_add", FSQ_KIND_STR, cls_r);
    (bs "fractal_vector_sub", FSQ_KIND_STR, cls_r);
    (bs "fractal_vector_scale", FSQ_KIND_STR, cls_r);
    (bs "fractal_vector_l2_distance", FSQ_KIND_REAL, cls_r);
    (bs "fractal_vector_l2_squared", FSQ_KIND_REAL, cls_r);
    (bs "fractal_vector_cosine_distance", FSQ_KIND_REAL, cls_r);
    (bs "fractal_vector_cosine_similarity", FSQ_KIND_REAL, cls_r);
    (bs "fractal_vector_negative_inner_product", FSQ_KIND_REAL, cls_r);
    (bs "fractal_vector_from_float8_array", FSQ_KIND_STR, cls_r);
    (bs "fractal_vector_to_float8_array", FSQ_KIND_STR, cls_r);
    (bs "fractal_vector_lp_distance", FSQ_KIND_REAL, cls_r);
    (bs "fractal_vector_quantize_int8", FSQ_KIND_STR, cls_r);
    (bs "fractal_vector_quantize_binary", FSQ_KIND_STR, cls_r);
    (bs "fractal_vector_hamming_distance", FSQ_KIND_INT, cls_r);
    (bs "fractal_reason", FSQ_KIND_STR, cls_e);
    (bs "fractal_embed", FSQ_KIND_STR, cls_e);
    (bs "fractal_t2s_config", FSQ_KIND_STR, cls_r);
    (bs "fractal_t2s_generate", FSQ_KIND_STR, cls_e);
    (bs "fractal_t2s_review", FSQ_KIND_STR, cls_e);
    (bs "fractal_t2s_check_allowlist", FSQ_KIND_STR, cls_r);
    (bs "fractal_config_set", FSQ_KIND_STR, cls_s);
    (bs "fractal_config_get", FSQ_KIND_STR, cls_r);
    (bs "fractal_config_reset", FSQ_KIND_INT, cls_s);
    (bs "fractal_config_list", FSQ_KIND_STR, cls_r);
    (bs "fractal_config_keys", FSQ_KIND_STR, cls_r);
    (bs "fractal_diversify_enable", FSQ_KIND_INT, cls_s);
    (bs "fractal_diversify_disable", FSQ_KIND_INT, cls_s);
    (bs "fractal_diversify_set_params", FSQ_KIND_INT, cls_s);
    (bs "fractal_detect_collapse", FSQ_KIND_REAL, cls_r);
    (bs "fractal_explain_result", FSQ_KIND_STR, cls_r);
    (bs "fractal_session_close", FSQ_KIND_INT, cls_s);
    (bs "fractal_agent_partial_fail", FSQ_KIND_STR, cls_s);
    (bs "fractal_feedback_report", FSQ_KIND_INT, cls_s);
    (bs "fractal_ledger_flush", FSQ_KIND_INT, cls_s);
    (bs "fractal_ledger_load", FSQ_KIND_INT, cls_s);
    (bs "fractal_ledger_compact", FSQ_KIND_INT, cls_s);
    (bs "fractal_ledger_reset_soft", FSQ_KIND_INT, cls_s);
    (bs "fractal_ledger_reset_hard", FSQ_KIND_INT, cls_s);
    (bs "fractal_lock_destructive", FSQ_KIND_INT, cls_s);
    (bs "fractal_ledger_truth_count", FSQ_KIND_INT, cls_r);
    (bs "fractal_ledger_shadow_count", FSQ_KIND_INT, cls_r);
    (bs "fractal_ledger_verify", FSQ_KIND_STR, cls_r);
    (bs "fractal_audit_log", FSQ_KIND_INT, cls_s);
    (bs "fractal_audit_unpack", FSQ_KIND_STR, cls_r);
    (bs "fractal_vascular_network", FSQ_KIND_STR, cls_r);
    (bs "fractal_cortical_folding", FSQ_KIND_STR, cls_r);
    (bs "fractal_nerve_plexus_metric", FSQ_KIND_STR, cls_r);
    (bs "fractal_morphological_complexity", FSQ_KIND_STR, cls_r) ].

(** ** Lemmas: the fields are the little-endian bytes of their values *)

Lemma put_u16_le v : fsq_put_u16 v = le_bytes 2 v.
Proof.
  rewrite <- put_map_le. unfold fsq_put_u16. cbn [seq map].
  by rewrite Z.shiftr_0_r.
Qed.
Lemma put_u32_le v : fsq_put_u32 v = le_bytes 4 v.
Proof. apply put_map_le. Qed.
Lemma put_u64_le v : fsq_put_u64 v = le_bytes 8 v.
Proof. apply put_map_le. Qed.

Lemma at_ok l i : bytes_ok l -> byte_ok (at_ l i).
Proof.
  intros Hl. unfold at_. destruct (nth_in_or_default i l 0) as [H| ->]; [|split; lia].
  apply list_elem_of_In in H. by eapply Forall_forall in Hl.
Qed.

(** Every byte list of the right length is its own bytes. *)
Ltac split_bytes H :=
  repeat match type of H with
  | length ?l = S _ => destruct l as [|?b l]; [discriminate H|]; injection H as H
  | length ?l = 0%nat => destruct l; [|discriminate H]; clear H
  end.

(** Turn the innermost or of a shifted byte into a sum, repeatedly. *)
Ltac lor_sum :=
  repeat match goal with
  | |- context [Z.lor ?a (Z.shiftl ?b ?n)] =>
      lazymatch a with
      | context [Z.lor] => fail
      | _ => rewrite (lor_shiftl_add a b n) by lia
      end
  end.

Lemma get_u16_le p : bytes_ok p -> length p = 2%nat -> fsq_get_u16 p = le_val p.
Proof.
  intros Hp Hl. split_bytes Hl. unfold bytes_ok in Hp. rewrite !Forall_cons in Hp.
  destruct Hp as (? & ? & _). unfold byte_ok in *. unfold fsq_get_u16, at_. cbn [nth le_val].
  lor_sum. rewrite u16_id; lia.
Qed.
Lemma get_u32_le p : bytes_ok p -> length p = 4%nat -> fsq_get_u32 p = le_val p.
Proof.
  intros Hp Hl. split_bytes Hl. unfold bytes_ok in Hp. rewrite !Forall_cons in Hp.
  destruct Hp as (? & ? & ? & ? & _). unfold byte_ok in *. unfold fsq_get_u32, at_. cbn [nth le_val].
  lor_sum. lia.
Qed.
Lemma get_u64_step v b : 0 <= v < 2 ^ 56 -> byte_ok b ->
  Z.lor (u64 (Z.shiftl v 8)) b = b + 256 * v.
Proof.
  unfold byte_ok. intros Hv Hb. rewrite u64_id by (rewrite Z.shiftl_mul_pow2; lia).
  rewrite Z.lor_comm, lor_shiftl_add; lia.
Qed.
Lemma get_u64_le p : bytes_ok p -> length p = 8%nat -> fsq_get_u64 p = le_val p.
Proof.
  intros Hp Hl. split_bytes Hl. unfold bytes_ok in Hp. rewrite !Forall_cons in Hp.
  destruct_and! Hp. unfold byte_ok in *. unfold fsq_get_u64, at_. cbn [fold_left nth le_val].
  repeat match goal with
  | |- context [Z.lor (u64 (Z.shiftl ?v 8)) ?b] =>
      lazymatch v with
      | context [Z.lor] => fail
      | _ => rewrite (get_u64_step v b) by (unfold byte_ok; lia)
      end
  end.
  lia.
Qed.

Create Rewrite HintDb wire.
#[export] Hint Rewrite put_u16_le put_u32_le put_u64_le : wire.

(** Reading a field at the head of a longer buffer. *)
Lemma get_u16_app p k : bytes_ok p -> length p = 2%nat -> fsq_get_u16 (p ++ k) = le_val p.
Proof. intros Hp Hl. rewrite <- (get_u16_le p Hp Hl). split_bytes Hl.
  unfold fsq_get_u16, at_. cbn [app nth fold_left]. reflexivity. Qed.
Lemma get_u32_app p k : bytes_ok p -> length p = 4%nat -> fsq_get_u32 (p ++ k) = le_val p.
Proof. intros Hp Hl. rewrite <- (get_u32_le p Hp Hl). split_bytes Hl.
  unfold fsq_get_u32, at_. cbn [app nth fold_left]. reflexivity. Qed.
Lemma get_u64_app p k : bytes_ok p -> length p = 8%nat -> fsq_get_u64 (p ++ k) = le_val p.
Proof. intros Hp Hl. rewrite <- (get_u64_le p Hp Hl). split_bytes Hl.
  unfold fsq_get_u64, at_. cbn [app nth fold_left]. reflexivity. Qed.

Lemma get_put_u16 v k : 0 <= v < 2 ^ 16 -> fsq_get_u16 (fsq_put_u16 v ++ k) = v.
Proof.
  intros. rewrite put_u16_le, get_u16_app; [|apply le_bytes_ok|apply le_bytes_length].
  rewrite le_val_bytes. by apply Z.mod_small.
Qed.
Lemma get_put_u32 v k : 0 <= v < 2 ^ 32 -> fsq_get_u32 (fsq_put_u32 v ++ k) = v.
Proof.
  intros. rewrite put_u32_le, get_u32_app; [|apply le_bytes_ok|apply le_bytes_length].
  rewrite le_val_bytes. by apply Z.mod_small.
Qed.
Lemma get_put_u64 v k : 0 <= v < 2 ^ 64 -> fsq_get_u64 (fsq_put_u64 v ++ k) = v.
Proof.
  intros. rewrite put_u64_le, get_u64_app; [|apply le_bytes_ok|apply le_bytes_length].
  rewrite le_val_bytes. by apply Z.mod_small.
Qed.

Lemma put_u16_length v : length (fsq_put_u16 v) = 2%nat.
Proof. done. Qed.
Lemma put_u32_length v : length (fsq_put_u32 v) = 4%nat.
Proof. done. Qed.
Lemma put_u64_length v : length (fsq_put_u64 v) = 8%nat.
Proof. done. Qed.
Lemma put_u16_ok v : bytes_ok (fsq_put_u16 v).
Proof. rewrite put_u16_le. apply le_bytes_ok. Qed.
Lemma put_u32_ok v : bytes_ok (fsq_put_u32 v).
Proof. rewrite put_u32_le. apply le_bytes_ok. Qed.
Lemma put_u64_ok v : bytes_ok (fsq_put_u64 v).
Proof. rewrite put_u64_le. apply le_bytes_ok. Qed.
#[export] Hint Rewrite put_u16_length put_u32_length put_u64_length : wire.
#[export] Hint Resolve put_u16_ok put_u32_ok put_u64_ok : fsq.

Lemma header_encode_length h : length (fsq_header_encode h) = FSQ_HEADER_LEN.
Proof. done. Qed.
Lemma header_encode_ok h : bytes_ok (fsq_header_encode h).
Proof.
  unfold fsq_header_encode. rewrite !bytes_ok_app.
  repeat split; auto with fsq. by_compute.
Qed.
#[export] Hint Resolve header_encode_length header_encode_ok : fsq.

(** Decoding what was encoded, in front of anything. *)
Lemma header_decode_encode h k : header_ok h ->
  fsq_header_decode (fsq_header_encode h ++ k) = Some h.
Proof.
  intros (? & ? & ? & ? & ? & ? & ?). unfold fsq_header_encode, fsq_header_decode.
  rewrite <- !app_assoc. rewrite take_app_exact by done.
  replace (negb _) with false by (symmetry; apply negb_false_iff, bytes_eqb_true; done).
  f_equal. destruct h as [ve op fl ri co au pa]. cbn [h_version h_opcode h_flags
    h_request_id h_context h_auth_len h_payload_len] in *.
  f_equal.
  - change (drop 4 _) with (fsq_put_u16 ve ++ fsq_put_u16 op ++ fsq_put_u32 fl ++
      fsq_put_u32 ri ++ fsq_put_u64 co ++ fsq_put_u32 au ++ fsq_put_u32 pa ++ k).
    by apply get_put_u16.
  - change (drop 6 _) with (fsq_put_u16 op ++ fsq_put_u32 fl ++
      fsq_put_u32 ri ++ fsq_put_u64 co ++ fsq_put_u32 au ++ fsq_put_u32 pa ++ k).
    by apply get_put_u16.
  - change (drop 8 _) with (fsq_put_u32 fl ++
      fsq_put_u32 ri ++ fsq_put_u64 co ++ fsq_put_u32 au ++ fsq_put_u32 pa ++ k).
    by apply get_put_u32.
  - change (drop 12 _) with (fsq_put_u32 ri ++ fsq_put_u64 co ++ fsq_put_u32 au ++ fsq_put_u32 pa ++ k).
    by apply get_put_u32.
  - change (drop 16 _) with (fsq_put_u64 co ++ fsq_put_u32 au ++ fsq_put_u32 pa ++ k).
    by apply get_put_u64.
  - change (drop 24 _) with (fsq_put_u32 au ++ fsq_put_u32 pa ++ k).
    by apply get_put_u32.
  - change (drop 28 _) with (fsq_put_u32 pa ++ k).
    by apply get_put_u32.
Qed.

(** Encoding what was decoded: a 32-byte header with the magic is the
    encoding of its fields. *)
Lemma header_encode_decode p h : bytes_ok p -> length p = FSQ_HEADER_LEN ->
  fsq_header_decode p = Some h -> header_ok h /\ fsq_header_encode h = p.
Proof.
  intros Hp Hl Hd. unfold fsq_header_decode in Hd. case_match eqn:Hm; [done|].
  apply negb_false_iff, bytes_eqb_true in Hm. injection Hd as <-.
  assert (Hcut : forall n m, bytes_ok (take n (drop m p))) by auto with fsq.
  assert (Hlen : forall n m, (n + m <= 32)%nat -> length (take n (drop m p)) = n).
  { intros n m ?. rewrite length_take, length_drop, Hl. unfold FSQ_HEADER_LEN. lia. }
  assert (Hsplit : p = FSQ_MAGIC ++ take 2 (drop 4 p) ++ take 2 (drop 6 p) ++
    take 4 (drop 8 p) ++ take 4 (drop 12 p) ++ take 8 (drop 16 p) ++
    take 4 (drop 24 p) ++ take 4 (drop 28 p)).
  { rewrite <- Hm. unfold FSQ_HEADER_LEN in Hl. split_bytes Hl. reflexivity. }
  assert (Hf : forall n m, drop m p = take n (drop m p) ++ drop n (drop m p))
    by (intros; by rewrite take_drop).
  rewrite (Hf 2%nat 4%nat), (Hf 2%nat 6%nat), (Hf 4%nat 8%nat), (Hf 4%nat 12%nat),
    (Hf 8%nat 16%nat), (Hf 4%nat 24%nat), (Hf 4%nat 28%nat).
  rewrite !get_u16_app, !get_u32_app, !get_u64_app by auto with lia.
  assert (Hr : forall n m, (n + m <= 32)%nat ->
    0 <= le_val (take n (drop m p)) < 256 ^ Z.of_nat n).
  { intros n m ?. apply le_val_range_len; auto. }
  split.
  - pose proof (Hr 2 4)%nat; pose proof (Hr 2 6)%nat; pose proof (Hr 4 8)%nat;
    pose proof (Hr 4 12)%nat; pose proof (Hr 8 16)%nat; pose proof (Hr 4 24)%nat;
    pose proof (Hr 4 28)%nat. unfold header_ok; simpl h_version; simpl h_opcode;
    simpl h_flags; simpl h_request_id; simpl h_context; simpl h_auth_len;
    simpl h_payload_len. lia.
  - assert (He : forall n m, (n + m <= 32)%nat ->
      le_bytes n (le_val (take n (drop m p))) = take n (drop m p)).
    { intros n m ?. apply le_bytes_val_len; auto. }
    unfold fsq_header_encode. autorewrite with wire. cbn [h_version h_opcode h_flags
      h_request_id h_context h_auth_len h_payload_len].
    rewrite !He by lia. by rewrite <- Hsplit.
Qed.

Lemma fold_lor_zero (f : nat -> Z) l d :
  fold_left (fun diff i => Z.lor diff (f i)) l d = 0 <-> d = 0 /\ Forall (fun i => f i = 0) l.
Proof.
  revert d. induction l as [|i l IH]; intros d; simpl.
  - split; [intros ->; split; [done|constructor] | by intros [-> _]].
  - rewrite IH, Forall_cons, Z.lor_eq_0_iff. tauto.
Qed.

Lemma ct_equal_spec a b n : bytes_ok a -> bytes_ok b ->
  length a = n -> length b = n ->
  fsq_ct_equal a b n = true <-> a = b.
Proof.
  intros Ha Hb Hla Hlb. unfold fsq_ct_equal. rewrite Z.eqb_eq, fold_lor_zero.
  split; [intros [_ Hall] | intros ->; split; [done|]].
  - apply nth_ext with 0 0; [lia|]. intros i Hi. rewrite Hla in Hi.
    rewrite Forall_forall in Hall. specialize (Hall i). cbv beta in Hall.
    rewrite u8_id in Hall.
    + apply Z.lxor_eq, Hall. apply list_elem_of_In, in_seq. lia.
    + pose proof (at_ok a i Ha). pose proof (at_ok b i Hb). unfold byte_ok in *.
      split; [apply Z.lxor_nonneg; lia|].
      destruct (decide (Z.lxor (at_ a i) (at_ b i) = 0)) as [->|]; [lia|].
      apply Z.log2_lt_pow2 with (b := 8); [pose proof (proj2 (Z.lxor_nonneg (at_ a i) (at_ b i))); lia|].
      eapply Z.le_lt_trans; [apply Z.log2_lxor; lia|].
      assert (forall x, 0 <= x < 256 -> Z.log2 x < 8) as Hlog.
      { intros x Hx. destruct (decide (x = 0)) as [->|]; [done|]. apply Z.log2_lt_pow2; lia. }
      apply Z.max_lub_lt; apply Hlog; lia.
  - apply Forall_forall. intros i _. by rewrite Z.lxor_nilpotent.
Qed.

(** ** Properties *)

(** The frame header codec is a bijection between well-typed headers and
    the 32-byte strings that start with the magic: decoding an encoded header
    (whatever follows it) gives back every field, and a 32-byte header that
    decodes is exactly the encoding of fields that fit their C types. *)
Theorem header_codec_bijective :
  (forall h k, header_ok h -> fsq_header_decode (fsq_header_encode h ++ k) = Some h) /\
  (forall p h, bytes_ok p -> length p = FSQ_HEADER_LEN ->
     fsq_header_decode p = Some h -> header_ok h /\ fsq_header_encode h = p).
Proof. split; [exact header_decode_encode | exact header_encode_decode]. Qed.

(** The constant-time comparison is equality on equally long tags. *)
Theorem ct_equal_correct a b n : bytes_ok a -> bytes_ok b ->
  length a = n -> length b = n ->
  fsq_ct_equal a b n = true <-> a = b.
Proof. apply ct_equal_spec. Qed.

Lemma ct_equal_correct_witness :
  fsq_ct_equal (bs "tag-A") (bs "tag-A") 5 = true /\
  fsq_ct_equal (bs "tag-A") (bs "tag-B") 5 = false.
Proof.
  split.
  - apply (ct_equal_correct (bs "tag-A") (bs "tag-A") 5); [by_compute|by_compute|done|done|done].
  - vm_compute. reflexivity.
Defined.
