(* ===== verification/Sha256.v ===== *)
(** * SHA-256 and HMAC-SHA256 (service/common/fsq_sha256.h)

    The streaming context (init / update / final) exactly as the header has
    it, the one-shot digest and HMAC built on it, and the one-shot
    specification it refines: pad the whole message, then absorb it in
    64-byte blocks.  The frame authentication of both ends of the protocol
    uses this code. *)

From S2P Require Import Prelude.

Record fsq_sha256_ctx := {
  c_data : list Z;       (* uint8_t data[64] *)
  c_datalen : nat;
  c_bitlen : Z;
  c_state : list Z       (* uint32_t state[8] *)
}.

(** ** The compression function *)

Definition ROTR (a b : Z) : Z := Z.lor (Z.shiftr a b) (u32 (Z.shiftl a (32 - b))).
Definition EP0 (x : Z) : Z := Z.lxor (Z.lxor (ROTR x 2) (ROTR x 13)) (ROTR x 22).
Definition EP1 (x : Z) : Z := Z.lxor (Z.lxor (ROTR x 6) (ROTR x 11)) (ROTR x 25).
Definition SIG0 (x : Z) : Z := Z.lxor (Z.lxor (ROTR x 7) (ROTR x 18)) (Z.shiftr x 3).
Definition SIG1 (x : Z) : Z := Z.lxor (Z.lxor (ROTR x 17) (ROTR x 19)) (Z.shiftr x 10).
Definition CH (x y z : Z) : Z := Z.lxor (Z.land x y) (Z.land (u32 (Z.lnot x)) z).
Definition MAJ (x y z : Z) : Z := Z.lxor (Z.lxor (Z.land x y) (Z.land x z)) (Z.land y z).

Definition fsq_sha256_k : list Z :=
  [ 1116352408; 1899447441; 3049323471; 3921009573; 961987163; 1508970993;
    2453635748; 2870763221; 3624381080; 310598401; 607225278; 1426881987;
    1925078388; 2162078206; 2614888103; 3248222580; 3835390401; 4022224774;
    264347078; 604807628; 770255983; 1249150122; 1555081692; 1996064986;
    2554220882; 2821834349; 2952996808; 3210313671; 3336571891; 3584528711;
    113926993; 338241895; 666307205; 773529912; 1294757372; 1396182291;
    1695183700; 1986661051; 2177026350; 2456956037; 2730485921; 2820302411;
    3259730800; 3345764771; 3516065817; 3600352804; 4094571909; 275423344;
    430227734; 506948616; 659060556; 883997877; 958139571; 1322822218;
    1537002063; 1747873779; 1955562222; 2024104815; 2227730452; 2361852424;
    2428436474; 2756734187; 3204031479; 3329325298 ].

(** The message schedule m[64]. *)
Definition be_word (d : list Z) (j : nat) : Z :=
  Z.lor (Z.lor (Z.lor (Z.shiftl (at_ d j) 24) (Z.shiftl (at_ d (j + 1)) 16))
               (Z.shiftl (at_ d (j + 2)) 8)) (at_ d (j + 3)).
Definition schedule (data : list Z) : list Z :=
  fold_left
    (fun m i => m ++ [u32 (SIG1 (at_ m (i - 2)) + at_ m (i - 7) + SIG0 (at_ m (i - 15)) + at_ m (i - 16))])
    (seq 16 48)
    (map (fun i => be_word data (4 * i)) (seq 0 16)).

Definition round (m : list Z) (s : Z * Z * Z * Z * Z * Z * Z * Z) (i : nat) :=
  let '(a, b, c, d, e, f, g, h) := s in
  let t1 := u32 (h + EP1 e + CH e f g + at_ fsq_sha256_k i + at_ m i) in
  let t2 := u32 (EP0 a + MAJ a b c) in
  (u32 (t1 + t2), a, b, c, u32 (d + t1), e, f, g).

(** The state after [fsq_sha256_transform(ctx, data)]. *)
Definition compress (st data : list Z) : list Z :=
  let s0 := (at_ st 0, at_ st 1, at_ st 2, at_ st 3, at_ st 4, at_ st 5, at_ st 6, at_ st 7) in
  let '(a, b, c, d, e, f, g, h) := fold_left (round (schedule data)) (seq 0 64) s0 in
  [u32 (at_ st 0 + a); u32 (at_ st 1 + b); u32 (at_ st 2 + c); u32 (at_ st 3 + d);
   u32 (at_ st 4 + e); u32 (at_ st 5 + f); u32 (at_ st 6 + g); u32 (at_ st 7 + h)].

Definition fsq_sha256_transform (ctx : fsq_sha256_ctx) (data : list Z) : fsq_sha256_ctx :=
  {| c_data := c_data ctx; c_datalen := c_datalen ctx; c_bitlen := c_bitlen ctx;
     c_state := compress (c_state ctx) data |}.

(** ** The streaming interface *)

Definition sha_iv : list Z :=
  [ 1779033703; 3144134277; 1013904242; 2773480762; 1359893119; 2600822924;
    528734635; 1541459225 ].

(** [data0] is whatever the uninitialised buffer holds. *)
Definition fsq_sha256_init (data0 : list Z) : fsq_sha256_ctx :=
  {| c_data := data0; c_datalen := 0; c_bitlen := 0; c_state := sha_iv |}.

Definition update1 (ctx : fsq_sha256_ctx) (b : Z) : fsq_sha256_ctx :=
  let data := <[c_datalen ctx := b]> (c_data ctx) in
  let n := S (c_datalen ctx) in
  if (n =? 64)%nat
  then {| c_data := data; c_datalen := 0; c_bitlen := u64 (c_bitlen ctx + 512);
          c_state := compress (c_state ctx) data |}
  else {| c_data := data; c_datalen := n; c_bitlen := c_bitlen ctx; c_state := c_state ctx |}.

(** [for (i = 0; i < len; ++i)] over a size_t length with a counter of type
    uint32_t, which wraps: each evaluation of the body takes one unit of fuel,
    and [None] is a loop that has not ended within it.  The body's effect on
    the context is a parameter: the ledger's copy of the digest has the same
    loop (Hmac.v). *)
Section Loop.
Context {C : Type} (body : C -> Z -> C).

Fixpoint update_loop (fuel : nat) (i : Z) (ctx : C) (data : list Z) : option C :=
  if i <? Z.of_nat (length data) then
    match fuel with
    | O => None
    | S fuel => update_loop fuel (u32 (i + 1)) (body ctx (at_ data (Z.to_nat i))) data
    end
  else Some ctx.
End Loop.

Definition piece_ok (p : list Z) : Prop := Z.of_nat (length p) < 2 ^ 32.

Definition fsq_sha256_update (fuel : nat) (ctx : fsq_sha256_ctx) (data : list Z) : option fsq_sha256_ctx :=
  update_loop update1 fuel 0 ctx data.

(** Successive updates of one context. *)
Fixpoint feed (fuel : nat) (ctx : fsq_sha256_ctx) (pieces : list (list Z)) : option fsq_sha256_ctx :=
  match pieces with
  | [] => Some ctx
  | p :: ps => ctx ← fsq_sha256_update fuel ctx p; feed fuel ctx ps
  end.

(** The context an update leaves when it returns, which is when its piece is
    shorter than 2^32 bytes ([update_returns]). *)
Definition fed (ctx : fsq_sha256_ctx) (data : list Z) : fsq_sha256_ctx :=
  fold_left update1 data ctx.

(** [while (i < lim) data[i++] = 0x00;] *)
Definition zero_to (data : list Z) (i lim : nat) : list Z :=
  fold_left (fun d k => <[k := 0]> d) (seq i (lim - i)) data.

Definition put_bitlen (data : list Z) (bl : Z) : list Z :=
  fold_left (fun d k => <[(63 - k)%nat := u8 (Z.shiftr bl (8 * Z.of_nat k))]> d) (seq 0 8) data.

Definition out_word (w : Z) : list Z :=
  map (fun i => u8 (Z.shiftr w (24 - Z.of_nat i * 8))) (seq 0 4).

Definition fsq_sha256_final (ctx : fsq_sha256_ctx) : list Z :=
  let r := c_datalen ctx in
  let d1 := <[r := 128]> (c_data ctx) in
  let '(d2, st2) :=
    if (r <? 56)%nat then (zero_to d1 (S r) 56, c_state ctx)
    else let d := zero_to d1 (S r) 64 in
         (zero_to d 0 56, compress (c_state ctx) d) in
  let bl := u64 (c_bitlen ctx + u64 (Z.of_nat r * 8)) in
  let d3 := put_bitlen d2 bl in
  let st3 := compress st2 d3 in
  concat (map out_word st3).

Section OneShot.
(** The stack contents of the context's buffer before init. *)
Variable junk : list Z.

(** The one-shot digest as it runs, and the value it returns. *)
Definition fsq_sha256_run (fuel : nat) (msg : list Z) : option (list Z) :=
  ctx ← fsq_sha256_update fuel (fsq_sha256_init junk) msg;
  Some (fsq_sha256_final ctx).

Definition fsq_sha256 (msg : list Z) : list Z :=
  fsq_sha256_final (fed (fsq_sha256_init junk) msg).

(** [memset(k, 0, 64); memcpy(k, key, keylen);] then the xor loop. *)
Definition key_pad (key : list Z) (x : Z) : list Z :=
  map (fun b => Z.lxor b x) (key ++ replicate (64 - length key) 0).

Definition fsq_hmac_sha256 (key msg : list Z) : list Z :=
  let key := if (64 <? length key)%nat then fsq_sha256 key else key in
  let k_ipad := key_pad key 54 in
  let k_opad := key_pad key 92 in
  let inner := fsq_sha256_final
    (fed (fed (fsq_sha256_init junk) k_ipad) msg) in
  fsq_sha256_final
    (fed (fed (fsq_sha256_init junk) k_opad) inner).

Definition fsq_hmac_run (fuel : nat) (key msg : list Z) : option (list Z) :=
  key ← (if (64 <? length key)%nat then fsq_sha256_run fuel key else Some key);
  ctx ← fsq_sha256_update fuel (fsq_sha256_init junk) (key_pad key 54);
  ctx ← fsq_sha256_update fuel ctx msg;
  let inner := fsq_sha256_final ctx in
  ctx ← fsq_sha256_update fuel (fsq_sha256_init junk) (key_pad key 92);
  ctx ← fsq_sha256_update fuel ctx inner;
  Some (fsq_sha256_final ctx).
End OneShot.

(** ** The one-shot specification (FIPS 180-4, section 5.1.1 and 6.2) *)

Fixpoint absorb (q : nat) (st l : list Z) : list Z :=
  match q with
  | O => st
  | S q => absorb q (compress st (take 64 l)) (drop 64 l)
  end.

Definition be64 (v : Z) : list Z := rev (map (fun k => u8 (Z.shiftr v (8 * Z.of_nat k))) (seq 0 8)).

(** One 1 bit, the fewest zero bits that leave room for the 64-bit length. *)
Definition sha_pad (msg : list Z) : list Z :=
  let n := length msg in
  msg ++ [128] ++ replicate ((119 - n mod 64) mod 64) 0 ++ be64 (8 * Z.of_nat n).

Definition sha256_spec (msg : list Z) : list Z :=
  let p := sha_pad msg in
  concat (map out_word (absorb (length p / 64) sha_iv p)).

(** RFC 2104 over the specification. *)
Definition hmac_spec (key msg : list Z) : list Z :=
  let k := if (64 <? length key)%nat then sha256_spec key else key in
  sha256_spec (key_pad k 92 ++ sha256_spec (key_pad k 54 ++ msg)).

Example sha256_abc :
  fsq_sha256 (replicate 64 7) (bs "abc") =
  [186; 120; 22; 191; 143; 1; 207; 234; 65; 65; 64; 222; 93; 174; 34; 35;
   176; 3; 97; 163; 150; 23; 122; 156; 180; 16; 255; 97; 242; 0; 21; 173].
Proof. vm_compute. reflexivity. Qed.

Example hmac_rfc4231_case1 :
  take 4 (fsq_hmac_sha256 (replicate 64 7) (replicate 20 11) (bs "Hi There")) = [176; 52; 76; 97].
Proof. vm_compute. reflexivity. Qed.

(** ** Lemmas *)

Lemma absorb_snoc q st l :
  absorb (S q) st l = compress (absorb q st l) (take 64 (drop (64 * q) l)).
Proof.
  revert st l. induction q as [|q IH]; intros st l; [done|].
  change (absorb (S (S q)) st l) with (absorb (S q) (compress st (take 64 l)) (drop 64 l)).
  rewrite IH, drop_drop. replace (64 * S q)%nat with (64 + 64 * q)%nat by lia. reflexivity.
Qed.

Lemma absorb_app q st l k : (64 * q <= length l)%nat -> absorb q st (l ++ k) = absorb q st l.
Proof.
  revert st l. induction q as [|q IH]; intros st l Hq; [done|]. cbn [absorb].
  rewrite take_app_le, drop_app_le by lia. apply IH. rewrite length_drop. lia.
Qed.

Lemma insert_split (l : list Z) i x : (i < length l)%nat ->
  <[i := x]> l = take i l ++ x :: drop (S i) l.
Proof. apply insert_take_drop. Qed.

Lemma zero_to_spec n d i : (i + n <= length d)%nat ->
  zero_to d i (i + n) = take i d ++ replicate n 0 ++ drop (i + n) d.
Proof.
  unfold zero_to. replace (i + n - i)%nat with n by lia. revert d i.
  induction n as [|n IH]; intros d i Hl.
  - rewrite Nat.add_0_r. cbn. by rewrite take_drop.
  - cbn [seq fold_left]. rewrite IH by (rewrite length_insert; lia).
    rewrite insert_split by lia.
    replace (take (S i) (take i d ++ 0 :: drop (S i) d)) with (take i d ++ [0]).
    2: { rewrite take_app_ge by (rewrite length_take; lia).
         rewrite length_take. replace (S i - i `min` length d)%nat with 1%nat by lia. done. }
    rewrite drop_app_ge by (rewrite length_take; lia). rewrite length_take.
    replace (S i + n - i `min` length d)%nat with (S n) by lia. cbn [drop replicate].
    rewrite drop_drop, <- app_assoc. cbn [app]. do 3 f_equal. f_equal. lia.
Qed.

Lemma zero_to_length d i lim : length (zero_to d i lim) = length d.
Proof.
  unfold zero_to. generalize (seq i (lim - i)). intros ks. revert d.
  induction ks; intros d; simpl; [done|]. by rewrite IHks, length_insert.
Qed.

Lemma put_bitlen_spec d bl : length d = 64%nat -> put_bitlen d bl = take 56 d ++ be64 bl.
Proof.
  intros Hl.
  assert (Hs : d = take 56 d ++ drop 56 d) by (by rewrite take_drop).
  assert (H1 : length (take 56 d) = 56%nat) by (rewrite length_take; lia).
  assert (H2 : length (drop 56 d) = 8%nat) by (rewrite length_drop; lia).
  rewrite Hs at 1. revert H1 H2. generalize (take 56 d), (drop 56 d). intros p s H1 H2.
  unfold put_bitlen. cbn [seq fold_left Nat.sub].
  rewrite !insert_app_r_alt by (rewrite ?length_app, ?length_insert, H1; lia). rewrite H1. f_equal.
  do 8 (destruct s as [|? s]; [discriminate|]). destruct s; [|discriminate]. reflexivity.
Qed.

#[local] Opaque compress.

(** *** The streaming invariant *)

(** [ctx] is the state after the bytes [msg]: the buffer holds the unabsorbed
    tail, the bit count the absorbed part, the state its digest. *)
Record sha_inv (ctx : fsq_sha256_ctx) (msg : list Z) : Prop := {
  inv_len : length (c_data ctx) = 64%nat;
  inv_datalen : c_datalen ctx = (length msg mod 64)%nat;
  inv_bitlen : c_bitlen ctx = u64 (512 * Z.of_nat (length msg / 64));
  inv_tail : take (c_datalen ctx) (c_data ctx) = drop (64 * (length msg / 64)) msg;
  inv_state : c_state ctx = absorb (length msg / 64) sha_iv msg
}.

Lemma init_inv junk : length junk = 64%nat -> sha_inv (fsq_sha256_init junk) [].
Proof. intros. constructor; done. Qed.

Lemma u64_add_l a b : u64 (u64 a + b) = u64 (a + b).
Proof. unfold u64. by rewrite Zplus_mod_idemp_l. Qed.
Lemma u64_add_r a b : u64 (a + u64 b) = u64 (a + b).
Proof. unfold u64. by rewrite Zplus_mod_idemp_r. Qed.

Lemma snoc_div (n : nat) :
  ((n + 1) / 64 = if (S (n mod 64) =? 64) then S (n / 64) else n / 64)%nat /\
  ((n + 1) mod 64 = if (S (n mod 64) =? 64) then 0 else S (n mod 64))%nat.
Proof.
  pose proof (Nat.mod_upper_bound n 64). pose proof (Nat.div_mod_eq n 64).
  destruct (S (n mod 64) =? 64)%nat eqn:E;
    [apply Nat.eqb_eq in E | apply Nat.eqb_neq in E]; split; symmetry.
  - apply Nat.div_unique with 0%nat; lia.
  - apply Nat.mod_unique with (S (n / 64)); lia.
  - apply Nat.div_unique with (S (n mod 64)); lia.
  - apply Nat.mod_unique with (n / 64)%nat; lia.
Qed.

Lemma update1_inv ctx msg b : sha_inv ctx msg -> sha_inv (update1 ctx b) (msg ++ [b]).
Proof.
  intros [Hl Hd Hb Ht Hs]. pose proof (snoc_div (length msg)) as [Hq Hr].
  pose proof (Nat.mod_upper_bound (length msg) 64 ltac:(done)) as Hm.
  pose proof (Nat.div_mod_eq (length msg) 64) as Hdm.
  assert (Hins : take (S (c_datalen ctx)) (<[c_datalen ctx := b]> (c_data ctx)) =
                 drop (64 * (length msg / 64)) (msg ++ [b])).
  { rewrite insert_split by lia. rewrite take_app_ge by (rewrite length_take; lia).
    rewrite length_take, Ht, drop_app_le by lia. f_equal.
    by replace (S (c_datalen ctx) - c_datalen ctx `min` length (c_data ctx))%nat with 1%nat by lia. }
  unfold update1. rewrite <- Hd in Hq, Hr.
  constructor; rewrite ?length_app; cbn [length]; rewrite ?Hq, ?Hr;
    destruct (S (c_datalen ctx) =? 64)%nat eqn:E; cbn [c_data c_datalen c_bitlen c_state];
    rewrite ?length_insert; try done.
  - rewrite Hb, u64_add_l. f_equal. lia.
  - rewrite drop_ge; [done|]. rewrite length_app. cbn [length]. apply Nat.eqb_eq in E. lia.
  - apply Nat.eqb_eq in E. rewrite absorb_snoc, absorb_app by lia. rewrite Hs. f_equal.
    rewrite <- Hins, E. rewrite take_take, take_ge; [done|]. rewrite length_insert. lia.
  - rewrite absorb_app by lia. done.
Qed.

Lemma update_inv ctx msg l : sha_inv ctx msg -> sha_inv (fed ctx l) (msg ++ l).
Proof.
  revert ctx msg. induction l as [|b l IH]; intros ctx msg Hi; [by rewrite app_nil_r|].
  replace (msg ++ b :: l) with ((msg ++ [b]) ++ l) by (by rewrite <- app_assoc).
  apply IH. by apply update1_inv.
Qed.

Lemma be64_u64 v : be64 (u64 v) = be64 v.
Proof. unfold be64. by rewrite !put_map_le, le_bytes_u64. Qed.
Lemma be64_length v : length (be64 v) = 8%nat.
Proof. done. Qed.

(** The message's last, partial block and its two possible paddings. *)
Lemma pad_mod r : (r < 64)%nat ->
  ((119 - r) mod 64 = if (r <? 56) then 55 - r else 119 - r)%nat.
Proof.
  intros Hr. destruct (r <? 56)%nat eqn:E.
  - apply Nat.ltb_lt in E. symmetry. apply Nat.mod_unique with 1%nat; lia.
  - apply Nat.ltb_ge in E. apply Nat.mod_small. lia.
Qed.

Lemma sha_pad_length msg : (length (sha_pad msg) =
  64 * (length msg / 64 + (if (length msg mod 64 <? 56) then 1 else 2)))%nat.
Proof.
  unfold sha_pad. rewrite !length_app, length_replicate, be64_length. cbn [length].
  pose proof (Nat.mod_upper_bound (length msg) 64 ltac:(done)).
  pose proof (Nat.div_mod_eq (length msg) 64). rewrite pad_mod by done.
  destruct (length msg mod 64 <? 56)%nat eqn:E;
    [apply Nat.ltb_lt in E | apply Nat.ltb_ge in E]; lia.
Qed.

Lemma sha_pad_blocks msg : (length (sha_pad msg) / 64 =
  length msg / 64 + (if (length msg mod 64 <? 56) then 1 else 2))%nat.
Proof. rewrite sha_pad_length, Nat.mul_comm. by apply Nat.div_mul. Qed.

(** What [<[r := 128]>] and the zero loop leave in front of position [lim]. *)
Lemma pad_front ctx msg lim : sha_inv ctx msg -> (c_datalen ctx < lim <= 64)%nat ->
  let d := zero_to (<[c_datalen ctx := 128]> (c_data ctx)) (S (c_datalen ctx)) lim in
  length d = 64%nat /\
  take lim d = drop (64 * (length msg / 64)) msg ++ 128 :: replicate (lim - S (c_datalen ctx)) 0.
Proof.
  intros [Hl _ _ Ht _] Hlim. cbv zeta.
  replace lim with (S (c_datalen ctx) + (lim - S (c_datalen ctx)))%nat at 1 2 3 by lia.
  rewrite zero_to_spec by (rewrite length_insert; lia).
  rewrite insert_split by lia.
  replace (take (S (c_datalen ctx)) (take (c_datalen ctx) (c_data ctx) ++ 128 :: drop (S (c_datalen ctx)) (c_data ctx)))
    with (take (c_datalen ctx) (c_data ctx) ++ [128]).
  2: { rewrite take_app_ge by (rewrite length_take; lia). rewrite length_take.
       by replace (S (c_datalen ctx) - c_datalen ctx `min` length (c_data ctx))%nat with 1%nat by lia. }
  rewrite Ht, <- app_assoc. cbn [app].
  assert (Hlen : length (drop (64 * (length msg / 64)) msg) = c_datalen ctx).
  { rewrite <- Ht, length_take. lia. }
  split.
  - rewrite !length_app, Hlen. cbn [length]. rewrite length_app, length_replicate, length_drop.
    rewrite length_app, Hlen. cbn [length]. rewrite length_drop. lia.
  - rewrite take_app_ge by lia. rewrite Hlen.
    replace (S (c_datalen ctx) + (lim - S (c_datalen ctx)) - c_datalen ctx)%nat
      with (S (lim - S (c_datalen ctx))) by lia.
    cbn [take]. rewrite take_app_exact by (by rewrite length_replicate). done.
Qed.

(** The padded message from its last, partial block on. *)
Lemma sha_pad_tail msg : drop (64 * (length msg / 64)) (sha_pad msg) =
  drop (64 * (length msg / 64)) msg ++ 128 ::
  replicate ((119 - length msg mod 64) mod 64) 0 ++ be64 (8 * Z.of_nat (length msg)).
Proof.
  pose proof (Nat.div_mod_eq (length msg) 64). unfold sha_pad. by rewrite drop_app_le by lia.
Qed.

Lemma sha_pad_absorb msg : absorb (length msg / 64) sha_iv (sha_pad msg) =
  absorb (length msg / 64) sha_iv msg.
Proof. pose proof (Nat.div_mod_eq (length msg) 64). unfold sha_pad. apply absorb_app. lia. Qed.

Lemma final_short ctx msg : sha_inv ctx msg -> (c_datalen ctx < 56)%nat ->
  compress (c_state ctx)
    (put_bitlen (zero_to (<[c_datalen ctx := 128]> (c_data ctx)) (S (c_datalen ctx)) 56)
                (8 * Z.of_nat (length msg))) =
  absorb (length msg / 64 + 1) sha_iv (sha_pad msg).
Proof.
  intros Hi E. destruct (pad_front ctx msg 56%nat Hi ltac:(lia)) as [Hlen Htk].
  pose proof Hi as [Hl Hd _ Ht Hs].
  rewrite put_bitlen_spec, Htk by done.
  rewrite Nat.add_1_r, absorb_snoc, sha_pad_absorb, Hs, sha_pad_tail. f_equal.
  rewrite pad_mod by lia. rewrite <- Hd.
  replace (c_datalen ctx <? 56)%nat with true by (symmetry; apply Nat.ltb_lt; lia).
  rewrite <- app_assoc. cbn [app].
  replace (56 - S (c_datalen ctx))%nat with (55 - c_datalen ctx)%nat by lia.
  symmetry. apply take_ge. rewrite <- Ht, length_app. cbn [length].
  rewrite length_app, length_replicate, length_take, be64_length. lia.
Qed.

Lemma final_long ctx msg : sha_inv ctx msg -> (56 <= c_datalen ctx < 64)%nat ->
  let d := zero_to (<[c_datalen ctx := 128]> (c_data ctx)) (S (c_datalen ctx)) 64 in
  compress (compress (c_state ctx) d) (put_bitlen (zero_to d 0 56) (8 * Z.of_nat (length msg))) =
  absorb (length msg / 64 + 2) sha_iv (sha_pad msg).
Proof.
  intros Hi E. destruct (pad_front ctx msg 64%nat Hi ltac:(lia)) as [Hlen Htk].
  pose proof Hi as [Hl Hd _ Ht Hs]. cbv zeta. rewrite take_ge in Htk by lia.
  rewrite put_bitlen_spec by (by rewrite zero_to_length).
  replace (length msg / 64 + 2)%nat with (S (S (length msg / 64))) by lia.
  rewrite !absorb_snoc, sha_pad_absorb, Hs.
  replace (64 * S (length msg / 64))%nat with (64 * (length msg / 64) + 64)%nat by lia.
  rewrite <- drop_drop, sha_pad_tail, pad_mod by lia. rewrite <- Hd.
  replace (c_datalen ctx <? 56)%nat with false by (symmetry; apply Nat.ltb_ge; lia).
  replace (119 - c_datalen ctx)%nat with (64 - S (c_datalen ctx) + 56)%nat by lia.
  rewrite replicate_add, <- !app_assoc, app_comm_cons, app_assoc, <- Htk.
  rewrite take_app_exact, drop_app_exact by done. apply (f_equal (compress _)).
  replace (take 56 (zero_to _ 0 56)) with (replicate 56 0).
  2: { rewrite (zero_to_spec 56 _ 0) by lia. rewrite take_0, app_nil_l. symmetry.
       apply take_app_exact. by rewrite length_replicate. }
  symmetry. apply take_ge. by rewrite length_app, length_replicate, be64_length.
Qed.

Lemma final_spec ctx msg : sha_inv ctx msg -> fsq_sha256_final ctx = sha256_spec msg.
Proof.
  intros Hi. pose proof Hi as [Hl Hd Hb _ Hs].
  pose proof (Nat.mod_upper_bound (length msg) 64 ltac:(done)).
  pose proof (Nat.div_mod_eq (length msg) 64).
  unfold fsq_sha256_final, sha256_spec. rewrite sha_pad_blocks.
  replace (u64 (c_bitlen ctx + u64 (Z.of_nat (c_datalen ctx) * 8)))
    with (u64 (8 * Z.of_nat (length msg)))
    by (rewrite Hb, u64_add_l, u64_add_r; f_equal; lia).
  assert (Hbl : forall d v, length d = 64%nat -> put_bitlen d (u64 v) = put_bitlen d v)
    by (intros; rewrite !put_bitlen_spec, be64_u64 by done; done).
  rewrite <- Hd. destruct (c_datalen ctx <? 56)%nat eqn:E;
    [apply Nat.ltb_lt in E | apply Nat.ltb_ge in E]; do 2 f_equal;
    rewrite Hbl by (by rewrite !zero_to_length, length_insert).
  - by apply final_short.
  - apply final_long; [done|lia].
Qed.

Lemma sha256_correct junk msg : length junk = 64%nat -> fsq_sha256 junk msg = sha256_spec msg.
Proof. intros. apply final_spec, (update_inv _ []), init_inv; done. Qed.

#[local] Transparent compress.

Lemma compress_length st d : length (compress st d) = 8%nat.
Proof. unfold compress. by destruct (fold_left _ _ _) as [[[[[[[? ?] ?] ?] ?] ?] ?] ?]. Qed.
Lemma out_words st : length st = 8%nat -> length (concat (map out_word st)) = 32%nat /\ bytes_ok (concat (map out_word st)).
Proof.
  intros Hl. split.
  - do 8 (destruct st as [|? st]; [discriminate Hl|]). by destruct st.
  - apply Forall_concat, Forall_map, Forall_true. intros w. apply Forall_map, Forall_true. intros i. apply u8_byte.
Qed.
(** A digest is 32 bytes, whatever the context. *)
Lemma final_digest ctx : length (fsq_sha256_final ctx) = 32%nat /\ bytes_ok (fsq_sha256_final ctx).
Proof. unfold fsq_sha256_final. destruct (c_datalen ctx <? 56)%nat; apply out_words, compress_length. Qed.
Lemma hmac_digest junk key msg : length (fsq_hmac_sha256 junk key msg) = 32%nat /\ bytes_ok (fsq_hmac_sha256 junk key msg).
Proof. apply final_digest. Qed.

(** ** When an update returns *)

Section LoopLemmas.
Context {C : Type} (body : C -> Z -> C).

(** Below 2^32 the counter does not wrap and the loop is the fold. *)
Lemma update_loop_fold data : piece_ok data -> forall rest done fuel ctx,
  data = done ++ rest -> (length rest <= fuel)%nat ->
  update_loop body fuel (Z.of_nat (length done)) ctx data = Some (fold_left body rest ctx).
Proof.
  intros Hd. induction rest as [|b rest IH]; intros dn fuel ctx -> Hf.
  - rewrite app_nil_r in *. destruct fuel; cbn [update_loop]; by rewrite Z.ltb_irrefl.
  - destruct fuel as [|fuel]; [cbn in Hf; lia|]. cbn [update_loop fold_left].
    unfold piece_ok in Hd. rewrite length_app in *. cbn [length] in *.
    rewrite (proj2 (Z.ltb_lt _ _)) by lia.
    rewrite Nat2Z.id. unfold at_ at 1. rewrite app_nth2, Nat.sub_diag by lia. cbn [nth].
    replace (u32 (Z.of_nat (length dn) + 1)) with (Z.of_nat (length (dn ++ [b]))).
    2:{ rewrite length_app. cbn [length]. unfold u32. rewrite Z.mod_small; lia. }
    rewrite (IH (dn ++ [b])); [done|by rewrite <- app_assoc|lia].
Qed.

(** From 2^32 on the wrapped counter never reaches the length. *)
Lemma update_loop_hangs data : 2 ^ 32 <= Z.of_nat (length data) -> forall fuel i ctx,
  0 <= i < 2 ^ 32 -> update_loop body fuel i ctx data = None.
Proof.
  intros Hd. induction fuel as [|fuel IH]; intros i ctx Hi; cbn [update_loop];
    rewrite (proj2 (Z.ltb_lt _ _)) by lia; [done|].
  apply IH. unfold u32. apply Z.mod_pos_bound. lia.
Qed.
End LoopLemmas.

Lemma update_returns fuel ctx data : piece_ok data -> (length data <= fuel)%nat ->
  fsq_sha256_update fuel ctx data = Some (fed ctx data).
Proof. intros Hd Hf. by apply (update_loop_fold update1 data Hd data []). Qed.
Lemma update_hangs fuel ctx data : 2 ^ 32 <= Z.of_nat (length data) -> fsq_sha256_update fuel ctx data = None.
Proof. intros Hd. by apply update_loop_hangs. Qed.

Lemma feed_returns fuel pieces : Forall piece_ok pieces -> Forall (fun p => (length p <= fuel)%nat) pieces ->
  forall ctx, feed fuel ctx pieces = Some (fold_left fed pieces ctx).
Proof.
  intros Hp. induction Hp as [|p ps Hp Hps IH]; intros Hf ctx; [done|].
  inversion Hf; subst. cbn [feed fold_left]. rewrite update_returns by done. by apply IH.
Qed.

(** The total digests the protocol's model uses are what the code returns,
    for keys and messages shorter than 2^32 bytes. *)
Lemma sha256_returns junk fuel msg : piece_ok msg -> (length msg <= fuel)%nat ->
  fsq_sha256_run junk fuel msg = Some (fsq_sha256 junk msg).
Proof. intros Hm Hf. unfold fsq_sha256_run. by rewrite update_returns. Qed.

Lemma key_pad_length key x : (length key <= 64)%nat -> length (key_pad key x) = 64%nat.
Proof. intros. unfold key_pad. rewrite length_map, length_app, length_replicate. lia. Qed.

Lemma hmac_returns junk fuel key msg : piece_ok key -> piece_ok msg ->
  (length key <= fuel)%nat -> (length msg <= fuel)%nat -> (64 <= fuel)%nat ->
  fsq_hmac_run junk fuel key msg = Some (fsq_hmac_sha256 junk key msg).
Proof.
  intros Hk Hm Hfk Hfm Hf. unfold fsq_hmac_run, fsq_hmac_sha256. cbv zeta.
  assert (E : (if (64 <? length key)%nat then fsq_sha256_run junk fuel key else Some key) =
    Some (if (64 <? length key)%nat then fsq_sha256 junk key else key)).
  { destruct (64 <? length key)%nat; [by apply sha256_returns|done]. }
  rewrite E. cbn [mbind option_bind]. clear E.
  set (k := if (64 <? length key)%nat then _ else _).
  assert (Hl : (length k <= 64)%nat).
  { unfold k. destruct (64 <? length key)%nat eqn:E; [|apply Nat.ltb_ge in E; lia].
    unfold fsq_sha256. rewrite (proj1 (final_digest _)). lia. }
  assert (H64 : forall x, piece_ok (key_pad k x) /\ (length (key_pad k x) <= fuel)%nat)
    by (intros x; unfold piece_ok; rewrite key_pad_length by done; lia).
  assert (Hi : forall ctx, let d := fsq_sha256_final ctx in piece_ok d /\ (length d <= fuel)%nat)
    by (intros ctx; unfold piece_ok; cbv zeta; rewrite (proj1 (final_digest _)); lia).
  rewrite (update_returns fuel _ (key_pad k 54)) by apply H64. cbn [mbind option_bind].
  rewrite (update_returns fuel _ msg) by assumption. cbn [mbind option_bind].
  rewrite (update_returns fuel _ (key_pad k 92)) by apply H64. cbn [mbind option_bind].
  by rewrite update_returns by apply Hi.
Qed.

(** ** Properties *)

(** C40: the streaming digest is FIPS 180-4's.  Feeding a message in any
    number of pieces, each shorter than 2^32 bytes, returns (the fuel of the
    longest piece is enough), and finishing gives the digest of the padded
    whole message, whatever the context's buffer held before.  The bound is
    the code's own: its loop counter is a uint32_t, so one piece of 2^32 bytes
    or more and the update never returns. *)
Theorem sha256_streaming_refines_spec junk fuel pieces :
  length junk = 64%nat ->
  (Forall piece_ok pieces -> Forall (fun p => (length p <= fuel)%nat) pieces ->
   exists ctx, feed fuel (fsq_sha256_init junk) pieces = Some ctx /\
     fsq_sha256_final ctx = sha256_spec (concat pieces)) /\
  (Exists (fun p => 2 ^ 32 <= Z.of_nat (length p)) pieces ->
   feed fuel (fsq_sha256_init junk) pieces = None).
Proof.
  intros Hj. split.
  - intros Hp Hf. eexists. split; [by apply feed_returns|].
    apply final_spec. rewrite <- (app_nil_l (concat pieces)).
    generalize (init_inv junk Hj). generalize (fsq_sha256_init junk), ([] : list Z).
    clear Hp Hf. induction pieces as [|p ps IH]; intros ctx msg Hi; cbn [fold_left concat].
    + by rewrite app_nil_r.
    + rewrite app_assoc. by apply IH, update_inv.
  - intros Hl. generalize (fsq_sha256_init junk). induction Hl as [p ps Hp|p ps Hp IH]; intros ctx; cbn [feed].
    + by rewrite update_hangs.
    + destruct (fsq_sha256_update fuel ctx p) as [c|]; [apply IH|done].
Qed.

Lemma sha256_streaming_refines_spec_witness :
  exists ctx, feed 2 (fsq_sha256_init (replicate 64 7)) [bs "ab"; bs "c"] = Some ctx /\
    fsq_sha256_final ctx = sha256_spec (bs "abc").
Proof.
  apply (sha256_streaming_refines_spec (replicate 64 7) 2 [bs "ab"; bs "c"]); [reflexivity| |];
    repeat constructor.
Defined.

(** The header's HMAC is RFC 2104 over that digest, long keys included. *)
Theorem hmac_refines_rfc2104 junk key msg : length junk = 64%nat ->
  fsq_hmac_sha256 junk key msg = hmac_spec key msg.
Proof.
  intros Hj. unfold fsq_hmac_sha256, hmac_spec. cbv zeta.
  rewrite sha256_correct by done.
  assert (H2 : forall a b, fsq_sha256_final (fed
    (fed (fsq_sha256_init junk) a) b) = sha256_spec (a ++ b)).
  { intros a b. apply final_spec, update_inv, (update_inv _ []), init_inv, Hj. }
  by rewrite !H2.
Qed.

Lemma hmac_refines_rfc2104_witness :
  fsq_hmac_sha256 (replicate 64 7) (replicate 20 11) (bs "Hi There") =
  hmac_spec (replicate 20 11) (bs "Hi There").
Proof. apply (hmac_refines_rfc2104 (replicate 64 7)). reflexivity. Defined.
