(* ===== verification/TextSql.v ===== *)
(** * The text-to-SQL allowlist gate (src/fractalsql_textsql.c)

    The lexical scanners of [fractal_t2s_check_allowlist].  A [t2s_scan]
    {s, len, pos} is represented by the unread suffix s[pos..len): the code
    only moves pos forward, and only looks at s[pos], s[pos+1], s[pos+2]. *)

From S2P Require Import Prelude.

Abbreviation t2s_scan := (list Z) (only parsing).

(** Character constants. *)
Definition c_quote : Z := 39.
Definition c_dquote : Z := 34.
Definition c_btick : Z := 96.
Definition c_bslash : Z := 92.
Definition c_dash : Z := 45.
Definition c_hash : Z := 35.
Definition c_slash : Z := 47.
Definition c_star : Z := 42.
Definition c_semi : Z := 59.
Definition c_lpar : Z := 40.
Definition c_rpar : Z := 41.
Definition c_comma : Z := 44.
Definition c_nl : Z := 10.

Definition is_quote (c : Z) : bool := (c =? c_quote) || (c =? c_dquote) || (c =? c_btick).
Definition t2s_is_ident_char (c : Z) : bool := isalnum c || (c =? 95) || (c =? 36).

(** ** The primitive moves *)

Fixpoint skip_space (l : t2s_scan) : t2s_scan :=
  match l with c :: r => if isspace c then skip_space r else l | [] => [] end.
(** To the end of the line, stopping at the newline. *)
Fixpoint skip_line (l : t2s_scan) : t2s_scan :=
  match l with c :: r => if c =? c_nl then l else skip_line r | [] => [] end.
(** The inside of a block comment, past its close (or to the end). *)
Fixpoint skip_block (l : t2s_scan) : t2s_scan :=
  match l with
  | a :: ((b :: r) as l') => if (a =? c_star) && (b =? c_slash) then r else skip_block l'
  | _ => []
  end.

Definition starts_line_comment (l : t2s_scan) : bool :=
  match l with
  | a :: b :: r =>
      ((a =? c_dash) && (b =? c_dash) &&
         match r with [] => true | c :: _ => isspace c end) || (a =? c_hash)
  | [a] => a =? c_hash
  | [] => false
  end.
Definition starts_block_comment (l : t2s_scan) : bool :=
  match l with a :: b :: _ => (a =? c_slash) && (b =? c_star) | _ => false end.
(** The looser two-dash test the token loops use. *)
Definition starts_dashes (l : t2s_scan) : bool :=
  match l with a :: b :: _ => (a =? c_dash) && (b =? c_dash) | _ => false end.

(** One round of the loop of [t2s_skip_ws_comments]: (moved, rest). *)
Definition ws_step (s : bool * t2s_scan) : (bool * t2s_scan) + t2s_scan :=
  let '(moved, l) := s in
  if negb moved then inr l
  else match l with
  | [] => inr l
  | _ =>
    let l1 := skip_space l in
    let moved1 := negb (length l1 =? length l)%nat in
    if starts_line_comment l1 then inl (true, skip_line l1)
    else if starts_block_comment l1 then inl (true, skip_block (drop 2 l1))
    else inl (moved1, l1)
  end.
Definition ws_fuel (s : bool * t2s_scan) : nat := 2 * length s.2 + (if s.1 then 1 else 0).
Definition t2s_skip_ws_comments (l : t2s_scan) : t2s_scan :=
  default l (while ws_step (S (ws_fuel (true, l))) (true, l)).

(** The inside of a quoted literal with quote character [q]. *)
Fixpoint quoted_body (q : Z) (l : t2s_scan) : t2s_scan :=
  match l with
  | [] => []
  | c :: r =>
      match r with
      | c' :: r' =>
          if (c =? c_bslash) && negb (q =? c_btick) then quoted_body q r'
          else if c =? q then (if c' =? q then quoted_body q r' else r)
          else quoted_body q r
      | [] => []
      end
  end.
Definition t2s_skip_quoted (l : t2s_scan) : t2s_scan :=
  match l with q :: r => quoted_body q r | [] => [] end.

Fixpoint kw_prefix (l kw : list Z) {struct kw} : option (list Z) :=
  match kw, l with
  | [], _ => Some l
  | k :: kw', c :: l' => if tolower c =? tolower k then kw_prefix l' kw' else None
  | _ :: _, [] => None
  end.
(** [Some] rest on a match (pos advanced), [None] otherwise (pos kept). *)
Definition t2s_match_kw (l : t2s_scan) (kw : list Z) : option t2s_scan :=
  match kw_prefix l kw with
  | Some (c :: r) => if t2s_is_ident_char c then None else Some (c :: r)
  | Some [] => Some []
  | None => None
  end.

(** ** Balanced parentheses *)

(** State: (depth, rest); result: the rest after the match, or unbalanced. *)
Definition paren_step (s : Z * t2s_scan) : (Z * t2s_scan) + option t2s_scan :=
  let '(depth, l) := s in
  match l with
  | [] => inr None
  | c :: r =>
      if is_quote c then inl (depth, t2s_skip_quoted l)
      else if c =? c_lpar then inl (depth + 1, r)
      else if c =? c_rpar then
        if depth - 1 =? 0 then inr (Some r) else inl (depth - 1, r)
      else inl (depth, r)
  end.
Definition t2s_skip_paren_balanced (l : t2s_scan) : option t2s_scan :=
  default None (while paren_step (S (length l)) (0, l)).

(** ** Counting statements *)

Definition count_step (s : Z * bool * t2s_scan) : (Z * bool * t2s_scan) + Z :=
  let '(n_stmts, any_content, l) := s in
  match l with
  | [] => inr (if any_content then n_stmts + 1 else n_stmts)
  | c :: r =>
      if is_quote c then inl (n_stmts, true, t2s_skip_quoted l)
      else if (c =? c_lpar) || (c =? c_rpar) then inl (n_stmts, true, r)
      else if c =? c_semi then inl (if any_content then n_stmts + 1 else n_stmts, false, r)
      else if isspace c then inl (n_stmts, any_content, r)
      else if starts_dashes l || (c =? c_hash) || starts_block_comment l then
        let l' := t2s_skip_ws_comments l in
        inl (n_stmts, any_content, if (length l' =? length l)%nat then r else l')
      else inl (n_stmts, true, r)
  end.
Definition t2s_count_statements (sql : list Z) : Z :=
  default 0 (while count_step (S (length sql)) (0, false, sql)).

(** ** The leading statement keyword *)

Inductive stmt_kw := KW_SELECT | KW_INSERT | KW_UPDATE | KW_DELETE | KW_REPLACE | KW_OTHER.
#[export] Instance stmt_kw_eq_dec : EqDecision stmt_kw.
Proof. solve_decision. Defined.

Definition kw_text (k : stmt_kw) : list Z :=
  match k with
  | KW_SELECT => bs "SELECT" | KW_INSERT => bs "INSERT" | KW_UPDATE => bs "UPDATE"
  | KW_DELETE => bs "DELETE" | KW_REPLACE => bs "REPLACE" | KW_OTHER => bs "OTHER"
  end.

Fixpoint skip_ident (l : t2s_scan) : t2s_scan :=
  match l with c :: r => if t2s_is_ident_char c then skip_ident r else l | [] => [] end.

Definition head_is (c : Z) (l : t2s_scan) : bool :=
  match l with a :: _ => a =? c | [] => false end.

(** One CTE definition; [inr None] is the malformed-WITH return NULL,
    [inr (Some rest)] the break. *)
Definition cte_step (l : t2s_scan) : t2s_scan + option t2s_scan :=
  let l := if head_is c_btick l then t2s_skip_quoted l else skip_ident l in
  let l := t2s_skip_ws_comments l in
  let after_cols :=
    if head_is c_lpar l
    then match t2s_skip_paren_balanced l with
         | Some r => Some (t2s_skip_ws_comments r) | None => None end
    else Some l in
  match after_cols with
  | None => inr None
  | Some l =>
    match t2s_match_kw l (bs "AS") with
    | None => inr None
    | Some l =>
      let l := t2s_skip_ws_comments l in
      if negb (head_is c_lpar l) then inr None
      else match t2s_skip_paren_balanced l with
      | None => inr None
      | Some l =>
        let l := t2s_skip_ws_comments l in
        if head_is c_comma l then inl (t2s_skip_ws_comments (drop 1 l)) else inr (Some l)
      end
    end
  end.

Definition found {A} (o : option A) : bool :=
  match o with Some _ => true | None => false end.

Definition leading_kw (l : t2s_scan) : stmt_kw :=
  if head_is c_lpar l then KW_SELECT
  else if found (t2s_match_kw l (bs "SELECT")) then KW_SELECT
  else if found (t2s_match_kw l (bs "INSERT")) then KW_INSERT
  else if found (t2s_match_kw l (bs "UPDATE")) then KW_UPDATE
  else if found (t2s_match_kw l (bs "DELETE")) then KW_DELETE
  else if found (t2s_match_kw l (bs "REPLACE")) then KW_REPLACE
  else KW_OTHER.

(** [None] is the NULL return. *)
Definition t2s_classify_leading_stmt (sql : list Z) : option stmt_kw :=
  let l := t2s_skip_ws_comments sql in
  match l with
  | [] => Some KW_OTHER
  | _ =>
    match t2s_match_kw l (bs "WITH") with
    | Some l =>
        let l := t2s_skip_ws_comments l in
        let l := default l (t2s_match_kw l (bs "RECURSIVE")) in
        let l := t2s_skip_ws_comments l in
        match default None (while cte_step (S (length l)) l) with
        | Some l => Some (leading_kw l)
        | None => None
        end
    | None => Some (leading_kw l)
    end
  end.

(** ** INTO OUTFILE / INTO DUMPFILE *)

Definition outfile_step (l : t2s_scan) : t2s_scan + bool :=
  match l with
  | [] => inr false
  | c :: r =>
      if is_quote c then inl (t2s_skip_quoted l)
      else if starts_dashes l || (c =? c_hash) || starts_block_comment l then
        let l' := t2s_skip_ws_comments l in
        inl (if (length l' =? length l)%nat then r else l')
      else match t2s_match_kw l (bs "INTO") with
      | Some save =>
          let l' := t2s_skip_ws_comments save in
          if found (t2s_match_kw l' (bs "OUTFILE")) || found (t2s_match_kw l' (bs "DUMPFILE"))
          then inr true else inl save
      | None => inl r
      end
  end.
Definition t2s_has_into_outfile (sql : list Z) : bool :=
  default false (while outfile_step (S (length sql)) sql).

(** ** Executable comments *)

Definition exec_step (l : t2s_scan) : t2s_scan + bool :=
  match l with
  | [] => inr false
  | c :: r =>
      if is_quote c then inl (t2s_skip_quoted l)
      else if starts_block_comment l then
        let body := drop 2 l in
        if head_is 33 body || head_is 43 body then inr true
        else inl (skip_block body)
      else inl r
  end.
Definition t2s_has_exec_comment (sql : list Z) : bool :=
  default false (while exec_step (S (length sql)) sql).

(** ** Denied calls *)

Definition t2s_denied_call_prefixes : list (list Z) :=
  [ bs "fractal_audit_log"; bs "fractal_ledger_"; bs "fractal_lock_destructive";
    bs "fractal_store_"; bs "fractal_diversify_"; bs "fractal_feedback_report";
    bs "fractal_isolate_background"; bs "fractal_sql_agent"; bs "fractal_agent_";
    bs "fractal_vectorizer_"; bs "fractalsql_set_config";
    bs "load_file"; bs "sleep"; bs "benchmark"; bs "get_lock"; bs "release_lock";
    bs "sys_exec"; bs "sys_eval"; bs "master_pos_wait"; bs "master_gtid_wait" ].

(** This scanner's own loops differ from the t2s_scan ones: the literal, the
    comment and the identifier are each skipped by index arithmetic. *)
Fixpoint denied_quoted (q : Z) (l : list Z) : list Z :=
  match l with
  | [] => []
  | c :: r =>
      if (c =? c_bslash) && negb (q =? c_btick) then
        match r with _ :: r' => denied_quoted q r' | [] => [] end
      else if c =? q then
        match r with
        | c' :: r' => if c' =? q then denied_quoted q r' else r
        | [] => []
        end
      else denied_quoted q r
  end.
Definition id_start (c : Z) : bool := isalpha c || (c =? 95).
Definition id_char (c : Z) : bool := isalnum c || (c =? 95) || (c =? 36).
Fixpoint take_id (l : list Z) : list Z * list Z :=
  match l with
  | c :: r => if id_char c then let '(a, b) := take_id r in (c :: a, b) else ([], l)
  | [] => ([], [])
  end.
Fixpoint skip_blank (l : list Z) : list Z :=
  match l with
  | c :: r => if (c =? 32) || (c =? 9) || (c =? 10) || (c =? 13) then skip_blank r else l
  | [] => []
  end.
(** [char name[64]]: the first 63 characters, lower-cased. *)
Definition id_name (id : list Z) : list Z := map tolower (take 63 id).
Fixpoint starts_with (l p : list Z) {struct p} : bool :=
  match p, l with
  | [], _ => true
  | x :: p', y :: l' => (x =? y) && starts_with l' p'
  | _ :: _, [] => false
  end.

Definition denied_step (l : list Z) : list Z + option (list Z) :=
  match l with
  | [] => inr None
  | c :: r =>
      if is_quote c then inl (denied_quoted c r)
      else if (c =? c_hash) || starts_dashes l then inl (skip_line l)
      else if starts_block_comment l then inl (skip_block (drop 2 l))
      else if id_start c then
        let '(id, rest) := take_id l in
        if head_is c_lpar (skip_blank rest) then
          match List.find (starts_with (id_name id)) t2s_denied_call_prefixes with
          | Some p => inr (Some p)
          | None => inl rest
          end
        else inl rest
      else inl r
  end.
Definition t2s_has_denied_call (sql : list Z) : option (list Z) :=
  default None (while denied_step (S (length sql)) sql).

(** ** The gate *)

Definition FRACTAL_T2S_MAX_SQL_BYTES : Z := 256 * 1024.

Inductive reject :=
  | R_exec_comment | R_empty | R_count (n : Z) | R_with
  | R_type (kw : stmt_kw) (select_only : bool) | R_denied (fn : list Z) | R_outfile.
#[export] Instance reject_eq_dec : EqDecision reject.
Proof. solve_decision. Defined.

Definition mode_text (select_only : bool) : list Z :=
  if select_only then bs "select" else bs "select_insert_update".

(** The text each [goto reject] formats into buf[1024]; none can be cut. *)
Definition reject_text (r : reject) : list Z :=
  match r with
  | R_exec_comment => bs "versioned (slash-star-bang) and optimizer-hint (slash-star-plus) comments are not allowed: the server executes their contents"
  | R_empty => bs "SQL is empty"
  | R_count n => bs "expected exactly one SQL statement, found " ++ dec_d n ++
      bs ". fractal_text_to_sql only returns a single statement"
  | R_with => bs "SQL does not parse: malformed WITH clause"
  | R_type kw so => bs "statement type " ++ [c_dquote] ++ kw_text kw ++ [c_dquote] ++
      bs " is not permitted. FRACTALSQL_TEXT_TO_SQL_ALLOWED_STATEMENTS is set to " ++
      [c_dquote] ++ mode_text so ++ [c_dquote]
  | R_denied fn => bs "statement calls " ++ fn ++
      bs "(...), a function that changes state or reaches outside the database, which generated SQL may not do"
  | R_outfile => bs "statement embeds INTO OUTFILE/DUMPFILE, which writes to the filesystem and is never permitted regardless of FRACTALSQL_TEXT_TO_SQL_ALLOWED_STATEMENTS"
  end.

Definition kw_permitted (select_only : bool) (kw : stmt_kw) : bool :=
  if select_only then bool_decide (kw = KW_SELECT)
  else bool_decide (kw = KW_SELECT) || bool_decide (kw = KW_INSERT) || bool_decide (kw = KW_UPDATE).

(** The checks in order; [None] lets the statement through. *)
Definition allowlist_verdict (select_only : bool) (sql : list Z) : option reject :=
  if t2s_has_exec_comment sql then Some R_exec_comment
  else let n_stmts := t2s_count_statements sql in
  if n_stmts =? 0 then Some R_empty
  else if negb (n_stmts =? 1) then Some (R_count n_stmts)
  else match t2s_classify_leading_stmt sql with
  | None => Some R_with
  | Some kw =>
    if negb (kw_permitted select_only kw) then Some (R_type kw select_only)
    else match t2s_has_denied_call sql with
    | Some fn => Some (R_denied fn)
    | None => if t2s_has_into_outfile sql then Some R_outfile else None
    end
  end.

(** The UDF body.  [env_ok]: ensure_env_config succeeded; [mode]: the effective
    allowed_statements; [out_ok]: str_out_ensure got its buffer. *)
Definition fractal_t2s_check_allowlist
    (env_ok out_ok : bool) (mode : list Z) (arg : option (list Z)) : udf (list Z) :=
  match arg with
  | None => UNull
  | Some sql =>
    if FRACTAL_T2S_MAX_SQL_BYTES <? Z.of_nat (length sql) then UError
    else if negb env_ok then UError
    else
      let select_only := negb (bytes_eqb mode (bs "select_insert_update")) in
      match allowlist_verdict select_only sql with
      | None => UNull
      | Some r => if out_ok then UVal (reject_text r) else UError
      end
  end.

Example e1 : allowlist_verdict true (bs "SELECT a FROM t; ") = None.
Proof. vm_compute. reflexivity. Qed.
Example e2 : allowlist_verdict true (bs "WITH d(x) AS (SELECT ')') DELETE FROM t") = Some (R_type KW_DELETE true).
Proof. vm_compute. reflexivity. Qed.
Example e3 : allowlist_verdict true (bs "SELECT 1 INTO /* x */ outfile '/tmp/x'") = Some R_outfile.
Proof. vm_compute. reflexivity. Qed.
Example e4 : allowlist_verdict true (bs "SELECT Sleep (5)") = Some (R_denied (bs "sleep")).
Proof. vm_compute. reflexivity. Qed.
Example e5 : allowlist_verdict true (bs "SELECT 1--sleep(5)") = None.
Proof. vm_compute. reflexivity. Qed.
Example e6 : allowlist_verdict true (bs "#'" ++ [10] ++ bs "SELECT 1 /*! INTO OUTFILE '/tmp/x' */") = None.
Proof. vm_compute. reflexivity. Qed.
Example e7 : allowlist_verdict true (bs "SELECT `sleep`(5), sleep/**/(5)") = None.
Proof. vm_compute. reflexivity. Qed.

(** ** The lexical specification the gate is measured against

    SQL text as a sequence of tokens: single characters, complete quoted
    literals and complete ordinary block comments.  It is the text a server
    lexer reads outside line comments. *)

Inductive tok :=
  | TChar (c : Z)
  | TLit (q : Z) (body : list Z)
  | TComment (body : list Z).

Definition tok_bytes (t : tok) : list Z :=
  match t with
  | TChar c => [c]
  | TLit q b => q :: b ++ [q]
  | TComment b => c_slash :: c_star :: b ++ [c_star; c_slash]
  end.
Definition render (ts : list tok) : list Z := concat (map tok_bytes ts).

(** A literal body: escapes and doubled quotes only in pairs. *)
Fixpoint lit_body (q : Z) (l : list Z) : bool :=
  match l with
  | [] => true
  | c :: r =>
      if (c =? c_bslash) && negb (q =? c_btick) then
        match r with _ :: r' => lit_body q r' | [] => false end
      else if c =? q then
        match r with c' :: r' => (c' =? q) && lit_body q r' | [] => false end
      else lit_body q r
  end.
(** A comment body: it does not close, and is not an executable comment. *)
Fixpoint no_close (l : list Z) : bool :=
  match l with
  | a :: ((b :: _) as l') => negb ((a =? c_star) && (b =? c_slash)) && no_close l'
  | _ => true
  end.
Definition comment_body (b : list Z) : bool :=
  no_close b && negb (head_is 33 b) && negb (head_is 43 b).

(** The tokens are what a lexer would read of their text before [rest]. *)
Fixpoint toks_ok (ts : list tok) (rest : list Z) : bool :=
  match ts with
  | [] => true
  | t :: ts' =>
      match t with
      | TChar c => negb (is_quote c) && negb (c =? c_hash) &&
          negb (starts_dashes (c :: render ts' ++ rest)) &&
          negb (starts_block_comment (c :: render ts' ++ rest))
      | TLit q b => is_quote q && lit_body q b && negb (head_is q (render ts' ++ rest))
      | TComment b => comment_body b
      end && toks_ok ts' rest
  end.

Definition is_semi (t : tok) : bool := match t with TChar c => c =? c_semi | _ => false end.
Definition has_content (ts : list tok) : bool :=
  existsb (fun t => match t with TChar c => negb (isspace c) | TLit _ _ => true | _ => false end) ts.
(** The text between semicolons. *)
Fixpoint chunks (ts : list tok) : list (list tok) :=
  match ts with
  | [] => [[]]
  | t :: ts' =>
      if is_semi t then [] :: chunks ts'
      else match chunks ts' with ch :: r => (t :: ch) :: r | [] => [[t]] end
  end.
(** The number of statements: the chunks with something in them. *)
Definition statements (ts : list tok) : Z :=
  Z.of_nat (length (List.filter has_content (chunks ts))).

(** ** Lemmas: every move goes forward *)

Create HintDb scan discriminated.

Lemma suffix_tl (c : Z) r l : l `suffix_of` r -> l `suffix_of` (c :: r).
Proof. apply suffix_cons_r. Qed.
#[export] Hint Resolve suffix_tl : scan.

Lemma skip_space_suffix l : skip_space l `suffix_of` l.
Proof. induction l as [|c l IH]; simpl; [done|]. case_match; [by apply suffix_tl|done]. Qed.
Lemma skip_line_suffix l : skip_line l `suffix_of` l.
Proof. induction l as [|c l IH]; simpl; [done|]. case_match; [done|by apply suffix_tl]. Qed.
Lemma skip_ident_suffix l : skip_ident l `suffix_of` l.
Proof. induction l as [|c l IH]; simpl; [done|]. case_match; [by apply suffix_tl|done]. Qed.
Lemma skip_blank_suffix l : skip_blank l `suffix_of` l.
Proof. induction l as [|c l IH]; simpl; [done|]. case_match; [by apply suffix_tl|done]. Qed.
Lemma skip_block_suffix l : skip_block l `suffix_of` l.
Proof.
  induction l as [|a [|b r] IH]; [done|apply suffix_nil|].
  change (skip_block (a :: b :: r)) with
    (if (a =? c_star) && (b =? c_slash) then r else skip_block (b :: r)).
  case_match; auto with scan.
Qed.
(** The two literal loops consume two characters at a time on an escape. *)
Lemma list_pair_ind (P : list Z -> Prop) :
  P [] -> (forall c, P [c]) -> (forall a b r, P r -> P (b :: r) -> P (a :: b :: r)) ->
  forall l, P l.
Proof.
  intros H0 H1 H2 l. enough (P l /\ forall c, P (c :: l)) by tauto.
  induction l as [|b r [IH IHc]]; split; auto.
Qed.
Lemma quoted_body_suffix q l : quoted_body q l `suffix_of` l.
Proof.
  induction l as [|c|a b r IH IH'] using list_pair_ind; [done|apply suffix_nil|].
  cbn [quoted_body] in *. repeat case_match; auto with scan.
Qed.
Lemma denied_quoted_suffix q l : denied_quoted q l `suffix_of` l.
Proof.
  induction l as [|c|a b r IH IH'] using list_pair_ind; [done| |].
  - cbn. repeat case_match; auto using suffix_nil.
  - cbn [denied_quoted] in *. repeat case_match; auto with scan.
Qed.
#[export] Hint Resolve skip_space_suffix skip_line_suffix skip_ident_suffix skip_blank_suffix
  skip_block_suffix quoted_body_suffix denied_quoted_suffix : scan.

Lemma suffix_len (l k : list Z) : l `suffix_of` k -> (length l <= length k)%nat.
Proof. apply suffix_length. Qed.

Lemma skip_quoted_suffix l : t2s_skip_quoted l `suffix_of` l.
Proof. destruct l; simpl; auto with scan. Qed.
Lemma skip_quoted_lt c l : (length (t2s_skip_quoted (c :: l)) < S (length l))%nat.
Proof. cbn [t2s_skip_quoted]. pose proof (suffix_len _ _ (quoted_body_suffix c l)). lia. Qed.
Lemma drop2_suffix (l : list Z) : drop 2 l `suffix_of` l.
Proof. exists (take 2 l). by rewrite take_drop. Qed.
#[export] Hint Resolve skip_quoted_suffix drop2_suffix : scan.

Lemma skip_line_lt l : starts_line_comment l = true -> (length (skip_line l) < length l)%nat.
Proof.
  intros H. destruct l as [|c r]; [done|].
  assert (Hc : c = c_dash \/ c = c_hash).
  { unfold starts_line_comment, c_dash, c_hash in *. destruct r; bools; lia. }
  cbn [skip_line]. case_match; [unfold c_dash, c_hash, c_nl in *; lia|].
  pose proof (suffix_len _ _ (skip_line_suffix r)). cbn [length]. lia.
Qed.
Lemma starts_block_len l : starts_block_comment l = true -> (2 <= length l)%nat.
Proof. destruct l as [|a [|b r]]; try done. cbn. lia. Qed.
Lemma skip_block_lt l : starts_block_comment l = true ->
  (length (skip_block (drop 2 l)) < length l)%nat.
Proof.
  intros H. apply starts_block_len in H. pose proof (suffix_len _ _ (skip_block_suffix (drop 2 l))).
  rewrite length_drop in *. lia.
Qed.

Lemma ws_decreases s s' : ws_step s = inl s' -> (ws_fuel s' < ws_fuel s)%nat.
Proof.
  destruct s as [moved l]. unfold ws_step, ws_fuel. cbn [fst snd].
  destruct moved; [|done]. cbn [negb]. destruct l as [|c r] eqn:El; [done|]. rewrite <- El.
  pose proof (suffix_len _ _ (skip_space_suffix l)) as Hs.
  destruct (starts_line_comment (skip_space l)) eqn:E1;
    [|destruct (starts_block_comment (skip_space l)) eqn:E2].
  - intros [= <-]. apply skip_line_lt in E1. cbn [fst snd]. lia.
  - intros [= <-]. apply skip_block_lt in E2. cbn [fst snd]. lia.
  - intros [= <-]. cbn [fst snd].
    destruct (length (skip_space l) =? length l)%nat eqn:E; cbn [negb];
      [apply Nat.eqb_eq in E | apply Nat.eqb_neq in E]; lia.
Qed.

(** The skip is its loop: the fuel given is enough. *)
Lemma skip_ws_while l :
  while ws_step (S (ws_fuel (true, l))) (true, l) = Some (t2s_skip_ws_comments l).
Proof.
  unfold t2s_skip_ws_comments.
  destruct (while_enough ws_step ws_fuel ws_decreases _ (true, l) (Nat.lt_succ_diag_r _)) as [r Hr].
  by rewrite Hr.
Qed.

Lemma skip_ws_suffix l : t2s_skip_ws_comments l `suffix_of` l.
Proof.
  apply (while_inv ws_step (fun s => s.2 `suffix_of` l) (fun r => r `suffix_of` l))
    with (4 := skip_ws_while l); [| |done].
  - intros [m k] [m' k'] Hk. cbn [snd] in *. unfold ws_step.
    destruct m; [|done]. destruct k as [|c k0]; [done|]. set (k := c :: k0) in *.
    cbn [negb]. repeat case_match; intros [= <- <-]; (etransitivity; [|exact Hk]).
    all: change (if isspace c then skip_space k0 else c :: k0) with (skip_space k).
    + etransitivity; [apply skip_line_suffix|]. auto with scan.
    + etransitivity; [apply skip_block_suffix|]. etransitivity; [apply drop2_suffix|]. auto with scan.
    + auto with scan.
  - intros [m k] r Hk. cbn [snd] in *. unfold ws_step. repeat case_match; intros [= <-]; done.
Qed.
#[export] Hint Resolve skip_ws_suffix : scan.

Lemma kw_prefix_spec l kw r : kw_prefix l kw = Some r ->
  exists w, l = w ++ r /\ length w = length kw.
Proof.
  revert l. induction kw as [|k kw IH]; intros l H; [exists []; by simplify_eq/=|].
  destruct l as [|c l]; [done|]. cbn [kw_prefix] in H. case_match; [|done].
  apply IH in H as (w & -> & Hw). exists (c :: w). cbn [length]. by rewrite Hw.
Qed.
Lemma match_kw_spec l kw r : t2s_match_kw l kw = Some r ->
  exists w, l = w ++ r /\ length w = length kw.
Proof.
  unfold t2s_match_kw. case_match eqn:E; [|done]. intros H. apply kw_prefix_spec in E as (w & -> & Hw).
  exists w. split; [|done]. repeat case_match; simplify_eq; done.
Qed.
Lemma match_kw_len l kw r : t2s_match_kw l kw = Some r -> length l = (length kw + length r)%nat.
Proof. intros (w & -> & <-)%match_kw_spec. apply length_app. Qed.

Lemma skip_ws_len l : (length (t2s_skip_ws_comments l) <= length l)%nat.
Proof. apply suffix_len. auto with scan. Qed.
Lemma skip_ws_guard_lt c r : 
  (length (if (length (t2s_skip_ws_comments (c :: r)) =? length (c :: r))%nat
           then r else t2s_skip_ws_comments (c :: r)) < S (length r))%nat.
Proof.
  pose proof (skip_ws_len (c :: r)) as H. cbn [length] in *.
  case_match eqn:E; [lia|]. apply Nat.eqb_neq in E. lia.
Qed.

(** Name the rest after a literal, keeping only that it is shorter. *)
Ltac hide_quoted c r :=
  let H := fresh "Hq" in
  pose proof (skip_quoted_lt c r) as H; revert H;
  generalize (t2s_skip_quoted (c :: r)); intros ? H.

Lemma paren_decreases s s' : paren_step s = inl s' -> (length s'.2 < length s.2)%nat.
Proof.
  destruct s as [d [|c r]]; [done|]. unfold paren_step. cbn [snd length].
  hide_quoted c r. repeat case_match; intros [= <-]; cbn [snd]; lia.
Qed.
Lemma count_decreases s s' : count_step s = inl s' -> (length s'.2 < length s.2)%nat.
Proof.
  destruct s as [[n a] [|c r]]; [done|]. unfold count_step. cbn [snd].
  hide_quoted c r. pose proof (skip_ws_guard_lt c r). cbv zeta.
  destruct (is_quote c); [|destruct ((c =? c_lpar) || (c =? c_rpar)); [|destruct (c =? c_semi);
    [|destruct (isspace c); [|destruct (starts_dashes (c :: r) || (c =? c_hash) || starts_block_comment (c :: r))]]]].
  all: intros [= <-]; cbn [snd length] in *; lia.
Qed.
Lemma outfile_decreases l l' : outfile_step l = inl l' -> (length l' < length l)%nat.
Proof.
  destruct l as [|c r]; [done|]. unfold outfile_step. cbv zeta.
  hide_quoted c r. pose proof (skip_ws_guard_lt c r).
  destruct (is_quote c); [intros [= <-]; cbn [length]; lia|].
  destruct (starts_dashes (c :: r) || (c =? c_hash) || starts_block_comment (c :: r));
    [intros [= <-]; cbn [length] in *; lia|].
  destruct (t2s_match_kw (c :: r) (bs "INTO")) as [save|] eqn:E; [|intros [= <-]; cbn [length]; lia].
  apply match_kw_len in E. destruct (found _ || found _); [done|]. intros [= <-]. rewrite E. cbn. lia.
Qed.
Lemma exec_decreases l l' : exec_step l = inl l' -> (length l' < length l)%nat.
Proof.
  destruct l as [|c r]; [done|]. unfold exec_step. cbv zeta.
  hide_quoted c r.
  destruct (is_quote c); [intros [= <-]; cbn [length]; lia|].
  destruct (starts_block_comment (c :: r)) eqn:E; [|intros [= <-]; cbn [length]; lia].
  apply skip_block_lt in E. destruct (head_is _ _ || head_is _ _); [done|]. intros [= <-]. exact E.
Qed.
Lemma take_id_app l : let '(a, b) := take_id l in l = a ++ b.
Proof.
  induction l as [|c l IH]; [done|]. cbn [take_id]. revert IH. destruct (take_id l) as [a b].
  intros ->. by destruct (id_char c).
Qed.
Lemma take_id_lt c r : id_start c = true ->
  let '(a, b) := take_id (c :: r) in (length b < S (length r))%nat.
Proof.
  intros Hc. cbn [take_id]. pose proof (take_id_app r) as H. revert H. destruct (take_id r) as [a b]. intros H.
  replace (id_char c) with true by (unfold id_start, id_char, isalnum in *; destruct (isalpha c); simpl in *; lia).
  subst r. rewrite length_app. lia.
Qed.
Lemma denied_decreases l l' : denied_step l = inl l' -> (length l' < length l)%nat.
Proof.
  destruct l as [|c r]; [done|]. unfold denied_step.
  pose proof (suffix_len _ _ (denied_quoted_suffix c r)).
  destruct (is_quote c) eqn:Eq; [intros [= <-]; cbn [length]; lia|].
  destruct ((c =? c_hash) || starts_dashes (c :: r)) eqn:E1.
  { intros [= <-]. cbn [skip_line]. pose proof (suffix_len _ _ (skip_line_suffix r)).
    case_match; [|cbn [length]; lia]. exfalso. unfold starts_dashes, c_hash, c_dash, c_nl in *.
    destruct r; bools; lia. }
  destruct (starts_block_comment (c :: r)) eqn:E2; [pose proof (skip_block_lt _ E2) as Hb; intros [= <-]; exact Hb|].
  destruct (id_start c) eqn:E3; [|intros [= <-]; cbn [length]; lia].
  apply (take_id_lt c r) in E3. destruct (take_id (c :: r)) as [id rest].
  repeat case_match; try done; intros [= <-]; cbn [length]; lia.
Qed.
Lemma paren_len l r : t2s_skip_paren_balanced l = Some r -> (length r < length l)%nat.
Proof.
  unfold t2s_skip_paren_balanced. destruct (while _ _ _) as [o|] eqn:E; [|done].
  intros H. change (o = Some r) in H. revert H.
  apply (while_inv paren_step (fun s => (length s.2 <= length l)%nat)
    (fun o => o = Some r -> (length r < length l)%nat)) with (4 := E); [| |done].
  - intros s s' Hs Hp. apply paren_decreases in Hp. lia.
  - intros [d [|c k]] o' Hs Hp; unfold paren_step in Hp; cbn [snd length] in Hs.
    + by simplify_eq.
    + revert Hp. generalize (t2s_skip_quoted (c :: k)). intros ? Hp.
      repeat case_match; simplify_eq; intros [= <-]. lia.
Qed.

Lemma cte_decreases l l' : cte_step l = inl l' -> (length l' < length l)%nat.
Proof.
  unfold cte_step. set (l1 := if head_is c_btick l then t2s_skip_quoted l else skip_ident l).
  assert (H1 : (length l1 <= length l)%nat).
  { apply suffix_len. unfold l1. case_match; auto with scan. }
  clearbody l1. set (l2 := t2s_skip_ws_comments l1).
  assert (H2 : (length l2 <= length l1)%nat) by apply skip_ws_len. clearbody l2.
  cbv zeta. destruct (if head_is c_lpar l2 then _ else Some l2) as [l3|] eqn:E3; [|done].
  assert (H3 : (length l3 <= length l2)%nat).
  { repeat case_match; simplify_eq; try done.
    match goal with H : t2s_skip_paren_balanced _ = _ |- _ => apply paren_len in H end.
    etransitivity; [apply skip_ws_len|lia]. }
  destruct (t2s_match_kw l3 (bs "AS")) as [l4|] eqn:E4; [|done]. apply match_kw_len in E4.
  pose proof (skip_ws_len l4) as H5. destruct (negb _); [done|].
  destruct (t2s_skip_paren_balanced (t2s_skip_ws_comments l4)) as [l6|] eqn:E6; [|done].
  apply paren_len in E6. pose proof (skip_ws_len l6) as H7. pose proof (skip_ws_len (drop 1 (t2s_skip_ws_comments l6))) as H8.
  destruct (head_is c_comma (t2s_skip_ws_comments l6)); [|intros [=]]. intros [= <-].
  rewrite length_drop in H8. lia.
Qed.

(** The skip of white space and comments, as its own equation. *)
Lemma skip_space_idem l : skip_space (skip_space l) = skip_space l.
Proof.
  induction l as [|c l IH]; [done|]. cbn [skip_space]. destruct (isspace c) eqn:E; [done|].
  cbn [skip_space]. by rewrite E.
Qed.
Lemma skip_space_same l : length (skip_space l) = length l -> skip_space l = l.
Proof.
  destruct (skip_space_suffix l) as [p Hp]. intros H. rewrite Hp in H at 2. rewrite length_app in H.
  destruct p; [done|cbn in H; lia].
Qed.
Lemma skip_ws_eq l :
  t2s_skip_ws_comments l =
  let l1 := skip_space l in
  if starts_line_comment l1 then t2s_skip_ws_comments (skip_line l1)
  else if starts_block_comment l1 then t2s_skip_ws_comments (skip_block (drop 2 l1))
  else l1.
Proof.
  pose proof (skip_ws_while l) as H. rewrite (while_unfold _ _ ws_decreases) in H. cbv zeta.
  destruct l as [|c r]; [done|]. cbn [ws_step negb] in H. revert H. cbv zeta.
  set (l1 := skip_space (c :: r)).
  destruct (starts_line_comment l1) eqn:E1; [|destruct (starts_block_comment l1) eqn:E2].
  - rewrite skip_ws_while. congruence.
  - rewrite skip_ws_while. congruence.
  - destruct (length l1 =? length (c :: r))%nat eqn:El; cbn [negb].
    + cbn [while ws_step ws_fuel fst snd negb]. congruence.
    + rewrite (while_unfold _ _ ws_decreases). unfold ws_step at 1. cbn [negb].
      assert (Hi : skip_space l1 = l1) by apply skip_space_idem.
      clearbody l1. destruct l1 as [|c1 r1] eqn:Hl1; [congruence|]. rewrite <- Hl1 in *.
      rewrite Hi. rewrite E1, E2, Nat.eqb_refl. cbn [negb].
      rewrite Hl1. cbn [while ws_step negb ws_fuel fst snd]. congruence.
Qed.

(** ** Lemmas: well-formed text under the scanners *)

Lemma render_cons t ts rest : render (t :: ts) ++ rest = tok_bytes t ++ (render ts ++ rest).
Proof. unfold render. cbn. by rewrite app_assoc. Qed.

(** A complete literal is skipped exactly, by both literal loops. *)
Lemma quoted_body_lit q b r : lit_body q b = true -> head_is q r = false -> q <> c_bslash ->
  quoted_body q (b ++ q :: r) = r.
Proof.
  intros Hb Hr Hq. revert Hb.
  induction b as [|c|c c' b IH IH'] using list_pair_ind; intros Hb.
  - cbn [app quoted_body]. destruct r as [|c' r]; [done|]. cbn [head_is] in Hr.
    rewrite Hr, Z.eqb_refl. destruct (q =? c_bslash) eqn:E; [lia|done].
  - cbn [lit_body] in Hb. cbn [app quoted_body].
    destruct ((c =? c_bslash) && negb (q =? c_btick)); [done|]. destruct (c =? q) eqn:E; [done|].
    destruct r as [|c' r]; [done|]. cbn [head_is] in Hr. 
    cbn [quoted_body]. rewrite Hr, Z.eqb_refl. destruct (q =? c_bslash) eqn:E'; [lia|done].
  - cbn [lit_body] in Hb, IH'. cbn [app quoted_body].
    destruct ((c =? c_bslash) && negb (q =? c_btick)); [by apply IH|].
    destruct (c =? q); [|by apply IH'].
    destruct (c' =? q); [by apply IH|done].
Qed.
Lemma denied_quoted_lit q b r : lit_body q b = true -> head_is q r = false -> q <> c_bslash ->
  denied_quoted q (b ++ q :: r) = r.
Proof.
  intros Hb Hr Hq. revert Hb.
  assert (Hend : denied_quoted q (q :: r) = r).
  { cbn [denied_quoted]. destruct (q =? c_bslash) eqn:E; [lia|]. cbn [andb]. rewrite Z.eqb_refl.
    destruct r as [|c' r]; [done|]. cbn [head_is] in Hr. by rewrite Hr. }
  induction b as [|c|c c' b IH IH'] using list_pair_ind; intros Hb; [done| |].
  - cbn [lit_body] in Hb. cbn [app denied_quoted] in *.
    destruct ((c =? c_bslash) && negb (q =? c_btick)); [done|]. by destruct (c =? q) eqn:E.
  - cbn [lit_body] in Hb, IH'. cbn [app denied_quoted].
    destruct ((c =? c_bslash) && negb (q =? c_btick)); [by apply IH|].
    destruct (c =? q); [|by apply IH'].
    destruct (c' =? q); [by apply IH|done].
Qed.
Lemma skip_block_body b r : no_close b = true -> skip_block (b ++ c_star :: c_slash :: r) = r.
Proof.
  induction b as [|a [|a' b] IH]; [done| |].
  - intros _. cbn [app skip_block]. change (c_star =? c_slash) with false. rewrite andb_false_r.
    done.
  - intros H. cbn [no_close] in H. apply andb_true_iff in H as [H1 H2]. apply negb_true_iff in H1.
    cbn [app]. cbn [skip_block]. rewrite H1. apply IH. exact H2.
Qed.
Lemma is_quote_facts q : is_quote q = true ->
  q <> c_bslash /\ isspace q = false /\ starts_line_comment [q] = false.
Proof. unfold is_quote, isspace, starts_line_comment, c_quote, c_dquote, c_btick, c_bslash, c_hash. lia. Qed.

(** How a scanner step meets the first token of a well-formed text. *)
Lemma tok_lit q b ts rest : toks_ok (TLit q b :: ts) rest = true ->
  is_quote q = true /\ toks_ok ts rest = true /\
  t2s_skip_quoted (render (TLit q b :: ts) ++ rest) = render ts ++ rest /\
  denied_quoted q (b ++ [q] ++ render ts ++ rest) = render ts ++ rest.
Proof.
  cbn [toks_ok]. intros H. bools. pose proof (is_quote_facts q ltac:(done)) as (Hq & _ & _).
  rewrite render_cons. cbn [tok_bytes app t2s_skip_quoted]. rewrite <- app_assoc.
  cbn [app]. repeat split; try done.
  - by apply quoted_body_lit.
  - by apply denied_quoted_lit.
Qed.
Lemma tok_comment b ts rest : toks_ok (TComment b :: ts) rest = true ->
  toks_ok ts rest = true /\
  head_is 33 (b ++ [c_star; c_slash] ++ render ts ++ rest) = false /\
  head_is 43 (b ++ [c_star; c_slash] ++ render ts ++ rest) = false /\
  skip_block (b ++ [c_star; c_slash] ++ render ts ++ rest) = render ts ++ rest /\
  render (TComment b :: ts) ++ rest = c_slash :: c_star :: b ++ [c_star; c_slash] ++ render ts ++ rest.
Proof.
  cbn [toks_ok]. unfold comment_body. intros H. bools. rewrite render_cons. cbn [tok_bytes app].
  rewrite <- app_assoc. repeat split; try done.
  - by destruct b.
  - by destruct b.
  - by apply skip_block_body.
Qed.
Lemma tok_char c ts rest : toks_ok (TChar c :: ts) rest = true ->
  toks_ok ts rest = true /\ is_quote c = false /\ (c =? c_hash) = false /\
  starts_dashes (c :: render ts ++ rest) = false /\
  starts_block_comment (c :: render ts ++ rest) = false /\
  render (TChar c :: ts) ++ rest = c :: render ts ++ rest.
Proof. cbn [toks_ok]. intros H. bools. by rewrite render_cons. Qed.

(** Each scanner satisfies its loop's equation. *)
Lemma loop_eq {St R} (step : St -> St + R) (m : St -> nat)
  (H : forall s s', step s = inl s' -> (m s' < m s)%nat) d s :
  default d (while step (S (m s)) s) =
  match step s with inl s' => default d (while step (S (m s')) s') | inr r => r end.
Proof. rewrite (while_unfold step m H). by destruct (step s). Qed.

Definition count_from (n : Z) (a : bool) (l : list Z) : Z :=
  default 0 (while count_step (S (length l)) (n, a, l)).
Lemma count_eq n a l : count_from n a l =
  match count_step (n, a, l) with inl (n', a', l') => count_from n' a' l' | inr r => r end.
Proof.
  unfold count_from.
  etransitivity; [apply (loop_eq count_step (fun s => length s.2) count_decreases 0 (n, a, l))|].
  by destruct (count_step (n, a, l)) as [[[n' a'] l']|r].
Qed.
Lemma outfile_eq l : t2s_has_into_outfile l =
  match outfile_step l with inl l' => t2s_has_into_outfile l' | inr b => b end.
Proof. apply (loop_eq outfile_step length outfile_decreases). Qed.
Lemma exec_eq l : t2s_has_exec_comment l =
  match exec_step l with inl l' => t2s_has_exec_comment l' | inr b => b end.
Proof. apply (loop_eq exec_step length exec_decreases). Qed.
Lemma denied_eq l : t2s_has_denied_call l =
  match denied_step l with inl l' => t2s_has_denied_call l' | inr b => b end.
Proof. apply (loop_eq denied_step length denied_decreases). Qed.

(** Blank tokens at the head of a text are what [t2s_skip_ws_comments] skips. *)
Fixpoint drop_blank (ts : list tok) : list tok :=
  match ts with
  | TChar c :: ts' => if isspace c then drop_blank ts' else ts
  | TComment _ :: ts' => drop_blank ts'
  | _ => ts
  end.
Definition solid (l : list Z) : bool :=
  match l with [] => true | c :: _ => negb (isspace c) end &&
  negb (starts_line_comment l) && negb (starts_block_comment l).

Lemma solid_skip l : solid l = true -> t2s_skip_ws_comments l = l.
Proof.
  unfold solid. intros H. bools. rewrite skip_ws_eq. cbv zeta.
  assert (skip_space l = l) as -> by (destruct l; [done|]; cbn [skip_space]; bools; by case_match).
  by rewrite H0, H1.
Qed.
Lemma skip_ws_space c l : isspace c = true -> t2s_skip_ws_comments (c :: l) = t2s_skip_ws_comments l.
Proof. intros H. rewrite skip_ws_eq, (skip_ws_eq l). cbn [skip_space]. by rewrite H. Qed.
Lemma starts_line_dashes c l : starts_dashes (c :: l) = false -> (c =? c_hash) = false ->
  starts_line_comment (c :: l) = false.
Proof. unfold starts_dashes, starts_line_comment. destruct l; intros; bools; lia. Qed.

Lemma skip_ws_toks ts rest : toks_ok ts rest = true -> solid rest = true ->
  t2s_skip_ws_comments (render ts ++ rest) = render (drop_blank ts) ++ rest.
Proof.
  intros Hts Hr. induction ts as [|[c|q b|b] ts IH].
  - by apply solid_skip.
  - apply tok_char in Hts as (Hts & Hq & Hh & Hd & Hb & Heq). cbn [drop_blank].
    destruct (isspace c) eqn:E; rewrite Heq.
    + rewrite skip_ws_space by done. by apply IH.
    + apply solid_skip. unfold solid. by rewrite E, Hb, (starts_line_dashes _ _ Hd Hh).
  - cbn [toks_ok] in Hts. bools. cbn [drop_blank]. rewrite render_cons. cbn [tok_bytes app].
    apply solid_skip. unfold solid, starts_line_comment, starts_block_comment, isspace, is_quote in *.
    unfold c_quote, c_dquote, c_btick, c_dash, c_hash, c_slash in *.
    destruct ((b ++ [q]) ++ render ts ++ rest); lia.
  - apply tok_comment in Hts as (Hts & _ & _ & Hs & Heq). cbn [drop_blank].
    rewrite Heq, skip_ws_eq. cbv zeta. cbn [skip_space].
    change (isspace c_slash) with false. cbv iota.
    change (starts_line_comment (c_slash :: c_star :: _)) with false.
    change (starts_block_comment (c_slash :: c_star :: _)) with true. cbv iota.
    change (drop 2 (c_slash :: c_star :: ?x)) with x. rewrite Hs. by apply IH.
Qed.
Lemma drop_blank_ok ts rest : toks_ok ts rest = true -> toks_ok (drop_blank ts) rest = true.
Proof.
  induction ts as [|[c|q b|b] ts IH]; cbn [drop_blank]; intros H; try done.
  - destruct (isspace c); [|done]. apply IH. by apply tok_char in H as [? _].
  - apply IH. by apply tok_comment in H as [? _].
Qed.
Lemma drop_blank_len ts : (length (drop_blank ts) <= length ts)%nat.
Proof.
  induction ts as [|[c|q b|b] ts IH]; cbn [drop_blank length]; try lia.
  destruct (isspace c); cbn [length]; lia.
Qed.

Lemma skip_comment_shorter b ts rest : toks_ok ts rest = true -> solid rest = true ->
  (length (render (drop_blank ts) ++ rest) =?
   length (c_slash :: c_star :: b ++ [c_star; c_slash] ++ render ts ++ rest))%nat = false.
Proof.
  intros H Hr. pose proof (skip_ws_len (render ts ++ rest)) as Hl.
  rewrite (skip_ws_toks _ _ H Hr) in Hl. apply Nat.eqb_neq.
  cbn [length]. rewrite (length_app b), (length_app [_; _]). cbn [length]. lia.
Qed.

(** *** Counting *)

Fixpoint cnt (a : bool) (ts : list tok) : Z :=
  match ts with
  | [] => if a then 1 else 0
  | TChar c :: r => if c =? c_semi then (if a then 1 else 0) + cnt false r
                    else cnt (a || negb (isspace c)) r
  | TLit _ _ :: r => cnt true r
  | TComment _ :: r => cnt a r
  end.
Lemma chunks_cons ts : exists ch r, chunks ts = ch :: r.
Proof. destruct ts as [|t ts]; cbn; [by eauto|]. repeat case_match; eauto. Qed.
Lemma cnt_statements a ts : cnt a ts =
  match chunks ts with
  | ch :: r => (if a || has_content ch then 1 else 0) + Z.of_nat (length (List.filter has_content r))
  | [] => 0
  end.
Proof.
  revert a. induction ts as [|t ts IH]; intros a; [by destruct a|].
  destruct (chunks_cons ts) as (ch & r & Hc). cbn [chunks cnt].
  destruct t as [c|q b|b]; cbn [is_semi]; [destruct (c =? c_semi)| |]; rewrite IH, Hc.
  - cbn [has_content existsb]. rewrite orb_false_r. cbn [List.filter orb].
    destruct (has_content ch); cbn [length]; destruct a; lia.
  - unfold has_content. cbn [existsb]. by rewrite orb_assoc.
  - unfold has_content. cbn [existsb]. by rewrite orb_true_r.
  - unfold has_content. cbn [existsb]. done.
Qed.
Lemma cnt_drop_blank a ts : cnt a (drop_blank ts) = cnt a ts.
Proof.
  induction ts as [|[c|q b|b] ts IH]; cbn [drop_blank]; try done.
  destruct (isspace c) eqn:E; [|done]. cbn [cnt]. rewrite IH, E, orb_false_r.
  destruct (c =? c_semi) eqn:E'; [|done]. unfold isspace, c_semi in *. lia.
Qed.
Lemma count_toks k : forall ts n a, (length ts <= k)%nat -> toks_ok ts [] = true ->
  count_from n a (render ts) = n + cnt a ts.
Proof.
  induction k as [|k IH]; intros ts n a Hk Hts; rewrite count_eq.
  { destruct ts; [|cbn in Hk; lia]. destruct a; cbn; lia. }
  rewrite <- (app_nil_r (render ts)) in *. destruct ts as [|[c|q b|b] ts]; cbn [length] in Hk.
  - destruct a; cbn; lia.
  - apply tok_char in Hts as (Hts & Hq & Hh & Hd & Hb & ->). rewrite app_nil_r in *. unfold count_step.
    rewrite Hq, Hd, Hh, Hb. cbn [orb cnt].
    destruct ((c =? c_lpar) || (c =? c_rpar)) eqn:E1.
    { rewrite IH by (done || lia). assert ((c =? c_semi) = false) as -> by (unfold c_lpar, c_rpar, c_semi in *; lia).
      assert (isspace c = false) as -> by (unfold isspace, c_lpar, c_rpar in *; lia). by rewrite orb_true_r. }
    destruct (c =? c_semi); [rewrite IH by (done || lia); destruct a; lia|].
    destruct (isspace c); rewrite IH by (done || lia); cbn [negb]; by rewrite ?orb_false_r, ?orb_true_r.
  - pose proof (tok_lit _ _ _ _ Hts) as (Hq & Hok & Hs & _).
    rewrite render_cons in *. cbn [tok_bytes app] in *. unfold count_step. rewrite Hq.
    rewrite Hs. rewrite !app_nil_r. cbn [cnt]. apply IH; [lia|done].
  - pose proof (skip_ws_toks _ [] Hts eq_refl) as Hs.
    pose proof (tok_comment _ _ _ Hts) as (Hok & _ & _ & _ & Heq). rewrite Heq in *.
    unfold count_step. cbn [drop_blank] in Hs.
    change (is_quote c_slash) with false. change (c_slash =? _) with false. change (isspace c_slash) with false.
    change (starts_block_comment (c_slash :: c_star :: _)) with true. rewrite orb_true_r. cbn [orb].
    rewrite Hs, (skip_comment_shorter _ _ _ Hok eq_refl). cbv iota zeta.
    pose proof (drop_blank_len ts). rewrite app_nil_r.
    rewrite IH; [|lia|by apply drop_blank_ok]. by rewrite cnt_drop_blank.
Qed.

(** *** Executable comments *)

Lemma exec_complete ts x r :
  toks_ok ts (c_slash :: c_star :: x :: r) = true -> (x =? 33) || (x =? 43) = true ->
  t2s_has_exec_comment (render ts ++ c_slash :: c_star :: x :: r) = true.
Proof.
  intros Hts Hx. set (rest := c_slash :: c_star :: x :: r) in *.
  induction ts as [|[c|q b|b] ts IH]; rewrite exec_eq.
  - cbn. by rewrite Hx.
  - apply tok_char in Hts as (Hts & Hq & _ & _ & Hb & ->). unfold exec_step. rewrite Hq, Hb. by apply IH.
  - pose proof (tok_lit _ _ _ _ Hts) as (Hq & Hok & Hs & _).
    rewrite render_cons in *. cbn [tok_bytes app] in *. unfold exec_step. rewrite Hq, Hs. by apply IH.
  - apply tok_comment in Hts as (Hok & H1 & H2 & Hs & ->). unfold exec_step.
    change (is_quote c_slash) with false. change (starts_block_comment (c_slash :: c_star :: _)) with true.
    cbv iota zeta. change (drop 2 (c_slash :: c_star :: ?x)) with x. rewrite H1, H2, Hs. by apply IH.
Qed.

(** *** INTO OUTFILE and INTO DUMPFILE *)

Definition same_ci (w kw : list Z) : bool := bytes_eqb (map tolower w) (map tolower kw).
Lemma kw_prefix_ci w kw r : same_ci w kw = true -> kw_prefix (w ++ r) kw = Some r.
Proof.
  unfold same_ci. rewrite bytes_eqb_true. revert w.
  induction kw as [|k kw IH]; intros [|c w] [=]; [done|]. cbn [app kw_prefix].
  rewrite (proj2 (Z.eqb_eq _ _)) by done. by apply IH.
Qed.
Definition word_end (r : list Z) : bool := match r with c :: _ => negb (t2s_is_ident_char c) | [] => true end.
Lemma match_kw_ci w kw r : same_ci w kw = true -> word_end r = true -> t2s_match_kw (w ++ r) kw = Some r.
Proof.
  intros Hw Hr. unfold t2s_match_kw. rewrite (kw_prefix_ci _ _ _ Hw). destruct r; [done|].
  cbn [word_end] in Hr. bools. by rewrite Hr.
Qed.
(** A keyword whose letters do not start [rest] is read out of the tokens. *)
Definition letters (kw : list Z) : bool := forallb isalpha kw.
Lemma kw_prefix_toks kw : forall ts rest r, toks_ok ts rest = true -> letters kw = true ->
  match rest with c :: _ => negb (existsb (fun k => tolower k =? tolower c) kw) | [] => true end = true ->
  kw_prefix (render ts ++ rest) kw = Some r ->
  exists ts', r = render ts' ++ rest /\ toks_ok ts' rest = true /\ (length ts' <= length ts)%nat.
Proof.
  induction kw as [|k kw IH]; intros ts rest r Hts Hl Hr Hk.
  - exists ts. simplify_eq/=. auto.
  - cbn [letters forallb] in Hl. apply andb_true_iff in Hl as [Hl1 Hl2].
    destruct ts as [|t ts]; [|rewrite render_cons in Hk].
    { exfalso. cbn [render concat map app kw_prefix] in Hk. destruct rest as [|c rest]; [done|].
      cbn [kw_prefix existsb] in Hk, Hr. bools. rewrite Z.eqb_sym in Hk. by rewrite H in Hk. }
    destruct t as [c|q b|b]; cbn [tok_bytes app kw_prefix] in Hk.
    + apply tok_char in Hts as (Hts & _). destruct (tolower c =? tolower k); [|done].
      destruct (IH ts rest r) as (ts' & ? & ? & ?); [done|done| |done|exists ts'; cbn [length]; auto].
      destruct rest; [done|]. cbn [existsb] in Hr. bools. by rewrite H0.
    + exfalso. cbn [toks_ok] in Hts. bools. destruct (tolower q =? tolower k) eqn:E; [|done].
      unfold is_quote, c_quote, c_dquote, c_btick, isalpha, isupper, islower, tolower, isupper in *.
      repeat case_match; lia.
    + exfalso. destruct (tolower c_slash =? tolower k) eqn:E; [|done]. unfold c_slash in E.
      unfold isalpha, isupper, islower, tolower, isupper in *. repeat case_match; lia.
Qed.
Definition is_i (c : Z) : bool := tolower c =? 105.
Lemma into_start w r : same_ci w (bs "INTO") = true ->
  exists c w', w = c :: w' /\ is_i c = true /\ solid (w ++ r) = true.
Proof.
  unfold same_ci. rewrite bytes_eqb_true. destruct w as [|c w]; [done|]. intros [= Hc Hw].
  exists c, w. assert (Hi : is_i c = true) by (apply Z.eqb_eq; exact Hc).
  repeat split; [done|]. cbn [app].
  assert (c = 73 \/ c = 105) as [-> | ->]; [|by destruct (w ++ r)..].
  unfold is_i, tolower, isupper in Hi. case_match; lia.
Qed.

Lemma same_ci_solid kw w r : same_ci w kw = true ->
  match kw with k :: _ => isalpha k | [] => false end = true -> solid (w ++ r) = true.
Proof.
  unfold same_ci. rewrite bytes_eqb_true. destruct kw as [|k kw], w as [|c w]; try done.
  intros [= Hc _] Hk. cbn [app]. unfold solid.
  assert (Hr : 65 <= c <= 90 \/ 97 <= c <= 122).
  { unfold tolower, isalpha, isupper, islower in *. repeat case_match; lia. }
  assert (isspace c = false) as -> by (unfold isspace; lia).
  unfold starts_line_comment, starts_block_comment, c_dash, c_hash, c_slash. destruct (w ++ r); lia.
Qed.
Lemma blanks_end ts rest : drop_blank ts = [] -> ts <> [] -> word_end (render ts ++ rest) = true.
Proof.
  destruct ts as [|[c|q b|b] ts]; try done; intros H _; rewrite render_cons; cbn [drop_blank] in H.
  destruct (isspace c) eqn:E; [|done]. cbn. unfold isspace, t2s_is_ident_char, isalnum, isalpha,
    isupper, islower, isdigit in *. lia.
Qed.
Lemma outfile_here into blanks kw r :
  same_ci into (bs "INTO") = true ->
  toks_ok blanks (kw ++ r) = true -> drop_blank blanks = [] -> blanks <> [] ->
  same_ci kw (bs "OUTFILE") || same_ci kw (bs "DUMPFILE") = true -> word_end r = true ->
  t2s_has_into_outfile (into ++ render blanks ++ kw ++ r) = true.
Proof.
  intros Hi Hb Hd Hne Hk Hr. rewrite outfile_eq.
  assert (Hsol : solid (kw ++ r) = true).
  { apply orb_true_iff in Hk as [Hk|Hk]; by apply (same_ci_solid _ _ _ Hk). }
  pose proof (match_kw_ci _ _ _ Hi (blanks_end blanks (kw ++ r) Hd Hne)) as Hm.
  assert (Hf : found (t2s_match_kw (kw ++ r) (bs "OUTFILE")) || found (t2s_match_kw (kw ++ r) (bs "DUMPFILE")) = true).
  { apply orb_true_iff in Hk as [Hk|Hk]; rewrite (match_kw_ci _ _ _ Hk Hr); [done|apply orb_true_r]. }
  destruct (into_start into (render blanks ++ kw ++ r) Hi) as (i & w & -> & Hic & Hs).
  cbn [app] in *. unfold outfile_step.
  assert (Hi' : i = 73 \/ i = 105) by (unfold is_i, tolower, isupper in Hic; case_match; lia).
  assert (is_quote i = false) as -> by (by destruct Hi' as [-> | ->]).
  assert (starts_dashes (i :: w ++ render blanks ++ kw ++ r) || (i =? c_hash) ||
    starts_block_comment (i :: w ++ render blanks ++ kw ++ r) = false) as ->.
  { by destruct Hi' as [-> | ->]; destruct (w ++ render blanks ++ kw ++ r). }
  rewrite Hm, (skip_ws_toks _ _ Hb Hsol), Hd. cbn [render map concat app]. cbv zeta. by rewrite Hf.
Qed.

Lemma outfile_prefix rest : t2s_has_into_outfile rest = true -> solid rest = true ->
  match rest with c :: _ => is_i c | [] => false end = true ->
  forall k ts, (length ts <= k)%nat -> toks_ok ts rest = true ->
  t2s_has_into_outfile (render ts ++ rest) = true.
Proof.
  intros Hbase Hsol Hic.
  induction k as [|k IH]; intros ts Hl Hts.
  { destruct ts; [done|cbn in Hl; lia]. }
  destruct ts as [|[c|q b|b] ts]; cbn [length] in Hl; [done| | |]; rewrite outfile_eq.
  - pose proof (tok_char _ _ _ Hts) as (Hok & Hq & Hh & Hds & Hbl & Heq). rewrite Heq. unfold outfile_step.
    rewrite Hq, Hds, Hh, Hbl. cbn [orb].
    destruct (t2s_match_kw (c :: render ts ++ rest) (bs "INTO")) as [save|] eqn:E; [|apply IH; [lia|done]].
    cbv zeta. destruct (found _ || found _); [done|].
    assert (Hk : kw_prefix (render ts ++ rest) (bs "NTO") = Some save).
    { unfold t2s_match_kw in E. change (kw_prefix (c :: ?l) (bs "INTO")) with
        (if tolower c =? tolower 73 then kw_prefix l (bs "NTO") else None) in E.
      destruct (tolower c =? tolower 73); [|done].
      destruct (kw_prefix (render ts ++ rest) (bs "NTO")) as [[|d l]|]; [done| |done].
      by destruct (t2s_is_ident_char d). }
    apply kw_prefix_toks in Hk as (ts' & -> & Hok' & Hlen); [|done|done|].
    + apply IH; [lia|done].
    + destruct rest as [|d rest]; [done|]. unfold is_i in Hic. apply Z.eqb_eq in Hic.
      cbn [bs existsb]. rewrite Hic. done.
  - pose proof (tok_lit _ _ _ _ Hts) as (Hq & Hok & Hs & _).
    rewrite render_cons in *. cbn [tok_bytes app] in *. unfold outfile_step. rewrite Hq, Hs. apply IH; [lia|done].
  - pose proof (skip_ws_toks _ _ Hts Hsol) as Hs. pose proof (tok_comment _ _ _ Hts) as (Hok & _ & _ & _ & Heq).
    rewrite Heq in *. unfold outfile_step. change (is_quote c_slash) with false.
    change (starts_block_comment (c_slash :: c_star :: _)) with true. rewrite orb_true_r. cbv iota zeta.
    rewrite Hs. cbn [drop_blank]. pose proof (drop_blank_len ts).
    rewrite (skip_comment_shorter _ _ _ Hok Hsol). apply IH; [lia|by apply drop_blank_ok].
Qed.
Lemma outfile_complete ts into blanks kw r :
  toks_ok ts (into ++ render blanks ++ kw ++ r) = true ->
  same_ci into (bs "INTO") = true ->
  toks_ok blanks (kw ++ r) = true -> drop_blank blanks = [] -> blanks <> [] ->
  same_ci kw (bs "OUTFILE") || same_ci kw (bs "DUMPFILE") = true -> word_end r = true ->
  t2s_has_into_outfile (render ts ++ into ++ render blanks ++ kw ++ r) = true.
Proof.
  intros Hts Hi Hb Hd Hne Hk Hr.
  destruct (into_start into (render blanks ++ kw ++ r) Hi) as (i & w & Hw & Hic & Hsol).
  apply (outfile_prefix _ (outfile_here _ _ _ _ Hi Hb Hd Hne Hk Hr) Hsol) with (length ts); [|done|done].
  by rewrite Hw.
Qed.

(** *** Denied calls *)

(** The text ends a word: an identifier starting after it is read whole. *)
Fixpoint ends_word (ts : list tok) : bool :=
  match ts with
  | [] => true
  | [TChar c] => negb (id_char c)
  | _ :: ts' => ends_word ts'
  end.
Lemma ends_word_tl t ts : ends_word (t :: ts) = true -> ends_word ts = true.
Proof. destruct ts; [done|]. by destruct t. Qed.

Lemma take_id_toks ts rest : toks_ok ts rest = true -> ends_word ts = true -> ts <> [] ->
  exists id ts', take_id (render ts ++ rest) = (id, render ts' ++ rest) /\
    toks_ok ts' rest = true /\ ends_word ts' = true /\ (length ts' <= length ts)%nat.
Proof.
  intros Hts He Hne. induction ts as [|t ts IH]; [done|].
  destruct t as [c|q b|b].
  - pose proof (tok_char _ _ _ Hts) as (Hok & _ & _ & _ & _ & Heq). rewrite Heq. cbn [take_id].
    destruct (id_char c) eqn:Ec.
    + destruct ts as [|t ts]; [cbn in He; by rewrite Ec in He|].
      destruct IH as (id & ts' & -> & ? & ? & ?); [done|by apply ends_word_tl in He|done|].
      exists (c :: id), ts'. cbn [length] in *. auto.
    + exists [], (TChar c :: ts). rewrite Heq. destruct (take_id (render ts ++ rest)). auto.
  - exists [], (TLit q b :: ts). repeat split; try done. cbn [toks_ok] in Hts. bools.
    rewrite render_cons. cbn [tok_bytes app take_id].
    assert (id_char q = false) as ->.
    { unfold id_char, isalnum, isalpha, isupper, islower, isdigit, is_quote, c_quote, c_dquote, c_btick in *. lia. }
    by destruct (take_id _).
  - exists [], (TComment b :: ts). pose proof (tok_comment _ _ _ Hts) as (_ & _ & _ & _ & ->).
    repeat split; done.
Qed.

Definition is_blank (c : Z) : bool := (c =? 32) || (c =? 9) || (c =? 10) || (c =? 13).
Lemma skip_blank_app w r : forallb is_blank w = true ->
  match r with c :: _ => negb (is_blank c) | [] => true end = true -> skip_blank (w ++ r) = r.
Proof.
  intros Hw Hr. induction w as [|c w IH]; cbn [app skip_blank forallb] in *.
  - destruct r as [|c r]; [done|]. cbn [skip_blank]. fold (is_blank c). by destruct (is_blank c).
  - bools. fold (is_blank c). rewrite H. by apply IH.
Qed.
Lemma take_id_app_exact w r : forallb id_char w = true ->
  match r with c :: _ => negb (id_char c) | [] => true end = true -> take_id (w ++ r) = (w, r).
Proof.
  intros Hw Hr. induction w as [|c w IH]; cbn [app take_id forallb] in *.
  - destruct r as [|c r]; [done|]. cbn [take_id]. destruct (take_id r). by destruct (id_char c).
  - bools. rewrite IH by done. by rewrite H.
Qed.
(** A name the list denies: its lower-cased bytes start with an entry. *)
Definition denied_name (id : list Z) : bool :=
  existsb (starts_with (id_name id)) t2s_denied_call_prefixes.
Lemma find_existsb {A} (f : A -> bool) l : existsb f l = found (List.find f l).
Proof. induction l as [|x l IH]; [done|]. cbn. by destruct (f x). Qed.

Lemma denied_here c id w r : id_start c = true -> forallb id_char id = true ->
  denied_name (c :: id) = true -> forallb is_blank w = true ->
  found (t2s_has_denied_call (c :: id ++ w ++ c_lpar :: r)) = true.
Proof.
  intros Hc Hid Hn Hw. rewrite denied_eq. unfold denied_step.
  assert (Hl : isalpha c = true \/ c = 95) by (unfold id_start in Hc; lia).
  assert (is_quote c = false) as ->.
  { unfold is_quote, c_quote, c_dquote, c_btick, isalpha, isupper, islower in *. lia. }
  assert ((c =? c_hash) || starts_dashes (c :: id ++ w ++ c_lpar :: r) = false) as ->.
  { unfold starts_dashes, c_hash, c_dash, isalpha, isupper, islower in *. destruct (id ++ _); lia. }
  assert (starts_block_comment (c :: id ++ w ++ c_lpar :: r) = false) as ->.
  { unfold starts_block_comment, c_slash, isalpha, isupper, islower in *. destruct (id ++ _); lia. }
  rewrite Hc. rewrite (app_comm_cons id), (take_id_app_exact (c :: id)).
  - rewrite skip_blank_app by done. cbn [head_is]. rewrite Z.eqb_refl.
    unfold denied_name in Hn. rewrite find_existsb in Hn. by destruct (List.find _ _).
  - cbn [forallb]. rewrite Hid. unfold id_char, isalnum. unfold id_start in Hc. lia.
  - destruct w as [|b w]; [done|]. cbn [forallb app] in *. bools. unfold is_blank, id_char, isalnum,
      isalpha, isupper, islower, isdigit in *. lia.
Qed.
Lemma denied_complete c id w r : 
  id_start c = true -> forallb id_char id = true -> denied_name (c :: id) = true -> forallb is_blank w = true ->
  forall k ts, (length ts <= k)%nat -> toks_ok ts (c :: id ++ w ++ c_lpar :: r) = true -> ends_word ts = true ->
  found (t2s_has_denied_call (render ts ++ c :: id ++ w ++ c_lpar :: r)) = true.
Proof.
  intros Hc Hid Hn Hw. pose proof (denied_here c id w r Hc Hid Hn Hw) as Hbase.
  revert Hbase. generalize (c :: id ++ w ++ c_lpar :: r). clear. intros rest Hbase.
  induction k as [|k IH]; intros ts Hl Hts He.
  { destruct ts; [done|cbn in Hl; lia]. }
  destruct ts as [|t ts]; cbn [length] in Hl; [done|].
  pose proof (ends_word_tl _ _ He) as He'. rewrite denied_eq. destruct t as [c|q b|b].
  - pose proof (tok_char _ _ _ Hts) as (Hok & Hq & Hh & Hds & Hbl & Heq).
    unfold denied_step. rewrite Heq. rewrite Hq, Hh, Hds, Hbl. cbn [orb].
    destruct (id_start c) eqn:Es; [|apply IH; [lia|done|done]].
    assert (Ec : id_char c = true) by (unfold id_start, id_char, isalnum in *; lia).
    assert (Hne : ts <> []) by (intros ->; cbn in He; by rewrite Ec in He).
    destruct (take_id_toks ts rest Hok He' Hne) as (id & ts' & Ht & Hok' & Hew & Hlen).
    cbn [take_id]. rewrite Ht, Ec.
    assert (Hgo : found (t2s_has_denied_call (render ts' ++ rest)) = true) by (apply IH; [lia|done|done]).
    destruct (head_is c_lpar _); [|done]. by destruct (List.find _ _).
  - pose proof (tok_lit _ _ _ _ Hts) as (Hq & Hok & _ & Hs). rewrite render_cons. cbn [tok_bytes app].
    rewrite <- app_assoc. unfold denied_step. rewrite Hq, Hs. apply IH; [lia|done|done].
  - pose proof (tok_comment _ _ _ Hts) as (Hok & _ & _ & Hs & ->). unfold denied_step.
    change (is_quote c_slash) with false. change ((c_slash =? c_hash) || starts_dashes (c_slash :: c_star :: _)) with false.
    change (starts_block_comment (c_slash :: c_star :: _)) with true. cbv iota.
    change (drop 2 (c_slash :: c_star :: ?x)) with x. rewrite Hs. apply IH; [lia|done|done].
Qed.

(** ** Properties *)

(** Every scanning loop of the gate terminates on every input, within the
    number of rounds its own input length allows. *)
Theorem scanners_terminate sql :
  is_Some (while ws_step (S (ws_fuel (true, sql))) (true, sql)) /\
  is_Some (while paren_step (S (length sql)) (0, sql)) /\
  is_Some (while count_step (S (length sql)) (0, false, sql)) /\
  is_Some (while cte_step (S (length sql)) sql) /\
  is_Some (while outfile_step (S (length sql)) sql) /\
  is_Some (while exec_step (S (length sql)) sql) /\
  is_Some (while denied_step (S (length sql)) sql).
Proof.
  repeat split.
  - apply (while_enough _ _ ws_decreases). lia.
  - apply (while_enough _ (fun s => length s.2) paren_decreases). cbn. lia.
  - apply (while_enough _ (fun s => length s.2) count_decreases). cbn. lia.
  - apply (while_enough _ length cte_decreases). lia.
  - apply (while_enough _ length outfile_decreases). lia.
  - apply (while_enough _ length exec_decreases). lia.
  - apply (while_enough _ length denied_decreases). lia.
Qed.

(** On text made of characters, complete literals and complete comments,
    the statement count is the number of semicolon-separated chunks that hold
    anything besides white space and comments. *)
Theorem count_statements_correct ts (H : toks_ok ts [] = true) :
  t2s_count_statements (render ts) = statements ts.
Proof.
  change (t2s_count_statements (render ts)) with (count_from 0 false (render ts)).
  rewrite (count_toks (length ts)) by done. rewrite cnt_statements. unfold statements.
  destruct (chunks_cons ts) as (ch & r & ->). cbn [orb List.filter].
  destruct (has_content ch); cbn [length]; lia.
Qed.

(** select 'a;b' ; /* ; */ and nothing else *)
Definition sample_toks : list tok :=
  map TChar (bs "select ") ++ [TLit c_quote (bs "a;b"); TChar 32; TChar c_semi; TComment (bs " ; ")].
Lemma count_statements_correct_witness :
  toks_ok sample_toks [] = true /\ t2s_count_statements (render sample_toks) = 1.
Proof.
  split; [vm_compute; reflexivity|].
  etransitivity; [apply (count_statements_correct sample_toks); vm_compute; reflexivity | vm_compute; reflexivity].
Defined.

(** C22: what the gate guarantees of a statement it lets through, as far as
    the statement is written in plain tokens: closed quoted literals, closed
    block comments, and single characters that are neither a quote nor a [#] and
    begin neither a comment nor two dashes.  A statement of plain tokens is one
    statement; and behind no prefix of plain tokens does an executable comment
    start, an INTO OUTFILE or INTO DUMPFILE (any case, separated by white space
    or block comments), or a call of a function on the deny list that is spelled
    as a bare word followed by white space and a parenthesis.  Behind a line
    comment ([#], [--]), two dashes, or for a name in back quotes the gate
    guarantees nothing ([gate_bypasses]). *)
Theorem gate_sound select_only sql (H : allowlist_verdict select_only sql = None) :
  (forall ts, sql = render ts -> toks_ok ts [] = true -> statements ts = 1) /\
  (forall ts x r, sql = render ts ++ c_slash :: c_star :: x :: r ->
     toks_ok ts (c_slash :: c_star :: x :: r) = true -> x <> 33 /\ x <> 43) /\
  (forall ts into blanks kw r, sql = render ts ++ into ++ render blanks ++ kw ++ r ->
     toks_ok ts (into ++ render blanks ++ kw ++ r) = true -> same_ci into (bs "INTO") = true ->
     toks_ok blanks (kw ++ r) = true -> drop_blank blanks = [] -> blanks <> [] -> word_end r = true ->
     same_ci kw (bs "OUTFILE") = false /\ same_ci kw (bs "DUMPFILE") = false) /\
  (forall ts c id w r, sql = render ts ++ c :: id ++ w ++ c_lpar :: r ->
     toks_ok ts (c :: id ++ w ++ c_lpar :: r) = true -> ends_word ts = true ->
     id_start c = true -> forallb id_char id = true -> forallb is_blank w = true ->
     denied_name (c :: id) = false).
Proof.
  unfold allowlist_verdict in H.
  destruct (t2s_has_exec_comment sql) eqn:He; [done|].
  destruct (t2s_count_statements sql =? 0) eqn:H0; [done|].
  destruct (negb (t2s_count_statements sql =? 1)) eqn:H1; [done|].
  destruct (t2s_classify_leading_stmt sql) as [kw|]; [|done].
  destruct (negb (kw_permitted select_only kw)); [done|].
  destruct (t2s_has_denied_call sql) as [fn|] eqn:Hd; [done|].
  destruct (t2s_has_into_outfile sql) eqn:Ho; [done|]. clear H kw. repeat split.
  - intros ts -> Hts. change (t2s_count_statements (render ts)) with (count_from 0 false (render ts)) in H1.
    rewrite (count_toks (length ts)), cnt_statements in H1 by done. unfold statements.
    destruct (chunks_cons ts) as (ch & r & Hc). rewrite Hc in *. cbn [orb List.filter] in *.
    destruct (has_content ch); cbn [length] in *; lia.
  - intros Hx. subst. by rewrite exec_complete in He.
  - intros Hx. subst. by rewrite exec_complete in He.
  - apply not_true_iff_false. intros Hk. subst sql. rewrite outfile_complete in Ho; try done. by rewrite Hk.
  - apply not_true_iff_false. intros Hk. subst sql. rewrite outfile_complete in Ho; try done. by rewrite Hk, orb_true_r.
  - intros ts c id w r -> Hts Hew Hc Hid Hw. apply not_true_iff_false. intros Hn.
    pose proof (denied_complete c id w r Hc Hid Hn Hw (length ts) ts (le_n _) Hts Hew) as Hf.
    by rewrite Hd in Hf.
Qed.
Lemma gate_sound_witness :
  allowlist_verdict true (render sample_toks) = None /\ statements sample_toks = 1.
Proof.
  split; [vm_compute; reflexivity|].
  apply (proj1 (gate_sound true (render sample_toks) ltac:(vm_compute; reflexivity)) sample_toks);
    vm_compute; reflexivity.
Defined.

(** What the gate does not see.  A quote inside a line comment hides a
    later executable comment; two dashes without white space after them, which
    the server reads as two minus signs, hide a denied call from the scan, and
    so do back quotes around its name or a comment before its parenthesis. *)
Theorem gate_bypasses select_only :
  allowlist_verdict select_only (bs "#'" ++ [10] ++ bs "SELECT 1 /*! INTO OUTFILE '/tmp/x' */") = None /\
  allowlist_verdict select_only (bs "SELECT 1--sleep(5)") = None /\
  allowlist_verdict select_only (bs "SELECT `sleep`(5)") = None /\
  allowlist_verdict select_only (bs "SELECT sleep/**/(5)") = None.
Proof. destruct select_only; vm_compute; auto. Qed.
