(* ===== verification/Config.v ===== *)
(** * Session configuration (src/fractalsql_config.c)

    The key table, value validation, the per-session overlay of overrides, its
    JSON rendering, and the bridge environment with its fingerprint.  Strings
    are C strings: byte lists without a NUL.  Every overlay operation runs
    under the overlay lock, so each is one step on [overlay]. *)

From stdpp Require Import gmap.
From S2P Require Import Prelude.

(** ** The key table *)

Inductive fsq_cfg_type :=
  | FSQL_CFG_TYPE_STR | FSQL_CFG_TYPE_PATH | FSQL_CFG_TYPE_INT | FSQL_CFG_TYPE_BOOL | FSQL_CFG_TYPE_ENUM.

Record fsq_cfg_key := {
  k_key : list Z; k_type : fsq_cfg_type; k_min : Z; k_max : Z; enum_vals : option (list Z);
  session_ok : bool; secret : bool; env_var : option (list Z); env_tiers : Z;
}.

Definition FSQL_CFG_KEY_COUNT : nat := 18.
Definition FSQL_CFG_MAX_SESSIONS : nat := 256.
Definition FSQL_CFG_MAX_VALUE : Z := 8192.
Definition FSQL_CFG_TIER_REASON : Z := 1.
Definition FSQL_CFG_TIER_EMBED : Z := 2.
Definition FSQL_CFG_TIER_T2S : Z := 4.

Definition key (name : list Z) (t : fsq_cfg_type) (lo hi : Z) (en : option (list Z))
    (ok sec : bool) (var : option (list Z)) (tiers : Z) : fsq_cfg_key :=
  {| k_key := name; k_type := t; k_min := lo; k_max := hi; enum_vals := en;
     session_ok := ok; secret := sec; env_var := var; env_tiers := tiers |}.

Definition TIER_RT : Z := Z.lor FSQL_CFG_TIER_REASON FSQL_CFG_TIER_T2S.

Definition g_keys : list fsq_cfg_key := [
  key (bs "reasoning_plugin") FSQL_CFG_TYPE_PATH 0 0 None false false None 0;
  key (bs "reasoning_url") FSQL_CFG_TYPE_STR 0 0 None false false None 0;
  key (bs "reasoning_token") FSQL_CFG_TYPE_STR 0 0 None false true None 0;
  key (bs "reasoning_model") FSQL_CFG_TYPE_STR 0 0 None true false (Some (bs "FSQL_REASONING_HTTP_MODEL")) TIER_RT;
  key (bs "reasoning_allow_plaintext") FSQL_CFG_TYPE_BOOL 0 0 None false false None 0;
  key (bs "embed_url") FSQL_CFG_TYPE_STR 0 0 None false false None 0;
  key (bs "embed_model") FSQL_CFG_TYPE_STR 0 0 None true false (Some (bs "FSQL_REASONING_HTTP_MODEL")) FSQL_CFG_TIER_EMBED;
  key (bs "think") FSQL_CFG_TYPE_STR 0 0 None true false (Some (bs "FSQL_REASONING_HTTP_THINK")) TIER_RT;
  key (bs "think_provider") FSQL_CFG_TYPE_STR 0 0 None false false None 0;
  key (bs "think_native_url") FSQL_CFG_TYPE_STR 0 0 None false false None 0;
  key (bs "think_num_ctx") FSQL_CFG_TYPE_INT 1 10000000 None true false (Some (bs "FSQL_REASONING_HTTP_NUM_CTX")) TIER_RT;
  key (bs "t2s_max_attempts") FSQL_CFG_TYPE_INT 1 10 None true false None 0;
  key (bs "t2s_allowed_statements") FSQL_CFG_TYPE_ENUM 0 0 (Some (bs "select|select_insert_update")) false false None 0;
  key (bs "t2s_use_review") FSQL_CFG_TYPE_BOOL 0 0 None true false None 0;
  key (bs "enterprise_lib") FSQL_CFG_TYPE_PATH 0 0 None false false None 0;
  key (bs "enterprise_ledger_path") FSQL_CFG_TYPE_PATH 0 0 None false false None 0;
  key (bs "enterprise_ledger_key") FSQL_CFG_TYPE_STR 0 0 None false true None 0;
  key (bs "enterprise_require_signature") FSQL_CFG_TYPE_BOOL 0 0 None false false None 0 ].

Definition fractal_config_key_name (key_id : Z) : option (list Z) :=
  if (key_id <? 0) || (Z.of_nat FSQL_CFG_KEY_COUNT <=? key_id) then None
  else k_key <$> g_keys !! Z.to_nat key_id.
Definition fractal_config_key_session_ok (key_id : Z) : bool :=
  if (key_id <? 0) || (Z.of_nat FSQL_CFG_KEY_COUNT <=? key_id) then false
  else match g_keys !! Z.to_nat key_id with Some k => session_ok k | None => false end.

(** [strncmp(name, "fractalsql.", 11) == 0]. *)
Fixpoint strip_prefix (p l : list Z) {struct p} : option (list Z) :=
  match p, l with
  | [], _ => Some l
  | x :: p', y :: l' => if x =? y then strip_prefix p' l' else None
  | _ :: _, [] => None
  end.
Definition fractal_config_key_by_name (name : option (list Z)) : option nat :=
  match name with
  | None => None
  | Some name =>
      let name := default name (strip_prefix (bs "fractalsql.") name) in
      findi (fun k => bytes_eqb (k_key k) name) g_keys
  end.

(** ** Path validation (the POSIX branch) *)

Fixpoint has_dotdot (l : list Z) : bool :=
  match l with
  | a :: ((b :: _) as r) => ((a =? 46) && (b =? 46)) || has_dotdot r
  | _ => false
  end.
(** [None] is the return 0; [Some] carries the reason of the return -1. *)
Definition fractal_config_validate_path (path : option (list Z)) : option (list Z) :=
  match path with
  | None | Some [] => Some (bs "path must not be empty")
  | Some ((c :: _) as path) =>
      if FSQL_CFG_MAX_VALUE <=? Z.of_nat (length path) then Some (bs "path is too long")
      else if negb (c =? 47) then Some (bs "must be an absolute path with no '..' segments")
      else if has_dotdot path then Some (bs "must be an absolute path with no '..' segments")
      else None
  end.

(** ** Value validation *)

Definition parse_bool (v : option (list Z)) : option bool :=
  match v with
  | None => Some false
  | Some v =>
      if bytes_eqb v (bs "true") || bytes_eqb v (bs "on") || bytes_eqb v (bs "1") || bytes_eqb v (bs "yes")
      then Some true
      else if bytes_eqb v (bs "false") || bytes_eqb v (bs "off") || bytes_eqb v (bs "0") ||
              bytes_eqb v (bs "no") || bytes_eqb v []
      then Some false
      else None
  end.
Definition parse_long (v : list Z) : option Z :=
  match v with
  | [] => None
  | _ => let '(n, e) := strtol v in
         match e with [] => Some n | _ => None end
  end.
(** The members of the list, one per round of the loop. *)
Fixpoint split_bar (l : list Z) : list (list Z) :=
  match l with
  | [] => [[]]
  | c :: r => if c =? 124 then [] :: split_bar r
              else match split_bar r with w :: ws => (c :: w) :: ws | [] => [[c]] end
  end.
Definition enum_has (l value : list Z) : bool :=
  match l with [] => false | _ => existsb (fun w => bytes_eqb value w) (split_bar l) end.

Definition quoted (k : list Z) : list Z := 39 :: k ++ [39].
Definition validate_value (k : fsq_cfg_key) (value : option (list Z)) : option (list Z) :=
  match value with
  | None | Some [] => None
  | Some v =>
      match k_type k with
      | FSQL_CFG_TYPE_PATH => fractal_config_validate_path (Some v)
      | FSQL_CFG_TYPE_INT =>
          match parse_long v with
          | None => Some (quoted (k_key k) ++ bs " expects an integer")
          | Some n => if (n <? k_min k) || (k_max k <? n)
                      then Some (quoted (k_key k) ++ bs " must be " ++ dec_d (k_min k) ++ bs ".." ++ dec_d (k_max k))
                      else None
          end
      | FSQL_CFG_TYPE_BOOL =>
          match parse_bool (Some v) with
          | None => Some (quoted (k_key k) ++ bs " expects true/false/on/off/1/0")
          | Some _ => None
          end
      | FSQL_CFG_TYPE_ENUM =>
          let en := default [] (enum_vals k) in
          if enum_has en v then None else Some (quoted (k_key k) ++ bs " must be one of: " ++ en)
      | FSQL_CFG_TYPE_STR =>
          if FSQL_CFG_MAX_VALUE <=? Z.of_nat (length v) then Some (quoted (k_key k) ++ bs " is too long") else None
      end
  end.

(** ** The overlay *)

Record fsq_cfg_entry := { c_session_id : Z; used : bool; touched : Z; values : list (option (list Z)) }.
Record overlay := { g_entries : list fsq_cfg_entry; g_entry_count : Z; g_clock : Z }.

Definition no_values : list (option (list Z)) := replicate FSQL_CFG_KEY_COUNT None.
Definition empty_entry : fsq_cfg_entry := {| c_session_id := 0; used := false; touched := 0; values := no_values |}.
Definition overlay0 : overlay :=
  {| g_entries := replicate FSQL_CFG_MAX_SESSIONS empty_entry; g_entry_count := 0; g_clock := 0 |}.

Definition entry_at (s : overlay) (i : nat) : fsq_cfg_entry := default empty_entry (g_entries s !! i).
Definition put_entry (i : nat) (e : fsq_cfg_entry) (s : overlay) : overlay :=
  {| g_entries := <[i := e]> (g_entries s); g_entry_count := g_entry_count s; g_clock := g_clock s |}.

Definition owned_by (sid : Z) (e : fsq_cfg_entry) : bool := used e && (c_session_id e =? sid).
Definition find_entry (s : overlay) (sid : Z) : option nat := findi (owned_by sid) (g_entries s).

(** The index of the first entry with the least stamp. *)
Fixpoint oldest (l : list fsq_cfg_entry) (i best : nat) (t : Z) : nat :=
  match l with
  | [] => best
  | e :: r => if touched e <? t then oldest r (S i) i (touched e) else oldest r (S i) best t
  end.
Definition tick (s : overlay) : overlay :=
  {| g_entries := g_entries s; g_entry_count := g_entry_count s; g_clock := u64 (g_clock s + 1) |}.

Definition new_entry (sid : Z) (s : overlay) : overlay * option nat :=
  match find_entry s sid with
  | Some i => (s, Some i)
  | None =>
      match findi (fun e => negb (used e)) (g_entries s) with
      | Some i =>
          ({| g_entries := <[i := {| c_session_id := sid; used := true; touched := 0; values := no_values |}]> (g_entries s);
              g_entry_count := g_entry_count s + 1; g_clock := g_clock s |}, Some i)
      | None =>
          match g_entries s with
          | [] => (s, None)
          | e0 :: r =>
              let i := oldest r 1 0 (touched e0) in
              let s := tick s in
              (put_entry i {| c_session_id := sid; used := used (entry_at s i); touched := g_clock s; values := no_values |} s,
               Some i)
          end
      end
  end.

Definition free_entry (i : nat) (s : overlay) : overlay :=
  {| g_entries := <[i := {| c_session_id := 0; used := false; touched := touched (entry_at s i); values := no_values |}]> (g_entries s);
     g_entry_count := if 0 <? g_entry_count s then g_entry_count s - 1 else g_entry_count s;
     g_clock := g_clock s |}.

(** [e->values[key_id] = copy; e->touched = ++g_clock;] *)
Definition store (i k : nat) (v : option (list Z)) (s : overlay) : overlay :=
  let s := tick s in let e := entry_at s i in
  put_entry i {| c_session_id := c_session_id e; used := used e; touched := g_clock s; values := <[k := v]> (values e) |} s.

Definition msg_unknown (name : option (list Z)) : list Z :=
  bs "unknown configuration key " ++ quoted (default (bs "(null)") name).
Definition msg_daemon_wide (k : list Z) : list Z :=
  quoted k ++ bs " is a daemon-wide setting and cannot be changed by a session; edit fractalsqld.conf and run `fsqlctl reload`".

Definition is_set (value : option (list Z)) : bool := match value with Some (_ :: _) => true | _ => false end.

(** [alloc]: the malloc of the copy succeeds.  [None] is the return 0. *)
Definition fractal_config_set_value (alloc : bool) (sid : Z) (name value : option (list Z)) (s : overlay)
    : overlay * option (list Z) :=
  match fractal_config_key_by_name name with
  | None => (s, Some (msg_unknown name))
  | Some id =>
    match g_keys !! id with
    | None => (s, Some (msg_unknown name))
    | Some k =>
      if negb (session_ok k) then (s, Some (msg_daemon_wide (k_key k)))
      else match validate_value k value with
      | Some e => (s, Some e)
      | None =>
        if is_set value && negb alloc then (s, Some (bs "out of memory"))
        else if is_set value then
          match new_entry sid s with
          | (s, Some i) => (store i id value s, None)
          | (s, None) => (s, Some (bs "the per-session configuration table is full"))
          end
        else match find_entry s sid with
          | None => (s, None)
          | Some i => (store i id None s, None)
          end
      end
    end
  end.

(** [outcap = None]: no buffer was passed.  The text copied, cut to the
    buffer; reading a value stamps the entry. *)
Definition fractal_config_lookup_str (sid : Z) (name : list Z) (outcap : option Z) (s : overlay)
    : overlay * option (list Z) :=
  match fractal_config_key_by_name (Some name) with
  | None => (s, None)
  | Some id =>
    match find_entry s sid with
    | None => (s, None)
    | Some i =>
        match values (entry_at s i) !! id with
        | Some (Some v) =>
            let s := tick s in let e := entry_at s i in
            (put_entry i {| c_session_id := c_session_id e; used := used e; touched := g_clock s; values := values e |} s,
             Some (match outcap with
                   | Some cap => if 0 <? cap then take (Z.to_nat (cap - 1)) v else []
                   | None => [] end))
        | _ => (s, None)
        end
    end
  end.
Definition fractal_config_lookup_long (sid : Z) (name : list Z) (s : overlay) : overlay * option Z :=
  let '(s, r) := fractal_config_lookup_str sid name (Some 64) s in
  (s, match r with Some b => parse_long b | None => None end).

(** What the tiers promise: the process-wide value of a key they own, as it
    fits a buffer of the given capacity ([None]: the nonzero return). *)
Class TierConfig := {
  cognition_config_value : list Z -> Z -> option (list Z);
  textsql_config_value : list Z -> Z -> option (list Z);
  enterprise_config_value : list Z -> Z -> option (list Z);
}.

Definition redacted (set : bool) : list Z := if set then bs "<redacted>" else bs "<unset>".
(** [None] is the nonzero return. *)
Definition fractal_config_get_value `{TierConfig} (sid : Z) (name : list Z) (outcap : Z) (s : overlay)
    : overlay * option (list Z) :=
  match fractal_config_key_by_name (Some name) with
  | None => (s, None)
  | Some id =>
    match g_keys !! id with
    | None => (s, None)
    | Some k =>
      if secret k then
        let '(s, own) := fractal_config_lookup_str sid name (Some 2) s in
        let set := bool_decide (own <> None) || bool_decide (cognition_config_value (k_key k) 64 <> None) ||
                   bool_decide (enterprise_config_value (k_key k) 64 <> None) in
        if outcap <=? 0 then (s, None)
        else let t := redacted set in
             (s, if outcap <=? Z.of_nat (length t) then None else Some t)
      else match fractal_config_lookup_str sid name (Some outcap) s with
      | (s, Some v) => (s, Some v)
      | (s, None) =>
          (s, if (id <? 11)%nat then cognition_config_value (k_key k) outcap
              else if (id <? 14)%nat then textsql_config_value (k_key k) outcap
              else enterprise_config_value (k_key k) outcap)
      end
    end
  end.

Definition is_someb (v : option (list Z)) : bool := match v with Some _ => true | None => false end.
(** One round of the reset's loop over the slots. *)
Definition reset_step (sid : Z) (st : overlay * Z) (i : nat) : overlay * Z :=
  let '(s, dropped) := st in
  let e := entry_at s i in
  if owned_by sid e
  then (free_entry i s, dropped + Z.of_nat (length (List.filter is_someb (values e))))
  else (s, dropped).
Definition fractal_config_reset_session (sid : Z) (s : overlay) : overlay * Z :=
  fold_left (reset_step sid) (seq 0 FSQL_CFG_MAX_SESSIONS) (s, 0).

(** ** The JSON rendering of a session's overrides *)

(** [realloc_ok] answers each request for a capacity. *)
Section Json.
Context (realloc_ok : Z -> bool).

Record cfg_buf := { buf : list Z; cap : Z }.

(** One round of the doubling loop. *)
Definition grow_step (need ncap : Z) : Z + Z :=
  if ncap <? need then (if SIZE_MAX / 2 <? ncap then inr need else inl (ncap * 2)) else inr ncap.
Definition grow_to (need ncap : Z) : Z := default ncap (while (grow_step need) 65 ncap).

Definition cfg_buf_reserve (b : cfg_buf) (need : Z) : option cfg_buf :=
  if need <=? cap b then Some b
  else let ncap := grow_to need (if cap b =? 0 then 256 else cap b) in
       if realloc_ok ncap then Some {| buf := buf b; cap := ncap |} else None.
Definition cfg_buf_puts (b : cfg_buf) (s : list Z) : option cfg_buf :=
  match cfg_buf_reserve b (Z.of_nat (length (buf b)) + Z.of_nat (length s) + 1) with
  | Some b => Some {| buf := buf b ++ s; cap := cap b |}
  | None => None
  end.
Definition cfg_buf_putc (b : cfg_buf) (c : Z) : option cfg_buf := cfg_buf_puts b [c].

Definition hexd (n : Z) : Z := if n <? 10 then 48 + n else 87 + n.
Definition json_piece (c : Z) : list Z :=
  if (c =? 34) || (c =? 92) then [92; c]
  else if c <? 32 then [92; 117; 48; 48; hexd (Z.land (Z.shiftr c 4) 15); hexd (Z.land c 15)]
  else [c].
Fixpoint json_chars (b : cfg_buf) (s : list Z) : option cfg_buf :=
  match s with
  | [] => Some b
  | c :: r => match cfg_buf_puts b (json_piece c) with Some b => json_chars b r | None => None end
  end.
Definition json_append_string (b : cfg_buf) (s : list Z) : option cfg_buf :=
  match cfg_buf_putc b 34 with
  | Some b => match json_chars b s with Some b => cfg_buf_putc b 34 | None => None end
  | None => None
  end.

(** One round of the loop over the keys. *)
Definition json_member (o : option cfg_buf) (kv : fsq_cfg_key * option (list Z)) : option cfg_buf :=
  match o, snd kv with
  | None, _ => None
  | Some b, None => Some b
  | Some b, Some v =>
      match (if (1 <? length (buf b))%nat then cfg_buf_putc b 44 else Some b) with
      | None => None
      | Some b =>
          match json_append_string b (k_key (fst kv)) with
          | None => None
          | Some b => match cfg_buf_putc b 58 with None => None | Some b => json_append_string b v end
          end
      end
  end.

(** [small_ok]: the three-byte malloc of the empty object. *)
Definition fractal_config_session_json (small_ok : bool) (s : overlay) (sid : Z) : option (list Z) :=
  match find_entry s sid with
  | None => if small_ok then Some (bs "{}") else None
  | Some i =>
      match fold_left json_member (zip g_keys (values (entry_at s i)))
              (cfg_buf_putc {| buf := []; cap := 0 |} 123) with
      | None => None
      | Some b => buf <$> cfg_buf_putc b 125
      end
  end.
End Json.

(** ** The bridge environment *)

(** The process environment; [None] is an unset variable. *)
Abbreviation environ := (gmap (list Z) (list Z)) (only parsing).

(** One round of fractal_config_apply_env_overrides. *)
Definition apply_key (sid : Z) (tiers : Z) (st : overlay * environ) (k : fsq_cfg_key) : overlay * environ :=
  let '(s, ev) := st in
  match env_var k with
  | None => (s, ev)
  | Some var =>
      if negb (session_ok k) then (s, ev)
      else if Z.land (env_tiers k) tiers =? 0 then (s, ev)
      else match fractal_config_lookup_str sid (k_key k) (Some FSQL_CFG_MAX_VALUE) s with
      | (s, None) => (s, ev)
      | (s, Some v) =>
          match k_type k with
          | FSQL_CFG_TYPE_BOOL =>
              match parse_bool (Some v) with
              | None => (s, ev)
              | Some true => (s, <[var := bs "1"]> ev)
              | Some false => (s, delete var ev)
              end
          | _ => (s, <[var := v]> ev)
          end
      end
  end.
Definition fractal_config_apply_env_overrides (sid : Z) (tiers : Z) (st : overlay * environ) : overlay * environ :=
  fold_left (apply_key sid tiers) g_keys st.

Definition system_tag : list Z := bs "FSQL_REASONING_HTTP_SYSTEM_TAG".
Definition fsq_cfg_bridge_vars : list (list Z) := [
  bs "FSQL_REASONING_HTTP_URL"; bs "FSQL_REASONING_HTTP_TOKEN";
  bs "FSQL_REASONING_HTTP_MODEL"; bs "FSQL_REASONING_HTTP_ALLOW_PLAINTEXT";
  bs "FSQL_REASONING_HTTP_MODE"; bs "FSQL_REASONING_HTTP_RESPONSE_MODE";
  system_tag; bs "FSQL_REASONING_HTTP_THINK";
  bs "FSQL_REASONING_HTTP_THINK_PROVIDER"; bs "FSQL_REASONING_HTTP_NATIVE_URL";
  bs "FSQL_REASONING_HTTP_NUM_CTX" ].

Definition FNV_OFFSET_BASIS : Z := 1469598103934665603.
Definition FNV_PRIME : Z := 1099511628211.
Definition fnv_byte (h c : Z) : Z := u64 (Z.lxor h c * FNV_PRIME).
Definition fnv_bytes (h : Z) (s : option (list Z)) : Z :=
  match s with None => h | Some s => fnv_byte (fold_left fnv_byte s h) 0 end.
Definition fractal_config_env_fingerprint (ev : environ) : Z :=
  fold_left (fun h name =>
    if bytes_eqb name system_tag then h
    else fnv_bytes (fnv_bytes h (Some name)) (ev !! name)) fsq_cfg_bridge_vars FNV_OFFSET_BASIS.

Definition demo_sid : Z := 42.
Definition demo_set (n v : list Z) (s : overlay) : overlay :=
  fst (fractal_config_set_value true demo_sid (Some n) (Some v) s).
Definition demo_overlay : overlay :=
  demo_set (bs "fractalsql.think") ([10] ++ bs "say " ++ [34] ++ bs "hi" ++ [34]) (demo_set (bs "t2s_max_attempts") (bs "7") overlay0).

Example set_refused : snd (fractal_config_set_value true 1 (Some (bs "embed_url")) (Some (bs "x")) overlay0) <> None.
Proof. vm_compute. discriminate. Qed.
Example json_demo : fractal_config_session_json (fun _ => true) true demo_overlay demo_sid =
  Some (bs "{" ++ [34] ++ bs "think" ++ [34] ++ bs ":" ++ [34] ++ bs "\u000asay \" ++ [34] ++ bs "hi\" ++ [34; 34] ++
        bs "," ++ [34] ++ bs "t2s_max_attempts" ++ [34] ++ bs ":" ++ [34] ++ bs "7" ++ [34] ++ bs "}").
Proof. vm_compute. reflexivity. Qed.

(** ** Well-formed overlays *)

Definition value_ok (k : nat) (v : list Z) : Prop :=
  exists key, g_keys !! k = Some key /\ session_ok key = true /\ v <> [] /\ validate_value key (Some v) = None.
Record entry_ok (e : fsq_cfg_entry) : Prop := {
  eo_len : length (values e) = FSQL_CFG_KEY_COUNT;
  eo_val : forall k v, values e !! k = Some (Some v) -> value_ok k v;
}.
Definition count_used (l : list fsq_cfg_entry) : Z := Z.of_nat (length (List.filter used l)).
Record overlay_wf (s : overlay) : Prop := {
  ow_len : length (g_entries s) = FSQL_CFG_MAX_SESSIONS;
  ow_entry : forall i e, g_entries s !! i = Some e -> entry_ok e;
  ow_count : g_entry_count s = count_used (g_entries s);
  ow_uniq : forall i j d e, g_entries s !! i = Some d -> g_entries s !! j = Some e ->
    used d = true -> used e = true -> c_session_id d = c_session_id e -> i = j;
}.

(** The override a session holds for a key, read without side effect. *)
Definition overlay_get (s : overlay) (sid : Z) (k : nat) : option (list Z) :=
  match find_entry s sid with
  | Some i => match values (entry_at s i) !! k with Some o => o | None => None end
  | None => None
  end.

Lemma empty_entry_ok sid u t : entry_ok {| c_session_id := sid; used := u; touched := t; values := no_values |}.
Proof.
  split; [done|]. intros k v H. cbn [values] in H. unfold no_values in H.
  apply lookup_replicate in H as [H _]. done.
Qed.
Lemma overlay0_wf : overlay_wf overlay0.
Proof.
  split; [done| |done|].
  - intros i e H. cbn [g_entries overlay0] in H. apply lookup_replicate in H as [-> _]. apply empty_entry_ok.
  - intros i j d e H _ Hu. cbn [g_entries overlay0] in H. apply lookup_replicate in H as [-> _]. done.
Qed.

Lemma find_entry_some s sid i : find_entry s sid = Some i ->
  exists e, g_entries s !! i = Some e /\ used e = true /\ c_session_id e = sid.
Proof.
  intros H. apply findi_some in H as (e & H1 & H2 & _). exists e. unfold owned_by in H2. bools.
  split; [done|]. split; [done|lia].
Qed.
Lemma entry_at_lookup s i e : g_entries s !! i = Some e -> entry_at s i = e.
Proof. unfold entry_at. by intros ->. Qed.
Lemma find_entry_unique s sid i e : overlay_wf s -> g_entries s !! i = Some e -> used e = true -> c_session_id e = sid ->
  find_entry s sid = Some i.
Proof.
  intros Hw He Hu Hs. destruct (find_entry s sid) as [j|] eqn:E.
  - apply find_entry_some in E as (d & Hd & Hud & Hsd). f_equal. eapply (ow_uniq _ Hw); eauto. congruence.
  - apply findi_none in E. rewrite Forall_lookup in E. specialize (E i e He). unfold owned_by in E.
    rewrite Hu in E. cbn in E. lia.
Qed.
Lemma find_entry_none s sid i e : find_entry s sid = None -> g_entries s !! i = Some e -> used e = true -> c_session_id e <> sid.
Proof.
  intros H He Hu Hs. apply findi_none in H. rewrite Forall_lookup in H. specialize (H i e He).
  unfold owned_by in H. rewrite Hu in H. cbn in H. lia.
Qed.

(** Changing one entry of the table. *)
Lemma count_used_insert l i e d : l !! i = Some d ->
  count_used (<[i := e]> l) = count_used l - Z.b2z (used d) + Z.b2z (used e).
Proof.
  revert i. unfold count_used. induction l as [|x l IH]; intros i H; [done|]. destruct i as [|i]; cbn in H.
  - simplify_eq. cbn [list_insert]. change (<[0%nat := e]> (d :: l)) with (e :: l). cbn [List.filter].
    destruct (used d), (used e); cbn [length Z.b2z]; lia.
  - change (<[S i := e]> (x :: l)) with (x :: <[i := e]> l). cbn [List.filter]. specialize (IH i H).
    destruct (used x); cbn [length]; lia.
Qed.
Lemma wf_put s i e d n c : overlay_wf s -> g_entries s !! i = Some d -> entry_ok e ->
  n = g_entry_count s - Z.b2z (used d) + Z.b2z (used e) ->
  (used e = true -> forall j x, j <> i -> g_entries s !! j = Some x -> used x = true -> c_session_id x <> c_session_id e) ->
  overlay_wf {| g_entries := <[i := e]> (g_entries s); g_entry_count := n; g_clock := c |}.
Proof.
  intros [H1 H2 H3 H4] Hd He Hn Hu. pose proof (lookup_lt_Some _ _ _ Hd) as Hi. split; cbn.
  - by rewrite length_insert.
  - intros j x Hj. destruct (decide (j = i)) as [->|Hne].
    + rewrite list_lookup_insert_eq in Hj by done. by simplify_eq.
    + rewrite list_lookup_insert_ne in Hj by done. by apply (H2 j).
  - rewrite (count_used_insert _ _ _ d) by done. lia.
  - intros j k x y Hj Hk Hux Huy Hs.
    destruct (decide (j = i)) as [->|Hj'], (decide (k = i)) as [->|Hk']; [done| | |].
    + rewrite list_lookup_insert_eq in Hj by done. rewrite list_lookup_insert_ne in Hk by done. simplify_eq.
      by destruct (Hu Hux k y).
    + rewrite list_lookup_insert_eq in Hk by done. rewrite list_lookup_insert_ne in Hj by done. simplify_eq.
      by destruct (Hu Huy j x).
    + rewrite list_lookup_insert_ne in Hj by done. rewrite list_lookup_insert_ne in Hk by done. by apply (H4 j k x y).
Qed.

(** Reading the table after one entry changed. *)
Lemma get_put s i e d n c sid k : overlay_wf s -> g_entries s !! i = Some d ->
  overlay_wf {| g_entries := <[i := e]> (g_entries s); g_entry_count := n; g_clock := c |} ->
  overlay_get {| g_entries := <[i := e]> (g_entries s); g_entry_count := n; g_clock := c |} sid k =
  if owned_by sid e then default None (values e !! k)
  else if owned_by sid d then None else overlay_get s sid k.
Proof.
  intros Hw Hd Hw'. pose proof (lookup_lt_Some _ _ _ Hd) as Hi. set (s' := Build_overlay _ _ _) in *.
  destruct (owned_by sid e) eqn:Ee; [|destruct (owned_by sid d) eqn:Ed].
  - unfold owned_by in Ee. bools.
    assert (Hlk : g_entries s' !! i = Some e) by (cbn; by apply list_lookup_insert_eq).
    unfold overlay_get. rewrite (find_entry_unique s' sid i e) by (done || lia).
    rewrite (entry_at_lookup _ _ _ Hlk). by destruct (values e !! k).
  - unfold overlay_get. destruct (find_entry s' sid) as [j|] eqn:E; [|done].
    apply find_entry_some in E as (x & Hx & Hux & Hsx). exfalso. unfold owned_by in Ed. bools.
    destruct (decide (j = i)) as [->|Hne].
    + cbn in Hx. rewrite list_lookup_insert_eq in Hx by done. simplify_eq. unfold owned_by in Ee. rewrite Hux in Ee. cbn in Ee. lia.
    + cbn in Hx. rewrite list_lookup_insert_ne in Hx by done. destruct Hne. apply (ow_uniq _ Hw j i x d); try done. lia.
  - unfold overlay_get. destruct (find_entry s sid) as [j|] eqn:E.
    + apply find_entry_some in E as (x & Hx & Hux & Hsx).
      assert (Hne : j <> i).
      { intros ->. simplify_eq. unfold owned_by in Ed. rewrite Hux in Ed. cbn in Ed. lia. }
      assert (Hlk : g_entries s' !! j = Some x) by (cbn; by rewrite list_lookup_insert_ne).
      rewrite (find_entry_unique s' sid j x) by (done || lia).
      by rewrite (entry_at_lookup _ _ _ Hlk), (entry_at_lookup _ _ _ Hx).
    + destruct (find_entry s' sid) as [j|] eqn:E'; [|done]. exfalso.
      apply find_entry_some in E' as (x & Hx & Hux & Hsx). cbn in Hx. destruct (decide (j = i)) as [->|Hne].
      * rewrite list_lookup_insert_eq in Hx by done. simplify_eq. unfold owned_by in Ee. rewrite Hux in Ee. cbn in Ee. lia.
      * rewrite list_lookup_insert_ne in Hx by done. by apply (find_entry_none s sid j x E Hx Hux).
Qed.

Lemma tick_wf s : overlay_wf s -> overlay_wf (tick s).
Proof. intros [H1 H2 H3 H4]. by split. Qed.
Lemma tick_get s sid k : overlay_get (tick s) sid k = overlay_get s sid k.
Proof. done. Qed.

(** ** What each operation does to the overrides *)

Lemma no_values_get k : default None (no_values !! k) = None.
Proof. destruct (no_values !! k) as [x|] eqn:E; [|done]. by apply lookup_replicate in E as [-> _]. Qed.

Lemma oldest_bound l : forall i best t, (best < i)%nat -> (oldest l i best t < i + length l)%nat.
Proof.
  induction l as [|e l IH]; intros i best t Hb; cbn [oldest length]; [lia|].
  destruct (touched e <? t); (eapply Nat.lt_le_trans; [apply IH; lia|lia]).
Qed.

(** Either the slot was the session's already, or it was made for it, and at
    most one other session (only when the table was full) lost its overrides. *)
Lemma new_entry_spec s sid s' o : overlay_wf s -> new_entry sid s = (s', o) ->
  overlay_wf s' /\ exists i, o = Some i /\ find_entry s' sid = Some i /\
  (forall k, overlay_get s' sid k = overlay_get s sid k) /\
  (find_entry s sid <> None \/ g_entry_count s < Z.of_nat FSQL_CFG_MAX_SESSIONS ->
   forall sid' k, overlay_get s' sid' k = overlay_get s sid' k).
Proof.
  intros Hw. unfold new_entry. destruct (find_entry s sid) as [i|] eqn:Ef.
  - intros [= <- <-]. split; [done|]. exists i. auto.
  - set (fresh := {| c_session_id := sid; used := true; touched := 0; values := no_values |}).
    destruct (findi (fun e => negb (used e)) (g_entries s)) as [i|] eqn:Ei.
    + intros [= <- <-]. apply findi_some in Ei as (d & Hd & Hu & _). apply negb_true_iff in Hu.
      assert (Hw' : overlay_wf {| g_entries := <[i := fresh]> (g_entries s); g_entry_count := g_entry_count s + 1; g_clock := g_clock s |}).
      { apply (wf_put s i fresh d); [done|done|apply empty_entry_ok|rewrite Hu; cbn; lia|].
        intros _ j x Hne Hx Hux. by apply (find_entry_none s sid j x). }
      split; [done|]. exists i. split; [done|]. split.
      { eapply find_entry_unique; [done|cbn; apply list_lookup_insert_eq; by apply lookup_lt_Some in Hd|done|done]. }
      assert (Hget : forall sid' k, overlay_get {| g_entries := <[i := fresh]> (g_entries s); g_entry_count := g_entry_count s + 1; g_clock := g_clock s |} sid' k =
        if owned_by sid' fresh then default None (no_values !! k) else overlay_get s sid' k).
      { intros sid' k. rewrite (get_put s i fresh d) by done. destruct (owned_by sid' fresh); [done|].
        unfold owned_by. by rewrite Hu. }
      split.
      * intros k. rewrite Hget, no_values_get. unfold overlay_get. rewrite Ef. by destruct (owned_by sid fresh).
      * intros _ sid' k. rewrite Hget, no_values_get. destruct (owned_by sid' fresh) eqn:E; [|done].
        unfold owned_by in E. cbn in E. apply Z.eqb_eq in E as <-. unfold overlay_get. by rewrite Ef.
    + pose proof (ow_len _ Hw) as Hlen. destruct (g_entries s) as [|e0 r] eqn:Hes; [done|]. rewrite <- Hes in *.
      set (i := oldest r 1 0 (touched e0)).
      assert (Hi : (i < length (g_entries s))%nat).
      { rewrite Hes. cbn [length]. apply (oldest_bound r 1). lia. }
      destruct (lookup_lt_is_Some_2 _ _ Hi) as [d Hd]. rewrite (entry_at_lookup (tick s) i d) by done.
      intros [= <- <-]. unfold put_entry. cbn [tick g_entries g_entry_count g_clock].
      apply findi_none in Ei. rewrite Forall_lookup in Ei.
      assert (Hu : used d = true) by (specialize (Ei i d Hd); by destruct (used d)).
      set (e := {| c_session_id := sid; used := used d; touched := _; values := no_values |}).
      assert (Hw' : overlay_wf {| g_entries := <[i := e]> (g_entries s); g_entry_count := g_entry_count s; g_clock := u64 (g_clock s + 1) |}).
      { apply (wf_put s i e d); [done|done|apply empty_entry_ok|cbn; lia|].
        intros _ j x Hne Hx Hux. by apply (find_entry_none s sid j x). }
      split; [done|]. exists i. split; [done|]. split.
      { eapply find_entry_unique; [done|cbn; by apply list_lookup_insert_eq|done|done]. }
      assert (Hfull : g_entry_count s = Z.of_nat FSQL_CFG_MAX_SESSIONS).
      { rewrite (ow_count _ Hw). unfold count_used. rewrite <- Hlen.
        assert (Hall : forall l, (forall i e, l !! i = Some e -> negb (used e) = false) -> List.filter used l = l).
        { intros l. induction l as [|x l IH]; intros H; [done|]. cbn. pose proof (H 0%nat x eq_refl).
          destruct (used x); [|done]. f_equal. apply IH. intros j y Hy. by apply (H (S j)). }
        by rewrite Hall. }
      split; [|intros [?|?]; [done|lia]].
      intros k. rewrite (get_put s i e d) by done.
      assert (owned_by sid e = true) as -> by (unfold owned_by; cbn; by rewrite Hu, Z.eqb_refl).
      change (values e) with no_values. rewrite no_values_get. unfold overlay_get. by rewrite Ef.
Qed.

Lemma store_spec s i k v sid d : overlay_wf s -> g_entries s !! i = Some d -> used d = true -> c_session_id d = sid ->
  (forall w, v = Some w -> value_ok k w) -> (k < FSQL_CFG_KEY_COUNT)%nat ->
  overlay_wf (store i k v s) /\
  forall sid' k', overlay_get (store i k v s) sid' k' =
    if (sid' =? sid) && (k' =? k)%nat then v else overlay_get s sid' k'.
Proof.
  intros Hw Hd Hu Hs Hv Hk. unfold store, put_entry. rewrite (entry_at_lookup (tick s) i d) by done.
  cbn [tick g_entries g_entry_count g_clock].
  set (e := {| c_session_id := c_session_id d; used := used d; touched := _; values := _ |}).
  destruct (ow_entry _ Hw i d Hd) as [Hl Hval].
  assert (Hw' : overlay_wf {| g_entries := <[i := e]> (g_entries s); g_entry_count := g_entry_count s; g_clock := u64 (g_clock s + 1) |}).
  { apply (wf_put s i e d); [done|done| |cbn; lia|].
    - split; cbn; [by rewrite length_insert|]. intros k' w H. destruct (decide (k' = k)) as [->|Hne].
      + rewrite list_lookup_insert_eq in H by lia. simplify_eq. by apply Hv.
      + rewrite list_lookup_insert_ne in H by done. by apply Hval.
    - intros _ j x Hne Hx Hux. cbn. intros E. destruct Hne. by apply (ow_uniq _ Hw j i x d). }
  split; [done|]. intros sid' k'. rewrite (get_put s i e d) by done.
  assert (Hold : forall k', overlay_get s sid k' = default None (values d !! k')).
  { intros k0. unfold overlay_get. rewrite (find_entry_unique s sid i d) by done. rewrite (entry_at_lookup _ _ _ Hd).
    by destruct (values d !! k0). }
  unfold owned_by. cbn. rewrite Hu, Hs. cbn. rewrite (Z.eqb_sym sid sid'). destruct (sid' =? sid) eqn:E; [|done].
  apply Z.eqb_eq in E as ->. cbn. rewrite Hold. destruct (k' =? k)%nat eqn:Ek.
  - apply Nat.eqb_eq in Ek as ->. rewrite list_lookup_insert_eq by lia. done.
  - apply Nat.eqb_neq in Ek. rewrite list_lookup_insert_ne by done. done.
Qed.

Lemma key_id_bound name id : fractal_config_key_by_name name = Some id ->
  exists key, g_keys !! id = Some key /\ (id < FSQL_CFG_KEY_COUNT)%nat.
Proof.
  destruct name as [name|]; [|done]. intros H. unfold fractal_config_key_by_name in H.
  apply findi_some in H as (k & Hk & _). exists k. split; [done|]. apply lookup_lt_Some in Hk. exact Hk.
Qed.

Lemma set_value_spec alloc sid name value s s' r : overlay_wf s ->
  fractal_config_set_value alloc sid name value s = (s', r) ->
  overlay_wf s' /\
  match r with
  | Some _ => s' = s
  | None => exists id, fractal_config_key_by_name name = Some id /\ fractal_config_key_session_ok (Z.of_nat id) = true /\
      (forall k, overlay_get s' sid k = if (k =? id)%nat then (if is_set value then value else None) else overlay_get s sid k) /\
      (find_entry s sid <> None \/ g_entry_count s < Z.of_nat FSQL_CFG_MAX_SESSIONS \/ is_set value = false ->
       forall sid' k, sid' <> sid -> overlay_get s' sid' k = overlay_get s sid' k)
  end.
Proof.
  intros Hw. unfold fractal_config_set_value.
  destruct (fractal_config_key_by_name name) as [id|] eqn:En; [|by intros [= <- <-]].
  destruct (key_id_bound name id En) as (key & Hkey & Hid). rewrite Hkey.
  destruct (session_ok key) eqn:Eok; cbn [negb]; [|by intros [= <- <-]].
  destruct (validate_value key value) eqn:Ev; [by intros [= <- <-]|].
  assert (Hsok : fractal_config_key_session_ok (Z.of_nat id) = true).
  { unfold fractal_config_key_session_ok. rewrite (proj2 (orb_false_iff _ _)) by lia. by rewrite Nat2Z.id, Hkey. }
  destruct (is_set value) eqn:Es; cbn [andb].
  - destruct alloc; cbn [negb]; [|by intros [= <- <-]].
    destruct (new_entry sid s) as [s1 o] eqn:Enew.
    destruct (new_entry_spec s sid s1 o Hw Enew) as (Hw1 & i & -> & Hfi & Hg & Hg').
    intros [= <- <-]. apply find_entry_some in Hfi as (d & Hd & Hu & Hsd).
    destruct (store_spec s1 i id value sid d) as [Hw2 Hget]; [done|done|done|done| |done|].
    { intros w ->. exists key. repeat split; try done. intros ->. done. }
    split; [done|]. exists id. repeat split; try done.
    + intros k. rewrite Hget, Z.eqb_refl. cbn. by destruct (k =? id)%nat.
    + intros Hor sid' k Hne. rewrite Hget. destruct (sid' =? sid) eqn:E; [lia|]. cbn. apply Hg'. destruct Hor as [?|[?|?]]; [by left|by right|congruence].
  - destruct (find_entry s sid) as [i|] eqn:Ef.
    + intros [= <- <-]. apply find_entry_some in Ef as (d & Hd & Hu & Hsd).
      destruct (store_spec s i id None sid d) as [Hw2 Hget]; [done..|].
      split; [done|]. exists id. repeat split; try done.
      * intros k. rewrite Hget, Z.eqb_refl. cbn. by destruct (k =? id)%nat.
      * intros _ sid' k Hne. rewrite Hget. destruct (sid' =? sid) eqn:E; [lia|done].
    + intros [= <- <-]. split; [done|]. exists id. repeat split; try done.
      intros k. unfold overlay_get. rewrite Ef. by destruct (k =? id)%nat.
Qed.

Lemma lookup_str_spec sid name cap s s' r : overlay_wf s ->
  fractal_config_lookup_str sid name cap s = (s', r) ->
  overlay_wf s' /\ (forall sid' k, overlay_get s' sid' k = overlay_get s sid' k) /\
  (g_entry_count s' = g_entry_count s /\ forall sid', find_entry s' sid' = find_entry s sid') /\
  r = match fractal_config_key_by_name (Some name) with
      | Some id => match overlay_get s sid id with
          | Some v => Some (match cap with Some c => if 0 <? c then take (Z.to_nat (c - 1)) v else [] | None => [] end)
          | None => None end
      | None => None end.
Proof.
  intros Hw. unfold fractal_config_lookup_str.
  destruct (fractal_config_key_by_name (Some name)) as [id|] eqn:En; [|by intros [= <- <-]].
  destruct (find_entry s sid) as [i|] eqn:Ef; [|intros [= <- <-]; unfold overlay_get; by rewrite Ef].
  destruct (find_entry_some _ _ _ Ef) as (d & Hd & Hu & Hsd).
  assert (Hget : overlay_get s sid id = match values d !! id with Some o => o | None => None end).
  { unfold overlay_get. by rewrite Ef, (entry_at_lookup _ _ _ Hd). }
  rewrite Hget. change (entry_at (tick s) i) with (entry_at s i). rewrite (entry_at_lookup _ _ _ Hd).
  destruct (values d !! id) as [[v|]|] eqn:Ev; [|by intros [= <- <-]..].
  intros [= <- <-]. unfold put_entry. cbn [tick g_entries g_entry_count g_clock].
  set (e := {| c_session_id := c_session_id d; used := used d; touched := _; values := values d |}).
  destruct (ow_entry _ Hw i d Hd) as [Hl Hval].
  assert (Hw' : overlay_wf {| g_entries := <[i := e]> (g_entries s); g_entry_count := g_entry_count s; g_clock := u64 (g_clock s + 1) |}).
  { apply (wf_put s i e d); [done|done|by split|cbn; lia|].
    intros _ j x Hne Hx Hux E. destruct Hne. by apply (ow_uniq _ Hw j i x d). }
  pose proof (lookup_lt_Some _ _ _ Hd) as Hlt.
  split; [done|]. split; [|split; [split; [done|]|done]].
  - intros sid' k. rewrite (get_put s i e d) by done. change (owned_by sid' e) with (owned_by sid' d).
    destruct (owned_by sid' d) eqn:E; [|done]. unfold owned_by in E. bools.
    unfold overlay_get. rewrite (find_entry_unique s sid' i d) by (done || lia). rewrite (entry_at_lookup _ _ _ Hd).
    cbn. by destruct (values d !! k).
  - intros sid'. destruct (find_entry s sid') as [j|] eqn:Ej.
    + destruct (find_entry_some _ _ _ Ej) as (x & Hx & Hux & Hsx). destruct (decide (j = i)) as [->|Hne].
      * simplify_eq. eapply (find_entry_unique _ _ i e); [done|cbn; by apply list_lookup_insert_eq|done|done].
      * eapply (find_entry_unique _ _ j x); [done|cbn; by rewrite list_lookup_insert_ne|done|done].
    + apply findi_none. apply findi_none in Ej. rewrite Forall_lookup in *. intros j x Hx. cbn in Hx.
      destruct (decide (j = i)) as [->|Hne].
      * rewrite list_lookup_insert_eq in Hx by done. simplify_eq. exact (Ej i d Hd).
      * rewrite list_lookup_insert_ne in Hx by done. by apply (Ej j).
Qed.

(** ** Reset *)

Definition overrides_count (s : overlay) (sid : Z) : Z :=
  match find_entry s sid with
  | Some i => Z.of_nat (length (List.filter is_someb (values (entry_at s i))))
  | None => 0
  end.

Lemma free_spec s i d : overlay_wf s -> g_entries s !! i = Some d -> used d = true ->
  overlay_wf (free_entry i s) /\
  forall sid k, overlay_get (free_entry i s) sid k = if owned_by sid d then None else overlay_get s sid k.
Proof.
  intros Hw Hd Hu. unfold free_entry. rewrite (entry_at_lookup _ _ _ Hd).
  set (e := {| c_session_id := 0; used := false; touched := touched d; values := no_values |}).
  assert (Hpos : 0 < g_entry_count s).
  { rewrite (ow_count _ Hw). unfold count_used. apply (list_elem_of_lookup_2 _ _ _) in Hd.
    assert (In d (List.filter used (g_entries s))).
    { apply filter_In. split; [by apply list_elem_of_In|done]. }
    destruct (List.filter used (g_entries s)); [done|cbn; lia]. }
  destruct (0 <? g_entry_count s) eqn:E; [|lia].
  assert (Hw' : overlay_wf {| g_entries := <[i := e]> (g_entries s); g_entry_count := g_entry_count s - 1; g_clock := g_clock s |}).
  { apply (wf_put s i e d); [done|done|apply empty_entry_ok|rewrite Hu; cbn; lia|done]. }
  split; [done|]. intros sid k. by rewrite (get_put s i e d).
Qed.

Lemma reset_steps sid n : forall i s dr s' dr', overlay_wf s -> (i + n = FSQL_CFG_MAX_SESSIONS)%nat ->
  (forall j e, (j < i)%nat -> g_entries s !! j = Some e -> owned_by sid e = false) ->
  fold_left (reset_step sid) (seq i n) (s, dr) = (s', dr') ->
  overlay_wf s' /\ dr' = dr + overrides_count s sid /\
  (forall sid' k, overlay_get s' sid' k = if sid' =? sid then None else overlay_get s sid' k).
Proof.
  induction n as [|n IH]; intros i s dr s' dr' Hw Hi Hlow; cbn [seq fold_left].
  - intros [= <- <-]. assert (Hn : find_entry s sid = None).
    { apply findi_none. rewrite Forall_lookup. intros j e He. apply (Hlow j); [|done].
      apply lookup_lt_Some in He. rewrite (ow_len _ Hw) in He. lia. }
    split; [done|]. split; [unfold overrides_count; rewrite Hn; lia|]. intros sid' k. destruct (sid' =? sid) eqn:E; [|done].
    apply Z.eqb_eq in E as ->. unfold overlay_get. by rewrite Hn.
  - assert (Hlt : (i < length (g_entries s))%nat) by (rewrite (ow_len _ Hw); lia).
    destruct (lookup_lt_is_Some_2 _ _ Hlt) as [d Hd]. unfold reset_step at 2. rewrite (entry_at_lookup _ _ _ Hd).
    destruct (owned_by sid d) eqn:Eo.
    + intros Hf. pose proof Eo as Eo'. unfold owned_by in Eo'. bools. destruct (free_spec s i d Hw Hd H) as [Hw' Hg].
      apply IH in Hf as (H1 & H2 & H3); [|done|lia|].
      * split; [done|]. assert (Hcnt : overrides_count (free_entry i s) sid = 0 /\
          overrides_count s sid = Z.of_nat (length (List.filter is_someb (values d)))).
        { split.
          - unfold overrides_count. destruct (find_entry (free_entry i s) sid) as [j|] eqn:Ej; [|done]. exfalso.
            apply find_entry_some in Ej as (x & Hx & Hux & Hsx). unfold free_entry in Hx. cbn in Hx.
            destruct (decide (j = i)) as [->|Hne]; [rewrite list_lookup_insert_eq in Hx by done; by simplify_eq/=|].
            rewrite list_lookup_insert_ne in Hx by done. destruct Hne. apply (ow_uniq _ Hw j i x d); try done. lia.
          - unfold overrides_count. rewrite (find_entry_unique s sid i d) by (done || lia). by rewrite (entry_at_lookup _ _ _ Hd). }
        destruct Hcnt as [Hc1 Hc2]. split; [lia|]. intros sid' k. rewrite H3, Hg.
        destruct (sid' =? sid) eqn:E; [done|]. destruct (owned_by sid' d) eqn:Eo2; [|done].
        unfold owned_by in Eo2. bools. lia.
      * intros j e Hj He. unfold free_entry in He. cbn in He. destruct (decide (j = i)) as [->|Hne].
        { rewrite list_lookup_insert_eq in He by done. by simplify_eq. }
        rewrite list_lookup_insert_ne in He by done. apply (Hlow j); [lia|done].
    + intros Hf. apply IH in Hf as (H1 & H2 & H3); [done|done|lia|].
      intros j e Hj He. destruct (decide (j = i)) as [->|Hne]; [by simplify_eq|]. apply (Hlow j); [lia|done].
Qed.
Lemma reset_spec sid s s' dr : overlay_wf s -> fractal_config_reset_session sid s = (s', dr) ->
  overlay_wf s' /\ dr = overrides_count s sid /\
  (forall sid' k, overlay_get s' sid' k = if sid' =? sid then None else overlay_get s sid' k).
Proof.
  intros Hw H. apply (reset_steps sid FSQL_CFG_MAX_SESSIONS 0 s 0) in H; [exact H|done|done|]. intros; lia.
Qed.

(** ** The JSON text *)

Section JsonLemmas.
Context (realloc_ok : Z -> bool).

Lemma puts_buf b s b' : cfg_buf_puts realloc_ok b s = Some b' -> buf b' = buf b ++ s.
Proof.
  unfold cfg_buf_puts, cfg_buf_reserve. repeat case_match; intros; simplify_eq/=; done.
Qed.
Definition json_lit (s : list Z) : list Z := 34 :: flat_map json_piece s ++ [34].
Lemma chars_buf s : forall b b', json_chars realloc_ok b s = Some b' -> buf b' = buf b ++ flat_map json_piece s.
Proof.
  induction s as [|c s IH]; intros b b' H; cbn [json_chars flat_map] in *; [simplify_eq; by rewrite app_nil_r|].
  destruct (cfg_buf_puts realloc_ok b (json_piece c)) as [b1|] eqn:E; [|done]. apply puts_buf in E.
  rewrite (IH _ _ H), E. by rewrite app_assoc.
Qed.
Lemma append_buf b s b' : json_append_string realloc_ok b s = Some b' -> buf b' = buf b ++ json_lit s.
Proof.
  unfold json_append_string, cfg_buf_putc. destruct (cfg_buf_puts _ b [34]) as [b1|] eqn:E1; [|done].
  destruct (json_chars _ b1 s) as [b2|] eqn:E2; [|done]. intros E3.
  rewrite (puts_buf _ _ _ E3), (chars_buf _ _ _ E2), (puts_buf _ _ _ E1). unfold json_lit.
  by rewrite <- !app_assoc.
Qed.
Definition member_text (first : bool) (k v : list Z) : list Z :=
  (if first then [] else [44]) ++ json_lit k ++ [58] ++ json_lit v.
Fixpoint members_text (first : bool) (l : list (list Z * list Z)) : list Z :=
  match l with [] => [] | (k, v) :: r => member_text first k v ++ members_text false r end.
Definition set_members (kvs : list (fsq_cfg_key * option (list Z))) : list (list Z * list Z) :=
  flat_map (fun kv => match snd kv with Some v => [(k_key (fst kv), v)] | None => [] end) kvs.

Lemma fold_members_none kvs : fold_left (json_member realloc_ok) kvs None = None.
Proof. by induction kvs. Qed.
Lemma fold_members_buf kvs : forall b b', fold_left (json_member realloc_ok) kvs (Some b) = Some b' ->
  buf b <> [] ->
  buf b' = buf b ++ members_text (negb (1 <? length (buf b))%nat) (set_members kvs).
Proof.
  induction kvs as [|[k o] kvs IH]; intros b b' H Hne; cbn [fold_left] in H; [simplify_eq; cbn; by rewrite app_nil_r|].
  unfold json_member at 2 in H. cbn [snd fst] in H. destruct o as [v|]; [|by apply IH].
  destruct (if (1 <? length (buf b))%nat then _ else _) as [b1|] eqn:E1; [|by rewrite fold_members_none in H].
  destruct (json_append_string _ b1 (k_key k)) as [b2|] eqn:E2; [|by rewrite fold_members_none in H].
  unfold cfg_buf_putc in H. destruct (cfg_buf_puts _ b2 [58]) as [b3|] eqn:E3; [|by rewrite fold_members_none in H].
  destruct (json_append_string _ b3 v) as [b4|] eqn:E4; [|by rewrite fold_members_none in H].
  assert (H1 : buf b1 = buf b ++ (if negb (1 <? length (buf b))%nat then [] else [44])).
  { destruct (1 <? length (buf b))%nat; cbn [negb]; [by apply puts_buf in E1|simplify_eq; by rewrite app_nil_r]. }
  apply append_buf in E2. apply puts_buf in E3. apply append_buf in E4.
  assert (H4 : buf b4 = buf b ++ member_text (negb (1 <? length (buf b))%nat) (k_key k) v).
  { rewrite E4, E3, E2, H1. unfold member_text. by rewrite <- !app_assoc. }
  rewrite (IH _ _ H), H4.
  - change (set_members ((k, Some v) :: kvs)) with ((k_key k, v) :: set_members kvs). cbn [members_text].
    rewrite <- app_assoc. f_equal. f_equal. f_equal.
    assert (Hlen : (1 < length (buf b ++ member_text (negb (1 <? length (buf b))%nat) (k_key k) v))%nat).
    { destruct (buf b); [done|]. unfold member_text, json_lit. rewrite !length_app. cbn. lia. }
    apply Nat.ltb_lt in Hlen. by rewrite Hlen.
  - rewrite H4. destruct (buf b); done.
Qed.

End JsonLemmas.

(** *** Reading it back *)

Definition unhex (c : Z) : Z := if isdigit c then c - 48 else c - 87.
Definition push (c : Z) (o : option (list Z * list Z)) : option (list Z * list Z) :=
  match o with Some (s, r) => Some (c :: s, r) | None => None end.
(** A JSON string after its opening quote: the text, and what follows. *)
Fixpoint json_read (l : list Z) : option (list Z * list Z) :=
  match l with
  | [] => None
  | c :: r =>
      if c =? 34 then Some ([], r)
      else if c =? 92 then
        match r with
        | d :: r1 =>
            if d =? 117 then
              match r1 with
              | _ :: _ :: h :: lo :: r2 => push (16 * unhex h + unhex lo) (json_read r2)
              | _ => None
              end
            else push d (json_read r1)
        | [] => None
        end
      else push c (json_read r)
  end.
Fixpoint json_members (fuel : nat) (l : list Z) : option (list (list Z * list Z)) :=
  match fuel with
  | O => None
  | S n =>
      match l with
      | q :: r =>
          if q =? 34 then
            match json_read r with
            | Some (k, c :: q2 :: r2) =>
                if (c =? 58) && (q2 =? 34) then
                  match json_read r2 with
                  | Some (v, d :: r3) =>
                      if d =? 44 then match json_members n r3 with Some m => Some ((k, v) :: m) | None => None end
                      else if (d =? 125) && bytes_eqb r3 [] then Some [(k, v)] else None
                  | _ => None
                  end
                else None
            | _ => None
            end
          else None
      | [] => None
      end
  end.
Definition json_object (l : list Z) : option (list (list Z * list Z)) :=
  match l with
  | b :: r => if b =? 123 then (if bytes_eqb r [125] then Some [] else json_members (length l) r) else None
  | [] => None
  end.

Lemma hexd_unhex n : 0 <= n < 16 -> unhex (hexd n) = n /\ hexd n <> 34.
Proof. intros H. unfold unhex, hexd, isdigit. destruct (n <? 10) eqn:E; repeat case_match; lia. Qed.
Lemma nibbles c : 0 <= c < 32 -> 16 * Z.land (Z.shiftr c 4) 15 + Z.land c 15 = c /\
  0 <= Z.land (Z.shiftr c 4) 15 < 16 /\ 0 <= Z.land c 15 < 16.
Proof.
  intros H. change 15 with (Z.ones 4). rewrite !Z.land_ones, Z.shiftr_div_pow2 by lia. change (2 ^ 4) with 16.
  rewrite (Z.mod_small (c / 16)) by (split; [apply Z.div_pos; lia|apply Z.div_lt_upper_bound; lia]).
  pose proof (Z.div_mod c 16 ltac:(lia)). pose proof (Z.mod_pos_bound c 16 ltac:(lia)).
  split; [lia|]. split; [|lia]. split; [apply Z.div_pos; lia|apply Z.div_lt_upper_bound; lia].
Qed.
Lemma json_read_lit s r : bytes_ok s -> json_read (flat_map json_piece s ++ 34 :: r) = Some (s, r).
Proof.
  induction 1 as [|c s Hc _ IH]; [done|]. cbn [flat_map]. rewrite <- app_assoc. unfold json_piece, byte_ok in *.
  destruct ((c =? 34) || (c =? 92)) eqn:E1; [|destruct (c <? 32) eqn:E2].
  - cbn [app json_read]. change (92 =? 34) with false. change (92 =? 92) with true. cbv iota.
    destruct (c =? 117) eqn:E3; [lia|]. by rewrite IH.
  - cbn [app json_read]. rewrite IH. destruct (nibbles c ltac:(lia)) as (Hn & H1 & H2).
    destruct (hexd_unhex _ H1) as [-> _]. destruct (hexd_unhex _ H2) as [-> _]. cbn. by rewrite Hn.
  - cbn [app json_read]. destruct (c =? 34) eqn:E3; [lia|]. destruct (c =? 92) eqn:E4; [lia|]. by rewrite IH.
Qed.
Lemma json_members_text ms n : (length ms < n)%nat -> ms <> [] -> Forall (fun kv => bytes_ok (fst kv) /\ bytes_ok (snd kv)) ms ->
  json_members n (members_text true ms ++ [125]) = Some ms.
Proof.
  revert n. induction ms as [|[k v] ms IH]; intros n Hn Hne Hb; [done|]. apply Forall_cons in Hb as [[Hk Hv] Hb].
  destruct n as [|n]; [lia|]. cbn [members_text]. unfold member_text, json_lit. cbn [app json_members].
  change (34 =? 34) with true. cbv iota. rewrite <- !app_assoc. cbn [app]. rewrite json_read_lit by done.
  change ((58 =? 58) && (34 =? 34)) with true. cbv iota. rewrite <- !app_assoc. cbn [app].
  rewrite json_read_lit by done.
  destruct ms as [|[k2 v2] ms]; [done|].
  cbn [members_text]. unfold member_text at 1. cbn [app]. change (44 =? 44) with true. cbv iota.
  specialize (IH n). cbn [members_text] in IH. unfold member_text at 1 in IH. cbn [app] in IH.
  cbn [length] in Hn. rewrite <- !app_assoc in *. rewrite IH; [done|cbn; lia|done|done].
Qed.

(** The buffer holds the text and its NUL. *)
Definition buf_fits (b : cfg_buf) : Prop := 0 <= cap b /\ (buf b <> [] -> Z.of_nat (length (buf b)) < cap b).
Lemma grow_to_ge need ncap : 1 <= ncap -> need <= SIZE_MAX -> ncap <= SIZE_MAX -> need <= grow_to need ncap.
Proof.
  intros H1 H2 H3. unfold grow_to.
  assert (Hw : forall n c, 1 <= c -> c * 2 ^ Z.of_nat n > SIZE_MAX / 2 ->
    exists r, while (grow_step need) (S n) c = Some r /\ need <= r).
  { induction n as [|n IH]; intros c Hc Hn.
    - cbn [while]. unfold grow_step. destruct (c <? need) eqn:E; [|eexists; split; [done|lia]].
      assert (E2 : (SIZE_MAX / 2 <? c) = true) by lia. rewrite E2. eexists; split; [done|lia].
    - cbn [while]. unfold grow_step at 1. destruct (c <? need) eqn:E; [|eexists; split; [done|lia]].
      destruct (SIZE_MAX / 2 <? c) eqn:E2; [eexists; split; [done|lia]|].
      apply IH; [lia|]. rewrite Nat2Z.inj_succ, Z.pow_succ_r in Hn by lia. lia. }
  destruct (Hw 64%nat ncap H1) as (r & -> & Hr); [unfold SIZE_MAX; change (2 ^ Z.of_nat 64) with (2 ^ 64); nia|done].
Qed.
Lemma puts_fits ok b s b' : buf_fits b -> cap b <= SIZE_MAX -> Z.of_nat (length (buf b)) + Z.of_nat (length s) + 1 <= SIZE_MAX ->
  cfg_buf_puts ok b s = Some b' -> Z.of_nat (length (buf b')) < cap b'.
Proof.
  intros [Hc Hf] Hcm Hn. unfold cfg_buf_puts, cfg_buf_reserve. destruct (_ <=? cap b) eqn:E.
  - intros [= <-]. cbn. rewrite length_app. lia.
  - destruct (ok _); [|done]. intros [= <-]. cbn [buf cap]. rewrite length_app.
    pose proof (grow_to_ge (Z.of_nat (length (buf b)) + Z.of_nat (length s) + 1) (if cap b =? 0 then 256 else cap b)) as Hg.
    destruct (cap b =? 0) eqn:E0; (specialize (Hg ltac:(lia) ltac:(lia) ltac:(unfold SIZE_MAX in *; lia))); lia.
Qed.

(** ** The environment *)

Lemma keys_by_name i k : g_keys !! i = Some k -> fractal_config_key_by_name (Some (k_key k)) = Some i.
Proof.
  intros H. pose proof (lookup_lt_Some _ _ _ H) as Hi. change (length g_keys) with 18%nat in Hi.
  do 18 (destruct i as [|i]; [cbn in H; simplify_eq; vm_compute; reflexivity|]). lia.
Qed.
(** The text a variable gets: what fits the reader's buffer. *)
Definition env_text (v : list Z) : list Z := take (Z.to_nat (FSQL_CFG_MAX_VALUE - 1)) v.
(** The round of a key, on the environment alone. *)
Definition env_effect (s : overlay) (sid tiers : Z) (ev : gmap (list Z) (list Z)) (ik : nat * fsq_cfg_key) : gmap (list Z) (list Z) :=
  let '(i, k) := ik in
  match env_var k, overlay_get s sid i with
  | Some var, Some v =>
      if negb (session_ok k) || (Z.land (env_tiers k) tiers =? 0) then ev
      else match k_type k with
           | FSQL_CFG_TYPE_BOOL => match parse_bool (Some (env_text v)) with
                                   | None => ev | Some true => <[var := bs "1"]> ev | Some false => delete var ev end
           | _ => <[var := env_text v]> ev end
  | _, _ => ev
  end.
Lemma apply_key_spec s sid tiers ev i k : overlay_wf s -> g_keys !! i = Some k ->
  overlay_wf (fst (apply_key sid tiers (s, ev) k)) /\
  (forall sid' j, overlay_get (fst (apply_key sid tiers (s, ev) k)) sid' j = overlay_get s sid' j) /\
  snd (apply_key sid tiers (s, ev) k) = env_effect s sid tiers ev (i, k).
Proof.
  intros Hw Hk. unfold apply_key, env_effect. destruct (env_var k) as [var|] eqn:Ev; [|done].
  destruct (negb (session_ok k)); [by destruct (overlay_get s sid i)|].
  destruct (Z.land (env_tiers k) tiers =? 0); [by destruct (overlay_get s sid i)|].
  destruct (fractal_config_lookup_str sid (k_key k) (Some FSQL_CFG_MAX_VALUE) s) as [s1 r] eqn:El.
  destruct (lookup_str_spec _ _ _ _ _ _ Hw El) as (Hw1 & Hg & _ & Hr). rewrite (keys_by_name i k Hk) in Hr.
  destruct (overlay_get s sid i) as [v|]; subst r; [|done]. cbn [orb].
  change (if 0 <? FSQL_CFG_MAX_VALUE then take (Z.to_nat (FSQL_CFG_MAX_VALUE - 1)) v else []) with (env_text v).
  destruct (k_type k); try done. by destruct (parse_bool (Some (env_text v))) as [[]|].
Qed.
Lemma apply_fold_spec sid tiers ks : forall s ev n, overlay_wf s ->
  (forall j k, ks !! j = Some k -> g_keys !! (n + j)%nat = Some k) ->
  let st := fold_left (apply_key sid tiers) ks (s, ev) in
  overlay_wf (fst st) /\ (forall sid' j, overlay_get (fst st) sid' j = overlay_get s sid' j) /\
  snd st = fold_left (env_effect s sid tiers) (zip (seq n (length ks)) ks) ev.
Proof.
  induction ks as [|k ks IH]; intros s ev n Hw Hk; cbn [fold_left length seq zip zip_with]; [done|].
  destruct (apply_key_spec s sid tiers ev n k Hw) as (Hw1 & Hg1 & He1).
  { rewrite <- (Nat.add_0_r n). by apply (Hk 0%nat). }
  destruct (apply_key sid tiers (s, ev) k) as [s1 ev1]. cbn [fst snd] in *.
  destruct (IH s1 ev1 (S n) Hw1) as (H1 & H2 & H3).
  { intros j k' Hj. rewrite Nat.add_succ_comm. by apply (Hk (S j)). }
  split; [done|]. split; [intros; by rewrite H2|]. rewrite H3, He1.
  assert (E : forall l e, fold_left (env_effect s1 sid tiers) l e = fold_left (env_effect s sid tiers) l e).
  { clear - Hg1. induction l as [|[i k] l IH]; intros e; cbn [fold_left]; [done|]. rewrite IH. f_equal.
    unfold env_effect. by rewrite Hg1. }
  by rewrite E.
Qed.
Lemma apply_env_spec sid tiers s ev : overlay_wf s ->
  snd (fractal_config_apply_env_overrides sid tiers (s, ev)) =
  fold_left (env_effect s sid tiers) (zip (seq 0 (length g_keys)) g_keys) ev.
Proof. intros Hw. by apply (apply_fold_spec sid tiers g_keys s ev 0 Hw). Qed.

(** *** The overrides as a list *)
Definition overrides (s : overlay) (sid : Z) : list (list Z * list Z) :=
  set_members (zip g_keys (map (overlay_get s sid) (seq 0 FSQL_CFG_KEY_COUNT))).

Lemma entry_values s sid i e : overlay_wf s -> find_entry s sid = Some i -> g_entries s !! i = Some e ->
  values e = map (overlay_get s sid) (seq 0 FSQL_CFG_KEY_COUNT).
Proof.
  intros Hw Hf He. destruct (ow_entry _ Hw i e He) as [Hl _]. apply list_eq. intros k.
  assert (Hg : overlay_get s sid k = match values e !! k with Some o => o | None => None end).
  { unfold overlay_get. by rewrite Hf, (entry_at_lookup _ _ _ He). }
  destruct (decide (k < FSQL_CFG_KEY_COUNT)%nat) as [Hk|Hk].
  - rewrite list_lookup_fmap, lookup_seq_lt by done. cbn. rewrite Hg.
    destruct (lookup_lt_is_Some_2 (values e) k) as [o ->]; [lia|done].
  - rewrite !lookup_ge_None_2; [done| |lia]. rewrite length_map, length_seq. lia.
Qed.
Lemma session_json_text ok small s sid j : overlay_wf s -> fractal_config_session_json ok small s sid = Some j ->
  j = 123 :: members_text true (overrides s sid) ++ [125].
Proof.
  intros Hw. unfold fractal_config_session_json. destruct (find_entry s sid) as [i|] eqn:Ef.
  - destruct (find_entry_some _ _ _ Ef) as (e & He & _). rewrite (entry_at_lookup _ _ _ He).
    rewrite (entry_values s sid i e Hw Ef He). fold (overrides s sid). unfold cfg_buf_putc.
    destruct (cfg_buf_puts ok _ [123]) as [b0|] eqn:E0; [|by rewrite fold_members_none].
    apply puts_buf in E0. cbn [buf app] in E0.
    destruct (fold_left _ _ (Some b0)) as [b|] eqn:E; [|done].
    destruct (cfg_buf_puts ok b [125]) as [b'|] eqn:E'; [|done]. intros [= <-].
    apply fold_members_buf in E; [|by rewrite E0]. apply puts_buf in E'. rewrite E', E, E0. done.
  - destruct small; [|done]. intros [= <-]. unfold overrides.
    assert (E : map (overlay_get s sid) (seq 0 FSQL_CFG_KEY_COUNT) = no_values).
    { apply list_eq. intros k. destruct (decide (k < FSQL_CFG_KEY_COUNT)%nat) as [Hk|Hk].
      - rewrite list_lookup_fmap, lookup_seq_lt by done. unfold no_values. rewrite lookup_replicate_2 by done.
        cbn. unfold overlay_get. by rewrite Ef.
      - rewrite !lookup_ge_None_2; [done|unfold no_values; rewrite length_replicate; lia|].
        rewrite length_map, length_seq. lia. }
    rewrite E. reflexivity.
Qed.

(** ** Properties *)

Inductive overlay_op :=
  | O_set (alloc : bool) (sid : Z) (name value : option (list Z))
  | O_lookup (sid : Z) (name : list Z) (cap : option Z)
  | O_apply (sid tiers : Z)
  | O_reset (sid : Z).
Definition overlay_run (s : overlay) (o : overlay_op) : overlay :=
  match o with
  | O_set a sid n v => fst (fractal_config_set_value a sid n v s)
  | O_lookup sid n c => fst (fractal_config_lookup_str sid n c s)
  | O_apply sid t => fst (fractal_config_apply_env_overrides sid t (s, ∅))
  | O_reset sid => fst (fractal_config_reset_session sid s)
  end.

(** Whatever the sessions set, read, apply and reset, the overlay stays
    well formed: 256 slots, at most one per session, the count exact, and every
    stored value one that validation accepts for a key a session may set. *)
Theorem overlay_invariant ops : overlay_wf (fold_left overlay_run ops overlay0).
Proof.
  generalize overlay0_wf. generalize overlay0. induction ops as [|o ops IH]; intros s Hw; [done|]. cbn [fold_left].
  apply IH. destruct o as [a sid n v|sid n c|sid t|sid]; cbn [overlay_run].
  - destruct (fractal_config_set_value a sid n v s) as [s' r] eqn:E. by destruct (set_value_spec _ _ _ _ _ _ _ Hw E).
  - destruct (fractal_config_lookup_str sid n c s) as [s' r] eqn:E. by destruct (lookup_str_spec _ _ _ _ _ _ Hw E).
  - by apply (apply_fold_spec sid t g_keys s ∅ 0 Hw).
  - destruct (fractal_config_reset_session sid s) as [s' d] eqn:E. by destruct (reset_spec _ _ _ _ Hw E).
Qed.

(** A set that succeeds stores exactly its value (the empty one unsets) for
    its own session and key and touches no other key of the session; other
    sessions keep theirs unless the table was full and a slot was reclaimed; a
    set that fails changes nothing. *)
Theorem set_value_effect alloc sid name value s s' r :
  overlay_wf s -> fractal_config_set_value alloc sid name value s = (s', r) ->
  match r with
  | Some _ => s' = s
  | None => exists id, fractal_config_key_by_name name = Some id /\ fractal_config_key_session_ok (Z.of_nat id) = true /\
      (forall k, overlay_get s' sid k = if (k =? id)%nat then (if is_set value then value else None) else overlay_get s sid k) /\
      (find_entry s sid <> None \/ g_entry_count s < Z.of_nat FSQL_CFG_MAX_SESSIONS \/ is_set value = false ->
       forall sid' k, sid' <> sid -> overlay_get s' sid' k = overlay_get s sid' k)
  end.
Proof. intros Hw H. by destruct (set_value_spec _ _ _ _ _ _ _ Hw H). Qed.
Lemma set_value_effect_witness : exists id,
  fractal_config_key_by_name (Some (bs "fractalsql.think")) = Some id /\
  overlay_get (demo_set (bs "fractalsql.think") (bs "high") overlay0) demo_sid id = Some (bs "high").
Proof.
  destruct (set_value_effect true demo_sid (Some (bs "fractalsql.think")) (Some (bs "high")) overlay0
    (demo_set (bs "fractalsql.think") (bs "high") overlay0) None overlay0_wf ltac:(vm_compute; reflexivity))
    as (id & H1 & _ & H2 & _).
  exists id. split; [exact H1|]. rewrite H2, Nat.eqb_refl. reflexivity.
Defined.

(** Reading a secret key tells only whether it is set: the answer is the
    redaction, the marker or a failure, and two deployments whose secrets
    differ but are set alike give the same answer. *)
Theorem secret_noninterference (T1 T2 : TierConfig) sid name id k outcap s :
  fractal_config_key_by_name (Some name) = Some id -> g_keys !! id = Some k -> secret k = true ->
  (forall n c, @cognition_config_value T1 n c = None <-> @cognition_config_value T2 n c = None) ->
  (forall n c, @enterprise_config_value T1 n c = None <-> @enterprise_config_value T2 n c = None) ->
  @fractal_config_get_value T1 sid name outcap s = @fractal_config_get_value T2 sid name outcap s /\
  In (snd (@fractal_config_get_value T1 sid name outcap s)) [None; Some (bs "<redacted>"); Some (bs "<unset>")].
Proof.
  intros Hn Hk Hs Hc He. unfold fractal_config_get_value. rewrite Hn, Hk, Hs.
  destruct (fractal_config_lookup_str sid name (Some 2) s) as [s1 own].
  rewrite (bool_decide_ext (@cognition_config_value T1 (k_key k) 64 <> None) (@cognition_config_value T2 (k_key k) 64 <> None))
    by (pose proof (Hc (k_key k) 64); tauto).
  rewrite (bool_decide_ext (@enterprise_config_value T1 (k_key k) 64 <> None) (@enterprise_config_value T2 (k_key k) 64 <> None))
    by (pose proof (He (k_key k) 64); tauto).
  split; [done|]. destruct (outcap <=? 0); [by left|]. generalize (bool_decide (own <> None) ||
    bool_decide (@cognition_config_value T2 (k_key k) 64 <> None) || bool_decide (@enterprise_config_value T2 (k_key k) 64 <> None)).
  intros b. cbn [snd]. destruct (outcap <=? _); [by left|]. right. destruct b; [left|right; left]; done.
Qed.
Definition tier_with (tok : list Z) : TierConfig :=
  {| cognition_config_value := fun n _ => if bytes_eqb n (bs "reasoning_token") then Some tok else None;
     textsql_config_value := fun _ _ => None; enterprise_config_value := fun _ _ => None |}.
Lemma secret_noninterference_witness :
  @fractal_config_get_value (tier_with (bs "s3cr3t")) 1 (bs "reasoning_token") 64 overlay0 =
  @fractal_config_get_value (tier_with (bs "other")) 1 (bs "reasoning_token") 64 overlay0.
Proof.
  apply (secret_noninterference (tier_with (bs "s3cr3t")) (tier_with (bs "other")) 1 (bs "reasoning_token") 2
    (key (bs "reasoning_token") FSQL_CFG_TYPE_STR 0 0 None false true None 0)); try (vm_compute; reflexivity).
  - intros n c. cbn [tier_with cognition_config_value]. destruct (bytes_eqb n _); split; discriminate || reflexivity.
  - intros n c. reflexivity.
Defined.

(** *** The variables an application of the overrides can touch *)
Lemma env_fold_other s sid tiers var l : forall e,
  (forall i k, In (i, k) l -> env_var k = Some var -> Z.land (env_tiers k) tiers = 0) ->
  fold_left (env_effect s sid tiers) l e !! var = e !! var.
Proof.
  induction l as [|[i k] l IH]; intros e Hl; [done|]. cbn [fold_left]. rewrite IH by (intros; eapply Hl; [by right|done]).
  unfold env_effect. destruct (env_var k) as [w|] eqn:E; [|done].
  destruct (overlay_get s sid i) as [v|]; [|done]. destruct (decide (w = var)) as [->|Hne].
  - rewrite (Hl i k) by (done || by left). cbn. by rewrite orb_true_r.
  - destruct (negb _ || _); [done|]. destruct (k_type k); try (by rewrite lookup_insert_ne).
    destruct (parse_bool _) as [[]|]; by rewrite ?lookup_insert_ne, ?lookup_delete_ne.
Qed.
Definition key_list : list (nat * fsq_cfg_key) := zip (seq 0 (length g_keys)) g_keys.
Definition var_eqb (k : fsq_cfg_key) (var : list Z) : bool :=
  match env_var k with Some w => bytes_eqb w var | None => false end.
(** No later key of the table publishes the same variable for the same tier. *)
Definition last_for (tiers : Z) (id : nat) (var : list Z) : bool :=
  forallb (fun ik => negb (var_eqb (snd ik) var) || (Z.land (env_tiers (snd ik)) tiers =? 0)) (drop (S id) key_list).
Definition published (tiers : Z) (ik : nat * fsq_cfg_key) : bool :=
  match env_var (snd ik) with
  | Some var => (Z.land (env_tiers (snd ik)) tiers =? 0) ||
      (last_for tiers (fst ik) var && session_ok (snd ik) &&
       match k_type (snd ik) with FSQL_CFG_TYPE_BOOL => false | _ => true end)
  | None => true
  end.
Lemma published_all : forallb (fun t => forallb (published t) key_list) [1; 2; 4] = true.
Proof. vm_compute. reflexivity. Qed.
Lemma key_list_lookup id k : g_keys !! id = Some k -> key_list !! id = Some (id, k).
Proof.
  intros H. unfold key_list. apply lookup_zip_with_Some. exists id, k. split; [done|]. split; [|done].
  pose proof (lookup_lt_Some _ _ _ H). by apply lookup_seq_lt.
Qed.

(** A session can tune but not redirect: applying its overrides to the
    bridge environment changes no variable but the model, the think level and
    the context size, and, for a single tier, an override of that tier's key
    is what its variable then holds. *)
Theorem overrides_tune_only s sid tiers ev var :
  overlay_wf s ->
  let ev' := snd (fractal_config_apply_env_overrides sid tiers (s, ev)) in
  (~ In var [bs "FSQL_REASONING_HTTP_MODEL"; bs "FSQL_REASONING_HTTP_THINK"; bs "FSQL_REASONING_HTTP_NUM_CTX"] ->
   ev' !! var = ev !! var) /\
  (forall id k v, In tiers [FSQL_CFG_TIER_REASON; FSQL_CFG_TIER_EMBED; FSQL_CFG_TIER_T2S] ->
   g_keys !! id = Some k -> env_var k = Some var -> Z.land (env_tiers k) tiers <> 0 ->
   overlay_get s sid id = Some v -> ev' !! var = Some (env_text v)).
Proof.
  intros Hw. cbv zeta. rewrite apply_env_spec by done.
  fold key_list. split.
  - intros Hv. apply env_fold_other. intros i k Hin E. exfalso. apply Hv.
    assert (Ha : forallb (fun ik => match env_var (snd ik) with
      | Some w => bytes_eqb w (bs "FSQL_REASONING_HTTP_MODEL") || bytes_eqb w (bs "FSQL_REASONING_HTTP_THINK") ||
                  bytes_eqb w (bs "FSQL_REASONING_HTTP_NUM_CTX") | None => true end) key_list = true) by (vm_compute; reflexivity).
    rewrite forallb_forall in Ha. specialize (Ha _ Hin). cbn [snd] in Ha. rewrite E in Ha.
    rewrite !orb_true_iff, !bytes_eqb_true in Ha. cbn [In]. destruct Ha as [[->| ->]| ->]; auto.
  - intros id k v Ht Hk Hvar Hland Hget. apply key_list_lookup in Hk.
    pose proof published_all as Hp. rewrite forallb_forall in Hp. specialize (Hp tiers Ht). rewrite forallb_forall in Hp.
    assert (Hin : In (id, k) key_list) by (apply list_elem_of_In; by eapply list_elem_of_lookup_2).
    specialize (Hp _ Hin). unfold published in Hp. cbn [fst snd] in Hp. rewrite Hvar in Hp.
    destruct (Z.land (env_tiers k) tiers =? 0) eqn:El; [lia|]. cbn [orb] in Hp.
    apply andb_true_iff in Hp as [Hp Hty]. apply andb_true_iff in Hp as [Hlast Hok].
    rewrite <- (take_drop_middle _ _ _ Hk). rewrite fold_left_app. cbn [fold_left]. rewrite env_fold_other.
    + unfold env_effect at 1. rewrite Hvar, Hget, Hok, El. cbn [negb orb].
      destruct (k_type k); try done; by rewrite lookup_insert_eq.
    + intros i k' Hi' E. unfold last_for in Hlast. rewrite forallb_forall in Hlast. specialize (Hlast _ Hi').
      cbn [snd] in Hlast. unfold var_eqb in Hlast. rewrite E in Hlast.
      assert (bytes_eqb var var = true) as Hr by (by apply bytes_eqb_true). rewrite Hr in Hlast. cbn in Hlast. lia.
Qed.
Lemma demo_overlay_wf : overlay_wf demo_overlay.
Proof.
  unfold demo_overlay, demo_set.
  destruct (fractal_config_set_value true demo_sid (Some (bs "t2s_max_attempts")) (Some (bs "7")) overlay0) as [s1 r1] eqn:E1.
  destruct (set_value_spec _ _ _ _ _ _ _ overlay0_wf E1) as [Hw _]. cbn [fst].
  destruct (fractal_config_set_value true demo_sid (Some (bs "fractalsql.think")) _ s1) as [s2 r2] eqn:E2.
  by destruct (set_value_spec _ _ _ _ _ _ _ Hw E2).
Qed.
Lemma overrides_tune_only_witness :
  let ev' := snd (fractal_config_apply_env_overrides demo_sid FSQL_CFG_TIER_REASON
    (demo_overlay, {[ bs "FSQL_REASONING_HTTP_URL" := bs "http://a" ]})) in
  ev' !! bs "FSQL_REASONING_HTTP_URL" = Some (bs "http://a").
Proof.
  cbv zeta. etransitivity.
  - apply (proj1 (overrides_tune_only demo_overlay demo_sid FSQL_CFG_TIER_REASON _ (bs "FSQL_REASONING_HTTP_URL") demo_overlay_wf)).
    intros H. vm_compute in H. intuition discriminate.
  - vm_compute. reflexivity.
Defined.

(** The session's overrides survive their JSON rendering: whatever text the
    render returns reads back as the keys and values the session holds, in the
    order of the table. *)
Theorem session_json_roundtrip ok small s sid j :
  overlay_wf s -> (forall k v, overlay_get s sid k = Some v -> bytes_ok v) ->
  fractal_config_session_json ok small s sid = Some j ->
  json_object j = Some (overrides s sid).
Proof.
  intros Hw Hb Hj. rewrite (session_json_text _ _ _ _ _ Hw Hj). 
  destruct (overrides s sid) as [|m ms] eqn:E; [reflexivity|]. rewrite <- E.
  assert (Hms : Forall (fun kv => bytes_ok (fst kv) /\ bytes_ok (snd kv)) (overrides s sid)).
  { unfold overrides. rewrite Forall_forall. intros [k v] Hin. apply list_elem_of_In, in_flat_map in Hin as ([key o] & Hz & Hk).
    cbn in Hk. destruct o as [w|]; [|done]. destruct Hk as [[= <- <-]|[]]. cbn. split.
    - apply in_combine_l in Hz. assert (Ha : forallb (fun k => bytes_okb (k_key k)) g_keys = true) by (vm_compute; reflexivity).
      rewrite forallb_forall in Ha. specialize (Ha _ Hz). unfold bytes_okb in Ha. rewrite forallb_forall in Ha.
      apply Forall_forall. intros c Hc. apply list_elem_of_In in Hc. specialize (Ha c Hc). unfold byte_okb, byte_ok in *. lia.
    - apply in_combine_r in Hz. apply in_map_iff in Hz as (i & Hi & _). by apply (Hb i). }
  unfold json_object. change (123 =? 123) with true. cbv iota.
  destruct (bytes_eqb _ [125]) eqn:Eb.
  { apply bytes_eqb_true in Eb. rewrite E in Eb. destruct m as [k v]. cbn in Eb. discriminate Eb. }
  apply json_members_text; [|by rewrite E|done].
  cbn [length]. rewrite length_app. assert (Hlen : forall l f, (length l <= length (members_text f l))%nat).
  { induction l as [|[k v] l IH]; intros f; [done|]. cbn [members_text length]. rewrite length_app. specialize (IH false).
    unfold member_text, json_lit. rewrite !length_app. cbn. lia. }
  specialize (Hlen (overrides s sid) true). cbn [length]. lia.
Qed.
Lemma bytes_okb_ok l : bytes_okb l = true -> bytes_ok l.
Proof.
  unfold bytes_okb. rewrite forallb_forall. intros H. apply Forall_forall. intros c Hc.
  apply list_elem_of_In in Hc. specialize (H c Hc). unfold byte_okb, byte_ok in *. lia.
Qed.
Lemma demo_bytes_ok k v : overlay_get demo_overlay demo_sid k = Some v -> bytes_ok v.
Proof.
  intros H. assert (Ha : forallb (fun k => match overlay_get demo_overlay demo_sid k with
    | Some v => bytes_okb v | None => true end) (seq 0 18) = true) by (vm_compute; reflexivity).
  rewrite forallb_forall in Ha. assert (Hk : (k < FSQL_CFG_KEY_COUNT)%nat).
  { pose proof demo_overlay_wf as Hw. unfold overlay_get in H. destruct (find_entry demo_overlay demo_sid) as [i|] eqn:Ef; [|done].
    destruct (find_entry_some _ _ _ Ef) as (e & He & _). rewrite (entry_at_lookup _ _ _ He) in H.
    destruct (values e !! k) as [o|] eqn:Ek; [|done]. apply lookup_lt_Some in Ek. by rewrite (eo_len _ (ow_entry _ Hw i e He)) in Ek. }
  specialize (Ha k). rewrite H in Ha. apply bytes_okb_ok, Ha. apply in_seq. unfold FSQL_CFG_KEY_COUNT in Hk. lia.
Qed.
Lemma session_json_roundtrip_witness :
  match fractal_config_session_json (fun _ => true) true demo_overlay demo_sid with
  | Some j => json_object j = Some (overrides demo_overlay demo_sid)
  | None => False
  end.
Proof.
  destruct (fractal_config_session_json (fun _ => true) true demo_overlay demo_sid) as [j|] eqn:E; [|vm_compute in E; discriminate].
  apply (session_json_roundtrip (fun _ => true) true demo_overlay demo_sid j); [| |exact E].
  - exact demo_overlay_wf.
  - exact demo_bytes_ok.
Defined.

Lemma has_dotdot_spec l : has_dotdot l = true <-> exists a b, l = a ++ 46 :: 46 :: b.
Proof.
  induction l as [|x [|y l] IH]; cbn [has_dotdot]; [split; [done|]; intros (a & b & H); by destruct a|split; [done|]; 
    intros ([|? [|? ?]] & b & H); done|].
  rewrite orb_true_iff, andb_true_iff, !Z.eqb_eq, IH. split.
  - intros [[-> ->]|(a & b & H)]; [exists [], l; done|]. exists (x :: a), b. by rewrite H.
  - intros ([|z a] & b & H); [left; by simplify_eq/=|]. right. simplify_eq/=. eauto.
Qed.
(** A path is accepted exactly when it is absolute, has no two adjacent
    dots, and fits the value buffer with its NUL. *)
Theorem validate_path_iff path :
  fractal_config_validate_path (Some path) = None <->
  Z.of_nat (length path) < FSQL_CFG_MAX_VALUE /\ (exists r, path = 47 :: r) /\
  ~ (exists a b, path = a ++ 46 :: 46 :: b).
Proof.
  rewrite <- has_dotdot_spec. unfold fractal_config_validate_path.
  destruct path as [|c path]; [split; [done|]; by intros (_ & (r & H) & _)|].
  destruct (_ <=? _) eqn:E1; [split; [done|]; lia|].
  destruct (c =? 47) eqn:E2; cbn [negb].
  - apply Z.eqb_eq in E2 as ->. destruct (has_dotdot _).
    + split; [done|]. by intros (_ & _ & ?).
    + split; [intros _; split; [lia|split; [by exists path|discriminate]]|done].
  - split; [done|]. intros (_ & (r & H) & _). injection H as ->. lia.
Qed.

(** A value accepted as an integer in range can read back as another one:
    the reader takes the first 63 bytes, so 64 leading zeros of an accepted
    thread limit of 5 attempts read back as 0, outside the accepted range. *)
Theorem lookup_long_truncates :
  let v := replicate 64 48 ++ bs "5" in
  let '(s, r) := fractal_config_set_value true demo_sid (Some (bs "t2s_max_attempts")) (Some v) overlay0 in
  r = None /\ parse_long v = Some 5 /\ snd (fractal_config_lookup_long demo_sid (bs "t2s_max_attempts") s) = Some 0.
Proof. vm_compute. auto. Qed.

(** Two environments the plugin would read differently can have the same
    fingerprint without any hash coincidence: an unset variable contributes
    nothing, so a value equal to the next variable's name moves between them. *)
Theorem fingerprint_collision :
  let ev1 : gmap (list Z) (list Z) := {[ bs "FSQL_REASONING_HTTP_URL" := bs "FSQL_REASONING_HTTP_TOKEN" ]} in
  let ev2 : gmap (list Z) (list Z) := {[ bs "FSQL_REASONING_HTTP_TOKEN" := bs "FSQL_REASONING_HTTP_TOKEN" ]} in
  ev1 <> ev2 /\ fractal_config_env_fingerprint ev1 = fractal_config_env_fingerprint ev2.
Proof.
  split; [|vm_compute; reflexivity]. intros H.
  apply (f_equal (fun m => m !! bs "FSQL_REASONING_HTTP_URL")) in H. vm_compute in H. discriminate.
Qed.
