(* ===== verification/Session.v ===== *)
(** * The session registry (src/fractalsql_session.c)

    The table of per-connection core contexts: hash buckets threaded through
    one LRU list, with a reference count, an exclusive pin and a count of plain
    holders per entry; the tier singletons; the destructive-operation latch.
    Every operation runs under the registry lock, so each is one step.

    An entry is named by its session id (ids in the table are distinct, part
    of [reg_wf]); a bucket chain is a list of ids; the LRU list holds the
    entries, most recent first.  [fsql_free] is recorded in [r_freed]. *)

From stdpp Require Import gmap.
From S2P Require Import Prelude.

Definition FSQL_SESSION_BUCKETS : Z := 1024.
Definition FSQL_SESSION_MAX_ENTRIES : Z := 4096.
Definition FSQL_SESSION_IDLE_TTL_SECONDS : Z := 6 * 3600.
Definition FSQL_SESSION_SWEEP_SCAN_LIMIT : nat := 8.

(** The legacy per-tier slots of the struct are never filled and are left out. *)
Record fsql_session_entry := {
  session_id : Z;
  e_ctx : option Z;
  refcount : Z;
  agent_partial_fail : bool;
  diversify_enabled : bool;
  busy : bool;
  shared : Z;
  last_used : Z;
}.

Record registry := {
  g_buckets : gmap Z (list Z);
  g_lru : list fsql_session_entry;
  g_entry_count : Z;
  r_freed : list Z;
}.

Definition empty_registry : registry :=
  {| g_buckets := ∅; g_lru := []; g_entry_count := 0; r_freed := [] |}.

(** What a call takes from outside: the clock, whether calloc succeeds, and
    what fsql_new_sovereign returns. *)
Record env := { now : Z; calloc_ok : bool; new_sovereign : option Z }.

Definition bucket (r : registry) (b : Z) : list Z := default [] (g_buckets r !! b).

Definition has_id (id : Z) (e : fsql_session_entry) : bool := session_id e =? id.

Definition find_entry (r : registry) (id : Z) : option fsql_session_entry :=
  if existsb (Z.eqb id) (bucket r (id mod FSQL_SESSION_BUCKETS))
  then List.find (has_id id) (g_lru r) else None.

Definition bucket_unlink (id : Z) (r : registry) : registry :=
  let b := id mod FSQL_SESSION_BUCKETS in
  {| g_buckets := <[b := List.filter (fun x => negb (x =? id)) (bucket r b)]> (g_buckets r);
     g_lru := g_lru r; g_entry_count := g_entry_count r; r_freed := r_freed r |}.
Definition lru_unlink (id : Z) (r : registry) : registry :=
  {| g_buckets := g_buckets r;
     g_lru := List.filter (fun e => negb (has_id id e)) (g_lru r);
     g_entry_count := g_entry_count r; r_freed := r_freed r |}.
Definition lru_push_front (e : fsql_session_entry) (r : registry) : registry :=
  {| g_buckets := g_buckets r; g_lru := e :: g_lru r;
     g_entry_count := g_entry_count r; r_freed := r_freed r |}.
Definition entry_destroy (e : fsql_session_entry) (r : registry) : registry :=
  {| g_buckets := g_buckets r; g_lru := g_lru r; g_entry_count := g_entry_count r - 1;
     r_freed := match e_ctx e with Some c => c :: r_freed r | None => r_freed r end |}.
Definition destroy (e : fsql_session_entry) (r : registry) : registry :=
  entry_destroy e (lru_unlink (session_id e) (bucket_unlink (session_id e) r)).

Definition idle (e : fsql_session_entry) : bool := (refcount e =? 0) && negb (busy e).

(** The walk from the tail: [l] is what is left to scan, oldest first. *)
Fixpoint sweep_scan (t : Z) (limit : nat) (l : list fsql_session_entry) (r : registry) : registry :=
  match limit, l with
  | S n, e :: l' =>
      sweep_scan t n l'
        (if idle e && (FSQL_SESSION_IDLE_TTL_SECONDS <=? t - last_used e) then destroy e r else r)
  | _, _ => r
  end.
Definition sweep_stale (t : Z) (limit : nat) (r : registry) : registry :=
  sweep_scan t limit (rev (g_lru r)) r.

Definition evict_one_lru (r : registry) : option registry :=
  match List.find idle (rev (g_lru r)) with
  | Some e => Some (destroy e r)
  | None => None
  end.

(** Field updates of the entry with a given id. *)
Definition with_entry (id : Z) (f : fsql_session_entry -> fsql_session_entry) (r : registry) : registry :=
  {| g_buckets := g_buckets r;
     g_lru := map (fun e => if has_id id e then f e else e) (g_lru r);
     g_entry_count := g_entry_count r; r_freed := r_freed r |}.

Definition set_counts (rc : Z) (b : bool) (sh : Z) (e : fsql_session_entry) : fsql_session_entry :=
  {| session_id := session_id e; e_ctx := e_ctx e; refcount := rc;
     agent_partial_fail := agent_partial_fail e; diversify_enabled := diversify_enabled e;
     busy := b; shared := sh; last_used := last_used e |}.
Definition touch (t : Z) (e : fsql_session_entry) : fsql_session_entry :=
  {| session_id := session_id e; e_ctx := e_ctx e; refcount := refcount e + 1;
     agent_partial_fail := agent_partial_fail e; diversify_enabled := diversify_enabled e;
     busy := busy e; shared := shared e; last_used := t |}.
Definition set_ctx (c : Z) (e : fsql_session_entry) : fsql_session_entry :=
  {| session_id := session_id e; e_ctx := Some c; refcount := refcount e;
     agent_partial_fail := agent_partial_fail e; diversify_enabled := diversify_enabled e;
     busy := busy e; shared := shared e; last_used := last_used e |}.
Definition set_partial (on : bool) (e : fsql_session_entry) : fsql_session_entry :=
  {| session_id := session_id e; e_ctx := e_ctx e; refcount := refcount e;
     agent_partial_fail := on; diversify_enabled := diversify_enabled e;
     busy := busy e; shared := shared e; last_used := last_used e |}.
Definition set_diversify (on : bool) (e : fsql_session_entry) : fsql_session_entry :=
  {| session_id := session_id e; e_ctx := e_ctx e; refcount := refcount e;
     agent_partial_fail := agent_partial_fail e; diversify_enabled := on;
     busy := busy e; shared := shared e; last_used := last_used e |}.
(** [if (e->refcount > 0) e->refcount--;] and the like. *)
Definition dec (x : Z) : Z := if 0 <? x then x - 1 else x.
Definition unref (e : fsql_session_entry) : fsql_session_entry :=
  set_counts (dec (refcount e)) (busy e) (shared e) e.

Definition fresh_entry (id t : Z) : fsql_session_entry :=
  {| session_id := id; e_ctx := None; refcount := 1; agent_partial_fail := false;
     diversify_enabled := false; busy := false; shared := 0; last_used := t |}.

Definition link_new (id t : Z) (r : registry) : registry :=
  let b := id mod FSQL_SESSION_BUCKETS in
  {| g_buckets := <[b := id :: bucket r b]> (g_buckets r);
     g_lru := fresh_entry id t :: g_lru r;
     g_entry_count := g_entry_count r + 1; r_freed := r_freed r |}.

(** The registry after, and the entry (its state after the bump). *)
Definition find_or_create_entry_locked (v : env) (id : Z) (r : registry)
    : registry * option fsql_session_entry :=
  match find_entry r id with
  | Some e => let e' := touch (now v) e in (lru_push_front e' (lru_unlink id r), Some e')
  | None =>
      let room := if FSQL_SESSION_MAX_ENTRIES <=? g_entry_count r then evict_one_lru r else Some r in
      match room with
      | None => (r, None)
      | Some r1 =>
          if negb (calloc_ok v) then (r1, None)
          else (link_new id (now v) r1, Some (fresh_entry id (now v)))
      end
  end.

(** The context slot, filled on first use; [None]: fsql_new_sovereign failed. *)
Definition ensure_ctx (v : env) (id : Z) (e : fsql_session_entry) (r : registry)
    : registry * option Z :=
  match e_ctx e with
  | Some c => (r, Some c)
  | None => match new_sovereign v with
            | Some c => (with_entry id (set_ctx c) r, Some c)
            | None => (r, None)
            end
  end.

Definition fractal_session_acquire (v : env) (id : Z) (r : registry) : registry * option Z :=
  let r := sweep_stale (now v) FSQL_SESSION_SWEEP_SCAN_LIMIT r in
  if match find_entry r id with Some e => busy e | None => false end then (r, None)
  else match find_or_create_entry_locked v id r with
  | (r, None) => (r, None)
  | (r, Some e) =>
      match ensure_ctx v id e r with
      | (r, None) => (with_entry id unref r, None)
      | (r, Some c) =>
          (with_entry id (fun e => set_counts (refcount e) (busy e) (shared e + 1) e) r, Some c)
      end
  end.

(** The result, and the value left in *out_busy. *)
Definition fractal_session_acquire_exclusive (v : env) (id : Z) (r : registry)
    : registry * option Z * bool :=
  let r := sweep_stale (now v) FSQL_SESSION_SWEEP_SCAN_LIMIT r in
  let e := find_entry r id in
  if match e with Some e => busy e | None => false end then (r, None, true)
  else if match e with Some e => 0 <? shared e | None => false end then (r, None, true)
  else match find_or_create_entry_locked v id r with
  | (r, None) => (r, None, false)
  | (r, Some e) =>
      let r := with_entry id (fun e => set_counts (refcount e) true (shared e) e) r in
      match ensure_ctx v id e r with
      | (r, None) =>
          (with_entry id (fun e => set_counts (dec (refcount e)) false (shared e) e) r, None, false)
      | (r, Some c) => (r, Some c, false)
      end
  end.

Definition fractal_session_release_exclusive (id : Z) (r : registry) : registry :=
  match find_entry r id with
  | Some _ => with_entry id (fun e => set_counts (dec (refcount e)) false (shared e) e) r
  | None => r
  end.
Definition fractal_session_release (id : Z) (r : registry) : registry :=
  match find_entry r id with
  | Some _ => with_entry id (fun e => set_counts (dec (refcount e)) (busy e) (dec (shared e)) e) r
  | None => r
  end.

(** The two per-session flags share their shape: find or create, drop the
    reference the creation took, write the flag. *)
Definition set_flag (f : fsql_session_entry -> fsql_session_entry) (v : env) (id : Z) (r : registry) : registry :=
  match find_entry r id with
  | Some _ => with_entry id f r
  | None => match find_or_create_entry_locked v id r with
            | (r, Some _) => with_entry id f (with_entry id unref r)
            | (r, None) => r
            end
  end.
Definition fractal_session_set_agent_partial (v : env) (id : Z) (on : bool) := set_flag (set_partial on) v id.
Definition fractal_session_set_diversify_enabled (v : env) (id : Z) (on : bool) := set_flag (set_diversify on) v id.
Definition fractal_session_get_agent_partial (r : registry) (id : Z) : bool :=
  match find_entry r id with Some e => agent_partial_fail e | None => false end.
Definition fractal_session_get_diversify_enabled (r : registry) (id : Z) : bool :=
  match find_entry r id with Some e => diversify_enabled e | None => false end.

Definition fractal_session_registry_close (id : Z) (r : registry) : registry :=
  match find_entry r id with
  | Some e => if idle e then destroy e r else r
  | None => r
  end.

(** ** The tier singletons *)

Inductive fsql_tier := FSQL_TIER_REASON | FSQL_TIER_EMBED | FSQL_TIER_T2S | FSQL_TIER_REVIEW.
#[export] Instance fsql_tier_eq_dec : EqDecision fsql_tier.
Proof. solve_decision. Defined.

Record tiers := { g_tier_ctx : fsql_tier -> option Z; g_tier_loaded : fsql_tier -> bool }.
Definition upd_tier {A} (t : fsql_tier) (x : A) (f : fsql_tier -> A) : fsql_tier -> A :=
  fun t' => if decide (t' = t) then x else f t'.

(** The context and the loaded flag, read in one hold of the lock. *)
Definition tier_acquire (new : option Z) (t : fsql_tier) (s : tiers) : tiers * option (Z * bool) :=
  match g_tier_ctx s t with
  | Some c => (s, Some (c, g_tier_loaded s t))
  | None =>
      match new with
      | None => (s, None)
      | Some c => ({| g_tier_ctx := upd_tier t (Some c) (g_tier_ctx s); g_tier_loaded := g_tier_loaded s |},
                   Some (c, g_tier_loaded s t))
      end
  end.
Definition tier_mark_loaded (t : fsql_tier) (s : tiers) : tiers :=
  {| g_tier_ctx := g_tier_ctx s; g_tier_loaded := upd_tier t true (g_tier_loaded s) |}.
Definition tier_forget_loaded (t : fsql_tier) (s : tiers) : tiers :=
  {| g_tier_ctx := g_tier_ctx s; g_tier_loaded := upd_tier t false (g_tier_loaded s) |}.

(** ** The destructive-operation latch *)

Definition FSQL_LOCKED_RING : Z := 16384.
Record latch := { g_locked_ids : list Z; g_locked_n : Z; g_locked_head : Z }.

(** [size] is FSQL_LOCKED_RING; the array is static, so zero-filled. *)
Definition latch_init (size : Z) : latch :=
  {| g_locked_ids := replicate (Z.to_nat size) 0; g_locked_n := 0; g_locked_head := 0 |}.
Definition ring_locked (s : latch) (id : Z) : bool :=
  existsb (Z.eqb id) (take (Z.to_nat (g_locked_n s)) (g_locked_ids s)).
Definition ring_lock (size : Z) (id : Z) (s : latch) : latch :=
  if ring_locked s id then s
  else {| g_locked_ids := <[Z.to_nat (g_locked_head s) := id]> (g_locked_ids s);
          g_locked_head := (g_locked_head s + 1) mod size;
          g_locked_n := if g_locked_n s <? size then g_locked_n s + 1 else g_locked_n s |}.
Definition fractal_session_lock_destructive (id : Z) (s : latch) : latch := ring_lock FSQL_LOCKED_RING id s.
Definition fractal_session_destructive_locked (s : latch) (id : Z) : bool := ring_locked s id.

(** ** Well-formed registries and lookup *)

Record reg_wf (r : registry) : Prop := {
  wf_nodup : NoDup (map session_id (g_lru r));
  wf_bucket : forall b id, id ∈ bucket r b <-> id ∈ map session_id (g_lru r) /\ id mod FSQL_SESSION_BUCKETS = b;
  wf_count : g_entry_count r = Z.of_nat (length (g_lru r));
  wf_cap : g_entry_count r <= FSQL_SESSION_MAX_ENTRIES;
}.

Definition slot (r : registry) (id : Z) : option fsql_session_entry := List.find (has_id id) (g_lru r).

Lemma slot_id r id e : slot r id = Some e -> session_id e = id.
Proof. intros H. apply find_some in H as [_ H]. unfold has_id in H. lia. Qed.
Lemma slot_elem r id e : slot r id = Some e -> e ∈ g_lru r.
Proof. intros H. apply find_some in H as [H _]. by apply list_elem_of_In. Qed.
Lemma slot_none_ids l id : List.find (has_id id) l = None <-> id ∉ map session_id l.
Proof.
  induction l as [|e l IH]; cbn; [split; [intros _ H; inversion H|done]|].
  unfold has_id at 1. destruct (session_id e =? id) eqn:E.
  - split; [done|]. intros H. destruct H. rewrite elem_of_cons. left. lia.
  - rewrite IH. split; [intros H H'; apply H|intros H H'; apply H; by right].
    apply elem_of_cons in H' as [->|]; [lia|done].
Qed.
Lemma slot_of_elem r e : reg_wf r -> e ∈ g_lru r -> slot r (session_id e) = Some e.
Proof.
  intros [Hn _ _ _]. unfold slot. revert Hn. generalize (g_lru r). intros l.
  induction l as [|d l IH]; intros Hn He; [inversion He|]. cbn in Hn. apply NoDup_cons in Hn as [Hd Hn].
  cbn. unfold has_id at 1. apply elem_of_cons in He as [->|He]; [by rewrite Z.eqb_refl|].
  destruct (session_id d =? session_id e) eqn:E; [|by apply IH].
  exfalso. apply Hd. apply Z.eqb_eq in E. rewrite E. by apply list_elem_of_fmap_2.
Qed.
Lemma find_entry_slot r id : reg_wf r -> find_entry r id = slot r id.
Proof.
  intros Hwf. unfold find_entry. destruct (existsb _ _) eqn:E; [done|]. symmetry.
  apply slot_none_ids. intros Hin. apply not_true_iff_false in E. apply E, existsb_exists.
  exists id. split; [|apply Z.eqb_refl]. apply list_elem_of_In, (wf_bucket _ Hwf). done.
Qed.

Definition upd {A} (id : Z) (x : option A) (f : Z -> option A) : Z -> option A :=
  fun i => if i =? id then x else f i.

(** What each primitive does to the slots, and that it keeps the table well formed. *)
Lemma find_filter_ne l id i : List.find (has_id i) (List.filter (fun e => negb (has_id id e)) l) =
  if i =? id then None else List.find (has_id i) l.
Proof.
  induction l as [|e l IH]; cbn; [by destruct (i =? id)|].
  destruct (has_id id e) eqn:E; cbn; rewrite IH; unfold has_id in *.
  - destruct (i =? id) eqn:E1; [done|]. destruct (session_id e =? i) eqn:E2; [lia|done].
  - destruct (i =? id) eqn:E1; [|done]. destruct (session_id e =? i) eqn:E2; [lia|done].
Qed.
Lemma find_map_upd l id i f : (forall e, session_id (f e) = session_id e) ->
  List.find (has_id i) (map (fun e => if has_id id e then f e else e) l) =
  if i =? id then f <$> List.find (has_id i) l else List.find (has_id i) l.
Proof.
  intros Hf. induction l as [|e l IH]; cbn; [by destruct (i =? id)|]. rewrite IH. unfold has_id in *.
  destruct (session_id e =? id) eqn:E, (i =? id) eqn:E1; rewrite ?Hf; destruct (session_id e =? i) eqn:E2; 
    try done; lia.
Qed.
Lemma ids_map_upd l id f : (forall e, session_id (f e) = session_id e) ->
  map session_id (map (fun e => if has_id id e then f e else e) l) = map session_id l.
Proof.
  intros Hf. rewrite map_map. apply map_ext. intros e. destruct (has_id id e); [apply Hf|done].
Qed.
Lemma ids_filter l id : map session_id (List.filter (fun e => negb (has_id id e)) l) =
  List.filter (fun x => negb (x =? id)) (map session_id l).
Proof. induction l as [|e l IH]; [done|]. cbn. unfold has_id at 1. destruct (session_id e =? id); cbn; by rewrite IH. Qed.
Lemma elem_filter_ne (l : list Z) id x : x ∈ List.filter (fun x => negb (x =? id)) l <-> x ∈ l /\ x <> id.
Proof. rewrite !list_elem_of_In, filter_In. split; intros [? ?]; split; try done; bools; lia. Qed.
Lemma nodup_filter_ne (l : list Z) f : NoDup l -> NoDup (List.filter f l).
Proof.
  induction 1 as [|x l Hx _ IH]; cbn; [constructor|]. destruct (f x); [|done]. constructor; [|done].
  rewrite list_elem_of_In, filter_In, <- list_elem_of_In. tauto.
Qed.
Lemma len_filter_ne l (e : fsql_session_entry) : NoDup (map session_id l) -> e ∈ l ->
  S (length (List.filter (fun d => negb (has_id (session_id e) d)) l)) = length l.
Proof.
  induction l as [|d l IH]; intros Hn He; [inversion He|]. cbn in Hn. apply NoDup_cons in Hn as [Hd Hn].
  cbn. unfold has_id at 1. apply elem_of_cons in He as [->|He].
  - rewrite Z.eqb_refl. cbn. f_equal. clear IH Hn. 
    assert (Hi : forall k, session_id d ∉ map session_id k ->
      List.filter (fun x => negb (has_id (session_id d) x)) k = k); [|by rewrite Hi].
    intros k. induction k as [|x k IH]; cbn; [done|]. rewrite not_elem_of_cons. intros [Hx Hk].
    unfold has_id at 1. destruct (session_id x =? session_id d) eqn:E; [lia|]. cbn. by rewrite IH.
  - destruct (session_id d =? session_id e) eqn:E.
    { destruct Hd. apply Z.eqb_eq in E. rewrite E. by apply list_elem_of_fmap_2. }
    cbn. by rewrite IH.
Qed.

Lemma wf_empty : reg_wf empty_registry.
Proof.
  split; cbn; [constructor| |done|done]. intros b id. unfold bucket. cbn. rewrite lookup_empty. cbn.
  split; [intros H; inversion H|intros [H _]; inversion H].
Qed.
Lemma wf_with_entry id f r : (forall e, session_id (f e) = session_id e) -> reg_wf r -> reg_wf (with_entry id f r).
Proof.
  intros Hf [H1 H2 H3 H4]. split; cbn; [by rewrite ids_map_upd| |by rewrite length_map|done].
  intros b i. rewrite ids_map_upd by done. apply H2.
Qed.
Lemma slot_with_entry id f r i : (forall e, session_id (f e) = session_id e) ->
  slot (with_entry id f r) i = upd id (f <$> slot r id) (slot r) i.
Proof.
  intros Hf. unfold slot, upd. cbn. rewrite find_map_upd by done. 
  destruct (i =? id) eqn:E; [|done]. apply Z.eqb_eq in E. by subst.
Qed.
Lemma wf_destroy e r : reg_wf r -> e ∈ g_lru r -> reg_wf (destroy e r).
Proof.
  intros [H1 H2 H3 H4] He. pose proof (len_filter_ne _ _ H1 He). split; cbn.
  - rewrite ids_filter. by apply nodup_filter_ne.
  - intros b i. rewrite ids_filter, elem_filter_ne. unfold bucket. cbn.
    destruct (decide (session_id e mod FSQL_SESSION_BUCKETS = b)) as [<-|Hb].
    + rewrite lookup_insert_eq. cbn. rewrite elem_filter_ne, H2. tauto.
    + rewrite lookup_insert_ne by done. change (default [] (g_buckets r !! b)) with (bucket r b).
      rewrite H2. split; [|tauto]. intros [? ?]. repeat split; try done. by intros ->.
  - lia.
  - lia.
Qed.
Lemma slot_destroy e r i : slot (destroy e r) i = upd (session_id e) None (slot r) i.
Proof. unfold slot, upd. cbn. apply find_filter_ne. Qed.
Lemma wf_to_front e id r : reg_wf r -> slot r id = Some e -> forall e', session_id e' = id ->
  reg_wf (lru_push_front e' (lru_unlink id r)).
Proof.
  intros [H1 H2 H3 H4] Hs e' He'. pose proof (slot_id _ _ _ Hs) as Hid. apply slot_elem in Hs.
  pose proof (len_filter_ne _ _ H1 Hs) as Hl. rewrite Hid in Hl.
  assert (Hin : id ∈ map session_id (g_lru r)) by (rewrite <- Hid; by apply list_elem_of_fmap_2).
  split; cbn.
  - rewrite He', ids_filter. apply NoDup_cons. split; [rewrite elem_filter_ne; tauto|]. by apply nodup_filter_ne.
  - intros b i. rewrite He', ids_filter, elem_of_cons, elem_filter_ne.
    change (bucket (lru_push_front e' (lru_unlink id r)) b) with (bucket r b). rewrite H2.
    destruct (decide (i = id)) as [->|]; tauto.
  - cbn in Hl. lia.
  - done.
Qed.
Lemma slot_to_front e' id r i : session_id e' = id ->
  slot (lru_push_front e' (lru_unlink id r)) i = upd id (Some e') (slot r) i.
Proof.
  intros <-. unfold slot, upd. cbn. unfold has_id at 1. rewrite find_filter_ne.
  rewrite (Z.eqb_sym i). by destruct (session_id e' =? i).
Qed.
Lemma wf_link_new id t r : reg_wf r -> slot r id = None -> g_entry_count r < FSQL_SESSION_MAX_ENTRIES ->
  reg_wf (link_new id t r).
Proof.
  intros [H1 H2 H3 H4] Hs Hc. apply slot_none_ids in Hs. split; cbn [link_new g_lru g_entry_count map length session_id fresh_entry].
  - by constructor.
  - intros b i. unfold bucket, link_new. cbn.
    destruct (decide (id mod FSQL_SESSION_BUCKETS = b)) as [<-|Hb].
    + rewrite lookup_insert_eq. cbn. rewrite !elem_of_cons, H2. split; [|tauto]. intros [->|]; tauto.
    + rewrite lookup_insert_ne by done. change (default [] (g_buckets r !! b)) with (bucket r b).
      rewrite H2, elem_of_cons. split; [tauto|]. intros [[->|] ?]; tauto.
  - lia.
  - lia.
Qed.
Lemma slot_link_new id t r i : slot (link_new id t r) i = upd id (Some (fresh_entry id t)) (slot r) i.
Proof. unfold slot, upd. cbn. unfold has_id at 1. cbn. rewrite (Z.eqb_sym i). by destruct (id =? i). Qed.

(** ** Eviction and the sweep only drop idle entries *)

Record shrinks (r r' : registry) : Prop := {
  sh_wf : reg_wf r';
  sh_slot : forall id, slot r' id = slot r id \/
    (slot r' id = None /\ exists e, slot r id = Some e /\ idle e = true);
  sh_freed : forall c, c ∈ r_freed r' -> c ∈ r_freed r \/
    exists id e, slot r id = Some e /\ e_ctx e = Some c /\ slot r' id = None;
}.

Lemma shrinks_refl r : reg_wf r -> shrinks r r.
Proof. intros H. split; auto. Qed.
Lemma shrinks_trans r1 r2 r3 : shrinks r1 r2 -> shrinks r2 r3 -> shrinks r1 r3.
Proof.
  intros [W1 S1 F1] [W2 S2 F2]. split; [done| |].
  - intros id. destruct (S2 id) as [E|(E & e & He & Hi)]; [rewrite E; apply S1|].
    right. split; [done|]. destruct (S1 id) as [E1|(E1 & _)]; [|congruence]. exists e. by rewrite <- E1.
  - intros c Hc. destruct (F2 c Hc) as [H|(id & e & He & Hx & Hn)].
    + destruct (F1 c H) as [H'|(id & e & He & Hx & Hn)]; [by left|]. right. exists id, e.
      repeat split; try done. destruct (S2 id) as [E|(E & _)]; congruence.
    + right. exists id, e. destruct (S1 id) as [E1|(E1 & _)]; [|congruence]. by rewrite <- E1.
Qed.
Lemma shrinks_destroy e r : reg_wf r -> slot r (session_id e) = Some e -> idle e = true -> shrinks r (destroy e r).
Proof.
  intros Hw He Hi. split.
  - apply wf_destroy; [done|]. by apply slot_elem in He.
  - intros id. rewrite slot_destroy. unfold upd. destruct (id =? session_id e) eqn:E; [|by left].
    apply Z.eqb_eq in E as ->. right. eauto.
  - intros c. cbn [destroy entry_destroy r_freed lru_unlink bucket_unlink]. destruct (e_ctx e) as [c'|] eqn:Ec; [|auto]. rewrite elem_of_cons. intros [->|]; [|auto].
    right. exists (session_id e), e. repeat split; try done. rewrite slot_destroy. unfold upd. by rewrite Z.eqb_refl.
Qed.
Lemma shrinks_slot_same r r' e : shrinks r r' -> slot r (session_id e) = Some e -> slot r' (session_id e) <> None ->
  slot r' (session_id e) = Some e.
Proof. intros [_ S _] He Hn. destruct (S (session_id e)) as [E|(E & _)]; congruence. Qed.

Lemma sweep_scan_shrinks t limit l : forall r0 r, shrinks r0 r -> NoDup (map session_id l) ->
  (forall e, e ∈ l -> slot r (session_id e) = Some e) -> shrinks r0 (sweep_scan t limit l r).
Proof.
  revert l. induction limit as [|n IH]; intros l r0 r Hs Hn Hl; [by destruct l|].
  destruct l as [|e l]; [done|]. cbn [sweep_scan]. cbn in Hn. apply NoDup_cons in Hn as [He Hn].
  destruct (idle e && _) eqn:E; [|apply IH; [done|done|]; intros d Hd; apply Hl; by right].
  apply andb_true_iff in E as [Ei _].
  apply IH; [|done|].
  - eapply shrinks_trans; [exact Hs|]. apply shrinks_destroy; [apply Hs| |done]. apply Hl. by left.
  - intros d Hd. rewrite slot_destroy. unfold upd.
    destruct (session_id d =? session_id e) eqn:E; [|apply Hl; by right].
    apply Z.eqb_eq in E. destruct He. rewrite <- E. by apply list_elem_of_fmap_2.
Qed.
Lemma nodup_rev_ids (l : list fsql_session_entry) : NoDup (map session_id l) -> NoDup (map session_id (rev l)).
Proof. intros H. rewrite map_rev. by rewrite <- Permutation_rev. Qed.
Lemma sweep_shrinks t limit r : reg_wf r -> shrinks r (sweep_stale t limit r).
Proof.
  intros Hw. apply sweep_scan_shrinks; [by apply shrinks_refl|apply nodup_rev_ids, Hw|].
  intros e He. apply slot_of_elem; [done|]. rewrite list_elem_of_In, <- in_rev, <- list_elem_of_In in He. done.
Qed.
Lemma evict_shrinks r r' : reg_wf r -> evict_one_lru r = Some r' ->
  shrinks r r' /\ g_entry_count r' = g_entry_count r - 1.
Proof.
  intros Hw. unfold evict_one_lru. destruct (List.find idle _) as [e|] eqn:E; [|done]. intros [= <-].
  apply find_some in E as [He Hi]. split; [|done]. apply shrinks_destroy; [done| |done].
  apply slot_of_elem; [done|]. by rewrite list_elem_of_In, in_rev.
Qed.

(** ** Find-or-create *)

Lemma find_or_create_spec v id r r' o : reg_wf r -> find_or_create_entry_locked v id r = (r', o) ->
  exists r1, shrinks r r1 /\
  match o with
  | None => r' = r1 /\ slot r1 id = None
  | Some e =>
      reg_wf r' /\ r_freed r' = r_freed r1 /\ (forall i, slot r' i = upd id (Some e) (slot r1) i) /\
      ((exists e0, slot r1 id = Some e0 /\ e = touch (now v) e0) \/
       (slot r1 id = None /\ e = fresh_entry id (now v)))
  end.
Proof.
  intros Hw. unfold find_or_create_entry_locked. rewrite find_entry_slot by done.
  destruct (slot r id) as [e|] eqn:Es.
  - intros [= <- <-]. exists r. split; [by apply shrinks_refl|]. pose proof (slot_id _ _ _ Es) as Hid.
    split; [by apply (wf_to_front e)|]. split; [done|]. split; [intros i; by apply slot_to_front|].
    left. eauto.
  - assert (Hroom : forall r1, (if FSQL_SESSION_MAX_ENTRIES <=? g_entry_count r then evict_one_lru r else Some r) = Some r1 ->
      shrinks r r1 /\ g_entry_count r1 < FSQL_SESSION_MAX_ENTRIES).
    { intros r1. destruct (_ <=? _) eqn:E.
      - intros H. apply evict_shrinks in H as [H1 H2]; [|done]. split; [done|]. pose proof (wf_cap _ Hw). lia.
      - intros [= <-]. split; [by apply shrinks_refl|lia]. }
    destruct (if FSQL_SESSION_MAX_ENTRIES <=? g_entry_count r then evict_one_lru r else Some r) as [r1|] eqn:Er.
    + destruct (Hroom r1 eq_refl) as [Hs Hc]. assert (Hnone : slot r1 id = None).
      { destruct (sh_slot _ _ Hs id) as [E|[E _]]; congruence. }
      destruct (calloc_ok v); cbn [negb]; intros [= <- <-]; exists r1; (split; [done|]); [|done].
      split; [by apply wf_link_new; [apply Hs| |]|]. split; [done|]. split; [intros i; apply slot_link_new|]. auto.
    + intros [= <- <-]. exists r. split; [by apply shrinks_refl|done].
Qed.

(** ** Callers and what they hold *)

(** The callers' side: the plain and the exclusive acquires not yet released,
    each with the context it was given. *)
Record world := { w_reg : registry; w_plain : list (Z * Z); w_excl : list (Z * Z) }.

Definition held (id : Z) (l : list (Z * Z)) : list Z :=
  map snd (List.filter (fun p => fst p =? id) l).

Lemma held_app id l k : held id (l ++ k) = held id l ++ held id k.
Proof. unfold held. by rewrite List.filter_app, map_app. Qed.
Lemma held_cons id i c l : held id ((i, c) :: l) = (if i =? id then [c] else []) ++ held id l.
Proof. unfold held. cbn. by destruct (i =? id). Qed.

(** An entry agrees with the callers that hold it. *)
Definition slot_ok (o : option fsql_session_entry) (p x : list Z) : Prop :=
  match o with
  | None => p = [] /\ x = []
  | Some e =>
      shared e = Z.of_nat (length p) /\ Z.b2z (busy e) = Z.of_nat (length x) /\
      refcount e = shared e + Z.b2z (busy e) /\ (busy e = true -> p = []) /\
      Forall (fun c => e_ctx e = Some c) (p ++ x)
  end.

Record inv (w : world) : Prop := {
  i_wf : reg_wf (w_reg w);
  i_slot : forall id, slot_ok (slot (w_reg w) id) (held id (w_plain w)) (held id (w_excl w));
  i_live : forall id e c, slot (w_reg w) id = Some e -> e_ctx e = Some c -> c ∉ r_freed (w_reg w);
  i_dist : forall i j d e c, slot (w_reg w) i = Some d -> slot (w_reg w) j = Some e ->
    e_ctx d = Some c -> e_ctx e = Some c -> i = j;
}.

(** The context constructor returns a context that is neither freed nor in use. *)
Definition env_ok (v : env) (r : registry) : Prop :=
  forall c, new_sovereign v = Some c -> (c ∉ r_freed r) /\
    forall id e, slot r id = Some e -> e_ctx e <> Some c.

Lemma idle_unheld e p x : slot_ok (Some e) p x -> idle e = true -> p = [] /\ x = [].
Proof.
  intros (H1 & H2 & H3 & _) Hi. unfold idle in Hi. bools. destruct (busy e); [done|].
  destruct p; [|cbn in *; lia]. destruct x; [done|]. cbn in *; lia.
Qed.
Lemma inv_shrinks r r' P X : inv {| w_reg := r; w_plain := P; w_excl := X |} -> shrinks r r' ->
  inv {| w_reg := r'; w_plain := P; w_excl := X |}.
Proof.
  intros [W S L D] [W' S' F']. cbn in *.
  assert (Hsub : forall id e, slot r' id = Some e -> slot r id = Some e).
  { intros id e He. destruct (S' id) as [E|(E & _)]; congruence. }
  split; cbn; [done| | |].
  - intros id. destruct (S' id) as [-> | (-> & e & He & Hi)]; [apply S|].
    pose proof (S id) as Ho. rewrite He in Ho. by apply (idle_unheld e).
  - intros id e c He Hc Hf. pose proof (Hsub _ _ He) as He0.
    destruct (F' c Hf) as [H|(i & d & Hd & Hdc & Hn)]; [by apply (L id e c)|].
    assert (i = id) as -> by (by apply (D i id d e c)). congruence.
  - eauto.
Qed.
Lemma env_ok_shrinks v r r' : env_ok v r -> shrinks r r' -> env_ok v r'.
Proof.
  intros H [_ S F] c Hc. destruct (H c Hc) as [H1 H2]. split.
  - intros Hf. destruct (F c Hf) as [?|(i & d & Hd & Hdc & _)]; [done|]. by apply (H2 i d).
  - intros id e He. destruct (S id) as [E|(E & _)]; [|congruence]. apply (H2 id). congruence.
Qed.

(** Changing one slot, and the holders of that id only, keeps the invariant. *)
Lemma inv_set r r' P X P' X' id e :
  inv {| w_reg := r; w_plain := P; w_excl := X |} -> reg_wf r' -> r_freed r' = r_freed r ->
  (forall i, slot r' i = upd id (Some e) (slot r) i) ->
  (forall i, i <> id -> held i P' = held i P /\ held i X' = held i X) ->
  slot_ok (Some e) (held id P') (held id X') ->
  (forall c, e_ctx e = Some c -> (exists e0, slot r id = Some e0 /\ e_ctx e0 = Some c) \/
     ((c ∉ r_freed r) /\ forall i d, slot r i = Some d -> e_ctx d <> Some c)) ->
  inv {| w_reg := r'; w_plain := P'; w_excl := X' |}.
Proof.
  intros [W S L D] W' Hf Hs Hh Ho Hc. cbn [w_reg w_plain w_excl] in *.
  split; cbn [w_reg w_plain w_excl]; [done| | |].
  - intros i. rewrite Hs. unfold upd. destruct (i =? id) eqn:E; [apply Z.eqb_eq in E as ->; done|].
    destruct (Hh i) as [-> ->]; [lia|]. apply S.
  - intros i d c. rewrite Hs, Hf. unfold upd. destruct (i =? id) eqn:E; [|apply L].
    intros [= <-] He. destruct (Hc c He) as [(e0 & H0 & Hc0)|[? _]]; [|done]. by apply (L id e0).
  - intros i j d1 d2 c. rewrite !Hs. unfold upd. destruct (i =? id) eqn:E1, (j =? id) eqn:E2; try lia.
    + intros [= <-] H2 H3 H4. destruct (Hc c H3) as [(e0 & H0 & Hc0)|[_ Hn]]; [|by destruct (Hn j d2)].
      assert (id = j) by (by apply (D id j e0 d2 c)). lia.
    + intros H2 [= <-] H3 H4. destruct (Hc c H4) as [(e0 & H0 & Hc0)|[_ Hn]]; [|by destruct (Hn i d1)].
      assert (i = id) by (by apply (D i id d1 e0 c)). lia.
    + apply D.
Qed.

Lemma slots_with_entry id f r2 e (S : Z -> option fsql_session_entry) :
  (forall d, session_id (f d) = session_id d) ->
  (forall i, slot r2 i = upd id (Some e) S i) ->
  forall i, slot (with_entry id f r2) i = upd id (Some (f e)) S i.
Proof.
  intros Hf Hs i. rewrite slot_with_entry by done. rewrite Hs. unfold upd at 2. rewrite Z.eqb_refl.
  unfold upd. rewrite Hs. unfold upd. by destruct (i =? id).
Qed.

Definition held_ref (e : fsql_session_entry) : fsql_session_entry :=
  set_counts (refcount e - 1) (busy e) (shared e) e.

(** From a find-or-create to the final state of the entry it returned. *)
Lemma find_or_create_inv v id r r2 e r' e' P X P' X' :
  inv {| w_reg := r; w_plain := P; w_excl := X |} -> env_ok v r ->
  find_or_create_entry_locked v id r = (r2, Some e) ->
  reg_wf r' -> r_freed r' = r_freed r2 -> 
  (forall S, (forall i, slot r2 i = upd id (Some e) S i) -> forall i, slot r' i = upd id (Some e') S i) ->
  (forall i, i <> id -> held i P' = held i P /\ held i X' = held i X) ->
  (slot_ok (Some (held_ref e)) (held id P) (held id X) -> slot_ok (Some e') (held id P') (held id X')) ->
  e_ctx e' = e_ctx e \/ e_ctx e' = new_sovereign v ->
  inv {| w_reg := r'; w_plain := P'; w_excl := X' |}.
Proof.
  intros Hi Hv Hf Hw Hfr Hs Hh Ho Hc.
  destruct (find_or_create_spec _ _ _ _ _ (i_wf _ Hi) Hf) as (r1 & Hsh & _ & Hfr2 & Hs2 & Hcase).
  pose proof (inv_shrinks _ _ _ _ Hi Hsh) as Hi1. pose proof (env_ok_shrinks _ _ _ Hv Hsh) as Hv1.
  apply (inv_set r1 r' P X P' X' id e'); [done|done|congruence|by apply Hs|done| |].
  - apply Ho. pose proof (i_slot _ Hi1 id) as Hok. cbn [w_reg w_plain w_excl] in Hok.
    destruct Hcase as [(e0 & He0 & ->)|(Hn & ->)].
    + rewrite He0 in Hok. destruct Hok as (H1 & H2 & H3 & H4 & H5). cbn. repeat split; try done. lia.
    + rewrite Hn in Hok. destruct Hok as [-> ->]. cbn. repeat split; try done.
  - intros c Hec. destruct Hc as [Hc|Hc]; [|right; apply Hv1; congruence].
    destruct Hcase as [(e0 & He0 & ->)|(Hn & ->)]; [|cbn in Hc; congruence].
    left. exists e0. cbn in Hc. split; [done|congruence].
Qed.
Lemma find_or_create_old v id r r2 e : reg_wf r -> find_or_create_entry_locked v id r = (r2, Some e) ->
  match slot r id with
  | Some e0 => (busy e = busy e0 /\ shared e = shared e0) \/ (busy e = false /\ shared e = 0)
  | None => busy e = false /\ shared e = 0
  end.
Proof.
  intros Hw Hf. destruct (find_or_create_spec _ _ _ _ _ Hw Hf) as (r1 & Hsh & _ & _ & _ & [(e0 & He0 & ->)|(Hn & ->)]).
  - destruct (sh_slot _ _ Hsh id) as [E|(E & _)]; [|congruence]. rewrite <- E, He0. by left.
  - destruct (slot r id); [right|]; done.
Qed.
Lemma find_or_create_none v id r r2 P X : inv {| w_reg := r; w_plain := P; w_excl := X |} ->
  find_or_create_entry_locked v id r = (r2, None) -> inv {| w_reg := r2; w_plain := P; w_excl := X |}.
Proof.
  intros Hi Hf. destruct (find_or_create_spec _ _ _ _ _ (i_wf _ Hi) Hf) as (r1 & Hsh & -> & _).
  by apply (inv_shrinks r).
Qed.
Lemma find_or_create_wf v id r r2 e : reg_wf r -> find_or_create_entry_locked v id r = (r2, Some e) -> reg_wf r2.
Proof. intros Hw Hf. by destruct (find_or_create_spec _ _ _ _ _ Hw Hf) as (r1 & _ & ? & _). Qed.

Lemma slot_ok_noctx e p x : slot_ok (Some e) p x -> e_ctx e = None -> p = [] /\ x = [].
Proof.
  intros (_ & _ & _ & _ & H) Hc. apply Forall_app in H as [Hp Hx].
  destruct p as [|c p]; [|by inversion Hp; congruence]. destruct x as [|c x]; [|by inversion Hx; congruence]. done.
Qed.
Lemma held_other i id c (P : list (Z * Z)) : i <> id -> held i ((id, c) :: P) = held i P.
Proof. intros H. rewrite held_cons. destruct (id =? i) eqn:E; [lia|done]. Qed.
Lemma held_self id c (P : list (Z * Z)) : held id ((id, c) :: P) = c :: held id P.
Proof. rewrite held_cons. by rewrite Z.eqb_refl. Qed.

Lemma acquire_inv v id r r' o P X :
  inv {| w_reg := r; w_plain := P; w_excl := X |} -> env_ok v r ->
  fractal_session_acquire v id r = (r', o) ->
  inv {| w_reg := r'; w_plain := match o with Some c => (id, c) :: P | None => P end; w_excl := X |}.
Proof.
  intros Hi0 Hv0 H. unfold fractal_session_acquire in H. revert H. cbv zeta.
  pose proof (sweep_shrinks (now v) FSQL_SESSION_SWEEP_SCAN_LIMIT r (i_wf _ Hi0)) as Hsh.
  pose proof (inv_shrinks _ _ _ _ Hi0 Hsh) as Hi. pose proof (env_ok_shrinks _ _ _ Hv0 Hsh) as Hv.
  revert Hi Hv. generalize (sweep_stale (now v) FSQL_SESSION_SWEEP_SCAN_LIMIT r). clear. intros r Hi Hv.
  pose proof (i_wf _ Hi) as Hw. cbn in Hw. rewrite find_entry_slot by done.
  destruct (match slot r id with Some e => busy e | None => false end) eqn:Eb; [by intros [= <- <-]|].
  destruct (find_or_create_entry_locked v id r) as [r2 [e|]] eqn:Ef;
    [|intros [= <- <-]; by apply (find_or_create_none v id r)].
  pose proof (find_or_create_wf _ _ _ _ _ Hw Ef) as Hw2.
  assert (Hbe : busy e = false).
  { pose proof (find_or_create_old _ _ _ _ _ Hw Ef) as Ho. destruct (slot r id); [|tauto].
    destruct Ho as [[? ?]|[? ?]]; congruence. }
  unfold ensure_ctx. destruct (e_ctx e) as [c|] eqn:Ec; [|destruct (new_sovereign v) as [c|] eqn:En].
  - intros [= <- <-]. eapply (find_or_create_inv v id r r2 e); try done; [by apply wf_with_entry| | | |].
    + intros S HS. by apply slots_with_entry.
    + intros i Hne. by rewrite held_other.
    + rewrite held_self. intros (H1 & H2 & H3 & H4 & H5). cbn in *. rewrite Hbe in *.
      repeat split; try done; cbn [length]; try lia. by constructor.
    + by left.
  - intros [= <- <-]. eapply (find_or_create_inv v id r r2 e); try done;
      [by apply wf_with_entry, wf_with_entry| | | |].
    + intros S HS. apply slots_with_entry; [done|]. by apply slots_with_entry.
    + intros i Hne. by rewrite held_other.
    + rewrite held_self. intros Hok. destruct (slot_ok_noctx _ _ _ Hok Ec) as [Hp Hx]. rewrite Hp, Hx in *.
      destruct Hok as (H1 & H2 & H3 & H4 & H5). cbn in *. rewrite Hbe in *.
      repeat split; try done; try lia. by constructor.
    + right. by rewrite En.
  - intros [= <- <-]. eapply (find_or_create_inv v id r r2 e _ (unref e)); try done; [by apply wf_with_entry| | |].
    + intros S HS. by apply slots_with_entry.
    + intros (H1 & H2 & H3 & H4 & H5). cbn in *. repeat split; try done. unfold dec.
      destruct (busy e); cbn in *; destruct (0 <? refcount e) eqn:E; lia.
    + by left.
Qed.

Lemma acquire_exclusive_inv v id r r' o b P X :
  inv {| w_reg := r; w_plain := P; w_excl := X |} -> env_ok v r ->
  fractal_session_acquire_exclusive v id r = (r', o, b) ->
  inv {| w_reg := r'; w_plain := P; w_excl := match o with Some c => (id, c) :: X | None => X end |}.
Proof.
  intros Hi0 Hv0 H. unfold fractal_session_acquire_exclusive in H. revert H. cbv zeta.
  pose proof (sweep_shrinks (now v) FSQL_SESSION_SWEEP_SCAN_LIMIT r (i_wf _ Hi0)) as Hsh.
  pose proof (inv_shrinks _ _ _ _ Hi0 Hsh) as Hi. pose proof (env_ok_shrinks _ _ _ Hv0 Hsh) as Hv.
  revert Hi Hv. generalize (sweep_stale (now v) FSQL_SESSION_SWEEP_SCAN_LIMIT r). clear. intros r Hi Hv.
  pose proof (i_wf _ Hi) as Hw. cbn in Hw. rewrite find_entry_slot by done.
  destruct (match slot r id with Some e => busy e | None => false end) eqn:Eb; [by intros [= <- <- <-]|].
  destruct (match slot r id with Some e => 0 <? shared e | None => false end) eqn:Es; [by intros [= <- <- <-]|].
  destruct (find_or_create_entry_locked v id r) as [r2 [e|]] eqn:Ef;
    [|intros [= <- <- <-]; by apply (find_or_create_none v id r)].
  pose proof (find_or_create_wf _ _ _ _ _ Hw Ef) as Hw2.
  assert (Hbe : busy e = false /\ shared e <= 0).
  { pose proof (find_or_create_old _ _ _ _ _ Hw Ef) as Ho. destruct (slot r id) as [e0|]; [|lia].
    destruct Ho as [[? ?]|[? ?]]; [|lia]. split; [congruence|lia]. }
  destruct Hbe as [Hbe Hse].
  unfold ensure_ctx. destruct (e_ctx e) as [c|] eqn:Ec; [|destruct (new_sovereign v) as [c|] eqn:En].
  - intros [= <- <- <-]. eapply (find_or_create_inv v id r r2 e); try done; [by apply wf_with_entry| | | |].
    + intros S HS. by apply slots_with_entry.
    + intros i Hne. by rewrite held_other.
    + rewrite held_self. intros (H1 & H2 & H3 & H4 & H5). cbn in *. rewrite Hbe in *.
      destruct (held id P); [|cbn in *; lia]. destruct (held id X); [|cbn in *; lia]. cbn in *.
      repeat split; try done; cbn [length]; try lia. by constructor.
    + by left.
  - intros [= <- <- <-]. eapply (find_or_create_inv v id r r2 e); try done;
      [by apply wf_with_entry, wf_with_entry| | | |].
    + intros S HS. apply slots_with_entry; [done|]. by apply slots_with_entry.
    + intros i Hne. by rewrite held_other.
    + rewrite held_self. intros Hok. destruct (slot_ok_noctx _ _ _ Hok Ec) as [Hp Hx]. rewrite Hp, Hx in *.
      destruct Hok as (H1 & H2 & H3 & H4 & H5). cbn in *. rewrite Hbe in *.
      repeat split; try done; try lia. by constructor.
    + right. by rewrite En.
  - intros [= <- <- <-]. eapply (find_or_create_inv v id r r2 e _
      (set_counts (dec (refcount e)) false (shared e) (set_counts (refcount e) true (shared e) e)));
      try done; [by apply wf_with_entry, wf_with_entry| | |].
    + intros S HS. apply (slots_with_entry id (fun e => set_counts (dec (refcount e)) false (shared e) e) _
        (set_counts (refcount e) true (shared e) e)); [done|].
      by apply (slots_with_entry id (fun e => set_counts (refcount e) true (shared e) e)).
    + intros (H1 & H2 & H3 & H4 & H5). cbn in *. rewrite Hbe in *. repeat split; try done. unfold dec.
      destruct (0 <? refcount e) eqn:E; cbn in *; lia.
    + by left.
Qed.

(** Releasing: the caller gives back one hold it has. *)
Lemma held_remove i id c (p1 p2 : list (Z * Z)) : i <> id -> held i (p1 ++ p2) = held i (p1 ++ (id, c) :: p2).
Proof. intros H. rewrite !held_app, held_cons. destruct (id =? i) eqn:E; [lia|done]. Qed.
Lemma held_remove_self id c (p1 p2 : list (Z * Z)) : length (held id (p1 ++ (id, c) :: p2)) = S (length (held id (p1 ++ p2))).
Proof. rewrite !held_app, held_cons, Z.eqb_refl, !length_app. cbn. lia. Qed.
Lemma held_remove_forall (Q : Z -> Prop) id c p1 p2 : Forall Q (held id (p1 ++ (id, c) :: p2)) -> Forall Q (held id (p1 ++ p2)).
Proof. rewrite !held_app, held_cons, Z.eqb_refl, !Forall_app. cbn. intros [? H]. inversion H; subst; auto. Qed.

Lemma entry_update_inv r P X P' X' id e f :
  inv {| w_reg := r; w_plain := P; w_excl := X |} -> (forall d, session_id (f d) = session_id d) ->
  (forall d, e_ctx (f d) = e_ctx d) -> slot r id = Some e ->
  (forall i, i <> id -> held i P' = held i P /\ held i X' = held i X) ->
  (slot_ok (Some e) (held id P) (held id X) -> slot_ok (Some (f e)) (held id P') (held id X')) ->
  inv {| w_reg := with_entry id f r; w_plain := P'; w_excl := X' |}.
Proof.
  intros Hi Hf Hc He Hh Ho. pose proof (i_wf _ Hi) as Hw. cbn in Hw.
  apply (inv_set r _ P X P' X' id (f e)); [done|by apply wf_with_entry|done| |done| |].
  - intros i. rewrite slot_with_entry by done. by rewrite He.
  - apply Ho. pose proof (i_slot _ Hi id) as H. cbn [w_reg w_plain w_excl] in H. by rewrite He in H.
  - intros c. rewrite Hc. eauto.
Qed.

Lemma release_inv r id c p1 p2 X :
  inv {| w_reg := r; w_plain := p1 ++ (id, c) :: p2; w_excl := X |} ->
  inv {| w_reg := fractal_session_release id r; w_plain := p1 ++ p2; w_excl := X |}.
Proof.
  intros Hi. unfold fractal_session_release. rewrite find_entry_slot by apply (i_wf _ Hi).
  pose proof (i_slot _ Hi id) as Hok. pose proof (held_remove_self id c p1 p2) as Hl. cbn [w_reg w_plain w_excl] in Hok.
  destruct (slot r id) as [e|] eqn:He; [|destruct Hok as [Hp _]; by rewrite Hp in Hl].
  eapply (entry_update_inv r (p1 ++ (id, c) :: p2) X); try done.
  - intros i Hne. split; [by apply held_remove|done].
  - intros (H1 & H2 & H3 & H4 & H5). cbn. rewrite Hl in H1. unfold dec. repeat split.
    + case_match; lia.
    + done.
    + repeat case_match; destruct (busy e); cbn in *; lia.
    + intros Hb. by rewrite (H4 Hb) in Hl.
    + apply Forall_app in H5 as [H5 H6]. apply Forall_app. split; [by apply (held_remove_forall _ _ c)|done].
Qed.
Lemma release_exclusive_inv r id c P x1 x2 :
  inv {| w_reg := r; w_plain := P; w_excl := x1 ++ (id, c) :: x2 |} ->
  inv {| w_reg := fractal_session_release_exclusive id r; w_plain := P; w_excl := x1 ++ x2 |}.
Proof.
  intros Hi. unfold fractal_session_release_exclusive. rewrite find_entry_slot by apply (i_wf _ Hi).
  pose proof (i_slot _ Hi id) as Hok. pose proof (held_remove_self id c x1 x2) as Hl. cbn [w_reg w_plain w_excl] in Hok.
  destruct (slot r id) as [e|] eqn:He; [|destruct Hok as [_ Hp]; by rewrite Hp in Hl].
  eapply (entry_update_inv r P (x1 ++ (id, c) :: x2)); try done.
  - intros i Hne. split; [done|by apply held_remove].
  - intros (H1 & H2 & H3 & H4 & H5). cbn. rewrite Hl in H2. unfold dec.
    destruct (busy e); [|cbn in H2; lia]. cbn in H2. rewrite (H4 eq_refl) in *. cbn in H1.
    destruct (held id (x1 ++ x2)) eqn:Ex; [|cbn in H2; lia]. repeat split; try done. cbn in *. case_match; lia.
Qed.
Lemma set_flag_inv f v id r P X :
  inv {| w_reg := r; w_plain := P; w_excl := X |} -> env_ok v r ->
  (forall d, session_id (f d) = session_id d) -> (forall d, e_ctx (f d) = e_ctx d) ->
  (forall d p x, slot_ok (Some d) p x -> slot_ok (Some (f d)) p x) ->
  inv {| w_reg := set_flag f v id r; w_plain := P; w_excl := X |}.
Proof.
  intros Hi Hv Hf1 Hf2 Hf3. pose proof (i_wf _ Hi) as Hw. cbn in Hw. unfold set_flag. rewrite find_entry_slot by done.
  destruct (slot r id) as [e|] eqn:He; [by apply (entry_update_inv r P X _ _ id e); auto|].
  destruct (find_or_create_entry_locked v id r) as [r2 [e|]] eqn:Ef; [|by apply (find_or_create_none v id r)].
  pose proof (find_or_create_wf _ _ _ _ _ Hw Ef) as Hw2.
  eapply (find_or_create_inv v id r r2 e _ (f (unref e))); try done; [by apply wf_with_entry, wf_with_entry| | |].
  - intros S HS. apply slots_with_entry; [done|]. by apply slots_with_entry.
  - intros (H1 & H2 & H3 & H4 & H5). apply Hf3. cbn in *. repeat split; try done. unfold dec.
    destruct (busy e); cbn in *; destruct (0 <? refcount e) eqn:E; lia.
  - left. by rewrite Hf2.
Qed.
Lemma close_shrinks id r : reg_wf r -> shrinks r (fractal_session_registry_close id r).
Proof.
  intros Hw. unfold fractal_session_registry_close. rewrite find_entry_slot by done.
  destruct (slot r id) as [e|] eqn:He; [|by apply shrinks_refl]. destruct (idle e) eqn:Hi; [|by apply shrinks_refl].
  apply shrinks_destroy; [done| |done]. by rewrite (slot_id _ _ _ He).
Qed.

(** ** Executions *)

(** One locked operation, by any connection, in any order. *)
Inductive step : world -> world -> Prop :=
  | S_acquire v id r P X r' o :
      env_ok v r -> fractal_session_acquire v id r = (r', o) ->
      step {| w_reg := r; w_plain := P; w_excl := X |}
           {| w_reg := r'; w_plain := match o with Some c => (id, c) :: P | None => P end; w_excl := X |}
  | S_acquire_exclusive v id r P X r' o b :
      env_ok v r -> fractal_session_acquire_exclusive v id r = (r', o, b) ->
      step {| w_reg := r; w_plain := P; w_excl := X |}
           {| w_reg := r'; w_plain := P; w_excl := match o with Some c => (id, c) :: X | None => X end |}
  | S_release id c r p1 p2 X :
      step {| w_reg := r; w_plain := p1 ++ (id, c) :: p2; w_excl := X |}
           {| w_reg := fractal_session_release id r; w_plain := p1 ++ p2; w_excl := X |}
  | S_release_exclusive id c r P x1 x2 :
      step {| w_reg := r; w_plain := P; w_excl := x1 ++ (id, c) :: x2 |}
           {| w_reg := fractal_session_release_exclusive id r; w_plain := P; w_excl := x1 ++ x2 |}
  | S_agent_partial v id on r P X :
      env_ok v r ->
      step {| w_reg := r; w_plain := P; w_excl := X |}
           {| w_reg := fractal_session_set_agent_partial v id on r; w_plain := P; w_excl := X |}
  | S_diversify v id on r P X :
      env_ok v r ->
      step {| w_reg := r; w_plain := P; w_excl := X |}
           {| w_reg := fractal_session_set_diversify_enabled v id on r; w_plain := P; w_excl := X |}
  | S_close id r P X :
      step {| w_reg := r; w_plain := P; w_excl := X |}
           {| w_reg := fractal_session_registry_close id r; w_plain := P; w_excl := X |}.

Definition world0 : world := {| w_reg := empty_registry; w_plain := []; w_excl := [] |}.
Definition reachable (w : world) : Prop := rtc step world0 w.

Lemma inv0 : inv world0.
Proof. split; cbn; [apply wf_empty| |done|done]. by intros id. Qed.
Lemma step_inv w w' : inv w -> step w w' -> inv w'.
Proof.
  intros Hi Hs. destruct Hs.
  - by apply (acquire_inv v id r).
  - by apply (acquire_exclusive_inv v id r r' o b).
  - by apply (release_inv r id c).
  - by apply (release_exclusive_inv r id c).
  - by apply set_flag_inv.
  - by apply set_flag_inv.
  - apply (inv_shrinks r); [done|]. apply close_shrinks, (i_wf _ Hi).
Qed.
Lemma reachable_inv w : reachable w -> inv w.
Proof.
  revert w. apply (rtc_ind_r (R := step) inv world0); [apply inv0|]. intros y z _ Hs Hi. by eapply step_inv.
Qed.

Lemma held_elem id c l : (id, c) ∈ l <-> c ∈ held id l.
Proof.
  unfold held. rewrite !list_elem_of_In, in_map_iff. split.
  - intros H. exists (id, c). split; [done|]. apply filter_In. split; [done|]. cbn. apply Z.eqb_refl.
  - intros ([i d] & <- & H). apply filter_In in H as [H E]. cbn in *. apply Z.eqb_eq in E as ->. done.
Qed.
Lemma holder_ctx w id c : inv w -> (id, c) ∈ w_plain w ++ w_excl w ->
  exists e, slot (w_reg w) id = Some e /\ e_ctx e = Some c.
Proof.
  intros Hi H. pose proof (i_slot _ Hi id) as Ho. rewrite elem_of_app, !held_elem, <- elem_of_app in H.
  destruct (slot (w_reg w) id) as [e|].
  - destruct Ho as (_ & _ & _ & _ & Hf). rewrite Forall_forall in Hf. eauto.
  - destruct Ho as [Hp Hx]. rewrite Hp, Hx in H. inversion H.
Qed.
Lemma excl_alone w id c x1 x2 : inv w -> w_excl w = x1 ++ (id, c) :: x2 ->
  held id (w_plain w) = [] /\ held id (x1 ++ x2) = [].
Proof.
  intros Hi He. pose proof (i_slot _ Hi id) as Ho. pose proof (held_remove_self id c x1 x2) as Hl.
  rewrite He in Ho. destruct (slot (w_reg w) id) as [e|].
  - destruct Ho as (H1 & H2 & H3 & H4 & _). destruct (busy e); [|cbn in H2; lia]. cbn in H2.
    split; [auto|]. destruct (held id (x1 ++ x2)); [done|cbn in *; lia].
  - destruct Ho as [_ Hx]. by rewrite Hx in Hl.
Qed.
Lemma sweep_busy w t n id : inv w ->
  let r := sweep_stale t n (w_reg w) in
  match find_entry r id with Some e => busy e | None => false end = negb (bool_decide (held id (w_excl w) = [])) /\
  match find_entry r id with Some e => 0 <? shared e | None => false end = negb (bool_decide (held id (w_plain w) = [])).
Proof.
  intros Hi r. destruct w as [r0 P X]. cbn [w_reg w_plain w_excl] in *.
  pose proof (inv_shrinks _ _ _ _ Hi (sweep_shrinks t n r0 (i_wf _ Hi))) as Hr. fold r in Hr.
  rewrite find_entry_slot by apply (i_wf _ Hr). pose proof (i_slot _ Hr id) as Ho. cbn [w_reg w_plain w_excl] in Ho.
  destruct (slot r id) as [e|]; [|destruct Ho as [-> ->]; done]. destruct Ho as (H1 & H2 & _).
  rewrite H1. destruct (held id X), (held id P), (busy e); cbn in *; split; try done; lia.
Qed.

(** *** The latch *)

Definition latch_ok (size : Z) (s : latch) : Prop :=
  length (g_locked_ids s) = Z.to_nat size /\ 0 <= g_locked_head s < size /\ 0 <= g_locked_n s <= size /\
  (g_locked_n s < size -> g_locked_head s = g_locked_n s).
(** The ids in the ring, newest first. *)
Definition recent (size : Z) (s : latch) : list Z :=
  let h := Z.to_nat (g_locked_head s) in
  rev (take h (g_locked_ids s)) ++ (if g_locked_n s =? size then rev (drop h (g_locked_ids s)) else []).

Lemma ring_locked_recent size s id : latch_ok size s -> ring_locked s id = true <-> id ∈ recent size s.
Proof.
  intros (Hl & Hh & Hn & Hlt). unfold ring_locked, recent. rewrite existsb_exists.
  assert (E : forall l : list Z, (exists x, In x l /\ (id =? x) = true) <-> id ∈ l).
  { intros l. rewrite list_elem_of_In. split; [intros (x & Hx & Hq); by apply Z.eqb_eq in Hq as ->|].
    intros H. exists id. split; [done|apply Z.eqb_refl]. }
  rewrite E. destruct (g_locked_n s =? size) eqn:En.
  - rewrite take_ge by lia. rewrite <- rev_app_distr. rewrite !list_elem_of_In, <- in_rev, <- !list_elem_of_In.
    rewrite (Permutation_app_comm (drop _ _)), take_drop. done.
  - rewrite app_nil_r, Hlt by lia. rewrite !list_elem_of_In, <- in_rev. done.
Qed.
Lemma insert_take_drop (l : list Z) h x : (h < length l)%nat ->
  <[h := x]> l = take h l ++ x :: drop (S h) l.
Proof. intros H. rewrite insert_take_drop by done. done. Qed.
Lemma ring_lock_ok size id s : 0 < size -> latch_ok size s ->
  latch_ok size (ring_lock size id s) /\
  recent size (ring_lock size id s) =
    if ring_locked s id then recent size s else take (Z.to_nat size) (id :: recent size s).
Proof.
  intros Hsz Hok. unfold ring_lock. destruct (ring_locked s id); [done|].
  destruct Hok as (Hl & Hh & Hn & Hlt). set (h := Z.to_nat (g_locked_head s)).
  set (ids := g_locked_ids s) in *.
  assert (Hhl : (h < length ids)%nat) by lia.
  assert (Hmod : (g_locked_head s + 1) mod size = if g_locked_head s + 1 =? size then 0 else g_locked_head s + 1).
  { destruct (_ =? _) eqn:E; [|apply Z.mod_small; lia]. apply Z.eqb_eq in E. rewrite E. apply Z_mod_same_full. }
  split.
  - split; cbn; [by rewrite length_insert|]. rewrite Hmod.
    destruct (g_locked_n s <? size) eqn:E1, (g_locked_head s + 1 =? size) eqn:E2; repeat split; try lia.
  - unfold recent. cbn [g_locked_head g_locked_ids g_locked_n]. fold h. fold ids. rewrite Hmod.
    assert (Hins : take (S h) (<[h := id]> ids) = take h ids ++ [id]).
    { rewrite insert_take_drop by done. rewrite firstn_app, length_take, Nat.min_l by lia.
      rewrite take_take, Nat.min_r by lia. replace (S h - h)%nat with 1%nat by lia. done. }
    assert (Hdr : drop (S h) (<[h := id]> ids) = drop (S h) ids).
    { rewrite insert_take_drop, skipn_app, length_take, Nat.min_l by lia.
      rewrite (drop_ge (take h ids)) by (rewrite length_take; lia).
      replace (S h - h)%nat with 1%nat by lia. done. }
    assert (Hall : S h = length ids -> <[h := id]> ids = take h ids ++ [id]).
    { intros Hq. rewrite <- Hins. rewrite take_ge; [done|]. rewrite length_insert. lia. }
    destruct (g_locked_head s + 1 =? size) eqn:E2.
    + change (Z.to_nat 0) with 0%nat. rewrite take_0, drop_0. cbn [rev app].
      assert (((if g_locked_n s <? size then g_locked_n s + 1 else g_locked_n s) =? size) = true) as ->
        by (destruct (g_locked_n s <? size) eqn:E; lia).
      rewrite Hall by lia. rewrite rev_app_distr. cbn [rev app].
      replace (Z.to_nat size) with (S h) by lia. cbn [firstn]. f_equal.
      rewrite firstn_app, length_rev, length_take, Nat.min_l by lia.
      rewrite Nat.sub_diag, take_0, app_nil_r, (take_ge (rev (take h ids))); [done|]. rewrite length_rev, length_take. lia.
    + replace (Z.to_nat (g_locked_head s + 1)) with (S h) by lia. rewrite Hins, Hdr, rev_app_distr. cbn [rev app].
      destruct (g_locked_n s <? size) eqn:E1.
      * assert ((g_locked_n s + 1 =? size) = false) as -> by lia. assert ((g_locked_n s =? size) = false) as -> by lia.
        rewrite !app_nil_r. rewrite (take_ge (id :: rev (take h ids))); [done|]. cbn [length]. rewrite length_rev, length_take. lia.
      * assert ((g_locked_n s =? size) = true) as -> by lia.
        destruct (drop h ids) as [|x k] eqn:Ed.
        { apply (f_equal length) in Ed. rewrite length_drop in Ed. cbn in Ed. lia. }
        assert (Ek : drop (S h) ids = k).
        { replace (S h) with (h + 1)%nat by lia. rewrite <- drop_drop, Ed. done. }
        rewrite Ek. cbn [rev]. rewrite app_assoc.
        assert (Hlen : length (id :: rev (take h ids) ++ rev k) = Z.to_nat size).
        { cbn [length]. rewrite length_app, !length_rev, length_take, <- Ek, length_drop. lia. }
        change (id :: (rev (take h ids) ++ rev k) ++ [x]) with ((id :: rev (take h ids) ++ rev k) ++ [x]).
        rewrite take_app_le by lia. rewrite (take_ge (id :: rev (take h ids) ++ rev k)) by lia. done.
Qed.

Lemma latch_init_ok size : 0 < size -> latch_ok size (latch_init size) /\ recent size (latch_init size) = [].
Proof.
  intros H. split; [split; cbn; [apply length_replicate|lia]|]. unfold recent, latch_init.
  cbn [g_locked_n g_locked_head g_locked_ids]. replace (0 =? size) with false by lia.
  change (Z.to_nat 0) with 0%nat. by rewrite take_0.
Qed.
(** The specification of a bounded latch: the newest [size] distinct ids. *)
Definition latch_spec (size : Z) (l : list Z) (id : Z) : list Z :=
  if bool_decide (id ∈ l) then l else take (Z.to_nat size) (id :: l).
Lemma latch_refines size ids : 0 < size ->
  let s := fold_left (fun s i => ring_lock size i s) ids (latch_init size) in
  latch_ok size s /\ recent size s = fold_left (latch_spec size) ids [].
Proof.
  intros Hsz. cbv zeta. destruct (latch_init_ok size Hsz) as [H0 E0]. rewrite <- E0.
  generalize (latch_init size), H0. clear. intros s Hs. revert s Hs.
  induction ids as [|i ids IH]; intros s Hs; [done|]. cbn [fold_left].
  destruct (ring_lock_ok size i s) as [H1 H2]; [destruct Hs as (_ & ? & _); lia|done|].
  destruct (IH _ H1) as [H3 H4]. split; [done|]. rewrite H4, H2. f_equal. unfold latch_spec.
  pose proof (ring_locked_recent size s i Hs) as Hiff. destruct (ring_locked s i).
  - rewrite bool_decide_eq_true_2; [done|]. by apply Hiff.
  - rewrite bool_decide_eq_false_2; [done|]. intros H. by apply Hiff in H.
Qed.
Lemma latch_spec_keeps size id more : forall p q, (length p + length more < Z.to_nat size)%nat ->
  (length (p ++ id :: q) <= Z.to_nat size)%nat ->
  id ∈ fold_left (latch_spec size) more (p ++ id :: q).
Proof.
  induction more as [|i more IH]; intros p q Hp Hl; cbn [fold_left]; [rewrite elem_of_app, elem_of_cons; auto|].
  cbn [length] in Hp. unfold latch_spec at 2. destruct (bool_decide _); [apply IH; [lia|done]|].
  assert (Hsz : (S (length p) < Z.to_nat size)%nat) by lia. 
  change (i :: p ++ id :: q) with ((i :: p) ++ id :: q). rewrite firstn_app. cbn [length].
  rewrite (take_ge (i :: p)) by (cbn [length]; lia).
  replace (Z.to_nat size - S (length p))%nat with (S (Z.to_nat size - S (S (length p)))) by lia.
  cbn [firstn]. apply IH; cbn [length]; [lia|]. rewrite length_app. cbn [length]. rewrite length_take. lia.
Qed.

(** ** Properties *)

(** C6: in every interleaving of the registry's operations, a caller that holds
    a session exclusively is its only holder: no plain and no other exclusive
    hold of the same core context exists, and the context has not been freed. *)
Theorem exclusive_holder_alone w id c x1 x2 :
  reachable w -> w_excl w = x1 ++ (id, c) :: x2 ->
  (c ∉ map snd (w_plain w)) /\ (c ∉ map snd (x1 ++ x2)) /\ (c ∉ r_freed (w_reg w)).
Proof.
  intros Hr He. pose proof (reachable_inv _ Hr) as Hi. destruct (excl_alone _ _ _ _ _ Hi He) as [Hp Hx].
  destruct (holder_ctx w id c Hi) as (e & Hs & Hc).
  { rewrite He, !elem_of_app, elem_of_cons. auto. }
  assert (Hother : forall i, (i, c) ∈ w_plain w ++ w_excl w -> i = id).
  { intros i H. destruct (holder_ctx w i c Hi H) as (d & Hd & Hdc). by apply (i_dist _ Hi i id d e c). }
  repeat split.
  - rewrite list_elem_of_fmap. intros ([i d] & Hd & H). cbn in Hd. subst d.
    assert (i = id) as -> by (apply Hother; rewrite elem_of_app; auto).
    apply held_elem in H. rewrite Hp in H. inversion H.
  - rewrite list_elem_of_fmap. intros ([i d] & Hd & H). cbn in Hd. subst d.
    assert (i = id) as ->.
    { apply Hother. rewrite He, !elem_of_app, elem_of_cons. rewrite elem_of_app in H. tauto. }
    apply held_elem in H. rewrite Hx in H. inversion H.
  - by apply (i_live _ Hi id e).
Qed.

Definition demo_env (c : Z) : env := {| now := 0; calloc_ok := true; new_sovereign := Some c |}.
Definition demo_world : world :=
  let '(r, o, _) := fractal_session_acquire_exclusive (demo_env 900) 7 empty_registry in
  {| w_reg := r; w_plain := []; w_excl := [(7, 900)] |}.
Lemma demo_reachable : reachable demo_world.
Proof.
  apply rtc_once, (S_acquire_exclusive (demo_env 900) 7 empty_registry [] [] _ (Some 900) false); [|vm_compute; reflexivity].
  intros c _. split; [intros H; inversion H|intros id e H; inversion H].
Qed.
Lemma exclusive_holder_alone_witness :
  reachable demo_world /\ 900 ∉ r_freed (w_reg demo_world).
Proof.
  split; [apply demo_reachable|].
  apply (exclusive_holder_alone demo_world 7 900 [] [] demo_reachable). reflexivity.
Defined.

(** C7: no context is freed while a caller holds it, whatever the sweep, the
    eviction at the cap and the close do meanwhile; and the table keeps the id
    the caller acquired bound to that same context. *)
Theorem held_context_live w id c :
  reachable w -> (id, c) ∈ w_plain w ++ w_excl w ->
  (c ∉ r_freed (w_reg w)) /\ exists e, find_entry (w_reg w) id = Some e /\ e_ctx e = Some c.
Proof.
  intros Hr H. pose proof (reachable_inv _ Hr) as Hi. destruct (holder_ctx w id c Hi H) as (e & Hs & Hc).
  split; [by apply (i_live _ Hi id e)|]. exists e. by rewrite find_entry_slot by apply (i_wf _ Hi).
Qed.
Lemma held_context_live_witness :
  reachable demo_world /\ exists e, find_entry (w_reg demo_world) 7 = Some e /\ e_ctx e = Some 900.
Proof.
  split; [apply demo_reachable|].
  apply (held_context_live demo_world 7 900 demo_reachable). left.
Defined.

(** The verdict of an acquire is about the holders: the exclusive acquire
    reports busy exactly when some caller holds the session, and the plain one
    is refused while one holds it exclusively. *)
Theorem acquire_verdict w v id :
  reachable w ->
  (snd (fractal_session_acquire_exclusive v id (w_reg w)) = true <->
    held id (w_excl w) <> [] \/ held id (w_plain w) <> []) /\
    (held id (w_excl w) <> [] -> snd (fractal_session_acquire v id (w_reg w)) = None).
Proof.
  intros Hr. pose proof (reachable_inv _ Hr) as Hi.
  destruct (sweep_busy w (now v) FSQL_SESSION_SWEEP_SCAN_LIMIT id Hi) as [Hb Hs].
  unfold fractal_session_acquire_exclusive, fractal_session_acquire. cbv zeta. rewrite Hb, Hs.
  split; [|intros H; by rewrite (bool_decide_eq_false_2 _ H)].
  destruct (decide (held id (w_excl w) = [])) as [E|E].
  - rewrite (bool_decide_eq_true_2 _ E). destruct (decide (held id (w_plain w) = [])) as [E'|E'].
    + rewrite (bool_decide_eq_true_2 _ E'). cbn [negb].
      destruct (find_or_create_entry_locked _ _ _) as [r2 [e|]]; [|cbn [snd]; split; [done|tauto]].
      destruct (ensure_ctx _ _ _ _) as [r3 [c|]]; cbn [snd]; (split; [done|tauto]).
    + rewrite (bool_decide_eq_false_2 _ E'). cbn [negb snd]. tauto.
  - rewrite (bool_decide_eq_false_2 _ E). cbn [negb snd]. tauto.
Qed.
Lemma acquire_verdict_witness :
  snd (fractal_session_acquire_exclusive (demo_env 901) 7 (w_reg demo_world)) = true.
Proof. apply (proj1 (acquire_verdict demo_world (demo_env 901) 7 demo_reachable)). left. vm_compute. discriminate. Defined.

(** The table stays well formed: ids are distinct, each id sits in exactly
    the chain of its bucket, the count is the number of entries and never
    exceeds the cap. *)
Theorem registry_well_formed w : reachable w -> reg_wf (w_reg w).
Proof. intros H. apply (i_wf _ (reachable_inv _ H)). Qed.
Lemma registry_well_formed_witness : reg_wf (w_reg demo_world).
Proof. exact (registry_well_formed demo_world demo_reachable). Defined.

(** The destructive-operation latch of a session holds once set, until at
    least 16384 further latch calls have been made. *)
Theorem destructive_latch_holds before id more :
  let lock := fun s i => fractal_session_lock_destructive i s in
  let s := fold_left lock before (latch_init FSQL_LOCKED_RING) in
  fractal_session_destructive_locked s id = false -> Z.of_nat (length more) < FSQL_LOCKED_RING ->
  fractal_session_destructive_locked (fold_left lock (id :: more) s) id = true.
Proof.
  intros lock s Hno Hm. assert (Hsz : 0 < FSQL_LOCKED_RING) by (unfold FSQL_LOCKED_RING; lia).
  unfold s. rewrite <- fold_left_app.
  destruct (latch_refines FSQL_LOCKED_RING (before ++ id :: more) Hsz) as [H1 H2].
  apply (ring_locked_recent FSQL_LOCKED_RING); [exact H1|]. unfold lock, fractal_session_lock_destructive.
  rewrite H2, fold_left_app. cbn [fold_left].
  destruct (latch_refines FSQL_LOCKED_RING before Hsz) as [H3 H4].
  unfold s, lock, fractal_session_lock_destructive, fractal_session_destructive_locked in Hno.
  rewrite <- H4. unfold latch_spec at 2. rewrite bool_decide_eq_false_2.
  - assert (E : Z.to_nat FSQL_LOCKED_RING = S (Z.to_nat 16383)) by (unfold FSQL_LOCKED_RING; lia).
    rewrite E. cbn [firstn]. apply (latch_spec_keeps _ _ _ []); [cbn [length]; lia|].
    cbn [app length]. rewrite length_take. lia.
  - intros Hin. apply (ring_locked_recent FSQL_LOCKED_RING) in Hin; [congruence|exact H3].
Qed.
Lemma destructive_latch_holds_witness :
  fractal_session_destructive_locked
    (fold_left (fun s i => fractal_session_lock_destructive i s) [5; 6; 5] (latch_init FSQL_LOCKED_RING)) 5 = true.
Proof. apply (destructive_latch_holds [] 5 [6; 5]); [vm_compute; reflexivity|reflexivity]. Defined.

Inductive tier_op := T_acquire (new : option Z) (t : fsql_tier) | T_mark (t : fsql_tier) | T_forget (t : fsql_tier).
Definition tier_run (s : tiers) (o : tier_op) : tiers :=
  match o with
  | T_acquire new t => fst (tier_acquire new t s)
  | T_mark t => tier_mark_loaded t s
  | T_forget t => tier_forget_loaded t s
  end.
(** What the last mark or forget of the tier said. *)
Definition last_mark (t : fsql_tier) (b : bool) (o : tier_op) : bool :=
  match o with
  | T_mark t' => if decide (t' = t) then true else b
  | T_forget t' => if decide (t' = t) then false else b
  | T_acquire _ _ => b
  end.

(** A tier's context is created once: whatever is acquired, marked or
    forgotten on any tier afterwards, the next acquire returns that context,
    with the loaded flag of the tier's own last mark or forget. *)
Theorem tier_singleton s t c ops new :
  g_tier_ctx s t = Some c ->
  snd (tier_acquire new t (fold_left tier_run ops s)) =
  Some (c, fold_left (last_mark t) ops (g_tier_loaded s t)).
Proof.
  revert s. induction ops as [|o ops IH]; intros s Hc; cbn [fold_left].
  - unfold tier_acquire. by rewrite Hc.
  - assert (H : g_tier_ctx (tier_run s o) t = Some c /\ g_tier_loaded (tier_run s o) t = last_mark t (g_tier_loaded s t) o).
    { destruct o as [n t'|t'|t']; cbn; unfold upd_tier.
      - unfold tier_acquire. destruct (g_tier_ctx s t') eqn:E; [done|]. destruct n; [|done]. cbn. unfold upd_tier.
        destruct (decide (t = t')) as [->|]; [congruence|done].
      - split; [done|]. repeat destruct (decide _); congruence.
      - split; [done|]. repeat destruct (decide _); congruence. }
    destruct H as [H1 H2]. rewrite IH by done. by rewrite H2.
Qed.
Definition demo_tiers : tiers :=
  {| g_tier_ctx := upd_tier FSQL_TIER_T2S (Some 4) (fun _ => None); g_tier_loaded := fun _ => false |}.
Lemma tier_singleton_witness :
  snd (tier_acquire (Some 9) FSQL_TIER_T2S
    (fold_left tier_run [T_mark FSQL_TIER_T2S; T_forget FSQL_TIER_EMBED] demo_tiers)) = Some (4, true).
Proof. apply (tier_singleton demo_tiers FSQL_TIER_T2S 4). reflexivity. Defined.
