(* ===== verification/DaemonConf.v ===== *)
(** * The daemon's configuration (service/daemon/fractalsqld.c)

    Reading fractalsqld.conf line by line, the HMAC key file, the provider
    checks, and the refcounted snapshots RELOAD swaps.  The POSIX branches.
    The fixed string, boolean and integer fields of struct fsq_config are maps
    from the key's name: an absent name is the zeroed field. *)

From stdpp Require Import gmap.
From S2P Require Import Prelude Config.

Definition FSQ_MAX_ALLOWED_UIDS : nat := 16.
Definition FSQ_DEFAULT_MAX_CONNECTIONS : Z := 64.
Definition FSQ_MAX_CONNECTIONS_LIMIT : Z := 1024.
Definition FSQ_DEFAULT_IDLE_TIMEOUT_SECS : Z := 300.
Definition SUN_PATH_SIZE : Z := 108.

(** ** The parsed configuration *)

Record fsq_config := {
  c_str : gmap (list Z) (list Z);
  c_bool : gmap (list Z) bool;
  c_long : gmap (list Z) Z;
  allowed_uids : list Z;
  key_bytes : list Z;
  max_connections : Z;
  idle_timeout_secs : Z;
  prov_present : Z;
}.

Definition config0 : fsq_config :=
  {| c_str := ∅; c_bool := ∅; c_long := ∅; allowed_uids := []; key_bytes := [];
     max_connections := FSQ_DEFAULT_MAX_CONNECTIONS; idle_timeout_secs := FSQ_DEFAULT_IDLE_TIMEOUT_SECS;
     prov_present := 0 |}.

Definition str_of (c : fsq_config) (k : list Z) : list Z := default [] (c_str c !! k).

(** What a key of the file is: a string field with its size and its presence
    bit, a boolean, an integer, or one of the daemon's own. *)
Inductive conf_key :=
  | K_str (size : Z) (bit : Z) | K_bool (bit : Z) | K_long (bit : Z)
  | K_max_connections | K_idle_timeout | K_allowed_uids.

Definition prov_bit (n : Z) : Z := Z.shiftl 1 n.
Definition conf_keys : list (list Z * conf_key) := [
  (bs "socket_path", K_str 256 0);
  (bs "hmac_key_file", K_str 512 0);
  (bs "log_file", K_str 512 0);
  (bs "max_connections", K_max_connections);
  (bs "idle_timeout_secs", K_idle_timeout);
  (bs "allowed_uids", K_allowed_uids);
  (bs "reasoning_plugin", K_str 512 (prov_bit 0));
  (bs "reasoning_url", K_str 512 (prov_bit 1));
  (bs "reasoning_token", K_str 1024 (prov_bit 2));
  (bs "reasoning_model", K_str 128 (prov_bit 3));
  (bs "reasoning_allow_plaintext", K_bool (prov_bit 4));
  (bs "embed_url", K_str 512 (prov_bit 5));
  (bs "embed_model", K_str 128 (prov_bit 6));
  (bs "think", K_str 64 (prov_bit 7));
  (bs "think_provider", K_str 64 (prov_bit 8));
  (bs "think_native_url", K_str 512 (prov_bit 9));
  (bs "think_num_ctx", K_long (prov_bit 10));
  (bs "t2s_max_attempts", K_long (prov_bit 11));
  (bs "t2s_allowed_statements", K_str 32 (prov_bit 12));
  (bs "t2s_use_review", K_bool (prov_bit 13));
  (bs "enterprise_lib", K_str 512 (prov_bit 14));
  (bs "enterprise_ledger_path", K_str 1024 (prov_bit 15));
  (bs "enterprise_ledger_key", K_str 1024 (prov_bit 16));
  (bs "enterprise_require_signature", K_bool (prov_bit 17)) ].

(** ** The key file *)

Definition hex_nibble (c : Z) : Z :=
  if (48 <=? c) && (c <=? 57) then c - 48
  else if (97 <=? c) && (c <=? 102) then c - 97 + 10
  else if (65 <=? c) && (c <=? 70) then c - 65 + 10
  else -1.
Definition key_space (c : Z) : bool := (c =? 10) || (c =? 13) || (c =? 32) || (c =? 9).

(** The decoding loop: [hi] is the pending high nibble, -1 for none. *)
Fixpoint key_decode (hi : Z) (buf acc : list Z) : option (list Z) :=
  match buf with
  | [] => Some acc
  | c :: r =>
      let v := hex_nibble c in
      if v <? 0 then None
      else if hi <? 0 then key_decode v r acc
      else key_decode (-1) r (acc ++ [u8 (Z.lor (Z.shiftl hi 4) v)])
  end.
(** [content] is [None] when the file cannot be opened. *)
Definition load_key (content : option (list Z)) : option (list Z) :=
  match content with
  | None => None
  | Some l =>
      let buf := take 256 (List.filter (fun c => negb (key_space c)) l) in
      let n := Z.of_nat (length buf) in
      if (n =? 0) || negb (n mod 2 =? 0) || (64 <? n / 2) then None else key_decode (-1) buf []
  end.

(** ** The file *)

(** [fgets(line, sizeof line, f)]: at most [room] bytes, up to a newline. *)
Fixpoint fgets (room : nat) (l : list Z) : list Z * list Z :=
  match room, l with
  | S n, c :: r => if c =? 10 then ([c], r) else let '(a, b) := fgets n r in (c :: a, b)
  | _, _ => ([], l)
  end.
Fixpoint conf_lines (fuel : nat) (l : list Z) : list (list Z) :=
  match fuel, l with
  | S n, _ :: _ => let '(a, b) := fgets 1023 l in a :: conf_lines n b
  | _, _ => []
  end.

Fixpoint split_eq (l : list Z) : option (list Z * list Z) :=
  match l with
  | [] => None
  | c :: r => if c =? 61 then Some ([], r)
              else match split_eq r with Some (a, b) => Some (c :: a, b) | None => None end
  end.
Fixpoint drop_while (f : Z -> bool) (l : list Z) : list Z :=
  match l with c :: r => if f c then drop_while f r else l | [] => [] end.
Definition rtrim (f : Z -> bool) (l : list Z) : list Z := rev (drop_while f (rev l)).
Definition is_blank_tab (c : Z) : bool := (c =? 32) || (c =? 9).
Definition is_eol_blank (c : Z) : bool := (c =? 10) || (c =? 13) || (c =? 32).

(** The key and the value of a line; [None] for a comment or a line without =. *)
Definition conf_pair (line : list Z) : option (list Z * list Z) :=
  let line := cstr line in
  match split_eq line with
  | None => None
  | Some (k, v) =>
      if match line with c :: _ => c =? 35 | [] => false end then None
      else Some (rtrim is_blank_tab (drop_while is_blank_tab k), rtrim is_eol_blank (drop_while is_blank_tab v))
  end.

Definition lower (c : Z) : Z := if (65 <=? c) && (c <=? 90) then c - 65 + 97 else c.
Fixpoint cfg_word_is (v word : list Z) : bool :=
  match v, word with
  | [], [] => true
  | c :: v', w :: word' => (lower c =? w) && cfg_word_is v' word'
  | _, _ => false
  end.
Definition cfg_bool_true (v : list Z) : bool :=
  if bytes_eqb v [] || bytes_eqb v (bs "0") then false
  else negb (cfg_word_is v (bs "false") || cfg_word_is v (bs "off") || cfg_word_is v (bs "no")).

(** [(uid_t) strtoul(tok, NULL, 10)]. *)
Definition strtoul (l : list Z) : Z :=
  let '(neg, t) := sign_of (strip_space l) in
  match t with
  | c :: _ =>
      if isdigit c then
        let v := fst (digits_val 0 t) in
        if 2 ^ 64 - 1 <? v then 2 ^ 64 - 1 else if neg then u64 (- v) else v
      else 0
  | [] => 0
  end.
(** The tokens of strtok_r(v, ","): the nonempty pieces. *)
Fixpoint split_comma (l : list Z) : list (list Z) :=
  match l with
  | [] => [[]]
  | c :: r => if c =? 44 then [] :: split_comma r
              else match split_comma r with w :: ws => (c :: w) :: ws | [] => [[c]] end
  end.
Definition tokens (l : list Z) : list (list Z) := List.filter (fun w => negb (bytes_eqb w [])) (split_comma l).

Definition with_str (k v : list Z) (bit : Z) (c : fsq_config) : fsq_config :=
  {| c_str := <[k := v]> (c_str c); c_bool := c_bool c; c_long := c_long c; allowed_uids := allowed_uids c;
     key_bytes := key_bytes c; max_connections := max_connections c; idle_timeout_secs := idle_timeout_secs c;
     prov_present := Z.lor (prov_present c) bit |}.
Definition with_bool (k : list Z) (b : bool) (bit : Z) (c : fsq_config) : fsq_config :=
  {| c_str := c_str c; c_bool := <[k := b]> (c_bool c); c_long := c_long c; allowed_uids := allowed_uids c;
     key_bytes := key_bytes c; max_connections := max_connections c; idle_timeout_secs := idle_timeout_secs c;
     prov_present := Z.lor (prov_present c) bit |}.
Definition with_long (k : list Z) (n : Z) (bit : Z) (c : fsq_config) : fsq_config :=
  {| c_str := c_str c; c_bool := c_bool c; c_long := <[k := n]> (c_long c); allowed_uids := allowed_uids c;
     key_bytes := key_bytes c; max_connections := max_connections c; idle_timeout_secs := idle_timeout_secs c;
     prov_present := Z.lor (prov_present c) bit |}.
Definition with_limits (maxc idle : Z) (uids key : list Z) (c : fsq_config) : fsq_config :=
  {| c_str := c_str c; c_bool := c_bool c; c_long := c_long c; allowed_uids := uids;
     key_bytes := key; max_connections := maxc; idle_timeout_secs := idle; prov_present := prov_present c |}.

(** The strtok loop over allowed_uids. *)
Fixpoint add_uids (ts : list (list Z)) (uids : list Z) : option (list Z) :=
  match ts with
  | [] => Some uids
  | t :: r => if (FSQ_MAX_ALLOWED_UIDS <=? length uids)%nat then None else add_uids r (uids ++ [u32 (strtoul t)])
  end.

(** One line of the file; [None] is the return -1. *)
Definition conf_line (c : fsq_config) (line : list Z) : option fsq_config :=
  match conf_pair line with
  | None => Some c
  | Some (k, v) =>
      match List.find (fun kt => bytes_eqb (fst kt) k) conf_keys with
      | None => Some c
      | Some (_, K_str size bit) => if size <=? Z.of_nat (length v) then None else Some (with_str k v bit c)
      | Some (_, K_bool bit) => Some (with_bool k (cfg_bool_true v) bit c)
      | Some (_, K_long bit) =>
          let '(n, e) := strtol v in
          let n := if bytes_eqb e v || negb (bytes_eqb e []) then -1 else n in
          Some (with_long k n bit c)
      | Some (_, K_max_connections) =>
          Some (with_limits (s32 (fst (strtol v))) (idle_timeout_secs c) (allowed_uids c) (key_bytes c) c)
      | Some (_, K_idle_timeout) =>
          Some (with_limits (max_connections c) (s32 (fst (strtol v))) (allowed_uids c) (key_bytes c) c)
      | Some (_, K_allowed_uids) =>
          match add_uids (tokens v) (allowed_uids c) with
          | None => None
          | Some us => Some (with_limits (max_connections c) (idle_timeout_secs c) us (key_bytes c) c)
          end
      end
  end.
Fixpoint conf_loop (c : fsq_config) (ls : list (list Z)) : option fsq_config :=
  match ls with
  | [] => Some c
  | l :: r => match conf_line c l with Some c => conf_loop c r | None => None end
  end.

(** [files] is what fopen can read; [euid] is geteuid(). *)
Definition load_config (files : list Z -> option (list Z)) (euid : Z) (path : list Z) : option fsq_config :=
  match files path with
  | None => None
  | Some content =>
      match conf_loop config0 (conf_lines (length content) content) with
      | None => None
      | Some c =>
          if bytes_eqb (str_of c (bs "socket_path")) [] || bytes_eqb (str_of c (bs "hmac_key_file")) [] then None
          else if SUN_PATH_SIZE <=? Z.of_nat (length (str_of c (bs "socket_path"))) then None
          else
            let uids := match allowed_uids c with [] => [euid] | us => us end in
            if (max_connections c <=? 0) || (FSQ_MAX_CONNECTIONS_LIMIT <? max_connections c) then None
            else if idle_timeout_secs c <=? 0 then None
            else match load_key (files (str_of c (bs "hmac_key_file"))) with
                 | None => None
                 | Some key => Some (with_limits (max_connections c) (idle_timeout_secs c) uids key c)
                 end
      end
  end.

(** ** The provider checks *)

Definition has_bit (p bit : Z) : bool := negb (Z.land p bit =? 0).
Definition str_keys : list (list Z * Z) :=
  [ (bs "reasoning_plugin", prov_bit 0); (bs "reasoning_url", prov_bit 1); (bs "reasoning_token", prov_bit 2);
    (bs "reasoning_model", prov_bit 3); (bs "embed_url", prov_bit 5); (bs "embed_model", prov_bit 6);
    (bs "think", prov_bit 7); (bs "think_provider", prov_bit 8); (bs "think_native_url", prov_bit 9);
    (bs "t2s_allowed_statements", prov_bit 12); (bs "enterprise_lib", prov_bit 14);
    (bs "enterprise_ledger_path", prov_bit 15); (bs "enterprise_ledger_key", prov_bit 16) ].
Definition path_keys : list (list Z * Z) :=
  [ (bs "reasoning_plugin", prov_bit 0); (bs "enterprise_lib", prov_bit 14); (bs "enterprise_ledger_path", prov_bit 15) ].

(** [true] is the return 0. *)
Definition validate_provider_cfg (c : fsq_config) : bool :=
  let p := prov_present c in
  if existsb (fun kb => has_bit p (snd kb) && bytes_eqb (str_of c (fst kb)) []) str_keys then false
  else if existsb (fun kb => has_bit p (snd kb) &&
      match fractal_config_validate_path (Some (str_of c (fst kb))) with Some _ => true | None => false end) path_keys then false
  else
    let n := default 0 (c_long c !! bs "think_num_ctx") in
    let t := default 0 (c_long c !! bs "t2s_max_attempts") in
    let a := str_of c (bs "t2s_allowed_statements") in
    if has_bit p (prov_bit 10) && ((n <? 1) || (10000000 <? n)) then false
    else if has_bit p (prov_bit 11) && ((t <? 1) || (10 <? t)) then false
    else if has_bit p (prov_bit 12) && negb (bytes_eqb a (bs "select")) && negb (bytes_eqb a (bs "select_insert_update")) then false
    else true.

(** The POSIX permission checks: [stat] is the mode of a file it can stat. *)
Definition validate_cfg (stat : list Z -> option Z) (g_config_path : option (list Z)) (c : fsq_config) : bool :=
  let world p := match stat p with Some m => negb (Z.land m 7 =? 0) | None => false end in
  if match g_config_path with Some p => world p | None => false end then false
  else if world (str_of c (bs "hmac_key_file")) then false else true.

(** ** Snapshots *)

(** The allocated snapshots, each with its configuration and its reference
    count, and the published one. *)
Record snap_heap := { snaps : gmap positive (fsq_config * Z); g_snap : option positive }.
Definition heap0 : snap_heap := {| snaps := ∅; g_snap := None |}.

(** [None]: a NULL or dangling dereference. *)
Definition cfg_acquire (s : snap_heap) : option (snap_heap * positive) :=
  match g_snap s with
  | None => None
  | Some p => match snaps s !! p with
      | Some (c, r) => Some ({| snaps := <[p := (c, r + 1)]> (snaps s); g_snap := g_snap s |}, p)
      | None => None end
  end.
Definition cfg_release (p : positive) (s : snap_heap) : option snap_heap :=
  match snaps s !! p with
  | None => None
  | Some (c, r) =>
      let s1 := {| snaps := <[p := (c, r - 1)]> (snaps s); g_snap := g_snap s |} in
      if 0 <? r - 1 then Some s1
      else let live := bool_decide (g_snap s = Some p) in
           if live then Some s1 else Some {| snaps := delete p (snaps s); g_snap := g_snap s |}
  end.
(** [q] is the address malloc returned, [None] when it failed. *)
Definition cfg_publish (q : option positive) (c : fsq_config) (s : snap_heap) : snap_heap * bool :=
  match q with
  | None => (s, false)
  | Some q =>
      let s1 := {| snaps := <[q := (c, 0)]> (snaps s); g_snap := Some q |} in
      match g_snap s with
      | Some old => match snaps s !! old with
          | Some (_, r) => if r =? 0 then ({| snaps := delete old (snaps s1); g_snap := Some q |}, true) else (s1, true)
          | None => (s1, true) end
      | None => (s1, true)
      end
  end.

(** ** Admission (run_listener) *)

(** One accept: whether the connection is over the limit, and the count. *)
Definition accept_conn (max_conns conns : Z) : bool * Z :=
  if max_conns <=? conns then (true, conns) else (false, conns + 1).
Definition conn_released (conns : Z) : Z := conns - 1.

(** ** Lemmas: parsing *)

(** Every string field fits its buffer; the lists fit theirs. *)
Definition fits (c : fsq_config) : Prop :=
  (forall name size bit, In (name, K_str size bit) conf_keys -> Z.of_nat (length (str_of c name)) < size) /\
  (length (allowed_uids c) <= FSQ_MAX_ALLOWED_UIDS)%nat /\ Forall (fun u => 0 <= u < 2 ^ 32) (allowed_uids c).

Lemma fits0 : fits config0.
Proof.
  split; [|split; [cbn; lia|constructor]]. intros name size bit Hin. unfold str_of. cbn [config0 c_str].
  rewrite lookup_empty. cbn [default length]. cbn in Hin.
  repeat (destruct Hin as [Hin|Hin]; [injection Hin as <- <- <- || discriminate Hin; lia|]). done.
Qed.
(** A name has one row in the table. *)
Lemma conf_key_unique k1 t1 k2 t2 : In (k1, t1) conf_keys -> In (k2, t2) conf_keys -> k1 = k2 -> t1 = t2.
Proof.
  intros H1 H2 <-.
  assert (Hf : forall l, NoDup (map fst l) -> In (k1, t1) l -> In (k1, t2) l -> t1 = t2).
  { induction l as [|[k t] l IH]; intros Hn Ha Hb; [done|]. cbn in Hn. apply NoDup_cons in Hn as [Hk Hn].
    destruct Ha as [Ha|Ha], Hb as [Hb|Hb]; [congruence| | |by apply IH].
    - injection Ha as -> ->. destruct Hk. apply list_elem_of_In, in_map_iff. by exists (k1, t2).
    - injection Hb as -> ->. destruct Hk. apply list_elem_of_In, in_map_iff. by exists (k1, t1). }
  apply (Hf conf_keys); [|done|done]. apply (bool_decide_unpack _). vm_compute. exact I.
Qed.
Lemma add_uids_fits ts : forall us us', add_uids ts us = Some us' ->
  (length us <= FSQ_MAX_ALLOWED_UIDS)%nat -> Forall (fun u => 0 <= u < 2 ^ 32) us ->
  (length us' <= FSQ_MAX_ALLOWED_UIDS)%nat /\ Forall (fun u => 0 <= u < 2 ^ 32) us'.
Proof.
  induction ts as [|t ts IH]; intros us us' H Hl Hu; cbn [add_uids] in H; [by simplify_eq|].
  destruct (_ <=? _)%nat eqn:E; [done|]. apply Nat.leb_gt in E. apply (IH _ _ H).
  - rewrite length_app. cbn. lia.
  - apply Forall_app. split; [done|]. constructor; [apply u32_range|constructor].
Qed.
Lemma conf_line_fits c line c' : fits c -> conf_line c line = Some c' -> fits c'.
Proof.
  intros (Hs & Hl & Hu). unfold conf_line. destruct (conf_pair line) as [[k v]|]; [|by intros [= <-]].
  destruct (List.find _ conf_keys) as [[name kt]|] eqn:Ef; [|by intros [= <-]].
  apply find_some in Ef as [Hin Hk]. apply bytes_eqb_true in Hk. cbn in Hk. subst name.
  destruct kt as [size bit|bit|bit| | |].
  - destruct (size <=? _) eqn:E; [done|]. intros [= <-]. split; [|done]. intros n sz b Hin'. unfold str_of. cbn.
    destruct (decide (k = n)) as [<-|Hne].
    + rewrite lookup_insert_eq. cbn. pose proof (conf_key_unique _ _ _ _ Hin Hin' eq_refl). simplify_eq. lia.
    + rewrite lookup_insert_ne by done. by apply (Hs n sz b).
  - by intros [= <-].
  - destruct (strtol v). by intros [= <-].
  - by intros [= <-].
  - by intros [= <-].
  - destruct (add_uids _ _) as [us|] eqn:E; [|done]. intros [= <-]. split; [done|]. by apply (add_uids_fits _ _ _ E).
Qed.
Lemma conf_loop_fits ls : forall c c', fits c -> conf_loop c ls = Some c' -> fits c'.
Proof.
  induction ls as [|l ls IH]; intros c c' Hf H; cbn [conf_loop] in H; [by simplify_eq|].
  destruct (conf_line c l) as [c1|] eqn:E; [|done]. apply (IH c1); [by apply (conf_line_fits c l)|done].
Qed.
Lemma key_decode_len buf : forall hi acc key, key_decode hi buf acc = Some key ->
  Z.of_nat (length key) = Z.of_nat (length acc) + (Z.of_nat (length buf) + (if hi <? 0 then 0 else 1)) / 2.
Proof.
  induction buf as [|c buf IH]; intros hi acc key H; cbn [key_decode] in H.
  - simplify_eq. cbn. destruct (hi <? 0); [change (0 / 2) with 0|change ((0 + 1) / 2) with 0]; lia.
  - destruct (hex_nibble c <? 0) eqn:E; [done|]. destruct (hi <? 0) eqn:Eh.
    + apply IH in H. rewrite E in H. rewrite H. cbn [length]. do 2 f_equal. lia.
    + apply IH in H. cbn [Z.ltb Z.compare] in H. rewrite H, length_app. cbn [length].
      replace (Z.of_nat (S (length buf)) + 1) with (Z.of_nat (length buf) + 0 + 1 * 2) by lia.
      rewrite Z.div_add by lia. lia.
Qed.
Lemma load_key_len content key : load_key content = Some key -> 1 <= Z.of_nat (length key) <= 64.
Proof.
  unfold load_key. destruct content as [l|]; [|done]. set (buf := take 256 _).
  destruct ((Z.of_nat (length buf) =? 0) || _ || _) eqn:E; [done|]. intros H. apply key_decode_len in H.
  cbn [Z.ltb Z.compare length] in H. bools. pose proof (Z.div_mod (Z.of_nat (length buf)) 2 ltac:(lia)). 
  rewrite Z.add_0_r in H. lia.
Qed.

(** The hex text of a key. *)
Definition hex_of (b : Z) : list Z := [hexd (b / 16); hexd (b mod 16)].
Lemma hexd_nibble n : 0 <= n < 16 -> hex_nibble (hexd n) = n /\ key_space (hexd n) = false.
Proof. intros H. unfold hex_nibble, hexd, key_space. destruct (n <? 10) eqn:E; repeat case_match; lia. Qed.
Lemma key_decode_hex key : forall acc, bytes_ok key -> key_decode (-1) (flat_map hex_of key) acc = Some (acc ++ key).
Proof.
  induction key as [|b key IH]; intros acc Hb; [cbn; by rewrite app_nil_r|]. apply Forall_cons in Hb as [Hb Hk].
  unfold byte_ok in Hb. cbn [flat_map hex_of app key_decode].
  pose proof (Z.div_mod b 16 ltac:(lia)). pose proof (Z.mod_pos_bound b 16 ltac:(lia)).
  assert (0 <= b / 16 < 16) by (split; [apply Z.div_pos; lia|apply Z.div_lt_upper_bound; lia]).
  destruct (hexd_nibble (b / 16)) as [-> _]; [lia|]. destruct (hexd_nibble (b mod 16)) as [-> _]; [lia|].
  assert ((b / 16 <? 0) = false) as -> by lia. assert ((b mod 16 <? 0) = false) as -> by lia.
  change (-1 <? 0) with true. cbv iota. rewrite IH by done. rewrite <- app_assoc. cbn [app]. do 3 f_equal.
  rewrite Z.lor_comm, (lor_shiftl_add (b mod 16) (b / 16) 4) by lia.
  rewrite u8_id; [lia|]. unfold byte_ok. lia.
Qed.

(** ** Lemmas: snapshots *)

(** How many of the borrows [b] are of the snapshot [p]. *)
Definition holds (p : positive) (b : list positive) : Z := Z.of_nat (length (List.filter (fun q => bool_decide (q = p)) b)).
Lemma holds_cons p q b : holds p (q :: b) = (if bool_decide (q = p) then 1 else 0) + holds p b.
Proof. unfold holds. cbn. destruct (bool_decide (q = p)); cbn [length]; lia. Qed.
Lemma holds_app p b1 b2 : holds p (b1 ++ b2) = holds p b1 + holds p b2.
Proof. unfold holds. rewrite List.filter_app, length_app. lia. Qed.
Lemma holds_nonneg p b : 0 <= holds p b.
Proof. unfold holds. lia. Qed.
Lemma holds_elem p b : p ∈ b -> 0 < holds p b.
Proof.
  induction b as [|q b IH]; intros H; [inversion H|]. rewrite holds_cons. apply elem_of_cons in H as [->|H].
  - rewrite bool_decide_eq_true_2 by done. pose proof (holds_nonneg q b). lia.
  - apply IH in H. case_bool_decide; lia.
Qed.

(** The heap and the threads' borrows. *)
Record snap_world := { sw_heap : snap_heap; sw_borrowed : list positive }.
Record snap_inv (w : snap_world) : Prop := {
  si_cur : forall p, g_snap (sw_heap w) = Some p -> is_Some (snaps (sw_heap w) !! p);
  si_refs : forall p c r, snaps (sw_heap w) !! p = Some (c, r) -> r = holds p (sw_borrowed w);
  si_held : forall p, p ∈ sw_borrowed w -> is_Some (snaps (sw_heap w) !! p);
  si_noleak : forall p c r, snaps (sw_heap w) !! p = Some (c, r) -> r = 0 -> g_snap (sw_heap w) = Some p;
}.

Inductive snap_step : snap_world -> snap_world -> Prop :=
  | SS_acquire h h' p b : cfg_acquire h = Some (h', p) ->
      snap_step {| sw_heap := h; sw_borrowed := b |} {| sw_heap := h'; sw_borrowed := p :: b |}
  | SS_release h h' p b1 b2 : cfg_release p h = Some h' ->
      snap_step {| sw_heap := h; sw_borrowed := b1 ++ p :: b2 |} {| sw_heap := h'; sw_borrowed := b1 ++ b2 |}
  | SS_publish h q c b : (forall a, q = Some a -> snaps h !! a = None) ->
      snap_step {| sw_heap := h; sw_borrowed := b |} {| sw_heap := fst (cfg_publish q c h); sw_borrowed := b |}.
Definition snap_world0 : snap_world := {| sw_heap := heap0; sw_borrowed := [] |}.
Definition snap_reachable (w : snap_world) : Prop := rtc snap_step snap_world0 w.

Lemma snap_inv0 : snap_inv snap_world0.
Proof.
  split; cbn; [done| | |].
  - intros p c r H. by rewrite lookup_empty in H.
  - intros p H. inversion H.
  - intros p c r H. by rewrite lookup_empty in H.
Qed.
Lemma acquire_snap_inv h h' p b : snap_inv {| sw_heap := h; sw_borrowed := b |} -> cfg_acquire h = Some (h', p) ->
  snap_inv {| sw_heap := h'; sw_borrowed := p :: b |}.
Proof.
  intros [H1 H2 H3 H4] H. unfold cfg_acquire in H. cbn [sw_heap sw_borrowed] in *.
  destruct (g_snap h) as [q|] eqn:Eg; [|done]. destruct (snaps h !! q) as [[c r]|] eqn:Eq; [|done]. simplify_eq.
  split; cbn [sw_heap sw_borrowed snaps g_snap].
  - intros p' Hp'. simplify_eq. rewrite lookup_insert_eq. by eexists.
  - intros p' c' r' Hp'. rewrite holds_cons. destruct (decide (p = p')) as [<-|Hne].
    + rewrite lookup_insert_eq in Hp'. simplify_eq. rewrite bool_decide_eq_true_2 by done. rewrite (H2 p c' r) by done. lia.
    + rewrite lookup_insert_ne in Hp' by done. rewrite bool_decide_eq_false_2 by done. by rewrite (H2 p' c' r').
  - intros p' Hp'. destruct (decide (p = p')) as [<-|Hne]; [rewrite lookup_insert_eq; by eexists|].
    rewrite lookup_insert_ne by done. apply H3. apply elem_of_cons in Hp' as [->|]; done.
  - intros p' c' r' Hp' Hr'. destruct (decide (p = p')) as [<-|Hne].
    + done.
    + rewrite lookup_insert_ne in Hp' by done. by apply (H4 p' c' r').
Qed.
Lemma release_snap_inv h h' p b1 b2 : snap_inv {| sw_heap := h; sw_borrowed := b1 ++ p :: b2 |} ->
  cfg_release p h = Some h' -> snap_inv {| sw_heap := h'; sw_borrowed := b1 ++ b2 |}.
Proof.
  intros [H1 H2 H3 H4] H. unfold cfg_release in H. cbn [sw_heap sw_borrowed] in *.
  destruct (snaps h !! p) as [[c r]|] eqn:Ep; [|done].
  assert (Hh : forall p', holds p' (b1 ++ p :: b2) = (if bool_decide (p = p') then 1 else 0) + holds p' (b1 ++ b2)).
  { intros p'. rewrite !holds_app, holds_cons. lia. }
  pose proof (H2 p c r Ep) as Hr. rewrite Hh, bool_decide_eq_true_2 in Hr by done. pose proof (holds_nonneg p (b1 ++ b2)).
  assert (Hsub : forall p', p' ∈ b1 ++ b2 -> p' ∈ b1 ++ p :: b2) by (intros p'; rewrite !elem_of_app, elem_of_cons; tauto).
  assert (Hkeep : (0 < r - 1 \/ g_snap h = Some p) ->
    snap_inv {| sw_heap := {| snaps := <[p := (c, r - 1)]> (snaps h); g_snap := g_snap h |}; sw_borrowed := b1 ++ b2 |}).
  { intros Hor. split; cbn [sw_heap sw_borrowed snaps g_snap].
    - intros p' Hp'. destruct (decide (p = p')) as [<-|Hne]; [rewrite lookup_insert_eq; by eexists|].
      rewrite lookup_insert_ne by done. by apply H1.
    - intros p' c' r' Hp'. destruct (decide (p = p')) as [<-|Hne].
      + rewrite lookup_insert_eq in Hp'. simplify_eq. lia.
      + rewrite lookup_insert_ne in Hp' by done. rewrite (H2 p' c' r'), Hh, bool_decide_eq_false_2 by done. lia.
    - intros p' Hp'. destruct (decide (p = p')) as [<-|Hne]; [rewrite lookup_insert_eq; by eexists|].
      rewrite lookup_insert_ne by done. apply H3. by apply Hsub.
    - intros p' c' r' Hp' Hr'. destruct (decide (p = p')) as [<-|Hne].
      + rewrite lookup_insert_eq in Hp'. simplify_eq. destruct Hor; [lia|done].
      + rewrite lookup_insert_ne in Hp' by done. by apply (H4 p' c' r'). }
  destruct (0 <? r - 1) eqn:E; [simplify_eq; apply Hkeep; left; lia|].
  case_bool_decide as Eg; simplify_eq; [apply Hkeep; by right|]. clear Hkeep.
  assert (Hz : holds p (b1 ++ b2) = 0) by lia.
  split; cbn [sw_heap sw_borrowed snaps g_snap].
  - intros p' Hp'. rewrite lookup_delete_ne by congruence. by apply H1.
  - intros p' c' r' Hp'. destruct (decide (p = p')) as [<-|Hne]; [by rewrite lookup_delete_eq in Hp'|].
    rewrite lookup_delete_ne in Hp' by done. rewrite (H2 p' c' r'), Hh, bool_decide_eq_false_2 by done. lia.
  - intros p' Hp'. destruct (decide (p = p')) as [<-|Hne]; [apply holds_elem in Hp'; lia|].
    rewrite lookup_delete_ne by done. apply H3. by apply Hsub.
  - intros p' c' r' Hp' Hr'. destruct (decide (p = p')) as [<-|Hne]; [by rewrite lookup_delete_eq in Hp'|].
    rewrite lookup_delete_ne in Hp' by done. by apply (H4 p' c' r').
Qed.
Lemma publish_snap_inv h q c b : snap_inv {| sw_heap := h; sw_borrowed := b |} ->
  (forall a, q = Some a -> snaps h !! a = None) ->
  snap_inv {| sw_heap := fst (cfg_publish q c h); sw_borrowed := b |}.
Proof.
  intros [H1 H2 H3 H4] Hq. unfold cfg_publish. cbn [sw_heap sw_borrowed] in *.
  destruct q as [q|]; [|by split]. specialize (Hq q eq_refl).
  assert (Hfresh : holds q b = 0).
  { pose proof (holds_nonneg q b). destruct (decide (q ∈ b)) as [Hin|Hn]; [apply H3 in Hin; rewrite Hq in Hin; by destruct Hin|].
    clear - Hn. induction b as [|x b IH]; [done|]. rewrite not_elem_of_cons in Hn. rewrite holds_cons, bool_decide_eq_false_2 by naive_solver. rewrite IH; tauto. }
  destruct (g_snap h) as [old|] eqn:Eg.
  - destruct (H1 old eq_refl) as [[co r] Eo]. rewrite Eo. assert (Hne : old <> q) by congruence.
    destruct (r =? 0) eqn:Er; cbn [fst].
    + apply Z.eqb_eq in Er as ->. split; cbn [sw_heap sw_borrowed snaps g_snap].
      * intros p [= <-]. rewrite lookup_delete_ne, lookup_insert_eq by done. by eexists.
      * intros p c' r' Hp. destruct (decide (p = old)) as [->|]; [by rewrite lookup_delete_eq in Hp|].
        rewrite lookup_delete_ne in Hp by done. destruct (decide (p = q)) as [->|].
        { rewrite lookup_insert_eq in Hp. by simplify_eq. }
        rewrite lookup_insert_ne in Hp by done. by apply (H2 p c' r').
      * intros p Hp. destruct (decide (p = old)) as [->|].
        { apply holds_elem in Hp. rewrite <- (H2 old co 0 Eo) in Hp. lia. }
        rewrite lookup_delete_ne by done. destruct (decide (p = q)) as [->|]; [rewrite lookup_insert_eq; by eexists|].
        rewrite lookup_insert_ne by done. by apply H3.
      * intros p c' r' Hp Hr. destruct (decide (p = old)) as [->|]; [by rewrite lookup_delete_eq in Hp|].
        rewrite lookup_delete_ne in Hp by done. destruct (decide (p = q)) as [->|]; [done|].
        rewrite lookup_insert_ne in Hp by done. pose proof (H4 p c' r' Hp Hr). congruence.
    + split; cbn [sw_heap sw_borrowed snaps g_snap].
      * intros p [= <-]. rewrite lookup_insert_eq. by eexists.
      * intros p c' r' Hp. destruct (decide (p = q)) as [->|].
        { rewrite lookup_insert_eq in Hp. by simplify_eq. }
        rewrite lookup_insert_ne in Hp by done. by apply (H2 p c' r').
      * intros p Hp. destruct (decide (p = q)) as [->|]; [rewrite lookup_insert_eq; by eexists|].
        rewrite lookup_insert_ne by done. by apply H3.
      * intros p c' r' Hp Hr. destruct (decide (p = q)) as [->|]; [done|].
        rewrite lookup_insert_ne in Hp by done. pose proof (H4 p c' r' Hp Hr). by simplify_eq.
  - cbn [fst]. split; cbn [sw_heap sw_borrowed snaps g_snap].
    + intros p [= <-]. rewrite lookup_insert_eq. by eexists.
    + intros p c' r' Hp. destruct (decide (p = q)) as [->|].
      { rewrite lookup_insert_eq in Hp. by simplify_eq. }
      rewrite lookup_insert_ne in Hp by done. by apply (H2 p c' r').
    + intros p Hp. destruct (decide (p = q)) as [->|]; [rewrite lookup_insert_eq; by eexists|].
      rewrite lookup_insert_ne by done. by apply H3.
    + intros p c' r' Hp Hr. destruct (decide (p = q)) as [->|]; [done|].
      rewrite lookup_insert_ne in Hp by done. pose proof (H4 p c' r' Hp Hr). done.
Qed.
Lemma snap_step_inv w w' : snap_inv w -> snap_step w w' -> snap_inv w'.
Proof.
  intros Hi Hs. destruct Hs; [by eapply acquire_snap_inv|by eapply release_snap_inv|by apply publish_snap_inv].
Qed.
Lemma snap_reachable_inv w : snap_reachable w -> snap_inv w.
Proof. revert w. apply (rtc_ind_r (R := snap_step) snap_inv snap_world0); [apply snap_inv0|]. intros; by eapply snap_step_inv. Qed.
(** A borrowed snapshot keeps its configuration as long as one borrow stays. *)
Lemma snap_step_config w w' p c r : snap_inv w -> snap_step w w' -> p ∈ sw_borrowed w -> p ∈ sw_borrowed w' ->
  snaps (sw_heap w) !! p = Some (c, r) -> exists r', snaps (sw_heap w') !! p = Some (c, r').
Proof.
  intros Hi Hs Hp Hp' Hc. pose proof (snap_step_inv _ _ Hi Hs) as Hi'.
  destruct (si_held _ Hi' p Hp') as [[c' r'] H']. exists r'. rewrite H'. do 2 f_equal.
  destruct Hs as [h h' q b Ha|h h' q b1 b2 Hr|h q cc b Hf]; cbn [sw_heap sw_borrowed] in *.
  - unfold cfg_acquire in Ha. destruct (g_snap h) as [g|]; [|done]. destruct (snaps h !! g) as [[cg rg]|] eqn:Eg; [|done].
    simplify_eq. cbn in H'. destruct (decide (q = p)) as [->|]; [rewrite lookup_insert_eq in H'|rewrite lookup_insert_ne in H' by done]; congruence.
  - unfold cfg_release in Hr. destruct (snaps h !! q) as [[cg rg]|] eqn:Eg; [|done].
    destruct (0 <? rg - 1); [|case_bool_decide]; simplify_eq; cbn in H'; (destruct (decide (q = p)) as [->|];
      [rewrite ?lookup_insert_eq, ?lookup_delete_eq in H'|rewrite ?lookup_insert_ne, ?lookup_delete_ne in H' by done]); congruence.
  - unfold cfg_publish in H'. destruct q as [q|]; [|cbn in H'; congruence]. assert (p <> q) by (intros ->; rewrite Hf in Hc by done; done).
    destruct (g_snap h) as [old|]; [destruct (snaps h !! old) as [[co ro]|]; [destruct (ro =? 0)|]|]; cbn in H'.
    all: rewrite ?lookup_delete_Some in H'; rewrite ?lookup_insert_ne in H' by done; naive_solver congruence.
Qed.

(** ** Lemmas: presence bits *)

Definition key_bit (t : conf_key) : Z := match t with K_str _ b | K_bool b | K_long b => b | _ => 0 end.
Definition is_str (t : conf_key) : bool := match t with K_str _ _ => true | _ => false end.
Definition is_long (t : conf_key) : bool := match t with K_long _ => true | _ => false end.
(** A stored provider value has its presence bit. *)
Definition present_ok (c : fsq_config) : Prop :=
  forall k t, In (k, t) conf_keys -> key_bit t <> 0 ->
  (is_str t = true /\ is_Some (c_str c !! k)) \/ (is_long t = true /\ is_Some (c_long c !! k)) ->
  has_bit (prov_present c) (key_bit t) = true.

Lemma prov_bit_land n b : 0 <= n -> Z.land b (prov_bit n) = (if Z.testbit b n then prov_bit n else 0).
Proof.
  intros Hn. unfold prov_bit. rewrite Z.shiftl_1_l. apply Z.bits_inj'. intros i Hi.
  rewrite Z.land_spec, Z.pow2_bits_eqb by done. destruct (Z.eqb_spec n i) as [<-|Hne].
  - destruct (Z.testbit b n); [by rewrite Z.pow2_bits_eqb, Z.eqb_refl by done|by rewrite Z.testbit_0_l].
  - rewrite andb_false_r. destruct (Z.testbit b n); [rewrite Z.pow2_bits_eqb by done|by rewrite Z.testbit_0_l].
    symmetry. by apply Z.eqb_neq.
Qed.
Lemma has_bit_testbit n b : 0 <= n -> has_bit b (prov_bit n) = Z.testbit b n.
Proof.
  intros Hn. unfold has_bit. rewrite prov_bit_land by done. destruct (Z.testbit b n); [|done].
  unfold prov_bit. rewrite Z.shiftl_1_l. pose proof (Z.pow_pos_nonneg 2 n). destruct (Z.eqb_spec (2 ^ n) 0); [lia|done].
Qed.
Lemma key_bit_pow k t : In (k, t) conf_keys -> key_bit t = 0 \/ exists n, 0 <= n /\ key_bit t = prov_bit n.
Proof.
  intros Hin.
  assert (H : forallb (fun kt => (key_bit (snd kt) =? 0) || existsb (fun n => key_bit (snd kt) =? prov_bit (Z.of_nat n)) (seq 0 18)) conf_keys = true)
    by (vm_compute; reflexivity).
  rewrite forallb_forall in H. specialize (H _ Hin). cbn [snd] in H. apply orb_true_iff in H as [H|H]; [left; lia|right].
  apply existsb_exists in H as (n & _ & H). exists (Z.of_nat n). split; [lia|]. by apply Z.eqb_eq.
Qed.
Lemma has_bit_lor k t p b : In (k, t) conf_keys -> has_bit p (key_bit t) = true -> has_bit (Z.lor p b) (key_bit t) = true.
Proof.
  intros Hin H. destruct (key_bit_pow k t Hin) as [E|(n & Hn & E)]; rewrite E in *; [unfold has_bit in H; by rewrite Z.land_0_r in H|].
  rewrite has_bit_testbit in * by done. by rewrite Z.lor_spec, H.
Qed.
Lemma has_bit_lor_self k t p : In (k, t) conf_keys -> key_bit t <> 0 -> has_bit (Z.lor p (key_bit t)) (key_bit t) = true.
Proof.
  intros Hin H. destruct (key_bit_pow k t Hin) as [E|(n & Hn & E)]; [done|]. rewrite E, has_bit_testbit by done.
  rewrite Z.lor_spec. replace (Z.testbit (prov_bit n) n) with true; [apply orb_true_r|].
  unfold prov_bit. by rewrite Z.shiftl_1_l, Z.pow2_bits_true.
Qed.
Lemma conf_line_present c line c' : present_ok c -> conf_line c line = Some c' -> present_ok c'.
Proof.
  intros Hp. unfold conf_line. destruct (conf_pair line) as [[k v]|]; [|by intros [= <-]].
  destruct (List.find _ conf_keys) as [[name kt]|] eqn:Ef; [|by intros [= <-]].
  apply find_some in Ef as [Hin Hk]. apply bytes_eqb_true in Hk. cbn in Hk. subst name.
  assert (Hstep : forall (cs : gmap (list Z) (list Z)) (cl : gmap (list Z) Z) p', (forall k', k' <> k -> cs !! k' = c_str c !! k' /\ cl !! k' = c_long c !! k') ->
    p' = Z.lor (prov_present c) (key_bit kt) ->
    forall k' t', In (k', t') conf_keys -> key_bit t' <> 0 ->
      (is_str t' = true /\ is_Some (cs !! k')) \/ (is_long t' = true /\ is_Some (cl !! k')) ->
      has_bit p' (key_bit t') = true).
  { intros cs cl p' Hsame -> k' t' Hin' Hb Hs. destruct (decide (k' = k)) as [->|Hne].
    - rewrite (conf_key_unique _ _ _ _ Hin Hin' eq_refl) in *. by apply (has_bit_lor_self k).
    - destruct (Hsame k' Hne) as [E1 E2]. rewrite E1, E2 in Hs. apply (has_bit_lor k'); [done|]. by apply (Hp k'). }
  destruct kt as [size bit|bit|bit| | |].
  - destruct (size <=? _); [done|]. intros [= <-]. unfold present_ok. refine (Hstep _ _ _ _ eq_refl).
    cbn. intros k' Hne. by rewrite lookup_insert_ne.
  - intros [= <-]. unfold present_ok. by refine (Hstep _ _ _ _ eq_refl).
  - destruct (strtol v). intros [= <-]. unfold present_ok. refine (Hstep _ _ _ _ eq_refl).
    cbn. intros k' Hne. by rewrite lookup_insert_ne.
  - by intros [= <-].
  - by intros [= <-].
  - destruct (add_uids _ _) as [us|]; [|done]. by intros [= <-].
Qed.
Lemma conf_loop_present ls : forall c c', present_ok c -> conf_loop c ls = Some c' -> present_ok c'.
Proof.
  induction ls as [|l ls IH]; intros c c' Hf H; cbn [conf_loop] in H; [by simplify_eq|].
  destruct (conf_line c l) as [c1|] eqn:E; [|done]. apply (IH c1); [by apply (conf_line_present c l)|done].
Qed.
Lemma load_config_inv files euid path c : load_config files euid path = Some c ->
  exists c0 content key, files path = Some content /\ conf_loop config0 (conf_lines (length content) content) = Some c0 /\
    load_key (files (str_of c (bs "hmac_key_file"))) = Some key /\
    c = with_limits (max_connections c0) (idle_timeout_secs c0) (match allowed_uids c0 with [] => [euid] | us => us end) key c0 /\
    str_of c0 (bs "socket_path") <> [] /\ str_of c0 (bs "hmac_key_file") <> [] /\
    Z.of_nat (length (str_of c0 (bs "socket_path"))) < SUN_PATH_SIZE /\
    1 <= max_connections c0 <= FSQ_MAX_CONNECTIONS_LIMIT /\ 0 < idle_timeout_secs c0.
Proof.
  unfold load_config. destruct (files path) as [content|]; [|done]. destruct (conf_loop _ _) as [c0|] eqn:E0; [|done].
  destruct (bytes_eqb _ [] || _) eqn:E1; [done|]. destruct (SUN_PATH_SIZE <=? _) eqn:E2; [done|].
  destruct ((_ <=? 0) || _) eqn:E3; [done|]. destruct (idle_timeout_secs c0 <=? 0) eqn:E4; [done|].
  destruct (load_key _) as [key|] eqn:E5; [|done]. intros [= <-]. exists c0, content, key.
  apply orb_false_iff in E1 as [E1 E1']. apply orb_false_iff in E3 as [E3 E3'].
  assert (Hb : forall l, bytes_eqb l [] = false -> l <> []) by (intros l Hl ->; done).
  repeat split; eauto; lia.
Qed.
(** The provider key tables name string rows of the file's keys. *)
Lemma str_key_row k b : In (k, b) str_keys \/ In (k, b) path_keys ->
  b <> 0 /\ exists t, In (k, t) conf_keys /\ is_str t = true /\ key_bit t = b.
Proof.
  intros Hin.
  assert (H : forallb (fun kb => negb (snd kb =? 0) && existsb (fun kt => bytes_eqb (fst kt) (fst kb) && is_str (snd kt) && (key_bit (snd kt) =? snd kb)) conf_keys)
      (str_keys ++ path_keys) = true) by (vm_compute; reflexivity).
  rewrite forallb_forall in H. specialize (H (k, b)). rewrite in_app_iff in H. specialize (H Hin). cbn [fst snd] in H.
  apply andb_true_iff in H as [Hb He]. apply existsb_exists in He as ([k' t] & Hin' & He). cbn [fst snd] in He.
  rewrite !andb_true_iff in He. destruct He as [[E1 E2] E3]. apply bytes_eqb_true in E1 as ->.
  split; [by apply negb_true_iff, Z.eqb_neq in Hb|]. exists t. repeat split; try done. by apply Z.eqb_eq.
Qed.
Lemma str_key_present c k b v : present_ok c -> In (k, b) str_keys \/ In (k, b) path_keys -> c_str c !! k = Some v ->
  has_bit (prov_present c) b = true /\ str_of c k = v.
Proof.
  intros Hp Hin Hv. destruct (str_key_row k b Hin) as (Hb & t & Ht & Hs & <-). split; [|unfold str_of; by rewrite Hv].
  apply (Hp k); [done|done|]. left. split; [done|by eexists].
Qed.
Lemma long_key_present c k b n : present_ok c -> In (k, K_long b) conf_keys -> b <> 0 -> c_long c !! k = Some n ->
  has_bit (prov_present c) b = true.
Proof. intros Hp Hin Hb Hn. apply (Hp k (K_long b)); [done|done|]. right. split; [done|by eexists]. Qed.
Lemma existsb_false {A} (f : A -> bool) l x : existsb f l = false -> In x l -> f x = false.
Proof.
  intros H Hin. destruct (f x) eqn:E; [|done]. assert (existsb f l = true) as E' by (apply existsb_exists; by exists x).
  congruence.
Qed.

(** A configuration file and its key, for the witnesses. *)
Definition conf_text : list Z := bs "# fractalsqld
socket_path = /run/fractalsqld.sock
hmac_key_file = /etc/fractalsql/key
 max_connections=8
think_num_ctx = 4096
t2s_allowed_statements = select
enterprise_lib = /opt/fractalsql/ent.so
".
Definition conf_files (path : list Z) : option (list Z) :=
  if bytes_eqb path (bs "/etc/fractalsqld.conf") then Some conf_text
  else if bytes_eqb path (bs "/etc/fractalsql/key") then Some (bs "00ff10Ab
") else None.
Definition some_b {A} (o : option A) : bool := match o with Some _ => true | None => false end.

(** ** Properties *)

(** A configuration load_config accepts is within every bound the daemon
    relies on: each string fits its buffer, the socket path fits sockaddr_un,
    the limits are in range, the allow-list is nonempty, and the key is the one
    the key file holds, 1 to 64 bytes. *)
Theorem load_config_sound files euid path c :
  0 <= euid < 2 ^ 32 -> load_config files euid path = Some c ->
  fits c /\
  str_of c (bs "socket_path") <> [] /\ Z.of_nat (length (str_of c (bs "socket_path"))) < SUN_PATH_SIZE /\
  1 <= max_connections c <= FSQ_MAX_CONNECTIONS_LIMIT /\ 0 < idle_timeout_secs c /\
  (1 <= length (allowed_uids c))%nat /\
  load_key (files (str_of c (bs "hmac_key_file"))) = Some (key_bytes c) /\
  1 <= Z.of_nat (length (key_bytes c)) <= 64.
Proof.
  intros Hu H. apply load_config_inv in H as (c0 & content & key & _ & Hl & Hk & -> & Hs & Hf & Hsun & Hm & Hi).
  pose proof (conf_loop_fits _ _ _ fits0 Hl) as (F1 & F2 & F3). split.
  - split; [exact F1|]. cbn [with_limits allowed_uids]. destruct (allowed_uids c0); [|done].
    split; [cbn; unfold FSQ_MAX_ALLOWED_UIDS; lia|]. apply Forall_singleton. done.
  - pose proof (load_key_len _ _ Hk). cbn [with_limits max_connections idle_timeout_secs allowed_uids key_bytes].
    repeat split; try done; try lia. destruct (allowed_uids c0); cbn; lia.
Qed.
Lemma load_config_sound_witness : exists c, load_config conf_files 999 (bs "/etc/fractalsqld.conf") = Some c /\
  max_connections c = 8 /\ allowed_uids c = [999] /\ key_bytes c = [0; 255; 16; 171] /\ fits c.
Proof.
  assert (H : some_b (load_config conf_files 999 (bs "/etc/fractalsqld.conf")) = true) by (vm_compute; reflexivity).
  destruct (load_config conf_files 999 (bs "/etc/fractalsqld.conf")) as [c|] eqn:E; [|done]. exists c. split; [done|].
  pose proof (load_config_sound conf_files 999 (bs "/etc/fractalsqld.conf") c ltac:(lia) E) as [Hf _].
  assert (Hv : (fun o => match o with Some c => (max_connections c, allowed_uids c, key_bytes c) | None => (0, [], []) end)
     (load_config conf_files 999 (bs "/etc/fractalsqld.conf")) = (8, [999], [0; 255; 16; 171])) by (vm_compute; reflexivity).
  rewrite E in Hv. injection Hv as H1 H2 H3. repeat split; try done; apply Hf.
Defined.

(** When a loaded configuration passes the provider checks, every provider
    value the file set is nonempty, every path among them is acceptable, and
    the bounded keys are in their ranges. *)
Theorem provider_values_sound files euid path c :
  load_config files euid path = Some c -> validate_provider_cfg c = true ->
  (forall k b v, In (k, b) str_keys -> c_str c !! k = Some v -> v <> []) /\
  (forall k b v, In (k, b) path_keys -> c_str c !! k = Some v -> fractal_config_validate_path (Some v) = None) /\
  (forall n, c_long c !! bs "think_num_ctx" = Some n -> 1 <= n <= 10000000) /\
  (forall n, c_long c !! bs "t2s_max_attempts" = Some n -> 1 <= n <= 10) /\
  (forall v, c_str c !! bs "t2s_allowed_statements" = Some v -> v = bs "select" \/ v = bs "select_insert_update").
Proof.
  intros H Hv. apply load_config_inv in H as (c0 & content & key & _ & Hl & _ & -> & _).
  assert (P0 : present_ok config0).
  { intros k t _ _ [[_ [? Hx]]|[_ [? Hx]]]; cbn in Hx; by rewrite lookup_empty in Hx. }
  pose proof (conf_loop_present _ _ _ P0 Hl) as Hp. set (c := with_limits _ _ _ _ c0) in *.
  change (present_ok c) in Hp. clearbody c. clear - Hp Hv. unfold validate_provider_cfg in Hv.
  destruct (existsb _ str_keys) eqn:E1; [done|]. destruct (existsb _ path_keys) eqn:E2; [done|].
  destruct (has_bit _ (prov_bit 10) && _) eqn:E3; [done|]. destruct (has_bit _ (prov_bit 11) && _) eqn:E4; [done|].
  destruct (has_bit _ (prov_bit 12) && _ && _) eqn:E5; [done|]. clear Hv. repeat apply conj.
  - intros k b v Hin Hk. destruct (str_key_present c k b v Hp (or_introl Hin) Hk) as [Hb Hs].
    pose proof (existsb_false _ _ _ E1 Hin) as E. cbn [fst snd] in E. rewrite Hb, Hs in E. intros ->. done.
  - intros k b v Hin Hk. destruct (str_key_present c k b v Hp (or_intror Hin) Hk) as [Hb Hs].
    pose proof (existsb_false _ _ _ E2 Hin) as E. cbn [fst snd] in E. rewrite Hb, Hs in E.
    by destruct (fractal_config_validate_path (Some v)).
  - intros n Hn. rewrite (long_key_present c (bs "think_num_ctx") (prov_bit 10) n Hp) in E3; [|cbn; tauto|done|done].
    rewrite Hn in E3. change (default 0 (Some n)) with n in E3. lia.
  - intros n Hn. rewrite (long_key_present c (bs "t2s_max_attempts") (prov_bit 11) n Hp) in E4; [|cbn; tauto|done|done].
    rewrite Hn in E4. change (default 0 (Some n)) with n in E4. lia.
  - intros v Hk. destruct (str_key_present c (bs "t2s_allowed_statements") (prov_bit 12) v Hp) as [Hb Hs]; [left; cbn; tauto|done|].
    rewrite Hb, Hs in E5. destruct (bytes_eqb v (bs "select")) eqn:Ea; [left; by apply bytes_eqb_true|].
    destruct (bytes_eqb v (bs "select_insert_update")) eqn:Eb; [right; by apply bytes_eqb_true|done].
Qed.
Lemma provider_values_sound_witness : exists c, load_config conf_files 999 (bs "/etc/fractalsqld.conf") = Some c /\
  validate_provider_cfg c = true /\ (forall n, c_long c !! bs "think_num_ctx" = Some n -> 1 <= n <= 10000000).
Proof.
  assert (H : match load_config conf_files 999 (bs "/etc/fractalsqld.conf") with Some c => validate_provider_cfg c | None => false end = true)
    by (vm_compute; reflexivity).
  destruct (load_config conf_files 999 (bs "/etc/fractalsqld.conf")) as [c|] eqn:E; [|done]. exists c.
  pose proof (provider_values_sound conf_files 999 (bs "/etc/fractalsqld.conf") c E H) as (_ & _ & Hn & _). by split_and!.
Defined.

(** In every reachable state of the snapshot heap each borrowed snapshot
    is allocated with exactly its borrows as reference count, a snapshot nobody
    borrows is the published one (nothing leaks), and a further step leaves the
    configuration of a snapshot that stays borrowed as it was. *)
Theorem snapshots_safe w w' p c r :
  snap_reachable w -> snaps (sw_heap w) !! p = Some (c, r) -> snap_step w w' ->
  r = holds p (sw_borrowed w) /\ (r = 0 -> g_snap (sw_heap w) = Some p) /\
  (forall q, q ∈ sw_borrowed w' -> is_Some (snaps (sw_heap w') !! q)) /\
  (p ∈ sw_borrowed w -> p ∈ sw_borrowed w' -> exists r', snaps (sw_heap w') !! p = Some (c, r')).
Proof.
  intros Hr Hp Hs. pose proof (snap_reachable_inv w Hr) as Hi. split; [by apply (si_refs w Hi p c)|].
  split; [by apply (si_noleak w Hi p c)|]. split; [by apply si_held, (snap_step_inv w)|].
  intros H1 H2. by apply (snap_step_config w w' p c r).
Qed.
(** A borrowed snapshot survives the RELOAD that replaces it. *)
Definition snap_w1 : snap_world := {| sw_heap := fst (cfg_publish (Some 1%positive) config0 heap0); sw_borrowed := [] |}.
Definition snap_w2 : snap_world :=
  {| sw_heap := {| snaps := {[1%positive := (config0, 1)]}; g_snap := Some 1%positive |}; sw_borrowed := [1%positive] |}.
Definition snap_w3 : snap_world := {| sw_heap := fst (cfg_publish (Some 2%positive) config0 (sw_heap snap_w2)); sw_borrowed := [1%positive] |}.
Lemma snapshots_safe_witness : exists r', snaps (sw_heap snap_w3) !! 1%positive = Some (config0, r').
Proof.
  assert (S1 : snap_step snap_world0 snap_w1) by (apply SS_publish; intros a _; apply lookup_empty).
  assert (S2 : snap_step snap_w1 snap_w2) by (apply (SS_acquire (sw_heap snap_w1) (sw_heap snap_w2) 1%positive []); reflexivity).
  assert (S3 : snap_step snap_w2 snap_w3) by (apply (SS_publish (sw_heap snap_w2)); intros a [= <-]; reflexivity).
  assert (R : snap_reachable snap_w2) by (apply (rtc_l _ _ snap_w1); [exact S1|by apply rtc_once]).
  apply (snapshots_safe snap_w2 snap_w3 1%positive config0 1 R eq_refl S3); apply list_elem_of_singleton; reflexivity.
Defined.

(** The key file round trips: the hex text of a key of 1 to 64 bytes, with
    a final newline, loads as that key. *)
Theorem key_file_roundtrip key : bytes_ok key -> (1 <= length key <= 64)%nat ->
  load_key (Some (flat_map hex_of key ++ [10])) = Some key.
Proof.
  intros Hb Hl. unfold load_key. rewrite List.filter_app. cbn [List.filter key_space Z.eqb orb negb]. rewrite app_nil_r.
  assert (Hlen : length (flat_map hex_of key) = (2 * length key)%nat).
  { clear. induction key; cbn [flat_map hex_of app length]; lia. }
  replace (List.filter _ (flat_map hex_of key)) with (flat_map hex_of key).
  - rewrite take_ge by lia. rewrite Hlen. replace (Z.of_nat (2 * length key)) with (Z.of_nat (length key) * 2) by lia.
    rewrite Z.mod_mul, Z.div_mul by lia. 
    assert ((Z.of_nat (length key) * 2 =? 0) = false) as -> by lia. cbn [Z.eqb negb orb].
    assert ((64 <? Z.of_nat (length key)) = false) as -> by lia. by rewrite key_decode_hex.
  - clear - Hb. induction Hb as [|b key Hbb Hk IH]; [done|]. unfold byte_ok in Hbb. cbn [flat_map hex_of app List.filter].
    pose proof (Z.mod_pos_bound b 16 ltac:(lia)).
    assert (0 <= b / 16 < 16) by (split; [apply Z.div_pos; lia|apply Z.div_lt_upper_bound; lia]).
    destruct (hexd_nibble (b / 16)) as [_ ->]; [lia|]. destruct (hexd_nibble (b mod 16)) as [_ ->]; [lia|].
    cbn [negb]. by rewrite <- IH.
Qed.
Lemma key_file_roundtrip_witness : load_key (Some (bs "00ff10ab
")) = Some [0; 255; 16; 171].
Proof.
  change (bs "00ff10ab
") with (flat_map hex_of [0; 255; 16; 171] ++ [10]).
  apply key_file_roundtrip; [repeat constructor; unfold byte_ok; lia|cbn; lia].
Defined.

(** A line longer than the 1024-byte read buffer is split, so a token of
    1008 to 1023 bytes, which fits its field, is stored clipped to 1007 bytes
    and the configuration is accepted. *)
Theorem long_token_clipped n : (1008 <= n <= 1023)%nat ->
  let text := bs "reasoning_token=" ++ repeat 97 n ++ [10] in
  option_map (fun c => str_of c (bs "reasoning_token")) (conf_loop config0 (conf_lines (length text) text)) =
    Some (repeat 97 1007).
Proof.
  intros Hn.
  assert (H : forallb (fun n => let text := bs "reasoning_token=" ++ repeat 97 n ++ [10] in
      match conf_loop config0 (conf_lines (length text) text) with
      | Some c => bytes_eqb (str_of c (bs "reasoning_token")) (repeat 97 1007) | None => false end) (seq 1008 16) = true)
    by (vm_compute; reflexivity).
  rewrite forallb_forall in H. specialize (H n ltac:(apply in_seq; lia)). cbn beta zeta in H |- *.
  destruct (conf_loop config0 _) as [c|]; [|done]. apply bytes_eqb_true in H. cbn [option_map]. by rewrite H.
Qed.
Lemma long_token_clipped_witness : option_map (fun c => str_of c (bs "reasoning_token"))
  (conf_loop config0 (conf_lines 1030 (bs "reasoning_token=" ++ repeat 97 1013 ++ [10]))) = Some (repeat 97 1007).
Proof. apply (long_token_clipped 1013). lia. Defined.

(** A word in allowed_uids that is not a number admits uid 0. *)
Theorem allowed_uids_word_is_root :
  option_map allowed_uids (conf_line config0 (bs "allowed_uids = mysql,1001
")) = Some [0; 1001].
Proof. vm_compute. reflexivity. Qed.
