(* ===== verification/Cache.v ===== *)
(** * The idempotency response cache (service/daemon/fractalsqld.c)

    The 256-slot FIFO ring of replayable UDF_CALL replies: lookup, replay and
    insertion with the byte accounting.  An empty slot (body NULL) is [None];
    the success of malloc is an argument of the operations that allocate. *)

From S2P Require Import Prelude Wire.

Definition FSQ_CACHE_ENTRIES : nat := 256.
Definition FSQ_CACHE_MAX_BYTES : Z := 64 * 1024 * 1024.
Definition FSQ_CACHE_ENTRY_MAX : Z := 8 * 1024 * 1024.

(** struct fsq_reply *)
Record fsq_reply := { r_status : Z; r_core_rc : Z; r_body : list Z }.
Definition reply0 : fsq_reply := {| r_status := 0; r_core_rc := 0; r_body := [] |}.
#[export] Instance fsq_reply_eq_dec : EqDecision fsq_reply.
Proof. solve_decision. Defined.

Definition blen (l : list Z) : Z := Z.of_nat (length l).

(** struct fsq_cache_entry, occupied *)
Record fsq_cache_entry := { e_token : Z; e_reply : fsq_reply; e_name : list Z }.
Definition e_len (e : fsq_cache_entry) : Z := blen (r_body (e_reply e)).

(** g_cache, g_cache_next, g_cache_bytes *)
Record cache := { g_cache : list (option fsq_cache_entry); g_cache_next : nat; g_cache_bytes : Z }.
Definition cache0 : cache :=
  {| g_cache := repeat None FSQ_CACHE_ENTRIES; g_cache_next := 0; g_cache_bytes := 0 |}.

Definition slot_len (s : option fsq_cache_entry) : Z := match s with Some e => e_len e | None => 0 end.
Definition has_token (token : Z) (s : option fsq_cache_entry) : bool :=
  match s with Some e => e_token e =? token | None => false end.
Definition slot_at (c : cache) (i : nat) : option fsq_cache_entry := mjoin (g_cache c !! i).

Definition cache_find_locked (token : Z) (c : cache) : option nat := findi (has_token token) (g_cache c).

(** [None] is the return 0; [alloc] says whether the clone's malloc succeeds. *)
Definition cache_replay (alloc : bool) (token : Z) (name : list Z) (c : cache) : option fsq_reply :=
  match cache_find_locked token c with
  | None => None
  | Some i =>
      match slot_at c i with
      | None => None
      | Some e => if negb (bytes_eqb (e_name e) name) then None else if alloc then Some (e_reply e) else None
      end
  end.

(** One round of the eviction loop: empty the oldest slot and move on. *)
Definition evict1 (c : cache) : cache :=
  {| g_cache := <[g_cache_next c := None]> (g_cache c);
     g_cache_next := (g_cache_next c + 1) mod FSQ_CACHE_ENTRIES;
     g_cache_bytes := u64 (g_cache_bytes c - slot_len (slot_at c (g_cache_next c))) |}.
Fixpoint evict (rounds : nat) (len : Z) (c : cache) : cache :=
  match rounds with
  | O => c
  | S n => if FSQ_CACHE_MAX_BYTES <? u64 (g_cache_bytes c + len) then evict n len (evict1 c) else c
  end.
(** Write the entry in slot [i], whose old body is dropped. *)
Definition cache_store (i next : nat) (e : fsq_cache_entry) (c : cache) : cache :=
  {| g_cache := <[i := Some e]> (g_cache c); g_cache_next := next;
     g_cache_bytes := u64 (u64 (g_cache_bytes c - slot_len (slot_at c i)) + e_len e) |}.

Definition cacheable (token : Z) (rep : fsq_reply) (name : list Z) : bool :=
  negb ((token =? 0) || (FSQ_CACHE_ENTRY_MAX <? blen (r_body rep))) &&
  negb ((blen name =? 0) || (64 <=? blen name)).

Definition cache_put (alloc : bool) (token : Z) (rep : fsq_reply) (name : list Z) (c : cache) : cache :=
  if negb (cacheable token rep name) then c
  else if negb alloc then c
  else
    let e := {| e_token := token; e_reply := rep; e_name := name |} in
    match cache_find_locked token c with
    | Some i => cache_store i (g_cache_next c) e c
    | None =>
        let c1 := evict (S FSQ_CACHE_ENTRIES) (blen (r_body rep)) c in
        if FSQ_CACHE_MAX_BYTES <? u64 (g_cache_bytes c1 + blen (r_body rep)) then c1
        else cache_store (g_cache_next c1) ((g_cache_next c1 + 1) mod FSQ_CACHE_ENTRIES) e c1
    end.

(** ** Histories *)

(** One cache_put as the daemon issues it. *)
Record put_op := { p_alloc : bool; p_token : Z; p_reply : fsq_reply; p_name : list Z }.
Definition put (c : cache) (o : put_op) : cache := cache_put (p_alloc o) (p_token o) (p_reply o) (p_name o) c.
Definition puts (c : cache) (os : list put_op) : cache := fold_left put os c.
Definition stores (o : put_op) : bool := cacheable (p_token o) (p_reply o) (p_name o) && p_alloc o.
(** What the specification remembers for a token: the last stored reply. *)
Fixpoint last_put (token : Z) (os : list put_op) (acc : option (fsq_reply * list Z)) : option (fsq_reply * list Z) :=
  match os with
  | [] => acc
  | o :: r => last_put token r (if stores o && (p_token o =? token) then Some (p_reply o, p_name o) else acc)
  end.

(** ** The invariant *)

Fixpoint total (l : list (option fsq_cache_entry)) : Z :=
  match l with [] => 0 | s :: r => slot_len s + total r end.
Definition cache_entry_ok (s : option fsq_cache_entry) : Prop :=
  match s with Some e => e_token e <> 0 /\ e_len e <= FSQ_CACHE_ENTRY_MAX | None => True end.
Record cache_inv (c : cache) : Prop := {
  ci_len : length (g_cache c) = FSQ_CACHE_ENTRIES;
  ci_next : (g_cache_next c < FSQ_CACHE_ENTRIES)%nat;
  ci_bytes : g_cache_bytes c = total (g_cache c);
  ci_entries : Forall cache_entry_ok (g_cache c);
  ci_unique : forall i j e e', slot_at c i = Some e -> slot_at c j = Some e' -> e_token e = e_token e' -> i = j;
}.

Lemma cache_inv0 : cache_inv cache0.
Proof.
  split; [done|cbn; unfold FSQ_CACHE_ENTRIES; lia|done| |].
  - apply Forall_forall. intros s Hs. apply list_elem_of_In, repeat_spec in Hs. by subst.
  - intros i j e e' H. unfold slot_at in H. cbn [cache0 g_cache] in H.
    destruct (repeat None FSQ_CACHE_ENTRIES !! i) as [s|] eqn:E; [|done]. cbn in H.
    apply list_elem_of_lookup_2, list_elem_of_In, repeat_spec in E. by subst.
Qed.
Lemma slot_len_nonneg s : 0 <= slot_len s.
Proof. destruct s; cbn; [unfold e_len, blen|]; lia. Qed.
Lemma total_nonneg l : 0 <= total l.
Proof. induction l as [|s l IH]; cbn; [lia|]. pose proof (slot_len_nonneg s). lia. Qed.
Lemma total_insert l i s s' : l !! i = Some s -> total (<[i := s']> l) = total l - slot_len s + slot_len s'.
Proof.
  revert i. induction l as [|x l IH]; intros [|i] H; try done.
  - change (<[0%nat := s']> (x :: l)) with (s' :: l). cbn in H |- *. simplify_eq. lia.
  - change (<[S i := s']> (x :: l)) with (x :: <[i := s']> l). cbn [total]. rewrite (IH i H). lia.
Qed.
Lemma total_bound l : Forall cache_entry_ok l -> total l <= FSQ_CACHE_ENTRY_MAX * Z.of_nat (length l).
Proof.
  induction 1 as [|s l Hs _ IH]; [cbn; lia|]. cbn [total length].
  assert (slot_len s <= FSQ_CACHE_ENTRY_MAX) by (destruct s; cbn in *; [tauto|unfold FSQ_CACHE_ENTRY_MAX; lia]). lia.
Qed.
Lemma inv_total c : cache_inv c -> 0 <= g_cache_bytes c <= 2 ^ 31.
Proof.
  intros H. rewrite (ci_bytes c H). pose proof (total_nonneg (g_cache c)). pose proof (total_bound _ (ci_entries c H)).
  rewrite (ci_len c H) in *. change (FSQ_CACHE_ENTRY_MAX * Z.of_nat FSQ_CACHE_ENTRIES) with (2 ^ 31) in *. lia.
Qed.
Lemma slot_lookup c i : cache_inv c -> (i < FSQ_CACHE_ENTRIES)%nat -> g_cache c !! i = Some (slot_at c i).
Proof.
  intros H Hi. unfold slot_at. destruct (g_cache c !! i) as [s|] eqn:E; [done|].
  apply lookup_ge_None in E. rewrite (ci_len c H) in E. lia.
Qed.
Lemma slot_insert c i s n b j : cache_inv c -> (i < FSQ_CACHE_ENTRIES)%nat ->
  slot_at {| g_cache := <[i := s]> (g_cache c); g_cache_next := n; g_cache_bytes := b |} j = if decide (i = j) then s else slot_at c j.
Proof.
  intros H Hi. unfold slot_at. cbn [g_cache]. destruct (decide (i = j)) as [<-|Hne].
  - by rewrite list_lookup_insert_eq by (rewrite (ci_len c H); lia).
  - by rewrite list_lookup_insert_ne.
Qed.
Lemma cache_slot_ok c i : cache_inv c -> cache_entry_ok (slot_at c i).
Proof.
  intros H. unfold slot_at. destruct (g_cache c !! i) as [s|] eqn:E; [|done]. cbn.
  pose proof (ci_entries c H) as He. rewrite Forall_lookup in He. by apply (He i).
Qed.
Lemma next_mod n : ((n + 1) mod FSQ_CACHE_ENTRIES < FSQ_CACHE_ENTRIES)%nat.
Proof. apply Nat.mod_upper_bound. done. Qed.

(** What emptying or writing a slot does to the invariant. *)
Lemma insert_inv c i s n b : cache_inv c -> (i < FSQ_CACHE_ENTRIES)%nat -> (n < FSQ_CACHE_ENTRIES)%nat -> cache_entry_ok s ->
  (forall e j e', s = Some e -> slot_at c j = Some e' -> e_token e = e_token e' -> i = j) ->
  b = g_cache_bytes c - slot_len (slot_at c i) + slot_len s ->
  cache_inv {| g_cache := <[i := s]> (g_cache c); g_cache_next := n; g_cache_bytes := u64 b |}.
Proof.
  intros H Hi Hn Hs Hu ->. pose proof (slot_lookup c i H Hi) as Hl.
  assert (Ht : total (<[i := s]> (g_cache c)) = g_cache_bytes c - slot_len (slot_at c i) + slot_len s).
  { rewrite (total_insert _ _ _ _ Hl). by rewrite (ci_bytes c H). }
  assert (He : Forall cache_entry_ok (<[i := s]> (g_cache c))) by (apply Forall_insert; [apply H|done]).
  assert (Hb : total (<[i := s]> (g_cache c)) <= 2 ^ 31).
  { pose proof (total_bound _ He) as Hb. rewrite length_insert, (ci_len c H) in Hb. exact Hb. }
  split; cbn [g_cache g_cache_next g_cache_bytes]; try done.
  - rewrite length_insert. apply H.
  - rewrite <- Ht. apply u64_id. pose proof (total_nonneg (<[i := s]> (g_cache c))). lia.
  - intros j k e e' Hj Hk Ht'. rewrite (slot_insert c) in Hj, Hk by done.
    destruct (decide (i = j)) as [<-|], (decide (i = k)) as [<-|]; subst; try done.
    + by apply (Hu e k e').
    + symmetry. by apply (Hu e' j e).
    + by apply (ci_unique c H j k e e').
Qed.
Lemma evict1_inv c : cache_inv c -> cache_inv (evict1 c).
Proof.
  intros H. unfold evict1. apply insert_inv; [done|apply H|apply next_mod|done|done|cbn; lia].
Qed.
Lemma evict1_slot c j : cache_inv c -> slot_at (evict1 c) j = if decide (g_cache_next c = j) then None else slot_at c j.
Proof. intros H. apply slot_insert; [done|apply H]. Qed.
Lemma evict_inv n len c : cache_inv c -> cache_inv (evict n len c).
Proof.
  revert c. induction n as [|n IH]; intros c H; [done|]. cbn [evict]. case_match; [|done]. by apply IH, evict1_inv.
Qed.
Lemma evict_slot n len c j e : cache_inv c -> slot_at (evict n len c) j = Some e -> slot_at c j = Some e.
Proof.
  revert c. induction n as [|n IH]; intros c H Hs; [done|]. cbn [evict] in Hs. case_match; [|done].
  apply IH in Hs; [|by apply evict1_inv]. rewrite evict1_slot in Hs by done. by destruct (decide _).
Qed.

Lemma iter_evict_inv k c : cache_inv c -> cache_inv (Nat.iter k evict1 c).
Proof. intros H. induction k as [|k IH]; [done|]. by apply evict1_inv. Qed.
Lemma iter_evict_next k c : cache_inv c -> g_cache_next (Nat.iter k evict1 c) = ((g_cache_next c + k) mod FSQ_CACHE_ENTRIES)%nat.
Proof.
  intros H. induction k as [|k IH].
  - rewrite Nat.add_0_r, Nat.mod_small; [done|apply H].
  - cbn [Nat.iter nat_rect evict1 g_cache_next]. change (nat_rect _ c _ k) with (Nat.iter k evict1 c). rewrite IH.
    rewrite Nat.Div0.add_mod_idemp_l. f_equal. lia.
Qed.
(** The slots the eviction pointer has passed are empty. *)
Lemma iter_evict_slots k c j : cache_inv c -> (j < k)%nat ->
  slot_at (Nat.iter k evict1 c) ((g_cache_next c + j) mod FSQ_CACHE_ENTRIES) = None.
Proof.
  intros H. induction k as [|k IH]; intros Hj; [lia|]. change (Nat.iter (S k) evict1 c) with (evict1 (Nat.iter k evict1 c)).
  rewrite evict1_slot by by apply iter_evict_inv. destruct (decide _) as [|Hne]; [done|]. apply IH.
  rewrite iter_evict_next in Hne by done. destruct (decide (j = k)) as [->|]; [done|lia].
Qed.
Lemma all_empty_bytes c : cache_inv c -> (forall i, (i < FSQ_CACHE_ENTRIES)%nat -> slot_at c i = None) -> g_cache_bytes c = 0.
Proof.
  intros H He. rewrite (ci_bytes c H).
  assert (Hn : forall l, Forall (fun s => s = None) l -> total l = 0) by (induction 1 as [|s l -> _ IH]; cbn [total slot_len]; lia).
  apply Hn, Forall_lookup. intros i s Hi. assert (i < FSQ_CACHE_ENTRIES)%nat.
  { rewrite <- (ci_len c H). by eapply lookup_lt_Some. }
  rewrite (slot_lookup c i H) in Hi by done. rewrite He in Hi by done. by simplify_eq.
Qed.
Lemma evict_iter n len c : exists m, evict n len c = Nat.iter m evict1 c /\
  (m = n \/ u64 (g_cache_bytes (evict n len c) + len) <= FSQ_CACHE_MAX_BYTES).
Proof.
  revert c. induction n as [|n IH]; intros c; [exists 0%nat; by split; [|left]|]. cbn [evict].
  destruct (_ <? _) eqn:E; [|exists 0%nat; split; [done|right; lia]].
  destruct (IH (evict1 c)) as (m & Hm & Hor). exists (S m). split; [by rewrite Nat.iter_succ_r|]. destruct Hor; [left; lia|by right].
Qed.
(** The eviction loop makes room: the skipped insert of the source is dead. *)
Lemma evict_room len c : cache_inv c -> 0 <= len <= FSQ_CACHE_ENTRY_MAX ->
  u64 (g_cache_bytes (evict (S FSQ_CACHE_ENTRIES) len c) + len) <= FSQ_CACHE_MAX_BYTES.
Proof.
  intros H Hl. destruct (evict_iter (S FSQ_CACHE_ENTRIES) len c) as (m & Hm & [->|Hb]); [|done]. rewrite Hm.
  rewrite all_empty_bytes; [rewrite u64_id; unfold FSQ_CACHE_ENTRY_MAX, FSQ_CACHE_MAX_BYTES in *; lia|by apply iter_evict_inv|].
  intros i Hi. pose proof (ci_next c H) as Hn.
  replace i with ((g_cache_next c + (i + FSQ_CACHE_ENTRIES - g_cache_next c) mod FSQ_CACHE_ENTRIES) mod FSQ_CACHE_ENTRIES)%nat.
  - apply iter_evict_slots; [done|]. pose proof (Nat.mod_upper_bound (i + FSQ_CACHE_ENTRIES - g_cache_next c) FSQ_CACHE_ENTRIES ltac:(done)). lia.
  - rewrite Nat.Div0.add_mod_idemp_r. replace (g_cache_next c + _)%nat with (i + 1 * FSQ_CACHE_ENTRIES)%nat by lia.
    rewrite Nat.Div0.mod_add. by apply Nat.mod_small.
Qed.
Lemma find_locked_some t c i : cache_inv c -> cache_find_locked t c = Some i ->
  (i < FSQ_CACHE_ENTRIES)%nat /\ exists e, slot_at c i = Some e /\ e_token e = t.
Proof.
  intros H Hf. apply findi_some in Hf as (s & Hs & Ht & _). split; [rewrite <- (ci_len c H); by eapply lookup_lt_Some|].
  unfold slot_at. rewrite Hs. destruct s as [e|]; [|done]. exists e. split; [done|]. cbn in Ht. lia.
Qed.
Lemma find_locked_none t c i e : cache_find_locked t c = None -> slot_at c i = Some e -> e_token e <> t.
Proof.
  intros Hf Hs. apply findi_none in Hf. unfold slot_at in Hs. destruct (g_cache c !! i) as [s|] eqn:E; [|done]. cbn in Hs. subst s.
  rewrite Forall_lookup in Hf. specialize (Hf i _ E). cbn in Hf. lia.
Qed.
Lemma find_locked_unique c i e : cache_inv c -> slot_at c i = Some e -> cache_find_locked (e_token e) c = Some i.
Proof.
  intros H Hs. destruct (cache_find_locked (e_token e) c) as [j|] eqn:E; [|by pose proof (find_locked_none _ _ _ _ E Hs)].
  destruct (find_locked_some _ _ _ H E) as (_ & e' & Hs' & Ht). f_equal. by apply (ci_unique c H j i e' e).
Qed.
(** A replay answers exactly from an occupied slot with the token and name. *)
Lemma replay_iff t name c rep : cache_inv c ->
  cache_replay true t name c = Some rep <->
  exists i, slot_at c i = Some {| e_token := t; e_reply := rep; e_name := name |}.
Proof.
  intros H. unfold cache_replay. split.
  - destruct (cache_find_locked t c) as [i|] eqn:E; [|done]. destruct (find_locked_some _ _ _ H E) as (_ & e & Hs & Ht).
    rewrite Hs. destruct (bytes_eqb _ _) eqn:Eb; [|done]. apply bytes_eqb_true in Eb. cbn. intros [= <-]. exists i. rewrite Hs.
    destruct e; cbn in *; by subst.
  - intros [i Hs]. pose proof (find_locked_unique c i _ H Hs) as Hf. cbn [e_token] in Hf. rewrite Hf, Hs. cbn [e_name e_reply].
    replace (bytes_eqb name name) with true; [done|]. symmetry. by apply bytes_eqb_true.
Qed.

Definition entry_of (o : put_op) : fsq_cache_entry := {| e_token := p_token o; e_reply := p_reply o; e_name := p_name o |}.
Lemma stores_ok o : stores o = true -> cache_entry_ok (Some (entry_of o)) /\ p_alloc o = true /\ cacheable (p_token o) (p_reply o) (p_name o) = true.
Proof.
  intros H. apply andb_true_iff in H as [H ->]. split; [|done]. unfold cacheable in H. cbn. unfold e_len, entry_of. cbn. lia.
Qed.
(** Where a stored reply goes: its token's slot, or the oldest slot left by
    the eviction. *)
Lemma put_spec c o : cache_inv c -> stores o = true ->
  exists c1 i n, put c o = cache_store i n (entry_of o) c1 /\ cache_inv c1 /\ (i < FSQ_CACHE_ENTRIES)%nat /\ (n < FSQ_CACHE_ENTRIES)%nat /\
    (forall j e, slot_at c1 j = Some e -> slot_at c j = Some e) /\
    (forall j e, slot_at c1 j = Some e -> e_token e = p_token o -> j = i) /\
    (cache_find_locked (p_token o) c = None ->
       c1 = evict (S FSQ_CACHE_ENTRIES) (blen (r_body (p_reply o))) c /\
       i = g_cache_next c1 /\ n = ((i + 1) mod FSQ_CACHE_ENTRIES)%nat /\
       g_cache_bytes c1 + blen (r_body (p_reply o)) <= FSQ_CACHE_MAX_BYTES) /\
    (forall k, cache_find_locked (p_token o) c = Some k -> c1 = c /\ i = k /\ n = g_cache_next c).
Proof.
  intros H Ho. destruct (stores_ok o Ho) as (Hok & Ha & Hc). unfold put, cache_put. rewrite Ha, Hc. cbn [negb].
  destruct (cache_find_locked (p_token o) c) as [i|] eqn:E.
  - destruct (find_locked_some _ _ _ H E) as (Hi & e & Hs & Ht). exists c, i, (g_cache_next c).
    split_and!; try done; try apply H; try (intros k Hk; by simplify_eq).
    intros j e' Hj Ht'. apply (ci_unique c H j i e' e Hj Hs). congruence.
  - set (len := blen _). assert (Hl : 0 <= len <= FSQ_CACHE_ENTRY_MAX) by (destruct Hok as [_ Hok]; unfold e_len, entry_of in Hok; cbn in Hok; unfold len, blen in *; lia).
    pose proof (evict_room len c H Hl) as Hr. pose proof (evict_inv (S FSQ_CACHE_ENTRIES) len c H) as H1.
    set (c1 := evict _ len c) in *. assert ((FSQ_CACHE_MAX_BYTES <? u64 (g_cache_bytes c1 + len)) = false) as -> by lia.
    exists c1, (g_cache_next c1), ((g_cache_next c1 + 1) mod FSQ_CACHE_ENTRIES)%nat.
    split; [done|]. split; [done|]. split; [apply H1|]. split; [apply next_mod|]. split; [by intros j e; apply evict_slot|]. split.
    + intros j e Hj Ht. apply evict_slot in Hj; [|done]. by pose proof (find_locked_none _ _ _ _ E Hj).
    + split; [|done]. intros _. split_and!; try done. pose proof (inv_total c1 H1). rewrite u64_id in Hr; [done|].
      unfold FSQ_CACHE_ENTRY_MAX in Hl. lia.
Qed.
Lemma cache_store_slot c i n e j : cache_inv c -> (i < FSQ_CACHE_ENTRIES)%nat ->
  slot_at (cache_store i n e c) j = if decide (i = j) then Some e else slot_at c j.
Proof. apply slot_insert. Qed.
Lemma u64_sub_add a b : u64 (u64 a + b) = u64 (a + b).
Proof. unfold u64. by rewrite Z.add_mod_idemp_l. Qed.
Lemma cache_store_inv c i n e : cache_inv c -> (i < FSQ_CACHE_ENTRIES)%nat -> (n < FSQ_CACHE_ENTRIES)%nat -> cache_entry_ok (Some e) ->
  (forall j e', slot_at c j = Some e' -> e_token e' = e_token e -> j = i) -> cache_inv (cache_store i n e c).
Proof.
  intros H Hi Hn He Hu. unfold cache_store. rewrite u64_sub_add. apply insert_inv; try done.
  intros e1 j e' [= <-] Hj Ht. symmetry. by apply (Hu j e').
Qed.
Lemma put_id c o : stores o = false -> put c o = c.
Proof.
  unfold stores, put, cache_put. destruct (cacheable _ _ _), (p_alloc o); try done.
Qed.
Lemma put_inv c o : cache_inv c -> cache_inv (put c o).
Proof.
  intros H. destruct (stores o) eqn:Ho; [|by rewrite put_id].
  destruct (put_spec c o H Ho) as (c1 & i & n & -> & H1 & Hi & Hn & _ & Hu & _). apply cache_store_inv; try done.
  by apply stores_ok.
Qed.
Lemma puts_inv os c : cache_inv c -> cache_inv (puts c os).
Proof. revert c. induction os as [|o os IH]; intros c H; [done|]. by apply IH, put_inv. Qed.
Lemma last_put_app t os o acc : last_put t (os ++ [o]) acc =
  if stores o && (p_token o =? t) then Some (p_reply o, p_name o) else last_put t os acc.
Proof. revert acc. induction os as [|x os IH]; intros acc; [done|]. cbn. apply IH. Qed.
(** Every occupied slot holds what the last stored put of its token stored. *)
Lemma puts_last os i e : slot_at (puts cache0 os) i = Some e -> last_put (e_token e) os None = Some (e_reply e, e_name e).
Proof.
  revert i e. induction os as [|o os IH] using rev_ind; intros i e Hs.
  - unfold slot_at in Hs. cbn [puts fold_left cache0 g_cache] in Hs. destruct (repeat None FSQ_CACHE_ENTRIES !! i) as [s|] eqn:E; [|done].
    cbn in Hs. apply list_elem_of_lookup_2, list_elem_of_In, repeat_spec in E. by subst.
  - rewrite last_put_app. unfold puts in Hs. rewrite fold_left_app in Hs. cbn [fold_left] in Hs. change (fold_left put os cache0) with (puts cache0 os) in Hs.
    pose proof (puts_inv os cache0 cache_inv0) as H. destruct (stores o) eqn:Ho; [|rewrite put_id in Hs by done; by apply (IH i)].
    destruct (put_spec _ o H Ho) as (c1 & k & n & Hp & H1 & Hk & _ & Hsub & Hu & _). rewrite Hp, cache_store_slot in Hs by done.
    destruct (decide (k = i)) as [->|Hne]; [simplify_eq; cbn [entry_of e_token e_reply e_name]; by rewrite Z.eqb_refl|].
    destruct (Z.eqb_spec (p_token o) (e_token e)) as [Ht|Ht]; cbn [andb]; [|apply (IH i); by apply Hsub].
    destruct Hne. symmetry. by apply (Hu i e).
Qed.
Lemma slot_len_le c i : cache_inv c -> (i < FSQ_CACHE_ENTRIES)%nat -> slot_len (slot_at c i) <= g_cache_bytes c.
Proof.
  intros H Hi. pose proof (total_insert _ _ _ None (slot_lookup c i H Hi)) as Ht. cbn [slot_len] in Ht.
  pose proof (total_nonneg (<[i := None]> (g_cache c))). rewrite (ci_bytes c H). lia.
Qed.
Lemma cache_store_bytes c i n e : cache_inv c -> (i < FSQ_CACHE_ENTRIES)%nat -> cache_entry_ok (Some e) ->
  g_cache_bytes (cache_store i n e c) <= g_cache_bytes c + e_len e.
Proof.
  intros H Hi [_ He]. cbn [cache_store g_cache_bytes]. rewrite u64_sub_add. pose proof (slot_len_le c i H Hi).
  pose proof (inv_total c H). pose proof (slot_len_nonneg (slot_at c i)). pose proof (slot_len_nonneg (Some e)) as Hn. cbn in Hn.
  unfold FSQ_CACHE_ENTRY_MAX in He. rewrite u64_id; lia.
Qed.
Definition put_len (o : put_op) : Z := blen (r_body (p_reply o)).
Lemma evict_fits n len c : cache_inv c -> 0 <= len -> g_cache_bytes c + len <= FSQ_CACHE_MAX_BYTES -> evict n len c = c.
Proof.
  intros H Hl Hb. destruct n; [done|]. cbn [evict]. pose proof (inv_total c H). unfold FSQ_CACHE_MAX_BYTES in *.
  rewrite u64_id by lia. assert ((64 * 1024 * 1024 <? g_cache_bytes c + len) = false) as -> by lia. done.
Qed.
(** One more put leaves an entry that is not the oldest where it is. *)
Lemma put_keeps c o i a e : cache_inv c -> p_token o <> e_token e -> slot_at c i = Some e -> (i < FSQ_CACHE_ENTRIES)%nat ->
  (a < 255)%nat -> g_cache_next c = ((i + 1 + a) mod FSQ_CACHE_ENTRIES)%nat -> g_cache_bytes c + put_len o <= FSQ_CACHE_MAX_BYTES ->
  slot_at (put c o) i = Some e /\ g_cache_bytes (put c o) <= g_cache_bytes c + put_len o /\
  (g_cache_next (put c o) = g_cache_next c \/ g_cache_next (put c o) = ((i + 1 + S a) mod FSQ_CACHE_ENTRIES)%nat).
Proof.
  intros H Hne Hs Hi Ha Hn Hb. assert (Hl : 0 <= put_len o) by (unfold put_len, blen; lia).
  destruct (stores o) eqn:Ho; [|rewrite put_id by done; split_and!; [done|lia|by left]].
  destruct (put_spec c o H Ho) as (c1 & k & n & -> & H1 & Hk & _ & _ & _ & Hnone & Hsome). rewrite cache_store_slot by done.
  pose proof (cache_store_bytes c1 k n (entry_of o) H1 Hk (proj1 (stores_ok o Ho))) as Hsb. change (e_len (entry_of o)) with (put_len o) in Hsb.
  destruct (cache_find_locked (p_token o) c) as [j|] eqn:E.
  - destruct (Hsome j eq_refl) as (-> & -> & ->). destruct (find_locked_some _ _ _ H E) as (_ & e' & Hs' & Ht).
    rewrite decide_False by (intros ->; congruence). by split_and!; [| |left].
  - destruct (Hnone eq_refl) as (Hc1 & Hk' & -> & _). change (blen (r_body (p_reply o))) with (put_len o) in Hc1.
    rewrite evict_fits in Hc1 by done. subst c1. rewrite Hn in Hk'.
    assert (k <> i).
    { intros ->. unfold FSQ_CACHE_ENTRIES in *. destruct (Nat.lt_ge_cases (i + 1 + a) 256) as [Hlt|Hge].
      - rewrite Nat.mod_small in Hk' by done. lia.
      - replace (i + 1 + a)%nat with ((i + 1 + a - 256) + 1 * 256)%nat in Hk' by lia. rewrite Nat.Div0.mod_add, Nat.mod_small in Hk' by lia. lia. }
    rewrite decide_False by done. split_and!; [done|done|right]. cbn [cache_store g_cache_next]. rewrite Hk'. rewrite Nat.Div0.add_mod_idemp_l. f_equal. lia.
Qed.
Definition sum_len (os : list put_op) : Z := fold_right (fun o n => put_len o + n) 0 os.
Lemma sum_len_cons o os : sum_len (o :: os) = put_len o + sum_len os.
Proof. done. Qed.
Lemma sum_len_nonneg os : 0 <= sum_len os.
Proof.
  induction os as [|o os IH]; [done|]. rewrite sum_len_cons. assert (0 <= put_len o) by (unfold put_len, blen; lia). lia.
Qed.
Lemma puts_keep os : forall c i a e, cache_inv c -> Forall (fun o => p_token o <> e_token e) os -> slot_at c i = Some e ->
  (i < FSQ_CACHE_ENTRIES)%nat -> (a + length os <= 255)%nat -> g_cache_next c = ((i + 1 + a) mod FSQ_CACHE_ENTRIES)%nat ->
  g_cache_bytes c + sum_len os <= FSQ_CACHE_MAX_BYTES -> slot_at (puts c os) i = Some e.
Proof.
  induction os as [|o os IH]; intros c i a e H Ht Hs Hi Ha Hn Hb; [done|]. apply Forall_cons in Ht as [Ht1 Ht].
  rewrite sum_len_cons in Hb. cbn [length] in Ha. pose proof (sum_len_nonneg os).
  destruct (put_keeps c o i a e H Ht1 Hs Hi ltac:(lia) Hn ltac:(lia)) as (Hs' & Hb' & Hor).
  cbn [puts fold_left]. change (fold_left put os (put c o)) with (puts (put c o) os).
  destruct Hor as [Hor|Hor]; [apply (IH _ i a)|apply (IH _ i (S a))]; try done; try (by apply put_inv); try lia; congruence.
Qed.

Lemma replay_kept c o os :
  cache_inv c -> stores o = true -> cache_find_locked (p_token o) c = None ->
  Forall (fun o' => p_token o' <> p_token o) os -> (length os <= 255)%nat ->
  g_cache_bytes (put c o) + sum_len os <= FSQ_CACHE_MAX_BYTES ->
  cache_replay true (p_token o) (p_name o) (puts (put c o) os) = Some (p_reply o).
Proof.
  intros H Ho Hf Ht Hl Hb. pose proof (put_inv c o H) as H'. apply replay_iff; [by apply puts_inv|].
  destruct (put_spec c o H Ho) as (c1 & i & n & Hp & H1 & Hi & _ & _ & _ & Hnone & _).
  destruct (Hnone Hf) as (_ & _ & -> & _). exists i. apply (puts_keep os _ i 0 (entry_of o)); try done.
  - by rewrite Hp, cache_store_slot, decide_True.
  - rewrite Hp. cbn [cache_store g_cache_next]. f_equal. lia.
Qed.

(** ** Properties *)

(** From the empty cache every history of puts keeps the ring well formed:
    256 slots, the next slot in range, exact byte accounting, no token 0, no
    body over the entry cap, one slot per token; and inserting a fresh token
    always finds room, leaving at most the aggregate cap in the ring. *)
Theorem cache_well_formed os o : let c := puts cache0 os in
  cache_inv c /\
  (stores o = true -> cache_find_locked (p_token o) c = None ->
     g_cache_bytes (put c o) <= FSQ_CACHE_MAX_BYTES /\ cache_find_locked (p_token o) (put c o) <> None).
Proof.
  intros c. assert (H : cache_inv c) by apply puts_inv, cache_inv0. split; [done|]. intros Ho Hf.
  destruct (put_spec c o H Ho) as (c1 & i & n & Hp & H1 & Hi & Hn & _ & Hu & Hnone & _).
  destruct (Hnone Hf) as (_ & _ & _ & Hb). pose proof (put_inv c o H) as H2. rewrite Hp in *. split.
  - pose proof (cache_store_bytes c1 i n (entry_of o) H1 Hi (proj1 (stores_ok o Ho))) as Hsb. change (e_len (entry_of o)) with (blen (r_body (p_reply o))) in Hsb. lia.
  - intros Hnf. by refine (find_locked_none _ _ i (entry_of o) Hnf _ eq_refl); rewrite cache_store_slot, decide_True.
Qed.
Definition rep_a : fsq_reply := {| r_status := 0; r_core_rc := 0; r_body := [1; 0; 1; 0; 0; 0; 55] |}.
Definition op_a (t : Z) : put_op := {| p_alloc := true; p_token := t; p_reply := rep_a; p_name := bs "fractal_ledger_load" |}.
Lemma cache_well_formed_witness : g_cache_bytes (put (puts cache0 [op_a 1; op_a 2]) (op_a 3)) <= FSQ_CACHE_MAX_BYTES.
Proof. apply (cache_well_formed [op_a 1; op_a 2] (op_a 3)); vm_compute; reflexivity. Defined.

(** C11: the ring refines the map from a token to its last stored reply: after
    any history a replay answers only with the last reply stored for that very
    token, under the function name it was stored for. *)
Theorem replay_refines_last_put os alloc token name rep :
  cache_replay alloc token name (puts cache0 os) = Some rep -> last_put token os None = Some (rep, name).
Proof.
  intros Hr. pose proof (puts_inv os cache0 cache_inv0) as H. destruct alloc.
  - apply replay_iff in Hr as [i Hs]; [|done]. by apply puts_last in Hs.
  - unfold cache_replay in Hr. destruct (cache_find_locked _ _) as [i|]; [|done]. destruct (slot_at _ i); [|done]. by destruct (negb _).
Qed.
Lemma replay_refines_last_put_witness : last_put 7 [op_a 7; op_a 8] None = Some (rep_a, bs "fractal_ledger_load").
Proof. apply (replay_refines_last_put _ true). vm_compute. reflexivity. Defined.

(** A stored reply under a fresh token is replayed, and stays so through
    the next 255 puts of other tokens while the bodies together fit the cap. *)
Theorem replay_survives c o os :
  cache_inv c -> stores o = true -> cache_find_locked (p_token o) c = None ->
  Forall (fun o' => p_token o' <> p_token o) os -> (length os <= 255)%nat ->
  g_cache_bytes (put c o) + sum_len os <= FSQ_CACHE_MAX_BYTES ->
  cache_replay true (p_token o) (p_name o) (puts (put c o) os) = Some (p_reply o).
Proof. apply replay_kept. Qed.
Lemma replay_survives_witness :
  cache_replay true 9 (bs "fractal_ledger_load") (puts (put cache0 (op_a 9)) [op_a 10; op_a 11; op_a 10]) = Some rep_a.
Proof.
  apply (replay_survives cache0 (op_a 9)); [apply cache_inv0|reflexivity|vm_compute; reflexivity| |cbn; lia|vm_compute; discriminate].
  repeat constructor; discriminate.
Defined.
