(* ===== verification/Daemon.v ===== *)
(** * The daemon's request handling (service/daemon/fractalsqld.c)

    The statement handles, the request handlers, RELOAD, dispatch, and the
    frame loop of a connection.  The UDF bodies (the adapter) and the three
    provider consumers are interfaces; each malloc consults the oracle
    [malloc_ok] with the count of allocations so far, so every out-of-memory
    path of the source is a path of the model.  A handler is a state passing
    function; handle_call is the sequence of its front, its execution and its
    end, which is also where other connections' steps can come between. *)

From stdpp Require Import gmap.
From S2P Require Import Prelude Wire Sha256 DaemonConf Cache.

(** ** Data *)

(** enum Item_result *)
Inductive Item_result := STRING_RESULT | REAL_RESULT | INT_RESULT | DECIMAL_RESULT.
#[export] Instance Item_result_eq_dec : EqDecision Item_result.
Proof. solve_decision. Defined.

Definition wire_to_item (t : Z) : Item_result :=
  if t =? FSQ_T_INT then INT_RESULT else if t =? FSQ_T_REAL then REAL_RESULT
  else if t =? FSQ_T_DECIMAL then DECIMAL_RESULT else STRING_RESULT.
Definition item_to_wire (t : Item_result) : Z :=
  match t with INT_RESULT => FSQ_T_INT | REAL_RESULT => FSQ_T_REAL | DECIMAL_RESULT => FSQ_T_DECIMAL | STRING_RESULT => FSQ_T_STRING end.

(** One TLV argument of a request. *)
Record fsq_arg := { a_type : Z; a_is_null : Z; a_bytes : list Z }.

Fixpoint parse_args (nargs : nat) (p : list Z) : option (list fsq_arg) :=
  match nargs with
  | O => match p with [] => Some [] | _ => None end
  | S m =>
      if (length p <? 6)%nat then None
      else
        let len := fsq_get_u32 (drop 2 p) in
        let r := drop 6 p in
        if Z.of_nat (length r) <? len then None
        else match parse_args m (drop (Z.to_nat len) r) with
             | Some l => Some ({| a_type := at_ p 0; a_is_null := at_ p 1; a_bytes := take (Z.to_nat len) r |} :: l)
             | None => None end
  end.

(** What UDF_ARGS shows the adapter of one argument: NULL or the value. *)
Inductive arg_val := AV_null | AV_int (v : Z) | AV_real (bits : Z) | AV_str (b : list Z).

(** UDF_INIT; [I] is what the adapter parks in initid->ptr. *)
Record UDF_INIT {I : Type} := { ui_max_length : Z; ui_maybe_null : bool; ui_ptr : I }.
Arguments UDF_INIT : clear implicits.

(** What a UDF body leaves: *error, *is_null, the string at the returned
    pointer, or the integer or the bits of the double. *)
Record udf_out := { uo_err : bool; uo_null : bool; uo_str : list Z; uo_val : Z }.

(** The adapter: the generated table's init, main and deinit of a function. *)
Class Adapter (W I : Type) := {
  udf_init : list Z -> list (Item_result * arg_val) -> W -> W * (list Z + UDF_INIT I);
  udf_main : list Z -> UDF_INIT I -> list (Item_result * arg_val) -> W -> W * UDF_INIT I * udf_out;
  udf_deinit : list Z -> UDF_INIT I -> W -> W;
}.
(** The three provider consumers; [true] is the return 0. *)
Class Consumers (W : Type) := {
  cognition_check : fsq_config -> W -> bool;
  textsql_check : fsq_config -> W -> bool;
  enterprise_check : fsq_config -> W -> bool;
  cognition_apply : fsq_config -> W -> W * bool;
  textsql_apply : fsq_config -> W -> W * bool;
  enterprise_apply : fsq_config -> W -> W * bool;
}.

(** struct fsq_handle *)
Record fsq_handle {I : Type} := {
  hd_id : Z; hd_name : list Z; hd_kind : fsq_kind; hd_init : UDF_INIT I;
  hd_types : list Item_result; hd_owner : Z; hd_cancelled : bool }.
Arguments fsq_handle : clear implicits.

(** The daemon's globals, the adapter's world and the allocation count. *)
Record daemon {W I : Type} := {
  d_handles : list (fsq_handle I); d_next_handle : Z;
  d_cache : cache; d_snaps : snap_heap; d_next_conn : Z;
  d_world : W; d_mallocs : nat }.
Arguments daemon : clear implicits.

Section Daemon.
Context {W I : Type} {AD : Adapter W I} {CO : Consumers W}.
(** [junk] is what the uninitialised block of the digest holds. *)
Context (malloc_ok : nat -> bool) (junk : list Z).

#[local] Abbreviation D := (daemon W I).
#[local] Abbreviation H := (fsq_handle I).

Definition M (A : Type) : Type := D -> A * D.
Definition ret {A} (a : A) : M A := fun d => (a, d).
Definition bind {A B} (m : M A) (k : A -> M B) : M B := fun d => let '(a, d) := m d in k a d.
#[local] Notation "'let*' x ':=' e 'in' k" := (bind e (fun x => k)) (at level 10, x pattern, e at level 200, k at level 200).

Definition set_handles (l : list H) (d : D) : D :=
  {| d_handles := l; d_next_handle := d_next_handle d; d_cache := d_cache d; d_snaps := d_snaps d;
     d_next_conn := d_next_conn d; d_world := d_world d; d_mallocs := d_mallocs d |}.
Definition set_world (w : W) (d : D) : D :=
  {| d_handles := d_handles d; d_next_handle := d_next_handle d; d_cache := d_cache d; d_snaps := d_snaps d;
     d_next_conn := d_next_conn d; d_world := w; d_mallocs := d_mallocs d |}.
Definition set_cache (c : cache) (d : D) : D :=
  {| d_handles := d_handles d; d_next_handle := d_next_handle d; d_cache := c; d_snaps := d_snaps d;
     d_next_conn := d_next_conn d; d_world := d_world d; d_mallocs := d_mallocs d |}.
Definition set_snaps (s : snap_heap) (d : D) : D :=
  {| d_handles := d_handles d; d_next_handle := d_next_handle d; d_cache := d_cache d; d_snaps := s;
     d_next_conn := d_next_conn d; d_world := d_world d; d_mallocs := d_mallocs d |}.
Definition set_ids (h c : Z) (n : nat) (d : D) : D :=
  {| d_handles := d_handles d; d_next_handle := h; d_cache := d_cache d; d_snaps := d_snaps d;
     d_next_conn := c; d_world := d_world d; d_mallocs := n |}.

Definition malloc : M bool := fun d => (malloc_ok (d_mallocs d), set_ids (d_next_handle d) (d_next_conn d) (S (d_mallocs d)) d).

(** ** Replies *)

(** The tag of a frame; out of memory leaves it all zero. *)
Definition mac (key hdr payload : list Z) : M (list Z) :=
  let* ok := malloc in
  ret (if ok then fsq_hmac_sha256 junk key (hdr ++ payload) else repeat 0 32).

Definition set_text (status : Z) (text : list Z) : M fsq_reply :=
  let n := Nat.min (length text) (Z.to_nat (FSQ_MSG_MAX - 1)) in
  let* ok := malloc in
  ret {| r_status := status; r_core_rc := 0; r_body := if ok then take n text else [] |}.

(** [None] is the return -1; [sent] says whether write_all succeeds. *)
Definition send_reply (sent : bool) (key : list Z) (req : fsq_header) (rep : fsq_reply) : M (option (list Z)) :=
  let plen := u32 (8 + blen (r_body rep)) in
  let* ok := malloc in
  if negb ok then ret None
  else
    let payload := fsq_put_u32 (r_status rep) ++ fsq_put_u32 (u32 (r_core_rc rep)) ++ r_body rep in
    let h := {| h_version := FSQ_PROTOCOL_VERSION; h_opcode := h_opcode req;
                h_flags := Z.lor FSQ_FLAG_RESPONSE (if r_status rep =? FSQ_OK then 0 else FSQ_FLAG_ERROR);
                h_request_id := h_request_id req; h_context := h_context req;
                h_auth_len := FSQ_TAG_LEN; h_payload_len := plen |} in
    let hdr := fsq_header_encode h in
    let* tag := mac key hdr payload in
    ret (if sent then Some (hdr ++ tag ++ payload) else None).

(** ** Handles *)

(** The generated table g_fn_table is functions.def. *)
Definition find_fn (name : list Z) : option (list Z * fsq_kind * fsq_cls) :=
  List.find (fun f => bytes_eqb (fst (fst f)) name) functions_def.

Definition handle_find_locked (conn id : Z) (l : list H) : option H :=
  List.find (fun h => (hd_id h =? id) && (hd_owner h =? conn)) l.
Definition upd_handle (id : Z) (f : H -> H) (l : list H) : list H :=
  map (fun h => if hd_id h =? id then f h else h) l.
Definition with_cancelled (b : bool) (h : H) : H :=
  {| hd_id := hd_id h; hd_name := hd_name h; hd_kind := hd_kind h; hd_init := hd_init h;
     hd_types := hd_types h; hd_owner := hd_owner h; hd_cancelled := b |}.
Definition with_init (i : UDF_INIT I) (h : H) : H :=
  {| hd_id := hd_id h; hd_name := hd_name h; hd_kind := hd_kind h; hd_init := i;
     hd_types := hd_types h; hd_owner := hd_owner h; hd_cancelled := hd_cancelled h |}.

Definition long_long (b : list Z) : Z := s64 (fsq_get_u64 b).

(** The arguments init sees; [None] with the status of the failure. *)
Fixpoint const_args (ins : list fsq_arg) : M (Z + list (Item_result * arg_val)) :=
  match ins with
  | [] => ret (inr [])
  | a :: r =>
      let t := wire_to_item (a_type a) in
      if negb (a_is_null a =? 0) then
        let* rest := const_args r in
        ret (match rest with inr l => inr ((t, AV_null) :: l) | inl e => inl e end)
      else
        let* ok := malloc in
        if negb ok then ret (inl FSQ_ERR_INTERNAL)
        else match t with
        | INT_RESULT =>
            if negb (blen (a_bytes a) =? 8) then ret (inl FSQ_ERR_ARGS)
            else let* rest := const_args r in
                 ret (match rest with inr l => inr ((t, AV_int (long_long (a_bytes a))) :: l) | inl e => inl e end)
        | REAL_RESULT =>
            if negb (blen (a_bytes a) =? 8) then ret (inl FSQ_ERR_ARGS)
            else let* rest := const_args r in
                 ret (match rest with inr l => inr ((t, AV_real (fsq_get_u64 (a_bytes a))) :: l) | inl e => inl e end)
        | _ => let* rest := const_args r in
               ret (match rest with inr l => inr ((t, AV_str (a_bytes a)) :: l) | inl e => inl e end)
        end
  end.

(** namelen u8, name[namelen], nargs u32, TLV args. *)
Definition parse_init (p : list Z) : option (list Z * list fsq_arg) :=
  match p with
  | [] => None
  | namelen :: q =>
      let nl := Z.to_nat namelen in
      if (length q <? nl + 4)%nat then None
      else
        let nargs := fsq_get_u32 (drop nl q) in
        if FSQ_MAX_ARGS <? nargs then None
        else match parse_args (Z.to_nat nargs) (drop (nl + 4) q) with
             | Some ins => Some (take nl q, ins) | None => None end
  end.

Definition handle_init (conn : Z) (p : list Z) : M fsq_reply :=
  match parse_init p with
  | None => set_text FSQ_ERR_ARGS (bs "malformed init request")
  | Some (name, ins) =>
  match find_fn name with
  | None => set_text FSQ_ERR_NOTSUP (bs "unknown function")
  | Some (_, kind, _) =>
  let nargs := Z.of_nat (length ins) in
  let* h := malloc in
  if negb h then set_text FSQ_ERR_INTERNAL (bs "out of memory") else
  let* m1 := malloc in let* m2 := malloc in let* m3 := malloc in let* m4 := malloc in
  if negb (m1 && m2 && m3 && m4) then set_text FSQ_ERR_INTERNAL (bs "out of memory") else
  let* args := const_args ins in
  match args with
  | inl e => set_text e (if e =? FSQ_ERR_INTERNAL then bs "out of memory" else bs "malformed init request")
  | inr args => fun d =>
  match udf_init name args (d_world d) with
  | (w, inl msg) => set_text FSQ_ERR_ARGS (match cstr msg with [] => bs "initialization failed" | m => m end) (set_world w d)
  | (w, inr init) =>
      let id := d_next_handle d in
      let d := set_ids (u64 (id + 1)) (d_next_conn d) (d_mallocs d) (set_world w d) in
      let '(ok, d) := malloc d in
      if negb ok then set_text FSQ_ERR_INTERNAL (bs "out of memory") (set_world (udf_deinit name init (d_world d)) d)
      else
        let body := fsq_put_u64 id ++ fsq_put_u32 (u32 (ui_max_length init)) ++ [if ui_maybe_null init then 1 else 0] ++
                    fsq_put_u32 nargs ++ map (fun tv => item_to_wire (fst tv)) args in
        let hd := {| hd_id := id; hd_name := name; hd_kind := kind; hd_init := init; hd_types := map fst args;
                     hd_owner := conn; hd_cancelled := false |} in
        ({| r_status := FSQ_OK; r_core_rc := 0; r_body := body |}, set_handles (hd :: d_handles d) d)
  end
  end
  end
  end.

(** ** UDF_CALL *)

Definition tlv_result (type : Z) (is_null : bool) (bytes : list Z) : M fsq_reply :=
  let* ok := malloc in
  if negb ok then set_text FSQ_ERR_INTERNAL (bs "out of memory")
  else ret {| r_status := FSQ_OK; r_core_rc := 0;
              r_body := [type; if is_null then 1 else 0] ++ fsq_put_u32 (blen bytes) ++ bytes |}.

(** A cancellation that arrived during the call is consumed here. *)
Definition core_fail (id : Z) : M fsq_reply := fun d =>
  if existsb (fun h => (hd_id h =? id) && hd_cancelled h) (d_handles d)
  then set_text FSQ_ERR_BUSY (bs "cancelled") (set_handles (upd_handle id (with_cancelled false) (d_handles d)) d)
  else set_text FSQ_ERR_CORE [] d.

(** namelen u8, name[namelen], handle u64, nargs u32, TLV args. *)
Definition parse_call (p : list Z) : option (list Z * Z * list fsq_arg) :=
  match p with
  | [] => None
  | namelen :: q =>
      let nl := Z.to_nat namelen in
      if (length q <? nl + 12)%nat then None
      else
        let nargs := fsq_get_u32 (drop (nl + 8) q) in
        if FSQ_MAX_ARGS <? nargs then None
        else match parse_args (Z.to_nat nargs) (drop (nl + 12) q) with
             | Some ins => Some (take nl q, fsq_get_u64 (drop nl q), ins) | None => None end
  end.

(** The arguments of the call, by the types the handle was opened with. *)
Fixpoint call_args (types : list Item_result) (ins : list fsq_arg) : M (Z + list (Item_result * arg_val)) :=
  match types, ins with
  | t :: types, a :: r =>
      let cons (v : arg_val) : M (Z + list (Item_result * arg_val)) :=
        let* rest := call_args types r in
        ret (match rest with inr l => inr ((t, v) :: l) | inl e => inl e end) in
      if negb (a_is_null a =? 0) then cons AV_null
      else match t with
      | INT_RESULT => if negb (blen (a_bytes a) =? 8) then ret (inl FSQ_ERR_ARGS) else cons (AV_int (long_long (a_bytes a)))
      | REAL_RESULT => if negb (blen (a_bytes a) =? 8) then ret (inl FSQ_ERR_ARGS) else cons (AV_real (fsq_get_u64 (a_bytes a)))
      | _ => let* ok := malloc in if negb ok then ret (inl FSQ_ERR_INTERNAL) else cons (AV_str (a_bytes a))
      end
  | _, _ => ret (inr [])
  end.

(** A call that passed every check: its token, handle, function and arguments. *)
Record call := { cl_token : Z; cl_id : Z; cl_name : list Z; cl_kind : fsq_kind; cl_args : list (Item_result * arg_val) }.

(** Up to the execution: the parse, the replay, the handle, the cancellation
    checkpoint, the arguments, the result buffer. *)
Definition call_front (conn token : Z) (p : list Z) : M (fsq_reply + call) :=
  let refuse (m : M fsq_reply) : M (fsq_reply + call) := let* r := m in ret (inl r) in
  match parse_call p with
  | None => refuse (set_text FSQ_ERR_ARGS [])
  | Some (name, id, ins) =>
  let* hit := fun d =>
    if token =? 0 then (None, d)
    else match cache_replay true token name (d_cache d) with
         | None => (None, d)
         | Some _ => let '(ok, d) := malloc d in (cache_replay ok token name (d_cache d), d) end in
  match hit with
  | Some rep => ret (inl rep)
  | None => fun d =>
  match handle_find_locked conn id (d_handles d) with
  | None => refuse (set_text FSQ_ERR_ARGS []) d
  | Some h =>
  if negb (bytes_eqb (hd_name h) name) || negb (length (hd_types h) =? length ins)%nat then refuse (set_text FSQ_ERR_ARGS []) d
  else if hd_cancelled h then
    refuse (set_text FSQ_ERR_BUSY (bs "cancelled")) (set_handles (upd_handle id (with_cancelled false) (d_handles d)) d)
  else (let* args := call_args (hd_types h) ins in
        match args with
        | inl e => refuse (set_text e [])
        | inr args =>
            let c := {| cl_token := token; cl_id := id; cl_name := hd_name h; cl_kind := hd_kind h; cl_args := args |} in
            match hd_kind h with
            | FSQ_KIND_STR => let* ok := malloc in if negb ok then refuse (set_text FSQ_ERR_INTERNAL []) else ret (inr c)
            | _ => ret (inr c)
            end
        end) d
  end
  end
  end.

(** The body runs on the handle's UDF_INIT; no lock is held. *)
Definition call_exec (conn : Z) (c : call) : M udf_out := fun d =>
  match handle_find_locked conn (cl_id c) (d_handles d) with
  | None => ({| uo_err := true; uo_null := false; uo_str := []; uo_val := 0 |}, d)
  | Some h =>
      let '(w, init, out) := udf_main (cl_name c) (hd_init h) (cl_args c) (d_world d) in
      (out, set_handles (upd_handle (cl_id c) (with_init init) (d_handles d)) (set_world w d))
  end.
Definition max_length_of (conn id : Z) (d : D) : Z :=
  match handle_find_locked conn id (d_handles d) with Some h => ui_max_length (hd_init h) | None => 0 end.

(** The result, and its cache entry. *)
Definition call_result (conn : Z) (c : call) (out : udf_out) : M fsq_reply := fun d =>
  match cl_kind c with
  | FSQ_KIND_STR =>
      if uo_err out then core_fail (cl_id c) d
      else if uo_null out then tlv_result FSQ_T_STRING true [] d
      else if max_length_of conn (cl_id c) d <? blen (uo_str out) then set_text FSQ_ERR_LIMIT [] d
      else tlv_result FSQ_T_STRING false (uo_str out) d
  | FSQ_KIND_INT =>
      if uo_err out then core_fail (cl_id c) d else tlv_result FSQ_T_INT (uo_null out) (fsq_put_u64 (u64 (uo_val out))) d
  | FSQ_KIND_REAL =>
      if uo_err out then core_fail (cl_id c) d else tlv_result FSQ_T_REAL (uo_null out) (fsq_put_u64 (uo_val out)) d
  | FSQ_KIND_CTL => set_text FSQ_ERR_NOTSUP [] d
  end.
Definition call_record (c : call) (rep : fsq_reply) : M unit := fun d =>
  if negb (cl_token c =? 0) && ((r_status rep =? FSQ_OK) || (r_status rep =? FSQ_ERR_CORE)) then
    if cacheable (cl_token c) rep (cl_name c) then
      let '(ok, d) := malloc d in (tt, set_cache (cache_put ok (cl_token c) rep (cl_name c) (d_cache d)) d)
    else (tt, d)
  else (tt, d).
Definition call_finish (conn : Z) (c : call) (out : udf_out) : M fsq_reply :=
  let* rep := call_result conn c out in
  let* _ := call_record c rep in
  ret rep.

Definition handle_call (conn token : Z) (p : list Z) : M fsq_reply :=
  let* f := call_front conn token p in
  match f with
  | inl rep => ret rep
  | inr c => let* out := call_exec conn c in call_finish conn c out
  end.

(** ** The other requests *)

Fixpoint unlink_handle (conn id : Z) (l : list H) : option (H * list H) :=
  match l with
  | [] => None
  | h :: r => if (hd_id h =? id) && (hd_owner h =? conn) then Some (h, r)
              else match unlink_handle conn id r with Some (x, r') => Some (x, h :: r') | None => None end
  end.
Definition handle_deinit (conn : Z) (p : list Z) : M fsq_reply := fun d =>
  if (length p <? 8)%nat then set_text FSQ_ERR_ARGS [] d
  else match unlink_handle conn (fsq_get_u64 p) (d_handles d) with
       | Some (h, l) => set_text FSQ_OK [] (set_world (udf_deinit (hd_name h) (hd_init h) (d_world d)) (set_handles l d))
       | None => set_text FSQ_OK [] d
       end.
(** Any connection's handle; only the first with the id is marked. *)
Fixpoint mark_cancelled (id : Z) (l : list H) : option (list H) :=
  match l with
  | [] => None
  | h :: r => if hd_id h =? id then Some (with_cancelled true h :: r)
              else match mark_cancelled id r with Some r' => Some (h :: r') | None => None end
  end.
Definition handle_cancel (p : list Z) : M fsq_reply := fun d =>
  if (length p <? 8)%nat then set_text FSQ_ERR_ARGS [] d
  else match mark_cancelled (fsq_get_u64 p) (d_handles d) with
       | Some l => set_text FSQ_OK [] (set_handles l d)
       | None => set_text FSQ_ERR_ARGS (bs "unknown handle") d
       end.

(** ** RELOAD *)

Definition daemon_check_provider (c : fsq_config) (w : W) : bool :=
  validate_provider_cfg c && (cognition_check c w && textsql_check c w && enterprise_check c w).
(** A consumer that fails leaves the earlier ones applied. *)
Definition daemon_apply_provider (c : fsq_config) (w : W) : W * bool :=
  let '(w, ok) := cognition_apply c w in
  if negb ok then (w, false)
  else let '(w, ok) := textsql_apply c w in
  if negb ok then (w, false) else enterprise_apply c w.

(** What RELOAD reads of the system: the files, their modes, the uid, the path. *)
Record sys := { sy_files : list Z -> option (list Z); sy_stat : list Z -> option Z; sy_euid : Z; sy_path : list Z }.

Definition handle_reload (sy : sys) (cur : fsq_config) : M fsq_reply := fun d =>
  match load_config (sy_files sy) (sy_euid sy) (sy_path sy) with
  | None => set_text FSQ_ERR_ARGS (bs "reload failed: config file unreadable") d
  | Some next =>
  if negb (bytes_eqb (str_of next (bs "socket_path")) (str_of cur (bs "socket_path"))) ||
     negb (bytes_eqb (str_of next (bs "hmac_key_file")) (str_of cur (bs "hmac_key_file"))) then
    set_text FSQ_ERR_ARGS (bs "socket_path and hmac_key_file changes require a restart") d
  else if negb (validate_cfg (sy_stat sy) (Some (sy_path sy)) next) then
    set_text FSQ_ERR_ARGS (bs "reload failed: key/config file permissions rejected") d
  else if negb (daemon_check_provider next (d_world d)) then
    set_text FSQ_ERR_ARGS (bs "reload failed: provider settings rejected (see the daemon log)") d
  else
    let '(w, ok) := daemon_apply_provider next (d_world d) in
    let d := set_world w d in
    if negb ok then set_text FSQ_ERR_ARGS (bs "reload failed: applying provider settings (see the daemon log)") d
    else
      let '(ok, d) := malloc d in
      let q := if ok then Some (fresh (dom (snaps (d_snaps d)))) else None in
      let '(s, ok) := cfg_publish q next (d_snaps d) in
      let d := set_snaps s d in
      if negb ok then set_text FSQ_ERR_INTERNAL (bs "out of memory") d else set_text FSQ_OK (bs "reloaded") d
  end.

(** ** Dispatch *)

Context (FSQL_DAEMON_VERSION : list Z).

Definition dispatch (sy : sys) (cur : fsq_config) (conn : Z) (h : fsq_header) (payload : list Z) : M fsq_reply :=
  let op := h_opcode h in
  if op =? FSQ_OP_PING then
    let* ok := malloc in
    ret {| r_status := FSQ_OK; r_core_rc := 0; r_body := if ok then fsq_put_u16 FSQ_PROTOCOL_VERSION else [] |}
  else if op =? FSQ_OP_VERSION then
    set_text FSQ_OK (take 63 (bs "fractalsqld " ++ FSQL_DAEMON_VERSION ++ bs " protocol " ++ dec_u FSQ_PROTOCOL_VERSION))
  else if op =? FSQ_OP_UDF_INIT then handle_init conn payload
  else if op =? FSQ_OP_UDF_CALL then handle_call conn (h_context h) payload
  else if op =? FSQ_OP_UDF_DEINIT then handle_deinit conn payload
  else if op =? FSQ_OP_CANCEL then handle_cancel payload
  else if op =? FSQ_OP_RELOAD then
    if negb (length payload =? 0)%nat then set_text FSQ_ERR_ARGS (bs "RELOAD takes no payload") else handle_reload sy cur
  else set_text FSQ_ERR_NOTSUP [].

(** ** Connections *)

Definition peer_allowed (cred : option Z) (c : fsq_config) : bool :=
  match cred with None => false | Some uid => existsb (fun u => u =? uid) (allowed_uids c) end.
Definition next_conn_id : M Z := fun d => (d_next_conn d, set_ids (d_next_handle d) (u64 (d_next_conn d + 1)) (d_mallocs d) d).

(** The handles of the connection leave the list first, then each is deinited,
    the oldest first. *)
Definition handle_release_owner (conn : Z) (d : D) : D :=
  let gone := rev (List.filter (fun h => hd_owner h =? conn) (d_handles d)) in
  set_world (fold_left (fun w h => udf_deinit (hd_name h) (hd_init h) w) gone (d_world d))
    (set_handles (List.filter (fun h => negb (hd_owner h =? conn)) (d_handles d)) d).

(** One round of the frame loop: [None] closes the connection, otherwise the
    unread input and the reply's bytes.  [input] is what the peer sends until
    it closes or stays idle. *)
Definition serve_frame (sy : sys) (cur : fsq_config) (conn : Z) (sent : bool) (input : list Z) : M (option (list Z * list Z)) :=
  if (length input <? FSQ_HEADER_LEN)%nat then ret None
  else
    let hdr := take FSQ_HEADER_LEN input in
    let rest := drop FSQ_HEADER_LEN input in
    match fsq_header_decode hdr with
    | None => ret None
    | Some h =>
        if negb (h_version h =? FSQ_PROTOCOL_VERSION) || negb (h_auth_len h =? FSQ_TAG_LEN) then ret None
        else if FSQ_MAX_PAYLOAD <? h_payload_len h then ret None
        else if negb (Z.land (h_flags h) FSQ_FLAG_RESPONSE =? 0) then ret None
        else if (length rest <? 32)%nat then ret None
        else
          let tag := take 32 rest in
          let rest := drop 32 rest in
          let n := Z.to_nat (h_payload_len h) in
          let* ok := if (n =? 0)%nat then ret true else malloc in
          if negb ok || (length rest <? n)%nat then ret None
          else
            let payload := take n rest in
            let* want := mac (key_bytes cur) hdr payload in
            if negb (fsq_ct_equal tag want 32) then ret None
            else
              let* rep := dispatch sy cur conn h payload in
              let* out := send_reply sent (key_bytes cur) h rep in
              ret (match out with Some o => Some (drop n rest, o) | None => None end)
    end.

(** The frames of a connection, then the release; a frame takes at least its
    header and tag from the input, so its length is fuel enough. *)
Fixpoint serve_loop (fuel : nat) (sy : sys) (cur : fsq_config) (conn : Z) (sents : list bool) (input : list Z) : M (list Z) :=
  match fuel with
  | O => ret []
  | S f =>
      let* r := serve_frame sy cur conn (hd true sents) input in
      match r with
      | None => ret []
      | Some (rest, out) => let* outs := serve_loop f sy cur conn (tl sents) rest in ret (out ++ outs)
      end
  end.
Definition serve_connection (sy : sys) (cred : option Z) (sents : list bool) (input : list Z) : M (option (list Z)) := fun d =>
  match cfg_acquire (d_snaps d) with
  | None => (None, d)
  | Some (s, p) =>
      match snaps s !! p with
      | None => (None, d)
      | Some (cur, _) =>
          let '(conn, d) := next_conn_id (set_snaps s d) in
          let '(out, d) :=
            if negb (peer_allowed cred cur) then ([], d)
            else let '(out, d) := serve_loop (S (length input)) sy cur conn sents input d in (out, handle_release_owner conn d) in
          match cfg_release p (d_snaps d) with
          | Some s => (Some out, set_snaps s d)
          | None => (None, d)
          end
      end
  end.

(** ** Interleavings of the connections' threads

    A connection that runs a UDF body is in flight; the other steps are one
    request or one part of a call.  A connection closes between requests. *)
Inductive in_flight := IF_run (c : call) | IF_done (c : call) (out : udf_out).
Definition flight_call (f : in_flight) : call := match f with IF_run c | IF_done c _ => c end.
Record node := { n_d : D; n_busy : gmap Z in_flight }.

Inductive node_step (sy : sys) : node -> node -> Prop :=
  | NS_init conn p d b : b !! conn = None ->
      node_step sy {| n_d := d; n_busy := b |} {| n_d := snd (handle_init conn p d); n_busy := b |}
  | NS_deinit conn p d b : b !! conn = None ->
      node_step sy {| n_d := d; n_busy := b |} {| n_d := snd (handle_deinit conn p d); n_busy := b |}
  | NS_cancel p d b :
      node_step sy {| n_d := d; n_busy := b |} {| n_d := snd (handle_cancel p d); n_busy := b |}
  | NS_reload cur d b :
      node_step sy {| n_d := d; n_busy := b |} {| n_d := snd (handle_reload sy cur d); n_busy := b |}
  | NS_answer conn token p d b rep d' : b !! conn = None -> call_front conn token p d = (inl rep, d') ->
      node_step sy {| n_d := d; n_busy := b |} {| n_d := d'; n_busy := b |}
  | NS_start conn token p d b c d' : b !! conn = None -> call_front conn token p d = (inr c, d') ->
      node_step sy {| n_d := d; n_busy := b |} {| n_d := d'; n_busy := <[conn := IF_run c]> b |}
  | NS_exec conn c out d b d' : b !! conn = Some (IF_run c) -> call_exec conn c d = (out, d') ->
      node_step sy {| n_d := d; n_busy := b |} {| n_d := d'; n_busy := <[conn := IF_done c out]> b |}
  | NS_finish conn c out d b : b !! conn = Some (IF_done c out) ->
      node_step sy {| n_d := d; n_busy := b |} {| n_d := snd (call_finish conn c out d); n_busy := delete conn b |}
  | NS_close conn d b : b !! conn = None ->
      node_step sy {| n_d := d; n_busy := b |} {| n_d := handle_release_owner conn d; n_busy := b |}.

(** The daemon as main starts it. *)
Definition daemon0 (w : W) (s : snap_heap) : D :=
  {| d_handles := []; d_next_handle := 1; d_cache := cache0; d_snaps := s; d_next_conn := 1; d_world := w; d_mallocs := 0 |}.
Definition node0 (w : W) (s : snap_heap) : node := {| n_d := daemon0 w s; n_busy := ∅ |}.
End Daemon.
