(* ===== verification/DaemonProofs.v ===== *)
(** * Properties of the daemon's request handling

    What each handler does to the registry, the cache and the adapter's world;
    the invariant of every interleaving of the connections; and the properties
    of authentication, handles, replay, cancellation and RELOAD. *)

From stdpp Require Import gmap.
From S2P Require Import Prelude Wire Sha256 DaemonConf Cache Daemon.

Section Lemmas.
Context {W I : Type} {AD : Adapter W I} {CO : Consumers W}.
Context (malloc_ok : nat -> bool) (junk : list Z).
#[local] Abbreviation D := (daemon W I).
#[local] Abbreviation H := (fsq_handle I).

(** ** Steps that only allocate *)

Definition bump (n : nat) (d : D) : D := set_ids (d_next_handle d) (d_next_conn d) n d.
Definition quiet {A} (m : M A) : Prop := forall d : D, exists n, snd (m d) = bump n d.

Lemma quiet_ret {A} (a : A) : quiet (ret a).
Proof. intros d. exists (d_mallocs d). by destruct d. Qed.
Lemma quiet_bind {A B} (m : M A) (k : A -> M B) : quiet m -> (forall a, quiet (k a)) -> quiet (bind m k).
Proof.
  intros Hm Hk d. unfold bind. destruct (Hm d) as [n Hn]. destruct (m d) as [a d1]. cbn in Hn. subst d1.
  destruct (Hk a (bump n d)) as [n' Hn']. exists n'. by rewrite Hn'.
Qed.
Lemma quiet_malloc : quiet (malloc malloc_ok).
Proof. intros d. by eexists. Qed.
Lemma quiet_if {A} (b : bool) (m1 m2 : M A) : quiet m1 -> quiet m2 -> quiet (if b then m1 else m2).
Proof. by destruct b. Qed.
Create HintDb quiet.
Hint Resolve quiet_ret quiet_malloc : quiet.
Ltac quiet := repeat first [ apply quiet_bind; [|intros ?] | apply quiet_if | solve [auto with quiet] | case_match ].

Lemma quiet_set_text st t : quiet (set_text malloc_ok st t).
Proof. unfold set_text. quiet. Qed.
Hint Resolve quiet_set_text : quiet.
Lemma quiet_mac k h p : quiet (mac malloc_ok junk k h p).
Proof. unfold mac. quiet. Qed.
Hint Resolve quiet_mac : quiet.
Lemma quiet_send_reply s k h r : quiet (send_reply malloc_ok junk s k h r).
Proof. unfold send_reply. quiet. Qed.
Lemma quiet_tlv t b l : quiet (tlv_result malloc_ok t b l).
Proof. unfold tlv_result. quiet. Qed.
Lemma quiet_const_args ins : quiet (const_args malloc_ok ins).
Proof. induction ins as [|a r IH]; cbn [const_args]; quiet. Qed.
Lemma quiet_call_args ts : forall ins, quiet (call_args malloc_ok ts ins).
Proof. induction ts as [|t ts IH]; intros [|a r]; cbn [call_args]; cbv zeta; quiet. Qed.
Hint Resolve quiet_send_reply quiet_tlv quiet_const_args quiet_call_args : quiet.

Lemma set_text_status st t (d : D) : r_status (fst (set_text malloc_ok st t d)) = st.
Proof. done. Qed.
Lemma bump_bump n m (d : D) : bump n (bump m d) = bump n d.
Proof. done. Qed.

(** The shapes a handler's result can have. *)
Lemma quiet_run {A} (m : M A) d a d' : quiet m -> m d = (a, d') -> exists n, d' = bump n d.
Proof. intros Hq E. destruct (Hq d) as [n Hn]. exists n. by rewrite E in Hn. Qed.

Inductive init_outcome (conn : Z) (d : D) : fsq_reply -> D -> Prop :=
  | IO_refused n rep : r_status rep <> FSQ_OK -> init_outcome conn d rep (bump n d)
  | IO_failed n rep name args w msg : udf_init name args (d_world d) = (w, inl msg) -> r_status rep <> FSQ_OK ->
      init_outcome conn d rep (bump n (set_world w d))
  | IO_undone n rep name args w init : udf_init name args (d_world d) = (w, inr init) -> r_status rep <> FSQ_OK ->
      init_outcome conn d rep (set_ids (u64 (d_next_handle d + 1)) (d_next_conn d) n (set_world (udf_deinit name init w) d))
  | IO_opened n name kind c args w init body : udf_init name args (d_world d) = (w, inr init) -> In (name, kind, c) functions_def ->
      init_outcome conn d
        {| r_status := FSQ_OK; r_core_rc := 0; r_body := fsq_put_u64 (d_next_handle d) ++ body |}
        (set_ids (u64 (d_next_handle d + 1)) (d_next_conn d) n
          (set_handles ({| hd_id := d_next_handle d; hd_name := name; hd_kind := kind; hd_init := init; hd_types := map fst args;
                           hd_owner := conn; hd_cancelled := false |} :: d_handles d) (set_world w d))).

Lemma find_fn_in name f : find_fn name = Some f -> In f functions_def /\ fst (fst f) = name.
Proof. intros Hf. apply find_some in Hf as [Hin Hb]. split; [done|]. by apply bytes_eqb_true. Qed.

Lemma run_text st t (d : D) rep d' : set_text malloc_ok st t d = (rep, d') -> r_status rep = st /\ exists n, d' = bump n d.
Proof. intros E. split; [by rewrite <- (set_text_status st t d), E|]. apply (quiet_run _ _ _ _ (quiet_set_text st t) E). Qed.

Lemma const_args_status ins (d : D) e d' : const_args malloc_ok ins d = (inl e, d') -> e <> FSQ_OK.
Proof.
  revert d e d'. induction ins as [|a r IH]; intros d e d' E; cbn [const_args] in E; [done|].
  assert (K : forall g (d : D) e (d' : D), bind (const_args malloc_ok r) (fun rest => ret (match rest with inr l => inr (g l) | inl e => inl e end)) d = (@inl Z (list (Item_result * arg_val)) e, d') -> e <> FSQ_OK).
  { intros g d0 e0 d0' E0. unfold bind, ret in E0. destruct (const_args malloc_ok r d0) as [[e1|l] d1] eqn:E1; [|done].
    simplify_eq. by apply (IH d0 e0 d0'). }
  destruct (negb _); [by apply (K (fun l => (wire_to_item (a_type a), AV_null) :: l) d e d')|].
  unfold bind in E at 1. destruct (malloc malloc_ok d) as [ok d1]. destruct ok; [|by injection E as <- <-].
  cbn [negb] in E. destruct (wire_to_item (a_type a)).
  1, 4: by apply (K (fun l => (_, AV_str (a_bytes a)) :: l) _ _ _ E).
  all: destruct (negb _); [by injection E as <- <-|].
  1: by apply (K (fun l => (_, AV_real (fsq_get_u64 (a_bytes a))) :: l) _ _ _ E).
  by apply (K (fun l => (_, AV_int (long_long (a_bytes a))) :: l) _ _ _ E).
Qed.

Lemma handle_init_outcome conn p (d : D) : init_outcome conn d (fst (handle_init malloc_ok conn p d)) (snd (handle_init malloc_ok conn p d)).
Proof.
  destruct (handle_init malloc_ok conn p d) as [rep d'] eqn:E. cbn [fst snd]. unfold handle_init in E.
  assert (K : forall st t n, st <> FSQ_OK -> set_text malloc_ok st t (bump n d) = (rep, d') -> init_outcome conn d rep d').
  { intros st t n Hst E0. destruct (run_text _ _ _ _ _ E0) as (Hs & n' & ->). rewrite bump_bump. apply IO_refused. congruence. }
  assert (K0 : forall st t, st <> FSQ_OK -> set_text malloc_ok st t d = (rep, d') -> init_outcome conn d rep d').
  { intros st t Hst E0. apply (K st t (d_mallocs d) Hst). by destruct d. }
  destruct (parse_init p) as [[name ins]|]; [|by refine (K0 _ _ _ E)].
  destruct (find_fn name) as [[[nm kind] c]|] eqn:Ef; [|by refine (K0 _ _ _ E)].
  apply find_fn_in in Ef as [Hin Hnm]. cbn in Hnm. subst nm.
  unfold bind in E. cbn [malloc d_mallocs set_ids] in E.
  destruct (malloc_ok (d_mallocs d)); cbn [negb] in E; [|by refine (K _ _ (S (d_mallocs d)) _ E)].
  destruct (negb _); [by refine (K _ _ (S (S (S (S (S (d_mallocs d)))))) _ E)|].
  match type of E with context [const_args malloc_ok ins ?x] => change x with (bump (S (S (S (S (S (d_mallocs d)))))) d) in E end.
  destruct (const_args malloc_ok ins _) as [[e|args] d2] eqn:Ea.
  - pose proof (const_args_status _ _ _ _ Ea) as He. destruct (quiet_run _ _ _ _ (quiet_const_args ins) Ea) as [n ->].
    by apply (K _ _ n He E).
  - destruct (quiet_run _ _ _ _ (quiet_const_args ins) Ea) as [n ->]. cbn [bump set_ids d_world set_world d_next_handle d_handles d_mallocs malloc] in E.
    destruct (udf_init name args (d_world d)) as [w [msg|init]] eqn:Eu.
    + destruct (run_text _ _ _ _ _ E) as (Hs & n' & ->). apply (IO_failed conn d n' rep name args w msg); [done|by rewrite Hs].
    + destruct (malloc_ok n); cbn [negb] in E.
      * injection E as <- <-. by apply (IO_opened conn d _ name kind c args w init).
      * destruct (run_text _ _ _ _ _ E) as (Hs & n' & ->). apply (IO_undone conn d n' rep name args w init); [done|by rewrite Hs].
Qed.

(** ** Calls *)

Lemma bump_id d : bump (d_mallocs d) d = d.
Proof. by destruct d. Qed.

Inductive front_outcome (conn token : Z) (p : list Z) (d : D) : fsq_reply + call -> D -> Prop :=
  | FO_refused n rep : r_status rep <> FSQ_OK -> r_status rep <> FSQ_ERR_CORE -> front_outcome conn token p d (inl rep) (bump n d)
  | FO_replay n rep name id ins : parse_call p = Some (name, id, ins) -> token <> 0 ->
      cache_replay true token name (d_cache d) = Some rep -> front_outcome conn token p d (inl rep) (bump n d)
  | FO_cancelled n rep name id ins h : parse_call p = Some (name, id, ins) -> handle_find_locked conn id (d_handles d) = Some h ->
      hd_cancelled h = true -> r_status rep = FSQ_ERR_BUSY ->
      front_outcome conn token p d (inl rep) (bump n (set_handles (upd_handle id (with_cancelled false) (d_handles d)) d))
  | FO_call n name id ins h args : parse_call p = Some (name, id, ins) -> handle_find_locked conn id (d_handles d) = Some h ->
      hd_cancelled h = false -> hd_name h = name -> length args = length (hd_types h) ->
      front_outcome conn token p d
        (inr {| cl_token := token; cl_id := id; cl_name := name; cl_kind := hd_kind h; cl_args := args |}) (bump n d).

Lemma call_args_spec ts : forall ins (d : D) r d', length ts = length ins -> call_args malloc_ok ts ins d = (r, d') ->
  match r with inl e => e = FSQ_ERR_ARGS \/ e = FSQ_ERR_INTERNAL | inr l => map fst l = ts end.
Proof.
  induction ts as [|t ts IH]; intros [|a ins] d r d' Hl E; try done; cbn [call_args] in E.
  { by injection E as <- <-. }
  injection Hl as Hl.
  assert (K : forall v (d : D) r d', bind (call_args malloc_ok ts ins) (fun rest => ret (match rest with inr l => inr ((t, v) :: l) | inl e => inl e end)) d = (r, d') ->
      match r with inl e => e = FSQ_ERR_ARGS \/ e = FSQ_ERR_INTERNAL | inr l => map fst l = t :: ts end).
  { intros v d0 r0 d0' E0. unfold bind, ret in E0. destruct (call_args malloc_ok ts ins d0) as [r1 d1] eqn:E1.
    specialize (IH ins d0 r1 d1 Hl E1). destruct r1; injection E0 as <- <-; [done|]. cbn. by rewrite IH. }
  destruct (negb (a_is_null a =? 0)); [by apply (K _ _ _ _ E)|].
  destruct t.
  2, 3: destruct (negb (blen _ =? 8)); [injection E as <- <-; by left|by apply (K _ _ _ _ E)].
  all: unfold bind in E at 1; destruct (malloc malloc_ok d) as [[] d1]; cbn [negb] in E; [by apply (K _ _ _ _ E)|injection E as <- <-; by right].
Qed.

Lemma run_refuse st t (d : D) r d' : bind (set_text malloc_ok st t) (fun r => ret (inl r)) d = (r, d') ->
  exists (rep : fsq_reply) n, r = @inl fsq_reply call rep /\ r_status rep = st /\ d' = bump n d.
Proof.
  unfold bind, ret. destruct (set_text malloc_ok st t d) as [rep d1] eqn:E. intros [= <- <-].
  destruct (run_text _ _ _ _ _ E) as [Hs [n ->]]. by exists rep, n.
Qed.
Lemma replay_alloc ok token name c rep : cache_replay ok token name c = Some rep -> cache_replay true token name c = Some rep.
Proof.
  unfold cache_replay. destruct (cache_find_locked _ _); [|done]. destruct (slot_at _ _); [|done].
  destruct (negb _); [done|]. by destruct ok.
Qed.
Lemma call_front_outcome conn token p (d : D) :
  front_outcome conn token p d (fst (call_front malloc_ok conn token p d)) (snd (call_front malloc_ok conn token p d)).
Proof.
  destruct (call_front malloc_ok conn token p d) as [r d'] eqn:E. cbn [fst snd]. unfold call_front in E.
  assert (K : forall st t n r d', st <> FSQ_OK -> st <> FSQ_ERR_CORE -> bind (set_text malloc_ok st t) (fun r => ret (inl r)) (bump n d) = (r, d') ->
    front_outcome conn token p d r d').
  { intros st t n r0 d0 H1 H2 E0. destruct (run_refuse _ _ _ _ _ E0) as (rep & n' & -> & Hs & ->). rewrite bump_bump. apply FO_refused; congruence. }
  assert (K0 : forall st t r d', st <> FSQ_OK -> st <> FSQ_ERR_CORE -> bind (set_text malloc_ok st t) (fun r => ret (inl r)) d = (r, d') ->
    front_outcome conn token p d r d').
  { intros st t r0 d0 H1 H2 E0. rewrite <- (bump_id d) in E0. by apply (K _ _ _ _ _ H1 H2 E0). }
  destruct (parse_call p) as [[[name id] ins]|] eqn:Ep; [|by refine (K0 _ _ _ _ _ _ E)].
  unfold bind at 1 in E.
  match type of E with (let '(a, d) := ?x in _) = _ => destruct x as [hit d1] eqn:Eh end.
  assert (Hh : exists n, d1 = bump n d /\ (forall rep, hit = Some rep -> token <> 0 /\ cache_replay true token name (d_cache d) = Some rep)).
  { destruct (token =? 0) eqn:Et; [injection Eh as <- <-; exists (d_mallocs d); by rewrite bump_id|].
    destruct (cache_replay true token name (d_cache d)) eqn:Ec; [|injection Eh as <- <-; exists (d_mallocs d); by rewrite bump_id].
    cbn in Eh. injection Eh as <- <-. exists (S (d_mallocs d)). split; [done|]. intros rep Hr. split; [lia|].
    apply replay_alloc in Hr. congruence. }
  destruct Hh as (n & -> & Hrep). destruct hit as [rep|].
  { injection E as <- <-. destruct (Hrep rep eq_refl). by apply (FO_replay conn token p d n rep name id ins). }
  cbn [bump set_ids d_handles] in E. destruct (handle_find_locked conn id (d_handles d)) as [h|] eqn:Ef; [|by refine (K _ _ n _ _ _ _ E)].
  destruct (negb (bytes_eqb _ _) || _) eqn:Ec; [by refine (K _ _ n _ _ _ _ E)|].
  apply orb_false_iff in Ec as [Ec1 Ec2]. apply negb_false_iff in Ec1, Ec2. apply bytes_eqb_true in Ec1. apply Nat.eqb_eq in Ec2.
  destruct (hd_cancelled h) eqn:Ehc.
  { destruct (run_refuse _ _ _ _ _ E) as (rep & n' & -> & Hs & ->).
    by apply (FO_cancelled conn token p d n' rep name id ins h). }
  unfold bind at 1 in E. change (set_ids _ _ n d) with (bump n d) in E.
  destruct (call_args malloc_ok (hd_types h) ins (bump n d)) as [ra d2] eqn:Ea.
  pose proof (call_args_spec _ _ _ _ _ Ec2 Ea) as Hs. destruct (quiet_run _ _ _ _ (quiet_call_args _ ins) Ea) as [n2 ->]. rewrite bump_bump in *.
  destruct ra as [e|args]; [destruct Hs as [-> | ->]; by refine (K _ _ n2 _ _ _ _ E)|].
  assert (Hl : length args = length (hd_types h)) by (rewrite <- Hs; by rewrite length_map).
  rewrite Ec1 in E.
  assert (Kc : forall m, front_outcome conn token p d (inr {| cl_token := token; cl_id := id; cl_name := name; cl_kind := hd_kind h; cl_args := args |}) (bump m d))
    by (intros m; by apply (FO_call conn token p d m name id ins h args)).
  destruct (hd_kind h).
  2: { unfold bind at 1 in E. cbn [malloc] in E. destruct (malloc_ok _); cbn [negb] in E; [injection E as <- <-; apply Kc|by refine (K _ _ _ _ _ _ _ E)]. }
  all: injection E as <- <-; apply Kc.
Qed.

(** ** What a handler does to the registry

    The fields of a handle that never change after it is linked. *)
Definition hkey : Type := Z * list Z * fsq_kind * Z * list Item_result.
Definition hkey_of (h : H) : hkey := (hd_id h, hd_name h, hd_kind h, hd_owner h, hd_types h).
Definition k_id (k : hkey) : Z := fst (fst (fst (fst k))).
Definition k_name (k : hkey) : list Z := snd (fst (fst (fst k))).
Definition k_owner (k : hkey) : Z := snd (fst k).
Definition keys (d : D) : list hkey := map hkey_of (d_handles d).

Lemma upd_keys id f (l : list H) : (forall h, hkey_of (f h) = hkey_of h) -> map hkey_of (upd_handle id f l) = map hkey_of l.
Proof. intros Hf. unfold upd_handle. rewrite map_map. apply map_ext. intros h. by destruct (_ =? _). Qed.
Lemma mark_keys id (l : list H) l' : mark_cancelled id l = Some l' -> map hkey_of l' = map hkey_of l.
Proof.
  revert l'. induction l as [|h l IH]; intros l' E; cbn [mark_cancelled] in E; [done|].
  destruct (_ =? _); [by injection E as <-|]. destruct (mark_cancelled id l) as [r|]; [|done]. injection E as <-. cbn. by rewrite (IH r eq_refl).
Qed.
Lemma find_key conn id (l : list H) h : handle_find_locked conn id l = Some h -> In h l /\ hd_id h = id /\ hd_owner h = conn.
Proof. intros Hf. apply find_some in Hf as [Hin Hb]. bools. repeat split; [done|lia|lia]. Qed.

(** The adapter's contract: init acquires what exactly one deinit releases;
    running a body and applying provider settings keep the balance. *)
Context (live : W -> list Z -> Z).
Definition one (name n : list Z) : Z := if bytes_eqb name n then 1 else 0.
Record AdapterLaws : Prop := {
  law_failed : forall name args w w' msg, udf_init name args w = (w', inl msg) -> forall n, live w' n = live w n;
  law_init : forall name args w w' i, udf_init name args w = (w', inr i) -> forall n, live w' n = live w n + one name n;
  law_main : forall name i args w w' i' o, udf_main name i args w = (w', i', o) -> forall n, live w' n = live w n;
  law_deinit : forall name i w n, live (udf_deinit name i w) n = live w n - one name n;
  law_apply : forall c w n, live (fst (daemon_apply_provider c w)) n = live w n;
}.
Fixpoint count (n : list Z) (ks : list hkey) : Z :=
  match ks with [] => 0 | k :: r => one (k_name k) n + count n r end.

(** The balance of a state, and the states a step moves between. *)
Definition debt (d : D) (n : list Z) : Z := live (d_world d) n - count n (keys d).

Inductive reg_step (conn : Z) (d d' : D) : Prop :=
  | RS_same : keys d' = keys d -> d_next_handle d' = d_next_handle d -> reg_step conn d d'
  | RS_skip : keys d' = keys d -> d_next_handle d' = u64 (d_next_handle d + 1) -> reg_step conn d d'
  | RS_open k : keys d' = k :: keys d -> k_id k = d_next_handle d -> d_next_handle d' = u64 (d_next_handle d + 1) -> reg_step conn d d'
  | RS_drop : sublist (keys d') (keys d) -> (forall k, In k (keys d) -> k_owner k <> conn -> In k (keys d')) ->
      d_next_handle d' = d_next_handle d -> reg_step conn d d'.

Lemma init_reg conn p (d : D) : let d' := snd (handle_init malloc_ok conn p d) in reg_step conn d d' /\ (AdapterLaws -> forall n, debt d' n = debt d n).
Proof.
  intros d'. subst d'. destruct (handle_init_outcome conn p d) as [m rep|m rep name args w msg Hu _|m rep name args w i Hu _|m name kind c args w i body Hu _].
  - split; [by apply RS_same|done].
  - split; [by apply RS_same|]. intros laws n. unfold debt. cbn [bump set_ids set_world d_world]. by rewrite (law_failed laws _ _ _ _ _ Hu).
  - split; [by apply RS_skip|]. intros laws n. unfold debt. cbn [set_ids set_world d_world]. rewrite (law_deinit laws), (law_init laws _ _ _ _ _ Hu).
    unfold keys. cbn [set_ids set_world d_handles]. lia.
  - split; [by eapply RS_open|]. intros laws n. unfold debt. cbn [set_ids set_handles set_world d_world].
    rewrite (law_init laws _ _ _ _ _ Hu). unfold keys. cbn [set_ids set_handles d_handles map count k_name hkey_of fst snd hd_name]. lia.
Qed.
Lemma front_reg conn token p (d : D) : let d' := snd (call_front malloc_ok conn token p d) in reg_step conn d d' /\ (AdapterLaws -> forall n, debt d' n = debt d n).
Proof.
  intros d'. subst d'. destruct (call_front_outcome conn token p d); (split; [apply RS_same; [|done]|intros laws n0; unfold debt; f_equal; f_equal]); try done.
  all: by apply upd_keys.
Qed.
Lemma exec_reg conn c (d : D) : let d' := snd (call_exec conn c d) in reg_step conn d d' /\ (AdapterLaws -> forall n, debt d' n = debt d n).
Proof.
  cbv zeta. unfold call_exec. destruct (handle_find_locked _ _ _) as [h|]; [|split; [by apply RS_same|done]].
  destruct (udf_main _ _ _ _) as [[w i] o] eqn:Em. cbn [snd]. assert (Hk : keys (set_handles (upd_handle (cl_id c) (with_init i) (d_handles d)) (set_world w d)) = keys d) by by apply upd_keys.
  split; [by apply RS_same|]. intros laws n. unfold debt. rewrite Hk. cbn [set_handles set_world d_world]. by rewrite (law_main laws _ _ _ _ _ _ _ Em).
Qed.
Lemma result_reg conn c out (d : D) : let d' := snd (call_result malloc_ok conn c out d) in
  keys d' = keys d /\ d_next_handle d' = d_next_handle d /\ d_world d' = d_world d.
Proof.
  cbv zeta.
  assert (Q : forall A (m : M A), quiet m -> keys (snd (m d)) = keys d /\ d_next_handle (snd (m d)) = d_next_handle d /\ d_world (snd (m d)) = d_world d)
    by (intros A m Hq; by destruct (Hq d) as [n ->]).
  assert (C : keys (snd (core_fail malloc_ok (cl_id c) d)) = keys d /\ d_next_handle (snd (core_fail malloc_ok (cl_id c) d)) = d_next_handle d /\ d_world (snd (core_fail malloc_ok (cl_id c) d)) = d_world d).
  { unfold core_fail. destruct (existsb _ _); [|by apply (Q _ _ (quiet_set_text _ _))].
    destruct (quiet_set_text FSQ_ERR_BUSY (bs "cancelled") (set_handles (upd_handle (cl_id c) (with_cancelled false) (d_handles d)) d)) as [n ->].
    split; [by apply upd_keys|done]. }
  unfold call_result. destruct (cl_kind c); repeat case_match; first [done | apply Q; auto with quiet].
Qed.
Lemma finish_reg conn c out (d : D) : let d' := snd (call_finish malloc_ok conn c out d) in reg_step conn d d' /\ (AdapterLaws -> forall n, debt d' n = debt d n).
Proof.
  cbv zeta. unfold call_finish, bind. pose proof (result_reg conn c out d) as Hr. destruct (call_result malloc_ok conn c out d) as [rep d1].
  cbn [snd] in Hr. destruct Hr as (Hk & Hn & Hw).
  assert (Hrec : keys (snd (call_record malloc_ok c rep d1)) = keys d1 /\ d_next_handle (snd (call_record malloc_ok c rep d1)) = d_next_handle d1 /\ d_world (snd (call_record malloc_ok c rep d1)) = d_world d1).
  { unfold call_record. destruct (negb _ && _); [|done]. by destruct (cacheable _ _ _). }
  destruct (call_record malloc_ok c rep d1) as [[] d2]. cbn [snd ret] in *. destruct Hrec as (Hk2 & Hn2 & Hw2).
  split; [apply RS_same; congruence|]. intros laws n. unfold debt. by rewrite Hk2, Hk, Hw2, Hw.
Qed.

Lemma unlink_spec conn id (l : list H) h l' : unlink_handle conn id l = Some (h, l') ->
  hd_id h = id /\ hd_owner h = conn /\ sublist l' l /\ (forall x, In x l -> hd_owner x <> conn -> In x l') /\
  forall n, count n (map hkey_of l) = count n (map hkey_of l') + one (hd_name h) n.
Proof.
  revert h l'. induction l as [|x l IH]; intros h l' E; cbn [unlink_handle] in E; [done|].
  destruct ((hd_id x =? id) && (hd_owner x =? conn)) eqn:Ex.
  - injection E as <- <-. bools. split_and!; [lia|lia|by apply sublist_cons| |intros n; cbn [map count]; change (k_name (hkey_of x)) with (hd_name x); lia].
    intros y [<-|Hy] Hne; [lia|done].
  - destruct (unlink_handle conn id l) as [[h1 r]|]; [|done]. injection E as <- <-. destruct (IH h1 r eq_refl) as (H1 & H2 & H3 & H4 & H5).
    split_and!; [done|done|by apply sublist_skip| |intros n; cbn [map count]; rewrite H5; lia].
    intros y [<-|Hy] Hne; [by left|right; by apply H4].
Qed.
Lemma sublist_map {A B} (f : A -> B) l k : sublist l k -> sublist (map f l) (map f k).
Proof. induction 1; cbn; by constructor. Qed.
Lemma filter_count n (f : H -> bool) l :
  count n (map hkey_of l) = count n (map hkey_of (List.filter (fun h => negb (f h)) l)) + count n (map hkey_of (List.filter f l)).
Proof. induction l as [|h l IH]; [done|]. cbn [List.filter map count]. destruct (f h); cbn [negb map count]; lia. Qed.
Lemma count_rev n l : count n (rev l) = count n l.
Proof.
  assert (Ha : forall a b, count n (a ++ b) = count n a + count n b) by (induction a as [|x a IH]; intros b; [done|]; cbn [app count]; rewrite IH; lia).
  induction l as [|x l IH]; [done|]. cbn [rev]. rewrite Ha. cbn [count]. lia.
Qed.

Lemma deinit_reg conn p (d : D) : let d' := snd (handle_deinit malloc_ok conn p d) in reg_step conn d d' /\ (AdapterLaws -> forall n, debt d' n = debt d n).
Proof.
  cbv zeta. unfold handle_deinit.
  assert (Q : forall st t (d1 : D), reg_step conn d d1 /\ (AdapterLaws -> forall n, debt d1 n = debt d n) ->
    reg_step conn d (snd (set_text malloc_ok st t d1)) /\ (AdapterLaws -> forall n, debt (snd (set_text malloc_ok st t d1)) n = debt d n)).
  { intros st t d1 [Hr Hd]. destruct (quiet_set_text st t d1) as [n ->]. split; [|done]. destruct Hr; [by apply RS_same|by apply RS_skip|by apply (RS_open _ _ _ k)|by apply RS_drop]. }
  destruct (_ <? _)%nat; [apply Q; split; [by apply RS_same|done]|].
  destruct (unlink_handle _ _ _) as [[h l]|] eqn:E; apply Q; [|split; [by apply RS_same|done]].
  destruct (unlink_spec _ _ _ _ _ E) as (_ & _ & Hs & Hk & Hc). split.
  - apply RS_drop; [by apply sublist_map| |done]. intros k Hin Ho. apply in_map_iff in Hin as (x & <- & Hin).
    apply in_map. by apply Hk.
  - intros laws n. unfold debt, keys. cbn [set_world set_handles d_world d_handles]. rewrite (law_deinit laws), Hc. lia.
Qed.
Lemma cancel_reg conn p (d : D) : let d' := snd (handle_cancel malloc_ok p d) in reg_step conn d d' /\ (AdapterLaws -> forall n, debt d' n = debt d n).
Proof.
  cbv zeta. unfold handle_cancel.
  assert (Q : forall st t (d1 : D), keys d1 = keys d -> d_world d1 = d_world d -> d_next_handle d1 = d_next_handle d ->
    reg_step conn d (snd (set_text malloc_ok st t d1)) /\ (AdapterLaws -> forall n, debt (snd (set_text malloc_ok st t d1)) n = debt d n)).
  { intros st t d1 Hk Hw Hn. destruct (quiet_set_text st t d1) as [n ->]. split; [by apply RS_same|]. intros laws m. unfold debt.
    change (keys (bump n d1)) with (keys d1). change (d_world (bump n d1)) with (d_world d1). by rewrite Hk, Hw. }
  destruct (_ <? _)%nat; [by apply Q|]. destruct (mark_cancelled _ _) as [l|] eqn:E; apply Q; try done. by apply (mark_keys _ _ _ E).
Qed.
Lemma release_reg conn (d : D) : let d' := handle_release_owner conn d in reg_step conn d d' /\ (AdapterLaws -> forall n, debt d' n = debt d n).
Proof.
  cbv zeta. unfold handle_release_owner. split.
  - apply RS_drop; [|intros k Hin Ho|done]; unfold keys; cbn [set_world set_handles d_handles].
    + apply sublist_map. induction (d_handles d) as [|h l IH]; cbn [List.filter]; [constructor|]. destruct (negb _); by constructor.
    + apply in_map_iff in Hin as (x & <- & Hin). apply in_map, filter_In. split; [done|]. cbn in Ho. apply negb_true_iff. lia.
  - intros laws n. unfold debt, keys. cbn [set_world set_handles d_world d_handles].
    assert (Hf : forall gone w, live (fold_left (fun w h => udf_deinit (hd_name h) (hd_init h) w) gone w) n = live w n - count n (map hkey_of gone)).
    { induction gone as [|h gone IH]; intros w; cbn [fold_left map count]; [lia|]. rewrite IH, (law_deinit laws). change (k_name (hkey_of h)) with (hd_name h). lia. }
    rewrite Hf, map_rev, count_rev. rewrite (filter_count n (fun h => hd_owner h =? conn) (d_handles d)). lia.
Qed.
Lemma reload_keeps sy cur (d : D) : let d' := snd (handle_reload malloc_ok sy cur d) in
  d_handles d' = d_handles d /\ d_next_handle d' = d_next_handle d /\ d_cache d' = d_cache d /\ d_next_conn d' = d_next_conn d /\
  (AdapterLaws -> forall n, live (d_world d') n = live (d_world d) n).
Proof.
  cbv zeta. unfold handle_reload.
  assert (Q : forall st t (d1 : D), d_handles d1 = d_handles d -> d_next_handle d1 = d_next_handle d -> d_cache d1 = d_cache d -> d_next_conn d1 = d_next_conn d ->
      (AdapterLaws -> forall n, live (d_world d1) n = live (d_world d) n) -> let d' := snd (set_text malloc_ok st t d1) in
      d_handles d' = d_handles d /\ d_next_handle d' = d_next_handle d /\ d_cache d' = d_cache d /\ d_next_conn d' = d_next_conn d /\
      (AdapterLaws -> forall n, live (d_world d') n = live (d_world d) n)).
  { intros st t d1 H1 H2 H3 H4 H5. cbv zeta. by destruct (quiet_set_text st t d1) as [n ->]. }
  destruct (load_config _ _ _) as [next|]; [|by apply Q]. destruct (_ || _); [by apply Q|]. destruct (negb _); [by apply Q|].
  destruct (negb _); [by apply Q|]. pose proof (fun laws => law_apply laws next (d_world d)) as Hl. destruct (daemon_apply_provider next (d_world d)) as [w ok]. cbn [fst] in Hl.
  destruct (negb ok); [by apply Q|]. cbn [malloc]. destruct (cfg_publish _ _ _) as [s ok2]. destruct (negb ok2); by apply Q.
Qed.

(** ** The invariant of the interleavings *)

Definition serves (f : in_flight) (conn : Z) (k : hkey) : Prop :=
  k_id k = cl_id (flight_call f) /\ k_owner k = conn /\ k_name k = cl_name (flight_call f).
Record node_inv (nd : @node W I) : Prop := {
  ni_ids : NoDup (map k_id (keys (n_d nd)));
  ni_next : Forall (fun k => k_id k < d_next_handle (n_d nd)) (keys (n_d nd));
  ni_busy : forall conn f, n_busy nd !! conn = Some f -> exists k, In k (keys (n_d nd)) /\ serves f conn k;
  ni_debt : AdapterLaws -> forall n, debt (n_d nd) n = 0;
}.

(** A step of the registry that [conn] makes keeps it well formed, and the
    handles of every in-flight call of the others. *)
Lemma reg_step_inv conn (d d' : D) : reg_step conn d d' -> d_next_handle d < 2 ^ 64 - 1 -> 0 < d_next_handle d ->
  NoDup (map k_id (keys d)) -> Forall (fun k => k_id k < d_next_handle d) (keys d) ->
  NoDup (map k_id (keys d')) /\ Forall (fun k => k_id k < d_next_handle d') (keys d') /\
  (forall k, In k (keys d) -> k_owner k <> conn -> In k (keys d')) /\
  d_next_handle d <= d_next_handle d' <= d_next_handle d + 1.
Proof.
  intros Hs Hb Hp Hn Hf. assert (Hu : u64 (d_next_handle d + 1) = d_next_handle d + 1) by (apply u64_id; lia).
  destruct Hs as [Hk He|Hk He|k Hk Hid He|Hk Ho He]; rewrite ?Hk, He, ?Hu.
  - split_and!; [done|done|done|lia|lia].
  - split_and!; [done|eapply Forall_impl; [exact Hf|]; cbn; lia|done|lia|lia].
  - cbn [map]. split_and!; [|constructor; [lia|eapply Forall_impl; [exact Hf|]; cbn; lia]|intros; by right|lia|lia].
    apply NoDup_cons. split; [|done]. intros Hin. apply list_elem_of_In, in_map_iff in Hin as (k' & Ek & Hin).
    rewrite Forall_forall in Hf. specialize (Hf k' (proj2 (list_elem_of_In _ _) Hin)). cbn in Hf. lia.
  - split_and!; [eapply sublist_NoDup; [exact Hn|by apply sublist_map]| |done|lia|lia].
    apply Forall_forall. intros k Hin. rewrite Forall_forall in Hf. apply Hf. by eapply elem_of_sublist.
Qed.
Lemma step_inv_with conn (nd nd' : @node W I) : node_inv nd -> d_next_handle (n_d nd) < 2 ^ 64 - 1 -> 0 < d_next_handle (n_d nd) ->
  reg_step conn (n_d nd) (n_d nd') -> (AdapterLaws -> forall n, debt (n_d nd') n = debt (n_d nd) n) ->
  (forall c f, n_busy nd' !! c = Some f -> (c <> conn /\ n_busy nd !! c = Some f) \/ exists k, In k (keys (n_d nd')) /\ serves f c k) ->
  node_inv nd' /\ d_next_handle (n_d nd) <= d_next_handle (n_d nd') <= d_next_handle (n_d nd) + 1.
Proof.
  intros [H1 H2 H3 H4] Hb Hp Hs Hd Hbusy. destruct (reg_step_inv conn _ _ Hs Hb Hp H1 H2) as (G1 & G2 & G3 & G4). split; [|done].
  split; try done; [|intros laws n; by rewrite Hd, H4].
  intros c f Hf. destruct (Hbusy c f Hf) as [[Hne Hc]|Hex]; [|done]. destruct (H3 c f Hc) as (k & Hin & Hk). exists k. split; [|done].
  apply G3; [done|]. destruct Hk as (_ & -> & _). done.
Qed.
Lemma other_busy (b : gmap Z in_flight) conn c f : b !! conn = None -> b !! c = Some f -> c <> conn /\ b !! c = Some f.
Proof. intros Hn Hs. split; [congruence|done]. Qed.

Lemma node_step_inv sy (nd nd' : @node W I) : node_step malloc_ok sy nd nd' -> node_inv nd ->
  d_next_handle (n_d nd) < 2 ^ 64 - 1 -> 0 < d_next_handle (n_d nd) ->
  node_inv nd' /\ d_next_handle (n_d nd) <= d_next_handle (n_d nd') <= d_next_handle (n_d nd) + 1.
Proof.
  intros Hs Hi Hb Hp.
  destruct Hs as [conn p d b Hc|conn p d b Hc|p d b|cur d b|conn token p d b rep d' Hc E|conn token p d b c d' Hc E|conn c out d b d' Hc E|conn c out d b Hc|conn d b Hc];
    cbn [n_d n_busy] in *.
  - destruct (init_reg conn p d) as [Hr Hd]. refine (step_inv_with conn _ _ Hi Hb Hp _ _ _); [exact Hr|exact Hd|]. intros c f Hf. left. by apply other_busy.
  - destruct (deinit_reg conn p d) as [Hr Hd]. refine (step_inv_with conn _ _ Hi Hb Hp _ _ _); [exact Hr|exact Hd|]. intros c f Hf. left. by apply other_busy.
  - assert (Hk : keys (snd (handle_cancel malloc_ok p d)) = keys d).
    { unfold handle_cancel. destruct (_ <? _)%nat; [by destruct (quiet_set_text FSQ_ERR_ARGS [] d) as [n ->]|].
      destruct (mark_cancelled _ _) as [l|] eqn:E.
      - destruct (quiet_set_text FSQ_OK [] (set_handles l d)) as [n ->]. by apply (mark_keys _ _ _ E).
      - by destruct (quiet_set_text FSQ_ERR_ARGS (bs "unknown handle") d) as [n ->]. }
    destruct (cancel_reg 0 p d) as [Hr Hd]. refine (step_inv_with 0 _ _ Hi Hb Hp _ _ _); [exact Hr|exact Hd|]. cbn [n_d n_busy]. intros c f Hf. right. rewrite Hk. by apply (ni_busy _ Hi c f).
  - destruct (reload_keeps sy cur d) as (K1 & K2 & _ & _ & K3).
    assert (Hk : keys (snd (handle_reload malloc_ok sy cur d)) = keys d) by (unfold keys; by rewrite K1).
    refine (step_inv_with 0 _ _ Hi Hb Hp _ _ _); cbn [n_d n_busy]; [by apply RS_same|intros laws n; unfold debt; by rewrite K3, Hk|].
    intros c f Hf. right. rewrite Hk. by apply (ni_busy _ Hi c f).
  - destruct (front_reg conn token p d) as [Hr Hd]. rewrite E in Hr, Hd. refine (step_inv_with conn _ _ Hi Hb Hp _ _ _); [exact Hr|exact Hd|]. intros c f Hf. left. by apply other_busy.
  - destruct (front_reg conn token p d) as [Hr Hd]. pose proof (call_front_outcome conn token p d) as Ho. rewrite E in Hr, Hd, Ho. cbn [fst snd] in *.
    refine (step_inv_with conn _ _ Hi Hb Hp _ _ _); [exact Hr|exact Hd|]. cbn [n_d n_busy]. intros c' f Hf. destruct (decide (c' = conn)) as [->|Hne].
    + right. rewrite lookup_insert_eq in Hf. injection Hf as <-.
      inversion Ho as [| | |n name id ins h args Hp' Hf' Hcc Hnm Hl Ec Ed]. subst c d'. destruct (find_key _ _ _ _ Hf') as (Hin & Hid & How).
      exists (hkey_of h). split; [by apply in_map|]. by split_and!.
    + left. by rewrite lookup_insert_ne in Hf.
  - destruct (exec_reg conn c d) as [Hr Hd]. pose proof E as E'. rewrite E in Hr, Hd. cbn [snd] in *.
    assert (Hk : keys d' = keys d).
    { unfold call_exec in E'. destruct (handle_find_locked _ _ _) as [h|]; [|by injection E' as <- <-].
      destruct (udf_main _ _ _ _) as [[w i] o]. injection E' as <- <-. by apply upd_keys. }
    refine (step_inv_with conn _ _ Hi Hb Hp _ _ _); [exact Hr|exact Hd|]. cbn [n_d n_busy]. intros c' f Hf. right. rewrite Hk. destruct (decide (c' = conn)) as [->|Hne].
    + rewrite lookup_insert_eq in Hf. injection Hf as <-. by apply (ni_busy _ Hi conn (IF_run c)).
    + rewrite lookup_insert_ne in Hf by done. by apply (ni_busy _ Hi c' f).
  - destruct (finish_reg conn c out d) as [Hr Hd]. refine (step_inv_with conn _ _ Hi Hb Hp _ _ _); [exact Hr|exact Hd|]. cbn [n_d n_busy]. intros c' f Hf.
    apply lookup_delete_Some in Hf as [Hne Hf]. left. done.
  - destruct (release_reg conn d) as [Hr Hd]. refine (step_inv_with conn _ _ Hi Hb Hp _ _ _); [exact Hr|exact Hd|]. intros c f Hf. left. by apply other_busy.
Qed.
Lemma node_steps_inv sy n w s (nd : @node W I) : (forall x, live w x = 0) -> nsteps (node_step malloc_ok sy) n (node0 w s) nd ->
  Z.of_nat n < 2 ^ 64 - 2 -> node_inv nd /\ 1 <= d_next_handle (n_d nd) <= 1 + Z.of_nat n.
Proof.
  intros Hl. revert nd. induction n as [|n IH]; intros nd Hs Hb.
  - inversion Hs; subst. split; [|done]. split; cbn; [constructor|constructor|intros c f Hf; by rewrite lookup_empty in Hf|].
    intros laws n. unfold debt. cbn. by rewrite Hl.
  - apply nsteps_inv_r in Hs as (nd1 & Hs & Hst). destruct (IH nd1 Hs ltac:(lia)) as [Hi Hn].
    destruct (node_step_inv sy nd1 nd Hst Hi ltac:(lia) ltac:(lia)) as [Hi' Hn']. split; [done|lia].
Qed.
End Lemmas.

(** ** Lemmas: replies, the cache and authentication *)

Section More.
Context {W I : Type} {AD : Adapter W I} {CO : Consumers W}.
Context (malloc_ok : nat -> bool) (junk : list Z).
#[local] Abbreviation D := (daemon W I).
#[local] Abbreviation H := (fsq_handle I).

Lemma front_cache conn token p (d : D) : d_cache (snd (call_front malloc_ok conn token p d)) = d_cache d.
Proof. by destruct (call_front_outcome malloc_ok conn token p d). Qed.
Lemma exec_cache conn c (d : D) : d_cache (snd (call_exec conn c d)) = d_cache d.
Proof. unfold call_exec. destruct (handle_find_locked _ _ _); [|done]. by destruct (udf_main _ _ _ _) as [[w i] o]. Qed.
Lemma result_cache conn c out (d : D) : d_cache (snd (call_result malloc_ok conn c out d)) = d_cache d.
Proof.
  assert (Q : forall A (m : M A), quiet m -> d_cache (snd (m d)) = d_cache d) by (intros A m Hq; by destruct (Hq d) as [n ->]).
  assert (C : d_cache (snd (core_fail malloc_ok (cl_id c) d)) = d_cache d).
  { unfold core_fail. destruct (existsb _ _); [|apply (Q _ _ (quiet_set_text _ _ _))].
    by destruct (quiet_set_text malloc_ok FSQ_ERR_BUSY (bs "cancelled") (set_handles (upd_handle (cl_id c) (with_cancelled false) (d_handles d)) d)) as [n ->]. }
  pose proof (quiet_set_text (W := W) (I := I) malloc_ok) as Qs. pose proof (quiet_tlv (W := W) (I := I) malloc_ok) as Qt.
  unfold call_result. destruct (cl_kind c).
  2: { destruct (uo_err out); [exact C|]. destruct (uo_null out); [by apply Q|]. destruct (_ <? _); by apply Q. }
  2, 3: destruct (uo_err out); [exact C|by apply Q].
  by apply Q.
Qed.
(** What a call's end puts into the cache. *)
Lemma record_cache c rep (d : D) : malloc_ok (pred (d_mallocs (snd (call_record malloc_ok c rep d)))) = true -> cacheable (cl_token c) rep (cl_name c) = true ->
  cl_token c <> 0 -> r_status rep = FSQ_OK \/ r_status rep = FSQ_ERR_CORE ->
  d_cache (snd (call_record malloc_ok c rep d)) = cache_put true (cl_token c) rep (cl_name c) (d_cache d).
Proof.
  intros Hm Hc Ht Hs. revert Hm. unfold call_record. apply Z.eqb_neq in Ht. rewrite Ht, Hc. cbn [negb andb].
  assert ((r_status rep =? FSQ_OK) || (r_status rep =? FSQ_ERR_CORE) = true) as -> by (destruct Hs as [-> | ->]; done).
  cbn [malloc]. intros Hm. by rewrite <- Hm.
Qed.
Lemma call_run conn token p (d d0 : D) c : call_front malloc_ok conn token p d = (inr c, d0) ->
  handle_call malloc_ok conn token p d = bind (call_exec conn c) (fun out => call_finish malloc_ok conn c out) d0.
Proof. intros E. unfold handle_call, bind at 1. by rewrite E. Qed.

#[local] Opaque fsq_hmac_sha256.
Lemma run_bind {A B} (m : M A) (k : A -> M B) (d d1 : D) a : m d = (a, d1) -> bind m k d = k a d1.
Proof. intros E. unfold bind. by rewrite E. Qed.
Lemma mac_spec key hdr payload (d : D) want d' : mac malloc_ok junk key hdr payload d = (want, d') ->
  (want = fsq_hmac_sha256 junk key (hdr ++ payload) \/ (want = repeat 0 32 /\ malloc_ok (d_mallocs d) = false)) /\
  bytes_ok want /\ length want = 32%nat /\ d' = bump (S (d_mallocs d)) d.
Proof.
  unfold mac, bind, ret, malloc. destruct (malloc_ok (d_mallocs d)) eqn:Eo; intros [= <- <-].
  - destruct (hmac_digest junk key (hdr ++ payload)). by split; [left|].
  - split; [by right|]. split; [by_compute|done].
Qed.

(** What the frame loop does with a frame it accepts. *)
Definition answer ver sy cur conn sent (h : fsq_header) (payload rest : list Z) : M (option (list Z * list Z)) :=
  bind (dispatch malloc_ok ver sy cur conn h payload) (fun rep =>
  bind (send_reply malloc_ok junk sent (key_bytes cur) h rep) (fun out =>
  ret (match out with Some o => Some (rest, o) | None => None end))).

(** A frame reaches dispatch only under its tag. *)
Lemma serve_frame_cases ver sy cur conn sent input (d : D) r d' : bytes_ok input ->
  serve_frame malloc_ok junk ver sy cur conn sent input d = (r, d') ->
  (r = None /\ exists n, d' = bump n d) \/
  exists h tag payload rest n, input = fsq_header_encode h ++ tag ++ payload ++ rest /\ length tag = 32%nat /\
    Z.of_nat (length payload) = h_payload_len h /\
    (tag = fsq_hmac_sha256 junk (key_bytes cur) (fsq_header_encode h ++ payload) \/ (tag = repeat 0 32 /\ malloc_ok n = false)) /\
    answer ver sy cur conn sent h payload rest (bump (S n) d) = (r, d').
Proof.
  intros Hb E. unfold serve_frame in E. assert (Hid : exists n, d = bump n d) by (exists (d_mallocs d); by destruct d).
  destruct (length input <? FSQ_HEADER_LEN)%nat eqn:E1; [injection E as <- <-; by left|]. apply Nat.ltb_ge in E1.
  destruct (fsq_header_decode _) as [h|] eqn:Eh; [|injection E as <- <-; by left].
  destruct (negb _ || _); [injection E as <- <-; by left|]. destruct (_ <? _); [injection E as <- <-; by left|].
  destruct (negb _); [injection E as <- <-; by left|]. destruct (_ <? _)%nat eqn:E2; [injection E as <- <-; by left|]. apply Nat.ltb_ge in E2.
  set (n := Z.to_nat (h_payload_len h)) in *. set (rest := drop 32 (drop FSQ_HEADER_LEN input)) in *.
  unfold bind at 1 in E.
  assert (Hq : quiet (W := W) (I := I) (if (n =? 0)%nat then ret true else malloc malloc_ok)) by (destruct (n =? 0)%nat; [apply quiet_ret|apply quiet_malloc]).
  destruct (Hq d) as [m Hm]. destruct ((if (n =? 0)%nat then ret true else malloc malloc_ok) d) as [ok d1]. cbn [snd] in Hm. subst d1.
  destruct (negb ok || _) eqn:E3; [injection E as <- <-; left; by eauto|]. apply orb_false_iff in E3 as [_ E3]. apply Nat.ltb_ge in E3.
  destruct (mac malloc_ok junk (key_bytes cur) (take FSQ_HEADER_LEN input) (take n rest) (bump m d)) as [want d2] eqn:Em.
  rewrite (run_bind _ _ _ _ _ Em) in E. destruct (mac_spec _ _ _ _ _ _ Em) as (Hw & Hwb & Hwl & ->). rewrite bump_bump in E.
  destruct (negb (fsq_ct_equal _ _ _)) eqn:E4; [injection E as <- <-; left; eauto|]. right.
  apply negb_false_iff in E4. clear Em.
  unfold FSQ_HEADER_LEN in *. change (d_mallocs (bump m d)) with m in *.
  assert (Hl1 : length (take 32 input) = 32%nat) by (rewrite length_take; lia).
  assert (Hl2 : length (take 32 (drop 32 input)) = 32%nat) by (rewrite length_take; lia).
  apply ct_equal_spec in E4; [|auto with fsq|done..]. rewrite <- E4 in Hw.
  destruct (header_encode_decode (take 32 input) h) as [(_ & _ & _ & _ & _ & _ & Hp) He]; [auto with fsq|done|done|].
  exists h, (take 32 (drop 32 input)), (take n rest), (drop n rest), m.
  rewrite He, take_drop. unfold rest at 1. rewrite !take_drop. split_and!; try done.
  rewrite length_take, Nat.min_l by done. unfold n. apply Z2Nat.id. lia.
Qed.

(** With the tag all zero and its allocation failing, any frame is dispatched. *)
Lemma zero_tag_dispatched ver sy cur conn sent h payload (d : D) :
  header_ok h -> h_version h = FSQ_PROTOCOL_VERSION -> h_auth_len h = FSQ_TAG_LEN -> Z.land (h_flags h) FSQ_FLAG_RESPONSE = 0 ->
  h_payload_len h = Z.of_nat (length payload) -> Z.of_nat (length payload) <= FSQ_MAX_PAYLOAD -> payload <> [] ->
  malloc_ok (d_mallocs d) = true -> malloc_ok (S (d_mallocs d)) = false ->
  serve_frame malloc_ok junk ver sy cur conn sent (fsq_header_encode h ++ repeat 0 32 ++ payload) d =
  bind (dispatch malloc_ok ver sy cur conn h payload) (fun rep =>
    bind (send_reply malloc_ok junk sent (key_bytes cur) h rep) (fun out =>
      ret (match out with Some o => Some ([], o) | None => None end))) (bump (S (S (d_mallocs d))) d).
Proof.
  intros Hh Hv Ha Hf Hl Hm Hne M1 M2. unfold serve_frame.
  assert (El : length (fsq_header_encode h) = FSQ_HEADER_LEN) by apply header_encode_length.
  rewrite !(drop_app_exact (fsq_header_encode h)), !(take_app_exact (fsq_header_encode h)) by done.
  replace (_ <? _)%nat with false by (symmetry; apply Nat.ltb_ge; rewrite length_app, El; lia).
  assert (Hd : fsq_header_decode (fsq_header_encode h) = Some h) by (rewrite <- (app_nil_r (fsq_header_encode h)); by apply header_decode_encode).
  rewrite Hd.
  rewrite Hv, Ha, Hf, Hl. cbn [Z.eqb negb orb]. rewrite Z.eqb_refl. cbn [negb orb].
  assert ((FSQ_MAX_PAYLOAD <? Z.of_nat (length payload)) = false) as -> by lia.
  rewrite !(drop_app_exact (repeat 0 32)), !(take_app_exact (repeat 0 32)) by done.
  replace (length (repeat 0%Z 32 ++ payload) <? 32)%nat with false by (symmetry; apply Nat.ltb_ge; rewrite length_app, repeat_length; lia).
  rewrite Nat2Z.id. assert ((length payload =? 0)%nat = false) as -> by (apply Nat.eqb_neq; by destruct payload).
  assert (Em : malloc malloc_ok d = (true, bump (S (d_mallocs d)) d)) by (unfold malloc; by rewrite M1).
  rewrite ?Z.eqb_refl. cbn [negb]. cbv iota. rewrite (run_bind _ _ _ _ _ Em). cbn [negb orb]. rewrite Nat.ltb_irrefl.
  rewrite take_ge, drop_ge by lia.
  assert (Et : mac malloc_ok junk (key_bytes cur) (fsq_header_encode h) payload (bump (S (d_mallocs d)) d) = (repeat 0 32, bump (S (S (d_mallocs d))) d)).
  { unfold mac, bind, malloc, ret. change (d_mallocs (bump (S (d_mallocs d)) d)) with (S (d_mallocs d)). by rewrite M2. }
  rewrite (run_bind _ _ _ _ _ Et).
  replace (fsq_ct_equal (repeat 0 32) (repeat 0 32) 32) with true by (vm_compute; reflexivity). cbn [negb]. reflexivity.
Qed.

(** A resend of an executed call whose reply the cache still holds. *)
Lemma resend_answered conn conn' token p p' name id ins id' ins' (d d0 d1 d2 : D) c rep os :
  malloc_ok (pred (d_mallocs d1)) = true -> malloc_ok (d_mallocs d2) = true -> cache_inv (d_cache d) -> cache_find_locked token (d_cache d) = None ->
  parse_call p = Some (name, id, ins) -> parse_call p' = Some (name, id', ins') ->
  call_front malloc_ok conn token p d = (inr c, d0) -> handle_call malloc_ok conn token p d = (rep, d1) ->
  r_status rep = FSQ_OK \/ r_status rep = FSQ_ERR_CORE -> cacheable token rep name = true ->
  d_cache d2 = puts (d_cache d1) os -> Forall (fun o => p_token o <> token) os -> (length os <= 255)%nat ->
  g_cache_bytes (d_cache d1) + sum_len os <= FSQ_CACHE_MAX_BYTES ->
  exists n, handle_call malloc_ok conn' token p' d2 = (rep, bump n d2).
Proof.
  intros Hm Hm2 Hi Hf Hp Hp' Hc Hr Hs Hca Hd2 Ho Hl Hb.
  pose proof (call_front_outcome malloc_ok conn token p d) as Hout. pose proof (front_cache conn token p d) as Hc0.
  rewrite Hc in Hout, Hc0. cbn [fst snd] in Hout, Hc0. inversion Hout as [| | |n nm id1 ins1 h args Hp1 _ _ _ _ Ec Ed]. subst c d0. clear Hout.
  assert (nm = name) by congruence. subst nm. rewrite (call_run _ _ _ _ _ _ Hc) in Hr. clear Hc.
  set (c := {| cl_token := token; cl_id := id1; cl_name := name; cl_kind := hd_kind h; cl_args := args |}) in *.
  destruct (call_exec conn c (bump n d)) as [out d3] eqn:Ee. pose proof (exec_cache conn c (bump n d)) as He. rewrite Ee in He. cbn [snd] in He.
  unfold bind at 1 in Hr. rewrite Ee in Hr. unfold call_finish in Hr.
  destruct (call_result malloc_ok conn c out d3) as [rep1 d4] eqn:Er. pose proof (result_cache conn c out d3) as Hrc. rewrite Er in Hrc. cbn [snd] in Hrc.
  rewrite (run_bind _ _ _ _ _ Er) in Hr. unfold bind, ret in Hr. destruct (call_record malloc_ok c rep1 d4) as [u d5] eqn:Ek. injection Hr as <- <-.
  pose proof (record_cache c rep1 d4) as Hk. rewrite Ek in Hk. specialize (Hk Hm). cbn [snd cl_token cl_name c] in Hk.
  assert (Ht : token <> 0) by (intros ->; by unfold cacheable in Hca). specialize (Hk Hca Ht Hs). rewrite Hrc, He, Hc0 in Hk.
  set (o := {| p_alloc := true; p_token := token; p_reply := rep1; p_name := name |}).
  change (cache_put true token rep1 name (d_cache d)) with (put (d_cache d) o) in Hk.
  assert (Hhit : cache_replay true token name (d_cache d2) = Some rep1).
  { rewrite Hd2, Hk. apply (replay_kept (d_cache d) o os); try done; [by unfold stores; cbn; rewrite Hca|by rewrite <- Hk]. }
  exists (S (d_mallocs d2)). unfold handle_call, call_front. rewrite Hp'. apply Z.eqb_neq in Ht.
  unfold bind. rewrite Ht, Hhit. cbn [malloc]. rewrite Hm2. change (d_cache (set_ids _ _ _ d2)) with (d_cache d2). rewrite Hhit. reflexivity.
Qed.

(** Another connection's handle id. *)
Lemma unlink_none conn id (l : list H) : handle_find_locked conn id l = None -> unlink_handle conn id l = None.
Proof.
  unfold handle_find_locked. induction l as [|h l IH]; [done|]. cbn [List.find unlink_handle]. destruct (_ && _); [done|]. intros Hn. by rewrite IH.
Qed.
Lemma call_not_found conn token p name id ins (d : D) : parse_call p = Some (name, id, ins) ->
  token = 0 \/ cache_replay true token name (d_cache d) = None -> handle_find_locked conn id (d_handles d) = None ->
  exists rep n, handle_call malloc_ok conn token p d = (rep, bump n d) /\ r_status rep = FSQ_ERR_ARGS.
Proof.
  intros Hp Ht Hn. unfold handle_call, call_front. rewrite Hp.
  assert (Hh : (if token =? 0 then (@None fsq_reply, d) else match cache_replay true token name (d_cache d) with
     | Some _ => let '(ok, d) := malloc malloc_ok d in (cache_replay ok token name (d_cache d), d) | None => (None, d) end) = (None, d)).
  { destruct (token =? 0) eqn:E; [done|]. destruct Ht as [->|Ht]; [done|]. by rewrite Ht. }
  unfold bind at 1 2. rewrite Hh, Hn. unfold bind. destruct (set_text malloc_ok FSQ_ERR_ARGS [] d) as [rep d1] eqn:E.
  destruct (run_text _ _ _ _ _ _ E) as [Hs [n ->]]. by exists rep, n.
Qed.

(** Marking and finding. *)
Lemma mark_spec id (l l' : list H) conn h : NoDup (map hd_id l) -> handle_find_locked conn id l = Some h ->
  exists l', mark_cancelled id l = Some l' /\ handle_find_locked conn id l' = Some (with_cancelled true h) /\
    handle_find_locked conn id (upd_handle id (with_cancelled false) l') = Some (with_cancelled false h).
Proof.
  unfold handle_find_locked. induction l as [|x l IH]; intros Hn Hf; [done|]. cbn [map] in Hn. apply NoDup_cons in Hn as [Hx Hn].
  cbn [List.find mark_cancelled] in *. destruct (hd_id x =? id) eqn:Ex; cbn [andb] in Hf.
  - destruct (hd_owner x =? conn) eqn:Eo.
    + injection Hf as <-. eexists. split; [done|]. unfold upd_handle. cbn [List.find map with_cancelled hd_id hd_owner]. rewrite Ex, Eo. cbn [andb].
      split; [done|]. cbn [with_cancelled hd_id hd_owner]. by rewrite Ex, Eo.
    + exfalso. apply find_some in Hf as [Hin Hb]. bools. apply Hx. apply list_elem_of_In. apply Z.eqb_eq in Ex. rewrite Ex.
      apply in_map_iff. exists h. split; [lia|done].
  - destruct (IH Hn Hf) as (r & -> & H1 & H2). eexists. split; [done|]. unfold upd_handle in *. cbn [List.find map]. rewrite Ex. cbn [andb].
    split; [done|]. by rewrite Ex.
Qed.
Lemma find_unique_handle conn id (l : list H) h : NoDup (map hd_id l) -> In h l -> hd_id h = id -> hd_owner h = conn ->
  handle_find_locked conn id l = Some h.
Proof.
  unfold handle_find_locked. intros Hn Hin <- <-. induction l as [|x l IH]; [done|]. cbn [map] in Hn. apply NoDup_cons in Hn as [Hx Hn].
  cbn [List.find]. destruct Hin as [->|Hin]; [by rewrite !Z.eqb_refl|].
  destruct ((hd_id x =? hd_id h) && _) eqn:E; [|by apply IH]. bools. destruct Hx. apply list_elem_of_In, in_map_iff. exists h. split; [lia|done].
Qed.
Lemma count_length (l : list H) n : count n (map hkey_of l) = Z.of_nat (length (List.filter (fun h => bytes_eqb (hd_name h) n) l)).
Proof.
  induction l as [|h l IH]; [done|]. cbn [map count List.filter]. rewrite IH. unfold one. change (k_name (hkey_of h)) with (hd_name h).
  destruct (bytes_eqb _ _); cbn [length]; lia.
Qed.
End More.

(** ** Properties *)

(** C1: a frame whose processing answers or changes anything besides the
    allocation count is exactly [header, 32-byte tag, payload]: its payload is
    as long as its header says, its tag is the HMAC of that header and that
    payload under the connection's key, and what is dispatched is that header
    with that payload, what follows being left unread.  The one exception is
    the all-zero tag, which passes when the allocation for the message of its
    own tag failed. *)
Theorem frames_authenticated {W I} {AD : Adapter W I} {CO : Consumers W} malloc_ok junk ver sy cur conn sent input (d : daemon W I) :
  bytes_ok input ->
  let '(r, d') := serve_frame malloc_ok junk ver sy cur conn sent input d in
  (r <> None \/ ~ exists n, d' = bump n d) ->
  exists h tag payload rest n, input = fsq_header_encode h ++ tag ++ payload ++ rest /\ length tag = 32%nat /\
    Z.of_nat (length payload) = h_payload_len h /\
    (tag = fsq_hmac_sha256 junk (key_bytes cur) (fsq_header_encode h ++ payload) \/ (tag = repeat 0 32 /\ malloc_ok n = false)) /\
    (r, d') = answer malloc_ok junk ver sy cur conn sent h payload rest (bump (S n) d).
Proof.
  intros Hb. destruct (serve_frame _ _ _ _ _ _ _ _ d) as [r d'] eqn:E. intros Hor.
  destruct (serve_frame_cases malloc_ok junk ver sy cur conn sent input d r d' Hb E) as [[-> Hn]|Hex]; [by destruct Hor|].
  destruct Hex as (h & tag & payload & rest & n & H1 & H2 & H3 & H4 & H5). by exists h, tag, payload, rest, n.
Qed.

(** C4: in every interleaving of the connections (fewer than 2^64 - 2 steps)
    the handle ids are distinct, and the handle of every call in flight is
    still in the registry, owned by the calling connection and opened for the
    function called: neither a DEINIT, a CANCEL, a RELOAD nor another
    connection's close frees it under the call. *)
Theorem inflight_handle_live {W I} {AD : Adapter W I} {CO : Consumers W} malloc_ok sy n w s nd :
  nsteps (node_step malloc_ok sy) n (node0 w s) nd -> Z.of_nat n < 2 ^ 64 - 2 ->
  NoDup (map hd_id (d_handles (n_d nd))) /\
  forall conn f, n_busy nd !! conn = Some f ->
    exists h, handle_find_locked conn (cl_id (flight_call f)) (d_handles (n_d nd)) = Some h /\
      hd_name h = cl_name (flight_call f).
Proof.
  intros Hs Hn. destruct (node_steps_inv malloc_ok [] (fun _ _ => 0) sy n w s nd (fun _ => eq_refl) Hs Hn) as [[H1 _ H3 _] _].
  unfold keys in *. rewrite map_map in H1. split; [exact H1|]. intros conn f Hf. destruct (H3 conn f Hf) as (k & Hin & Hid & Ho & Hnm).
  apply in_map_iff in Hin as (h & <- & Hin). exists h. split; [|done].
  apply find_unique_handle; done.
Qed.

(** C9: under the adapter's contract every reachable state has, for each
    function, exactly as many acquired resources as live handles: every
    successful init is released by exactly one deinit, on every path (DEINIT,
    a closed connection, a failed reply allocation). *)
Theorem handles_balanced {W I} {AD : Adapter W I} {CO : Consumers W} malloc_ok live sy n w s nd :
  AdapterLaws live -> (forall x, live w x = 0) ->
  nsteps (node_step malloc_ok sy) n (node0 w s) nd -> Z.of_nat n < 2 ^ 64 - 2 ->
  forall name, live (d_world (n_d nd)) name =
    Z.of_nat (length (List.filter (fun h => bytes_eqb (hd_name h) name) (d_handles (n_d nd)))).
Proof.
  intros Hl Hw Hs Hn name. destruct (node_steps_inv malloc_ok [] live sy n w s nd Hw Hs Hn) as [[_ _ _ H4] _].
  specialize (H4 Hl name). unfold debt in H4. rewrite <- count_length. unfold keys in H4. lia.
Qed.

(** A connection cannot reach a handle it does not own: a DEINIT of such
    an id changes nothing, and a CALL on it is refused without running
    anything (unless its token is answered from the cache). *)
Theorem foreign_handle_inert {W I} {AD : Adapter W I} {CO : Consumers W} malloc_ok conn id (d : daemon W I) :
  handle_find_locked conn id (d_handles d) = None ->
  (forall p, (8 <= length p)%nat -> fsq_get_u64 p = id -> exists n, snd (handle_deinit malloc_ok conn p d) = bump n d) /\
  (forall token p name ins, parse_call p = Some (name, id, ins) -> token = 0 \/ cache_replay true token name (d_cache d) = None ->
     exists rep n, handle_call malloc_ok conn token p d = (rep, bump n d) /\ r_status rep = FSQ_ERR_ARGS).
Proof.
  intros Hn. split.
  - intros p Hp Hid. unfold handle_deinit. rewrite (proj2 (Nat.ltb_ge _ _) Hp), Hid, (unlink_none _ _ _ Hn). apply quiet_set_text.
  - intros token p name ins Hp Ht. by apply (call_not_found malloc_ok conn token p name id ins).
Qed.


(** CANCEL is one-shot and takes effect at the next call: after CANCEL of
    a live handle, from any connection, the owner's next call on it is answered
    BUSY without running, and leaves the handle's flag clear. *)
Theorem cancel_one_shot {W I} {AD : Adapter W I} {CO : Consumers W} malloc_ok conn id p q name ins h (d : daemon W I) :
  NoDup (map hd_id (d_handles d)) -> (8 <= length p)%nat -> fsq_get_u64 p = id ->
  handle_find_locked conn id (d_handles d) = Some h -> hd_name h = name -> length (hd_types h) = length ins ->
  parse_call q = Some (name, id, ins) ->
  let d1 := snd (handle_cancel malloc_ok p d) in
  let '(rep, d2) := handle_call malloc_ok conn 0 q d1 in
  r_status (fst (handle_cancel malloc_ok p d)) = FSQ_OK /\ r_status rep = FSQ_ERR_BUSY /\ d_world d2 = d_world d /\
  handle_find_locked conn id (d_handles d2) = Some (with_cancelled false h).
Proof.
  intros Hn Hp Hid Hf Hnm Hl Hq. destruct (mark_spec id (d_handles d) [] conn h Hn Hf) as (l' & Hm & Hf' & Hu).
  unfold handle_cancel. rewrite (proj2 (Nat.ltb_ge _ _) Hp), Hid, Hm. cbv zeta.
  destruct (set_text malloc_ok FSQ_OK [] (set_handles l' d)) as [r0 d1] eqn:E0. destruct (run_text _ _ _ _ _ _ E0) as [Hs0 [n0 ->]]. cbn [fst snd].
  unfold handle_call, call_front. rewrite Hq. unfold bind at 1 2. cbn [Z.eqb].
  change (d_handles (bump n0 (set_handles l' d))) with l'. rewrite Hf'.
  replace (negb (bytes_eqb (hd_name (with_cancelled true h)) name)) with false by (symmetry; apply negb_false_iff, bytes_eqb_true; done).
  cbn [with_cancelled hd_types hd_cancelled]. rewrite Hl, Nat.eqb_refl. cbn [negb orb].
  unfold bind. destruct (set_text malloc_ok FSQ_ERR_BUSY (bs "cancelled") _) as [r1 d2] eqn:E1. destruct (run_text _ _ _ _ _ _ E1) as [Hs1 [n1 ->]].
  cbn [ret]. split_and!; [done|done|done|]. cbn [bump set_ids set_handles d_handles]. exact Hu.
Qed.

(** RELOAD's two ends: refused, with the world as the consumers left it; or
    the file's configuration published as a fresh snapshot. *)
Inductive reload_outcome {W I} (sy : sys) (cur : fsq_config) (d : daemon W I) : fsq_reply -> daemon W I -> Prop :=
  | RO_refused rep w n : r_status rep <> FSQ_OK -> reload_outcome sy cur d rep (bump n (set_world w d))
  | RO_swapped rep w n s next q : r_status rep = FSQ_OK -> load_config (sy_files sy) (sy_euid sy) (sy_path sy) = Some next ->
      str_of next (bs "socket_path") = str_of cur (bs "socket_path") -> str_of next (bs "hmac_key_file") = str_of cur (bs "hmac_key_file") ->
      validate_cfg (sy_stat sy) (Some (sy_path sy)) next = true -> validate_provider_cfg next = true ->
      snaps (d_snaps d) !! q = None -> g_snap s = Some q -> snaps s !! q = Some (next, 0) ->
      reload_outcome sy cur d rep (bump n (set_snaps s (set_world w d))).
Lemma publish_fresh q next (s : snap_heap) : snaps s !! q = None ->
  let r := cfg_publish (Some q) next s in snd r = true /\ g_snap (fst r) = Some q /\ snaps (fst r) !! q = Some (next, 0).
Proof.
  intros Hq. unfold cfg_publish. destruct (g_snap s) as [old|]; [|cbn; by rewrite lookup_insert_eq].
  destruct (snaps s !! old) as [[co r]|] eqn:Eo; [|cbn; by rewrite lookup_insert_eq].
  assert (old <> q) by congruence. destruct (r =? 0); cbn; rewrite ?lookup_delete_ne by done; by rewrite lookup_insert_eq.
Qed.
Lemma handle_reload_outcome {W I} {AD : Adapter W I} {CO : Consumers W} malloc_ok sy cur (d : daemon W I) rep d' :
  handle_reload malloc_ok sy cur d = (rep, d') -> reload_outcome sy cur d rep d'.
Proof.
  unfold handle_reload. assert (Q : forall st t w n, st <> FSQ_OK -> set_text malloc_ok st t (bump n (set_world w d)) = (rep, d') -> reload_outcome sy cur d rep d').
  { intros st t w n Hst E0. destruct (run_text _ _ _ _ _ _ E0) as [Hs [m ->]]. rewrite bump_bump. apply RO_refused. by rewrite Hs. }
  assert (Q0 : forall st t, st <> FSQ_OK -> set_text malloc_ok st t d = (rep, d') -> reload_outcome sy cur d rep d').
  { intros st t Hst E0. apply (Q st t (d_world d) (d_mallocs d) Hst). by destruct d. }
  destruct (load_config _ _ _) as [next|] eqn:El; [|by apply Q0].
  destruct (negb (bytes_eqb (str_of next (bs "socket_path")) _) || _) eqn:E1; [by apply Q0|].
  apply orb_false_iff in E1 as [E1 E1']. apply negb_false_iff, bytes_eqb_true in E1, E1'.
  destruct (negb (validate_cfg _ _ _)) eqn:E2; [by apply Q0|]. apply negb_false_iff in E2.
  destruct (negb (daemon_check_provider _ _)) eqn:E3; [by apply Q0|]. apply negb_false_iff, andb_true_iff in E3 as [E3 _].
  destruct (daemon_apply_provider next (d_world d)) as [w ok]. destruct (negb ok); [intros E; by apply (Q FSQ_ERR_ARGS _ w (d_mallocs d) ltac:(done) E)|].
  cbn [malloc]. destruct (malloc_ok _); [|intros E; by apply (Q FSQ_ERR_INTERNAL _ w (S (d_mallocs d)) ltac:(done) E)].
  set (q := fresh _). destruct (publish_fresh q next (d_snaps d)) as (Hok & Hg & Hl); [apply not_elem_of_dom; apply is_fresh|].
  change (d_snaps (set_ids _ _ _ (set_world w d))) with (d_snaps d). destruct (cfg_publish (Some q) next (d_snaps d)) as [s ok2]. cbn [fst snd] in *. subst ok2. cbn [negb].
  intros E. destruct (run_text _ _ _ _ _ _ E) as [Hs [n ->]]. apply (RO_swapped sy cur d rep w n s next q); try done. apply not_elem_of_dom; apply is_fresh.
Qed.

(** C24: RELOAD is all or nothing on the published configuration: any reply but
    OK leaves the snapshots as they were; OK publishes, as a fresh snapshot,
    the file's configuration, which keeps the socket path and the key file and
    passes the permission and provider checks; handles and cache are untouched. *)
Theorem reload_atomic {W I} {AD : Adapter W I} {CO : Consumers W} malloc_ok sy cur (d : daemon W I) :
  let '(rep, d') := handle_reload malloc_ok sy cur d in
  (r_status rep <> FSQ_OK -> d_snaps d' = d_snaps d) /\
  (r_status rep = FSQ_OK -> exists next q, load_config (sy_files sy) (sy_euid sy) (sy_path sy) = Some next /\
     str_of next (bs "socket_path") = str_of cur (bs "socket_path") /\ str_of next (bs "hmac_key_file") = str_of cur (bs "hmac_key_file") /\
     validate_cfg (sy_stat sy) (Some (sy_path sy)) next = true /\ validate_provider_cfg next = true /\
     snaps (d_snaps d) !! q = None /\ g_snap (d_snaps d') = Some q /\ snaps (d_snaps d') !! q = Some (next, 0)) /\
  d_handles d' = d_handles d /\ d_cache d' = d_cache d.
Proof.
  destruct (handle_reload malloc_ok sy cur d) as [rep d'] eqn:E. destruct (handle_reload_outcome _ _ _ _ _ _ E) as [rep w n Hs|rep w n s next q Hs].
  - split_and!; [done|congruence|done|done].
  - split; [congruence|]. split; [intros _; by exists next, q|done].
Qed.

(** ** A concrete adapter, for the witnesses and the counterexamples

    It counts what it opens and closes and logs what it runs; the bodies
    return 42, or five bytes under a max_length of four. *)
Record dworld := { w_opened : list (list Z); w_closed : list (list Z); w_log : list (list Z) }.
Definition demo0 : dworld := {| w_opened := []; w_closed := []; w_log := [] |}.
#[export] Instance demo_adapter : Adapter dworld unit := {
  udf_init name args w := ({| w_opened := name :: w_opened w; w_closed := w_closed w; w_log := w_log w |},
                           inr {| ui_max_length := 4; ui_maybe_null := false; ui_ptr := tt |});
  udf_main name i args w := ({| w_opened := w_opened w; w_closed := w_closed w; w_log := w_log w ++ [name] |}, i,
                             {| uo_err := false; uo_null := false; uo_str := bs "12345"; uo_val := 42 |});
  udf_deinit name i w := {| w_opened := w_opened w; w_closed := name :: w_closed w; w_log := w_log w |} }.
#[export] Instance demo_consumers : Consumers dworld := {
  cognition_check _ _ := true; textsql_check _ _ := true; enterprise_check _ _ := true;
  cognition_apply _ w := (w, true); textsql_apply _ w := (w, true); enterprise_apply _ w := (w, true) }.
Fixpoint occ (n : list Z) (l : list (list Z)) : Z := match l with [] => 0 | x :: r => one x n + occ n r end.
Definition demo_live (w : dworld) (n : list Z) : Z := occ n (w_opened w) - occ n (w_closed w).
Lemma demo_laws : AdapterLaws demo_live.
Proof.
  split; try done; unfold demo_live.
  - intros name args w w' i [= <- <-] n. cbn [w_opened w_closed occ]. lia.
  - by intros name i args w w' i' o [= <- <- <-].
  - intros name i w n. cbn [w_opened w_closed occ udf_deinit demo_adapter]. lia.
Qed.

Definition ok_malloc (_ : nat) : bool := true.
Definition sys0 : sys := {| sy_files := fun _ => None; sy_stat := fun _ => None; sy_euid := 0; sy_path := [] |}.
Definition load_fn : list Z := bs "fractal_ledger_load".
Definition set_fn : list Z := bs "fractal_config_set".
Definition open_req (name : list Z) : list Z := blen name :: name ++ fsq_put_u32 0.
Definition run_req (name : list Z) (id : Z) : list Z := blen name :: name ++ fsq_put_u64 id ++ fsq_put_u32 0.
Definition dd : Type := daemon dworld unit.
Definition dd0 : dd := daemon0 demo0 heap0.
(** Connections 1 and 2 open the function: handles 1 and 2. *)
Definition dd1 : dd := snd (handle_init ok_malloc 1 (open_req load_fn) dd0).
Definition dd2 : dd := snd (handle_init ok_malloc 2 (open_req load_fn) dd1).
Definition no_call : call := {| cl_token := 0; cl_id := 0; cl_name := []; cl_kind := FSQ_KIND_CTL; cl_args := [] |}.
Definition started (r : fsq_reply + call) : call := match r with inr c => c | inl _ => no_call end.
(** Both start a call under token 7. *)
#[local] Abbreviation f1 := (call_front ok_malloc 1 7 (run_req load_fn 1) dd2).
#[local] Abbreviation f2 := (call_front ok_malloc 2 7 (run_req load_fn 2) (snd f1)).
Definition c1 : call := started (fst f1).
Definition c2 : call := started (fst f2).
#[local] Abbreviation x1 := (call_exec 1 c1 (snd f2)).
#[local] Abbreviation x2 := (call_exec 2 c2 (snd x1)).
Definition node1 : @node dworld unit := {| n_d := snd f2; n_busy := <[2 := IF_run c2]> (<[1 := IF_run c1]> ∅) |}.
Definition node2 : @node dworld unit := {| n_d := snd x2; n_busy := <[2 := IF_done c2 (fst x2)]> (<[1 := IF_done c1 (fst x1)]> (n_busy node1)) |}.
Lemma pair_inr (r : (fsq_reply + call) * dd) c : fst r = inr c -> r = (inr c, snd r).
Proof. destruct r. by intros [= ->]. Qed.
Lemma f1_eq : f1 = (inr c1, snd f1).
Proof. apply pair_inr. vm_compute. reflexivity. Qed.
Lemma f2_eq : f2 = (inr c2, snd f2).
Proof. apply pair_inr. vm_compute. reflexivity. Qed.
Lemma node1_steps : nsteps (node_step ok_malloc sys0) 4 (node0 demo0 heap0) node1.
Proof.
  apply (nsteps_l _ _ _ {| n_d := dd1; n_busy := ∅ |}); [by apply NS_init|].
  apply (nsteps_l _ _ _ {| n_d := dd2; n_busy := ∅ |}); [by apply NS_init|].
  apply (nsteps_l _ _ _ {| n_d := snd f1; n_busy := <[1 := IF_run c1]> ∅ |}).
  { exact (NS_start ok_malloc sys0 1 7 (run_req load_fn 1) dd2 ∅ c1 (snd f1) eq_refl f1_eq). }
  apply nsteps_once. exact (NS_start ok_malloc sys0 2 7 (run_req load_fn 2) (snd f1) (<[1 := IF_run c1]> ∅) c2 (snd f2) eq_refl f2_eq).
Qed.

Lemma frames_authenticated_witness : exists h tag payload rest,
  let h0 := {| h_version := 2; h_opcode := 1; h_flags := 0; h_request_id := 5; h_context := 0; h_auth_len := 32; h_payload_len := 0 |} in
  fsq_header_encode h0 ++ fsq_hmac_sha256 (repeat 0 64) [1; 2; 3] (fsq_header_encode h0) ++ bs "rest" =
    fsq_header_encode h ++ tag ++ payload ++ rest /\
  tag = fsq_hmac_sha256 (repeat 0 64) [1; 2; 3] (fsq_header_encode h ++ payload).
Proof.
  set (h := {| h_version := 2; h_opcode := 1; h_flags := 0; h_request_id := 5; h_context := 0; h_auth_len := 32; h_payload_len := 0 |}).
  set (input := fsq_header_encode h ++ fsq_hmac_sha256 (repeat 0 64) [1; 2; 3] (fsq_header_encode h) ++ bs "rest").
  set (cur := with_limits 64 300 [0] [1; 2; 3] config0).
  assert (Hb : bytes_ok input) by (unfold input; vm_compute; repeat constructor; done).
  pose proof (frames_authenticated ok_malloc (repeat 0 64) (bs "1.0") sys0 cur 1 true input dd0 Hb) as HA.
  assert (Hs : match fst (serve_frame ok_malloc (repeat 0 64) (bs "1.0") sys0 cur 1 true input dd0) with Some _ => true | None => false end = true)
    by (vm_compute; reflexivity).
  destruct (serve_frame ok_malloc (repeat 0 64) (bs "1.0") sys0 cur 1 true input dd0) as [[o|] d']; [|discriminate Hs].
  destruct HA as (h' & tag & payload & rest & n & He & _ & _ & [Ht|[_ Hf]] & _); [by left| |discriminate Hf].
  exists h', tag, payload, rest. cbv zeta.
  change (key_bytes cur) with [1; 2; 3] in Ht. split; [exact He|exact Ht].
Defined.
Lemma inflight_handle_live_witness : exists h, handle_find_locked 2 (cl_id c2) (d_handles (n_d node1)) = Some h /\ hd_name h = cl_name c2.
Proof.
  destruct (inflight_handle_live ok_malloc sys0 4 demo0 heap0 node1 node1_steps ltac:(lia)) as [_ Hf].
  exact (Hf 2 (IF_run c2) eq_refl).
Defined.
Lemma handles_balanced_witness : demo_live (d_world (n_d node1)) load_fn = 2.
Proof.
  rewrite (handles_balanced ok_malloc demo_live sys0 4 demo0 heap0 node1 demo_laws ltac:(done) node1_steps ltac:(lia)).
  vm_compute. reflexivity.
Defined.
Lemma foreign_handle_inert_witness : exists n, snd (handle_deinit ok_malloc 2 (fsq_put_u64 1) dd2) = bump n dd2.
Proof. apply (foreign_handle_inert ok_malloc 2 1 dd2); [vm_compute; reflexivity|cbn; lia|vm_compute; reflexivity]. Defined.
Lemma cancel_one_shot_witness :
  r_status (fst (handle_call ok_malloc 1 0 (run_req load_fn 1) (snd (handle_cancel ok_malloc (fsq_put_u64 1) dd2)))) = FSQ_ERR_BUSY.
Proof.
  pose proof (cancel_one_shot ok_malloc 1 1 (fsq_put_u64 1) (run_req load_fn 1) load_fn []
    {| hd_id := 1; hd_name := load_fn; hd_kind := FSQ_KIND_INT; hd_init := {| ui_max_length := 4; ui_maybe_null := false; ui_ptr := tt |};
       hd_types := []; hd_owner := 1; hd_cancelled := false |} dd2) as HC.
  cbv zeta in HC.
  assert (HN : NoDup (map hd_id (d_handles dd2))) by (apply (bool_decide_unpack _); vm_compute; exact Logic.I).
  assert (HG : fsq_get_u64 (fsq_put_u64 1) = 1) by (vm_compute; reflexivity).
  assert (HP : parse_call (run_req load_fn 1) = Some (load_fn, 1, [])) by (vm_compute; reflexivity).
  match type of HC with _ -> _ -> _ -> ?Q -> _ => assert (HF : Q) by (vm_compute; reflexivity) end.
  specialize (HC HN ltac:(cbn; lia) HG HF eq_refl eq_refl HP).
  destruct (handle_call ok_malloc 1 0 (run_req load_fn 1) (snd (handle_cancel ok_malloc (fsq_put_u64 1) dd2))) as [rep d2].
  exact (proj1 (proj2 HC)).
Defined.

(** Two connections that hold the same token in flight at once both run
    the function: the replay check, the execution and the cache insertion are
    not one atomic step, so a resend that overtakes a slow call repeats its
    side effect. *)
Theorem concurrent_resend_runs_twice :
  exists nd : @node dworld unit, rtc (node_step ok_malloc sys0) (node0 demo0 heap0) nd /\
    cl_token c1 = 7 /\ cl_token c2 = 7 /\ cl_name c1 = cl_name c2 /\
    n_busy nd !! 1 = Some (IF_done c1 (fst x1)) /\ n_busy nd !! 2 = Some (IF_done c2 (fst x2)) /\
    w_log (d_world (n_d nd)) = [load_fn; load_fn].
Proof.
  exists {| n_d := snd x2; n_busy := <[2 := IF_done c2 (fst x2)]> (<[1 := IF_done c1 (fst x1)]> (n_busy node1)) |}. split.
  - transitivity node1; [exact (rtc_nsteps_2 _ _ _ node1_steps)|].
    apply (rtc_l _ _ {| n_d := snd x1; n_busy := <[1 := IF_done c1 (fst x1)]> (n_busy node1) |}).
    + exact (NS_exec ok_malloc sys0 1 c1 (fst x1) (snd f2) (n_busy node1) (snd x1) eq_refl (surjective_pairing x1)).
    + apply rtc_once. exact (NS_exec ok_malloc sys0 2 c2 (fst x2) (snd x1) (<[1 := IF_done c1 (fst x1)]> (n_busy node1)) (snd x2) eq_refl (surjective_pairing x2)).
  - split_and!; vm_compute; reflexivity.
Qed.

(** A resend whose copy of the cached reply cannot be allocated runs the
    function again. *)
Theorem replay_oom_reruns :
  let '(r1, d1) := handle_call ok_malloc 1 7 (run_req load_fn 1) dd2 in
  let '(r2, d2) := handle_call (fun n => negb (n =? d_mallocs d1)%nat) 1 7 (run_req load_fn 1) d1 in
  r_status r1 = FSQ_OK /\ w_log (d_world d1) = [load_fn] /\ r_status r2 = FSQ_OK /\ w_log (d_world d2) = [load_fn; load_fn].
Proof. vm_compute. repeat split. Qed.

(** A reply over the handle's max_length comes after the body ran and is
    not cached, so a resend of its token runs the body again. *)
Theorem limit_reply_reruns :
  let d1 := snd (handle_init ok_malloc 1 (open_req set_fn) dd0) in
  let '(r1, d2) := handle_call ok_malloc 1 7 (run_req set_fn 1) d1 in
  let '(r2, d3) := handle_call ok_malloc 1 7 (run_req set_fn 1) d2 in
  r_status r1 = FSQ_ERR_LIMIT /\ w_log (d_world d2) = [set_fn] /\ r_status r2 = FSQ_ERR_LIMIT /\ w_log (d_world d3) = [set_fn; set_fn].
Proof. vm_compute. repeat split. Qed.

(** When the allocation of the tag's message fails, a frame with an all
    zero tag is dispatched whatever the key: here an unauthenticated CANCEL
    marks another connection's statement. *)
Theorem oom_tag_forgeable key :
  let cancel := {| h_version := 2; h_opcode := FSQ_OP_CANCEL; h_flags := 0; h_request_id := 1; h_context := 0; h_auth_len := 32; h_payload_len := 8 |} in
  let cur := with_limits 64 300 [0] key config0 in
  let oom n := negb (n =? S (d_mallocs dd2))%nat in
  existsb (fun h => (hd_owner h =? 1) && hd_cancelled h)
    (d_handles (snd (serve_frame oom (repeat 0 64) [] sys0 cur 9 false (fsq_header_encode cancel ++ repeat 0 32 ++ fsq_put_u64 1) dd2))) = true.
Proof.
  intros cancel cur oom. unfold oom.
  assert (Hok : header_ok cancel) by (unfold header_ok; repeat split; vm_compute; (discriminate || reflexivity)).
  rewrite zero_tag_dispatched; try reflexivity; try exact Hok; try (vm_compute; discriminate).
Qed.
