(* ===== verification/Listener.v ===== *)
(** * The listener (service/daemon/fractalsqld.c: main, open_listener,
    run_listener, on_signal, the life of a connection's thread)

    The POSIX branches.  Starting up is a function of what the system calls
    answer.  The running process is a step relation: the listener's loop, a
    thread per connection, signals, and the descriptors other code opens; each
    step is one lock hold, one system call or one frame.  What a frame does is
    Daemon.v's [serve_frame]; calls of different connections interleave inside
    a frame too, which Daemon.v's [node_step] covers. *)

From stdpp Require Import gmap.
From S2P Require Import Prelude DaemonConf Daemon.

(** ** The listening socket *)

(** What is at the socket's path. *)
Inductive path_entry := P_none | P_socket | P_other.
(** What the system calls answer; [bind] also fails on a path that exists. *)
Record listen_sys := { ls_socket : option Z; ls_stat_ok : bool; ls_unlink_ok : bool; ls_bind_ok : bool; ls_listen_ok : bool }.
Definition open_listener (o : listen_sys) (at_path : path_entry) : option Z * path_entry :=
  match ls_socket o with
  | None => (None, at_path)
  | Some fd =>
      let at_path := match at_path with P_socket => if ls_stat_ok o && ls_unlink_ok o then P_none else P_socket | p => p end in
      match at_path with
      | P_none =>
          if negb (ls_bind_ok o) then (None, P_none)
          else if negb (ls_listen_ok o) then (None, P_none)
          else (Some fd, P_socket)
      | p => (None, p)
      end
  end.

(** ** Main *)

Definition FSQ_CONFIG_ENV : list Z := bs "FRACTALSQL_CONFIG".
Definition FSQ_CONFIG_DEFAULT : list Z := bs "/etc/fractalsql/fractalsqld.conf".
(** The words after the program's name; [None] is the usage message. *)
Fixpoint main_args (args : list (list Z)) (config_path : option (list Z)) : option (option (list Z)) :=
  match args with
  | [] => Some config_path
  | a :: v :: r => if bytes_eqb a (bs "-c") then main_args r (Some v) else None
  | _ :: [] => None
  end.

Section Listener.
Context {W I : Type} {AD : Adapter W I} {CO : Consumers W}.
Context (malloc_ok : nat -> bool) (junk FSQL_DAEMON_VERSION : list Z).
#[local] Abbreviation D := (daemon W I).

(** What main leaves: an exit code, or the daemon, its configuration and its
    listening socket. *)
Inductive started := St_exit (code : Z) | St_listening (d : D) (cfg : fsq_config) (fd : Z).
Definition main_start (getenv : list Z -> option (list Z)) (args : list (list Z)) (sy : sys) (o : listen_sys) (at_path : path_entry) (d : D)
    : started * D * path_entry :=
  match main_args args (getenv FSQ_CONFIG_ENV) with
  | None => (St_exit 2, d, at_path)
  | Some config_path =>
  let config_path := default FSQ_CONFIG_DEFAULT config_path in
  match load_config (sy_files sy) (sy_euid sy) config_path with
  | None => (St_exit 1, d, at_path)
  | Some cfg =>
  if sy_euid sy =? 0 then (St_exit 1, d, at_path)
  else if negb (validate_cfg (sy_stat sy) (Some config_path) cfg) then (St_exit 1, d, at_path)
  else if negb (daemon_check_provider cfg (d_world d)) then (St_exit 1, d, at_path)
  else
  let '(w, ok) := daemon_apply_provider cfg (d_world d) in
  let d := set_world w d in
  if negb ok then (St_exit 1, d, at_path) else
  let '(ok, d) := malloc malloc_ok d in
  let q := if ok then Some (fresh (dom (snaps (d_snaps d)))) else None in
  let '(s, ok) := cfg_publish q cfg (d_snaps d) in
  let d := set_snaps s d in
  if negb ok then (St_exit 1, d, at_path) else
  match open_listener o at_path with
  | (None, at_path) => (St_exit 1, d, at_path)
  | (Some fd, at_path) => (St_listening d cfg fd, d, at_path)
  end
  end
  end.

(** ** The accept loop *)

Inductive accept_errno := E_INTR | E_CONNABORTED | E_PROTO | E_MFILE | E_NFILE | E_NOBUFS | E_NOMEM | E_other.
Definition transient (e : accept_errno) : bool := match e with E_INTR | E_CONNABORTED | E_PROTO => true | _ => false end.
(** These sleep for 100 ms. *)
Definition resources (e : accept_errno) : bool := match e with E_MFILE | E_NFILE | E_NOBUFS | E_NOMEM => true | _ => false end.
(** Whether the loop goes on. *)
Definition accept_failed (stop : bool) (e : accept_errno) : bool := if stop then false else transient e || resources e.

(** Where the listener is: [L_looking] has borrowed a configuration,
    [L_counting] has read the limit in it and given it back, [L_starting] has
    counted the connection. *)
Inductive listening :=
  | L_loop | L_accept | L_accepted (fd : Z) (cred : option Z) | L_looking (fd : Z) (cred : option Z) (p : positive) | L_counting (fd : Z) (cred : option Z) (max_conns : Z)
  | L_refused (fd : Z) | L_starting (fd : Z) (cred : option Z) | L_failed (fd : Z) | L_leaving | L_unlinking | L_left.

(** Where a connection's thread is. *)
Inductive serving :=
  | C_new (fd : Z) (cred : option Z)
  | C_borrowed (fd : Z) (cred : option Z) (p : positive)
  | C_known (fd : Z) (cred : option Z) (p : positive) (conn : Z)
  | C_frames (fd : Z) (p : positive) (cur : fsq_config) (conn : Z)
  | C_ended (fd : Z) (p : positive) (conn : Z)
  | C_closing (fd : Z) (p : positive)
  | C_closed (p : positive)
  | C_counted (p : positive).

Inductive fd_use := F_listener | F_conn | F_file.
Record server := {
  v_d : D; v_conns : Z; v_stop : bool; v_listen : Z; v_fds : gmap Z fd_use; v_path : path_entry;
  v_at : listening; v_threads : gmap nat serving }.

Definition at_listener (l : listening) (s : server) : server :=
  {| v_d := v_d s; v_conns := v_conns s; v_stop := v_stop s; v_listen := v_listen s; v_fds := v_fds s; v_path := v_path s; v_at := l; v_threads := v_threads s |}.
Definition at_thread (i : nat) (t : option serving) (s : server) : server :=
  {| v_d := v_d s; v_conns := v_conns s; v_stop := v_stop s; v_listen := v_listen s; v_fds := v_fds s; v_path := v_path s; v_at := v_at s;
     v_threads := match t with Some t => <[i := t]> (v_threads s) | None => delete i (v_threads s) end |}.
Definition with_d (d : D) (s : server) : server :=
  {| v_d := d; v_conns := v_conns s; v_stop := v_stop s; v_listen := v_listen s; v_fds := v_fds s; v_path := v_path s; v_at := v_at s; v_threads := v_threads s |}.
Definition with_conns (n : Z) (s : server) : server :=
  {| v_d := v_d s; v_conns := n; v_stop := v_stop s; v_listen := v_listen s; v_fds := v_fds s; v_path := v_path s; v_at := v_at s; v_threads := v_threads s |}.
Definition with_fds (m : gmap Z fd_use) (s : server) : server :=
  {| v_d := v_d s; v_conns := v_conns s; v_stop := v_stop s; v_listen := v_listen s; v_fds := m; v_path := v_path s; v_at := v_at s; v_threads := v_threads s |}.
(** [close] of a number releases whatever has that number. *)
Definition close_fd (fd : Z) (s : server) : server := with_fds (delete fd (v_fds s)) s.
(** on_signal: SIGTERM, SIGINT. *)
Definition on_signal (s : server) : server :=
  {| v_d := v_d s; v_conns := v_conns s; v_stop := true; v_listen := v_listen s;
     v_fds := if 0 <=? v_listen s then delete (v_listen s) (v_fds s) else v_fds s; v_path := v_path s; v_at := v_at s; v_threads := v_threads s |}.
Definition unlink_path (s : server) : server :=
  {| v_d := v_d s; v_conns := v_conns s; v_stop := v_stop s; v_listen := v_listen s; v_fds := v_fds s; v_path := P_none; v_at := v_at s; v_threads := v_threads s |}.

(** The limit, from a borrowed snapshot, and the snapshot given back. *)
Definition read_limit (p : positive) (s : snap_heap) : option (Z * snap_heap) :=
  match snaps s !! p with
  | None => None
  | Some (c, _) => match cfg_release p s with Some s => Some (max_connections c, s) | None => None end
  end.

Inductive server_step : server -> server -> Prop :=
  (* the accept loop *)
  | VS_stop s : v_at s = L_loop -> v_stop s = true -> server_step s (at_listener L_leaving s)
  | VS_loop s : v_at s = L_loop -> v_stop s = false -> server_step s (at_listener L_accept s)
  | VS_accept_fails s e : v_at s = L_accept -> server_step s (at_listener (if accept_failed (v_stop s) e then L_loop else L_leaving) s)
  (* an accept under way outlives the close of its descriptor *)
  | VS_accept s fd cred : v_at s = L_accept -> 0 <= fd -> v_fds s !! fd = None ->
      server_step s (at_listener (L_accepted fd cred) (with_fds (<[fd := F_conn]> (v_fds s)) s))
  | VS_look s fd cred h p : v_at s = L_accepted fd cred -> cfg_acquire (d_snaps (v_d s)) = Some (h, p) ->
      server_step s (at_listener (L_looking fd cred p) (with_d (set_snaps h (v_d s)) s))
  | VS_limit s fd cred p max_conns h : v_at s = L_looking fd cred p -> read_limit p (d_snaps (v_d s)) = Some (max_conns, h) ->
      server_step s (at_listener (L_counting fd cred max_conns) (with_d (set_snaps h (v_d s)) s))
  | VS_count s fd cred max_conns over n : v_at s = L_counting fd cred max_conns -> accept_conn max_conns (v_conns s) = (over, n) ->
      server_step s (at_listener (if over then L_refused fd else L_starting fd cred) (with_conns n s))
  | VS_refuse s fd : v_at s = L_refused fd -> server_step s (at_listener L_loop (close_fd fd s))
  | VS_start s fd cred i : v_at s = L_starting fd cred -> v_threads s !! i = None ->
      server_step s (at_listener L_loop (at_thread i (Some (C_new fd cred)) s))
  (* malloc or pthread_create fails *)
  | VS_start_fails s fd cred : v_at s = L_starting fd cred -> server_step s (at_listener (L_failed fd) (with_conns (conn_released (v_conns s)) s))
  | VS_failed s fd : v_at s = L_failed fd -> server_step s (at_listener L_loop (close_fd fd s))
  | VS_leave s : v_at s = L_leaving ->
      server_step s (at_listener L_unlinking (if 0 <=? v_listen s then close_fd (v_listen s) s else s))
  | VS_unlink s : v_at s = L_unlinking -> server_step s (at_listener L_left (unlink_path s))
  (* a connection *)
  | VS_borrow s i fd cred h p : v_threads s !! i = Some (C_new fd cred) -> cfg_acquire (d_snaps (v_d s)) = Some (h, p) ->
      server_step s (at_thread i (Some (C_borrowed fd cred p)) (with_d (set_snaps h (v_d s)) s))
  | VS_number s i fd cred p conn d : v_threads s !! i = Some (C_borrowed fd cred p) -> next_conn_id (v_d s) = (conn, d) ->
      server_step s (at_thread i (Some (C_known fd cred p conn)) (with_d d s))
  | VS_peer s i fd cred p conn cur r : v_threads s !! i = Some (C_known fd cred p conn) -> snaps (d_snaps (v_d s)) !! p = Some (cur, r) ->
      server_step s (at_thread i (Some (if peer_allowed cred cur then C_frames fd p cur conn else C_closing fd p)) s)
  | VS_frame s i fd p cur conn sy sent input rest out d : v_threads s !! i = Some (C_frames fd p cur conn) ->
      serve_frame malloc_ok junk FSQL_DAEMON_VERSION sy cur conn sent input (v_d s) = (Some (rest, out), d) -> server_step s (with_d d s)
  | VS_last_frame s i fd p cur conn sy sent input d : v_threads s !! i = Some (C_frames fd p cur conn) ->
      serve_frame malloc_ok junk FSQL_DAEMON_VERSION sy cur conn sent input (v_d s) = (None, d) ->
      server_step s (at_thread i (Some (C_ended fd p conn)) (with_d d s))
  | VS_release_handles s i fd p conn : v_threads s !! i = Some (C_ended fd p conn) ->
      server_step s (at_thread i (Some (C_closing fd p)) (with_d (handle_release_owner conn (v_d s)) s))
  | VS_close s i fd p : v_threads s !! i = Some (C_closing fd p) -> server_step s (at_thread i (Some (C_closed p)) (close_fd fd s))
  | VS_uncount s i p : v_threads s !! i = Some (C_closed p) ->
      server_step s (at_thread i (Some (C_counted p)) (with_conns (conn_released (v_conns s)) s))
  | VS_give_back s i p h : v_threads s !! i = Some (C_counted p) -> cfg_release p (d_snaps (v_d s)) = Some h ->
      server_step s (at_thread i None (with_d (set_snaps h (v_d s)) s))
  (* signals, and the files the rest of the process opens and closes *)
  | VS_signal s : server_step s (on_signal s)
  | VS_open s fd : 0 <= fd -> v_fds s !! fd = None -> server_step s (with_fds (<[fd := F_file]> (v_fds s)) s)
  | VS_close_file s fd : v_fds s !! fd = Some F_file -> server_step s (close_fd fd s).

(** As main starts it, other descriptors being open. *)
Definition server0 (d : D) (fd : Z) (files : gset Z) : server :=
  {| v_d := d; v_conns := 0; v_stop := false; v_listen := fd; v_fds := <[fd := F_listener]> (gset_to_gmap F_file files); v_path := P_socket;
     v_at := L_loop; v_threads := ∅ |}.
End Listener.
