(* ===== verification/ListenerProofs.v ===== *)
(** * The listener: proofs

    What starting up has checked when the daemon listens; the count of the
    connections, the snapshots they borrow and the descriptors, in every
    interleaving; and that a slot always comes back. *)

From stdpp Require Import gmap.
From S2P Require Import Prelude Wire DaemonConf Cache Daemon DaemonProofs Listener.

(** ** Sums over the threads *)

Definition tsum {A} (f : A -> Z) (m : gmap nat A) : Z := map_fold (fun _ t n => f t + n) 0 m.
Lemma tsum_insert {A} (f : A -> Z) m i t : m !! i = None -> tsum f (<[i := t]> m) = f t + tsum f m.
Proof. intros H. unfold tsum. rewrite map_fold_insert_L; [done| |done]. intros. lia. Qed.
Lemma tsum_delete {A} (f : A -> Z) m i t : m !! i = Some t -> tsum f m = f t + tsum f (delete i m).
Proof. intros H. rewrite <- (insert_delete_id m i t H) at 1. apply tsum_insert, lookup_delete_eq. Qed.
Lemma tsum_replace {A} (f : A -> Z) m i t u : m !! i = Some t -> tsum f (<[i := u]> m) = tsum f m - f t + f u.
Proof. intros H. rewrite <- insert_delete_eq, tsum_insert, (tsum_delete f m i t H) by apply lookup_delete_eq. lia. Qed.
Lemma tsum_nonneg {A} (f : A -> Z) m : (forall t, 0 <= f t) -> 0 <= tsum f m.
Proof. intros Hf. apply (map_fold_weak_ind (fun n _ => 0 <= n)); [lia|]. intros i t m' n _ Hn. specialize (Hf t). lia. Qed.

(** ** The snapshots a frame can change *)

Section Snaps.
Context {W I : Type} {AD : Adapter W I} {CO : Consumers W}.
Context (malloc_ok : nat -> bool) (junk ver : list Z).
#[local] Abbreviation D := (daemon W I).
Definition keeps {A} (m : M A) : Prop := forall d : D, d_snaps (snd (m d)) = d_snaps d.
Lemma keeps_ret {A} (a : A) : keeps (ret a).
Proof. done. Qed.
Lemma keeps_bind {A B} (m : M A) (k : A -> M B) : keeps m -> (forall a, keeps (k a)) -> keeps (bind m k).
Proof. intros Hm Hk d. unfold bind. destruct (m d) as [a d'] eqn:E. rewrite Hk. by rewrite <- (Hm d), E. Qed.
Lemma keeps_malloc : keeps (malloc malloc_ok).
Proof. done. Qed.
Lemma keeps_text st t : keeps (set_text malloc_ok st t).
Proof. done. Qed.
Lemma keeps_mac key hdr p : keeps (mac malloc_ok junk key hdr p).
Proof. done. Qed.
Ltac keep := repeat first [apply keeps_ret | apply keeps_malloc | apply keeps_text | apply keeps_mac | assumption |
  apply keeps_bind; [|intros ?] | progress cbv zeta | match goal with |- context [match ?x with _ => _ end] => destruct x end].
Lemma keeps_const_args ins : keeps (const_args malloc_ok ins).
Proof. induction ins as [|a r IH]; cbn [const_args]; keep. Qed.
Lemma keeps_call_args ts : forall ins, keeps (call_args malloc_ok ts ins).
Proof. induction ts as [|t ts IH]; intros [|a r]; cbn [call_args]; keep; apply IH. Qed.
Lemma keeps_init conn p : keeps (handle_init malloc_ok conn p).
Proof.
  unfold handle_init. destruct (parse_init p) as [[name ins]|]; [|keep]. destruct (find_fn name) as [[[n kind] cls]|]; [|keep].
  keep; try apply keeps_const_args. intros d. destruct (udf_init name _ (d_world d)) as [w [msg|init]]; [done|].
  unfold malloc. cbn. by destruct (malloc_ok (d_mallocs d)).
Qed.
Lemma keeps_front conn tok p : keeps (call_front malloc_ok conn tok p).
Proof.
  unfold call_front. destruct (parse_call p) as [[[name id] ins]|]; [|keep]. apply keeps_bind.
  - intros d. destruct (tok =? 0); [done|]. destruct (cache_replay true tok name (d_cache d)); done.
  - intros [rep|]; [keep|]. intros d. destruct (handle_find_locked conn id (d_handles d)) as [h|]; [|done].
    destruct (negb _ || negb _); [done|]. destruct (hd_cancelled h); [done|].
    match goal with |- context [snd (?m d)] => assert (Hk : keeps m); [|apply Hk] end. keep; apply keeps_call_args.
Qed.
Lemma keeps_tlv t n b : keeps (tlv_result malloc_ok t n b).
Proof. unfold tlv_result. keep. Qed.
Lemma keeps_core_fail id : keeps (core_fail malloc_ok id).
Proof. intros d. unfold core_fail. by destruct (existsb _ _). Qed.
Lemma keeps_call conn tok p : keeps (handle_call malloc_ok conn tok p).
Proof.
  unfold handle_call. apply keeps_bind; [apply keeps_front|]. intros [rep|c]; [keep|]. apply keeps_bind.
  - intros d. unfold call_exec. destruct (handle_find_locked conn _ _); [|done]. by destruct (udf_main _ _ _ _) as [[w i] out].
  - intros out. unfold call_finish. apply keeps_bind; [|intros rep; apply keeps_bind; [|keep]].
    + intros d. unfold call_result. destruct (cl_kind c), (uo_err out), (uo_null out); try done; try apply keeps_core_fail; try apply keeps_tlv.
      destruct (_ <? _); [done|apply keeps_tlv].
    + intros d. unfold call_record. destruct (_ && _); [|done]. destruct (cacheable (cl_token c) rep (cl_name c)); done.
Qed.
Lemma keeps_deinit conn p : keeps (handle_deinit malloc_ok conn p).
Proof. intros d. unfold handle_deinit. destruct (_ <? _)%nat; [done|]. by destruct (unlink_handle _ _ _) as [[h l]|]. Qed.
Lemma keeps_cancel p : keeps (handle_cancel malloc_ok p).
Proof. intros d. unfold handle_cancel. destruct (_ <? _)%nat; [done|]. by destruct (mark_cancelled _ _). Qed.

(** A configuration main or RELOAD may publish. *)
Definition conf_ok (c : fsq_config) : Prop := 1 <= max_connections c <= FSQ_MAX_CONNECTIONS_LIMIT.
Lemma load_conf_ok files euid path c : load_config files euid path = Some c -> conf_ok c.
Proof. intros H. by apply load_config_inv in H as (c0 & content & key & _ & _ & _ & -> & _ & _ & _ & Hm & _). Qed.
(** Nothing changes, or one loaded configuration is published. *)
Definition published (h h' : snap_heap) : Prop :=
  h' = h \/ exists q c, snaps h !! q = None /\ conf_ok c /\ h' = fst (cfg_publish (Some q) c h).
Lemma reload_publishes sy cur (d : D) : published (d_snaps d) (d_snaps (snd (handle_reload malloc_ok sy cur d))).
Proof.
  unfold handle_reload. destruct (load_config _ _ _) as [next|] eqn:El; [|by left]. destruct (_ || _); [by left|].
  destruct (negb (validate_cfg _ _ _)); [by left|]. destruct (negb (daemon_check_provider _ _)); [by left|].
  destruct (daemon_apply_provider next (d_world d)) as [w ok]. destruct (negb ok); [by left|].
  unfold malloc. destruct (malloc_ok _); [|by left]. cbn [d_snaps set_ids set_world].
  destruct (cfg_publish _ next (d_snaps d)) as [h b] eqn:E. right. exists (fresh (dom (snaps (d_snaps d)))), next.
  split_and!; [apply not_elem_of_dom, is_fresh|by eapply load_conf_ok|]. rewrite E. by destruct b.
Qed.
Lemma dispatch_publishes sy cur conn h p (d : D) : published (d_snaps d) (d_snaps (snd (dispatch malloc_ok ver sy cur conn h p d))).
Proof.
  assert (K : forall m : M fsq_reply, keeps m -> published (d_snaps d) (d_snaps (snd (m d)))) by (intros m Hm; left; apply Hm).
  unfold dispatch. destruct (h_opcode h =? FSQ_OP_PING); [apply K; keep|]. destruct (h_opcode h =? FSQ_OP_VERSION); [apply K; keep|].
  destruct (h_opcode h =? FSQ_OP_UDF_INIT); [apply K, keeps_init|]. destruct (h_opcode h =? FSQ_OP_UDF_CALL); [apply K, keeps_call|].
  destruct (h_opcode h =? FSQ_OP_UDF_DEINIT); [apply K, keeps_deinit|]. destruct (h_opcode h =? FSQ_OP_CANCEL); [apply K, keeps_cancel|].
  destruct (h_opcode h =? FSQ_OP_RELOAD); [|by left]. destruct (negb _); [by left|apply reload_publishes].
Qed.
Definition publishes {A} (m : M A) : Prop := forall d : D, published (d_snaps d) (d_snaps (snd (m d))).
Lemma publishes_keeps {A} (m : M A) : keeps m -> publishes m.
Proof. intros Hm d. left. apply Hm. Qed.
Lemma publishes_after {A B} (m : M A) (k : A -> M B) : keeps m -> (forall a, publishes (k a)) -> publishes (bind m k).
Proof. intros Hm Hk d. unfold bind. specialize (Hm d). destruct (m d) as [a d']. cbn [snd] in Hm. rewrite <- Hm. apply Hk. Qed.
Lemma publishes_before {A B} (m : M A) (k : A -> M B) : publishes m -> (forall a, keeps (k a)) -> publishes (bind m k).
Proof. intros Hm Hk d. unfold bind. specialize (Hm d). destruct (m d) as [a d']. cbn [snd] in Hm. by rewrite Hk. Qed.
Lemma keeps_reply sent key h rep : keeps (send_reply malloc_ok junk sent key h rep).
Proof. unfold send_reply. keep. Qed.
Lemma frame_publishes sy cur conn sent input : publishes (serve_frame malloc_ok junk ver sy cur conn sent input).
Proof.
  unfold serve_frame. cbv zeta. destruct (_ <? _)%nat; [apply publishes_keeps; keep|]. destruct (fsq_header_decode _) as [h|]; [|apply publishes_keeps; keep].
  destruct (_ || _); [apply publishes_keeps; keep|]. destruct (_ <? _); [apply publishes_keeps; keep|]. destruct (negb _); [apply publishes_keeps; keep|].
  destruct (_ <? _)%nat; [apply publishes_keeps; keep|]. apply publishes_after; [keep|]. intros ok. destruct (_ || _); [apply publishes_keeps; keep|].
  apply publishes_after; [keep|]. intros want. destruct (negb _); [apply publishes_keeps; keep|]. apply publishes_before; [intros d; apply dispatch_publishes|].
  intros rep. apply keeps_bind; [apply keeps_reply|]. intros [o|]; keep.
Qed.
End Snaps.

(** ** The borrows *)

Lemma holds_perm p b1 b2 : b1 ≡ₚ b2 -> holds p b1 = holds p b2.
Proof. induction 1 as [|x l1 l2 _ IH|x y l|l1 l2 l3 _ IH1 _ IH2]; rewrite ?holds_cons; lia. Qed.
Lemma snap_inv_perm h b1 b2 : b1 ≡ₚ b2 -> snap_inv {| sw_heap := h; sw_borrowed := b1 |} -> snap_inv {| sw_heap := h; sw_borrowed := b2 |}.
Proof.
  intros Hp [H1 H2 H3 H4]. split; cbn [sw_heap sw_borrowed] in *; [done| | |done].
  - intros p c r H. rewrite <- (holds_perm p _ _ Hp). by eapply H2.
  - intros p H. apply H3. by rewrite Hp.
Qed.
Definition c_snap (t : serving) : option positive :=
  match t with
  | C_new _ _ => None
  | C_borrowed _ _ p | C_known _ _ p _ | C_frames _ p _ _ | C_ended _ p _ | C_closing _ p | C_closed p | C_counted p => Some p
  end.
(** What the threads hold, of the kind [f] picks. *)
Definition collect {A} (f : serving -> option A) (m : gmap nat serving) : list A := omap (fun kv => f kv.2) (map_to_list m).
Lemma collect_insert {A} (f : serving -> option A) m i t : m !! i = None -> collect f (<[i := t]> m) ≡ₚ option_list (f t) ++ collect f m.
Proof. intros H. unfold collect. rewrite map_to_list_insert by done. cbn [omap list_omap snd]. by destruct (f t). Qed.
Lemma collect_delete {A} (f : serving -> option A) m i t : m !! i = Some t -> collect f m ≡ₚ option_list (f t) ++ collect f (delete i m).
Proof. intros H. rewrite <- (insert_delete_id m i t H) at 1. apply collect_insert, lookup_delete_eq. Qed.
Lemma collect_replace {A} (f : serving -> option A) m i t u : m !! i = Some t -> collect f (<[i := u]> m) ≡ₚ option_list (f u) ++ collect f (delete i m).
Proof. intros H. rewrite <- insert_delete_eq. apply collect_insert, lookup_delete_eq. Qed.
Lemma collect_same {A} (f : serving -> option A) m i t u : m !! i = Some t -> f u = f t -> collect f (<[i := u]> m) ≡ₚ collect f m.
Proof. intros H E. by rewrite (collect_replace f m i t u H), (collect_delete f m i t H), E. Qed.
Abbreviation borrows := (collect c_snap).
Lemma borrows_elem m i t p : m !! i = Some t -> c_snap t = Some p -> p ∈ borrows m.
Proof. intros H Ht. rewrite (collect_delete c_snap m i t H), Ht. cbn [option_list app]. constructor. Qed.

(** A borrow and a return always go through. *)
Lemma acquire_total h b : snap_inv {| sw_heap := h; sw_borrowed := b |} -> is_Some (g_snap h) -> exists h' p, cfg_acquire h = Some (h', p).
Proof. intros Hi [p Hg]. destruct (si_cur _ Hi p Hg) as [[c r] Hc]. cbn [sw_heap] in Hc. unfold cfg_acquire. rewrite Hg, Hc. by eexists _, _. Qed.
Lemma release_total h p c r : snaps h !! p = Some (c, r) -> exists h', cfg_release p h = Some h'.
Proof. intros Hp. unfold cfg_release. rewrite Hp. destruct (_ <? _); [by eexists|]. case_bool_decide; by eexists. Qed.
Lemma read_limit_inv p h m h' : read_limit p h = Some (m, h') -> exists c r, snaps h !! p = Some (c, r) /\ m = max_connections c /\ cfg_release p h = Some h'.
Proof.
  unfold read_limit. destruct (snaps h !! p) as [[c r]|]; [|done]. destruct (cfg_release p h) as [h1|]; [|done]. intros [= <- <-]. by exists c, r.
Qed.
Lemma read_limit_total h p b : snap_inv {| sw_heap := h; sw_borrowed := b |} -> p ∈ b -> exists m h', read_limit p h = Some (m, h').
Proof.
  intros Hi Hp. destruct (si_held _ Hi p Hp) as [[c r] Hc]. cbn [sw_heap] in Hc. destruct (release_total h p c r Hc) as [h' Hr].
  unfold read_limit. rewrite Hc, Hr. by eexists _, _.
Qed.

(** ** The invariant *)

(** What the listener itself has borrowed. *)
Definition l_snap (l : listening) : list positive := match l with L_looking _ _ p => [p] | _ => [] end.
Definition l_count (l : listening) : Z := match l with L_starting _ _ => 1 | _ => 0 end.
Definition c_count (t : serving) : Z := match t with C_counted _ => 0 | _ => 1 end.
Definition c_cur (h : snap_heap) (t : serving) : Prop :=
  match t with C_frames _ p cur _ => exists r, snaps h !! p = Some (cur, r) | _ => True end.

Section Server.
Context {W I : Type} {AD : Adapter W I} {CO : Consumers W}.
Context (malloc_ok : nat -> bool) (junk ver : list Z).
#[local] Abbreviation step := (server_step malloc_ok junk ver).
#[local] Abbreviation server := (@server W I).

(** Accepted and not yet counted out. *)
Definition open_connections (s : server) : Z := l_count (v_at s) + tsum c_count (v_threads s).
Definition heap_of (s : server) : snap_heap := d_snaps (v_d s).
Record server_inv (s : server) : Prop := {
  vi_count : v_conns s = open_connections s;
  vi_limit : v_conns s <= FSQ_MAX_CONNECTIONS_LIMIT;
  vi_read : forall fd cred m, v_at s = L_counting fd cred m -> 1 <= m <= FSQ_MAX_CONNECTIONS_LIMIT;
  vi_snaps : snap_inv {| sw_heap := heap_of s; sw_borrowed := l_snap (v_at s) ++ borrows (v_threads s) |};
  vi_pub : is_Some (g_snap (heap_of s));
  vi_conf : forall p c r, snaps (heap_of s) !! p = Some (c, r) -> conf_ok c;
  vi_cur : forall i t, v_threads s !! i = Some t -> c_cur (heap_of s) t }.

(** What the snapshot heap does to the part of the invariant that is about it;
    [e] is what is borrowed besides the threads' borrows. *)
Definition heap_inv (e : list positive) (h : snap_heap) (m : gmap nat serving) : Prop :=
  snap_inv {| sw_heap := h; sw_borrowed := e ++ borrows m |} /\ is_Some (g_snap h) /\
  (forall p c r, snaps h !! p = Some (c, r) -> conf_ok c) /\ (forall i t, m !! i = Some t -> c_cur h t).
Lemma server_inv_heap s : server_inv s <-> (v_conns s = open_connections s /\ v_conns s <= FSQ_MAX_CONNECTIONS_LIMIT /\
  (forall fd cred m, v_at s = L_counting fd cred m -> 1 <= m <= FSQ_MAX_CONNECTIONS_LIMIT)) /\ heap_inv (l_snap (v_at s)) (heap_of s) (v_threads s).
Proof. unfold heap_inv. split; [intros []|intros ((? & ? & ?) & ? & ? & ? & ?)]; split_and?; done. Qed.
Lemma heap_inv_threads e e' h m m' : e' ++ borrows m' ≡ₚ e ++ borrows m -> (forall i t, m' !! i = Some t -> c_cur h t) -> heap_inv e h m -> heap_inv e' h m'.
Proof. intros Hp Hc (H1 & H2 & H3 & H4). split_and!; try done. by eapply snap_inv_perm. Qed.
Lemma cur_insert h (m : gmap nat serving) i u : c_cur h u -> (forall j t, m !! j = Some t -> c_cur h t) -> forall j t, <[i := u]> m !! j = Some t -> c_cur h t.
Proof.
  intros Hu Hm j v. destruct (decide (i = j)) as [<-|]; [rewrite lookup_insert_eq|rewrite lookup_insert_ne by done]; intros Hv; [by simplify_eq|by eapply Hm].
Qed.
Lemma heap_inv_replace e h m i t u : m !! i = Some t -> c_snap u = c_snap t -> c_cur h u -> heap_inv e h m -> heap_inv e h (<[i := u]> m).
Proof.
  intros Hi Hs Hu Hinv. apply (heap_inv_threads e e h m); [|apply cur_insert; [done|apply Hinv]|done].
  f_equiv. by apply collect_same with t.
Qed.
(** A thread takes over a borrow, or leaves it. *)
Lemma heap_inv_take e h m i t u p : m !! i = Some t -> c_snap t = None -> c_snap u = Some p -> c_cur h u -> heap_inv (p :: e) h m -> heap_inv e h (<[i := u]> m).
Proof.
  intros Hi Ht Hu Hcu Hinv. apply (heap_inv_threads (p :: e) e h m); [|apply cur_insert; [done|apply Hinv]|done].
  rewrite (collect_replace c_snap m i t u Hi), (collect_delete c_snap m i t Hi), Ht, Hu. cbn [option_list app]. solve_Permutation.
Qed.
Lemma heap_inv_leave e h m i t p : m !! i = Some t -> c_snap t = Some p -> heap_inv e h m -> heap_inv (p :: e) h (delete i m).
Proof.
  intros Hi Ht Hinv. apply (heap_inv_threads e (p :: e) h m); [| |done].
  - rewrite (collect_delete c_snap m i t Hi), Ht. cbn [option_list app]. solve_Permutation.
  - intros j v [_ Hv]%lookup_delete_Some. by eapply Hinv.
Qed.
(** A step of the heap that leaves thread [j]'s borrow in place leaves its configuration. *)
Lemma c_cur_step e h h' b b' m j t : snap_inv {| sw_heap := h; sw_borrowed := e ++ borrows m |} -> e ++ borrows m ≡ₚ b ->
  snap_step {| sw_heap := h; sw_borrowed := b |} {| sw_heap := h'; sw_borrowed := b' |} ->
  (forall p, c_snap t = Some p -> p ∈ b') -> m !! j = Some t -> c_cur h t -> c_cur h' t.
Proof.
  intros Hi Hb Hs Hp Hj Hc. destruct t; try done. cbn [c_cur c_snap] in *. destruct Hc as [r Hc].
  apply (snap_step_config _ _ p cur r (snap_inv_perm _ _ _ Hb Hi) Hs); cbn [sw_borrowed sw_heap]; [|by apply Hp|done].
  rewrite <- Hb. apply elem_of_app. right. by eapply borrows_elem.
Qed.
Lemma heap_inv_publish e h m q c : snaps h !! q = None -> conf_ok c -> heap_inv e h m -> heap_inv e (fst (cfg_publish (Some q) c h)) m.
Proof.
  intros Hq Hok (H1 & H2 & H3 & H4).
  assert (Hf : forall a, Some q = Some a -> snaps h !! a = None) by (intros a [= <-]; done).
  split_and!.
  - by apply publish_snap_inv.
  - unfold cfg_publish. destruct (g_snap h) as [old|]; [destruct (snaps h !! old) as [[co ro]|]; [destruct (ro =? 0)|]|]; by eexists.
  - intros p c' r' Hp. unfold cfg_publish in Hp.
    assert (Hp' : <[q := (c, 0)]> (snaps h) !! p = Some (c', r')).
    { destruct (g_snap h) as [old|]; [destruct (snaps h !! old) as [[co ro]|]; [destruct (ro =? 0)|]|]; cbn [fst snaps] in Hp; try done.
      by apply lookup_delete_Some in Hp as [_ Hp]. }
    destruct (decide (q = p)) as [<-|]; [rewrite lookup_insert_eq in Hp'|rewrite lookup_insert_ne in Hp' by done]; [by simplify_eq|by eapply H3].
  - intros i t Hi. eapply (c_cur_step e h _ (e ++ borrows m) (e ++ borrows m)); [done|done| |intros p Hs; apply elem_of_app; right; by eapply borrows_elem|done|by eapply H4].
    by constructor.
Qed.
Lemma heap_inv_published e h h' m : published h h' -> heap_inv e h m -> heap_inv e h' m.
Proof. intros [->|(q & c & Hq & Hc & ->)] Hi; [done|by apply heap_inv_publish]. Qed.
Lemma heap_inv_acquire e h h' m p : cfg_acquire h = Some (h', p) -> heap_inv e h m -> heap_inv (p :: e) h' m.
Proof.
  intros Ha (H1 & H2 & H3 & H4).
  assert (Hs : snap_step {| sw_heap := h; sw_borrowed := e ++ borrows m |} {| sw_heap := h'; sw_borrowed := p :: e ++ borrows m |}) by by constructor.
  pose proof Ha as Ha'. unfold cfg_acquire in Ha'. destruct (g_snap h) as [q|] eqn:Eg; [|done]. destruct (snaps h !! q) as [[c r]|] eqn:Eq; [|done].
  simplify_eq. split_and!.
  - exact (snap_step_inv _ _ H1 Hs).
  - cbn [g_snap]. by eexists.
  - intros p' c' r' Hp'. cbn [snaps] in Hp'. destruct (decide (p = p')) as [<-|];
      [rewrite lookup_insert_eq in Hp'; simplify_eq|rewrite lookup_insert_ne in Hp' by done]; by eapply H3.
  - intros j v Hv. eapply (c_cur_step e h _ (e ++ borrows m)); [done|done|done| |done|by eapply H4]. intros p' Hp'. right. apply elem_of_app. right. by eapply borrows_elem.
Qed.
Lemma heap_inv_release e h h' m p : cfg_release p h = Some h' -> heap_inv (p :: e) h m -> heap_inv e h' m.
Proof.
  intros Hr (H1 & H2 & H3 & H4).
  assert (Hs : snap_step {| sw_heap := h; sw_borrowed := p :: e ++ borrows m |} {| sw_heap := h'; sw_borrowed := e ++ borrows m |}).
  { by apply (SS_release h h' p [] (e ++ borrows m)). }
  split_and!.
  - exact (snap_step_inv _ _ H1 Hs).
  - clear Hs. unfold cfg_release in Hr. destruct (snaps h !! p) as [[c r]|]; [|done]. destruct (_ <? _); [by simplify_eq|]. case_bool_decide; by simplify_eq.
  - intros p' c' r' Hp'. clear Hs. unfold cfg_release in Hr. destruct (snaps h !! p) as [[c r]|] eqn:Ep; [|done].
    assert (Hin : <[p := (c, r - 1)]> (snaps h) !! p' = Some (c', r') \/ snaps h !! p' = Some (c', r')).
    { destruct (_ <? _); [|case_bool_decide]; simplify_eq; cbn [snaps] in Hp'; [by left|by left|right; by apply lookup_delete_Some in Hp' as [_ ?]]. }
    destruct Hin as [Hin|Hin]; [|by eapply H3]. destruct (decide (p = p')) as [<-|];
      [rewrite lookup_insert_eq in Hin; simplify_eq|rewrite lookup_insert_ne in Hin by done]; by eapply H3.
  - intros j v Hv. eapply (c_cur_step (p :: e) h h' (p :: e ++ borrows m) (e ++ borrows m)); [done|done|done| |done|by eapply H4].
    intros p' Hp'. apply elem_of_app. right. by eapply borrows_elem.
Qed.

(** What a frame, a connection's number and a release do to the heap. *)
Lemma released_handles_heap conn (d : daemon W I) : d_snaps (handle_release_owner conn d) = d_snaps d.
Proof. done. Qed.
Lemma count_nonneg s : 0 <= open_connections s.
Proof.
  unfold open_connections. assert (0 <= tsum c_count (v_threads s)) by (apply tsum_nonneg; intros []; done). destruct (v_at s); cbn [l_count]; lia.
Qed.
Ltac fields := cbn [at_listener at_thread with_d with_conns with_fds close_fd on_signal unlink_path heap_of open_connections
  v_d v_conns v_stop v_listen v_fds v_path v_at v_threads d_snaps set_snaps] in *.
(** The counts after a thread's step: [c_count] and the counter agree. *)
Definition counts_ok (s : server) : Prop := v_conns s = open_connections s /\ v_conns s <= FSQ_MAX_CONNECTIONS_LIMIT /\
  (forall fd cred m, v_at s = L_counting fd cred m -> 1 <= m <= FSQ_MAX_CONNECTIONS_LIMIT).
Lemma counts_thread s i t u n : counts_ok s -> v_threads s !! i = Some t -> n = v_conns s - c_count t + c_count u -> c_count u <= c_count t ->
  counts_ok (at_thread i (Some u) (with_conns n s)).
Proof.
  intros (H1 & H2 & H3) Hi -> Hle. unfold counts_ok, open_connections in *. fields. rewrite (tsum_replace c_count _ i t u Hi). split_and!; [lia|lia|done].
Qed.
Lemma counts_here s i t u : counts_ok s -> v_threads s !! i = Some t -> c_count u = c_count t -> counts_ok (at_thread i (Some u) s).
Proof.
  intros (H1 & H2 & H3) Hi Hc. unfold counts_ok, open_connections in *. fields. rewrite (tsum_replace c_count _ i t u Hi). split_and!; [lia|lia|done].
Qed.
Lemma counts_listener s l : counts_ok s -> l_count l = l_count (v_at s) -> (forall fd cred m, l <> L_counting fd cred m) -> counts_ok (at_listener l s).
Proof. intros (H1 & H2 & H3) Hl Hn. unfold counts_ok, open_connections in *. fields. split_and!; [by rewrite Hl|done|]. intros fd cred m ->. by destruct (Hn fd cred m). Qed.
Lemma server_step_counts s s' : counts_ok s -> heap_inv (l_snap (v_at s)) (heap_of s) (v_threads s) -> step s s' -> counts_ok s'.
Proof.
  intros Hc Hh Hs. destruct Hs as [s A B|s A B|s e A|s fd cred A B C|s fd cred h p A B|s fd cred p m h A B|s fd cred m over n A B|s fd A|s fd cred i A B|s fd cred A|s fd A|s A|s A
    |s i fd cred h p A B|s i fd cred p conn d A B|s i fd cred p conn cur r A B|s i fd p cur conn sy sent input rest out d A B
    |s i fd p cur conn sy sent input d A B|s i fd p conn A|s i fd p A|s i p A|s i p h A B|s|s fd A B|s fd A].
  all: try (apply counts_listener; [done|fields; by rewrite A|done]).
  all: try (apply (counts_here _ i _ _ Hc A); done).
  all: try done.
  - apply counts_listener; [done|fields; rewrite A; by destruct (accept_failed _ _)|]. by destruct (accept_failed _ _).
  - destruct Hc as (H1 & H2 & H3), Hh as (G1 & G2 & G3 & G4). unfold counts_ok, open_connections in *. fields. rewrite A in H1. split_and!; [done|done|].
    intros fd' cred' m' [= <- <- <-]. destruct (read_limit_inv _ _ _ _ B) as (c & r & Hp & -> & _). by eapply G3.
  - destruct Hc as (H1 & H2 & H3). pose proof (H3 _ _ _ A) as Hm. unfold accept_conn in B. unfold counts_ok, open_connections in *. rewrite A in H1. fields.
    destruct (m <=? v_conns s) eqn:E; simplify_eq; cbn [l_count] in *; split_and!; try done; lia.
  - destruct Hc as (H1 & H2 & H3). unfold counts_ok, open_connections in *. rewrite A in H1. fields. rewrite tsum_insert by done. cbn [l_count c_count] in *.
    split_and!; [lia|done|done].
  - destruct Hc as (H1 & H2 & H3). unfold counts_ok, open_connections, conn_released in *. rewrite A in H1. fields. cbn [l_count] in *. split_and!; [lia|lia|done].
  - destruct (0 <=? v_listen s); (apply counts_listener; [done|fields; by rewrite A|done]).
  - destruct (peer_allowed cred cur); by apply (counts_here _ i _ _ Hc A).
  - apply (counts_thread s i (C_closed p) (C_counted p)); [done|done|unfold conn_released; cbn; lia|done].
  - destruct Hc as (H1 & H2 & H3). unfold counts_ok, open_connections in *. fields. rewrite (tsum_delete c_count _ i _ A) in H1. cbn [c_count] in H1. split_and!; [lia|done|done].
Qed.
Lemma server_step_heap s s' : heap_inv (l_snap (v_at s)) (heap_of s) (v_threads s) -> step s s' -> heap_inv (l_snap (v_at s')) (heap_of s') (v_threads s').
Proof.
  intros Hh Hs. pose proof Hh as (G1 & G2 & G3 & G4). destruct Hs as [s A B|s A B|s e A|s fd cred A B C|s fd cred h p A B|s fd cred p m h A B|s fd cred m over n A B|s fd A|s fd cred i A B|s fd cred A|s fd A|s A|s A
    |s i fd cred h p A B|s i fd cred p conn d A B|s i fd cred p conn cur r A B|s i fd p cur conn sy sent input rest out d A B
    |s i fd p cur conn sy sent input d A B|s i fd p conn A|s i fd p A|s i p A|s i p h A B|s|s fd A B|s fd A].
  all: fields; try rewrite A in Hh; cbn [l_snap] in *; try exact Hh.
  - by destruct (accept_failed _ _).
  - by apply (heap_inv_acquire [] (d_snaps (v_d s))).
  - destruct (read_limit_inv _ _ _ _ B) as (_ & _ & _ & _ & Hr). by apply (heap_inv_release [] (d_snaps (v_d s)) h _ p).
  - by destruct over.
  - apply (heap_inv_threads [] [] _ (v_threads s)); [|apply cur_insert; [done|apply Hh]|done]. by rewrite collect_insert.
  - destruct (0 <=? v_listen s); exact Hh.
  - apply (heap_inv_take _ _ _ i (C_new fd cred) (C_borrowed fd cred p) p); try done. by apply (heap_inv_acquire _ (d_snaps (v_d s))).
  - unfold next_conn_id in B. simplify_eq. by apply (heap_inv_replace _ _ _ i (C_borrowed fd cred p)).
  - apply (heap_inv_replace _ _ _ i (C_known fd cred p conn)); [done|by destruct (peer_allowed _ _)| |done].
    destruct (peer_allowed cred cur); [|done]. by exists r.
  - eapply heap_inv_published; [|exact Hh]. pose proof (frame_publishes malloc_ok junk ver sy cur conn sent input (v_d s)) as F. by rewrite B in F.
  - apply (heap_inv_replace _ _ _ i (C_frames fd p cur conn)); [done|done|done|].
    eapply heap_inv_published; [|exact Hh]. pose proof (frame_publishes malloc_ok junk ver sy cur conn sent input (v_d s)) as F. by rewrite B in F.
  - by apply (heap_inv_replace _ _ _ i (C_ended fd p conn)).
  - by apply (heap_inv_replace _ _ _ i (C_closing fd p)).
  - by apply (heap_inv_replace _ _ _ i (C_closed p)).
  - apply (heap_inv_release _ (d_snaps (v_d s)) h _ p B). by apply (heap_inv_leave _ _ _ i (C_counted p)).
Qed.
Lemma server_step_inv s s' : server_inv s -> step s s' -> server_inv s'.
Proof.
  rewrite !server_inv_heap. intros [Hc Hh] Hs. split; [by eapply server_step_counts|by eapply server_step_heap].
Qed.
Lemma listener_reachable_inv s s' : server_inv s -> rtc step s s' -> server_inv s'.
Proof. intros Hi. induction 1 as [|s s1 s' Hs _ IH]; [done|]. by apply IH; eapply server_step_inv. Qed.

(** Main's daemon. *)
Lemma main_start_listening getenv args sy o at_path (d : daemon W I) d1 cfg fd d2 at_path2 : main_start malloc_ok getenv args sy o at_path d = (St_listening d1 cfg fd, d2, at_path2) ->
  d_snaps d = heap0 -> exists config_path w q,
    main_args args (getenv FSQ_CONFIG_ENV) = Some config_path /\ load_config (sy_files sy) (sy_euid sy) (default FSQ_CONFIG_DEFAULT config_path) = Some cfg /\
    sy_euid sy <> 0 /\ validate_cfg (sy_stat sy) (Some (default FSQ_CONFIG_DEFAULT config_path)) cfg = true /\ daemon_check_provider cfg (d_world d) = true /\
    daemon_apply_provider cfg (d_world d) = (w, true) /\ d_world d1 = w /\ d_snaps d1 = {| snaps := <[q := (cfg, 0)]> ∅; g_snap := Some q |} /\
    d_handles d1 = d_handles d /\ d2 = d1 /\ open_listener o at_path = (Some fd, at_path2).
Proof.
  clear junk ver AD. unfold main_start. intros H Hd. destruct (main_args _ _) as [path|]; [|done]. destruct (load_config _ _ _) as [c|] eqn:El; [|done].
  destruct (sy_euid sy =? 0) eqn:Eu; [done|]. destruct (validate_cfg _ _ c) eqn:Ev; [|done]. destruct (daemon_check_provider c _) eqn:Ec; [|done].
  destruct (daemon_apply_provider c _) as [w ok] eqn:Ea. cbn [negb] in H. destruct ok; [|done]. cbn [negb] in H. unfold malloc in H.
  destruct (malloc_ok _); [|done]. cbn [d_snaps set_ids set_world] in H. rewrite Hd in H. cbn [cfg_publish heap0 g_snap snaps negb] in H.
  destruct (open_listener o at_path) as [[fd'|] p'] eqn:Eo; [|done]. simplify_eq. exists path, w, (fresh (dom (∅ : gmap positive (fsq_config * Z)))).
  split_and!; try done. lia.
Qed.
Lemma main_exit_code getenv args sy o at_path (d : daemon W I) code d' at_path' : main_start malloc_ok getenv args sy o at_path d = (St_exit code, d', at_path') -> code = 1 \/ code = 2.
Proof. intros E. unfold main_start in E. repeat (case_match; simplify_eq/=; try (by left); try (by right); try done). Qed.
Lemma started_inv (d : daemon W I) cfg q fd files : conf_ok cfg -> d_snaps d = {| snaps := <[q := (cfg, 0)]> ∅; g_snap := Some q |} -> server_inv (server0 d fd files).
Proof.
  intros Hc Hd. rewrite server_inv_heap. unfold heap_of, heap_inv. cbn [server0 v_d v_threads v_conns v_at]. rewrite Hd.
  split; [split_and!; [done|done|done]|]. split_and!.
  - change (borrows ∅) with (@nil positive). split; cbn [sw_heap sw_borrowed g_snap snaps].
    + intros p [= <-]. rewrite lookup_insert_eq. by eexists.
    + intros p c r H. apply lookup_insert_Some in H as [[_ ?]|[_ H]]; [by simplify_eq|done].
    + intros p H. inversion H.
    + intros p c r H _. apply lookup_insert_Some in H as [[-> _]|[_ H]]; done.
  - by eexists.
  - cbn [snaps]. intros p c r H. apply lookup_insert_Some in H as [[_ ?]|[_ H]]; [by simplify_eq|done].
  - intros i t H. done.
Qed.

(** ** Descriptors *)

Definition fds_rel (m : gmap Z fd_use) (l : list Z) : Prop := NoDup l /\ forall fd, m !! fd = Some F_conn <-> fd ∈ l.
Lemma fds_rel_perm m l l' : l' ≡ₚ l -> fds_rel m l -> fds_rel m l'.
Proof. intros Hp [H1 H2]. split; [by rewrite Hp|]. intros fd. by rewrite Hp. Qed.
Lemma fds_rel_accept m l fd : m !! fd = None -> fds_rel m l -> fds_rel (<[fd := F_conn]> m) (fd :: l).
Proof.
  intros Hn [H1 H2]. split.
  - constructor; [|done]. rewrite <- H2. by rewrite Hn.
  - intros fd'. rewrite elem_of_cons, <- H2. destruct (decide (fd = fd')) as [<-|]; [rewrite lookup_insert_eq|rewrite lookup_insert_ne by done]; naive_solver.
Qed.
Lemma fds_rel_close m l fd : fds_rel m (fd :: l) -> fds_rel (delete fd m) l.
Proof.
  intros [H1 H2]. apply NoDup_cons in H1 as [Hn H1]. split; [done|]. intros fd'. rewrite lookup_delete_Some, H2, elem_of_cons. split; [naive_solver|].
  intros H. split; [by intros ->|by right].
Qed.
Lemma fds_rel_open m l fd : m !! fd = None -> fds_rel m l -> fds_rel (<[fd := F_file]> m) l.
Proof.
  intros Hn [H1 H2]. split; [done|]. intros fd'. rewrite <- H2. destruct (decide (fd = fd')) as [<-|]; [rewrite lookup_insert_eq, Hn|rewrite lookup_insert_ne by done]; done.
Qed.
Lemma fds_rel_other m l fd u : m !! fd = Some u -> u <> F_conn -> fds_rel m l -> fds_rel (delete fd m) l.
Proof.
  intros Hn Hu [H1 H2]. split; [done|]. intros fd'. rewrite <- H2, lookup_delete_Some. split; [by intros []|]. intros H. split; [|done].
  intros <-. rewrite Hn in H. by apply (inj Some) in H.
Qed.
Definition l_fd (l : listening) : option Z :=
  match l with L_accepted fd _ | L_looking fd _ _ | L_counting fd _ _ | L_refused fd | L_starting fd _ | L_failed fd => Some fd | _ => None end.
Definition c_fd (t : serving) : option Z :=
  match t with
  | C_new fd _ | C_borrowed fd _ _ | C_known fd _ _ _ | C_frames fd _ _ _ | C_ended fd _ _ | C_closing fd _ => Some fd
  | C_closed _ | C_counted _ => None
  end.
(** The descriptors of accepted connections, by who is to close them. *)
Definition conn_fds (s : server) : list Z := option_list (l_fd (v_at s)) ++ collect c_fd (v_threads s).
Definition closed_listener (l : listening) : bool := match l with L_unlinking | L_left => true | _ => false end.
Definition fds_ok (s : server) : Prop :=
  fds_rel (v_fds s) (conn_fds s) /\ (closed_listener (v_at s) = false -> v_fds s !! v_listen s = Some F_listener).
Lemma listener_kept (m : gmap Z fd_use) fd l u : m !! l = Some F_listener -> m !! fd = Some u -> u <> F_listener -> delete fd m !! l = Some F_listener.
Proof. intros Hl Hf Hu. rewrite lookup_delete_ne; [done|]. intros ->. congruence. Qed.
Lemma fds_listener s l : l_fd l = l_fd (v_at s) -> closed_listener (v_at s) = false -> fds_ok s -> fds_ok (at_listener l s).
Proof. intros Hl Hc [H1 H2]. unfold fds_ok, conn_fds in *. fields. rewrite Hl. split; [done|]. intros _. by apply H2. Qed.
Lemma fds_thread s i t u : v_threads s !! i = Some t -> c_fd u = c_fd t -> fds_ok s -> fds_ok (at_thread i (Some u) s).
Proof.
  intros Hi Hu [H1 H2]. unfold fds_ok, conn_fds in *. fields. split; [|done]. eapply fds_rel_perm; [|exact H1]. by rewrite (collect_same c_fd _ i t u Hi Hu).
Qed.
Lemma server_step_fds s s' : fds_ok s -> step s s' -> v_stop s' = false -> fds_ok s'.
Proof.
  intros Hf Hs Hstop. pose proof Hf as [H1 H2]. destruct Hs as [s A B|s A B|s e A|s fd cred A B C|s fd cred h p A B|s fd cred p m h A B|s fd cred m over n A B|s fd A|s fd cred i A B|s fd cred A|s fd A|s A|s A
    |s i fd cred h p A B|s i fd cred p conn d A B|s i fd cred p conn cur r A B|s i fd p cur conn sy sent input rest out d A B
    |s i fd p cur conn sy sent input d A B|s i fd p conn A|s i fd p A|s i p A|s i p h A B|s|s fd A B|s fd A].
  all: try (apply fds_listener; [by rewrite A|by rewrite A|done]).
  all: try (by eapply (fds_thread s i)).
  all: unfold fds_ok, conn_fds in *; fields; try (rewrite A in *; cbn [l_fd option_list app closed_listener] in *); try specialize (H2 eq_refl).
  - split; [|done]. destruct (accept_failed _ e); done.
  - split; [by apply fds_rel_accept|]. intros _. rewrite lookup_insert_ne; [done|]. intros E. rewrite <- E in H2. congruence.
  - done.
  - done.
  - split; [|done]. by destruct over.
  - split; [by apply fds_rel_close|]. intros _. eapply listener_kept; [exact H2|apply H1; left|done].
  - split; [|done]. eapply fds_rel_perm; [|exact H1]. by rewrite (collect_insert c_fd) by done.
  - split; [exact H1|done].
  - split; [by apply fds_rel_close|]. intros _. eapply listener_kept; [exact H2|apply H1; left|done].
  - split; [|done]. destruct (0 <=? v_listen s); [|done]. fields. by eapply fds_rel_other.
  - split; [exact H1|done].
  - split; [|done]. eapply fds_rel_perm; [|exact H1]. f_equiv. apply collect_same with (1 := A). by destruct (peer_allowed cred cur).
  - by split.
  - pose proof (collect_delete c_fd _ i _ A) as Hp. pose proof (collect_replace c_fd _ i _ (C_closed p) A) as Hq. cbn [c_fd option_list app] in Hp, Hq.
    assert (H1' : fds_rel (v_fds s) (fd :: option_list (l_fd (v_at s)) ++ collect c_fd (delete i (v_threads s)))).
    { eapply fds_rel_perm; [|exact H1]. by rewrite Hp, Permutation_middle. }
    split; [|intros Hc; eapply listener_kept; [by apply H2|apply H1'; left|done]]. eapply fds_rel_perm; [|by apply fds_rel_close]. by rewrite Hq.
  - split; [|done]. eapply fds_rel_perm; [|exact H1]. by rewrite (collect_delete c_fd _ i _ A).
  - done.
  - split; [by apply fds_rel_open|]. intros Hc. specialize (H2 Hc). rewrite lookup_insert_ne; [done|]. intros E. rewrite <- E in H2. congruence.
  - split; [by eapply fds_rel_other|]. intros Hc. eapply listener_kept; [by apply H2|exact A|done].
Qed.

(** ** Every connection can end, and its slot is free again *)

(** What stays when a connection's thread runs to its end. *)
Definition same_listener (s s' : server) : Prop := v_at s' = v_at s /\ v_stop s' = v_stop s /\ v_listen s' = v_listen s.
Definition rests (s : server) (i : nat) : Prop :=
  exists s', rtc step s s' /\ v_threads s' = delete i (v_threads s) /\ same_listener s s'.
Lemma rests_step s s1 i t u : v_threads s !! i = Some t -> step s s1 -> v_threads s1 = <[i := u]> (v_threads s) -> same_listener s s1 -> rests s1 i -> rests s i.
Proof.
  intros Hi Hs Ht (E1 & E2 & E3) (s2 & Hr & Ht2 & F1 & F2 & F3). exists s2. split; [by eapply rtc_l|]. split; [by rewrite Ht2, Ht, delete_insert_eq|].
  unfold same_listener. by rewrite F1, F2, F3.
Qed.
Lemma borrowed_live s i t p : server_inv s -> v_threads s !! i = Some t -> c_snap t = Some p -> exists c r, snaps (heap_of s) !! p = Some (c, r).
Proof.
  intros Hv Hi Ht. destruct (si_held _ (vi_snaps _ Hv) p) as [[c r] H]; [|by exists c, r]. cbn [sw_borrowed]. apply elem_of_app. right. by eapply borrows_elem.
Qed.
Ltac here A S := eapply (rests_step _ _ _ _ _ A S); [fields; reflexivity|by split_and!|].
Lemma counted_rests s i p : server_inv s -> v_threads s !! i = Some (C_counted p) -> rests s i.
Proof.
  intros Hv Hi. destruct (borrowed_live s i _ p Hv Hi eq_refl) as (c & r & Hp).
  destruct (release_total _ p c r Hp) as [h Hr]. eexists. split; [by apply rtc_once, (VS_give_back _ _ _ s i p h)|]. by split_and!.
Qed.
Lemma closing_rests s i fd p : server_inv s -> v_threads s !! i = Some (C_closing fd p) -> rests s i.
Proof.
  intros Hv Hi. pose proof (VS_close malloc_ok junk ver s i fd p Hi) as S1. pose proof (server_step_inv _ _ Hv S1) as V1. here Hi S1.
  assert (Hi1 : v_threads (at_thread i (Some (C_closed p)) (close_fd fd s)) !! i = Some (C_closed p)) by (fields; apply lookup_insert_eq).
  pose proof (VS_uncount malloc_ok junk ver _ i p Hi1) as S2. pose proof (server_step_inv _ _ V1 S2) as V2. here Hi1 S2.
  apply (counted_rests _ i p V2). fields. apply lookup_insert_eq.
Qed.
Lemma frames_rests s i fd p cur conn : server_inv s -> v_threads s !! i = Some (C_frames fd p cur conn) -> rests s i.
Proof.
  intros Hv Hi. assert (Hl : serve_frame malloc_ok junk ver {| sy_files := fun _ => None; sy_stat := fun _ => None; sy_euid := 0; sy_path := [] |} cur conn true [] (v_d s) = (None, v_d s)) by done.
  pose proof (VS_last_frame malloc_ok junk ver s i fd p cur conn _ _ _ _ Hi Hl) as S1. pose proof (server_step_inv _ _ Hv S1) as V1. here Hi S1.
  assert (Hi1 : v_threads (at_thread i (Some (C_ended fd p conn)) (with_d (v_d s) s)) !! i = Some (C_ended fd p conn)) by (fields; apply lookup_insert_eq).
  pose proof (VS_release_handles malloc_ok junk ver _ i fd p conn Hi1) as S2. pose proof (server_step_inv _ _ V1 S2) as V2. here Hi1 S2.
  apply (closing_rests _ i fd p V2). fields. apply lookup_insert_eq.
Qed.
Lemma ended_rests s i fd p conn : server_inv s -> v_threads s !! i = Some (C_ended fd p conn) -> rests s i.
Proof.
  intros Hv Hi. pose proof (VS_release_handles malloc_ok junk ver s i fd p conn Hi) as S1. pose proof (server_step_inv _ _ Hv S1) as V1. here Hi S1.
  apply (closing_rests _ i fd p V1). fields. apply lookup_insert_eq.
Qed.
Lemma known_rests s i fd cred p conn : server_inv s -> v_threads s !! i = Some (C_known fd cred p conn) -> rests s i.
Proof.
  intros Hv Hi. destruct (borrowed_live s i _ p Hv Hi eq_refl) as (c & r & Hp).
  pose proof (VS_peer malloc_ok junk ver s i fd cred p conn c r Hi Hp) as S1. pose proof (server_step_inv _ _ Hv S1) as V1. here Hi S1.
  destruct (peer_allowed cred c).
  - apply (frames_rests _ i fd p c conn V1). fields. apply lookup_insert_eq.
  - apply (closing_rests _ i fd p V1). fields. apply lookup_insert_eq.
Qed.
Lemma borrowed_rests s i fd cred p : server_inv s -> v_threads s !! i = Some (C_borrowed fd cred p) -> rests s i.
Proof.
  intros Hv Hi. pose proof (VS_number malloc_ok junk ver s i fd cred p _ _ Hi eq_refl) as S1. pose proof (server_step_inv _ _ Hv S1) as V1. here Hi S1.
  eapply (known_rests _ i fd cred p _ V1). fields. apply lookup_insert_eq.
Qed.
Lemma thread_rests s i t : server_inv s -> v_threads s !! i = Some t -> rests s i.
Proof.
  intros Hv Hi. destruct t as [fd cred|fd cred p|fd cred p conn|fd p cur conn|fd p conn|fd p|p|p].
  - destruct (acquire_total _ _ (vi_snaps _ Hv) (vi_pub _ Hv)) as (h & p & Ha). pose proof (VS_borrow malloc_ok junk ver s i fd cred h p Hi Ha) as S1. pose proof (server_step_inv _ _ Hv S1) as V1. here Hi S1.
    eapply (borrowed_rests _ i fd cred p V1). fields. apply lookup_insert_eq.
  - by eapply borrowed_rests.
  - by eapply known_rests.
  - by eapply frames_rests.
  - by eapply ended_rests.
  - by eapply closing_rests.
  - pose proof (VS_uncount malloc_ok junk ver s i p Hi) as S1. pose proof (server_step_inv _ _ Hv S1) as V1. here Hi S1.
    apply (counted_rests _ i p V1). fields. apply lookup_insert_eq.
  - by eapply counted_rests.
Qed.
Lemma all_rest n : forall s, server_inv s -> size (v_threads s) = n -> exists s', rtc step s s' /\ v_threads s' = ∅ /\ same_listener s s'.
Proof.
  induction n as [|n IH]; intros s Hv Hn.
  - exists s. split; [done|]. split; [by apply map_size_empty_inv|by split_and!].
  - destruct (map_choose (v_threads s)) as (i & t & Hi); [intros E; by rewrite E, map_size_empty in Hn|].
    destruct (thread_rests s i t Hv Hi) as (s1 & Hr & Ht & E1 & E2 & E3). destruct (IH s1) as (s2 & Hr2 & Ht2 & F1 & F2 & F3).
    + by eapply listener_reachable_inv.
    + rewrite Ht. rewrite map_size_delete, Hi, Hn. done.
    + exists s2. split; [by etransitivity|]. split; [done|]. unfold same_listener. by rewrite F1, F2, F3.
Qed.

(** The listener, once every connection is gone. *)
Definition running (l : listening) : bool := match l with L_leaving | L_unlinking | L_left => false | _ => true end.
Definition idle (s : server) : Prop := v_threads s = ∅ /\ v_stop s = false.
Definition loops (s : server) : Prop := exists s', rtc step s s' /\ idle s' /\ v_at s' = L_loop.
Lemma loops_step s s1 : step s s1 -> loops s1 -> loops s.
Proof. intros Hs (s2 & Hr & H). exists s2. split; [by eapply rtc_l|done]. Qed.
Lemma loops_now s s1 : step s s1 -> idle s1 -> v_at s1 = L_loop -> loops s.
Proof. intros Hs Hi Hl. exists s1. split; [by apply rtc_once|done]. Qed.
Lemma starting_loops s fd cred : idle s -> v_at s = L_starting fd cred -> loops s.
Proof.
  intros Hi Ha. eapply loops_step; [by eapply (VS_start_fails malloc_ok junk ver s)|]. by eapply loops_now; [eapply VS_failed| |].
Qed.
Lemma counting_loops s fd cred m : idle s -> v_at s = L_counting fd cred m -> loops s.
Proof.
  intros Hi Ha. destruct (accept_conn m (v_conns s)) as [over n] eqn:E. eapply loops_step; [by eapply (VS_count malloc_ok junk ver s)|].
  destruct over; [by eapply loops_now; [eapply VS_refuse| |]|by eapply starting_loops].
Qed.
Lemma looking_reads s fd cred p : server_inv s -> v_at s = L_looking fd cred p ->
  exists m h, 1 <= m <= FSQ_MAX_CONNECTIONS_LIMIT /\ step s (at_listener (L_counting fd cred m) (with_d (set_snaps h (v_d s)) s)).
Proof.
  intros Hv Ha. destruct (read_limit_total _ p _ (vi_snaps _ Hv)) as (m & h & Hm); [rewrite Ha; by left|]. exists m, h. split; [|by eapply VS_limit].
  destruct (read_limit_inv _ _ _ _ Hm) as (c & r & Hc & -> & _). by eapply (vi_conf _ Hv).
Qed.
Lemma looking_loops s fd cred p : server_inv s -> idle s -> v_at s = L_looking fd cred p -> loops s.
Proof. intros Hv Hi Ha. destruct (looking_reads s fd cred p Hv Ha) as (m & h & _ & S1). eapply loops_step; [exact S1|]. by eapply counting_loops. Qed.
Lemma idle_loops s : server_inv s -> idle s -> running (v_at s) = true -> loops s.
Proof.
  intros Hv Hi Hr. destruct (v_at s) as [| |fd cred|fd cred p|fd cred m|fd|fd cred|fd| | |] eqn:Ha; try done.
  - by exists s.
  - eapply loops_now; [by apply (VS_accept_fails malloc_ok junk ver s E_INTR)|done|]. fields. by rewrite (proj2 Hi).
  - destruct (acquire_total _ _ (vi_snaps _ Hv) (vi_pub _ Hv)) as (h & p & Hp). pose proof (VS_look malloc_ok junk ver s fd cred h p Ha Hp) as S1.
    eapply loops_step; [exact S1|]. by eapply looking_loops; [eapply server_step_inv| |].
  - by eapply looking_loops.
  - by eapply counting_loops.
  - by eapply loops_now; [eapply VS_refuse| |].
  - by eapply starting_loops.
  - by eapply loops_now; [eapply VS_failed| |].
Qed.
Lemma fresh_fd (m : gmap Z fd_use) : exists fd, 0 <= fd /\ m !! fd = None.
Proof.
  set (n := fresh (set_map Z.to_nat (dom m) : gset nat)). exists (Z.of_nat n). split; [lia|]. apply not_elem_of_dom. intros H.
  apply (is_fresh (set_map Z.to_nat (dom m) : gset nat)). fold n. apply elem_of_map. exists (Z.of_nat n). split; [lia|done].
Qed.
Lemma loop_serves s cred : server_inv s -> idle s -> v_at s = L_loop -> exists s' fd, rtc step s s' /\ v_threads s' = {[0%nat := C_new fd cred]} /\ v_conns s' = 1.
Proof.
  intros Hv [Ht Hst] Hl. destruct (fresh_fd (v_fds s)) as (fd & Hfd & Hn).
  assert (H0 : v_conns s = 0). { rewrite (vi_count _ Hv). unfold open_connections. by rewrite Hl, Ht. }
  pose proof (VS_loop malloc_ok junk ver s Hl Hst) as S1. pose proof (server_step_inv _ _ Hv S1) as V1.
  pose proof (VS_accept malloc_ok junk ver (at_listener L_accept s) fd cred eq_refl Hfd Hn) as S2. pose proof (server_step_inv _ _ V1 S2) as V2.
  destruct (acquire_total _ _ (vi_snaps _ V2) (vi_pub _ V2)) as (h & p & Ha). match type of V2 with server_inv ?s2 => pose proof (VS_look malloc_ok junk ver s2 fd cred h p eq_refl Ha) as S3 end. pose proof (server_step_inv _ _ V2 S3) as V3.
  match type of V3 with server_inv ?s3 => destruct (looking_reads s3 fd cred p V3 eq_refl) as (m & h' & Hm & S4) end.
  eexists _, fd. split; [|split].
  - eapply rtc_l; [exact S1|]. eapply rtc_l; [exact S2|]. eapply rtc_l; [exact S3|]. eapply rtc_l; [exact S4|].
    eapply rtc_l; [apply (VS_count malloc_ok junk ver _ fd cred m false 1); [done|]|].
    { fields. unfold accept_conn. rewrite H0, (proj2 (Z.leb_gt _ _)); [done|]. lia. }
    apply rtc_once. apply (VS_start malloc_ok junk ver _ fd cred 0%nat); [done|]. fields. by rewrite Ht.
  - fields. by rewrite Ht.
  - done.
Qed.

(** ** The properties *)

(** When the daemon listens, everything it runs on was checked, in this
    order: the configuration was read and its limits are in range, it does not
    run as root, neither the configuration file nor the key file is open to
    others, the provider settings passed the three checks and were applied
    before the configuration was published, and the key has 1 to 64 bytes.
    Otherwise it exits with 1 or 2.  Nothing but a socket is ever removed from
    the socket's path. *)
Theorem startup_checked getenv args sy o at_path (d : daemon W I) : 0 <= sy_euid sy < 2 ^ 32 -> d_snaps d = heap0 ->
  let '(r, d', at_path') := main_start malloc_ok getenv args sy o at_path d in
  (at_path = P_other -> at_path' = P_other) /\
  match r with
  | St_exit code => code = 1 \/ code = 2
  | St_listening d1 cfg fd =>
      at_path' = P_socket /\ sy_euid sy <> 0 /\
      (exists path q, load_config (sy_files sy) (sy_euid sy) path = Some cfg /\
        (forall m, sy_stat sy path = Some m -> Z.land m 7 = 0) /\ (forall m, sy_stat sy (str_of cfg (bs "hmac_key_file")) = Some m -> Z.land m 7 = 0) /\
        snaps (d_snaps d1) = {[q := (cfg, 0)]} /\ g_snap (d_snaps d1) = Some q) /\
      (validate_provider_cfg cfg = true /\ daemon_apply_provider cfg (d_world d) = (d_world d1, true)) /\
      1 <= max_connections cfg <= FSQ_MAX_CONNECTIONS_LIMIT /\ (1 <= length (allowed_uids cfg))%nat /\ 1 <= Z.of_nat (length (key_bytes cfg)) <= 64
  end.
Proof.
  clear junk ver AD. intros Hu Hd. destruct (main_start malloc_ok getenv args sy o at_path d) as [[r d'] p'] eqn:E. split.
  - intros ->. assert (Ho : open_listener o P_other = (None, P_other)) by (unfold open_listener; by destruct (ls_socket o)).
    unfold main_start in E. repeat (case_match; simplify_eq/=; try done).
  - destruct r as [code|d1 cfg fd].
    + by eapply main_exit_code.
    + destruct (main_start_listening _ _ _ _ _ _ _ _ _ _ _ E Hd) as (path & w & q & _ & Hl & Hr & Hv & Hc & Ha & Hw & Hs & _ & _ & Ho).
      destruct (load_config_sound _ _ _ _ Hu Hl) as (_ & _ & _ & Hm & _ & Hal & _ & Hk).
      unfold validate_cfg in Hv. destruct (sy_stat sy (default FSQ_CONFIG_DEFAULT path)) as [m1|] eqn:E1;
        [destruct (negb (Z.land m1 7 =? 0)) eqn:B1; [done|]|]; (destruct (sy_stat sy (str_of cfg (bs "hmac_key_file"))) as [m2|] eqn:E2;
        [destruct (negb (Z.land m2 7 =? 0)) eqn:B2; [done|]|]).
      all: split; [unfold open_listener in Ho; repeat (case_match; simplify_eq/=; try done)|].
      all: split; [done|]; split; [exists (default FSQ_CONFIG_DEFAULT path), q; rewrite Hs; rewrite ?E1, ?E2; split_and!; try done; intros m Hm'; simplify_eq; lia|].
      all: unfold daemon_check_provider in Hc; bools; by rewrite Hw.
Qed.

(** A daemon as main leaves it. *)
Definition started_as (d1 : daemon W I) (fd : Z) : Prop :=
  exists getenv args sy o at_path d cfg d2 at_path', d_snaps d = heap0 /\ main_start malloc_ok getenv args sy o at_path d = (St_listening d1 cfg fd, d2, at_path').
Lemma started_server d1 fd files : started_as d1 fd -> server_inv (server0 d1 fd files).
Proof.
  intros (getenv & args & sy & o & at_path & d & cfg & d2 & at_path' & Hd & Hm).
  destruct (main_start_listening _ _ _ _ _ _ _ _ _ _ _ Hm Hd) as (path & w & q & _ & Hl & _ & _ & _ & _ & _ & Hs & _ & _ & _).
  apply (started_inv d1 cfg q); [by eapply load_conf_ok|done].
Qed.
Lemma started_fds d1 fd files : fd ∉ files -> fds_ok (server0 d1 fd files).
Proof.
  intros Hf. split; cbn [server0 v_fds v_at v_threads v_listen]; [|intros _; apply lookup_insert_eq].
  split; [apply NoDup_nil_2|]. change (conn_fds (server0 d1 fd files)) with (@nil Z). intros x. rewrite elem_of_nil. split; [|done]. intros H.
  destruct (decide (fd = x)) as [<-|]; [rewrite lookup_insert_eq in H|rewrite lookup_insert_ne, lookup_gset_to_gmap_Some in H by done]; [done|by destruct H].
Qed.
Lemma stop_stays s s' : step s s' -> v_stop s' = false -> v_stop s = false.
Proof. intros Hs. destruct Hs; fields; try done. by destruct (0 <=? v_listen s). Qed.
Lemma reachable_fds s s' : rtc step s s' -> fds_ok s -> v_stop s' = false -> fds_ok s'.
Proof.
  intros Hr Hf. revert s' Hr. refine (rtc_ind_r (fun s' => v_stop s' = false -> fds_ok s') s _ _); [done|].
  intros s1 s2 _ Hs IH Hst. eapply server_step_fds; [|exact Hs|done]. apply IH. by eapply stop_stays.
Qed.

(** C16: In every interleaving of the listener, the connections, RELOADs and
    the rest of the process: the count of connections is the number that were
    accepted and have not yet counted themselves out, never above the limit
    of 1024; no connection's borrowed configuration is freed or replaced while
    it is served, nor the listener's while it reads the limit in it; and until the daemon is told to stop, every accepted
    descriptor is open, belongs to one connection, and none is left open. *)
Theorem connections_counted d1 fd files s : started_as d1 fd -> fd ∉ files -> rtc step (server0 d1 fd files) s ->
  v_conns s = open_connections s /\ 0 <= v_conns s <= FSQ_MAX_CONNECTIONS_LIMIT /\
  (forall i t p, v_threads s !! i = Some t -> c_snap t = Some p -> is_Some (snaps (heap_of s) !! p) /\ c_cur (heap_of s) t) /\
  (forall fd cred p, v_at s = L_looking fd cred p -> is_Some (snaps (heap_of s) !! p)) /\
  (v_stop s = false -> NoDup (conn_fds s) /\ forall x, v_fds s !! x = Some F_conn <-> x ∈ conn_fds s).
Proof.
  intros Hst Hf Hr. pose proof (listener_reachable_inv _ _ (started_server _ _ files Hst) Hr) as Hv.
  split; [apply Hv|]. split; [split; [rewrite (vi_count _ Hv); apply count_nonneg|apply Hv]|]. split; [|split].
  - intros i t p Hi Ht. destruct (borrowed_live s i t p Hv Hi Ht) as (c & r & Hp). split; [by exists (c, r)|]. by eapply (vi_cur _ Hv).
  - intros fd' cred p Ha. apply (si_held _ (vi_snaps _ Hv)). cbn [sw_borrowed]. rewrite Ha. by left.
  - intros Hs. by destruct (reachable_fds _ _ Hr (started_fds d1 fd files Hf) Hs) as [H _].
Qed.

(** A slot always comes back.  From every state the daemon can reach while
    it is not told to stop and its accept loop has not given up, each open
    connection can end, after which the count is zero and a new connection is
    accepted and handed to a thread. *)
Theorem slots_come_back d1 fd files s cred : started_as d1 fd -> rtc step (server0 d1 fd files) s -> v_stop s = false -> running (v_at s) = true ->
  exists s' fd', rtc step s s' /\ v_threads s' = {[0%nat := C_new fd' cred]} /\ v_conns s' = 1.
Proof.
  intros Hst Hr Hs Hrun. pose proof (listener_reachable_inv _ _ (started_server _ _ files Hst) Hr) as Hv.
  destruct (all_rest _ s Hv eq_refl) as (s1 & Hr1 & Ht1 & E1 & E2 & _). pose proof (listener_reachable_inv _ _ Hv Hr1) as V1.
  destruct (idle_loops s1 V1) as (s2 & Hr2 & Hi2 & Hl2); [by split; [|rewrite E2]|by rewrite E1|]. pose proof (listener_reachable_inv _ _ V1 Hr2) as V2.
  destruct (loop_serves s2 cred V2 Hi2 Hl2) as (s3 & fd' & Hr3 & H3). exists s3, fd'. split; [|done]. by rewrite Hr1, Hr2.
Qed.
(** The signal handler closes the listening descriptor and the accept loop
    closes the same number again on its way out: a file another thread has
    opened in between is closed under it. *)
Theorem listener_closed_twice (d : daemon W I) : exists s s', rtc step (server0 d 3 ∅) s /\ step s s' /\
  v_fds s !! 3 = Some F_file /\ v_fds s' !! 3 = None /\ v_at s' = L_unlinking.
Proof.
  pose (s1 := at_listener L_accept (server0 d 3 ∅)). pose (s2 := on_signal s1). pose (s3 := with_fds (<[3 := F_file]> (v_fds s2)) s2).
  pose (s4 := at_listener L_leaving s3). exists s4, (at_listener L_unlinking (close_fd 3 s4)). split_and!.
  - eapply rtc_l; [by apply (VS_loop malloc_ok junk ver)|]. eapply rtc_l; [apply VS_signal|]. eapply rtc_l; [by apply (VS_open malloc_ok junk ver s2 3)|].
    apply rtc_once. exact (VS_accept_fails malloc_ok junk ver s3 E_other eq_refl).
  - exact (VS_leave malloc_ok junk ver s4 eq_refl).
  - done.
  - done.
  - done.
Qed.
End Server.

(** ** Witnesses *)

Definition start_env (v : list Z) : option (list Z) := if bytes_eqb v FSQ_CONFIG_ENV then Some (bs "/etc/fractalsqld.conf") else None.
Definition start_sys : sys := {| sy_files := conf_files; sy_stat := fun _ => Some 416; sy_euid := 999; sy_path := [] |}.
Definition start_calls : listen_sys := {| ls_socket := Some 3; ls_stat_ok := true; ls_unlink_ok := true; ls_bind_ok := true; ls_listen_ok := true |}.
Definition start_run : @started dworld unit * dd * path_entry := main_start ok_malloc start_env [] start_sys start_calls P_socket dd0.
Definition start_fd (r : @started dworld unit * dd * path_entry) : Z := match fst (fst r) with St_exit c => - c | St_listening _ _ fd => fd end.
Lemma start_listens : start_fd start_run = 3.
Proof. vm_compute. reflexivity. Qed.
Lemma startup_checked_witness : exists d1 cfg, start_run = (St_listening d1 cfg 3, snd (fst start_run), P_socket) /\ 1 <= max_connections cfg <= 1024.
Proof.
  pose proof (startup_checked ok_malloc start_env [] start_sys start_calls P_socket dd0 ltac:(cbn; lia) eq_refl) as H.
  pose proof start_listens as Hs. unfold start_fd in Hs. fold start_run in H.
  destruct start_run as [[[c|d1 cfg fd] d2] p]; cbn [fst snd] in *.
  - destruct H as (_ & [->| ->]); discriminate Hs.
  - subst fd. destruct H as (_ & -> & _ & _ & _ & Hm & _). by exists d1, cfg.
Defined.
Lemma start_daemon : exists d1, @started_as dworld unit demo_consumers ok_malloc d1 3.
Proof.
  pose proof start_listens as Hs. unfold start_fd in Hs. destruct start_run as [[[c|d1 cfg fd] d2] p] eqn:E; cbn [fst] in Hs.
  - apply main_exit_code in E. lia.
  - subst fd. exists d1. by exists start_env, [], start_sys, start_calls, P_socket, dd0, cfg, d2, p.
Qed.
Lemma connections_counted_witness : exists s : @server dworld unit, v_conns s = 1 /\ open_connections s = 1 /\ v_conns s <= FSQ_MAX_CONNECTIONS_LIMIT.
Proof.
  destruct start_daemon as [d1 Hd]. pose proof (started_server ok_malloc d1 3 ∅ Hd) as Hv.
  destruct (loop_serves ok_malloc [] [] _ (Some 0) Hv) as (s & fd & Hr & _ & Hc); [by split|done|]. exists s.
  destruct (connections_counted ok_malloc [] [] d1 3 ∅ s Hd ltac:(set_solver) Hr) as (E & [_ Hl] & _). split; [done|]. split; [by rewrite <- E|done].
Defined.
Lemma slots_come_back_witness : exists s : @server dworld unit, v_conns s = 1.
Proof.
  destruct start_daemon as [d1 Hd]. destruct (slots_come_back ok_malloc [] [] d1 3 ∅ (server0 d1 3 ∅) (Some 0) Hd) as (s & fd & _ & _ & Hc); [reflexivity|done|done|]. by exists s.
Defined.
