(* ===== verification/Shim.v ===== *)
(** * The UDF shim inside the server (service/shim/fractalsql_shim.c)

    The configuration, the request/response exchange with its retries and the
    re-open hook, and the UDF init, call and deinit with the result stubs.  The
    socket is an interface; a write of a frame is one operation, the three
    write_all calls in a row.  Locking is the state passing itself: every
    exchange holds g_mu throughout. *)

From stdpp Require Import gmap.
From S2P Require Import Prelude Wire Sha256 DaemonConf Daemon Cache.

Definition FSQ_ATTEMPTS_R : nat := 3.
Definition FSQ_ATTEMPTS_S : nat := 2.
Definition FSQ_ATTEMPTS_E : nat := 1.
Definition fsq_attempts_for (c : fsq_cls) : nat :=
  match c with cls_r => FSQ_ATTEMPTS_R | cls_s => FSQ_ATTEMPTS_S | cls_e => FSQ_ATTEMPTS_E end.
Definition FSQ_MAX_ARG_BYTES : Z := FSQ_MAX_PAYLOAD - 4096.
Definition FSQ_MAX_RESULT_BYTES : Z := 64 * 1024 * 1024.
Definition FSQ_STR_INLINE_MAX : Z := 255.
Definition FSQ_SOCKET_PATH_MAX : Z := 108.
Definition FSQ_HOOK_OK : Z := 0.
Definition FSQ_HOOK_RETRY : Z := 1.
Definition FSQ_HOOK_FATAL : Z := -1.

(** The sockets: probing, connecting to a path ([inl] is the reason), writing
    a frame, and reading exactly so many bytes. *)
Class Transport (E : Type) := {
  sock_alive : E -> bool;
  sock_connect : list Z -> E -> E * (list Z + unit);
  sock_close : E -> E;
  sock_send : list Z -> list Z -> list Z -> E -> E * bool;
  sock_read : nat -> E -> E * option (list Z);
}.

(** The shim's globals; [g_fd] is whether the descriptor is valid. *)
Record shim {E : Type} := {
  g_configured : bool; g_socket_path : list Z; g_key : list Z; g_fd : bool;
  g_next_request_id : Z; g_idem_base : Z; g_idem_counter : Z; g_conn_gen : Z;
  s_env : E; s_mallocs : nat }.
Arguments shim : clear implicits.

(** struct fsq_stmt *)
Record fsq_stmt := { st_handle : Z; st_gen : Z; st_init_req : list Z }.

Section Shim.
Context {E : Type} {TR : Transport E}.
Context (malloc_ok : nat -> bool) (junk : list Z).
#[local] Abbreviation S := (shim E).

Definition upd_shim (fd : bool) (rid gen : Z) (e : E) (m : nat) (s : S) : S :=
  {| g_configured := g_configured s; g_socket_path := g_socket_path s; g_key := g_key s; g_fd := fd;
     g_next_request_id := rid; g_idem_base := g_idem_base s; g_idem_counter := g_idem_counter s; g_conn_gen := gen;
     s_env := e; s_mallocs := m |}.
Definition set_fd (fd : bool) (e : E) (s : S) : S := upd_shim fd (g_next_request_id s) (g_conn_gen s) e (s_mallocs s) s.
Definition set_env (e : E) (s : S) : S := set_fd (g_fd s) e s.
Definition close_fd (s : S) : S := set_fd false (sock_close (s_env s)) s.
Definition salloc (s : S) : bool * S :=
  (malloc_ok (s_mallocs s), upd_shim (g_fd s) (g_next_request_id s) (g_conn_gen s) (s_env s) (1 + s_mallocs s) s).

(** ** Configuration *)

(** One line: the socket path so far and the key path so far. *)
Definition shim_conf_line (line : list Z) (c : list Z * list Z) : list Z * option (list Z * list Z) :=
  match conf_pair line with
  | None => (fst c, Some c)
  | Some (k, v) =>
      if bytes_eqb k (bs "socket_path") then
        if FSQ_SOCKET_PATH_MAX <=? blen v then (fst c, None) else (v, Some (v, snd c))
      else if bytes_eqb k (bs "hmac_key_file") then
        if 512 <=? blen v then (fst c, None) else (fst c, Some (fst c, v))
      else (fst c, Some c)
  end.
(** The socket path is a global: it keeps what the lines before a refusal set. *)
Fixpoint shim_conf_loop (ls : list (list Z)) (c : list Z * list Z) : list Z * option (list Z * list Z) :=
  match ls with
  | [] => (fst c, Some c)
  | l :: r => match shim_conf_line l c with (_, Some c) => shim_conf_loop r c | (sp, None) => (sp, None) end
  end.
(** The new socket path, and the key when the whole configuration is usable. *)
Definition fsq_load_config (files : list Z -> option (list Z)) (path socket_path : list Z) : list Z * option (list Z) :=
  match files path with
  | None => (socket_path, None)
  | Some content =>
      match shim_conf_loop (conf_lines (length content) content) (socket_path, []) with
      | (sp, None) => (sp, None)
      | (sp, Some (_, kp)) =>
          if bytes_eqb sp [] || bytes_eqb kp [] then (sp, None) else (sp, load_key (files kp))
      end
  end.

(** ** The exchange *)

Definition fsq_mac (hdr payload : list Z) (s : S) : list Z * S :=
  let '(ok, s) := salloc s in
  (if ok then fsq_hmac_sha256 junk (g_key s) (hdr ++ payload) else repeat 0 32, s).

(** status, core_rc, body *)
Definition answer : Type := Z * Z * list Z.
(** The request buffer and the statement a hook may change. *)
Definition hook_ctx : Type := list Z * option fsq_stmt.
Definition hook_fn : Type := hook_ctx -> S -> S * hook_ctx * (Z * list Z).

Definition clip (t : list Z) : list Z := take (Z.to_nat (FSQ_MSG_MAX - 1)) t.
Definition attempts_text (t : list Z) (n : nat) : list Z := clip (t ++ bs " (after " ++ dec_u (Z.of_nat n) ++ bs " attempt(s))").

Definition err_sending : list Z := bs "fractalsql: lost connection to fractalsqld while sending".
Definition err_frame : list Z := bs "fractalsql: bad response frame from fractalsqld (check protocol version and hmac_key_file)".
Definition err_reading : list Z := bs "fractalsql: lost connection to fractalsqld while reading".
Definition err_auth : list Z := bs "fractalsql: response authentication failed (check hmac_key_file)".
Definition err_reopen : list Z := bs "fractalsql: could not re-open the statement on the current connection to fractalsqld".

(** How one attempt ends: a transport failure (to retry), a final failure, or
    the answer. *)
Inductive attempt_end := A_retry (text : list Z) | A_stop (text : list Z) | A_answer (a : answer).

Definition read_bytes (n : nat) (s : S) : option (list Z) * S :=
  let '(e, r) := sock_read n (s_env s) in (r, set_env e s).

(** From the response header on. *)
Definition read_reply (rid : Z) (s : S) : attempt_end * S :=
  let '(r, s) := read_bytes FSQ_HEADER_LEN s in
  match r with
  | None => (A_retry err_frame, s)
  | Some rhdr =>
  match fsq_header_decode rhdr with
  | None => (A_retry err_frame, s)
  | Some rh =>
  if negb (h_version rh =? FSQ_PROTOCOL_VERSION) || negb (h_auth_len rh =? FSQ_TAG_LEN) || (FSQ_MAX_PAYLOAD <? h_payload_len rh) ||
     negb (h_request_id rh =? rid) || (Z.land (h_flags rh) FSQ_FLAG_RESPONSE =? 0) then (A_retry err_frame, s)
  else
  let '(t, s) := read_bytes 32 s in
  match t with
  | None => (A_retry err_reading, s)
  | Some rtag =>
  let '(p, s) :=
    if h_payload_len rh =? 0 then (Some [], s)
    else let '(ok, s) := salloc s in if negb ok then (None, s) else read_bytes (Z.to_nat (h_payload_len rh)) s in
  match p with
  | None => (A_retry err_reading, s)
  | Some rpay =>
  let '(want, s) := fsq_mac rhdr rpay s in
  if negb (fsq_ct_equal rtag want 32) then (A_retry err_auth, s)
  else if h_payload_len rh <? 8 then (A_stop (bs "fractalsql: short response from fractalsqld"), s)
  else
    let '(ok, s) := salloc s in
    if negb ok then (A_stop (bs "fractalsql: out of memory"), s)
    else (A_answer (fsq_get_u32 rpay, s32 (fsq_get_u32 (drop 4 rpay)), drop 8 rpay), s)
  end
  end
  end
  end.

(** The frame of one attempt and its answer. *)
Definition exchange (opcode context : Z) (req : list Z) (s : S) : attempt_end * S :=
  let rid := g_next_request_id s in
  let h := {| h_version := FSQ_PROTOCOL_VERSION; h_opcode := opcode; h_flags := 0; h_request_id := rid;
              h_context := context; h_auth_len := FSQ_TAG_LEN; h_payload_len := blen req |} in
  let s := upd_shim (g_fd s) (u32 (rid + 1)) (g_conn_gen s) (s_env s) (s_mallocs s) s in
  let hdr := fsq_header_encode h in
  let '(tag, s) := fsq_mac hdr req s in
  let '(e, sent) := sock_send hdr tag req (s_env s) in
  let s := set_env e s in
  if negb sent then (A_retry err_sending, s) else read_reply rid s.

(** The loop: [todo] attempts remain, [n] is the number of this one. *)
Fixpoint roundtrip_loop (todo n : nat) (opcode context : Z) (hook : option hook_fn) (x : hook_ctx) (s : S) : S * hook_ctx * (list Z + answer) :=
  match todo with
  | O => (s, x, inl (bs "fractalsql: internal retry error"))
  | Datatypes.S todo =>
      let retry := roundtrip_loop todo (1 + n) opcode context hook in
      let more := negb (todo =? 0)%nat in
      let s := if g_fd s && negb (sock_alive (s_env s)) then close_fd s else s in
      let '(s, c) :=
        if g_fd s then (s, inr tt)
        else let '(e, r) := sock_connect (g_socket_path s) (s_env s) in
             match r with
             | inl why => (set_fd false e s, inl why)
             | inr _ => (upd_shim true (g_next_request_id s) (u64 (g_conn_gen s + 1)) e (s_mallocs s) s, inr tt)
             end in
      match c with
      | inl why => if more then retry x s else (s, x, inl (clip why))
      | inr _ =>
          let '(s, x, (rc, herr)) := match hook with Some f => f x s | None => (s, x, (FSQ_HOOK_OK, [])) end in
          if negb (rc =? FSQ_HOOK_OK) then
            let s := close_fd s in
            if (rc =? FSQ_HOOK_RETRY) && more then retry x s
            else (s, x, inl (if bytes_eqb herr [] then err_reopen else herr))
          else
            let '(r, s) := exchange opcode context (fst x) s in
            match r with
            | A_answer a => (s, x, inr a)
            | A_stop t => (s, x, inl t)
            | A_retry t => let s := close_fd s in if more then retry x s else (s, x, inl (attempts_text t n))
            end
      end
  end.
Definition fsq_roundtrip (max_attempts : nat) (opcode context : Z) (hook : option hook_fn) (x : hook_ctx) (s : S) : S * hook_ctx * (list Z + answer) :=
  roundtrip_loop max_attempts 1 opcode context hook x s.

(** ** Requests *)

Definition fsq_set_msg (text : list Z) : list Z :=
  clip (if bytes_eqb text [] then bs "fractalsql: unspecified failure" else text).
Definition fsq_wire_type (t : Item_result) : Z := item_to_wire t.
Definition fsq_server_type (t : Z) : Item_result := wire_to_item t.

(** vlen, a uint32_t *)
Definition arg_len (tv : Item_result * arg_val) : Z :=
  match snd tv with
  | AV_null => 0
  | AV_str b => match fst tv with INT_RESULT | REAL_RESULT => 8 | _ => u32 (blen b) end
  | _ => 8
  end.
Definition arg_bytes (tv : Item_result * arg_val) : list Z :=
  match snd tv with
  | AV_null => []
  | AV_int v => fsq_put_u64 (u64 v)
  | AV_real b => fsq_put_u64 b
  | AV_str b => take (Z.to_nat (arg_len tv)) b
  end.
Definition encode_arg (tv : Item_result * arg_val) : list Z :=
  [fsq_wire_type (fst tv); match snd tv with AV_null => 1 | _ => 0 end] ++ fsq_put_u32 (arg_len tv) ++ arg_bytes tv.
Definition encode_args (args : list (Item_result * arg_val)) : list Z := flat_map encode_arg args.

(** What fsq_udf_init allocates, and what it writes there. *)
Definition init_req_len (name : list Z) (args : list (Item_result * arg_val)) : Z :=
  fold_left (fun n tv => u32 (n + u32 (6 + arg_len tv))) args (u32 (1 + u8 (blen name) + 4)).
Definition init_req (name : list Z) (args : list (Item_result * arg_val)) : list Z :=
  u8 (blen name) :: take (Z.to_nat (u8 (blen name))) name ++ fsq_put_u32 (Z.of_nat (length args)) ++ encode_args args.
(** total of fsq_udf_call; [None] is over FSQ_MAX_ARG_BYTES. *)
Definition call_len (name : list Z) (args : list (Item_result * arg_val)) : option Z :=
  fold_left (fun n tv =>
      match n with
      | None => None
      | Some n =>
          let len := match snd tv with AV_null => 0 | AV_str b => match fst tv with INT_RESULT | REAL_RESULT => 8 | _ => blen b end | _ => 8 end in
          let n := u64 (n + 6 + len) in if FSQ_MAX_ARG_BYTES <? n then None else Some n
      end) args (Some (1 + u8 (blen name) + 8 + 4)).
Definition call_req (name : list Z) (handle : Z) (args : list (Item_result * arg_val)) : list Z :=
  u8 (blen name) :: take (Z.to_nat (u8 (blen name))) name ++ fsq_put_u64 handle ++ fsq_put_u32 (Z.of_nat (length args)) ++ encode_args args.

(** ** Init, call, deinit *)

(** What the server hands the shim's configuration: the files, the path, the
    random token base. *)
Record boot := { b_files : list Z -> option (list Z); b_path : list Z; b_base : Z }.

Definition configure (b : boot) (s : S) : S * bool :=
  if g_configured s then (s, true)
  else
    let '(sp, key) := fsq_load_config (b_files b) (b_path b) (g_socket_path s) in
    match key with
    | None => ({| g_configured := false; g_socket_path := sp; g_key := g_key s; g_fd := g_fd s; g_next_request_id := g_next_request_id s;
                  g_idem_base := g_idem_base s; g_idem_counter := g_idem_counter s; g_conn_gen := g_conn_gen s;
                  s_env := s_env s; s_mallocs := s_mallocs s |}, false)
    | Some k => ({| g_configured := true; g_socket_path := sp; g_key := k; g_fd := g_fd s; g_next_request_id := g_next_request_id s;
                    g_idem_base := b_base b; g_idem_counter := g_idem_counter s; g_conn_gen := g_conn_gen s;
                    s_env := s_env s; s_mallocs := s_mallocs s |}, true)
    end.

(** The opened statement, max_length, maybe_null and the argument types. *)
Definition opened : Type := fsq_stmt * Z * bool * list Item_result.

(** The outer [None]: the request is written past its buffer. *)
Definition fsq_udf_init (b : boot) (name : list Z) (args : list (Item_result * arg_val)) (s : S) : S * option (list Z + opened) :=
  let fail t s := (s, Some (inl t)) in
  let nargs := Z.of_nat (length args) in
  if FSQ_MAX_ARGS <? nargs then fail (fsq_set_msg (bs "fractalsql: too many arguments for this function")) s
  else
    let '(ok, s) := salloc s in
    if negb ok then fail (fsq_set_msg (bs "fractalsql: out of memory")) s
    else
      let req := init_req name args in
      if init_req_len name args <? blen req then (s, None)
      else
        let '(ok, s) := salloc s in
        if negb ok then fail (fsq_set_msg (bs "fractalsql: out of memory")) s
        else
          let '(s, ok) := configure b s in
          if negb ok then fail (fsq_set_msg (bs "fractalsql: cannot read fractalsql.conf (socket_path, hmac_key_file)")) s
          else
            let '(s, _, r) := fsq_roundtrip 1 FSQ_OP_UDF_INIT 0 None (req, None) s in
            let gen := g_conn_gen s in
            match r with
            | inl err => fail (fsq_set_msg err) s
            | inr (status, _, body) =>
                if negb (status =? FSQ_OK) then fail (clip body) s
                else if (blen body <? 17) || negb (fsq_get_u32 (drop 13 body) =? nargs) || (blen body <? 17 + nargs) then
                  fail (fsq_set_msg (bs "fractalsql: malformed init reply")) s
                else
                  let handle := fsq_get_u64 body in
                  if handle =? 0 then fail (fsq_set_msg (bs "fractalsql: fractalsqld returned no handle")) s
                  else
                    let '(ok, s) := salloc s in
                    if negb ok then fail (fsq_set_msg (bs "fractalsql: out of memory")) s
                    else
                      (s, Some (inr ({| st_handle := handle; st_gen := gen; st_init_req := req |},
                                     Z.min (fsq_get_u32 (drop 8 body)) FSQ_MAX_RESULT_BYTES, negb (at_ body 12 =? 0),
                                     map (fun i => fsq_server_type (at_ body (17 + i))) (seq 0 (length args)))))
            end.

Definition patch (off : nat) (handle : Z) (req : list Z) : list Z := take off req ++ fsq_put_u64 handle ++ drop (off + 8) req.

(** The hook of a call; [off] is where the request's handle field sits. *)
Definition fsq_call_reconnect (off : nat) : hook_fn := fun x s =>
  match snd x with
  | None => (s, x, (FSQ_HOOK_OK, []))
  | Some st =>
      if st_gen st =? g_conn_gen s then (s, x, (FSQ_HOOK_OK, []))
      else
        let '(s, _, r) := fsq_roundtrip 1 FSQ_OP_UDF_INIT 0 None (st_init_req st, None) s in
        match r with
        | inl err => (s, x, (FSQ_HOOK_RETRY, clip (err_reopen ++ bs ": " ++ (if bytes_eqb err [] then bs "the daemon refused the re-open" else err))))
        | inr (status, _, body) =>
            if negb (status =? FSQ_OK) || (blen body <? 17) then
              (s, x, (FSQ_HOOK_FATAL, clip (err_reopen ++ bs ": the daemon refused the re-open")))
            else
              let handle := fsq_get_u64 body in
              if handle =? 0 then (s, x, (FSQ_HOOK_FATAL, clip (err_reopen ++ bs ": no handle")))
              else (s, (patch off handle (fst x), Some {| st_handle := handle; st_gen := g_conn_gen s; st_init_req := st_init_req st |}), (FSQ_HOOK_OK, []))
        end
  end.

(** The statement afterwards; [None] is *error = 1, otherwise the NULL flag and
    the bytes. *)
Definition fsq_udf_call (name : list Z) (cls : fsq_cls) (st : option fsq_stmt) (args : list (Item_result * arg_val)) (s : S) :
    S * option fsq_stmt * option (bool * list Z) :=
  let handle := match st with Some st => st_handle st | None => 0 end in
  if (handle =? 0) || (FSQ_MAX_ARGS <? Z.of_nat (length args)) then (s, st, None)
  else match call_len name args with
  | None => (s, st, None)
  | Some _ =>
      let '(ok, s) := salloc s in
      if negb ok then (s, st, None)
      else
        let token := u64 (g_idem_base s + g_idem_counter s) in
        let s := {| g_configured := g_configured s; g_socket_path := g_socket_path s; g_key := g_key s; g_fd := g_fd s;
                    g_next_request_id := g_next_request_id s; g_idem_base := g_idem_base s; g_idem_counter := u64 (g_idem_counter s + 1);
                    g_conn_gen := g_conn_gen s; s_env := s_env s; s_mallocs := s_mallocs s |} in
        let '(s, x, r) := fsq_roundtrip (fsq_attempts_for cls) FSQ_OP_UDF_CALL token
                            (Some (fsq_call_reconnect (1 + Z.to_nat (u8 (blen name))))) (call_req name handle args, st) s in
        let st := snd x in
        match r with
        | inl _ => (s, st, None)
        | inr (status, _, body) =>
            if negb (status =? FSQ_OK) || (blen body <? 6) then (s, st, None)
            else
              let len := fsq_get_u32 (drop 2 body) in
              if blen body - 6 <? len then (s, st, None)
              else
                let '(ok, s) := salloc s in
                if negb ok then (s, st, None)
                else (s, st, Some (negb (at_ body 1 =? 0), take (Z.to_nat len) (drop 6 body)))
        end
  end.

Definition fsq_udf_deinit (st : option fsq_stmt) (s : S) : S :=
  match st with
  | None => s
  | Some st =>
      if st_handle st =? 0 then s
      else let '(s, _, _) := fsq_roundtrip 1 FSQ_OP_UDF_DEINIT 0 None (fsq_put_u64 (st_handle st), None) s in s
  end.

(** ** The stubs *)

Definition fsq_return_string (bytes : list Z) (s : S) : option (list Z) * S :=
  if blen bytes <=? FSQ_STR_INLINE_MAX then (Some bytes, s)
  else let '(ok, s) := salloc s in (if ok then Some bytes else None, s).
Definition FSQ_UDF_STR (name : list Z) (cls : fsq_cls) (st : option fsq_stmt) (max_length : Z) (args : list (Item_result * arg_val)) (s : S) :
    S * option fsq_stmt * udf (list Z) :=
  let '(s, st, r) := fsq_udf_call name cls st args s in
  match r with
  | None => (s, st, UError)
  | Some (true, _) => (s, st, UNull)
  | Some (false, bytes) =>
      if max_length <? blen bytes then (s, st, UError)
      else let '(o, s) := fsq_return_string bytes s in (s, st, match o with Some b => UVal b | None => UError end)
  end.
Definition FSQ_UDF_INT (name : list Z) (cls : fsq_cls) (st : option fsq_stmt) (args : list (Item_result * arg_val)) (s : S) :
    S * option fsq_stmt * udf Z :=
  let '(s, st, r) := fsq_udf_call name cls st args s in
  (s, st, match r with None => UError | Some (true, _) => UNull | Some (false, b) => UVal (if blen b =? 8 then long_long b else 0) end).
(** The double by its bits. *)
Definition FSQ_UDF_REAL (name : list Z) (cls : fsq_cls) (st : option fsq_stmt) (args : list (Item_result * arg_val)) (s : S) :
    S * option fsq_stmt * udf Z :=
  let '(s, st, r) := fsq_udf_call name cls st args s in
  (s, st, match r with None => UError | Some (true, _) => UNull | Some (false, b) => UVal (if blen b =? 8 then fsq_get_u64 b else 0) end).
End Shim.
