(* ===== verification/ShimProofs.v ===== *)
(** * Properties of the shim, alone and over the daemon

    The request codec against the daemon's parser, what a call sends and whose
    answers it believes, and the shim run over the daemon's frame loop. *)

From stdpp Require Import gmap.
From S2P Require Import Prelude Wire Sha256 DaemonConf Cache Daemon DaemonProofs Shim.

(** ** Lemmas: the codec of the arguments *)

(** A value of its type, within the wire's widths. *)
Definition arg_wf (tv : Item_result * arg_val) : Prop :=
  match tv with
  | (_, AV_null) => True
  | (INT_RESULT, AV_int v) => - 2 ^ 63 <= v < 2 ^ 63
  | (REAL_RESULT, AV_real b) => 0 <= b < 2 ^ 64
  | (STRING_RESULT, AV_str b) | (DECIMAL_RESULT, AV_str b) => blen b < 2 ^ 32
  | _ => False
  end.
Definition arg_on_wire (tv : Item_result * arg_val) : fsq_arg :=
  {| a_type := item_to_wire (fst tv); a_is_null := match snd tv with AV_null => 1 | _ => 0 end; a_bytes := arg_bytes tv |}.

Lemma arg_len_bytes tv : arg_wf tv -> arg_len tv = blen (arg_bytes tv) /\ 0 <= arg_len tv < 2 ^ 32.
Proof.
  destruct tv as [t [|v|b|b]]; intros Hw; destruct t; cbn in Hw; try done; unfold arg_len, arg_bytes; cbn [fst snd];
    try (split; [done|lia]); unfold arg_len; cbn [fst snd].
  all: assert (0 <= blen b) by (unfold blen; lia); rewrite u32_id by lia; unfold blen in *; rewrite take_ge by lia; lia.
Qed.
Lemma parse_args_encode args : Forall arg_wf args -> parse_args (length args) (encode_args args) = Some (map arg_on_wire args).
Proof.
  induction 1 as [|tv args Hw _ IH]; [done|]. cbn [length parse_args map]. change (encode_args (tv :: args)) with (encode_arg tv ++ encode_args args).
  destruct (arg_len_bytes tv Hw) as [Hl Hr]. set (tl := encode_args args) in *.
  unfold encode_arg. set (ty := fsq_wire_type (fst tv)). set (nu := match snd tv with AV_null => 1 | _ => 0 end). cbn [app].
  rewrite <- !app_assoc.
  assert (Hlen : length (ty :: nu :: fsq_put_u32 (arg_len tv) ++ arg_bytes tv ++ tl) = (6 + length (arg_bytes tv ++ tl))%nat)
    by (cbn [length]; rewrite length_app, put_u32_length; lia).
  rewrite Hlen. cbn [Nat.ltb Nat.leb Nat.add]. 
  change (drop 2 (ty :: nu :: ?x)) with (drop 0 x). change (drop 6 (ty :: nu :: fsq_put_u32 (arg_len tv) ++ ?x)) with x.
  rewrite drop_0, get_put_u32 by done. unfold blen in Hl.
  assert ((Z.of_nat (length (arg_bytes tv ++ tl)) <? arg_len tv) = false) as -> by (rewrite length_app; lia).
  assert (Hn : Z.to_nat (arg_len tv) = length (arg_bytes tv)) by lia. rewrite Hn.
  rewrite drop_app_exact, take_app_exact by done. rewrite IH. done.
Qed.
Lemma call_args_decode {W I} (malloc_ok : nat -> bool) args : (forall n, malloc_ok n = true) -> Forall arg_wf args ->
  forall d : daemon W I, fst (call_args malloc_ok (map fst args) (map arg_on_wire args) d) = inr args.
Proof.
  intros Hm. induction 1 as [|tv args Hw _ IH]; intros d; [done|]. cbn [map call_args].
  assert (K : forall v (d : daemon W I), fst (bind (call_args malloc_ok (map fst args) (map arg_on_wire args))
      (fun rest => ret (match rest with inr l => inr ((fst tv, v) :: l) | inl e => inl e end)) d) = @inr Z _ ((fst tv, v) :: args)).
  { intros v d0. unfold bind, ret. specialize (IH d0). destruct (call_args _ _ _ d0) as [r d1]. cbn [fst] in *. by subst r. }
  destruct tv as [t [|v|b|b]]; destruct t; cbn in Hw; try done; unfold arg_on_wire, arg_bytes; cbn [fst snd a_is_null a_bytes Z.eqb negb] in *; try apply K.
  - replace (negb (blen (fsq_put_u64 _) =? 8)) with false by done. rewrite K. repeat f_equal. unfold long_long. rewrite <- (app_nil_r (fsq_put_u64 _)), get_put_u64 by apply u64_range. by rewrite s64_u64.
  - replace (negb (blen (fsq_put_u64 _) =? 8)) with false by done. rewrite K. repeat f_equal. by rewrite <- (app_nil_r (fsq_put_u64 _)), get_put_u64.
  - unfold bind at 1. cbn [malloc]. rewrite Hm. cbn [negb]. rewrite K. repeat f_equal. unfold arg_len. cbn [fst snd].
    rewrite u32_id, take_ge by (unfold blen in *; lia). done.
  - unfold bind at 1. cbn [malloc]. rewrite Hm. cbn [negb]. rewrite K. repeat f_equal. unfold arg_len. cbn [fst snd].
    rewrite u32_id, take_ge by (unfold blen in *; lia). done.
Qed.
Lemma parse_call_encode name handle args : blen name < 256 -> 0 <= handle < 2 ^ 64 -> Z.of_nat (length args) <= FSQ_MAX_ARGS -> Forall arg_wf args ->
  parse_call (call_req name handle args) = Some (name, handle, map arg_on_wire args).
Proof.
  intros Hn Hh Ha Hw. assert (0 <= blen name) by (unfold blen; lia). unfold call_req, parse_call.
  rewrite u8_id by (unfold byte_ok; lia). replace (Z.to_nat (blen name)) with (length name) by (unfold blen; lia). rewrite firstn_all.
  set (q := name ++ _).
  assert (Hq : q = name ++ fsq_put_u64 handle ++ fsq_put_u32 (Z.of_nat (length args)) ++ encode_args args) by done.
  assert (Hlen : (length q <? length name + 12)%nat = false).
  { apply Nat.ltb_ge. rewrite Hq, !length_app, put_u64_length, put_u32_length. lia. }
  rewrite Hlen.
  assert (D8 : drop (length name + 8) q = fsq_put_u32 (Z.of_nat (length args)) ++ encode_args args).
  { rewrite Hq, app_assoc. apply drop_app_exact. by rewrite length_app, put_u64_length. }
  assert (D12 : drop (length name + 12) q = encode_args args).
  { rewrite Hq, !app_assoc. apply drop_app_exact. rewrite !length_app, put_u64_length, put_u32_length. lia. }
  rewrite D8, D12. unfold FSQ_MAX_ARGS in *. rewrite get_put_u32 by lia. assert ((64 <? Z.of_nat (length args)) = false) as -> by lia.
  rewrite Nat2Z.id, parse_args_encode by done. rewrite Hq at 1. rewrite take_app_exact by done.
  rewrite Hq, drop_app_exact, get_put_u64 by done. done.
Qed.

(** ** Lemmas: what an exchange sends, and whom it believes *)

(** A transport that also remembers the header of every frame, newest first. *)
Record logged {E : Type} := { lg_env : E; lg_sent : list (list Z) }.
Arguments logged : clear implicits.
#[export] Instance logged_transport {E} `{Transport E} : Transport (logged E) := {
  sock_alive e := sock_alive (lg_env e);
  sock_connect p e := let '(e1, r) := sock_connect p (lg_env e) in ({| lg_env := e1; lg_sent := lg_sent e |}, r);
  sock_close e := {| lg_env := sock_close (lg_env e); lg_sent := lg_sent e |};
  sock_send h t q e := let '(e1, r) := sock_send h t q (lg_env e) in ({| lg_env := e1; lg_sent := h :: lg_sent e |}, r);
  sock_read n e := let '(e1, r) := sock_read n (lg_env e) in ({| lg_env := e1; lg_sent := lg_sent e |}, r) }.

Definition is_call (hdr : list Z) : bool := fsq_get_u16 (drop 6 hdr) =? FSQ_OP_UDF_CALL.
Definition hdr_context (hdr : list Z) : Z := fsq_get_u64 (drop 16 hdr).
Lemma encode_opcode h : 0 <= h_opcode h < 2 ^ 16 -> fsq_get_u16 (drop 6 (fsq_header_encode h)) = h_opcode h.
Proof.
  intros Hr. destruct h as [ve op fl ri co au pa]. cbn [h_opcode] in *.
  change (drop 6 _) with (fsq_put_u16 op ++ fsq_put_u32 fl ++ fsq_put_u32 ri ++ fsq_put_u64 co ++ fsq_put_u32 au ++ fsq_put_u32 pa).
  by apply get_put_u16.
Qed.
Lemma encode_context h : 0 <= h_context h < 2 ^ 64 -> hdr_context (fsq_header_encode h) = h_context h.
Proof.
  intros Hr. destruct h as [ve op fl ri co au pa]. unfold hdr_context. cbn [h_context] in *.
  change (drop 16 _) with (fsq_put_u64 co ++ fsq_put_u32 au ++ fsq_put_u32 pa). by apply get_put_u64.
Qed.

Section Sends.
Context {E : Type} {TR : Transport E} (malloc_ok : nat -> bool) (junk : list Z).
#[local] Abbreviation S := (shim (logged E)).
Definition sent (s : S) : list (list Z) := lg_sent (s_env s).

(** From [s] to [s'] at most [n] calls were sent, all under [token]. *)
Definition grew (token : Z) (n : nat) (s s' : S) : Prop :=
  exists new, sent s' = new ++ sent s /\ (length (List.filter is_call new) <= n)%nat /\
    Forall (fun hdr => is_call hdr = true -> hdr_context hdr = token) new.
Lemma grew_same token s s' : sent s' = sent s -> grew token 0 s s'.
Proof. intros Hs. exists []. split_and!; [done|cbn; lia|constructor]. Qed.
Lemma grew_trans token n m s1 s2 s3 : grew token n s1 s2 -> grew token m s2 s3 -> grew token (n + m) s1 s3.
Proof.
  intros (a & Ha & La & Fa) (b & Hb & Lb & Fb). exists (b ++ a). split_and!; [by rewrite Hb, Ha, app_assoc| |by apply Forall_app].
  rewrite List.filter_app, length_app. lia.
Qed.
Lemma grew_le token n m s s' : grew token n s s' -> (n <= m)%nat -> grew token m s s'.
Proof. intros (a & Ha & La & Fa) Hl. exists a. split_and!; [done|lia|done]. Qed.

Lemma read_bytes_sent n (s : S) r s' : read_bytes n s = (r, s') -> sent s' = sent s.
Proof. unfold read_bytes. cbn [sock_read logged_transport]. destruct (sock_read n (lg_env (s_env s))) as [e1 r1]. by intros [= <- <-]. Qed.
Lemma mac_sent h p (s : S) t s' : fsq_mac malloc_ok junk h p s = (t, s') -> sent s' = sent s.
Proof. unfold fsq_mac. cbn [salloc]. by intros [= <- <-]. Qed.
Lemma read_reply_sent rid (s : S) a s' : read_reply malloc_ok junk rid s = (a, s') -> sent s' = sent s.
Proof.
  unfold read_reply. destruct (read_bytes FSQ_HEADER_LEN s) as [[rhdr|] s1] eqn:E1; [|intros [= <- <-]; by apply (read_bytes_sent _ _ _ _ E1)].
  apply read_bytes_sent in E1. destruct (fsq_header_decode rhdr) as [rh|]; [|by intros [= <- <-]].
  destruct (_ || _); [by intros [= <- <-]|]. destruct (read_bytes 32 s1) as [[rtag|] s2] eqn:E2; apply read_bytes_sent in E2; [|intros [= <- <-]; congruence].
  match goal with |- (let '(p, s) := ?x in _) = _ -> _ => destruct x as [[rpay|] s3] eqn:E3 end.
  all: assert (Hs3 : sent s3 = sent s2) by (destruct (_ =? 0); [by simplify_eq|]; cbn [salloc] in E3;
       destruct (malloc_ok _); cbn [negb] in E3; [by apply read_bytes_sent in E3|by simplify_eq]).
  2: { intros [= <- <-]. congruence. }
  destruct (fsq_mac malloc_ok junk rhdr rpay s3) as [want s4] eqn:E4. apply mac_sent in E4.
  destruct (negb _); [intros [= <- <-]; congruence|]. destruct (_ <? 8); [intros [= <- <-]; congruence|]. cbn [salloc].
  destruct (malloc_ok _); cbn [negb]; intros [= <- <-]; unfold sent in *; cbn [s_env upd_shim]; congruence.
Qed.
Lemma exchange_sent op ctx req (s : S) a s' : exchange malloc_ok junk op ctx req s = (a, s') ->
  exists h, h_opcode h = op /\ h_context h = ctx /\ sent s' = fsq_header_encode h :: sent s.
Proof.
  unfold exchange. set (h := {| h_version := _ |}). set (s0 := upd_shim _ _ _ _ _ s).
  destruct (fsq_mac malloc_ok junk (fsq_header_encode h) req s0) as [tag s1] eqn:E1. apply mac_sent in E1.
  cbn [sock_send logged_transport]. destruct (sock_send _ tag req (lg_env (s_env s1))) as [e1 ok]. intros Hr. exists h. split; [done|]. split; [done|].
  set (s2 := set_env _ s1) in *. assert (H2 : sent s2 = fsq_header_encode h :: sent s) by (unfold sent in E1 |- *; cbn [s2 set_env set_fd upd_shim s_env lg_sent]; by rewrite E1).
  destruct ok; cbn [negb] in Hr; [|by injection Hr as <- <-]. apply read_reply_sent in Hr. by rewrite Hr.
Qed.
Lemma exchange_grew token op ctx req (s : S) a s' : exchange malloc_ok junk op ctx req s = (a, s') -> 0 <= op < 2 ^ 16 ->
  (op = FSQ_OP_UDF_CALL -> ctx = token /\ 0 <= token < 2 ^ 64) -> grew token (if op =? FSQ_OP_UDF_CALL then 1 else 0) s s'.
Proof.
  intros He Hop Hc. destruct (exchange_sent _ _ _ _ _ _ He) as (h & Ho & Hx & Hs). exists [fsq_header_encode h].
  assert (Hi : is_call (fsq_header_encode h) = (op =? FSQ_OP_UDF_CALL)) by (unfold is_call; rewrite encode_opcode by lia; by rewrite Ho).
  split; [done|]. cbn [List.filter]. rewrite Hi. split; [destruct (_ =? _); cbn; lia|]. constructor; [|constructor]. intros Ht.
  destruct Hc as [-> Hr]; [rewrite Hi in Ht; lia|]. by rewrite encode_context, Hx by lia.
Qed.
(** The loop sends at most one frame per attempt, and what its hook sends. *)
Lemma loop_grew token (hook : option (@hook_fn (logged E))) op ctx : 0 <= op < 2 ^ 16 -> (op = FSQ_OP_UDF_CALL -> ctx = token /\ 0 <= token < 2 ^ 64) ->
  (forall f x (s : S), hook = Some f -> grew token 0 s (fst (fst (f x s)))) ->
  forall todo n x (s : S), grew token (if op =? FSQ_OP_UDF_CALL then todo else 0) s (fst (fst (roundtrip_loop malloc_ok junk todo n op ctx hook x s))).
Proof.
  intros Hop Hc Hh. set (per := fun k : nat => if op =? FSQ_OP_UDF_CALL then k else 0%nat).
  induction todo as [|todo IH]; intros n x s; cbn [roundtrip_loop]; [apply (grew_le token 0); [by apply grew_same|lia]|].
  change (if op =? FSQ_OP_UDF_CALL then Datatypes.S todo else 0%nat) with (per (Datatypes.S todo)).
  set (s0 := if g_fd s && _ then close_fd s else s). assert (H0 : sent s0 = sent s) by (unfold s0; by destruct (_ && _)). clearbody s0.
  match goal with |- grew _ _ _ (fst (fst (let '(s, c) := ?y in _))) => destruct y as [s1 c] eqn:E1 end.
  assert (H1 : sent s1 = sent s0).
  { destruct (g_fd s0); [by injection E1 as <- <-|]. cbn [sock_connect logged_transport] in E1.
    destruct (sock_connect _ (lg_env (s_env s0))) as [e1 [w|[]]]; by injection E1 as <- <-. }
  assert (G1 : grew token 0 s s1) by (apply grew_same; congruence). clear E1 H0 H1.
  assert (Hper : per (Datatypes.S todo) = (per 1 + per todo)%nat) by (unfold per; destruct (op =? _); lia).
  destruct c as [why|[]].
  { destruct (negb (todo =? 0)%nat); [|by apply (grew_le token 0); [|lia]]. apply (grew_le token (0 + per todo)); [|rewrite Hper; lia].
    by apply (grew_trans token 0 _ s s1). }
  match goal with |- context [match hook with Some f => f ?a ?b | None => _ end] => set (y := match hook with Some f => f a b | None => (b, a, (FSQ_HOOK_OK, [])) end) end.
  destruct y as [[s2 x2] [rc herr]] eqn:E2. unfold y in E2. clear y.
  assert (G2 : grew token 0 s s2).
  { apply (grew_trans token 0 0 s s1); [done|]. destruct hook as [f|]; [|injection E2 as <- <- <- <-; by apply grew_same].
    specialize (Hh f x s1 eq_refl). by rewrite E2 in Hh. }
  clear G1 E2. destruct (negb (rc =? FSQ_HOOK_OK)).
  { assert (G3 : grew token 0 s (close_fd s2)) by (apply (grew_trans token 0 0 s s2); [done|by apply grew_same]).
    destruct (_ && _); [|apply (grew_le token 0); [exact G3|lia]]. apply (grew_le token (0 + per todo)); [|rewrite Hper; lia].
    apply (grew_trans token 0 _ s (close_fd s2)); [exact G3|apply IH]. }
  destruct (exchange malloc_ok junk op ctx (fst x2) s2) as [a s3] eqn:E3. pose proof (exchange_grew token _ _ _ _ _ _ E3 Hop Hc) as G3.
  change (grew token (per 1%nat) s2 s3) in G3. assert (G4 : grew token (per 1%nat) s s3) by (by apply (grew_trans token 0 _ s s2)).
  destruct a as [t|t|a]; cbn [fst]; [|apply (grew_le token (per 1%nat)); [done|rewrite Hper; lia]..].
  assert (G5 : grew token (per 1%nat) s (close_fd s3)) by (rewrite <- (Nat.add_0_r (per 1%nat)); apply (grew_trans token (per 1%nat) 0 s s3); [done|by apply grew_same]).
  destruct (negb _); [|apply (grew_le token (per 1%nat)); [exact G5|rewrite Hper; lia]]. rewrite Hper. apply (grew_trans token _ _ s (close_fd s3)); [exact G5|apply IH].
Qed.
Lemma reconnect_grew token off x (s : S) : grew token 0 s (fst (fst (fsq_call_reconnect malloc_ok junk off x s))).
Proof.
  unfold fsq_call_reconnect. destruct (snd x) as [st|]; [|by apply grew_same]. destruct (_ =? _); [by apply grew_same|].
  pose proof (loop_grew token None FSQ_OP_UDF_INIT 0 ltac:(unfold FSQ_OP_UDF_INIT; lia) ltac:(done) ltac:(done) 1 1 (st_init_req st, None) s) as Hg.
  unfold fsq_roundtrip. destruct (roundtrip_loop malloc_ok junk 1 1 FSQ_OP_UDF_INIT 0 None (st_init_req st, None) s) as [[s1 x1] r].
  destruct r as [err|[[status rc] body]]; [exact Hg|]. destruct (_ || _); [exact Hg|]. by destruct (_ =? 0).
Qed.
Lemma udf_call_grew name cls st args (s : S) :
  grew (u64 (g_idem_base s + g_idem_counter s)) (fsq_attempts_for cls) s (fst (fst (fsq_udf_call malloc_ok junk name cls st args s))).
Proof.
  unfold fsq_udf_call. set (token := u64 _). assert (G0 : forall s', sent s' = sent s -> grew token (fsq_attempts_for cls) s s').
  { intros s' Hs. apply (grew_le token 0); [by apply grew_same|lia]. }
  destruct (_ || _); [by apply G0|]. destruct (call_len name args); [|by apply G0]. cbn [salloc]. destruct (malloc_ok (s_mallocs s)); cbn [negb]; [|by apply G0].
  match goal with |- context [fsq_roundtrip _ _ _ _ _ _ _ ?s0] => set (s1 := s0) end.
  pose proof (loop_grew token (Some (fsq_call_reconnect malloc_ok junk (1 + Z.to_nat (u8 (blen name))))) FSQ_OP_UDF_CALL token
    ltac:(unfold FSQ_OP_UDF_CALL; lia) ltac:(intros _; split; [done|apply u64_range]) ltac:(intros f x s' [= <-]; apply reconnect_grew)
    (fsq_attempts_for cls) 1 (call_req name (match st with Some st => st_handle st | None => 0 end) args, st) s1) as Hg.
  unfold fsq_roundtrip. change (u64 (g_idem_base _ + g_idem_counter _)) with token.
  destruct (roundtrip_loop _ _ _ _ _ _ _ _ s1) as [[s2 x2] r]. cbn [fst] in Hg.
  assert (G2 : forall s', sent s' = sent s2 -> grew token (fsq_attempts_for cls) s s').
  { intros s' Hs. destruct Hg as (new & Hn & Hl & Hf). exists new. split; [by rewrite Hs, Hn|done]. }
  destruct r as [err|[[status rc] body]]; [by apply G2|]. destruct (_ || _); [by apply G2|]. destruct (_ <? _); [by apply G2|].
  cbn [salloc]. destruct (malloc_ok _); by apply G2.
Qed.
End Sends.

Section Answers.
Context {E : Type} {TR : Transport E} (malloc_ok : nat -> bool) (junk : list Z).
#[local] Abbreviation S := (shim E).
(** read_all's contract: exactly the bytes asked for. *)
Hypothesis Hread : forall n e e' l, sock_read n e = (e', Some l) -> length l = n /\ bytes_ok l.

(** The tag fsq_mac makes with allocation [m]: the HMAC of the message, or 32
    zero bytes when that allocation fails. *)
Definition tagged (m : nat) (key msg t : list Z) : Prop :=
  t = if malloc_ok m then fsq_hmac_sha256 junk key msg else repeat 0 32.
(** The answer is the payload of a frame read right after the request was
    sent, for the request's own id and tagged under [key]; the tags are those
    of the allocations [m1] and [m2], of the ones from [lo] up to [hi]. *)
Definition answered (lo hi : nat) (key : list Z) (op ctx : Z) (a : answer) : Prop :=
  exists req e0 e1 e2 e3 e4 h tag rhdr rh rtag rpay m1 m2,
    (lo <= m1 < m2)%nat /\ (m2 < hi)%nat /\
    h_opcode h = op /\ h_context h = ctx /\
    sock_send (fsq_header_encode h) tag req e0 = (e1, true) /\ tagged m1 key (fsq_header_encode h ++ req) tag /\
    sock_read 32 e1 = (e2, Some rhdr) /\ fsq_header_decode rhdr = Some rh /\ h_request_id rh = h_request_id h /\
    Z.land (h_flags rh) FSQ_FLAG_RESPONSE <> 0 /\
    sock_read 32 e2 = (e3, Some rtag) /\ tagged m2 key (rhdr ++ rpay) rtag /\
    sock_read (Z.to_nat (h_payload_len rh)) e3 = (e4, Some rpay) /\
    a = (fsq_get_u32 rpay, s32 (fsq_get_u32 (drop 4 rpay)), drop 8 rpay).
Lemma answered_mono lo hi lo' hi' key op ctx a : answered lo hi key op ctx a -> (lo' <= lo)%nat -> (hi <= hi')%nat -> answered lo' hi' key op ctx a.
Proof.
  intros (req & e0 & e1 & e2 & e3 & e4 & h & tag & rhdr & rh & rtag & rpay & m1 & m2 & [H1 H2] & H3 & H) Hl Hh.
  exists req, e0, e1, e2, e3, e4, h, tag, rhdr, rh, rtag, rpay, m1, m2. split; [lia|]. split; [lia|exact H].
Qed.

(** What a step keeps: the key, and the count of allocations does not fall. *)
Definition kept (s s' : S) : Prop := g_key s' = g_key s /\ (s_mallocs s <= s_mallocs s')%nat.
Lemma kept_refl s : kept s s.
Proof. by split. Qed.
Lemma kept_trans s1 s2 s3 : kept s1 s2 -> kept s2 s3 -> kept s1 s3.
Proof. intros [K1 M1] [K2 M2]. split; [congruence|lia]. Qed.
Lemma kept_same s s' : g_key s' = g_key s -> s_mallocs s' = s_mallocs s -> kept s s'.
Proof. intros K M. split; [done|lia]. Qed.

Lemma read_bytes_spec n (s : S) r s' : read_bytes n s = (r, s') -> kept s s' /\
  (forall l, r = Some l -> sock_read n (s_env s) = (s_env s', Some l)).
Proof. unfold read_bytes. destruct (sock_read n (s_env s)) as [e1 r1] eqn:E1. intros [= <- <-]. split; [by apply kept_same|]. by intros l ->. Qed.
Lemma salloc_spec (s : S) ok s' : salloc malloc_ok s = (ok, s') -> kept s s' /\ s_env s' = s_env s.
Proof. unfold salloc. intros [= <- <-]. split; [split; cbn; [done|lia]|done]. Qed.
#[local] Opaque fsq_hmac_sha256.
Lemma fsq_mac_spec h p (s : S) t s' : fsq_mac malloc_ok junk h p s = (t, s') ->
  g_key s' = g_key s /\ s_mallocs s' = (1 + s_mallocs s)%nat /\ s_env s' = s_env s /\ tagged (s_mallocs s) (g_key s) (h ++ p) t.
Proof. unfold fsq_mac, tagged. cbn [salloc]. by intros [= <- <-]. Qed.
Lemma tagged_digest m key msg t : tagged m key msg t -> length t = 32%nat /\ bytes_ok t.
Proof. unfold tagged. intros ->. destruct (malloc_ok m); [apply hmac_digest|]. split; [done|]. by_compute. Qed.
Lemma read_reply_spec rid (s : S) r s' : read_reply malloc_ok junk rid s = (r, s') -> kept s s' /\
  forall a, r = A_answer a -> exists e2 e3 e4 rhdr rh rtag rpay m,
    (s_mallocs s <= m < s_mallocs s')%nat /\
    sock_read 32 (s_env s) = (e2, Some rhdr) /\ fsq_header_decode rhdr = Some rh /\ h_request_id rh = rid /\
    Z.land (h_flags rh) FSQ_FLAG_RESPONSE <> 0 /\ sock_read 32 e2 = (e3, Some rtag) /\ tagged m (g_key s) (rhdr ++ rpay) rtag /\
    sock_read (Z.to_nat (h_payload_len rh)) e3 = (e4, Some rpay) /\
    a = (fsq_get_u32 rpay, s32 (fsq_get_u32 (drop 4 rpay)), drop 8 rpay).
Proof.
  unfold read_reply. destruct (read_bytes FSQ_HEADER_LEN s) as [rh0 s1] eqn:E1. apply read_bytes_spec in E1 as [K1 R1].
  destruct rh0 as [rhdr|]; [|by intros [= <- <-]]. specialize (R1 _ eq_refl). destruct (fsq_header_decode rhdr) as [rh|] eqn:Ed; [|by intros [= <- <-]].
  destruct (_ || _) eqn:Ec; [by intros [= <- <-]|]. apply orb_false_iff in Ec as [Ec Efl]. apply orb_false_iff in Ec as [_ Eid].
  apply negb_false_iff, Z.eqb_eq in Eid. apply Z.eqb_neq in Efl.
  destruct (read_bytes 32 s1) as [rt s2] eqn:E2. apply read_bytes_spec in E2 as [K2 R2].
  pose proof (kept_trans _ _ _ K1 K2) as K12. destruct rt as [rtag|]; [|by intros [= <- <-]]. specialize (R2 _ eq_refl).
  match goal with |- (let '(p, s) := ?x in _) = _ -> _ => destruct x as [rp s3] eqn:E3 end.
  assert (K3 : kept s2 s3 /\ forall l, rp = Some l -> h_payload_len rh <> 0 -> sock_read (Z.to_nat (h_payload_len rh)) (s_env s2) = (s_env s3, Some l)).
  { destruct (h_payload_len rh =? 0) eqn:Ez; [apply Z.eqb_eq in Ez; injection E3 as <- <-; split; [apply kept_refl|by intros l _ []]|].
    destruct (salloc malloc_ok s2) as [ok s2'] eqn:Ea. apply salloc_spec in Ea as [Ka Ea]. destruct ok; cbn [negb] in E3; [|by injection E3 as <- <-].
    apply read_bytes_spec in E3 as [K3 R3]. split; [by apply (kept_trans _ s2')|]. intros l Hl _. rewrite <- Ea. by apply R3. }
  clear E3. destruct K3 as [K3 R3]. pose proof (kept_trans _ _ _ K12 K3) as K13. destruct rp as [rpay|]; [|by intros [= <- <-]].
  destruct (fsq_mac malloc_ok junk rhdr rpay s3) as [want s4] eqn:E4. apply fsq_mac_spec in E4 as (K4 & M4 & _ & Hw).
  assert (K14 : kept s s4) by (apply (kept_trans _ s3); [done|split; [done|lia]]).
  destruct (negb (fsq_ct_equal rtag want 32)) eqn:Et; [by intros [= <- <-]|]. apply negb_false_iff in Et.
  destruct (h_payload_len rh <? 8) eqn:El; [by intros [= <- <-]|]. apply Z.ltb_ge in El. destruct (salloc malloc_ok s4) as [ok s5] eqn:E5. apply salloc_spec in E5 as [K5 _].
  pose proof (kept_trans _ _ _ K14 K5) as K15. destruct ok; cbn [negb]; [|by intros [= <- <-]]. intros [= <- <-].
  split; [done|]. intros a [= <-]. exists (s_env s1), (s_env s2), (s_env s3), rhdr, rh, rtag, rpay, (s_mallocs s3).
  destruct (tagged_digest _ _ _ _ Hw) as [L1 L2]. destruct (Hread _ _ _ _ R2) as [L3 L4]. apply ct_equal_spec in Et; [|done..]. subst want.
  rewrite (proj1 K13) in Hw. destruct K13 as [_ K13], K5 as [_ K5]. split; [lia|]. split_and!; try done. apply R3; [done|lia].
Qed.
Lemma exchange_spec op ctx req (s : S) r s' : exchange malloc_ok junk op ctx req s = (r, s') -> kept s s' /\
  forall a, r = A_answer a -> answered (s_mallocs s) (s_mallocs s') (g_key s) op ctx a.
Proof.
  unfold exchange. set (h := {| h_version := _ |}). set (s0 := upd_shim _ _ _ _ _ s).
  destruct (fsq_mac malloc_ok junk (fsq_header_encode h) req s0) as [tag s1] eqn:E1. apply fsq_mac_spec in E1 as (K1 & M1 & _ & Ht).
  change (g_key s0) with (g_key s) in *. change (s_mallocs s0) with (s_mallocs s) in *. assert (K : kept s s1) by (split; [done|lia]).
  destruct (sock_send _ tag req (s_env s1)) as [e1 ok] eqn:Es. destruct ok; cbn [negb]; [|intros [= <- <-]; by split].
  intros Hr. apply read_reply_spec in Hr as [K2 Hr]. change (g_key (set_env e1 s1)) with (g_key s1) in *.
  change (s_mallocs (set_env e1 s1)) with (s_mallocs s1) in *. rewrite K1, M1 in *.
  split; [by apply (kept_trans _ (set_env e1 s1))|]. intros a Ha.
  destruct (Hr a Ha) as (e2 & e3 & e4 & rhdr & rh & rtag & rpay & m & Hlm & R1 & R2 & R3 & R4 & R5 & R6 & R7 & R8).
  exists req, (s_env s1), e1, e2, e3, e4, h, tag, rhdr, rh, rtag, rpay, (s_mallocs s), m. split; [lia|]. split; [lia|]. by split_and!.
Qed.
Lemma loop_spec (hook : option (@hook_fn E)) op ctx :
  (forall f x (s : S), hook = Some f -> kept s (fst (fst (f x s)))) ->
  forall todo n x (s : S) s' x' r, roundtrip_loop malloc_ok junk todo n op ctx hook x s = (s', x', r) ->
  kept s s' /\ forall a, r = inr a -> answered (s_mallocs s) (s_mallocs s') (g_key s) op ctx a.
Proof.
  intros Hh. induction todo as [|todo IH]; intros n x s s' x' r; cbn [roundtrip_loop]; [by intros [= <- <- <-]|].
  assert (Again : forall n x (s1 : S), kept s s1 -> roundtrip_loop malloc_ok junk todo n op ctx hook x s1 = (s', x', r) ->
    kept s s' /\ forall a, r = inr a -> answered (s_mallocs s) (s_mallocs s') (g_key s) op ctx a).
  { intros n1 x1 s1 K1 Hr. apply IH in Hr as [K2 A]. rewrite (proj1 K1) in A. split; [by apply (kept_trans _ s1)|]. intros a Ha.
    apply (answered_mono (s_mallocs s1) (s_mallocs s')); [by apply A|apply K1|done]. }
  clear IH. set (s0 := if g_fd s && _ then close_fd s else s). assert (H0 : kept s s0) by (unfold s0; destruct (_ && _); by apply kept_same). clearbody s0.
  match goal with |- (let '(s, c) := ?y in _) = _ -> _ => destruct y as [s1 c] eqn:E1 end.
  assert (H1 : kept s s1).
  { apply (kept_trans _ s0); [done|]. destruct (g_fd s0); [by injection E1 as <- <-|].
    destruct (sock_connect _ (s_env s0)) as [e1 [w|[]]]; injection E1 as <- <-; by apply kept_same. }
  clear E1 H0. destruct c as [why|[]].
  { destruct (negb (todo =? 0)%nat); [by apply Again|by intros [= <- <- <-]]. }
  match goal with |- context [match hook with Some f => f ?a ?b | None => _ end] => set (y := match hook with Some f => f a b | None => (b, a, (FSQ_HOOK_OK, [])) end) end.
  destruct y as [[s2 x2] [rc herr]] eqn:E2. unfold y in E2. clear y.
  assert (H2 : kept s s2).
  { apply (kept_trans _ s1); [done|]. destruct hook as [f|]; [|by injection E2 as <- <- <- <-]. specialize (Hh f x s1 eq_refl). by rewrite E2 in Hh. }
  clear E2 H1. assert (Hc : forall s3, kept s s3 -> kept s (close_fd s3)) by (intros s3 K; apply (kept_trans _ s3); [done|by apply kept_same]).
  destruct (negb (rc =? FSQ_HOOK_OK)).
  { destruct (_ && _); [by apply Again, Hc|intros [= <- <- <-]; split; [by apply Hc|done]]. }
  destruct (exchange malloc_ok junk op ctx (fst x2) s2) as [a s3] eqn:E3. apply exchange_spec in E3 as [K3 A3]. rewrite (proj1 H2) in A3.
  pose proof (kept_trans _ _ _ H2 K3) as K. destruct a as [t|t|a].
  - destruct (negb _); [by apply Again, Hc|]. intros [= <- <- <-]. split; [by apply Hc|done].
  - by intros [= <- <- <-].
  - intros [= <- <- <-]. split; [done|]. intros a' [= <-]. apply (answered_mono (s_mallocs s2) (s_mallocs s3)); [by apply A3|apply H2|done].
Qed.
Lemma reconnect_kept off x (s : S) : kept s (fst (fst (fsq_call_reconnect malloc_ok junk off x s))).
Proof.
  unfold fsq_call_reconnect. destruct (snd x) as [st|]; [|done]. destruct (_ =? _); [done|]. unfold fsq_roundtrip.
  destruct (roundtrip_loop malloc_ok junk 1 1 FSQ_OP_UDF_INIT 0 None (st_init_req st, None) s) as [[s1 x1] r] eqn:E1.
  apply loop_spec in E1 as [K _]; [|done]. destruct r as [err|[[status rc] body]]; [done|]. destruct (_ || _); [done|]. by destruct (_ =? 0).
Qed.
Lemma udf_call_answered name cls st args (s : S) s' st' nul bytes :
  fsq_udf_call malloc_ok junk name cls st args s = (s', st', Some (nul, bytes)) ->
  exists core_rc body,
    answered (s_mallocs s) (s_mallocs s') (g_key s) FSQ_OP_UDF_CALL (u64 (g_idem_base s + g_idem_counter s)) (FSQ_OK, core_rc, body) /\
    nul = negb (at_ body 1 =? 0) /\ bytes = take (Z.to_nat (fsq_get_u32 (drop 2 body))) (drop 6 body).
Proof.
  unfold fsq_udf_call. destruct (_ || _); [done|]. destruct (call_len name args); [|done]. cbn [salloc]. destruct (malloc_ok (s_mallocs s)); cbn [negb]; [|done].
  match goal with |- context [fsq_roundtrip _ _ _ _ _ _ _ ?s0] => set (s1 := s0) end. unfold fsq_roundtrip.
  destruct (roundtrip_loop _ _ _ _ _ _ _ _ s1) as [[s2 x2] r] eqn:E1.
  apply loop_spec in E1 as [_ A]; [|intros f x s3 [= <-]; apply reconnect_kept].
  destruct r as [err|[[status rc] body]]; [done|]. specialize (A _ eq_refl).
  destruct (negb (status =? FSQ_OK) || _) eqn:Es; [done|]. apply orb_false_iff in Es as [Es Eb]. apply negb_false_iff, Z.eqb_eq in Es. subst status.
  destruct (blen body - 6 <? _) eqn:El; [done|]. cbn [salloc]. destruct (malloc_ok (s_mallocs s2)); cbn [negb]; [|done]. intros Hr. simplify_eq. exists rc, body.
  split; [|by split_and!]. apply (answered_mono (s_mallocs s1) (s_mallocs s2)); [exact A| |]; cbn [s1 s_mallocs upd_shim]; lia.
Qed.
End Answers.

(** ** The shim over the daemon

    The socket is the daemon's frame loop: a frame written is served at once,
    and its reply waits to be read. *)
Record link := { ln_daemon : daemon dworld unit; ln_conf : fsq_config; ln_conn : option Z; ln_in : list Z }.
Definition hang_up (e : link) : link :=
  {| ln_daemon := match ln_conn e with Some c => handle_release_owner c (ln_daemon e) | None => ln_daemon e end;
     ln_conf := ln_conf e; ln_conn := None; ln_in := [] |}.
#[export] Instance link_transport : Transport link := {
  sock_alive e := match ln_conn e with Some _ => true | None => false end;
  sock_connect _ e := let '(c, d) := next_conn_id (ln_daemon e) in ({| ln_daemon := d; ln_conf := ln_conf e; ln_conn := Some c; ln_in := [] |}, inr tt);
  sock_close := hang_up;
  sock_send hdr tag req e :=
    match ln_conn e with
    | None => (e, false)
    | Some c =>
        match serve_frame ok_malloc (repeat 0 64) (bs "1.0") sys0 (ln_conf e) c true (hdr ++ tag ++ req) (ln_daemon e) with
        | (Some (_, out), d) => ({| ln_daemon := d; ln_conf := ln_conf e; ln_conn := Some c; ln_in := ln_in e ++ out |}, true)
        | (None, d) => (hang_up {| ln_daemon := d; ln_conf := ln_conf e; ln_conn := Some c; ln_in := [] |}, true)
        end
    end;
  sock_read n e :=
    if (length (ln_in e) <? n)%nat then (e, None)
    else ({| ln_daemon := ln_daemon e; ln_conf := ln_conf e; ln_conn := ln_conn e; ln_in := drop n (ln_in e) |}, Some (map u8 (take n (ln_in e)))) }.
Lemma link_reads n (e e' : link) l : sock_read n e = (e', Some l) -> length l = n /\ bytes_ok l.
Proof.
  cbn [sock_read link_transport]. destruct (_ <? _)%nat eqn:E1; [done|]. apply Nat.ltb_ge in E1. intros [= <- <-].
  split; [rewrite length_map, length_take; lia|]. apply Forall_map, Forall_true. intros x. apply u8_byte.
Qed.
(** A daemon restart: its handles and cache are gone, the connection is closed. *)
Definition restart (s : shim link) : shim link :=
  set_env {| ln_daemon := daemon0 (d_world (ln_daemon (s_env s))) heap0; ln_conf := ln_conf (s_env s); ln_conn := None; ln_in := [] |} s.
Definition shim0 : shim link :=
  {| g_configured := true; g_socket_path := bs "/run/fsq.sock"; g_key := [1; 2; 3]; g_fd := false; g_next_request_id := 1;
     g_idem_base := 1000; g_idem_counter := 0; g_conn_gen := 0;
     s_env := {| ln_daemon := dd0; ln_conf := with_limits 64 300 [0] [1; 2; 3] config0; ln_conn := None; ln_in := [] |}; s_mallocs := 0 |}.
Definition boot0 : boot := {| b_files := fun _ => None; b_path := []; b_base := 0 |}.
Definition z64 : list Z := repeat 0 64.
Definition stmt_of (r : option (list Z + opened)) : option fsq_stmt := match r with Some (inr (st, _, _, _)) => Some st | _ => None end.
Definition open_ (s : shim link) : shim link * option fsq_stmt :=
  let '(s, r) := fsq_udf_init ok_malloc z64 boot0 load_fn [] s in (s, stmt_of r).

(** An opened statement's calls run in the daemon and return its values; the
    token counter makes each a call of its own. *)
Example call_end_to_end :
  let '(s, st) := open_ shim0 in
  let '(s, st, r1) := FSQ_UDF_INT ok_malloc z64 load_fn cls_s st [] s in
  let '(s, st, r2) := FSQ_UDF_INT ok_malloc z64 load_fn cls_s st [] s in
  r1 = UVal 42 /\ r2 = UVal 42 /\ w_log (d_world (ln_daemon (s_env s))) = [load_fn; load_fn].
Proof. vm_compute. repeat split. Qed.

(** A statement opened before a restart of the daemon still works: the hook
    opens it again on the new connection. *)
Example reopen_end_to_end :
  let '(s, st) := open_ shim0 in
  let '(s, st, r1) := FSQ_UDF_INT ok_malloc z64 load_fn cls_s st [] (restart s) in
  r1 = UVal 42 /\ g_conn_gen s = 2.
Proof. vm_compute. repeat split. Qed.

(** Deinit does not check the generation of its handle: handle ids start
    over with the daemon, so the deinit of a statement opened before a restart
    closes the statement another query opened after it, whose next call fails
    although its connection never dropped. *)
Theorem stale_deinit_steals :
  let '(s, stA) := open_ shim0 in
  let '(s, stB) := open_ (restart s) in
  let before := FSQ_UDF_INT ok_malloc z64 load_fn cls_s stB [] s in
  let after := FSQ_UDF_INT ok_malloc z64 load_fn cls_s stB [] (fsq_udf_deinit ok_malloc z64 stA s) in
  stA <> None /\ stB <> None /\ snd before = UVal 42 /\ snd after = UError /\
  d_handles (ln_daemon (s_env (fst (fst after)))) = [].
Proof. vm_compute. repeat split; discriminate. Qed.

(** The request length of fsq_udf_init is a uint32_t: two constant strings of
    2^31 bytes make the request run past its buffer. *)
Theorem init_request_overflows b (s : shim link) : blen b = 2 ^ 31 ->
  snd (fsq_udf_init ok_malloc z64 boot0 load_fn [(STRING_RESULT, AV_str b); (STRING_RESULT, AV_str b)] s) = None.
Proof.
  intros Hb. set (args := [_; _]). unfold fsq_udf_init. change (FSQ_MAX_ARGS <? Z.of_nat (length args)) with false. cbn [salloc negb ok_malloc].
  assert (Hl : arg_len (STRING_RESULT, AV_str b) = 2 ^ 31) by (unfold arg_len; cbn [fst snd]; rewrite Hb; reflexivity).
  assert (E1 : init_req_len load_fn args = 36) by (unfold init_req_len, args; cbn [fold_left]; rewrite Hl; vm_compute; reflexivity).
  assert (E2 : 2 ^ 31 <= blen (init_req load_fn args)).
  { assert (Ha : arg_bytes (STRING_RESULT, AV_str b) = b).
    { unfold arg_bytes. cbn [fst snd]. rewrite Hl. apply take_ge. unfold blen in Hb. lia. }
    assert (Hg : forall tv, (length (arg_bytes tv) <= length (encode_arg tv))%nat) by (intros tv; unfold encode_arg; rewrite !length_app; lia).
    assert (Hi : (length (encode_args args) <= length (init_req load_fn args))%nat) by (unfold init_req; cbn [length]; rewrite !length_app; lia).
    assert (Hf : (length (encode_arg (STRING_RESULT, AV_str b)) <= length (encode_args args))%nat)
      by (unfold encode_args, args; cbn [flat_map]; rewrite length_app; lia).
    specialize (Hg (STRING_RESULT, AV_str b)). rewrite Ha in Hg. unfold blen in *. lia. }
  rewrite E1. assert ((36 <? blen (init_req load_fn args)) = true) as -> by lia. reflexivity.
Qed.

(** ** Properties *)

(** The call request round trips: what the shim encodes for a function
    name, a handle and well-typed arguments, the daemon parses as that name and
    handle, and decodes to the very argument values, NULLs included. *)
Theorem call_request_roundtrip {W I} (malloc_ok : nat -> bool) name handle args (d : daemon W I) :
  (forall n, malloc_ok n = true) -> blen name < 256 -> 0 <= handle < 2 ^ 64 -> Z.of_nat (length args) <= FSQ_MAX_ARGS -> Forall arg_wf args ->
  exists ins, parse_call (call_req name handle args) = Some (name, handle, ins) /\ length ins = length args /\
    fst (call_args malloc_ok (map fst args) ins d) = inr args.
Proof.
  intros Hm Hn Hh Ha Hw. exists (map arg_on_wire args). split; [by apply parse_call_encode|]. split; [by rewrite length_map|]. by apply call_args_decode.
Qed.
Lemma call_request_roundtrip_witness :
  exists ins, parse_call (call_req load_fn 7 [(INT_RESULT, AV_int (-5)); (STRING_RESULT, AV_str (bs "x")); (REAL_RESULT, AV_null)]) = Some (load_fn, 7, ins) /\
    length ins = 3%nat /\
    fst (call_args ok_malloc [INT_RESULT; STRING_RESULT; REAL_RESULT] ins dd0) = inr [(INT_RESULT, AV_int (-5)); (STRING_RESULT, AV_str (bs "x")); (REAL_RESULT, AV_null)].
Proof.
  apply (call_request_roundtrip ok_malloc load_fn 7 [(INT_RESULT, AV_int (-5)); (STRING_RESULT, AV_str (bs "x")); (REAL_RESULT, AV_null)] dd0).
  - reflexivity.
  - vm_compute. reflexivity.
  - lia.
  - cbn. unfold FSQ_MAX_ARGS. lia.
  - repeat constructor; vm_compute; try reflexivity; discriminate.
Defined.

(** One logical call sends at most as many UDF_CALL frames as its retry
    class allows (one for the expensive functions), all under the one token
    minted for it, whatever the transport does and however often the statement
    is opened again. *)
Theorem call_attempts_bounded {E} {TR : Transport E} malloc_ok junk name cls st args (s : shim (logged E)) :
  let s' := fst (fst (fsq_udf_call malloc_ok junk name cls st args s)) in
  exists new, lg_sent (s_env s') = new ++ lg_sent (s_env s) /\
    (length (List.filter is_call new) <= fsq_attempts_for cls)%nat /\
    Forall (fun hdr => is_call hdr = true -> hdr_context hdr = u64 (g_idem_base s + g_idem_counter s)) new.
Proof. apply udf_call_grew. Qed.

(** C23: a call that returns a value returns the body of an OK reply: the
    payload of a frame read directly after a frame of this call's token was
    sent, a response carrying the id of that frame, whose tag is the HMAC of its
    header and payload under the shim's key.  The one exception is fsq_mac's:
    where its own allocation fails the tag wanted is 32 zero bytes ([tagged]),
    and it is one of this call's allocations.  read_all is taken to return
    exactly the bytes asked for. *)
Theorem call_answer_authentic {E} {TR : Transport E} malloc_ok junk name cls st args (s : shim E) s' st' nul bytes :
  (forall n e e' l, sock_read n e = (e', Some l) -> length l = n /\ bytes_ok l) ->
  fsq_udf_call malloc_ok junk name cls st args s = (s', st', Some (nul, bytes)) ->
  exists core_rc body,
    answered malloc_ok junk (s_mallocs s) (s_mallocs s') (g_key s) FSQ_OP_UDF_CALL (u64 (g_idem_base s + g_idem_counter s)) (FSQ_OK, core_rc, body) /\
    nul = negb (at_ body 1 =? 0) /\ bytes = take (Z.to_nat (fsq_get_u32 (drop 2 body))) (drop 6 body).
Proof. intros Hr. by apply udf_call_answered. Qed.
Lemma call_answer_authentic_witness : let s := fst (open_ shim0) in
  exists hi core_rc body, answered ok_malloc z64 (s_mallocs s) hi (g_key s) FSQ_OP_UDF_CALL (u64 (g_idem_base s + g_idem_counter s)) (FSQ_OK, core_rc, body).
Proof.
  cbv zeta.
  assert (HS : match snd (fsq_udf_call ok_malloc z64 load_fn cls_s (snd (open_ shim0)) [] (fst (open_ shim0))) with Some _ => true | None => false end = true)
    by (vm_compute; reflexivity).
  destruct (fsq_udf_call ok_malloc z64 load_fn cls_s (snd (open_ shim0)) [] (fst (open_ shim0))) as [[s' st'] [[nul bytes]|]] eqn:Ec; [|discriminate HS].
  destruct (call_answer_authentic ok_malloc z64 load_fn cls_s (snd (open_ shim0)) [] (fst (open_ shim0)) s' st' nul bytes
    link_reads Ec) as (rc & body & HA & _).
  exists (s_mallocs s'), rc, body. exact HA.
Defined.
