(* ===== verification/Hmac.v ===== *)
(** * The ledger's SHA-256 and HMAC-SHA256 (src/fractalsql_hmac.h)

    A second, separately vendored copy of the digest, used by the ledger
    chain, the head records and the audit redaction.  It is modelled from its
    own text (the context keeps its buffer across [init], the padding uses
    [memset], the output loop interleaves the eight words) and shown to
    compute the same function as the protocol's copy in Sha256.v.  The ledger
    is proved against the interface [Digest]; this file discharges it. *)

From S2P Require Import Prelude Sha256.

Record fsql_sha256_ctx := {
  q_data : list Z;       (* uint8_t data[64] *)
  q_datalen : nat;
  q_bitlen : Z;
  q_state : list Z       (* uint32_t state[8] *)
}.

(** The macros and [fsql_sha256_transform] are the same text as the
    protocol's copy: the block function is [compress]. *)
Definition fsql_sha256_transform (ctx : fsql_sha256_ctx) (data : list Z) : fsql_sha256_ctx :=
  {| q_data := q_data ctx; q_datalen := q_datalen ctx; q_bitlen := q_bitlen ctx;
     q_state := compress (q_state ctx) data |}.

(** [init] leaves [data] as it is. *)
Definition fsql_sha256_init (ctx : fsql_sha256_ctx) : fsql_sha256_ctx :=
  {| q_data := q_data ctx; q_datalen := 0; q_bitlen := 0; q_state := sha_iv |}.

Definition fsql_update1 (ctx : fsql_sha256_ctx) (b : Z) : fsql_sha256_ctx :=
  let ctx := {| q_data := <[q_datalen ctx := b]> (q_data ctx); q_datalen := S (q_datalen ctx);
                q_bitlen := q_bitlen ctx; q_state := q_state ctx |} in
  if (q_datalen ctx =? 64)%nat then
    let ctx := fsql_sha256_transform ctx (q_data ctx) in
    {| q_data := q_data ctx; q_datalen := 0; q_bitlen := u64 (q_bitlen ctx + 512);
       q_state := q_state ctx |}
  else ctx.

(** The same loop as the protocol's copy, with its uint32_t counter. *)
Definition fsql_sha256_update (fuel : nat) (ctx : fsql_sha256_ctx) (data : list Z) : option fsql_sha256_ctx :=
  update_loop fsql_update1 fuel 0 ctx data.

(** The context an update leaves when it returns: a piece shorter than 2^32
    bytes ([fsql_update_returns]; a ledger blob is at most 64 MiB). *)
Definition fsql_fed (ctx : fsql_sha256_ctx) (data : list Z) : fsql_sha256_ctx :=
  fold_left fsql_update1 data ctx.

(** [hash[i + 4*k] = (state[k] >> (24 - i*8)) & 0xff], i outermost. *)
Definition put_hash (st hash : list Z) : list Z :=
  fold_left (fun h i => fold_left (fun h k =>
      <[(i + 4 * k)%nat := Z.land (Z.shiftr (at_ st k) (24 - Z.of_nat i * 8)) 255]> h) (seq 0 8) h)
    (seq 0 4) hash.

Definition fsql_sha256_final (ctx : fsql_sha256_ctx) (hash : list Z) : list Z * fsql_sha256_ctx :=
  let n := q_datalen ctx in
  let d1 := <[n := 128]> (q_data ctx) in
  let '(d2, st2) :=
    if (n <? 56)%nat then (zero_to d1 (S n) 56, q_state ctx)
    else let d := zero_to d1 (S n) 64 in
         (replicate 56 0 ++ drop 56 d, compress (q_state ctx) d) in
  let bl := u64 (q_bitlen ctx + u64 (Z.of_nat n * 8)) in
  let d3 := put_bitlen d2 bl in
  let ctx := {| q_data := d3; q_datalen := n; q_bitlen := bl; q_state := compress st2 d3 |} in
  (put_hash (q_state ctx) hash, ctx).

Section Calls.
(** The contents of the uninitialised automatic variables. *)
Variable junk : fsql_sha256_ctx.
Variable junk32 : list Z.

Definition fsql_sha256 (msg : list Z) : list Z :=
  fst (fsql_sha256_final (fsql_fed (fsql_sha256_init junk) msg) junk32).

(** [memset(p, 0, 64); memcpy(p, key, keylen);] then the xor loop. *)
Definition pad_block (key : list Z) (x : Z) : list Z :=
  map (fun b => Z.lxor b x) (key ++ drop (length key) (replicate 64 0)).

(** One context is used for all three digests, re-initialised each time. *)
Definition fsql_hmac_sha256 (key msg : list Z) : list Z :=
  let '(key, ctx) :=
    if (64 <? length key)%nat
    then fsql_sha256_final (fsql_fed (fsql_sha256_init junk) key) junk32
    else (key, junk) in
  let k_ipad := pad_block key 54 in
  let k_opad := pad_block key 92 in
  let ctx := fsql_fed (fsql_fed (fsql_sha256_init ctx) k_ipad) msg in
  let '(inner, ctx) := fsql_sha256_final ctx junk32 in
  let ctx := fsql_fed (fsql_fed (fsql_sha256_init ctx) k_opad) inner in
  fst (fsql_sha256_final ctx junk32).
End Calls.

(** What the ledger relies on: two functions whose results are 32 bytes. *)
Class Digest := {
  sha256 : list Z -> list Z;
  hmac : list Z -> list Z -> list Z;
  sha256_digest m : length (sha256 m) = 32%nat /\ bytes_ok (sha256 m);
  hmac_is_digest k m : length (hmac k m) = 32%nat /\ bytes_ok (hmac k m)
}.

(** ** The copy computes the protocol's digest *)

(** The two contexts have the same fields. *)
Definition as_fsq (c : fsql_sha256_ctx) : fsq_sha256_ctx :=
  {| c_data := q_data c; c_datalen := q_datalen c; c_bitlen := q_bitlen c; c_state := q_state c |}.

#[local] Opaque compress.

Lemma fsql_update_returns fuel ctx data : piece_ok data -> (length data <= fuel)%nat ->
  fsql_sha256_update fuel ctx data = Some (fsql_fed ctx data).
Proof. intros Hd Hf. by apply (update_loop_fold fsql_update1 data Hd data []). Qed.

Lemma update1_as_fsq c b : as_fsq (fsql_update1 c b) = update1 (as_fsq c) b.
Proof. unfold fsql_update1, update1. destruct c as [d n l s]. cbn. by destruct n as [|n]; [|case_match]. Qed.
Lemma update_as_fsq c l : as_fsq (fsql_fed c l) = fed (as_fsq c) l.
Proof.
  unfold fsql_fed, fed. revert c. induction l as [|b l IH]; intros c; [done|].
  cbn [fold_left]. by rewrite IH, update1_as_fsq.
Qed.

Lemma put_hash_spec st hash : length st = 8%nat -> length hash = 32%nat ->
  put_hash st hash = concat (map out_word st).
Proof.
  intros Hs Hh.
  do 8 (destruct st as [|? st]; [discriminate Hs|]). destruct st; [|discriminate Hs].
  do 32 (destruct hash as [|? hash]; [discriminate Hh|]). destruct hash; [|discriminate Hh].
  unfold put_hash, out_word, u8, at_. cbn [seq fold_left Nat.add Nat.mul insert list_insert nth map concat app].
  by rewrite !(Z.land_ones _ 8) by lia.
Qed.

#[local] Opaque zero_to put_bitlen put_hash.

Lemma final_as_fsq c hash : length (q_data c) = 64%nat -> (q_datalen c < 64)%nat -> length hash = 32%nat ->
  let r := fsql_sha256_final c hash in
  fst r = fsq_sha256_final (as_fsq c) /\ length (q_data (snd r)) = 64%nat.
Proof.
  intros Hd Hn Hh. unfold fsql_sha256_final, fsq_sha256_final.
  cbn [as_fsq c_data c_datalen c_bitlen c_state].
  set (d1 := <[q_datalen c := 128]> (q_data c)).
  assert (H1 : length d1 = 64%nat) by (unfold d1; by rewrite length_insert).
  assert (Hz : forall d, length d = 64%nat -> zero_to d 0 56 = replicate 56 0 ++ drop 56 d).
  { intros d Hl. apply (zero_to_spec 56 d 0). lia. }
  destruct (q_datalen c <? 56)%nat; cbv zeta; cbn [fst snd q_state q_data].
  - rewrite (put_hash_spec _ _ (compress_length _ _) Hh). split; [reflexivity|].
    rewrite put_bitlen_spec, length_app, length_take, zero_to_length by (by rewrite zero_to_length).
    rewrite be64_length. lia.
  - rewrite Hz by (by rewrite zero_to_length).
    rewrite (put_hash_spec _ _ (compress_length _ _) Hh). split; [reflexivity|].
    assert (length (replicate 56 0 ++ drop 56 (zero_to d1 (S (q_datalen c)) 64)) = 64%nat).
    { rewrite length_app, length_replicate, length_drop, zero_to_length. lia. }
    rewrite put_bitlen_spec, length_app, length_take, be64_length by done. lia.
Qed.

Lemma stream_as_fsq c pieces hash : length (q_data c) = 64%nat -> length hash = 32%nat ->
  let r := fsql_sha256_final (fold_left fsql_fed pieces (fsql_sha256_init c)) hash in
  fst r = sha256_spec (concat pieces) /\ length (q_data (snd r)) = 64%nat.
Proof.
  intros Hd Hh.
  set (x := fold_left _ _ _).
  assert (Hx : as_fsq x = fold_left fed pieces (fsq_sha256_init (q_data c))).
  { unfold x. clear x. change (fsq_sha256_init (q_data c)) with (as_fsq (fsql_sha256_init c)).
    generalize (fsql_sha256_init c). clear. induction pieces as [|p ps IH]; intros y; [done|].
    cbn [fold_left]. by rewrite IH, update_as_fsq. }
  assert (Hi : sha_inv (as_fsq x) (concat pieces)).
  { rewrite Hx, <- (app_nil_l (concat pieces)). clear x Hx.
    generalize (init_inv (q_data c) Hd). generalize (fsq_sha256_init (q_data c)), ([] : list Z).
    induction pieces as [|p ps IH]; intros y m Hy; cbn [fold_left concat]; [by rewrite app_nil_r|].
    rewrite app_assoc. by apply IH, update_inv. }
  destruct Hi as [Hl Hn Hb Ht Hs] eqn:E.
  destruct (final_as_fsq x hash) as [H1 H2]; [done| |done|].
  - change (q_datalen x) with (c_datalen (as_fsq x)). rewrite Hn. apply Nat.mod_upper_bound. lia.
  - split; [|done]. rewrite H1. by apply final_spec.
Qed.

Lemma fsql_sha256_spec junk junk32 msg : length (q_data junk) = 64%nat -> length junk32 = 32%nat ->
  fsql_sha256 junk junk32 msg = sha256_spec msg.
Proof.
  intros Hj H32. rewrite <- (app_nil_r msg) at 2.
  by apply (stream_as_fsq junk [msg] junk32).
Qed.

Lemma pad_block_key_pad key x : (length key <= 64)%nat -> pad_block key x = key_pad key x.
Proof. intros. unfold pad_block, key_pad. by rewrite drop_replicate. Qed.

Lemma sha256_spec_length m : length (sha256_spec m) = 32%nat.
Proof. rewrite <- (sha256_correct (replicate 64 0)) by done. apply final_digest. Qed.

Lemma fsql_hmac_spec junk junk32 key msg : length (q_data junk) = 64%nat -> length junk32 = 32%nat ->
  fsql_hmac_sha256 junk junk32 key msg = hmac_spec key msg.
Proof.
  intros Hj H32. unfold fsql_hmac_sha256, hmac_spec.
  set (p := if (64 <? length key)%nat
            then fsql_sha256_final (fsql_fed (fsql_sha256_init junk) key) junk32 else (key, junk)).
  set (k := if (64 <? length key)%nat then sha256_spec key else key).
  assert (Hp : fst p = k /\ length (q_data (snd p)) = 64%nat /\ (length k <= 64)%nat).
  { unfold p, k. destruct (64 <? length key)%nat eqn:E; [|apply Nat.ltb_ge in E; done].
    destruct (stream_as_fsq junk [key] junk32 Hj H32) as [H1 H2]. cbn [concat] in H1. rewrite app_nil_r in H1.
    rewrite sha256_spec_length. split_and!; [done|done|lia]. }
  destruct p as [k' c]. cbn [fst snd] in Hp. destruct Hp as (-> & Hc & Hk).
  rewrite !pad_block_key_pad by done.
  destruct (stream_as_fsq c [key_pad k 54; msg] junk32 Hc H32) as [H1 H2].
  cbn [fold_left concat] in H1, H2. rewrite app_nil_r in H1.
  destruct (fsql_sha256_final _ junk32) as [inner c']. cbn [fst snd] in H1, H2. subst inner.
  destruct (stream_as_fsq c' [key_pad k 92; sha256_spec (key_pad k 54 ++ msg)] junk32 H2 H32) as [H3 _].
  cbn [fold_left concat] in H3. by rewrite app_nil_r in H3.
Qed.

(** The implementation of the interface. *)
#[local] Abbreviation ctx0 := {| q_data := replicate 64 0; q_datalen := 0; q_bitlen := 0; q_state := [] |}.
Lemma spec_digest m : length (sha256_spec m) = 32%nat /\ bytes_ok (sha256_spec m).
Proof. rewrite <- (sha256_correct (replicate 64 0)) by done. apply final_digest. Qed.
#[export] Program Instance fsql_digest : Digest :=
  {| sha256 := fsql_sha256 ctx0 (replicate 32 0); hmac := fsql_hmac_sha256 ctx0 (replicate 32 0) |}.
Next Obligation. intros m. rewrite fsql_sha256_spec by done. apply spec_digest. Qed.
Next Obligation. intros k m. rewrite fsql_hmac_spec by done. apply spec_digest. Qed.

(** A digest that is cheap to evaluate, for the examples: the theorems hold
    for any. *)
Definition checksum (m : list Z) : list Z := le_bytes 32 (fold_left (fun a b => (a * 257 + b + 1) mod 2147483647) m 7).
Definition demo_digest : Digest.
Proof.
  refine {| sha256 := checksum; hmac := fun k m => checksum (k ++ m) |}; intros; split; unfold checksum;
    first [apply le_bytes_length|apply le_bytes_ok].
Defined.

(** ** Properties *)

(** The two vendored digests agree: the ledger's copy and the protocol's
    copy compute the same SHA-256 and the same HMAC on every message and key,
    whatever their uninitialised buffers held. *)
Theorem digest_copies_agree junk junk32 junk' key msg :
  length (q_data junk) = 64%nat -> length junk32 = 32%nat -> length junk' = 64%nat ->
  fsql_sha256 junk junk32 msg = fsq_sha256 junk' msg /\
  fsql_hmac_sha256 junk junk32 key msg = fsq_hmac_sha256 junk' key msg.
Proof.
  intros Hj H32 Hj'. rewrite fsql_sha256_spec, fsql_hmac_spec, sha256_correct by done. split; [done|].
  unfold fsq_hmac_sha256, hmac_spec. cbv zeta. rewrite sha256_correct by done.
  assert (H2 : forall a b, fsq_sha256_final (fed
    (fed (fsq_sha256_init junk') a) b) = sha256_spec (a ++ b)).
  { intros a b. apply final_spec, update_inv, (update_inv _ []), init_inv, Hj'. }
  by rewrite !H2.
Qed.

Lemma digest_copies_agree_witness :
  fsql_sha256 ctx0 (replicate 32 9) (bs "abc") = fsq_sha256 (replicate 64 7) (bs "abc") /\
  fsql_hmac_sha256 ctx0 (replicate 32 9) (bs "k") (bs "abc") = fsq_hmac_sha256 (replicate 64 7) (bs "k") (bs "abc").
Proof. by apply (digest_copies_agree ctx0 (replicate 32 9) (replicate 64 7) (bs "k") (bs "abc")). Defined.
