(* ===== verification/Enterprise.v ===== *)
(** * The enterprise tier's settings and library loader
    (src/fractalsql_enterprise.c, the activation gating)

    The effective settings with their boot-environment fallback, the reload
    path (check, then apply), the Ed25519 signature gate and the one-time load
    of the enterprise library.  The POSIX branches.  OpenSSL's verification and
    the dynamic linker are parameters; what the operating system answers at each
    step is an oracle, so the file behind a path may change between two reads. *)

From stdpp Require Import gmap.
From S2P Require Import Prelude Config DaemonConf Daemon.

(** What [dlopen] mapped: the bytes, and the configured path they came for. *)
Record ent_lib_handle := { h_path : list Z; h_image : list Z }.

(** The file-scope state.  A [char *] that may be NULL is an option. *)
Record ent := {
  g_ent_handle : option ent_lib_handle;
  g_ent_attempted : bool;
  g_ent_loaded : bool;
  g_ent_lib : option (list Z);
  g_ent_ledger_path : option (list Z);
  g_ent_ledger_key : option (list Z);
  g_ent_require_sig : bool;
  g_ent_env_lib : option (list Z);
  g_ent_env_ledger_path : option (list Z);
  g_ent_env_ledger_key : option (list Z);
  g_ent_env_require_sig : bool;
  g_ent_env_captured : bool
}.
Definition ent0 : ent :=
  {| g_ent_handle := None; g_ent_attempted := false; g_ent_loaded := false;
     g_ent_lib := None; g_ent_ledger_path := None; g_ent_ledger_key := None; g_ent_require_sig := false;
     g_ent_env_lib := None; g_ent_env_ledger_path := None; g_ent_env_ledger_key := None;
     g_ent_env_require_sig := false; g_ent_env_captured := false |}.

(** [ent_dup_or]: [None] is the return -1; [ok] is whether strdup succeeds. *)
Definition ent_dup_or (ok : bool) (s : option (list Z)) : option (option (list Z)) :=
  match s with
  | None => Some None
  | Some v => if ok then Some (Some v) else None
  end.
(** The value left in [*out]: NULL when the copy failed. *)
Definition dup_out (ok : bool) (s : option (list Z)) : option (list Z) := default None (ent_dup_or ok s).

Definition starts0 (v : list Z) : bool := at_ v 0 =? 48.

(** What [dlopen]ing and reading a library sees of the system.  [None] for the
    library's bytes stands for any of the failures on the way (open, seek,
    tell, allocation, a short read). *)
Record os := {
  os_sig : option (list Z);          (* the bytes of <path>.sig *)
  os_so : option (list Z);           (* the bytes read from the path *)
  os_evp : bool;                     (* the two EVP objects are allocated *)
  os_evp_init : bool;                (* EVP_DigestVerifyInit succeeds *)
  os_memfd : option nat;             (* memfd_create succeeds; bytes written to it *)
  os_tmpdir : option (list Z);       (* getenv("TMPDIR") *)
  os_tmp_ok : bool;                  (* mkstemp, fchmod, fdopen, fwrite, fclose *)
  os_tmp_image : list Z -> list Z;   (* what the loader maps from the private copy *)
  os_path_image : option (list Z)    (* what the loader finds at the path, later *)
}.

Inductive ent_sig_result_t := ENT_SIG_OK | ENT_SIG_MISSING | ENT_SIG_INVALID | ENT_SIG_IOERROR.
#[export] Instance ent_sig_result_eq_dec : EqDecision ent_sig_result_t.
Proof. solve_decision. Defined.

Definition FSQL_ENTERPRISE_PUBKEY : list Z :=
  [213; 246; 8; 165; 139; 30; 183; 229; 154; 203; 143; 171; 128; 53; 157; 88; 63; 78; 209; 209; 162; 156;
   51; 107; 203; 75; 67; 207; 241; 7; 127; 203].
Definition FSQL_REASONING_PLUGIN_PUBKEY : list Z :=
  [187; 36; 121; 37; 132; 232; 155; 29; 27; 72; 73; 186; 112; 29; 161; 113; 163; 79; 138; 41; 71; 131; 209;
   212; 116; 223; 155; 7; 68; 197; 148; 83].

(** The eight required symbols. *)
Definition ent_symbols : list (list Z) :=
  [bs "fsql_ledger_flush"; bs "fsql_ledger_load"; bs "fsql_ledger_compact"; bs "fsql_ledger_reset_soft";
   bs "fsql_ledger_reset_hard"; bs "fsql_ledger_truth_count"; bs "fsql_ledger_shadow_count";
   bs "fsql_audit_unpack"].

Section Loader.
Context (getenv : list Z -> option (list Z)).
Context (EVP_DigestVerify : list Z -> list Z -> list Z -> bool).   (* public key, signature, message *)
Context (dl_ok : list Z -> bool) (dl_sym : list Z -> list Z -> bool).

Definition ent_env_flag (name : list Z) : bool :=
  match getenv name with
  | Some v => negb (at_ v 0 =? 0) && negb (starts0 v)
  | None => false
  end.

(** [dup k] is whether the k-th strdup of the call succeeds. *)
Definition ent_env_capture_locked (dup : nat -> bool) (s : ent) : ent :=
  if g_ent_env_captured s then s else
  let elib := dup_out (dup 0%nat) (getenv (bs "FRACTALSQL_ENTERPRISE_LIB")) in
  let epath := dup_out (dup 1%nat) (getenv (bs "FRACTALSQL_ENTERPRISE_LEDGER_PATH")) in
  let ekey := dup_out (dup 2%nat) (getenv (bs "FRACTALSQL_ENTERPRISE_LEDGER_KEY")) in
  let esig := match getenv (bs "FRACTALSQL_ENTERPRISE_REQUIRE_SIGNATURE") with
              | None => true
              | Some rq => if at_ rq 0 =? 0 then true else negb (starts0 rq)
              end in
  {| g_ent_handle := g_ent_handle s; g_ent_attempted := g_ent_attempted s; g_ent_loaded := g_ent_loaded s;
     g_ent_lib := dup_out (dup 3%nat) elib; g_ent_ledger_path := dup_out (dup 4%nat) epath;
     g_ent_ledger_key := dup_out (dup 5%nat) ekey; g_ent_require_sig := esig;
     g_ent_env_lib := elib; g_ent_env_ledger_path := epath; g_ent_env_ledger_key := ekey;
     g_ent_env_require_sig := esig; g_ent_env_captured := true |}.

(** ** The signature gate *)

(** The result and, on [ENT_SIG_OK], the verified bytes. *)
Definition ent_verify_signature (o : os) (so_path pubkey : list Z) : ent_sig_result_t * list Z :=
  if 4096 <=? Z.of_nat (length (so_path ++ bs ".sig")) then (ENT_SIG_IOERROR, [])
  else match os_sig o with
  | None => (ENT_SIG_MISSING, [])
  | Some sig =>
    if negb (length sig =? 64)%nat then (ENT_SIG_INVALID, [])
    else match os_so o with
    | None => (ENT_SIG_IOERROR, [])
    | Some so =>
      if negb (os_evp o) then (ENT_SIG_IOERROR, [])
      else if os_evp_init o && EVP_DigestVerify pubkey sig so then (ENT_SIG_OK, so)
      else (ENT_SIG_INVALID, [])
    end
  end.

(** [None]: refused.  [Some None]: may be loaded, unverified.  [Some (Some b)]:
    verified, load the bytes [b]. *)
Definition ent_signature_gate (o : os) (path : list Z) (require : bool) : option (option (list Z)) :=
  let '(sig, bytes) := ent_verify_signature o path FSQL_ENTERPRISE_PUBKEY in
  match sig with
  | ENT_SIG_INVALID => None
  | ENT_SIG_MISSING => if require then None else Some None
  | ENT_SIG_IOERROR => if require then None else Some None
  | ENT_SIG_OK => Some (Some bytes)
  end.

Definition dlopen (image : option (list Z)) : option (list Z) :=
  match image with Some b => if dl_ok b then Some b else None | None => None end.

(** Load the verified bytes from a memfd, or else from a private copy. *)
Definition ent_dlopen_verified_copy (o : os) (bytes : list Z) : option (list Z) :=
  let tmp :=
    let dir := match os_tmpdir o with Some d => if at_ d 0 =? 0 then bs "/tmp" else d | None => bs "/tmp" end in
    if 4096 <=? Z.of_nat (length (dir ++ bs "/.fractalsql-ent-XXXXXX")) then None
    else if os_tmp_ok o then dlopen (Some (os_tmp_image o bytes)) else None in
  match os_memfd o with
  | Some off => if (off =? length bytes)%nat then dlopen (Some bytes) else tmp
  | None => tmp
  end.

Definition ent_resolve_symbols (h : list Z) : bool := forallb (dl_sym h) ent_symbols.

Definition set_attempted (b : bool) (s : ent) : ent :=
  {| g_ent_handle := g_ent_handle s; g_ent_attempted := b; g_ent_loaded := g_ent_loaded s;
     g_ent_lib := g_ent_lib s; g_ent_ledger_path := g_ent_ledger_path s; g_ent_ledger_key := g_ent_ledger_key s;
     g_ent_require_sig := g_ent_require_sig s; g_ent_env_lib := g_ent_env_lib s;
     g_ent_env_ledger_path := g_ent_env_ledger_path s; g_ent_env_ledger_key := g_ent_env_ledger_key s;
     g_ent_env_require_sig := g_ent_env_require_sig s; g_ent_env_captured := g_ent_env_captured s |}.
Definition set_loaded (h : ent_lib_handle) (s : ent) : ent :=
  {| g_ent_handle := Some h; g_ent_attempted := g_ent_attempted s; g_ent_loaded := true;
     g_ent_lib := g_ent_lib s; g_ent_ledger_path := g_ent_ledger_path s; g_ent_ledger_key := g_ent_ledger_key s;
     g_ent_require_sig := g_ent_require_sig s; g_ent_env_lib := g_ent_env_lib s;
     g_ent_env_ledger_path := g_ent_env_ledger_path s; g_ent_env_ledger_key := g_ent_env_ledger_key s;
     g_ent_env_require_sig := g_ent_env_require_sig s; g_ent_env_captured := g_ent_env_captured s |}.

Definition ensure_enterprise_lib (dup : nat -> bool) (o : os) (s : ent) : bool * ent :=
  if g_ent_loaded s then (true, s)
  else if g_ent_attempted s then (false, s)
  else
    let s := ent_env_capture_locked dup (set_attempted true s) in
    match g_ent_lib s with
    | None => (false, s)
    | Some path =>
      if at_ path 0 =? 0 then (false, s)
      else match ent_signature_gate o path (g_ent_require_sig s) with
      | None => (false, s)
      | Some verified =>
        let h := match verified with
                 | Some bytes => ent_dlopen_verified_copy o bytes
                 | None => dlopen (os_path_image o)
                 end in
        match h with
        | None => (false, s)
        | Some image =>
          if ent_resolve_symbols image then (true, set_loaded {| h_path := path; h_image := image |} s)
          else (false, s)
        end
      end
    end.

(** Each refusal is one of the function's messages. *)
Inductive plugin_refusal := P_no_path | P_invalid | P_missing | P_ioerror.
(** [None] is the return true; [Some e] the refusal. *)
Definition fractal_plugin_verify (o : os) (path : option (list Z)) : option plugin_refusal :=
  let require := match getenv (bs "FSQL_REASONING_REQUIRE_SIGNATURE") with
                 | Some rq => negb (starts0 rq) | None => true end in
  let p := default [] path in
  if at_ p 0 =? 0 then (if negb require then None else Some P_no_path)
  else match fst (ent_verify_signature o p FSQL_REASONING_PLUGIN_PUBKEY) with
       | ENT_SIG_OK => None
       | ENT_SIG_INVALID => Some P_invalid
       | ENT_SIG_MISSING => if negb require then None else Some P_missing
       | ENT_SIG_IOERROR => if negb require then None else Some P_ioerror
       end.

(** ** The configuration surface *)

(** [Some v]: 0 with the value (cut to the buffer); [None]: -1. *)
Definition fractalsql_enterprise_config_value (dup : nat -> bool) (name : list Z) (outcap : nat) (s : ent)
    : option (list Z) * ent :=
  if (outcap =? 0)%nat then (None, s) else
  let s := ent_env_capture_locked dup s in
  let v := if bytes_eqb name (bs "enterprise_lib") then g_ent_lib s
           else if bytes_eqb name (bs "enterprise_ledger_path") then g_ent_ledger_path s
           else if bytes_eqb name (bs "enterprise_ledger_key") then g_ent_ledger_key s
           else if bytes_eqb name (bs "enterprise_require_signature") then
             Some (if g_ent_require_sig s then bs "1" else bs "0")
           else None in
  match v with
  | Some v => if at_ v 0 =? 0 then (None, s) else (Some (take (outcap - 1) v), s)
  | None => (None, s)
  end.

(** ** The reload path.  The daemon hands over pointers into its parsed
    configuration. *)

Definition lib_bit : Z := prov_bit 14.
Definition path_bit : Z := prov_bit 15.
Definition key_bit : Z := prov_bit 16.
Definition sig_bit : Z := prov_bit 17.

(** [true] is the return 0. *)
Definition fractalsql_enterprise_check_provider (dup : nat -> bool) (c : fsq_config) (s : ent) : bool * ent :=
  let s := ent_env_capture_locked dup s in
  let cur := default [] (g_ent_lib s) in
  (negb (g_ent_loaded s && has_bit (prov_present c) lib_bit && negb (at_ cur 0 =? 0) &&
         negb (bytes_eqb (str_of c (bs "enterprise_lib")) cur)), s).

Definition pick (c : fsq_config) (bit : Z) (key : list Z) (env : option (list Z)) : option (list Z) :=
  if has_bit (prov_present c) bit then Some (str_of c key) else env.

Definition fractalsql_enterprise_apply_provider (dup : nat -> bool) (c : fsq_config) (s : ent) : bool * ent :=
  let s := ent_env_capture_locked dup s in
  match ent_dup_or (dup 6%nat) (pick c lib_bit (bs "enterprise_lib") (g_ent_env_lib s)),
        ent_dup_or (dup 7%nat) (pick c path_bit (bs "enterprise_ledger_path") (g_ent_env_ledger_path s)),
        ent_dup_or (dup 8%nat) (pick c key_bit (bs "enterprise_ledger_key") (g_ent_env_ledger_key s)) with
  | Some nlib, Some npath, Some nkey =>
    let nsig := if has_bit (prov_present c) sig_bit
                then default false (c_bool c !! bs "enterprise_require_signature")
                else g_ent_env_require_sig s in
    let lib_changed := negb (bool_decide (nlib = g_ent_lib s)) in
    if lib_changed && g_ent_loaded s then (false, s)
    else (true,
      {| g_ent_handle := g_ent_handle s;
         g_ent_attempted := if g_ent_loaded s then g_ent_attempted s else false;
         g_ent_loaded := g_ent_loaded s; g_ent_lib := nlib; g_ent_ledger_path := npath;
         g_ent_ledger_key := nkey; g_ent_require_sig := nsig; g_ent_env_lib := g_ent_env_lib s;
         g_ent_env_ledger_path := g_ent_env_ledger_path s; g_ent_env_ledger_key := g_ent_env_ledger_key s;
         g_ent_env_require_sig := g_ent_env_require_sig s; g_ent_env_captured := g_ent_env_captured s |})
  | _, _, _ => (false, s)
  end.

(** What the ledger reads of the settings, under the same lock. *)
Definition ledger_path (s : ent) : list Z :=
  match g_ent_ledger_path s with
  | Some p => if at_ p 0 =? 0 then bs "fractalsql_ledger.dat" else p
  | None => bs "fractalsql_ledger.dat"
  end.
Definition ledger_key (s : ent) : option (list Z) :=
  match g_ent_ledger_key s with Some k => if at_ k 0 =? 0 then None else Some k | None => None end.

(** What can happen to the settings, each under the lock. *)
Inductive ent_event :=
  | Ev_ensure (dup : nat -> bool) (o : os)
  | Ev_config (dup : nat -> bool) (name : list Z) (outcap : nat)
  | Ev_check (dup : nat -> bool) (c : fsq_config)
  | Ev_apply (dup : nat -> bool) (c : fsq_config).
Definition ent_step (s : ent) (e : ent_event) : ent :=
  match e with
  | Ev_ensure dup o => snd (ensure_enterprise_lib dup o s)
  | Ev_config dup name outcap => snd (fractalsql_enterprise_config_value dup name outcap s)
  | Ev_check dup c => snd (fractalsql_enterprise_check_provider dup c s)
  | Ev_apply dup c => snd (fractalsql_enterprise_apply_provider dup c s)
  end.
Definition ent_run (evs : list ent_event) : ent := fold_left ent_step evs ent0.

(** ** Lemmas *)

(** While a library is loaded its handle is the configured library's, with
    every symbol resolved; otherwise there is no handle. *)
Definition ent_inv (s : ent) : Prop :=
  if g_ent_loaded s then
    g_ent_env_captured s = true /\
    exists h, g_ent_handle s = Some h /\ g_ent_lib s = Some (h_path h) /\ ent_resolve_symbols (h_image h) = true
  else g_ent_handle s = None.

Lemma capture_inv dup s : ent_inv s -> ent_inv (ent_env_capture_locked dup s) /\
  (g_ent_loaded s = true -> ent_env_capture_locked dup s = s).
Proof.
  unfold ent_inv, ent_env_capture_locked. intros H.
  destruct (g_ent_env_captured s) eqn:E; [by rewrite E|]. cbn. destruct (g_ent_loaded s); [|done].
  by destruct H as [? _].
Qed.

Lemma gate_sound_lib o path req v : ent_signature_gate o path req = Some v ->
  match v with
  | Some b => os_so o = Some b /\
      exists sig, os_sig o = Some sig /\ length sig = 64%nat /\ EVP_DigestVerify FSQL_ENTERPRISE_PUBKEY sig b = true
  | None => req = false
  end.
Proof.
  unfold ent_signature_gate, ent_verify_signature.
  destruct (4096 <=? _); [by destruct req; intros; simplify_eq|].
  destruct (os_sig o) as [sig|]; [|by destruct req; intros; simplify_eq].
  destruct (length sig =? 64)%nat eqn:El; cbn [negb]; [|done].
  destruct (os_so o) as [so|]; [|by destruct req; intros; simplify_eq].
  destruct (os_evp o); cbn [negb]; [|by destruct req; intros; simplify_eq].
  destruct (os_evp_init o && _) eqn:Ev; [|done]. intros. simplify_eq. bools.
  apply Nat.eqb_eq in El. eauto.
Qed.

(** The private copy is what the loader maps. *)
Definition tmp_private (o : os) : Prop := forall b, os_tmp_image o b = b.

Lemma dlopen_some i b : dlopen i = Some b -> i = Some b.
Proof. unfold dlopen. destruct i as [x|]; [|done]. by destruct (dl_ok x); intros; simplify_eq. Qed.
Lemma verified_copy o b image : tmp_private o -> ent_dlopen_verified_copy o b = Some image -> image = b.
Proof.
  unfold ent_dlopen_verified_copy. intros Ht.
  assert (Hd : forall x, (if 4096 <=? x then None else if os_tmp_ok o then dlopen (Some (os_tmp_image o b)) else None) = Some image ->
    image = b).
  { intros x. destruct (4096 <=? x); [done|]. destruct (os_tmp_ok o); [|done]. intros H%dlopen_some.
    simplify_eq. apply Ht. }
  destruct (os_memfd o) as [n|]; [|apply Hd]. destruct (n =? length b)%nat; [|apply Hd].
  intros H%dlopen_some. by simplify_eq.
Qed.

Lemma ensure_cases dup o s b s' : ent_inv s -> ensure_enterprise_lib dup o s = (b, s') ->
  (g_ent_loaded s = b /\ s' = s) \/
  (g_ent_loaded s = false /\ b = false /\ s' = ent_env_capture_locked dup (set_attempted true s)) \/
  (g_ent_loaded s = false /\ b = true /\ exists h v, let s1 := ent_env_capture_locked dup (set_attempted true s) in
     s' = set_loaded h s1 /\ g_ent_lib s1 = Some (h_path h) /\ g_ent_env_captured s1 = true /\
     ent_resolve_symbols (h_image h) = true /\
     ent_signature_gate o (h_path h) (g_ent_require_sig s1) = Some v /\
     match v with Some bytes => ent_dlopen_verified_copy o bytes | None => dlopen (os_path_image o) end
       = Some (h_image h)).
Proof.
  intros Hi. unfold ensure_enterprise_lib. destruct (g_ent_loaded s) eqn:El; [intros; simplify_eq; auto|].
  destruct (g_ent_attempted s); [intros; simplify_eq; auto|].
  set (s1 := ent_env_capture_locked _ _).
  assert (Hc : g_ent_env_captured s1 = true).
  { unfold s1, ent_env_capture_locked. destruct (g_ent_env_captured (set_attempted true s)) eqn:E; done. }
  clearbody s1.
  destruct (g_ent_lib s1) as [path|] eqn:Ep; [|intros; simplify_eq; auto 6].
  destruct (at_ path 0 =? 0); [intros; simplify_eq; auto 6|].
  destruct (ent_signature_gate _ _ _) as [v|] eqn:Eg; [|intros; simplify_eq; auto 6].
  set (h := match v with Some _ => _ | None => _ end). destruct h as [image|] eqn:Eh; [|intros; simplify_eq; auto 6].
  destruct (ent_resolve_symbols image) eqn:Er; intros; simplify_eq; [|auto 6].
  right. right. split_and!; [done|done|]. exists {| h_path := path; h_image := image |}, v. cbn. done.
Qed.

Lemma ent_step_inv s e : ent_inv s -> ent_inv (ent_step s e).
Proof.
  intros Hi. destruct e as [dup o|dup name cap|dup c|dup c]; cbn [ent_step].
  - destruct (ensure_enterprise_lib dup o s) as [b s'] eqn:E.
    destruct (ensure_cases _ _ _ _ _ Hi E) as [[_ ->]|[(Hl & _ & ->)|(Hl & _ & h & v & -> & Hp & Hc & Hr & _)]];
      cbn [snd]; [done| |].
    + apply capture_inv. unfold ent_inv in *. cbn. rewrite Hl in *. done.
    + unfold ent_inv. cbn. split; [done|]. exists h. done.
  - unfold fractalsql_enterprise_config_value. destruct (cap =? 0)%nat; [done|].
    destruct (capture_inv dup s Hi) as [H _]. revert H.
    generalize (ent_env_capture_locked dup s). intros s1 H. repeat case_match; done.
  - by apply capture_inv.
  - unfold fractalsql_enterprise_apply_provider. destruct (capture_inv dup s Hi) as [H _]. revert H.
    generalize (ent_env_capture_locked dup s). intros s1 H.
    destruct (ent_dup_or _ _) as [nl|]; [|done]. destruct (ent_dup_or _ _) as [np|]; [|done].
    destruct (ent_dup_or _ _) as [nk|]; [|done].
    destruct (negb _ && _) eqn:E; [done|]. cbn [snd]. unfold ent_inv in *. cbn.
    destruct (g_ent_loaded s1); [|done]. rewrite andb_true_r in E. bools. by subst nl.
Qed.
Lemma ent_run_inv evs : ent_inv (ent_run evs).
Proof.
  unfold ent_run. assert (H : ent_inv ent0) by done. revert H. generalize ent0.
  induction evs as [|e evs IH]; intros s H; [done|]. cbn [fold_left]. by apply IH, ent_step_inv.
Qed.
End Loader.

(** The enterprise tier as one of the daemon's three provider consumers; the
    other two check nothing ([return 0]) and apply is theirs to define. *)
Section Consumer.
Context {X : Type} (getenv : list Z -> option (list Z)) (dup : nat -> bool).
Context (cognition_apply_provider textsql_apply_provider : fsq_config -> X -> X * bool).

Instance ent_consumers : Consumers (ent * X) := {
  cognition_check c w := true;
  textsql_check c w := true;
  enterprise_check c w := fst (fractalsql_enterprise_check_provider getenv dup c (fst w));
  cognition_apply c w := let '(x, ok) := cognition_apply_provider c (snd w) in ((fst w, x), ok);
  textsql_apply c w := let '(x, ok) := textsql_apply_provider c (snd w) in ((fst w, x), ok);
  enterprise_apply c w :=
    let '(ok, s) := fractalsql_enterprise_apply_provider getenv dup c (fst w) in ((s, snd w), ok)
}.

(** A reload can be half applied without any allocation failing: when
    the loaded library's key is removed from the file and the environment
    names another library (or none), every check passes, the cognition and
    text-to-SQL tiers take the new settings, and only then is the enterprise
    tier's swap refused. *)
Theorem reload_half_applied c s x x1 x2 :
  (forall k, dup k = true) ->
  g_ent_env_captured s = true -> g_ent_loaded s = true ->
  has_bit (prov_present c) lib_bit = false -> g_ent_env_lib s <> g_ent_lib s ->
  validate_provider_cfg c = true ->
  cognition_apply_provider c x = (x1, true) -> textsql_apply_provider c x1 = (x2, true) ->
  daemon_check_provider c (s, x) = true /\ daemon_apply_provider c (s, x) = ((s, x2), false).
Proof.
  intros Hd Hc Hl Hb He Hv H1 H2.
  assert (Hcap : ent_env_capture_locked getenv dup s = s) by (unfold ent_env_capture_locked; by rewrite Hc).
  split.
  - unfold daemon_check_provider. rewrite Hv. cbn. unfold fractalsql_enterprise_check_provider.
    rewrite Hcap. by rewrite Hl, Hb.
  - unfold daemon_apply_provider. cbn. rewrite H1. cbn. rewrite H2. cbn.
    unfold fractalsql_enterprise_apply_provider. rewrite Hcap, !Hd.
    assert (Hx : forall o, ent_dup_or true o = Some o) by (by intros [v|]). rewrite !Hx.
    rewrite bool_decide_eq_false_2 by (unfold pick; by rewrite Hb). by rewrite Hl.
Qed.
End Consumer.

(** ** Properties *)

(** C25: the signature gate: whatever happened before, when a call finds the
    library loaded its handle is the configured library's with every required
    symbol, and at the load the mapped bytes either carried a valid 64-byte
    signature under the built-in key, even if the file changed in between, or
    unsigned libraries were allowed. *)
Theorem load_gate_sound getenv Verify dl_ok dl_sym evs dup o s s' :
  s = ent_run getenv Verify dl_ok dl_sym evs -> tmp_private o ->
  ensure_enterprise_lib getenv Verify dl_ok dl_sym dup o s = (true, s') ->
  exists h, g_ent_handle s' = Some h /\ g_ent_lib s' = Some (h_path h) /\ ent_resolve_symbols dl_sym (h_image h) = true /\
  (g_ent_loaded s = true -> s' = s) /\
  (g_ent_loaded s = false ->
     (exists sig, os_sig o = Some sig /\ length sig = 64%nat /\
                  Verify FSQL_ENTERPRISE_PUBKEY sig (h_image h) = true) \/
     (g_ent_require_sig s' = false /\ os_path_image o = Some (h_image h))).
Proof.
  intros Hs Ht He. pose proof (ent_run_inv getenv Verify dl_ok dl_sym evs) as Hi. rewrite <- Hs in Hi. clear Hs.
  destruct (ensure_cases _ _ _ _ _ _ _ _ _ Hi He) as [[Hl ->]|[(Hl & ? & _)|(Hl & _ & h & v & -> & Hp & Hc & Hr & Hg & Hv)]]; [|done|].
  - pose proof Hi as Hi'. unfold ent_inv in Hi'. rewrite Hl in Hi'. destruct Hi' as (_ & h & H1 & H2 & H3). exists h.
    rewrite Hl. done.
  - exists h. split_and!; [done|done|done|by rewrite Hl|]. intros _. apply gate_sound_lib in Hg.
    destruct v as [b|]; cbn.
    + left. destruct Hg as (_ & sig & H1 & H2 & H3). apply verified_copy in Hv; [|done]. subst b. eauto.
    + right. by apply dlopen_some in Hv.
Qed.

(** Once loaded, the library never changes: no later event replaces the
    handle or repoints [g_ent_lib], so the reported library is the mapped one. *)
Theorem library_pinned getenv Verify dl_ok dl_sym evs evs' :
  let s := ent_run getenv Verify dl_ok dl_sym evs in
  let s' := ent_run getenv Verify dl_ok dl_sym (evs ++ evs') in
  g_ent_loaded s = true ->
  g_ent_loaded s' = true /\ g_ent_handle s' = g_ent_handle s /\ g_ent_lib s' = g_ent_lib s.
Proof.
  cbv zeta. unfold ent_run. rewrite fold_left_app.
  pose proof (ent_run_inv getenv Verify dl_ok dl_sym evs) as Hi. unfold ent_run in Hi. revert Hi.
  generalize (fold_left (ent_step getenv Verify dl_ok dl_sym) evs ent0). clear evs.
  induction evs' as [|e evs IH]; intros s Hi Hl; [done|]. cbn [fold_left].
  assert (Hstep : let s' := ent_step getenv Verify dl_ok dl_sym s e in
    g_ent_loaded s' = true /\ g_ent_handle s' = g_ent_handle s /\ g_ent_lib s' = g_ent_lib s).
  { destruct e as [dup o|dup name cap|dup c|dup c]; cbn [ent_step].
    - unfold ensure_enterprise_lib. rewrite Hl. done.
    - unfold fractalsql_enterprise_config_value. destruct (cap =? 0)%nat; [done|].
      destruct (capture_inv getenv dl_sym dup s Hi) as [_ ->]; [|done]. repeat case_match; done.
    - unfold fractalsql_enterprise_check_provider. destruct (capture_inv getenv dl_sym dup s Hi) as [_ ->]; done.
    - unfold fractalsql_enterprise_apply_provider. destruct (capture_inv getenv dl_sym dup s Hi) as [_ ->]; [|done].
      destruct (ent_dup_or _ _) as [nl|]; [|done]. destruct (ent_dup_or _ _) as [np|]; [|done].
      destruct (ent_dup_or _ _) as [nk|]; [|done]. destruct (negb _ && _) eqn:E; [done|]. cbn.
      rewrite Hl, andb_true_r in E. bools. by subst nl. }
  destruct Hstep as (H1 & H2 & H3).
  destruct (IH _ (ent_step_inv getenv Verify dl_ok dl_sym s e Hi) H1) as (H4 & H5 & H6).
  by rewrite H5, H6.
Qed.

(** *** Witnesses *)
#[local] Abbreviation demo_env := (fun n : list Z => if bytes_eqb n (bs "FRACTALSQL_ENTERPRISE_LIB") then Some (bs "/opt/e.so") else None).
#[local] Abbreviation demo_verify := (fun pub sig msg : list Z => bytes_eqb sig (take 64 (msg ++ replicate 64 0))).
#[local] Abbreviation demo_os := {| os_sig := Some (take 64 (bs "lib" ++ replicate 64 0)); os_so := Some (bs "lib"); os_evp := true;
  os_evp_init := true; os_memfd := Some 3%nat; os_tmpdir := None; os_tmp_ok := true;
  os_tmp_image := fun b => b; os_path_image := Some (bs "swapped") |}.
#[local] Abbreviation demo_dup := (fun _ : nat => true).
#[local] Abbreviation demo_ok := (fun _ : list Z => true).
#[local] Abbreviation demo_sym := (fun _ _ : list Z => true).

Lemma load_gate_sound_witness :
  exists h, g_ent_handle (snd (ensure_enterprise_lib demo_env demo_verify demo_ok demo_sym demo_dup demo_os ent0)) = Some h /\
    Some (h_image h) = os_so demo_os.
Proof.
  destruct (load_gate_sound demo_env demo_verify demo_ok demo_sym [] demo_dup demo_os ent0 _
    eq_refl (fun b => eq_refl) eq_refl) as (h & H & _).
  exists h. split; [exact H|]. vm_compute in H. injection H as <-. reflexivity.
Defined.

Lemma library_pinned_witness :
  let s' := ent_run demo_env demo_verify demo_ok demo_sym ([Ev_ensure demo_dup demo_os] ++ [Ev_apply demo_dup config0]) in
  g_ent_loaded s' = true /\
  g_ent_handle s' = g_ent_handle (ent_run demo_env demo_verify demo_ok demo_sym [Ev_ensure demo_dup demo_os]) /\
  g_ent_lib s' = g_ent_lib (ent_run demo_env demo_verify demo_ok demo_sym [Ev_ensure demo_dup demo_os]).
Proof. apply (library_pinned demo_env demo_verify demo_ok demo_sym [Ev_ensure demo_dup demo_os]). reflexivity. Defined.

#[local] Abbreviation demo_conf := (with_str (bs "enterprise_lib") (bs "/srv/new.so") lib_bit config0).
Lemma reload_half_applied_witness :
  let s := ent_run (fun _ => None) demo_verify demo_ok demo_sym [Ev_apply demo_dup demo_conf; Ev_ensure demo_dup demo_os] in
  let co := ent_consumers (fun _ => None) demo_dup (fun c (n : Z) => (n + 1, true)) (fun c n => (n + 1, true)) in
  @daemon_check_provider _ co config0 (s, 0) = true /\ @daemon_apply_provider _ co config0 (s, 0) = ((s, 2), false).
Proof.
  apply (reload_half_applied (fun _ => None) demo_dup (fun c (n : Z) => (n + 1, true)) (fun c n => (n + 1, true))
    config0 _ 0 1 2); [done|reflexivity|reflexivity|reflexivity|discriminate|reflexivity|reflexivity|reflexivity].
Defined.
