(* ===== verification/LedgerFmt.v ===== *)
(** * The ledger file's format (src/fractalsql_enterprise.c)

    The 9-byte file header, the records, the head file's text records and the
    encodings of the CSV mirror.  A file is the list of its bytes; reading a
    stream is taking a prefix of what is left of it, and each read of the
    ledger may fail. *)

From S2P Require Import Prelude Hmac.

Definition LEDGER_MAGIC : list Z := bs "FSQLLDGR".
Definition LEDGER_VERSION : Z := 1.
Definition LEDGER_HASH_LEN : nat := 32.
Definition LEDGER_MAX_BLOB_BYTES : Z := 64 * 1024 * 1024.
Definition LEDGER_MAX_KIND : Z := 16.

Definition FSQL_OK : Z := 0.
Definition FSQL_ESTORAGE : Z := -45.
Definition FSQL_ESTORAGE_UNAVAILABLE : Z := -46.
Definition FSQL_ESTORAGE_INTEGRITY : Z := -47.

(** ledger_record_t; [blob_len] is the length of the blob. *)
Record ledger_record_t := {
  r_kind : Z; r_has_mac : Z; r_sealed : Z;
  r_mac : list Z; r_prev_hash : list Z; r_entry_hash : list Z;
  r_updated : Z; r_blob : list Z
}.
#[export] Instance ledger_record_eq_dec : EqDecision ledger_record_t.
Proof. solve_decision. Defined.

(** A flag read from the file is true when it is not 0. *)
Definition has_mac (r : ledger_record_t) : bool := negb (r_has_mac r =? 0).

(** ** Reading *)

(** [fread(p, 1, n, fp) == n]: the bytes and the rest of the stream. *)
Definition fread (n : nat) (l : list Z) : option (list Z * list Z) :=
  if (n <=? length l)%nat then Some (take n l, drop n l) else None.

(** What a pass over the file may meet: an allocation or a read that fails.
    A read is told by the length of the stream before it, which no two reads
    of a pass share. *)
Record faults := { fl_malloc : Z -> bool; fl_read : nat -> bool }.

(** [fread] on a stream whose device may fail: no items, and [ferror]. *)
Definition fread_io (m : faults) (n : nat) (l : list Z) : option (list Z * list Z) :=
  if fl_read m (length l) then fread n l else None.

(** The fixed part of a record, with the length it claims for its blob. *)
Record rec_header := { h_rec : ledger_record_t; h_blen : Z }.

(** The return codes 0, -1 and 1. *)
Inductive header_res := HEof | HBad | HOk (h : rec_header) (rest : list Z).

(** A first field that reads short is the end of the file, whatever is left,
    unless [ferror] is set; every other short read is the code -1. *)
Definition ledger_read_record_header (m : faults) (l : list Z) : header_res :=
  match fread_io m 4 l with
  | None => if fl_read m (length l) then HEof else HBad
  | Some (kind, l) =>
    match
      '(blen, l) ← fread_io m 4 l; '(hm, l) ← fread_io m 1 l; '(sealed, l) ← fread_io m 1 l; '(_, l) ← fread_io m 2 l;
      '(mac, l) ← fread_io m LEDGER_HASH_LEN l; '(prev, l) ← fread_io m LEDGER_HASH_LEN l;
      '(hash, l) ← fread_io m LEDGER_HASH_LEN l; '(updated, l) ← fread_io m 8 l;
      Some ({| h_rec := {| r_kind := le_val kind; r_has_mac := le_val hm; r_sealed := le_val sealed;
                           r_mac := mac; r_prev_hash := prev; r_entry_hash := hash;
                           r_updated := s64 (le_val updated); r_blob := [] |};
               h_blen := le_val blen |}, l)
    with
    | Some (h, l) => HOk h l
    | None => HBad
    end
  end.

Definition with_blob (b : list Z) (r : ledger_record_t) : ledger_record_t :=
  {| r_kind := r_kind r; r_has_mac := r_has_mac r; r_sealed := r_sealed r; r_mac := r_mac r;
     r_prev_hash := r_prev_hash r; r_entry_hash := r_entry_hash r; r_updated := r_updated r; r_blob := b |}.

(** One turn of the three loops over the file: the header, the claimed length
    against the ceiling, the allocation, the blob. *)
Inductive rec_res :=
  | R_eof | R_hdr                       (* end of file; torn or unreadable header *)
  | R_len | R_mem | R_blob              (* implausible length; no memory; torn or unreadable blob *)
  | R_rec (r : ledger_record_t) (rest : list Z).
Definition read_record (m : faults) (l : list Z) : rec_res :=
  match ledger_read_record_header m l with
  | HEof => R_eof
  | HBad => R_hdr
  | HOk h l =>
    if h_blen h =? 0 then R_rec (h_rec h) l
    else if LEDGER_MAX_BLOB_BYTES <? h_blen h then R_len
    else if negb (fl_malloc m (h_blen h)) then R_mem
    else match fread_io m (Z.to_nat (h_blen h)) l with
         | None => R_blob
         | Some (b, l) => R_rec (with_blob b (h_rec h)) l
         end
  end.

(** ** Writing *)

Definition header_bytes : list Z := LEDGER_MAGIC ++ [LEDGER_VERSION].
(** The bytes [ledger_write_entry] appends for one record. *)
Definition record_bytes (r : ledger_record_t) : list Z :=
  le_bytes 4 (r_kind r) ++ le_bytes 4 (Z.of_nat (length (r_blob r))) ++ le_bytes 1 (r_has_mac r) ++
  le_bytes 1 (r_sealed r) ++ [0; 0] ++ r_mac r ++ r_prev_hash r ++ r_entry_hash r ++
  le_bytes 8 (u64 (r_updated r)) ++ r_blob r.

(** The stream after a valid magic and version, as each opener checks it. *)
Definition check_header (f : list Z) : option (list Z) :=
  match fread 8 f with
  | Some (magic, l) =>
    if bytes_eqb magic LEDGER_MAGIC then
      match l with v :: l => if v =? LEDGER_VERSION then Some l else None | [] => None end
    else None
  | None => None
  end.
Definition read_header (m : faults) (f : list Z) : option (list Z) :=
  if fl_read m (length f) then check_header f else None.

(** ** Text encodings *)

Definition hexd (n : Z) : Z := at_ (bs "0123456789abcdef") (Z.to_nat n).
Definition ledger_hex_encode (src : list Z) : list Z :=
  flat_map (fun b => [hexd (Z.land (Z.shiftr b 4) 15); hexd (Z.land b 15)]) src.
Definition ledger_hex_value (c : Z) : Z :=
  if (48 <=? c) && (c <=? 57) then c - 48
  else if (97 <=? c) && (c <=? 102) then c - 97 + 10
  else if (65 <=? c) && (c <=? 70) then c - 65 + 10 else -1.

Definition b64_alphabet : list Z :=
  bs "ABCDEFGHIJKLMNOPQRSTUVWXYZabcdefghijklmnopqrstuvwxyz0123456789+/".
Definition b64_char (v sh : Z) : Z := at_ b64_alphabet (Z.to_nat (Z.land (Z.shiftr v sh) 63)).
Fixpoint ledger_b64_encode (data : list Z) : list Z :=
  match data with
  | a :: b :: c :: r =>
      let v := Z.lor (Z.lor (Z.shiftl a 16) (Z.shiftl b 8)) c in
      b64_char v 18 :: b64_char v 12 :: b64_char v 6 :: b64_char v 0 :: ledger_b64_encode r
  | [a; b] =>
      let v := Z.lor (Z.shiftl a 16) (Z.shiftl b 8) in
      [b64_char v 18; b64_char v 12; b64_char v 6; 61]
  | [a] => let v := Z.shiftl a 16 in [b64_char v 18; b64_char v 12; 61; 61]
  | [] => []
  end.
Definition ledger_b64_len (len : Z) : Z := (len + 2) / 3 * 4.

(** ASCII case-insensitive equality. *)
Definition ledger_str_eq_ci (a b : list Z) : bool := bytes_eqb (map tolower a) (map tolower b).

(** ** The head file's records *)

Record ledger_head_rec_t := { hr_kind : Z; hr_rows : Z; hr_has_mac : bool; hr_mac : list Z }.
#[export] Instance head_rec_eq_dec : EqDecision ledger_head_rec_t.
Proof. solve_decision. Defined.

Definition blank (c : Z) : bool := (c =? 32) || (c =? 9).
Fixpoint skip_blank (p : list Z) : list Z :=
  match p with c :: r => if blank c then skip_blank r else p | [] => [] end.
(** At the terminator or the end of the line ([extra] for a comment). *)
Definition at_eol (p : list Z) : bool :=
  match p with [] => true | c :: _ => (c =? 10) || (c =? 13) end.
(** [strncmp(p, pre, n) == 0]: the rest behind the prefix. *)
Definition after_prefix (pre p : list Z) : option (list Z) :=
  if bytes_eqb (take (length pre) p) pre then Some (drop (length pre) p) else None.

(** A strtol that moved its end pointer. *)
Definition strtol_some (p : list Z) : option (Z * list Z) :=
  let '(v, r) := strtol p in if (length r <? length p)%nat then Some (v, r) else None.

(** The 32 digit pairs behind "mac=". *)
Fixpoint hex_pairs (n : nat) (p : list Z) : option (list Z * list Z) :=
  match n with
  | O => Some ([], p)
  | S n =>
      let hi := ledger_hex_value (at_ p 0) in
      let lo := ledger_hex_value (at_ p 1) in
      if (hi <? 0) || (lo <? 0) then None
      else '(m, p) ← hex_pairs n (drop 2 p); Some (u8 (Z.lor (Z.shiftl hi 4) lo) :: m, p)
  end.

Definition head_rec0 : ledger_head_rec_t :=
  {| hr_kind := -1; hr_rows := -1; hr_has_mac := false; hr_mac := replicate LEDGER_HASH_LEN 0 |}.
Definition head_finish (r : ledger_head_rec_t) : option ledger_head_rec_t :=
  if (0 <=? hr_kind r) && (0 <=? hr_rows r) then Some r else None.

(** One turn of the loop over the fields; [inr] leaves the function. *)
Definition head_field (s : list Z * ledger_head_rec_t)
    : (list Z * ledger_head_rec_t) + option ledger_head_rec_t :=
  let '(p, r) := s in
  match p with
  | [] => inr (head_finish r)
  | _ =>
    let p := skip_blank p in
    if at_eol p then inr (head_finish r)
    else match after_prefix (bs "kind=") p with
    | Some p =>
        match strtol_some p with
        | Some (v, p) => inl (p, {| hr_kind := s32 v; hr_rows := hr_rows r; hr_has_mac := hr_has_mac r; hr_mac := hr_mac r |})
        | None => inr None
        end
    | None =>
    match after_prefix (bs "rows=") p with
    | Some p =>
        match strtol_some p with
        | Some (v, p) => inl (p, {| hr_kind := hr_kind r; hr_rows := v; hr_has_mac := hr_has_mac r; hr_mac := hr_mac r |})
        | None => inr None
        end
    | None =>
    match after_prefix (bs "mac=") p with
    | Some p =>
        match hex_pairs LEDGER_HASH_LEN p with
        | Some (m, p) => inl (p, {| hr_kind := hr_kind r; hr_rows := hr_rows r; hr_has_mac := true; hr_mac := m |})
        | None => inr None
        end
    | None => inr None
    end end end
  end.

Definition ledger_head_parse (line : list Z) : option ledger_head_rec_t :=
  let p := skip_blank line in
  if isdigit (at_ p 0) then
    '(k, p) ← strtol_some p;
    let p := skip_blank p in
    if negb (isdigit (at_ p 0)) then None else
    '(c, p) ← strtol_some p;
    let p := skip_blank p in
    if at_eol p then Some {| hr_kind := s32 k; hr_rows := c; hr_has_mac := false; hr_mac := replicate LEDGER_HASH_LEN 0 |}
    else None
  else default None (while head_field (S (length p)) (p, head_rec0)).

(** One line of [ledger_head_write]. *)
Definition head_line (r : ledger_head_rec_t) : list Z :=
  bs "kind=" ++ dec_d (hr_kind r) ++ bs " rows=" ++ dec_d (hr_rows r) ++
  (if hr_has_mac r then bs " mac=" ++ ledger_hex_encode (hr_mac r) else []) ++ [10].

(** [fgets] with a 512-byte buffer, then the C string in it. *)
Fixpoint fgets (n : nat) (l : list Z) : list Z * list Z :=
  match n, l with
  | S n, c :: r => if c =? 10 then ([c], r) else let '(a, b) := fgets n r in (c :: a, b)
  | _, _ => ([], l)
  end.

Definition LEDGER_HEAD_MAX_RECS : nat := 17.
(** One turn of the loop over the lines. *)
Definition head_line_step (s : list Z * list ledger_head_rec_t)
    : (list Z * list ledger_head_rec_t) + option (list ledger_head_rec_t) :=
  let '(l, recs) := s in
  if (LEDGER_HEAD_MAX_RECS <=? length recs)%nat then inr (Some recs)
  else match l with
  | [] => inr (Some recs)
  | _ =>
    let '(line, l) := fgets 511 l in
    let line := cstr line in
    let q := skip_blank line in
    if at_eol q || (at_ q 0 =? 35) then inl (l, recs)
    else match ledger_head_parse line with
         | None => inr None
         | Some r => inl (l, recs ++ [r])
         end
  end.
(** The records of a head file's text; [None] is the return -1. *)
Definition head_records (f : list Z) : option (list ledger_head_rec_t) :=
  default None (while head_line_step (S (length f)) (f, [])).

Definition ledger_head_mac `{Digest} (kind rows : Z) (key : list Z) : option (list Z) :=
  let msg := bs "kind=" ++ dec_d kind ++ bs " rows=" ++ dec_d rows in
  if (64 <=? length msg)%nat then None else Some (hmac key msg).
