(* ===== verification/Ledger.v ===== *)
(** * The ledger's operations (src/fractalsql_enterprise.c)

    Append, read, verify, the torn-tail repair, the head file and the mirrors,
    over a file system that maps a path to its bytes.  Every open, allocation,
    seek, write, flush and read of the ledger consults an oracle ([io]), so
    each error path is a branch of the model; a write that fails may leave any
    prefix of its bytes.  (Reads of the head file and of the mirror that fail
    half-way are not modelled.)
    The process-wide lock makes each operation one step. *)

From stdpp Require Import gmap.
From S2P Require Import Prelude Hmac Enterprise LedgerFmt.

Record fs := { files : gmap (list Z) (list Z); anchors : list (list Z) }.
Definition set_file (p f : list Z) (w : fs) : fs := {| files := <[p := f]> (files w); anchors := anchors w |}.
Definition remove_file (p : list Z) (w : fs) : fs := {| files := delete p (files w); anchors := anchors w |}.

(** LEDGER_ANCHOR_OFF / _STDERR / _SYSLOG: the sink read once at start. *)
Inductive anchor_mode := ANCHOR_OFF | ANCHOR_STDERR | ANCHOR_SYSLOG.

(** What the system answers during one operation.  The first argument of
    [io_malloc] and [io_open] is the call site. *)
Record io := {
  io_malloc : nat -> Z -> bool;
  io_open : nat -> bool;
  io_read : nat -> nat -> bool;  (* a read of the ledger, by its pass and the bytes still unread *)
  io_size : bool;               (* fseek(SEEK_END) and ftell *)
  io_rewind : bool;             (* fseek(SEEK_SET) *)
  io_header : option nat;       (* a short write of a new file header *)
  io_truncate : bool;
  io_record : option nat;       (* a short write of the record *)
  io_sync : bool;               (* every fwrite, fflush and fsync succeeds *)
  io_now : Z;                   (* time(NULL) *)
  io_max_bytes : option (list Z);
  io_csv : option nat;          (* a short write of the mirror's row *)
  io_head : bool;               (* the head file's write, flush and fsync *)
  io_rename : bool;
  io_anchor : anchor_mode
}.
(** The bytes of a write that arrive, and whether all of them did. *)
Definition arrived (short : option nat) (l : list Z) : list Z :=
  match short with Some n => take n l | None => l end.
Definition complete (short : option nat) (l : list Z) : bool :=
  match short with Some n => (length l <=? n)%nat | None => true end.

(** The call sites of [io_open]. *)
Definition O_existing : nat := 0.
Definition O_create : nat := 1.
Definition O_repair_r : nat := 2.
Definition O_repair_w : nat := 3.
Definition O_reopen : nat := 4.
Definition O_append : nat := 5.
Definition O_csv_r : nat := 6.
Definition O_csv_w : nat := 7.
Definition O_head_r : nat := 8.
Definition O_head_w : nat := 9.
Definition O_read : nat := 10.
(** The call sites of [io_malloc]; the first three are passes over the ledger. *)
Definition M_scan : nat := 0.
Definition M_repair : nat := 1.
Definition M_rescan : nat := 2.
Definition M_hash : nat := 3.
Definition M_csv : nat := 4.
Definition M_report : nat := 5.
Definition pass (v : io) (site : nat) : faults := {| fl_malloc := io_malloc v site; fl_read := io_read v site |}.

(** [ledger_open_private] on an existing regular file. *)
Definition open_file (v : io) (site : nat) (p : list Z) (w : fs) : option (list Z) :=
  if io_open v site then files w !! p else None.

(** ** The loops over the records *)

Record scan_state := {
  latest : option ledger_record_t; prior : option ledger_record_t;
  n_records : Z; n_kind : Z
}.
Definition scan0 : scan_state := {| latest := None; prior := None; n_records := 0; n_kind := 0 |}.

(** [records++] and, for a record of the wanted kind, the shift of the two. *)
Definition scan_add (want : Z) (r : ledger_record_t) (s : scan_state) : scan_state :=
  if r_kind r =? want
  then {| latest := Some r; prior := latest s; n_records := n_records s + 1; n_kind := n_kind s + 1 |}
  else {| latest := latest s; prior := prior s; n_records := n_records s + 1; n_kind := n_kind s |}.

Definition scan_turn (m : faults) (want : Z) (x : list Z * scan_state)
    : (list Z * scan_state) + option scan_state :=
  let '(l, s) := x in
  match read_record m l with
  | R_eof => inr (Some s)
  | R_rec r l => inl (l, scan_add want r s)
  | _ => inr None
  end.
(** [None] is the return -1. *)
Definition ledger_scan_latest_two (m : faults) (want : Z) (l : list Z) : option scan_state :=
  default None (while (scan_turn m want) (S (length l)) (l, scan0)).

(** Where the torn tail begins, as what is left of the stream there. *)
Inductive torn := T_clean | T_at (l : list Z) | T_fail.
Definition torn_turn (m : faults) (l : list Z) : list Z + torn :=
  match read_record m l with
  | R_eof => inr T_clean
  | R_rec _ l => inl l
  | R_mem => inr T_fail
  | _ => inr (T_at l)
  end.
Definition find_torn (m : faults) (l : list Z) : torn :=
  default T_fail (while (torn_turn m) (S (length l)) l).

Definition ledger_open_for_read (v : io) (site : nat) (m : faults) (p : list Z) (w : fs) : option (option (list Z)) :=
  match open_file v site p w with
  | None => None                       (* no such file *)
  | Some f => Some (read_header m f)   (* [Some None]: bad header *)
  end.

Definition ledger_repair_torn_tail (v : io) (p : list Z) (w : fs) : bool * fs :=
  match ledger_open_for_read v O_repair_r (pass v M_repair) p w with
  | None => (true, w)
  | Some None => (false, w)
  | Some (Some l) =>
    match find_torn (pass v M_repair) l with
    | T_clean => (true, w)
    | T_fail => (false, w)
    | T_at tail =>
      match open_file v O_repair_w p w with
      | None => (false, w)
      | Some f => if io_truncate v then (true, set_file p (take (length f - length tail) f) w) else (false, w)
      end
    end
  end.

Section Ledger.
Context {DG : Digest}.

(** entry_hash = SHA256(prev_hash || blob || mac) *)
Definition chain_hash (r : ledger_record_t) : list Z :=
  sha256 (r_prev_hash r ++ r_blob r ++ if has_mac r then r_mac r else []).

(** ** The head file *)

Definition ledger_head_path (s : ent) : option (list Z) :=
  let p := ledger_path s ++ bs ".head" in
  if (length p <? 4096)%nat then Some p else None.

(** [None] is the return -1. *)
Definition ledger_head_read (v : io) (s : ent) (w : fs) : option (list ledger_head_rec_t) :=
  match ledger_head_path s with
  | None => Some []
  | Some p => match open_file v O_head_r p w with None => Some [] | Some f => head_records f end
  end.

Definition ledger_head_write (v : io) (s : ent) (recs : list ledger_head_rec_t) (w : fs) : bool * fs :=
  match ledger_head_path s with
  | None => (false, w)
  | Some p =>
    let tmp := p ++ bs ".tmp" in
    if negb (io_open v O_head_w) then (false, w)
    else if negb (io_head v) then (false, remove_file tmp w)
    else if io_rename v then (true, set_file p (flat_map head_line recs) (remove_file tmp w))
    else (false, remove_file tmp w)
  end.

Definition head_kind (kind : Z) (r : ledger_head_rec_t) : bool := hr_kind r =? kind.
Definition find_head (kind : Z) (recs : list ledger_head_rec_t) : option ledger_head_rec_t :=
  List.find (head_kind kind) recs.

(** The slot's new contents. *)
Definition head_bump (s : ent) (kind chain_rows : Z) (r : ledger_head_rec_t) : ledger_head_rec_t :=
  let rows := Z.max (hr_rows r) (chain_rows + 1) in
  match ledger_key s with
  | Some key =>
      match ledger_head_mac kind rows key with
      | Some m => {| hr_kind := hr_kind r; hr_rows := rows; hr_has_mac := true; hr_mac := m |}
      | None => {| hr_kind := hr_kind r; hr_rows := rows; hr_has_mac := hr_has_mac r; hr_mac := hr_mac r |}
      end
  | None => {| hr_kind := hr_kind r; hr_rows := rows; hr_has_mac := false; hr_mac := replicate LEDGER_HASH_LEN 0 |}
  end.

Definition ledger_head_update (v : io) (s : ent) (kind chain_rows : Z) (w : fs) : Z * fs :=
  match ledger_head_path s with
  | None => (-1, w)
  | Some _ =>
    let recs := default [] (ledger_head_read v s w) in
    let slotted :=
      match findi (head_kind kind) recs with
      | Some i => Some (i, recs)
      | None =>
          if (LEDGER_HEAD_MAX_RECS <=? length recs)%nat then None
          else Some (length recs, recs ++ [{| hr_kind := kind; hr_rows := 0; hr_has_mac := false;
                                              hr_mac := replicate LEDGER_HASH_LEN 0 |}])
      end in
    match slotted with
    | None => (-1, w)
    | Some (i, recs) =>
        let recs := alter (head_bump s kind chain_rows) i recs in
        (match recs !! i with Some r => hr_rows r | None => 0 end, snd (ledger_head_write v s recs w))
    end
  end.

(** The reasons a verification fails, one per message of the source. *)
Inductive reason :=
  | Y_truncated | Y_length | Y_blob | Y_no_mac | Y_hmac | Y_oom | Y_hash | Y_link
  | Y_head_corrupt | Y_head_no_mac | Y_head_nomem | Y_head_mac | Y_fewer | Y_missing | Y_bad_header.
#[export] Instance reason_eq_dec : EqDecision reason.
Proof. solve_decision. Defined.

Definition ledger_head_check (v : io) (s : ent) (kind : Z) (w : fs) : option reason :=
  match ledger_head_read v s w with
  | None => Some Y_head_corrupt
  | Some recs =>
    match find_head kind recs with
    | None => None
    | Some r =>
      match ledger_key s with
      | None => None
      | Some key =>
        if negb (hr_has_mac r) then Some Y_head_no_mac
        else match ledger_head_mac (hr_kind r) (hr_rows r) key with
             | None => Some Y_head_nomem
             | Some m => if bytes_eqb m (hr_mac r) then None else Some Y_head_mac
             end
      end
    end
  end.

Definition ledger_head_clear (s : ent) (w : fs) : fs :=
  match ledger_head_path s with Some p => remove_file p w | None => w end.

Definition ledger_head_get (v : io) (s : ent) (kind : Z) (w : fs) : Z :=
  if (kind <? 1) || (LEDGER_MAX_KIND <? kind) then 0
  else match ledger_head_read v s w with
       | None => 0
       | Some recs => match find_head kind recs with Some r => hr_rows r | None => 0 end
       end.

(** ** The mirror and the anchor log *)

Definition ledger_csv_path (s : ent) : option (list Z) :=
  if (4096 <=? length (ledger_path s) + 4)%nat then None else Some (ledger_path s ++ bs ".csv").

Definition ledger_csv_next_id (v : io) (p : list Z) (w : fs) : Z :=
  match open_file v O_csv_r p w with
  | None => 1
  | Some f => Z.of_nat (length (List.filter (fun c => c =? 10) f)) + 1
  end.

Definition csv_row (id : Z) (r : ledger_record_t) : list Z :=
  dec_d id ++ bs "," ++ dec_u (r_kind r) ++ bs "," ++ ledger_b64_encode (r_blob r) ++ bs "," ++
  (if has_mac r then ledger_hex_encode (r_mac r) else []) ++ bs "," ++ ledger_hex_encode (r_prev_hash r) ++
  bs "," ++ ledger_hex_encode (r_entry_hash r) ++ bs ",0," ++ dec_d (r_updated r) ++ [10].

Definition ledger_csv_append (v : io) (s : ent) (r : ledger_record_t) (chain_records : Z) (w : fs) : fs :=
  match ledger_csv_path s with
  | None => w
  | Some p =>
    if negb (io_malloc v M_csv (ledger_b64_len (Z.of_nat (length (r_blob r))) + 1)) then w
    else
      let next_id := Z.max (chain_records + 1) (ledger_csv_next_id v p w) in
      if io_open v O_csv_w
      then set_file p (default [] (files w !! p) ++ arrived (io_csv v) (csv_row next_id r)) w
      else w
  end.

Definition quot : list Z := [34].
Definition anchor_line (kind rows : Z) (entry_hash : list Z) : list Z :=
  bs "{" ++ quot ++ bs "event" ++ quot ++ bs ":" ++ quot ++ bs "ledger_head" ++ quot ++ bs "," ++
  quot ++ bs "kind" ++ quot ++ bs ":" ++ dec_d kind ++ bs "," ++ quot ++ bs "rows" ++ quot ++ bs ":" ++ dec_d rows ++
  bs "," ++ quot ++ bs "hash" ++ quot ++ bs ":" ++ quot ++ ledger_hex_encode entry_hash ++ quot ++ bs "}".
Definition ledger_anchor_publish (v : io) (kind rows : Z) (entry_hash : list Z) (w : fs) : fs :=
  match io_anchor v with
  | ANCHOR_OFF => w
  | _ => let line := anchor_line kind rows entry_hash in
         if (256 <=? length line)%nat then w
         else {| files := files w; anchors := anchors w ++ [line] |}
  end.

(** ** Append *)

(** FRACTALSQL_LEDGER_MAX_BYTES. *)
Definition ledger_cap (mx : option (list Z)) : Z :=
  match mx with
  | Some (c :: _ as m) =>
      let '(v, rest) := strtol m in
      if bytes_eqb rest [] && (0 <=? v) then v else 1073741824
  | _ => 1073741824
  end.

(** [ledger_write_header] at the start of a file: the bytes that arrive
    replace the file's first ones. *)
Definition overwrite (n : option nat) (h f : list Z) : list Z :=
  arrived n h ++ drop (length (arrived n h)) f.

(** [ledger_write_header] and the flush, over the file [f]. *)
Definition put_header (v : io) (p f : list Z) (w : fs) : option (list Z) * fs :=
  let f := overwrite (io_header v) header_bytes f in
  let w := set_file p f w in
  if complete (io_header v) header_bytes then (Some (drop (length header_bytes) f), w) else (None, w).

(** Open the ledger, write or check its header: the stream behind the header,
    or a failure. *)
Definition open_for_append (v : io) (p : list Z) (w : fs) : option (list Z) * fs :=
  match open_file v O_existing p w with
  | None =>
      if negb (io_open v O_create) then (None, w) else put_header v p (default [] (files w !! p)) w
  | Some f =>
      let sz := if io_size v then Z.of_nat (length f) else -1 in
      let cap := ledger_cap (io_max_bytes v) in
      if (0 <? cap) && (0 <=? sz) && (cap <=? sz) then (None, w)
      else if negb (io_rewind v) then (None, w)
      else if sz =? 0 then put_header v p f w
      else (read_header (pass v M_scan) f, w)
  end.

(** The scan, and on its failure the repair and one rescan. *)
Definition scan_or_repair (v : io) (kind : Z) (p l : list Z) (w : fs) : option scan_state * fs :=
  match ledger_scan_latest_two (pass v M_scan) kind l with
  | Some sc => (Some sc, w)
  | None =>
    let '(ok, w) := ledger_repair_torn_tail v p w in
    if negb ok then (None, w)
    else match open_file v O_reopen p w with
         | None => (None, w)
         | Some f =>
           match read_header (pass v M_rescan) f with
           | None => (None, w)
           | Some l => (ledger_scan_latest_two (pass v M_rescan) kind l, w)
           end
         end
  end.

(** The record for a payload behind the chain's latest record. *)
Definition new_record (s : ent) (kind now : Z) (payload : list Z) (prev : option ledger_record_t) : ledger_record_t :=
  let prev_hash := match prev with Some r => r_entry_hash r | None => replicate LEDGER_HASH_LEN 0 end in
  let key := ledger_key s in
  let mac := match key with Some k => hmac k payload | None => replicate LEDGER_HASH_LEN 0 end in
  let hm := match key with Some _ => 1 | None => 0 end in
  let r := {| r_kind := kind; r_has_mac := hm; r_sealed := 0; r_mac := mac; r_prev_hash := prev_hash;
              r_entry_hash := []; r_updated := s64 now; r_blob := payload |} in
  {| r_kind := kind; r_has_mac := hm; r_sealed := 0; r_mac := mac; r_prev_hash := prev_hash;
     r_entry_hash := chain_hash r; r_updated := s64 now; r_blob := payload |}.

(** What follows a successful append. *)
Definition after_append (v : io) (s : ent) (r : ledger_record_t) (sc : scan_state) (w : fs) : fs :=
  let w := ledger_csv_append v s r (n_records sc) w in
  let '(rows, w) := ledger_head_update v s (r_kind r) (n_kind sc) w in
  let rows := if rows <? 0 then n_kind sc + 1 else rows in
  ledger_anchor_publish v (r_kind r) rows (r_entry_hash r) w.

Definition ledger_write_entry (v : io) (s : ent) (kind : Z) (payload : list Z) (w : fs) : Z * fs :=
  let len := Z.of_nat (length payload) in
  if (kind <? 1) || (LEDGER_MAX_KIND <? kind) then (FSQL_ESTORAGE, w)
  else if 4294967295 <? len then (FSQL_ESTORAGE, w)
  else if LEDGER_MAX_BLOB_BYTES <? len then (FSQL_ESTORAGE, w)
  else if SIZE_MAX - 2 * Z.of_nat LEDGER_HASH_LEN <? len then (FSQL_ESTORAGE, w)
  else
    let p := ledger_path s in
    let '(l, w) := open_for_append v p w in
    match l with
    | None => (FSQL_ESTORAGE, w)
    | Some l =>
      let '(sc, w) := scan_or_repair v kind p l w in
      match sc with
      | None => (FSQL_ESTORAGE, w)
      | Some sc =>
        let r := new_record s kind (io_now v) payload (latest sc) in
        let buflen := Z.of_nat LEDGER_HASH_LEN + len + (if has_mac r then Z.of_nat LEDGER_HASH_LEN else 0) in
        if negb (io_malloc v M_hash buflen) then (FSQL_ESTORAGE, w)
        else if negb (io_open v O_append) then (FSQL_ESTORAGE, w)
        else
          let bytes := record_bytes r in
          let w := set_file p (default [] (files w !! p) ++ arrived (io_record v) bytes) w in
          if io_sync v && complete (io_record v) bytes
          then (FSQL_OK, after_append v s r sc w)
          else (FSQL_ESTORAGE, w)
      end
    end.

(** ** Read *)

(** The thread's per-kind buffers ([t_last_read_blob]). *)
Definition slots := gmap Z (list Z).

Definition ledger_read_entry (v : io) (s : ent) (kind : Z) (t : slots) (w : fs) : Z * list Z * slots :=
  if (kind <? 1) || (LEDGER_MAX_KIND <? kind) then (FSQL_ESTORAGE, [], t)
  else match ledger_open_for_read v O_read (pass v M_scan) (ledger_path s) w with
  | None => (FSQL_ESTORAGE_UNAVAILABLE, [], t)
  | Some None => (FSQL_ESTORAGE, [], t)
  | Some (Some l) =>
    match ledger_scan_latest_two (pass v M_scan) kind l with
    | None => (FSQL_ESTORAGE, [], t)
    | Some sc =>
      match latest sc with
      | None => (FSQL_ESTORAGE_UNAVAILABLE, [], t)
      | Some r => (FSQL_OK, r_blob r, <[kind := r_blob r]> t)
      end
    end
  end.
Definition fractal_enterprise_release_thread_read_buffers (t : slots) : slots := ∅.

Definition ledger_seal_ledger : Z := FSQL_OK.

(** ** Verification *)

(** The MAC and hash checks both verifiers make on one record. *)
Definition check_record (v : io) (key : option (list Z)) (r : ledger_record_t) : option reason :=
  let buflen := Z.of_nat LEDGER_HASH_LEN + Z.of_nat (length (r_blob r)) +
                (if has_mac r then Z.of_nat LEDGER_HASH_LEN else 0) in
  let macfail :=
    match key with
    | None => None
    | Some k => if negb (has_mac r) then Some Y_no_mac
                else if bytes_eqb (hmac k (r_blob r)) (r_mac r) then None else Some Y_hmac
    end in
  match macfail with
  | Some y => Some y
  | None => if negb (io_malloc v M_hash buflen) then Some Y_oom
            else if bytes_eqb (chain_hash r) (r_entry_hash r) then None else Some Y_hash
  end.

Definition prev_of (o : option ledger_record_t) : list Z :=
  match o with Some r => r_entry_hash r | None => replicate LEDGER_HASH_LEN 0 end.

Definition ledger_verify_latest_file (v : io) (s : ent) (kind : Z) (w : fs) : Z :=
  match ledger_open_for_read v O_read (pass v M_scan) (ledger_path s) w with
  | None => FSQL_OK
  | Some None => FSQL_ESTORAGE_INTEGRITY
  | Some (Some l) =>
    match ledger_scan_latest_two (pass v M_scan) kind l with
    | None => FSQL_ESTORAGE_INTEGRITY
    | Some sc =>
      match latest sc with
      | None => FSQL_OK
      | Some r =>
        match check_record v (ledger_key s) r with
        | Some Y_oom => FSQL_ESTORAGE
        | Some _ => FSQL_ESTORAGE_INTEGRITY
        | None => if bytes_eqb (r_prev_hash r) (prev_of (prior sc)) then FSQL_OK else FSQL_ESTORAGE_INTEGRITY
        end
      end
    end
  end.

(** The walk's variables: rows of the kind, records of the file, the expected
    link. *)
Record walk_state := { v_n : Z; v_rec : Z; v_prev : list Z }.
Definition walk0 : walk_state := {| v_n := 0; v_rec := 0; v_prev := replicate LEDGER_HASH_LEN 0 |}.

(** The end of the walk: the rows and, on a failure, its id and reason. *)
Definition verify_turn (v : io) (key : option (list Z)) (kind : Z) (x : list Z * walk_state)
    : (list Z * walk_state) + Z * option (Z * reason) :=
  let '(l, t) := x in
  match read_record (pass v M_scan) l with
  | R_eof => inr (v_n t, None)
  | R_hdr => inr (v_n t, Some (v_rec t + 1, Y_truncated))
  | R_len => inr (v_n t, Some (v_rec t + 1, Y_length))
  | R_mem | R_blob => inr (v_n t, Some (v_rec t + 1, Y_blob))
  | R_rec r l =>
    let t := {| v_n := v_n t; v_rec := v_rec t + 1; v_prev := v_prev t |} in
    if negb (r_kind r =? kind) then inl (l, t)
    else
      let t := {| v_n := v_n t + 1; v_rec := v_rec t; v_prev := v_prev t |} in
      match check_record v key r with
      | Some y => inr (v_n t, Some (v_rec t, y))
      | None =>
          if bytes_eqb (r_prev_hash r) (v_prev t)
          then inl (l, {| v_n := v_n t; v_rec := v_rec t; v_prev := r_entry_hash r |})
          else inr (v_n t, Some (v_rec t, Y_link))
      end
  end.
Definition verify_walk (v : io) (key : option (list Z)) (kind : Z) (l : list Z) : Z * option (Z * reason) :=
  default (0, None) (while (verify_turn v key kind) (S (length l)) (l, walk0)).

(** The JSON report, as its content. *)
Inductive report := Rep_ok (rows : Z) | Rep_fail (id : Z) (y : reason).
#[export] Instance report_eq_dec : EqDecision report.
Proof. solve_decision. Defined.

(** [fractal_ledger_verify]; [None] is the error flag (no memory). *)
Definition ledger_verify (v : io) (s : ent) (kind : Z) (w : fs) : option report :=
  match ledger_open_for_read v O_read (pass v M_scan) (ledger_path s) w with
  | None =>
      let recorded := ledger_head_get v s kind w in
      if negb (io_malloc v M_report 320) then None
      else Some (if 0 <? recorded then Rep_fail 0 Y_missing else Rep_ok 0)
  | Some None => if negb (io_malloc v M_report 320) then None else Some (Rep_fail 0 Y_bad_header)
  | Some (Some l) =>
      let '(n, fail) := verify_walk v (ledger_key s) kind l in
      let recorded := ledger_head_get v s kind w in
      let head_reason := ledger_head_check v s (s32 kind) w in
      if negb (io_malloc v M_report 320) then None
      else Some (match fail with
                 | Some (id, y) => Rep_fail id y
                 | None =>
                   match head_reason with
                   | Some y => Rep_fail 0 y
                   | None => if n <? recorded then Rep_fail (n + 1) Y_fewer else Rep_ok n
                   end
                 end)
  end.
End Ledger.
