(* ===== verification/LedgerProofs.v ===== *)
(** * The ledger: what its operations guarantee

    The records of a file as an inductive walk; what each loop computes from
    it; that an append keeps every record, is read back and verifies; what a
    verified chain binds and what it does not; and how the head file detects
    (and fails to detect) a truncation. *)

From stdpp Require Import gmap.
From S2P Require Import Prelude Hmac Enterprise LedgerFmt Ledger.

(** ** Reading a record *)

Definition REC_FIXED : nat := 116.

Lemma fread_some n l a b : fread n l = Some (a, b) -> l = a ++ b /\ length a = n.
Proof.
  unfold fread. destruct (n <=? length l)%nat eqn:E; [|done]. intros. simplify_eq. apply Nat.leb_le in E.
  by rewrite take_drop, length_take_le.
Qed.
Lemma fread_app a b n : n = length a -> fread n (a ++ b) = Some (a, b).
Proof.
  intros ->. unfold fread. rewrite length_app, (proj2 (Nat.leb_le _ _)) by lia.
  by rewrite take_app_length, drop_app_length.
Qed.
Lemma fread_none n l : fread n l = None <-> (length l < n)%nat.
Proof. unfold fread. destruct (n <=? length l)%nat eqn:E; split; try done; [apply Nat.leb_le in E|apply Nat.leb_gt in E]; lia. Qed.

(** A pass in which nothing fails: the file's own contents. *)
Definition all_mem : faults := {| fl_malloc := fun _ => true; fl_read := fun _ => true |}.
(** A pass in which no read fails. *)
Definition reads_ok (m : faults) : Prop := forall n, fl_read m n = true.

#[local] Arguments fread_io : simpl never.
Lemma fread_io_some m n l a b : fread_io m n l = Some (a, b) -> l = a ++ b /\ length a = n.
Proof. unfold fread_io. destruct (fl_read m _); [apply fread_some|done]. Qed.
Lemma fread_io_app m a b n : n = length a -> fl_read m (length (a ++ b)) = true -> fread_io m n (a ++ b) = Some (a, b).
Proof. intros Hn Hr. unfold fread_io. rewrite Hr. by apply fread_app. Qed.
Lemma fread_io_reads m n l : reads_ok m -> fread_io m n l = fread_io all_mem n l.
Proof. intros H. unfold fread_io. by rewrite H. Qed.

(** Consume the reads of a hypothesis one by one. *)
Ltac freads H :=
  repeat match type of H with
  | context [fread_io ?m ?n ?l] =>
      let E := fresh "E" in destruct (fread_io m n l) as [[? ?]|] eqn:E; cbn [mbind option_bind] in H; [|try discriminate H]
  end.

Lemma header_some m l h l' : ledger_read_record_header m l = HOk h l' ->
  exists fixed, l = fixed ++ l' /\ length fixed = REC_FIXED /\
  forall ext, ledger_read_record_header all_mem (fixed ++ ext) = HOk h ext.
Proof.
  unfold ledger_read_record_header. intros H. freads H; [|by destruct (fl_read m _)]. simplify_eq.
  repeat match goal with E : fread_io _ _ _ = Some _ |- _ => apply fread_io_some in E; destruct E as [? ?] end. subst.
  eexists. split; [by rewrite !app_assoc|]. split; [rewrite !length_app; unfold REC_FIXED, LEDGER_HASH_LEN in *; lia|].
  intros ext. rewrite <- !app_assoc. by repeat (rewrite fread_io_app by done; cbn).
Qed.
Lemma header_reads m l : reads_ok m -> ledger_read_record_header m l = ledger_read_record_header all_mem l.
Proof.
  intros Hr. unfold ledger_read_record_header. rewrite (Hr (length l)).
  repeat match goal with
  | |- context [fread_io m ?n ?x] =>
      rewrite (fread_io_reads m n x Hr); destruct (fread_io all_mem n x) as [[? ?]|]; cbn [mbind option_bind]; [|reflexivity]
  end. reflexivity.
Qed.
Lemma header_bad l : (4 <= length l < REC_FIXED)%nat -> ledger_read_record_header all_mem l = HBad.
Proof.
  intros Hl. destruct (ledger_read_record_header all_mem l) as [| |h l'] eqn:E; [|done|].
  - unfold ledger_read_record_header in E. destruct (fread_io _ 4 l) as [[? ?]|] eqn:E4; [by destruct (mbind _ _) as [[]|]|].
    apply fread_none in E4. lia.
  - apply header_some in E as (f & -> & Hf & _). rewrite length_app in Hl. lia.
Qed.
Lemma header_eof l : (length l < 4)%nat -> ledger_read_record_header all_mem l = HEof.
Proof.
  intros H%fread_none. unfold ledger_read_record_header.
  assert (E : fread_io all_mem 4 l = None) by (unfold fread_io; exact H). by rewrite E.
Qed.
(** The end of the file is only found by a read that did not fail. *)
Lemma header_eof_clean m l : ledger_read_record_header m l = HEof -> ledger_read_record_header all_mem l = HEof.
Proof.
  unfold ledger_read_record_header at 1. destruct (fread_io m 4 l) as [[k r]|] eqn:E; [by destruct (mbind _ _) as [[? ?]|]|].
  unfold fread_io in E. destruct (fl_read m (length l)); [|done]. intros _. apply header_eof. by apply fread_none.
Qed.

Lemma read_some m l r l' : read_record m l = R_rec r l' ->
  exists raw, l = raw ++ l' /\ length raw = (REC_FIXED + length (r_blob r))%nat /\
  forall ext, read_record all_mem (raw ++ ext) = R_rec r ext.
Proof.
  unfold read_record. destruct (ledger_read_record_header m l) as [| |h l1] eqn:E; [done|done|].
  apply header_some in E as (f & -> & Hf & Hext).
  destruct (h_blen h =? 0) eqn:E0.
  - intros [= <- <-]. exists f. split_and!; [done| |intros ext; by rewrite Hext, E0].
    assert (Hb : r_blob (h_rec h) = []); [|rewrite Hb; cbn [length]; lia].
    specialize (Hext []). rewrite app_nil_r in Hext. unfold ledger_read_record_header in Hext. freads Hext. by simplify_eq.
  - destruct (_ <? h_blen h) eqn:E1; [done|]. destruct (fl_malloc m (h_blen h)) eqn:E2; [|done]. cbn [negb].
    destruct (fread_io m _ l1) as [[b l2]|] eqn:E3; [|done]. intros [= <- <-]. apply fread_io_some in E3 as [-> Hb].
    exists (f ++ b). split_and!; [by rewrite app_assoc|cbn [with_blob r_blob]; rewrite length_app; lia|].
    intros ext. rewrite <- app_assoc, Hext, E0, E1. cbn [all_mem fl_malloc negb]. by rewrite fread_io_app by done.
Qed.

(** What a faulty pass reads is what the file holds, as far as it reads. *)
Lemma read_rec_clean m l r l' : read_record m l = R_rec r l' -> read_record all_mem l = R_rec r l'.
Proof. intros H. by apply read_some in H as (raw & -> & _ & Hx). Qed.
Lemma read_eof_clean m l : read_record m l = R_eof -> read_record all_mem l = R_eof.
Proof.
  unfold read_record. destruct (ledger_read_record_header m l) as [| |h l1] eqn:E; try done.
  - by rewrite (header_eof_clean _ _ E).
  - destruct (_ =? 0); [done|]. destruct (_ <? _); [done|]. destruct (negb _); [done|]. by destruct (fread_io _ _ _) as [[? ?]|].
Qed.
Lemma read_record_malloc m l : reads_ok m -> read_record m l = R_mem \/ read_record m l = read_record all_mem l.
Proof.
  intros Hr. unfold read_record. rewrite (header_reads m l Hr). destruct (ledger_read_record_header all_mem l); auto. destruct (_ =? 0); auto.
  destruct (_ <? _); auto. destruct (fl_malloc m _); cbn; auto. rewrite (fread_io_reads m) by done. auto.
Qed.

(** A record whose fields fit the format. *)
Record rec_wf (r : ledger_record_t) : Prop := {
  wf_kind : 0 <= r_kind r < 2 ^ 32;
  wf_has_mac : byte_ok (r_has_mac r); wf_sealed : byte_ok (r_sealed r);
  wf_mac : length (r_mac r) = 32%nat; wf_prev : length (r_prev_hash r) = 32%nat;
  wf_hash : length (r_entry_hash r) = 32%nat;
  wf_updated : - 2 ^ 63 <= r_updated r < 2 ^ 63;
  wf_blob : Z.of_nat (length (r_blob r)) <= LEDGER_MAX_BLOB_BYTES
}.

Lemma record_bytes_length r : rec_wf r -> length (record_bytes r) = (REC_FIXED + length (r_blob r))%nat.
Proof.
  intros []. unfold record_bytes, REC_FIXED. rewrite !length_app, !le_bytes_length. cbn [length]. lia.
Qed.

(** A written record is read back, whatever follows it. *)
Lemma record_roundtrip r rest : rec_wf r -> read_record all_mem (record_bytes r ++ rest) = R_rec r rest.
Proof.
  intros Hr. destruct Hr as [H1 H2 H3 H4 H5 H6 H7 H8].
  assert (Hh : exists h, ledger_read_record_header all_mem (record_bytes r ++ rest) = HOk h (r_blob r ++ rest) /\
    with_blob (r_blob r) (h_rec h) = r /\ r_blob (h_rec h) = [] /\ h_blen h = Z.of_nat (length (r_blob r))).
  { unfold ledger_read_record_header, record_bytes. rewrite <- !app_assoc.
    repeat (rewrite fread_io_app by (rewrite ?le_bytes_length; done); cbn [mbind option_bind]).
    eexists. split; [reflexivity|]. cbn [h_rec h_blen r_blob].
    rewrite !le_val_bytes. unfold LEDGER_MAX_BLOB_BYTES in H8. unfold byte_ok in *.
    change (Z.of_nat 4) with 4. change (Z.of_nat 1) with 1. change (Z.of_nat 8) with 8.
    rewrite !Z.mod_small by (unfold u64 in *; try apply Z.mod_pos_bound; lia).
    rewrite s64_u64 by done. destruct r. by cbn in *. }
  destruct Hh as (h & Hh & Hw & Hb & Hl). unfold read_record. rewrite Hh, Hl.
  unfold LEDGER_MAX_BLOB_BYTES in *. destruct (Z.of_nat (length (r_blob r)) =? 0) eqn:E0.
  - apply Z.eqb_eq in E0. assert (Hn : r_blob r = []) by (apply length_zero_iff_nil; lia).
    rewrite Hn in *. cbn [app]. f_equal. rewrite <- Hw. destruct (h_rec h). cbn in *. by subst.
  - apply Z.eqb_neq in E0. rewrite (proj2 (Z.ltb_ge _ _)) by lia. cbn [all_mem fl_malloc negb].
    rewrite fread_io_app by (done || lia). by rewrite Hw.
Qed.

(** ** The walk over a file *)

(** [walk m l rs e l']: the stream [l] holds the records [rs], then [l'], at
    which the next turn gives [e], which is no record. *)
Inductive walk (m : faults) : list Z -> list ledger_record_t -> rec_res -> list Z -> Prop :=
  | walk_stop l e : read_record m l = e -> (forall r l', e <> R_rec r l') -> walk m l [] e l
  | walk_rec l r l1 rs e l2 : read_record m l = R_rec r l1 -> walk m l1 rs e l2 -> walk m l (r :: rs) e l2.

Lemma walk_total m l : exists rs e l', walk m l rs e l'.
Proof.
  remember (length l) as n eqn:Hn. revert l Hn. induction n as [n IH] using lt_wf_ind. intros l ->.
  destruct (read_record m l) as [| | | | |r l1] eqn:E; try (eexists [], _, l; by constructor).
  pose proof E as E'. apply read_some in E' as (raw & -> & Hr & _).
  destruct (IH (length l1)) with (l := l1) as (rs & e & l' & H); [rewrite length_app; unfold REC_FIXED in Hr; lia|done|].
  exists (r :: rs), e, l'. by econstructor.
Qed.
Lemma walk_fun m l rs e l' : walk m l rs e l' -> forall rs2 e2 l2, walk m l rs2 e2 l2 -> rs2 = rs /\ e2 = e /\ l2 = l'.
Proof.
  induction 1 as [l e H Hn|l r l1 rs e l2 H Hw IH]; intros rs2 e2 l3 H2;
    inversion H2 as [? ? H3 H4|? r' l1' rs' ? ? H3 H4]; subst.
  - done.
  - by edestruct Hn.
  - by edestruct H4.
  - rewrite H in H3. injection H3 as <- <-. by destruct (IH _ _ _ H4) as (-> & -> & ->).
Qed.

(** The bytes of the walked records are the front of the stream. *)
Lemma walk_split m l rs e l' : walk m l rs e l' -> exists front, l = front ++ l' /\
  (rs = [] -> front = []) /\
  forall ext rs2 e2 l2, walk all_mem ext rs2 e2 l2 -> walk all_mem (front ++ ext) (rs ++ rs2) e2 l2.
Proof.
  induction 1 as [l e H Hn|l r l1 rs e l2 H Hw (front & -> & _ & IH)].
  - exists []. split_and!; [done|done|]. done.
  - apply read_some in H as (raw & -> & Hr & Hext). exists (raw ++ front). split_and!; [by rewrite app_assoc|done|].
    intros ext rs2 e2 l3 H2. rewrite <- app_assoc. cbn [app]. econstructor; [apply Hext|by apply IH].
Qed.

(** Anything written behind the records leaves them in place. *)
Lemma walk_extend front rs ext :
  (forall ext rs2 e2 l2, walk all_mem ext rs2 e2 l2 -> walk all_mem (front ++ ext) (rs ++ rs2) e2 l2) ->
  exists rs2 e2 l2, walk all_mem (front ++ ext) (rs ++ rs2) e2 l2.
Proof. intros H. destruct (walk_total all_mem ext) as (rs2 & e2 & l2 & H2). eauto 10. Qed.

(** The walk, computed. *)
Fixpoint decode (n : nat) (m : faults) (l : list Z) : option (list ledger_record_t * rec_res * list Z) :=
  match n with
  | O => None
  | S n => match read_record m l with
           | R_rec r l1 => '(rs, e, l2) ← decode n m l1; Some (r :: rs, e, l2)
           | e => Some ([], e, l)
           end
  end.
Lemma decode_walk n m l rs e l2 : decode n m l = Some (rs, e, l2) -> walk m l rs e l2.
Proof.
  revert l rs. induction n as [|n IH]; intros l rs H; [done|]. cbn [decode] in H.
  destruct (read_record m l) as [| | | | |r l1] eqn:E; try (simplify_eq; by constructor).
  destruct (decode n m l1) as [[[rs1 e1] l3]|] eqn:Ed; cbn [mbind option_bind] in H; simplify_eq.
  econstructor; [done|by apply IH].
Qed.

(** Each loop of the source, run on a walk. *)
Section Loops.
Context {T R : Type} (m : faults) (step : T -> ledger_record_t -> T + R) (stop : T -> rec_res -> R).

(** The loop that consumes the records with [step] and ends with [stop]. *)
Fixpoint run (rs : list ledger_record_t) (e : rec_res) (t : T) : R :=
  match rs with
  | [] => stop t e
  | r :: rs => match step t r with inl t => run rs e t | inr x => x end
  end.

Definition turn (x : list Z * T) : (list Z * T) + R :=
  match read_record m (fst x) with
  | R_rec r l => match step (snd x) r with inl t => inl (l, t) | inr y => inr y end
  | e => inr (stop (snd x) e)
  end.

Lemma turn_loop l rs e l' t : walk m l rs e l' ->
  forall n, (length l < n)%nat -> while turn n (l, t) = Some (run rs e t).
Proof.
  intros H. revert t. induction H as [l e H Hn|l r l1 rs e l2 H Hw IH]; intros t n Hlt.
  - destruct n; [lia|]. cbn [while]. unfold turn. cbn [fst snd]. rewrite H.
    destruct e; try done. by edestruct Hn.
  - destruct n; [lia|]. cbn [while run]. unfold turn at 1. cbn [fst snd]. rewrite H. destruct (step t r); [|done].
    apply IH. apply read_some in H as (raw & -> & Hr & _). rewrite length_app in Hlt. unfold REC_FIXED in Hr. lia.
Qed.
End Loops.

Lemma while_ext {St R} (f g : St -> St + R) n s : (forall s, f s = g s) -> while f n s = while g n s.
Proof. intros H. revert s. induction n as [|n IH]; intros s; [done|]. cbn [while]. rewrite H. by destruct (g s). Qed.

(** *** The scan *)

Definition of_kind (want : Z) : list ledger_record_t -> list ledger_record_t := List.filter (fun r => r_kind r =? want).
Definition clean (e : rec_res) : bool := match e with R_eof => true | _ => false end.

Lemma scan_run m want l rs e l' : walk m l rs e l' ->
  ledger_scan_latest_two m want l =
  if clean e then Some (fold_left (fun s r => scan_add want r s) rs scan0) else None.
Proof.
  intros H. unfold ledger_scan_latest_two.
  rewrite (while_ext _ (turn m (fun s r => inl (scan_add want r s)) (fun s e => if clean e then Some s else None))).
  2: { intros [x s]. unfold scan_turn, turn. cbn [fst snd]. by destruct (read_record m x). }
  rewrite (turn_loop _ _ _ _ _ _ _ scan0 H) by lia. cbn [default]. clear H. generalize scan0.
  induction rs as [|r rs IH]; intros s; [done|]. cbn [run fold_left]. apply IH.
Qed.

(** The two newest records of a list, the last first. *)
Definition last_two (rs : list ledger_record_t) : option ledger_record_t * option ledger_record_t :=
  match rev rs with [] => (None, None) | [r] => (Some r, None) | r :: r' :: _ => (Some r, Some r') end.

Lemma scan_fold want rs :
  let s := fold_left (fun s r => scan_add want r s) rs scan0 in
  (latest s, prior s) = last_two (of_kind want rs) /\
  n_records s = Z.of_nat (length rs) /\ n_kind s = Z.of_nat (length (of_kind want rs)).
Proof.
  cbv zeta. induction rs as [|r rs IH] using rev_ind; [done|].
  rewrite fold_left_app. cbn [fold_left]. set (s := fold_left _ rs scan0) in *. destruct IH as (H1 & H2 & H3).
  unfold of_kind in *. rewrite List.filter_app, !length_app. cbn [List.filter length]. unfold scan_add.
  destruct (r_kind r =? want); cbn [latest prior n_records n_kind].
  - split_and!; [|lia|cbn; lia]. unfold last_two in *. rewrite rev_app_distr. cbn [rev app].
    destruct (rev _) as [|a [|b q]]; injection H1 as -> _; done.
  - rewrite app_nil_r. split_and!; [done|lia|cbn; lia].
Qed.

(** *** The repair *)

Lemma find_torn_walk m l rs e l' : walk m l rs e l' ->
  find_torn m l = match e with R_eof => T_clean | R_mem => T_fail | _ => T_at l' end.
Proof.
  intros H. unfold find_torn.
  assert (Hw : forall n, (length l < n)%nat ->
    while (torn_turn m) n l = Some match e with R_eof => T_clean | R_mem => T_fail | _ => T_at l' end).
  { induction H as [l e H Hn|l r l1 rs e l2 H Hw IH]; intros [|n] Hlt; try lia; cbn [while]; unfold torn_turn at 1; rewrite H.
    - destruct e; try done. by edestruct Hn.
    - apply IH. apply read_some in H as (raw & -> & Hr & _). rewrite length_app in Hlt. unfold REC_FIXED in Hr. lia. }
  by rewrite Hw by lia.
Qed.

(** Without a failing read, and up to an allocation failure, the walk is the
    file's own. *)
Lemma walk_malloc m l rs e l' : reads_ok m -> walk m l rs e l' -> e <> R_mem -> walk all_mem l rs e l'.
Proof.
  intros Hm. assert (Hr : forall l x, read_record m l = x -> x <> R_mem -> read_record all_mem l = x).
  { intros x y H Hy. by destruct (read_record_malloc m x Hm) as [E|E]; [congruence|rewrite <- E]. }
  induction 1; intros He; econstructor; eauto.
Qed.
(** A walk that ends at the end of the file is its own, whatever may fail. *)
Lemma walk_eof m l rs l' : walk m l rs R_eof l' -> walk all_mem l rs R_eof l'.
Proof.
  remember R_eof as e eqn:He. induction 1; subst; econstructor; eauto using read_eof_clean, read_rec_clean.
Qed.

(** Opening: the header, then the stream. *)
Lemma check_header_some f l : check_header f = Some l <-> f = header_bytes ++ l.
Proof.
  unfold check_header, header_bytes. split.
  - destruct (fread 8 f) as [[a b]|] eqn:E; [|done]. apply fread_some in E as [-> Ha].
    unfold bytes_eqb. destruct (bool_decide (a = LEDGER_MAGIC)) eqn:Em; [|done]. apply bool_decide_eq_true in Em as ->.
    destruct b as [|c b]; [done|]. destruct (c =? LEDGER_VERSION) eqn:Ev; [|done]. apply Z.eqb_eq in Ev as ->.
    intros. simplify_eq. done.
  - intros ->. rewrite <- app_assoc, fread_app by done. rewrite (proj2 (bytes_eqb_true _ _)) by done. done.
Qed.
Lemma check_header_app f l x : check_header f = Some l -> check_header (f ++ x) = Some (l ++ x).
Proof. rewrite !check_header_some. intros ->. by rewrite app_assoc. Qed.

(** ** Every record of a file stays in place *)

(** The records of the file at [p] (none when it is missing or foreign). *)
Definition file_records (p : list Z) (w : fs) (rs : list ledger_record_t) : Prop :=
  match files w !! p ≫= check_header with
  | Some l => exists e l', walk all_mem l rs e l'
  | None => rs = []
  end.
Definition file_decode (p : list Z) (w : fs) : option (list ledger_record_t * rec_res * list Z) :=
  match files w !! p ≫= check_header with
  | Some l => decode (S (length l)) all_mem l
  | None => Some ([], R_eof, [])
  end.
Lemma file_decode_records p w rs e l2 : file_decode p w = Some (rs, e, l2) -> file_records p w rs.
Proof.
  unfold file_decode, file_records. destruct (_ ≫= _) as [l|]; [|by intros; simplify_eq].
  intros H%decode_walk. eauto.
Qed.
Definition extends (p : list Z) (w w' : fs) : Prop :=
  forall rs, file_records p w rs -> exists rs', file_records p w' (rs ++ rs').

Lemma file_records_total p w : exists rs, file_records p w rs.
Proof.
  unfold file_records. destruct (_ ≫= _) as [l|]; [|by eexists].
  destruct (walk_total all_mem l) as (rs & e & l' & H). eauto.
Qed.
#[export] Instance extends_preorder p : PreOrder (extends p).
Proof.
  split.
  - intros w rs H. exists []. by rewrite app_nil_r.
  - intros w1 w2 w3 H1 H2 rs H. destruct (H1 rs H) as (a & Ha). destruct (H2 _ Ha) as (b & Hb).
    exists (a ++ b). by rewrite app_assoc.
Qed.

(** Only a file with a valid header has anything to keep. *)
Lemma extends_intro p w w' :
  (forall l, files w !! p ≫= check_header = Some l -> exists l', files w' !! p ≫= check_header = Some l' /\
     forall rs e x, walk all_mem l rs e x -> exists rs2 e2 x2, walk all_mem l' (rs ++ rs2) e2 x2) ->
  extends p w w'.
Proof.
  intros H rs Hrs. unfold file_records in Hrs. destruct (files w !! p ≫= check_header) as [l|].
  - destruct (H l eq_refl) as (l' & Hl & Hw). destruct Hrs as (e & x & Hx).
    destruct (Hw _ _ _ Hx) as (rs2 & e2 & x2 & H2). exists rs2. unfold file_records. rewrite Hl. eauto.
  - subst rs. apply file_records_total.
Qed.
Lemma extends_same p w w' : files w' !! p = files w !! p -> extends p w w'.
Proof. intros H rs Hrs. exists []. unfold file_records in *. by rewrite H, app_nil_r. Qed.
Lemma extends_append p w f x : files w !! p = Some f -> extends p w (set_file p (f ++ x) w).
Proof.
  intros Hf. apply extends_intro. intros l. rewrite Hf. cbn [set_file files option_bind mbind]. rewrite lookup_insert_eq.
  intros H. exists (l ++ x). split; [by apply check_header_app|]. intros rs e y Hw.
  destruct (walk_split _ _ _ _ _ Hw) as (front & -> & _ & Hx). rewrite <- app_assoc.
  by apply walk_extend.
Qed.
Lemma read_header_some m f l : read_header m f = Some l -> check_header f = Some l.
Proof. unfold read_header. by destruct (fl_read m _). Qed.
Lemma complete_arrived n l : complete n l = true -> arrived n l = l.
Proof. destruct n as [n|]; [|done]. cbn. intros ?%Nat.leb_le. by apply take_ge. Qed.
Lemma arrived_prefix n l : exists k, l = arrived n l ++ k.
Proof. destruct n as [n|]; [|exists []; cbn; by rewrite app_nil_r]. exists (drop n l). cbn. by rewrite take_drop. Qed.
Lemma overwrite_valid n l : overwrite n header_bytes (header_bytes ++ l) = header_bytes ++ l.
Proof.
  unfold overwrite. generalize header_bytes. intros h. destruct (arrived_prefix n h) as (k & Hk).
  set (a := arrived n h) in *. clearbody a. subst h. by rewrite <- app_assoc, drop_app_length.
Qed.

(** The stream an append starts from: what follows the file's header, or
    what follows the header just written over its first bytes. *)
Definition opened (p : list Z) (w w' : fs) (l : list Z) : Prop :=
  files w' !! p = Some (header_bytes ++ l) /\
  (files w !! p = Some (header_bytes ++ l) \/ l = drop (length header_bytes) (default [] (files w !! p))).

Lemma put_header_extends v p f w l w' : default [] (files w !! p) = f -> put_header v p f w = (l, w') ->
  extends p w w' /\ match l with Some l => opened p w w' l | None => True end.
Proof.
  intros Hf Hn. assert (He : w' = set_file p (overwrite (io_header v) header_bytes f) w).
  { unfold put_header in Hn. destruct (complete _ _); by simplify_eq. }
  split.
  - apply extends_intro. intros x Hx. exists x. destruct (files w !! p) as [f'|] eqn:E; [|done].
    cbn [default option_bind mbind] in Hf, Hx. cbn in Hf. subst f'.
    pose proof Hx as ->%check_header_some. rewrite He. cbn [set_file files]. rewrite lookup_insert_eq, overwrite_valid.
    split; [done|]. intros rs e y Hy. exists [], e, y. by rewrite app_nil_r.
  - unfold put_header in Hn. destruct (complete _ _) eqn:E; simplify_eq; [|done]. apply complete_arrived in E.
    assert (Ho : forall g, overwrite (io_header v) header_bytes g = header_bytes ++ drop (length header_bytes) g).
    { intros g. unfold overwrite. by rewrite E. }
    unfold opened. cbn [set_file files]. rewrite lookup_insert_eq, !Ho, drop_app_length. split; [done|by right].
Qed.

Lemma open_for_append_extends v p w l w' : open_for_append v p w = (l, w') ->
  extends p w w' /\ match l with Some l => opened p w w' l | None => True end.
Proof.
  intros H. unfold open_for_append, open_file in H.
  destruct (if io_open v O_existing then files w !! p else None) as [f|] eqn:Ef.
  - assert (Hf : files w !! p = Some f) by (by destruct (io_open v O_existing)).
    destruct (_ && _ && _); [simplify_eq; split; [reflexivity|done]|].
    destruct (io_rewind v); cbn [negb] in H; [|simplify_eq; split; [reflexivity|done]].
    destruct (_ =? 0); [eapply put_header_extends; [|done]; by rewrite Hf|].
    simplify_eq. split; [reflexivity|]. destruct (read_header _ f) as [l|] eqn:Eh; [|done].
    apply read_header_some, check_header_some in Eh as ->. split; [done|by left].
  - destruct (io_open v O_create); cbn [negb] in H; [by eapply put_header_extends|].
    simplify_eq. split; [reflexivity|done].
Qed.

Lemma repair_extends v p w b w' : reads_ok (pass v M_repair) -> ledger_repair_torn_tail v p w = (b, w') -> extends p w w' /\
  (w' = w \/ exists f l rs e tl front, files w !! p = Some f /\ check_header f = Some l /\
     walk all_mem l rs e tl /\ l = front ++ tl /\ e <> R_eof /\ files w' !! p = Some (header_bytes ++ front) /\
     walk all_mem front rs R_eof []).
Proof.
  intros Hrd H. unfold ledger_repair_torn_tail, ledger_open_for_read, open_file in H.
  destruct (if io_open v O_repair_r then files w !! p else None) as [f|] eqn:Ef; [|simplify_eq; split; [reflexivity|by left]].
  assert (Hf : files w !! p = Some f) by (by destruct (io_open v O_repair_r)).
  destruct (read_header _ f) as [l|] eqn:Eh; [|simplify_eq; split; [reflexivity|by left]]. apply read_header_some in Eh.
  destruct (walk_total (pass v M_repair) l) as (rs & e & tl & Hw).
  rewrite (find_torn_walk _ _ _ _ _ Hw) in H.
  destruct (io_open v O_repair_w) eqn:Eo.
  2: { destruct e; simplify_eq; split; try reflexivity; by left. }
  rewrite Hf in H.
  assert (Hat : e <> R_eof -> e <> R_mem ->
    (if io_truncate v then (true, set_file p (take (length f - length tl) f) w) else (false, w)) = (b, w') -> extends p w w' /\
    (w' = w \/ exists f l rs e tl front, files w !! p = Some f /\ check_header f = Some l /\
     walk all_mem l rs e tl /\ l = front ++ tl /\ e <> R_eof /\ files w' !! p = Some (header_bytes ++ front) /\
     walk all_mem front rs R_eof [])).
  { intros He1 He2 Ht. destruct (io_truncate v); simplify_eq; [|split; [reflexivity|by left]].
    apply walk_malloc in Hw; [|done|done]. destruct (walk_split _ _ _ _ _ Hw) as (front & -> & _ & Hx).
    assert (Htk : take (length f - length tl) f = header_bytes ++ front).
    { apply check_header_some in Eh as ->. rewrite app_assoc. apply take_app_exact. rewrite !length_app. lia. }
    assert (Hfr : walk all_mem front rs R_eof []).
    { specialize (Hx [] [] R_eof []). rewrite !app_nil_r in Hx. apply Hx. by constructor. }
    split.
    - apply extends_intro. intros l. rewrite Hf. cbn [option_bind mbind set_file files]. rewrite Eh, lookup_insert_eq, Htk.
      intros [= <-]. exists front. split; [by apply check_header_some|]. intros rs' e' x' Hw'.
      destruct (walk_fun _ _ _ _ _ Hw _ _ _ Hw') as (-> & _ & _). exists [], R_eof, []. by rewrite app_nil_r.
    - right. exists f, (front ++ tl), rs, e, tl, front. cbn [set_file files]. rewrite lookup_insert_eq, Htk. done. }
  destruct e; try (by apply Hat); simplify_eq; split; try reflexivity; by left.
Qed.

(** *** The append *)

Definition scanned (want : Z) (rs : list ledger_record_t) : scan_state :=
  fold_left (fun s r => scan_add want r s) rs scan0.

Lemma scan_some m want l sc : ledger_scan_latest_two m want l = Some sc ->
  exists front rs tl, l = front ++ tl /\ walk all_mem l rs R_eof tl /\ sc = scanned want rs.
Proof.
  intros H. destruct (walk_total m l) as (rs & e & tl & Hw). rewrite (scan_run _ _ _ _ _ _ Hw) in H.
  destruct e; cbn [clean] in H; try discriminate H. injection H as <-.
  apply walk_eof in Hw. destruct (walk_split _ _ _ _ _ Hw) as (front & Hl & _). eauto 6.
Qed.

(** The stream scanned is the one opened, or the one behind a repair of it. *)
Definition scan_from (l : list Z) (rs : list ledger_record_t) (l' tl : list Z) : Prop :=
  l = l' \/ (tl = [] /\ exists e tl', walk all_mem l rs e tl' /\ e <> R_eof).

(** What the scan, with its repair, leaves: the file, its records, and what is
    behind them when the file was not repaired. *)
Lemma scan_or_repair_spec v kind p l w o w' : reads_ok (pass v M_repair) -> files w !! p = Some (header_bytes ++ l) ->
  scan_or_repair v kind p l w = (o, w') ->
  extends p w w' /\
  match o with
  | None => True
  | Some sc => exists front rs tl, files w' !! p = Some (header_bytes ++ front ++ tl) /\
      walk all_mem (front ++ tl) rs R_eof tl /\ sc = scanned kind rs /\ scan_from l rs (front ++ tl) tl
  end.
Proof.
  intros Hrd Hf H. unfold scan_or_repair in H.
  destruct (ledger_scan_latest_two (pass v M_scan) kind l) as [sc|] eqn:Es.
  - simplify_eq. split; [reflexivity|]. apply scan_some in Es as (front & rs & tl & -> & Hw & ->).
    exists front, rs, tl. split_and!; [done|done|done|by left].
  - destruct (ledger_repair_torn_tail v p w) as [ok w1] eqn:Er. pose proof (repair_extends _ _ _ _ _ Hrd Er) as [Hx Hr].
    destruct ok; cbn [negb] in H; [|by simplify_eq].
    unfold open_file in H. destruct (if io_open v O_reopen then files w1 !! p else None) as [f1|] eqn:E1; [|by simplify_eq].
    assert (Hf1 : files w1 !! p = Some f1) by (by destruct (io_open v O_reopen)).
    destruct (read_header _ f1) as [l1|] eqn:Eh; [|by simplify_eq]. simplify_eq. split; [done|].
    destruct (ledger_scan_latest_two (pass v M_rescan) kind l1) as [sc|] eqn:Es1; [|done].
    apply read_header_some, check_header_some in Eh as ->. apply scan_some in Es1 as (front & rs & tl & -> & Hw & ->).
    exists front, rs, tl. split_and!; [done|done|done|].
    destruct Hr as [->|(f & l0 & rs0 & e & tl0 & fr & H0 & H3 & H4 & _ & H5 & H1 & H2)].
    + left. rewrite Hf in Hf1. simplify_eq. done.
    + right. rewrite H1 in Hf1. injection Hf1 as Hf1. rewrite <- Hf1 in Hw.
      destruct (walk_fun _ _ _ _ _ H2 _ _ _ Hw) as (-> & _ & ->). split; [done|].
      rewrite Hf in H0. apply (inj Some) in H0. subst f. apply check_header_some, app_inv_head in H3 as ->. eauto.
Qed.

(** The steps before the append touch no other file. *)
Definition frame (p : list Z) (w w' : fs) : Prop := forall q, q <> p -> files w' !! q = files w !! q.
Lemma frame_set p f w : frame p w (set_file p f w).
Proof. intros q Hq. cbn [set_file files]. by rewrite lookup_insert_ne. Qed.
#[export] Instance frame_preorder p : PreOrder (frame p).
Proof. split; [by intros w q|]. intros a b c H1 H2 q Hq. by rewrite H2, H1. Qed.
Lemma open_for_append_frame v p w l w' : open_for_append v p w = (l, w') -> frame p w w'.
Proof.
  unfold open_for_append, put_header, open_file. intros H. repeat case_match; simplify_eq; first [reflexivity|apply frame_set].
Qed.
Lemma scan_or_repair_frame v kind p l w o w' : scan_or_repair v kind p l w = (o, w') -> frame p w w'.
Proof.
  unfold scan_or_repair, ledger_repair_torn_tail, ledger_open_for_read, open_file. intros H.
  repeat case_match; simplify_eq; first [reflexivity|apply frame_set].
Qed.

Lemma lookup_other p x f w : x <> [] -> files (set_file (p ++ x) f w) !! p = files w !! p.
Proof.
  intros Hx. cbn [set_file files]. apply lookup_insert_ne. intros E. apply (f_equal length) in E.
  rewrite length_app in E. by destruct x; [|cbn in E; lia].
Qed.
Lemma remove_other p x w : x <> [] -> files (remove_file (p ++ x) w) !! p = files w !! p.
Proof.
  intros Hx. cbn [remove_file files]. apply lookup_delete_ne. intros E. apply (f_equal length) in E.
  rewrite length_app in E. by destruct x; [|cbn in E; lia].
Qed.

Section Spec.
Context {DG : Digest}.

Lemma head_write_ledger v s recs w : files (snd (ledger_head_write v s recs w)) !! ledger_path s = files w !! ledger_path s.
Proof.
  unfold ledger_head_write, ledger_head_path. destruct (_ <? 4096)%nat; [|done].
  destruct (io_open v O_head_w); [|done]. cbn [negb]. rewrite <- app_assoc.
  destruct (io_head v); cbn [negb snd]; [|by rewrite remove_other]. destruct (io_rename v); cbn [snd].
  - by rewrite lookup_other, remove_other.
  - by rewrite remove_other.
Qed.
Lemma after_append_ledger v s r sc w : files (after_append v s r sc w) !! ledger_path s = files w !! ledger_path s.
Proof.
  unfold after_append. assert (Hc : files (ledger_csv_append v s r (n_records sc) w) !! ledger_path s = files w !! ledger_path s).
  { unfold ledger_csv_append, ledger_csv_path. destruct (_ <=? _)%nat; [done|]. destruct (negb _); [done|].
    destruct (io_open v O_csv_w); [by rewrite lookup_other|done]. }
  assert (Hh : forall w, files (snd (ledger_head_update v s (r_kind r) (n_kind sc) w)) !! ledger_path s = files w !! ledger_path s).
  { intros w0. unfold ledger_head_update. destruct (ledger_head_path s); [|done].
    destruct (match findi _ _ with Some _ => _ | None => _ end) as [[i recs]|]; [|done]. apply head_write_ledger. }
  specialize (Hh (ledger_csv_append v s r (n_records sc) w)). destruct (ledger_head_update _ _ _ _ _) as [rows w1].
  cbn [snd] in Hh. rewrite <- Hc, <- Hh. unfold ledger_anchor_publish. destruct (io_anchor v); [done|..]; by destruct (_ <=? _)%nat.
Qed.

(** An append: nothing it does removes a record; when it reports success the
    new record's bytes are at the end of the file. *)
Lemma write_spec v s kind payload w rc w' : reads_ok (pass v M_repair) -> ledger_write_entry v s kind payload w = (rc, w') ->
  extends (ledger_path s) w w' /\
  (rc = FSQL_OK -> exists w1 l front rs tl sc, 1 <= kind <= 16 /\
     Z.of_nat (length payload) <= LEDGER_MAX_BLOB_BYTES /\
     opened (ledger_path s) w w1 l /\ scan_from l rs (front ++ tl) tl /\
     walk all_mem (front ++ tl) rs R_eof tl /\ sc = scanned kind rs /\
     exists w2, files w2 !! ledger_path s = Some (header_bytes ++ front ++ tl ++ record_bytes (new_record s kind (io_now v) payload (latest sc))) /\
       frame (ledger_path s) w w2 /\ w' = after_append v s (new_record s kind (io_now v) payload (latest sc)) sc w2).
Proof.
  intros Hrd H. unfold ledger_write_entry in H. set (p := ledger_path s) in *.
  assert (Hno : forall c, (c, w) = (rc, w') -> c = FSQL_ESTORAGE -> extends p w w' /\ (rc = FSQL_OK -> False)).
  { intros c [= -> ->] ->. split; [reflexivity|done]. }
  destruct ((kind <? 1) || _) eqn:Ek; [edestruct Hno as [? Hn]; [done|done|split; [done|by intros ?%Hn]]|].
  destruct (4294967295 <? _); [edestruct Hno as [? Hn]; [done|done|split; [done|by intros ?%Hn]]|].
  destruct (LEDGER_MAX_BLOB_BYTES <? _) eqn:El; [edestruct Hno as [? Hn]; [done|done|split; [done|by intros ?%Hn]]|].
  destruct (_ - _ <? _); [edestruct Hno as [? Hn]; [done|done|split; [done|by intros ?%Hn]]|].
  destruct (open_for_append v p w) as [o w1] eqn:Eo. pose proof (open_for_append_frame _ _ _ _ _ Eo) as Hfr1.
  apply open_for_append_extends in Eo as [Hx1 Ho].
  destruct o as [l|]; [|by simplify_eq]. pose proof Ho as [Hf1 _].
  destruct (scan_or_repair v kind p l w1) as [[sc|] w2] eqn:Es; pose proof (scan_or_repair_frame _ _ _ _ _ _ _ Es) as Hfr2;
    apply scan_or_repair_spec in Es as [Hx2 Hs]; try exact Hrd; try done.
  2: { simplify_eq. split; [by transitivity w1|done]. }
  destruct Hs as (front & rs & tl & Hf2 & Hw & Hsc & Htl).
  set (r := new_record s kind (io_now v) payload (latest sc)) in *.
  destruct (negb (io_malloc v M_hash _)); [simplify_eq; split; [by transitivity w1|done]|].
  destruct (negb (io_open v O_append)); [simplify_eq; split; [by transitivity w1|done]|].
  rewrite Hf2 in H. cbn [default] in H.
  pose proof (extends_append p w2 _ (arrived (io_record v) (record_bytes r)) Hf2) as Hx3.
  destruct (io_sync v && _) eqn:Ey; injection H as <- <-.
  - split.
    + do 2 (etransitivity; [eassumption|]). etransitivity; [exact Hx3|]. apply extends_same, after_append_ledger.
    + intros _. exists w1, l, front, rs, tl, sc. apply orb_false_iff in Ek as [Ek1 Ek2].
      apply andb_true_iff in Ey as [_ Ey%complete_arrived]. unfold LEDGER_MAX_KIND in *.
      split_and!; try lia; try done. eexists. split_and!; [| |done].
      * cbn [set_file files]. by rewrite lookup_insert_eq, Ey, <- !app_assoc.
      * do 2 (etransitivity; [eassumption|]). apply frame_set.
  - split; [|done]. do 2 (etransitivity; [eassumption|]). exact Hx3.
Qed.

(** *** What a written ledger holds *)

(** The file at [p] can be appended to: it is missing, empty, or has a valid
    header and the records [rs], and what follows the last of them, if
    anything, is at least the four bytes the header read needs to notice it. *)
Definition recoverable (p : list Z) (w : fs) (rs : list ledger_record_t) : Prop :=
  match files w !! p with
  | None => rs = []
  | Some f => (f = [] /\ rs = []) \/
      exists l e tl, f = header_bytes ++ l /\ walk all_mem l rs e tl /\ (e = R_eof -> tl = [])
  end.
(** It holds the records and nothing else. *)
Definition intact (p : list Z) (w : fs) (rs : list ledger_record_t) : Prop :=
  exists l, files w !! p = Some (header_bytes ++ l) /\ walk all_mem l rs R_eof [].

Lemma intact_recoverable p w rs : intact p w rs -> recoverable p w rs.
Proof. intros (l & Hf & Hw). unfold recoverable. rewrite Hf. right. by exists l, R_eof, []. Qed.

Lemma intact_records p w rs : intact p w rs -> file_records p w rs.
Proof.
  intros (l & Hf & Hw). unfold file_records. rewrite Hf. cbn [mbind option_bind].
  rewrite (proj2 (check_header_some _ _) eq_refl). eauto.
Qed.

Definition zeros : list Z := replicate LEDGER_HASH_LEN 0.
(** A record that passes the checks under the key. *)
Definition rec_ok (key : option (list Z)) (r : ledger_record_t) : Prop :=
  match key with Some k => has_mac r = true /\ hmac k (r_blob r) = r_mac r | None => True end /\
  chain_hash r = r_entry_hash r.
Fixpoint chain_ok (key : option (list Z)) (prev : list Z) (rs : list ledger_record_t) : Prop :=
  match rs with
  | [] => True
  | r :: rs => rec_ok key r /\ r_prev_hash r = prev /\ chain_ok key (r_entry_hash r) rs
  end.
Definition chained (key : option (list Z)) (rs : list ledger_record_t) : Prop :=
  forall kind, chain_ok key zeros (of_kind kind rs).

(** The hash the next record of a chain links to. *)
Definition tip (prev : list Z) (rs : list ledger_record_t) : list Z :=
  match rev rs with [] => prev | r :: _ => r_entry_hash r end.
Lemma tip_cons prev r rs : tip prev (r :: rs) = tip (r_entry_hash r) rs.
Proof. unfold tip. cbn [rev]. by destruct (rev rs). Qed.
Lemma tip_last_two rs : prev_of (fst (last_two rs)) = tip zeros rs.
Proof. unfold last_two, tip. by destruct (rev rs) as [|a [|b q]]. Qed.

Lemma chain_app key prev a b : chain_ok key prev (a ++ b) <-> chain_ok key prev a /\ chain_ok key (tip prev a) b.
Proof.
  revert prev. induction a as [|r a IH]; intros prev; [cbn; tauto|]. cbn [app chain_ok]. rewrite IH, tip_cons. tauto.
Qed.

Lemma s64_range x : - 2 ^ 63 <= s64 x < 2 ^ 63.
Proof. unfold s64. pose proof (u64_range x). cbv zeta. destruct (u64 x <? 2 ^ 63) eqn:E; lia. Qed.

Lemma new_record_ok s kind now payload prev : rec_ok (ledger_key s) (new_record s kind now payload prev).
Proof. unfold rec_ok, new_record. by destruct (ledger_key s). Qed.
Lemma new_record_wf s kind now payload prev : 1 <= kind <= 16 ->
  Z.of_nat (length payload) <= LEDGER_MAX_BLOB_BYTES ->
  match prev with Some r => length (r_entry_hash r) = 32%nat | None => True end ->
  rec_wf (new_record s kind now payload prev).
Proof.
  intros Hk Hp Hr. unfold new_record. constructor; cbn [r_kind r_has_mac r_sealed r_mac r_prev_hash r_entry_hash r_updated r_blob].
  - lia.
  - unfold byte_ok. destruct (ledger_key s); lia.
  - unfold byte_ok. lia.
  - destruct (ledger_key s) as [k|]; [apply hmac_is_digest|done].
  - by destruct prev.
  - apply sha256_digest.
  - apply s64_range.
  - done.
Qed.

(** The fields of a record read from a file have their fixed widths. *)
Definition widths (r : ledger_record_t) : Prop :=
  length (r_mac r) = 32%nat /\ length (r_prev_hash r) = 32%nat /\ length (r_entry_hash r) = 32%nat.
Lemma read_widths m l r l' : read_record m l = R_rec r l' -> widths r.
Proof.
  unfold read_record. destruct (ledger_read_record_header m l) as [| |h l1] eqn:E; [done|done|].
  assert (Hh : widths (h_rec h)).
  { unfold ledger_read_record_header in E. freads E; [|by destruct (fl_read m _)]. simplify_eq. unfold widths. cbn [h_rec r_mac r_prev_hash r_entry_hash].
    repeat match goal with Hx : fread_io _ LEDGER_HASH_LEN _ = Some _ |- _ => apply fread_io_some in Hx as [_ ?] end. done. }
  destruct (_ =? 0); [by intros [= <- _]|]. destruct (_ <? _); [done|]. destruct (negb _); [done|].
  destruct (fread_io _ _ l1) as [[b l2]|]; [|done]. by intros [= <- _].
Qed.
Lemma walk_widths m l rs e l' : walk m l rs e l' -> Forall widths rs.
Proof. induction 1; constructor; [by eapply read_widths|done]. Qed.
Lemma last_two_in rs r : fst (last_two rs) = Some r -> r ∈ rs.
Proof.
  unfold last_two. intros H. rewrite <- (rev_involutive rs). apply list_elem_of_In, in_rev. rewrite rev_involutive.
  destruct (rev rs) as [|a [|b q]]; cbn in H; simplify_eq; by left.
Qed.
Lemma of_kind_in kind rs r : r ∈ of_kind kind rs -> r ∈ rs.
Proof. rewrite !list_elem_of_In. unfold of_kind. by intros [? _]%filter_In. Qed.

Lemma opened_walk p w w1 l rs : recoverable p w rs -> opened p w w1 l ->
  exists e tl, walk all_mem l rs e tl /\ (e = R_eof -> tl = []).
Proof.
  assert (H0 : exists e tl, walk all_mem [] [] e tl /\ (e = R_eof -> tl = [])).
  { exists R_eof, []. split; [by constructor|done]. }
  unfold recoverable. intros Hr [_ Ho]. destruct (files w !! p) as [f|] eqn:Ef.
  - destruct Hr as [[-> ->]|(l0 & e & tl & -> & Hw & He)].
    + destruct Ho as [Ho| ->]; [discriminate Ho|by cbn].
    + assert (l = l0) as ->; [|eauto]. destruct Ho as [Ho| ->]; [|apply (drop_app_length header_bytes l0)].
      apply (inj Some) in Ho. by apply app_inv_head in Ho.
  - subst rs. destruct Ho as [Ho| ->]; [done|by cbn].
Qed.

(** A successful append to a recoverable ledger: the file holds the old
    records and the new one, which continues its kind's chain. *)
Lemma write_intact v s kind payload w w' rs : reads_ok (pass v M_repair) -> recoverable (ledger_path s) w rs ->
  ledger_write_entry v s kind payload w = (FSQL_OK, w') ->
  let r := new_record s kind (io_now v) payload (fst (last_two (of_kind kind rs))) in
  intact (ledger_path s) w' (rs ++ [r]) /\ 1 <= kind <= 16 /\
  exists w2, frame (ledger_path s) w w2 /\ w' = after_append v s r (scanned kind rs) w2.
Proof.
  intros Hrd Hr H. apply write_spec in H as [_ H]; [|exact Hrd]. destruct (H eq_refl) as (w1 & l & front & rs' & tl & sc & Hk & Hp & Ho & Hs & Hw & -> & w2 & Hf & Hfr & ->).
  destruct (opened_walk _ _ _ _ _ Hr Ho) as (e & tl' & Hl & He).
  assert (rs' = rs /\ tl = []) as [-> ->].
  { destruct Hs as [-> | (-> & e2 & tl2 & H2 & _)].
    - destruct (walk_fun _ _ _ _ _ Hl _ _ _ Hw) as (-> & <- & ->). split; [done|by apply He].
    - by destruct (walk_fun _ _ _ _ _ Hl _ _ _ H2) as (-> & _). }
  assert (Hlat : latest (scanned kind rs) = fst (last_two (of_kind kind rs))).
  { destruct (scan_fold kind rs) as (E & _). unfold scanned. by rewrite <- E. }
  rewrite Hlat in *. set (r := new_record s kind (io_now v) payload (fst (last_two (of_kind kind rs)))) in *.
  cbv zeta. rewrite !app_nil_r in *. cbn [app] in Hf. split; [|split; [done|]].
  - exists (front ++ record_bytes r). rewrite after_append_ledger. split; [done|].
    destruct (walk_split _ _ _ _ _ Hw) as (fr & E & _ & Hx). rewrite app_nil_r in E. subst fr. apply Hx.
    econstructor; [|by constructor]. rewrite <- (app_nil_r (record_bytes r)). apply record_roundtrip.
    apply new_record_wf; [done|done|]. destruct (fst (last_two _)) as [q|] eqn:Eq; [|done].
    apply last_two_in, of_kind_in in Eq. apply walk_widths in Hw. eapply Forall_forall in Hw as (_ & _ & ?); done.
  - by exists w2.
Qed.

Lemma write_chained s kind now payload rs : chained (ledger_key s) rs ->
  chained (ledger_key s) (rs ++ [new_record s kind now payload (fst (last_two (of_kind kind rs)))]).
Proof.
  intros Hc k. unfold of_kind in *. rewrite List.filter_app. set (r := new_record _ _ _ _ _).
  apply chain_app. split; [apply Hc|]. cbn [List.filter]. change (r_kind r) with kind.
  destruct (kind =? k) eqn:E; [|done]. apply Z.eqb_eq in E as ->. cbn [chain_ok]. split_and!; [apply new_record_ok| |done].
  unfold r, new_record. cbn [r_prev_hash]. apply tip_last_two.
Qed.

(** *** The verifier *)

Definition vstep (v : io) (key : option (list Z)) (kind : Z) (t : walk_state) (r : ledger_record_t)
    : walk_state + Z * option (Z * reason) :=
  let t := {| v_n := v_n t; v_rec := v_rec t + 1; v_prev := v_prev t |} in
  if negb (r_kind r =? kind) then inl t
  else
    let t := {| v_n := v_n t + 1; v_rec := v_rec t; v_prev := v_prev t |} in
    match check_record v key r with
    | Some y => inr (v_n t, Some (v_rec t, y))
    | None =>
        if bytes_eqb (r_prev_hash r) (v_prev t)
        then inl {| v_n := v_n t; v_rec := v_rec t; v_prev := r_entry_hash r |}
        else inr (v_n t, Some (v_rec t, Y_link))
    end.
Definition vstop (t : walk_state) (e : rec_res) : Z * option (Z * reason) :=
  match e with
  | R_hdr => (v_n t, Some (v_rec t + 1, Y_truncated))
  | R_len => (v_n t, Some (v_rec t + 1, Y_length))
  | R_mem | R_blob => (v_n t, Some (v_rec t + 1, Y_blob))
  | _ => (v_n t, None)
  end.

Lemma verify_run v key kind l rs e l' : walk (pass v M_scan) l rs e l' ->
  verify_walk v key kind l = run (vstep v key kind) vstop rs e walk0.
Proof.
  intros H. unfold verify_walk.
  rewrite (while_ext _ (turn (pass v M_scan) (vstep v key kind) vstop)).
  2: { intros [x t]. unfold verify_turn, turn, vstep, vstop. cbn [fst snd].
       destruct (read_record _ x) as [| | | | |r y]; try done. destruct (negb _); [done|].
       destruct (check_record v key r); [done|]. by destruct (bytes_eqb _ _). }
  by rewrite (turn_loop _ _ _ _ _ _ _ walk0 H) by lia.
Qed.

Lemma check_record_none v key r : check_record v key r = None <->
  rec_ok key r /\ io_malloc v M_hash (Z.of_nat LEDGER_HASH_LEN + Z.of_nat (length (r_blob r)) +
                (if has_mac r then Z.of_nat LEDGER_HASH_LEN else 0)) = true.
Proof.
  unfold check_record, rec_ok. set (n := _ + _ + _). destruct key as [k|].
  - destruct (has_mac r); cbn [negb]; [|split; [done|by intros [[[? _] _] _]]].
    destruct (bytes_eqb (hmac _ _) _) eqn:E; [|split; [done|]].
    + apply bytes_eqb_true in E. destruct (io_malloc v M_hash n); cbn [negb]; [|split; [done|by intros [_ ?]]].
      destruct (bytes_eqb (chain_hash r) _) eqn:E2; [apply bytes_eqb_true in E2; tauto|].
      split; [done|]. intros [[_ ?%bytes_eqb_true] _]. congruence.
    + intros [[[_ ?%bytes_eqb_true] _] _]. congruence.
  - destruct (io_malloc v M_hash n); cbn [negb]; [|split; [done|by intros [_ ?]]].
    destruct (bytes_eqb (chain_hash r) _) eqn:E2; [apply bytes_eqb_true in E2; tauto|].
    split; [done|]. intros [[_ ?%bytes_eqb_true] _]. congruence.
Qed.

(** A walk that reports no failure saw a clean file and a correct chain. *)
Lemma run_sound v key kind rs e t n : run (vstep v key kind) vstop rs e t = (n, None) ->
  (forall r l, e <> R_rec r l) ->
  e = R_eof /\ chain_ok key (v_prev t) (of_kind kind rs) /\ n = v_n t + Z.of_nat (length (of_kind kind rs)).
Proof.
  intros H He. revert t H. induction rs as [|r rs IH]; intros t H; cbn [run] in H.
  - destruct e; cbn in H; simplify_eq; [|by edestruct He]. split_and!; [done|done|cbn; lia].
  - unfold vstep in H at 1. cbv zeta in H. cbn [of_kind List.filter]. unfold of_kind.
    destruct (r_kind r =? kind) eqn:Ek; cbn [negb] in H.
    + destruct (check_record v key r) eqn:Ec; [done|]. apply check_record_none in Ec as [Ec _].
      cbn [v_prev v_n v_rec] in H. destruct (bytes_eqb _ _) eqn:Ep; [|done]. apply bytes_eqb_true in Ep.
      apply IH in H as (-> & Hc & ->). cbn [v_prev v_n] in *. cbn [chain_ok length]. unfold of_kind in *. split_and!; [done|done|done|done|lia].
    + apply IH in H as (-> & Hc & ->). done.
Qed.
(** A clean file with a correct chain is accepted. *)
Lemma run_complete v key kind rs t : (forall n, io_malloc v M_hash n = true) ->
  chain_ok key (v_prev t) (of_kind kind rs) ->
  run (vstep v key kind) vstop rs R_eof t = (v_n t + Z.of_nat (length (of_kind kind rs)), None).
Proof.
  intros Hm. revert t. induction rs as [|r rs IH]; intros t Hc; cbn [run].
  - cbn. f_equal. lia.
  - unfold vstep at 1. cbv zeta. cbn [of_kind List.filter] in *. unfold of_kind in *.
    destruct (r_kind r =? kind) eqn:Ek; cbn [negb].
    + cbn [chain_ok] in Hc. destruct Hc as (Hr & Hp & Hc).
      rewrite (proj2 (check_record_none v key r)) by done. cbn [v_prev v_n v_rec].
      rewrite (proj2 (bytes_eqb_true _ _)) by done. rewrite IH by done. cbn [v_n length]. f_equal. lia.
    + by rewrite IH.
Qed.

(** Every call of the operation succeeds. *)
Record faultless (v : io) : Prop := {
  f_malloc : forall site n, io_malloc v site n = true;
  f_open : forall site, io_open v site = true;
  f_read : forall site n, io_read v site n = true;
  f_size : io_size v = true; f_rewind : io_rewind v = true; f_truncate : io_truncate v = true;
  f_header : io_header v = None; f_record : io_record v = None;
  f_sync : io_sync v = true; f_head : io_head v = true; f_rename : io_rename v = true
}.

Lemma faultless_reads v site : faultless v -> reads_ok (pass v site).
Proof. intros Hv n. apply (f_read v Hv). Qed.
Lemma faultless_walk v site l rs e l' : faultless v -> walk all_mem l rs e l' -> walk (pass v site) l rs e l'.
Proof.
  intros Hv. assert (Hr : forall x, read_record (pass v site) x = read_record all_mem x).
  { intros x. unfold read_record. rewrite (header_reads (pass v site)) by by apply faultless_reads. destruct (ledger_read_record_header all_mem x) as [| |h y]; try done.
    destruct (_ =? 0); [done|]. destruct (_ <? _); [done|]. cbn [pass all_mem fl_malloc]. rewrite (f_malloc v Hv). cbn [negb].
    by rewrite (fread_io_reads (pass v site)) by by apply faultless_reads. }
  induction 1; econstructor; rewrite ?Hr; eauto.
Qed.

Lemma verify_intact v s kind w rs : faultless v -> intact (ledger_path s) w rs ->
  chain_ok (ledger_key s) zeros (of_kind kind rs) ->
  ledger_verify v s kind w = Some
    match ledger_head_check v s (s32 kind) w with
    | Some y => Rep_fail 0 y
    | None => if Z.of_nat (length (of_kind kind rs)) <? ledger_head_get v s kind w
              then Rep_fail (Z.of_nat (length (of_kind kind rs)) + 1) Y_fewer
              else Rep_ok (Z.of_nat (length (of_kind kind rs)))
    end.
Proof.
  intros Hv (l & Hf & Hw) Hc. unfold ledger_verify, ledger_open_for_read, open_file.
  rewrite (f_open v Hv), Hf. unfold read_header. cbn [pass fl_read]. rewrite (f_read v Hv), (proj2 (check_header_some _ _) eq_refl).
  rewrite (verify_run _ _ _ _ _ _ _ (faultless_walk v M_scan _ _ _ _ Hv Hw)).
  rewrite run_complete; [|intros; apply (f_malloc v Hv)|done]. rewrite (f_malloc v Hv). cbn [negb walk0 v_n].
  by rewrite Z.add_0_l.
Qed.

(** What an accepting report says of the file. *)
Lemma verify_ok_inv v s kind w n rs : io_open v O_read = true ->
  ledger_verify v s kind w = Some (Rep_ok n) -> file_records (ledger_path s) w rs ->
  chain_ok (ledger_key s) zeros (of_kind kind rs) /\ n = Z.of_nat (length (of_kind kind rs)) /\
  ledger_head_get v s kind w <= n /\
  (files w !! ledger_path s = None \/ ledger_head_check v s (s32 kind) w = None).
Proof.
  intros Ho H Hr. unfold ledger_verify, ledger_open_for_read, open_file in H. rewrite Ho in H.
  unfold file_records in Hr. destruct (files w !! ledger_path s) as [f|]; cbn in Hr.
  - destruct (read_header _ f) as [l|] eqn:Eh; [|by destruct (io_malloc v M_report 320)]. apply read_header_some in Eh. rewrite Eh in Hr.
    destruct Hr as (e & l' & Hw). destruct (walk_total (pass v M_scan) l) as (rs2 & e2 & l2 & Hw2).
    rewrite (verify_run _ _ _ _ _ _ _ Hw2) in H. destruct (run _ _ rs2 e2 walk0) as [m fail] eqn:Er.
    destruct (io_malloc v M_report 320); cbn [negb] in H; [|done].
    destruct fail as [[id y]|]; [done|]. destruct (ledger_head_check _ _ _ _); [done|].
    destruct (m <? _) eqn:Em; [done|]. simplify_eq.
    assert (He2 : forall r l, e2 <> R_rec r l) by (clear -Hw2; by induction Hw2).
    apply run_sound in Er as (-> & Hc & ->); [|done].
    apply walk_eof in Hw2. destruct (walk_fun _ _ _ _ _ Hw _ _ _ Hw2) as (-> & _ & _).
    cbn [walk0 v_n v_prev] in *. split_and!; [done|lia|lia|by right].
  - subst rs. destruct (io_malloc v M_report 320); cbn [negb] in H; [|done].
    destruct (0 <? ledger_head_get v s kind w) eqn:E; simplify_eq. cbn. split_and!; [done|done|lia|by left].
Qed.

(** *** Files written by others *)

Lemma le_val_read m n l a b : bytes_ok l -> fread_io m n l = Some (a, b) -> 0 <= le_val a < 256 ^ Z.of_nat n /\ bytes_ok b.
Proof.
  intros Hl H. apply fread_io_some in H as [-> Ha]. apply bytes_ok_app in Hl as [H1 H2]. split; [|done].
  by apply le_val_range_len.
Qed.
Lemma read_wf m l r l' : bytes_ok l -> read_record m l = R_rec r l' -> rec_wf r /\ bytes_ok l'.
Proof.
  intros Hl H. pose proof (read_widths _ _ _ _ H) as (Hw1 & Hw2 & Hw3). unfold read_record in H.
  destruct (ledger_read_record_header m l) as [| |h l1] eqn:E; [done|done|].
  assert (Hh : 0 <= r_kind (h_rec h) < 2 ^ 32 /\ byte_ok (r_has_mac (h_rec h)) /\ byte_ok (r_sealed (h_rec h)) /\
    - 2 ^ 63 <= r_updated (h_rec h) < 2 ^ 63 /\ r_blob (h_rec h) = [] /\ 0 <= h_blen h /\ bytes_ok l1).
  { unfold ledger_read_record_header in E. freads E; [|by destruct (fl_read m _)]. simplify_eq. cbn [h_rec h_blen r_kind r_has_mac r_sealed r_updated r_blob].
    repeat match goal with Hb : bytes_ok ?x, Hx : fread_io _ _ ?x = Some _ |- _ => apply (le_val_read _ _ _ _ _ Hb) in Hx as [? ?] end.
    unfold byte_ok. split_and!; try done; try lia; apply s64_range. }
  destruct Hh as (H1 & H2 & H3 & H4 & H5 & H6 & H7).
  destruct (h_blen h =? 0).
  - injection H as <- <-. split; [|done]. constructor; try done. rewrite H5. done.
  - destruct (_ <? h_blen h) eqn:El; [done|]. destruct (negb _); [done|].
    destruct (fread_io _ _ l1) as [[b l2]|] eqn:Ef; [|done]. injection H as <- <-. apply fread_io_some in Ef as [-> Hb].
    apply bytes_ok_app in H7 as [_ H7]. split; [|done]. constructor; try done. cbn [with_blob r_blob]. rewrite Hb. lia.
Qed.
Lemma walk_wf m l rs e l' : bytes_ok l -> walk m l rs e l' -> Forall rec_wf rs.
Proof.
  intros Hl H. revert Hl. induction H as [|l r l1 rs e l2 Hr _ IH]; intros Hl; constructor.
  - by eapply read_wf.
  - apply IH. by eapply read_wf.
Qed.

Lemma walk_written rs : Forall rec_wf rs -> walk all_mem (flat_map record_bytes rs) rs R_eof [].
Proof.
  induction 1 as [|r rs Hr _ IH]; [by constructor|]. cbn [flat_map]. econstructor; [|exact IH].
  by apply record_roundtrip.
Qed.

(** The head file is another file. *)
Lemma head_read_other v s f w : ledger_head_read v s (set_file (ledger_path s) f w) = ledger_head_read v s w.
Proof.
  unfold ledger_head_read, ledger_head_path. destruct (_ <? 4096)%nat; [|done]. unfold open_file.
  destruct (io_open v O_head_r); [|done]. cbn [set_file files]. rewrite lookup_insert_ne; [done|].
  intros E. apply (f_equal length) in E. rewrite length_app in E. cbn in E. lia.
Qed.
Lemma head_get_other v s kind f w : ledger_head_get v s kind (set_file (ledger_path s) f w) = ledger_head_get v s kind w.
Proof. unfold ledger_head_get. by rewrite head_read_other. Qed.
Lemma head_check_other v s kind f w : ledger_head_check v s kind (set_file (ledger_path s) f w) = ledger_head_check v s kind w.
Proof. unfold ledger_head_check. by rewrite head_read_other. Qed.
End Spec.
