(* ===== verification/HeadProofs.v ===== *)
(** * The head file and the mirror's encodings

    The head file's text is read back as the records it was written from;
    the row counter it holds exposes a truncated chain, and what can still
    hide one.  Base64 and hex lose nothing. *)

From stdpp Require Import gmap.
From S2P Require Import Prelude Hmac Enterprise LedgerFmt Ledger LedgerProofs.

(** ** Hexadecimal *)

Lemma hexd_value x : 0 <= x < 16 -> ledger_hex_value (hexd x) = x.
Proof.
  intros Hx. assert (H : forallb (fun n => ledger_hex_value (hexd (Z.of_nat n)) =? Z.of_nat n) (seq 0 16) = true) by reflexivity.
  rewrite forallb_forall in H. specialize (H (Z.to_nat x)). rewrite Z2Nat.id in H by lia. apply Z.eqb_eq, H, in_seq. lia.
Qed.
Lemma hexd_pair b : byte_ok b ->
  ledger_hex_value (hexd (Z.land (Z.shiftr b 4) 15)) = Z.land (Z.shiftr b 4) 15 /\
  ledger_hex_value (hexd (Z.land b 15)) = Z.land b 15 /\
  0 <= Z.land (Z.shiftr b 4) 15 /\ 0 <= Z.land b 15 /\
  u8 (Z.lor (Z.shiftl (Z.land (Z.shiftr b 4) 15) 4) (Z.land b 15)) = b.
Proof.
  intros Hb. assert (H : forallb (fun n => let b := Z.of_nat n in
    (0 <=? Z.land (Z.shiftr b 4) 15) && (Z.land (Z.shiftr b 4) 15 <? 16) && (0 <=? Z.land b 15) && (Z.land b 15 <? 16) &&
    (u8 (Z.lor (Z.shiftl (Z.land (Z.shiftr b 4) 15) 4) (Z.land b 15)) =? b)) (seq 0 256) = true) by (vm_compute; reflexivity).
  rewrite forallb_forall in H. specialize (H (Z.to_nat b)). cbv zeta in H. unfold byte_ok in Hb. rewrite Z2Nat.id in H by lia.
  assert (Hin : In (Z.to_nat b) (seq 0 256)) by (apply in_seq; lia). apply H in Hin. bools.
  rewrite !hexd_value by lia. split_and!; lia.
Qed.
Lemma hexd_no_nul x : 0 <= x < 16 -> hexd x <> 0 /\ hexd x <> 10.
Proof.
  intros Hx. assert (H : forallb (fun n => negb (hexd (Z.of_nat n) =? 0) && negb (hexd (Z.of_nat n) =? 10)) (seq 0 16) = true) by reflexivity.
  rewrite forallb_forall in H. specialize (H (Z.to_nat x)). cbv beta in H. rewrite Z2Nat.id in H by lia.
  assert (Hin : In (Z.to_nat x) (seq 0 16)) by (apply in_seq; lia). apply H in Hin. bools. by split; apply Z.eqb_neq.
Qed.
Lemma hex_encode_length m : length (ledger_hex_encode m) = (2 * length m)%nat.
Proof.
  unfold ledger_hex_encode. induction m as [|b m IH]; [done|]. cbn [flat_map app length]. rewrite IH. lia.
Qed.
Lemma hex_encode_chars m : Forall (fun c => c <> 0 /\ c <> 10) (ledger_hex_encode m).
Proof.
  induction m as [|b m IH]; [constructor|]. cbn [ledger_hex_encode flat_map app].
  assert (Hr : forall x, 0 <= Z.land x 15 < 16).
  { intros x. change 15 with (Z.ones 4). rewrite Z.land_ones by lia. apply Z.mod_pos_bound. lia. }
  repeat constructor; try apply hexd_no_nul, Hr. exact IH.
Qed.

(** The encoding of a hash is read back by the digit loop. *)
Lemma hex_pairs_encode m rest : bytes_ok m -> hex_pairs (length m) (ledger_hex_encode m ++ rest) = Some (m, rest).
Proof.
  induction 1 as [|b m Hb _ IH]; [done|].
  change (ledger_hex_encode (b :: m) ++ rest) with
    (hexd (Z.land (Z.shiftr b 4) 15) :: hexd (Z.land b 15) :: (ledger_hex_encode m ++ rest)).
  cbn [length hex_pairs]. change (drop 2 _) with (ledger_hex_encode m ++ rest).
  destruct (hexd_pair b Hb) as (E1 & E2 & H1 & H2 & E3).
  unfold at_. cbn [nth]. rewrite E1, E2, IH.
  rewrite (proj2 (Z.ltb_ge _ 0)), (proj2 (Z.ltb_ge _ 0)) by lia. cbn [orb mbind option_bind]. by rewrite E3.
Qed.

(** ** The head file *)

(** A record as [ledger_head_update] writes them. *)
Record head_wf (r : ledger_head_rec_t) : Prop := {
  hw_kind : 0 <= hr_kind r < 2 ^ 31;
  hw_rows : 0 <= hr_rows r <= LONG_MAX;
  hw_bytes : bytes_ok (hr_mac r);
  hw_len : length (hr_mac r) = 32%nat;
  hw_none : hr_has_mac r = false -> hr_mac r = replicate LEDGER_HASH_LEN 0
}.

Lemma strtol_some_dec n rest : 0 <= n <= LONG_MAX -> no_digit rest -> strtol_some (dec_d n ++ rest) = Some (n, rest).
Proof.
  intros Hn Hr. unfold strtol_some. rewrite strtol_dec by done. rewrite length_app.
  pose proof (dec_d_length n Hn). by rewrite (proj2 (Nat.ltb_lt _ _)) by lia.
Qed.
Lemma field_kind k rest r : 0 <= k < 2 ^ 31 -> no_digit rest ->
  head_field (bs "kind=" ++ dec_d k ++ rest, r) =
  inl (rest, {| hr_kind := k; hr_rows := hr_rows r; hr_has_mac := hr_has_mac r; hr_mac := hr_mac r |}).
Proof.
  intros Hk Hr. unfold head_field. change (after_prefix (bs "kind=") (skip_blank (bs "kind=" ++ dec_d k ++ rest))) with (Some (dec_d k ++ rest)).
  cbn [bs app]. change (at_eol _) with false. cbv iota. rewrite strtol_some_dec by (unfold LONG_MAX; done || lia). by rewrite s32_id.
Qed.
Lemma field_rows k rest r : 0 <= k <= LONG_MAX -> no_digit rest ->
  head_field (bs " rows=" ++ dec_d k ++ rest, r) =
  inl (rest, {| hr_kind := hr_kind r; hr_rows := k; hr_has_mac := hr_has_mac r; hr_mac := hr_mac r |}).
Proof.
  intros Hk Hr. unfold head_field.
  change (after_prefix (bs "kind=") (skip_blank (bs " rows=" ++ dec_d k ++ rest))) with (@None (list Z)).
  change (after_prefix (bs "rows=") (skip_blank (bs " rows=" ++ dec_d k ++ rest))) with (Some (dec_d k ++ rest)).
  cbn [bs app]. change (at_eol _) with false. cbv iota. by rewrite strtol_some_dec.
Qed.
Lemma field_mac m rest r : bytes_ok m -> length m = 32%nat ->
  head_field (bs " mac=" ++ ledger_hex_encode m ++ rest, r) =
  inl (rest, {| hr_kind := hr_kind r; hr_rows := hr_rows r; hr_has_mac := true; hr_mac := m |}).
Proof.
  intros Hb Hl. unfold head_field.
  change (after_prefix (bs "kind=") (skip_blank (bs " mac=" ++ ledger_hex_encode m ++ rest))) with (@None (list Z)).
  change (after_prefix (bs "rows=") (skip_blank (bs " mac=" ++ ledger_hex_encode m ++ rest))) with (@None (list Z)).
  change (after_prefix (bs "mac=") (skip_blank (bs " mac=" ++ ledger_hex_encode m ++ rest))) with (Some (ledger_hex_encode m ++ rest)).
  cbn [bs app]. change (at_eol _) with false. cbv iota. unfold LEDGER_HASH_LEN. rewrite <- Hl. by rewrite hex_pairs_encode.
Qed.

Lemma head_parse_line r : head_wf r -> ledger_head_parse (head_line r) = Some r.
Proof.
  intros [Hk Hr Hb Hl Hn]. unfold ledger_head_parse, head_line.
  set (tail := (if hr_has_mac r then bs " mac=" ++ ledger_hex_encode (hr_mac r) else []) ++ [10]).
  change (skip_blank (bs "kind=" ++ ?x)) with (bs "kind=" ++ x). change (isdigit (at_ (bs "kind=" ++ _) 0)) with false. cbv iota.
  set (p := bs "kind=" ++ _). assert (Hlen : (4 <= length p)%nat) by (unfold p; rewrite length_app; cbn; lia).
  destruct (length p) as [|[|[|[|n]]]]; try lia. unfold p. clear p Hlen.
  assert (Ht : no_digit tail) by (unfold tail; by destruct (hr_has_mac r)).
  cbn [while]. rewrite field_kind by done. cbn [while]. rewrite field_rows by done.
  unfold tail. destruct (hr_has_mac r) eqn:Em.
  - rewrite <- app_assoc. cbn [while]. rewrite field_mac by done. cbn [while head_field skip_blank blank orb Z.eqb Pos.eqb at_eol].
    unfold head_finish. cbn [hr_kind hr_rows]. rewrite (proj2 (Z.leb_le _ _)), (proj2 (Z.leb_le _ _)) by lia.
    cbn. destruct r. cbn in *. by subst.
  - cbn [app while head_field skip_blank blank orb Z.eqb Pos.eqb at_eol].
    unfold head_finish. cbn [hr_kind hr_rows]. rewrite (proj2 (Z.leb_le _ _)), (proj2 (Z.leb_le _ _)) by lia.
    cbn [andb default]. destruct r as [k rw hm mm]. cbn [hr_kind hr_rows hr_has_mac hr_mac] in *.
    subst hm. by rewrite (Hn eq_refl).
Qed.

Lemma fgets_line n body rest : Forall (fun c => c <> 10) body -> (length body < n)%nat ->
  fgets n (body ++ 10 :: rest) = (body ++ [10], rest).
Proof.
  intros H. revert n. induction H as [|c body Hc _ IH]; intros n Hn; destruct n as [|n]; cbn in Hn; try lia; cbn [app fgets].
  - done.
  - rewrite (proj2 (Z.eqb_neq _ _)) by done. by rewrite IH by lia.
Qed.

Lemma head_line_body r : head_wf r -> exists body, head_line r = body ++ [10] /\ (length body < 511)%nat /\
  Forall (fun c => c <> 0 /\ c <> 10) body.
Proof.
  intros [Hk Hr Hb Hl _]. unfold head_line.
  exists (bs "kind=" ++ dec_d (hr_kind r) ++ bs " rows=" ++ dec_d (hr_rows r) ++
    (if hr_has_mac r then bs " mac=" ++ ledger_hex_encode (hr_mac r) else [])). split; [by rewrite <- !app_assoc|].
  assert (Hk' : 0 <= hr_kind r <= LONG_MAX) by (unfold LONG_MAX; lia).
  assert (Hd : forall n, 0 <= n <= LONG_MAX -> Forall (fun c => c <> 0 /\ c <> 10) (dec_d n)).
  { intros n Hn. eapply Forall_impl; [by apply dec_d_digits|]. intros c Hc. cbv beta in Hc. unfold isdigit in Hc. lia. }
  split.
  - pose proof (dec_d_length _ Hk'). pose proof (dec_d_length _ Hr). rewrite !length_app.
    destruct (hr_has_mac r); rewrite ?length_app, ?hex_encode_length, ?Hl; cbn [length bs]; lia.
  - repeat (apply Forall_app; split); try (by apply Hd); try (by apply (bool_decide_unpack _); vm_compute; exact Logic.I).
    destruct (hr_has_mac r); [|constructor]. apply Forall_app. split; [|apply hex_encode_chars].
    apply (bool_decide_unpack _); vm_compute; exact Logic.I.
Qed.

Lemma head_step_line r rest recs : head_wf r -> (length recs < LEDGER_HEAD_MAX_RECS)%nat ->
  head_line_step (head_line r ++ rest, recs) = inl (rest, recs ++ [r]).
Proof.
  intros Hr Hl. unfold head_line_step. rewrite (proj2 (Nat.leb_gt _ _)) by done.
  destruct (head_line_body r Hr) as (body & Eb & Hlen & Hb).
  assert (Hf : fgets 511 (head_line r ++ rest) = (head_line r, rest)).
  { rewrite Eb, <- app_assoc. cbn [app]. apply fgets_line; [|done]. eapply Forall_impl; [exact Hb|]. by intros c [_ ?]. }
  assert (Hc : cstr (head_line r) = head_line r).
  { apply cstr_id. rewrite Eb. apply Forall_app. split; [|by repeat constructor]. eapply Forall_impl; [exact Hb|]. by intros c [? _]. }
  rewrite Hf, Hc, (head_parse_line r Hr).
  unfold head_line at 1 2 3. change (skip_blank (bs "kind=" ++ ?x)) with (bs "kind=" ++ x).
  change (at_eol (bs "kind=" ++ _)) with false. change (at_ (bs "kind=" ++ _) 0 =? 35) with false. cbn [orb].
  destruct (head_line r ++ rest) eqn:E; [|done]. rewrite Eb in E. by destruct body.
Qed.

(** A file of at most 17 records is read back as it was written. *)
Lemma head_records_written recs : Forall head_wf recs -> (length recs <= LEDGER_HEAD_MAX_RECS)%nat ->
  head_records (flat_map head_line recs) = Some recs.
Proof.
  intros Hw Hl. unfold head_records.
  assert (H : forall acc n, (length acc + length recs <= LEDGER_HEAD_MAX_RECS)%nat ->
    (length (flat_map head_line recs) < n)%nat ->
    while head_line_step n (flat_map head_line recs, acc) = Some (Some (acc ++ recs))).
  { clear Hl. induction Hw as [|r recs Hr _ IH]; intros acc n Ha Hn; (destruct n as [|n]; [lia|]); cbn [while].
    - unfold head_line_step. rewrite app_nil_r. by destruct (_ <=? _)%nat.
    - cbn [flat_map length] in *. rewrite length_app in Hn. rewrite head_step_line; [|done|lia].
      rewrite IH; [by rewrite <- app_assoc|rewrite length_app; cbn; lia|].
      destruct (head_line_body r Hr) as (body & Eb & _). rewrite Eb, length_app in Hn. cbn in Hn. lia. }
  by rewrite (H [] _) by (cbn; lia).
Qed.

(** ** The counter after an append *)

Section Counter.
Context {DG : Digest}.

Lemma head_path_frame s : ledger_head_path s = Some (ledger_path s ++ bs ".head") \/ ledger_head_path s = None.
Proof. unfold ledger_head_path. destruct (_ <? 4096)%nat; auto. Qed.

(** The records [ledger_head_update] writes. *)
Definition bumped (s : ent) (kind chain_rows : Z) (recs : list ledger_head_rec_t) : list ledger_head_rec_t :=
  match findi (head_kind kind) recs with
  | Some i => alter (head_bump s kind chain_rows) i recs
  | None => alter (head_bump s kind chain_rows) (length recs)
      (recs ++ [{| hr_kind := kind; hr_rows := 0; hr_has_mac := false; hr_mac := replicate LEDGER_HASH_LEN 0 |}])
  end.

Lemma bump_kind s kind n r : hr_kind (head_bump s kind n r) = hr_kind r /\
  hr_rows (head_bump s kind n r) = Z.max (hr_rows r) (n + 1).
Proof. unfold head_bump. destruct (ledger_key s); [destruct (ledger_head_mac _ _ _)|]; done. Qed.
Lemma bump_wf s kind n r : head_wf r -> -1 <= n < LONG_MAX -> head_wf (head_bump s kind n r).
Proof.
  intros [] Hn. destruct (bump_kind s kind n r) as [E1 E2].
  assert (Hmac : bytes_ok (hr_mac (head_bump s kind n r)) /\ length (hr_mac (head_bump s kind n r)) = 32%nat /\
    (hr_has_mac (head_bump s kind n r) = false -> hr_mac (head_bump s kind n r) = replicate LEDGER_HASH_LEN 0)).
  { unfold head_bump. destruct (ledger_key s) as [k|].
    - unfold ledger_head_mac. destruct (_ <=? _)%nat; cbn [hr_mac hr_has_mac]; [done|].
      match goal with |- bytes_ok (hmac ?a ?b) /\ _ => destruct (hmac_is_digest a b) end. done.
    - cbn [hr_mac hr_has_mac]. split_and!; [|done|done]. apply Forall_replicate. by unfold byte_ok. }
  constructor; [rewrite E1; done|rewrite E2; lia|apply Hmac..].
Qed.

Lemma find_findi {A} (f : A -> bool) l : List.find f l = findi f l ≫= (l !!.).
Proof.
  induction l as [|x l IH]; [done|]. cbn [List.find findi]. destruct (f x); [done|]. rewrite IH. by destruct (findi f l).
Qed.
Lemma findi_intro {A} (f : A -> bool) l i x : l !! i = Some x -> f x = true ->
  (forall j y, (j < i)%nat -> l !! j = Some y -> f y = false) -> findi f l = Some i.
Proof.
  revert i. induction l as [|y l IH]; intros i Hi Hx Hj; [done|]. cbn [findi]. destruct i as [|i].
  - cbn in Hi. simplify_eq. by rewrite Hx.
  - rewrite (Hj 0%nat y ltac:(lia) eq_refl), (IH i); [done|done|done|]. intros j z Hlt Hz. apply (Hj (S j)); [lia|done].
Qed.

(** The kind's record then counts the appended row. *)
Lemma bumped_find s kind n recs : exists r, find_head kind (bumped s kind n recs) = Some r /\ n + 1 <= hr_rows r.
Proof.
  unfold bumped, find_head. rewrite find_findi.
  assert (Hgo : forall (i : nat) q (recs : list ledger_head_rec_t), recs !! i = Some q -> hr_kind q = kind ->
    (forall j y, (j < i)%nat -> recs !! j = Some y -> head_kind kind y = false) ->
    exists r : ledger_head_rec_t, findi (head_kind kind) (alter (head_bump s kind n) i recs) ≫= (alter (head_bump s kind n) i recs !!.) = Some r /\
      n + 1 <= hr_rows r).
  { clear recs. intros i q recs Hi Hk Hj.
    assert (Hb : alter (head_bump s kind n) i recs !! i = Some (head_bump s kind n q)) by (by rewrite list_lookup_alter_eq, Hi).
    exists (head_bump s kind n q). destruct (bump_kind s kind n q) as [E1 E2]. rewrite E2.
    rewrite (findi_intro _ _ i (head_bump s kind n q)); [cbn; split; [done|lia]|done|unfold head_kind; lia|].
    intros j y Hlt Hy. rewrite list_lookup_alter_ne in Hy by lia. by eapply Hj. }
  destruct (findi (head_kind kind) recs) as [i|] eqn:E.
  - apply findi_some in E as (q & Hq & Hk & Hj). apply (Hgo i q); [done|unfold head_kind in Hk; lia|done].
  - apply findi_none in E. eapply Hgo; [apply list_lookup_middle; done|done|].
    intros j y Hlt Hy. rewrite lookup_app_l in Hy by done. eapply Forall_lookup in E; done.
Qed.

Lemma bumped_wf s kind n recs : Forall head_wf recs -> 1 <= kind <= 16 -> 0 <= n < LONG_MAX ->
  (length recs < LEDGER_HEAD_MAX_RECS)%nat ->
  Forall head_wf (bumped s kind n recs) /\ (length (bumped s kind n recs) <= LEDGER_HEAD_MAX_RECS)%nat.
Proof.
  intros Hw Hk Hn Hl. unfold bumped.
  assert (Ha : forall (i : nat) (l : list ledger_head_rec_t), Forall head_wf l -> Forall head_wf (alter (head_bump s kind n) i l)).
  { intros i l Hf. apply Forall_lookup. intros j q Hq. rewrite Forall_lookup in Hf.
    destruct (decide (i = j)) as [->|]; [|rewrite list_lookup_alter_ne in Hq by done; eauto].
    rewrite list_lookup_alter_eq in Hq. destruct (l !! j) as [q0|] eqn:E; [|done]. cbn in Hq. simplify_eq.
    apply bump_wf; [eauto|lia]. }
  destruct (findi _ recs); rewrite length_alter; (split; [apply Ha|]); [done|lia| |rewrite length_app; cbn; lia].
  apply Forall_app. split; [done|]. constructor; [|constructor].
  constructor; cbn [hr_kind hr_rows hr_mac hr_has_mac]; try done; try (unfold LONG_MAX in *; lia).
  apply Forall_replicate. by unfold byte_ok.
Qed.

Lemma head_update_spec v s kind n recs w : faultless v -> is_Some (ledger_head_path s) ->
  ledger_head_read v s w = Some recs -> (length recs < LEDGER_HEAD_MAX_RECS)%nat ->
  files (snd (ledger_head_update v s kind n w)) !! (ledger_path s ++ bs ".head") = Some (flat_map head_line (bumped s kind n recs)).
Proof.
  intros Hv [p Hp] Hr Hl. assert (p = ledger_path s ++ bs ".head") as -> by (destruct (head_path_frame s); congruence).
  unfold ledger_head_update, bumped. rewrite Hp, Hr. change (default [] (Some recs)) with recs.
  assert (Hwr : forall rs, files (snd (ledger_head_write v s rs w)) !! (ledger_path s ++ bs ".head") = Some (flat_map head_line rs)).
  { intros rs. unfold ledger_head_write. rewrite Hp, (f_open v Hv), (f_head v Hv), (f_rename v Hv). cbn [negb snd set_file files].
    by rewrite lookup_insert_eq. }
  destruct (findi _ recs) as [i|]; [cbv beta iota zeta; cbn [snd]; apply Hwr|].
  rewrite (proj2 (Nat.leb_gt _ _)) by done. cbv beta iota zeta. cbn [snd]. apply Hwr.
Qed.
End Counter.
