(* ===== verification/LedgerSpec.v ===== *)
(** * The ledger: the properties

    What a reader of the audit trail may rely on, and where the source falls
    short of its comments.  The lemmas are in LedgerProofs.v and HeadProofs.v. *)

From stdpp Require Import gmap.
From S2P Require Import Prelude Hmac Enterprise LedgerFmt Ledger LedgerProofs HeadProofs.

(** The witnesses run on the cheap digest, the two closed theorems below on
    the source's own. *)
#[local] Existing Instance demo_digest.

(** The settings and the system of the witnesses: a configured path and key,
    and calls that succeed. *)
#[local] Abbreviation st0 := {| g_ent_handle := None; g_ent_attempted := false; g_ent_loaded := false; g_ent_lib := None;
  g_ent_ledger_path := Some (bs "l.dat"); g_ent_ledger_key := Some (bs "secret"); g_ent_require_sig := true; g_ent_env_lib := None;
  g_ent_env_ledger_path := None; g_ent_env_ledger_key := None; g_ent_env_require_sig := true; g_ent_env_captured := true |}.
#[local] Abbreviation good := {| io_malloc := fun _ _ => true; io_open := fun _ => true; io_read := fun _ _ => true; io_size := true; io_rewind := true;
  io_header := None; io_truncate := true; io_record := None; io_sync := true; io_now := 7; io_max_bytes := None; io_csv := None;
  io_head := true; io_rename := true; io_anchor := ANCHOR_SYSLOG |}.
#[local] Abbreviation torn_write n := {| io_malloc := fun _ _ => true; io_open := fun _ => true; io_read := fun _ _ => true; io_size := true; io_rewind := true;
  io_header := None; io_truncate := true; io_record := Some n; io_sync := true; io_now := 7; io_max_bytes := None; io_csv := None;
  io_head := true; io_rename := true; io_anchor := ANCHOR_OFF |}.
#[local] Abbreviation fs0 := {| files := ∅; anchors := [] |}.
Lemma good_faultless : faultless good.
Proof. by constructor. Qed.

(** C3: the ledger is append-only: whatever fails during an append (any
    open, allocation, seek, truncation or flush, any short write, any read of
    the scan before or after the repair), every record that could be read from
    the file before is still there, in its place, afterwards.  The one failure
    excepted is a read inside the repair's own pass, which the code takes for
    the torn tail ([repair_cuts_readable]). *)
Theorem ledger_append_only {DG : Digest} v s kind payload w rc w' rs :
  (forall n, io_read v M_repair n = true) ->
  ledger_write_entry v s kind payload w = (rc, w') ->
  file_records (ledger_path s) w rs ->
  exists rs', file_records (ledger_path s) w' (rs ++ rs').
Proof. intros Hrd H. apply write_spec in H as [H _]; [apply H|exact Hrd]. Qed.

#[local] Abbreviation w1 := (snd (ledger_write_entry good st0 2 (bs "first") fs0)).
#[local] Abbreviation w2 := (snd (ledger_write_entry (torn_write 40%nat) st0 2 (bs "second") w1)).
#[local] Abbreviation r1 := (new_record st0 2 7 (bs "first") None).
Lemma ledger_append_only_witness :
  file_records (bs "l.dat") w1 [r1] /\
  exists rs', file_records (bs "l.dat") w2 ([r1] ++ rs').
Proof.
  assert (H : file_records (bs "l.dat") w1 [r1]).
  { apply (file_decode_records _ _ _ R_eof []). vm_compute. reflexivity. }
  split; [exact H|].
  apply (ledger_append_only (torn_write 40%nat) st0 2 (bs "second") w1 (fst (ledger_write_entry (torn_write 40%nat) st0 2 (bs "second") w1)) w2);
    [reflexivity|vm_compute; reflexivity|exact H].
Defined.

(** A device that cannot read behind the first record, in the scan and in the
    repair (116 bytes and 8 of payload are unread there), and can again in the
    rescan. *)
#[local] Abbreviation flaky := {| io_malloc := fun _ _ => true; io_open := fun _ => true;
  io_read := fun site n => (site =? M_rescan)%nat || (124 <? n)%nat; io_size := true; io_rewind := true;
  io_header := None; io_truncate := true; io_record := None; io_sync := true; io_now := 7; io_max_bytes := None; io_csv := None;
  io_head := true; io_rename := true; io_anchor := ANCHOR_OFF |}.
#[local] Abbreviation whole := (snd (ledger_write_entry good st0 2 (bs "durable!") w1)).
(** A failed read in the repair's pass is taken for a torn tail: the intact,
    acknowledged records behind it are cut off, and the append reports success
    on the shorter chain. *)
Theorem repair_cuts_readable :
  fst (ledger_write_entry good st0 2 (bs "durable!") w1) = FSQL_OK /\
  (fun x => map r_blob (fst (fst x))) <$> file_decode (bs "l.dat") whole = Some [bs "first"; bs "durable!"] /\
  fst (ledger_write_entry flaky st0 2 (bs "later") whole) = FSQL_OK /\
  (fun x => map r_blob (fst (fst x))) <$> file_decode (bs "l.dat") (snd (ledger_write_entry flaky st0 2 (bs "later") whole)) =
    Some [bs "first"; bs "later"].
Proof. vm_compute. repeat split. Qed.

(** *** A success is durable *)

Lemma last_two_snoc rs r : last_two (rs ++ [r]) = (Some r, fst (last_two rs)).
Proof. unfold last_two. rewrite rev_app_distr. cbn [rev app]. by destruct (rev rs) as [|a [|b q]]. Qed.
Lemma of_kind_snoc kind rs r : r_kind r = kind -> of_kind kind (rs ++ [r]) = of_kind kind rs ++ [r].
Proof. intros H. unfold of_kind. rewrite List.filter_app. cbn [List.filter]. by rewrite (proj2 (Z.eqb_eq _ _)). Qed.

Lemma scan_intact v site kind p w rs : faultless v -> intact p w rs ->
  exists l, files w !! p = Some (header_bytes ++ l) /\
  ledger_scan_latest_two (pass v site) kind l = Some (scanned kind rs).
Proof.
  intros Hv (l & Hf & Hw). exists l. split; [done|].
  by rewrite (scan_run _ _ _ _ _ _ (faultless_walk v site _ _ _ _ Hv Hw)).
Qed.

(** C5: an append that reports success to a ledger whose end is clean or
    detectably torn, and whose repair (if it needed one) met no failing read,
    is durable: the file then holds exactly the old records
    and the new one, every chain of it is correct, the next read of that kind
    returns the payload, and the tip check passes. *)
Theorem append_durable {DG : Digest} v s kind payload w w' rs v' t :
  (forall n, io_read v M_repair n = true) -> recoverable (ledger_path s) w rs -> chained (ledger_key s) rs ->
  ledger_write_entry v s kind payload w = (FSQL_OK, w') -> faultless v' ->
  exists r, r_blob r = payload /\ intact (ledger_path s) w' (rs ++ [r]) /\ chained (ledger_key s) (rs ++ [r]) /\
    fst (ledger_read_entry v' s kind t w') = (FSQL_OK, payload) /\
    ledger_verify_latest_file v' s kind w' = FSQL_OK.
Proof.
  intros Hrd Hr Hc H Hv. destruct (write_intact _ _ _ _ _ _ _ Hrd Hr H) as (Hi & Hk & _). clear H.
  set (r := new_record s kind (io_now v) payload (fst (last_two (of_kind kind rs)))) in *.
  exists r. split; [done|]. split; [done|]. split; [by apply write_chained|].
  destruct (scan_intact v' M_scan kind _ _ _ Hv Hi) as (l & Hf & Hs).
  assert (Hlt : (latest (scanned kind (rs ++ [r])), prior (scanned kind (rs ++ [r]))) = (Some r, fst (last_two (of_kind kind rs)))).
  { destruct (scan_fold kind (rs ++ [r])) as [E _]. unfold scanned. rewrite E, of_kind_snoc by done. apply last_two_snoc. }
  injection Hlt as Hlat Hpri.
  assert (Hopen : ledger_open_for_read v' O_read (pass v' M_scan) (ledger_path s) w' = Some (Some l)).
  { unfold ledger_open_for_read, open_file, read_header. cbn [pass fl_read].
    by rewrite (f_open v' Hv), Hf, (f_read v' Hv), (proj2 (check_header_some _ _) eq_refl). }
  split.
  - unfold ledger_read_entry, LEDGER_MAX_KIND. rewrite Hopen, Hs, Hlat.
    rewrite (proj2 (Z.ltb_ge kind 1)), (proj2 (Z.ltb_ge 16 kind)) by lia. done.
  - unfold ledger_verify_latest_file. rewrite Hopen, Hs, Hlat, Hpri.
    rewrite (proj2 (check_record_none v' (ledger_key s) r)).
    2: { split; [apply new_record_ok|apply (f_malloc v' Hv)]. }
    by rewrite (proj2 (bytes_eqb_true _ _)).
Qed.

Lemma intact_decode p w rs l : files w !! p ≫= check_header = Some l ->
  file_decode p w = Some (rs, R_eof, []) -> intact p w rs.
Proof.
  intros Hl H. unfold file_decode in H. rewrite Hl in H. apply decode_walk in H.
  destruct (files w !! p) as [f|] eqn:Ef; [|done]. apply check_header_some in Hl as ->. exists l. done.
Qed.

#[local] Abbreviation w3 := (snd (ledger_write_entry good st0 2 (bs "third") w2)).
Lemma append_durable_witness :
  exists r, r_blob r = bs "third" /\ intact (bs "l.dat") w3 ([r1] ++ [r]).
Proof.
  assert (Hr : recoverable (bs "l.dat") w2 [r1]).
  { unfold recoverable. destruct (files w2 !! bs "l.dat") as [f|] eqn:E.
    - right. pose proof (f_equal (fun o => o ≫= check_header) E) as E2. cbn [option_bind mbind] in E2.
      exists (drop 9 f), R_hdr, (drop 121 (drop 9 f)).
      assert (Hf : f = default [] (files w2 !! bs "l.dat")) by (by rewrite E). clear E E2.
      split; [apply check_header_some; rewrite Hf; vm_compute; reflexivity|]. split; [|discriminate].
      apply (decode_walk 3). rewrite Hf. vm_compute. reflexivity.
    - apply (f_equal (fun o => bool_decide (o = None))) in E. vm_compute in E. discriminate E. }
  destruct (append_durable good st0 2 (bs "third") w2 w3 [r1] good ∅ ltac:(reflexivity) Hr) as (r & H1 & H2 & _).
  - apply (write_chained st0 2 7 (bs "first") []). intros k. exact Logic.I.
  - vm_compute. reflexivity.
  - exact good_faultless.
  - exists r. split; [exact H1|exact H2].
Defined.

(** The file an append can start from: missing, empty, or with the header
    and below the size limit. *)
Definition appendable (v : io) (p : list Z) (w : fs) : Prop :=
  match files w !! p with
  | None | Some [] => True
  | Some f => check_header f <> None /\ Z.of_nat (length f) < ledger_cap (io_max_bytes v)
  end.

Lemma open_faultless v p w : faultless v -> appendable v p w ->
  exists l w1, open_for_append v p w = (Some l, w1).
Proof.
  intros [Hm Ho Hrd Hsz Hrw Htr Hhd Hrc Hsy _ _] Hf. unfold appendable in Hf.
  unfold open_for_append, open_file, put_header, read_header. cbn [pass fl_read]. rewrite !Ho, Hsz, Hrw, Hhd. cbn [complete negb].
  destruct (files w !! p) as [f|]; [|by eexists _, _].
  assert (Hcap : (0 <? ledger_cap (io_max_bytes v)) && (0 <=? Z.of_nat (length f)) &&
    (ledger_cap (io_max_bytes v) <=? Z.of_nat (length f)) = false).
  { set (c := ledger_cap _) in *. destruct f as [|x f].
    - destruct (0 <? c) eqn:E; [|done]. apply Z.ltb_lt in E. change (Z.of_nat (length [])) with 0.
      by rewrite (proj2 (Z.leb_gt c 0)) by lia.
    - rewrite (proj2 (Z.leb_gt c (Z.of_nat (length (x :: f))))) by lia. by rewrite andb_false_r. }
  rewrite Hcap. destruct f as [|c f]; [by eexists _, _|]. destruct (_ =? 0); [by eexists _, _|].
  rewrite Hrd. destruct Hf as [Hf _]. destruct (check_header (c :: f)); [by eexists _, _|done].
Qed.

Lemma walk_no_mem l rs e tl : walk all_mem l rs e tl -> e <> R_mem /\ forall r l, e <> R_rec r l.
Proof.
  induction 1 as [x e Hr Hn|]; [|done]. split; [|done]. intros ->. unfold read_record in Hr.
  destruct (ledger_read_record_header _ x); try done. destruct (_ =? 0); [done|]. destruct (_ <? _); [done|].
  cbn [all_mem fl_malloc negb] in Hr. by destruct (fread_io _ _ _) as [[? ?]|].
Qed.

Lemma scan_faultless v kind p l w : faultless v -> files w !! p = Some (header_bytes ++ l) ->
  exists sc w2, scan_or_repair v kind p l w = (Some sc, w2).
Proof.
  intros Hv Hf. pose proof Hv as [Hm Ho Hrd _ _ Htr _ _ _ _ _]. unfold scan_or_repair.
  destruct (ledger_scan_latest_two (pass v M_scan) kind l) as [sc|] eqn:Es; [by eexists _, _|].
  destruct (walk_total all_mem l) as (rs & e & tl & Hw). destruct (walk_no_mem _ _ _ _ Hw) as [He Hne].
  rewrite (scan_run _ _ _ _ _ _ (faultless_walk v M_scan _ _ _ _ Hv Hw)) in Es.
  destruct (walk_split _ _ _ _ _ Hw) as (front & -> & _ & Hx).
  assert (Hfr : walk all_mem front rs R_eof []).
  { specialize (Hx [] [] R_eof []). rewrite !app_nil_r in Hx. apply Hx. by constructor. }
  assert (Hrep : ledger_repair_torn_tail v p w = (true, set_file p (header_bytes ++ front) w)).
  { unfold ledger_repair_torn_tail, ledger_open_for_read, open_file, read_header. cbn [pass fl_read].
    rewrite !Ho, Hf, Hrd, (proj2 (check_header_some _ _) eq_refl), Htr.
    rewrite (find_torn_walk _ _ _ _ _ (faultless_walk v M_repair _ _ _ _ Hv Hw)).
    assert (Htk : take (length (header_bytes ++ front ++ tl) - length tl) (header_bytes ++ front ++ tl) = header_bytes ++ front).
    { rewrite app_assoc. apply take_app_exact. rewrite !length_app. lia. }
    destruct e; try done; first [by rewrite Htk | by edestruct Hne]. }
  rewrite Hrep. unfold open_file, read_header. cbn [negb set_file files pass fl_read].
  rewrite Ho, lookup_insert_eq, Hrd, (proj2 (check_header_some _ _) eq_refl).
  rewrite (scan_run _ _ _ _ _ _ (faultless_walk v M_rescan _ _ _ _ Hv Hfr)). by eexists _, _.
Qed.

(** C12: the ledger never bricks: when every call succeeds and the file is
    missing, empty, or has the ledger's header and is below the size limit, an
    append within the limits succeeds, whatever follows the header (a torn or
    corrupt tail is cut off first). *)
Theorem append_progress {DG : Digest} v s kind payload w :
  faultless v -> 1 <= kind <= 16 -> Z.of_nat (length payload) <= LEDGER_MAX_BLOB_BYTES ->
  appendable v (ledger_path s) w ->
  fst (ledger_write_entry v s kind payload w) = FSQL_OK.
Proof.
  intros Hv Hk Hp Hf. destruct (open_faultless _ _ _ Hv Hf) as (l & w1 & Hopen).
  pose proof (open_for_append_extends _ _ _ _ _ Hopen) as [_ [Hf1 _]].
  destruct (scan_faultless v kind _ _ _ Hv Hf1) as (sc & w2 & Hscan). destruct Hv as [Hm Ho _ _ _ _ _ Hrc Hsy _ _].
  unfold ledger_write_entry, LEDGER_MAX_KIND. unfold LEDGER_MAX_BLOB_BYTES in *.
  rewrite (proj2 (Z.ltb_ge kind 1)), (proj2 (Z.ltb_ge 16 kind)) by lia. cbn [orb].
  rewrite (proj2 (Z.ltb_ge 4294967295 _)), (proj2 (Z.ltb_ge (64 * 1024 * 1024) _)) by lia.
  rewrite (proj2 (Z.ltb_ge (SIZE_MAX - _) _)) by (unfold SIZE_MAX, LEDGER_HASH_LEN; lia).
  rewrite Hopen, Hscan, Hm, Ho, Hrc, Hsy. done.
Qed.

#[local] Abbreviation junk_file := {| files := {[ bs "l.dat" := header_bytes ++ replicate 60 255 ]}; anchors := [] |}.
Lemma append_progress_witness : fst (ledger_write_entry good st0 2 (bs "x") junk_file) = FSQL_OK.
Proof.
  apply (append_progress good st0 2 (bs "x") junk_file good_faultless); [lia|vm_compute; discriminate|].
  assert (E : files junk_file !! ledger_path st0 = Some (header_bytes ++ replicate 60 255)) by (vm_compute; reflexivity).
  unfold appendable. rewrite E. split; [discriminate|vm_compute; reflexivity].
Defined.

(** *** What a verified chain says *)

(** C8: the full verification of a readable file is sound and complete for
    the chain of the kind: it accepts exactly when every row of the kind
    passes its checks and links to its predecessor and the head file agrees. *)
Theorem verify_iff_chain {DG : Digest} v s kind w rs :
  faultless v -> intact (ledger_path s) w rs ->
  let n := Z.of_nat (length (of_kind kind rs)) in
  ledger_verify v s kind w = Some (Rep_ok n) <->
  chain_ok (ledger_key s) zeros (of_kind kind rs) /\ ledger_head_check v s (s32 kind) w = None /\
  ledger_head_get v s kind w <= n.
Proof.
  intros Hv Hi n. split.
  - intros H. destruct (verify_ok_inv v s kind w n rs) as (H1 & _ & H3 & H4); [apply (f_open v Hv)|done|by apply intact_records|].
    destruct H4 as [H4|H4]; [destruct Hi as (l & Hf & _); congruence|done].
  - intros (H1 & H2 & H3). rewrite (verify_intact v s kind w rs Hv Hi H1), H2.
    fold n. by rewrite (proj2 (Z.ltb_ge _ _)) by lia.
Qed.

Lemma verify_iff_chain_witness :
  ledger_verify good st0 2 w3 = Some (Rep_ok 2).
Proof.
  assert (Hi : intact (bs "l.dat") w3 [r1; new_record st0 2 7 (bs "third") (Some r1)]).
  { assert (E : is_Some (files w3 !! bs "l.dat" ≫= check_header)) by (vm_compute; eexists; reflexivity).
    destruct E as [l E]. apply (intact_decode _ _ _ l E). vm_compute. reflexivity. }
  apply (proj2 (verify_iff_chain good st0 2 w3 _ good_faultless Hi)). split_and!.
  - apply (write_chained st0 2 7 (bs "third") [r1]). apply (write_chained st0 2 7 (bs "first") []). intros k. exact Logic.I.
  - vm_compute. reflexivity.
  - vm_compute. discriminate.
Defined.

(** The bytes a record's hash covers. *)
Definition image (r : ledger_record_t) : list Z := r_prev_hash r ++ r_blob r ++ if has_mac r then r_mac r else [].

Section Binding.
Context {DG : Digest}.
(** Two rows of the chains themselves are a SHA-256 collision. *)
Definition collision (a b : list ledger_record_t) : Prop :=
  exists r r', r ∈ a /\ r' ∈ b /\ image r <> image r' /\ sha256 (image r) = sha256 (image r').
(** The same row: the same hashed bytes, hence the same payload and link when
    both or neither carry a MAC. *)
Definition same_row (r r' : ledger_record_t) : Prop :=
  image r = image r' /\ r_entry_hash r = r_entry_hash r' /\
  (has_mac r = has_mac r' -> r_blob r = r_blob r' /\ r_prev_hash r = r_prev_hash r').

Lemma image_split r r' : widths r -> widths r' -> image r = image r' -> has_mac r = has_mac r' ->
  r_blob r = r_blob r' /\ r_prev_hash r = r_prev_hash r'.
Proof.
  unfold image. intros (Hm & Hp & _) (Hm' & Hp' & _) Hi Hh.
  apply app_inj_1 in Hi as [H1 H2]; [|congruence]. split; [|done].
  rewrite <- Hh in H2. destruct (has_mac r); [|by rewrite !app_nil_r in H2].
  apply app_inj_2 in H2 as [? _]; [done|congruence].
Qed.

Lemma tip_snoc prev rs r : tip prev (rs ++ [r]) = r_entry_hash r.
Proof. unfold tip. by rewrite rev_app_distr. Qed.

Lemma chain_binds key a b : chain_ok key zeros a -> chain_ok key zeros b -> length a = length b ->
  Forall widths a -> Forall widths b -> tip zeros a = tip zeros b -> Forall2 same_row a b \/ collision a b.
Proof.
  revert b. induction a as [|r a IH] using rev_ind; intros b Ha Hb Hl Hwa Hwb Ht.
  - left. by destruct b.
  - destruct b as [|r' b _] using rev_ind; [rewrite length_app in Hl; cbn in Hl; lia|].
    rewrite !length_app in Hl. cbn in Hl. rewrite !tip_snoc in Ht.
    apply chain_app in Ha as [Ha (Hr & Hp & _)]. apply chain_app in Hb as [Hb (Hr' & Hp' & _)].
    apply Forall_app in Hwa as [Hwa [Hw _]%Forall_cons]. apply Forall_app in Hwb as [Hwb [Hw' _]%Forall_cons].
    destruct Hr as [_ Hr], Hr' as [_ Hr'].
    destruct (decide (image r = image r')) as [Hi|Hi].
    + assert (Hpp : tip zeros a = tip zeros b).
      { rewrite <- Hp, <- Hp'. unfold image in Hi. apply app_inj_1 in Hi as [? _]; [done|].
        by destruct Hw as (_ & -> & _), Hw' as (_ & -> & _). }
      destruct (IH b) as [H|(q & q' & H1 & H2 & H3)]; try done; [lia| |].
      * left. apply Forall2_app; [done|]. constructor; [|done].
        split_and!; [done|done|intros; by apply image_split..].
      * right. exists q, q'. rewrite !elem_of_app. tauto.
    + right. exists r, r'. rewrite !elem_of_app. unfold chain_hash in Hr, Hr'. unfold image in *.
      split_and!; [right; by left|right; by left|done|by rewrite Hr, Hr'].
Qed.
End Binding.

Lemma file_widths p w rs : file_records p w rs -> Forall widths rs.
Proof.
  unfold file_records. destruct (_ ≫= _) as [l|]; [|by intros ->]. intros (e & l' & H). by eapply walk_widths.
Qed.
Lemma of_kind_forall (P : ledger_record_t -> Prop) kind rs : Forall P rs -> Forall P (of_kind kind rs).
Proof. rewrite !Forall_forall. intros H x Hx. eapply H, of_kind_in, Hx. Qed.

(** The published anchor fixes the history: two ledgers that verify with
    the same number of rows and whose newest rows have the same hash (what the
    anchor log publishes) hold the same rows, or two of their rows are a SHA-256 collision. *)
Theorem anchor_fixes_history {DG : Digest} v v' s s' kind n w w' rs rs' :
  io_open v O_read = true -> io_open v' O_read = true ->
  ledger_verify v s kind w = Some (Rep_ok n) -> ledger_verify v' s' kind w' = Some (Rep_ok n) ->
  file_records (ledger_path s) w rs -> file_records (ledger_path s') w' rs' ->
  tip zeros (of_kind kind rs) = tip zeros (of_kind kind rs') ->
  Forall2 same_row (of_kind kind rs) (of_kind kind rs') \/ collision (of_kind kind rs) (of_kind kind rs').
Proof.
  intros Ho Ho' Hv Hv' Hr Hr' Ht. pose proof (file_widths _ _ _ Hr) as Hw. pose proof (file_widths _ _ _ Hr') as Hw'.
  apply (verify_ok_inv v s kind w n rs Ho Hv) in Hr as (Hc & Hn & _).
  apply (verify_ok_inv v' s' kind w' n rs' Ho' Hv') in Hr' as (Hc' & Hn' & _).
  assert (Hweak : forall key rs, chain_ok key zeros rs -> chain_ok None zeros rs).
  { clear. intros key rs. generalize zeros. induction rs as [|r rs IH]; intros p; [done|]. cbn.
    intros ([_ ?] & ? & ?). unfold rec_ok. eauto. }
  apply (chain_binds None); [by eapply Hweak|by eapply Hweak|lia|by apply of_kind_forall|by apply of_kind_forall|done].
Qed.

#[local] Abbreviation w1' := (snd (ledger_write_entry good st0 3 (bs "other kind") w1)).
Lemma anchor_fixes_history_witness :
  Forall2 same_row [r1] [r1] \/ collision [r1] [r1].
Proof.
  apply (anchor_fixes_history good good st0 st0 2 1 w1 w1' [r1] [r1; new_record st0 3 7 (bs "other kind") None] eq_refl eq_refl).
  - vm_compute. reflexivity.
  - vm_compute. reflexivity.
  - apply (file_decode_records _ _ _ R_eof []). vm_compute. reflexivity.
  - apply (file_decode_records _ _ _ R_eof []). vm_compute. reflexivity.
  - reflexivity.
Defined.

(** *** What it does not say *)

(** Rows re-linked, without any key, into a chain: payload and MAC kept, link
    and hash recomputed, the time stamp anything. *)
Fixpoint relink `{Digest} (prev : list Z) (l : list (ledger_record_t * Z)) : list ledger_record_t :=
  match l with
  | [] => []
  | (r, t) :: l =>
      let h := chain_hash {| r_kind := r_kind r; r_has_mac := r_has_mac r; r_sealed := r_sealed r; r_mac := r_mac r;
                             r_prev_hash := prev; r_entry_hash := []; r_updated := t; r_blob := r_blob r |} in
      {| r_kind := r_kind r; r_has_mac := r_has_mac r; r_sealed := r_sealed r; r_mac := r_mac r;
         r_prev_hash := prev; r_entry_hash := h; r_updated := t; r_blob := r_blob r |} :: relink h l
  end.

Section Relink.
Context {DG : Digest}.
Lemma relink_chain key prev l : Forall (fun x => rec_ok key (fst x)) l -> chain_ok key prev (relink prev l).
Proof.
  intros H. revert prev. induction H as [|[r t] l [Hr _] _ IH]; intros prev; [done|].
  cbn [relink chain_ok]. split_and!; [|done|apply IH]. split; [by destruct key|done].
Qed.
Lemma relink_length prev l : length (relink prev l) = length l.
Proof. revert prev. induction l as [|[r t] l IH]; intros prev; [done|]. cbn. by rewrite IH. Qed.
Lemma relink_kind kind prev l : Forall (fun x => r_kind (fst x) = kind) l -> of_kind kind (relink prev l) = relink prev l.
Proof.
  intros H. revert prev. induction H as [|[r t] l Hr _ IH]; intros prev; [done|]. unfold of_kind in *.
  cbn [relink List.filter r_kind]. cbn in Hr. rewrite (proj2 (Z.eqb_eq _ _)) by done. f_equal. apply IH.
Qed.
Lemma relink_wf prev l : length prev = 32%nat ->
  Forall (fun x => rec_wf (fst x) /\ - 2 ^ 63 <= snd x < 2 ^ 63) l -> Forall rec_wf (relink prev l).
Proof.
  intros Hp H. revert prev Hp. induction H as [|[r t] l [[] Ht] _ IH]; intros prev Hp; [constructor|]. cbn [relink].
  constructor; [|apply IH, sha256_digest]. constructor; cbn; try done. apply sha256_digest.
Qed.
Lemma chain_forall key prev rs : chain_ok key prev rs -> Forall (rec_ok key) rs.
Proof. revert prev. induction rs as [|r rs IH]; intros prev; [constructor|]. cbn. intros (? & _ & ?). constructor; eauto. Qed.
End Relink.

(** The MAC authenticates each payload alone, not its place, its number
    or its time: from a keyed ledger that verifies, anyone without the key can
    build another file from its rows, in any order, with rows dropped and
    others repeated in their place, and with any time stamps, that the full
    verification accepts with the same count under the same key and head file. *)
Theorem rows_can_be_rearranged {DG : Digest} v s kind w n f rs l :
  faultless v -> files w !! ledger_path s = Some f -> bytes_ok f ->
  ledger_verify v s kind w = Some (Rep_ok n) -> file_records (ledger_path s) w rs ->
  length l = length (of_kind kind rs) ->
  Forall (fun x => fst x ∈ of_kind kind rs /\ - 2 ^ 63 <= snd x < 2 ^ 63) l ->
  ledger_verify v s kind
    (set_file (ledger_path s) (header_bytes ++ flat_map record_bytes (relink zeros l)) w) = Some (Rep_ok n).
Proof.
  intros Hv Hf Hb H Hr Hl Hin.
  destruct (verify_ok_inv v s kind w n rs (f_open v Hv _) H Hr) as (Hc & Hn & Hg & [Hno|Hk]); [congruence|].
  assert (Hwf : Forall rec_wf rs).
  { unfold file_records in Hr. rewrite Hf in Hr. cbn [mbind option_bind] in Hr. destruct (check_header f) as [x|] eqn:E.
    - apply check_header_some in E as ->. apply bytes_ok_app in Hb as [_ Hb]. destruct Hr as (e & y & Hw). by eapply walk_wf.
    - subst rs. constructor. }
  apply chain_forall in Hc. rewrite Forall_forall in Hc, Hwf.
  set (w' := set_file _ _ _).
  assert (Hi : intact (ledger_path s) w' (relink zeros l)).
  { eexists. unfold w'. cbn [set_file files]. rewrite lookup_insert_eq. split; [done|]. apply walk_written, relink_wf; [done|].
    eapply Forall_impl; [exact Hin|]. intros x [Hx Ht]. split; [eapply Hwf, of_kind_in, Hx|done]. }
  assert (Hkind : of_kind kind (relink zeros l) = relink zeros l).
  { apply relink_kind. eapply Forall_impl; [exact Hin|]. intros x [Hx _].
    apply list_elem_of_In, filter_In in Hx as [_ Hx]. by apply Z.eqb_eq in Hx. }
  rewrite (verify_intact v s kind w' _ Hv Hi).
  2: { rewrite Hkind. apply relink_chain. eapply Forall_impl; [exact Hin|]. intros x [Hx _]. by apply Hc. }
  unfold w'. rewrite head_check_other, head_get_other, Hk. fold w'. rewrite Hkind, relink_length, Hl, <- Hn.
  by rewrite (proj2 (Z.ltb_ge _ _)) by lia.
Qed.

(** Two appends, swapped and back-dated. *)
#[local] Abbreviation wa := (snd (ledger_write_entry good st0 2 (bs "third") w1)).
#[local] Abbreviation r3 := (new_record st0 2 7 (bs "third") (Some r1)).
Lemma swapped_rows (rs : list ledger_record_t) (a b : ledger_record_t) : a ∈ rs -> b ∈ rs ->
  Forall (fun x => fst x ∈ rs /\ - 2 ^ 63 <= snd x < 2 ^ 63) [(b, 1); (a, 2)].
Proof. intros. repeat constructor; cbn [fst snd]; (done || lia). Qed.
Lemma rows_can_be_rearranged_witness :
  ledger_verify good st0 2 (set_file (bs "l.dat") (header_bytes ++ flat_map record_bytes (relink zeros [(r3, 1); (r1, 2)])) wa)
    = Some (Rep_ok 2).
Proof.
  assert (Ef : is_Some (files wa !! bs "l.dat")) by (vm_compute; eexists; reflexivity). destruct Ef as [f Ef].
  assert (Hb : match files wa !! bs "l.dat" with Some f => bool_decide (bytes_ok f) | None => false end = true) by (vm_compute; reflexivity).
  apply (rows_can_be_rearranged good st0 2 wa 2 f [r1; r3] [(r3, 1); (r1, 2)] good_faultless Ef).
  - rewrite Ef in Hb. by apply bool_decide_eq_true in Hb.
  - vm_compute. reflexivity.
  - apply (file_decode_records _ _ _ R_eof []). vm_compute. reflexivity.
  - reflexivity.
  - apply (swapped_rows [r1; r3] r1 r3); [left|right; left].
Defined.

(** An acknowledged record can be lost without a trace: when a torn
    append leaves 1 to 3 bytes, the header read takes them for a clean end of
    file, so the next append reports success but is misaligned; the ledger
    cannot be read, the append after that cuts the acknowledged record off,
    and the verification then accepts the file. *)
Theorem acknowledged_record_lost : let DG := fsql_digest in
  fst (ledger_write_entry good st0 2 (bs "one") fs0) = FSQL_OK /\
  let a1 := snd (ledger_write_entry good st0 2 (bs "one") fs0) in
  fst (ledger_write_entry (torn_write 1%nat) st0 2 (bs "two") a1) = FSQL_ESTORAGE /\
  let a2 := snd (ledger_write_entry (torn_write 1%nat) st0 2 (bs "two") a1) in
  fst (ledger_write_entry good st0 2 (bs "three") a2) = FSQL_OK /\
  let a3 := snd (ledger_write_entry good st0 2 (bs "three") a2) in
  fst (fst (ledger_read_entry good st0 2 ∅ a3)) = FSQL_ESTORAGE /\
  fst (ledger_write_entry good st0 2 (bs "four") a3) = FSQL_OK /\
  let a4 := snd (ledger_write_entry good st0 2 (bs "four") a3) in
  (fun x => map r_blob (fst (fst x))) <$> file_decode (bs "l.dat") a4 = Some [bs "one"; bs "four"] /\
  ledger_verify good st0 2 a4 = Some (Rep_ok 2).
Proof. vm_compute. repeat split. Qed.

(** *** The head file *)

(** The head file's text is a faithful encoding: records with a kind and
    a count in their C ranges, with or without a MAC, are read back exactly,
    up to the 17 the reader takes. *)
Theorem head_file_roundtrip recs :
  Forall head_wf recs -> (length recs <= LEDGER_HEAD_MAX_RECS)%nat ->
  head_records (flat_map head_line recs) = Some recs.
Proof. apply head_records_written. Qed.

#[local] Abbreviation demo_recs := [ {| hr_kind := 1; hr_rows := 12; hr_has_mac := true; hr_mac := replicate 32 171 |};
  {| hr_kind := 2; hr_rows := 0; hr_has_mac := false; hr_mac := replicate 32 0 |} ].
Lemma head_file_roundtrip_witness : head_records (flat_map head_line demo_recs) = Some demo_recs.
Proof.
  apply head_file_roundtrip; [|unfold LEDGER_HEAD_MAX_RECS; cbn; lia].
  repeat constructor; cbn [hr_kind hr_rows hr_has_mac hr_mac]; try (unfold LONG_MAX; lia); try done;
    apply (bool_decide_unpack _); vm_compute; exact Logic.I.
Defined.

Lemma after_append_head {DG : Digest} v s r sc recs w : faultless v -> is_Some (ledger_head_path s) ->
  ledger_head_read v s w = Some recs -> (length recs < LEDGER_HEAD_MAX_RECS)%nat ->
  files (after_append v s r sc w) !! (ledger_path s ++ bs ".head") =
  Some (flat_map head_line (bumped s (r_kind r) (n_kind sc) recs)).
Proof.
  intros Hv Hp Hr Hl. unfold after_append. set (w1 := ledger_csv_append _ _ _ _ _).
  assert (Hr1 : ledger_head_read v s w1 = Some recs).
  { rewrite <- Hr. unfold ledger_head_read. destruct (head_path_frame s) as [->| ->]; [|done].
    unfold open_file. destruct (io_open v O_head_r); [|done].
    assert (E : files w1 !! (ledger_path s ++ bs ".head") = files w !! (ledger_path s ++ bs ".head")); [|by rewrite E].
    unfold w1, ledger_csv_append, ledger_csv_path. destruct (_ <=? _)%nat; [done|]. destruct (negb _); [done|].
    destruct (io_open v O_csv_w); [|done]. cbn [set_file files]. apply lookup_insert_ne. intros E%app_inv_head. done. }
  pose proof (head_update_spec v s (r_kind r) (n_kind sc) recs w1 Hv Hp Hr1 Hl) as Hu.
  destruct (ledger_head_update _ _ _ _ _) as [rows w2]. cbn [snd] in Hu. rewrite <- Hu.
  unfold ledger_anchor_publish. destruct (io_anchor v); [done|..]; by destruct (_ <=? _)%nat.
Qed.

(** A truncation is detected: after a faultless append to a well-formed
    ledger and head file, no file put in the ledger's place verifies with
    fewer rows of the kind than were appended, while the head file stands. *)
Theorem truncation_detected {DG : Digest} v v' s kind payload w w' w'' rs recs m :
  faultless v -> faultless v' -> is_Some (ledger_head_path s) ->
  recoverable (ledger_path s) w rs -> Z.of_nat (length rs) < LONG_MAX ->
  ledger_head_read v s w = Some recs -> Forall head_wf recs -> (length recs < LEDGER_HEAD_MAX_RECS)%nat ->
  ledger_write_entry v s kind payload w = (FSQL_OK, w') ->
  files w'' !! (ledger_path s ++ bs ".head") = files w' !! (ledger_path s ++ bs ".head") ->
  ledger_verify v' s kind w'' = Some (Rep_ok m) ->
  Z.of_nat (length (of_kind kind rs)) + 1 <= m.
Proof.
  intros Hv Hv' Hp Hr Hsmall Hhr Hwf Hlen Hw Hsame Hok.
  destruct (write_intact _ _ _ _ _ _ _ (faultless_reads v _ Hv) Hr Hw) as (_ & Hk & w2 & Hfr & ->). set (r := new_record _ _ _ _ _) in *.
  assert (Hhr2 : ledger_head_read v s w2 = Some recs).
  { rewrite <- Hhr. unfold ledger_head_read. destruct (head_path_frame s) as [->| ->]; [|done].
    unfold open_file. rewrite Hfr; [done|]. intros E. apply (f_equal length) in E. rewrite length_app in E. cbn in E. lia. }
  rewrite (after_append_head v s r _ recs w2 Hv Hp Hhr2 Hlen) in Hsame. change (r_kind r) with kind in Hsame.
  destruct (scan_fold kind rs) as (_ & _ & Hnk). unfold scanned in Hsame. rewrite Hnk in Hsame.
  set (n := Z.of_nat (length (of_kind kind rs))) in *.
  assert (Hn : 0 <= n < LONG_MAX).
  { split; [unfold n; lia|]. eapply Z.le_lt_trans; [|exact Hsmall]. unfold n, of_kind. apply inj_le, List.filter_length_le. }
  destruct (bumped_wf s kind n recs Hwf Hk Hn Hlen) as [Hb1 Hb2].
  destruct (bumped_find s kind n recs) as (q & Hq & Hrows).
  assert (Hg : ledger_head_get v' s kind w'' = hr_rows q).
  { unfold ledger_head_get, LEDGER_MAX_KIND. rewrite (proj2 (Z.ltb_ge kind 1)), (proj2 (Z.ltb_ge 16 kind)) by lia. cbn [orb].
    unfold ledger_head_read. destruct (head_path_frame s) as [->|E]; [|by destruct Hp; congruence].
    unfold open_file. rewrite (f_open v' Hv'), Hsame, (head_records_written _ Hb1 Hb2). by rewrite Hq. }
  destruct (file_records_total (ledger_path s) w'') as (rs'' & Hrs).
  destruct (verify_ok_inv v' s kind w'' m rs'' (f_open v' Hv' _) Hok Hrs) as (_ & _ & Hle & _). lia.
Qed.

Lemma truncation_detected_witness :
  fst (ledger_write_entry good st0 2 (bs "third") w1) = FSQL_OK /\ ledger_verify good st0 2 wa = Some (Rep_ok 2) /\ 2 <= 2.
Proof.
  assert (Hrecs : is_Some (ledger_head_read good st0 w1)) by (vm_compute; eexists; reflexivity). destruct Hrecs as [recs Hrecs].
  assert (Hwf : match ledger_head_read good st0 w1 with
    | Some [q] => bool_decide (hr_kind q = 2 /\ hr_rows q = 1 /\ hr_has_mac q = true /\ bytes_ok (hr_mac q) /\ length (hr_mac q) = 32%nat)
    | _ => false end = true) by (vm_compute; reflexivity).
  rewrite Hrecs in Hwf. destruct recs as [|q [|? ?]]; try discriminate Hwf. apply bool_decide_eq_true in Hwf as (E1 & E2 & E3 & E4 & E5).
  assert (Hok : ledger_verify good st0 2 wa = Some (Rep_ok 2)) by (vm_compute; reflexivity).
  assert (Hi : intact (bs "l.dat") w1 [r1]).
  { assert (E : is_Some (files w1 !! bs "l.dat" ≫= check_header)) by (vm_compute; eexists; reflexivity).
    destruct E as [l E]. apply (intact_decode _ _ _ l E). vm_compute. reflexivity. }
  split; [vm_compute; reflexivity|]. split; [exact Hok|].
  apply (truncation_detected good good st0 2 (bs "third") w1 wa wa [r1] [q] 2 good_faultless good_faultless); try assumption.
  - vm_compute. eexists. reflexivity.
  - apply intact_recoverable, Hi.
  - vm_compute. reflexivity.
  - constructor; [|constructor]. constructor; [lia|unfold LONG_MAX; lia|done|done|congruence].
  - unfold LEDGER_HEAD_MAX_RECS. cbn. lia.
  - vm_compute. reflexivity.
  - reflexivity.
Defined.

(** But the next append launders it: with a key configured, a ledger cut
    to one row whose head file was replaced by an unsigned count (or by
    garbage, which resets every kind's counter) is refused by the
    verification, and accepted after one more append, which trusts and
    re-signs what it finds. *)
Theorem append_launders_head : let DG := fsql_digest in
  let cut := fun head => {| files := <[bs "l.dat.head" := head]> (files w1); anchors := [] |} in
  let after := fun head => snd (ledger_write_entry good st0 2 (bs "new") (cut head)) in
  ledger_verify good st0 2 (cut (bs "kind=2 rows=1" ++ [10])) = Some (Rep_fail 0 Y_head_no_mac) /\
  ledger_verify good st0 2 (after (bs "kind=2 rows=1" ++ [10])) = Some (Rep_ok 2) /\
  ledger_verify good st0 2 (cut (bs "garbage")) = Some (Rep_fail 0 Y_head_corrupt) /\
  ledger_verify good st0 2 (after (bs "garbage")) = Some (Rep_ok 2).
Proof. vm_compute. repeat split. Qed.
