(* ===== verification/AuditJson.v ===== *)
(** * JSON text at the audit chain's gate (src/fractalsql_enterprise.c)

    [ent_json_escape], [ent_memmem] and [ent_json_well_formed].  The
    recogniser is modelled with its two fixed arrays and its index, an access
    outside them being a result of its own, and is shown to accept exactly a
    grammar, without ever leaving the arrays. *)

From S2P Require Import Prelude LedgerFmt.

(** JSON text written with a single quote for the double one. *)
Definition js (s : String.string) : list Z := map (fun c => if c =? 39 then 34 else c) (bs s).

(** ** Escaping and searching *)

(** What one byte becomes. *)
Definition escape1 (c : Z) : list Z :=
  if c =? 34 then [92; 34] else if c =? 92 then [92; 92] else if c =? 8 then [92; 98]
  else if c =? 12 then [92; 102] else if c =? 10 then [92; 110] else if c =? 13 then [92; 114]
  else if c =? 9 then [92; 116]
  else if c <? 32 then [92; 117; 48; 48; hexd (Z.land (Z.shiftr c 4) 15); hexd (Z.land c 15)]
  else [c].
Fixpoint escape_loop (cap : Z) (o s : list Z) : option (list Z) :=
  match s with
  | [] => Some o
  | c :: s =>
      let t := escape1 c in
      if cap <? Z.of_nat (length o) + Z.of_nat (length t) then None else escape_loop cap (o ++ t) s
  end.
(** [None] is the return (size_t)-1. *)
Definition ent_json_escape (s : list Z) (cap : Z) : option (list Z) := escape_loop cap [] s.

(** The offset of the match. *)
Definition ent_memmem (h n : list Z) : option nat :=
  if (length n =? 0)%nat then Some 0%nat
  else if (length h <? length n)%nat then None
  else findi (fun i => (at_ h i =? at_ n 0) && bytes_eqb (take (length n) (drop i h)) n)
         (seq 0 (S (length h - length n))).

(** ** The recogniser *)

Inductive jst := ST_EMPTY | ST_VALUE | ST_SEP.
#[export] Instance jst_eq_dec : EqDecision jst.
Proof. solve_decision. Defined.

Record jw := {
  j_stack : list Z;       (* char stack[64] *)
  j_st : list jst;        (* unsigned char st[65] *)
  j_sp : nat;
  j_in_str : bool; j_esc : bool; j_seen : bool
}.
Definition set_str (b : bool) (m : jw) : jw :=
  {| j_stack := j_stack m; j_st := j_st m; j_sp := j_sp m; j_in_str := b; j_esc := j_esc m; j_seen := j_seen m |}.
Definition set_esc (b : bool) (m : jw) : jw :=
  {| j_stack := j_stack m; j_st := j_st m; j_sp := j_sp m; j_in_str := j_in_str m; j_esc := b; j_seen := j_seen m |}.
(** [st[sp] = x]. *)
Definition mark (x : jst) (m : jw) : jw :=
  {| j_stack := j_stack m; j_st := <[j_sp m := x]> (j_st m); j_sp := j_sp m; j_in_str := j_in_str m;
     j_esc := j_esc m; j_seen := j_seen m |}.
Definition saw (m : jw) : jw :=
  {| j_stack := j_stack m; j_st := j_st m; j_sp := j_sp m; j_in_str := j_in_str m; j_esc := j_esc m; j_seen := true |}.
Definition push (c : Z) (m : jw) : jw :=
  {| j_stack := <[j_sp m := c]> (j_stack m); j_st := j_st m; j_sp := S (j_sp m); j_in_str := j_in_str m;
     j_esc := j_esc m; j_seen := j_seen m |}.
Definition pop (m : jw) : jw :=
  {| j_stack := j_stack m; j_st := j_st m; j_sp := pred (j_sp m); j_in_str := j_in_str m;
     j_esc := j_esc m; j_seen := j_seen m |}.

Definition is_ws (c : Z) : bool := (c =? 32) || (c =? 9) || (c =? 10) || (c =? 13).
Definition is_open (c : Z) : bool := (c =? 91) || (c =? 123).
Definition is_close (c : Z) : bool := (c =? 93) || (c =? 125).
Definition is_sep (c : Z) : bool := (c =? 44) || (c =? 58).
(** The opening bracket of a closing one. *)
Definition opener (c : Z) : Z := if c =? 93 then 91 else 123.

Fixpoint skip_digits (p : list Z) : list Z :=
  match p with c :: r => if isdigit c then skip_digits r else p | [] => [] end.
Definition some_digits (p : list Z) : option (list Z) :=
  let q := skip_digits p in if (length q <? length p)%nat then Some q else None.
(** What follows the number at the head of the text. *)
Definition number (p : list Z) : option (list Z) :=
  let p := if at_ p 0 =? 45 then drop 1 p else p in
  q ← some_digits p;
  q ← (if at_ q 0 =? 46 then some_digits (drop 1 q) else Some q);
  if (at_ q 0 =? 101) || (at_ q 0 =? 69) then
    let q := drop 1 q in
    some_digits (if (at_ q 0 =? 43) || (at_ q 0 =? 45) then drop 1 q else q)
  else Some q.
Definition literal (c : Z) : option (list Z) :=
  if c =? 116 then Some (bs "true") else if c =? 102 then Some (bs "false")
  else if c =? 110 then Some (bs "null") else None.

(** The loop's body on the text from [s + i]; the result is [None] when an
    array would be indexed outside its bounds. *)
Definition jw_turn (x : list Z * jw) : (list Z * jw) + option bool :=
  let '(p, m) := x in
  match p with
  | [] =>
      match j_st m !! 0%nat with
      | None => inr None
      | Some s0 => inr (Some (j_seen m && negb (j_in_str m) && (j_sp m =? 0)%nat && bool_decide (s0 = ST_VALUE)))
      end
  | c :: r =>
    if j_in_str m then
      if j_esc m then inl (r, set_esc false m)
      else if c =? 92 then inl (r, set_esc true m)
      else if c =? 34 then inl (r, set_str false m)
      else if c <? 32 then inr (Some false) else inl (r, m)
    else if is_ws c then inl (r, m)
    else
      match j_st m !! j_sp m with
      | None => inr None
      | Some cur =>
        if c =? 34 then
          if bool_decide (cur = ST_VALUE) then inr (Some false) else inl (r, saw (mark ST_VALUE (set_str true m)))
        else if is_open c then
          if bool_decide (cur = ST_VALUE) then inr (Some false)
          else if (64 <=? j_sp m)%nat then inr (Some false)
          else inl (r, saw (mark ST_EMPTY (push c m)))
        else if is_close c then
          if (j_sp m =? 0)%nat then inr (Some false)
          else if bool_decide (cur = ST_SEP) then inr (Some false)
          else match j_stack m !! pred (j_sp m) with
               | None => inr None
               | Some o => if o =? opener c then inl (r, mark ST_VALUE (pop m)) else inr (Some false)
               end
        else if is_sep c then
          if (j_sp m =? 0)%nat || negb (bool_decide (cur = ST_VALUE)) then inr (Some false)
          else inl (r, mark ST_SEP m)
        else if bool_decide (cur = ST_VALUE) then inr (Some false)
        else match literal c with
        | Some lit =>
            if bytes_eqb (take (length lit) p) lit
            then inl (drop (length lit) p, saw (mark ST_VALUE m)) else inr (Some false)
        | None =>
            match number p with
            | Some q => inl (q, saw (mark ST_VALUE m))
            | None => inr (Some false)
            end
        end
      end
  end.

(** The arrays start with whatever the stack holds, but for [st[0]]. *)
Definition jw0 (junk : list Z) (junk_st : list jst) : jw :=
  {| j_stack := junk; j_st := <[0%nat := ST_EMPTY]> junk_st; j_sp := 0; j_in_str := false; j_esc := false; j_seen := false |}.
Definition ent_json_well_formed (junk : list Z) (junk_st : list jst) (s : list Z) : option bool :=
  default None (while jw_turn (S (length s)) (s, jw0 junk junk_st)).

(** ** The grammar it accepts *)

Definition ws (l : list Z) : Prop := Forall (fun c => is_ws c = true) l.

(** A string's contents: any byte behind a backslash; no quote, no control
    character otherwise. *)
Inductive jstr : list Z -> Prop :=
  | js_nil : jstr []
  | js_esc c s : jstr s -> jstr (92 :: c :: s)
  | js_chr c s : c <> 92 -> c <> 34 -> 32 <= c -> jstr s -> jstr (c :: s).

Definition all_digits (l : list Z) : Prop := l <> [] /\ Forall (fun c => isdigit c = true) l.
(** -? digits [. digits] [eE [+-] digits] *)
Definition jnum (l : list Z) : Prop :=
  exists sgn ds frac exp, l = sgn ++ ds ++ frac ++ exp /\ (sgn = [] \/ sgn = [45]) /\ all_digits ds /\
    (frac = [] \/ exists f, frac = 46 :: f /\ all_digits f) /\
    (exp = [] \/ exists e sg x, exp = e :: sg ++ x /\ (e = 101 \/ e = 69) /\
                   (sg = [] \/ sg = [43] \/ sg = [45]) /\ all_digits x).

(** A value whose brackets nest at most [n] deep; a comma and a colon are the
    same separator. *)
Inductive value : nat -> list Z -> Prop :=
  | V_str n s : jstr s -> value n (34 :: s ++ [34])
  | V_lit n c l : literal c = Some l -> value n l
  | V_num n l : jnum l -> value n l
  | V_empty n c w : is_close c = true -> ws w -> value (S n) (opener c :: w ++ [c])
  | V_box n c l : is_close c = true -> items n l -> value (S n) (opener c :: l ++ [c])
with items : nat -> list Z -> Prop :=
  | I_one n w v w' : ws w -> value n v -> ws w' -> items n (w ++ v ++ w')
  | I_more n w v w' s l : ws w -> value n v -> ws w' -> is_sep s = true -> items n l ->
      items n (w ++ v ++ w' ++ s :: l).
Scheme value_mut := Induction for value Sort Prop
  with items_mut := Induction for items Sort Prop.
Combined Scheme value_items_ind from value_mut, items_mut.

(** A document: one value between white space. *)
Definition doc (n : nat) (l : list Z) : Prop := exists w v w', ws w /\ value n v /\ ws w' /\ l = w ++ v ++ w'.

(** ** The recogniser reads a token grammar *)

(** The text left to read, in a container of state [cur] inside the containers
    [up] (each with its bracket and the state it was left in). *)
Inductive compl : jst -> list (Z * jst) -> list Z -> Prop :=
  | C_end : compl ST_VALUE [] []
  | C_ws cur up c p : is_ws c = true -> compl cur up p -> compl cur up (c :: p)
  | C_str cur up s p : cur <> ST_VALUE -> jstr s -> compl ST_VALUE up p -> compl cur up (34 :: s ++ 34 :: p)
  | C_lit cur up c l p : cur <> ST_VALUE -> literal c = Some l -> compl ST_VALUE up p -> compl cur up (l ++ p)
  | C_num cur up l p : cur <> ST_VALUE -> jnum l -> compl ST_VALUE up p -> compl cur up (l ++ p)
  | C_open cur up c p : is_close c = true -> cur <> ST_VALUE -> (length up < 64)%nat ->
      compl ST_EMPTY ((opener c, cur) :: up) p -> compl cur up (opener c :: p)
  | C_close cur s up c p : is_close c = true -> cur <> ST_SEP -> compl ST_VALUE up p ->
      compl cur ((opener c, s) :: up) (c :: p)
  | C_sep x up c p : is_sep c = true -> compl ST_SEP (x :: up) p -> compl ST_VALUE (x :: up) (c :: p).

(** The class of a byte, by arithmetic. *)
Ltac chars :=
  unfold is_ws, is_open, is_close, is_sep, isdigit, opener in *;
  repeat match goal with
  | |- context [if ?b then _ else _] => destruct b eqn:?
  | H : context [if ?b then _ else _] |- _ => destruct b eqn:?
  end; lia.

(** *** Numbers *)

Lemma skip_digits_app ds q : Forall (fun c => isdigit c = true) ds -> isdigit (at_ q 0) = false ->
  skip_digits (ds ++ q) = q.
Proof.
  intros H Hq. induction H as [|c ds Hc _ IH]; cbn [app skip_digits]; [|by rewrite Hc].
  destruct q as [|c q]; [done|]. cbn in Hq |- *. by rewrite Hq.
Qed.
Lemma some_digits_app ds q : all_digits ds -> isdigit (at_ q 0) = false -> some_digits (ds ++ q) = Some q.
Proof.
  intros [Hn Hd] Hq. unfold some_digits. rewrite skip_digits_app by done. rewrite length_app.
  destruct ds as [|c ds]; [done|]. by rewrite (proj2 (Nat.ltb_lt _ _)) by (cbn; lia).
Qed.
Lemma skip_digits_split p : exists ds, p = ds ++ skip_digits p /\ Forall (fun c => isdigit c = true) ds.
Proof.
  induction p as [|c p (ds & E & H)]; [by exists []|]. cbn [skip_digits]. destruct (isdigit c) eqn:Ec.
  - exists (c :: ds). cbn [app]. rewrite <- E. split; [done|by constructor].
  - by exists [].
Qed.
Lemma some_digits_some p q : some_digits p = Some q -> exists ds, p = ds ++ q /\ all_digits ds.
Proof.
  unfold some_digits. destruct (_ <? _)%nat eqn:E; [|done]. intros [= <-].
  destruct (skip_digits_split p) as (ds & H & Hd). exists ds. split; [done|]. split; [|done].
  intros ->. cbn in H. rewrite <- H in E. lia.
Qed.

(** What cannot continue a number. *)
Definition nfollow (q : list Z) : Prop :=
  let c := at_ q 0 in isdigit c = false /\ c <> 46 /\ c <> 101 /\ c <> 69.

Lemma at_cons c l : at_ (c :: l) 0 = c. Proof. done. Qed.
Lemma number_app l q : jnum l -> nfollow q -> number (l ++ q) = Some q.
Proof.
  intros (sgn & ds & frac & exp & -> & Hs & Hd & Hf & He) (Hq & Hq1 & Hq2 & Hq3).
  assert (E0 : isdigit (at_ (exp ++ q) 0) = false /\ at_ (exp ++ q) 0 <> 46).
  { destruct He as [->|(e & sg & x & -> & He & _)]; [done|]. cbn [app]. rewrite at_cons. split; [|lia]. chars. }
  assert (E1 : isdigit (at_ (frac ++ exp ++ q) 0) = false).
  { destruct Hf as [->|(f & -> & _)]; [apply E0|done]. }
  unfold number. rewrite <- !app_assoc.
  assert (Hsgn : (if at_ (sgn ++ ds ++ frac ++ exp ++ q) 0 =? 45 then drop 1 (sgn ++ ds ++ frac ++ exp ++ q)
                  else sgn ++ ds ++ frac ++ exp ++ q) = ds ++ frac ++ exp ++ q).
  { destruct Hs as [->| ->]; [|done]. destruct Hd as [Hn Hd]. destruct ds as [|c ds]; [done|].
    apply Forall_cons in Hd as [Hc _]. cbn [app]. rewrite at_cons.
    destruct (c =? 45) eqn:E; [chars|done]. }
  rewrite Hsgn, some_digits_app by done. cbn [mbind option_bind].
  assert (Hfr : (if at_ (frac ++ exp ++ q) 0 =? 46 then some_digits (drop 1 (frac ++ exp ++ q))
                 else Some (frac ++ exp ++ q)) = Some (exp ++ q)).
  { destruct Hf as [->|(f & -> & Hf)].
    - cbn [app]. destruct E0 as [_ E0]. by rewrite (proj2 (Z.eqb_neq _ _)) by done.
    - cbn [app]. rewrite at_cons. cbn [Z.eqb Pos.eqb]. change (drop 1 (46 :: f ++ exp ++ q)) with (f ++ exp ++ q).
      apply some_digits_app; [done|apply E0]. }
  rewrite Hfr. cbn [mbind option_bind]. destruct He as [->|(e & sg & x & -> & He & Hsg & Hx)].
  - cbn [app]. apply Z.eqb_neq in Hq2, Hq3. by rewrite Hq2, Hq3.
  - cbn [app]. rewrite at_cons. replace ((e =? 101) || (e =? 69)) with true by lia.
    change (drop 1 (e :: (sg ++ x) ++ q)) with ((sg ++ x) ++ q). rewrite <- app_assoc.
    destruct Hsg as [->|[->| ->]]; cbn [app].
    + destruct Hx as [Hn Hx]. destruct x as [|c x]; [done|]. pose proof Hx as Hx'.
      apply Forall_cons in Hx' as [Hc _]. cbn [app]. rewrite at_cons.
      replace ((c =? 43) || (c =? 45)) with false by chars. by apply (some_digits_app (c :: x)).
    + by apply (some_digits_app x).
    + by apply (some_digits_app x).
Qed.

Lemma head_split c p : at_ p 0 = c -> c <> 0 -> p = c :: drop 1 p.
Proof. destruct p as [|d p]; cbn; [by intros <-|by intros ->]. Qed.
Lemma number_some p q : number p = Some q -> exists l, p = l ++ q /\ jnum l.
Proof.
  unfold number. intros H.
  assert (Hs : exists sgn, (sgn = [] \/ sgn = [45]) /\ p = sgn ++ (if at_ p 0 =? 45 then drop 1 p else p)).
  { destruct (at_ p 0 =? 45) eqn:E; [|by exists ([] : list Z); auto]. exists [45]. split; [auto|]. apply head_split; [lia|done]. }
  destruct Hs as (sgn & Hsgn & Hp). set (p1 := (if at_ p 0 =? 45 then drop 1 p else p)) in *.
  destruct (some_digits p1) as [q1|] eqn:E1; [|done]. cbn [mbind option_bind] in H.
  apply some_digits_some in E1 as (ds & Hp1 & Hds).
  assert (Hf : exists frac q2, (if at_ q1 0 =? 46 then some_digits (drop 1 q1) else Some q1) = Some q2 /\ q1 = frac ++ q2 /\
    (frac = [] \/ exists f, frac = 46 :: f /\ all_digits f)).
  { destruct (at_ q1 0 =? 46) eqn:E; [|by exists ([] : list Z), q1; auto]. destruct (some_digits (drop 1 q1)) as [q2|] eqn:E2; [|done].
    apply some_digits_some in E2 as (f & Hq1 & Hf). exists (46 :: f), q2. split; [done|]. split; [|by eauto].
    cbn [app]. rewrite <- Hq1. apply head_split; [lia|done]. }
  destruct Hf as (frac & q2 & E2 & Hq1 & Hfrac). rewrite E2 in H. cbn [mbind option_bind] in H.
  assert (He : exists exp, q2 = exp ++ q /\ (exp = [] \/ exists e sg x, exp = e :: sg ++ x /\ (e = 101 \/ e = 69) /\
                   (sg = [] \/ sg = [43] \/ sg = [45]) /\ all_digits x)).
  { destruct ((at_ q2 0 =? 101) || (at_ q2 0 =? 69)) eqn:E; [|simplify_eq; by exists ([] : list Z); auto].
    apply some_digits_some in H as (x & Hx & Hdx).
    assert (Hq2 : q2 = at_ q2 0 :: drop 1 q2) by (apply head_split; [done|lia]).
    set (q3 := drop 1 q2) in *. destruct ((at_ q3 0 =? 43) || (at_ q3 0 =? 45)) eqn:E3.
    - assert (Hq3 : q3 = at_ q3 0 :: drop 1 q3) by (apply head_split; [done|lia]).
      exists (at_ q2 0 :: [at_ q3 0] ++ x). split; [by rewrite Hq2, Hq3, Hx at 1|]. right. exists (at_ q2 0), [at_ q3 0], x.
      split_and!; [done|lia| |done]. destruct (Z.eqb_spec (at_ q3 0) 43) as [->|]; [auto|].
      replace (at_ q3 0) with 45 by lia. auto.
    - exists (at_ q2 0 :: [] ++ x). split; [by rewrite Hq2, Hx at 1|]. right. exists (at_ q2 0), [], x.
      split_and!; [done|lia|by left|done]. }
  destruct He as (exp & Hq2 & Hexp). exists (sgn ++ ds ++ frac ++ exp). split.
  - rewrite Hp, Hp1, Hq1, Hq2. by rewrite <- !app_assoc.
  - exists sgn, ds, frac, exp. done.
Qed.

(** *** Strings *)

Lemma jstr_unique s p q r : jstr s -> jstr p -> s ++ 34 :: q = p ++ 34 :: r -> s = p /\ q = r.
Proof.
  intros Hs. revert p. induction Hs as [|c s Hs IH|c s H1 H2 H3 Hs IH]; intros p Hp E; destruct Hp; cbn in E; simplify_eq.
  - done.
  - edestruct IH as [-> ->]; done.
  - edestruct IH as [-> ->]; done.
Qed.

Lemma jw_decreases x x' : jw_turn x = inl x' -> (length (fst x') < length (fst x))%nat.
Proof.
  destruct x as [p m]. unfold jw_turn. destruct p as [|c r]; [by case_match|]. cbn [fst].
  assert (Hn : forall q, number (c :: r) = Some q -> (length q < length (c :: r))%nat).
  { intros q Hq. apply number_some in Hq as (l & -> & sgn & ds & frac & exp & -> & _ & [Hd _] & _).
    rewrite !length_app. destruct ds; [done|cbn; lia]. }
  assert (Hl : forall l, literal c = Some l -> (length (drop (length l) (c :: r)) < length (c :: r))%nat).
  { intros l Hl. rewrite length_drop. unfold literal in Hl. repeat (case_match; [simplify_eq; cbn; lia|]). done. }
  repeat (case_match; try discriminate); intros; simplify_eq; cbn [fst length]; eauto; try lia.
Qed.

Definition run (p : list Z) (m : jw) : option (option bool) := while jw_turn (S (length p)) (p, m).
Lemma run_eq p m : run p m = match jw_turn (p, m) with inl (p', m') => run p' m' | inr r => Some r end.
Proof.
  unfold run. pose proof (while_unfold jw_turn (fun x => length (fst x)) jw_decreases (p, m)) as H.
  cbn [fst] in H. rewrite H. by destruct (jw_turn (p, m)) as [[? ?]|].
Qed.

(** Inside a string the machine runs to its closing quote or rejects. *)
Lemma run_str n p m : (length p < n)%nat -> length (j_st m) = 65%nat -> j_in_str m = true -> j_esc m = false ->
  (exists s q, p = s ++ 34 :: q /\ jstr s /\ run p m = run q (set_str false m)) \/
  ((forall s q, jstr s -> p <> s ++ 34 :: q) /\ run p m = Some (Some false)).
Proof.
  revert p. induction n as [|n IH]; intros p Hn Hst Hi He; [lia|]. rewrite run_eq.
  destruct p as [|c p].
  - right. split; [intros [] q; done|]. cbn [jw_turn].
    destruct (j_st m !! 0%nat) as [s0|] eqn:E; [|apply lookup_ge_None in E; lia].
    rewrite Hi. by rewrite andb_false_r.
  - cbn [jw_turn]. rewrite Hi, He. cbn [length] in Hn.
    destruct (Z.eqb_spec c 92) as [->|H92].
    { rewrite run_eq. destruct p as [|d p]; cbn [jw_turn set_esc j_in_str j_esc j_st].
      - right. split; [intros s q Hs E; destruct Hs; simplify_eq/=; by destruct s|].
        destruct (j_st m !! 0%nat) as [s0|] eqn:E; [|apply lookup_ge_None in E; lia].
        cbn [j_seen j_sp]. rewrite Hi. by rewrite andb_false_r.
      - rewrite Hi. replace (set_esc false (set_esc true m)) with m by (unfold set_esc; destruct m; cbn in *; by subst).
        cbn [length] in Hn. destruct (IH p ltac:(lia) Hst Hi He) as [(s & q & -> & Hs & Hr)|[Hno Hr]].
        + left. exists (92 :: d :: s), q. split_and!; [done|by constructor|done].
        + right. split; [|done]. intros s q Hs E. destruct Hs; simplify_eq/=. by eapply Hno. }
    destruct (Z.eqb_spec c 34) as [->|H34].
    { left. exists [], p. split_and!; [done|constructor|done]. }
    destruct (Z.ltb_spec c 32) as [H32|H32].
    { right. split; [|done]. intros s q Hs E. destruct Hs; simplify_eq/=. lia. }
    destruct (IH p ltac:(lia) Hst Hi He) as [(s & q & -> & Hs & Hr)|[Hno Hr]].
    + left. exists (c :: s), q. split_and!; [done|by constructor|done].
    + right. split; [|done]. intros s q Hs E. destruct Hs; simplify_eq/=. by eapply Hno.
Qed.

(** *** The arrays as a stack *)

Record inv (m : jw) (cur : jst) (up : list (Z * jst)) : Prop := {
  i_stack : length (j_stack m) = 64%nat; i_st : length (j_st m) = 65%nat;
  i_sp : j_sp m = length up; i_le : (length up <= 64)%nat;
  i_str : j_in_str m = false; i_esc : j_esc m = false;
  i_open : take (length up) (j_stack m) = rev (map fst up);
  i_up : take (length up) (j_st m) = rev (map snd up);
  i_top : j_st m !! length up = Some cur;
  i_seen : cur = ST_VALUE \/ up <> [] -> j_seen m = true
}.

Lemma inv_mark x m cur up : inv m cur up -> (x = ST_VALUE \/ up <> [] -> j_seen m = true) -> inv (mark x m) x up.
Proof.
  intros [] Hs. constructor; cbn [mark j_stack j_st j_sp j_in_str j_esc j_seen]; try done.
  - by rewrite length_insert.
  - by rewrite take_insert_ge by lia.
  - rewrite i_sp0. apply list_lookup_insert_eq. lia.
Qed.
Lemma inv_saw m cur up : inv m cur up -> inv (saw m) cur up.
Proof. by intros []; constructor. Qed.
Lemma inv_value m cur up : inv m cur up -> inv (saw (mark ST_VALUE m)) ST_VALUE up.
Proof. intros H. apply inv_saw in H. by apply (inv_mark ST_VALUE) in H. Qed.
Lemma inv_sep m cur x up : inv m cur (x :: up) -> inv (mark ST_SEP m) ST_SEP (x :: up).
Proof. intros H. apply (inv_mark ST_SEP) in H as H'; [done|]. intros [?|?]; [done|]. apply H. by right. Qed.
Lemma inv_push c m cur up : inv m cur up -> (length up < 64)%nat ->
  inv (saw (mark ST_EMPTY (push c m))) ST_EMPTY ((c, cur) :: up).
Proof.
  intros [] Hl. constructor; cbn [saw mark push j_stack j_st j_sp j_in_str j_esc j_seen length map fst snd rev]; try done.
  - by rewrite length_insert.
  - by rewrite length_insert.
  - lia.
  - rewrite i_sp0. rewrite (take_S_r _ _ c) by (apply list_lookup_insert_eq; lia). by rewrite take_insert_ge, i_open0 by lia.
  - rewrite i_sp0, take_insert_ge by lia. by rewrite (take_S_r _ _ cur), i_up0.
  - rewrite i_sp0. apply list_lookup_insert_eq. lia.
Qed.
Lemma take_S_snoc {A} n (l k : list A) x : (n < length l)%nat -> take (S n) l = k ++ [x] -> take n l = k /\ l !! n = Some x.
Proof.
  intros Hn H. destruct (lookup_lt_is_Some_2 l n Hn) as [y Hy]. rewrite (take_S_r _ _ y) in H by done.
  apply app_inj_tail in H as [H1 ->]. done.
Qed.
Lemma inv_pop m cur o s up : inv m cur ((o, s) :: up) ->
  j_stack m !! pred (j_sp m) = Some o /\ inv (mark ST_VALUE (pop m)) ST_VALUE up.
Proof.
  intros []. cbn [length map fst snd rev] in *.
  apply take_S_snoc in i_open0 as [Ho1 Ho2]; [|lia]. apply take_S_snoc in i_up0 as [Hu1 Hu2]; [|lia].
  split; [by rewrite i_sp0|]. apply (inv_mark ST_VALUE _ s); [|intros _; apply i_seen0; by right].
  constructor; cbn [pop j_stack j_st j_sp j_in_str j_esc j_seen]; try done; [by rewrite i_sp0|lia|].
  intros _. apply i_seen0. by right.
Qed.

(** *** The recogniser and the token grammar agree *)

Lemma compl_follow up p : compl ST_VALUE up p -> nfollow p.
Proof. intros H. inversion H; subst; try done; unfold nfollow; cbn; chars. Qed.

Lemma number_compl l q up : jnum l -> compl ST_VALUE up q -> number (l ++ q) = Some q.
Proof. intros Hl H. apply number_app; [done|]. by eapply compl_follow. Qed.
Lemma jnum_head l q : jnum l -> exists c r, l ++ q = c :: r /\ (c = 45 \/ isdigit c = true).
Proof.
  intros (sgn & ds & frac & exp & -> & Hs & [Hn Hd] & _). destruct Hs as [->| ->].
  - destruct ds as [|c ds]; [done|]. apply Forall_cons in Hd as [Hc _]. eexists c, _. cbn. by split; [|right].
  - eexists 45, _. cbn. by split; [|left].
Qed.
Lemma literal_head c l : literal c = Some l -> (c = 116 \/ c = 102 \/ c = 110) /\ exists r, l = c :: r /\ literal c = Some (c :: r).
Proof.
  unfold literal. intros H.
  destruct (Z.eqb_spec c 116) as [->|]; [simplify_eq; split; [lia|by eexists]|].
  destruct (Z.eqb_spec c 102) as [->|]; [simplify_eq; split; [lia|by eexists]|].
  destruct (Z.eqb_spec c 110) as [->|]; [simplify_eq; split; [lia|by eexists]|done].
Qed.

Lemma compl_nil cur up : compl cur up [] -> cur = ST_VALUE /\ up = [].
Proof.
  intros H. remember [] as p eqn:E. destruct H; simplify_eq; try done.
  - apply literal_head in H0 as (_ & ? & -> & _). done.
  - destruct (jnum_head l p) as (? & ? & E' & _); congruence.
Qed.
Lemma ifb {A} (b : bool) (x y : A) v : b = v -> (if b then x else y) = if v then x else y.
Proof. by intros ->. Qed.
(** What the next byte, by its class, demands of the rest. *)
Lemma compl_iff cur up c r : compl cur up (c :: r) <->
  if is_ws c then compl cur up r
  else if c =? 34 then cur <> ST_VALUE /\ exists s q, r = s ++ 34 :: q /\ jstr s /\ compl ST_VALUE up q
  else if is_open c then cur <> ST_VALUE /\ (length up < 64)%nat /\ compl ST_EMPTY ((c, cur) :: up) r
  else if is_close c then cur <> ST_SEP /\ exists s up', up = (opener c, s) :: up' /\ compl ST_VALUE up' r
  else if is_sep c then cur = ST_VALUE /\ up <> [] /\ compl ST_SEP up r
  else cur <> ST_VALUE /\ match literal c with
    | Some l => exists q, c :: r = l ++ q /\ compl ST_VALUE up q
    | None => exists l q, jnum l /\ c :: r = l ++ q /\ compl ST_VALUE up q
    end.
Proof.
  split.
  - intros H. remember (c :: r) as p eqn:E. destruct H; simplify_eq.
    + by rewrite H.
    + cbn. split; [done|]. by exists s, p.
    + destruct (literal_head _ _ H0) as (Hc & r' & -> & Hl). cbn [app] in E. simplify_eq.
      destruct Hc as [->|[->| ->]]; cbn in *; simplify_eq; (split; [done|by exists p]).
    + destruct (jnum_head l p) as (c' & r' & E' & Hc); [done|]. rewrite E in E'. simplify_eq.
      rewrite !(ifb _ _ _ false) by (destruct Hc; chars). split; [done|].
      replace (literal c') with (@None (list Z)); [eauto|]. unfold literal. by rewrite !(ifb _ _ _ false) by (destruct Hc; chars).
    + rewrite (ifb _ _ _ false) by chars. rewrite (ifb _ _ _ false) by chars. rewrite (ifb _ _ _ true) by chars. done.
    + rewrite (ifb _ _ _ false) by chars. rewrite (ifb _ _ _ false) by chars. rewrite (ifb _ _ _ false) by chars. rewrite H. eauto.
    + rewrite (ifb _ _ _ false) by chars. rewrite (ifb _ _ _ false) by chars. rewrite (ifb _ _ _ false) by chars.
      rewrite (ifb _ _ _ false) by chars. by rewrite H.
  - destruct (is_ws c) eqn:E1; [by constructor|]. destruct (Z.eqb_spec c 34) as [->|]; [intros (? & s & q & -> & ? & ?); by constructor|].
    destruct (is_open c) eqn:E2.
    { intros (? & ? & H). replace c with (opener (if c =? 91 then 93 else 125)) in * by chars. constructor; [chars|done..]. }
    destruct (is_close c) eqn:E3; [intros (? & s & up' & -> & ?); by constructor|].
    destruct (is_sep c) eqn:E4; [intros (-> & ? & ?); destruct up; [done|by constructor]|].
    intros [? H]. destruct (literal c) as [l|] eqn:El.
    + destruct H as (q & -> & ?). by eapply C_lit.
    + destruct H as (l & q & ? & -> & ?). by apply C_num.
Qed.

(** [run] decides [compl], and never leaves the arrays. *)
Definition decides (o : option (option bool)) (P : Prop) : Prop := exists b, o = Some (Some b) /\ (b = true <-> P).
Lemma decides_no P : ~ P -> decides (Some (Some false)) P.
Proof. intros H. exists false. by split. Qed.
Lemma decides_iff o P Q : decides o P -> (P <-> Q) -> decides o Q.
Proof. intros (b & -> & H) E. exists b. split; [done|]. by rewrite H. Qed.

Lemma run_decides n p m cur up : (length p < n)%nat -> inv m cur up -> decides (run p m) (compl cur up p).
Proof.
  revert p m cur up. induction n as [|n IH]; intros p m cur up Hn Hi; [lia|]. rewrite run_eq.
  pose proof (jw_decreases (p, m)) as Hdec.
  pose proof Hi as [_ Hst Hsp Hle Hstr Hesc _ _ Htop Hseen]. destruct p as [|c r].
  { cbn [jw_turn]. destruct (j_st m !! 0%nat) as [s0|] eqn:E; [|apply lookup_ge_None in E; lia].
    rewrite Hstr, Hsp. eexists. split; [done|]. destruct up as [|x up].
    - cbn in Htop. simplify_eq. rewrite !andb_true_r. split.
      + intros H. bools. subst. constructor.
      + intros H. apply compl_nil in H as [-> _]. rewrite Hseen by auto. by case_bool_decide.
    - cbn. rewrite andb_false_r. split; [done|]. intros H. by apply compl_nil in H as [_ ?]. }
  cbn [jw_turn] in *. rewrite Hstr, Hsp, Htop in *. cbn [length] in Hn.
  eapply decides_iff; [|symmetry; apply compl_iff].
  destruct (is_ws c); [apply IH; [lia|done]|]. destruct (c =? 34).
  { case_bool_decide as Hc; [apply decides_no; by intros [? _]|].
    assert (Hi' : inv (saw (mark ST_VALUE m)) ST_VALUE up) by by eapply inv_value.
    destruct (run_str (S (length r)) r (saw (mark ST_VALUE (set_str true m)))) as [(s & q & -> & Hs & ->)|[Hno ->]]; try done; [lia|apply Hi'| |].
    - replace (set_str false _) with (saw (mark ST_VALUE m)) by (unfold saw, mark, set_str; cbn; by rewrite Hstr).
      rewrite length_app in Hn. cbn [length] in Hn. eapply decides_iff; [apply IH; [lia|exact Hi']|]. split.
      + intros H. split; [done|]. by exists s, q.
      + intros (_ & s' & q' & E & Hs' & H). by destruct (jstr_unique _ _ _ _ Hs Hs' E) as [-> ->].
    - apply decides_no. intros (_ & s & q & E & Hs & _). by eapply Hno. }
  destruct (is_open c).
  { case_bool_decide as Hc; [apply decides_no; by intros [? _]|].
    destruct (Nat.leb_spec 64 (length up)); [apply decides_no; intros (_ & ? & _); lia|].
    eapply decides_iff; [apply IH; [lia|by apply inv_push]|]. tauto. }
  destruct (is_close c).
  { destruct up as [|[o s] up]; [apply decides_no; by intros (_ & ? & ? & ? & _)|]. cbn [length Nat.eqb] in *.
    case_bool_decide as Hc; [apply decides_no; by intros [? _]|].
    destruct (inv_pop _ _ _ _ _ Hi) as [Ho Hp]. rewrite Hsp in Ho. cbn [length] in Ho. rewrite Ho in *.
    destruct (Z.eqb_spec o (opener c)) as [->|Hne].
    - eapply decides_iff; [apply IH; [lia|exact Hp]|]. split; [intros H; eauto|]. intros (_ & ? & ? & ? & ?). by simplify_eq.
    - apply decides_no. intros (_ & ? & ? & ? & _). congruence. }
  destruct (is_sep c).
  { destruct up as [|x up]; [apply decides_no; by intros (_ & ? & _)|]. cbn [length Nat.eqb orb] in *.
    case_bool_decide as Hc; cbn [negb] in *; [|apply decides_no; by intros [? _]]. subst cur.
    eapply decides_iff; [apply IH; [lia|eapply inv_sep, Hi]|]. split; [done|]. by intros (_ & _ & ?). }
  case_bool_decide as Hc; [apply decides_no; by intros [? _]|].
  assert (Hi' : inv (saw (mark ST_VALUE m)) ST_VALUE up) by by eapply inv_value.
  destruct (literal c) as [l|].
  - destruct (bytes_eqb (take (length l) (c :: r)) l) eqn:E.
    + specialize (Hdec _ eq_refl). cbn [fst length] in Hdec. eapply decides_iff; [apply IH; [lia|exact Hi']|].
      apply bytes_eqb_true in E. pose proof (take_drop (length l) (c :: r)) as Htd. rewrite E in Htd.
      split; [intros H; split; [done|]; by eexists|]. intros (_ & q & E' & H).
      rewrite <- Htd in E'. apply app_inv_head in E'. by rewrite E'.
    + apply decides_no. intros (_ & q & E' & _). rewrite E', take_app_exact in E by done.
      apply not_true_iff_false in E. apply E. by apply bytes_eqb_true.
  - destruct (number (c :: r)) as [q|] eqn:E.
    + specialize (Hdec _ eq_refl). cbn [fst length] in Hdec. eapply decides_iff; [apply IH; [lia|exact Hi']|].
      apply number_some in E as Hl. destruct Hl as (l & El & Hl). split; [intros H; split; [done|by exists l, q]|].
      intros (_ & l' & q' & Hl' & E' & H). rewrite E', (number_compl l' q' up Hl' H) in E. by simplify_eq.
    + apply decides_no. intros (_ & l & q & Hl & E' & H). rewrite E', (number_compl l q up Hl H) in E. done.
Qed.

(** *** The token grammar and the bracketed one agree *)

(** The rest of one container's contents. *)
Definition lvl (n : nat) (cur : jst) (l : list Z) : Prop :=
  match cur with
  | ST_EMPTY => ws l \/ items n l
  | ST_SEP => items n l
  | ST_VALUE => ws l \/ exists w s l', l = w ++ s :: l' /\ ws w /\ is_sep s = true /\ items n l'
  end.
Fixpoint fin (cur : jst) (up : list (Z * jst)) (p : list Z) : Prop :=
  match up with
  | [] => match cur with ST_VALUE => ws p | _ => doc 64 p end
  | (o, _) :: up' => exists l c q, p = l ++ c :: q /\ is_close c = true /\ o = opener c /\
                       lvl (64 - length up) cur l /\ fin ST_VALUE up' q
  end.

Lemma ws_cons c w : is_ws c = true -> ws w -> ws (c :: w).
Proof. by constructor. Qed.
Lemma items_ws c n l : is_ws c = true -> items n l -> items n (c :: l).
Proof. intros Hc [m w|m w]; [apply (I_one m (c :: w))|apply (I_more m (c :: w))]; try done; by apply ws_cons. Qed.
Lemma lvl_ws c n cur l : is_ws c = true -> lvl n cur l -> lvl n cur (c :: l).
Proof.
  intros Hc. destruct cur; cbn.
  - intros [?|?]; [left; by apply ws_cons|right; by apply items_ws].
  - intros [?|(w & s & l' & -> & ? & ?)]; [left; by apply ws_cons|]. right. exists (c :: w), s, l'.
    split; [done|]. split; [by apply ws_cons|done].
  - by apply items_ws.
Qed.
Lemma lvl_value n cur v l : cur <> ST_VALUE -> value n v -> lvl n ST_VALUE l -> lvl n cur (v ++ l).
Proof.
  intros Hc Hv Hl. assert (H : items n (v ++ l)); [|destruct cur; cbn; [by right|done|done]].
  destruct Hl as [Hl|(w & s & l' & -> & Hw & Hs & Hi)]; [apply (I_one n [] v l)|apply (I_more n [] v w s l')]; done || constructor.
Qed.

Lemma fin_ws c cur up p : is_ws c = true -> fin cur up p -> fin cur up (c :: p).
Proof.
  intros Hc. destruct up as [|[o s] up]; cbn [fin].
  - assert (Hd : doc 64 p -> doc 64 (c :: p)).
    { intros (w & v & w' & ? & ? & ? & ->). exists (c :: w), v, w'. split; [by apply ws_cons|done]. }
    destruct cur; [done|by apply ws_cons|done].
  - intros (l & d & q & -> & ? & ? & ? & ?). exists (c :: l), d, q. split_and!; try done. by apply lvl_ws.
Qed.
Lemma fin_value cur up v p : cur <> ST_VALUE -> value (64 - length up) v -> fin ST_VALUE up p -> fin cur up (v ++ p).
Proof.
  intros Hc Hv. destruct up as [|[o s] up]; cbn [fin].
  - intros Hp. assert (doc 64 (v ++ p)) by (exists [], v, p; split; [constructor|done]). by destruct cur.
  - intros (l & d & q & -> & ? & ? & ? & ?). exists (v ++ l), d, q. rewrite <- app_assoc.
    split_and!; try done. by apply lvl_value.
Qed.
Lemma opener_inj c d : is_close c = true -> is_close d = true -> opener c = opener d -> c = d.
Proof. chars. Qed.

Lemma compl_fin cur up p : compl cur up p -> fin cur up p.
Proof.
  induction 1.
  - constructor.
  - by apply fin_ws.
  - change (34 :: s ++ 34 :: p) with (34 :: s ++ [34] ++ p). rewrite app_assoc. apply (fin_value _ _ (34 :: s ++ [34])); [done|by constructor|done].
  - apply fin_value; [done|by econstructor|done].
  - apply fin_value; [done|by constructor|done].
  - cbn [fin] in IHcompl. destruct IHcompl as (l & d & q & -> & Hd & E & Hl & Hq). apply opener_inj in E as ->; [|done..].
    replace (opener d :: l ++ d :: q) with ((opener d :: l ++ [d]) ++ q) by (cbn; by rewrite <- app_assoc).
    apply fin_value; [done| |done]. cbn [length] in Hl. replace (64 - length up)%nat with (S (64 - S (length up))) by lia.
    destruct Hl as [Hl|Hl]; by constructor.
  - exists [], c, p. split_and!; try done. destruct cur; [left|left|done]; constructor.
  - destruct x as [o s]. destruct IHcompl as (l & d & q & -> & Hd & E & Hl & Hq). exists (c :: l), d, q. split_and!; try done.
    right. exists [], c, l. split_and!; try done. constructor.
Qed.

Lemma compl_wss cur up w p : ws w -> compl cur up p -> compl cur up (w ++ p).
Proof. induction 1; [done|]. intros. by constructor; auto. Qed.
Lemma value_compl :
  (forall n v, value n v -> forall cur up q, (n <= 64 - length up)%nat -> cur <> ST_VALUE -> compl ST_VALUE up q ->
     compl cur up (v ++ q)) /\
  (forall n l, items n l -> forall cur s up c q, (n <= 64 - S (length up))%nat -> cur <> ST_VALUE -> is_close c = true ->
     compl ST_VALUE up q -> compl cur ((opener c, s) :: up) (l ++ c :: q)).
Proof.
  apply value_items_ind.
  - intros n s Hs cur up q Hn Hc Hq. cbn. rewrite <- app_assoc. by apply C_str.
  - intros n c l Hl cur up q Hn Hc Hq. by eapply C_lit.
  - intros n l Hl cur up q Hn Hc Hq. by apply C_num.
  - intros n c w Hcl Hw cur up q Hn Hc Hq. cbn. rewrite <- app_assoc. apply C_open; [done|done|lia|].
    apply compl_wss; [done|]. by apply C_close.
  - intros n c l Hcl _ IH cur up q Hn Hc Hq. cbn. rewrite <- app_assoc. apply C_open; [done|done|lia|].
    apply IH; [lia|done..].
  - intros n w v w' Hw _ IH Hw' cur s up c q Hn Hc Hcl Hq. rewrite <- !app_assoc. apply compl_wss; [done|].
    apply IH; [cbn; lia|done|]. apply compl_wss; [done|]. by apply C_close.
  - intros n w v w' s l Hw _ IH Hw' Hs _ IHl cur s' up c q Hn Hc Hcl Hq. rewrite <- !app_assoc. apply compl_wss; [done|].
    apply IH; [cbn; lia|done|]. apply compl_wss; [done|]. cbn. apply C_sep; [done|]. by apply IHl.
Qed.

Lemma doc_compl p : doc 64 p <-> compl ST_EMPTY [] p.
Proof.
  split; [|by intros H%compl_fin]. intros (w & v & w' & Hw & Hv & Hw' & ->). apply compl_wss; [done|].
  apply value_compl with 64%nat; [done|cbn; lia|done|]. rewrite <- (app_nil_r w'). apply compl_wss; [done|constructor].
Qed.

Lemma inv_jw0 junk junk_st : length junk = 64%nat -> length junk_st = 65%nat -> inv (jw0 junk junk_st) ST_EMPTY [].
Proof.
  intros H1 H2. constructor; cbn [jw0 j_stack j_st j_sp j_in_str j_esc j_seen length map rev]; try done; [by rewrite length_insert|lia| |].
  - apply list_lookup_insert_eq. lia.
  - by intros [?|?].
Qed.

Lemma gate_decides junk junk_st s : length junk = 64%nat -> length junk_st = 65%nat ->
  exists b, ent_json_well_formed junk junk_st s = Some b /\ (b = true <-> doc 64 s).
Proof.
  intros H1 H2. destruct (run_decides (S (length s)) s (jw0 junk junk_st) ST_EMPTY []) as (b & Hb & Hiff); [lia|by apply inv_jw0|].
  exists b. unfold ent_json_well_formed. unfold run in Hb. rewrite Hb. split; [done|]. by rewrite Hiff, doc_compl.
Qed.

(** C18: the gate accepts exactly its grammar: on any bytes, and whatever the
    uninitialised arrays hold, [ent_json_well_formed] returns (never indexing
    its 64-byte stack or 65-byte state array outside their bounds), and it
    returns true exactly for one value between white space whose brackets
    match and nest at most 64 deep. *)
Theorem json_gate_exact junk junk_st s : length junk = 64%nat -> length junk_st = 65%nat ->
  exists b, ent_json_well_formed junk junk_st s = Some b /\ (b = true <-> doc 64 s).
Proof. apply gate_decides. Qed.

Lemma json_gate_exact_witness :
  exists b, ent_json_well_formed (replicate 64 7) (replicate 65 ST_SEP) (bs "{ : 1}") = Some b /\ (b = true <-> doc 64 (bs "{ : 1}")).
Proof. apply (json_gate_exact (replicate 64 7) (replicate 65 ST_SEP) (bs "{ : 1}")); reflexivity. Defined.

(** ** Lemmas for the callers *)

Lemma escape_loop_app cap o s : Z.of_nat (length o) + Z.of_nat (length (flat_map escape1 s)) <= cap ->
  escape_loop cap o s = Some (o ++ flat_map escape1 s).
Proof.
  revert o. induction s as [|c s IH]; intros o H; [by rewrite app_nil_r|]. cbn [flat_map escape_loop] in *.
  rewrite length_app in H. rewrite (proj2 (Z.ltb_ge _ _)) by lia. rewrite IH by (rewrite length_app; lia). by rewrite <- app_assoc.
Qed.
Lemma escape1_length c : (length (escape1 c) <= 6)%nat.
Proof. unfold escape1. repeat (case_match; [cbn; lia|]). cbn. lia. Qed.
Lemma escape_length s : (length (flat_map escape1 s) <= 6 * length s)%nat.
Proof. induction s as [|c s IH]; [done|]. cbn [flat_map length]. rewrite length_app. pose proof (escape1_length c). lia. Qed.
(** Six bytes per byte are enough. *)
Lemma escape_fits s cap : 6 * Z.of_nat (length s) <= cap -> ent_json_escape s cap = Some (flat_map escape1 s).
Proof. intros H. unfold ent_json_escape. rewrite escape_loop_app; [done|]. pose proof (escape_length s). cbn. lia. Qed.

Lemma jstr_app s t : jstr s -> jstr t -> jstr (s ++ t).
Proof. induction 1; intros; cbn; [done|constructor; auto..]. Qed.
Lemma hexd_range n : 0 <= n < 16 -> 48 <= hexd n <= 57 \/ 97 <= hexd n <= 102.
Proof.
  intros H. assert (Hd : forallb (fun n => let d := hexd (Z.of_nat n) in (48 <=? d) && (d <=? 57) || (97 <=? d) && (d <=? 102)) (seq 0 16) = true) by (vm_compute; reflexivity).
  rewrite forallb_forall in Hd. specialize (Hd (Z.to_nat n)). rewrite Z2Nat.id in Hd by lia.
  assert (In (Z.to_nat n) (seq 0 16)) by (apply in_seq; lia). specialize (Hd H0). cbv zeta in Hd. lia.
Qed.
Lemma nibble_bounds c : 0 <= c < 256 -> 0 <= Z.land (Z.shiftr c 4) 15 < 16 /\ 0 <= Z.land c 15 < 16.
Proof.
  intros H. change 15 with (Z.ones 4). rewrite !Z.land_ones by lia. split; apply Z.mod_pos_bound; lia.
Qed.
(** An escaped byte is string contents, without a NUL or a bare quote. *)
Lemma escape1_jstr c : 0 <= c < 256 -> jstr (escape1 c) /\ no_nul (escape1 c).
Proof.
  intros H. unfold escape1, no_nul. destruct (nibble_bounds c H) as [H1 H2]. apply hexd_range in H1, H2.
  repeat (case_match; [split; [repeat constructor; lia|repeat constructor; lia]|]).
  split; [apply js_chr; [lia..|constructor]|repeat constructor; lia].
Qed.
Lemma escape_jstr s : bytes_ok s -> jstr (flat_map escape1 s) /\ no_nul (flat_map escape1 s).
Proof.
  induction 1 as [|c s Hc _ [IH1 IH2]]; [by repeat constructor|]. cbn [flat_map]. destruct (escape1_jstr c Hc).
  split; [by apply jstr_app|by apply Forall_app].
Qed.

(** The search finds the needle exactly when it is there. *)
Lemma memmem_none h n : n <> [] -> ent_memmem h n = None <-> forall a b, h <> a ++ n ++ b.
Proof.
  intros Hn. unfold ent_memmem. destruct (Nat.eqb_spec (length n) 0); [by destruct n|].
  destruct (Nat.ltb_spec (length h) (length n)) as [Hl|Hl].
  { split; [|done]. intros _ a b ->. rewrite !length_app in Hl. lia. }
  rewrite findi_none, List.Forall_forall. split.
  - intros H a b ->. rewrite !length_app in *. specialize (H (length a)). rewrite drop_app_exact in H by done.
    rewrite take_app_exact in H by done. rewrite (proj2 (bytes_eqb_true _ _)) in H by done.
    rewrite andb_true_r in H. assert (at_ (a ++ n ++ b) (length a) = at_ n 0); [|by rewrite H0, Z.eqb_refl in H; (discriminate H; apply in_seq; lia)].
    unfold at_. rewrite app_nth2, Nat.sub_diag by lia. by destruct n.
  - intros H i Hi. apply in_seq in Hi. apply andb_false_iff. right. apply not_true_iff_false. intros E%bytes_eqb_true.
    apply (H (take i h) (drop (length n) (drop i h))). rewrite <- E at 1. by rewrite !take_drop.
Qed.
