(* ===== verification/JsonOut.v ===== *)
(** * The growable output buffers of the SQL functions

    One buffer per statement, grown by doubling and reused between calls; its
    state is its capacity.  What is printed is checked against the room left:
    [emit] is one [snprintf] at the end of the text, [None] when the text does
    not fit with its terminating NUL. *)

From S2P Require Import Prelude.

(** ** Growing *)

Definition ensure_turn (need ncap : Z) : Z + Z :=
  if ncap <? need then if SIZE_MAX / 2 <? ncap then inr need else inl (ncap * 2) else inr ncap.
(** Is there room for [need] bytes, and the capacity after. *)
Definition json_out_ensure (malloc : Z -> bool) (cap need : Z) : bool * Z :=
  if need <=? cap then (true, cap) else
  match while (ensure_turn need) 66 (if cap =? 0 then 256 else cap) with
  | Some ncap => if malloc ncap then (true, ncap) else (false, cap)
  | None => (false, cap)
  end.

(** What every capacity is: none yet, or at least the first allocation. *)
Definition out_cap (cap : Z) : Prop := cap = 0 \/ 256 <= cap <= SIZE_MAX.

Lemma ensure_loop need n ncap : need <= SIZE_MAX -> 256 <= ncap <= SIZE_MAX -> 2 ^ 64 <= ncap * 2 ^ (Z.of_nat n) ->
  exists r, while (ensure_turn need) (S n) ncap = Some r /\ need <= r /\ 256 <= r <= SIZE_MAX.
Proof.
  intros Hn. revert ncap. induction n as [|n IH]; intros ncap Hc Hp.
  - unfold SIZE_MAX in Hc. cbn [Z.of_nat] in Hp. lia.
  - cbn [while]. unfold ensure_turn at 1. destruct (Z.ltb_spec ncap need); [|exists ncap; split_and!; [done|lia..]].
    destruct (Z.ltb_spec (SIZE_MAX / 2) ncap); [exists need; split_and!; [done|lia..]|].
    apply IH; [unfold SIZE_MAX in *; lia|]. rewrite Nat2Z.inj_succ, Z.pow_succ_r in Hp by lia. lia.
Qed.
(** The doubling stops, and then there is room. *)
Lemma ensure_spec malloc cap need : out_cap cap -> need <= SIZE_MAX ->
  let '(ok, cap') := json_out_ensure malloc cap need in
  out_cap cap' /\ (ok = true -> need <= cap' /\ (0 < need -> 256 <= cap')) /\ (ok = false -> cap' = cap).
Proof.
  intros Hc Hn. unfold json_out_ensure. destruct (Z.leb_spec need cap) as [Hle|Hle].
  - split_and!; [done| |done]. intros _. split; [done|]. destruct Hc; lia.
  - destruct (ensure_loop need 65 (if cap =? 0 then 256 else cap) Hn) as (r & -> & H1 & H2).
    + destruct (Z.eqb_spec cap 0); [unfold SIZE_MAX; lia|]. destruct Hc; [done|lia].
    + assert (256 <= (if cap =? 0 then 256 else cap)) by (destruct (Z.eqb_spec cap 0); [lia|destruct Hc; lia]).
      change (Z.of_nat 65) with 65. change (2 ^ 65) with (2 * 2 ^ 64). lia.
    + destruct (malloc r); split_and!; try done; [by right|intros _; lia].
Qed.
Lemma ensure_mem malloc cap need : (forall n, malloc n = true) -> out_cap cap -> need <= SIZE_MAX ->
  fst (json_out_ensure malloc cap need) = true.
Proof.
  intros Hm Hc Hn. unfold json_out_ensure. destruct (Z.leb_spec need cap) as [Hle|Hle]; [done|].
  destruct (ensure_loop need 65 (if cap =? 0 then 256 else cap) Hn) as (r & -> & H1 & H2); [| |by rewrite Hm].
  - destruct (Z.eqb_spec cap 0); [unfold SIZE_MAX; lia|]. destruct Hc; [done|lia].
  - assert (256 <= (if cap =? 0 then 256 else cap)) by (destruct (Z.eqb_spec cap 0); [lia|destruct Hc; lia]).
    change (Z.of_nat 65) with 65. change (2 ^ 65) with (2 * 2 ^ 64). lia.
Qed.

(** ** Printing *)

Definition emit (cap : Z) (acc t : list Z) : option (list Z) :=
  if cap - Z.of_nat (length acc) <=? Z.of_nat (length t) then None else Some (acc ++ t).
Lemma emit_fits cap acc t : Z.of_nat (length acc + length t) < cap -> emit cap acc t = Some (acc ++ t).
Proof. intros H. unfold emit. destruct (Z.leb_spec (cap - Z.of_nat (length acc)) (Z.of_nat (length t))); [lia|done]. Qed.

(** A separated list: every element printed in turn, a comma before all but
    the first. *)
Definition comma (first : bool) (t : list Z) : list Z := if first then t else 44 :: t.
Fixpoint joined {A} (f : A -> list Z) (first : bool) (l : list A) : list Z :=
  match l with [] => [] | x :: r => comma first (f x) ++ joined f false r end.
Fixpoint emit_all {A} (cap : Z) (f : A -> list Z) (first : bool) (acc : list Z) (l : list A) : option (list Z) :=
  match l with
  | [] => Some acc
  | x :: r => acc ← emit cap acc (comma first (f x)); emit_all cap f false acc r
  end.
Lemma joined_length {A} (f : A -> list Z) m first l : Forall (fun x => (length (f x) <= m)%nat) l ->
  (length (joined f first l) <= S m * length l)%nat.
Proof.
  intros H. revert first. induction H as [|x l Hx _ IH]; intros first; cbn [joined length]; [lia|].
  rewrite length_app. specialize (IH false). destruct first; cbn [comma length]; lia.
Qed.
Lemma emit_all_fits {A} (f : A -> list Z) cap first acc l : Z.of_nat (length acc + length (joined f first l)) < cap ->
  emit_all cap f first acc l = Some (acc ++ joined f first l).
Proof.
  revert first acc. induction l as [|x l IH]; intros first acc H; cbn [emit_all joined] in *; [by rewrite app_nil_r|].
  rewrite length_app in H. rewrite emit_fits by lia. cbn [mbind option_bind]. rewrite IH by (rewrite length_app; lia). by rewrite <- app_assoc.
Qed.
