(* ===== verification/JsonText.v ===== *)
(** * JSON text made of printed numbers and names

    Documents put together from parts, and the numbers C prints in them: every
    conversion of a finite number is a JSON number, of a bounded length. *)

From Stdlib Require Import SpecFloat.
From S2P Require Import Prelude AuditJson Float JsonOut.

(** ** Putting documents together *)

Lemma value_mono :
  (forall n v, value n v -> forall m, (n <= m)%nat -> value m v) /\
  (forall n l, items n l -> forall m, (n <= m)%nat -> items m l).
Proof.
  apply value_items_ind; intros.
  - by constructor.
  - by econstructor.
  - by constructor.
  - destruct m as [|m]; [lia|]. by constructor.
  - destruct m as [|m]; [lia|]. apply V_box; [done|]. apply H. lia.
  - apply I_one; auto.
  - apply I_more; auto.
Qed.
Lemma items_snoc n l s l' : items n l -> is_sep s = true -> items n l' -> items n (l ++ s :: l').
Proof.
  induction 1; intros; rewrite <- ?app_assoc; cbn; [by apply I_more|]. apply I_more; auto.
Qed.
Lemma items_one n v : value n v -> items n v.
Proof. intros H. pose proof (I_one n [] v []) as E. rewrite app_nil_r in E. apply E; [constructor|done|constructor]. Qed.
Lemma items_pair n k s l : value n k -> is_sep s = true -> items n l -> items n (k ++ s :: l).
Proof. intros Hk Hs Hl. apply (I_more n [] k [] s l); done || constructor. Qed.
Lemma obj_value n l : items n l -> value (S n) (123 :: l ++ [125]).
Proof. by apply (V_box n 125). Qed.


(** ** Integers *)

Lemma digits_all fuel n acc : Forall (fun c => isdigit c = true) acc -> Forall (fun c => isdigit c = true) (digits fuel n acc).
Proof.
  revert n acc. induction fuel as [|f IH]; intros n acc Ha; cbn [digits]; [done|].
  assert (H : Forall (fun c => isdigit c = true) ((48 + n mod 10) :: acc)).
  { constructor; [|done]. pose proof (Z.mod_pos_bound n 10 ltac:(lia)). unfold isdigit. lia. }
  destruct (n <? 10); [done|]. by apply IH.
Qed.
Lemma digits_grow fuel n acc : (length acc <= length (digits fuel n acc))%nat.
Proof.
  revert n acc. induction fuel as [|f IH]; intros n acc; cbn [digits]; [lia|]. destruct (n <? 10); [cbn; lia|].
  specialize (IH (n / 10) ((48 + n mod 10) :: acc)). cbn [length] in IH. lia.
Qed.
Lemma dec_u_digits n : all_digits (dec_u n).
Proof.
  unfold dec_u. split; [|by apply digits_all]. intros E. cbn [digits] in E. destruct (n <? 10); [done|].
  pose proof (digits_grow (Z.to_nat (Z.log2 n)) (n / 10) [48 + n mod 10]) as H. rewrite E in H. cbn in H. lia.
Qed.
Lemma dec_d_num n : jnum (dec_d n).
Proof.
  unfold dec_d. destruct (n <? 0).
  - exists [45], (dec_u (- n)), [], []. rewrite !app_nil_r. split_and!; auto using dec_u_digits.
  - exists [], (dec_u n), [], []. rewrite !app_nil_r. split_and!; auto using dec_u_digits.
Qed.
Lemma dec_u_num n : jnum (dec_u n).
Proof. exists [], (dec_u n), [], []. rewrite !app_nil_r. split_and!; auto using dec_u_digits. Qed.
Lemma digits_length fuel n acc k : 0 <= n < 10 ^ Z.of_nat k -> (0 < k)%nat -> (length (digits fuel n acc) <= length acc + k)%nat.
Proof.
  revert n acc k. induction fuel as [|fuel IH]; intros n acc k Hn Hk; cbn [digits]; [lia|].
  destruct (Z.ltb_spec n 10); [cbn [length]; lia|]. destruct k as [|[|k]]; [lia|cbn in Hn; lia|].
  specialize (IH (n / 10) (48 + n mod 10 :: acc) (S k)). cbn [length] in IH.
  assert (0 <= n / 10 < 10 ^ Z.of_nat (S k)); [|specialize (IH H0); lia].
  split; [apply Z.div_pos; lia|]. apply Z.div_lt_upper_bound; [lia|].
  replace (10 * 10 ^ Z.of_nat (S k)) with (10 ^ Z.of_nat (S (S k))); [lia|]. rewrite (Nat2Z.inj_succ (S k)), Z.pow_succ_r by lia. lia.
Qed.
Lemma dec_u_length n k : 0 <= n < 10 ^ Z.of_nat k -> (0 < k)%nat -> (length (dec_u n) <= k)%nat.
Proof. intros H1 H2. apply (digits_length _ n [] k H1 H2). Qed.

(** ** Fractions *)

Lemma pad_length k n : length (pad k n) = k.
Proof. revert n. induction k as [|k IH]; intros n; cbn [pad]; [done|]. rewrite length_app, IH. cbn. lia. Qed.
Lemma pad_all k n : Forall (fun c => isdigit c = true) (pad k n).
Proof.
  revert n. induction k as [|k IH]; intros n; cbn [pad]; [constructor|]. apply Forall_app. split; [done|].
  constructor; [|constructor]. pose proof (Z.mod_pos_bound n 10 ltac:(lia)). unfold isdigit. lia.
Qed.
Lemma fixed_num p v : exists ds fr, fixed p v = ds ++ fr /\ all_digits ds /\ (fr = [] \/ exists f, fr = 46 :: f /\ all_digits f).
Proof.
  eexists (dec_u _), _. split; [done|]. split; [apply dec_u_digits|]. destruct p as [|p]; [by left|right].
  eexists. split; [done|]. split; [|apply pad_all]. intros E. apply (f_equal length) in E. rewrite pad_length in E. done.
Qed.
Lemma sgn_or s : sgn s = [] \/ sgn s = [45].
Proof. destruct s; auto. Qed.
Lemma fmt_f_num p x : isfinite x = true -> jnum (fmt_f p x).
Proof.
  assert (H : forall s v, jnum (sgn s ++ fixed p v)).
  { intros s v. destruct (fixed_num p v) as (ds & fr & -> & Hd & Hf). exists (sgn s), ds, fr, [].
    rewrite app_nil_r. split_and!; auto using sgn_or. }
  destruct x as [s|s| |s m e]; try done; intros _; apply H.
Qed.

Lemma drop_zeros_all f l : Forall f l -> Forall f (drop_zeros l).
Proof.
  induction 1 as [|c l Hc _ IH]; cbn [drop_zeros]; [constructor|]. destruct (drop_zeros l) as [|d r]; [|by constructor].
  destruct (c =? 48); by repeat constructor.
Qed.
Lemma frac_num l : Forall (fun c => isdigit c = true) l -> frac l = [] \/ exists f, frac l = 46 :: f /\ all_digits f.
Proof.
  intros H. apply drop_zeros_all in H. unfold frac. destruct (drop_zeros l) as [|c f]; [by left|right]. by exists (c :: f).
Qed.
Lemma general_num p n d s : (0 < p)%nat -> jnum (sgn s ++ general p n d).
Proof.
  intros Hp. unfold general. destruct (sig p n d) as [x v]. pose proof (pad_all p v) as Ha. pose proof (pad_length p v) as Hl.
  set (ds := pad p v) in *. clearbody ds.
  assert (Htake : forall k, (0 < k)%nat -> all_digits (take k ds)).
  { intros k Hk. split; [|by apply Forall_take]. intros E. apply (f_equal length) in E. rewrite length_take in E. cbn in E. lia. }
  destruct ((x <? -4) || (Z.of_nat p <=? x)) eqn:E.
  - eexists (sgn s), (take 1 ds), _, _. split; [done|]. split_and!; [apply sgn_or|apply Htake; lia|by apply frac_num, Forall_drop|].
    right. exists 101, [if x <? 0 then 45 else 43], ((if Z.abs x <? 10 then [48] else []) ++ dec_u (Z.abs x)).
    split; [done|]. split_and!; [by left|destruct (x <? 0); auto|]. destruct (dec_u_digits (Z.abs x)) as [H1 H2]. split.
    + destruct (Z.abs x <? 10); [done|]. by destruct (dec_u (Z.abs x)).
    + apply Forall_app. split; [|done]. destruct (Z.abs x <? 10); by repeat constructor.
  - destruct (x <? 0) eqn:E0.
    + eexists (sgn s), (bs "0"), _, []. rewrite app_nil_r. split; [done|]. split_and!; [apply sgn_or|by split; [|by repeat constructor]| |by left].
      apply frac_num, Forall_app. split; [|done]. apply Forall_replicate. done.
    + eexists (sgn s), (take (Z.to_nat (x + 1)) ds), _, []. rewrite app_nil_r. split; [done|].
      split_and!; [apply sgn_or|apply Htake; lia|by apply frac_num, Forall_drop|by left].
Qed.
Lemma fmt_g_num p x : (0 < p)%nat -> isfinite x = true -> jnum (fmt_g p x).
Proof.
  intros Hp. destruct x as [s|s| |s m e]; try done; intros _; [|by apply general_num].
  exists (sgn s), (bs "0"), [], []. split_and!; [done|apply sgn_or| |by left|by left]. by split; [|by repeat constructor].
Qed.

(** ** Lengths *)

Lemma round_div_bound n d b : 0 < d -> 0 <= n -> n <= b * d -> 0 <= round_div n d <= b.
Proof.
  intros Hd Hn Hb. unfold round_div. pose proof (Z.div_mod n d ltac:(lia)). pose proof (Z.mod_pos_bound n d Hd).
  assert (Hq : 0 <= n / d) by (apply Z.div_pos; lia).
  assert (H1 : n mod d = 0 \/ n / d + 1 <= b) by nia. repeat case_match; nia.
Qed.
(** A double's magnitude. *)
Lemma valid64_bound s m e : valid64 (S754_finite s m e) = true -> Zpos m < 2 ^ 53 /\ -1074 <= e <= 971.
Proof.
  unfold valid64. cbn [valid_binary]. unfold bounded, canonical_mantissa, fexp, emin. rewrite andb_true_iff, Z.eqb_eq, Z.leb_le.
  intros [H1 H2]. assert (Hd : Zpos (digits2_pos m) <= 53) by lia. split; [|lia].
  assert (Hm : forall q, Zpos q < 2 ^ Zpos (digits2_pos q)).
  { clear. induction q as [q IH|q IH|]; cbn [digits2_pos]; [| |done].
    all: rewrite Pos2Z.inj_succ, Z.pow_succ_r by lia; lia. }
  specialize (Hm m). pose proof (Z.pow_le_mono_r 2 (Zpos (digits2_pos m)) 53 ltac:(lia) Hd). lia.
Qed.
Lemma fmt_f10_length x : valid64 x = true -> (length (fmt_f 10 x) <= 321)%nat.
Proof.
  assert (Hsgn : forall s, (length (sgn s) <= 1)%nat) by (intros []; cbn; lia).
  assert (H : forall s v, 0 <= v < 10 ^ 319 -> (length (sgn s ++ fixed 10 v) <= 321)%nat).
  { intros s v Hv. unfold fixed. rewrite !length_app. cbn [length]. rewrite pad_length. change (Z.of_nat 10) with 10.
    assert (length (dec_u (v / 10 ^ 10)) <= 309)%nat; [|specialize (Hsgn s); lia].
    apply dec_u_length; [|lia]. split; [apply Z.div_pos; lia|]. apply Z.div_lt_upper_bound; [lia|].
    change (Z.of_nat 309) with 309. rewrite <- Z.pow_add_r by lia. apply Hv. }
  destruct x as [s|s| |s m e]; intros Hv.
  - apply H. split; [lia|]. by apply Z.pow_pos_nonneg.
  - destruct s; cbn; lia.
  - cbn; lia.
  - apply valid64_bound in Hv as [Hm He]. cbn [fmt_f]. apply H. change (Z.of_nat 10) with 10.
    assert (Hbig : 2 ^ 1024 * 10 ^ 10 < 10 ^ 319) by (by vm_compute).
    assert (Hd : 0 < den_of e) by (unfold den_of; destruct (Z.leb_spec 0 e); [lia|apply Z.pow_pos_nonneg; lia]).
    assert (Hn : 0 <= num_of m e * 10 ^ 10 <= 2 ^ 1024 * 10 ^ 10 * den_of e).
    { unfold num_of, den_of. destruct (Z.leb_spec 0 e).
      - rewrite Z.mul_1_r. pose proof (Z.pow_pos_nonneg 2 e ltac:(lia) ltac:(lia)). split; [lia|].
        apply Z.mul_le_mono_nonneg_r; [lia|]. replace 1024 with (53 + 971) by lia. rewrite Z.pow_add_r by lia.
        pose proof (Z.pow_le_mono_r 2 e 971 ltac:(lia) ltac:(lia)). apply Z.mul_le_mono_nonneg; lia.
      - pose proof (Z.pow_pos_nonneg 2 (- e) ltac:(lia) ltac:(lia)).
        assert (2 ^ 53 <= 2 ^ 1024) by (apply Z.pow_le_mono_r; lia). split; [lia|]. nia. }
    pose proof (round_div_bound (num_of m e * 10 ^ 10) (den_of e) (2 ^ 1024 * 10 ^ 10) Hd (proj1 Hn) (proj2 Hn)). lia.
Qed.

Lemma dec10_bound n d : 0 < n < 10 ^ 330 -> 0 < d < 10 ^ 330 -> -331 <= dec10 n d <= 330.
Proof.
  intros Hn Hd. unfold dec10. assert (length (dec_u n) <= 330)%nat by (apply dec_u_length; [change (Z.of_nat 330) with 330|]; lia).
  assert (length (dec_u d) <= 330)%nat by (apply dec_u_length; [change (Z.of_nat 330) with 330|]; lia).
  destruct (ten_ge _ _ _); lia.
Qed.
Lemma drop_zeros_length l : (length (drop_zeros l) <= length l)%nat.
Proof. induction l as [|c l IH]; cbn [drop_zeros]; [done|]. destruct (drop_zeros l); [destruct (c =? 48)|]; cbn in *; lia. Qed.
Lemma frac_length l : (length (frac l) <= S (length l))%nat.
Proof. unfold frac. pose proof (drop_zeros_length l). destruct (drop_zeros l); cbn in *; lia. Qed.
Lemma general_length p n d : (0 < p)%nat -> 0 < n < 10 ^ 330 -> 0 < d < 10 ^ 330 -> (length (general p n d) <= p + 6)%nat.
Proof.
  intros Hp Hn Hd. unfold general, sig. pose proof (dec10_bound n d Hn Hd) as Hx. set (x0 := dec10 n d) in *. clearbody x0.
  set (v0 := if 0 <=? Z.of_nat p - 1 - x0 then _ else _). clearbody v0.
  assert (H : forall x v, -331 <= x <= 331 -> (length (
    let ds := pad p v in if (x <? -4) || (Z.of_nat p <=? x) then
    take 1 ds ++ frac (drop 1 ds) ++ [101; if x <? 0 then 45 else 43] ++ (if Z.abs x <? 10 then [48] else []) ++ dec_u (Z.abs x)
    else if x <? 0 then bs "0" ++ frac (replicate (Z.to_nat (- x - 1)) 48 ++ ds)
    else take (Z.to_nat (x + 1)) ds ++ frac (drop (Z.to_nat (x + 1)) ds))%Z <= p + 6)%nat).
  { intros x v Hb. cbn zeta. pose proof (pad_length p v) as Hl. set (ds := pad p v) in *. clearbody ds.
    destruct ((x <? -4) || (Z.of_nat p <=? x)) eqn:E.
    - rewrite !length_app, length_take. pose proof (frac_length (drop 1 ds)) as Hf. rewrite length_drop in Hf. cbn [length].
      assert (Hk : (length (if Z.abs x <? 10 then [48] else [])%Z + length (dec_u (Z.abs x)) <= 3)%nat); [|lia].
      destruct (Z.ltb_spec (Z.abs x) 10); cbn [length].
      + assert (length (dec_u (Z.abs x)) <= 1)%nat by (apply dec_u_length; lia). lia.
      + assert (length (dec_u (Z.abs x)) <= 3)%nat by (apply dec_u_length; change (Z.of_nat 3) with 3; lia). lia.
    - destruct (Z.ltb_spec x 0).
      + rewrite length_app. pose proof (frac_length (replicate (Z.to_nat (- x - 1)) 48 ++ ds)) as Hf.
        rewrite length_app, length_replicate in Hf. cbn [length bs]. lia.
      + rewrite length_app, length_take. pose proof (frac_length (drop (Z.to_nat (x + 1)) ds)) as Hf. rewrite length_drop in Hf. lia. }
  destruct (v0 =? 10 ^ Z.of_nat p); apply H; lia.
Qed.
(** A magnitude a double can have. *)
Definition in_range (x : double) : Prop := match x with S754_finite _ m e => Zpos m < 2 ^ 53 /\ -1074 <= e <= 971 | _ => True end.
Lemma valid64_range x : valid64 x = true -> in_range x.
Proof. destruct x; try done. apply valid64_bound. Qed.
Lemma valid32_range x : valid32 x = true -> in_range x.
Proof. destruct x; try done. rewrite valid32_cases. cbn. lia. Qed.
Lemma fmt_g_length p x : (0 < p)%nat -> in_range x -> (length (fmt_g p x) <= p + 7)%nat.
Proof.
  intros Hp. destruct x as [s|s| |s m e]; intros Hv.
  - destruct s; cbn; lia.
  - destruct s; cbn; lia.
  - cbn; lia.
  - destruct Hv as [Hm He]. cbn [fmt_g]. rewrite length_app.
    assert (Hb : 2 ^ 53 * 2 ^ 971 < 10 ^ 330 /\ 2 ^ 1074 < 10 ^ 330) by (by vm_compute).
    assert (0 < num_of m e < 10 ^ 330 /\ 0 < den_of e < 10 ^ 330).
    { unfold num_of, den_of. destruct (Z.leb_spec 0 e).
      - pose proof (Z.pow_pos_nonneg 2 e ltac:(lia) ltac:(lia)). pose proof (Z.pow_le_mono_r 2 e 971 ltac:(lia) ltac:(lia)).
        assert (Zpos m * 2 ^ e <= 2 ^ 53 * 2 ^ 971) by (apply Z.mul_le_mono_nonneg; lia). lia.
      - pose proof (Z.pow_pos_nonneg 2 (- e) ltac:(lia) ltac:(lia)). pose proof (Z.pow_le_mono_r 2 (- e) 1074 ltac:(lia) ltac:(lia)).
        assert (2 ^ 53 <= 2 ^ 1074) by (apply Z.pow_le_mono_r; lia). lia. }
    pose proof (general_length p (num_of m e) (den_of e) Hp ltac:(lia) ltac:(lia)). destruct s; cbn [length sgn]; lia.
Qed.

(** ** Objects *)

(** A member: a quoted name, a colon, a value. *)
Definition member (k v : list Z) : list Z := (34 :: k ++ [34]) ++ 58 :: v.
Lemma member_items n k v : jstr k -> value n v -> items n (member k v).
Proof. intros Hk Hv. apply items_pair; [by apply V_str|done|by apply items_one]. Qed.
Lemma members_items n k v l : jstr k -> value n v -> items n l -> items n (member k v ++ 44 :: l).
Proof. intros Hk Hv Hl. apply items_snoc; [by apply member_items|done|done]. Qed.
Lemma doc_value n v : value n v -> doc n v.
Proof. intros H. exists [], v, []. split_and!; [constructor|done|constructor|by rewrite app_nil_r]. Qed.
(** Names without quotes, backslashes and control characters. *)
Definition plain_name (l : list Z) : bool := forallb (fun c => (32 <=? c) && negb (c =? 92) && negb (c =? 34)) l.
Lemma plain_jstr l : plain_name l = true -> jstr l.
Proof.
  induction l as [|c l IH]; cbn [plain_name forallb]; [constructor|]. intros [H1 H2]%andb_true_iff. constructor; [lia..|by apply IH].
Qed.

(** A separated list of values. *)
Lemma joined_items {A} (f : A -> list Z) n l : l <> [] -> Forall (fun x => value n (f x)) l -> items n (joined f true l).
Proof.
  assert (H : forall x r, value n (f x) -> Forall (fun x => value n (f x)) r -> items n (f x ++ joined f false r)).
  { intros x r Hx Hr. revert x Hx. induction Hr as [|y r Hy _ IH]; intros x Hx; cbn [joined].
    - rewrite app_nil_r. by apply items_one.
    - cbn [comma app]. apply items_pair; [done|done|]. by apply IH. }
  intros Hl Hf. destruct Hf as [|x r Hx Hr]; [done|]. by apply H.
Qed.
Lemma array_value {A} (f : A -> list Z) n l : Forall (fun x => value n (f x)) l -> value (S n) (91 :: joined f true l ++ [93]).
Proof.
  destruct l as [|x l]; intros H; [apply (V_empty n 93 []); [done|constructor]|]. apply (V_box n 93); [done|]. by apply joined_items.
Qed.
