(* ===== verification/JsonStrict.v ===== *)
(** * JSON texts

    The grammar of RFC 8259 over bytes (UTF-8 is not looked at), which is
    narrower than what the audit gate accepts (AuditJson.v): a comma separates
    and a colon binds, object keys are strings, a number has no leading zero,
    and only the eight simple escapes and four hex digits follow a backslash. *)

From S2P Require Import Prelude LedgerFmt AuditJson JsonText.

Definition hex_digit (c : Z) : bool := isdigit c || ((97 <=? c) && (c <=? 102)) || ((65 <=? c) && (c <=? 70)).

Inductive jchars : list Z -> Prop :=
  | JC_nil : jchars []
  | JC_esc c s : In c (bs "bfnrt/" ++ [34; 92]) -> jchars s -> jchars (92 :: c :: s)
  | JC_hex a b c d s : Forall (fun c => hex_digit c = true) [a; b; c; d] -> jchars s -> jchars (92 :: 117 :: a :: b :: c :: d :: s)
  | JC_chr c s : c <> 92 -> c <> 34 -> 32 <= c -> jchars s -> jchars (c :: s).

(** -? (0 | [1-9] digits) [. digits] [eE [+-] digits] *)
Definition jint (ds : list Z) : Prop := all_digits ds /\ (ds = [48] \/ hd 0 ds <> 48).
Definition number_text (l : list Z) : Prop :=
  exists sgn ds frac exp, l = sgn ++ ds ++ frac ++ exp /\ (sgn = [] \/ sgn = [45]) /\ jint ds /\
    (frac = [] \/ exists f, frac = 46 :: f /\ all_digits f) /\
    (exp = [] \/ exists e sg x, exp = e :: sg ++ x /\ (e = 101 \/ e = 69) /\
                   (sg = [] \/ sg = [43] \/ sg = [45]) /\ all_digits x).

Definition quoted (s : list Z) : list Z := 34 :: s ++ [34].

(** A value; the items of an object ([true]) or of an array. *)
Inductive json : list Z -> Prop :=
  | J_str s : jchars s -> json (quoted s)
  | J_lit c l : literal c = Some l -> json l
  | J_num l : number_text l -> json l
  | J_empty (o : bool) w : ws w -> json ((if o then 123 else 91) :: w ++ [if o then 125 else 93])
  | J_box (o : bool) l : jitems o l -> json ((if o then 123 else 91) :: l ++ [if o then 125 else 93])
with jitem : bool -> list Z -> Prop :=
  | JI_elem w v w' : ws w -> json v -> ws w' -> jitem false (w ++ v ++ w')
  | JI_member w k w1 w2 v w' : ws w -> jchars k -> ws w1 -> ws w2 -> json v -> ws w' ->
      jitem true (w ++ quoted k ++ w1 ++ 58 :: w2 ++ v ++ w')
with jitems : bool -> list Z -> Prop :=
  | JS_one o i : jitem o i -> jitems o i
  | JS_more o i l : jitem o i -> jitems o l -> jitems o (i ++ 44 :: l).
Scheme json_mut := Induction for json Sort Prop
  with jitem_mut := Induction for jitem Sort Prop
  with jitems_mut := Induction for jitems Sort Prop.

(** ** Building texts *)

Lemma member_item k v : jchars k -> json v -> jitem true (member k v).
Proof.
  intros Hk Hv. unfold member. change (34 :: k ++ [34]) with (quoted k). rewrite <- (app_nil_r v). apply (JI_member [] k [] [] v []); by first [assumption|constructor].
Qed.
Lemma members_snoc l k v : jitems true l -> jchars k -> json v -> jitems true (l ++ 44 :: member k v).
Proof.
  intros Hl Hk Hv. remember true as o eqn:Ho. induction Hl as [o i Hi|o i l Hi _ IH]; subst.
  - apply JS_more; [done|by apply JS_one, member_item].
  - rewrite <- app_assoc. cbn [app]. apply JS_more; [done|by apply IH].
Qed.
Lemma members_cons k v l : jchars k -> json v -> jitems true l -> jitems true (member k v ++ 44 :: l).
Proof. intros. apply JS_more; [by apply member_item|done]. Qed.
Lemma object_text l : jitems true l -> json (123 :: l ++ [125]).
Proof. apply (J_box true). Qed.

Lemma jchars_app s t : jchars s -> jchars t -> jchars (s ++ t).
Proof. induction 1; intros; cbn [app]; [done|apply JC_esc|apply JC_hex|apply JC_chr]; auto. Qed.
(** The contents of a literal without escapes. *)
Ltac plain_chars :=
  repeat match goal with
  | |- context [bs ?s] => let v := eval vm_compute in (bs s) in change (bs s) with v
  end; repeat (apply JC_chr; [lia..|]); apply JC_nil.

(** The audit record's escaper writes string contents. *)
Lemma escape1_jchars c : 0 <= c < 256 -> jchars (escape1 c).
Proof.
  intros H. unfold escape1. destruct (nibble_bounds c H) as [H1 H2]. apply hexd_range in H1, H2.
  assert (Hx : forall d, 48 <= d <= 57 \/ 97 <= d <= 102 -> hex_digit d = true) by (intros; unfold hex_digit, isdigit; lia).
  repeat (case_match; [first
    [ apply JC_esc; [cbn; tauto|constructor]
    | apply JC_hex; [repeat (constructor; [by (reflexivity || apply Hx)|]); constructor|constructor] ]|]).
  apply JC_chr; [lia..|constructor].
Qed.
Lemma escape_jchars s : bytes_ok s -> jchars (flat_map escape1 s).
Proof. induction 1 as [|c s Hc _ IH]; [constructor|]. cbn [flat_map]. apply jchars_app; [by apply escape1_jchars|done]. Qed.

(** A decimal has no leading zero. *)
Lemma digits_lead fuel n acc : 0 < n < 10 ^ Z.of_nat fuel -> hd 0 (digits fuel n acc) <> 48.
Proof.
  revert n acc. induction fuel as [|f IH]; intros n acc Hn; [cbn in Hn; lia|]. cbn [digits].
  destruct (Z.ltb_spec n 10) as [Hl|Hl].
  - cbn [hd]. rewrite Z.mod_small by lia. lia.
  - apply IH. rewrite Nat2Z.inj_succ, Z.pow_succ_r in Hn by lia. split; [apply Z.div_str_pos; lia|apply Z.div_lt_upper_bound; lia].
Qed.
Lemma dec_u_int n : 0 <= n -> jint (dec_u n).
Proof.
  intros Hn. split; [apply dec_u_digits|]. destruct (Z.eq_dec n 0) as [->|H0]; [by left|right].
  apply digits_lead. split; [lia|]. rewrite Nat2Z.inj_succ, Z2Nat.id by apply Z.log2_nonneg.
  pose proof (Z.log2_spec n ltac:(lia)) as [_ Hs]. eapply Z.lt_le_trans; [exact Hs|].
  apply Z.pow_le_mono_l. lia.
Qed.
Lemma dec_d_json n : json (dec_d n).
Proof.
  apply J_num. unfold dec_d. destruct (Z.ltb_spec n 0).
  - exists [45], (dec_u (- n)), [], []. rewrite !app_nil_r. split_and!; auto. apply dec_u_int. lia.
  - exists [], (dec_u n), [], []. rewrite !app_nil_r. split_and!; auto. by apply dec_u_int.
Qed.

(** ** Taking texts apart *)

Lemma json_head v : json v -> exists c r, v = c :: r /\ is_ws c = false /\ (c = 123 -> exists l, v = 123 :: l ++ [125] /\ (ws l \/ jitems true l)).
Proof.
  intros H. destruct H as [s Hs|c l Hl|l Hl|o w Hw|o l Hl].
  - eexists 34, _. split_and!; [done..|lia].
  - destruct (literal_head c l Hl) as (Hc & r & -> & _). eexists _, _. split_and!; [done|destruct Hc as [->|[->| ->]]; done|lia].
  - destruct Hl as (sgn & ds & frac & exp & -> & Hs & [[Hn Hd] _] & _). destruct ds as [|c ds]; [done|]. apply Forall_cons in Hd as [Hc _].
    destruct Hs as [->| ->]; (eexists _, _; split_and!; [done|chars|intros; chars]).
  - eexists _, _. split_and!; [done|by destruct o|]. destruct o; [|lia]. intros _. exists w. auto.
  - eexists _, _. split_and!; [done|by destruct o|]. destruct o; [|lia]. intros _. exists l. auto.
Qed.
(** What stands between the braces of an object. *)
Lemma json_object l : json (123 :: l ++ [125]) -> ws l \/ jitems true l.
Proof.
  intros H. destruct (json_head _ H) as (c & r & E & _ & Ho). injection E as <- _. destruct (Ho eq_refl) as (l' & E & Hl).
  injection E as E. by apply app_inv_tail in E as <-.
Qed.
