(* ===== verification/Redact.v ===== *)
(** * Redaction of the audit trail's text (src/fsql_audit_redact.h)

    The configured mode, the fingerprints, and the walk over a JSON document
    that replaces what stands under a sensitive key.  A C string is the list
    of the bytes before its terminator, and a pointer into it the rest of the
    text; the output buffer grows by [realloc], which may fail. *)

From S2P Require Import Prelude Hmac LedgerFmt AuditJson.

Inductive redact_mode := REDACT_NONE | REDACT_HASH | REDACT_TRUNCATE.
#[export] Instance redact_mode_eq_dec : EqDecision redact_mode.
Proof. solve_decision. Defined.
Definition FSQL_AUDIT_REDACT_MAX : Z := 128.
Definition FSQL_AUDIT_REDACT_TRUNCATE_CHARS : nat := 64.

(** getenv("FSQL_AUDIT_REDACT"), compared without case. *)
Definition fsql_audit_redact_mode (env : option (list Z)) : redact_mode :=
  match env with
  | Some e => if bytes_eqb e [] then REDACT_NONE
              else if ledger_str_eq_ci e (bs "hash") then REDACT_HASH
              else if ledger_str_eq_ci e (bs "truncate") then REDACT_TRUNCATE
              else REDACT_NONE
  | None => REDACT_NONE
  end.

(** The text left in [out]; [None] is the return -1. *)
Definition fsql_audit_redact_bytes {DG : Digest} (mode : redact_mode) (s : list Z) (out_cap : Z) : option (list Z) :=
  let len := Z.of_nat (length s) in
  if out_cap =? 0 then None else
  match mode with
  | REDACT_TRUNCATE =>
      let keep := Nat.min (length s) FSQL_AUDIT_REDACT_TRUNCATE_CHARS in
      if out_cap <? Z.of_nat keep + 1 then None else Some (cstr (take keep s))
  | REDACT_HASH =>
      let t := bs "sha256:" ++ ledger_hex_encode (sha256 s) ++ bs " len=" ++ dec_u len in
      if out_cap <=? Z.of_nat (length t) then None else Some t
  | REDACT_NONE => if out_cap <? len + 1 then None else Some (cstr s)
  end.

(** ** The output buffer *)

Record fsql_audit_buf := { ab_buf : list Z; ab_cap : Z; ab_oom : bool }.
Definition ab0 : fsql_audit_buf := {| ab_buf := []; ab_cap := 0; ab_oom := false |}.

(** Doubling the capacity until the text fits. *)
Fixpoint ab_grow (fuel : nat) (need cap : Z) : Z :=
  match fuel with O => cap | S n => if cap <? need then ab_grow n need (cap * 2) else cap end.

Section Walk.
Context {DG : Digest}.
Context (mode : redact_mode).
Context (malloc_ok : Z -> bool).   (* the allocations of the decoded text and of the buffer *)

Definition fsql_ab_putn (b : fsql_audit_buf) (s : list Z) : fsql_audit_buf :=
  if ab_oom b then b else
  let need := Z.of_nat (length (ab_buf b)) + Z.of_nat (length s) + 1 in
  if ab_cap b <? need then
    let cap := ab_grow 64 need (if ab_cap b =? 0 then 256 else ab_cap b) in
    if malloc_ok cap then {| ab_buf := ab_buf b ++ s; ab_cap := cap; ab_oom := false |}
    else {| ab_buf := ab_buf b; ab_cap := ab_cap b; ab_oom := true |}
  else {| ab_buf := ab_buf b ++ s; ab_cap := ab_cap b; ab_oom := false |}.
Definition fsql_ab_putc (b : fsql_audit_buf) (c : Z) : fsql_audit_buf := fsql_ab_putn b [c].

(** ** Spans *)

Fixpoint fsql_json_skip_ws (p : list Z) : list Z :=
  match p with c :: r => if is_ws c then fsql_json_skip_ws r else p | [] => [] end.

(** The content up to the closing quote and the text past it. *)
Fixpoint string_body (p : list Z) : option (list Z * list Z) :=
  match p with
  | [] => None
  | c :: r =>
      if c =? 92 then
        match r with
        | [] => None
        | d :: r => '(s, q) ← string_body r; Some (c :: d :: s, q)
        end
      else if c =? 34 then Some ([], r)
      else '(s, q) ← string_body r; Some (c :: s, q)
  end.
Definition fsql_json_string_span (p : list Z) : option (list Z * list Z) :=
  match p with c :: r => if c =? 34 then string_body r else None | [] => None end.

(** The text past the bracket that closes the one at the head, counting only
    brackets of its kind and stepping over strings. *)
Definition box_turn (open close : Z) (x : list Z * Z) : (list Z * Z) + option (list Z) :=
  let '(p, depth) := x in
  match p with
  | [] => inr None
  | c :: r =>
      if c =? 34 then match fsql_json_string_span p with None => inr None | Some (_, q) => inl (q, depth) end
      else if c =? open then inl (r, depth + 1)
      else if c =? close then if depth - 1 =? 0 then inr (Some r) else inl (r, depth - 1)
      else inl (r, depth)
  end.
Definition box_span (open close : Z) (p : list Z) : option (list Z) :=
  default None (while (box_turn open close) (S (length p)) (p, 0)).

Fixpoint number_span (p : list Z) : list Z :=
  match p with
  | c :: r => if isdigit c || (c =? 43) || (c =? 45) || (c =? 46) || (c =? 101) || (c =? 69) then number_span r else p
  | [] => []
  end.

Definition closer (c : Z) : Z := if c =? 123 then 125 else 93.
(** The start of the value, whether it is a string, and the text past it; the
    span's length is the difference of the two texts. *)
Definition fsql_json_value_span (p : list Z) : option (list Z * bool * list Z) :=
  let p := fsql_json_skip_ws p in
  let c := at_ p 0 in
  if c =? 34 then '(_, q) ← fsql_json_string_span p; Some (p, true, q)
  else if is_open c then q ← box_span c (closer c) p; Some (p, false, q)
  else
    match after_prefix (bs "true") p, after_prefix (bs "null") p, after_prefix (bs "false") p with
    | Some q, _, _ | None, Some q, _ | None, None, Some q => Some (p, false, q)
    | None, None, None => if (c =? 45) || isdigit c then Some (p, false, number_span p) else None
    end.
(** The raw text of a span. *)
Definition span_text (vs q : list Z) : list Z := take (length vs - length q) vs.

Definition sensitive_keys : list (list Z) :=
  [bs "question"; bs "questions"; bs "generated_sql"; bs "sql"; bs "analysis"; bs "reason"; bs "rationale";
   bs "explanation"; bs "answer"; bs "result"; bs "results"; bs "result_json"; bs "rows"; bs "row"; bs "value";
   bs "text"; bs "note"; bs "notes"; bs "summary"; bs "content"; bs "prompt"; bs "context"; bs "objective";
   bs "payload"; bs "data"].
Definition fsql_json_key_is_sensitive (key : list Z) : bool := existsb (bytes_eqb key) sensitive_keys.

(** ** Strings in and out *)

Definition fsql_ab_put_json_string (out : fsql_audit_buf) (s : list Z) : fsql_audit_buf :=
  fsql_ab_putc (fold_left (fun b c => fsql_ab_putn b (escape1 c)) s (fsql_ab_putc out 34)) 34.

Definition hexval (h : Z) : option Z := let v := ledger_hex_value h in if v <? 0 then None else Some v.
(** Four hexadecimal digits at the head of the text. *)
Definition hex4 (p : list Z) : option Z :=
  a ← hexval (at_ p 0); b ← hexval (at_ p 1); c ← hexval (at_ p 2); d ← hexval (at_ p 3);
  Some (Z.lor (Z.shiftl (Z.lor (Z.shiftl (Z.lor (Z.shiftl a 4) b) 4) c) 4) d).
Definition utf8 (cp : Z) : list Z :=
  let tail k := Z.lor 128 (Z.land (Z.shiftr cp k) 63) in
  if cp <? 128 then [cp]
  else if cp <? 2048 then [Z.lor 192 (Z.shiftr cp 6); tail 0]
  else if cp <? 65536 then [Z.lor 224 (Z.shiftr cp 12); tail 6; tail 0]
  else [Z.lor 240 (Z.shiftr cp 18); tail 12; tail 6; tail 0].
(** The escape behind a backslash-u: the code point (a surrogate pair joined)
    and the text past it. *)
Definition unicode_escape (p : list Z) : option (Z * list Z) :=
  if (length p <? 4)%nat then None else
  cp ← hex4 p;
  let p := drop 4 p in
  if (55296 <=? cp) && (cp <=? 56319) && (6 <=? length p)%nat && (at_ p 0 =? 92) && (at_ p 1 =? 117) then
    match hex4 (drop 2 p) with
    | Some lo => if (56320 <=? lo) && (lo <=? 57343)
                 then Some (65536 + Z.shiftl (cp - 55296) 10 + (lo - 56320), drop 6 p)
                 else Some (cp, p)
    | None => Some (cp, p)
    end
  else Some (cp, p).
Definition simple_escape (e : Z) : option Z :=
  if (e =? 34) || (e =? 92) || (e =? 47) then Some e
  else if e =? 98 then Some 8 else if e =? 102 then Some 12 else if e =? 110 then Some 10
  else if e =? 114 then Some 13 else if e =? 116 then Some 9 else None.
Definition unescape_turn (x : list Z * list Z) : (list Z * list Z) + option (list Z) :=
  let '(p, o) := x in
  match p with
  | [] => inr (Some o)
  | c :: r =>
      if negb (c =? 92) then inl (r, o ++ [c])
      else match r with
      | [] => inr None
      | e :: r =>
          if e =? 117 then
            match unicode_escape r with Some (cp, q) => inl (q, o ++ utf8 cp) | None => inr None end
          else match simple_escape e with Some d => inl (r, o ++ [d]) | None => inr None end
      end
  end.
(** The bytes of the copy before its terminator; they may include a NUL. *)
Definition fsql_json_unescape_dup (s : list Z) : option (list Z) :=
  if negb (malloc_ok (Z.of_nat (length s) + 1)) then None
  else default None (while unescape_turn (S (length s)) (s, [])).

(** ** The walk *)

Definition fsql_json_emit_redacted (out : fsql_audit_buf) (text : list Z) (is_string : bool) : fsql_audit_buf :=
  let t := if is_string then match fsql_json_unescape_dup text with Some d => cstr d | None => text end else text in
  match fsql_audit_redact_bytes mode t FSQL_AUDIT_REDACT_MAX with
  | Some red => fsql_ab_put_json_string out red
  | None => fsql_ab_put_json_string out t
  end.

(** One member or element, and what follows it; [inr None] is the return 0. *)
Definition member_turn (nested : list Z -> fsql_audit_buf -> option fsql_audit_buf) (open : Z)
    (x : list Z * fsql_audit_buf) : (list Z * fsql_audit_buf) + option fsql_audit_buf :=
  let '(p, out) := x in
  let p := fsql_json_skip_ws p in
  let value_done : option (fsql_audit_buf * list Z) :=
    if open =? 123 then
      match fsql_json_string_span p with
      | None => None
      | Some (key, after) =>
        let out := fsql_ab_putc (fsql_ab_putn (fsql_ab_putc out 34) key) 34 in
        let p := fsql_json_skip_ws after in
        if negb (at_ p 0 =? 58) then None else
        let out := fsql_ab_putc out 58 in
        match fsql_json_value_span (drop 1 p) with
        | None => None
        | Some (vs, is_string, vend) =>
          let raw := span_text vs vend in
          let box := is_open (at_ vs 0) in
          if fsql_json_key_is_sensitive key then
            Some (if is_string then fsql_json_emit_redacted out (take (length raw - 2) (drop 1 raw)) true
                  else if box then fsql_json_emit_redacted out raw false
                  else fsql_ab_putn out raw, vend)
          else if negb is_string && box then out ← nested vs out; Some (out, vend)
          else Some (fsql_ab_putn out raw, vend)
        end
      end
    else
      match fsql_json_value_span p with
      | None => None
      | Some (vs, is_string, vend) =>
        if negb is_string && is_open (at_ vs 0) then out ← nested vs out; Some (out, vend)
        else Some (fsql_ab_putn out (span_text vs vend), vend)
      end in
  match value_done with
  | None => inr None
  | Some (out, p) =>
      let p := fsql_json_skip_ws p in
      if at_ p 0 =? 44 then inl (drop 1 p, fsql_ab_putc out 44)
      else if at_ p 0 =? closer open then inr (Some (fsql_ab_putc out (closer open)))
      else inr None
  end.

(** [None] is the return 0.  The fuel bounds the nesting. *)
Fixpoint fsql_json_redact_container (fuel : nat) (p : list Z) (out : fsql_audit_buf) : option fsql_audit_buf :=
  match fuel with
  | O => None
  | S f =>
      let open := at_ p 0 in
      let out := fsql_ab_putc out open in
      let p := fsql_json_skip_ws (drop 1 p) in
      if at_ p 0 =? closer open then Some (fsql_ab_putc out (closer open))
      else default None (while (member_turn (fsql_json_redact_container f) open) (S (length p)) (p, out))
  end.

Definition fsql_json_redact_value (p : list Z) (out : fsql_audit_buf) : option fsql_audit_buf :=
  let p := fsql_json_skip_ws p in
  if is_open (at_ p 0) then fsql_json_redact_container (S (length p)) p out
  else match fsql_json_value_span p with
       | Some (vs, _, vend) => Some (fsql_ab_putn out (span_text vs vend))
       | None => None
       end.

Definition fsql_audit_redact_json (json : option (list Z)) : option (list Z) :=
  match json with
  | None => None
  | Some json =>
    if bool_decide (mode = REDACT_NONE) then None else
    match fsql_json_redact_value json ab0 with
    | None => None
    | Some out => if ab_oom out then None else Some (ab_buf out)
    end
  end.
End Walk.

