(* ===== verification/RedactProofs.v ===== *)
(** * The redactor implements a redaction of JSON trees

    Trees with their white space, their text, what is to be left of them, and
    the proof that the walk over the text of Redact.v computes it. *)

From S2P Require Import Prelude Hmac LedgerFmt AuditJson Redact.

(** ** Trees *)

(** A member carries the space before it, its key and the space behind it
    (neither is used in an array), the space before its value, the value and
    the space after it. *)
Inductive jtree :=
  | T_str (s : list Z)
  | T_lit (l : list Z)
  | T_empty (obj : bool) (w : list Z)
  | T_box (obj : bool) (ms : members)
with members :=
  | M_one (pre key w1 w2 : list Z) (v : jtree) (post : list Z)
  | M_more (pre key w1 w2 : list Z) (v : jtree) (post : list Z) (ms : members).
Scheme jtree_mut := Induction for jtree Sort Prop
  with members_mut := Induction for members Sort Prop.
Combined Scheme jtree_members_ind from jtree_mut, members_mut.

Definition op (obj : bool) : Z := if obj then 123 else 91.
Definition cl (obj : bool) : Z := if obj then 125 else 93.
Definition key_text (obj : bool) (key w1 : list Z) : list Z := if obj then 34 :: key ++ 34 :: w1 ++ [58] else [].

(** The text of a tree. *)
Fixpoint render (t : jtree) : list Z :=
  match t with
  | T_str s => 34 :: s ++ [34]
  | T_lit l => l
  | T_empty obj w => op obj :: w ++ [cl obj]
  | T_box obj ms => op obj :: render_ms obj ms ++ [cl obj]
  end
with render_ms (obj : bool) (ms : members) : list Z :=
  match ms with
  | M_one pre key w1 w2 v post => pre ++ key_text obj key w1 ++ w2 ++ render v ++ post
  | M_more pre key w1 w2 v post ms => pre ++ key_text obj key w1 ++ w2 ++ render v ++ post ++ 44 :: render_ms obj ms
  end.

Definition lit_ok (l : list Z) : Prop := l = bs "true" \/ l = bs "false" \/ l = bs "null" \/ jnum l.
Fixpoint tree_ok (t : jtree) : Prop :=
  match t with
  | T_str s => jstr s /\ no_nul s
  | T_lit l => lit_ok l
  | T_empty _ w => ws w
  | T_box obj ms => members_ok ms
  end
with members_ok (ms : members) : Prop :=
  match ms with
  | M_one pre key w1 w2 v post => ws pre /\ (jstr key /\ no_nul key) /\ ws w1 /\ ws w2 /\ tree_ok v /\ ws post
  | M_more pre key w1 w2 v post ms =>
      ws pre /\ (jstr key /\ no_nul key) /\ ws w1 /\ ws w2 /\ tree_ok v /\ ws post /\ members_ok ms
  end.

(** ** What redaction leaves *)

Section Spec.
Context {DG : Digest}.
Context (mode : redact_mode).

(** What replaces a text: its fingerprint, or the text when that does not fit. *)
Definition fingerprint (t : list Z) : list Z := default t (fsql_audit_redact_bytes mode t FSQL_AUDIT_REDACT_MAX).
Definition quote_json (s : list Z) : list Z := 34 :: flat_map escape1 s ++ [34].
Definition decoded (s : list Z) : list Z :=
  match fsql_json_unescape_dup (fun _ => true) s with Some d => cstr d | None => s end.
(** The text a value is known by: a string by its contents, anything else as
    it is written. *)
Definition plain_text (t : jtree) : list Z := match t with T_str s => decoded s | _ => render t end.
Definition is_lit (t : jtree) : bool := match t with T_lit _ => true | _ => false end.

Fixpoint red (t : jtree) : list Z :=
  match t with
  | T_str _ | T_lit _ => render t
  | T_empty obj _ => [op obj; cl obj]
  | T_box obj ms => op obj :: red_ms obj ms ++ [cl obj]
  end
with red_ms (obj : bool) (ms : members) : list Z :=
  match ms with
  | M_one _ key _ _ v _ => key_text obj key [] ++
      (if obj && fsql_json_key_is_sensitive key && negb (is_lit v) then quote_json (fingerprint (plain_text v)) else red v)
  | M_more _ key _ _ v _ ms => key_text obj key [] ++
      (if obj && fsql_json_key_is_sensitive key && negb (is_lit v) then quote_json (fingerprint (plain_text v)) else red v) ++
      44 :: red_ms obj ms
  end.
End Spec.

(** ** Spans *)

Lemma string_body_jstr s q : jstr s -> string_body (s ++ 34 :: q) = Some (s, q).
Proof.
  induction 1 as [|c s _ IH|c s H1 H2 _ _ IH]; [done|cbn; by rewrite IH|]. cbn.
  rewrite (proj2 (Z.eqb_neq _ _)) by done. rewrite (proj2 (Z.eqb_neq c 34)) by done. by rewrite IH.
Qed.
Lemma string_body_shorter n p s q : (length p < n)%nat -> string_body p = Some (s, q) -> (length q < length p)%nat.
Proof.
  revert p s q. induction n as [|n IH]; intros p s q Hn H; [lia|]. destruct p as [|c p]; [done|]. cbn in Hn.
  assert (Hr : forall r s q, (length r <= length p)%nat -> string_body r = Some (s, q) -> (length q < length r)%nat).
  { intros r s' q' ? ?. eapply IH; [|done]. lia. }
  cbn [string_body] in H. destruct (c =? 92).
  - destruct p as [|d p]; [done|]. destruct (string_body p) as [[s' q']|] eqn:E; [|done]. simplify_eq/=.
    apply Hr in E; cbn in *; lia.
  - destruct (c =? 34); [simplify_eq/=; lia|]. destruct (string_body p) as [[s' q']|] eqn:E; [|done]. simplify_eq/=.
    apply Hr in E; cbn in *; lia.
Qed.

Lemma skip_ws_app w p : ws w -> is_ws (at_ p 0) = false -> fsql_json_skip_ws (w ++ p) = p.
Proof.
  intros Hw Hp. induction Hw as [|c w Hc _ IH]; cbn [app fsql_json_skip_ws]; [|by rewrite Hc].
  destruct p as [|c p]; [done|]. cbn in Hp |- *. by rewrite Hp.
Qed.

Lemma key_text_app key w1 q : key_text true key w1 ++ q = 34 :: key ++ 34 :: w1 ++ 58 :: q.
Proof. cbn. rewrite <- app_assoc. cbn. by rewrite <- app_assoc. Qed.

Section Scan.
Variable obj : bool.
Definition scan (p : list Z) (d : Z) : option (option (list Z)) := while (box_turn (op obj) (cl obj)) (S (length p)) (p, d).
Lemma box_decreases x x' : box_turn (op obj) (cl obj) x = inl x' -> (length (fst x') < length (fst x))%nat.
Proof.
  destruct x as [p d]. unfold box_turn. destruct p as [|c r]; [done|].
  destruct (c =? 34) eqn:E.
  - unfold fsql_json_string_span. rewrite E. destruct (string_body r) as [[s q]|] eqn:E2; [|done].
    intros [= <-]. apply (string_body_shorter (S (length r))) in E2; [cbn; lia|lia].
  - repeat case_match; intros; simplify_eq; cbn; lia.
Qed.
Lemma scan_eq p d : scan p d = match box_turn (op obj) (cl obj) (p, d) with inl (p', d') => scan p' d' | inr r => Some r end.
Proof.
  pose proof (while_unfold _ (fun x : list Z * Z => length (fst x)) box_decreases (p, d)) as H. unfold scan.
  cbn [fst] in H. rewrite H. by destruct (box_turn _ _ _) as [[? ?]|].
Qed.

(** A byte the scan steps over. *)
Definition inert (c : Z) : Prop := c <> 34 /\ is_open c = false /\ is_close c = false.
Lemma scan_inert l q d : Forall inert l -> scan (l ++ q) d = scan q d.
Proof.
  induction 1 as [|c l (H1 & H2 & H3) _ IH]; [done|]. cbn [app]. rewrite scan_eq. cbn [box_turn].
  rewrite (proj2 (Z.eqb_neq _ _)) by done.
  rewrite !(ifb _ _ _ false) by (destruct obj; cbn; chars). done.
Qed.
Lemma scan_str s q d : jstr s -> scan (34 :: s ++ 34 :: q) d = scan q d.
Proof. intros Hs. rewrite scan_eq. cbn. by rewrite string_body_jstr. Qed.
Lemma ws_inert w : ws w -> Forall inert w.
Proof. intros H. eapply Forall_impl; [exact H|]. intros c Hc. unfold inert. split_and!; chars. Qed.
Lemma scan_key o key w1 q d : jstr key -> ws w1 -> scan (key_text o key w1 ++ q) d = scan q d.
Proof.
  intros Hk Hw. destruct o; [|done]. rewrite key_text_app, scan_str by done. rewrite scan_inert by by apply ws_inert.
  apply (scan_inert [58]). by repeat constructor.
Qed.
Lemma digits_inert ds : Forall (fun c => isdigit c = true) ds -> Forall inert ds.
Proof. intros H. eapply Forall_impl; [exact H|]. intros c Hc. unfold inert. split_and!; chars. Qed.
Lemma lit_inert l : lit_ok l -> Forall inert l.
Proof.
  intros [->|[->|[->|(sgn & ds & frac & exp & -> & Hs & [_ Hd] & Hf & He)]]]; [by repeat constructor..|].
  repeat apply Forall_app_2.
  - destruct Hs as [->| ->]; by repeat constructor.
  - by apply digits_inert.
  - destruct Hf as [->|(f & -> & _ & Hf)]; constructor; [done|by apply digits_inert].
  - destruct He as [->|(e & sg & x & -> & He & Hsg & _ & Hx)]; constructor; [unfold inert; destruct He as [->| ->]; done|].
    apply Forall_app_2; [|by apply digits_inert]. destruct Hsg as [->|[->| ->]]; by repeat constructor.
Qed.

Lemma scan_other c o q d : c = op o \/ c = cl o -> o <> obj -> scan (c :: q) d = scan q d.
Proof.
  intros Hc Ho. rewrite scan_eq. cbn [box_turn].
  by rewrite !(ifb _ _ _ false) by (destruct Hc as [->| ->]; destruct o, obj; done).
Qed.
Lemma scan_open q d : scan (op obj :: q) d = scan q (d + 1).
Proof. rewrite scan_eq. cbn [box_turn]. by destruct obj. Qed.
Lemma scan_close q d : d <> 1 -> scan (cl obj :: q) d = scan q (d - 1).
Proof.
  intros H. rewrite scan_eq. cbn [box_turn]. assert ((d - 1 =? 0) = false) as E by lia. destruct obj; cbn; by rewrite E.
Qed.

(** A whole value leaves the depth as it was. *)
Lemma scan_tree :
  (forall t, tree_ok t -> forall q d, 1 <= d -> scan (render t ++ q) d = scan q d) /\
  (forall ms, members_ok ms -> forall o q d, 1 <= d -> scan (render_ms o ms ++ q) d = scan q d).
Proof.
  assert (Hbox : forall o body q d, 1 <= d -> (forall q d, 1 <= d -> scan (body ++ q) d = scan q d) ->
    scan (op o :: body ++ cl o :: q) d = scan q d).
  { intros o body q d Hd Hb. destruct (decide (o = obj)) as [->|Ho].
    - rewrite scan_open, Hb by lia. rewrite scan_close by lia. f_equal. lia.
    - rewrite (scan_other _ o) by auto. rewrite Hb by done. by rewrite (scan_other _ o) by auto. }
  apply jtree_members_ind; cbn [render render_ms tree_ok members_ok].
  - intros s [Hs _] q d Hd. cbn. rewrite <- app_assoc. by apply scan_str.
  - intros l Hl q d Hd. by apply scan_inert, lit_inert.
  - intros o w Hw q d Hd. cbn. rewrite <- app_assoc. apply Hbox; [done|]. intros. by apply scan_inert, ws_inert.
  - intros o ms IH Hms q d Hd. cbn. rewrite <- app_assoc. apply Hbox; [done|]. intros. by apply IH.
  - intros pre key w1 w2 v IH post (Hpre & [Hk _] & Hw1 & Hw2 & Hv & Hpost) o q d Hd. rewrite <- !app_assoc.
    rewrite scan_inert by by apply ws_inert. rewrite scan_key by done. rewrite scan_inert by by apply ws_inert.
    rewrite IH by done. by rewrite scan_inert by by apply ws_inert.
  - intros pre key w1 w2 v IH post ms IHms (Hpre & [Hk _] & Hw1 & Hw2 & Hv & Hpost & Hms) o q d Hd. rewrite <- !app_assoc.
    rewrite scan_inert by by apply ws_inert. rewrite scan_key by done. rewrite scan_inert by by apply ws_inert.
    rewrite IH by done. rewrite scan_inert by by apply ws_inert. cbn.
    etrans; [apply (scan_inert [44]); by repeat constructor|]. by apply IHms.
Qed.
End Scan.

(** ** The value under the cursor *)

(** What can stand behind a value. *)
Definition vfollow (q : list Z) : Prop :=
  match q with [] => True | c :: _ => is_ws c = true \/ c = 44 \/ is_close c = true end.
Lemma vfollow_ws w q : ws w -> vfollow q -> vfollow (w ++ q).
Proof. intros Hw Hq. destruct w as [|c w]; [done|]. apply Forall_cons in Hw as [Hc _]. by left. Qed.

Definition in_number (c : Z) : bool := isdigit c || (c =? 43) || (c =? 45) || (c =? 46) || (c =? 101) || (c =? 69).
Lemma number_span_app l q : Forall (fun c => in_number c = true) l -> vfollow q -> number_span (l ++ q) = q.
Proof.
  intros Hl Hq. induction Hl as [|c l Hc _ IH]; cbn [app number_span].
  - destruct q as [|c q]; [done|]. cbn [number_span]. rewrite (ifb _ _ _ false); [done|]. cbn in Hq. chars.
  - unfold in_number in Hc. by rewrite Hc.
Qed.
Lemma jnum_chars l : jnum l -> Forall (fun c => in_number c = true) l.
Proof.
  assert (Hdig : forall ds, Forall (fun c => isdigit c = true) ds -> Forall (fun c => in_number c = true) ds).
  { intros ds H. eapply Forall_impl; [exact H|]. intros c Hc. unfold in_number. cbn in Hc. by rewrite Hc. }
  intros (sgn & ds & frac & exp & -> & Hs & [_ Hd] & Hf & He). repeat apply Forall_app_2.
  - destruct Hs as [->| ->]; by repeat constructor.
  - by apply Hdig.
  - destruct Hf as [->|(f & -> & _ & Hf)]; constructor; [done|by apply Hdig].
  - destruct He as [->|(e & sg & x & -> & He & Hsg & _ & Hx)]; constructor; [destruct He as [->| ->]; done|].
    apply Forall_app_2; [|by apply Hdig]. destruct Hsg as [->|[->| ->]]; by repeat constructor.
Qed.
Lemma after_prefix_none pre p : pre <> [] -> at_ pre 0 <> at_ p 0 -> after_prefix pre p = None.
Proof.
  intros Hn Hc. unfold after_prefix. destruct pre as [|d pre]; [done|]. unfold bytes_eqb.
  rewrite bool_decide_eq_false_2; [done|]. intros E. destruct p; cbn in E; simplify_eq/=.
Qed.
Lemma after_prefix_app pre q : after_prefix pre (pre ++ q) = Some q.
Proof.
  unfold after_prefix. rewrite take_app_exact, drop_app_exact by done. by rewrite (proj2 (bytes_eqb_true _ _)).
Qed.

Definition is_str (t : jtree) : bool := match t with T_str _ => true | _ => false end.
Definition is_box (t : jtree) : bool := match t with T_empty _ _ | T_box _ _ => true | _ => false end.
Lemma render_head t q : tree_ok t -> is_ws (at_ (render t ++ q) 0) = false /\
  is_close (at_ (render t ++ q) 0) = false /\ (at_ (render t ++ q) 0 =? 34) = is_str t /\
  is_open (at_ (render t ++ q) 0) = is_box t.
Proof.
  destruct t as [s|l|o w|o ms]; cbn [render tree_ok].
  - done.
  - intros [->|[->|[->|Hn]]]; try done. destruct (jnum_head l q Hn) as (c & r & -> & Hc).
    rewrite at_cons. cbn [is_str is_box]. split_and!; destruct Hc as [->|Hc]; done || chars.
  - by destruct o.
  - by destruct o.
Qed.

Lemma box_span_tree t q : tree_ok t -> is_box t = true ->
  box_span (at_ (render t) 0) (closer (at_ (render t) 0)) (render t ++ q) = Some q.
Proof.
  intros Ht Hb. assert (H : exists o body, render t = op o :: body ++ [cl o] /\ forall q d, 1 <= d -> scan o (body ++ q) d = scan o q d).
  { destruct t as [s|l|o w|o ms]; try done.
    - exists o, w. split; [done|]. intros. by apply scan_inert, ws_inert.
    - exists o, (render_ms o ms). split; [done|]. intros. by apply scan_tree. }
  destruct H as (o & body & -> & H). rewrite <- app_comm_cons, <- app_assoc. rewrite at_cons. unfold box_span.
  replace (closer (op o)) with (cl o) by by destruct o.
  pose proof (scan_open o (body ++ [cl o] ++ q) 0) as E. rewrite H in E by lia. rewrite (scan_eq o ([cl o] ++ q)) in E.
  unfold scan in E. rewrite E. cbn [app box_turn]. by destruct o.
Qed.

Lemma value_span_tree w t q : ws w -> tree_ok t -> vfollow q ->
  fsql_json_value_span (w ++ render t ++ q) = Some (render t ++ q, is_str t, q).
Proof.
  intros Hw Ht Hq. unfold fsql_json_value_span. destruct (render_head t q Ht) as (H1 & H2 & H3 & H4).
  rewrite skip_ws_app by done. rewrite H3, H4. destruct t as [s|l|o u|o ms]; cbn [is_str is_box].
  - cbn. rewrite <- app_assoc. cbn. by rewrite string_body_jstr by apply Ht.
  - cbn [render tree_ok] in *. destruct Ht as [->|[->|[->|Hn]]].
    + by rewrite after_prefix_app.
    + rewrite !(after_prefix_none (bs "true")) by done. rewrite (after_prefix_none (bs "null")) by done. by rewrite after_prefix_app.
    + rewrite !(after_prefix_none (bs "true")) by done. by rewrite after_prefix_app.
    + destruct (jnum_head l q Hn) as (c & r & E & Hc). rewrite E.
      rewrite !after_prefix_none by (done || (cbn; destruct Hc; chars)). rewrite at_cons.
      replace ((c =? 45) || isdigit c) with true by (destruct Hc as [->|Hc]; [done|by rewrite Hc, orb_true_r]).
      rewrite <- E. by rewrite number_span_app by (done || by apply jnum_chars).
  - pose proof (box_span_tree (T_empty o u) q Ht eq_refl) as E. cbn [render app] in *. rewrite !at_cons in *. by rewrite E.
  - pose proof (box_span_tree (T_box o ms) q Ht eq_refl) as E. cbn [render app] in *. rewrite !at_cons in *. by rewrite E.
Qed.
Lemma span_text_app t q : span_text (t ++ q) q = t.
Proof. unfold span_text. apply take_app_exact. rewrite length_app. lia. Qed.

(** ** The walk *)

Section Walk.
Context {DG : Digest}.
Context (mode : redact_mode).
Abbreviation mem := (fun _ : Z => true) (only parsing).

(** [b'] is [b] with [s] put behind it. *)
Definition adds (b b' : fsql_audit_buf) (s : list Z) : Prop :=
  ab_oom b = false -> ab_oom b' = false /\ ab_buf b' = ab_buf b ++ s.
Lemma adds_trans b b1 b2 s t : adds b b1 s -> adds b1 b2 t -> adds b b2 (s ++ t).
Proof. intros H1 H2 H. destruct (H1 H) as [H3 E]. destruct (H2 H3) as [H4 E2]. split; [done|]. by rewrite E2, E, app_assoc. Qed.
Lemma adds_putn b s : adds b (fsql_ab_putn mem b s) s.
Proof. intros H. unfold fsql_ab_putn. rewrite H. by destruct (_ <? _). Qed.
Lemma adds_quote b s : adds b (fsql_ab_put_json_string mem b s) (quote_json s).
Proof.
  unfold fsql_ab_put_json_string, fsql_ab_putc, quote_json. eapply (adds_trans _ _ _ ([34] ++ flat_map escape1 s) [34]); [|apply adds_putn].
  eapply adds_trans; [apply adds_putn|]. generalize (fsql_ab_putn mem b [34]). clear b.
  induction s as [|c s IH]; intros b; [intros H; by rewrite app_nil_r|]. cbn [fold_left flat_map].
  eapply adds_trans; [apply adds_putn|apply IH].
Qed.
Lemma adds_redacted b text (is_string : bool) t :
  t = (if is_string then decoded text else text) ->
  adds b (fsql_json_emit_redacted mode mem b text is_string) (quote_json (fingerprint mode t)).
Proof.
  intros ->. unfold fsql_json_emit_redacted, fingerprint, decoded.
  destruct (fsql_audit_redact_bytes _ _ _); apply adds_quote.
Qed.

(** What a member's value becomes. *)
Definition red_value (o : bool) (key : list Z) (v : jtree) : list Z :=
  if o && fsql_json_key_is_sensitive key && negb (is_lit v) then quote_json (fingerprint mode (plain_text v)) else red mode v.

Lemma at_app t q : t <> [] -> at_ (t ++ q) 0 = at_ t 0.
Proof. by destruct t. Qed.
Lemma sep_follow o c Q : c = 44 \/ c = cl o -> vfollow (c :: Q) /\ is_ws c = false /\ (c =? 44) = negb (c =? cl o) /\ closer (op o) = cl o.
Proof. intros [->| ->]; destruct o; cbn; auto 10. Qed.

Lemma member_step nested o pre key w1 w2 v post c Q b :
  ws pre -> jstr key -> ws w1 -> ws w2 -> tree_ok v -> ws post -> c = 44 \/ c = cl o ->
  (is_box v = true -> forall b q, exists b', nested (render v ++ q) b = Some b' /\ adds b b' (red mode v)) ->
  exists out, adds b out (key_text o key [] ++ red_value o key v) /\
    member_turn mode mem nested (op o) (pre ++ key_text o key w1 ++ w2 ++ render v ++ post ++ c :: Q, b) =
    if c =? 44 then inl (Q, fsql_ab_putc mem out 44) else inr (Some (fsql_ab_putc mem out (cl o))).
Proof.
  intros Hpre Hkey Hw1 Hw2 Hv Hpost Hc Hn. destruct (sep_follow o c Q Hc) as (Hf & Hws & Hcc & Hcl).
  assert (Hf' : vfollow (post ++ c :: Q)) by by apply vfollow_ws.
  assert (Hend : forall out out' s, adds b out' s -> out = out' ->
    exists out0, adds b out0 s /\
    (let p := fsql_json_skip_ws (post ++ c :: Q) in
      if at_ p 0 =? 44 then inl (drop 1 p, fsql_ab_putc mem out 44)
      else if at_ p 0 =? closer (op o) then inr (Some (fsql_ab_putc mem out (closer (op o)))) else inr None) =
    (if c =? 44 then inl (Q, fsql_ab_putc mem out0 44) else inr (Some (fsql_ab_putc mem out0 (cl o))) : (list Z * fsql_audit_buf) + option fsql_audit_buf)).
  { intros out out' s Ha ->. exists out'. split; [done|]. rewrite skip_ws_app by done. cbv zeta. rewrite at_cons, Hcl.
    rewrite Hcc. by destruct (c =? cl o). }
  destruct (render_head v (post ++ c :: Q) Hv) as (H1 & H2 & H3 & H4).
  unfold member_turn. destruct o.
  - rewrite skip_ws_app by done. rewrite (key_text_app key w1). cbn [op Z.eqb Pos.eqb].
    cbn [fsql_json_string_span Z.eqb Pos.eqb]. rewrite string_body_jstr by done.
    rewrite skip_ws_app by done. rewrite at_cons. cbn [Z.eqb Pos.eqb negb]. change (drop 1 (58 :: ?x)) with x.
    rewrite value_span_tree by done. rewrite span_text_app, H4.
    set (b1 := fsql_ab_putc mem (fsql_ab_putc mem (fsql_ab_putn mem (fsql_ab_putc mem b 34) key) 34) 58).
    assert (Hb1 : adds b b1 (key_text true key [])).
    { unfold b1. replace (key_text true key []) with ((([34] ++ key) ++ [34]) ++ [58]) by (cbn; by rewrite <- !app_assoc).
      repeat (eapply adds_trans; [|apply adds_putn]). apply adds_putn. }
    unfold red_value. cbn [andb].
    destruct (fsql_json_key_is_sensitive key).
    + apply Hend with (out' := if is_str v then fsql_json_emit_redacted mode mem b1 (take (length (render v) - 2) (drop 1 (render v))) true
        else if is_box v then fsql_json_emit_redacted mode mem b1 (render v) false else fsql_ab_putn mem b1 (render v)); [|done].
      eapply adds_trans; [exact Hb1|]. destruct v as [s|l|oo w|oo ms]; cbn [is_str is_box is_lit negb plain_text].
      * apply adds_redacted. cbn [render]. change (drop 1 (34 :: s ++ [34])) with (s ++ [34]).
        rewrite take_app_exact; [done|]. cbn [length]. rewrite length_app. cbn. lia.
      * apply adds_putn.
      * by apply adds_redacted.
      * by apply adds_redacted.
    + destruct v as [s|l|oo w|oo ms]; cbn [is_str is_box negb andb].
      1, 2: eapply Hend; [|done]; eapply adds_trans; [exact Hb1|apply adds_putn].
      all: destruct (Hn eq_refl b1 (post ++ c :: Q)) as (b' & -> & Hb'); cbn [mbind option_bind];
        eapply Hend; [|done]; by eapply adds_trans.
  - cbn [key_text app op Z.eqb Pos.eqb]. rewrite app_assoc, skip_ws_app by (done || by apply Forall_app).
    pose proof (value_span_tree [] v (post ++ c :: Q)) as Hs. cbn [app] in Hs. rewrite Hs by (done || constructor).
    rewrite span_text_app, H4. unfold red_value. cbn [andb].
    destruct v as [s|l|oo w|oo ms]; cbn [is_str is_box negb andb].
    1, 2: eapply Hend; [|done]; apply adds_putn.
    all: destruct (Hn eq_refl b (post ++ c :: Q)) as (b' & -> & Hb'); cbn [mbind option_bind]; by eapply Hend.
Qed.

Lemma skip_ws_idem p : fsql_json_skip_ws (fsql_json_skip_ws p) = fsql_json_skip_ws p.
Proof. induction p as [|c p IH]; [done|]. cbn [fsql_json_skip_ws]. destruct (is_ws c) eqn:E; [done|]. cbn [fsql_json_skip_ws]. by rewrite E. Qed.
Lemma loop_skip nested open n p b :
  while (member_turn mode mem nested open) n (fsql_json_skip_ws p, b) = while (member_turn mode mem nested open) n (p, b).
Proof. destruct n as [|n]; [done|]. cbn [while]. unfold member_turn at 1 3. by rewrite skip_ws_idem. Qed.

Fixpoint msize (ms : members) : nat := match ms with M_one _ _ _ _ _ _ => 1 | M_more _ _ _ _ _ _ ms => S (msize ms) end.
Lemma msize_render o ms : (msize ms <= S (length (render_ms o ms)))%nat.
Proof. induction ms as [|pre key w1 w2 v post ms IH]; cbn [msize render_ms]; [lia|]. rewrite !length_app. cbn. lia. Qed.
Lemma skip_ws_length a c r : is_ws c = false -> (S (length r) <= length (fsql_json_skip_ws (a ++ c :: r)))%nat.
Proof.
  intros Hc. induction a as [|d a IH]; cbn [app fsql_json_skip_ws].
  - by rewrite Hc.
  - destruct (is_ws d); [done|]. cbn [length]. rewrite length_app. cbn [length]. lia.
Qed.
Lemma msize_skip o ms q : (msize ms <= S (length (fsql_json_skip_ws (render_ms o ms ++ q))))%nat.
Proof.
  destruct ms as [|pre key w1 w2 v post ms]; cbn [msize render_ms]; [lia|].
  pose proof (msize_render o ms). rewrite <- !app_assoc. cbn [app]. rewrite !app_assoc.
  etrans; [|apply le_n_S, skip_ws_length; done]. rewrite length_app. lia.
Qed.
Lemma ms_head o ms q : members_ok ms -> (at_ (fsql_json_skip_ws (render_ms o ms ++ q)) 0 =? cl o) = false.
Proof.
  assert (H : forall pre key w1 w2 v rest, ws pre -> ws w2 -> tree_ok v ->
    (at_ (fsql_json_skip_ws (pre ++ key_text o key w1 ++ w2 ++ render v ++ rest)) 0 =? cl o) = false).
  { intros pre key w1 w2 v rest Hpre Hw2 Hv. destruct o.
    - by rewrite skip_ws_app.
    - cbn [key_text app]. destruct (render_head v rest Hv) as (H1 & H2 & _). rewrite app_assoc, skip_ws_app by (done || by apply Forall_app).
      cbn [cl]. chars. }
  destruct ms; cbn [members_ok render_ms]; [intros (? & _ & _ & ? & ? & _)|intros (? & _ & _ & ? & ? & _)];
    rewrite <- !app_assoc; by apply H.
Qed.

Lemma walk_tree :
  (forall t, tree_ok t -> is_box t = true -> forall f q b, (length (render t) <= f)%nat -> exists b',
     fsql_json_redact_container mode mem f (render t ++ q) b = Some b' /\ adds b b' (red mode t)) /\
  (forall ms, members_ok ms -> forall o f n q b, (length (render_ms o ms) <= f)%nat -> (msize ms <= n)%nat -> exists b',
     while (member_turn mode mem (fsql_json_redact_container mode mem f) (op o)) n (render_ms o ms ++ cl o :: q, b) = Some (Some b') /\
     adds b b' (red_ms mode o ms ++ [cl o])).
Proof.
  assert (Hcl : forall o, closer (op o) = cl o) by by intros [].
  apply jtree_members_ind; cbn [render render_ms tree_ok members_ok is_box msize]; try done.
  - intros o w Hw _ f q b Hf. destruct f as [|f]; [cbn in Hf; lia|]. cbn [fsql_json_redact_container app]. rewrite at_cons, Hcl.
    change (drop 1 (op o :: ?x)) with x. rewrite <- app_assoc, skip_ws_app by (done || by destruct o). cbn [app]. rewrite at_cons, Z.eqb_refl.
    eexists. split; [done|]. eapply (adds_trans _ _ _ [op o] [cl o]); apply adds_putn.
  - intros o ms IH Hms _ f q b Hf. destruct f as [|f]; [cbn in Hf; lia|]. cbn [length] in Hf. rewrite length_app in Hf. cbn [length] in Hf.
    cbn [fsql_json_redact_container app]. rewrite at_cons, Hcl. change (drop 1 (op o :: ?x)) with x. rewrite <- app_assoc. cbn [app].
    rewrite ms_head, loop_skip by done.
    destruct (IH Hms o f _ q (fsql_ab_putc mem b (op o)) ltac:(lia) (msize_skip o ms (cl o :: q))) as (b' & -> & Hb').
    exists b'. split; [done|]. eapply (adds_trans _ _ _ [op o]); [apply adds_putn|exact Hb'].
  - intros pre key w1 w2 v IH post (Hpre & [Hk _] & Hw1 & Hw2 & Hv & Hpost) o f n q b Hf Hn.
    destruct n as [|n]; [lia|]. cbn [while]. rewrite <- !app_assoc.
    destruct (member_step (fsql_json_redact_container mode mem f) o pre key w1 w2 v post (cl o) q b) as (out & Ho & ->); try done; [by right| |].
    { intros Hb b1 q1. apply IH; [done|done|]. rewrite !length_app in Hf. lia. }
    replace (cl o =? 44) with false by by destruct o. eexists. split; [done|].
    eapply adds_trans; [exact Ho|apply adds_putn].
  - intros pre key w1 w2 v IH post ms IHms (Hpre & [Hk _] & Hw1 & Hw2 & Hv & Hpost & Hms) o f n q b Hf Hn.
    destruct n as [|n]; [lia|]. cbn [while]. rewrite <- !app_assoc.
    destruct (member_step (fsql_json_redact_container mode mem f) o pre key w1 w2 v post 44 (render_ms o ms ++ cl o :: q) b) as (out & Ho & E); try done; [by left| |].
    { intros Hb b1 q1. apply IH; [done|done|]. rewrite !length_app in Hf. lia. }
    rewrite <- app_comm_cons, E. cbn [Z.eqb Pos.eqb]. rewrite !length_app in Hf. cbn [length] in Hf.
    destruct (IHms Hms o f n q (fsql_ab_putc mem out 44)) as (b' & Hw & Hb'); [lia|lia|]. exists b'. split; [exact Hw|].
    cbn [red_ms]. change (if _ && _ && _ then _ else _) with (red_value o key v).
    replace ((key_text o key [] ++ red_value o key v ++ 44 :: red_ms mode o ms) ++ [cl o])
      with (((key_text o key [] ++ red_value o key v) ++ [44]) ++ red_ms mode o ms ++ [cl o]) by (by rewrite <- !app_assoc).
    eapply adds_trans; [|exact Hb']. eapply adds_trans; [exact Ho|apply adds_putn].
Qed.

Lemma redact_tree w t w' : ws w -> tree_ok t -> ws w' -> mode <> REDACT_NONE ->
  fsql_audit_redact_json mode mem (Some (w ++ render t ++ w')) = Some (red mode t).
Proof.
  intros Hw Ht Hw' Hm. unfold fsql_audit_redact_json. rewrite bool_decide_eq_false_2 by done.
  unfold fsql_json_redact_value. destruct (render_head t w' Ht) as (H1 & _ & _ & H4).
  rewrite skip_ws_app by done. rewrite H4. assert (Hf : vfollow w').
  { rewrite <- (app_nil_r w'). by apply vfollow_ws. }
  assert (H : exists b', (if is_box t then fsql_json_redact_container mode mem (S (length (render t ++ w'))) (render t ++ w') ab0
    else match fsql_json_value_span (render t ++ w') with Some (vs, _, vend) => Some (fsql_ab_putn mem ab0 (span_text vs vend)) | None => None end) = Some b' /\
    adds ab0 b' (red mode t)).
  { destruct (is_box t) eqn:Eb.
    - apply walk_tree; [done|done|]. rewrite length_app. lia.
    - pose proof (value_span_tree [] t w') as Hs. cbn [app] in Hs. rewrite Hs by (done || constructor). rewrite span_text_app.
      eexists. split; [done|]. destruct t; try done; apply adds_putn. }
  destruct H as (b' & -> & Hb'). destruct Hb' as [-> ->]; [done|]. done.
Qed.
End Walk.
