(* ===== verification/LedgerUdf.v ===== *)
(** * The ledger and audit functions the server calls
    (src/fractalsql_enterprise.c, the UDF bodies)

    Each body is a function of its arguments and of the process state it
    touches: the enterprise settings, the file system, the session registry
    and the destructive latch.  The enterprise library's own functions, which
    may write the ledger through the storage callbacks, are a parameter. *)

From stdpp Require Import gmap.
From S2P Require Import Prelude Config DaemonConf Session Daemon Hmac Enterprise LedgerFmt Ledger AuditJson Redact.

(** The process state these functions read and write. *)
Record ust := { u_ent : ent; u_fs : fs; u_reg : registry; u_latch : latch }.
Definition set_ent (e : ent) (u : ust) : ust := {| u_ent := e; u_fs := u_fs u; u_reg := u_reg u; u_latch := u_latch u |}.
Definition set_fs (w : fs) (u : ust) : ust := {| u_ent := u_ent u; u_fs := w; u_reg := u_reg u; u_latch := u_latch u |}.
Definition set_reg (r : registry) (u : ust) : ust := {| u_ent := u_ent u; u_fs := u_fs u; u_reg := r; u_latch := u_latch u |}.
Definition set_latch (l : latch) (u : ust) : ust := {| u_ent := u_ent u; u_fs := u_fs u; u_reg := u_reg u; u_latch := l |}.

(** The resolved library functions that take a context. *)
Inductive ledger_op := L_flush | L_compact | L_reset_soft | L_reset_hard | L_load.
#[export] Instance ledger_op_eq_dec : EqDecision ledger_op.
Proof. solve_decision. Defined.

(** What the system answers during one call. *)
Record uio := {
  x_dup : nat -> bool; x_os : os;       (* loading the library *)
  x_env : env;                          (* the session registry *)
  x_io : io;                            (* the ledger *)
  x_malloc : nat -> bool;               (* the call's own buffers *)
  x_redact_malloc : Z -> bool;          (* the redactor's *)
  x_junk : list Z; x_junk_st : list jst (* the recogniser's uninitialised arrays *)
}.

Definition FSQL_ETRUNCATED : Z := -57.

(** The [_init] functions: the argument types they ask for; [None] refuses. *)
Definition one_int_init (argc : nat) : option (list Item_result) := if (argc =? 1)%nat then Some [INT_RESULT] else None.
Definition fractal_ledger_verify_init (argc : nat) : option (list Item_result) :=
  if (argc <? 1)%nat || (2 <? argc)%nat then None else Some (INT_RESULT :: if (argc =? 2)%nat then [INT_RESULT] else []).
Definition fractal_audit_log_init (argc : nat) : option (list Item_result) :=
  if (argc <? 2)%nat || (4 <? argc)%nat then None
  else Some ([STRING_RESULT; STRING_RESULT] ++ (if (3 <=? argc)%nat then [INT_RESULT] else []) ++
             (if (4 <=? argc)%nat then [STRING_RESULT] else [])).

Section Udfs.
Context {DG : Digest}.
Context (getenv : list Z -> option (list Z)).
Context (EVP_DigestVerify : list Z -> list Z -> list Z -> bool).
Context (dl_ok : list Z -> bool) (dl_sym : list Z -> list Z -> bool).
(** The library: on a context, with the settings and files its storage
    callbacks work on. *)
Context (core : ledger_op -> Z -> ent -> fs -> Z * fs).
Context (core_count : bool -> Z -> Z * Z).
Context (core_unpack : list Z -> Z -> Z * Z * list Z).  (* blob, capacity: code, length, the buffer after *)

Definition ensure (x : uio) (u : ust) : bool * ust :=
  let '(ok, e) := ensure_enterprise_lib getenv EVP_DigestVerify dl_ok dl_sym (x_dup x) (x_os x) (u_ent u) in
  (ok, set_ent e u).

(** ENT_LEDGER_VOID_UDF; [post] is its last argument. *)
Definition ledger_void_udf (op : ledger_op) (post : ent -> fs -> fs) (x : uio) (arg : option Z) (u : ust) : udf Z * ust :=
  match arg with
  | None => (UNull, u)
  | Some a =>
    let sid := u64 a in
    if fractal_session_destructive_locked (u_latch u) sid then (UError, u) else
    let '(ok, u) := ensure x u in
    if negb ok then (UError, u) else
    let '(r, ctx) := fractal_session_acquire (x_env x) sid (u_reg u) in
    let u := set_reg r u in
    match ctx with
    | None => (UError, u)
    | Some c =>
      let '(rc, w) := core op c (u_ent u) (u_fs u) in
      let u := set_reg (fractal_session_release sid (u_reg u)) (set_fs w u) in
      if negb (rc =? FSQL_OK) then (UError, u) else (UVal 0, set_fs (post (u_ent u) (u_fs u)) u)
    end
  end.
Definition fractal_ledger_flush := ledger_void_udf L_flush (fun _ w => w).
Definition fractal_ledger_compact := ledger_void_udf L_compact (fun _ w => w).
Definition fractal_ledger_reset_soft := ledger_void_udf L_reset_soft ledger_head_clear.
Definition fractal_ledger_reset_hard := ledger_void_udf L_reset_hard ledger_head_clear.

Definition fractal_lock_destructive (arg : option Z) (u : ust) : udf Z * ust :=
  match arg with
  | None => (UNull, u)
  | Some a => (UVal 1, set_latch (fractal_session_lock_destructive (u64 a) (u_latch u)) u)
  end.

Definition fractal_ledger_load (x : uio) (arg : option Z) (u : ust) : udf Z * ust :=
  match arg with
  | None => (UNull, u)
  | Some a =>
    let sid := u64 a in
    if fractal_session_destructive_locked (u_latch u) sid then (UError, u) else
    let '(ok, u) := ensure x u in
    if negb ok then (UError, u) else
    if negb (ledger_verify_latest_file (x_io x) (u_ent u) 1 (u_fs u) =? FSQL_OK) then (UError, u) else
    let '(r, ctx) := fractal_session_acquire (x_env x) sid (u_reg u) in
    let u := set_reg r u in
    match ctx with
    | None => (UError, u)
    | Some c =>
      let '(rc, w) := core L_load c (u_ent u) (u_fs u) in
      let u := set_reg (fractal_session_release sid (u_reg u)) (set_fs w u) in
      if negb (rc =? FSQL_OK) && negb (rc =? FSQL_ESTORAGE_UNAVAILABLE) then (UError, u) else (UVal 0, u)
    end
  end.

(** ENT_LEDGER_COUNT_UDF: truth or shadow. *)
Definition ledger_count_udf (truth : bool) (x : uio) (arg : option Z) (u : ust) : udf Z * ust :=
  match arg with
  | None => (UNull, u)
  | Some a =>
    let sid := u64 a in
    let '(ok, u) := ensure x u in
    if negb ok then (UError, u) else
    let '(r, ctx) := fractal_session_acquire (x_env x) sid (u_reg u) in
    let u := set_reg r u in
    match ctx with
    | None => (UError, u)
    | Some c =>
      let '(rc, n) := core_count truth c in
      let u := set_reg (fractal_session_release sid (u_reg u)) u in
      if negb (rc =? FSQL_OK) then (UError, u) else (UVal (s64 n), u)
    end
  end.

(** ** The verification's report *)

Definition reason_text (y : reason) : list Z :=
  match y with
  | Y_truncated => bs "truncated or corrupt record"
  | Y_length => bs "record blob length out of range"
  | Y_blob => bs "truncated blob"
  | Y_no_mac => bs "row has no MAC but a ledger key is configured"
  | Y_hmac => bs "HMAC mismatch"
  | Y_oom => bs "out of memory"
  | Y_hash => bs "entry_hash mismatch (structural tamper)"
  | Y_link => bs "chain-link break (prev_hash does not match predecessor -- row rewritten, reordered, or deleted)"
  | Y_head_corrupt => bs "the head file is corrupt or was edited by hand"
  | Y_head_no_mac => bs "the head record has no MAC (it was written before the ledger key was set)"
  | Y_head_nomem => bs "the head record's MAC could not be computed"
  | Y_head_mac => bs "the head record's MAC does not match its contents (the head was edited by hand)"
  | Y_fewer => bs "chain holds fewer rows than were recorded (rows removed, or the ledger was replaced)"
  | Y_missing => bs "ledger file is missing but rows were recorded (wiped or replaced)"
  | Y_bad_header => bs "bad ledger file header"
  end.
Definition report_text (r : report) : list Z :=
  match r with
  | Rep_ok n => js "{'ok':true,'rows_verified':" ++ dec_d n ++ js "}"
  | Rep_fail id y => js "{'ok':false,'first_failure_id':" ++ dec_d id ++ js ",'reason':'" ++ reason_text y ++ js "'}"
  end.
(** [snprintf] into 320 bytes; the second argument is the kind. *)
Definition fractal_ledger_verify (x : uio) (kind : option Z) (u : ust) : udf (list Z) :=
  match ledger_verify (x_io x) (u_ent u) (match kind with Some k => u32 k | None => 1 end) (u_fs u) with
  | None => UError
  | Some r => UVal (take 319 (report_text r))
  end.

(** ** The audit record *)

(** Every audit record is written here. *)
Definition fractal_ledger_write_kind2 (x : uio) (json : list Z) (u : ust) : Z * ust :=
  let mode := fsql_audit_redact_mode (getenv (bs "FSQL_AUDIT_REDACT")) in
  let payload :=
    if bool_decide (mode = REDACT_NONE) then json
    else if negb (x_malloc x 0%nat) then json
    else default json (fsql_audit_redact_json mode (x_redact_malloc x) (Some (cstr json))) in
  let '(rc, w) := ledger_write_entry (x_io x) (u_ent u) 2 payload (u_fs u) in
  (rc, set_fs w u).

(** The bytes [%.*s] prints. *)
Definition fmt_s (n : nat) (s : list Z) : list Z := cstr (take n s).
Fixpoint rtrim (l : list Z) : list Z :=
  match l with
  | [] => []
  | c :: l => match rtrim l with [] => if is_ws c then [] else [c] | r => c :: r end
  end.

Definition attribution (sid : option Z) (actor : option (list Z)) : list Z :=
  js "{'session':" ++ dec_d (default 0 sid) ++ js ",'attested':" ++ match sid with Some _ => bs "true" | None => bs "false" end ++
  match actor with Some e => js ",'actor':'" ++ fmt_s (length e) e ++ js "'" | None => [] end ++ js "}".

(** The record's text, from the escaped type and the attribution block. *)
Definition audit_text (esc payload blk : list Z) : list Z :=
  let t := rtrim (fsql_json_skip_ws payload) in
  let is_obj := (0 <? length t)%nat && (at_ t 0 =? 123) && (at_ t (length t - 1) =? 125) in
  let obj_empty := is_obj && forallb is_ws (take (length t - 2) (drop 1 t)) in
  if is_obj && negb obj_empty then
    js "{'type':'" ++ fmt_s (length esc) esc ++ js "','entry':" ++ fmt_s (length t - 1) t ++ js ",'_actor':" ++ blk ++ js "}}"
  else if is_obj then
    js "{'type':'" ++ fmt_s (length esc) esc ++ js "','entry':{'_actor':" ++ blk ++ js "}}"
  else
    js "{'type':'" ++ fmt_s (length esc) esc ++ js "','entry':{'value':" ++ fmt_s (length t) t ++ js ",'_actor':" ++ blk ++ js "}}".

Definition fractal_audit_log (x : uio) (type payload : option (list Z)) (sid : option Z) (actor : option (list Z))
    (u : ust) : udf Z * ust :=
  match type with
  | None => (UNull, u)
  | Some type =>
    let '(ok, u) := ensure x u in
    if negb ok then (UNull, u) else
    let payload := default (bs "null") payload in
    let len := Z.of_nat (length payload) in
    if match sid with Some s => fractal_session_destructive_locked (u_latch u) (u64 s) | None => false end then (UError, u)
    else if match sid with None => ent_env_flag getenv (bs "FRACTALSQL_AUDIT_REQUIRE_ACTOR") | _ => false end then (UError, u)
    else if 256 <? Z.of_nat (length type) then (UError, u)
    else if LEDGER_MAX_BLOB_BYTES <? len then (UError, u)
    else if negb (default false (ent_json_well_formed (x_junk x) (x_junk_st x) payload)) then (UError, u)
    else if match ent_memmem payload (js "'_actor'") with Some _ => true | None => false end then (UError, u)
    else
      let cap := Z.of_nat (length type) * 6 + 1 in
      if (512 <? cap) && negb (x_malloc x 1%nat) then (UError, u) else
      match ent_json_escape type cap with
      | None => (UError, u)
      | Some esc =>
        let actor_esc :=      (* [None]: an error; [Some None]: no actor *)
          match actor with
          | None => Some None
          | Some a =>
            let cap := Z.of_nat (length a) * 6 + 1 in
            if 256 <? Z.of_nat (length a) then None
            else if (512 <? cap) && negb (x_malloc x 2%nat) then None
            else match ent_json_escape a cap with Some e => Some (Some e) | None => None end
          end in
        match actor_esc with
        | None => (UError, u)
        | Some actor_esc =>
          let blk := attribution sid actor_esc in
          if 1024 <=? Z.of_nat (length blk) then (UError, u)
          else if negb (x_malloc x 3%nat) then (UError, u)
          else
            let text := audit_text esc payload blk in
            let buflen := Z.of_nat (length esc) + len + Z.of_nat (length blk) + 64 in
            if buflen <=? Z.of_nat (length text) then (UError, u) else
            let '(rc, u) := fractal_ledger_write_kind2 x text u in
            if negb (rc =? FSQL_OK) then (UError, u) else (UVal 0, u)
        end
      end
  end.

(** ** Unpacking a blob *)

Definition UNPACK_MAX : Z := 16 * 1024 * 1024.
(** One turn of the growing loop at a capacity. *)
Definition unpack_turn (x : uio) (blob : list Z) (cap : Z) : Z + udf (list Z) :=
  if negb (x_redact_malloc x (cap + 1)) then inr UError else
  let '(rc, need, buf) := core_unpack blob cap in
  if rc =? FSQL_OK then if cap <? need then inr UError else inr (UVal (cstr (take (Z.to_nat need) buf)))
  else if (rc =? FSQL_ETRUNCATED) && (cap <? need) then if UNPACK_MAX <? need then inr UError else inl need
  else inr UError.
Definition fractal_audit_unpack (fuel : nat) (x : uio) (blob : option (list Z)) (u : ust) : option (udf (list Z)) * ust :=
  match blob with
  | None => (Some UNull, u)
  | Some blob =>
    let '(ok, u) := ensure x u in
    if negb ok then (Some UError, u) else (while (unpack_turn x blob) fuel 8192, u)
  end.
End Udfs.
