(* ===== verification/AuditProofs.v ===== *)
(** * The audit chain: the properties

    The text of an audit record, what its redaction leaves, where the record
    goes, the destructive latch over the ledger functions, and the decoder's
    defence against the library it calls. *)

From stdpp Require Import gmap.
From S2P Require Import Prelude Config DaemonConf Session Daemon Hmac Enterprise LedgerFmt Ledger LedgerProofs HeadProofs.
From S2P Require Import AuditJson JsonText JsonStrict Redact RedactProofs LedgerUdf.

(** ** Documents *)

(** The first and the last byte of a value are not white space. *)
Lemma value_ends n v : value n v -> exists c r d, v = c :: r /\ is_ws c = false /\ List.last v 0 = d /\ is_ws d = false /\
  (c = 123 -> exists l, v = 123 :: l ++ [125] /\ (ws l \/ exists n', n = S n' /\ items n' l)).
Proof.
  intros H. destruct H as [n s Hs|n c l Hl|n l Hl|n c w Hc Hw|n c l Hc Hl].
  - exists 34, (s ++ [34]), 34. split_and!; try done. by rewrite app_comm_cons, last_last.
  - destruct (literal_head c l Hl) as (Hc & r & -> & Hl').
    destruct Hc as [->|[->| ->]]; cbn in Hl'; simplify_eq; (eexists _, _, _; split_and!; [done..|]; intros; lia).
  - destruct (jnum_head l [] Hl) as (c & r & E & Hc). rewrite app_nil_r in E.
    assert (Hlast : is_ws (List.last l 0) = false).
    { destruct Hl as (sgn & ds & frac & exp & -> & _ & Hd & Hf & He).
      assert (Hdig : forall p ds, all_digits ds -> is_ws (List.last (p ++ ds) 0) = false).
      { clear. intros p ds [Hn Hd]. destruct ds as [|x ds _] using rev_ind; [done|]. rewrite app_assoc, last_last.
        apply Forall_app in Hd as [_ Hd]. apply Forall_cons in Hd as [Hd _]. chars. }
      destruct He as [->|(e & sg & x & -> & _ & _ & Hx)].
      - rewrite app_nil_r. destruct Hf as [->|(f & -> & Hf)]; [rewrite app_nil_r; by apply Hdig|].
        rewrite app_assoc. change (46 :: f) with ([46] ++ f). rewrite app_assoc. by apply Hdig.
      - change (e :: sg ++ x) with ([e] ++ sg ++ x). rewrite !app_assoc. by apply Hdig. }
    exists c, r, (List.last l 0). split_and!; try done; [destruct Hc as [->|]; [done|chars]|]. intros ->. destruct Hc; chars.
  - exists (opener c), (w ++ [c]), c. split_and!; [done|chars|by rewrite app_comm_cons, last_last|chars|].
    intros Ho. assert (c = 125) as -> by chars. exists w. auto.
  - exists (opener c), (l ++ [c]), c. split_and!; [done|chars|by rewrite app_comm_cons, last_last|chars|].
    intros Ho. assert (c = 125) as -> by chars. exists l. split; [done|]. right. by exists n.
Qed.

(** Trimming a document leaves its value. *)
Lemma rtrim_snoc l c w : is_ws c = false -> ws w -> rtrim (l ++ c :: w) = l ++ [c].
Proof.
  intros Hc Hw. assert (E : rtrim w = []).
  { induction Hw as [|d w Hd _ IH]; [done|]. cbn. by rewrite IH, Hd. }
  induction l as [|d l IH]; cbn; [by rewrite E, Hc|]. rewrite IH. by destruct l.
Qed.
Lemma trim_doc n w v w' : ws w -> value n v -> ws w' -> rtrim (fsql_json_skip_ws (w ++ v ++ w')) = v.
Proof.
  intros Hw Hv Hw'. destruct (value_ends n v Hv) as (c & r & d & E & Hc & Hd & Hd' & _).
  rewrite skip_ws_app; [|done|by rewrite E].
  destruct v as [|x v _] using rev_ind; [done|]. rewrite last_last in Hd. subst x.
  rewrite <- app_assoc. cbn. by rewrite rtrim_snoc.
Qed.

(** ** The text of an audit record *)

Lemma fmt_s_id n s : no_nul s -> fmt_s n s = take n s.
Proof. intros H. unfold fmt_s. apply cstr_id. unfold no_nul. by apply Forall_take. Qed.
Lemma no_nul_doc w v w' : no_nul (w ++ v ++ w') -> no_nul v.
Proof. unfold no_nul. rewrite !Forall_app. tauto. Qed.

(** Equalities of byte strings up to the association of [++], with the
    literals evaluated. *)
Ltac eval_bytes := repeat match goal with
  | |- context [js ?s] => let v := eval vm_compute in (js s) in change (js s) with v
  | |- context [bs ?s] => let v := eval vm_compute in (bs s) in change (bs s) with v
  end.
Ltac same_bytes := eval_bytes; cbn [app]; repeat (rewrite <- app_assoc; cbn [app]); reflexivity.

(** A quoted literal is a value. *)
Lemma str_value n (s : list Z) : jstr s -> value n (34 :: s ++ [34]).
Proof. by constructor. Qed.
Ltac no_nul_lit := unfold no_nul; eval_bytes; repeat (apply Forall_cons; split; [cbn; discriminate|]); apply Forall_nil_2.
Ltac plain_string := eval_bytes; repeat (apply js_chr; [lia..|]); apply js_nil.

Lemma attribution_value n sid (actor : option (list Z)) :
  match sid with Some s => - 2 ^ 63 <= s < 2 ^ 63 | None => True end ->
  match actor with Some a => bytes_ok a | None => True end ->
  value (S n) (attribution sid (flat_map escape1 <$> actor)).
Proof.
  intros Hs Ha. set (sd := match sid with Some _ => bs "true" | None => bs "false" end).
  set (av := match actor with Some a => 44 :: (34 :: bs "actor" ++ [34]) ++ 58 :: (34 :: flat_map escape1 a ++ [34]) | None => [] end).
  assert (E : attribution sid (flat_map escape1 <$> actor) =
    123 :: ((34 :: bs "session" ++ [34]) ++ 58 :: dec_d (default 0 sid) ++ 44 :: (34 :: bs "attested" ++ [34]) ++ 58 :: sd ++ av) ++ [125]).
  { unfold attribution, av. destruct actor as [a|]; cbn [fmap option_fmap option_map].
    - destruct (escape_jstr a Ha) as [_ Hn]. rewrite fmt_s_id, take_ge by (done || lia). fold sd. same_bytes.
    - fold sd. same_bytes. }
  rewrite E. apply obj_value. apply items_pair; [apply str_value; plain_string|done|].
  apply items_pair; [apply V_num, dec_d_num; by destruct sid|done|].
  apply items_pair; [apply str_value; plain_string|done|].
  assert (Hsd : value n sd) by (unfold sd; destruct sid; [by apply (V_lit n 116 (bs "true"))|by apply (V_lit n 102 (bs "false"))]).
  unfold av. destruct actor as [a|]; [|rewrite app_nil_r; by apply items_one].
  apply items_pair; [done..|]. apply items_pair; [apply str_value; plain_string|done|].
  apply items_one, str_value. by apply escape_jstr.
Qed.

(** What the record's "entry" holds: the payload's value with the attribution
    block as its last member, or the two side by side. *)
Definition entry_of (v blk entry : list Z) : Prop :=
  (exists l, v = 123 :: l ++ [125] /\ ~ ws l /\ entry = 123 :: l ++ js ",'_actor':" ++ blk ++ [125]) \/
  ((exists l, v = 123 :: l ++ [125] /\ ws l) /\ entry = js "{'_actor':" ++ blk ++ [125]) \/
  (entry = js "{'value':" ++ v ++ js ",'_actor':" ++ blk ++ [125]).

Lemma items_not_ws n l : items n l -> ~ ws l.
Proof.
  assert (H : forall n v, value n v -> forall w q, ~ ws (w ++ v ++ q)).
  { intros m v Hv w q Hw. destruct (value_ends m v Hv) as (c & r & d & -> & Hc & _). apply Forall_app in Hw as [_ Hw].
    apply Forall_cons in Hw as [Hw _]. congruence. }
  intros []; eapply H; eauto.
Qed.
Lemma forallb_ws l : forallb is_ws l = true <-> ws l.
Proof. unfold ws. rewrite forallb_forall, List.Forall_forall. done. Qed.

Lemma audit_text_shape n w v w' esc blk : ws w -> value n v -> ws w' -> no_nul esc -> no_nul v ->
  exists entry, audit_text esc (w ++ v ++ w') blk = js "{'type':'" ++ esc ++ js "','entry':" ++ entry ++ js "}" /\
    entry_of v blk entry.
Proof.
  intros Hw Hv Hw' He Hn. unfold audit_text. rewrite (trim_doc n) by done.
  rewrite (fmt_s_id _ esc), (take_ge esc (length esc)) by (done || lia). rewrite (fmt_s_id (length v) v), (take_ge v (length v)) by (done || lia).
  destruct (value_ends n v Hv) as (c & r & d & Ev & Hc & Hd & Hd' & Hbox).
  destruct ((0 <? length v)%nat && (at_ v 0 =? 123) && (at_ v (length v - 1) =? 125)) eqn:Eo.
  - bools. assert (c = 123) as -> by (rewrite Ev in *; cbn in *; lia). destruct (Hbox eq_refl) as (l & El & Hl).
    assert (Et : take (length v - 2) (drop 1 v) = l).
    { rewrite El. change (drop 1 (123 :: l ++ [125])) with (l ++ [125]). apply take_app_exact. cbn. rewrite length_app. cbn. lia. }
    rewrite Et. cbn [andb]. destruct (forallb is_ws l) eqn:Ew.
    + apply forallb_ws in Ew. eexists. split; [|right; left; split; [by exists l|reflexivity]]. same_bytes.
    + assert (Hnw : ~ ws l) by (intros Hx%forallb_ws; congruence). eexists. split; [|left; exists l; split; [done|]; split; [done|reflexivity]].
      rewrite fmt_s_id by done. assert (Ek : take (length v - 1) v = 123 :: l).
      { rewrite El. change (123 :: l ++ [125]) with ((123 :: l) ++ [125]). apply take_app_exact. rewrite length_app. cbn. lia. }
      rewrite Ek. same_bytes.
  - cbn [andb negb]. eexists. split; [|right; right; reflexivity]. same_bytes.
Qed.

Lemma entry_value v blk entry n : value (S n) v -> value (S n) blk -> entry_of v blk entry -> value (S (S n)) entry.
Proof.
  intros Hv Hb. assert (Hact : items (S n) ((34 :: bs "_actor" ++ [34]) ++ 58 :: blk)).
  { apply items_pair; [apply str_value; plain_string|done|by apply items_one]. }
  intros [(l & -> & Hnw & ->)|[(_ & ->)| ->]].
  - assert (Hl : items n l).
    { destruct (value_ends _ _ Hv) as (c & r & d & E & _ & _ & _ & Hbox). injection E as <- _.
      destruct (Hbox eq_refl) as (l' & E & Hl'). injection E as E. apply app_inv_tail in E as <-.
      destruct Hl' as [?|(n' & E & Hi)]; [done|]. by injection E as <-. }
    replace (123 :: l ++ js ",'_actor':" ++ blk ++ [125])
      with (123 :: (l ++ 44 :: (34 :: bs "_actor" ++ [34]) ++ 58 :: blk) ++ [125]) by same_bytes.
    apply obj_value, items_snoc; [|done|done]. eapply value_mono; [exact Hl|lia].
  - replace (js "{'_actor':" ++ blk ++ [125]) with (123 :: ((34 :: bs "_actor" ++ [34]) ++ 58 :: blk) ++ [125]) by same_bytes.
    by apply obj_value.
  - replace (js "{'value':" ++ v ++ js ",'_actor':" ++ blk ++ [125])
      with (123 :: ((34 :: bs "value" ++ [34]) ++ 58 :: v ++ 44 :: (34 :: bs "_actor" ++ [34]) ++ 58 :: blk) ++ [125])
      by same_bytes.
    apply obj_value. apply items_pair; [apply str_value; plain_string|done|]. by apply items_pair.
Qed.

(** The same in the grammar of RFC 8259. *)
Lemma attribution_json sid (actor : option (list Z)) : match actor with Some a => bytes_ok a | None => True end ->
  json (attribution sid (flat_map escape1 <$> actor)).
Proof.
  intros Ha. set (sd := match sid with Some _ => bs "true" | None => bs "false" end).
  set (av := match actor with Some a => 44 :: member (bs "actor") (quoted (flat_map escape1 a)) | None => [] end).
  assert (E : attribution sid (flat_map escape1 <$> actor) =
    123 :: (member (bs "session") (dec_d (default 0 sid)) ++ 44 :: member (bs "attested") sd ++ av) ++ [125]).
  { unfold attribution, av, member, quoted. destruct actor as [a|]; cbn [fmap option_fmap option_map].
    - destruct (escape_jstr a Ha) as [_ Hn]. rewrite fmt_s_id, take_ge by (done || lia). fold sd. same_bytes.
    - fold sd. same_bytes. }
  rewrite E. assert (Hsd : json sd) by (unfold sd; destruct sid; [by apply (J_lit 116)|by apply (J_lit 102)]).
  apply object_text, members_cons; [plain_chars|apply dec_d_json|]. unfold av. destruct actor as [a|].
  - apply members_cons; [plain_chars|done|]. apply JS_one, member_item; [plain_chars|]. by apply J_str, escape_jchars.
  - rewrite app_nil_r. apply JS_one, member_item; [plain_chars|done].
Qed.
Lemma entry_json v blk entry : json v -> json blk -> entry_of v blk entry -> json entry.
Proof.
  intros Hv Hb. assert (Hk : jchars (bs "_actor")) by plain_chars.
  intros [(l & -> & Hnw & ->)|[(_ & ->)| ->]].
  - apply json_object in Hv as [Hv|Hv]; [done|].
    replace (123 :: l ++ js ",'_actor':" ++ blk ++ [125]) with (123 :: (l ++ 44 :: member (bs "_actor") blk) ++ [125]) by (unfold member, quoted; same_bytes).
    by apply object_text, members_snoc.
  - replace (js "{'_actor':" ++ blk ++ [125]) with (123 :: member (bs "_actor") blk ++ [125]) by (unfold member, quoted; same_bytes).
    by apply object_text, JS_one, member_item.
  - replace (js "{'value':" ++ v ++ js ",'_actor':" ++ blk ++ [125])
      with (123 :: (member (bs "value") v ++ 44 :: member (bs "_actor") blk) ++ [125]) by (unfold member, quoted; same_bytes).
    apply object_text, members_cons; [plain_chars|done|]. by apply JS_one, member_item.
Qed.

(** C21: an audit record's text is sound: for any payload the gate accepts
    without a NUL byte, any type and any actor, the text's "type" is the
    escaped type and its "entry" ends with the attribution block built from
    the caller's session and actor; the payload's value stands in front of it,
    intact.  When the payload's value is JSON (RFC 8259, over bytes) so is the
    whole record; and for every payload the record is at least a document of
    the gate's own, wider grammar (strings, numbers and matching brackets, a
    comma and a colon alike). *)
Theorem audit_record_well_formed type payload sid actor :
  doc 64 payload -> no_nul payload -> bytes_ok type ->
  match sid with Some s => - 2 ^ 63 <= s < 2 ^ 63 | None => True end ->
  match actor with Some a => bytes_ok a | None => True end ->
  let blk := attribution sid (flat_map escape1 <$> actor) in
  let text := audit_text (flat_map escape1 type) payload blk in
  exists w v w' entry, payload = w ++ v ++ w' /\ ws w /\ ws w' /\ value 64 v /\
    text = js "{'type':'" ++ flat_map escape1 type ++ js "','entry':" ++ entry ++ js "}" /\
    entry_of v blk entry /\ (json v -> json entry /\ json text) /\ doc 67 text.
Proof.
  intros (w & v & w' & Hw & Hv & Hw' & ->) Hn Ht Hs Ha blk text. apply no_nul_doc in Hn.
  destruct (escape_jstr type Ht) as [Hj He]. destruct (audit_text_shape 64 w v w' (flat_map escape1 type) blk) as (entry & Et & Hen); try done.
  assert (Hev : value 66 entry).
  { eapply (entry_value v blk entry 64); [|by apply attribution_value|done]. eapply value_mono; [exact Hv|lia]. }
  exists w, v, w', entry. split_and!; try done.
  { intros Hjv. assert (Hje : json entry) by (eapply entry_json; [done|by apply attribution_json|done]). split; [done|].
    unfold text. rewrite Et.
    replace (js "{'type':'" ++ flat_map escape1 type ++ js "','entry':" ++ entry ++ js "}")
      with (123 :: (member (bs "type") (quoted (flat_map escape1 type)) ++ 44 :: member (bs "entry") entry) ++ [125])
      by (unfold member, quoted; same_bytes).
    apply object_text, members_cons; [plain_chars|by apply J_str, escape_jchars|]. apply JS_one, member_item; [plain_chars|done]. }
  unfold text. rewrite Et.
  set (doc_text := js "{'type':'" ++ _). assert (Hd : value 67 doc_text); [|exists [], doc_text, []; rewrite app_nil_r; split_and!; done || constructor].
  unfold doc_text.
  replace (js "{'type':'" ++ flat_map escape1 type ++ js "','entry':" ++ entry ++ js "}")
    with (123 :: ((34 :: bs "type" ++ [34]) ++ 58 :: (34 :: flat_map escape1 type ++ [34]) ++ 44 :: (34 :: bs "entry" ++ [34]) ++ 58 :: entry) ++ [125])
    by same_bytes.
  apply obj_value. apply items_pair; [apply str_value; plain_string|done|]. apply items_pair; [by apply str_value|done|].
  apply items_pair; [apply str_value; plain_string|done|by apply items_one].
Qed.

Lemma unescape_escape1 c p o : byte_ok c -> unescape_turn (escape1 c ++ p, o) = inl (p, o ++ [c]).
Proof.
  intros H. unfold byte_ok in H. destruct (Z.ltb_spec c 32) as [Hc|Hc].
  - assert (E : forall k, (k < 32)%nat -> unescape_turn (escape1 (Z.of_nat k) ++ p, o) = inl (p, o ++ [Z.of_nat k])).
    { intros k Hk. do 32 (destruct k as [|k]; [reflexivity|]). lia. }
    specialize (E (Z.to_nat c)). rewrite Z2Nat.id in E by lia. apply E. lia.
  - unfold escape1. destruct (Z.eqb_spec c 34) as [->|]; [reflexivity|]. destruct (Z.eqb_spec c 92) as [->|]; [reflexivity|].
    rewrite !(ifb _ _ _ false) by lia. cbn [app unescape_turn]. by rewrite (proj2 (Z.eqb_neq c 92)).
Qed.
Lemma unescape_loop s n o : bytes_ok s -> (length s < n)%nat -> while unescape_turn n (flat_map escape1 s, o) = Some (Some (o ++ s)).
Proof.
  intros H. revert n o. induction H as [|c s Hc _ IH]; intros n o Hn; cbn [flat_map length] in *; (destruct n as [|n]; [lia|]).
  - cbn. by rewrite app_nil_r.
  - cbn [while]. rewrite unescape_escape1 by done. rewrite IH by lia. by rewrite <- app_assoc.
Qed.
Lemma escape_grows s : (length s <= length (flat_map escape1 s))%nat.
Proof.
  induction s as [|c s IH]; [done|]. cbn [flat_map length]. rewrite length_app.
  assert (1 <= length (escape1 c))%nat; [|lia]. unfold escape1. repeat (case_match; [cbn; lia|]). cbn. lia.
Qed.

(** Escaping loses nothing: what the audit record's escaper writes for any
    bytes fits the buffer the callers give it (six bytes per byte), and the
    redactor's decoder reads it back exactly. *)
Theorem escape_roundtrip s : bytes_ok s ->
  exists e, ent_json_escape s (6 * Z.of_nat (length s) + 1) = Some e /\
    fsql_json_unescape_dup (fun _ => true) e = Some s /\ jstr e /\ no_nul e.
Proof.
  intros H. exists (flat_map escape1 s). destruct (escape_jstr s H). split_and!; [apply escape_fits; lia| |done|done].
  unfold fsql_json_unescape_dup. cbn [negb]. rewrite unescape_loop; [done|done|]. pose proof (escape_grows s). lia.
Qed.
Lemma escape_roundtrip_witness :
  exists e, ent_json_escape [0; 34; 92; 10; 65; 255] 37 = Some e /\ fsql_json_unescape_dup (fun _ => true) e = Some [0; 34; 92; 10; 65; 255].
Proof.
  destruct (escape_roundtrip [0; 34; 92; 10; 65; 255]) as (e & H1 & H2 & _); [by apply (bool_decide_unpack _); vm_compute|].
  exists e. split; [exact H1|exact H2].
Defined.

(** ** Redaction *)

(** The redactor implements its tree specification: on the text of any
    JSON tree, with white space anywhere, and while memory lasts, the output
    is the tree without its white space in which the value under every
    sensitive key, at any depth, is replaced by the fingerprint of its text;
    numbers, flags and every other value are as they were. *)
Theorem redactor_refines_tree {DG : Digest} mode w t w' : ws w -> tree_ok t -> ws w' -> mode <> REDACT_NONE ->
  fsql_audit_redact_json mode (fun _ => true) (Some (w ++ render t ++ w')) = Some (red mode t).
Proof. apply redact_tree. Qed.

(** {"sql":[1, "x"],"k":2} *)
#[local] Abbreviation demo_tree := (T_box true (M_more [] (bs "sql") [] []
  (T_box false (M_more [] [] [] [] (T_lit (bs "1")) [] (M_one [32] [] [] [] (T_str (bs "x")) []))) []
  (M_one [] (bs "k") [] [32] (T_lit (bs "2")) []))).
Lemma demo_tree_ok : tree_ok demo_tree.
Proof.
  assert (Hn : forall c, isdigit c = true -> lit_ok [c]).
  { intros c Hc. right; right; right. exists [], [c], [], []. split_and!; auto. by repeat constructor. }
  assert (Hw : ws [] /\ ws [32]) by (split; by repeat constructor). destruct Hw as [Hw1 Hw2].
  cbn [tree_ok members_ok]. split_and!; try done; first [plain_string|no_nul_lit|apply Hn; reflexivity].
Qed.
Lemma redactor_refines_tree_witness : let DG := demo_digest in
  fsql_audit_redact_json REDACT_TRUNCATE (fun _ => true) (Some ([32] ++ render demo_tree ++ [])) =
  Some (js "{'sql':'[1, \'x\']','k':2}").
Proof.
  intros DG. rewrite (redactor_refines_tree REDACT_TRUNCATE [32] demo_tree []); [reflexivity|by repeat constructor|exact demo_tree_ok|constructor|discriminate].
Defined.

(** Two trees that differ in white space outside the sensitive values, and in
    sensitive values whose texts have the same hash and length. *)
Definition hidden (o : bool) (key : list Z) (v : jtree) : bool := o && fsql_json_key_is_sensitive key && negb (is_lit v).
Section Alike.
Context {DG : Digest}.
Definition same_print (a b : list Z) : Prop := sha256 a = sha256 b /\ length a = length b /\ Z.of_nat (length a) < 2 ^ 64.
Inductive alike : jtree -> jtree -> Prop :=
  | A_str s : alike (T_str s) (T_str s)
  | A_lit l : alike (T_lit l) (T_lit l)
  | A_empty o w w' : alike (T_empty o w) (T_empty o w')
  | A_box o ms ms' : alike_ms o ms ms' -> alike (T_box o ms) (T_box o ms')
with alike_ms : bool -> members -> members -> Prop :=
  | A_one o p p' key w1 w1' w2 w2' v v' q q' :
      (hidden o key v = true -> is_lit v' = false /\ same_print (plain_text v) (plain_text v')) ->
      (hidden o key v = false -> alike v v') ->
      alike_ms o (M_one p key w1 w2 v q) (M_one p' key w1' w2' v' q')
  | A_more o p p' key w1 w1' w2 w2' v v' q q' ms ms' :
      (hidden o key v = true -> is_lit v' = false /\ same_print (plain_text v) (plain_text v')) ->
      (hidden o key v = false -> alike v v') -> alike_ms o ms ms' ->
      alike_ms o (M_more p key w1 w2 v q ms) (M_more p' key w1' w2' v' q' ms').
Scheme alike_mut := Induction for alike Sort Prop
  with alike_ms_mut := Induction for alike_ms Sort Prop.
Combined Scheme alike_alike_ms_ind from alike_mut, alike_ms_mut.


(** A hash fingerprint always fits its buffer. *)
Lemma fingerprint_hash t : Z.of_nat (length t) < 2 ^ 64 ->
  fingerprint REDACT_HASH t = bs "sha256:" ++ ledger_hex_encode (sha256 t) ++ bs " len=" ++ dec_u (Z.of_nat (length t)).
Proof.
  intros Ht. unfold fingerprint, fsql_audit_redact_bytes. cbn [Z.eqb FSQL_AUDIT_REDACT_MAX].
  rewrite (ifb _ _ _ false); [done|]. apply Z.leb_gt. rewrite !length_app, hex_encode_length, (proj1 (sha256_digest t)).
  assert (length (dec_u (Z.of_nat (length t))) <= 20)%nat.
  { pose proof (digits_length (S (Z.to_nat (Z.log2 (Z.of_nat (length t))))) (Z.of_nat (length t)) [] 20) as H. apply H; lia. }
  unfold FSQL_AUDIT_REDACT_MAX. cbn [bs length String.length]. lia.
Qed.

Lemma alike_lit v v' : alike v v' -> is_lit v = is_lit v'.
Proof. by intros []. Qed.
Lemma red_alike : (forall t t', alike t t' -> red REDACT_HASH t = red REDACT_HASH t') /\
  (forall o ms ms', alike_ms o ms ms' -> red_ms REDACT_HASH o ms = red_ms REDACT_HASH o ms').
Proof.
  assert (Hval : forall o key v v', (hidden o key v = true -> is_lit v' = false /\ same_print (plain_text v) (plain_text v')) ->
    (hidden o key v = false -> alike v v') -> (hidden o key v = false -> red REDACT_HASH v = red REDACT_HASH v') ->
    (if hidden o key v then quote_json (fingerprint REDACT_HASH (plain_text v)) else red REDACT_HASH v) =
    (if hidden o key v' then quote_json (fingerprint REDACT_HASH (plain_text v')) else red REDACT_HASH v')).
  { intros o key v v' H1 H2 H3. destruct (hidden o key v) eqn:E.
    - destruct (H1 eq_refl) as (Hl & Hs & Hlen & Hb). unfold hidden in *. rewrite Hl, andb_true_r.
      apply andb_true_iff in E as [E _]. rewrite E. rewrite !fingerprint_hash by (done || by rewrite <- Hlen). by rewrite Hs, Hlen.
    - unfold hidden in *. rewrite <- (alike_lit v v') by auto. rewrite E. auto. }
  apply alike_alike_ms_ind; try done.
  - intros o ms ms' _ H. change (op o :: red_ms REDACT_HASH o ms ++ [cl o] = op o :: red_ms REDACT_HASH o ms' ++ [cl o]). by rewrite H.
  - intros o p p' key w1 w1' w2 w2' v v' q q' H1 H2 H3. exact (f_equal (fun x => key_text o key [] ++ x) (Hval o key v v' H1 H2 H3)).
  - intros o p p' key w1 w1' w2 w2' v v' q q' ms ms' H1 H2 H3 _ H.
    exact (f_equal2 (fun x y => key_text o key [] ++ x ++ 44 :: y) (Hval o key v v' H1 H2 H3) H).
Qed.
End Alike.

(** The text of a tree has no NUL byte. *)
Lemma all_not_nul (f : Z -> bool) l : f 0 = false -> Forall (fun c => f c = true) l -> no_nul l.
Proof. intros Hf H. unfold no_nul. eapply Forall_impl; [exact H|]. cbn. intros c Hc ->. congruence. Qed.
Lemma ws_no_nul l : ws l -> no_nul l.
Proof. by apply all_not_nul. Qed.
Lemma digits_no_nul l : all_digits l -> no_nul l.
Proof. intros [_ H]. by apply (all_not_nul isdigit). Qed.
Lemma lit_no_nul l : lit_ok l -> no_nul l.
Proof.
  intros [->|[->|[->|(sgn & ds & frac & exp & -> & Hs & Hd & Hf & He)]]]; [no_nul_lit..|].
  assert (Hc : forall c l, c <> 0 -> no_nul l -> no_nul (c :: l)) by (intros; by apply Forall_cons).
  assert (H0 : no_nul []) by apply Forall_nil_2.
  repeat apply Forall_app_2.
  - destruct Hs as [->| ->]; [apply Forall_nil_2|by apply Hc].
  - by apply digits_no_nul.
  - destruct Hf as [->|(f & -> & Hf)]; [done|]. apply Hc; [lia|by apply digits_no_nul].
  - destruct He as [->|(e & sg & x & -> & He & Hsg & Hx)]; [done|]. apply Hc; [lia|]. apply Forall_app_2; [|by apply digits_no_nul].
    destruct Hsg as [->|[->| ->]]; first [done|by apply Hc].
Qed.
Lemma render_no_nul t : tree_ok t -> no_nul (render t).
Proof.
  assert (Hop : forall o, op o <> 0 /\ no_nul [cl o]) by (intros []; split; [done|no_nul_lit|done|no_nul_lit]).
  assert (Hkey : forall o key w, no_nul key -> ws w -> no_nul (key_text o key w)).
  { intros [] key w Hk Hw; [|constructor]. cbn [key_text]. constructor; [lia|]. apply Forall_app_2; [done|]. constructor; [lia|].
    apply Forall_app_2; [by apply ws_no_nul|no_nul_lit]. }
  revert t. apply (jtree_mut (fun t => tree_ok t -> no_nul (render t)) (fun ms => members_ok ms -> forall o, no_nul (render_ms o ms)));
    cbn [tree_ok members_ok render render_ms].
  - intros s [_ Hs]. constructor; [lia|]. apply Forall_app_2; [done|no_nul_lit].
  - apply lit_no_nul.
  - intros o w Hw. constructor; [apply Hop|]. apply Forall_app_2; [by apply ws_no_nul|apply Hop].
  - intros o ms IH Hm. constructor; [apply Hop|]. apply Forall_app_2; [by apply IH|apply Hop].
  - intros p key w1 w2 v IH q (? & [_ ?] & ? & ? & ? & ?) o. repeat apply Forall_app_2; first [by apply ws_no_nul|by apply Hkey|by apply IH].
  - intros p key w1 w2 v IH q ms IHm (? & [_ ?] & ? & ? & ? & ? & ?) o.
    repeat apply Forall_app_2; first [by apply ws_no_nul|by apply Hkey|by apply IH|apply Forall_cons; split; [lia|by apply IHm]].
Qed.

(** What the chain's writer hands to the ledger when redaction is on and its
    buffers can be allocated. *)
Lemma write_redacted {DG : Digest} getenv x t u : tree_ok t ->
  fsql_audit_redact_mode (getenv (bs "FSQL_AUDIT_REDACT")) = REDACT_HASH ->
  x_malloc x 0%nat = true -> x_redact_malloc x = (fun _ => true) ->
  fractal_ledger_write_kind2 getenv x (render t) u =
  let '(rc, w) := ledger_write_entry (x_io x) (u_ent u) 2 (red REDACT_HASH t) (u_fs u) in (rc, set_fs w u).
Proof.
  intros Ht Hm Hx Hr. unfold fractal_ledger_write_kind2. rewrite Hm, bool_decide_eq_false_2, Hx by done. cbv zeta. cbn [negb].
  pose proof (redact_tree REDACT_HASH [] t []) as H. rewrite app_nil_r in H. cbn [app] in H.
  rewrite cstr_id, Hr by (by apply render_no_nul). rewrite H by (done || constructor). done.
Qed.


(** {"sql":"x","k":2} and {"sql" : "z" ,"k":2} under a hash that only sees
    the first bit of a byte. *)
#[local] Abbreviation sql_tree s w := (T_box true (M_more [] (bs "sql") w [] (T_str s) w
  (M_one [] (bs "k") [] [] (T_lit (bs "2")) []))).
Definition weak_digest : Digest.
Proof.
  refine {| sha256 := fun m => checksum (map (fun c => c mod 2) m); hmac := fun k m => checksum (k ++ m) |};
    intros; split; unfold checksum; first [apply le_bytes_length|apply le_bytes_ok].
Defined.

(** ** The audit call *)

Section Calls.
Context {DG : Digest}.
Context (getenv : list Z -> option (list Z)) (Verify : list Z -> list Z -> list Z -> bool).
Context (dl_ok : list Z -> bool) (dl_sym : list Z -> list Z -> bool).
Abbreviation audit := (fractal_audit_log getenv Verify dl_ok dl_sym) (only parsing).

Lemma ensure_keeps x u ok u' : ensure getenv Verify dl_ok dl_sym x u = (ok, u') ->
  u_fs u' = u_fs u /\ u_reg u' = u_reg u /\ u_latch u' = u_latch u.
Proof. unfold ensure. destruct (ensure_enterprise_lib _ _ _ _ _ _ _) as [b e]. by intros [= _ <-]. Qed.

(** The text of the record for a call's arguments. *)
Definition record_text (type : list Z) (payload : list Z) (sid : option Z) (actor : option (list Z)) : list Z :=
  audit_text (flat_map escape1 type) payload (attribution sid (flat_map escape1 <$> actor)).

Lemma audit_success x type payload sid actor u v u' :
  length (x_junk x) = 64%nat -> length (x_junk_st x) = 65%nat ->
  audit x type payload sid actor u = (UVal v, u') ->
  let p := default (bs "null") payload in
  exists t u1, type = Some t /\ snd (ensure getenv Verify dl_ok dl_sym x u) = u1 /\ doc 64 p /\
    (forall a b, p <> a ++ js "'_actor'" ++ b) /\
    match sid with Some s => fractal_session_destructive_locked (u_latch u1) (u64 s) = false | None => True end /\
    fractal_ledger_write_kind2 getenv x (record_text t p sid actor) u1 = (FSQL_OK, u').
Proof.
  intros Hj Hjs H p. unfold fractal_audit_log in H. destruct type as [t|]; [|done].
  destruct (ensure _ _ _ _ x u) as [ok u1] eqn:Eu. destruct ok; cbn [negb] in H; [|done]. fold p in H.
  destruct (match sid with Some s => fractal_session_destructive_locked (u_latch u1) (u64 s) | None => false end) eqn:El; [done|].
  destruct (match sid with Some _ => false | None => ent_env_flag _ _ end); [done|].
  destruct (256 <? Z.of_nat (length t)); [done|]. destruct (LEDGER_MAX_BLOB_BYTES <? _); [done|].
  destruct (run_decides (S (length p)) p (jw0 (x_junk x) (x_junk_st x)) ST_EMPTY []) as (b & Hb & Hiff); [lia|by apply inv_jw0|].
  unfold ent_json_well_formed in H. unfold run in Hb. rewrite Hb in H. cbn [default] in H.
  destruct b; cbn [negb] in H; [|done]. apply proj1 in Hiff. specialize (Hiff eq_refl). apply doc_compl in Hiff.
  destruct (ent_memmem p (js "'_actor'")) eqn:Em; [done|]. pose proof (proj1 (memmem_none p (js "'_actor'") ltac:(done)) Em) as Hno.
  destruct ((512 <? _) && _); [done|]. rewrite escape_fits in H by lia.
  set (ae := match actor with Some _ => _ | None => _ end) in H.
  assert (Hae : ae = None \/ ae = Some (flat_map escape1 <$> actor)).
  { unfold ae. destruct actor as [a|]; [|by right]. destruct (256 <? _); [by left|]. destruct (_ && _); [by left|].
    rewrite escape_fits by lia. by right. }
  destruct Hae as [-> | ->]; [done|]. destruct (1024 <=? _); [done|]. destruct (x_malloc x 3%nat); cbn [negb] in H; [|done].
  fold (record_text t p sid actor) in H. destruct (_ <=? _); [done|].
  destruct (fractal_ledger_write_kind2 getenv x _ u1) as [rc u2] eqn:Ew. destruct (rc =? FSQL_OK) eqn:Er; cbn [negb] in H; [|done].
  injection H as _ <-. apply Z.eqb_eq in Er as ->. exists t, u1. split_and!; try done. by destruct sid.
Qed.

(** An audit call that succeeds is one record: for a ledger with a clean
    or detectably torn end, the file then holds exactly the old records and
    one more of kind 2; its contents are the record's text, or in a redaction
    mode what the redactor makes of it (the text itself when the redactor
    declines); the payload had passed the gate, the session was not latched,
    and neither the session registry nor the latch changed. *)
Theorem audit_log_appends x type payload sid actor u v u' rs :
  length (x_junk x) = 64%nat -> length (x_junk_st x) = 65%nat ->
  audit x type payload sid actor u = (UVal v, u') ->
  (forall n, io_read (x_io x) M_repair n = true) -> recoverable (ledger_path (u_ent u')) (u_fs u) rs ->
  let p := default (bs "null") payload in
  let mode := fsql_audit_redact_mode (getenv (bs "FSQL_AUDIT_REDACT")) in
  exists t r, type = Some t /\ doc 64 p /\ (forall a b, p <> a ++ js "'_actor'" ++ b) /\
    intact (ledger_path (u_ent u')) (u_fs u') (rs ++ [r]) /\ r_kind r = 2 /\
    (r_blob r = record_text t p sid actor \/
     mode <> REDACT_NONE /\ fsql_audit_redact_json mode (x_redact_malloc x) (Some (cstr (record_text t p sid actor))) = Some (r_blob r)) /\
    match sid with Some s => fractal_session_destructive_locked (u_latch u) (u64 s) = false | None => True end /\
    u_reg u' = u_reg u /\ u_latch u' = u_latch u.
Proof.
  intros Hj Hjs H Hrd Hr p mode. apply audit_success in H as (t & u1 & -> & Eu & Hd & Hno & Hl & Hw); [|done..].
  destruct (ensure _ _ _ _ x u) as [ok u1'] eqn:E. cbn [snd] in Eu. subst u1'. apply ensure_keeps in E as (Ef & Er & Elt).
  unfold fractal_ledger_write_kind2 in Hw. cbv zeta in Hw. fold mode in Hw.
  match type of Hw with context [ledger_write_entry _ _ 2 ?s _] => set (stored := s) in Hw end.
  destruct (ledger_write_entry _ _ _ _ _) as [rc w] eqn:Ew. injection Hw as -> <-. cbn [set_fs u_ent u_fs u_reg u_latch] in *.
  rewrite Ef in Ew. destruct (write_intact _ _ _ _ _ _ _ Hrd Hr Ew) as (Hi & _ & _).
  exists t. eexists. split_and!; [done|done|done|exact Hi|done| |by rewrite <- Elt|done|done].
  change (r_blob (new_record _ _ _ stored _)) with stored. unfold stored.
  case_bool_decide; [by left|]. destruct (negb (x_malloc x 0%nat)); [by left|].
  destruct (fsql_audit_redact_json _ _ _) as [red|] eqn:Er'; [|by left]. by right.
Qed.

(** ** The destructive latch *)

Context (core : ledger_op -> Z -> ent -> fs -> Z * fs) (core_count : bool -> Z -> Z * Z).
Context (core_unpack : list Z -> Z -> Z * Z * list Z).

(** A call of one of the functions, with what the system answers. *)
Inductive ucall :=
  | U_void (op : ledger_op) (x : uio) (arg : option Z)
  | U_load (x : uio) (arg : option Z)
  | U_count (truth : bool) (x : uio) (arg : option Z)
  | U_lock (arg : option Z)
  | U_audit (x : uio) (type payload : option (list Z)) (sid : option Z) (actor : option (list Z))
  | U_unpack (x : uio) (fuel : nat) (blob : option (list Z)).
(** The macro's last argument for each of its four functions. *)
Definition post_of (op : ledger_op) : ent -> fs -> fs :=
  match op with L_reset_soft | L_reset_hard => ledger_head_clear | _ => fun _ w => w end.
Definition ucall_run (c : ucall) (u : ust) : udf Z * ust :=
  match c with
  | U_void op x a => ledger_void_udf getenv Verify dl_ok dl_sym core op (post_of op) x a u
  | U_load x a => fractal_ledger_load getenv Verify dl_ok dl_sym core x a u
  | U_count b x a => ledger_count_udf getenv Verify dl_ok dl_sym core_count b x a u
  | U_lock a => fractal_lock_destructive a u
  | U_audit x t p s a => audit x t p s a u
  | U_unpack x n b => let '(r, u) := fractal_audit_unpack getenv Verify dl_ok dl_sym core_unpack n x b u in
                      (match r with Some (UVal _) => UVal 0 | Some UNull => UNull | _ => UError end, u)
  end.
Definition uruns (l : list ucall) (u : ust) : ust := fold_left (fun u c => snd (ucall_run c u)) l u.
(** The session a destructive call names, and the latch calls in a run. *)
Definition destructive (c : ucall) : option Z :=
  match c with U_void _ _ (Some a) | U_load _ (Some a) | U_audit _ _ _ (Some a) _ => Some (u64 a) | _ => None end.
Definition locks (c : ucall) : list Z := match c with U_lock (Some a) => [u64 a] | _ => [] end.

Lemma write_kind2_keeps x t u rc u' : fractal_ledger_write_kind2 getenv x t u = (rc, u') -> u_reg u' = u_reg u /\ u_latch u' = u_latch u.
Proof. unfold fractal_ledger_write_kind2. destruct (ledger_write_entry _ _ _ _ _) as [r w]. by intros [= _ <-]. Qed.

Lemma ucall_latch c u : u_latch (snd (ucall_run c u)) = fold_left (fun s i => fractal_session_lock_destructive i s) (locks c) (u_latch u).
Proof.
  destruct c as [op x a|x a|b x a|a|x t p s a|x n b]; cbn [ucall_run locks].
  - unfold ledger_void_udf. destruct a as [a|]; [|done]. destruct (fractal_session_destructive_locked _ _); [done|].
    destruct (ensure _ _ _ _ x u) as [ok u1] eqn:E. apply ensure_keeps in E as (_ & _ & E). destruct ok; cbn [negb]; [|done].
    destruct (fractal_session_acquire _ _ _) as [r ctx]. destruct ctx; [|done]. destruct (core _ _ _ _) as [rc w].
    by destruct (negb _).
  - unfold fractal_ledger_load. destruct a as [a|]; [|done]. destruct (fractal_session_destructive_locked _ _); [done|].
    destruct (ensure _ _ _ _ x u) as [ok u1] eqn:E. apply ensure_keeps in E as (_ & _ & E). destruct ok; cbn [negb]; [|done].
    destruct (negb _); [done|]. destruct (fractal_session_acquire _ _ _) as [r ctx]. destruct ctx; [|done].
    destruct (core _ _ _ _) as [rc w]. by destruct (_ && _).
  - unfold ledger_count_udf. destruct a as [a|]; [|done].
    destruct (ensure _ _ _ _ x u) as [ok u1] eqn:E. apply ensure_keeps in E as (_ & _ & E). destruct ok; cbn [negb]; [|done].
    destruct (fractal_session_acquire _ _ _) as [r ctx]. destruct ctx; [|done]. destruct (core_count _ _) as [rc w].
    by destruct (negb _).
  - by destruct a.
  - unfold fractal_audit_log. destruct t as [t|]; [|done].
    destruct (ensure _ _ _ _ x u) as [ok u1] eqn:E. apply ensure_keeps in E as (_ & _ & E). destruct ok; cbn [negb]; [|done].
    repeat (case_match; [done|]); repeat (case_match; try done).
    all: match goal with H : fractal_ledger_write_kind2 _ _ _ _ = _ |- _ => apply write_kind2_keeps in H as [_ H]; cbn; congruence end.
  - unfold fractal_audit_unpack. destruct b as [b|]; [|done].
    destruct (ensure _ _ _ _ x u) as [ok u1] eqn:E. apply ensure_keeps in E as (_ & _ & E). by destruct ok.
Qed.
Lemma uruns_latch l u : u_latch (uruns l u) = fold_left (fun s i => fractal_session_lock_destructive i s) (flat_map locks l) (u_latch u).
Proof.
  revert u. induction l as [|c l IH]; intros u; [done|]. cbn [uruns fold_left flat_map]. fold (uruns l). rewrite IH, ucall_latch.
  by rewrite fold_left_app.
Qed.
(** A latched session's destructive call. *)
Lemma latched_refused c u id : destructive c = Some id -> fractal_session_destructive_locked (u_latch u) id = true ->
  let r := ucall_run c u in
  (fst r = UError \/ fst r = UNull) /\ u_fs (snd r) = u_fs u /\ u_reg (snd r) = u_reg u /\ u_latch (snd r) = u_latch u.
Proof.
  intros Hd Hl. destruct c as [op x [a|]|x [a|]|b x a|a|x t p [s|] a|x n b]; try done; cbn [destructive] in Hd; injection Hd as <-; cbn [ucall_run].
  - unfold ledger_void_udf. rewrite Hl. cbn. auto.
  - unfold fractal_ledger_load. rewrite Hl. cbn. auto.
  - unfold fractal_audit_log. destruct t as [t|]; [|cbn; auto].
    destruct (ensure _ _ _ _ x u) as [ok u1] eqn:E. apply ensure_keeps in E as (E1 & E2 & E3). destruct ok; cbn [negb]; [|cbn; auto].
    rewrite E3, Hl. cbn. auto.
Qed.

(** A latched session stays harmless: after fractal_lock_destructive names
    a session, and whatever the functions are then called with (fewer than
    16384 of the calls latching sessions), every flush, compaction, reset,
    load or attributed audit call of that session is refused, and neither the
    files nor the session registry change. *)
Theorem latched_session_harmless u before a l c :
  u_latch u = fold_left (fun s i => fractal_session_lock_destructive i s) before (latch_init FSQL_LOCKED_RING) ->
  fractal_session_destructive_locked (u_latch u) (u64 a) = false ->
  Z.of_nat (length (flat_map locks l)) < FSQL_LOCKED_RING -> destructive c = Some (u64 a) ->
  let u1 := uruns (U_lock (Some a) :: l) u in
  let r := ucall_run c u1 in
  (fst r = UError \/ fst r = UNull) /\ u_fs (snd r) = u_fs u1 /\ u_reg (snd r) = u_reg u1 /\ u_latch (snd r) = u_latch u1.
Proof.
  intros Hb Hno Hl Hd u1 r. apply latched_refused with (id := u64 a); [done|]. unfold u1. rewrite uruns_latch.
  cbn [flat_map locks app]. rewrite Hb. apply destructive_latch_holds; [by rewrite <- Hb|done].
Qed.

(** ** The decoder *)

Lemma unpack_loop x blob cap : 0 <= cap <= UNPACK_MAX -> exists n r, while (unpack_turn core_unpack x blob) n cap = Some r /\
  forall s, r = UVal s -> Z.of_nat (length s) <= UNPACK_MAX.
Proof.
  intros Hc. remember (Z.to_nat (UNPACK_MAX - cap)) as k eqn:Ek. revert cap Hc Ek.
  induction k as [k IH] using lt_wf_ind. intros cap Hc Ek.
  destruct (unpack_turn core_unpack x blob cap) as [cap'|r] eqn:E.
  - assert (cap < cap' <= UNPACK_MAX) as Hc'.
    { unfold unpack_turn in E. repeat (case_match; try discriminate). simplify_eq. bools. lia. }
    destruct (IH (Z.to_nat (UNPACK_MAX - cap'))) with (cap := cap') as (n & r & Hw & Hr); [lia|lia|done|].
    exists (S n), r. cbn [while]. by rewrite E.
  - exists 1%nat, r. cbn [while]. rewrite E. split; [done|]. intros s ->. unfold unpack_turn in E.
    repeat (case_match; try discriminate). simplify_eq.
    assert (Hlen : forall l, (length (cstr l) <= length l)%nat).
    { intros m. induction m as [|c m IHm]; [done|]. cbn. destruct (c =? 0); cbn; lia. }
    etrans; [apply inj_le, Hlen|]. rewrite length_take. lia.
Qed.
(** The decoder survives its library: whatever codes and lengths the
    enterprise library returns, the loop that grows the buffer ends, and a
    result is never longer than the 16 MiB the function declared. *)
Theorem unpack_terminates x blob u : exists n r u', forall m, (n <= m)%nat ->
  fractal_audit_unpack getenv Verify dl_ok dl_sym core_unpack m x blob u = (Some r, u') /\
  forall s, r = UVal s -> Z.of_nat (length s) <= UNPACK_MAX.
Proof.
  unfold fractal_audit_unpack. destruct blob as [blob|]; [|by exists 0%nat, UNull, u].
  destruct (ensure _ _ _ _ x u) as [ok u1]. destruct ok; cbn [negb]; [|by exists 0%nat, UError, u1].
  destruct (unpack_loop x blob 8192) as (n & r & Hw & Hr); [unfold UNPACK_MAX; lia|].
  exists n, r, u1. intros m Hm. split; [|done]. f_equal. by eapply while_mono.
Qed.
End Calls.

(** ** Concrete runs *)

#[local] Existing Instance demo_digest.
#[local] Abbreviation ent_on := {| g_ent_handle := None; g_ent_attempted := true; g_ent_loaded := true; g_ent_lib := None;
  g_ent_ledger_path := Some (bs "l.dat"); g_ent_ledger_key := None; g_ent_require_sig := true; g_ent_env_lib := None;
  g_ent_env_ledger_path := None; g_ent_env_ledger_key := None; g_ent_env_require_sig := true; g_ent_env_captured := true |}.
#[local] Abbreviation io_ok := {| io_malloc := fun _ _ => true; io_open := fun _ => true; io_read := fun _ _ => true; io_size := true; io_rewind := true;
  io_header := None; io_truncate := true; io_record := None; io_sync := true; io_now := 7; io_max_bytes := None; io_csv := None;
  io_head := true; io_rename := true; io_anchor := ANCHOR_OFF |}.
#[local] Abbreviation os_none := {| os_sig := None; os_so := None; os_evp := true; os_evp_init := true; os_memfd := None;
  os_tmpdir := None; os_tmp_ok := true; os_tmp_image := fun b => b; os_path_image := None |}.
#[local] Abbreviation ux := {| x_dup := fun _ => true; x_os := os_none;
  x_env := {| now := 0; calloc_ok := true; new_sovereign := Some 1 |}; x_io := io_ok; x_malloc := fun _ => true;
  x_redact_malloc := fun _ => true; x_junk := replicate 64 0; x_junk_st := replicate 65 ST_SEP |}.
#[local] Abbreviation u0 := {| u_ent := ent_on; u_fs := {| files := ∅; anchors := [] |}; u_reg := empty_registry;
  u_latch := latch_init FSQL_LOCKED_RING |}.
#[local] Abbreviation env_of m := (fun n : list Z => if bytes_eqb n (bs "FSQL_AUDIT_REDACT") then Some (bs m) else None).
#[local] Abbreviation log m p := (fractal_audit_log (env_of m) (fun _ _ _ => true) (fun _ => true) (fun _ _ => true) ux (Some (bs "t")) (Some p) (Some 5) None u0).
(** What the last kind-2 record holds after a call. *)
Definition last_audit (r : udf Z * ust) : list Z :=
  snd (fst (ledger_read_entry io_ok (u_ent (snd r)) 2 ∅ (u_fs (snd r)))).

Lemma audit_record_well_formed_witness :
  doc 67 (audit_text (flat_map escape1 (bs "t")) (js " {'k':1} ") (attribution (Some 5) (flat_map escape1 <$> Some (bs "me")))).
Proof.
  assert (Hd : doc 64 (js " {'k':1} ")).
  { destruct (json_gate_exact (replicate 64 0) (replicate 65 ST_SEP) (js " {'k':1} ")) as (b & E & H); [reflexivity..|].
    apply H. assert (E2 : ent_json_well_formed (replicate 64 0) (replicate 65 ST_SEP) (js " {'k':1} ") = Some true) by (vm_compute; reflexivity).
    congruence. }
  destruct (audit_record_well_formed (bs "t") (js " {'k':1} ") (Some 5) (Some (bs "me")) Hd) as (w & v & w' & e & _ & _ & _ & _ & _ & _ & _ & H).
  - no_nul_lit.
  - apply (bool_decide_unpack _). vm_compute. exact Logic.I.
  - lia.
  - apply (bool_decide_unpack _). vm_compute. exact Logic.I.
  - exact H.
Defined.

Lemma audit_log_appends_witness :
  exists t r, Some (bs "t") = Some t /\ r_kind r = 2 /\ r_blob r = record_text t (js "{'k':1}") (Some 5) None.
Proof.
  assert (E : fst (log "none" (js "{'k':1}")) = UVal 0) by (vm_compute; reflexivity).
  destruct (log "none" (js "{'k':1}")) as [o u'] eqn:El. cbn [fst] in E. subst o.
  assert (Hp : ledger_path (u_ent u') = bs "l.dat").
  { apply (f_equal (fun r => ledger_path (u_ent (snd r)))) in El. cbn [snd] in El. rewrite <- El. vm_compute. reflexivity. }
  destruct (audit_log_appends (env_of "none") (fun _ _ _ => true) (fun _ => true) (fun _ _ => true) ux (Some (bs "t"))
    (Some (js "{'k':1}")) (Some 5) None u0 0 u' [] eq_refl eq_refl El (fun _ => eq_refl)) as (t & r & H1 & _ & _ & _ & H2 & [H3|[H3 _]] & _).
  - rewrite Hp. unfold recoverable. reflexivity.
  - exists t, r. split; [exact H1|]. split; [exact H2|exact H3].
  - exfalso. apply H3. vm_compute. reflexivity.
Defined.

(** The gate takes a raw NUL behind a backslash: the record is cut at it,
    and the attribution block lands inside the payload's open string, so an
    accepted audit call stores a record that is not JSON. *)
Theorem nul_payload_breaks_record :
  let payload := js "{'k':'\" ++ [0] ++ js "'}" in
  ent_json_well_formed (x_junk ux) (x_junk_st ux) payload = Some true /\
  fst (log "none" payload) = UVal 0 /\
  last_audit (log "none" payload) = js "{'type':'t','entry':{'k':'\,'_actor':{'session':5,'attested':true}}}" /\
  ent_json_well_formed (x_junk ux) (x_junk_st ux) (last_audit (log "none" payload)) = Some false.
Proof. by vm_compute. Qed.

(** Redaction can be declined from outside: a payload the gate accepts but
    the redactor does not follow (a comma where a colon belongs) is stored in
    clear under the hash mode, and so is the text under a sensitive key
    spelled with an escape; both are accepted, and the same text under the
    plain key is hashed. *)
Theorem redaction_bypassed :
  fst (log "hash" (js "{'a','sql':'secret'}")) = UVal 0 /\
  last_audit (log "hash" (js "{'a','sql':'secret'}")) =
    js "{'type':'t','entry':{'a','sql':'secret','_actor':{'session':5,'attested':true}}}" /\
  last_audit (log "hash" (js "{'\u0073ql':'secret'}")) =
    js "{'type':'t','entry':{'\u0073ql':'secret','_actor':{'session':5,'attested':true}}}" /\
  last_audit (log "hash" (js "{'sql':'secret'}")) =
    js "{'type':'t','entry':{'sql':'" ++ fingerprint REDACT_HASH (bs "secret") ++ js "','_actor':{'session':5,'attested':true}}}".
Proof. by vm_compute. Qed.

Lemma latched_session_harmless_witness :
  let c := U_void L_reset_hard ux (Some 5) in
  let run := ucall_run (env_of "none") (fun _ _ _ => true) (fun _ => true) (fun _ _ => true) (fun _ _ _ w => (0, remove_file (bs "l.dat") w))
    (fun _ _ => (0, 0)) (fun _ _ => (0, 0, [])) c in
  fst (run u0) = UVal 0 /\ fst (run (snd (fractal_lock_destructive (Some 5) u0))) = UError.
Proof.
  cbv zeta. split; [vm_compute; reflexivity|].
  destruct (latched_session_harmless (env_of "none") (fun _ _ _ => true) (fun _ => true) (fun _ _ => true)
    (fun _ _ _ w => (0, remove_file (bs "l.dat") w)) (fun _ _ => (0, 0)) (fun _ _ => (0, 0, [])) u0 [] 5 []
    (U_void L_reset_hard ux (Some 5))) as [[H|H] _]; [reflexivity|vm_compute; reflexivity|reflexivity|reflexivity|exact H|].
  exfalso. revert H. vm_compute. discriminate.
Defined.
