(* ===== verification/Params.v ===== *)
(** * The parameter objects of the SQL functions (src/fractalsql.c, json_find_key
    and its readers)

    The readers of a params object: a position in the text is the text from it
    on.  The lookup is compared with JSON trees (RedactProofs.v). *)

From Stdlib Require Import SpecFloat.
From S2P Require Import Prelude LedgerFmt AuditJson Redact RedactProofs Float Parse ParseProofs.

Definition INT_MAX : Z := 2 ^ 31 - 1.
Definition INT_MIN : Z := - 2 ^ 31.
(** [clamp_to_int] *)
Definition clamp_to_int (v : Z) : Z := if INT_MAX <? v then INT_MAX else if v <? INT_MIN then INT_MIN else v.

(** ** [json_find_key] *)

(** One turn of the scan: the text at [i] and the nesting depth. *)
Definition find_turn (key : list Z) (x : list Z * Z) : (list Z * Z) + option (list Z) :=
  let '(p, depth) := x in
  match p with
  | [] => inr None
  | c :: r =>
      if c =? 34 then
        match string_body r with
        | None => inr None
        | Some (body, q) =>
            match skip is_blank q with
            | k :: k' =>
                if (k =? 58) && (depth <=? 1) then
                  if bytes_eqb body key then inr (Some (skip is_blank k')) else inl (k', depth)
                else inl (q, depth)
            | [] => inl (q, depth)
            end
        end
      else if is_open c then inl (r, depth + 1)
      else if is_close c then inl (r, depth - 1)
      else inl (r, depth)
  end.
Definition json_find_key (s key : list Z) : option (list Z) :=
  default None (while (find_turn key) (S (length s)) (s, 0)).
Definition json_has_key (s key : list Z) : bool := match json_find_key s key with Some _ => true | None => false end.

(** ** Values *)

(** The digits at the head, and the rest. *)
Fixpoint digit_run (l : list Z) : list Z * list Z :=
  match l with c :: r => if isdigit c then let '(d, q) := digit_run r in (c :: d, q) else ([], l) | [] => ([], []) end.
(** The number token at the head, empty when there is none, and the rest. *)
Definition json_number_end (p : list Z) : list Z * list Z :=
  let '(sg, q) := match p with c :: r => if (c =? 45) || (c =? 43) then ([c], r) else ([], p) | [] => ([], []) end in
  let '(ds, q) := digit_run q in
  match ds with
  | [] => ([], p)
  | _ =>
    let tok := sg ++ ds in
    (* the fraction: [None] when the point has no digit behind it *)
    match (match q with
           | c :: r => if c =? 46 then let '(f, r') := digit_run r in match f with [] => None | _ => Some (c :: f, r') end else Some ([], q)
           | [] => Some ([], q)
           end) with
    | None => (tok, q)
    | Some (fr, q) =>
      let tok := tok ++ fr in
      match q with
      | c :: r =>
          if (c =? 101) || (c =? 69) then
            let '(sg, r) := match r with d :: r' => if (d =? 45) || (d =? 43) then ([d], r') else ([], r) | [] => ([], []) end in
            let '(x, r) := digit_run r in
            match x with [] => (tok, q) | _ => (tok ++ c :: sg ++ x, r) end
          else (tok, q)
      | [] => (tok, q)
      end
    end
  end.
Definition json_value_delim (p : list Z) : bool :=
  match p with [] => true | c :: _ => is_blank c || (c =? 44) || (c =? 125) || (c =? 93) end.

Section Readers.
Context (underflow : list Z -> bool).

Definition json_get_int (s key : list Z) (fallback : Z) : Z :=
  match json_find_key s key with
  | None => fallback
  | Some p =>
    let '(tok, q) := json_number_end p in
    if bool_decide (tok = []) || negb (json_value_delim q) || (32 <=? length tok)%nat then fallback else
    let v := fst (strtol tok) in
    if (INT_MAX <? v) || (v <? INT_MIN) then fallback else v
  end.

Definition json_get_u64 (s key : list Z) (fallback : Z) : Z :=
  match json_find_key s key with
  | None => fallback
  | Some p =>
    let '(tok, q) := digit_run p in
    if bool_decide (tok = []) || negb (json_value_delim q) || (32 <=? length tok)%nat then fallback else
    let v := dec_val 0 tok in if 2 ^ 64 <=? v then fallback else v
  end.

Definition json_get_double (s key : list Z) (fallback : double) : double :=
  match json_find_key s key with
  | None => fallback
  | Some p =>
    let '(tok, q) := json_number_end p in
    if bool_decide (tok = []) || negb (json_value_delim q) || (64 <=? length tok)%nat then fallback else
    match strtod underflow tok with
    | Some (v, _, erange) => if erange || negb (isfinite v) then fallback else v
    | None => of_int 0       (* what strtod answers without a conversion *)
    end
  end.

Definition json_get_bool (s key : list Z) (fallback : bool) : bool :=
  match json_find_key s key with
  | None => fallback
  | Some p =>
    if bytes_eqb (take 4 p) (bs "true") then true
    else if bytes_eqb (take 5 p) (bs "false") then false else fallback
  end.

(** Into a buffer of [bufcap] bytes; [None]: the buffer is left alone. *)
Fixpoint upto_quote (n : nat) (p : list Z) : list Z :=
  match n, p with S n, c :: r => if c =? 34 then [] else c :: upto_quote n r | _, _ => [] end.
Definition json_get_str (s key : list Z) (bufcap : nat) : option (list Z) :=
  match json_find_key s key with
  | Some (c :: r) => if c =? 34 then Some (upto_quote (bufcap - 1) r) else None
  | _ => None
  end.
End Readers.

Inductive diffusion := FSQL_SFS_DIFFUSE_GAUSSIAN | FSQL_SFS_DIFFUSE_LEVY.
Definition parse_diffusion_mode (mode : list Z) : option diffusion :=
  if bytes_eqb mode (bs "gaussian") then Some FSQL_SFS_DIFFUSE_GAUSSIAN
  else if bytes_eqb mode (bs "levy") then Some FSQL_SFS_DIFFUSE_LEVY else None.

(** ** The lookup on trees *)

Lemma find_decreases key x x' : find_turn key x = inl x' -> (length (fst x') < length (fst x))%nat.
Proof.
  destruct x as [p d]. cbn [find_turn]. destruct p as [|c r]; [done|]. destruct (c =? 34).
  - destruct (string_body r) as [[b q]|] eqn:E; [|done]. apply (string_body_shorter (S (length r))) in E; [|lia].
    pose proof (skip_length is_blank q). destruct (skip is_blank q) as [|k k']; [intros; simplify_eq/=; lia|].
    repeat case_match; intros; simplify_eq/=; lia.
  - repeat case_match; intros; simplify_eq/=; lia.
Qed.
Definition find (key p : list Z) (d : Z) : option (option (list Z)) := while (find_turn key) (S (length p)) (p, d).
Lemma find_eq key p d : find key p d = match find_turn key (p, d) with inl (p', d') => find key p' d' | inr r => Some r end.
Proof.
  pose proof (while_unfold _ (fun x : list Z * Z => length (fst x)) (find_decreases key) (p, d)) as H.
  unfold find. cbn [fst] in H. rewrite H. by destruct (find_turn _ _) as [[? ?]|].
Qed.
Lemma find_total key p d : is_Some (find key p d).
Proof. apply (while_enough _ (fun x : list Z * Z => length (fst x)) (find_decreases key)). cbn; lia. Qed.

Section Find.
Context (key : list Z).
Lemma find_inert l q d : Forall inert l -> find key (l ++ q) d = find key q d.
Proof.
  induction 1 as [|c l (H1 & H2 & H3) _ IH]; [done|]. cbn [app]. rewrite find_eq. cbn [find_turn].
  rewrite (proj2 (Z.eqb_neq _ _)) by done. by rewrite H2, H3.
Qed.
(** A string that no colon follows, or that is deeper than the object. *)
Lemma find_str s q d : jstr s -> (d <= 1 -> at_ (skip is_blank q) 0 <> 58) -> find key (34 :: s ++ 34 :: q) d = find key q d.
Proof.
  intros Hs Hq. rewrite find_eq. cbn [find_turn]. change (34 =? 34) with true. cbn iota. rewrite string_body_jstr by done.
  destruct (skip is_blank q) as [|k k']; [done|]. cbn [at_ nth] in Hq. destruct ((k =? 58) && (d <=? 1)) eqn:E; [|done]. lia.
Qed.
Lemma find_open o q d : find key (op o :: q) d = find key q (d + 1).
Proof. rewrite find_eq. by destruct o. Qed.
Lemma find_close o q d : find key (cl o :: q) d = find key q (d - 1).
Proof. rewrite find_eq. by destruct o. Qed.
Lemma find_deep_key o k w1 q d : 2 <= d -> jstr k -> ws w1 -> find key (key_text o k w1 ++ q) d = find key q d.
Proof.
  intros Hd Hk Hw. destruct o; [|done]. rewrite key_text_app, find_str by (done || lia). rewrite find_inert by by apply ws_inert.
  apply (find_inert [58]). by repeat constructor.
Qed.

(** What follows a value inside a container. *)
Definition no_colon (q : list Z) : Prop := at_ (skip is_blank q) 0 <> 58.
Lemma skip_ws w q : ws w -> skip is_blank (w ++ q) = skip is_blank q.
Proof. intros H. apply skip_app. eapply Forall_impl; [exact H|]. intros c Hc. exact Hc. Qed.
Lemma no_colon_ws w c q : ws w -> is_ws c = false -> c <> 58 -> no_colon (w ++ c :: q).
Proof. intros Hw Hb Hc. unfold no_colon. rewrite skip_ws by done. cbn [skip]. change (is_blank c) with (is_ws c). by rewrite Hb. Qed.

(** A whole value is stepped over, whatever keys it has inside. *)
Lemma find_tree :
  (forall t, tree_ok t -> forall q d, 1 <= d -> no_colon q -> find key (render t ++ q) d = find key q d) /\
  (forall ms, members_ok ms -> forall o q d, 2 <= d -> (exists c q', q = c :: q' /\ is_close c = true) ->
     find key (render_ms o ms ++ q) d = find key q d).
Proof.
  apply jtree_members_ind; cbn [render render_ms tree_ok members_ok].
  - intros s [Hs _] q d Hd Hq. cbn. rewrite <- app_assoc. by apply find_str.
  - intros l Hl q d Hd _. by apply find_inert, lit_inert.
  - intros o w Hw q d Hd _. cbn [app]. rewrite <- app_assoc. rewrite find_open, find_inert by by apply ws_inert.
    cbn [app]. rewrite find_close. f_equal. lia.
  - intros o ms IH Hms q d Hd _. cbn [app]. rewrite <- app_assoc. rewrite find_open. rewrite IH; [|done|lia|].
    + cbn [app]. rewrite find_close. f_equal. lia.
    + exists (cl o), q. by destruct o.
  - intros pre k w1 w2 v IH post (Hpre & [Hk _] & Hw1 & Hw2 & Hv & Hpost) o q d Hd (c & q' & -> & Hc). rewrite <- !app_assoc.
    rewrite find_inert by by apply ws_inert. rewrite find_deep_key by done. rewrite find_inert by by apply ws_inert.
    rewrite IH; [by rewrite find_inert by by apply ws_inert|done|lia|]. by apply no_colon_ws; [done|chars..].
  - intros pre k w1 w2 v IH post ms IHms (Hpre & [Hk _] & Hw1 & Hw2 & Hv & Hpost & Hms) o q d Hd Hq. rewrite <- !app_assoc.
    rewrite find_inert by by apply ws_inert. rewrite find_deep_key by done. rewrite find_inert by by apply ws_inert.
    rewrite IH; [|done|lia|by apply no_colon_ws; [done|chars..]]. rewrite find_inert by by apply ws_inert. cbn.
    etrans; [apply (find_inert [44]); by repeat constructor|]. by apply IHms.
Qed.
End Find.

(** The text from the value of the first member of that name on. *)
Fixpoint member_text (key : list Z) (ms : members) (tail : list Z) : option (list Z) :=
  match ms with
  | M_one _ k _ _ v post => if bytes_eqb k key then Some (render v ++ post ++ tail) else None
  | M_more _ k _ _ v post ms =>
      if bytes_eqb k key then Some (render v ++ post ++ 44 :: render_ms true ms ++ tail) else member_text key ms tail
  end.

(** A key of the object itself, and its value. *)
Lemma find_member key k w1 w2 v post q : jstr k -> ws w1 -> ws w2 -> tree_ok v -> ws post ->
  (exists c q', q = c :: q' /\ (c = 44 \/ is_close c = true)) ->
  find key (key_text true k w1 ++ w2 ++ render v ++ post ++ q) 1 =
  if bytes_eqb k key then Some (Some (render v ++ post ++ q)) else find key q 1.
Proof.
  intros Hk Hw1 Hw2 Hv Hpost (c & q' & -> & Hc). rewrite key_text_app, find_eq. cbn [find_turn]. change (34 =? 34) with true. cbn iota.
  rewrite string_body_jstr by done. rewrite skip_ws by done. cbn [skip]. change (is_blank 58) with false. cbn iota.
  change ((58 =? 58) && (1 <=? 1)) with true. cbn iota.
  destruct (bytes_eqb k key).
  - rewrite skip_ws by done. destruct (render_head v (post ++ c :: q') Hv) as (H1 & _).
    destruct (render v ++ post ++ c :: q') as [|x t]; [done|]. cbn [skip]. rewrite at_cons in H1. change (is_blank x) with (is_ws x). by rewrite H1.
  - rewrite find_inert by by apply ws_inert. rewrite (proj1 (find_tree key)) by (done || lia || (apply no_colon_ws; [done|destruct Hc; chars..])).
    by rewrite find_inert by by apply ws_inert.
Qed.
Lemma find_members key ms q : members_ok ms -> ws q -> find key (render_ms true ms ++ 125 :: q) 1 = Some (member_text key ms (125 :: q)).
Proof.
  intros Hms Hq. assert (Hend : find key (125 :: q) 1 = Some None).
  { change 125 with (cl true). rewrite find_close. rewrite <- (app_nil_r q). by rewrite find_inert by by apply ws_inert. }
  induction ms as [pre k w1 w2 v post|pre k w1 w2 v post ms IH]; cbn [render_ms member_text members_ok] in *.
  - destruct Hms as (Hpre & [Hk _] & Hw1 & Hw2 & Hv & Hpost). rewrite <- !app_assoc, find_inert by by apply ws_inert.
    rewrite find_member; [|done..|by exists 125, q; auto]. destruct (bytes_eqb k key); [done|apply Hend].
  - destruct Hms as (Hpre & [Hk _] & Hw1 & Hw2 & Hv & Hpost & Hms). rewrite <- !app_assoc, find_inert by by apply ws_inert.
    cbn [app]. rewrite find_member; [|done..|by eexists _, _; auto]. destruct (bytes_eqb k key); [done|].
    etrans; [apply (find_inert key [44]); by repeat constructor|]. by apply IH.
Qed.

(** The parameter lookup is exact on JSON objects: it yields the value of
    the first member of the object itself whose name is the key, and nothing
    when there is none; a name inside a string, or in a nested object or array,
    is never taken for it. *)
Theorem find_key_exact key w ms q : ws w -> members_ok ms -> ws q ->
  json_find_key (w ++ render (T_box true ms) ++ q) key = member_text key ms (125 :: q).
Proof.
  intros Hw Hms Hq. unfold json_find_key. change (default None (find key (w ++ render (T_box true ms) ++ q) 0) = member_text key ms (125 :: q)).
  rewrite find_inert by by apply ws_inert. cbn [render app]. rewrite find_open, <- app_assoc. cbn [app].
  change (cl true) with 125. change (0 + 1) with 1. by rewrite (find_members key ms q Hms Hq).
Qed.
Definition demo_params : members :=
  M_more [] (js "note") [] [32] (T_str (bs "the iterations: 99")) []
  (M_more [32] (js "nested") [] [] (T_box true (M_one [] (bs "iterations") [] [] (T_lit (bs "98")) [])) []
  (M_one [32] (bs "iterations") [] [32] (T_lit (bs "3")) [])).
Lemma find_key_exact_witness : json_find_key (render (T_box true demo_params)) (bs "iterations") = Some (bs "3}").
Proof.
  assert (Hn : forall c, isdigit c = true -> lit_ok [c]).
  { intros c Hc. right; right; right. exists [], [c], [], []. split_and!; [done|by left| |by left|by left]. split; [done|by repeat constructor]. }
  assert (Hms : members_ok demo_params).
  { assert (Hs : forall l, forallb (fun c => (32 <=? c) && negb (c =? 92) && negb (c =? 34)) l = true -> jstr l /\ no_nul l).
    { induction l as [|c l IH]; cbn [forallb]; [split; constructor|]. intros [H1 H2]%andb_true_iff. destruct (IH H2). split; constructor; try done; lia. }
    cbn [demo_params members_ok tree_ok]. split_and!; try (by constructor); try (by apply Hs); try (by repeat constructor); try (by apply Hn).
    right; right; right. exists [], (bs "98"), [], []. split_and!; [done|by left| |by left|by left]. split; [done|by repeat constructor]. }
  pose proof (find_key_exact (bs "iterations") [] demo_params [] ltac:(constructor) Hms ltac:(constructor)) as H.
  rewrite app_nil_r in H. cbn [app] in H. rewrite H. by vm_compute.
Defined.

(** A number with an exponent or a fraction is taken for its integer part:
    a thousand iterations written "1e3" run as one, and the fallback that a
    value which is no integer should leave in place is not used. *)
Theorem exponent_dropped :
  json_get_int (js "{'iterations':1e3}") (bs "iterations") 30 = 1 /\
  json_get_int (js "{'iterations':2.9}") (bs "iterations") 30 = 2.
Proof. split; by vm_compute. Qed.
