(* ===== verification/Search.v ===== *)
(** * Vector search (src/fractalsql.c: fractal_search, _debug, _explore)

    Each body is a function of its arguments, of what the system answers
    during the call and of the session registry; its result comes with the
    calls it made to the core, in order.  The core's search is a parameter. *)

From Stdlib Require Import SpecFloat.
From stdpp Require Import gmap.
From S2P Require Import Prelude Float Parse LedgerFmt AuditJson Params Session Daemon.

Definition SEARCH_MAX_WORK : Z := 2147483648.
Definition MAX_QUERY_BYTES : Z := 4 * 1024 * 1024.
Definition MAX_CORPUS_BYTES : Z := 256 * 1024 * 1024.
Definition MAX_QUERY_DIM : Z := 1024 * 1024.

(** The arguments of [fsql_search_ptr]. *)
Record call := {
  a_ctx : Z; a_corpus : list double; a_rows : nat; a_dim : nat; a_query : list double; a_k : Z; a_params : list Z
}.

(** What the system answers during one call. *)
Record sio := { s_env : env; s_malloc : Z -> bool; s_hook : option fractalsql_interrupt_fn; s_underflow : list Z -> bool }.

Definition len (l : list Z) : Z := Z.of_nat (length l).
(** The bounds on the three tuning knobs, and their product with the dimension. *)
Definition knobs_ok (iterations pop_size diff_factor : Z) : bool :=
  negb ((iterations <? 1) || (10000 <? iterations) || (pop_size <? 2) || (10000 <? pop_size) ||
        (diff_factor <? 1) || (32 <? diff_factor)).
Definition work (iterations pop_size diff_factor : Z) (dim : nat) : Z :=
  u64 (u64 (u64 (iterations * pop_size) * diff_factor) * Z.of_nat dim).

(** ** The core's parameter text, as [snprintf] leaves it in 320 bytes *)

Definition seed_text (seed : option Z) : list Z :=
  match seed with Some s => js ",'seed':" ++ dec_u s | None => dec_u 0 end.
Definition knobs_text (iterations pop_size diff_factor : Z) : list Z :=
  js "{'iterations':" ++ dec_d iterations ++ js ",'population_size':" ++ dec_d pop_size ++
  js ",'diffusion_factor':" ++ dec_d diff_factor ++ js ",'walk':".
Definition bool_text (b : bool) : list Z := if b then bs "true" else bs "false".
Definition search_params (iterations pop_size diff_factor : Z) (walk : double) (debug : bool) (seed : option Z) : list Z :=
  take 319 (knobs_text iterations pop_size diff_factor ++ fmt_g 6 walk ++ js ",'debug':" ++ bool_text debug ++
            seed_text seed ++ js "}").
Definition explore_params (iterations pop_size diff_factor : Z) (walk : double) (seed : option Z) : list Z :=
  take 319 (knobs_text iterations pop_size diff_factor ++ fmt_g 6 walk ++ js ",'return_population':true" ++
            seed_text seed ++ js "}").
Definition debug_params (iterations pop_size diff_factor : Z) (seed : option Z) : list Z :=
  take 319 (knobs_text iterations pop_size diff_factor ++ js "0.5,'no_corpus':true,'debug':true" ++
            seed_text seed ++ js "}").

(** ** The [_init] functions: the context, and the argument types asked for *)

Definition new_sfs_ctx (calloc_ok : bool) (fsql_new_minimal : option Z) : option Z := if calloc_ok then fsql_new_minimal else None.
(** [k]: the constant the caller wrote for k, when it is an integer. *)
Definition fractal_search_init (argc : nat) (k : option Z) (calloc_ok : bool) (minimal : option Z) : option (list Item_result * Z) :=
  if negb (argc =? 4)%nat then None
  else if match k with Some kv => (kv <? 1) || (1000000 <? kv) | None => false end then None
  else c ← new_sfs_ctx calloc_ok minimal; Some ([STRING_RESULT; STRING_RESULT; INT_RESULT; STRING_RESULT], c).
Definition fractal_search_debug_init (argc : nat) (calloc_ok : bool) (minimal : option Z) : option (list Item_result * Z) :=
  if (argc <? 1)%nat || (5 <? argc)%nat then None
  else c ← new_sfs_ctx calloc_ok minimal; Some (STRING_RESULT :: replicate (argc - 1) INT_RESULT, c).
Definition fractal_search_explore_init (argc : nat) (calloc_ok : bool) (minimal : option Z) : option (list Item_result * Z) :=
  if negb (argc =? 3)%nat then None
  else c ← new_sfs_ctx calloc_ok minimal; Some ([STRING_RESULT; STRING_RESULT; STRING_RESULT], c).

Section Bodies.
Context (fsql_search_ptr : call -> Z * list Z).

(** The query vector: its cap, its parse, its dimension. *)
Definition load_query (x : sio) (q : list Z) : option (list double * nat) :=
  if MAX_QUERY_BYTES <? len q then None else
  match parse_vector_csv (s_underflow x) (s_malloc x) (s_hook x) q 0%nat with
  | (inl _, _) => None
  | (inr v, k) => if (length v =? 0)%nat || (MAX_QUERY_DIM <? Z.of_nat (length v)) then None else Some (v, k)
  end.
(** The corpus: none, or as many rows of the query's dimension as it holds. *)
Definition load_corpus (x : sio) (c : option (list Z)) (dim k : nat) : option (list double * nat) :=
  match c with
  | Some c =>
      if (0 <? length c)%nat then
        match parse_corpus (s_underflow x) (s_malloc x) (s_hook x) c dim k with
        | (inl _, _) => None
        | (inr (st, n, d), _) => if (0 <? n)%nat && negb (d =? dim)%nat then None else Some (st, n)
        end
      else Some ([], 0%nat)
  | None => Some ([], 0%nat)
  end.
Definition corpus_fits (c : option (list Z)) : bool := match c with Some c => len c <=? MAX_CORPUS_BYTES | None => true end.

(** The context to search in: the session's, when there is one to be had; the
    call's own; none when the session is busy. *)
Definition pick_ctx (x : sio) (own sid : Z) (r : registry) : registry * option (Z * bool) :=
  if sid =? 0 then (r, Some (own, false)) else
  match fractal_session_acquire_exclusive (s_env x) sid r with
  | (r, Some c, _) => (r, Some (c, true))
  | (r, None, true) => (r, None)
  | (r, None, false) => (r, Some (own, false))
  end.
Definition drop_ctx (use_session : bool) (sid : Z) (r : registry) : registry :=
  if use_session then fractal_session_release_exclusive sid r else r.

(** The core's call and its result: handed out as it is, or copied while the
    session is still held. *)
Definition run_search (x : sio) (use_session : bool) (sid : Z) (c : call) (r : registry) : udf (list Z) * registry * list call :=
  let '(rc, json) := fsql_search_ptr c in
  let r := drop_ctx use_session sid r in
  if negb (rc =? 0) then (UError, r, [c])
  else if use_session && negb (s_malloc x (u64 (len json + 1))) then (UError, r, [c])
  else (UVal json, r, [c]).

Definition params_of (p : option (list Z)) : list Z := default (bs "{}") p.
Definition seed_of (s : list Z) : option Z := if json_has_key s (bs "seed") then Some (json_get_u64 s (bs "seed") 0) else None.

Definition fractal_search (x : sio) (own : Z) (corpus query : option (list Z)) (k : option Z) (params : option (list Z))
    (r : registry) : udf (list Z) * registry * list call :=
  match query, k with
  | Some q, Some kv =>
    if negb (corpus_fits corpus) then (UError, r, []) else
    match load_query x q with
    | None => (UError, r, [])
    | Some (query, n) =>
      let dim := length query in
      match load_corpus x corpus dim n with
      | None => (UError, r, [])
      | Some (corpus, n_corpus) =>
        if (kv <? 1) || (1000000 <? kv) then (UError, r, []) else
        let k := if (0 <? n_corpus)%nat && (Z.of_nat n_corpus <? kv) then Z.of_nat n_corpus else kv in
        let p := params_of params in
        let iterations := json_get_int p (bs "iterations") 30 in
        let pop_size := json_get_int p (bs "population_size") 50 in
        let diff_factor := json_get_int p (bs "diffusion_factor") 2 in
        let walk := json_get_double (s_underflow x) p (bs "walk") (S754_finite false 4503599627370496 (-53)) in
        let debug := json_get_bool p (bs "debug") false in
        let sid := json_get_u64 p (bs "session_id") 0 in
        match pick_ctx x own sid r with
        | (r, None) => (UError, r, [])
        | (r, Some (ctx, use_session)) =>
          if negb (knobs_ok iterations pop_size diff_factor) then (UError, drop_ctx use_session sid r, [])
          else if SEARCH_MAX_WORK <? work iterations pop_size diff_factor dim then (UError, drop_ctx use_session sid r, [])
          else
            run_search x use_session sid
              {| a_ctx := ctx;
                 a_corpus := if (0 <? n_corpus)%nat then corpus else query;
                 a_rows := if (0 <? n_corpus)%nat then n_corpus else 1%nat;
                 a_dim := dim; a_query := query;
                 a_k := if (0 <? n_corpus)%nat then k else 1;
                 a_params := search_params iterations pop_size diff_factor walk debug (seed_of p) |} r
        end
      end
    end
  | _, _ => (UNull, r, [])
  end.

Definition fractal_search_explore (x : sio) (own : Z) (corpus query params : option (list Z))
    (r : registry) : udf (list Z) * registry * list call :=
  match query with
  | None => (UNull, r, [])
  | Some q =>
    if negb (corpus_fits corpus) then (UError, r, []) else
    match load_query x q with
    | None => (UError, r, [])
    | Some (query, n) =>
      let dim := length query in
      match load_corpus x corpus dim n with
      | None => (UError, r, [])
      | Some (corpus, n_corpus) =>
        if (n_corpus =? 0)%nat then (UNull, r, []) else
        let p := params_of params in
        let iterations := json_get_int p (bs "iterations") 15 in
        let pop_size := json_get_int p (bs "population_size") 50 in
        let diff_factor := json_get_int p (bs "diffusion_factor") 2 in
        let walk := json_get_double (s_underflow x) p (bs "walk") (S754_zero false) in
        let sid := json_get_u64 p (bs "session_id") 0 in
        match pick_ctx x own sid r with
        | (r, None) => (UError, r, [])
        | (r, Some (ctx, use_session)) =>
          if negb (knobs_ok iterations pop_size diff_factor) then (UError, drop_ctx use_session sid r, [])
          else
            run_search x use_session sid
              {| a_ctx := ctx; a_corpus := corpus; a_rows := n_corpus; a_dim := dim; a_query := query; a_k := 1;
                 a_params := explore_params iterations pop_size diff_factor walk (seed_of p) |} r
        end
      end
    end
  end.

(** The optional trailing arguments of the debug run, absent or NULL. *)
Definition knob (o : option Z) (dflt : Z) : Z := match o with Some v => clamp_to_int v | None => dflt end.
Definition fractal_search_debug (x : sio) (own : Z) (query : option (list Z)) (iterations pop_size diff_factor seed : option Z)
  : udf (list Z) * list call :=
  match query with
  | None => (UNull, [])
  | Some q =>
    match load_query x q with
    | None => (UError, [])
    | Some (query, _) =>
      let dim := length query in
      let iterations := knob iterations 60 in
      let pop_size := knob pop_size 50 in
      let diff_factor := knob diff_factor 2 in
      let seed := (fun s => if s <? 0 then 0 else u64 s) <$> seed in
      if negb (knobs_ok iterations pop_size diff_factor) then (UError, [])
      else if SEARCH_MAX_WORK <? work iterations pop_size diff_factor dim then (UError, [])
      else
        let c := {| a_ctx := own; a_corpus := query; a_rows := 0%nat; a_dim := dim; a_query := query; a_k := 1;
                    a_params := debug_params iterations pop_size diff_factor seed |} in
        let '(rc, json) := fsql_search_ptr c in
        (if negb (rc =? 0) then UError else UVal json, [c])
    end
  end.
End Bodies.
