(* ===== verification/SearchProofs.v ===== *)
(** * Vector search: what reaches the core, and what is given back *)

From Stdlib Require Import SpecFloat.
From stdpp Require Import gmap.
From S2P Require Import Prelude Float Parse ParseProofs LedgerFmt AuditJson JsonText Params Session Daemon Search.

(** ** The inputs *)

Definition finite_all (l : list double) : Prop := Forall (fun d => isfinite d = true) l.
Lemma load_query_spec x q v k : load_query x q = Some (v, k) ->
  finite_all v /\ (1 <= length v)%nat /\ Z.of_nat (length v) <= MAX_QUERY_DIM.
Proof.
  unfold load_query. destruct (MAX_QUERY_BYTES <? len q); [done|].
  destruct (parse_vector_csv _ _ _ q 0%nat) as [[e|w] k'] eqn:E; [done|]. apply parse_vector_sound in E as (Hn & H0 & Hm).
  apply numbers_finite in Hn. destruct ((length w =? 0)%nat || (MAX_QUERY_DIM <? Z.of_nat (length w))) eqn:Eb; [done|].
  intros. simplify_eq. apply orb_false_iff in Eb as [_ Eb]. split_and!; [done|lia|lia].
Qed.
Lemma load_corpus_spec x c dim k st n : load_corpus x c dim k = Some (st, n) ->
  finite_all st /\ length st = (n * dim)%nat.
Proof.
  assert (H0 : finite_all [] /\ length (@nil double) = (0 * dim)%nat) by (split; [constructor|done]).
  unfold load_corpus. destruct c as [c|]; [|intros; by simplify_eq]. destruct (0 <? length c)%nat; [|intros; by simplify_eq].
  destruct (parse_corpus _ _ _ c dim k) as [[e|[[st' n'] d]] k'] eqn:E; [done|].
  apply corpus_sound in E as (Hl & _ & Hf). destruct ((0 <? n')%nat && negb (d =? dim)%nat) eqn:Eb; [done|].
  intros. simplify_eq. split; [done|]. apply andb_false_iff in Eb as [Eb|Eb].
  - apply Nat.ltb_ge in Eb. rewrite Hl. replace n with 0%nat by lia. done.
  - apply negb_false_iff, Nat.eqb_eq in Eb. by subst.
Qed.

Lemma knobs_spec i p d : knobs_ok i p d = true <-> 1 <= i <= 10000 /\ 2 <= p <= 10000 /\ 1 <= d <= 32.
Proof. unfold knobs_ok. rewrite negb_true_iff, !orb_false_iff, !Z.ltb_ge. lia. Qed.
Lemma work_spec i p d n : knobs_ok i p d = true -> Z.of_nat n <= MAX_QUERY_DIM -> work i p d n = i * p * d * Z.of_nat n.
Proof.
  rewrite knobs_spec. unfold MAX_QUERY_DIM, work. intros (Hi & Hp & Hd) Hn. assert (0 <= i * p <= 10000 * 10000) by nia.
  assert (0 <= i * p * d <= 10000 * 10000 * 32) by nia.
  rewrite (u64_id (i * p)), (u64_id (i * p * d)) by lia. apply u64_id. split; [apply Z.mul_nonneg_nonneg; lia|].
  apply Z.le_lt_trans with (10000 * 10000 * 32 * (1024 * 1024)); [apply Z.mul_le_mono_nonneg; lia|lia].
Qed.

(** ** The session is given back *)

(** The registry moves by the session operations, and every holder is one that
    was there before. *)
Definition keeps (r r' : registry) : Prop := forall P X,
  rtc step {| w_reg := r; w_plain := P; w_excl := X |} {| w_reg := r'; w_plain := P; w_excl := X |}.
Lemma keeps_refl r : keeps r r.
Proof. intros P X. apply rtc_refl. Qed.
Lemma keeps_trans a b c : keeps a b -> keeps b c -> keeps a c.
Proof. intros H1 H2 P X. etrans; [apply H1|apply H2]. Qed.
#[export] Hint Resolve keeps_refl : fsq.

Lemma pick_keeps x own sid r r' o : env_ok (s_env x) r -> pick_ctx x own sid r = (r', o) ->
  keeps r (drop_ctx (match o with Some (_, u) => u | None => false end) sid r').
Proof.
  intros He. unfold pick_ctx. destruct (sid =? 0); [intros; simplify_eq/=; apply keeps_refl|].
  destruct (fractal_session_acquire_exclusive (s_env x) sid r) as [[r1 c] b] eqn:E.
  assert (Hs : forall P X, step {| w_reg := r; w_plain := P; w_excl := X |}
    {| w_reg := r1; w_plain := P; w_excl := match c with Some c => (sid, c) :: X | None => X end |}) by (intros; by eapply S_acquire_exclusive).
  destruct c as [c|]; [intros; simplify_eq/=|destruct b; intros; simplify_eq/=; intros P X; apply rtc_once, Hs].
  intros P X. eapply rtc_l; [apply Hs|]. apply rtc_once. apply (S_release_exclusive sid c _ P [] X).
Qed.

Section Bodies.
Context (fsql_search_ptr : call -> Z * list Z).

Lemma run_search_spec x us sid c r : snd (fst (run_search fsql_search_ptr x us sid c r)) = drop_ctx us sid r /\
  snd (run_search fsql_search_ptr x us sid c r) = [c].
Proof. unfold run_search. destruct (fsql_search_ptr c). by repeat case_match. Qed.

(** Whatever the arguments, a search leaves the session registry with the
    holders it found: on every path, errors included, a session taken for the
    search is given back. *)
Theorem search_returns_session x own corpus query k params r : env_ok (s_env x) r ->
  keeps r (snd (fst (fractal_search fsql_search_ptr x own corpus query k params r))) /\
  keeps r (snd (fst (fractal_search_explore fsql_search_ptr x own corpus query params r))).
Proof.
  intros He. assert (H : forall sid r1 o, pick_ctx x own sid r = (r1, o) -> keeps r (drop_ctx (match o with Some (_, u) => u | None => false end) sid r1))
    by (intros; by eapply pick_keeps).
  unfold fractal_search, fractal_search_explore. split.
  - destruct query as [q|]; [|apply keeps_refl]. destruct k as [kv|]; [|apply keeps_refl].
    destruct (negb (corpus_fits corpus)); [apply keeps_refl|]. destruct (load_query x q) as [[v n]|]; [|apply keeps_refl].
    destruct (load_corpus x corpus (length v) n) as [[st rows]|]; [|apply keeps_refl]. destruct (_ || _); [apply keeps_refl|].
    cbv zeta. destruct (pick_ctx x own _ r) as [r1 [[ctx us]|]] eqn:E; apply H in E; [|done].
    destruct (negb (knobs_ok _ _ _)); [done|]. destruct (SEARCH_MAX_WORK <? _); [done|].
    match goal with |- context [run_search ?f ?x ?u ?s ?c ?r] => pose proof (run_search_spec x u s c r) as [-> _] end. done.
  - destruct query as [q|]; [|apply keeps_refl].
    destruct (negb (corpus_fits corpus)); [apply keeps_refl|]. destruct (load_query x q) as [[v n]|]; [|apply keeps_refl].
    destruct (load_corpus x corpus (length v) n) as [[st rows]|]; [|apply keeps_refl]. destruct (rows =? 0)%nat; [apply keeps_refl|].
    cbv zeta. destruct (pick_ctx x own _ r) as [r1 [[ctx us]|]] eqn:E; apply H in E; [|done].
    destruct (negb (knobs_ok _ _ _)); [done|].
    match goal with |- context [run_search ?f ?x ?u ?s ?c ?r] => pose proof (run_search_spec x u s c r) as [-> _] end. done.
Qed.

(** A call the core can take: finite numbers, arrays of the sizes it is told. *)
Record call_ok (c : call) : Prop := {
  co_dim : length (a_query c) = a_dim c;
  co_pos : (1 <= a_dim c)%nat /\ Z.of_nat (a_dim c) <= MAX_QUERY_DIM;
  co_finite : finite_all (a_query c) /\ finite_all (a_corpus c);
  co_rows : length (a_corpus c) = (a_rows c * a_dim c)%nat /\ (1 <= a_rows c)%nat;
  co_k : 1 <= a_k c <= Z.of_nat (a_rows c) /\ a_k c <= 1000000
}.

(** C13: A search reaches the core at most once, and then with finite vectors of
    one dimension, a corpus of exactly the rows it announces, a k between 1 and
    the number of rows, tuning knobs in their ranges and a total amount of work
    within the bound; the product is compared without wrapping. *)
Theorem search_call_bounded x own corpus query k params r o r' cs :
  fractal_search fsql_search_ptr x own corpus query k params r = (o, r', cs) ->
  cs = [] \/ exists c i p d walk debug seed, cs = [c] /\ call_ok c /\
    1 <= i <= 10000 /\ 2 <= p <= 10000 /\ 1 <= d <= 32 /\ i * p * d * Z.of_nat (a_dim c) <= SEARCH_MAX_WORK /\
    a_params c = search_params i p d walk debug seed.
Proof.
  unfold fractal_search. destruct query as [q|]; [|intros; simplify_eq; by left]. destruct k as [kv|]; [|intros; simplify_eq; by left].
  destruct (negb (corpus_fits corpus)); [intros; simplify_eq; by left|].
  destruct (load_query x q) as [[v n]|] eqn:Eq; [|intros; simplify_eq; by left]. apply load_query_spec in Eq as (Hv & Hd0 & Hd1).
  destruct (load_corpus x corpus (length v) n) as [[st rows]|] eqn:Ec; [|intros; simplify_eq; by left]. apply load_corpus_spec in Ec as (Hst & Hrows).
  destruct ((kv <? 1) || (1000000 <? kv)) eqn:Ek; [intros; simplify_eq; by left|]. apply orb_false_iff in Ek as [Ek1%Z.ltb_ge Ek2%Z.ltb_ge].
  cbv zeta. destruct (pick_ctx x own _ r) as [r1 [[ctx us]|]]; [|intros; simplify_eq; by left].
  destruct (knobs_ok _ _ _) eqn:Eb; cbn [negb]; [|intros; simplify_eq; by left].
  rewrite work_spec by done. destruct (SEARCH_MAX_WORK <? _) eqn:Ew; [intros; simplify_eq; by left|]. apply Z.ltb_ge in Ew.
  match goal with |- run_search ?f ?x ?u ?s ?c ?r = _ -> _ => pose proof (run_search_spec x u s c r) as [_ Hr]; set (call := c) in * end.
  intros E. rewrite E in Hr. cbn [snd] in Hr. subst cs. apply knobs_spec in Eb as (Hi & Hp & Hd). right.
  eexists call, _, _, _, _, _, _. split; [done|]. split; [|split_and!; [apply Hi|apply Hi|apply Hp|apply Hp|apply Hd|apply Hd|exact Ew|done]].
  destruct (0 <? rows)%nat eqn:E0; cbn [andb] in call; (constructor; subst call; cbn [a_ctx a_corpus a_rows a_dim a_query a_k a_params];
    [done|split; [lia|done]|split; done|split; [lia|try (apply Nat.ltb_lt in E0); lia]|]).
  - apply Nat.ltb_lt in E0. destruct (Z.ltb_spec (Z.of_nat rows) kv); lia.
  - lia.
Qed.
End Bodies.

(** ** The parameter text *)

(** Every piece of the text but its end, as an object's members. *)
Lemma knobs_members i p d rest : knobs_text i p d ++ rest =
  123 :: member (bs "iterations") (dec_d i) ++ 44 :: member (bs "population_size") (dec_d p) ++ 44 ::
  member (bs "diffusion_factor") (dec_d d) ++ 44 :: (34 :: bs "walk" ++ [34]) ++ 58 :: rest.
Proof. unfold knobs_text, member. rewrite <- !app_assoc. reflexivity. Qed.
Lemma dec_d_short n : 1 <= n <= 10000 -> (length (dec_d n) <= 5)%nat.
Proof.
  intros H. unfold dec_d. rewrite (proj2 (Z.ltb_ge _ _)) by lia. apply dec_u_length; [|lia]. change (Z.of_nat 5) with 5. lia.
Qed.

(** With a seed, the text handed to the core is one JSON object, for every
    knob in range, every walk and every 64-bit seed, and 320 bytes hold it. *)
Theorem seeded_params_well_formed i p d walk debug seed :
  1 <= i <= 10000 -> 2 <= p <= 10000 -> 1 <= d <= 32 -> valid64 walk = true -> isfinite walk = true -> 0 <= seed < 2 ^ 64 ->
  doc 1 (search_params i p d walk debug (Some seed)).
Proof.
  intros Hi Hp Hd Hv Hf Hs. unfold search_params. rewrite take_ge.
  - rewrite knobs_members. apply doc_value.
    assert (E : js ",'debug':" ++ bool_text debug ++ seed_text (Some seed) ++ js "}" =
      44 :: member (bs "debug") (bool_text debug) ++ 44 :: member (bs "seed") (dec_u seed) ++ [125])
      by (unfold seed_text, member; rewrite <- !app_assoc; by destruct debug).
    rewrite E. clear E.
    assert (E : forall A B C D F G, 123 :: A ++ 44 :: B ++ 44 :: C ++ 44 :: (34 :: bs "walk" ++ [34]) ++ 58 :: D ++ 44 :: F ++ 44 :: G ++ [125] =
      123 :: (A ++ 44 :: B ++ 44 :: C ++ 44 :: member (bs "walk") D ++ 44 :: F ++ 44 :: G) ++ [125]).
    { intros. unfold member. by rewrite <- !app_assoc; cbn; rewrite <- !app_assoc; cbn; rewrite <- !app_assoc; cbn; rewrite <- !app_assoc; cbn; rewrite <- !app_assoc. }
    rewrite E. apply obj_value. repeat (apply members_items; [by apply plain_jstr|apply V_num, dec_d_num|]).
    apply members_items; [by apply plain_jstr|apply V_num; by apply fmt_g_num; [lia|]|].
    apply members_items; [by apply plain_jstr|destruct debug; [apply (V_lit _ 116)|apply (V_lit _ 102)]; reflexivity|].
    apply member_items; [by apply plain_jstr|apply V_num, dec_u_num].
  - pose proof (dec_d_short i Hi). pose proof (dec_d_short p ltac:(lia)). pose proof (dec_d_short d ltac:(lia)).
    pose proof (fmt_g_length 6 walk ltac:(lia) (valid64_range _ Hv)). assert (length (dec_u seed) <= 20)%nat by (apply dec_u_length; [change (Z.of_nat 20) with 20|]; lia).
    unfold knobs_text, seed_text. rewrite !length_app. change (length (js ",'seed':")) with 8%nat. change (length (js ",'debug':")) with 9%nat.
    change (length (js "{'iterations':")) with 14%nat. change (length (js ",'population_size':")) with 19%nat.
    change (length (js ",'diffusion_factor':")) with 20%nat. change (length (js ",'walk':")) with 8%nat. change (length (js "}")) with 1%nat.
    assert (length (bool_text debug) <= 5)%nat by (destruct debug; cbn; lia). lia.
Qed.

(** ** Runs *)

Definition demo_search : call -> Z * list Z := fun c => (0, js "{}").
Definition demo_sio : sio := {| s_env := demo_env 7; s_malloc := fun _ => true; s_hook := None; s_underflow := fun _ => false |}.
Definition gate (s : list Z) : option bool := ent_json_well_formed (replicate 64 0) (replicate 65 ST_EMPTY) s.

Definition gates (cs : list call) : list (option bool) := map (fun c => gate (a_params c)) cs.

Lemma seeded_params_well_formed_witness : doc 1 (search_params 30 50 2 (S754_finite false 4503599627370496 (-53)) false (Some 42)).
Proof. apply (seeded_params_well_formed 30 50 2 (S754_finite false 4503599627370496 (-53)) false 42); [lia|lia|lia|reflexivity|reflexivity|lia]. Defined.

(** Without a seed the text is not JSON: the digit that should follow the
    seed's name is printed all the same, behind the last member ("false0}").
    Every search, scout or convergence run without a seed hands the core such
    a text; with the seed of 0 written out, the same search's is well formed. *)
Theorem seedless_params_malformed :
  map a_params (snd (fractal_search demo_search demo_sio 1 None (Some (bs "1,2")) (Some 1) None empty_registry)) =
    [js "{'iterations':30,'population_size':50,'diffusion_factor':2,'walk':0.5,'debug':false0}"] /\
  gates (snd (fractal_search demo_search demo_sio 1 None (Some (bs "1,2")) (Some 1) None empty_registry)) = [Some false] /\
  gates (snd (fractal_search_explore demo_search demo_sio 1 (Some (bs "3,4")) (Some (bs "1,2")) None empty_registry)) = [Some false] /\
  gates (snd (fractal_search_debug demo_search demo_sio 1 (Some (bs "1,2")) None None None None)) = [Some false] /\
  gates (snd (fractal_search demo_search demo_sio 1 None (Some (bs "1,2")) (Some 1) (Some (js "{'seed':0}")) empty_registry)) = [Some true].
Proof. split_and!; vm_compute; reflexivity. Qed.

(** The bound on the total work is not applied to the scout search: a
    request the ordinary search refuses as too large is passed to the core. *)
Theorem explore_work_unbounded :
  let p := js "{'iterations':10000,'population_size':10000,'diffusion_factor':32}" in
  SEARCH_MAX_WORK < work 10000 10000 32 2 /\
  snd (fractal_search demo_search demo_sio 1 (Some (bs "3,4")) (Some (bs "1,2")) (Some 1) (Some p) empty_registry) = [] /\
  length (snd (fractal_search_explore demo_search demo_sio 1 (Some (bs "3,4")) (Some (bs "1,2")) (Some p) empty_registry)) = 1%nat.
Proof. split_and!; vm_compute; reflexivity. Qed.

Lemma search_call_bounded_witness : exists c r' i p d walk debug seed,
  fractal_search demo_search demo_sio 1 (Some (bs "3,4;5,6")) (Some (bs "1,2")) (Some 9) (Some (js "{'session_id':5,'seed':1}")) empty_registry = (UVal (js "{}"), r', [c]) /\
  call_ok c /\ i * p * d * Z.of_nat (a_dim c) <= SEARCH_MAX_WORK /\ a_params c = search_params i p d walk debug seed.
Proof.
  destruct (fractal_search demo_search demo_sio 1 (Some (bs "3,4;5,6")) (Some (bs "1,2")) (Some 9) (Some (js "{'session_id':5,'seed':1}")) empty_registry)
    as [[o r'] cs] eqn:E.
  destruct (search_call_bounded demo_search demo_sio 1 (Some (bs "3,4;5,6")) (Some (bs "1,2")) (Some 9) (Some (js "{'session_id':5,'seed':1}")) empty_registry o r' cs E)
    as [->|(c & i & p & d & walk & debug & seed & -> & Hc & _ & _ & _ & Hw & Hp)].
  - exfalso. apply (f_equal (fun x => length (snd x))) in E. vm_compute in E. discriminate E.
  - exists c, r', i, p, d, walk, debug, seed. split; [|split; [exact Hc|split; [exact Hw|exact Hp]]].
    assert (o = UVal (js "{}")) as ->; [|reflexivity].
    apply (f_equal (fun x => fst (fst x))) in E. cbn [fst] in E. rewrite <- E. vm_compute. reflexivity.
Defined.
Lemma search_returns_session_witness : env_ok (demo_env 7) empty_registry /\
  keeps empty_registry (snd (fst (fractal_search demo_search demo_sio 1 None (Some (bs "1,2")) (Some 1) (Some (js "{'session_id':5}")) empty_registry))).
Proof.
  assert (He : env_ok (demo_env 7) empty_registry) by (intros c Hc; split; [apply not_elem_of_nil|intros id e He; by vm_compute in He]).
  split; [exact He|].
  exact (proj1 (search_returns_session demo_search demo_sio 1 None (Some (bs "1,2")) (Some 1) (Some (js "{'session_id':5}")) empty_registry He)).
Defined.
