(* ===== verification/Vector.v ===== *)
(** * The vector functions (src/fractalsql_vector.c)

    A vector is its floats; an argument is its bytes.  The arithmetic is the
    core's and a parameter; what is modelled is everything around it: the two
    text forms and the canonical one, the caps, the dimension checks, the
    buffers.  Each body yields its result and the capacity of its buffer. *)

From Stdlib Require Import SpecFloat.
From S2P Require Import Prelude Float Parse LedgerFmt AuditJson JsonOut Session Daemon Search.

Definition FSQL_VECTOR_MAX_BYTES : Z := 4 * 1024 * 1024.
Definition FSQL_VEC_MAX_DIM : Z := 32767.
Definition FSQL_VEC_HDRSZ : Z := 4.

(** ** The canonical form *)

Definition le16_put (v : Z) : list Z := [Z.land v 255; Z.land (Z.shiftr v 8) 255].
Definition le16_get (p : list Z) : Z := u16 (Z.lor (at_ p 0) (Z.shiftl (at_ p 1) 8)).
Definition swap32 (b : Z) : Z :=
  Z.lor (Z.lor (Z.shiftl (Z.land b 255) 24) (Z.shiftl (Z.land b 65280) 8))
        (Z.lor (Z.shiftr (Z.land b 16711680) 8) (Z.shiftr (Z.land b 4278190080) 24)).

(** [host_is_little_endian], a fact about the machine. *)
Section Canonical.
Context (host_le : bool).
Context (malloc : Z -> bool).

Definition le_float_put (f : float) : list Z :=
  let bits := float_bits f in
  let bits := if host_le then bits else swap32 bits in
  [Z.land bits 255; Z.land (Z.shiftr bits 8) 255; Z.land (Z.shiftr bits 16) 255; Z.land (Z.shiftr bits 24) 255].
Definition le_float_get (p : list Z) : float :=
  let bits := Z.lor (Z.lor (at_ p 0) (Z.shiftl (at_ p 1) 8)) (Z.lor (Z.shiftl (at_ p 2) 16) (Z.shiftl (at_ p 3) 24)) in
  bits_float (if host_le then bits else swap32 bits).

Definition hex_nibble (c : Z) : option Z := hexval c.
(** The bytes of a text of hex digits; [None] at the first other character. *)
Fixpoint hex_bytes (s : list Z) : option (list Z) :=
  match s with
  | a :: b :: r =>
      match hex_nibble a, hex_nibble b with
      | Some hi, Some lo => v ← hex_bytes r; Some (u8 (Z.lor (Z.shiftl hi 4) lo) :: v)
      | _, _ => None
      end
  | _ => Some []
  end.
(** The payload, refused at the first element that is not finite. *)
Fixpoint payload (n : nat) (p : list Z) : option (list float) :=
  match n with
  | O => Some []
  | S n => let f := le_float_get p in if isfinite f then v ← payload n (drop 4 p); Some (f :: v) else None
  end.
Definition decode_canonical_hex (s : list Z) : option (list float) :=
  if (len s =? 0) || negb (len s mod 2 =? 0) then None else
  let nbytes := len s / 2 in
  if nbytes <? FSQL_VEC_HDRSZ then None
  else if negb (malloc nbytes) then None
  else
    b ← hex_bytes s;
    let dim := le16_get b in
    if (dim <? 1) || (FSQL_VEC_MAX_DIM <? dim) || negb (le16_get (drop 2 b) =? 0) || negb (nbytes =? FSQL_VEC_HDRSZ + dim * 4) then None
    else if negb (malloc (dim * 4)) then None
    else payload (Z.to_nat dim) (drop 4 b).
Definition looks_like_canonical_hex (s : list Z) : bool :=
  if (len s <? FSQL_VEC_HDRSZ * 2) || negb (len s mod 2 =? 0) then false
  else forallb (fun c => match hex_nibble c with Some _ => true | None => false end) s.
Definition canonical_hex_shape (slen : Z) : bool := (16 <=? slen) && (slen mod 8 =? 0).

(** The text, and the buffer's capacity after. *)
Definition hex_text (l : list Z) : list Z := flat_map (fun b => [hexd (Z.land (Z.shiftr b 4) 15); hexd (Z.land b 15)]) l.
Definition format_canonical_hex (cap : Z) (v : list float) : option (list Z) * Z :=
  let dim := Z.of_nat (length v) in
  if (dim <? 1) || (FSQL_VEC_MAX_DIM <? dim) then (None, cap) else
  let '(ok, cap) := json_out_ensure malloc cap ((FSQL_VEC_HDRSZ + dim * 4) * 2 + 1) in
  if negb ok then (None, cap)
  else (Some (hex_text (le16_put dim ++ le16_put 0 ++ flat_map le_float_put v)), cap).
End Canonical.

(** ** The text form *)

(** Brackets around the elements, "%.9g" each. *)
Definition format_vector_json (malloc : Z -> bool) (cap : Z) (v : list float) : option (list Z) * Z :=
  let '(ok, cap) := json_out_ensure malloc cap (Z.of_nat (length v) * 32 + 8) in
  if negb ok then (None, cap) else
  (* the comma is written, the number printed in the room left behind it *)
  match fold_left (fun acc x => match acc with
                   | None => None
                   | Some (i, t) => let t := if (0 <? i)%nat then t ++ [44] else t in
                                    match emit cap t (fmt_g 9 x) with Some t => Some (S i, t) | None => None end
                   end) v (Some (0%nat, [91])) with
  | Some (_, t) => (Some (t ++ [93]), cap)
  | None => (None, cap)
  end.

Section Bodies.
Context (host_le : bool).

(** What the core computes: return codes with results. *)
Inductive vec_binop := V_add | V_sub.
Inductive vec_dist := V_l2 | V_l2_sq | V_cosine_distance | V_cosine_similarity | V_dot.
Context (core_norm : list float -> Z * float).
Context (core_normalize : list float -> Z * list float).
Context (core_scale : list float -> float -> Z * list float).
Context (core_binop : vec_binop -> list float -> list float -> Z * list float).
Context (core_dist : vec_dist -> list float -> list float -> Z * float).
Context (core_lp : list float -> list float -> float -> Z * float).
Context (core_int8 : list float -> Z * (list Z * float)).
Context (core_binary : list float -> Z * list Z).
Context (core_hamming : list Z -> list Z -> Z * Z).

(** ** Loading *)

Section Load.
Context (x : sio).
Abbreviation mem := (s_malloc x).
Abbreviation parse := (parse_vector_csv (s_underflow x) (s_malloc x) (s_hook x)).

Definition load_vector (s : list Z) (k : nat) : option (list float) * nat :=
  match (if looks_like_canonical_hex s then
           match decode_canonical_hex host_le mem s with
           | Some v => Some (Some v)
           | None => if canonical_hex_shape (len s) then Some None else None
           end
         else None) with
  | Some r => (r, k)
  | None =>
    match parse s k with
    | (inl _, k) => (None, k)
    | (inr dv, k) =>
      if FSQL_VEC_MAX_DIM <? Z.of_nat (length dv) then (None, k)
      else if negb (mem (Z.of_nat (length dv) * 4)) then (None, k)
      else let fv := map to_float dv in if forallb isfinite fv then (Some fv, k) else (None, k)
    end
  end.
Definition load_pair (a b : list Z) : option (list float * list float) :=
  match load_vector a 0%nat with
  | (None, _) => None
  | (Some va, k) =>
    match load_vector b k with
    | (None, _) => None
    | (Some vb, _) => if (length va =? length vb)%nat then Some (va, vb) else None
    end
  end.
Definition compute_pair_scalar (fn : list float -> list float -> Z * float) (a b : list Z) : option double :=
  '(va, vb) ← load_pair a b;
  let '(rc, r) := fn va vb in if negb (rc =? FSQL_OK) then None else Some (to_double r).

(** The loader under the argument's cap. *)
Definition load_arg (a : list Z) : option (list float) :=
  if FSQL_VECTOR_MAX_BYTES <? len a then None else fst (load_vector a 0%nat).
Definition pair_fits (a b : list Z) : bool := negb ((FSQL_VECTOR_MAX_BYTES <? len a) || (FSQL_VECTOR_MAX_BYTES <? len b)).

(** ** The bodies *)

Definition of_opt {A} (o : option A) : udf A := match o with Some a => UVal a | None => UError end.
(** A vector result: the core's code, then the text. *)
Definition text_of (cap : Z) (r : Z * list float) : udf (list Z) * Z :=
  let '(rc, out) := r in
  if negb (rc =? FSQL_OK) then (UError, cap) else
  let '(t, cap) := format_vector_json mem cap out in (of_opt t, cap).

Definition fractal_vector_dims (a : option (list Z)) : udf Z :=
  match a with
  | None => UNull
  | Some a => match load_arg a with None => UError | Some v => UVal (Z.of_nat (length v)) end
  end.
Definition fractal_vector_norm (a : option (list Z)) : udf double :=
  match a with
  | None => UNull
  | Some a =>
    match load_arg a with
    | None => UError
    | Some v => let '(rc, r) := core_norm v in if negb (rc =? FSQL_OK) then UError else UVal (to_double r)
    end
  end.
Definition fractal_vector_normalize (a : option (list Z)) (cap : Z) : udf (list Z) * Z :=
  match a with
  | None => (UNull, cap)
  | Some a =>
    match load_arg a with
    | None => (UError, cap)
    | Some v => if negb (mem (Z.of_nat (length v) * 4)) then (UError, cap) else text_of cap (core_normalize v)
    end
  end.
(** FRACTAL_VECTOR_BINOP *)
Definition vector_binop (op : vec_binop) (a b : option (list Z)) (cap : Z) : udf (list Z) * Z :=
  match a, b with
  | Some a, Some b =>
    if negb (pair_fits a b) then (UError, cap) else
    match load_pair a b with
    | None => (UError, cap)
    | Some (va, vb) => if negb (mem (Z.of_nat (length va) * 4)) then (UError, cap) else text_of cap (core_binop op va vb)
    end
  | _, _ => (UNull, cap)
  end.
Definition fractal_vector_add := vector_binop V_add.
Definition fractal_vector_sub := vector_binop V_sub.
Definition fractal_vector_scale (a : option (list Z)) (scalar : option double) (cap : Z) : udf (list Z) * Z :=
  match a, scalar with
  | Some a, Some s =>
    match load_arg a with
    | None => (UError, cap)
    | Some v => if negb (mem (Z.of_nat (length v) * 4)) then (UError, cap) else text_of cap (core_scale v (to_float s))
    end
  | _, _ => (UNull, cap)
  end.
(** FRACTAL_VECTOR_DISTANCE *)
Definition vector_distance (op : vec_dist) (a b : option (list Z)) : udf double :=
  match a, b with
  | Some a, Some b => if negb (pair_fits a b) then UError else of_opt (compute_pair_scalar (core_dist op) a b)
  | _, _ => UNull
  end.
Definition fractal_vector_l2_distance := vector_distance V_l2.
Definition fractal_vector_l2_squared := vector_distance V_l2_sq.
Definition fractal_vector_cosine_distance := vector_distance V_cosine_distance.
Definition fractal_vector_cosine_similarity := vector_distance V_cosine_similarity.
Definition fractal_vector_negative_inner_product (a b : option (list Z)) : udf double :=
  match vector_distance V_dot a b with UVal d => UVal (d_opp d) | r => r end.
(** FRACTAL_VECTOR_CANONICALIZE, and fractal_vector_to_json after it *)
Definition vector_canonicalize (a : option (list Z)) (cap : Z) : udf (list Z) * Z :=
  match a with
  | None => (UNull, cap)
  | Some a => match load_arg a with None => (UError, cap) | Some v => text_of cap (FSQL_OK, v) end
  end.
Definition fractal_vector_from_float8_array := vector_canonicalize.
Definition fractal_vector_to_float8_array := vector_canonicalize.
Definition fractal_vector_to_json := vector_canonicalize.

Definition fractal_vector (dim : option Z) (cap : Z) : udf (list Z) * Z :=
  match dim with
  | None => (UNull, cap)
  | Some dim =>
    if (dim <? 1) || (FSQL_VEC_MAX_DIM <? dim) then (UError, cap)
    else if negb (mem (dim * 4)) then (UError, cap)
    else let '(t, cap) := format_canonical_hex host_le mem cap (replicate (Z.to_nat dim) (S754_zero false)) in (of_opt t, cap)
  end.
Definition fractal_vector_from_text (a : option (list Z)) (cap : Z) : udf (list Z) * Z :=
  match a with
  | None => (UNull, cap)
  | Some a =>
    match load_arg a with
    | None => (UError, cap)
    | Some v => let '(t, cap) := format_canonical_hex host_le mem cap v in (of_opt t, cap)
    end
  end.

Definition fractal_vector_lp_distance (a b : option (list Z)) (p : option double) : udf double :=
  match a, b, p with
  | Some a, Some b, Some p =>
    if negb (pair_fits a b) then UError
    else if negb (isfinite p) || fleb p (S754_zero false) then UError
    else
      match load_pair a b with
      | None => UError
      | Some (va, vb) => let '(rc, r) := core_lp va vb (to_float p) in if negb (rc =? FSQL_OK) then UError else UVal (to_double r)
      end
  | _, _, _ => UNull
  end.

Definition fractal_vector_quantize_int8 (a : option (list Z)) (cap : Z) : udf (list Z) * Z :=
  match a with
  | None => (UNull, cap)
  | Some a =>
    match load_arg a with
    | None => (UError, cap)
    | Some v =>
      let dim := Z.of_nat (length v) in
      if negb (mem (if 0 <? dim then dim else 1)) then (UError, cap) else
      let '(rc, (out, scale)) := core_int8 v in
      if negb (rc =? FSQL_OK) then (UError, cap) else
      let '(ok, cap) := json_out_ensure mem cap (dim * 8 + 32) in
      if negb ok then (UError, cap) else
      match (t ← emit cap [] (js "{'scale':" ++ fmt_g 10 scale ++ js ",'values':["); emit_all cap dec_d true t out) with
      | None => (UError, cap)
      | Some t =>
        let '(ok, cap) := json_out_ensure mem cap (len t + 4) in
        if negb ok then (UError, cap) else (UVal (t ++ bs "]}"), cap)
      end
    end
  end.
Definition fractal_vector_quantize_binary (a : option (list Z)) (cap : Z) : udf (list Z) * Z :=
  match a with
  | None => (UNull, cap)
  | Some a =>
    match load_arg a with
    | None => (UError, cap)
    | Some v =>
      let n_bytes := (Z.of_nat (length v) + 7) / 8 in
      if negb (mem (if 0 <? n_bytes then n_bytes else 1)) then (UError, cap) else
      let '(rc, out) := core_binary v in
      if negb (rc =? FSQL_OK) then (UError, cap) else
      let '(ok, cap) := json_out_ensure mem cap (n_bytes * 4 + 4) in
      if negb ok then (UError, cap) else
      match emit_all cap dec_u true [91] out with
      | None => (UError, cap)
      | Some t => (UVal (t ++ [93]), cap)
      end
    end
  end.

(** A byte of an array written as numbers. *)
Definition byte_of (d : double) : option Z :=
  if fltb d (S754_zero false) || fltb (of_int 255) d then None else
  match trunc d with
  | Some n => if feqb d (of_int n) then Some n else None
  | None => None
  end.
Definition parse_byte_array (s : list Z) (k : nat) : option (list Z) * nat :=
  match parse s k with
  | (inl _, k) => (None, k)
  | (inr dv, k) =>
    if negb (mem (if (0 <? length dv)%nat then Z.of_nat (length dv) else 1)) then (None, k)
    else (mapM byte_of dv, k)
  end.
Definition fractal_vector_hamming_distance (a b : option (list Z)) : udf Z :=
  match a, b with
  | Some a, Some b =>
    if negb (pair_fits a b) then UError else
    match parse_byte_array a 0%nat with
    | (None, _) => UError
    | (Some ba, k) =>
      match parse_byte_array b k with
      | (None, _) => UError
      | (Some bb, _) =>
        if negb (length ba =? length bb)%nat then UError else
        let '(rc, n) := core_hamming ba bb in if negb (rc =? FSQL_OK) then UError else UVal n
      end
    end
  | _, _ => UNull
  end.
End Load.
End Bodies.

(** The [_init] functions: the argument types asked for, and the buffer of
    those that return a text. *)
Definition json_out_generic_init (calloc_ok : bool) (types : list Item_result) : option (list Item_result) :=
  if calloc_ok then Some types else None.
Definition vec_init (types : list Item_result) (text : bool) (argc : nat) (calloc_ok : bool) : option (list Item_result) :=
  if negb (argc =? length types)%nat then None
  else if text then json_out_generic_init calloc_ok types else Some types.
Definition fractal_vector_dims_init := vec_init [STRING_RESULT] false.
Definition fractal_vector_norm_init := vec_init [STRING_RESULT] false.
Definition fractal_vector_normalize_init := vec_init [STRING_RESULT] true.
Definition fractal_vector_scale_init := vec_init [STRING_RESULT; REAL_RESULT] true.
Definition fractal_vector_negative_inner_product_init := vec_init [STRING_RESULT; STRING_RESULT] false.
Definition fractal_vector_init := vec_init [INT_RESULT] true.
Definition fractal_vector_from_text_init := vec_init [STRING_RESULT] true.
Definition fractal_vector_to_json_init := vec_init [STRING_RESULT] true.
Definition fractal_vector_lp_distance_init := vec_init [STRING_RESULT; STRING_RESULT; REAL_RESULT] false.
Definition fractal_vector_quantize_int8_init := vec_init [STRING_RESULT] true.
Definition fractal_vector_quantize_binary_init := vec_init [STRING_RESULT] true.
Definition fractal_vector_hamming_distance_init := vec_init [STRING_RESULT; STRING_RESULT] false.
Definition vector_binop_init := vec_init [STRING_RESULT; STRING_RESULT] true.
Definition vector_distance_init := vec_init [STRING_RESULT; STRING_RESULT] false.
Definition vector_canonicalize_init := vec_init [STRING_RESULT] true.
