(* ===== verification/VectorProofs.v ===== *)
(** * The vector functions: the two forms and the bounds *)

From Stdlib Require Import SpecFloat.
From stdpp Require Import gmap.
From S2P Require Import Prelude Float FloatValid Parse ParseProofs LedgerFmt HeadProofs AuditJson JsonOut JsonText Session Daemon Search SearchProofs Vector.

(** ** The bytes of an element *)

Lemma land_field b n : 0 <= n -> Z.land b (Z.shiftl 255 n) = Z.shiftl (Z.land (Z.shiftr b n) 255) n.
Proof.
  intros Hn. apply Z.bits_inj'. intros i Hi. rewrite Z.land_spec, !Z.shiftl_spec, Z.land_spec by done.
  destruct (Z.ltb_spec i n).
  - rewrite !(Z.testbit_neg_r _ (i - n)) by lia. by rewrite !andb_false_r.
  - rewrite Z.shiftr_spec by lia. by replace (i - n + n) with i by lia.
Qed.
Lemma land_255 b : Z.land b 255 = b mod 256.
Proof. by apply (Z.land_ones b 8). Qed.
(** Four bytes put together by shifts. *)
Lemma lor4 a b c d : byte_ok a -> byte_ok b -> byte_ok c -> byte_ok d ->
  Z.lor (Z.lor a (Z.shiftl b 8)) (Z.lor (Z.shiftl c 16) (Z.shiftl d 24)) = a + 256 * b + 65536 * c + 16777216 * d.
Proof.
  unfold byte_ok. intros. replace (Z.lor (Z.shiftl c 16) (Z.shiftl d 24)) with (Z.shiftl (Z.lor c (Z.shiftl d 8)) 16)
    by (rewrite Z.shiftl_lor, Z.shiftl_shiftl by lia; done).
  rewrite (lor_shiftl_add a b 8), (lor_shiftl_add c d 8), lor_shiftl_add by lia. lia.
Qed.
Definition word (l : list Z) : Z := le_val (take 4 l).
Lemma bytes4 b : 0 <= b < 2 ^ 32 ->
  b = b mod 256 + 256 * (b / 2 ^ 8 mod 256) + 65536 * (b / 2 ^ 16 mod 256) + 16777216 * (b / 2 ^ 24 mod 256).
Proof.
  intros Hb. rewrite (Z.mod_small (b / 2 ^ 24)) by (split; [apply Z.div_pos; lia|apply Z.div_lt_upper_bound; lia]).
  pose proof (Z.div_mod b 256). pose proof (Z.div_mod (b / 256) 256). pose proof (Z.div_mod (b / 2 ^ 16) 256).
  rewrite Z.div_div in * by lia. change (256 * 256) with (2 ^ 16) in *. change (2 ^ 16 * 256) with (2 ^ 24) in *. change (2 ^ 8) with 256. lia.
Qed.
Lemma byte_mod b : byte_ok (b mod 256).
Proof. apply Z.mod_pos_bound. lia. Qed.
#[local] Hint Resolve byte_mod : core.

Lemma swap32_sum b : 0 <= b < 2 ^ 32 ->
  swap32 b = (b / 2 ^ 24 mod 256) + 256 * (b / 2 ^ 16 mod 256) + 65536 * (b / 2 ^ 8 mod 256) + 16777216 * (b mod 256).
Proof.
  intros Hb. unfold swap32. change 65280 with (Z.shiftl 255 8). change 16711680 with (Z.shiftl 255 16). change 4278190080 with (Z.shiftl 255 24).
  rewrite !land_field, !land_255 by lia. rewrite !Z.shiftr_shiftl_l by lia. rewrite (Z.shiftl_shiftl _ 8 8) by lia.
  change (8 + 8) with 16. change (24 - 24) with 0. change (16 - 8) with 8. rewrite Z.shiftl_0_r, !Z.shiftr_div_pow2 by lia.
  rewrite <- lor4 by auto. rewrite Z.lor_comm. f_equal; [by rewrite Z.lor_comm|by rewrite Z.lor_comm].
Qed.
(** A word cut into its bytes. *)
Lemma word_bytes a b c d : byte_ok a -> byte_ok b -> byte_ok c -> byte_ok d ->
  let w := a + 256 * b + 65536 * c + 16777216 * d in
  0 <= w < 2 ^ 32 /\ w mod 256 = a /\ w / 2 ^ 8 mod 256 = b /\ w / 2 ^ 16 mod 256 = c /\ w / 2 ^ 24 mod 256 = d.
Proof.
  unfold byte_ok. intros Ha Hb Hc Hd. cbv zeta. split; [lia|].
  assert (E1 : (a + 256 * b + 65536 * c + 16777216 * d) / 2 ^ 8 = b + 256 * c + 65536 * d)
    by (symmetry; apply (Z.div_unique _ _ _ a); lia).
  assert (E2 : (a + 256 * b + 65536 * c + 16777216 * d) / 2 ^ 16 = c + 256 * d)
    by (symmetry; apply (Z.div_unique _ _ _ (a + 256 * b)); lia).
  assert (E3 : (a + 256 * b + 65536 * c + 16777216 * d) / 2 ^ 24 = d)
    by (symmetry; apply (Z.div_unique _ _ _ (a + 256 * b + 65536 * c)); lia).
  rewrite E1, E2, E3. split_and!; symmetry.
  - apply (Z.mod_unique _ _ (b + 256 * c + 65536 * d)); lia.
  - apply (Z.mod_unique _ _ (c + 256 * d)); lia.
  - apply (Z.mod_unique _ _ d); lia.
  - apply (Z.mod_unique _ _ 0); lia.
Qed.
Lemma swap32_range b : 0 <= b < 2 ^ 32 -> 0 <= swap32 b < 2 ^ 32.
Proof. intros Hb. rewrite swap32_sum by done. apply word_bytes; auto. Qed.
Lemma swap32_involutive b : 0 <= b < 2 ^ 32 -> swap32 (swap32 b) = b.
Proof.
  intros Hb. rewrite (swap32_sum (swap32 b)) by by apply swap32_range. rewrite (swap32_sum b Hb).
  destruct (word_bytes (b / 2 ^ 24 mod 256) (b / 2 ^ 16 mod 256) (b / 2 ^ 8 mod 256) (b mod 256)) as (_ & -> & -> & -> & ->); auto.
  symmetry. by apply bytes4.
Qed.

(** What is put is got back, on either kind of host. *)
Definition host_bits (host_le : bool) (b : Z) : Z := if host_le then b else swap32 b.
Lemma host_bits_range h b : 0 <= b < 2 ^ 32 -> 0 <= host_bits h b < 2 ^ 32.
Proof. destruct h; [done|apply swap32_range]. Qed.
Lemma le_float_put_bytes h f : valid32 f = true -> exists a b c d,
  le_float_put h f = [a; b; c; d] /\ (byte_ok a /\ byte_ok b /\ byte_ok c /\ byte_ok d) /\
  a + 256 * b + 65536 * c + 16777216 * d = host_bits h (float_bits f).
Proof.
  intros Hv. apply float_bits_range, (host_bits_range h) in Hv. unfold le_float_put. fold (host_bits h (float_bits f)).
  set (w := host_bits h (float_bits f)) in *. clearbody w. rewrite !land_255, !Z.shiftr_div_pow2 by lia.
  eexists _, _, _, _. split; [done|]. split; [auto|]. symmetry. by apply bytes4.
Qed.
Lemma le_float_get_bytes h a b c d r : byte_ok a -> byte_ok b -> byte_ok c -> byte_ok d ->
  le_float_get h (a :: b :: c :: d :: r) = bits_float (host_bits h (a + 256 * b + 65536 * c + 16777216 * d)).
Proof. intros. unfold le_float_get, at_. cbn [nth]. by rewrite lor4. Qed.
Lemma le_float_get_put h f r : valid32 f = true -> isfinite f = true -> le_float_get h (le_float_put h f ++ r) = f.
Proof.
  intros Hv Hf. destruct (le_float_put_bytes h f Hv) as (a & b & c & d & -> & (Ha & Hb & Hc & Hd) & E). cbn [app].
  rewrite le_float_get_bytes, E by done. apply float_bits_range in Hv as Hr.
  replace (host_bits h (host_bits h (float_bits f))) with (float_bits f) by (destruct h; [done|symmetry; by apply swap32_involutive]).
  apply bits_float_bits; [done|]. by destruct f.
Qed.
Lemma le_float_put_get h a b c d : byte_ok a -> byte_ok b -> byte_ok c -> byte_ok d ->
  isfinite (le_float_get h [a; b; c; d]) = true -> le_float_put h (le_float_get h [a; b; c; d]) = [a; b; c; d].
Proof.
  intros Ha Hb Hc Hd. rewrite le_float_get_bytes by done. destruct (word_bytes a b c d) as (Hr & E1 & E2 & E3 & E4); [done..|].
  set (w := a + 256 * b + 65536 * c + 16777216 * d) in *. clearbody w. intros Hf.
  unfold le_float_put. fold (host_bits h (float_bits (bits_float (host_bits h w)))). rewrite float_bits_float; [|by apply host_bits_range|].
  - assert (E : host_bits h (host_bits h w) = w) by (destruct h; [done|by apply swap32_involutive]).
    rewrite E, !land_255, !Z.shiftr_div_pow2 by lia. by rewrite E1, E2, E3, E4.
  - by destruct (bits_float (host_bits h w)).
Qed.

(** ** Hexadecimal *)

Lemma hexval_hexd n : 0 <= n < 16 -> hexval (hexd n) = Some n.
Proof.
  intros Hn. assert (H : forallb (fun n => bool_decide (hexval (hexd (Z.of_nat n)) = Some (Z.of_nat n))) (seq 0 16) = true) by (vm_compute; reflexivity).
  rewrite forallb_forall in H. specialize (H (Z.to_nat n)). rewrite Z2Nat.id in H by lia. eapply bool_decide_eq_true_1, H, in_seq. lia.
Qed.
Lemma land_15 x : 0 <= Z.land x 15 < 16.
Proof. change 15 with (Z.ones 4). rewrite Z.land_ones by lia. apply Z.mod_pos_bound. lia. Qed.
Lemma hex_bytes_text l : bytes_ok l -> hex_bytes (hex_text l) = Some l.
Proof.
  induction 1 as [|b l Hb _ IH]; [done|]. change (hex_text (b :: l)) with (hexd (Z.land (Z.shiftr b 4) 15) :: hexd (Z.land b 15) :: hex_text l).
  cbn [hex_bytes]. unfold hex_nibble. rewrite !hexval_hexd by apply land_15. rewrite IH. cbn [mbind option_bind].
  destruct (hexd_pair b Hb) as (_ & _ & _ & _ & ->). done.
Qed.
Lemma hex_text_length l : length (hex_text l) = (2 * length l)%nat.
Proof. apply hex_encode_length. Qed.
Lemma hex_text_digits l : forallb (fun c => match hex_nibble c with Some _ => true | None => false end) (hex_text l) = true.
Proof.
  induction l as [|b l IH]; [done|]. change (hex_text (b :: l)) with (hexd (Z.land (Z.shiftr b 4) 15) :: hexd (Z.land b 15) :: hex_text l).
  cbn [forallb]. unfold hex_nibble at 1 2. by rewrite !hexval_hexd by apply land_15.
Qed.

(** What a byte is read from is its text, in lower case. *)
Lemma hexval_lower c n : hexval c = Some n -> 0 <= n < 16 /\ tolower c = hexd n.
Proof.
  intros H. assert (Hc : 48 <= c <= 102) by (unfold hexval, isdigit in H; repeat case_match; simplify_eq; lia).
  assert (A : forallb (fun c => let c := Z.of_nat c in match hexval c with
    | Some n => (0 <=? n) && (n <? 16) && (tolower c =? hexd n) | None => true end) (seq 0 103) = true) by (vm_compute; reflexivity).
  rewrite forallb_forall in A. specialize (A (Z.to_nat c)). cbv zeta in A. rewrite Z2Nat.id in A by lia. rewrite H in A.
  assert (In (Z.to_nat c) (seq 0 103)) as Hin by (apply in_seq; lia). apply A in Hin. bools. lia.
Qed.
Lemma nibbles_byte hi lo : 0 <= hi < 16 -> 0 <= lo < 16 ->
  let b := u8 (Z.lor (Z.shiftl hi 4) lo) in byte_ok b /\ Z.land (Z.shiftr b 4) 15 = hi /\ Z.land b 15 = lo.
Proof.
  intros Hh Hl. assert (A : forallb (fun h => forallb (fun l => let hi := Z.of_nat h in let lo := Z.of_nat l in
    let b := u8 (Z.lor (Z.shiftl hi 4) lo) in (0 <=? b) && (b <? 256) && (Z.land (Z.shiftr b 4) 15 =? hi) && (Z.land b 15 =? lo))
    (seq 0 16)) (seq 0 16) = true) by (vm_compute; reflexivity).
  rewrite forallb_forall in A. specialize (A (Z.to_nat hi) ltac:(apply in_seq; lia)). cbv beta in A.
  rewrite forallb_forall in A. specialize (A (Z.to_nat lo) ltac:(apply in_seq; lia)). cbv zeta in A. rewrite !Z2Nat.id in A by lia.
  cbv zeta. bools. unfold byte_ok. lia.
Qed.
Lemma hex_bytes_inv n s l : length s = (2 * n)%nat -> hex_bytes s = Some l ->
  bytes_ok l /\ hex_text l = map tolower s /\ length l = n.
Proof.
  revert s l. induction n as [|n IH]; intros s l Hs.
  - destruct s; [|cbn in Hs; lia]. intros [= <-]. split_and!; [constructor|done|done].
  - destruct s as [|a [|b s]]; [cbn in Hs; lia|cbn in Hs; lia|]. cbn [hex_bytes]. unfold hex_nibble.
    destruct (hexval a) as [hi|] eqn:Ea; [|done]. destruct (hexval b) as [lo|] eqn:Eb; [|done].
    destruct (hex_bytes s) as [v|] eqn:Ev; [|done]. cbn [mbind option_bind]. intros [= <-].
    apply hexval_lower in Ea as [Hh Ta], Eb as [Hl Tb]. destruct (nibbles_byte hi lo Hh Hl) as (Hb & E1 & E2).
    apply IH in Ev as (Hv & Ht & Hn); [|cbn in Hs; lia]. split_and!; [by constructor| |cbn; lia].
    cbn [map]. rewrite <- Ht, Ta, Tb. change (hex_text (?b :: v)) with (hexd (Z.land (Z.shiftr b 4) 15) :: hexd (Z.land b 15) :: hex_text v).
    by rewrite E1, E2.
Qed.

(** ** The canonical form *)

Definition elem_ok (f : float) : Prop := valid32 f = true /\ isfinite f = true.
(** What a vector is: finite single-precision numbers, 1 to 32767 of them. *)
Definition vec_ok (v : list float) : Prop := Forall elem_ok v /\ 1 <= Z.of_nat (length v) <= FSQL_VEC_MAX_DIM.
(** The bytes of the canonical form. *)
Definition canonical (h : bool) (v : list float) : list Z :=
  le16_put (Z.of_nat (length v)) ++ le16_put 0 ++ flat_map (le_float_put h) v.

Lemma le16_put_ok d : 0 <= d < 65536 -> bytes_ok (le16_put d) /\ forall r, le16_get (le16_put d ++ r) = d.
Proof.
  intros Hd. unfold le16_put. rewrite !land_255, Z.shiftr_div_pow2 by lia. split; [repeat (apply Forall_cons; split; [by auto|]); constructor|]. intros r.
  unfold le16_get, at_. cbn [app nth]. pose proof (Z.mod_pos_bound d 256 ltac:(lia)). pose proof (Z.mod_pos_bound (d / 2 ^ 8) 256 ltac:(lia)).
  rewrite (lor_shiftl_add _ _ 8) by lia. change (2 ^ 8) with 256 in *. rewrite (Z.mod_small (d / 256)) by (split; [apply Z.div_pos; lia|apply Z.div_lt_upper_bound; lia]).
  pose proof (Z.div_mod d 256 ltac:(lia)). rewrite u16_id; lia.
Qed.
Lemma le16_get_put a b r : byte_ok a -> byte_ok b -> 0 <= le16_get (a :: b :: r) < 65536 /\ le16_put (le16_get (a :: b :: r)) = [a; b].
Proof.
  unfold byte_ok. intros Ha Hb. unfold le16_get, at_. cbn [nth]. rewrite (lor_shiftl_add a b 8) by lia. rewrite u16_id by lia. split; [lia|].
  unfold le16_put. rewrite !land_255, Z.shiftr_div_pow2 by lia. change (2 ^ 8) with 256. f_equal; [|f_equal].
  - rewrite Z.mod_add by lia. by apply Z.mod_small.
  - rewrite Z.div_add, Z.div_small by lia. by apply Z.mod_small.
Qed.
Lemma elems_bytes h v : Forall elem_ok v -> bytes_ok (flat_map (le_float_put h) v) /\ length (flat_map (le_float_put h) v) = (4 * length v)%nat.
Proof.
  induction 1 as [|f v [Hf _] _ [IH1 IH2]]; [split; [constructor|done]|]. cbn [flat_map].
  destruct (le_float_put_bytes h f Hf) as (a & b & c & d & -> & (Ha & Hb & Hc & Hd) & _). split; [by repeat (apply Forall_cons; split; [done|])|]. cbn [app length]. lia.
Qed.
Lemma payload_elems h v r : Forall elem_ok v -> payload h (length v) (flat_map (le_float_put h) v ++ r) = Some v.
Proof.
  induction 1 as [|f v [Hf Hi] _ IH]; [done|]. cbn [flat_map length payload]. rewrite <- app_assoc, le_float_get_put, Hi by done.
  destruct (le_float_put_bytes h f Hf) as (a & b & c & d & -> & _ & _). cbn [app drop]. change (drop 0 ?l) with l. rewrite IH. done.
Qed.
Lemma payload_inv h n p v : bytes_ok p -> length p = (4 * n)%nat -> payload h n p = Some v ->
  Forall elem_ok v /\ length v = n /\ flat_map (le_float_put h) v = p.
Proof.
  revert p v. induction n as [|n IH]; intros p v Hp Hl.
  - intros [= <-]. destruct p; [|cbn in Hl; lia]. done.
  - destruct p as [|a [|b [|c [|d p]]]]; [cbn in Hl; lia..|].
    pose proof Hp as (Ha & (Hb & (Hc & (Hd & Hp')%Forall_cons)%Forall_cons)%Forall_cons)%Forall_cons.
    cbn [payload]. destruct (isfinite _) eqn:Ef; [|done]. cbn [drop]. change (drop 0 p) with p. destruct (payload h n p) as [w|] eqn:Ew; [|done].
    cbn [mbind option_bind]. intros [= <-]. apply IH in Ew as (Hw & Hn & E); [|done|cbn in Hl; lia].
    assert (Eg : le_float_get h (a :: b :: c :: d :: p) = le_float_get h [a; b; c; d]) by (by rewrite !le_float_get_bytes).
    rewrite Eg in *. split_and!; [|cbn; lia|].
    + constructor; [|done]. split; [|done]. rewrite le_float_get_bytes by done. apply valid32_bits, host_bits_range.
      by destruct (word_bytes a b c d).
    + cbn [flat_map]. by rewrite le_float_put_get, E.
Qed.
Lemma canonical_bytes h v : vec_ok v -> bytes_ok (canonical h v) /\ Z.of_nat (length (canonical h v)) = 4 + 4 * Z.of_nat (length v).
Proof.
  intros [Hv Hd]. unfold FSQL_VEC_MAX_DIM in Hd. destruct (elems_bytes h v Hv) as [H1 H2]. unfold canonical.
  pose proof (proj1 (le16_put_ok (Z.of_nat (length v)) ltac:(lia))). pose proof (proj1 (le16_put_ok 0 ltac:(lia))).
  split; [by rewrite !bytes_ok_app|]. rewrite !length_app, H2. cbn [length le16_put]. lia.
Qed.
Lemma len_hex l : len (hex_text l) = 2 * Z.of_nat (length l).
Proof. unfold len. rewrite hex_text_length. lia. Qed.

Lemma decode_canonical h malloc v : (forall n, malloc n = true) -> vec_ok v ->
  decode_canonical_hex h malloc (hex_text (canonical h v)) = Some v.
Proof.
  intros Hm Hv. destruct (canonical_bytes h v Hv) as [Hb Hl]. pose proof Hv as [He Hd]. unfold FSQL_VEC_MAX_DIM in Hd.
  unfold decode_canonical_hex. rewrite len_hex, Hl, hex_bytes_text, !Hm by done.
  replace (2 * (4 + 4 * Z.of_nat (length v))) with ((4 + 4 * Z.of_nat (length v)) * 2) by lia.
  rewrite Z.mod_mul, Z.div_mul by lia. rewrite (proj2 (Z.eqb_neq _ 0)) by lia. cbn [negb orb].
  unfold FSQL_VEC_HDRSZ. rewrite (proj2 (Z.ltb_ge _ 4)) by lia. cbn [mbind option_bind]. unfold canonical.
  rewrite (proj2 (le16_put_ok (Z.of_nat (length v)) ltac:(lia))). rewrite drop_app_exact by done. rewrite (proj2 (le16_put_ok 0 ltac:(lia))).
  unfold FSQL_VEC_MAX_DIM. rewrite (proj2 (Z.ltb_ge _ 1)), (proj2 (Z.ltb_ge 32767 _)) by lia. change (0 =? 0) with true. cbn [orb negb].
  rewrite (proj2 (Z.eqb_eq _ _)) by lia. cbn [negb]. change (drop 4 _) with (flat_map (le_float_put h) v). rewrite Hm, Nat2Z.id. cbn [negb].
  pose proof (payload_elems h v [] He) as E. by rewrite app_nil_r in E.
Qed.
Lemma decode_inv h malloc s v : decode_canonical_hex h malloc s = Some v -> vec_ok v /\ hex_text (canonical h v) = map tolower s.
Proof.
  unfold decode_canonical_hex. destruct ((len s =? 0) || negb (len s mod 2 =? 0)) eqn:E0; [done|]. apply orb_false_iff in E0 as [_ E0].
  apply negb_false_iff, Z.eqb_eq in E0. destruct (Z.ltb_spec (len s / 2) FSQL_VEC_HDRSZ) as [|H4]; [done|]. destruct (malloc _); [|done]. cbn [negb].
  destruct (hex_bytes s) as [b|] eqn:Eb; [|done]. cbn [mbind option_bind].
  assert (Hs : length s = (2 * Z.to_nat (len s / 2))%nat) by (unfold len in *; pose proof (Z.div_mod (Z.of_nat (length s)) 2); lia).
  apply (hex_bytes_inv (Z.to_nat (len s / 2))) in Eb as (Hb & Ht & Hl); [|done].
  destruct ((le16_get b <? 1) || _ || _ || _) eqn:Ec; [done|]. apply orb_false_iff in Ec as [Ec E4]. apply orb_false_iff in Ec as [Ec E3].
  apply orb_false_iff in Ec as [E1%Z.ltb_ge E2%Z.ltb_ge]. apply negb_false_iff, Z.eqb_eq in E3, E4. unfold FSQL_VEC_HDRSZ, FSQL_VEC_MAX_DIM in *.
  destruct (malloc _); [|done]. cbn [negb]. destruct b as [|b0 [|b1 [|b2 [|b3 b]]]]; [cbn in Hl; lia..|].
  cbn [drop] in *. change (drop 0 ?l) with l in *. pose proof Hb as (H0 & (H1 & (H2 & (H3 & Hb')%Forall_cons)%Forall_cons)%Forall_cons)%Forall_cons.
  destruct (le16_get_put b0 b1 (b2 :: b3 :: b) H0 H1) as [_ P1]. destruct (le16_get_put b2 b3 b H2 H3) as [_ P2]. rewrite E3 in P2.
  set (dim := le16_get (b0 :: b1 :: b2 :: b3 :: b)) in *. clearbody dim. intros Hp.
  apply payload_inv in Hp as (Hv & Hn & E); [|done|cbn [length] in Hl; lia].
  assert (Hd : Z.of_nat (length v) = dim) by lia. split.
  - split; [done|]. unfold FSQL_VEC_MAX_DIM. lia.
  - rewrite <- Ht. unfold canonical. by rewrite Hd, P1, P2, E.
Qed.

(** ** Loading *)

Section Load.
Context (host_le : bool) (x : sio).
Abbreviation mem := (s_malloc x).

Lemma to_float_ok dv : Forall (fun d => isfinite d = true) dv -> forallb isfinite (map to_float dv) = true ->
  Forall elem_ok (map to_float dv).
Proof.
  intros _. induction dv as [|d dv IH]; cbn [map forallb]; [constructor|]. intros [H1 H2]%andb_true_iff.
  constructor; [split; [apply valid32_to_float|done]|by apply IH].
Qed.
(** The text is the canonical form of the vector, in either case of the
    digits. *)
Definition canonical_text (s : list Z) (v : list float) : Prop := vec_ok v /\ hex_text (canonical host_le v) = map tolower s.

Lemma nibble_lower c n : hex_nibble (tolower c) = Some n -> exists m, hex_nibble c = Some m.
Proof.
  unfold hex_nibble, hexval, tolower, isupper, isdigit. intros H. repeat case_match; simplify_eq; try (by eexists); exfalso; lia.
Qed.
(** A canonical text never reaches the other parser: even when its decoding
    runs out of memory it is refused. *)
Lemma canonical_looks s v : canonical_text s v -> looks_like_canonical_hex s = true /\ canonical_hex_shape (len s) = true.
Proof.
  intros [Hv E]. assert (Hl : len s = 8 + 8 * Z.of_nat (length v)).
  { assert (len s = len (map tolower s)) as -> by (unfold len; by rewrite length_map). rewrite <- E, len_hex, (proj2 (canonical_bytes host_le v Hv)). lia. }
  destruct Hv as [Hf Hd]. unfold looks_like_canonical_hex, canonical_hex_shape, FSQL_VEC_HDRSZ. rewrite Hl. split.
  - rewrite (proj2 (Z.ltb_ge _ _)) by lia. replace ((8 + 8 * Z.of_nat (length v)) mod 2) with 0
      by (replace (8 + 8 * Z.of_nat (length v)) with ((4 + 4 * Z.of_nat (length v)) * 2) by lia; by rewrite Z.mod_mul).
    cbn [Z.eqb negb orb]. apply forallb_forall. intros c Hc. pose proof (hex_text_digits (canonical host_le v)) as Ht. rewrite E, forallb_forall in Ht.
    specialize (Ht (tolower c) (in_map tolower s c Hc)). destruct (hex_nibble (tolower c)) as [n|] eqn:En; [|done].
    apply nibble_lower in En as [m ->]. done.
  - apply andb_true_iff. split; [lia|]. apply Z.eqb_eq. replace (8 + 8 * Z.of_nat (length v)) with ((1 + Z.of_nat (length v)) * 8) by lia. by rewrite Z.mod_mul.
Qed.

Lemma load_vector_ok s k v k' : load_vector host_le x s k = (Some v, k') ->
  vec_ok v /\ (canonical_text s v \/
    (forall w, ~ canonical_text s w) /\ exists dv, numbers (s_underflow x) (cstr s) dv /\ v = map to_float dv).
Proof.
  unfold load_vector. destruct (if looks_like_canonical_hex s then _ else None) as [r|] eqn:E.
  - intros [= -> _]. destruct (looks_like_canonical_hex s); [|done].
    destruct (decode_canonical_hex host_le mem s) as [w|] eqn:Ew.
    + simplify_eq. apply decode_inv in Ew as [? ?]. split; [done|by left].
    + destruct (canonical_hex_shape (len s)); simplify_eq.
  - assert (Hno : forall w, ~ canonical_text s w).
    { intros w [Hl Hc]%canonical_looks. rewrite Hl, Hc in E. by destruct (decode_canonical_hex host_le mem s). }
    clear E. destruct (parse_vector_csv _ _ _ s k) as [[e|dv] k1] eqn:Ep; [done|]. apply parse_vector_sound in Ep as (Hn & H0 & _).
    destruct (Z.ltb_spec FSQL_VEC_MAX_DIM (Z.of_nat (length dv))); [done|]. destruct (mem _); [|done]. cbn [negb].
    destruct (forallb isfinite (map to_float dv)) eqn:Ef; [|done]. intros [= <- _]. split.
    + split; [apply to_float_ok; [by eapply numbers_finite|done]|]. rewrite length_map. lia.
    + right. split; [done|by exists dv].
Qed.
Lemma load_pair_ok a b va vb : load_pair host_le x a b = Some (va, vb) -> vec_ok va /\ vec_ok vb /\ length va = length vb.
Proof.
  unfold load_pair. destruct (load_vector host_le x a 0) as [[w|] k] eqn:Ea; [|done]. destruct (load_vector host_le x b k) as [[w'|] k'] eqn:Eb; [|done].
  destruct (Nat.eqb_spec (length w) (length w')); [|done]. intros [= <- <-].
  apply load_vector_ok in Ea as [? _], Eb as [? _]. done.
Qed.
Lemma load_arg_ok a v : load_arg host_le x a = Some v -> vec_ok v.
Proof.
  unfold load_arg. destruct (_ <? _); [done|]. destruct (load_vector host_le x a 0) as [[w|] k] eqn:E; [|done]. cbn [fst]. intros [= <-].
  by apply load_vector_ok in E as [? _].
Qed.

(** A canonical text is taken as one. *)
Lemma looks_canonical v : vec_ok v -> looks_like_canonical_hex (hex_text (canonical host_le v)) = true.
Proof.
  intros Hv. unfold looks_like_canonical_hex. rewrite len_hex, (proj2 (canonical_bytes host_le v Hv)). destruct Hv as [_ Hd].
  unfold FSQL_VEC_HDRSZ. rewrite (proj2 (Z.ltb_ge _ _)) by lia. rewrite Z.mul_comm, Z.mod_mul by lia. apply hex_text_digits.
Qed.

Hypothesis all_mem : forall n, mem n = true.

(** The canonical text of a vector fits its buffer. *)
Lemma format_canonical v cap : vec_ok v -> out_cap cap -> exists cap',
  format_canonical_hex host_le mem cap v = (Some (hex_text (canonical host_le v)), cap') /\
  out_cap cap' /\ len (hex_text (canonical host_le v)) + 1 <= cap'.
Proof.
  intros Hv Hc. pose proof (len_hex (canonical host_le v)) as Hl. rewrite (proj2 (canonical_bytes host_le v Hv)) in Hl. destruct Hv as [_ Hd].
  unfold FSQL_VEC_MAX_DIM in Hd. unfold format_canonical_hex. unfold FSQL_VEC_MAX_DIM, FSQL_VEC_HDRSZ.
  rewrite (proj2 (Z.ltb_ge _ 1)), (proj2 (Z.ltb_ge 32767 _)) by lia. cbn [orb].
  set (need := (4 + Z.of_nat (length v) * 4) * 2 + 1). assert (Hn : need <= SIZE_MAX) by (unfold need, SIZE_MAX; lia).
  pose proof (ensure_spec mem cap need Hc Hn) as Hs. pose proof (ensure_mem mem cap need all_mem Hc Hn) as Ho.
  destruct (json_out_ensure mem cap need) as [ok cap']. cbn [fst] in Ho. subst ok. cbn [negb]. destruct Hs as (H1 & H2 & _).
  destruct (H2 eq_refl) as [H3 _]. exists cap'. split_and!; [done|done|]. unfold need in H3. lia.
Qed.
End Load.

(** C19: The canonical form loses nothing, whichever the host's byte order: the
    text a vector is formatted to fits its buffer and loads back as the same
    vector, bit for bit; and a text that decodes is, but for the case of its
    digits, the canonical text of what it decodes to. *)
Theorem canonical_form_bijective h x cap : (forall n, s_malloc x n = true) -> out_cap cap ->
  (forall v, vec_ok v -> exists t cap', format_canonical_hex h (s_malloc x) cap v = (Some t, cap') /\
     out_cap cap' /\ len t + 1 <= cap' /\ forall k, load_vector h x t k = (Some v, k)) /\
  (forall s v, decode_canonical_hex h (s_malloc x) s = Some v ->
     vec_ok v /\ fst (format_canonical_hex h (s_malloc x) cap v) = Some (map tolower s)).
Proof.
  intros Hm Hc. split.
  - intros v Hv. destruct (format_canonical h x Hm v cap Hv Hc) as (cap' & E & H1 & H2). eexists _, cap'. split_and!; [exact E|done|done|].
    intros k. unfold load_vector. by rewrite looks_canonical, decode_canonical.
  - intros s v Hd. apply decode_inv in Hd as [Hv <-]. split; [done|].
    by destruct (format_canonical h x Hm v cap Hv Hc) as (cap' & -> & _).
Qed.

(** C20: What the vector loaders return is well formed, and is what the text
    says: a loaded vector has 1 to 32767 finite single-precision elements, and
    two loaded together have the same length; a text that is a canonical form
    (hex digits in either case) loads as the vector whose form it is, even when
    it is made of decimal digits only, and any other text as the numbers it
    spells, narrowed. *)
Theorem loaded_vectors_ok h x :
  (forall s k v k', load_vector h x s k = (Some v, k') -> vec_ok v /\
     (canonical_text h s v \/
      (forall w, ~ canonical_text h s w) /\ exists dv, numbers (s_underflow x) (cstr s) dv /\ v = map to_float dv)) /\
  (forall a b va vb, load_pair h x a b = Some (va, vb) -> vec_ok va /\ vec_ok vb /\ length va = length vb).
Proof. split; [apply load_vector_ok|apply load_pair_ok]. Qed.

(** ** The text form *)

Definition json_turn (cap : Z) (acc : option (nat * list Z)) (f : float) : option (nat * list Z) :=
  match acc with
  | None => None
  | Some (i, t) => let t := if (0 <? i)%nat then t ++ [44] else t in
                   match emit cap t (fmt_g 9 f) with Some t => Some (S i, t) | None => None end
  end.
Lemma json_turns cap v i t : Z.of_nat (length t + length (joined (fmt_g 9) (i =? 0)%nat v)) < cap ->
  fold_left (json_turn cap) v (Some (i, t)) = Some ((i + length v)%nat, t ++ joined (fmt_g 9) (i =? 0)%nat v).
Proof.
  revert i t. induction v as [|f v IH]; intros i t Hc; cbn [fold_left joined length]; [by rewrite app_nil_r, Nat.add_0_r|].
  cbn [joined] in Hc. unfold json_turn at 2. destruct i as [|i]; cbn [Nat.eqb Nat.ltb Nat.leb comma] in *; rewrite length_app in Hc; cbn [length] in Hc.
  - rewrite emit_fits by lia. rewrite IH by (rewrite length_app; cbn [Nat.eqb]; lia). rewrite <- app_assoc. done.
  - rewrite emit_fits by (rewrite length_app; cbn [length]; lia).
    rewrite IH by (rewrite !length_app; cbn [Nat.eqb length]; lia). cbn [Nat.eqb]. rewrite <- !app_assoc. cbn [app]. f_equal. f_equal. lia.
Qed.

(** A vector's text is a JSON array of its numbers and is never cut: with
    memory, formatting any finite vector succeeds, and the text and its
    terminating NUL are inside the buffer. *)
Theorem vector_text_well_formed malloc cap v : (forall n, malloc n = true) -> out_cap cap -> vec_ok v ->
  exists cap', format_vector_json malloc cap v = (Some (91 :: joined (fmt_g 9) true v ++ [93]), cap') /\
    out_cap cap' /\ doc 1 (91 :: joined (fmt_g 9) true v ++ [93]) /\ len (91 :: joined (fmt_g 9) true v ++ [93]) + 1 <= cap'.
Proof.
  intros Hm Hc [Hv Hd]. unfold FSQL_VEC_MAX_DIM in Hd. unfold format_vector_json.
  set (need := Z.of_nat (length v) * 32 + 8). assert (Hn : need <= SIZE_MAX) by (unfold need, SIZE_MAX; lia).
  pose proof (ensure_spec malloc cap need Hc Hn) as Hs. pose proof (ensure_mem malloc cap need Hm Hc Hn) as Ho.
  destruct (json_out_ensure malloc cap need) as [ok cap']. cbn [fst] in Ho. subst ok. cbn [negb]. destruct Hs as (H1 & H2 & _).
  destruct (H2 eq_refl) as [H3 _]. unfold need in H3.
  assert (Hl : (length (joined (fmt_g 9) true v) <= 17 * length v)%nat).
  { apply joined_length. eapply Forall_impl; [exact Hv|]. intros f [Hf _]. apply (fmt_g_length 9); [lia|by apply valid32_range]. }
  exists cap'. split_and!; [|done| |].
  - change (fold_left _ v _) with (fold_left (json_turn cap') v (Some (0%nat, [91]))). rewrite json_turns by (cbn [length Nat.eqb]; lia). done.
  - apply doc_value, array_value. eapply Forall_impl; [exact Hv|]. intros f [_ Hf]. apply V_num, fmt_g_num; [lia|done].
  - unfold len. cbn [length]. rewrite length_app. cbn [length]. lia.
Qed.

(** ** Byte arrays *)

Lemma of_int_255 : of_int 255 = S754_finite false 8972014882652160 (-45).
Proof. vm_compute. reflexivity. Qed.
Lemma byte_of_ok d n : valid64 d = true -> byte_of d = Some n -> byte_ok n /\ feqb d (of_int n) = true.
Proof.
  unfold byte_of. intros Hv. destruct (fltb d _ || fltb (of_int 255) d) eqn:Eb; [done|]. apply orb_false_iff in Eb as [E0 E1].
  destruct (trunc d) as [k|] eqn:Et; [|done]. destruct (feqb d (of_int k)) eqn:Eq; [|done]. intros [= ->]. split; [|done].
  rewrite of_int_255 in E1. clear Eq. destruct d as [s|s| |s m e]; try done; cbn [trunc] in Et.
  - injection Et as <-. done.
  - apply valid64_bound in Hv as [Hm _]. destruct s; [done|]. unfold fltb, SFltb, SFcompare in E1.
    cbn [SFcompare] in E1. destruct (Z.compare_spec (-45) e) as [Hc|Hc|Hc]; [subst e| |].
    + assert (Hm' : Zpos m <= 8972014882652160).
      { change (Pos.compare_cont Eq 8972014882652160 m) with (8972014882652160 ?= m)%positive in E1.
        destruct (Z.le_gt_cases (Zpos m) 8972014882652160) as [Hg|Hg]; [exact Hg|exfalso].
        rewrite (proj2 (Pos.compare_lt_iff _ _) Hg) in E1. discriminate E1. }
      cbn in Et. injection Et as <-. change (2 ^ (- -45)) with (2 ^ 45). split; [apply Z.div_pos; lia|apply Z.div_lt_upper_bound; lia].
    + done.
    + rewrite (proj2 (Z.leb_gt 0 e)) in Et by lia. injection Et as <-. pose proof (Z.pow_le_mono_r 2 46 (- e) ltac:(lia) ltac:(lia)).
      split; [apply Z.div_pos; lia|apply Z.div_lt_upper_bound; [lia|]]. change (2 ^ 46) with 70368744177664 in *. lia.
Qed.
Lemma parse_byte_array_count x s k l k' : parse_byte_array x s k = (Some l, k') -> Z.of_nat (length l) <= PARSE_MAX_ELEMS.
Proof.
  unfold parse_byte_array. destruct (parse_vector_csv _ _ _ s k) as [[e|dv] k1] eqn:Ep; [done|]. apply parse_vector_sound in Ep as (_ & _ & Hm).
  destruct (s_malloc x _); [|done]. cbn [negb]. intros [= Hl <-]. apply length_mapM in Hl. lia.
Qed.
Lemma parse_byte_array_ok x s k l k' : parse_byte_array x s k = (Some l, k') -> bytes_ok l /\
  exists dv, numbers (s_underflow x) (cstr s) dv /\ Forall2 (fun d n => feqb d (of_int n) = true) dv l.
Proof.
  unfold parse_byte_array. destruct (parse_vector_csv _ _ _ s k) as [[e|dv] k1] eqn:Ep; [done|]. apply parse_vector_sound in Ep as (Hn & _ & _).
  destruct (s_malloc x _); [|done]. cbn [negb]. intros [= Hl <-]. apply mapM_Some_1 in Hl. pose proof (numbers_valid _ _ _ Hn) as Hv.
  assert (H : bytes_ok l /\ Forall2 (fun d n => feqb d (of_int n) = true) dv l); [|split; [apply H|exists dv; split; [done|apply H]]].
  clear Hn. induction Hl as [|d n dv l Hd Hl IH]; [by split; constructor|]. apply Forall_cons in Hv as [Hd' Hv]. apply byte_of_ok in Hd as [H1 H2]; [|done].
  destruct (IH Hv) as [IH1 IH2]. by split; constructor.
Qed.

(** ** Runs *)

Definition demo_vec : list float := [bits_float 1065353216; bits_float 1076754516].
Lemma demo_vec_ok : vec_ok demo_vec.
Proof. by split; [repeat (constructor; [split; reflexivity|]); constructor|]. Qed.

Lemma canonical_form_bijective_witness : exists t cap',
  format_canonical_hex false (s_malloc demo_sio) 0 demo_vec = (Some t, cap') /\ len t + 1 <= cap' /\ load_vector false demo_sio t 3 = (Some demo_vec, 3%nat).
Proof.
  destruct (canonical_form_bijective false demo_sio 0 (fun _ => eq_refl) (or_introl eq_refl)) as [H _].
  destruct (H demo_vec demo_vec_ok) as (t & cap' & E & _ & H1 & H2). exists t, cap'. exact (conj E (conj H1 (H2 3%nat))).
Defined.
Lemma loaded_vectors_ok_witness : exists v k, load_vector true demo_sio (bs "[1, 2.5]") 0 = (Some v, k) /\ vec_ok v.
Proof.
  destruct (load_vector true demo_sio (bs "[1, 2.5]") 0) as [[v|] k] eqn:E.
  - exists v, k. split; [reflexivity|]. exact (proj1 (proj1 (loaded_vectors_ok true demo_sio) _ _ _ _ E)).
  - exfalso. apply (f_equal (fun p => match fst p with Some _ => true | None => false end)) in E. vm_compute in E. discriminate E.
Defined.
Lemma vector_text_well_formed_witness : exists t cap', format_vector_json (s_malloc demo_sio) 0 demo_vec = (Some t, cap') /\ doc 1 t.
Proof.
  destruct (vector_text_well_formed (s_malloc demo_sio) 0 demo_vec (fun _ => eq_refl) (or_introl eq_refl) demo_vec_ok) as (cap' & E & _ & H & _).
  eexists _, cap'. exact (conj E H).
Defined.

(** The canonical form depends on the host's byte order: a big-endian host
    swaps elements that are written byte by byte by value, so the same vector
    has two canonical texts, and a text written on one kind of host loads as
    another vector on the other. *)
Theorem payload_byte_order :
  let one := bits_float 1065353216 in
  fst (format_canonical_hex true (s_malloc demo_sio) 0 [one]) = Some (bs "010000000000803f") /\
  fst (format_canonical_hex false (s_malloc demo_sio) 0 [one]) = Some (bs "010000003f800000") /\
  (v ← decode_canonical_hex true (s_malloc demo_sio) (bs "010000003f800000"); Some (map float_bits v)) = Some [32831].
Proof. split_and!; vm_compute; reflexivity. Qed.
(** A text of decimal digits can be a canonical vector: the number 10^14 with a
    leading zero loads as the zero vector. *)
Theorem digits_taken_as_canonical :
  fst (load_vector true demo_sio (bs "0100000000000000") 0) = Some [S754_zero false] /\
  fst (load_vector true demo_sio (bs "[0100000000000000]") 0) = Some [to_float (of_int 100000000000000)].
Proof. split; vm_compute; reflexivity. Qed.

(** Element by element, in single precision. *)
Definition ieee_binop (op : vec_binop) (a b : list float) : Z * list float :=
  (FSQL_OK, zip_with (match op with V_add => SFadd 24 128 | V_sub => SFsub 24 128 end) a b).
(** The results are not checked: a sum that overflows is printed as a text no
    JSON reader takes, and no later call accepts. *)
Theorem overflow_result_not_json :
  fst (fractal_vector_add true ieee_binop demo_sio (Some (bs "[3e38]")) (Some (bs "[3e38]")) 0) = UVal (bs "[inf]") /\
  gate (bs "[inf]") = Some false /\ fst (load_vector true demo_sio (bs "[inf]") 0) = None.
Proof. split_and!; vm_compute; reflexivity. Qed.
