(* ===== verification/Analytics.v ===== *)
(** * The analytics functions (src/fractalsql.c)

    Dimensions, networks, series, point clouds and optimisers.  A body is a
    function of its arguments, of what the system answers during the call and
    of its buffer's capacity; the core is a parameter, called through [acall],
    one constructor per entry point with the arguments the code passes.  An
    array the core fills is a list, with the number of elements it has room
    for among the arguments. *)

From Stdlib Require Import SpecFloat.
From S2P Require Import Prelude Float Parse Hmac LedgerFmt AuditJson JsonOut Params Session Daemon Search Vector.

Definition SUBSET_MAX_WORK : Z := 16777216.
Definition PERIODOGRAM_MAX_SAMPLES : Z := 1048576.
Definition FINGERPRINT_MAX_BYTES : Z := (16 * 1024 * 1024 - 4) / 4.
Definition FINGERPRINT_MAX_BITS : Z := FINGERPRINT_MAX_BYTES * 8.
Definition FINGERPRINT_MAX_WORK : Z := 268435456.
Definition FSQL_FIELD_MAX : Z := 356.

(** ** The core *)

Record bar := { birth : double; death : double }.
Inductive acall : Type -> Type :=
  | fsql_dimension_dfa (series : list double) : acall double
  | fsql_dimension_boxcount (points : list double) (n_points dim : Z) : acall double
  | fsql_dimension_drift (series : list double) (win : Z) : acall (double * double * double)
  | fsql_optimize_portfolio_ex (mu cov : list double) (n_assets k seed : Z) (use_obl : bool) (mode : diffusion)
      : acall (list double * double)
  | fsql_vascular_network (node_coords : list double) (n_nodes : Z) (edges : list Z) (arc_length : list double) (n_edges : Z)
      : acall (double * double * double)
  | fsql_cortical_folding (vertices : list double) (n_vertices : Z) (faces : list Z) (n_faces : Z)
      : acall (double * double * double)
  | fsql_nerve_plexus_metric (node_coords : list double) (n_nodes dim : Z) (edges : list Z) (n_edges : Z)
      : acall (double * double * double)
  | fsql_morphological_complexity (points : list double) (n_points dim : Z) : acall (double * double)
  | fsql_change_point_detect (series : list double) (window : Z) (threshold : double) (max_points : Z) : acall (list Z)
  | fsql_periodogram (series : list double) (max_peaks : Z) : acall (list (double * double))
  | fsql_spectrogram_entropy (series : list double) (window hop max_frames : Z) : acall (list double)
  | fsql_state_fingerprint (v : list double) (n_bits : Z) (seed : double) (n_bytes : Z) : acall (list Z)
  | fsql_cycle_detect_init (n_bytes threshold : Z) : acall unit
  | fsql_cycle_detect_feed (n_bytes threshold : Z) (fed : list (list Z)) : acall (option Z)
  | fsql_tda_persistence_diagram (points : list double) (n_points dim max_dim : Z) (max_thresh : double) (max_bars : Z)
      : acall (list bar * Z)
  | fsql_optimize_subset (objective : list double -> double) (n k : Z) (upper : option (list double)) (seed : Z)
      : acall (list double * double).

(** ** Sizes *)

(** The number of elements to make room for and to announce to the core, with
    the bytes they take; 0: nothing to allocate. *)
Definition fsq_out_cap (requested hard_max elem_size : Z) : Z * Z :=
  if (requested <=? 0) || (hard_max =? 0) then (0, 0) else
  let cap := if requested <? hard_max then requested else hard_max in
  if cap =? 0 then (0, 0)
  else if SIZE_MAX / elem_size <? cap then (0, 0)
  else (cap, u64 (cap * elem_size)).

(** ** Printing *)

(** A whole document in one [snprintf]. *)
Definition print_whole (malloc : Z -> bool) (cap need : Z) (t : list Z) : udf (list Z) * Z :=
  let '(ok, cap) := json_out_ensure malloc cap need in
  if negb ok then (UError, cap) else if cap <=? len t then (UError, cap) else (UVal t, cap).

(** The elements of an array, each formatted into a field of [fmax] bytes and
    then copied behind what is there; [polls]: cancellation is checked before
    each. *)
Section Fields.
Context {A : Type} (x : sio) (polls : bool) (fmax slack : Z) (f : A -> list Z).
Fixpoint put_fields (first : bool) (cap : Z) (t : list Z) (l : list A) (k : nat) : option (list Z * nat) * Z :=
  match l with
  | [] => (Some (t, k), cap)
  | a :: l =>
    if polls && fractalsql_interrupt_poll (s_hook x) k then (None, cap) else
    let k := if polls then S k else k in
    let field := comma first (f a) in
    if fmax <=? len field then (None, cap) else
    let '(ok, cap) := json_out_ensure (s_malloc x) cap (len t + len field + slack) in
    if negb ok then (None, cap) else put_fields false cap (t ++ field) l k
  end.
End Fields.
(** The closing text, after room has been made. *)
Definition put_tail (x : sio) (cap need : Z) (t tail : list Z) : udf (list Z) * Z :=
  let '(ok, cap) := json_out_ensure (s_malloc x) cap (len t + need) in
  if negb ok then (UError, cap) else (UVal (t ++ tail), cap).

(** Node and vertex indices, checked one by one. *)
Fixpoint indices_ok (hook : option fractalsql_interrupt_fn) (n : Z) (l : list Z) (k : nat) : option nat :=
  match l with
  | [] => Some k
  | e :: l => if fractalsql_interrupt_poll hook k then None else if n <=? e then None else indices_ok hook n l (S k)
  end.

Section Bodies.
Context (core : forall T, acall T -> Z * T).
Arguments core {T} _.
(** [ok <- core c]: the core's result, when its code is FSQL_OK. *)
Definition call_core {T} (c : acall T) : option T := let '(rc, v) := core c in if negb (rc =? FSQL_OK) then None else Some v.

Section Call.
Context (x : sio).
Abbreviation mem := (s_malloc x).
Definition series (s : list Z) (k : nat) : option (list double * nat) :=
  match parse_vector_csv (s_underflow x) mem (s_hook x) s k with (inl _, _) => None | (inr v, k) => Some (v, k) end.
Definition indices (s : list Z) (k : nat) : option (list Z * nat) :=
  match parse_index_csv mem (s_hook x) s k with (inl _, _) => None | (inr v, k) => Some (v, k) end.
Definition big (s : list Z) : bool := MAX_CORPUS_BYTES <? len s.
Definition count {A} (l : list A) : Z := Z.of_nat (length l).

(** ** Dimensions *)

Definition fractal_dimension_dfa (s : option (list Z)) : udf double :=
  match s with
  | None => UNull
  | Some s =>
    if big s then UError else
    of_opt ('(v, _) ← series s 0; call_core (fsql_dimension_dfa v))
  end.
Definition fractal_dimension_boxcount (s : option (list Z)) (dim : option Z) : udf double :=
  match s, dim with
  | Some s, Some dim =>
    if big s then UError else if dim <=? 0 then UError else
    of_opt ('(v, _) ← series s 0;
            if negb (count v mod dim =? 0) then None
            else call_core (fsql_dimension_boxcount v (count v / dim) dim))
  | _, _ => UNull
  end.
Definition drift_text (d : double * double * double) : list Z :=
  let '(drift, recent_alpha, baseline_alpha) := d in
  js "{'drift':" ++ fmt_f 10 drift ++ js ",'recent_alpha':" ++ fmt_f 10 recent_alpha ++
  js ",'baseline_alpha':" ++ fmt_f 10 baseline_alpha ++ js "}".
Definition fractal_dimension_drift (s : option (list Z)) (win : option Z) (cap : Z) : udf (list Z) * Z :=
  match s, win with
  | Some s, Some win =>
    if big s then (UError, cap) else if win <=? 0 then (UError, cap) else
    match ('(v, _) ← series s 0; call_core (fsql_dimension_drift v win)) with
    | None => (UError, cap)
    | Some d => print_whole mem cap 1200 (drift_text d)
    end
  | _, _ => (UNull, cap)
  end.

(** ** Networks, meshes, masks *)

Definition vascular_text (d : double * double * double) : list Z :=
  let '(mean_tortuosity, branch_density, fractal_dimension) := d in
  js "{'mean_tortuosity':" ++ fmt_f 10 mean_tortuosity ++ js ",'branch_density':" ++ fmt_f 10 branch_density ++
  js ",'fractal_dimension':" ++ fmt_f 10 fractal_dimension ++ js "}".
Definition fractal_vascular_network (nodes edges arcs : option (list Z)) (cap : Z) : udf (list Z) * Z :=
  match nodes, edges, arcs with
  | Some nodes, Some edges, Some arcs =>
    if big nodes || big edges || big arcs then (UError, cap) else
    match
      '(nodes, k) ← series nodes 0; '(edges, k) ← indices edges k; '(arcs, k) ← series arcs k;
      if negb (count nodes mod 3 =? 0) || negb (count edges mod 2 =? 0) || negb (count arcs =? count edges / 2) then None else
      _ ← indices_ok (s_hook x) (count nodes / 3) edges k;
      call_core (fsql_vascular_network nodes (count nodes / 3) edges arcs (count edges / 2))
    with
    | None => (UError, cap)
    | Some d => print_whole mem cap 1200 (vascular_text d)
    end
  | _, _, _ => (UNull, cap)
  end.
Definition cortical_text (d : double * double * double) : list Z :=
  let '(mesh_area, hull_area, gi) := d in
  js "{'mesh_area':" ++ fmt_f 10 mesh_area ++ js ",'hull_area':" ++ fmt_f 10 hull_area ++
  js ",'gyrification_index':" ++ fmt_f 10 gi ++ js "}".
Definition fractal_cortical_folding (vertices faces : option (list Z)) (cap : Z) : udf (list Z) * Z :=
  match vertices, faces with
  | Some vertices, Some faces =>
    if big vertices || big faces then (UError, cap) else
    match
      '(vertices, k) ← series vertices 0; '(faces, k) ← indices faces k;
      if negb (count vertices mod 3 =? 0) || negb (count faces mod 3 =? 0) then None else
      _ ← indices_ok (s_hook x) (count vertices / 3) faces k;
      call_core (fsql_cortical_folding vertices (count vertices / 3) faces (count faces / 3))
    with
    | None => (UError, cap)
    | Some d => print_whole mem cap 1200 (cortical_text d)
    end
  | _, _ => (UNull, cap)
  end.
Definition plexus_text (d : double * double * double) : list Z :=
  let '(fiber_length_density, branch_density, fractal_dimension) := d in
  js "{'fiber_length_density':" ++ fmt_f 10 fiber_length_density ++ js ",'branch_density':" ++ fmt_f 10 branch_density ++
  js ",'fractal_dimension':" ++ fmt_f 10 fractal_dimension ++ js "}".
Definition fractal_nerve_plexus_metric (nodes : option (list Z)) (dim : option Z) (edges : option (list Z)) (cap : Z)
  : udf (list Z) * Z :=
  match nodes, dim, edges with
  | Some nodes, Some dim, Some edges =>
    if big nodes || big edges then (UError, cap) else if dim <=? 0 then (UError, cap) else
    match
      '(nodes, k) ← series nodes 0; '(edges, k) ← indices edges k;
      if negb (count nodes mod dim =? 0) || negb (count edges mod 2 =? 0) then None else
      _ ← indices_ok (s_hook x) (count nodes / dim) edges k;
      call_core (fsql_nerve_plexus_metric nodes (count nodes / dim) dim edges (count edges / 2))
    with
    | None => (UError, cap)
    | Some d => print_whole mem cap 1200 (plexus_text d)
    end
  | _, _, _ => (UNull, cap)
  end.
Definition morphology_text (d : double * double) : list Z :=
  let '(dimension, lacunarity) := d in
  js "{'dimension':" ++ fmt_f 10 dimension ++ js ",'lacunarity':" ++ fmt_f 10 lacunarity ++ js "}".
Definition fractal_morphological_complexity (points : option (list Z)) (dim : option Z) (cap : Z) : udf (list Z) * Z :=
  match points, dim with
  | Some points, Some dim =>
    if big points then (UError, cap) else if dim <=? 0 then (UError, cap) else
    match
      '(points, _) ← series points 0;
      if negb (count points mod dim =? 0) then None
      else call_core (fsql_morphological_complexity points (count points / dim) dim)
    with
    | None => (UError, cap)
    | Some d => print_whole mem cap 900 (morphology_text d)
    end
  | _, _ => (UNull, cap)
  end.

(** ** Series *)

Definition fractal_change_point_detect (s : option (list Z)) (window : option Z) (threshold : option double) (max_points : option Z)
    (cap : Z) : udf (list Z) * Z :=
  match s, window, threshold, max_points with
  | Some s, Some window, Some threshold, Some max_points =>
    if big s then (UError, cap) else
    if (window <=? 0) || fleb threshold (S754_zero false) || (max_points <=? 0) then (UError, cap) else
    match
      '(v, k) ← series s 0;
      let '(idx_cap, idx_bytes) := fsq_out_cap max_points (count v) 8 in
      if (idx_cap =? 0) || negb (mem idx_bytes) then None else
      idx ← call_core (fsql_change_point_detect v window threshold idx_cap); Some (idx, k)
    with
    | None => (UError, cap)
    | Some (idx, k) =>
      let '(ok, cap) := json_out_ensure mem cap 8 in
      if negb ok then (UError, cap) else
      match put_fields x true 40 4 dec_u true cap [91] idx k with
      | (None, cap) => (UError, cap)
      | (Some (t, _), cap) => (UVal (t ++ [93]), cap)
      end
    end
  | _, _, _, _ => (UNull, cap)
  end.
Definition fractal_periodogram (s : option (list Z)) (max_peaks : option Z) (cap : Z) : udf (list Z) * Z :=
  match s, max_peaks with
  | Some s, Some max_peaks =>
    if big s then (UError, cap) else if max_peaks <=? 0 then (UError, cap) else
    match
      '(v, k) ← series s 0;
      if PERIODOGRAM_MAX_SAMPLES <? count v then None else
      let '(peaks_cap, peaks_bytes) := fsq_out_cap max_peaks (count v / 2) 8 in
      if (peaks_cap =? 0) || negb (mem peaks_bytes) then None else
      peaks ← call_core (fsql_periodogram v peaks_cap); Some (peaks, k)
    with
    | None => (UError, cap)
    | Some (peaks, k) =>
      let '(ok, cap) := json_out_ensure mem cap 16 in
      if negb ok then (UError, cap) else
      match put_fields x true FSQL_FIELD_MAX 32 (fmt_f 10) true cap (js "{'freqs':[") (map fst peaks) k with
      | (None, cap) => (UError, cap)
      | (Some (t, k), cap) =>
        let '(ok, cap) := json_out_ensure mem cap (len t + 16) in
        if negb ok then (UError, cap) else
        match put_fields x true FSQL_FIELD_MAX 8 (fmt_f 10) true cap (t ++ js "],'power':[") (map snd peaks) k with
        | (None, cap) => (UError, cap)
        | (Some (t, _), cap) => put_tail x cap 4 t (bs "]}")
        end
      end
    end
  | _, _ => (UNull, cap)
  end.
(** The three trailing arguments may be absent or NULL. *)
Definition fractal_spectrogram_entropy (s : option (list Z)) (window hop max_frames : option Z) (cap : Z) : udf (list Z) * Z :=
  match s with
  | None => (UNull, cap)
  | Some s =>
    if big s then (UError, cap) else
    let window := default 64 window in let hop := default 32 hop in let max_frames := default 4096 max_frames in
    if (window <? 8) || (512 <? window) || (hop <? 1) || (max_frames <? 1) || (4096 <? max_frames) then (UError, cap) else
    match
      '(v, k) ← series s 0;
      if count v <? window then None else
      let avail := (count v - window) / hop + 1 in
      let '(frames_cap, frames_bytes) := fsq_out_cap max_frames avail 8 in
      if (frames_cap =? 0) || negb (mem frames_bytes) then None else
      entropy ← call_core (fsql_spectrogram_entropy v window hop frames_cap); Some (entropy, k)
    with
    | None => (UError, cap)
    | Some (entropy, k) =>
      let '(ok, cap) := json_out_ensure mem cap 16 in
      if negb ok then (UError, cap) else
      match put_fields x true FSQL_FIELD_MAX 8 (fmt_f 10) true cap [91] entropy k with
      | (None, cap) => (UError, cap)
      | (Some (t, _), cap) => put_tail x cap 4 t [93]
      end
    end
  end.
Definition fractal_state_fingerprint (s : option (list Z)) (n_bits : option Z) (seed : option double) (cap : Z) : udf (list Z) * Z :=
  match s, n_bits, seed with
  | Some s, Some n_bits, Some seed =>
    if MAX_QUERY_BYTES <? len s then (UError, cap) else
    if (n_bits <=? 0) || (FINGERPRINT_MAX_BITS <? n_bits) then (UError, cap) else
    let n_bytes := (n_bits + 7) / 8 in
    match
      '(v, _) ← series s 0;
      if (0 <? count v) && (FINGERPRINT_MAX_WORK / count v <? n_bits) then None
      else if negb (mem n_bytes) then None
      else call_core (fsql_state_fingerprint v n_bits seed n_bytes)
    with
    | None => (UError, cap)
    | Some out =>
      let '(ok, cap) := json_out_ensure mem cap (n_bytes * 4 + 4) in
      if negb ok then (UError, cap) else
      match emit_all cap dec_u true [91] out with
      | None => (UError, cap)
      | Some t => (UVal (t ++ [93]), cap)
      end
    end
  | _, _, _ => (UNull, cap)
  end.

(** The fingerprints fed one at a time, up to the first that closes a cycle:
    its length and the position; [None]: the core failed. *)
Fixpoint feed_all (n_bytes threshold : Z) (fed todo : list (list Z)) : option (option (Z * nat)) :=
  match todo with
  | [] => Some None
  | f :: todo =>
    r ← call_core (fsql_cycle_detect_feed n_bytes threshold (fed ++ [f]));
    match r with Some cycle_len => Some (Some (cycle_len, length fed)) | None => feed_all n_bytes threshold (fed ++ [f]) todo end
  end.
(** A flat array in chunks of [n] bytes. *)
Fixpoint chunks (fuel n : nat) (l : list Z) : list (list Z) :=
  match fuel, l with S fuel, _ :: _ => take n l :: chunks fuel n (drop n l) | _, _ => [] end.
Definition cycle_text (r : option (Z * nat)) : list Z :=
  match r with
  | Some (cycle_len, at_index) =>
      js "{'detected':true,'cycle_len':" ++ dec_u cycle_len ++ js ",'at_index':" ++ dec_u (Z.of_nat at_index) ++ js "}"
  | None => js "{'detected':false}"
  end.
Definition fractal_cycle_detect (s : option (list Z)) (n_bytes hamming_threshold : option Z) (cap : Z) : udf (list Z) * Z :=
  match s, n_bytes, hamming_threshold with
  | Some s, Some n_bytes, Some threshold =>
    if big s then (UError, cap) else if (n_bytes <=? 0) || (threshold <? 0) then (UError, cap) else
    match
      '(flat, _) ← (match parse_byte_array x s 0 with (None, _) => None | (Some l, k) => Some (l, k) end);
      if negb (count flat mod n_bytes =? 0) then None else
      _ ← call_core (fsql_cycle_detect_init n_bytes threshold);
      feed_all n_bytes threshold [] (chunks (length flat) (Z.to_nat n_bytes) flat)
    with
    | None => (UError, cap)
    | Some r =>
      let '(ok, cap) := json_out_ensure mem cap 96 in
      if negb ok then (UError, cap) else (UVal (cycle_text r), cap)
    end
  | _, _, _ => (UNull, cap)
  end.

(** ** Point clouds *)

Definition bar_text (b : bar) : list Z := js "{'birth':" ++ fmt_f 10 (birth b) ++ js ",'death':" ++ fmt_f 10 (death b) ++ js "}".
Definition tda_tail (n : nat) (betti1 : option Z) : list Z :=
  js "],'n_h0_bars':" ++ dec_u (Z.of_nat n) ++ js ",'betti1':" ++ (match betti1 with Some b => dec_u b | None => bs "null" end) ++ js "}".
Definition fractal_tda_persistence_diagram (s : option (list Z)) (dim max_dim : option Z) (max_thresh : option double)
    (max_h0_bars : option Z) (cap : Z) : udf (list Z) * Z :=
  match s, dim, max_dim, max_thresh, max_h0_bars with
  | Some s, Some dim, Some max_dim, Some max_thresh, Some max_h0_bars =>
    if big s then (UError, cap) else
    if (dim <=? 0) || (negb (max_dim =? 0) && negb (max_dim =? 1)) || fleb max_thresh (S754_zero false) || (max_h0_bars <=? 0)
    then (UError, cap) else
    match
      '(v, _) ← series s 0;
      if negb (count v mod dim =? 0) then None else
      let '(bars_cap, bars_bytes) := fsq_out_cap max_h0_bars (count v / dim) 16 in
      if (bars_cap =? 0) || negb (mem bars_bytes) then None else
      call_core (fsql_tda_persistence_diagram v (count v / dim) dim max_dim max_thresh bars_cap)
    with
    | None => (UError, cap)
    | Some (bars, betti1) =>
      let '(ok, cap) := json_out_ensure mem cap 32 in
      if negb ok then (UError, cap) else
      match put_fields x false (FSQL_FIELD_MAX * 2) 64 bar_text true cap (js "{'h0_bars':[") bars 0%nat with
      | (None, cap) => (UError, cap)
      | (Some (t, _), cap) => put_tail x cap 64 t (tda_tail (length bars) (if max_dim =? 1 then Some betti1 else None))
      end
    end
  | _, _, _, _, _ => (UNull, cap)
  end.

(** ** Optimisers *)

(** A head with one number, then an array of weights. *)
Definition print_weights (polls : bool) (cap : Z) (head : list Z) (weights : list double) (k : nat) : udf (list Z) * Z :=
  match print_whole mem cap (FSQL_FIELD_MAX + 64) head with
  | (UVal t, cap) =>
    match put_fields x polls FSQL_FIELD_MAX 8 (fmt_f 10) true cap t weights k with
    | (None, cap) => (UError, cap)
    | (Some (t, _), cap) => put_tail x cap 8 t (bs "]}")
    end
  | r => r
  end.

Section Portfolio.
Context {DG : Digest}.
Context (mem_of : double -> list Z).          (* the eight bytes a double is in memory *)
Fixpoint separated (first : bool) (weights : list double) : list (list Z) :=
  match weights with [] => [] | w :: r => comma first (fmt_f 10 w) :: separated false r end.
(** The audit record of a decision: [None] when it is dropped. *)
Definition portfolio_head (mu cov : list double) (k seed : Z) (sharpe : double) : list Z :=
  js "{'type':'portfolio_optimize','entry':{'seed':" ++ dec_u seed ++ js ",'n_assets':" ++ dec_u (count mu) ++
  js ",'k':" ++ dec_u k ++ js ",'sharpe':" ++ fmt_f 10 sharpe ++ js ",'inputs_hash':'" ++
  ledger_hex_encode (sha256 (flat_map mem_of mu ++ flat_map mem_of cov)) ++ js "','weights':[".
Definition portfolio_audit_log_best_effort (lib_loaded : bool) (mu cov : list double) (k seed : Z) (sharpe : double) (weights : list double)
  : option (list Z) :=
  if negb lib_loaded then None else
  if negb (mem ((count mu + count mu * count mu) * 8)) then None else
  let head := portfolio_head mu cov k seed sharpe in
  if 1024 <=? len head then None
  else if existsb (fun field => FSQL_FIELD_MAX <=? len field) (separated true weights) then None
  else
    let body := joined (fmt_f 10) true weights in
    if negb (mem (len head + 5 + len body)) then None else Some (head ++ body ++ js "]}}").

Definition sharpe_text (sharpe : double) : list Z := js "{'sharpe':" ++ fmt_f 10 sharpe ++ js ",'weights':[".
(** The result, the buffer's capacity, and the record handed to the ledger. *)
Definition fractal_optimize_portfolio (lib_loaded : bool) (mu cov : option (list Z)) (k : option Z) (params : option (list Z)) (cap : Z)
  : udf (list Z) * Z * option (list Z) :=
  match mu, cov, k with
  | Some mu, Some cov, Some k =>
    if big mu || big cov then (UError, cap, None) else
    match
      '(mu, p) ← series mu 0; '(cov, p) ← series cov p;
      if negb (count cov =? count mu * count mu) then None else if (k <=? 0) || (count mu <? k) then None else
      let ps := params_of params in
      let seed := json_get_u64 ps (bs "seed") 0 in
      let use_obl := json_get_bool ps (bs "use_obl") false in
      mode ← match json_get_str ps (bs "diffusion_mode") 16 with
             | Some m => parse_diffusion_mode (cstr m)
             | None => Some FSQL_SFS_DIFFUSE_GAUSSIAN
             end;
      if negb (mem (count mu * 8)) then None else
      '(weights, sharpe) ← call_core (fsql_optimize_portfolio_ex mu cov (count mu) k seed use_obl mode);
      Some (weights, sharpe, p, portfolio_audit_log_best_effort lib_loaded mu cov k seed sharpe weights)
    with
    | None => (UError, cap, None)
    | Some (weights, sharpe, p, record) => (print_weights true cap (sharpe_text sharpe) weights p, record)
    end
  | _, _, _ => (UNull, cap, None)
  end.
End Portfolio.

(** [-sum of weights times values], lower is better. *)
Definition subset_value_objective (item_values weights : list double) : double :=
  d_opp (fold_left d_add (zip_with d_mul weights item_values) (S754_zero false)).
Definition score_text (score : double) : list Z := js "{'score':" ++ fmt_f 10 (d_opp score) ++ js ",'weights':[".
Definition fractal_optimize_subset (values upper : option (list Z)) (k : option Z) (params : option (list Z)) (cap : Z) : udf (list Z) * Z :=
  match values, k with
  | Some values, Some k =>
    if big values then (UError, cap) else
    if match upper with Some u => big u | None => false end then (UError, cap) else
    if match params with Some p => MAX_QUERY_BYTES <? len p | None => false end then (UError, cap) else
    if k <=? 0 then (UError, cap) else
    match
      '(values, p) ← series values 0;
      upper ← match upper with
              | Some u => if (0 <? length u)%nat then '(u, _) ← series u p; if negb (count u =? count values) then None else Some (Some u)
                          else Some None
              | None => Some None
              end;
      if count values <? k then None else
      if SUBSET_MAX_WORK <? u64 (count values * k) then None else
      let seed := json_get_u64 (params_of params) (bs "seed") 0 in
      if negb (mem (count values * 8)) then None else
      call_core (fsql_optimize_subset (subset_value_objective values) (count values) k upper seed)
    with
    | None => (UError, cap)
    | Some (weights, score) => print_weights false cap (score_text score) weights 0%nat
    end
  | _, _ => (UNull, cap)
  end.
End Call.
End Bodies.

(** ** The [_init] functions *)

Definition double_init (types : list Item_result) (argc : nat) : option (list Item_result) :=
  if negb (argc =? length types)%nat then None else Some types.
Definition fractal_dimension_dfa_init := double_init [STRING_RESULT].
Definition fractal_dimension_boxcount_init := double_init [STRING_RESULT; INT_RESULT].
Definition fractal_dimension_drift_init := vec_init [STRING_RESULT; INT_RESULT] true.
Definition fractal_optimize_portfolio_init := vec_init [STRING_RESULT; STRING_RESULT; INT_RESULT; STRING_RESULT] true.
Definition fractal_vascular_network_init := vec_init [STRING_RESULT; STRING_RESULT; STRING_RESULT] true.
Definition fractal_cortical_folding_init := vec_init [STRING_RESULT; STRING_RESULT] true.
Definition fractal_nerve_plexus_metric_init := vec_init [STRING_RESULT; INT_RESULT; STRING_RESULT] true.
Definition fractal_morphological_complexity_init := vec_init [STRING_RESULT; INT_RESULT] true.
Definition fractal_change_point_detect_init := vec_init [STRING_RESULT; INT_RESULT; REAL_RESULT; INT_RESULT] true.
Definition fractal_periodogram_init := vec_init [STRING_RESULT; INT_RESULT] true.
Definition fractal_spectrogram_entropy_init (argc : nat) (calloc_ok : bool) : option (list Item_result) :=
  if (argc <? 1)%nat || (4 <? argc)%nat then None else json_out_generic_init calloc_ok (STRING_RESULT :: replicate (argc - 1) INT_RESULT).
Definition fractal_state_fingerprint_init := vec_init [STRING_RESULT; INT_RESULT; REAL_RESULT] true.
Definition fractal_cycle_detect_init := vec_init [STRING_RESULT; INT_RESULT; INT_RESULT] true.
Definition fractal_tda_persistence_diagram_init := vec_init [STRING_RESULT; INT_RESULT; INT_RESULT; REAL_RESULT; INT_RESULT] true.
Definition fractal_optimize_subset_init := vec_init [STRING_RESULT; STRING_RESULT; INT_RESULT; STRING_RESULT] true.
(** The two constants. *)
Definition fractal_edition : list Z := bs "Community".
Definition fractal_version : list Z := bs "2.0.12".
