(* ===== verification/AnalyticsProofs.v ===== *)
(** * The analytics functions: what the core is asked, what is answered *)

From Stdlib Require Import SpecFloat.
From S2P Require Import Prelude Float FloatValid Parse ParseProofs Hmac LedgerFmt HeadProofs AuditJson.
From S2P Require Import JsonOut JsonText Params Session Daemon Search SearchProofs Vector VectorProofs Analytics.

(** ** Sizes *)

(** The number of elements a function makes room for is the number asked
    for, or the most the core can produce if that is less; the bytes are that
    many elements, computed without wrapping.  It is 0 only when nothing is
    asked for, nothing can be produced, or the bytes are not a size. *)
Theorem out_cap_exact requested hard_max elem : - 2 ^ 63 <= requested < 2 ^ 63 -> 0 <= hard_max <= SIZE_MAX -> 1 <= elem <= SIZE_MAX ->
  let '(cap, bytes) := fsq_out_cap requested hard_max elem in
  (cap = 0 /\ (requested <= 0 \/ hard_max = 0 \/ SIZE_MAX < Z.min requested hard_max * elem)) \/
  (1 <= cap /\ cap = Z.min requested hard_max /\ bytes = cap * elem /\ bytes <= SIZE_MAX).
Proof.
  unfold fsq_out_cap, SIZE_MAX. intros Hr Hh He. destruct (Z.leb_spec requested 0); cbn [orb]; [left; lia|].
  destruct (Z.eqb_spec hard_max 0); [left; lia|].
  assert (E : (if requested <? hard_max then requested else hard_max) = Z.min requested hard_max) by (destruct (Z.ltb_spec requested hard_max); lia).
  cbv zeta. rewrite E. set (m := Z.min requested hard_max). assert (Hm : 1 <= m) by lia. destruct (Z.eqb_spec m 0); [lia|].
  pose proof (Z.div_mod (2 ^ 64 - 1) elem ltac:(lia)) as Hd. pose proof (Z.mod_pos_bound (2 ^ 64 - 1) elem ltac:(lia)).
  destruct (Z.ltb_spec ((2 ^ 64 - 1) / elem) m) as [Hl|Hl].
  - left. split; [done|]. right. right. nia.
  - right. assert (m * elem <= 2 ^ 64 - 1) by nia. rewrite u64_id by nia. lia.
Qed.
Lemma out_cap_exact_witness : fsq_out_cap 2305843009213693952 1000 8 = (1000, 8000) /\
  let '(cap, bytes) := fsq_out_cap 2305843009213693952 1000 8 in
  (cap = 0 /\ (2305843009213693952 <= 0 \/ 1000 = 0 \/ SIZE_MAX < Z.min 2305843009213693952 1000 * 8)) \/
  (1 <= cap /\ cap = Z.min 2305843009213693952 1000 /\ bytes = cap * 8 /\ bytes <= SIZE_MAX).
Proof. split; [vm_compute; reflexivity|apply (out_cap_exact 2305843009213693952 1000 8); unfold SIZE_MAX; lia]. Defined.
Lemma out_cap_some r h e cap bytes : fsq_out_cap r h e = (cap, bytes) -> (cap =? 0) = false -> 0 <= h -> 1 <= cap <= h.
Proof.
  unfold fsq_out_cap. intros E H0 Hh. destruct (Z.leb_spec r 0); cbn [orb] in E; [injection E as <- <-; done|].
  destruct (Z.eqb_spec h 0); [injection E as <- <-; done|].
  destruct (Z.ltb_spec r h); repeat (case_match; simplify_eq; try done); lia.
Qed.

(** ** What the core is asked *)

(** Every array has the elements the call announces, every index is a node's,
    every count is in its range. *)
Definition acall_ok {T} (c : acall T) : Prop :=
  match c with
  | fsql_dimension_dfa s => finite_all s
  | fsql_dimension_boxcount p n d => finite_all p /\ 1 <= d /\ count p = n * d
  | fsql_dimension_drift s win => finite_all s /\ 1 <= win
  | fsql_optimize_portfolio_ex mu cov n k seed _ _ =>
      finite_all mu /\ finite_all cov /\ count mu = n /\ count cov = n * n /\ 1 <= k <= n /\ 0 <= seed < 2 ^ 64
  | fsql_vascular_network p n edges arcs m =>
      finite_all p /\ finite_all arcs /\ count p = n * 3 /\ count edges = m * 2 /\ count arcs = m /\ Forall (fun e => 0 <= e < n) edges
  | fsql_cortical_folding p n faces m =>
      finite_all p /\ count p = n * 3 /\ count faces = m * 3 /\ Forall (fun e => 0 <= e < n) faces
  | fsql_nerve_plexus_metric p n d edges m =>
      finite_all p /\ 1 <= d /\ count p = n * d /\ count edges = m * 2 /\ Forall (fun e => 0 <= e < n) edges
  | fsql_morphological_complexity p n d => finite_all p /\ 1 <= d /\ count p = n * d
  | fsql_change_point_detect s w _ cap => finite_all s /\ 1 <= w /\ 1 <= cap <= count s
  | fsql_periodogram s cap => finite_all s /\ 1 <= cap /\ 2 * cap <= count s <= PERIODOGRAM_MAX_SAMPLES
  | fsql_spectrogram_entropy s w hop cap =>
      finite_all s /\ 8 <= w <= 512 /\ 1 <= hop /\ 1 <= cap <= 4096 /\ w + (cap - 1) * hop <= count s
  | fsql_state_fingerprint v bits _ bytes =>
      finite_all v /\ 1 <= bits <= FINGERPRINT_MAX_BITS /\ bits * count v <= FINGERPRINT_MAX_WORK /\ 8 * (bytes - 1) < bits <= 8 * bytes
  | fsql_cycle_detect_init n t => 1 <= n /\ 0 <= t
  | fsql_cycle_detect_feed n t fed => 1 <= n /\ 0 <= t /\ Forall (fun f => count f = n /\ bytes_ok f) fed
  | fsql_tda_persistence_diagram p n d md _ cap => finite_all p /\ 1 <= d /\ count p = n * d /\ (md = 0 \/ md = 1) /\ 1 <= cap <= n
  | fsql_optimize_subset _ n k upper _ =>
      1 <= k <= n /\ n * k <= SUBSET_MAX_WORK /\ match upper with Some u => finite_all u /\ count u = n | None => True end
  end.
(** What the core documents of its results: finite numbers, no more elements
    than there is room for. *)
Definition num_ok (d : double) : Prop := valid64 d = true /\ isfinite d = true.
Definition size_ok (n : Z) : Prop := 0 <= n < 2 ^ 63.
Definition result_ok {T} (c : acall T) : T -> Prop :=
  match c in acall T return T -> Prop with
  | fsql_dimension_dfa _ | fsql_dimension_boxcount _ _ _ => num_ok
  | fsql_dimension_drift _ _ | fsql_vascular_network _ _ _ _ _ | fsql_cortical_folding _ _ _ _ | fsql_nerve_plexus_metric _ _ _ _ _ =>
      fun d => num_ok (fst (fst d)) /\ num_ok (snd (fst d)) /\ num_ok (snd d)
  | fsql_morphological_complexity _ _ _ => fun d => num_ok (fst d) /\ num_ok (snd d)
  | fsql_optimize_portfolio_ex _ _ n _ _ _ _ | fsql_optimize_subset _ n _ _ _ =>
      fun r => Forall num_ok (fst r) /\ count (fst r) = n /\ num_ok (snd r)
  | fsql_change_point_detect s _ _ cap => fun l => count l <= cap /\ Forall (fun i => 0 <= i < count s) l
  | fsql_periodogram _ cap => fun l => count l <= cap /\ Forall (fun p => num_ok (fst p) /\ num_ok (snd p)) l
  | fsql_spectrogram_entropy _ _ _ cap => fun l => count l <= cap /\ Forall num_ok l
  | fsql_state_fingerprint _ _ _ bytes => fun l => count l = bytes /\ bytes_ok l
  | fsql_cycle_detect_init _ _ => fun _ => True
  | fsql_cycle_detect_feed _ _ _ => fun r => match r with Some n => size_ok n | None => True end
  | fsql_tda_persistence_diagram _ _ _ _ _ cap =>
      fun r => count (fst r) <= cap /\ Forall (fun b => num_ok (birth b) /\ num_ok (death b)) (fst r) /\ size_ok (snd r)
  end.

(** ** Loading *)

Section Load.
Context (x : sio).
Lemma series_spec s k v k' : series x s k = Some (v, k') -> finite_all v /\ 1 <= count v <= PARSE_MAX_ELEMS.
Proof.
  unfold series. destruct (parse_vector_csv _ _ _ s k) as [[e|w] k1] eqn:E; [done|]. apply parse_vector_sound in E as (Hn & H0 & Hm).
  intros [= <- <-]. split; [by eapply numbers_finite|]. unfold count. lia.
Qed.
Lemma index_run n p v cap k r : Forall (fun i => 0 <= i) v -> while (index_turn (s_malloc x) (s_hook x)) n (p, v, cap, k) = Some r ->
  match fst r with inr l => Forall (fun i => 0 <= i) l | inl _ => True end.
Proof.
  intros Hv. refine (while_inv (index_turn (s_malloc x) (s_hook x)) (fun s => Forall (fun i => 0 <= i) (snd (fst (fst s))))
    (fun r => match fst r with inr l => Forall (fun i => 0 <= i) l | inl _ => True end) _ _ n (p, v, cap, k) r Hv).
  - intros [[[p1 v1] c1] k1] [[[p2 v2] c2] k2]. cbn [fst snd]. intros H1. unfold index_turn. destruct p1 as [|a p1]; [done|]. destruct (fractalsql_interrupt_poll _ k1); [done|].
    destruct (skip csv_sep (a :: p1)) as [|c q]; [done|]. destruct (c =? 45); [done|]. destruct (sign_of _) as [neg t]. destruct (negb _); [done|].
    destruct (digits_val 0 t) as [m e]. destruct (_ || _) eqn:Eb; [done|]. destruct (if _ =? c1 then _ else _); [done|]. intros [= <- <- <- <-].
    apply Forall_app. split; [done|]. constructor; [lia|constructor].
  - intros [[[p1 v1] c1] k1] r1. cbn [fst snd]. intros H1. unfold index_turn. destruct p1 as [|a p1]; [by intros [= <-]|]. destruct (fractalsql_interrupt_poll _ k1); [by intros [= <-]|].
    destruct (skip csv_sep (a :: p1)) as [|c q]; [by intros [= <-]|]. destruct (c =? 45); [by intros [= <-]|]. destruct (sign_of _) as [neg t].
    destruct (negb _); [by intros [= <-]|]. destruct (digits_val 0 t) as [m e]. destruct (_ || _); [by intros [= <-]|].
    destruct (if _ =? c1 then _ else _); [by intros [= <-]|done].
Qed.
Lemma indices_spec s k v k' : indices x s k = Some (v, k') -> Forall (fun i => 0 <= i) v.
Proof.
  unfold indices, parse_index_csv. destruct (s_malloc x _); [|done]. destruct (s_malloc x _); [|done]. cbn [negb].
  destruct (while _ _ _) as [r|] eqn:E; [|done]. apply index_run in E; [|constructor]. destruct r as [[e|l] k1]; [done|]. by intros [= <- <-].
Qed.
Lemma indices_ok_spec hook n l k k' : indices_ok hook n l k = Some k' -> Forall (fun i => 0 <= i) l -> Forall (fun i => 0 <= i < n) l.
Proof.
  revert k. induction l as [|e l IH]; intros k; cbn [indices_ok]; [constructor|]. destruct (fractalsql_interrupt_poll hook k); [done|].
  destruct (Z.leb_spec n e); [done|]. intros Hk [H0 H1]%Forall_cons. constructor; [lia|by eapply IH].
Qed.
End Load.

(** A count that divides. *)
Lemma count_div {A} (l : list A) d : 0 < d -> negb (count l mod d =? 0) = false -> count l = count l / d * d.
Proof. intros Hd H%negb_false_iff%Z.eqb_eq. pose proof (Z.div_mod (count l) d). lia. Qed.

(** ** Printing *)

Lemma joined_members n (l : list (list Z * list Z)) : l <> [] -> Forall (fun kv => plain_name (fst kv) = true /\ value n (snd kv)) l ->
  items n (joined (fun kv => member (fst kv) (snd kv)) true l).
Proof.
  assert (H : forall kv l, plain_name (fst kv) = true /\ value n (snd kv) -> Forall (fun kv => plain_name (fst kv) = true /\ value n (snd kv)) l ->
    items n (member (fst kv) (snd kv) ++ joined (fun kv => member (fst kv) (snd kv)) false l)).
  { intros kv l0 Hkv Hl. revert kv Hkv. induction Hl as [|kv' l0 Hkv' _ IH]; intros kv [H1 H2]; cbn [joined comma].
    - rewrite app_nil_r. apply member_items; [by apply plain_jstr|done].
    - cbn [app]. apply members_items; [by apply plain_jstr|done|by apply IH]. }
  intros Hl Hf. destruct Hf as [|kv l Hkv Hf]; [done|]. by apply H.
Qed.
Definition object (l : list (list Z * list Z)) : list Z := 123 :: joined (fun kv => member (fst kv) (snd kv)) true l ++ [125].
Lemma object_value n l : l <> [] -> Forall (fun kv => plain_name (fst kv) = true /\ value n (snd kv)) l -> value (S n) (object l).
Proof. intros. by apply obj_value, joined_members. Qed.
Lemma doc_mono n m l : (n <= m)%nat -> doc n l -> doc m l.
Proof. intros H (w & v & w' & H1 & H2 & H3 & E). exists w, v, w'. split_and!; try done. by apply (proj1 value_mono n). Qed.
Lemma num_value d : num_ok d -> value 0 (fmt_f 10 d).
Proof. intros [_ Hf]. apply V_num. by apply fmt_f_num. Qed.
Lemma num_length d : num_ok d -> (length (fmt_f 10 d) <= 321)%nat.
Proof. intros [Hv _]. by apply fmt_f10_length. Qed.
Lemma nat_value n : value 0 (dec_u n).
Proof. apply V_num, dec_u_num. Qed.
Lemma size_length n : size_ok n -> (length (dec_u n) <= 19)%nat.
Proof. unfold size_ok. intros H. apply dec_u_length; [|lia]. change (Z.of_nat 19) with 19. lia. Qed.

(** What a function answers when it answers: a JSON document that its buffer
    holds with its terminating NUL. *)
Definition answered (r : udf (list Z) * Z) : Prop := exists t, fst r = UVal t /\ doc 3 t /\ len t + 1 <= snd r /\ out_cap (snd r).
Definition refused {A} (r : udf A) : Prop := r = UNull \/ r = UError.

(** With memory, and uninterrupted. *)
Section Quiet.
Context (x : sio).
Hypothesis all_mem : forall n, s_malloc x n = true.
Hypothesis no_stop : forall k, fractalsql_interrupt_poll (s_hook x) k = false.

Lemma ensure_ok cap need : out_cap cap -> 0 < need <= SIZE_MAX -> exists cap', json_out_ensure (s_malloc x) cap need = (true, cap') /\
  out_cap cap' /\ need <= cap' /\ 256 <= cap'.
Proof.
  intros Hc Hn. pose proof (ensure_spec (s_malloc x) cap need Hc ltac:(lia)) as Hs. pose proof (ensure_mem (s_malloc x) cap need all_mem Hc ltac:(lia)) as Ho.
  destruct (json_out_ensure (s_malloc x) cap need) as [ok cap']. cbn [fst] in Ho. subst ok. destruct Hs as (H1 & H2 & _).
  destruct (H2 eq_refl) as [H3 H4]. exists cap'. split_and!; [done|done|done|apply H4; lia].
Qed.
Lemma print_whole_ok cap need t : out_cap cap -> 0 < need <= SIZE_MAX -> len t < need -> exists cap',
  print_whole (s_malloc x) cap need t = (UVal t, cap') /\ out_cap cap' /\ need <= cap'.
Proof.
  intros Hc Hn Ht. unfold print_whole. destruct (ensure_ok cap need Hc Hn) as (cap' & -> & H1 & H2 & _). cbn [negb].
  rewrite (proj2 (Z.leb_gt cap' (len t))) by lia. by exists cap'.
Qed.
Lemma len_app a b : len (a ++ b) = len a + len b.
Proof. unfold len. rewrite length_app. lia. Qed.
Lemma put_fields_ok {A} polls fmax slack (f : A -> list Z) l first cap t k :
  out_cap cap -> Forall (fun a => len (f a) + 1 < fmax) l -> 0 < slack -> len t + len (joined f first l) + slack <= SIZE_MAX ->
  exists k' cap', put_fields x polls fmax slack f first cap t l k = (Some (t ++ joined f first l, k'), cap') /\ out_cap cap' /\
    (len t + slack <= cap -> len (t ++ joined f first l) + slack <= cap').
Proof.
  revert first cap t k. induction l as [|a l IH]; intros first cap t k Hc Hf Hs Hm; cbn [put_fields joined] in *.
  - exists k, cap. rewrite app_nil_r. done.
  - apply Forall_cons in Hf as [Ha Hf]. rewrite no_stop, andb_false_r. rewrite len_app in Hm.
    assert (Hcm : len (comma first (f a)) <= len (f a) + 1) by (unfold len; destruct first; cbn [comma length]; lia).
    assert (H0 : 0 <= len t /\ 0 <= len (comma first (f a)) /\ 0 <= len (joined f false l)) by (unfold len; lia).
    rewrite (proj2 (Z.leb_gt fmax _)) by lia. destruct (ensure_ok cap (len t + len (comma first (f a)) + slack) Hc ltac:(lia)) as (c1 & -> & H1 & H2 & _).
    cbn [negb]. destruct (IH false c1 (t ++ comma first (f a)) (if polls then S k else k) H1 Hf Hs) as (k' & c2 & -> & H3 & H4).
    { rewrite len_app. lia. }
    exists k', c2. rewrite <- app_assoc in *. split_and!; [done|done|]. intros _. apply H4. rewrite len_app. lia.
Qed.
Lemma put_tail_ok cap need t tail : out_cap cap -> 0 < need -> len t + need <= SIZE_MAX -> len tail < need -> exists cap',
  put_tail x cap need t tail = (UVal (t ++ tail), cap') /\ out_cap cap' /\ len (t ++ tail) + 1 <= cap'.
Proof.
  intros Hc Hn Hm Ht. unfold put_tail. destruct (ensure_ok cap (len t + need) Hc) as (cap' & -> & H1 & H2 & _); [unfold len in *; lia|].
  exists cap'. rewrite len_app. split_and!; [done|done|]. lia.
Qed.
Lemma joined_len {A} (f : A -> list Z) m first l : Forall (fun a => (length (f a) <= m)%nat) l ->
  len (joined f first l) <= (Z.of_nat m + 1) * count l.
Proof. intros H. pose proof (joined_length f m first l H). unfold len, count. nia. Qed.
End Quiet.

(** Three numbers. *)
Definition triple_ok (d : double * double * double) : Prop := num_ok (fst (fst d)) /\ num_ok (snd (fst d)) /\ num_ok (snd d).
Lemma triple_object k1 k2 k3 (d : double * double * double) : triple_ok d -> forallb plain_name [k1; k2; k3] = true ->
  doc 1 (object [(k1, fmt_f 10 (fst (fst d))); (k2, fmt_f 10 (snd (fst d))); (k3, fmt_f 10 (snd d))]).
Proof.
  intros (H1 & H2 & H3) Hk. cbn [forallb] in Hk. bools. apply doc_value, object_value; [done|].
  repeat (apply Forall_cons; split; [split; [done|by apply num_value]|]). constructor.
Qed.
Lemma triple_length k1 k2 k3 (d : double * double * double) : triple_ok d ->
  (length (object [(k1, fmt_f 10 (fst (fst d))); (k2, fmt_f 10 (snd (fst d))); (k3, fmt_f 10 (snd d))]) <=
   976 + length k1 + length k2 + length k3)%nat.
Proof.
  intros (H1%num_length & H2%num_length & H3%num_length). unfold object, member. cbn [joined comma fst snd].
  rewrite ?length_cons, ?length_app, ?length_cons, ?length_app, ?length_cons, ?length_app, ?length_cons. cbn [length]. rewrite ?length_app. cbn [length].
  rewrite ?length_app. cbn [length]. lia.
Qed.

(** The documents, as objects. *)
Ltac as_object := intros; unfold object, member; cbn [joined comma fst snd app]; rewrite <- ?app_assoc; cbn; rewrite <- ?app_assoc; cbn; rewrite <- ?app_assoc; reflexivity.
Lemma drift_object a b c : drift_text (a, b, c) =
  object [(bs "drift", fmt_f 10 a); (bs "recent_alpha", fmt_f 10 b); (bs "baseline_alpha", fmt_f 10 c)].
Proof. unfold drift_text. generalize (fmt_f 10 a) (fmt_f 10 b) (fmt_f 10 c). as_object. Qed.
Lemma vascular_object a b c : vascular_text (a, b, c) =
  object [(bs "mean_tortuosity", fmt_f 10 a); (bs "branch_density", fmt_f 10 b); (bs "fractal_dimension", fmt_f 10 c)].
Proof. unfold vascular_text. generalize (fmt_f 10 a) (fmt_f 10 b) (fmt_f 10 c). as_object. Qed.
Lemma cortical_object a b c : cortical_text (a, b, c) =
  object [(bs "mesh_area", fmt_f 10 a); (bs "hull_area", fmt_f 10 b); (bs "gyrification_index", fmt_f 10 c)].
Proof. unfold cortical_text. generalize (fmt_f 10 a) (fmt_f 10 b) (fmt_f 10 c). as_object. Qed.
Lemma plexus_object a b c : plexus_text (a, b, c) =
  object [(bs "fiber_length_density", fmt_f 10 a); (bs "branch_density", fmt_f 10 b); (bs "fractal_dimension", fmt_f 10 c)].
Proof. unfold plexus_text. generalize (fmt_f 10 a) (fmt_f 10 b) (fmt_f 10 c). as_object. Qed.
Lemma morphology_object a b : morphology_text (a, b) = object [(bs "dimension", fmt_f 10 a); (bs "lacunarity", fmt_f 10 b)].
Proof. unfold morphology_text. generalize (fmt_f 10 a) (fmt_f 10 b). as_object. Qed.

Definition weights_doc (name : list Z) (v : double) (weights : list double) : list Z :=
  object [(name, fmt_f 10 v); (bs "weights", 91 :: joined (fmt_f 10) true weights ++ [93])].
Lemma array_num l n : Forall num_ok l -> value (S n) (91 :: joined (fmt_f 10) true l ++ [93]).
Proof. intros H. apply array_value. eapply Forall_impl; [exact H|]. intros d Hd. apply (proj1 value_mono 0%nat); [by apply num_value|lia]. Qed.
Lemma weights_doc_ok name v weights : plain_name name = true -> num_ok v -> Forall num_ok weights -> value 2 (weights_doc name v weights).
Proof.
  intros Hn Hv Hw. apply object_value; [done|]. apply Forall_cons. split.
  - split; [done|]. apply (proj1 value_mono 0%nat); [by apply num_value|lia].
  - apply Forall_cons. split; [split; [reflexivity|by apply array_num]|constructor].
Qed.

(** ** One call *)

Definition core_t := forall T, acall T -> Z * T.
(** A body refuses its arguments without the core, or calls it once, with a
    well-formed call, refuses when the core does and answers when the core
    gives a result as it documents. *)
Definition one_call {R} (refuses answers : R -> Prop) (body : core_t -> R) : Prop :=
  (exists r, refuses r /\ forall core, body core = r) \/
  exists (T : Type) (c : acall T) (fin : option T -> R), acall_ok c /\ refuses (fin None) /\
    (forall v, result_ok c v -> answers (fin (Some v))) /\ forall core, body core = fin (call_core core c).

Definition refuses_text (r : udf (list Z) * Z) : Prop := refused (fst r).
(** The paths that do not reach the core. *)
Ltac out := left; eexists; split; [|intros; cbn [mbind option_bind of_opt orb negb]; reflexivity]; first [by left|by right].

Section OneCall.
Context (x : sio).
Hypothesis all_mem : forall n, s_malloc x n = true.
Hypothesis no_stop : forall k, fractalsql_interrupt_poll (s_hook x) k = false.

Lemma answer_whole cap need t : out_cap cap -> 0 < need <= SIZE_MAX -> len t < need -> doc 3 t -> answered (print_whole (s_malloc x) cap need t).
Proof.
  intros Hc Hn Ht Hd. destruct (print_whole_ok x all_mem cap need t Hc Hn Ht) as (cap' & -> & H1 & H2). exists t. cbn [fst snd]. split_and!; [done|done|lia|done].
Qed.
Lemma triple_len k1 k2 k3 (d : double * double * double) : triple_ok d -> (length k1 + length k2 + length k3 <= 200)%nat ->
  len (object [(k1, fmt_f 10 (fst (fst d))); (k2, fmt_f 10 (snd (fst d))); (k3, fmt_f 10 (snd d))]) < 1200.
Proof. intros H Hk. pose proof (triple_length k1 k2 k3 d H). unfold len. lia. Qed.
Lemma answer_triple k1 k2 k3 (d : double * double * double) cap : out_cap cap -> triple_ok d -> forallb plain_name [k1; k2; k3] = true ->
  (length k1 + length k2 + length k3 <= 200)%nat ->
  answered (print_whole (s_malloc x) cap 1200 (object [(k1, fmt_f 10 (fst (fst d))); (k2, fmt_f 10 (snd (fst d))); (k3, fmt_f 10 (snd d))])).
Proof.
  intros Hc Hd Hk Hl. apply answer_whole; [done|unfold SIZE_MAX; lia|by apply triple_len|]. apply (doc_mono 1); [lia|]. by apply triple_object.
Qed.

Lemma dfa_call s : one_call refused (fun r => exists d, r = UVal d) (fun core => fractal_dimension_dfa core x s).
Proof.
  unfold fractal_dimension_dfa. destruct s as [s|]; [|out]. destruct (big s); [out|]. destruct (series x s 0) as [[v k]|] eqn:E; [|out].
  apply series_spec in E as [Hv _]. right. eexists _, (fsql_dimension_dfa v), of_opt. split_and!; [done|by right|by eexists|done].
Qed.
Lemma boxcount_call s dim : one_call refused (fun r => exists d, r = UVal d) (fun core => fractal_dimension_boxcount core x s dim).
Proof.
  unfold fractal_dimension_boxcount. destruct s as [s|]; [|out]. destruct dim as [dim|]; [|out]. destruct (big s); [out|].
  destruct (Z.leb_spec dim 0); [out|]. destruct (series x s 0) as [[v k]|] eqn:E; [|out]. apply series_spec in E as [Hv _]. cbn [mbind option_bind].
  destruct (negb (count v mod dim =? 0)) eqn:Em; [out|]. apply count_div in Em; [|lia].
  right. eexists _, (fsql_dimension_boxcount v (count v / dim) dim), of_opt. split_and!; [split_and!; [done|lia|done]|by right|by eexists|done].
Qed.
Lemma drift_call s win cap : out_cap cap -> one_call refuses_text answered (fun core => fractal_dimension_drift core x s win cap).
Proof.
  unfold fractal_dimension_drift. intros Hc. destruct s as [s|]; [|out]. destruct win as [win|]; [|out]. destruct (big s); [out|].
  destruct (Z.leb_spec win 0); [out|]. destruct (series x s 0) as [[v k]|] eqn:E; [|out]. apply series_spec in E as [Hv _]. cbn [mbind option_bind].
  right. eexists _, (fsql_dimension_drift v win), (fun o => match o with None => (UError, cap) | Some d => print_whole (s_malloc x) cap 1200 (drift_text d) end).
  split_and!; [split; [done|lia]|by right| |done]. intros [[a b] c] Hd. rewrite drift_object. by apply (answer_triple _ _ _ (a, b, c)); [..|cbn; lia].
Qed.
Lemma vascular_call nodes edges arcs cap : out_cap cap -> one_call refuses_text answered (fun core => fractal_vascular_network core x nodes edges arcs cap).
Proof.
  unfold fractal_vascular_network. intros Hc. destruct nodes as [nodes|]; [|out]. destruct edges as [edges|]; [|out]. destruct arcs as [arcs|]; [|out].
  destruct (big nodes || big edges || big arcs); [out|]. destruct (series x nodes 0) as [[v k]|] eqn:E; [|out]. apply series_spec in E as [Hv _].
  cbn [mbind option_bind]. destruct (indices x edges k) as [[e k1]|] eqn:Ee; [|out]. apply indices_spec in Ee. cbn [mbind option_bind].
  destruct (series x arcs k1) as [[a k2]|] eqn:Ea; [|out]. apply series_spec in Ea as [Ha _]. cbn [mbind option_bind].
  destruct (_ || _ || _) eqn:Em; [out|]. apply orb_false_iff in Em as [[E1 E2]%orb_false_iff E3]. apply count_div in E1, E2; [|lia..].
  apply negb_false_iff, Z.eqb_eq in E3. destruct (indices_ok _ _ e k2) as [k3|] eqn:Ei; [|out]. apply indices_ok_spec in Ei; [|done]. cbn [mbind option_bind].
  right. eexists _, (fsql_vascular_network v (count v / 3) e a (count e / 2)), (fun o => match o with None => (UError, cap) | Some d => print_whole (s_malloc x) cap 1200 (vascular_text d) end).
  split_and!; [by split_and!|by right| |done]. intros [[d1 d2] d3] Hd. rewrite vascular_object. by apply (answer_triple _ _ _ (d1, d2, d3)); [..|cbn; lia].
Qed.
Lemma cortical_call vertices faces cap : out_cap cap -> one_call refuses_text answered (fun core => fractal_cortical_folding core x vertices faces cap).
Proof.
  unfold fractal_cortical_folding. intros Hc. destruct vertices as [nodes|]; [|out]. destruct faces as [edges|]; [|out].
  destruct (big nodes || big edges); [out|]. destruct (series x nodes 0) as [[v k]|] eqn:E; [|out]. apply series_spec in E as [Hv _].
  cbn [mbind option_bind]. destruct (indices x edges k) as [[e k1]|] eqn:Ee; [|out]. apply indices_spec in Ee. cbn [mbind option_bind].
  destruct (_ || _) eqn:Em; [out|]. apply orb_false_iff in Em as [E1 E2]. apply count_div in E1, E2; [|lia..].
  destruct (indices_ok _ _ e k1) as [k3|] eqn:Ei; [|out]. apply indices_ok_spec in Ei; [|done]. cbn [mbind option_bind].
  right. eexists _, (fsql_cortical_folding v (count v / 3) e (count e / 3)), (fun o => match o with None => (UError, cap) | Some d => print_whole (s_malloc x) cap 1200 (cortical_text d) end).
  split_and!; [by split_and!|by right| |done]. intros [[d1 d2] d3] Hd. rewrite cortical_object. by apply (answer_triple _ _ _ (d1, d2, d3)); [..|cbn; lia].
Qed.
Lemma plexus_call nodes dim edges cap : out_cap cap -> one_call refuses_text answered (fun core => fractal_nerve_plexus_metric core x nodes dim edges cap).
Proof.
  unfold fractal_nerve_plexus_metric. intros Hc. destruct nodes as [nodes|]; [|out]. destruct dim as [dim|]; [|out]. destruct edges as [edges|]; [|out].
  destruct (big nodes || big edges); [out|]. destruct (Z.leb_spec dim 0); [out|]. destruct (series x nodes 0) as [[v k]|] eqn:E; [|out].
  apply series_spec in E as [Hv _]. cbn [mbind option_bind]. destruct (indices x edges k) as [[e k1]|] eqn:Ee; [|out]. apply indices_spec in Ee.
  cbn [mbind option_bind]. destruct (_ || _) eqn:Em; [out|]. apply orb_false_iff in Em as [E1 E2]. apply count_div in E1, E2; [|lia..].
  destruct (indices_ok _ _ e k1) as [k3|] eqn:Ei; [|out]. apply indices_ok_spec in Ei; [|done]. cbn [mbind option_bind].
  right. eexists _, (fsql_nerve_plexus_metric v (count v / dim) dim e (count e / 2)), (fun o => match o with None => (UError, cap) | Some d => print_whole (s_malloc x) cap 1200 (plexus_text d) end).
  split_and!; [split_and!; [done|lia|done..]|by right| |done]. intros [[d1 d2] d3] Hd. rewrite plexus_object. by apply (answer_triple _ _ _ (d1, d2, d3)); [..|cbn; lia].
Qed.
Lemma morphology_call points dim cap : out_cap cap -> one_call refuses_text answered (fun core => fractal_morphological_complexity core x points dim cap).
Proof.
  unfold fractal_morphological_complexity. intros Hc. destruct points as [points|]; [|out]. destruct dim as [dim|]; [|out].
  destruct (big points); [out|]. destruct (Z.leb_spec dim 0); [out|]. destruct (series x points 0) as [[v k]|] eqn:E; [|out].
  apply series_spec in E as [Hv _]. cbn [mbind option_bind]. destruct (negb (count v mod dim =? 0)) eqn:Em; [out|]. apply count_div in Em; [|lia].
  right. eexists _, (fsql_morphological_complexity v (count v / dim) dim), (fun o => match o with None => (UError, cap) | Some d => print_whole (s_malloc x) cap 900 (morphology_text d) end).
  split_and!; [split_and!; [done|lia|done]|by right| |done]. intros [a b] [Ha Hb]. rewrite morphology_object. cbn [fst snd] in Ha, Hb.
  apply answer_whole; [done|unfold SIZE_MAX; lia| |].
  - apply num_length in Ha, Hb. unfold len, object, member. cbn [joined comma fst snd app bs length].
    repeat (rewrite ?length_app; cbn [length app]). lia.
  - apply (doc_mono 1); [lia|]. apply doc_value, object_value; [done|].
    repeat (apply Forall_cons; split; [split; [reflexivity|by apply num_value]|]). constructor.
Qed.

(** The closing of an array. *)
Lemma answer_tail cap need t tail : out_cap cap -> 0 < need -> len t + need <= SIZE_MAX -> len tail < need -> doc 3 (t ++ tail) ->
  answered (put_tail x cap need t tail).
Proof.
  intros Hc Hn Hm Ht Hd. destruct (put_tail_ok x all_mem cap need t tail Hc Hn Hm Ht) as (cap' & -> & H1 & H2).
  exists (t ++ tail). done.
Qed.
Lemma nums_short l : Forall num_ok l -> Forall (fun d => len (fmt_f 10 d) + 1 < FSQL_FIELD_MAX) l.
Proof. intros H. eapply Forall_impl; [exact H|]. intros d Hd%num_length. unfold len, FSQL_FIELD_MAX. lia. Qed.
Lemma nums_joined first l : Forall num_ok l -> len (joined (fmt_f 10) first l) <= 322 * count l.
Proof. intros H. apply (joined_len (fmt_f 10) 321). eapply Forall_impl; [exact H|]. apply num_length. Qed.

Lemma change_point_call s window threshold max_points cap : out_cap cap ->
  one_call refuses_text answered (fun core => fractal_change_point_detect core x s window threshold max_points cap).
Proof.
  unfold fractal_change_point_detect. intros Hc. destruct s as [s|]; [|out]. destruct window as [w|]; [|out]. destruct threshold as [th|]; [|out].
  destruct max_points as [mp|]; [|out]. destruct (big s); [out|]. destruct ((w <=? 0) || _ || _) eqn:Eb; [out|].
  apply orb_false_iff in Eb as [[Ew%Z.leb_gt _]%orb_false_iff Em%Z.leb_gt]. destruct (series x s 0) as [[v k]|] eqn:E; [|out].
  apply series_spec in E as [Hv Hn]. cbn [mbind option_bind]. destruct (fsq_out_cap mp (count v) 8) as [ic ib] eqn:Eo. rewrite all_mem, orb_false_r.
  destruct (ic =? 0) eqn:E0; [out|]. apply out_cap_some in Eo; [|done|lia].
  right. eexists _, (fsql_change_point_detect v w th ic), (fun o => match o with None => (UError, cap) | Some idx =>
      let '(ok, cap) := json_out_ensure (s_malloc x) cap 8 in if negb ok then (UError, cap) else
      match put_fields x true 40 4 dec_u true cap [91] idx k with (None, cap) => (UError, cap) | (Some (t, _), cap) => (UVal (t ++ [93]), cap) end end).
  split_and!; [split_and!; [done|lia|lia|lia]|by right| |intros core; by destruct (call_core core _)].
  intros idx [Hl Hi]. unfold PARSE_MAX_ELEMS in Hn. destruct (ensure_ok x all_mem cap 8 Hc) as (c1 & -> & H1 & H2 & H3); [unfold SIZE_MAX; lia|].
  cbn [negb]. assert (Hd : Forall (fun i => (length (dec_u i) <= 19)%nat) idx) by (eapply Forall_impl; [exact Hi|]; intros i Hr; cbn beta in Hr; apply size_length; unfold size_ok; lia).
  pose proof (joined_len dec_u 19 true idx Hd) as Hj. unfold result_ok in *.
  destruct (put_fields_ok x all_mem no_stop true 40 4 dec_u idx true c1 [91] k) as (k' & c2 & -> & H4 & H5); [done| |lia| |].
  { eapply Forall_impl; [exact Hd|]. intros i Hr. cbn beta in Hr. unfold len. lia. }
  { unfold SIZE_MAX. change (len [91]) with 1. lia. }
  eexists. split_and!; [done| | |done]; cbn [fst snd].
  - apply (doc_mono 1); [lia|]. apply doc_value. rewrite <- app_assoc. apply (array_value dec_u 0). eapply Forall_impl; [exact Hi|]. intros; apply nat_value.
  - rewrite len_app. change (len [93]) with 1. change (len [91]) with 1 in H5. lia.
Qed.
Lemma spectrogram_call s window hop frames cap : out_cap cap ->
  one_call refuses_text answered (fun core => fractal_spectrogram_entropy core x s window hop frames cap).
Proof.
  unfold fractal_spectrogram_entropy. intros Hc. destruct s as [s|]; [|out]. destruct (big s); [out|].
  set (w := default 64 window). set (h := default 32 hop). set (mf := default 4096 frames). clearbody w h mf.
  destruct ((w <? 8) || _ || _ || _ || _) eqn:Eb; [out|].
  apply orb_false_iff in Eb as [[[[E1%Z.ltb_ge E2%Z.ltb_ge]%orb_false_iff E3%Z.ltb_ge]%orb_false_iff E4%Z.ltb_ge]%orb_false_iff E5%Z.ltb_ge].
  destruct (series x s 0) as [[v k]|] eqn:E; [|out]. apply series_spec in E as [Hv Hn]. cbn [mbind option_bind].
  destruct (Z.ltb_spec (count v) w); [out|]. cbv zeta. destruct (fsq_out_cap mf _ 8) as [fc fb] eqn:Eo. rewrite all_mem, orb_false_r.
  assert (Hq : 0 <= (count v - w) / h) by (apply Z.div_pos; lia). pose proof (Z.mul_div_le (count v - w) h ltac:(lia)).
  destruct (fc =? 0) eqn:E0; [out|]. pose proof Eo as Eo'. apply out_cap_some in Eo; [|done|lia].
  assert (Hf : fc <= mf) by (unfold fsq_out_cap in Eo'; repeat (case_match; simplify_eq; try lia)).
  right. eexists _, (fsql_spectrogram_entropy v w h fc), (fun o => match o with None => (UError, cap) | Some entropy =>
      let '(ok, cap) := json_out_ensure (s_malloc x) cap 16 in if negb ok then (UError, cap) else
      match put_fields x true FSQL_FIELD_MAX 8 (fmt_f 10) true cap [91] entropy k with (None, cap) => (UError, cap) | (Some (t, _), cap) => put_tail x cap 4 t [93] end end).
  split_and!; [split_and!; [done|lia|lia|lia|lia|lia|nia]|by right| |intros core; by destruct (call_core core _)].
  intros en [Hl Hi]. unfold PARSE_MAX_ELEMS in Hn. destruct (ensure_ok x all_mem cap 16 Hc) as (c1 & -> & H1 & H2 & H3); [unfold SIZE_MAX; lia|].
  cbn [negb]. pose proof (nums_joined true en Hi) as Hj.
  destruct (put_fields_ok x all_mem no_stop true FSQL_FIELD_MAX 8 (fmt_f 10) en true c1 [91] k) as (k' & c2 & -> & H4 & _);
    [done|by apply nums_short|lia|unfold SIZE_MAX; change (len [91]) with 1; lia|].
  apply answer_tail; [done|lia|rewrite len_app; unfold SIZE_MAX; change (len [91]) with 1; lia|unfold len; cbn; lia|].
  rewrite <- app_assoc. apply (doc_mono 1); [lia|]. by apply doc_value, array_num.
Qed.
Lemma pairs_nums {A} (f : A -> double) l (P : A -> Prop) : Forall P l -> (forall a, P a -> num_ok (f a)) -> Forall num_ok (map f l).
Proof. intros H Hf. apply Forall_map. by eapply Forall_impl. Qed.
Lemma periodogram_call s peaks cap : out_cap cap -> one_call refuses_text answered (fun core => fractal_periodogram core x s peaks cap).
Proof.
  unfold fractal_periodogram. intros Hc. destruct s as [s|]; [|out]. destruct peaks as [mp|]; [|out]. destruct (big s); [out|].
  destruct (Z.leb_spec mp 0); [out|]. destruct (series x s 0) as [[v k]|] eqn:E; [|out]. apply series_spec in E as [Hv Hn]. cbn [mbind option_bind].
  destruct (Z.ltb_spec PERIODOGRAM_MAX_SAMPLES (count v)); [out|]. destruct (fsq_out_cap mp _ 8) as [pc pb] eqn:Eo. rewrite all_mem, orb_false_r.
  pose proof (Z.mul_div_le (count v) 2 ltac:(lia)). destruct (pc =? 0) eqn:E0; [out|]. apply out_cap_some in Eo; [|done|apply Z.div_pos; lia].
  right. eexists _, (fsql_periodogram v pc), (fun o => match o with None => (UError, cap) | Some peaks =>
      let '(ok, cap) := json_out_ensure (s_malloc x) cap 16 in if negb ok then (UError, cap) else
      match put_fields x true FSQL_FIELD_MAX 32 (fmt_f 10) true cap (js "{'freqs':[") (map fst peaks) k with
      | (None, cap) => (UError, cap)
      | (Some (t, k), cap) =>
        let '(ok, cap) := json_out_ensure (s_malloc x) cap (len t + 16) in if negb ok then (UError, cap) else
        match put_fields x true FSQL_FIELD_MAX 8 (fmt_f 10) true cap (t ++ js "],'power':[") (map snd peaks) k with
        | (None, cap) => (UError, cap)
        | (Some (t, _), cap) => put_tail x cap 4 t (bs "]}")
        end
      end end).
  split_and!; [split_and!; [done|lia|lia|lia]|by right| |intros core; by destruct (call_core core _)].
  intros pk [Hl Hi]. unfold PERIODOGRAM_MAX_SAMPLES in *. destruct (ensure_ok x all_mem cap 16 Hc) as (c1 & -> & K1 & K2 & K3); [unfold SIZE_MAX; lia|].
  assert (Hp : Forall num_ok (map fst pk) /\ Forall num_ok (map snd pk)) by (split; eapply pairs_nums; [exact Hi|by intros ? []|exact Hi|by intros ? []]).
  destruct Hp as [Hf Hs]. assert (Hlen : count (map fst pk) = count pk /\ count (map snd pk) = count pk) by (unfold count; by rewrite !length_map).
  pose proof (nums_joined true _ Hf) as Jf. pose proof (nums_joined true _ Hs) as Js. cbn [negb].
  change (len (js "{'freqs':[")) with 10 in *.
  destruct (put_fields_ok x all_mem no_stop true FSQL_FIELD_MAX 32 (fmt_f 10) (map fst pk) true c1 (js "{'freqs':[") k) as (k1 & c2 & -> & K4 & _);
    [done|by apply nums_short|lia|unfold SIZE_MAX; change (len (js "{'freqs':[")) with 10; lia|].
  set (t1 := js "{'freqs':[" ++ joined (fmt_f 10) true (map fst pk)). assert (Ht1 : len t1 = 10 + len (joined (fmt_f 10) true (map fst pk))) by (unfold t1; by rewrite len_app).
  destruct (ensure_ok x all_mem c2 (len t1 + 16) K4) as (c3 & -> & K5 & _); [unfold SIZE_MAX; unfold len in *; lia|]. cbn [negb].
  assert (Ht2 : len (t1 ++ js "],'power':[") = len t1 + 11) by (by rewrite len_app).
  destruct (put_fields_ok x all_mem no_stop true FSQL_FIELD_MAX 8 (fmt_f 10) (map snd pk) true c3 (t1 ++ js "],'power':[") k1) as (k2 & c4 & -> & K6 & _);
    [done|by apply nums_short|lia|unfold SIZE_MAX; lia|].
  apply answer_tail; [done|lia|rewrite len_app; unfold SIZE_MAX; lia|unfold len; cbn; lia|].
  assert (Ed : ((t1 ++ js "],'power':[") ++ joined (fmt_f 10) true (map snd pk)) ++ bs "]}" =
    object [(bs "freqs", 91 :: joined (fmt_f 10) true (map fst pk) ++ [93]); (bs "power", 91 :: joined (fmt_f 10) true (map snd pk) ++ [93])]).
  { unfold t1. generalize (joined (fmt_f 10) true (map fst pk)) (joined (fmt_f 10) true (map snd pk)). as_object. }
  rewrite Ed. apply (doc_mono 2); [lia|]. apply doc_value, object_value; [done|].
  repeat (apply Forall_cons; split; [split; [reflexivity|by apply array_num]|]). constructor.
Qed.
Lemma fingerprint_call s bits seed cap : out_cap cap -> one_call refuses_text answered (fun core => fractal_state_fingerprint core x s bits seed cap).
Proof.
  unfold fractal_state_fingerprint. intros Hc. destruct s as [s|]; [|out]. destruct bits as [nb|]; [|out]. destruct seed as [sd|]; [|out].
  destruct (_ <? len s); [out|]. destruct ((nb <=? 0) || _) eqn:Eb; [out|]. apply orb_false_iff in Eb as [E1%Z.leb_gt E2%Z.ltb_ge].
  destruct (series x s 0) as [[v k]|] eqn:E; [|out]. apply series_spec in E as [Hv Hn]. cbn [mbind option_bind].
  rewrite (proj2 (Z.ltb_lt 0 (count v))) by lia. cbn [andb]. destruct (Z.ltb_spec (FINGERPRINT_MAX_WORK / count v) nb) as [|Hw]; [out|]. rewrite all_mem. cbn [negb].
  pose proof (Z.div_mod (nb + 7) 8 ltac:(lia)). pose proof (Z.mod_pos_bound (nb + 7) 8 ltac:(lia)).
  pose proof (Z.mul_div_le FINGERPRINT_MAX_WORK (count v) ltac:(lia)). unfold FINGERPRINT_MAX_BITS, FINGERPRINT_MAX_BYTES in E2.
  set (bytes := (nb + 7) / 8) in *. change ((16 * 1024 * 1024 - 4) / 4) with 4194303 in E2.
  right. eexists _, (fsql_state_fingerprint v nb sd bytes), (fun o => match o with None => (UError, cap) | Some out =>
      let '(ok, cap) := json_out_ensure (s_malloc x) cap (bytes * 4 + 4) in if negb ok then (UError, cap) else
      match emit_all cap dec_u true [91] out with None => (UError, cap) | Some t => (UVal (t ++ [93]), cap) end end).
  split_and!; [split_and!; [done|lia|done|nia|lia|lia]|by right| |done].
  intros o [Hl Hb]. destruct (ensure_ok x all_mem cap (bytes * 4 + 4) Hc) as (c1 & -> & K1 & K2 & K3); [unfold SIZE_MAX; lia|]. cbn [negb].
  assert (Hd : Forall (fun i => (length (dec_u i) <= 3)%nat) o).
  { eapply Forall_impl; [exact Hb|]. intros i Hi. unfold byte_ok in Hi. apply dec_u_length; [change (Z.of_nat 3) with 3|]; lia. }
  pose proof (joined_len dec_u 3 true o Hd) as Hj. unfold result_ok in *. rewrite emit_all_fits by (unfold len in Hj; cbn [length]; lia).
  eexists. split_and!; [done| | |done]; cbn [fst snd].
  - apply (doc_mono 1); [lia|]. apply doc_value. rewrite <- app_assoc. apply (array_value dec_u 0). eapply Forall_impl; [exact Hb|]. intros; apply nat_value.
  - rewrite !len_app. change (len [93]) with 1. change (len [91]) with 1. lia.
Qed.
Lemma bar_value b : num_ok (birth b) /\ num_ok (death b) -> value 1 (bar_text b) /\ (length (bar_text b) <= 662)%nat.
Proof.
  intros [H1 H2]. assert (E : bar_text b = object [(bs "birth", fmt_f 10 (birth b)); (bs "death", fmt_f 10 (death b))]).
  { unfold bar_text. generalize (fmt_f 10 (birth b)) (fmt_f 10 (death b)). as_object. }
  split.
  - rewrite E. apply object_value; [done|]. repeat (apply Forall_cons; split; [split; [reflexivity|by apply num_value]|]). constructor.
  - apply num_length in H1, H2. unfold bar_text. rewrite !length_app. change (length (js "{'birth':")) with 9%nat. change (length (js ",'death':")) with 9%nat.
    change (length (js "}")) with 1%nat. lia.
Qed.
Lemma tda_call s dim md th mb cap : out_cap cap ->
  one_call refuses_text answered (fun core => fractal_tda_persistence_diagram core x s dim md th mb cap).
Proof.
  unfold fractal_tda_persistence_diagram. intros Hc. destruct s as [s|]; [|out]. destruct dim as [dim|]; [|out]. destruct md as [md|]; [|out].
  destruct th as [th|]; [|out]. destruct mb as [mb|]; [|out]. destruct (big s); [out|]. destruct ((dim <=? 0) || _ || _ || _) eqn:Eb; [out|].
  apply orb_false_iff in Eb as [[[E1%Z.leb_gt E2]%orb_false_iff _]%orb_false_iff E3%Z.leb_gt].
  destruct (series x s 0) as [[v k]|] eqn:E; [|out]. apply series_spec in E as [Hv Hn]. cbn [mbind option_bind].
  destruct (negb (count v mod dim =? 0)) eqn:Em; [out|]. apply count_div in Em; [|lia]. destruct (fsq_out_cap mb _ 16) as [bc bb] eqn:Eo. rewrite all_mem, orb_false_r.
  destruct (bc =? 0) eqn:E0; [out|]. apply out_cap_some in Eo; [|done|apply Z.div_pos; lia].
  assert (Hq : count v / dim <= count v) by (apply Z.div_le_upper_bound; nia).
  right. eexists _, (fsql_tda_persistence_diagram v (count v / dim) dim md th bc), (fun o => match o with None => (UError, cap) | Some (bars, betti1) =>
      let '(ok, cap) := json_out_ensure (s_malloc x) cap 32 in if negb ok then (UError, cap) else
      match put_fields x false (FSQL_FIELD_MAX * 2) 64 bar_text true cap (js "{'h0_bars':[") bars 0%nat with
      | (None, cap) => (UError, cap)
      | (Some (t, _), cap) => put_tail x cap 64 t (tda_tail (length bars) (if md =? 1 then Some betti1 else None)) end end).
  split_and!; [split_and!; [done|lia|done|lia|lia|lia]|by right| |done].
  intros [bars b1] (Hl & Hb & Hs). cbn [fst snd] in *. unfold PARSE_MAX_ELEMS in Hn.
  destruct (ensure_ok x all_mem cap 32 Hc) as (c1 & -> & K1 & K2 & K3); [unfold SIZE_MAX; lia|]. cbn [negb].
  assert (Hd : Forall (fun b => (length (bar_text b) <= 662)%nat) bars) by (eapply Forall_impl; [exact Hb|]; intros b Hr; by apply bar_value).
  pose proof (joined_len bar_text 662 true bars Hd) as Hj.
  destruct (put_fields_ok x all_mem no_stop false (FSQL_FIELD_MAX * 2) 64 bar_text bars true c1 (js "{'h0_bars':[") 0%nat) as (k' & c2 & -> & K4 & _); [done| |lia| |].
  { eapply Forall_impl; [exact Hd|]. intros b Hr. cbn beta in Hr. unfold len, FSQL_FIELD_MAX. lia. }
  { unfold SIZE_MAX. change (len (js "{'h0_bars':[")) with 12. lia. }
  set (bt := if md =? 1 then Some b1 else None). assert (Hbt : match bt with Some b => size_ok b | None => True end) by (unfold bt; by destruct (md =? 1)). clearbody bt.
  assert (Hnb : (length (dec_u (Z.of_nat (length bars))) <= 7)%nat).
  { apply dec_u_length; [|lia]. change (Z.of_nat 7) with 7. unfold count in *. lia. }
  apply answer_tail; [done|lia|rewrite len_app; unfold SIZE_MAX; change (len (js "{'h0_bars':[")) with 12; lia| |].
  - unfold tda_tail, len. rewrite !length_app. change (length (js "],'n_h0_bars':")) with 14%nat. change (length (js ",'betti1':")) with 10%nat. change (length (js "}")) with 1%nat.
    destruct bt as [b|]; [pose proof (size_length b Hbt); lia|cbn [bs length]; lia].
  - assert (Ed : (js "{'h0_bars':[" ++ joined bar_text true bars) ++ tda_tail (length bars) bt =
      object [(bs "h0_bars", 91 :: joined bar_text true bars ++ [93]); (bs "n_h0_bars", dec_u (Z.of_nat (length bars)));
              (bs "betti1", match bt with Some b => dec_u b | None => bs "null" end)]).
    { unfold tda_tail. generalize (joined bar_text true bars) (dec_u (Z.of_nat (length bars))) (match bt with Some b => dec_u b | None => bs "null" end). as_object. }
    rewrite Ed. apply doc_value, object_value; [done|]. apply Forall_cons; split; [|apply Forall_cons; split; [|apply Forall_cons; split; [|constructor]]].
    + split; [reflexivity|]. apply array_value. eapply Forall_impl; [exact Hb|]. intros b Hr. by apply bar_value.
    + split; [reflexivity|]. apply (proj1 value_mono 0%nat); [apply nat_value|lia].
    + split; [reflexivity|]. destruct bt; [apply (proj1 value_mono 0%nat); [apply nat_value|lia]|apply (V_lit _ 110); reflexivity].
Qed.

(** A head with one number and the weights behind it. *)
Lemma print_weights_ok polls cap name v weights k head : out_cap cap -> plain_name name = true -> (length name <= 50)%nat -> num_ok v -> Forall num_ok weights ->
  count weights <= PARSE_MAX_ELEMS -> (forall W, (head ++ W) ++ bs "]}" = object [(name, fmt_f 10 v); (bs "weights", 91 :: W ++ [93])]) ->
  len head <= 400 -> answered (print_weights x polls cap head weights k).
Proof.
  intros Hc Hname Hnl Hv Hw Hn Hobj Hh. unfold print_weights, FSQL_FIELD_MAX. unfold PARSE_MAX_ELEMS in Hn.
  destruct (print_whole_ok x all_mem cap (356 + 64) head Hc ltac:(unfold SIZE_MAX; lia) ltac:(lia)) as (c1 & -> & H1 & H2).
  pose proof (nums_joined true weights Hw) as Hj.
  destruct (put_fields_ok x all_mem no_stop polls 356 8 (fmt_f 10) weights true c1 head k) as (k1 & c2 & -> & H4 & _);
    [done|by apply nums_short|lia|unfold SIZE_MAX; lia|].
  apply answer_tail; [done|lia|rewrite len_app; unfold SIZE_MAX; lia|unfold len; cbn; lia|].
  rewrite Hobj. apply (doc_mono 2); [lia|]. apply doc_value. by apply weights_doc_ok.
Qed.
Lemma named_head_len name v : num_ok v -> (length name <= 50)%nat -> len (js "{'" ++ name ++ js "':" ++ fmt_f 10 v ++ js ",'weights':[") <= 400.
Proof.
  intros Hv%num_length Hn. unfold len. rewrite !length_app. change (length (js "{'")) with 2%nat. change (length (js "':")) with 2%nat.
  change (length (js ",'weights':[")) with 12%nat. lia.
Qed.
Lemma u64_text s n d : 0 <= d < 2 ^ 64 -> 0 <= json_get_u64 s n d < 2 ^ 64.
Proof.
  intros Hd. unfold json_get_u64. destruct (json_find_key s n) as [p|]; [|done]. destruct (digit_run p) as [tok q] eqn:Et.
  destruct (_ || _ || _); [done|]. destruct (Z.leb_spec (2 ^ 64) (dec_val 0 tok)); [done|]. split; [|done].
  assert (Hall : Forall (fun c => isdigit c = true) tok).
  { clear -Et. revert tok q Et. induction p as [|c p IH]; intros tok q; cbn [digit_run]; [by intros [= <- <-]|]. destruct (isdigit c) eqn:Ec; [|by intros [= <- <-]].
    destruct (digit_run p) as [a b] eqn:Ep. intros [= <- <-]. constructor; [done|by eapply IH]. }
  unfold dec_val. clear -Hall. assert (H : forall a, 0 <= a -> 0 <= fold_left (fun a c => a * 10 + (c - 48)) tok a).
  { induction Hall as [|c tok Hc _ IH]; intros a Ha; cbn [fold_left]; [done|]. apply IH. unfold isdigit in Hc. lia. }
  by apply H.
Qed.

Section Portfolio.
Context {DG : Digest}.
Context (mem_of : double -> list Z).
Lemma hash_text m : jstr (ledger_hex_encode (sha256 m)) /\ length (ledger_hex_encode (sha256 m)) = 64%nat.
Proof.
  split; [|rewrite hex_encode_length, (proj1 (sha256_digest m)); done].
  apply plain_jstr. unfold ledger_hex_encode. induction (sha256 m) as [|b l IH]; [done|]. cbn [flat_map app plain_name forallb].
  destruct (hexd_range (Z.land (Z.shiftr b 4) 15) (land_15 _)), (hexd_range (Z.land b 15) (land_15 _)); unfold plain_name in IH; rewrite IH; lia.
Qed.
Lemma seed_len n : 0 <= n < 2 ^ 64 -> (length (dec_u n) <= 20)%nat.
Proof. intros. apply dec_u_length; [change (Z.of_nat 20) with 20|]; lia. Qed.
(** The record of a decision is never dropped, and is a JSON document. *)
Lemma portfolio_record lib mu cov k seed sharpe weights :
  count mu <= PARSE_MAX_ELEMS -> 0 <= k <= PARSE_MAX_ELEMS -> 0 <= seed < 2 ^ 64 -> num_ok sharpe -> Forall num_ok weights ->
  match portfolio_audit_log_best_effort x mem_of lib mu cov k seed sharpe weights with Some r => doc 3 r | None => lib = false end.
Proof.
  unfold PARSE_MAX_ELEMS. intros Hn Hk Hs Hv Hw. unfold portfolio_audit_log_best_effort. rewrite !all_mem. destruct lib; [|done]. cbn [negb].
  destruct (hash_text (flat_map mem_of mu ++ flat_map mem_of cov)) as [Hh Hl]. cbv zeta.
  assert (Hhead : len (portfolio_head mem_of mu cov k seed sharpe) < 1024).
  { pose proof (seed_len seed Hs). pose proof (seed_len (count mu) ltac:(unfold count in *; lia)). pose proof (seed_len k ltac:(lia)). pose proof (num_length _ Hv).
    unfold portfolio_head, len. rewrite !length_app, Hl.
    change (length (js "{'type':'portfolio_optimize','entry':{'seed':")) with 45%nat. change (length (js ",'n_assets':")) with 12%nat.
    change (length (js ",'k':")) with 5%nat. change (length (js ",'sharpe':")) with 10%nat. change (length (js ",'inputs_hash':'")) with 16%nat.
    change (length (js "','weights':[")) with 13%nat. lia. }
  rewrite (proj2 (Z.leb_gt 1024 _)) by done.
  assert (Hsep : forall f, existsb (fun field => FSQL_FIELD_MAX <=? len field) (separated f weights) = false).
  { intros f. clear -Hw. revert f. induction Hw as [|w r Hwr _ IH]; intros f; cbn [separated existsb]; [done|]. rewrite IH. apply num_length in Hwr.
    apply orb_false_iff. split; [|done]. apply Z.leb_gt. unfold FSQL_FIELD_MAX, len. destruct f; cbn [comma length]; lia. }
  rewrite Hsep. unfold portfolio_head. clear Hhead Hsep. set (hash := ledger_hex_encode _) in *. clearbody hash.
  assert (Ed : forall S N K V W, (js "{'type':'portfolio_optimize','entry':{'seed':" ++ S ++ js ",'n_assets':" ++ N ++
      js ",'k':" ++ K ++ js ",'sharpe':" ++ V ++ js ",'inputs_hash':'" ++ hash ++ js "','weights':[") ++ W ++ js "]}}" =
    object [(bs "type", 34 :: bs "portfolio_optimize" ++ [34]); (bs "entry", object [(bs "seed", S); (bs "n_assets", N); (bs "k", K); (bs "sharpe", V);
      (bs "inputs_hash", 34 :: hash ++ [34]); (bs "weights", 91 :: W ++ [93])])]).
  { intros. unfold object, member. cbn [joined comma fst snd app]. repeat (rewrite <- ?app_assoc; cbn). reflexivity. }
  rewrite Ed. apply doc_value, object_value; [done|].
  apply Forall_cons; split; [split; [reflexivity|by apply V_str, plain_jstr]|]. apply Forall_cons; split; [|constructor]. split; [reflexivity|].
  assert (Hnum : forall n, value 1 (dec_u n)) by (intros; apply (proj1 value_mono 0%nat); [apply nat_value|lia]).
  apply object_value; [done|]. repeat (apply Forall_cons; split; [split; [reflexivity|apply Hnum]|]).
  apply Forall_cons; split; [split; [reflexivity|apply (proj1 value_mono 0%nat); [by apply num_value|lia]]|].
  apply Forall_cons; split; [split; [reflexivity|by apply V_str]|].
  apply Forall_cons; split; [split; [reflexivity|by apply array_num]|constructor].
Qed.
Definition refuses_record (r : udf (list Z) * Z * option (list Z)) : Prop := refused (fst (fst r)) /\ snd r = None.
(** Answered, and the decision recorded when there is a ledger. *)
Definition recorded (lib : bool) (r : udf (list Z) * Z * option (list Z)) : Prop :=
  answered (fst r) /\ match snd r with Some t => doc 3 t | None => lib = false end.
Ltac outp H := left; eexists; split; [|intros; cbn [mbind option_bind orb negb]; reflexivity]; apply H; first [by left|by right].
Lemma portfolio_call lib mu cov k params cap : out_cap cap ->
  one_call refuses_record (recorded lib) (fun core => fractal_optimize_portfolio core x mem_of lib mu cov k params cap).
Proof.
  assert (Hout : forall (u : udf (list Z)), refused u -> refuses_record (u, cap, None)) by (intros; by split).
  assert (Hl : refused (@UNull (list Z)) /\ refused (@UError (list Z))) by (split; [by left|by right]).
  unfold fractal_optimize_portfolio. intros Hc.
  destruct mu as [mu|]; [|outp Hout]. destruct cov as [cov|]; [|outp Hout]. destruct k as [k|]; [|outp Hout].
  destruct (big mu || big cov); [outp Hout|]. destruct (series x mu 0) as [[m p]|] eqn:E; [|outp Hout]. apply series_spec in E as [Hm Hn]. cbn [mbind option_bind].
  destruct (series x cov p) as [[c p2]|] eqn:E; [|outp Hout]. apply series_spec in E as [Hcv _]. cbn [mbind option_bind].
  destruct (negb (count c =? count m * count m)) eqn:E1; [outp Hout|]. apply negb_false_iff, Z.eqb_eq in E1.
  destruct ((k <=? 0) || (count m <? k)) eqn:E2; [outp Hout|]. apply orb_false_iff in E2 as [E2%Z.leb_gt E3%Z.ltb_ge]. cbv zeta.
  set (seed := json_get_u64 (params_of params) (bs "seed") 0). assert (Hs : 0 <= seed < 2 ^ 64) by (by apply u64_text). clearbody seed.
  destruct (match json_get_str _ _ _ with Some m => _ | None => _ end) as [mode|]; [|outp Hout]. cbn [mbind option_bind]. rewrite all_mem. cbn [negb].
  right. eexists _, (fsql_optimize_portfolio_ex m c (count m) k seed (json_get_bool (params_of params) (bs "use_obl") false) mode),
    (fun o => match o with None => (UError, cap, None) | Some (weights, sharpe) =>
       (print_weights x true cap (sharpe_text sharpe) weights p2, portfolio_audit_log_best_effort x mem_of lib m c k seed sharpe weights) end).
  split_and!; [split_and!; [done|done|done|done|lia|lia|lia|lia]|apply Hout; by right| |intros core; by destruct (call_core core _) as [[]|]].
  intros [w sh] (Hw & Hcw & Hsh). cbn [fst snd] in *. split; cbn [fst snd].
  - apply (print_weights_ok true cap (bs "sharpe") sh); [done|reflexivity|cbn; lia|done|done|lia| |apply (named_head_len (bs "sharpe") sh); [done|cbn; lia]].
    intros W. unfold sharpe_text. generalize (fmt_f 10 sh). as_object.
  - apply portfolio_record; [lia|lia|lia|done|done].
Qed.
End Portfolio.

Lemma opp_ok d : num_ok d -> num_ok (d_opp d).
Proof. unfold num_ok. by destruct d. Qed.
Lemma subset_call values upper k params cap : out_cap cap ->
  one_call refuses_text answered (fun core => fractal_optimize_subset core x values upper k params cap).
Proof.
  unfold fractal_optimize_subset. intros Hc. destruct values as [values|]; [|out]. destruct k as [k|]; [|out]. destruct (big values); [out|].
  destruct (match upper with Some u => big u | None => false end); [out|]. destruct (match params with Some p => _ | None => false end); [out|].
  destruct (Z.leb_spec k 0); [out|]. destruct (series x values 0) as [[v p]|] eqn:E; [|out]. apply series_spec in E as [Hv Hn]. cbn [mbind option_bind].
  destruct (match upper with Some u => _ | None => _ end) as [up|] eqn:Eu; [|out]. cbn [mbind option_bind].
  assert (Hup : match up with Some u => finite_all u /\ count u = count v | None => True end).
  { destruct upper as [u|]; [|by simplify_eq]. destruct (0 <? length u)%nat; [|by simplify_eq]. destruct (series x u p) as [[w p1]|] eqn:Ew; [|done].
    apply series_spec in Ew as [Hw _]. cbn [mbind option_bind] in Eu. destruct (negb (count w =? count v)) eqn:Ec; [done|]. simplify_eq.
    split; [done|]. by apply negb_false_iff, Z.eqb_eq in Ec. }
  destruct (Z.ltb_spec (count v) k); [out|]. unfold PARSE_MAX_ELEMS in Hn. rewrite u64_id by nia. destruct (Z.ltb_spec SUBSET_MAX_WORK (count v * k)); [out|].
  rewrite all_mem. cbn [negb].
  right. eexists _, (fsql_optimize_subset (subset_value_objective v) (count v) k up (json_get_u64 (params_of params) (bs "seed") 0)),
    (fun o => match o with None => (UError, cap) | Some (weights, score) => print_weights x false cap (score_text score) weights 0%nat end).
  split_and!; [split_and!; [lia|lia|lia|done]|by right| |done].
  intros [w sc] (Hw & Hcw & Hsc). cbn [fst snd] in *. apply opp_ok in Hsc.
  apply (print_weights_ok false cap (bs "score") (d_opp sc)); [done|reflexivity|cbn; lia|done|done|unfold PARSE_MAX_ELEMS; lia| |apply (named_head_len (bs "score") (d_opp sc)); [done|cbn; lia]].
  intros W. unfold score_text. generalize (fmt_f 10 (d_opp sc)). as_object.
Qed.
End OneCall.

(** ** Cycles *)

Lemma chunks_spec n fuel l : (0 < n)%nat -> (length l <= fuel)%nat -> (length l mod n = 0)%nat -> bytes_ok l ->
  concat (chunks fuel n l) = l /\ Forall (fun f => length f = n /\ bytes_ok f) (chunks fuel n l).
Proof.
  intros Hn. revert l. induction fuel as [|fuel IH]; intros l Hl Hm Hb; [destruct l; [by split; [|constructor]|cbn in Hl; lia]|].
  destruct l as [|a l]; [by split; [|constructor]|]. cbn [chunks]. set (m := a :: l) in *.
  assert (Hle : (n <= length m)%nat).
  { destruct (Nat.le_gt_cases n (length m)) as [|Hlt]; [done|]. rewrite Nat.mod_small in Hm by lia. subst m. cbn in Hm. lia. }
  destruct (IH (drop n m)) as [E F].
  - rewrite length_drop. lia.
  - rewrite length_drop. pose proof (Nat.div_mod (length m) n ltac:(lia)) as Hd. rewrite Hm in Hd.
    replace (length m - n)%nat with ((length m / n - 1) * n)%nat; [apply Nat.Div0.mod_mul|]. rewrite Nat.mul_sub_distr_r. lia.
  - by apply bytes_ok_drop.
  - cbn [concat]. rewrite E, take_drop. split; [done|]. constructor; [|done]. rewrite length_take. split; [lia|by apply bytes_ok_take].
Qed.
Lemma feed_all_spec core n t fed todo res : feed_all core n t fed todo = Some res ->
  let cs := fed ++ todo in let at_ j := call_core core (fsql_cycle_detect_feed n t (take (S j) cs)) in
  match res with
  | Some (len, i) => (length fed <= i < length cs)%nat /\ at_ i = Some (Some len) /\ forall j, (length fed <= j < i)%nat -> at_ j = Some None
  | None => forall j, (length fed <= j < length cs)%nat -> at_ j = Some None
  end.
Proof.
  revert fed. induction todo as [|f todo IH]; intros fed; cbn [feed_all].
  - intros [= <-]. cbv zeta. intros j Hj. rewrite length_app in Hj. cbn in Hj. lia.
  - assert (Et : take (S (length fed)) (fed ++ f :: todo) = fed ++ [f]).
    { rewrite take_app_ge by lia. f_equal. replace (S (length fed) - length fed)%nat with 1%nat by lia. done. }
    destruct (call_core core (fsql_cycle_detect_feed n t (fed ++ [f]))) as [[len|]|] eqn:E; cbn [mbind option_bind]; [| |done].
    + intros [= <-]. cbv zeta. rewrite Et, E, length_app. cbn [length]. split_and!; [lia|lia|done|intros; lia].
    + intros H. apply IH in H. cbv zeta in *. rewrite <- app_assoc in H. cbn [app] in H. rewrite length_app in H. cbn [length] in H.
      destruct res as [[len i]|].
      * destruct H as (H1 & H2 & H3). split_and!; [lia|lia|done|]. intros j Hj. destruct (decide (j = length fed)) as [->|]; [by rewrite Et|]. apply H3. lia.
      * intros j Hj. destruct (decide (j = length fed)) as [->|]; [by rewrite Et|]. apply H. lia.
Qed.

(** The detector's session: one init, then the fingerprints fed one at a time,
    each once and in order, up to the first that closes a cycle.  Its calls are
    well formed, and when the core fails in one of them, or gives every result
    as documented, it refuses or answers with what [feed_all] found. *)
Definition feeds (body : core_t -> udf (list Z) * Z) : Prop :=
  (exists r, refuses_text r /\ forall core, body core = r) \/
  exists n t fps, acall_ok (fsql_cycle_detect_init n t) /\
    (forall j, acall_ok (fsql_cycle_detect_feed n t (take (S j) fps))) /\ count fps <= PARSE_MAX_ELEMS /\
    forall core : core_t, match (_ ← call_core core (fsql_cycle_detect_init n t); feed_all core n t [] fps) with
      | None => refuses_text (body core)
      | Some res =>
          (forall j r, call_core core (fsql_cycle_detect_feed n t (take (S j) fps)) = Some r -> result_ok (fsql_cycle_detect_feed n t (take (S j) fps)) r) ->
          answered (body core) /\ fst (body core) = UVal (cycle_text res)
      end.
Lemma cycle_text_ok res : match res with Some (n, i) => size_ok n /\ Z.of_nat i <= PARSE_MAX_ELEMS | None => True end ->
  doc 3 (cycle_text res) /\ len (cycle_text res) < 96.
Proof.
  intros H. destruct res as [[n i]|]; [|split; [|reflexivity]].
  - destruct H as [Hn Hi]. unfold PARSE_MAX_ELEMS in Hi. assert (Hi' : (length (dec_u (Z.of_nat i)) <= 19)%nat) by (apply dec_u_length; lia).
    pose proof (size_length n Hn) as Hn'. unfold cycle_text. split.
    + replace (js "{'detected':true,'cycle_len':" ++ dec_u n ++ js ",'at_index':" ++ dec_u (Z.of_nat i) ++ js "}")
        with (object [(bs "detected", bs "true"); (bs "cycle_len", dec_u n); (bs "at_index", dec_u (Z.of_nat i))])
        by (generalize (dec_u n) (dec_u (Z.of_nat i)); as_object).
      apply (doc_mono 1); [lia|]. apply doc_value, object_value; [done|].
      repeat (apply Forall_cons; split; [split; [reflexivity|first [by apply (V_lit 0 116)|apply nat_value]]|]). constructor.
    + unfold len. rewrite !length_app. change (length (js "{'detected':true,'cycle_len':")) with 29%nat.
      change (length (js ",'at_index':")) with 12%nat. change (length (js "}")) with 1%nat. lia.
  - change (cycle_text None) with (object [(bs "detected", bs "false")]). apply (doc_mono 1); [lia|]. apply doc_value, object_value; [done|].
    constructor; [|constructor]. split; [reflexivity|]. by apply (V_lit 0 102).
Qed.
Lemma cycle_call x s n t cap : (forall n, s_malloc x n = true) -> out_cap cap -> feeds (fun core => fractal_cycle_detect core x s n t cap).
Proof.
  intros Hm Hc. unfold fractal_cycle_detect. destruct s as [s|]; [|out]. destruct n as [n|]; [|out]. destruct t as [t|]; [|out].
  destruct (big s); [out|]. destruct ((n <=? 0) || (t <? 0)) eqn:Eb; [out|]. apply orb_false_iff in Eb as [En%Z.leb_gt Et%Z.ltb_ge].
  destruct (parse_byte_array x s 0) as [[flat|] k] eqn:Ep; [|out]. apply parse_byte_array_ok in Ep as Hp. destruct Hp as [Hb _].
  apply parse_byte_array_count in Ep. cbn [mbind option_bind]. destruct (negb (count flat mod n =? 0)) eqn:Em; [out|]. apply negb_false_iff, Z.eqb_eq in Em.
  destruct (chunks_spec (Z.to_nat n) (length flat) flat) as [Hcat Hch]; [lia|lia| |done|].
  { unfold count in Em. rewrite <- (Z2Nat.id n) in Em by lia. rewrite <- Nat2Z.inj_mod in Em. lia. }
  set (fps := chunks (length flat) (Z.to_nat n) flat) in *.
  assert (Hfps : Forall (fun f => count f = n /\ bytes_ok f) fps).
  { eapply Forall_impl; [exact Hch|]. intros f [H1 H2]. unfold count. split; [lia|done]. }
  assert (Hcount : count fps <= PARSE_MAX_ELEMS).
  { assert (length fps <= length flat)%nat; [|unfold count; lia]. rewrite <- Hcat. clear -Hch En. induction Hch as [|f l [Hf _] _ IH]; [done|].
    cbn [concat length]. rewrite length_app. lia. }
  right. exists n, t, fps. split_and!; [cbn; lia| |done|].
  { intros j. cbn. split_and!; [lia|lia|by apply Forall_take]. }
  intros core. cbn [mbind option_bind]. destruct (call_core core (fsql_cycle_detect_init n t)) as [[]|]; cbn [mbind option_bind]; [|by right].
  destruct (feed_all core n t [] fps) as [res|] eqn:Ef; [|by right]. intros Hres. apply feed_all_spec in Ef. cbn [app length] in Ef.
  assert (Hok : match res with Some (n, i) => size_ok n /\ Z.of_nat i <= PARSE_MAX_ELEMS | None => True end).
  { destruct res as [[m i]|]; [|done]. destruct Ef as (H1 & H2 & _). apply Hres in H2. split; [exact H2|unfold count in Hcount; lia]. }
  destruct (cycle_text_ok res Hok) as [Hd Hl]. destruct (ensure_ok x Hm cap 96 Hc) as (c1 & -> & H1 & H2 & _); [unfold SIZE_MAX; lia|].
  cbn [negb]. split; [|done]. exists (cycle_text res). cbn [fst snd]. split_and!; [done|done|lia|done].
Qed.

(** ** Properties *)


(** The cycle detector answers for the first fingerprint that closes a
    cycle: the bytes are cut into fingerprints of the width asked for, fed in
    order, and the answer is the length and position of the first the core
    reports, or that there is none. *)
Theorem cycle_detect_first core x s n t cap r cap' :
  fractal_cycle_detect core x (Some s) (Some n) (Some t) cap = (UVal r, cap') ->
  exists fps res k, r = cycle_text res /\ parse_byte_array x s 0 = (Some (concat fps), k) /\
    Forall (fun f => count f = n /\ bytes_ok f) fps /\
    let at_ j := call_core core (fsql_cycle_detect_feed n t (take (S j) fps)) in
    match res with
    | Some (len, i) => (i < length fps)%nat /\ at_ i = Some (Some len) /\ forall j, (j < i)%nat -> at_ j = Some None
    | None => forall j, (j < length fps)%nat -> at_ j = Some None
    end.
Proof.
  unfold fractal_cycle_detect. destruct (big s); [done|]. destruct ((n <=? 0) || (t <? 0)) eqn:Eb; [done|]. apply orb_false_iff in Eb as [En%Z.leb_gt _].
  destruct (parse_byte_array x s 0) as [[flat|] k] eqn:Ep; [|done]. cbn [mbind option_bind]. apply parse_byte_array_ok in Ep as Hp. destruct Hp as [Hb _].
  destruct (negb (count flat mod n =? 0)) eqn:Em; [done|]. apply negb_false_iff, Z.eqb_eq in Em.
  destruct (call_core core _) as [[]|]; [|done]. cbn [mbind option_bind].
  destruct (chunks_spec (Z.to_nat n) (length flat) flat) as [Hcat Hch]; [lia|lia| |done|].
  { unfold count in Em. rewrite <- (Z2Nat.id n) in Em by lia. rewrite <- Nat2Z.inj_mod in Em. lia. }
  destruct (feed_all core n t [] _) as [res|] eqn:Ef; [|done]. apply feed_all_spec in Ef. cbn [app length] in Ef.
  destruct (json_out_ensure (s_malloc x) cap 96) as [ok c1]. destruct ok; [|done]. cbn [negb]. intros [= <- <-].
  exists (chunks (length flat) (Z.to_nat n) flat), res, k. rewrite Hcat. split_and!; [done|done| |].
  - eapply Forall_impl; [exact Hch|]. intros f [H1 H2]. unfold count. split; [lia|done].
  - cbv zeta in *. destruct res as [[len i]|].
    + destruct Ef as (H1 & H2 & H3). split_and!; [lia|done|]. intros j Hj. apply H3. lia.
    + intros j Hj. apply Ef. lia.
Qed.

(** A core that reports a cycle at the third fingerprint it is fed. *)
Definition demo_core : core_t := fun T c =>
  let d := S754_zero false in
  match c in acall T return Z * T with
  | fsql_dimension_dfa _ | fsql_dimension_boxcount _ _ _ => (FSQL_OK, d)
  | fsql_dimension_drift _ _ | fsql_vascular_network _ _ _ _ _ | fsql_cortical_folding _ _ _ _ | fsql_nerve_plexus_metric _ _ _ _ _ => (FSQL_OK, (d, d, d))
  | fsql_morphological_complexity _ _ _ => (FSQL_OK, (d, d))
  | fsql_optimize_portfolio_ex _ _ _ _ _ _ _ | fsql_optimize_subset _ _ _ _ _ => (FSQL_OK, ([], d))
  | fsql_change_point_detect _ _ _ _ => (FSQL_OK, [])
  | fsql_periodogram _ _ => (FSQL_OK, [])
  | fsql_spectrogram_entropy _ _ _ _ => (FSQL_OK, [])
  | fsql_state_fingerprint _ _ _ _ => (FSQL_OK, [])
  | fsql_cycle_detect_init _ _ => (FSQL_OK, tt)
  | fsql_cycle_detect_feed _ _ fed => (FSQL_OK, if (length fed =? 3)%nat then Some 2 else None)
  | fsql_tda_persistence_diagram _ _ _ _ _ _ => (FSQL_OK, ([], 0))
  end.
Lemma cycle_detect_first_witness : exists fps len i,
  fst (fractal_cycle_detect demo_core demo_sio (Some (bs "7,9,7,9")) (Some 1) (Some 0) 0) = UVal (cycle_text (Some (len, i))) /\
  (i < length fps)%nat /\ concat fps = [7; 9; 7; 9].
Proof.
  destruct (fractal_cycle_detect demo_core demo_sio (Some (bs "7,9,7,9")) (Some 1) (Some 0) 0) as [o c] eqn:E.
  assert (Ho : o = UVal (cycle_text (Some (2, 2%nat)))) by (apply (f_equal fst) in E; cbn [fst] in E; rewrite <- E; vm_compute; reflexivity). subst o.
  destruct (cycle_detect_first demo_core demo_sio (bs "7,9,7,9") 1 0 0 _ c E) as (fps & res & k & Hr & Hp & _ & H).
  assert (Hc : concat fps = [7; 9; 7; 9]).
  { apply (f_equal fst) in Hp. cbn [fst] in Hp. assert (Some [7; 9; 7; 9] = Some (concat fps)) as He by (rewrite <- Hp; vm_compute; reflexivity). by injection He as <-. }
  destruct res as [[len i]|]; [|vm_compute in Hr; discriminate Hr].
  exists fps, len, i. split; [cbn [fst]; by rewrite Hr|]. split; [apply H|exact Hc].
Defined.
