(* ===== verification/Portfolio.v ===== *)
(** * The enterprise portfolio searches (src/fractalsql_enterprise.c)

    The three multimodal functions: their arguments, the search they ask of
    the enterprise library, the document they print in a growing buffer and
    the audit record of the decision.  The library's searches are a parameter,
    called through [pcall]; the arrays it fills are lists, read by index, so a
    read outside an array is a result of its own ([None]). *)

From Stdlib Require Import SpecFloat.
From stdpp Require Import gmap.
From S2P Require Import Prelude Float Parse Config DaemonConf Session Daemon Hmac Enterprise LedgerFmt Ledger.
From S2P Require Import AuditJson JsonOut Params Redact LedgerUdf Search Vector Analytics.

Definition ENT_MAX_CORPUS_BYTES : Z := 256 * 1024 * 1024.
Definition INT_MAX : Z := 2 ^ 31 - 1.

(** ** The string builder *)

Record jsonbuf := { jb_text : list Z; jb_cap : Z }.
Definition ent_jsonbuf_init (malloc : Z -> bool) : option jsonbuf :=
  if malloc 4096 then Some {| jb_text := []; jb_cap := 4096 |} else None.

(** One turn of the printing loop for the rendered text [t]: printed, grown,
    or failed.  The doubling is the one of [ensure_turn]. *)
Definition append_turn (malloc : Z -> bool) (t : list Z) (jb : jsonbuf) : jsonbuf + option jsonbuf :=
  let need := len t in
  if INT_MAX <? need then inr None
  else if need <? jb_cap jb - len (jb_text jb) then inr (Some {| jb_text := jb_text jb ++ t; jb_cap := jb_cap jb |})
  else
    match while (ensure_turn (u64 (len (jb_text jb) + need + 1))) 66 (if jb_cap jb =? 0 then 256 else jb_cap jb) with
    | Some newcap => if malloc newcap then inl {| jb_text := jb_text jb; jb_cap := newcap |} else inr None
    | None => inr None
    end.
Definition ent_jsonbuf_append (malloc : Z -> bool) (jb : jsonbuf) (t : list Z) : option jsonbuf :=
  default None (while (append_turn malloc t) 2 jb).

(** ** What is asked of the library *)

Inductive pcall : Type -> Type :=
  | fsql_optimize_portfolio_multimodal (mu cov : list double) (n_assets k n_restarts : Z) (overlap_threshold quality_frac : double)
      (seed : Z) : pcall (list double * list double * Z)
  | fsql_optimize_portfolio_multimodal_ex (mu cov : list double) (n_assets k n_restarts : Z) (overlap_threshold quality_frac : double)
      (seed : Z) (use_obl : bool) (mode : diffusion) : pcall (list double * list double * Z)
  | fsql_optimize_portfolio_multimodal_pareto (mu cov : list double) (n_assets k n_restarts max_front seed : Z) (use_obl : bool)
      (mode : diffusion) : pcall (list double * list double * list double * Z).

Definition base_name : list Z := bs "fsql_optimize_portfolio_multimodal".
Definition ex_name : list Z := bs "fsql_optimize_portfolio_multimodal_ex".
Definition pareto_name : list Z := bs "fsql_optimize_portfolio_multimodal_pareto".

(** ** Arguments *)

Definition parse_diffusion_mode (s : list Z) : option diffusion :=
  if (length s =? 8)%nat && bytes_eqb (take 8 s) (bs "gaussian") then Some FSQL_SFS_DIFFUSE_GAUSSIAN
  else if (length s =? 4)%nat && bytes_eqb (take 4 s) (bs "levy") then Some FSQL_SFS_DIFFUSE_LEVY else None.
Definition diffusion_of (s : option (list Z)) : option diffusion :=
  match s with Some s => parse_diffusion_mode s | None => Some FSQL_SFS_DIFFUSE_GAUSSIAN end.
Definition is_levy (m : diffusion) : bool := match m with FSQL_SFS_DIFFUSE_LEVY => true | FSQL_SFS_DIFFUSE_GAUSSIAN => false end.

Definition d_zero : double := S754_zero false.
Definition d_one : double := S754_finite false 4503599627370496 (-52).
Definition d_div : double -> double -> double := SFdiv 53 1024.
Definition overlap_ok (overlap : double) : bool := fleb d_zero overlap && fleb overlap d_one.
Definition qfrac_ok (qfrac : double) : bool := fltb d_zero qfrac && fleb qfrac d_one.
Definition clamp_seed (s : Z) : Z := if s <? 0 then 0 else s.

(** Both vectors, when their sizes and [k] agree. *)
Definition portfolio_inputs (y : sio) (mu cov : list Z) (k : Z) : option (list double * list double) :=
  '(mu, p) ← series y mu 0;
  '(cov, _) ← series y cov p;
  if negb (count cov =? u64 (count mu * count mu)) || (k <=? 0) || (count mu <? k) then None else Some (mu, cov).
Definition too_long (mu cov : list Z) : bool := (ENT_MAX_CORPUS_BYTES <? len mu) || (ENT_MAX_CORPUS_BYTES <? len cov).

(** ** The document *)

(** The library's count, clamped to the arrays' room. *)
Definition clamp_found (n_found room : Z) : Z :=
  let n := if room <? n_found then room else n_found in if n <? 0 then 0 else n.

(** The weights of candidate [c]. *)
Definition row (n_assets : nat) (weights : list double) (c : nat) : option (list double) :=
  mapM (fun i => weights !! (c * n_assets + i)%nat) (seq 0 n_assets).
(** A candidate: the text before its weights, and its weights. *)
Definition sharpe_head (sharpe : double) : list Z := js "{'sharpe':" ++ fmt_g 10 sharpe ++ js ",'weights':[".
Definition sharpe_rows (n_assets : nat) (weights sharpes : list double) (n_found : Z) : option (list (list Z * list double)) :=
  mapM (fun c => s ← sharpes !! c; ws ← row n_assets weights c; Some (sharpe_head s, ws)) (seq 0 (Z.to_nat n_found)).
Definition sharpe_of (ret risk : double) : double := if feqb risk d_zero then d_zero else d_div ret risk.
Definition pareto_head (ret risk : double) : list Z :=
  js "{'return':" ++ fmt_g 10 ret ++ js ",'risk':" ++ fmt_g 10 risk ++ js ",'sharpe':" ++ fmt_g 10 (sharpe_of ret risk) ++ js ",'weights':[".
Definition pareto_rows (n_assets : nat) (weights returns risks : list double) (n_found : Z) : option (list (list Z * list double)) :=
  mapM (fun c => r ← returns !! c; k ← risks !! c; ws ← row n_assets weights c; Some (pareto_head r k, ws)) (seq 0 (Z.to_nat n_found)).

Section Print.
Context (malloc : Z -> bool).
Fixpoint put_weights (first : bool) (ws : list double) (jb : jsonbuf) : option jsonbuf :=
  match ws with
  | [] => Some jb
  | w :: r => jb ← ent_jsonbuf_append malloc jb (comma first (fmt_g 10 w)); put_weights false r jb
  end.
Fixpoint put_rows (first : bool) (rows : list (list Z * list double)) (jb : jsonbuf) : option jsonbuf :=
  match rows with
  | [] => Some jb
  | (head, ws) :: r =>
      jb ← ent_jsonbuf_append malloc jb (comma first head);
      jb ← put_weights true ws jb;
      jb ← ent_jsonbuf_append malloc jb (bs "]}");
      put_rows false r jb
  end.
Definition print_found (n_found : Z) (rows : list (list Z * list double)) : option (list Z) :=
  jb ← ent_jsonbuf_init malloc;
  jb ← ent_jsonbuf_append malloc jb (js "{'n_found':" ++ dec_d n_found ++ js ",'candidates':[");
  jb ← put_rows true rows jb;
  jb ← ent_jsonbuf_append malloc jb (bs "]}");
  Some (jb_text jb).
End Print.

(** ** The functions *)

Section Bodies.
Context {DG : Digest}.
Context (getenv : list Z -> option (list Z)).
Context (EVP_DigestVerify : list Z -> list Z -> list Z -> bool).
Context (dl_ok : list Z -> bool) (dl_sym : list Z -> list Z -> bool).
Context (lib : forall T, pcall T -> Z * T).
Context (mem_of : double -> list Z).          (* the eight bytes a double is in memory *)

Abbreviation ensure := (ensure getenv EVP_DigestVerify dl_ok dl_sym).

(** Is an optional symbol resolved? *)
Definition symbol (u : ust) (name : list Z) : bool :=
  match g_ent_handle (u_ent u) with Some h => dl_sym (h_image h) name | None => false end.

Section Call.
Context (x : uio) (y : sio).                  (* the ledger; the call's buffers *)

Definition inputs_hash (mu cov : list double) : list Z := ledger_hex_encode (sha256 (flat_map mem_of mu ++ flat_map mem_of cov)).
(** What the two auditors share: the record is a head, the result as it is
    and two braces. *)
Definition write_decision (mu cov : list double) (head result : list Z) (u : ust) : ust :=
  if negb (g_ent_loaded (u_ent u)) then u
  else if negb (s_malloc y (count mu * 8 + count mu * count mu * 8)) then u
  else if 1024 <=? len head then u
  else
    let result := cstr result in
    if negb (s_malloc y (len head + len result + 3)) then u
    else snd (fractal_ledger_write_kind2 getenv x (head ++ result ++ bs "}}") u).

Definition multimodal_head (mu cov : list double) (k n_restarts : Z) (overlap qfrac : double) (seed : Z) : list Z :=
  js "{'type':'portfolio_optimize_multimodal','entry':{'seed':" ++ dec_d seed ++ js ",'n_assets':" ++ dec_u (count mu) ++
  js ",'k':" ++ dec_u k ++ js ",'n_restarts':" ++ dec_d n_restarts ++ js ",'overlap_threshold':" ++ fmt_g 10 overlap ++
  js ",'quality_frac':" ++ fmt_g 10 qfrac ++ js ",'inputs_hash':'" ++ inputs_hash mu cov ++ js "','result':".
Definition portfolio_multimodal_audit_log_best_effort (mu cov : list double) (k n_restarts : Z) (overlap qfrac : double) (seed : Z)
    (result : list Z) (u : ust) : ust :=
  write_decision mu cov (multimodal_head mu cov k n_restarts overlap qfrac seed) result u.

Definition pareto_record_head (mu cov : list double) (k n_restarts max_front seed : Z) : list Z :=
  js "{'type':'portfolio_optimize_multimodal_pareto','entry':{'seed':" ++ dec_d seed ++ js ",'n_assets':" ++ dec_u (count mu) ++
  js ",'k':" ++ dec_u k ++ js ",'n_restarts':" ++ dec_d n_restarts ++ js ",'max_front':" ++ dec_d max_front ++
  js ",'inputs_hash':'" ++ inputs_hash mu cov ++ js "','result':".
Definition portfolio_multimodal_pareto_audit_log_best_effort (mu cov : list double) (k n_restarts max_front seed : Z)
    (result : list Z) (u : ust) : ust :=
  write_decision mu cov (pareto_record_head mu cov k n_restarts max_front seed) result u.

(** From the library's answer to the function's. *)
Definition report_sharpes (mu cov : list double) (k n_restarts : Z) (overlap qfrac : double) (seed : Z)
    (answer : Z * (list double * list double * Z)) (u : ust) : option (udf (list Z)) * ust :=
  let '(rc, (weights, sharpes, n_found)) := answer in
  if negb (rc =? FSQL_OK) then (Some UError, u) else
  let n_found := clamp_found n_found n_restarts in
  match sharpe_rows (length mu) weights sharpes n_found with
  | None => (None, u)
  | Some rows =>
    match print_found (s_malloc y) n_found rows with
    | None => (Some UError, u)
    | Some t => (Some (UVal t), portfolio_multimodal_audit_log_best_effort mu cov k n_restarts overlap qfrac seed t u)
    end
  end.

Definition fractal_optimize_portfolio_multimodal (mu cov : option (list Z)) (k n_restarts : option Z) (overlap qfrac : option double)
    (seed : option Z) (u : ust) : option (udf (list Z)) * ust :=
  match mu, cov, k, n_restarts, overlap, qfrac, seed with
  | Some mu, Some cov, Some k, Some n_restarts, Some overlap, Some qfrac, Some seed =>
    let '(ok, u) := ensure x u in
    if negb ok || negb (symbol u base_name) then (Some UNull, u) else
    if too_long mu cov then (Some UError, u) else
    let seed := clamp_seed seed in
    if (n_restarts <? 1) || (64 <? n_restarts) then (Some UError, u) else
    if negb (overlap_ok overlap) then (Some UError, u) else
    if negb (qfrac_ok qfrac) then (Some UError, u) else
    match portfolio_inputs y mu cov k with
    | None => (Some UError, u)
    | Some (mu, cov) =>
      if negb (s_malloc y (n_restarts * count mu * 8)) || negb (s_malloc y (n_restarts * 8)) then (Some UError, u) else
      report_sharpes mu cov k n_restarts overlap qfrac seed
        (lib _ (fsql_optimize_portfolio_multimodal mu cov (count mu) k n_restarts overlap qfrac seed)) u
    end
  | _, _, _, _, _, _, _ => (Some UNull, u)
  end.

Definition fractal_optimize_portfolio_multimodal_ex (mu cov : option (list Z)) (k n_restarts : option Z) (overlap qfrac : option double)
    (seed use_obl : option Z) (mode : option (list Z)) (u : ust) : option (udf (list Z)) * ust :=
  match mu, cov, k, n_restarts, overlap, qfrac, seed, use_obl with
  | Some mu, Some cov, Some k, Some n_restarts, Some overlap, Some qfrac, Some seed, Some use_obl =>
    let '(ok, u) := ensure x u in
    if negb ok || negb (symbol u base_name) && negb (symbol u ex_name) then (Some UNull, u) else
    if too_long mu cov then (Some UError, u) else
    let seed := clamp_seed seed in
    let use_obl := negb (use_obl =? 0) in
    match diffusion_of mode with
    | None => (Some UError, u)
    | Some mode =>
      if (n_restarts <? 1) || (64 <? n_restarts) then (Some UError, u) else
      if negb (overlap_ok overlap) then (Some UError, u) else
      if negb (qfrac_ok qfrac) then (Some UError, u) else
      match portfolio_inputs y mu cov k with
      | None => (Some UError, u)
      | Some (mu, cov) =>
        if negb (symbol u ex_name) && (use_obl || is_levy mode) then (Some UNull, u) else
        if negb (s_malloc y (n_restarts * count mu * 8)) || negb (s_malloc y (n_restarts * 8)) then (Some UError, u) else
        report_sharpes mu cov k n_restarts overlap qfrac seed
          (if symbol u ex_name
           then lib _ (fsql_optimize_portfolio_multimodal_ex mu cov (count mu) k n_restarts overlap qfrac seed use_obl mode)
           else lib _ (fsql_optimize_portfolio_multimodal mu cov (count mu) k n_restarts overlap qfrac seed)) u
      end
    end
  | _, _, _, _, _, _, _, _ => (Some UNull, u)
  end.

Definition report_front (mu cov : list double) (k n_restarts max_front seed : Z)
    (answer : Z * (list double * list double * list double * Z)) (u : ust) : option (udf (list Z)) * ust :=
  let '(rc, (weights, returns, risks, n_found)) := answer in
  if negb (rc =? FSQL_OK) then (Some UError, u) else
  let n_found := clamp_found n_found max_front in
  match pareto_rows (length mu) weights returns risks n_found with
  | None => (None, u)
  | Some rows =>
    match print_found (s_malloc y) n_found rows with
    | None => (Some UError, u)
    | Some t => (Some (UVal t), portfolio_multimodal_pareto_audit_log_best_effort mu cov k n_restarts max_front seed t u)
    end
  end.
Definition fractal_optimize_portfolio_multimodal_pareto (mu cov : option (list Z)) (k n_restarts max_front seed use_obl : option Z)
    (mode : option (list Z)) (u : ust) : option (udf (list Z)) * ust :=
  match mu, cov, k, n_restarts, max_front, seed, use_obl with
  | Some mu, Some cov, Some k, Some n_restarts, Some max_front, Some seed, Some use_obl =>
    let '(ok, u) := ensure x u in
    if negb ok || negb (symbol u pareto_name) then (Some UNull, u) else
    if too_long mu cov then (Some UError, u) else
    let seed := clamp_seed seed in
    let use_obl := negb (use_obl =? 0) in
    match diffusion_of mode with
    | None => (Some UError, u)
    | Some mode =>
      if (n_restarts <? 1) || (64 <? n_restarts) then (Some UError, u) else
      if (max_front <? 1) || (n_restarts <? max_front) then (Some UError, u) else
      match portfolio_inputs y mu cov k with
      | None => (Some UError, u)
      | Some (mu, cov) =>
        if negb (s_malloc y (max_front * count mu * 8)) || negb (s_malloc y (max_front * 8)) then (Some UError, u) else
        report_front mu cov k n_restarts max_front seed
          (lib _ (fsql_optimize_portfolio_multimodal_pareto mu cov (count mu) k n_restarts max_front seed use_obl mode)) u
      end
    end
  | _, _, _, _, _, _, _ => (Some UNull, u)
  end.
End Call.
End Bodies.

(** ** The [_init] functions: the argument types; [None] refuses. *)

Definition fractal_optimize_portfolio_multimodal_init :=
  double_init [STRING_RESULT; STRING_RESULT; INT_RESULT; INT_RESULT; REAL_RESULT; REAL_RESULT; INT_RESULT].
Definition fractal_optimize_portfolio_multimodal_ex_init :=
  double_init [STRING_RESULT; STRING_RESULT; INT_RESULT; INT_RESULT; REAL_RESULT; REAL_RESULT; INT_RESULT; INT_RESULT; STRING_RESULT].
Definition fractal_optimize_portfolio_multimodal_pareto_init :=
  double_init [STRING_RESULT; STRING_RESULT; INT_RESULT; INT_RESULT; INT_RESULT; INT_RESULT; INT_RESULT; STRING_RESULT].
