(* ===== verification/PortfolioProofs.v ===== *)
(** * Theorems about the enterprise portfolio searches *)

From Stdlib Require Import SpecFloat.
From stdpp Require Import gmap.
From S2P Require Import Prelude Float FloatValid Parse ParseProofs Config DaemonConf Session Daemon Hmac Enterprise LedgerFmt Ledger LedgerProofs HeadProofs.
From S2P Require Import AuditJson JsonOut JsonText Params Redact LedgerUdf AuditProofs Search SearchProofs Vector Analytics AnalyticsProofs Portfolio.

(** ** The string builder *)

Lemma append_text malloc jb t jb' : ent_jsonbuf_append malloc jb t = Some jb' -> jb_text jb' = jb_text jb ++ t.
Proof.
  unfold ent_jsonbuf_append. cbn [while].
  assert (H : forall b, match append_turn malloc t b with inl b' => jb_text b' = jb_text b | inr (Some r) => jb_text r = jb_text b ++ t | inr None => True end).
  { intros b. unfold append_turn. destruct (_ <? _); [done|]. destruct (_ <? _); [done|]. destruct (while _ _ _); [|done]. by destruct (malloc _). }
  pose proof (H jb) as H1. destruct (append_turn malloc t jb) as [b|r]; [|cbn; intros ->; done].
  pose proof (H b) as H2. destruct (append_turn malloc t b) as [b'|r]; cbn; [done|]. intros ->. by rewrite H2, H1.
Qed.

Definition jb_ok (jb : jsonbuf) : Prop := 256 <= jb_cap jb <= SIZE_MAX /\ len (jb_text jb) < jb_cap jb.
(** With memory a text is always printed, in at most two turns, and the
    buffer keeps room for its terminating NUL. *)
Lemma append_ok malloc jb t : (forall n, malloc n = true) -> jb_ok jb -> len t <= INT_MAX -> len (jb_text jb) + len t + 1 <= SIZE_MAX ->
  exists jb', ent_jsonbuf_append malloc jb t = Some jb' /\ jb_ok jb' /\ jb_text jb' = jb_text jb ++ t.
Proof.
  intros Hm [Hc Hl] Ht Hs. unfold ent_jsonbuf_append. cbn [while].
  assert (H1 : forall b, len t < jb_cap b - len (jb_text b) -> append_turn malloc t b = inr (Some {| jb_text := jb_text b ++ t; jb_cap := jb_cap b |})).
  { intros b Hb. unfold append_turn. rewrite (proj2 (Z.ltb_ge _ _)) by lia. by rewrite (proj2 (Z.ltb_lt _ _)) by lia. }
  destruct (Z_lt_le_dec (len t) (jb_cap jb - len (jb_text jb))) as [Hr|Hr].
  - rewrite H1 by done. eexists. split; [reflexivity|]. split; [|done]. unfold jb_ok in *. cbn [jb_cap jb_text]. rewrite len_app. lia.
  - assert (H0 : 0 <= len t /\ 0 <= len (jb_text jb)) by (unfold len; lia).
    unfold append_turn at 1. rewrite (proj2 (Z.ltb_ge _ _)) by lia. rewrite (proj2 (Z.ltb_ge _ _)) by lia.
    rewrite u64_id by (unfold SIZE_MAX in *; lia). rewrite (proj2 (Z.eqb_neq _ _)) by lia.
    destruct (ensure_loop (len (jb_text jb) + len t + 1) 65 (jb_cap jb)) as (r & -> & H2 & H3); [lia|lia| |].
    { change (Z.of_nat 65) with 65. change (2 ^ 65) with (2 * 2 ^ 64). lia. }
    rewrite Hm, H1 by (cbn [jb_cap jb_text]; lia). eexists. split; [reflexivity|]. split; [|done]. unfold jb_ok. cbn [jb_cap jb_text]. rewrite len_app. lia.
Qed.

(** ** The document *)

Definition row_text (r : list Z * list double) : list Z := fst r ++ joined (fmt_g 10) true (snd r) ++ bs "]}".
Definition found_text (n_found : Z) (rows : list (list Z * list double)) : list Z :=
  (js "{'n_found':" ++ dec_d n_found ++ js ",'candidates':[") ++ joined row_text true rows ++ bs "]}".

Lemma put_weights_text malloc first ws jb jb' : put_weights malloc first ws jb = Some jb' -> jb_text jb' = jb_text jb ++ joined (fmt_g 10) first ws.
Proof.
  revert first jb. induction ws as [|w ws IH]; intros first jb; cbn [put_weights joined]; [intros [= ->]; by rewrite app_nil_r|].
  destruct (ent_jsonbuf_append _ _ _) as [b|] eqn:E; [|done]. cbn [mbind option_bind]. intros H%IH. rewrite H. apply append_text in E as ->. by rewrite <- app_assoc.
Qed.
Lemma put_rows_text malloc first rows jb jb' : put_rows malloc first rows jb = Some jb' -> jb_text jb' = jb_text jb ++ joined row_text first rows.
Proof.
  revert first jb. induction rows as [|[h ws] rows IH]; intros first jb; cbn [put_rows joined]; [intros [= ->]; by rewrite app_nil_r|].
  destruct (ent_jsonbuf_append _ _ (comma _ _)) as [b|] eqn:E1; [|done]. cbn [mbind option_bind].
  destruct (put_weights _ _ _ _) as [b2|] eqn:E2; [|done]. cbn [mbind option_bind].
  destruct (ent_jsonbuf_append _ _ (bs "]}")) as [b3|] eqn:E3; [|done]. cbn [mbind option_bind]. intros H%IH. rewrite H.
  apply append_text in E1, E3. apply put_weights_text in E2. rewrite E3, E2, E1. unfold row_text. cbn [fst snd].
  destruct first; cbn [comma]; repeat (rewrite <- ?app_assoc; cbn [app]); reflexivity.
Qed.
(** What is printed is the whole document, whatever memory there is. *)
Lemma print_found_text malloc n rows t : print_found malloc n rows = Some t -> t = found_text n rows.
Proof.
  unfold print_found, ent_jsonbuf_init. destruct (malloc 4096); [|done]. cbn [mbind option_bind].
  destruct (ent_jsonbuf_append _ _ (_ ++ _)) as [b|] eqn:E1; [|done]. cbn [mbind option_bind].
  destruct (put_rows _ _ _ _) as [b2|] eqn:E2; [|done]. cbn [mbind option_bind].
  destruct (ent_jsonbuf_append _ _ (bs "]}")) as [b3|] eqn:E3; [|done]. cbn [mbind option_bind]. intros [= <-].
  apply append_text in E1, E3. apply put_rows_text in E2. rewrite E3, E2, E1. cbn [jb_text app]. unfold found_text. by rewrite <- !app_assoc.
Qed.

Definition small_row (n : nat) (r : list Z * list double) : Prop :=
  (length (fst r) <= 200)%nat /\ (length (snd r) = n)%nat /\ Forall num_ok (snd r).
Lemma weight_length w : num_ok w -> (length (fmt_g 10 w) <= 17)%nat.
Proof. intros [Hv _]. apply (fmt_g_length 10); [lia|]. by apply valid64_range. Qed.
Lemma comma_len first t : len (comma first t) <= len t + 1.
Proof. unfold len. destruct first; cbn [comma length]; lia. Qed.
Lemma put_weights_ok malloc first ws jb : (forall n, malloc n = true) -> Forall num_ok ws -> jb_ok jb ->
  len (jb_text jb) + len (joined (fmt_g 10) first ws) + 1 <= SIZE_MAX -> exists jb', put_weights malloc first ws jb = Some jb' /\ jb_ok jb'.
Proof.
  intros Hm Hw. revert first jb. induction Hw as [|w ws Hw1 _ IH]; intros first jb Hj Hs; cbn [put_weights joined] in *; [by exists jb|].
  rewrite len_app in Hs. pose proof (weight_length w Hw1). pose proof (comma_len first (fmt_g 10 w)). assert (len (fmt_g 10 w) <= 17) by (unfold len; lia).
  assert (0 <= len (joined (fmt_g 10) false ws)) by (unfold len; lia).
  destruct (append_ok malloc jb (comma first (fmt_g 10 w)) Hm Hj) as (b & -> & Hb & Eb); [unfold INT_MAX; lia|lia|].
  cbn [mbind option_bind]. apply IH; [done|]. rewrite Eb, len_app. lia.
Qed.
Lemma put_rows_ok malloc n first rows jb : (forall n, malloc n = true) -> Forall (small_row n) rows -> jb_ok jb ->
  len (jb_text jb) + len (joined row_text first rows) + 1 <= SIZE_MAX -> exists jb', put_rows malloc first rows jb = Some jb' /\ jb_ok jb'.
Proof.
  intros Hm Hr. revert first jb. induction Hr as [|[h ws] rows (H1 & _ & H2) _ IH]; intros first jb Hj Hs; cbn [put_rows joined fst snd] in *; [by exists jb|].
  rewrite len_app in Hs. assert (0 <= len (joined row_text false rows)) by (unfold len; lia).
  assert (El : len (comma first (row_text (h, ws))) = len (comma first h) + len (joined (fmt_g 10) true ws) + 2).
  { unfold row_text, len. cbn [fst snd]. destruct first; cbn [comma length]; rewrite !length_app; cbn [length bs]; lia. }
  pose proof (comma_len first h). assert (0 <= len (joined (fmt_g 10) true ws)) by (unfold len; lia).
  destruct (append_ok malloc jb (comma first h) Hm Hj) as (b & Eb' & Hb & Eb); [unfold INT_MAX, len in *; lia|lia|].
  rewrite Eb'. cbn [mbind option_bind]. destruct (put_weights_ok malloc true ws b Hm H2 Hb) as (b2 & E2 & Hb2); [rewrite Eb, len_app; lia|].
  rewrite E2. cbn [mbind option_bind]. apply put_weights_text in E2.
  destruct (append_ok malloc b2 (bs "]}") Hm Hb2) as (b3 & E3' & Hb3 & E3); [done|rewrite E2, Eb, !len_app; change (len (bs "]}")) with 2; lia|].
  rewrite E3'. cbn [mbind option_bind]. apply IH; [done|]. rewrite E3, E2, Eb, !len_app. change (len (bs "]}")) with 2. lia.
Qed.
Lemma rows_len n first rows : Forall (small_row n) rows -> len (joined row_text first rows) <= (203 + 18 * Z.of_nat n) * count rows.
Proof.
  intros H. pose proof (joined_length row_text (202 + 18 * n) first rows) as Hj.
  assert (Forall (fun r => (length (row_text r) <= 202 + 18 * n)%nat) rows).
  { eapply Forall_impl; [exact H|]. intros [h ws] (H1 & H2 & H3). cbn [fst snd] in *. unfold row_text. cbn [fst snd]. rewrite !length_app. cbn [length bs].
    pose proof (joined_length (fmt_g 10) 17 true ws) as Hw. rewrite H2 in Hw. specialize (Hw ltac:(eapply Forall_impl; [exact H3|]; apply weight_length)). lia. }
  specialize (Hj H0). unfold len, count. nia.
Qed.
(** With memory the document is printed. *)
Lemma print_found_ok malloc n n_found rows : (forall n, malloc n = true) -> Forall (small_row n) rows -> Z.of_nat n <= PARSE_MAX_ELEMS -> 
  0 <= n_found <= 64 -> count rows <= 64 -> print_found malloc n_found rows = Some (found_text n_found rows).
Proof.
  intros Hm Hr Hn Hf Hc. destruct (print_found malloc n_found rows) as [t|] eqn:E; [by rewrite (print_found_text _ _ _ _ E)|]. exfalso.
  unfold print_found, ent_jsonbuf_init in E. rewrite Hm in E. cbn [mbind option_bind] in E.
  assert (length (dec_u n_found) <= 20)%nat by (apply dec_u_length; [change (Z.of_nat 20) with 20|]; lia).
  set (hd := _ ++ _ ++ _) in E. assert (Hh : len hd <= 60).
  { subst hd. unfold dec_d. rewrite (proj2 (Z.ltb_ge _ _)) by lia. unfold len. rewrite !length_app.
    change (length (js "{'n_found':")) with 11%nat. change (length (js ",'candidates':[")) with 15%nat. lia. }
  destruct (append_ok malloc {| jb_text := []; jb_cap := 4096 |} hd Hm) as (b & Eb' & Hb & Eb);
    [split; [unfold SIZE_MAX; cbn; lia|done]|unfold INT_MAX; lia|cbn [jb_text]; change (len []) with 0; unfold SIZE_MAX; lia|]. rewrite Eb' in E. cbn [mbind option_bind jb_text app] in *.
  pose proof (rows_len n true rows Hr) as Hl. unfold PARSE_MAX_ELEMS in Hn.
  assert (Hl2 : len (joined row_text true rows) <= (203 + 18 * 1048576) * 64) by (unfold count in *; nia).
  destruct (put_rows_ok malloc n true rows b Hm Hr Hb) as (b2 & E2 & Hb2); [rewrite Eb; unfold SIZE_MAX; lia|].
  rewrite E2 in E. cbn [mbind option_bind] in E. apply put_rows_text in E2.
  destruct (append_ok malloc b2 (bs "]}") Hm Hb2) as (b3 & E3 & _); [done|rewrite E2, Eb, !len_app; unfold SIZE_MAX; change (len (bs "]}")) with 2; lia|].
  rewrite E3 in E. done.
Qed.

Lemma g_value w : num_ok w -> value 0 (fmt_g 10 w).
Proof. intros [_ Hf]. apply V_num, fmt_g_num; [lia|done]. Qed.
Lemma g_array ws n : Forall num_ok ws -> value (S n) (91 :: joined (fmt_g 10) true ws ++ [93]).
Proof. intros H. apply array_value. eapply Forall_impl; [exact H|]. intros d Hd. apply (proj1 value_mono 0%nat); [by apply g_value|lia]. Qed.
Lemma nonneg_value n : 0 <= n -> value 0 (dec_d n).
Proof. intros H. unfold dec_d. rewrite (proj2 (Z.ltb_ge _ _)) by lia. apply nat_value. Qed.
Lemma nonneg_length n : 0 <= n < 2 ^ 64 -> (length (dec_d n) <= 20)%nat.
Proof. intros H. unfold dec_d. rewrite (proj2 (Z.ltb_ge _ _)) by lia. by apply seed_len. Qed.
(** Numbers have no NUL in them. *)
Lemma jnum_no_nul l : jnum l -> no_nul l.
Proof.
  assert (Hd : forall l, all_digits l -> no_nul l).
  { intros x [_ H]. eapply Forall_impl; [exact H|]. unfold isdigit. intros c Hc. lia. }
  assert (Hl : forall c, c <> 0 -> no_nul [c]) by (intros; by constructor).
  intros (s & ds & f & e & -> & Hs & H1 & Hf & He). unfold no_nul in *. rewrite !Forall_app. split_and!.
  - destruct Hs as [->| ->]; [constructor|by apply Hl].
  - by apply Hd.
  - destruct Hf as [->|(f' & -> & Hf)]; [constructor|]. constructor; [done|by apply Hd].
  - destruct He as [->|(a & sg & b & -> & Ha & Hg & Hb)]; [constructor|]. constructor; [destruct Ha; lia|]. apply Forall_app. split; [|by apply Hd].
    destruct Hg as [->|[->| ->]]; [constructor|by apply Hl|by apply Hl].
Qed.
Lemma joined_no_nul {A} (f : A -> list Z) first l : Forall (fun a => no_nul (f a)) l -> no_nul (joined f first l).
Proof.
  intros H. revert first. induction H as [|a l Ha _ IH]; intros first; cbn [joined]; [constructor|]. apply Forall_app. split; [|apply IH].
  destruct first; [done|]. by constructor.
Qed.
Lemma plain_no_nul l : plain_name l = true -> no_nul l.
Proof. unfold plain_name, no_nul. rewrite forallb_forall, Forall_forall. intros H c Hc%list_elem_of_In%H. lia. Qed.
Ltac literal_no_nul := unfold no_nul; vm_compute; repeat (apply Forall_cons; split; [discriminate|]); apply Forall_nil_2.

(** A candidate's row, printed, is an object. *)
Definition row_ok (r : list Z * list double) : Prop := value 2 (row_text r) /\ no_nul (row_text r).
Lemma g_no_nul w : num_ok w -> no_nul (fmt_g 10 w).
Proof. intros [_ H]. apply jnum_no_nul, fmt_g_num; [lia|done]. Qed.
Lemma weights_no_nul ws : Forall num_ok ws -> no_nul (joined (fmt_g 10) true ws).
Proof. intros H. apply joined_no_nul. eapply Forall_impl; [exact H|]. apply g_no_nul. Qed.
Lemma sharpe_row_ok s ws : num_ok s -> Forall num_ok ws -> row_ok (sharpe_head s, ws) /\ (length (sharpe_head s) <= 200)%nat.
Proof.
  intros Hs Hw. assert (E : row_text (sharpe_head s, ws) = object [(bs "sharpe", fmt_g 10 s); (bs "weights", 91 :: joined (fmt_g 10) true ws ++ [93])]).
  { unfold row_text, sharpe_head. cbn [fst snd]. generalize (fmt_g 10 s) (joined (fmt_g 10) true ws). as_object. }
  split; [split|].
  - rewrite E. apply object_value; [done|]. apply Forall_cons; split; [split; [reflexivity|apply (proj1 value_mono 0%nat); [by apply g_value|lia]]|].
    apply Forall_cons; split; [split; [reflexivity|by apply g_array]|constructor].
  - unfold row_text, sharpe_head. cbn [fst snd]. unfold no_nul. rewrite !Forall_app.
    split_and!; [literal_no_nul|by apply g_no_nul|literal_no_nul|by apply weights_no_nul|literal_no_nul].
  - apply weight_length in Hs. unfold sharpe_head. rewrite !length_app. change (length (js "{'sharpe':")) with 10%nat. change (length (js ",'weights':[")) with 12%nat. lia.
Qed.
Lemma pareto_row_ok r k ws : num_ok r -> num_ok k -> num_ok (sharpe_of r k) -> Forall num_ok ws ->
  row_ok (pareto_head r k, ws) /\ (length (pareto_head r k) <= 200)%nat.
Proof.
  intros Hr Hk Hs Hw. assert (E : row_text (pareto_head r k, ws) = object [(bs "return", fmt_g 10 r); (bs "risk", fmt_g 10 k);
      (bs "sharpe", fmt_g 10 (sharpe_of r k)); (bs "weights", 91 :: joined (fmt_g 10) true ws ++ [93])]).
  { unfold row_text, pareto_head. cbn [fst snd]. generalize (fmt_g 10 r) (fmt_g 10 k) (fmt_g 10 (sharpe_of r k)) (joined (fmt_g 10) true ws). intros; unfold object, member; cbn [joined comma fst snd app]; repeat (rewrite <- ?app_assoc; cbn); reflexivity. }
  split; [split|].
  - rewrite E. apply object_value; [done|]. repeat (apply Forall_cons; split; [split; [reflexivity|apply (proj1 value_mono 0%nat); [by apply g_value|lia]]|]).
    apply Forall_cons; split; [split; [reflexivity|by apply g_array]|constructor].
  - unfold row_text, pareto_head. cbn [fst snd]. unfold no_nul. rewrite !Forall_app.
    split_and!; try (by apply g_no_nul); try (by apply weights_no_nul); literal_no_nul.
  - apply weight_length in Hr, Hk, Hs. unfold pareto_head. rewrite !length_app. change (length (js "{'return':")) with 10%nat.
    change (length (js ",'risk':")) with 8%nat. change (length (js ",'sharpe':")) with 10%nat. change (length (js ",'weights':[")) with 12%nat. lia.
Qed.
Lemma found_text_ok n rows : 0 <= n -> Forall row_ok rows -> value 4 (found_text n rows) /\ no_nul (found_text n rows).
Proof.
  intros Hn Hr. assert (E : found_text n rows = object [(bs "n_found", dec_d n); (bs "candidates", 91 :: joined row_text true rows ++ [93])]).
  { unfold found_text. generalize (dec_d n) (joined row_text true rows). as_object. }
  split.
  - rewrite E. apply object_value; [done|]. apply Forall_cons; split; [split; [reflexivity|apply (proj1 value_mono 0%nat); [by apply nonneg_value|lia]]|].
    apply Forall_cons; split; [split; [reflexivity|]|constructor]. apply array_value. eapply Forall_impl; [exact Hr|]. by intros r [].
  - unfold found_text, no_nul. rewrite !Forall_app. split_and!; [literal_no_nul| |literal_no_nul| |literal_no_nul].
    + apply jnum_no_nul. unfold dec_d. rewrite (proj2 (Z.ltb_ge _ _)) by lia. apply dec_u_num.
    + apply joined_no_nul. eapply Forall_impl; [exact Hr|]. by intros r [].
Qed.

(** ** Reading the library's arrays *)

Lemma mapM_total {A B} (f : A -> option B) (P : B -> Prop) l : (forall x, x ∈ l -> exists y, f x = Some y /\ P y) ->
  exists ys, mapM f l = Some ys /\ length ys = length l /\ Forall P ys.
Proof.
  induction l as [|x l IH]; intros H; [by exists []|]. destruct (H x) as (y & E & Hy); [by left|].
  destruct IH as (ys & E2 & Hl & HP); [intros; apply H; by right|]. exists (y :: ys). cbn [mapM]. change (mapM f l) with (mapM f l) in E2.
  rewrite E. cbn [mbind option_bind]. unfold mapM in E2 |- *. rewrite E2. cbn. split_and!; [done|by rewrite Hl|by constructor].
Qed.
Lemma take_num weights m i : Forall num_ok (take m weights) -> (i < m)%nat -> forall w, weights !! i = Some w -> num_ok w.
Proof. intros H Hi w Hw. eapply Forall_lookup_1; [exact H|]. rewrite lookup_take_lt by done. exact Hw. Qed.
Lemma row_total n weights c room (P : double -> Prop) : (c < room)%nat -> length weights = (room * n)%nat ->
  (forall i w, (i < n)%nat -> weights !! (c * n + i)%nat = Some w -> P w) ->
  exists ws, row n weights c = Some ws /\ length ws = n /\ Forall P ws.
Proof.
  intros Hc Hl HP. destruct (mapM_total (fun i => weights !! (c * n + i)%nat) P (seq 0 n)) as (ws & E & H1 & H2).
  - intros i [_ Hi]%elem_of_seq. destruct (lookup_lt_is_Some_2 weights (c * n + i)) as [w Hw]; [nia|]. exists w. split; [done|]. eapply HP; [|exact Hw]. lia.
  - exists ws. by rewrite H1, length_seq.
Qed.

(** Arrays of the announced sizes; [m] of the candidates hold numbers. *)
Definition weights_sized (n room : Z) (weights : list double) : Prop := count weights = room * n.
Definition all_nums (n m : Z) (weights : list double) : Prop := Forall num_ok (take (Z.to_nat (m * n)) weights).
Lemma all_nums_row n m weights c i w : all_nums (Z.of_nat n) m weights -> (c < Z.to_nat m)%nat -> (i < n)%nat -> weights !! (c * n + i)%nat = Some w -> num_ok w.
Proof. intros H Hc Hi. eapply take_num; [exact H|]. nia. Qed.

Lemma sharpe_rows_total n weights sharpes m room (nums : bool) : 0 <= m <= room -> weights_sized (Z.of_nat n) room weights -> count sharpes = room ->
  (nums = true -> all_nums (Z.of_nat n) m weights /\ all_nums 1 m sharpes) ->
  exists rows, sharpe_rows n weights sharpes m = Some rows /\ count rows = m /\ (nums = true -> Forall (fun r => row_ok r /\ small_row n r) rows).
Proof.
  unfold weights_sized, count. intros Hm Hw Hs Hn.
  destruct (mapM_total (fun c => s ← sharpes !! c; ws ← row n weights c; Some (sharpe_head s, ws))
    (fun r => nums = true -> row_ok r /\ small_row n r) (seq 0 (Z.to_nat m))) as (rows & E & H1 & H2).
  - intros c [_ Hc]%elem_of_seq. destruct (lookup_lt_is_Some_2 sharpes c) as [s Es]; [lia|]. rewrite Es. cbn [mbind option_bind].
    destruct (row_total n weights c (Z.to_nat room) (fun w => nums = true -> num_ok w)) as (ws & -> & Hl & HP); [lia|nia| |].
    + intros i w Hi Hlw Ht. destruct (Hn Ht) as [Ha _]. eapply all_nums_row; [exact Ha| |exact Hi|exact Hlw]. lia.
    + cbn [mbind option_bind]. eexists. split; [reflexivity|]. intros Ht. destruct (Hn Ht) as [_ Hb].
      assert (Hok : num_ok s) by (refine (take_num _ _ c Hb _ _ Es); lia). assert (Hw2 : Forall num_ok ws) by (eapply Forall_impl; [exact HP|auto]).
      destruct (sharpe_row_ok s ws Hok Hw2) as [H1 H2]. done.
  - exists rows. split_and!; [done|rewrite H1, length_seq; lia|]. intros Ht. eapply Forall_impl; [exact H2|]. auto.
Qed.
(** The front's ratios are numbers too. *)
Definition ratios_ok (m : Z) (returns risks : list double) : Prop :=
  forall c r k, (c < Z.to_nat m)%nat -> returns !! c = Some r -> risks !! c = Some k -> num_ok (sharpe_of r k).
Lemma pareto_rows_total n weights returns risks m room (nums : bool) : 0 <= m <= room -> weights_sized (Z.of_nat n) room weights ->
  count returns = room -> count risks = room ->
  (nums = true -> all_nums (Z.of_nat n) m weights /\ all_nums 1 m returns /\ all_nums 1 m risks /\ ratios_ok m returns risks) ->
  exists rows, pareto_rows n weights returns risks m = Some rows /\ count rows = m /\ (nums = true -> Forall (fun r => row_ok r /\ small_row n r) rows).
Proof.
  unfold weights_sized, count. intros Hm Hw Hs Hk Hn.
  destruct (mapM_total (fun c => r ← returns !! c; k ← risks !! c; ws ← row n weights c; Some (pareto_head r k, ws))
    (fun r => nums = true -> row_ok r /\ small_row n r) (seq 0 (Z.to_nat m))) as (rows & E & H1 & H2).
  - intros c [_ Hc]%elem_of_seq. destruct (lookup_lt_is_Some_2 returns c) as [s Es]; [lia|]. rewrite Es. cbn [mbind option_bind].
    destruct (lookup_lt_is_Some_2 risks c) as [k Ek]; [lia|]. rewrite Ek. cbn [mbind option_bind].
    destruct (row_total n weights c (Z.to_nat room) (fun w => nums = true -> num_ok w)) as (ws & -> & Hl & HP); [lia|nia| |].
    + intros i w Hi Hlw Ht. destruct (Hn Ht) as [Ha _]. eapply all_nums_row; [exact Ha| |exact Hi|exact Hlw]. lia.
    + cbn [mbind option_bind]. eexists. split; [reflexivity|]. intros Ht. destruct (Hn Ht) as (_ & Hb & Hc2 & Hr).
      assert (Hok : num_ok s) by (refine (take_num _ _ c Hb _ _ Es); lia). assert (Hok2 : num_ok k) by (refine (take_num _ _ c Hc2 _ _ Ek); lia).
      assert (Hw2 : Forall num_ok ws) by (eapply Forall_impl; [exact HP|auto]).
      destruct (pareto_row_ok s k ws Hok Hok2 (Hr c s k ltac:(lia) Es Ek) Hw2) as [H1 H2]. done.
  - exists rows. split_and!; [done|rewrite H1, length_seq; lia|]. intros Ht. eapply Forall_impl; [exact H2|]. auto.
Qed.
Lemma clamp_range n room : 0 <= room -> 0 <= clamp_found n room <= room /\ (0 <= n -> clamp_found n room <= n).
Proof. intros H. unfold clamp_found. cbv zeta. destruct (Z.ltb_spec room n); [destruct (Z.ltb_spec room 0)|destruct (Z.ltb_spec n 0)]; lia. Qed.
Lemma all_nums_le n m m' l : 0 <= n -> m <= m' -> all_nums n m' l -> all_nums n m l.
Proof. unfold all_nums. intros Hn Hm H. replace (take (Z.to_nat (m * n)) l) with (take (Z.to_nat (m * n)) (take (Z.to_nat (m' * n)) l)); [by apply Forall_take|]. rewrite take_take. f_equal. nia. Qed.

(** ** One search *)

(** What is asked: the sizes announced, the counts in their ranges. *)
Definition pcall_ok {T} (c : pcall T) : Prop :=
  match c with
  | fsql_optimize_portfolio_multimodal mu cov n k nr ov qf seed | fsql_optimize_portfolio_multimodal_ex mu cov n k nr ov qf seed _ _ =>
      finite_all mu /\ finite_all cov /\ count mu = n /\ count cov = n * n /\ 1 <= k <= n /\ 1 <= nr <= 64 /\
      overlap_ok ov = true /\ qfrac_ok qf = true /\ 0 <= seed < 2 ^ 63
  | fsql_optimize_portfolio_multimodal_pareto mu cov n k nr mf seed _ _ =>
      finite_all mu /\ finite_all cov /\ count mu = n /\ count cov = n * n /\ 1 <= k <= n /\ 1 <= nr <= 64 /\ 1 <= mf <= nr /\ 0 <= seed < 2 ^ 63
  end.
(** The arrays it fills are the ones it was given. *)
Definition sized {T} (c : pcall T) : T -> Prop :=
  match c in pcall T return T -> Prop with
  | fsql_optimize_portfolio_multimodal _ _ n _ nr _ _ _ | fsql_optimize_portfolio_multimodal_ex _ _ n _ nr _ _ _ _ _ =>
      fun r => weights_sized n nr (fst (fst r)) /\ count (snd (fst r)) = nr
  | fsql_optimize_portfolio_multimodal_pareto _ _ n _ _ mf _ _ _ =>
      fun r => weights_sized n mf (fst (fst (fst r))) /\ count (snd (fst (fst r))) = mf /\ count (snd (fst r)) = mf
  end.
(** As documented, the candidates it reports are numbers. *)
Definition found_ok {T} (c : pcall T) : T -> Prop :=
  match c in pcall T return T -> Prop with
  | fsql_optimize_portfolio_multimodal _ _ n _ nr _ _ _ | fsql_optimize_portfolio_multimodal_ex _ _ n _ nr _ _ _ _ _ =>
      fun r => let m := clamp_found (snd r) nr in all_nums n m (fst (fst r)) /\ all_nums 1 m (snd (fst r))
  | fsql_optimize_portfolio_multimodal_pareto _ _ n _ _ mf _ _ _ =>
      fun r => let m := clamp_found (snd r) mf in all_nums n m (fst (fst (fst r))) /\ all_nums 1 m (snd (fst (fst r))) /\ all_nums 1 m (snd (fst r)) /\
        ratios_ok m (snd (fst (fst r))) (snd (fst r))
  end.

Definition plib := forall T, pcall T -> Z * T.
Definition outcome : Type := option (udf (list Z)) * ust.

Section OneSearch.
Context {DG : Digest}.
Context (getenv : list Z -> option (list Z)) (Verify : list Z -> list Z -> list Z -> bool).
Context (dl_ok : list Z -> bool) (dl_sym : list Z -> list Z -> bool).
Context (mem_of : double -> list Z).
Context (x : uio) (y : sio).
Hypothesis all_mem : forall n, s_malloc y n = true.

(** Refused, and nothing touched but the loading of the library. *)
Definition turned_down (u : ust) (r : outcome) : Prop :=
  (fst r = Some UNull \/ fst r = Some UError) /\ (snd r = u \/ snd r = snd (ensure getenv Verify dl_ok dl_sym x u)).
(** Answered with a document, and the document recorded as it is. *)
Definition decided (u : ust) (r : outcome) : Prop :=
  exists t head, fst r = Some (UVal t) /\ doc 4 t /\ doc 6 (head ++ t ++ bs "}}") /\
    snd r = snd (fractal_ledger_write_kind2 getenv x (head ++ t ++ bs "}}") (snd (ensure getenv Verify dl_ok dl_sym x u))).
Definition one_search (u : ust) (body : plib -> outcome) : Prop :=
  (exists r, turned_down u r /\ forall lib, body lib = r) \/
  exists (T : Type) (c : pcall T) (fin : Z * T -> outcome), pcall_ok c /\
    (forall rc v, rc <> FSQL_OK -> turned_down u (fin (rc, v))) /\
    (forall rc v, sized c v -> fst (fin (rc, v)) <> None) /\
    (forall v, sized c v -> found_ok c v -> decided u (fin (FSQL_OK, v))) /\
    forall lib, body lib = fin (lib T c).

Lemma ensure_loaded u u1 : ensure getenv Verify dl_ok dl_sym x u = (true, u1) -> g_ent_loaded (u_ent u1) = true.
Proof.
  unfold ensure, ensure_enterprise_lib. destruct (g_ent_loaded (u_ent u)) eqn:El; [intros [= <-]; exact El|].
  destruct (g_ent_attempted (u_ent u)); [done|]. cbv zeta. destruct (g_ent_lib _); [|done]. destruct (_ =? 0); [done|].
  destruct (ent_signature_gate _ _ _ _) as [v|]; [|done]. set (img := match v with Some b => _ | None => _ end). destruct img; [|done].
  destruct (ent_resolve_symbols _ _); [|done]. by intros [= <-].
Qed.
Lemma write_ok mu cov head t u : g_ent_loaded (u_ent u) = true -> len head < 1024 -> no_nul t ->
  write_decision getenv x y mu cov head t u = snd (fractal_ledger_write_kind2 getenv x (head ++ t ++ bs "}}") u).
Proof.
  intros Hl Hh Ht. unfold write_decision. rewrite Hl, !all_mem. cbn [negb]. rewrite (proj2 (Z.leb_gt _ _)) by lia. cbv zeta. by rewrite cstr_id.
Qed.
Lemma record_doc type fields t : plain_name type = true -> Forall (fun kv => plain_name (fst kv) = true /\ value 4 (snd kv)) fields -> value 4 t ->
  doc 6 (object [(bs "type", 34 :: type ++ [34]); (bs "entry", object (fields ++ [(bs "result", t)]))]).
Proof.
  intros Hty Hf Ht. apply doc_value, object_value; [done|]. apply Forall_cons; split; [split; [reflexivity|by apply V_str, plain_jstr]|].
  apply Forall_cons; split; [split; [reflexivity|]|constructor]. apply object_value; [by destruct fields|]. apply Forall_app. split; [done|].
  apply Forall_cons; split; [split; [reflexivity|exact Ht]|constructor].
Qed.
Lemma arg_num d : valid64 d = true -> overlap_ok d = true \/ qfrac_ok d = true -> num_ok d.
Proof. unfold overlap_ok, qfrac_ok, fleb, fltb, d_zero, d_one. intros Hv H. split; [done|]. destruct d as [s|s| |s m e]; first [reflexivity|exfalso; destruct s, H as [H|H]; discriminate H|exfalso; destruct H as [H|H]; discriminate H]. Qed.
Lemma portfolio_inputs_spec mu cov k m c : portfolio_inputs y mu cov k = Some (m, c) ->
  finite_all m /\ finite_all c /\ count c = count m * count m /\ 1 <= k <= count m /\ count m <= PARSE_MAX_ELEMS.
Proof.
  unfold portfolio_inputs. destruct (series y mu 0) as [[m' p]|] eqn:E1; [|done]. cbn [mbind option_bind].
  destruct (series y cov p) as [[c' p2]|] eqn:E2; [|done]. cbn [mbind option_bind]. apply series_spec in E1 as [Hm Hn], E2 as [Hc Hn2].
  destruct (Z.eqb_spec (count c') (u64 (count m' * count m'))) as [E|]; [|done]. cbn [negb orb].
  destruct (Z.leb_spec k 0); [done|]. destruct (Z.ltb_spec (count m') k); [done|]. cbn [orb]. intros [= <- <-].
  unfold PARSE_MAX_ELEMS in *. rewrite u64_id in E by nia. split_and!; try done; lia.
Qed.

Lemma multimodal_head_len mu cov k nr ov qf seed : count mu <= PARSE_MAX_ELEMS -> 0 <= k <= PARSE_MAX_ELEMS -> 1 <= nr <= 64 -> num_ok ov -> num_ok qf ->
  0 <= seed < 2 ^ 63 -> len (multimodal_head mem_of mu cov k nr ov qf seed) < 1024.
Proof.
  unfold PARSE_MAX_ELEMS. intros Hn Hk Hr Ho%weight_length Hq%weight_length Hs. unfold multimodal_head, inputs_hash, len.
  destruct (hash_text (flat_map mem_of mu ++ flat_map mem_of cov)) as [_ Hl]. rewrite !length_app, Hl.
  pose proof (nonneg_length seed ltac:(lia)). pose proof (nonneg_length nr ltac:(lia)).
  pose proof (seed_len (count mu) ltac:(unfold count in *; lia)). pose proof (seed_len k ltac:(lia)).
  change (length (js "{'type':'portfolio_optimize_multimodal','entry':{'seed':")) with 56%nat. change (length (js ",'n_assets':")) with 12%nat.
  change (length (js ",'k':")) with 5%nat. change (length (js ",'n_restarts':")) with 14%nat. change (length (js ",'overlap_threshold':")) with 21%nat.
  change (length (js ",'quality_frac':")) with 16%nat. change (length (js ",'inputs_hash':'")) with 16%nat. change (length (js "','result':")) with 11%nat. lia.
Qed.
Lemma pareto_head_len mu cov k nr mf seed : count mu <= PARSE_MAX_ELEMS -> 0 <= k <= PARSE_MAX_ELEMS -> 1 <= nr <= 64 -> 1 <= mf <= 64 ->
  0 <= seed < 2 ^ 63 -> len (pareto_record_head mem_of mu cov k nr mf seed) < 1024.
Proof.
  unfold PARSE_MAX_ELEMS. intros Hn Hk Hr Hm Hs. unfold pareto_record_head, inputs_hash, len.
  destruct (hash_text (flat_map mem_of mu ++ flat_map mem_of cov)) as [_ Hl]. rewrite !length_app, Hl.
  pose proof (nonneg_length seed ltac:(lia)). pose proof (nonneg_length nr ltac:(lia)). pose proof (nonneg_length mf ltac:(lia)).
  pose proof (seed_len (count mu) ltac:(unfold count in *; lia)). pose proof (seed_len k ltac:(lia)).
  change (length (js "{'type':'portfolio_optimize_multimodal_pareto','entry':{'seed':")) with 63%nat. change (length (js ",'n_assets':")) with 12%nat.
  change (length (js ",'k':")) with 5%nat. change (length (js ",'n_restarts':")) with 14%nat. change (length (js ",'max_front':")) with 13%nat.
  change (length (js ",'inputs_hash':'")) with 16%nat. change (length (js "','result':")) with 11%nat. lia.
Qed.
Ltac num_field := split; [reflexivity|apply (proj1 value_mono 0%nat); [first [by apply nonneg_value; lia|by apply g_value|apply nat_value]|lia]].
Lemma multimodal_record mu cov k nr ov qf seed t : 1 <= nr -> num_ok ov -> num_ok qf -> 0 <= seed -> value 4 t ->
  doc 6 (multimodal_head mem_of mu cov k nr ov qf seed ++ t ++ bs "}}").
Proof.
  intros Hr Ho Hq Hs Ht. destruct (hash_text (flat_map mem_of mu ++ flat_map mem_of cov)) as [Hh _].
  pose proof (record_doc (bs "portfolio_optimize_multimodal") [(bs "seed", dec_d seed); (bs "n_assets", dec_u (count mu)); (bs "k", dec_u k); (bs "n_restarts", dec_d nr);
    (bs "overlap_threshold", fmt_g 10 ov); (bs "quality_frac", fmt_g 10 qf); (bs "inputs_hash", 34 :: inputs_hash mem_of mu cov ++ [34])] t eq_refl) as H.
  match type of H with _ -> _ -> doc 6 ?o => assert (E : multimodal_head mem_of mu cov k nr ov qf seed ++ t ++ bs "}}" = o) end.
  { clear. unfold multimodal_head. generalize (dec_d seed) (dec_u (count mu)) (dec_u k) (dec_d nr) (fmt_g 10 ov) (fmt_g 10 qf) (inputs_hash mem_of mu cov).
    intros. unfold object, member. cbn [joined comma fst snd app]. repeat (rewrite <- ?app_assoc; cbn). reflexivity. }
  rewrite E. apply H; [|exact Ht]. repeat (apply Forall_cons; split; [num_field|]).
  apply Forall_cons; split; [split; [reflexivity|by apply V_str]|constructor].
Qed.
Lemma pareto_record mu cov k nr mf seed t : 1 <= nr -> 1 <= mf -> 0 <= seed -> value 4 t ->
  doc 6 (pareto_record_head mem_of mu cov k nr mf seed ++ t ++ bs "}}").
Proof.
  intros Hr Hm Hs Ht. destruct (hash_text (flat_map mem_of mu ++ flat_map mem_of cov)) as [Hh _].
  pose proof (record_doc (bs "portfolio_optimize_multimodal_pareto") [(bs "seed", dec_d seed); (bs "n_assets", dec_u (count mu)); (bs "k", dec_u k); (bs "n_restarts", dec_d nr);
    (bs "max_front", dec_d mf); (bs "inputs_hash", 34 :: inputs_hash mem_of mu cov ++ [34])] t eq_refl) as H.
  match type of H with _ -> _ -> doc 6 ?o => assert (E : pareto_record_head mem_of mu cov k nr mf seed ++ t ++ bs "}}" = o) end.
  { clear. unfold pareto_record_head. generalize (dec_d seed) (dec_u (count mu)) (dec_u k) (dec_d nr) (dec_d mf) (inputs_hash mem_of mu cov).
    intros. unfold object, member. cbn [joined comma fst snd app]. repeat (rewrite <- ?app_assoc; cbn). reflexivity. }
  rewrite E. apply H; [|exact Ht]. repeat (apply Forall_cons; split; [num_field|]).
  apply Forall_cons; split; [split; [reflexivity|by apply V_str]|constructor].
Qed.

(** From an answer to the outcome. *)
Lemma report_sharpes_spec u u1 mu cov k nr ov qf seed w s n :
  ensure getenv Verify dl_ok dl_sym x u = (true, u1) -> count mu <= PARSE_MAX_ELEMS -> 1 <= nr <= 64 -> 1 <= k <= count mu -> 0 <= seed < 2 ^ 63 ->
  num_ok ov -> num_ok qf ->
  let fin := fun rc => report_sharpes getenv mem_of x y mu cov k nr ov qf seed (rc, (w, s, n)) u1 in
  (forall rc, rc <> FSQL_OK -> turned_down u (fin rc)) /\
  (weights_sized (count mu) nr w -> count s = nr -> (forall rc, fst (fin rc) <> None) /\
    (all_nums (count mu) (clamp_found n nr) w -> all_nums 1 (clamp_found n nr) s -> decided u (fin FSQL_OK))).
Proof.
  intros Eu Hn Hr Hk Hs Ho Hq fin. subst fin. cbv beta. unfold report_sharpes. split.
  - intros rc Hrc. rewrite (proj2 (Z.eqb_neq _ _)) by done. cbn [negb]. split; [by right|]. rewrite Eu. by right.
  - intros Hw Hcs. destruct (clamp_range n nr ltac:(lia)) as [Hm _]. split.
    + intros rc. destruct (negb (rc =? FSQL_OK)); [done|].
      destruct (sharpe_rows_total (length mu) w s _ nr false Hm Hw Hcs) as (rows & -> & _); [done|]. by destruct (print_found _ _ _).
    + intros Ha Hb. rewrite Z.eqb_refl. cbn [negb].
      destruct (sharpe_rows_total (length mu) w s _ nr true Hm Hw Hcs) as (rows & -> & Hl & Hrw); [done|]. specialize (Hrw eq_refl). apply Forall_and in Hrw as [H1 H2].
      rewrite (print_found_ok _ (length mu)); [|done|done|done|lia|lia]. destruct (found_text_ok (clamp_found n nr) rows ltac:(lia) H1) as [Hv Hz].
      exists (found_text (clamp_found n nr) rows), (multimodal_head mem_of mu cov k nr ov qf seed). cbn [fst snd].
      split_and!; [done|by apply doc_value|apply multimodal_record; [lia|done|done|lia|done]|].
      rewrite Eu. cbn [snd]. apply write_ok; [by eapply ensure_loaded|apply multimodal_head_len; done || lia|done].
Qed.
Lemma report_front_spec u u1 mu cov k nr mf seed w r s n :
  ensure getenv Verify dl_ok dl_sym x u = (true, u1) -> count mu <= PARSE_MAX_ELEMS -> 1 <= nr <= 64 -> 1 <= mf <= nr -> 1 <= k <= count mu -> 0 <= seed < 2 ^ 63 ->
  let fin := fun rc => report_front getenv mem_of x y mu cov k nr mf seed (rc, (w, r, s, n)) u1 in
  (forall rc, rc <> FSQL_OK -> turned_down u (fin rc)) /\
  (weights_sized (count mu) mf w -> count r = mf -> count s = mf -> (forall rc, fst (fin rc) <> None) /\
    (let m := clamp_found n mf in all_nums (count mu) m w -> all_nums 1 m r -> all_nums 1 m s -> ratios_ok m r s -> decided u (fin FSQL_OK))).
Proof.
  intros Eu Hn Hr Hf Hk Hs fin. subst fin. cbv beta zeta. unfold report_front. split.
  - intros rc Hrc. rewrite (proj2 (Z.eqb_neq _ _)) by done. cbn [negb]. split; [by right|]. rewrite Eu. by right.
  - intros Hw Hcr Hcs. destruct (clamp_range n mf ltac:(lia)) as [Hm _]. split.
    + intros rc. destruct (negb (rc =? FSQL_OK)); [done|].
      destruct (pareto_rows_total (length mu) w r s _ mf false Hm Hw Hcr Hcs) as (rows & -> & _); [done|]. by destruct (print_found _ _ _).
    + intros Ha Hb Hc2 Hra. rewrite Z.eqb_refl. cbn [negb].
      destruct (pareto_rows_total (length mu) w r s _ mf true Hm Hw Hcr Hcs) as (rows & -> & Hl & Hrw); [done|]. specialize (Hrw eq_refl). apply Forall_and in Hrw as [H1 H2].
      rewrite (print_found_ok _ (length mu)); [|done|done|done|lia|lia]. destruct (found_text_ok (clamp_found n mf) rows ltac:(lia) H1) as [Hv Hz].
      exists (found_text (clamp_found n mf) rows), (pareto_record_head mem_of mu cov k nr mf seed). cbn [fst snd].
      split_and!; [done|by apply doc_value|apply pareto_record; [lia|lia|lia|done]|].
      rewrite Eu. cbn [snd]. apply write_ok; [by eapply ensure_loaded|apply pareto_head_len; done || lia|done].
Qed.

(** Arguments as the server gives them. *)
Definition double_arg (d : option double) : Prop := match d with Some d => valid64 d = true | None => True end.
Definition int_arg (n : option Z) : Prop := match n with Some n => - 2 ^ 63 <= n < 2 ^ 63 | None => True end.
Lemma clamp_seed_range s : - 2 ^ 63 <= s < 2 ^ 63 -> 0 <= clamp_seed s < 2 ^ 63.
Proof. unfold clamp_seed. destruct (Z.ltb_spec s 0); lia. Qed.
Lemma down u v o : o = UNull \/ o = UError -> v = u \/ v = snd (ensure getenv Verify dl_ok dl_sym x u) -> turned_down u (Some o, v).
Proof. intros [->| ->] H; (split; [|done]); [by left|by right]. Qed.
Ltac down_now := left; eexists; split; [|intros; reflexivity]; apply down; [by (left + right)|by (left + right)].

Lemma multimodal_call mu cov k nr ov qf seed u : double_arg ov -> double_arg qf -> int_arg seed ->
  one_search u (fun lib => fractal_optimize_portfolio_multimodal getenv Verify dl_ok dl_sym lib mem_of x y mu cov k nr ov qf seed u).
Proof.
  unfold fractal_optimize_portfolio_multimodal. intros Ho Hq Hs.
  destruct mu as [mu|]; [|down_now]. destruct cov as [cov|]; [|down_now]. destruct k as [k|]; [|down_now]. destruct nr as [nr|]; [|down_now].
  destruct ov as [ov|]; [|down_now]. destruct qf as [qf|]; [|down_now]. destruct seed as [seed|]; [|down_now]. cbn [double_arg int_arg] in *.
  destruct (ensure getenv Verify dl_ok dl_sym x u) as [ok u1] eqn:Eu.
  assert (Hu : u1 = snd (ensure getenv Verify dl_ok dl_sym x u)) by by rewrite Eu.
  destruct ok; cbn [negb orb]; [|down_now]. destruct (negb (symbol _ _ _)); [down_now|]. destruct (too_long mu cov); [down_now|]. cbv zeta.
  destruct (Z.ltb_spec nr 1); cbn [orb]; [down_now|]. destruct (Z.ltb_spec 64 nr); [down_now|].
  destruct (overlap_ok ov) eqn:Eo; cbn [negb]; [|down_now]. destruct (qfrac_ok qf) eqn:Eq; cbn [negb]; [|down_now].
  destruct (portfolio_inputs y mu cov k) as [[m c]|] eqn:Ei; [|down_now]. apply portfolio_inputs_spec in Ei as (Hm & Hc & Hcc & Hk & Hn).
  rewrite !all_mem. cbn [negb orb]. pose proof (clamp_seed_range seed Hs) as Hseed.
  right. eexists _, (fsql_optimize_portfolio_multimodal m c (count m) k nr ov qf (clamp_seed seed)),
    (fun a => report_sharpes getenv mem_of x y m c k nr ov qf (clamp_seed seed) a u1).
  pose proof (fun w s n => report_sharpes_spec u u1 m c k nr ov qf (clamp_seed seed) w s n Eu Hn ltac:(lia) Hk Hseed (arg_num ov Ho (or_introl Eo)) (arg_num qf Hq (or_intror Eq))) as Hspec.
  split_and!; [done|..|done].
  - intros rc [[w s] n]. apply Hspec.
  - intros rc [[w s] n] [H1 H2]. by apply Hspec.
  - intros [[w s] n] [H1 H2] [H3 H4]. by apply Hspec.
Qed.
Lemma multimodal_ex_call mu cov k nr ov qf seed obl mode u : double_arg ov -> double_arg qf -> int_arg seed ->
  one_search u (fun lib => fractal_optimize_portfolio_multimodal_ex getenv Verify dl_ok dl_sym lib mem_of x y mu cov k nr ov qf seed obl mode u).
Proof.
  unfold fractal_optimize_portfolio_multimodal_ex. intros Ho Hq Hs.
  destruct mu as [mu|]; [|down_now]. destruct cov as [cov|]; [|down_now]. destruct k as [k|]; [|down_now]. destruct nr as [nr|]; [|down_now].
  destruct ov as [ov|]; [|down_now]. destruct qf as [qf|]; [|down_now]. destruct seed as [seed|]; [|down_now]. destruct obl as [obl|]; [|down_now].
  cbn [double_arg int_arg] in *. destruct (ensure getenv Verify dl_ok dl_sym x u) as [ok u1] eqn:Eu.
  assert (Hu : u1 = snd (ensure getenv Verify dl_ok dl_sym x u)) by by rewrite Eu.
  destruct ok; cbn [negb orb]; [|down_now]. destruct (_ && _) eqn:Esym; [down_now|]. destruct (too_long mu cov); [down_now|]. cbv zeta.
  destruct (diffusion_of mode) as [md|]; [|down_now].
  destruct (Z.ltb_spec nr 1); cbn [orb]; [down_now|]. destruct (Z.ltb_spec 64 nr); [down_now|].
  destruct (overlap_ok ov) eqn:Eo; cbn [negb]; [|down_now]. destruct (qfrac_ok qf) eqn:Eq; cbn [negb]; [|down_now].
  destruct (portfolio_inputs y mu cov k) as [[m c]|] eqn:Ei; [|down_now]. apply portfolio_inputs_spec in Ei as (Hm & Hc & Hcc & Hk & Hn).
  destruct (negb (symbol dl_sym u1 ex_name) && _); [down_now|]. rewrite !all_mem. cbn [negb orb]. pose proof (clamp_seed_range seed Hs) as Hseed.
  pose proof (fun w s n => report_sharpes_spec u u1 m c k nr ov qf (clamp_seed seed) w s n Eu Hn ltac:(lia) Hk Hseed (arg_num ov Ho (or_introl Eo)) (arg_num qf Hq (or_intror Eq))) as Hspec.
  right. exists (list double * list double * Z)%type.
  exists (if symbol dl_sym u1 ex_name then fsql_optimize_portfolio_multimodal_ex m c (count m) k nr ov qf (clamp_seed seed) (negb (obl =? 0)) md
    else fsql_optimize_portfolio_multimodal m c (count m) k nr ov qf (clamp_seed seed)),
    (fun a => report_sharpes getenv mem_of x y m c k nr ov qf (clamp_seed seed) a u1).
  destruct (symbol dl_sym u1 ex_name); (split_and!; [done|..|done]).
  1, 4: intros rc [[w s] n]; apply Hspec.
  1, 3: intros rc [[w s] n] [H1 H2]; by apply Hspec.
  all: intros [[w s] n] [H1 H2] [H3 H4]; by apply Hspec.
Qed.
Lemma pareto_call mu cov k nr mf seed obl mode u : int_arg seed ->
  one_search u (fun lib => fractal_optimize_portfolio_multimodal_pareto getenv Verify dl_ok dl_sym lib mem_of x y mu cov k nr mf seed obl mode u).
Proof.
  unfold fractal_optimize_portfolio_multimodal_pareto. intros Hs.
  destruct mu as [mu|]; [|down_now]. destruct cov as [cov|]; [|down_now]. destruct k as [k|]; [|down_now]. destruct nr as [nr|]; [|down_now].
  destruct mf as [mf|]; [|down_now]. destruct seed as [seed|]; [|down_now]. destruct obl as [obl|]; [|down_now].
  cbn [int_arg] in *. destruct (ensure getenv Verify dl_ok dl_sym x u) as [ok u1] eqn:Eu.
  assert (Hu : u1 = snd (ensure getenv Verify dl_ok dl_sym x u)) by by rewrite Eu.
  destruct ok; cbn [negb orb]; [|down_now]. destruct (negb (symbol _ _ _)); [down_now|]. destruct (too_long mu cov); [down_now|]. cbv zeta.
  destruct (diffusion_of mode) as [md|]; [|down_now].
  destruct (Z.ltb_spec nr 1); cbn [orb]; [down_now|]. destruct (Z.ltb_spec 64 nr); [down_now|].
  destruct (Z.ltb_spec mf 1); cbn [orb]; [down_now|]. destruct (Z.ltb_spec nr mf); [down_now|].
  destruct (portfolio_inputs y mu cov k) as [[m c]|] eqn:Ei; [|down_now]. apply portfolio_inputs_spec in Ei as (Hm & Hc & Hcc & Hk & Hn).
  rewrite !all_mem. cbn [negb orb]. pose proof (clamp_seed_range seed Hs) as Hseed.
  right. eexists _, (fsql_optimize_portfolio_multimodal_pareto m c (count m) k nr mf (clamp_seed seed) (negb (obl =? 0)) md),
    (fun a => report_front getenv mem_of x y m c k nr mf (clamp_seed seed) a u1).
  pose proof (fun w r s n => report_front_spec u u1 m c k nr mf (clamp_seed seed) w r s n Eu Hn ltac:(lia) ltac:(lia) Hk Hseed) as Hspec.
  split_and!; [split_and!; done || lia|..|done].
  - intros rc [[[w r] s] n]. apply Hspec.
  - intros rc [[[w r] s] n] (S1 & S2 & S3). by apply Hspec.
  - intros [[[w r] s] n] (S1 & S2 & S3) (F1 & F2 & F3 & F4). by apply Hspec.
Qed.
End OneSearch.

(** ** The three functions *)

Inductive query :=
  | Q_base (mu cov : option (list Z)) (k n_restarts : option Z) (overlap qfrac : option double) (seed : option Z)
  | Q_ex (mu cov : option (list Z)) (k n_restarts : option Z) (overlap qfrac : option double) (seed use_obl : option Z) (mode : option (list Z))
  | Q_pareto (mu cov : option (list Z)) (k n_restarts max_front seed use_obl : option Z) (mode : option (list Z)).
(** Doubles and 64-bit integers. *)
Definition query_ok (q : query) : Prop :=
  match q with
  | Q_base _ _ _ _ o f s | Q_ex _ _ _ _ o f s _ _ => double_arg o /\ double_arg f /\ int_arg s
  | Q_pareto _ _ _ _ _ s _ _ => int_arg s
  end.

Section Queries.
Context {DG : Digest}.
Context (getenv : list Z -> option (list Z)) (Verify : list Z -> list Z -> list Z -> bool).
Context (dl_ok : list Z -> bool) (dl_sym : list Z -> list Z -> bool).
Context (mem_of : double -> list Z).
Definition run_query (x : uio) (y : sio) (q : query) (u : ust) (lib : plib) : outcome :=
  match q with
  | Q_base mu cov k nr ov qf seed => fractal_optimize_portfolio_multimodal getenv Verify dl_ok dl_sym lib mem_of x y mu cov k nr ov qf seed u
  | Q_ex mu cov k nr ov qf seed obl mode => fractal_optimize_portfolio_multimodal_ex getenv Verify dl_ok dl_sym lib mem_of x y mu cov k nr ov qf seed obl mode u
  | Q_pareto mu cov k nr mf seed obl mode => fractal_optimize_portfolio_multimodal_pareto getenv Verify dl_ok dl_sym lib mem_of x y mu cov k nr mf seed obl mode u
  end.
Lemma query_search x y q u : (forall n, s_malloc y n = true) -> query_ok q -> one_search getenv Verify dl_ok dl_sym x u (run_query x y q u).
Proof. intros Hm. destruct q; cbn [query_ok run_query]; [intros (? & ? & ?)..|intros ?]; eauto using multimodal_call, multimodal_ex_call, pareto_call. Qed.

(** Each of the three portfolio functions refuses its arguments without a
    search, or asks the enterprise library for exactly one, well formed: the
    sizes agree, every count is in its range and the seed is not negative.
    When the library fails the call is an error and nothing is recorded.
    Whatever candidate count it reports, no read leaves the arrays it was
    given; and when the candidates are numbers the call answers with a JSON
    document, which is handed to the ledger, as it is, inside a JSON record. *)
Theorem portfolio_one_search x y q u : (forall n, s_malloc y n = true) -> query_ok q ->
  one_search getenv Verify dl_ok dl_sym x u (run_query x y q u).
Proof. exact (query_search x y q u). Qed.

(** A library that fills its arrays as documented. *)
Definition lib_ok (lib : plib) : Prop := forall T (c : pcall T), pcall_ok c -> sized c (snd (lib T c)) /\ found_ok c (snd (lib T c)).

(** The record of a portfolio decision and the answer cannot drift apart:
    when a call answers, redaction is off and the ledger takes the record, the
    ledger holds what it held and one more record of kind 2, whose contents
    are a head, the very text of the answer and two closing braces. *)
Theorem portfolio_decision_recorded x y q u lib t u' rs :
  (forall n, s_malloc y n = true) -> query_ok q -> lib_ok lib ->
  run_query x y q u lib = (Some (UVal t), u') ->
  fsql_audit_redact_mode (getenv (bs "FSQL_AUDIT_REDACT")) = REDACT_NONE ->
  (forall n, io_read (x_io x) M_repair n = true) -> recoverable (ledger_path (u_ent u')) (u_fs u) rs ->
  exists head, doc 6 (head ++ t ++ bs "}}") /\
    let '(rc, u2) := fractal_ledger_write_kind2 getenv x (head ++ t ++ bs "}}") (snd (ensure getenv Verify dl_ok dl_sym x u)) in
    u' = u2 /\ (rc = FSQL_OK -> exists r, intact (ledger_path (u_ent u')) (u_fs u') (rs ++ [r]) /\ r_kind r = 2 /\ r_blob r = head ++ t ++ bs "}}").
Proof.
  intros Hm Hq Hlib Hrun Hmode Hrd Hrec. destruct (query_search x y q u Hm Hq) as [(r & [Hr _] & E)|(T & c & fin & Hok & H1 & H2 & H3 & E)].
  { rewrite E in Hrun. subst r. cbn in Hr. by destruct Hr. }
  rewrite E in Hrun. destruct (lib T c) as [rc v] eqn:El. destruct (Hlib T c Hok) as [Hs Hf]. rewrite El in Hs, Hf. cbn [snd] in Hs, Hf.
  destruct (Z.eq_dec rc FSQL_OK) as [->|Hne]; [|destruct (H1 rc v Hne) as [Hr _]; rewrite Hrun in Hr; cbn in Hr; by destruct Hr].
  destruct (H3 v Hs Hf) as (t' & head & Ht & _ & Hd & Hu). rewrite Hrun in Ht, Hu. cbn [fst snd] in Ht, Hu. apply (inj Some) in Ht. injection Ht as <-.
  exists head. split; [done|]. destruct (ensure getenv Verify dl_ok dl_sym x u) as [ok u1] eqn:Eu. apply ensure_keeps in Eu as (Ef & _ & _). cbn [snd] in *.
  unfold fractal_ledger_write_kind2 in *. rewrite Hmode, bool_decide_true in * by done. cbv zeta in *.
  destruct (ledger_write_entry _ _ 2 _ _) as [rc2 w] eqn:Ew. cbn [snd] in Hu. split; [done|]. intros ->. rewrite Hu in Hrec |- *. cbn [set_fs u_ent u_fs] in *.
  rewrite Ef in Ew. destruct (write_intact _ _ _ _ _ _ _ Hrd Hrec Ew) as (Hi & _ & _). by eexists.
Qed.

(** Without the newer symbol the extended function is the basic one for
    the default knobs, and turns the other knobs down without a search. *)
Theorem ex_falls_back x y lib mu cov k nr ov qf seed obl mode u :
  (forall h, dl_sym h ex_name = false) ->
  let ex := run_query x y (Q_ex mu cov k nr ov qf seed (Some obl) mode) u lib in
  (obl = 0 /\ diffusion_of mode = Some FSQL_SFS_DIFFUSE_GAUSSIAN -> ex = run_query x y (Q_base mu cov k nr ov qf seed) u lib) /\
  (obl <> 0 \/ diffusion_of mode <> Some FSQL_SFS_DIFFUSE_GAUSSIAN -> turned_down getenv Verify dl_ok dl_sym x u ex).
Proof.
  intros Hsym. assert (Hx : forall u, symbol dl_sym u ex_name = false) by (intros v; unfold symbol; by destruct (g_ent_handle _)).
  cbn [run_query]. unfold fractal_optimize_portfolio_multimodal_ex, fractal_optimize_portfolio_multimodal. split.
  - intros [-> Hd]. rewrite Hd. destruct mu as [mu|], cov as [cov|], k as [k|], nr as [nr|], ov as [ov|], qf as [qf|], seed as [seed|]; try reflexivity.
    destruct (ensure _ _ _ _ x u) as [ok u1]. rewrite Hx. cbn [negb orb andb is_levy Z.eqb]. rewrite andb_true_r. reflexivity.
  - intros Hk. assert (Hd : forall v o, o = UNull \/ o = UError -> v = u \/ v = snd (ensure getenv Verify dl_ok dl_sym x u) ->
      turned_down getenv Verify dl_ok dl_sym x u (Some o, v)) by (intros; by apply down).
    destruct mu as [mu|], cov as [cov|], k as [k|], nr as [nr|], ov as [ov|], qf as [qf|], seed as [seed|]; try (apply Hd; by (left + right)).
    destruct (ensure _ _ _ _ x u) as [ok u1] eqn:Eu. assert (Hu : u1 = snd (ensure getenv Verify dl_ok dl_sym x u)) by by rewrite Eu.
    rewrite Hx. cbn [negb orb andb]. destruct (_ || _); [apply Hd; by (left + right)|]. destruct (too_long mu cov); [apply Hd; by (left + right)|]. cbv zeta.
    destruct (diffusion_of mode) as [md|]; [|apply Hd; by (left + right)]. destruct (_ || _); [apply Hd; by (left + right)|]. destruct (negb (overlap_ok ov)); [apply Hd; by (left + right)|].
    destruct (negb (qfrac_ok qf)); [apply Hd; by (left + right)|].
    destruct (portfolio_inputs _ _ _ _) as [[m c]|]; [|apply Hd; by (left + right)].
    assert (E : negb (obl =? 0) || is_levy md = true).
    { destruct Hk as [Hk|Hk]; [by rewrite (proj2 (Z.eqb_neq _ _)) by done|]. destruct md; [done|]. apply orb_true_r. }
    rewrite E. apply Hd; by (left + right).
Qed.
End Queries.

(** ** Concrete runs *)

#[local] Existing Instance demo_digest.
#[local] Abbreviation demo_ent := {| g_ent_handle := Some {| h_path := bs "e"; h_image := bs "e" |}; g_ent_attempted := true; g_ent_loaded := true; g_ent_lib := None;
  g_ent_ledger_path := Some (bs "l.dat"); g_ent_ledger_key := None; g_ent_require_sig := true; g_ent_env_lib := None;
  g_ent_env_ledger_path := None; g_ent_env_ledger_key := None; g_ent_env_require_sig := true; g_ent_env_captured := true |}.
#[local] Abbreviation demo_io := {| io_malloc := fun _ _ => true; io_open := fun _ => true; io_read := fun _ _ => true; io_size := true; io_rewind := true;
  io_header := None; io_truncate := true; io_record := None; io_sync := true; io_now := 7; io_max_bytes := None; io_csv := None;
  io_head := true; io_rename := true; io_anchor := ANCHOR_OFF |}.
#[local] Abbreviation demo_os := {| os_sig := None; os_so := None; os_evp := true; os_evp_init := true; os_memfd := None;
  os_tmpdir := None; os_tmp_ok := true; os_tmp_image := fun b => b; os_path_image := None |}.
#[local] Abbreviation demo_uio := {| x_dup := fun _ => true; x_os := demo_os;
  x_env := {| now := 0; calloc_ok := true; new_sovereign := Some 1 |}; x_io := demo_io; x_malloc := fun _ => true;
  x_redact_malloc := fun _ => true; x_junk := replicate 64 0; x_junk_st := replicate 65 ST_SEP |}.
#[local] Abbreviation demo_ust := {| u_ent := demo_ent; u_fs := {| files := ∅; anchors := [] |}; u_reg := empty_registry;
  u_latch := latch_init FSQL_LOCKED_RING |}.
#[local] Abbreviation demo_none := (fun n : list Z => if bytes_eqb n (bs "FSQL_AUDIT_REDACT") then Some (bs "none") else None).
(** Equal weights, and twice as many candidates reported as there is room for. *)
Definition demo_lib : plib := fun T c =>
  match c in pcall T return Z * T with
  | fsql_optimize_portfolio_multimodal _ _ n _ nr _ _ _ | fsql_optimize_portfolio_multimodal_ex _ _ n _ nr _ _ _ _ _ =>
      (FSQL_OK, (replicate (Z.to_nat (nr * n)) d_one, replicate (Z.to_nat nr) d_one, 2 * nr))
  | fsql_optimize_portfolio_multimodal_pareto _ _ n _ _ mf _ _ _ =>
      (FSQL_OK, (replicate (Z.to_nat (mf * n)) d_one, replicate (Z.to_nat mf) d_one, replicate (Z.to_nat mf) d_one, 2 * mf))
  end.
Definition demo_query : query := Q_pareto (Some (bs "1,2")) (Some (bs "1,0,0,1")) (Some 1) (Some 2) (Some 1) (Some (-5)) (Some 1) (Some (bs "levy")).
Abbreviation demo_run q lib := (run_query demo_none (fun _ _ _ => true) (fun _ => true) (fun _ _ => true) (fun _ => replicate 8 0) demo_uio demo_sio q demo_ust lib).

Lemma demo_lib_ok : lib_ok demo_lib.
Proof.
  assert (H1 : num_ok d_one) by done. assert (Hr : forall n m, Forall num_ok (take n (replicate m d_one))) by (intros; apply Forall_take, Forall_replicate, H1).
  assert (Hs : forall n, 0 <= n -> count (replicate (Z.to_nat n) d_one) = n) by (intros; unfold count; rewrite length_replicate; lia).
  intros T c Hc. destruct c; cbn [pcall_ok] in Hc; cbn [demo_lib sized found_ok fst snd]; unfold weights_sized, all_nums; (split; [split_and!; rewrite Hs; nia|split_and!; try apply Hr]).
  intros i r1 k1 _ Er Ek. apply lookup_replicate_1 in Er as [-> _], Ek as [-> _]. split; vm_compute; reflexivity.
Qed.
Lemma portfolio_one_search_witness :
  one_search demo_none (fun _ _ _ => true) (fun _ => true) (fun _ _ => true) demo_uio demo_ust (fun lib => demo_run demo_query lib).
Proof. apply (portfolio_one_search demo_none (fun _ _ _ => true) (fun _ => true) (fun _ _ => true) (fun _ => replicate 8 0) demo_uio demo_sio demo_query demo_ust (fun _ => eq_refl)). cbn. lia. Defined.
Lemma demo_answer : fst (demo_run demo_query demo_lib) =
  Some (UVal (js "{'n_found':1,'candidates':[{'return':1,'risk':1,'sharpe':1,'weights':[1,1]}]}")).
Proof. vm_compute. reflexivity. Qed.
Lemma portfolio_decision_recorded_witness : exists t head, fst (demo_run demo_query demo_lib) = Some (UVal t) /\ doc 6 (head ++ t ++ bs "}}").
Proof.
  pose proof demo_answer as E. destruct (demo_run demo_query demo_lib) as [o u'] eqn:El. cbn [fst] in E. subst o.
  assert (Hp : ledger_path (u_ent u') = bs "l.dat").
  { apply (f_equal (fun r => ledger_path (u_ent (snd r)))) in El. cbn [snd] in El. rewrite <- El. vm_compute. reflexivity. }
  destruct (portfolio_decision_recorded demo_none (fun _ _ _ => true) (fun _ => true) (fun _ _ => true) (fun _ => replicate 8 0) demo_uio demo_sio demo_query demo_ust demo_lib
    _ u' [] (fun _ => eq_refl) ltac:(cbn; lia) demo_lib_ok El) as (head & Hd & _).
  - vm_compute. reflexivity.
  - reflexivity.
  - rewrite Hp. unfold recoverable. reflexivity.
  - eexists _, head. split; [reflexivity|exact Hd].
Defined.
Lemma ex_falls_back_witness :
  let q := demo_sio in run_query demo_none (fun _ _ _ => true) (fun _ => true) (fun _ n => bytes_eqb n base_name) (fun _ => replicate 8 0) demo_uio q
    (Q_ex (Some (bs "1,2")) (Some (bs "1,0,0,1")) (Some 1) (Some 2) (Some d_one) (Some d_one) (Some 7) (Some 0) None) demo_ust demo_lib =
  run_query demo_none (fun _ _ _ => true) (fun _ => true) (fun _ n => bytes_eqb n base_name) (fun _ => replicate 8 0) demo_uio q
    (Q_base (Some (bs "1,2")) (Some (bs "1,0,0,1")) (Some 1) (Some 2) (Some d_one) (Some d_one) (Some 7)) demo_ust demo_lib.
Proof.
  exact (proj1 (ex_falls_back demo_none (fun _ _ _ => true) (fun _ => true) (fun _ n => bytes_eqb n base_name) (fun _ => replicate 8 0) demo_uio demo_sio demo_lib
    _ _ _ _ _ _ _ 0 None demo_ust (fun _ => eq_refl)) (conj eq_refl eq_refl)).
Defined.

(** A front whose return is large and whose risk is tiny has an infinite
    ratio, printed as a text no JSON reader takes, though every number the
    library gave is finite. *)
Definition big_return : double := S754_finite false 6178946835405006 971.
Definition tiny_risk : double := S754_finite false 1 (-1074).
Theorem infinite_ratio_not_json :
  num_ok big_return /\ num_ok tiny_risk /\
  pareto_rows 1 [d_one] [big_return] [tiny_risk] 1 = Some [(pareto_head big_return tiny_risk, [d_one])] /\
  exists t, print_found (fun _ => true) 1 [(pareto_head big_return tiny_risk, [d_one])] = Some t /\ gate t = Some false.
Proof. split_and!; [vm_compute; split; reflexivity..|reflexivity|]. eexists. split; vm_compute; reflexivity. Qed.
