(* ===== verification/SessionUdf.v ===== *)
(** * The functions on a session (src/fractalsql.c: fractal_diversify_*,
    fractal_detect_collapse, fractal_explain_result, fractal_session_close,
    fractal_agent_partial_fail, fractal_feedback_report,
    fractal_isolate_background)

    A body is a function of its arguments, of what the system answers and of
    the session registry; the core's operations on the session's context are a
    parameter. *)

From Stdlib Require Import SpecFloat.
From stdpp Require Import gmap.
From S2P Require Import Prelude Float FloatValid Parse ParseProofs LedgerFmt AuditJson JsonOut.
From S2P Require Import JsonText Params Session Daemon Search SearchProofs Vector Analytics AnalyticsProofs.

Record fsql_diversify_params_t := {
  window_n : Z; stall_threshold : double; repulsion_sigma : double; repulsion_weight : double;
  max_shadows_considered : Z; tail_buffer_cap : Z
}.
Inductive fsql_engagement_kind_t := FSQL_ENGAGE_DWELL | FSQL_ENGAGE_POSITIVE | FSQL_ENGAGE_NEGATIVE.

(** The core's entry points, on a context. *)
Inductive scall : Type -> Type :=
  | fsql_diversify_enable (ctx : Z) : scall unit
  | fsql_diversify_disable (ctx : Z) : scall unit
  | fsql_diversify_get_params (ctx : Z) : scall fsql_diversify_params_t
  | fsql_diversify_set_params (ctx : Z) (p : fsql_diversify_params_t) : scall unit
  | fsql_diversify_current_dq (ctx : Z) : scall double
  | fsql_diversify_overhead_p99_us (ctx : Z) : scall double
  | fsql_feedback_report (ctx result_handle : Z) (kind : fsql_engagement_kind_t) (dwell_ms : Z) : scall unit.

Definition same_ci (s : list Z) (word : list Z) : bool := bytes_eqb (map tolower s) word.
Definition parse_engagement_kind (s : list Z) : option fsql_engagement_kind_t :=
  if same_ci s (bs "dwell") then Some FSQL_ENGAGE_DWELL
  else if same_ci s (bs "positive") then Some FSQL_ENGAGE_POSITIVE
  else if same_ci s (bs "negative") then Some FSQL_ENGAGE_NEGATIVE
  else None.

Section Bodies.
Context (core : forall T, scall T -> Z * T).
Arguments core {T} _.
Definition rc_of {T} (c : scall T) : Z := fst (core c).

(** A call on the session's context: an error when there is none, or when the
    core says so; [before] acts on the registry while the session is held. *)
Definition on_session (x : sio) (session_id : Z) (r : registry) (f : Z -> Z) (before : Z -> registry -> registry) : udf Z * registry :=
  let sid := u64 session_id in
  match fractal_session_acquire (s_env x) sid r with
  | (r, None) => (UError, r)
  | (r, Some ctx) =>
    let rc := f ctx in
    let r := if rc =? FSQL_OK then before sid r else r in
    let r := fractal_session_release sid r in
    (if negb (rc =? FSQL_OK) then UError else UVal 0, r)
  end.
(** [v]: what the system answers to the registry's second call. *)
Definition fractal_diversify_enable (x : sio) (v : env) (session_id : option Z) (r : registry) : udf Z * registry :=
  match session_id with
  | None => (UNull, r)
  | Some n => on_session x n r (fun c => rc_of (fsql_diversify_enable c)) (fun sid => fractal_session_set_diversify_enabled v sid true)
  end.
Definition fractal_diversify_disable (x : sio) (v : env) (session_id : option Z) (r : registry) : udf Z * registry :=
  match session_id with
  | None => (UNull, r)
  | Some n => on_session x n r (fun c => rc_of (fsql_diversify_disable c)) (fun sid => fractal_session_set_diversify_enabled v sid false)
  end.

(** The keys that are there, over the current values; a negative count leaves
    the current one. *)
Definition put_count (s key : list Z) (cur : Z) : Z :=
  match json_find_key s key with
  | Some _ => let v := json_get_int s key (s32 cur) in if 0 <=? v then u32 v else cur
  | None => cur
  end.
Definition put_double (x : sio) (s key : list Z) (cur : double) : double :=
  match json_find_key s key with Some _ => json_get_double (s_underflow x) s key cur | None => cur end.
Definition override (x : sio) (s : list Z) (p : fsql_diversify_params_t) : fsql_diversify_params_t :=
  {| window_n := put_count s (bs "window_n") (window_n p);
     stall_threshold := put_double x s (bs "stall_threshold") (stall_threshold p);
     repulsion_sigma := put_double x s (bs "repulsion_sigma") (repulsion_sigma p);
     repulsion_weight := put_double x s (bs "repulsion_weight") (repulsion_weight p);
     max_shadows_considered := put_count s (bs "max_shadows_considered") (max_shadows_considered p);
     tail_buffer_cap := put_count s (bs "tail_buffer_cap") (tail_buffer_cap p) |}.
Definition set_params (x : sio) (s : list Z) (ctx : Z) : Z :=
  let '(rc, p) := core (fsql_diversify_get_params ctx) in
  if negb (rc =? FSQL_OK) then rc else rc_of (fsql_diversify_set_params ctx (override x s p)).
Definition fractal_diversify_set_params (x : sio) (session_id : option Z) (params : option (list Z)) (r : registry) : udf Z * registry :=
  match session_id with
  | None => (UNull, r)
  | Some n => on_session x n r (set_params x (params_of params)) (fun _ r => r)
  end.

Definition fractal_detect_collapse (x : sio) (session_id : option Z) (r : registry) : udf double * registry :=
  match session_id with
  | None => (UNull, r)
  | Some n =>
    match fractal_session_acquire (s_env x) (u64 n) r with
    | (r, None) => (UError, r)
    | (r, Some ctx) =>
      let dq := snd (core (fsql_diversify_current_dq ctx)) in
      let r := fractal_session_release (u64 n) r in
      (if isnan dq then UNull else UVal dq, r)
    end
  end.
Definition num_or_null (d : double) : list Z := if isnan d then bs "null" else fmt_f 10 d.
Definition explain_text (dq : double) (enabled : bool) (overhead : double) : list Z :=
  js "{'dq':" ++ num_or_null dq ++ js ",'diversify_enabled':" ++ bool_text enabled ++ js ",'overhead_p99_us':" ++ num_or_null overhead ++ js "}".
Definition fractal_explain_result (x : sio) (session_id : option Z) (cap : Z) (r : registry) : udf (list Z) * Z * registry :=
  match session_id with
  | None => (UNull, cap, r)
  | Some n =>
    match fractal_session_acquire (s_env x) (u64 n) r with
    | (r, None) => (UError, cap, r)
    | (r, Some ctx) =>
      let enabled := fractal_session_get_diversify_enabled r (u64 n) in
      let dq := snd (core (fsql_diversify_current_dq ctx)) in
      let overhead := snd (core (fsql_diversify_overhead_p99_us ctx)) in
      let r := fractal_session_release (u64 n) r in
      (print_whole (s_malloc x) cap 900 (explain_text dq enabled overhead), r)
    end
  end.
Definition fractal_session_close (session_id : option Z) (r : registry) : udf Z * registry :=
  match session_id with
  | None => (UNull, r)
  | Some n => (UVal 0, fractal_session_registry_close (u64 n) r)
  end.

(** 'on' or 'off', in any case. *)
Definition on_off (mode : list Z) : option bool :=
  if same_ci mode (bs "on") then Some true else if same_ci mode (bs "off") then Some false else None.
Definition fractal_agent_partial_fail_init (argc : nat) (mode : option (list Z)) : option (list Item_result) :=
  if negb (argc =? 2)%nat then None
  else match mode with
       | Some m => match on_off m with Some _ => Some [INT_RESULT; STRING_RESULT] | None => None end
       | None => Some [INT_RESULT; STRING_RESULT]
       end.
Definition fractal_agent_partial_fail (x : sio) (session_id : option Z) (mode : option (list Z)) (r : registry) : udf (list Z) * registry :=
  match session_id, mode with
  | Some n, Some m =>
    match on_off m with
    | None => (UError, r)
    | Some on => (UVal (if on then bs "on" else bs "off"), fractal_session_set_agent_partial (s_env x) (u64 n) on r)
    end
  | _, _ => (UNull, r)
  end.

(** [dwell_ms] absent or NULL is 0, and so is a negative one. *)
Definition fractal_feedback_report (x : sio) (session_id result_handle : option Z) (kind : option (list Z)) (dwell_ms : option Z)
    (r : registry) : udf Z * registry :=
  match session_id, result_handle, kind with
  | Some n, Some h, Some kind =>
    if h <? 0 then (UError, r) else
    match parse_engagement_kind kind with
    | None => (UError, r)
    | Some kind =>
      let dwell := Z.max 0 (default 0 dwell_ms) in
      on_session x n r (fun c => rc_of (fsql_feedback_report c h kind (u32 dwell))) (fun _ r => r)
    end
  | _, _, _ => (UNull, r)
  end.
Definition fractal_isolate_background (x : sio) (session_id result_handle : option Z) (r : registry) : udf Z * registry :=
  match session_id, result_handle with
  | Some n, Some h =>
    if h <? 0 then (UError, r)
    else on_session x n r (fun c => rc_of (fsql_feedback_report c h FSQL_ENGAGE_NEGATIVE 0)) (fun _ r => r)
  | _, _ => (UNull, r)
  end.
End Bodies.

(** ** The [_init] functions *)

Definition fractal_diversify_enable_init := double_init [INT_RESULT].
Definition fractal_diversify_disable_init := double_init [INT_RESULT].
Definition fractal_diversify_set_params_init := double_init [INT_RESULT; STRING_RESULT].
Definition fractal_detect_collapse_init := double_init [INT_RESULT].
Definition fractal_explain_result_init := vec_init [INT_RESULT] true.
Definition fractal_session_close_init := double_init [INT_RESULT].
Definition fractal_feedback_report_init (argc : nat) : option (list Item_result) :=
  if negb (argc =? 3)%nat && negb (argc =? 4)%nat then None
  else Some ([INT_RESULT; INT_RESULT; STRING_RESULT] ++ if (argc =? 4)%nat then [INT_RESULT] else []).
Definition fractal_isolate_background_init := double_init [INT_RESULT; INT_RESULT].

(** ** The session is given back *)

Section Keeps.
Context (core : forall T, scall T -> Z * T).
Context (x : sio) (v : env) (r : registry).
Hypothesis first_ok : env_ok (s_env x) r.
Hypothesis second_ok : forall sid, env_ok v (fst (fractal_session_acquire (s_env x) sid r)).

Lemma acquire_keeps sid r1 ctx r2 : fractal_session_acquire (s_env x) sid r = (r1, Some ctx) ->
  (forall P X, rtc step {| w_reg := r1; w_plain := P; w_excl := X |} {| w_reg := r2; w_plain := P; w_excl := X |}) ->
  keeps r (fractal_session_release sid r2).
Proof.
  intros E H P X. eapply rtc_l; [exact (S_acquire (s_env x) sid r P X r1 (Some ctx) first_ok E)|]. etrans; [apply H|]. apply rtc_once.
  apply (S_release sid ctx r2 [] P X).
Qed.
Lemma acquire_none_keeps sid r1 : fractal_session_acquire (s_env x) sid r = (r1, None) -> keeps r r1.
Proof. intros E P X. apply rtc_once. exact (S_acquire (s_env x) sid r P X r1 None first_ok E). Qed.
Lemma on_session_keeps n f before : (forall sid r1, env_ok v r1 -> keeps r1 (before sid r1)) -> keeps r (snd (on_session x n r f before)).
Proof.
  intros Hb. unfold on_session. pose proof (second_ok (u64 n)) as Hv. destruct (fractal_session_acquire (s_env x) (u64 n) r) as [r1 [ctx|]] eqn:E.
  - cbn [fst snd] in *. apply (acquire_keeps _ _ _ _ E). intros P X. destruct (f ctx =? FSQL_OK); [by apply Hb|done].
  - by apply (acquire_none_keeps (u64 n)).
Qed.
End Keeps.

(** No function on a session keeps it: whatever the arguments and whatever
    the core answers, errors included, the registry ends with the holders it
    had, by the registry's own operations. *)
Theorem session_functions_balanced core x v r sid h kind dwell params mode cap : env_ok (s_env x) r ->
  (forall id, env_ok v (fst (fractal_session_acquire (s_env x) id r))) ->
  keeps r (snd (fractal_diversify_enable core x v sid r)) /\ keeps r (snd (fractal_diversify_disable core x v sid r)) /\
  keeps r (snd (fractal_diversify_set_params core x sid params r)) /\ keeps r (snd (fractal_detect_collapse core x sid r)) /\
  keeps r (snd (fractal_explain_result core x sid cap r)) /\ keeps r (snd (fractal_session_close sid r)) /\
  keeps r (snd (fractal_agent_partial_fail x sid mode r)) /\ keeps r (snd (fractal_feedback_report core x sid h kind dwell r)) /\
  keeps r (snd (fractal_isolate_background core x sid h r)).
Proof.
  intros H1 H2.
  assert (Hid : forall (i : Z) r1, env_ok v r1 -> keeps r1 r1) by (intros; apply keeps_refl).
  assert (Hflag : forall on i r1, env_ok v r1 -> keeps r1 (fractal_session_set_diversify_enabled v i on r1)) by (intros on i r1 Hv P X; by apply rtc_once, S_diversify).
  assert (Hrel : forall i r1 ctx, fractal_session_acquire (s_env x) i r = (r1, Some ctx) -> keeps r (fractal_session_release i r1))
    by (intros i r1 ctx E; apply (acquire_keeps x r H1 _ _ _ _ E); done).
  split_and!.
  - destruct sid as [n|]; [|apply keeps_refl]. apply (on_session_keeps x v r); auto.
  - destruct sid as [n|]; [|apply keeps_refl]. apply (on_session_keeps x v r); auto.
  - destruct sid as [n|]; [|apply keeps_refl]. apply (on_session_keeps x v r); auto.
  - destruct sid as [n|]; [|apply keeps_refl]. unfold fractal_detect_collapse. destruct (fractal_session_acquire _ _ r) as [r1 [ctx|]] eqn:E; cbn [snd];
      [by eapply Hrel|by eapply acquire_none_keeps].
  - destruct sid as [n|]; [|apply keeps_refl]. unfold fractal_explain_result. destruct (fractal_session_acquire _ _ r) as [r1 [ctx|]] eqn:E; cbn [snd];
      [by eapply Hrel|by eapply acquire_none_keeps].
  - destruct sid as [n|]; [|apply keeps_refl]. intros P X. apply rtc_once, S_close.
  - unfold fractal_agent_partial_fail. destruct sid as [n|]; [|apply keeps_refl]. destruct mode as [m|]; [|apply keeps_refl].
    destruct (on_off m); [|apply keeps_refl]. intros P X. by apply rtc_once, S_agent_partial.
  - unfold fractal_feedback_report. destruct sid as [n|]; [|apply keeps_refl]. destruct h as [h|]; [|apply keeps_refl]. destruct kind as [k|]; [|apply keeps_refl].
    destruct (h <? 0); [apply keeps_refl|]. destruct (parse_engagement_kind k); [|apply keeps_refl]. apply (on_session_keeps x v r); auto.
  - unfold fractal_isolate_background. destruct sid as [n|]; [|apply keeps_refl]. destruct h as [h|]; [|apply keeps_refl].
    destruct (h <? 0); [apply keeps_refl|]. apply (on_session_keeps x v r); auto.
Qed.

(** ** The tunables *)

(** A params object sets what it names and nothing else: each tunable is
    overridden by its own key when it is there, with a value its type holds;
    the counts stay 32-bit words, negative ones being ignored. *)
Theorem override_frame x s p :
  let q := override x s p in
  (json_find_key s (bs "window_n") = None -> window_n q = window_n p) /\
  (json_find_key s (bs "stall_threshold") = None -> stall_threshold q = stall_threshold p) /\
  (json_find_key s (bs "repulsion_sigma") = None -> repulsion_sigma q = repulsion_sigma p) /\
  (json_find_key s (bs "repulsion_weight") = None -> repulsion_weight q = repulsion_weight p) /\
  (json_find_key s (bs "max_shadows_considered") = None -> max_shadows_considered q = max_shadows_considered p) /\
  (json_find_key s (bs "tail_buffer_cap") = None -> tail_buffer_cap q = tail_buffer_cap p) /\
  Forall (fun n => n = window_n p \/ n = max_shadows_considered p \/ n = tail_buffer_cap p \/ 0 <= n <= INT_MAX)
    [window_n q; max_shadows_considered q; tail_buffer_cap q].
Proof.
  cbn [override window_n stall_threshold repulsion_sigma repulsion_weight max_shadows_considered tail_buffer_cap]. unfold put_count, put_double.
  assert (Hint : forall k cur, let v := json_get_int s k (s32 cur) in v <= INT_MAX).
  { intros k cur. cbv zeta. assert (Hs : s32 cur <= INT_MAX) by (unfold s32, INT_MAX; pose proof (u32_range cur); case_match; lia).
    unfold json_get_int. destruct (json_find_key s k); [|done]. destruct (json_number_end _). destruct (_ || _ || _); [done|]. destruct (_ || _) eqn:E; [done|lia]. }
  assert (Hput : forall k cur, let n := match json_find_key s k with Some _ => let v := json_get_int s k (s32 cur) in if 0 <=? v then u32 v else cur | None => cur end in
    n = cur \/ 0 <= n <= INT_MAX).
  { intros k cur. cbv zeta. pose proof (Hint k cur) as Hi. cbv zeta in Hi. destruct (json_find_key s k); [|by left]. destruct (Z.leb_spec 0 (json_get_int s k (s32 cur))); [|by left].
    right. unfold INT_MAX in *. rewrite u32_id; lia. }
  split_and!; try (by intros ->). repeat (apply Forall_cons; split; [|]); [| | |constructor].
  - destruct (Hput (bs "window_n") (window_n p)); auto.
  - destruct (Hput (bs "max_shadows_considered") (max_shadows_considered p)); auto.
  - destruct (Hput (bs "tail_buffer_cap") (tail_buffer_cap p)); auto.
Qed.

(** ** The diagnostics *)

Definition num_or_nan (d : double) : Prop := num_ok d \/ isnan d = true.
Lemma num_or_null_value d : num_or_nan d -> value 0 (num_or_null d) /\ (length (num_or_null d) <= 321)%nat.
Proof.
  unfold num_or_null. intros [Hd|Hd].
  - assert (E : isnan d = false) by (destruct Hd as [_ Hd]; by destruct d). rewrite E. split; [by apply num_value|by apply num_length].
  - rewrite Hd. split; [apply (V_lit _ 110); reflexivity|cbn; lia].
Qed.
(** The diagnostics of a session are a JSON document, whole in its buffer,
    for every state of the monitor and every pair of numbers or missing ones. *)
Theorem explain_document x cap dq enabled overhead : (forall n, s_malloc x n = true) -> out_cap cap -> num_or_nan dq -> num_or_nan overhead ->
  answered (print_whole (s_malloc x) cap 900 (explain_text dq enabled overhead)).
Proof.
  intros Hm Hc [Vd Ld]%num_or_null_value [Vo Lo]%num_or_null_value. apply answer_whole; [done|done|unfold SIZE_MAX; lia| |].
  - unfold explain_text, len. rewrite !length_app. change (length (js "{'dq':")) with 6%nat. change (length (js ",'diversify_enabled':")) with 21%nat.
    change (length (js ",'overhead_p99_us':")) with 19%nat. change (length (js "}")) with 1%nat.
    assert (length (bool_text enabled) <= 5)%nat by (destruct enabled; cbn; lia). lia.
  - assert (E : explain_text dq enabled overhead = object [(bs "dq", num_or_null dq); (bs "diversify_enabled", bool_text enabled); (bs "overhead_p99_us", num_or_null overhead)]).
    { unfold explain_text. generalize (num_or_null dq) (num_or_null overhead) (bool_text enabled). as_object. }
    rewrite E. apply (doc_mono 1); [lia|]. apply doc_value, object_value; [done|].
    apply Forall_cons; split; [by split|]. apply Forall_cons; split; [split; [reflexivity|destruct enabled; [apply (V_lit _ 116)|apply (V_lit _ 102)]; reflexivity]|].
    apply Forall_cons; split; [by split|constructor].
Qed.

(** ** Runs *)

Definition demo_score : forall T, scall T -> Z * T := fun T c =>
  let d := S754_zero false in
  match c in scall T return Z * T with
  | fsql_diversify_enable _ | fsql_diversify_disable _ => (FSQL_OK, tt)
  | fsql_diversify_get_params _ => (FSQL_OK, {| window_n := 8; stall_threshold := d; repulsion_sigma := d; repulsion_weight := d; max_shadows_considered := 4; tail_buffer_cap := 2 |})
  | fsql_diversify_set_params _ _ => (FSQL_OK, tt)
  | fsql_diversify_current_dq _ | fsql_diversify_overhead_p99_us _ => (FSQL_OK, S754_nan)
  | fsql_feedback_report _ _ _ _ => (3, tt)
  end.
Definition late : env := {| now := 100; calloc_ok := true; new_sovereign := None |}.
Lemma session_functions_balanced_witness :
  snd (fractal_feedback_report demo_score demo_sio (Some 5) (Some 1) (Some (bs "DWELL")) None empty_registry) <> empty_registry /\
  keeps empty_registry (snd (fractal_feedback_report demo_score demo_sio (Some 5) (Some 1) (Some (bs "DWELL")) None empty_registry)).
Proof.
  split.
  - intros E. apply (f_equal g_entry_count) in E. vm_compute in E. discriminate E.
  - assert (He : env_ok (s_env demo_sio) empty_registry) by (intros c Hc; split; [apply not_elem_of_nil|intros id e He; by vm_compute in He]).
    assert (Hv : forall id, env_ok late (fst (fractal_session_acquire (s_env demo_sio) id empty_registry))) by (intros id c Hc; discriminate Hc).
    exact (proj1 (proj2 (proj2 (proj2 (proj2 (proj2 (proj2 (proj2
      (session_functions_balanced demo_score demo_sio late empty_registry (Some 5) (Some 1) (Some (bs "DWELL")) None None None 0 He Hv))))))))).
Defined.
Lemma override_frame_witness : let s := js "{'window_n':-1}" in let p := snd (demo_score _ (fsql_diversify_get_params 1)) in
  json_find_key s (bs "tail_buffer_cap") = None /\ tail_buffer_cap (override demo_sio s p) = tail_buffer_cap p /\ window_n (override demo_sio s p) = 8.
Proof.
  cbv zeta. assert (H : json_find_key (js "{'window_n':-1}") (bs "tail_buffer_cap") = None) by (vm_compute; reflexivity).
  split; [exact H|]. split; [|vm_compute; reflexivity].
  exact (proj1 (proj2 (proj2 (proj2 (proj2 (proj2 (override_frame demo_sio (js "{'window_n':-1}") (snd (demo_score _ (fsql_diversify_get_params 1)))))))))  H).
Defined.
Lemma explain_document_witness : answered (print_whole (s_malloc demo_sio) 0 900 (explain_text S754_nan true (of_int 12))).
Proof.
  apply (explain_document demo_sio 0 S754_nan true (of_int 12)); [reflexivity|by left|by right|].
  left. split; vm_compute; reflexivity.
Defined.
