(* ===== verification/ConfigUdf.v ===== *)
(** * The configuration functions (src/fractalsql_config_udf.c)

    The SQL face of the per-session overlay of Config.v.  A body is a function
    of its arguments, of the overlay and of its buffer's capacity. *)

From stdpp Require Import gmap.
From S2P Require Import Prelude LedgerFmt AuditJson JsonOut JsonText Config Session Daemon Search SearchProofs Vector Analytics AnalyticsProofs.

Definition MYSQL_ERRMSG_SIZE : nat := 512.
(** The [_init] functions: the types asked for, and whether the server is told
    that the result can be NULL. *)
Definition cfg_init (types : list Item_result) (text : bool) (maybe_null : bool) (argc : nat) (calloc_ok : bool) : option (list Item_result * bool) :=
  if negb (argc =? length types)%nat then None
  else if text && negb calloc_ok then None
  else Some (types, maybe_null).
Definition fractal_config_set_init := cfg_init [STRING_RESULT; STRING_RESULT; INT_RESULT] true true.
Definition fractal_config_get_init := cfg_init [STRING_RESULT; INT_RESULT] true true.
Definition fractal_config_reset_init := cfg_init [INT_RESULT] false false.
Definition fractal_config_list_init := cfg_init [INT_RESULT] true true.
Definition fractal_config_keys_init := cfg_init [] true true.

Section Bodies.
Context (malloc : Z -> bool).

(** The text, up to its NUL, copied out. *)
Definition cfg_return (cap : Z) (s : list Z) : udf (list Z) * Z :=
  let s := cstr s in
  let '(ok, cap) := json_out_ensure malloc cap (len s + 1) in
  if negb ok then (UError, cap) else (UVal s, cap).

Definition fractal_config_set (name value : option (list Z)) (session_id : option Z) (cap : Z) (s : overlay) : udf (list Z) * Z * overlay :=
  match name, value, session_id with
  | Some name, Some value, Some sid =>
    if 256 <=? len name then (cfg_return cap (bs "refused: the configuration key name is too long"), s)
    else if FSQL_CFG_MAX_VALUE <=? len value
    then (cfg_return cap (bs "refused: the configuration value is too long (the limit is 8191 bytes)"), s)
    else if negb (malloc (len value + 1)) then (UError, cap, s)
    else
      let '(s, r) := fractal_config_set_value (malloc (len (cstr value) + 1)) (u64 sid) (Some (cstr name)) (Some (cstr value)) s in
      (match r with
       | Some reason => let e := take (MYSQL_ERRMSG_SIZE - 1) reason in cfg_return cap (match e with [] => bs "refused" | _ => e end)
       | None => cfg_return cap (bs "ok")
       end, s)
  | _, _, _ => (UNull, cap, s)
  end.
Definition fractal_config_get {T : TierConfig} (name : option (list Z)) (session_id : option Z) (cap : Z) (s : overlay)
  : udf (list Z) * Z * overlay :=
  match name, session_id with
  | Some name, Some sid =>
    if 256 <=? len name then (UNull, cap, s) else
    match fractal_config_get_value (u64 sid) (cstr name) FSQL_CFG_MAX_VALUE s with
    | (s, None) => (UNull, cap, s)
    | (s, Some v) => (cfg_return cap v, s)
    end
  | _, _ => (UNull, cap, s)
  end.
Definition fractal_config_reset (session_id : option Z) (s : overlay) : udf Z * overlay :=
  match session_id with
  | None => (UNull, s)
  | Some sid => let '(s, n) := fractal_config_reset_session (u64 sid) s in (UVal n, s)
  end.
Definition fractal_config_list (session_id : option Z) (cap : Z) (s : overlay) : udf (list Z) * Z :=
  match session_id with
  | None => (UNull, cap)
  | Some sid =>
    match fractal_config_session_json malloc (malloc 3) s (u64 sid) with
    | None => (UError, cap)
    | Some json => cfg_return cap json
    end
  end.

(** ** The keys *)

Definition type_name (t : fsq_cfg_type) : list Z :=
  match t with
  | FSQL_CFG_TYPE_STR => bs "string" | FSQL_CFG_TYPE_PATH => bs "path" | FSQL_CFG_TYPE_INT => bs "int"
  | FSQL_CFG_TYPE_BOOL => bs "bool" | FSQL_CFG_TYPE_ENUM => bs "enum"
  end.
Definition key_text (k : fsq_cfg_key) : list Z :=
  js "{'name':'" ++ k_key k ++ js "','type':'" ++ type_name (k_type k) ++ js "','session_overridable':" ++ bool_text (session_ok k) ++ js "}".
(** One turn per key: room for 256 bytes more is made first. *)
Fixpoint put_keys (cap : Z) (t : list Z) (l : list fsq_cfg_key) : option (list Z * Z) :=
  match l with
  | [] => Some (t, cap)
  | k :: l =>
    match (if cap <? len t + 256 then if SIZE_MAX / 2 <? cap then None else if malloc (cap * 2) then Some (cap * 2) else None else Some cap) with
    | None => None
    | Some cap => t ← emit cap t (comma (len t <=? 1) (key_text k)); put_keys cap t l
    end
  end.
Definition fractal_config_keys (cap : Z) : udf (list Z) * Z :=
  if negb (malloc 4096) then (UError, cap) else
  match put_keys 4096 [91] g_keys with
  | None => (UError, cap)
  | Some (t, kcap) => if kcap <=? len t + 2 then (UError, cap) else cfg_return cap (t ++ [93])
  end.
End Bodies.

(** ** Setting and getting *)

Lemma cfg_return_ok malloc cap s : (forall n, malloc n = true) -> out_cap cap -> no_nul s -> len s < SIZE_MAX -> exists cap',
  cfg_return malloc cap s = (UVal s, cap') /\ out_cap cap' /\ len s + 1 <= cap'.
Proof.
  intros Hm Hc Hs Hl. unfold cfg_return. rewrite cstr_id by done.
  pose proof (ensure_spec malloc cap (len s + 1) Hc ltac:(lia)) as H. pose proof (ensure_mem malloc cap (len s + 1) Hm Hc ltac:(lia)) as Ho.
  destruct (json_out_ensure malloc cap (len s + 1)) as [ok cap']. cbn [fst] in Ho. subst ok. destruct H as (H1 & H2 & _). exists cap'.
  split_and!; [done|done|by apply H2].
Qed.

(** No refusal reads as [ok]. *)
Definition no_ok (e : list Z) : Prop := match e with [] => False | c :: _ => c <> 0 /\ c <> 111 end.
Lemma validate_reason k v e : validate_value k v = Some e -> no_ok e.
Proof. unfold validate_value, fractal_config_validate_path, quoted. intros H. repeat case_match; simplify_eq; cbn; lia. Qed.
Lemma set_reason sid name v s s' e : fractal_config_set_value true sid name v s = (s', Some e) -> no_ok e.
Proof.
  unfold fractal_config_set_value, msg_unknown, msg_daemon_wide, quoted. rewrite andb_false_r. intros H.
  repeat (case_match; simplify_eq); try (by eapply validate_reason); cbn; lia.
Qed.
Lemma no_ok_cut e n : no_ok e -> cstr (take (S n) e) <> bs "ok" /\ take (S n) e <> [].
Proof. destruct e as [|c e]; [done|]. intros [H H']. split; [|done]. cbn. destruct (Z.eqb_spec c 0); [done|]. by intros [= ?]. Qed.
Lemma cfg_return_value malloc cap s v cap' : cfg_return malloc cap s = (UVal v, cap') -> v = cstr s.
Proof. unfold cfg_return. destruct (json_out_ensure _ _ _) as [ok c]. destruct ok; cbn; congruence. Qed.
Lemma cstr_length s : (length (cstr s) <= length s)%nat.
Proof. induction s as [|c s IH]; [done|]. cbn. case_match; cbn; lia. Qed.
Lemma key_session_not_secret id k : g_keys !! id = Some k -> session_ok k = true -> secret k = false.
Proof.
  intros H%list_elem_of_lookup_2%list_elem_of_In Hs.
  assert (F : forallb (fun k => negb (session_ok k && secret k)) g_keys = true) by reflexivity.
  pose proof (proj1 (forallb_forall _ _) F k H) as E. cbn beta in E. rewrite Hs in E. by apply negb_true_iff in E.
Qed.

(** Setting and reading back, as SQL sees it: a set that answers [ok] for a
    text that is not empty makes the get of the same session and key answer
    exactly that text (up to its NUL), whatever the tiers hold; a set that
    answers anything else, an error or a NULL, changes nothing. *)
Theorem config_set_then_get malloc (T : TierConfig) name value sid cap cap' s : overlay_wf s -> (forall n, malloc n = true) ->
  out_cap cap -> out_cap cap' ->
  let '(r, _, s') := fractal_config_set malloc name value sid cap s in
  overlay_wf s' /\
  (r <> UVal (bs "ok") -> s' = s) /\
  (r = UVal (bs "ok") -> exists v, value = Some v /\
    (cstr v <> [] -> fst (fst (fractal_config_get malloc name sid cap' s')) = UVal (cstr v))).
Proof.
  intros Hw Hm Hc Hc'. unfold fractal_config_set.
  destruct name as [name|]; [|done]. destruct value as [v|]; [|done]. destruct sid as [sid|]; [|done].
  destruct (256 <=? len name) eqn:En.
  { destruct (cfg_return malloc cap _) as [r c] eqn:E. split_and!; [done|done|]. intros ->. by apply cfg_return_value in E. }
  destruct (FSQL_CFG_MAX_VALUE <=? len v) eqn:Ev.
  { destruct (cfg_return malloc cap _) as [r c] eqn:E. split_and!; [done|done|]. intros ->. by apply cfg_return_value in E. }
  rewrite !Hm. cbn [negb]. destruct (fractal_config_set_value true (u64 sid) (Some (cstr name)) (Some (cstr v)) s) as [s' [e|]] eqn:Es;
    destruct (set_value_spec _ _ _ _ _ _ _ Hw Es) as [Hw' H].
  - subst s'. apply set_reason in Es. destruct (no_ok_cut e (MYSQL_ERRMSG_SIZE - 2) Es) as [N1 N2].
    change (S (MYSQL_ERRMSG_SIZE - 2)) with (MYSQL_ERRMSG_SIZE - 1)%nat in N1, N2.
    destruct (cfg_return malloc cap _) as [r c] eqn:E. split_and!; [done|done|].
    intros ->. apply cfg_return_value in E. destruct (take (MYSQL_ERRMSG_SIZE - 1) e); [done|]. by rewrite <- E in N1.
  - destruct H as (id & Hid & Hok & Hget & _). destruct (cfg_return_ok malloc cap (bs "ok")) as (c & E & _); [done|done|by repeat constructor|by vm_compute|].
    rewrite E. split_and!; [done|done|]. intros _. exists v. split; [done|]. intros Hne.
    unfold fractal_config_get. rewrite En. unfold fractal_config_get_value. rewrite Hid.
    destruct (key_id_bound _ _ Hid) as (k & Hk & _). rewrite Hk.
    assert (Hs : session_ok k = true).
    { unfold fractal_config_key_session_ok in Hok. destruct (_ || _); [done|]. by rewrite Nat2Z.id, Hk in Hok. }
    rewrite (key_session_not_secret id k Hk Hs).
    destruct (fractal_config_lookup_str (u64 sid) (cstr name) (Some FSQL_CFG_MAX_VALUE) s') as [s2 o] eqn:El.
    destruct (lookup_str_spec _ _ _ _ _ _ Hw' El) as (_ & _ & _ & ->). rewrite Hid, Hget, Nat.eqb_refl.
    assert (is_set (Some (cstr v)) = true) as -> by (by destruct (cstr v)).
    pose proof (cstr_length v). unfold len in Ev. change (0 <? FSQL_CFG_MAX_VALUE) with true. rewrite take_ge by (unfold FSQL_CFG_MAX_VALUE in *; lia). cbn [fst].
    destruct (cfg_return_ok malloc cap' (cstr v)) as (c' & E' & _); [done|done|apply cstr_no_nul|unfold SIZE_MAX, FSQL_CFG_MAX_VALUE, len in *; lia|].
    by rewrite E'.
Qed.
(** Setting and reading back on the empty overlay, with tiers that hold nothing. *)
Definition no_tier : TierConfig := {| cognition_config_value := fun _ _ => None; textsql_config_value := fun _ _ => None; enterprise_config_value := fun _ _ => None |}.
Definition with_memory (n : Z) : bool := true.
Lemma config_set_then_get_witness : let s := snd (fractal_config_set with_memory (Some (bs "think")) (Some (bs "high")) (Some (-1)) 0 overlay0) in
  fst (fst (fractal_config_get with_memory (T := no_tier) (Some (bs "think")) (Some (-1)) 0 s)) = UVal (bs "high").
Proof.
  assert (E : fst (fst (fractal_config_set with_memory (Some (bs "think")) (Some (bs "high")) (Some (-1)) 0 overlay0)) = UVal (bs "ok")) by (vm_compute; reflexivity).
  pose proof (config_set_then_get with_memory no_tier (Some (bs "think")) (Some (bs "high")) (Some (-1)) 0 0 overlay0 overlay0_wf
    (fun _ => eq_refl) ltac:(by left) ltac:(by left)) as H.
  destruct (fractal_config_set with_memory (Some (bs "think")) (Some (bs "high")) (Some (-1)) 0 overlay0) as [[r c] s].
  cbn [fst snd] in *. destruct H as (_ & _ & H). destruct (H E) as (v & Hv & Hg). injection Hv as <-.
  change (bs "high") with (cstr (bs "high")). apply Hg. discriminate.
Defined.

(** ** The list of keys *)

(** The whole document, which leaves the first buffer half empty. *)
Definition keys_text : list Z :=
  91 :: foldr (fun k t => key_text k ++ match t with [] => [] | _ => 44 :: t end) [] g_keys.
Lemma put_keys_all malloc : put_keys malloc 4096 [91] g_keys = Some (keys_text, 4096).
Proof. vm_compute. reflexivity. Qed.
Lemma keys_doc : doc 64 (keys_text ++ [93]).
Proof.
  destruct (gate_decides (replicate 64 0) (replicate 65 ST_EMPTY) (keys_text ++ [93])) as (b & Hb & H); [done|done|].
  apply H. assert (E : ent_json_well_formed (replicate 64 0) (replicate 65 ST_EMPTY) (keys_text ++ [93]) = Some true) by (vm_compute; reflexivity).
  congruence.
Qed.
Lemma keys_plain : cstr (keys_text ++ [93]) = keys_text ++ [93] /\ len (keys_text ++ [93]) = 1272.
Proof. by split; vm_compute. Qed.
(** With memory the keys are answered whole: one object per key of the table,
    in the table's order, with its type and whether a session may override it,
    a JSON document for the gate; the growth of the first buffer and its
    three error paths are never taken. *)
Theorem keys_listed malloc cap : (forall n, malloc n = true) -> out_cap cap ->
  exists cap', fractal_config_keys malloc cap = (UVal (keys_text ++ [93]), cap') /\ doc 64 (keys_text ++ [93]) /\ len (keys_text ++ [93]) + 1 <= cap'.
Proof.
  intros Hm Hc. unfold fractal_config_keys. rewrite Hm, put_keys_all. cbn [negb].
  destruct keys_plain as [E L]. rewrite (proj2 (Z.leb_gt 4096 (len keys_text + 2))) by (unfold len in *; rewrite length_app in L; cbn [length] in L; lia).
  destruct (cfg_return_ok malloc cap (keys_text ++ [93])) as (c & H1 & _ & H2); [done|done| |rewrite L; unfold SIZE_MAX; lia|].
  - rewrite <- E. apply cstr_no_nul.
  - exists c. split_and!; [done|apply keys_doc|done].
Qed.
Lemma keys_listed_witness : exists cap', fractal_config_keys with_memory 0 = (UVal (keys_text ++ [93]), cap').
Proof. destruct (keys_listed with_memory 0 (fun _ => eq_refl) ltac:(by left)) as (c & H & _). by exists c. Defined.

(** The reset function tells the server that its result is never NULL, and
    answers NULL for a NULL session. *)
Theorem reset_null_undeclared s : fractal_config_reset_init 1 true = Some ([INT_RESULT], false) /\ fractal_config_reset None s = (UNull, s).
Proof. done. Qed.
