(* ===== verification/Cognition.v ===== *)
(** * The cognition tier's settings (src/fractalsql_cognition.c, first half)

    The bounded error detail, the partial-result document, the effective
    configuration with its boot-environment fallback, the reload path, and the
    environment the reasoning plugin reads: what each tier publishes and the
    bracket that puts the operator's values back.  [setenv] and [unsetenv] are
    taken to succeed (their result is not looked at); every strdup is an oracle
    answer.  The contexts and the dispatch are in Bridge.v. *)

From stdpp Require Import gmap.
From S2P Require Import Prelude AuditJson Config DaemonConf Session Daemon JsonOut Float Vector Search Enterprise.

(** ** Bounded details *)

Definition SFS_DETAIL_MAX : nat := 256.
Definition SFS_DETAIL_MARK : list Z := bs "...[truncated]".
Definition DETAIL_CAP : nat := SFS_DETAIL_MAX + S (length SFS_DETAIL_MARK).
Definition utf8_cont (c : Z) : bool := Z.land c 192 =? 128.
(** Back to the start of a UTF-8 sequence. *)
Fixpoint to_boundary (d : list Z) (keep : nat) : nat :=
  match keep with
  | O => O
  | S k => if utf8_cont (at_ d keep) then to_boundary d k else keep
  end.
Definition sfs_detail_bounded (detail : list Z) (cap : nat) : list Z :=
  if (length detail + 1 <=? cap)%nat then detail
  else
    let keep := (cap - 1 - length SFS_DETAIL_MARK)%nat in
    let keep := if (length detail <? keep)%nat then length detail else keep in
    take (to_boundary detail keep) detail ++ SFS_DETAIL_MARK.

(** ** The output buffer *)

Definition FRACTAL_COGNITION_MAX_INPUT_BYTES : Z := 4 * 1024 * 1024.
Definition FRACTAL_MAX_AI_RESPONSE_BYTES : Z := 16 * 1024 * 1024.
Definition FRACTAL_MAX_EMBED_DIM : nat := Z.to_nat 16384.

(** The doubling has no stop of its own: it wraps at the width of a size_t. *)
Definition str_turn (need ncap : Z) : Z + Z := if ncap <? need then inl (u64 (ncap * 2)) else inr ncap.
Definition str_out_ensure (malloc : Z -> bool) (cap need : Z) : bool * Z :=
  if need <=? cap then (true, cap) else
  match while (str_turn need) 66 (if cap =? 0 then 256 else cap) with
  | Some ncap => if malloc ncap then (true, ncap) else (false, cap)
  | None => (false, cap)
  end.

(** ** The partial-result document *)

Definition FRACTAL_PARTIAL_DETAIL_MAX : nat := 512.
(** What is written at [w] while there is room for the longest escape. *)
Fixpoint json_escape_into (dst_cap w : Z) (src : list Z) : list Z :=
  match src with
  | [] => []
  | c :: r => if w + 6 <? dst_cap then json_piece c ++ json_escape_into dst_cap (w + len (json_piece c)) r else []
  end.
Definition agent_partial_sentinel (malloc : Z -> bool) (cap : Z) (errbuf : list Z) : option (list Z) * Z :=
  let detail := match errbuf with [] => bs "(no detail)" | _ => errbuf end in
  let truncated := (FRACTAL_PARTIAL_DETAIL_MAX <? length detail)%nat in
  let detail := if truncated then take (to_boundary detail FRACTAL_PARTIAL_DETAIL_MAX) detail else detail in
  let '(ok, cap) := str_out_ensure malloc cap ((len detail + 16) * 6 + 48) in
  if negb ok then (None, cap) else
  let t := js "{'reasoning_step_failed':'" in
  let t := t ++ json_escape_into (cap - len t - 2) 0 detail in
  let t := if truncated then t ++ json_escape_into (cap - len t - 2) 0 SFS_DETAIL_MARK else t in
  (Some (t ++ js "'}"), cap).

(** The vector text, in this file's own copy. *)
Definition format_vector_json (malloc : Z -> bool) (cap : Z) (v : list float) : option (list Z) * Z :=
  let '(ok, cap) := str_out_ensure malloc cap (Z.of_nat (length v) * 32 + 8) in
  if negb ok then (None, cap) else
  match fold_left (fun acc x => match acc with
                   | None => None
                   | Some (i, t) => let t := if (0 <? i)%nat then t ++ [44] else t in
                                    match emit cap t (fmt_g 9 x) with Some t => Some (S i, t) | None => None end
                   end) v (Some (0%nat, [91])) with
  | Some (_, t) => (Some (t ++ [93]), cap)
  | None => (None, cap)
  end.

(** ** The settings *)

Record cognition_config := {
  reasoning_plugin : option (list Z); http_url : option (list Z); http_token : option (list Z); http_model : option (list Z);
  http_embed_url : option (list Z); http_embed_model : option (list Z); http_allow_plaintext : bool;
  http_think : option (list Z); http_think_provider : option (list Z); http_native_url : option (list Z);
  http_num_ctx : option (list Z); http_response_mode : option (list Z)
}.
Definition cfg0 : cognition_config :=
  {| reasoning_plugin := None; http_url := None; http_token := None; http_model := None; http_embed_url := None;
     http_embed_model := None; http_allow_plaintext := false; http_think := None; http_think_provider := None;
     http_native_url := None; http_num_ctx := None; http_response_mode := None |}.
Record cog := {
  g_cfg : cognition_config; g_env_fb : cognition_config;
  g_env_captured : bool; g_cfg_initialized : bool; g_provider_applied : bool
}.
Definition cog0 : cog :=
  {| g_cfg := cfg0; g_env_fb := cfg0; g_env_captured := false; g_cfg_initialized := false; g_provider_applied := false |}.

(** [None] is the return -1. *)
Definition dup_env_into (ok : bool) (ev : environ) (name : list Z) : option (option (list Z)) :=
  match ev !! name with
  | None | Some [] => Some None
  | Some v => if ok then Some (Some v) else None
  end.
Definition dup_env_pref_into (ok : bool) (ev : environ) (preferred legacy : list Z) : option (option (list Z)) :=
  match ev !! preferred with
  | Some (c :: v) => if ok then Some (Some (c :: v)) else None
  | _ => dup_env_into ok ev legacy
  end.
Definition dup_or (ok : bool) (s : option (list Z)) : option (option (list Z)) :=
  match s with None => Some None | Some v => if ok then Some (Some v) else None end.

(** Every string is copied, and all of them are dropped when one copy fails. *)
Definition dup_cfg (dup : nat -> bool) (from : cognition_config) : option cognition_config :=
  pl ← dup_or (dup 0%nat) (reasoning_plugin from);
  u ← dup_or (dup 1%nat) (http_url from);
  tk ← dup_or (dup 2%nat) (http_token from);
  m ← dup_or (dup 3%nat) (http_model from);
  eu ← dup_or (dup 4%nat) (http_embed_url from);
  em ← dup_or (dup 5%nat) (http_embed_model from);
  th ← dup_or (dup 6%nat) (http_think from);
  tp ← dup_or (dup 7%nat) (http_think_provider from);
  nu ← dup_or (dup 8%nat) (http_native_url from);
  nc ← dup_or (dup 9%nat) (http_num_ctx from);
  rm ← dup_or (dup 10%nat) (http_response_mode from);
  Some {| reasoning_plugin := pl; http_url := u; http_token := tk; http_model := m; http_embed_url := eu;
          http_embed_model := em; http_allow_plaintext := http_allow_plaintext from; http_think := th;
          http_think_provider := tp; http_native_url := nu; http_num_ctx := nc; http_response_mode := rm |}.

(** A flag variable: set, not empty and not the string 0. *)
Definition flag_value (v : option (list Z)) : bool :=
  match v with Some (c :: r) => negb (bytes_eqb (c :: r) (bs "0")) | _ => false end.
Definition or_legacy (v w : option (list Z)) : option (list Z) := match v with Some (c :: r) => Some (c :: r) | _ => w end.

Definition env_snapshot (dup : nat -> bool) (ev : environ) : option cognition_config :=
  pl ← dup_env_into (dup 0%nat) ev (bs "FRACTALSQL_REASONING_PLUGIN");
  u ← dup_env_pref_into (dup 1%nat) ev (bs "FSQL_REASONING_HTTP_URL") (bs "FRACTALSQL_HTTP_URL");
  tk ← dup_env_pref_into (dup 2%nat) ev (bs "FSQL_REASONING_HTTP_TOKEN") (bs "FRACTALSQL_HTTP_TOKEN");
  m ← dup_env_pref_into (dup 3%nat) ev (bs "FSQL_REASONING_HTTP_MODEL") (bs "FRACTALSQL_HTTP_MODEL");
  eu ← dup_env_into (dup 4%nat) ev (bs "FRACTALSQL_HTTP_EMBED_URL");
  em ← dup_env_into (dup 5%nat) ev (bs "FRACTALSQL_HTTP_EMBED_MODEL");
  th ← dup_env_pref_into (dup 6%nat) ev (bs "FSQL_REASONING_HTTP_THINK") (bs "FRACTALSQL_HTTP_THINK");
  tp ← dup_env_pref_into (dup 7%nat) ev (bs "FSQL_REASONING_HTTP_THINK_PROVIDER") (bs "FRACTALSQL_HTTP_THINK_PROVIDER");
  nu ← dup_env_pref_into (dup 8%nat) ev (bs "FSQL_REASONING_HTTP_NATIVE_URL") (bs "FRACTALSQL_HTTP_NATIVE_URL");
  nc ← dup_env_pref_into (dup 9%nat) ev (bs "FSQL_REASONING_HTTP_NUM_CTX") (bs "FRACTALSQL_HTTP_NUM_CTX");
  rm ← dup_env_into (dup 10%nat) ev (bs "FSQL_REASONING_HTTP_RESPONSE_MODE");
  Some {| reasoning_plugin := pl; http_url := u; http_token := tk; http_model := m; http_embed_url := eu;
          http_embed_model := em;
          http_allow_plaintext := flag_value (or_legacy (ev !! bs "FSQL_REASONING_HTTP_ALLOW_PLAINTEXT") (ev !! bs "FRACTALSQL_HTTP_ALLOW_PLAINTEXT"));
          http_think := th; http_think_provider := tp; http_native_url := nu; http_num_ctx := nc; http_response_mode := rm |}.

(** Once per process; a failed capture is not latched. *)
Definition capture_env_fb (dup : nat -> bool) (ev : environ) (s : cog) : cog * bool :=
  if g_env_captured s then (s, true) else
  match env_snapshot dup ev with
  | Some c => ({| g_cfg := g_cfg s; g_env_fb := c; g_env_captured := true; g_cfg_initialized := g_cfg_initialized s;
                  g_provider_applied := g_provider_applied s |}, true)
  | None => ({| g_cfg := g_cfg s; g_env_fb := cfg0; g_env_captured := false; g_cfg_initialized := g_cfg_initialized s;
                g_provider_applied := g_provider_applied s |}, false)
  end.
(** [dup 11 ..] are the copies of the second step. *)
Definition ensure_env_config (dup : nat -> bool) (ev : environ) (s : cog) : cog * bool :=
  let '(s, ok) := capture_env_fb dup ev s in
  if ok && negb (g_provider_applied s) && negb (g_cfg_initialized s) then
    match dup_cfg (fun k => dup (11 + k)%nat) (g_env_fb s) with
    | Some c => ({| g_cfg := c; g_env_fb := g_env_fb s; g_env_captured := g_env_captured s; g_cfg_initialized := true;
                    g_provider_applied := g_provider_applied s |}, ok)
    | None => ({| g_cfg := cfg0; g_env_fb := g_env_fb s; g_env_captured := g_env_captured s;
                  g_cfg_initialized := g_cfg_initialized s; g_provider_applied := g_provider_applied s |}, ok)
    end
  else (s, ok).

(** [None] is the return -1. *)
Definition fractalsql_cognition_config_value (name : list Z) (outcap : Z) (s : cog) : option (list Z) :=
  if outcap <=? 0 then None else
  let c := g_cfg s in
  let v :=
    if bytes_eqb name (bs "reasoning_plugin") then reasoning_plugin c
    else if bytes_eqb name (bs "reasoning_url") then http_url c
    else if bytes_eqb name (bs "reasoning_token") then http_token c
    else if bytes_eqb name (bs "reasoning_model") then http_model c
    else if bytes_eqb name (bs "embed_url") then http_embed_url c
    else if bytes_eqb name (bs "embed_model") then http_embed_model c
    else if bytes_eqb name (bs "think") then http_think c
    else if bytes_eqb name (bs "think_provider") then http_think_provider c
    else if bytes_eqb name (bs "think_native_url") then http_native_url c
    else if bytes_eqb name (bs "think_num_ctx") then http_num_ctx c
    else if bytes_eqb name (bs "reasoning_allow_plaintext") then Some (if http_allow_plaintext c then bs "1" else bs "0")
    else None in
  take (Z.to_nat (outcap - 1)) <$> v.

(** ** The reload path *)

Definition fractalsql_cognition_check_provider (c : fsq_config) : bool := true.

(** What each tier's plugin instance was last loaded for: the tiers of
    Session.v, and the fingerprint, when it is valid. *)
Record loads := { l_tiers : tiers; l_fp : fsql_tier -> option Z }.
Definition forget (t : fsql_tier) (l : loads) : loads :=
  {| l_tiers := tier_forget_loaded t (l_tiers l); l_fp := upd_tier t None (l_fp l) |}.

(** The daemon prints [think_num_ctx] for the environment. *)
Definition num_ctx_of (c : fsq_config) (env : option (list Z)) : option (list Z) :=
  if has_bit (prov_present c) (prov_bit 10) then Some (dec_d (default 0 (c_long c !! bs "think_num_ctx"))) else env.
Definition flag_of (c : fsq_config) (bit : Z) (name : list Z) (env : bool) : bool :=
  if has_bit (prov_present c) bit then default false (c_bool c !! name) else env.
(** The configuration a reload asks for, before it is copied. *)
Definition wanted (c : fsq_config) (fb : cognition_config) : cognition_config :=
  {| reasoning_plugin := pick c (prov_bit 0) (bs "reasoning_plugin") (reasoning_plugin fb);
     http_url := pick c (prov_bit 1) (bs "reasoning_url") (http_url fb);
     http_token := pick c (prov_bit 2) (bs "reasoning_token") (http_token fb);
     http_model := pick c (prov_bit 3) (bs "reasoning_model") (http_model fb);
     http_embed_url := pick c (prov_bit 5) (bs "embed_url") (http_embed_url fb);
     http_embed_model := pick c (prov_bit 6) (bs "embed_model") (http_embed_model fb);
     http_allow_plaintext := flag_of c (prov_bit 4) (bs "reasoning_allow_plaintext") (http_allow_plaintext fb);
     http_think := pick c (prov_bit 7) (bs "think") (http_think fb);
     http_think_provider := pick c (prov_bit 8) (bs "think_provider") (http_think_provider fb);
     http_native_url := pick c (prov_bit 9) (bs "think_native_url") (http_native_url fb);
     http_num_ctx := num_ctx_of c (http_num_ctx fb);
     http_response_mode := http_response_mode fb |}.
Definition fractalsql_cognition_apply_provider (dup : nat -> bool) (ev : environ) (c : fsq_config) (st : cog * loads) : cog * loads * bool :=
  let '(s, l) := st in
  let '(s, ok) := capture_env_fb dup ev s in
  if negb ok then (s, l, false) else
  match dup_cfg (fun k => dup (11 + k)%nat) (wanted c (g_env_fb s)) with
  | None => (s, l, false)
  | Some n =>
    ({| g_cfg := n; g_env_fb := g_env_fb s; g_env_captured := g_env_captured s; g_cfg_initialized := true; g_provider_applied := true |},
     forget FSQL_TIER_EMBED (forget FSQL_TIER_REASON l), true)
  end.

(** ** Publishing *)

Definition var_url : list Z := bs "FSQL_REASONING_HTTP_URL".
Definition var_token : list Z := bs "FSQL_REASONING_HTTP_TOKEN".
Definition var_model : list Z := bs "FSQL_REASONING_HTTP_MODEL".
Definition var_plaintext : list Z := bs "FSQL_REASONING_HTTP_ALLOW_PLAINTEXT".
Definition var_mode : list Z := bs "FSQL_REASONING_HTTP_MODE".
Definition var_response_mode : list Z := bs "FSQL_REASONING_HTTP_RESPONSE_MODE".
Definition var_think : list Z := bs "FSQL_REASONING_HTTP_THINK".
Definition var_think_provider : list Z := bs "FSQL_REASONING_HTTP_THINK_PROVIDER".
Definition var_native_url : list Z := bs "FSQL_REASONING_HTTP_NATIVE_URL".
Definition var_num_ctx : list Z := bs "FSQL_REASONING_HTTP_NUM_CTX".

(** [setenv] of a value, [unsetenv] without one. *)
Definition setenv (name : list Z) (v : option (list Z)) (ev : environ) : environ :=
  match v with Some v => <[name := v]> ev | None => delete name ev end.
Definition set_all (l : list (list Z * option (list Z))) (ev : environ) : environ :=
  fold_left (fun ev nv => setenv (fst nv) (snd nv) ev) l ev.
Definition one_if (b : bool) : option (list Z) := if b then Some (bs "1") else None.

Definition reason_settings (c : cognition_config) : list (list Z * option (list Z)) := [
  (var_url, http_url c); (var_token, http_token c); (var_model, http_model c); (var_plaintext, one_if (http_allow_plaintext c));
  (var_think, http_think c); (var_think_provider, http_think_provider c); (var_native_url, http_native_url c);
  (var_num_ctx, http_num_ctx c); (var_mode, None); (var_response_mode, http_response_mode c); (system_tag, None) ].
Definition apply_reason_env_locked (c : cognition_config) : environ -> environ := set_all (reason_settings c).
Definition embed_settings (url : list Z) (c : cognition_config) : list (list Z * option (list Z)) := [
    (var_url, Some url); (var_token, http_token c); (var_model, http_embed_model c); (var_plaintext, one_if (http_allow_plaintext c));
    (var_mode, Some (bs "embedding")); (var_response_mode, None); (system_tag, None); (var_think, None); (var_think_provider, None);
    (var_native_url, None); (var_num_ctx, None) ].
(** [None]: [setenv] is handed a NULL value. *)
Definition apply_embed_env_locked (c : cognition_config) (ev : environ) : option environ :=
  match http_embed_url c with Some url => Some (set_all (embed_settings url c) ev) | None => None end.

(** A saved value; [EMBED_ENV_OOM] is the failed copy. *)
Inductive saved_slot := S_unset | S_value (v : list Z) | EMBED_ENV_OOM.
Definition save_slot (ok : bool) (v : option (list Z)) : saved_slot :=
  match v with None => S_unset | Some v => if ok then S_value v else EMBED_ENV_OOM end.
Fixpoint save_from (dup : nat -> bool) (i : nat) (ev : environ) (names : list (list Z)) : list saved_slot * bool :=
  match names with
  | [] => ([], true)
  | n :: names =>
    let s := save_slot (dup i) (ev !! n) in
    let '(r, ok) := save_from dup (S i) ev names in
    (s :: r, match s with EMBED_ENV_OOM => false | _ => ok end)
  end.
Definition embed_env_save (dup : nat -> bool) (ev : environ) : list saved_slot * bool := save_from dup 0 ev fsq_cfg_bridge_vars.
Definition restore_one (ev : environ) (ns : list Z * saved_slot) : environ :=
  match snd ns with
  | EMBED_ENV_OOM => ev
  | S_value v => <[fst ns := v]> ev
  | S_unset => delete (fst ns) ev
  end.
Definition embed_env_restore (saved : list saved_slot) (ev : environ) : environ :=
  fold_left restore_one (zip fsq_cfg_bridge_vars saved) ev.
Definition embed_env_close := embed_env_restore.
