(* ===== verification/T2s.v ===== *)
(** * The text-to-SQL tier's settings (src/fractalsql_textsql.c)

    The effective configuration with its boot-environment fallback, the read
    side, the reload path, what the generate and review tiers publish, and
    fractal_t2s_config.  The allowlist gate is in TextSql.v, the dispatch in
    Bridge.v. *)

From stdpp Require Import gmap.
From S2P Require Import Prelude AuditJson Config DaemonConf Session Daemon JsonOut TextSql Search Enterprise Cognition.

Definition FRACTAL_T2S_MAX_INPUT_BYTES : Z := 4 * 1024 * 1024.

Record t2s_config := {
  t_plugin : option (list Z); t_url : option (list Z); t_token : option (list Z); t_model : option (list Z);
  t_plaintext : bool; max_attempts : Z; allowed_statements : list Z; use_review : bool;
  t_think : option (list Z); t_think_provider : option (list Z); t_native_url : option (list Z); t_num_ctx : option (list Z)
}.
Definition t2s_cfg0 : t2s_config :=
  {| t_plugin := None; t_url := None; t_token := None; t_model := None; t_plaintext := false; max_attempts := 0;
     allowed_statements := []; use_review := false; t_think := None; t_think_provider := None; t_native_url := None;
     t_num_ctx := None |}.
Record t2s := {
  t_cfg : t2s_config; t_env_fb : t2s_config; t_env_captured : bool; t_cfg_initialized : bool; t_provider_applied : bool
}.
Definition t2s0 : t2s :=
  {| t_cfg := t2s_cfg0; t_env_fb := t2s_cfg0; t_env_captured := false; t_cfg_initialized := false; t_provider_applied := false |}.

Definition dup_t2s_cfg (dup : nat -> bool) (from : t2s_config) : option t2s_config :=
  pl ← dup_or (dup 0%nat) (t_plugin from);
  u ← dup_or (dup 1%nat) (t_url from);
  tk ← dup_or (dup 2%nat) (t_token from);
  m ← dup_or (dup 3%nat) (t_model from);
  th ← dup_or (dup 4%nat) (t_think from);
  tp ← dup_or (dup 5%nat) (t_think_provider from);
  nu ← dup_or (dup 6%nat) (t_native_url from);
  nc ← dup_or (dup 7%nat) (t_num_ctx from);
  Some {| t_plugin := pl; t_url := u; t_token := tk; t_model := m; t_plaintext := t_plaintext from;
          max_attempts := max_attempts from; allowed_statements := take 23 (allowed_statements from); use_review := use_review from;
          t_think := th; t_think_provider := tp; t_native_url := nu; t_num_ctx := nc |}.

Definition atoi (v : list Z) : Z := s32 (fst (strtol v)).
Definition env_attempts (v : option (list Z)) : Z :=
  match v with
  | Some (c :: r) => let n := atoi (c :: r) in if (1 <=? n) && (n <=? 10) then n else 2
  | _ => 2
  end.
Definition env_allowed (v : option (list Z)) : list Z :=
  match v with
  | Some v => if bytes_eqb v (bs "select_insert_update") then bs "select_insert_update" else bs "select"
  | None => bs "select"
  end.
Definition t2s_snapshot (dup : nat -> bool) (ev : environ) : option t2s_config :=
  pl ← dup_env_into (dup 0%nat) ev (bs "FRACTALSQL_REASONING_PLUGIN");
  u ← dup_env_pref_into (dup 1%nat) ev (bs "FSQL_REASONING_HTTP_URL") (bs "FRACTALSQL_HTTP_URL");
  tk ← dup_env_pref_into (dup 2%nat) ev (bs "FSQL_REASONING_HTTP_TOKEN") (bs "FRACTALSQL_HTTP_TOKEN");
  m ← dup_env_pref_into (dup 3%nat) ev (bs "FSQL_REASONING_HTTP_MODEL") (bs "FRACTALSQL_HTTP_MODEL");
  th ← dup_env_pref_into (dup 4%nat) ev (bs "FSQL_REASONING_HTTP_THINK") (bs "FRACTALSQL_HTTP_THINK");
  tp ← dup_env_pref_into (dup 5%nat) ev (bs "FSQL_REASONING_HTTP_THINK_PROVIDER") (bs "FRACTALSQL_HTTP_THINK_PROVIDER");
  nu ← dup_env_pref_into (dup 6%nat) ev (bs "FSQL_REASONING_HTTP_NATIVE_URL") (bs "FRACTALSQL_HTTP_NATIVE_URL");
  nc ← dup_env_pref_into (dup 7%nat) ev (bs "FSQL_REASONING_HTTP_NUM_CTX") (bs "FRACTALSQL_HTTP_NUM_CTX");
  Some {| t_plugin := pl; t_url := u; t_token := tk; t_model := m;
          t_plaintext := flag_value (or_legacy (ev !! bs "FSQL_REASONING_HTTP_ALLOW_PLAINTEXT") (ev !! bs "FRACTALSQL_HTTP_ALLOW_PLAINTEXT"));
          max_attempts := env_attempts (ev !! bs "FRACTALSQL_TEXT_TO_SQL_MAX_ATTEMPTS");
          allowed_statements := env_allowed (ev !! bs "FRACTALSQL_TEXT_TO_SQL_ALLOWED_STATEMENTS");
          use_review := flag_value (ev !! bs "FRACTALSQL_TEXT_TO_SQL_USE_REVIEW");
          t_think := th; t_think_provider := tp; t_native_url := nu; t_num_ctx := nc |}.
Definition capture_t2s_env_fb (dup : nat -> bool) (ev : environ) (s : t2s) : t2s * bool :=
  if t_env_captured s then (s, true) else
  match t2s_snapshot dup ev with
  | Some c => ({| t_cfg := t_cfg s; t_env_fb := c; t_env_captured := true; t_cfg_initialized := t_cfg_initialized s;
                  t_provider_applied := t_provider_applied s |}, true)
  | None => ({| t_cfg := t_cfg s; t_env_fb := t2s_cfg0; t_env_captured := false; t_cfg_initialized := t_cfg_initialized s;
                t_provider_applied := t_provider_applied s |}, false)
  end.
Definition ensure_t2s_config (dup : nat -> bool) (ev : environ) (s : t2s) : t2s * bool :=
  let '(s, ok) := capture_t2s_env_fb dup ev s in
  if ok && negb (t_provider_applied s) && negb (t_cfg_initialized s) then
    match dup_t2s_cfg (fun k => dup (8 + k)%nat) (t_env_fb s) with
    | Some c => ({| t_cfg := c; t_env_fb := t_env_fb s; t_env_captured := t_env_captured s; t_cfg_initialized := true;
                    t_provider_applied := t_provider_applied s |}, ok)
    | None => ({| t_cfg := t2s_cfg0; t_env_fb := t_env_fb s; t_env_captured := t_env_captured s;
                  t_cfg_initialized := t_cfg_initialized s; t_provider_applied := t_provider_applied s |}, ok)
    end
  else (s, ok).

(** [None] is the return -1. *)
Definition fractalsql_textsql_config_value (name : list Z) (outcap : Z) (s : t2s) : option (list Z) :=
  if outcap <=? 0 then None else
  let c := t_cfg s in
  let v :=
    if bytes_eqb name (bs "t2s_max_attempts") then Some (dec_d (max_attempts c))
    else if bytes_eqb name (bs "t2s_allowed_statements") then Some (allowed_statements c)
    else if bytes_eqb name (bs "t2s_use_review") then Some (if use_review c then bs "1" else bs "0")
    else None in
  match v with None | Some [] => None | Some v => Some (take (Z.to_nat (outcap - 1)) v) end.

Definition fractalsql_textsql_check_provider (c : fsq_config) : bool := true.
Definition t2s_wanted (c : fsq_config) (fb : t2s_config) : t2s_config :=
  {| t_plugin := pick c (prov_bit 0) (bs "reasoning_plugin") (t_plugin fb);
     t_url := pick c (prov_bit 1) (bs "reasoning_url") (t_url fb);
     t_token := pick c (prov_bit 2) (bs "reasoning_token") (t_token fb);
     t_model := pick c (prov_bit 3) (bs "reasoning_model") (t_model fb);
     t_plaintext := flag_of c (prov_bit 4) (bs "reasoning_allow_plaintext") (t_plaintext fb);
     max_attempts := if has_bit (prov_present c) (prov_bit 11) then s32 (default 0 (c_long c !! bs "t2s_max_attempts")) else max_attempts fb;
     allowed_statements := if has_bit (prov_present c) (prov_bit 12) then take 23 (str_of c (bs "t2s_allowed_statements")) else allowed_statements fb;
     use_review := flag_of c (prov_bit 13) (bs "t2s_use_review") (use_review fb);
     t_think := pick c (prov_bit 7) (bs "think") (t_think fb);
     t_think_provider := pick c (prov_bit 8) (bs "think_provider") (t_think_provider fb);
     t_native_url := pick c (prov_bit 9) (bs "think_native_url") (t_native_url fb);
     t_num_ctx := num_ctx_of c (t_num_ctx fb) |}.
Definition fractalsql_textsql_apply_provider (dup : nat -> bool) (ev : environ) (c : fsq_config) (st : t2s * loads) : t2s * loads * bool :=
  let '(s, l) := st in
  let '(s, ok) := capture_t2s_env_fb dup ev s in
  if negb ok then (s, l, false) else
  match dup_t2s_cfg (fun k => dup (8 + k)%nat) (t2s_wanted c (t_env_fb s)) with
  | None => (s, l, false)
  | Some n =>
    ({| t_cfg := n; t_env_fb := t_env_fb s; t_env_captured := t_env_captured s; t_cfg_initialized := true; t_provider_applied := true |},
     forget FSQL_TIER_REVIEW (forget FSQL_TIER_T2S l), true)
  end.

(** ** Publishing *)

Definition generate_settings (c : t2s_config) (system_tag_arg : option (list Z)) : list (list Z * option (list Z)) := [
  (var_url, t_url c); (var_token, t_token c); (var_model, t_model c); (var_plaintext, one_if (t_plaintext c));
  (var_think, t_think c); (var_think_provider, t_think_provider c); (var_native_url, t_native_url c); (var_num_ctx, t_num_ctx c);
  (var_mode, None); (var_response_mode, Some (bs "code"));
  (system_tag, match system_tag_arg with Some (x :: r) => Some (x :: r) | _ => None end) ].
Definition apply_generate_env_locked (c : t2s_config) (system_tag_arg : option (list Z)) : environ -> environ := set_all (generate_settings c system_tag_arg).
Definition review_settings (c : t2s_config) : list (list Z * option (list Z)) := [
  (var_url, t_url c); (var_token, t_token c); (var_model, t_model c); (var_plaintext, one_if (t_plaintext c));
  (var_think, t_think c); (var_think_provider, t_think_provider c); (var_native_url, t_native_url c); (var_num_ctx, t_num_ctx c);
  (var_mode, None); (var_response_mode, None); (system_tag, None) ].
Definition apply_review_env_locked (c : t2s_config) : environ -> environ := set_all (review_settings c).

(** ** fractal_t2s_config *)

Definition str_out_set (malloc : Z -> bool) (cap : Z) (text : list Z) : option (list Z) * Z :=
  let '(ok, cap) := str_out_ensure malloc cap (len text + 1) in
  if negb ok then (None, cap) else (Some text, cap).
Definition out_or_error (r : option (list Z) * Z) : udf (list Z) * Z :=
  match fst r with Some t => (UVal t, snd r) | None => (UError, snd r) end.
(** The session's own attempt count and review switch, over the tier's. *)
Definition session_attempts (sid : Z) (d : Z) (o : overlay) : overlay * Z :=
  let '(o, v) := fractal_config_lookup_long sid (bs "t2s_max_attempts") o in
  (o, match v with Some v => if 1 <=? v then s32 v else d | None => d end).
Definition session_review (sid : Z) (d : bool) (o : overlay) : overlay * bool :=
  let '(o, v) := fractal_config_lookup_str sid (bs "t2s_use_review") (Some 256) o in
  (o, match v with
      | Some v => bytes_eqb v (bs "1") || bytes_eqb v (bs "true") || bytes_eqb v (bs "on") || bytes_eqb v (bs "yes")
      | None => d
      end).
Definition config_text (attempts : Z) (allowed : list Z) (review : bool) : list Z :=
  js "{'max_attempts':" ++ dec_d attempts ++ js ",'allowed_statements':'" ++ allowed ++ js "','use_review':" ++ bool_text review ++ js "}".
Definition fractal_t2s_config (malloc : Z -> bool) (dup : nat -> bool) (ev : environ) (session_id : option Z) (cap : Z) (st : t2s * overlay)
  : udf (list Z) * Z * (t2s * overlay) :=
  let '(s, o) := st in
  let '(s, ok) := ensure_t2s_config dup ev s in
  if negb ok then (UError, cap, (s, o)) else
  let allowed := take 63 (allowed_statements (t_cfg s)) in
  let '(o, attempts, review) :=
    match session_id with
    | None => (o, max_attempts (t_cfg s), use_review (t_cfg s))
    | Some sid => let '(o, a) := session_attempts (u64 sid) (max_attempts (t_cfg s)) o in
                  let '(o, r) := session_review (u64 sid) (use_review (t_cfg s)) o in (o, a, r)
    end in
  let t := config_text attempts allowed review in
  if 256 <=? len t then (UError, cap, (s, o))
  else (out_or_error (str_out_set malloc cap t), (s, o)).
(** The allowlist gate in the mode the tier holds. *)
Definition check_allowlist (malloc : Z -> bool) (dup : nat -> bool) (ev : environ) (sql : option (list Z)) (cap : Z) (s : t2s)
  : udf (list Z) * t2s :=
  match sql with
  | None => (UNull, s)
  | Some q =>
    if FRACTAL_T2S_MAX_SQL_BYTES <? len q then (UError, s) else
    let '(s, ok) := ensure_t2s_config dup ev s in
    let mode := take 23 (allowed_statements (t_cfg s)) in
    let out_ok := match allowlist_verdict (negb (bytes_eqb mode (bs "select_insert_update"))) q with
                  | Some r => fst (str_out_ensure malloc cap (len (take 1023 (reject_text r)) + 1))
                  | None => true
                  end in
    (fractal_t2s_check_allowlist ok out_ok mode sql, s)
  end.
