(* ===== verification/Bridge.v ===== *)
(** * The reasoning tiers (src/fractalsql_cognition.c, src/fractalsql_textsql.c)

    The four tiers that call the reasoning plugin: reason, embed, generate and
    review.  A tier publishes its settings and the session's overrides into the
    process environment, loads its plugin instance again when that environment
    is not the one it was loaded with, and dispatches.  Each definition below
    runs under one hold of the locks its code takes; the bodies put them in
    the code's order.  The core library and the signature primitive are
    parameters; an instance is known by what it was loaded with. *)

From stdpp Require Import gmap.
From S2P Require Import Prelude LedgerFmt AuditJson Float Config DaemonConf Session Daemon JsonOut Parse Vector TextSql Search Enterprise Cognition T2s.

Definition FSQL_EPLUGIN_REFUSED : Z := -9001.
(** What a plugin instance read when it was loaded. *)
Record inst := { i_path : list Z; i_env : environ }.
(** [fsql_ai_response_t] with the return code of the dispatch. *)
Record ai_response := { ai_rc : Z; ai_resp_rc : Z; summary : option (list Z); null_len : Z }.
Definition summary_len (r : ai_response) : Z := match summary r with Some s => len s | None => null_len r end.

(** What the system answers during one call; the number counts loads. *)
Record rio := { r_sio : sio; r_dup : nat -> bool; r_os : nat -> os; r_error : list Z }.

Record bridge := {
  b_cog : cog; b_t2s : t2s; b_loads : loads; b_overlay : overlay; b_env : environ; b_reg : registry;
  b_inst : fsql_tier -> option inst
}.
Definition set_cog (s : cog) (b : bridge) : bridge :=
  {| b_cog := s; b_t2s := b_t2s b; b_loads := b_loads b; b_overlay := b_overlay b; b_env := b_env b; b_reg := b_reg b; b_inst := b_inst b |}.
Definition set_t2s (s : t2s) (b : bridge) : bridge :=
  {| b_cog := b_cog b; b_t2s := s; b_loads := b_loads b; b_overlay := b_overlay b; b_env := b_env b; b_reg := b_reg b; b_inst := b_inst b |}.
Definition set_loads (l : loads) (b : bridge) : bridge :=
  {| b_cog := b_cog b; b_t2s := b_t2s b; b_loads := l; b_overlay := b_overlay b; b_env := b_env b; b_reg := b_reg b; b_inst := b_inst b |}.
Definition set_env (o : overlay) (ev : environ) (b : bridge) : bridge :=
  {| b_cog := b_cog b; b_t2s := b_t2s b; b_loads := b_loads b; b_overlay := o; b_env := ev; b_reg := b_reg b; b_inst := b_inst b |}.
Definition set_inst (t : fsql_tier) (i : option inst) (b : bridge) : bridge :=
  {| b_cog := b_cog b; b_t2s := b_t2s b; b_loads := b_loads b; b_overlay := b_overlay b; b_env := b_env b; b_reg := b_reg b;
     b_inst := upd_tier t i (b_inst b) |}.
Definition set_fp (t : fsql_tier) (f : Z) (b : bridge) : bridge :=
  set_loads {| l_tiers := l_tiers (b_loads b); l_fp := upd_tier t (Some f) (l_fp (b_loads b)) |} b.
Definition set_tiers (s : tiers) (b : bridge) : bridge := set_loads {| l_tiers := s; l_fp := l_fp (b_loads b) |} b.

(** The refusals of [fractal_plugin_verify], as it prints them. *)
Definition refusal_text (path : list Z) (p : plugin_refusal) : list Z :=
  match p with
  | P_no_path => bs "no reasoning plugin path configured"
  | P_invalid => js "reasoning plugin '" ++ path ++ js "' failed signature verification -- refusing to load (the plugin or its .sig is corrupt or not from FractalSQLabs)"
  | P_missing => js "no signature found for reasoning plugin '" ++ path ++ js "' (expected '" ++ path ++
      js ".sig'); place the .sig beside the plugin, or set FSQL_REASONING_REQUIRE_SIGNATURE=0 to load an unsigned plugin"
  | P_ioerror => js "could not read reasoning plugin '" ++ path ++ js "' for signature verification -- refusing to load"
  end.

(** ** The [_init] functions: the argument types asked for *)

Definition str_out_generic_init (calloc_ok : bool) (types : list Item_result) : option (list Item_result) := if calloc_ok then Some types else None.
Definition fractal_reason_init (argc : nat) (calloc_ok : bool) : option (list Item_result) :=
  if negb (argc =? 2)%nat && negb (argc =? 3)%nat then None
  else str_out_generic_init calloc_ok ([INT_RESULT; STRING_RESULT] ++ if (argc =? 3)%nat then [STRING_RESULT] else []).
Definition fractal_embed_init (argc : nat) (calloc_ok : bool) : option (list Item_result) :=
  if negb (argc =? 2)%nat then None else str_out_generic_init calloc_ok [INT_RESULT; STRING_RESULT].
Definition fractal_t2s_generate_init (argc : nat) (calloc_ok : bool) : option (list Item_result) :=
  if negb (argc =? 4)%nat then None else str_out_generic_init calloc_ok [INT_RESULT; STRING_RESULT; STRING_RESULT; STRING_RESULT].
Definition fractal_t2s_review_init (argc : nat) (calloc_ok : bool) : option (list Item_result) :=
  if negb (argc =? 3)%nat then None else str_out_generic_init calloc_ok [INT_RESULT; STRING_RESULT; STRING_RESULT].
Definition fractal_t2s_config_init (argc : nat) (calloc_ok : bool) : option (list Item_result) :=
  if negb (argc =? 0)%nat && negb (argc =? 1)%nat then None
  else str_out_generic_init calloc_ok (if (argc =? 1)%nat then [INT_RESULT] else []).
Definition fractal_t2s_check_allowlist_init (argc : nat) (calloc_ok : bool) : option (list Item_result) :=
  if negb (argc =? 1)%nat then None else str_out_generic_init calloc_ok [STRING_RESULT].

Section Tiers.
Context (EVP_DigestVerify : list Z -> list Z -> list Z -> bool).
(** [fsql_load_reasoning]: the code, and what the context holds afterwards. *)
Context (fsql_load_reasoning : option (list Z) -> environ -> option inst -> Z * option inst).
Context (fsql_dispatch_ai : option inst -> list Z -> list Z -> ai_response).

(** ** Loading *)

(** The code, [g_plugin_verr], and the instance afterwards. *)
Definition checked_load_reasoning (x : rio) (k : nat) (path : option (list Z)) (ev : environ) (i : option inst) : Z * list Z * option inst :=
  match fractal_plugin_verify (fun n => ev !! n) EVP_DigestVerify (r_os x k) path with
  | Some p => (FSQL_EPLUGIN_REFUSED, take 511 (refusal_text (default [] path) p), i)
  | None => let '(rc, i) := fsql_load_reasoning path ev i in (rc, [], i)
  end.
Definition failure_detail (x : rio) (verr : list Z) : list Z :=
  let err := match verr with [] => r_error x | _ => verr end in
  sfs_detail_bounded (match err with [] => bs "(no detail)" | _ => err end) DETAIL_CAP.
(** Loads the instance again unless the environment is the one it was loaded
    with; [Some] is the failure, with its code and detail. *)
Definition reload (t : fsql_tier) (path : option (list Z)) (x : rio) (k : nat) (b : bridge) : bridge * option (Z * list Z) :=
  let fp := fractal_config_env_fingerprint (b_env b) in
  if bool_decide (l_fp (b_loads b) t = Some fp) then (b, None) else
  let '(rc, verr, i) := checked_load_reasoning x k path (b_env b) (b_inst b t) in
  let b := set_inst t i b in
  if negb (rc =? FSQL_OK) then (b, Some (rc, failure_detail x verr))
  else (set_fp t (fractal_config_env_fingerprint (b_env b)) b, None).
Definition with_overrides (sid mask : Z) (ev : environ) (b : bridge) : bridge :=
  let '(o, ev) := fractal_config_apply_env_overrides sid mask (b_overlay b, ev) in set_env o ev b.

Definition load_failed (what : list Z) (f : Z * list Z) : list Z :=
  take 511 (what ++ bs ": failed to load reasoning plugin (rc=" ++ dec_d (fst f) ++ bs "): " ++ snd f).

Definition publish_reason (sid : Z) (b : bridge) : bridge :=
  with_overrides sid FSQL_CFG_TIER_REASON (apply_reason_env_locked (g_cfg (b_cog b)) (b_env b)) b.
Definition reason_env_and_reload (x : rio) (k : nat) (sid : Z) (b : bridge) : bridge * option (list Z) :=
  let b := publish_reason sid b in
  let '(b, r) := reload FSQL_TIER_REASON (reasoning_plugin (g_cfg (b_cog b))) x k b in
  (b, load_failed (bs "fractal_reason") <$> r).

Definition publish_generate (tag : option (list Z)) (sid : Z) (b : bridge) : bridge :=
  with_overrides sid FSQL_CFG_TIER_T2S (apply_generate_env_locked (t_cfg (b_t2s b)) tag (b_env b)) b.
Definition generate_env_and_reload (x : rio) (k : nat) (tag : option (list Z)) (sid : Z) (b : bridge) : bridge * bool :=
  let b := publish_generate tag sid b in
  let '(b, r) := reload FSQL_TIER_T2S (t_plugin (t_cfg (b_t2s b))) x k b in
  (b, match r with None => true | Some _ => false end).
Definition publish_review (sid : Z) (b : bridge) : bridge :=
  with_overrides sid FSQL_CFG_TIER_T2S (apply_review_env_locked (t_cfg (b_t2s b)) (b_env b)) b.
Definition review_env_and_reload (x : rio) (k : nat) (sid : Z) (b : bridge) : bridge * bool :=
  let b := publish_review sid b in
  let '(b, r) := reload FSQL_TIER_REVIEW (t_plugin (t_cfg (b_t2s b))) x k b in
  (b, match r with None => true | Some _ => false end).

(** The embed tier's bracket: what was saved, and whether it was opened;
    [None] when [setenv] is handed the URL that is not there. *)
Definition embed_env_open (x : rio) (k : nat) (sid : Z) (b : bridge) : option (bridge * list saved_slot * bool) :=
  let '(saved, ok) := embed_env_save (fun i => r_dup x (100 + 20 * k + i)%nat) (b_env b) in
  if negb ok then Some (b, saved, false) else
  ev ← apply_embed_env_locked (g_cfg (b_cog b)) (b_env b);
  let b := with_overrides sid FSQL_CFG_TIER_EMBED ev b in
  let '(b, r) := reload FSQL_TIER_EMBED (reasoning_plugin (g_cfg (b_cog b))) x k b in
  Some (b, saved, match r with None => true | Some _ => false end).
Definition close_bracket (saved : list saved_slot) (b : bridge) : bridge := set_env (b_overlay b) (embed_env_close saved (b_env b)) b.

(** ** The tiers' contexts *)

Definition acquire (t : fsql_tier) (x : rio) (b : bridge) : bridge * option bool :=
  let '(s, r) := tier_acquire (new_sovereign (s_env (r_sio x))) t (l_tiers (b_loads b)) in (set_tiers s b, snd <$> r).
Definition mark_loaded (t : fsql_tier) (b : bridge) : bridge := set_tiers (tier_mark_loaded t (l_tiers (b_loads b))) b.
Definition ensure_cog (x : rio) (b : bridge) : bridge * bool :=
  let '(s, ok) := ensure_env_config (r_dup x) (b_env b) (b_cog b) in (set_cog s b, ok).
Definition ensure_t2s (x : rio) (b : bridge) : bridge * bool :=
  let '(s, ok) := ensure_t2s_config (r_dup x) (b_env b) (b_t2s b) in (set_t2s s b, ok).
Definition is_none (v : option (list Z)) : bool := match v with None => true | Some _ => false end.

(** The failure, when it is one of the endpoint's. *)
Definition ensure_reason_loaded (x : rio) (sid : Z) (already_loaded : bool) (b : bridge) : bridge * (bool * option (list Z)) :=
  if already_loaded then (b, (true, None)) else
  let '(b, ok) := ensure_cog x b in
  if negb ok then (b, (false, None))
  else if is_none (reasoning_plugin (g_cfg (b_cog b))) then (b, (false, None))
  else match reason_env_and_reload x 0%nat sid b with
       | (b, Some e) => (b, (false, Some e))
       | (b, None) => (mark_loaded FSQL_TIER_REASON b, (true, None))
       end.
Definition ensure_embed_loaded (x : rio) (sid : Z) (already_loaded : bool) (b : bridge) : option (bridge * bool) :=
  if already_loaded then Some (b, true) else
  let '(b, ok) := ensure_cog x b in
  if negb ok then Some (b, false)
  else if is_none (reasoning_plugin (g_cfg (b_cog b))) then Some (b, false)
  else if is_none (http_embed_url (g_cfg (b_cog b))) then Some (b, false)
  else
    '(b, saved, ok) ← embed_env_open x 0%nat sid b;
    let b := close_bracket saved b in
    Some (if negb ok then (b, false) else (mark_loaded FSQL_TIER_EMBED b, true)).
Definition ensure_generate_loaded (x : rio) (sid : Z) (already_loaded : bool) (tag : option (list Z)) (b : bridge) : bridge * bool :=
  if already_loaded then (b, true) else
  let '(b, ok) := ensure_t2s x b in
  if negb ok then (b, false)
  else if is_none (t_plugin (t_cfg (b_t2s b))) then (b, false)
  else let '(b, ok) := generate_env_and_reload x 0%nat tag sid b in
       if negb ok then (b, false) else (mark_loaded FSQL_TIER_T2S b, true).
Definition ensure_review_loaded (x : rio) (sid : Z) (already_loaded : bool) (b : bridge) : bridge * bool :=
  if already_loaded then (b, true) else
  let '(b, ok) := ensure_t2s x b in
  if negb ok then (b, false)
  else if is_none (t_plugin (t_cfg (b_t2s b))) then (b, false)
  else let '(b, ok) := review_env_and_reload x 0%nat sid b in
       if negb ok then (b, false) else (mark_loaded FSQL_TIER_REVIEW b, true).

(** ** The responses *)

(** The summary, or the error the caller is told. *)
Definition judge (x : rio) (what : list Z) (r : ai_response) : list Z + list Z :=
  if negb (ai_rc r =? FSQL_OK) || negb (ai_resp_rc r =? 0) then
    inl (take 511 (what ++ bs ": dispatch failed (rc=" ++ dec_d (ai_rc r) ++ bs ", resp.rc=" ++ dec_d (ai_resp_rc r) ++ bs "): " ++ failure_detail x []))
  else if FRACTAL_MAX_AI_RESPONSE_BYTES <? summary_len r then
    inl (take 511 (what ++ bs ": response of " ++ dec_u (summary_len r) ++ bs " bytes exceeds the 16777216-byte cap"))
  else match summary r with
  | None => inl (take 511 (what ++ bs ": reasoning plugin returned a NULL summary on a success status -- likely a plugin bug"))
  | Some s => inr s
  end.

(** ** The functions *)

Definition agent_partial_or_error (x : rio) (sid : Z) (cap : Z) (errbuf : list Z) (b : bridge) : udf (list Z) * Z :=
  if fractal_session_get_agent_partial (b_reg b) sid then out_or_error (agent_partial_sentinel (s_malloc (r_sio x)) cap errbuf)
  else (UError, cap).

Definition fractal_reason (x : rio) (session_id : option Z) (query context : option (list Z)) (cap : Z) (b : bridge) : udf (list Z) * Z * bridge :=
  match session_id, query with
  | Some sid, Some query =>
    if FRACTAL_COGNITION_MAX_INPUT_BYTES <? len query then (UError, cap, b)
    else if match context with Some c => FRACTAL_COGNITION_MAX_INPUT_BYTES <? len c | None => false end then (UError, cap, b)
    else
      let sid := u64 sid in
      match acquire FSQL_TIER_REASON x b with
      | (b, None) => (UError, cap, b)
      | (b, Some loaded) =>
        match ensure_reason_loaded x sid loaded b with
        | (b, (false, None)) => (UError, cap, b)
        | (b, (false, Some e)) => (agent_partial_or_error x sid cap e b, b)
        | (b, (true, _)) =>
          match reason_env_and_reload x 1%nat sid b with
          | (b, Some e) => (agent_partial_or_error x sid cap e b, b)
          | (b, None) =>
            match judge x (bs "fractal_reason") (fsql_dispatch_ai (b_inst b FSQL_TIER_REASON) query (default (bs "{}") context)) with
            | inl e => (agent_partial_or_error x sid cap e b, b)
            | inr s => (out_or_error (str_out_set (s_malloc (r_sio x)) cap s), b)
            end
          end
        end
      end
  | _, _ => (UNull, cap, b)
  end.

(** What an embedding becomes: the numbers of the response, as floats. *)
Definition embed_text (x : rio) (cap : Z) (s : list Z) : udf (list Z) * Z :=
  match parse_vector_csv (s_underflow (r_sio x)) (s_malloc (r_sio x)) (s_hook (r_sio x)) s 0%nat with
  | (inl _, _) => (UError, cap)
  | (inr dv, _) =>
    if (length dv =? 0)%nat || (FRACTAL_MAX_EMBED_DIM <? length dv)%nat then (UError, cap)
    else if negb (s_malloc (r_sio x) (Z.of_nat (length dv) * 4)) then (UError, cap)
    else out_or_error (Cognition.format_vector_json (s_malloc (r_sio x)) cap (map to_float dv))
  end.
(** The dispatch in its bracket, under one hold of the dispatch lock. *)
Definition embed_dispatch (x : rio) (sid : Z) (input : list Z) (b : bridge) : option (bridge * option ai_response) :=
  '(b, saved, ok) ← embed_env_open x 1%nat sid b;
  if negb ok then Some (close_bracket saved b, None)
  else let r := fsql_dispatch_ai (b_inst b FSQL_TIER_EMBED) input (bs "{}") in Some (close_bracket saved b, Some r).
Definition fractal_embed (x : rio) (session_id : option Z) (input : option (list Z)) (cap : Z) (b : bridge) : option (udf (list Z) * Z * bridge) :=
  match session_id, input with
  | Some sid, Some input =>
    if FRACTAL_COGNITION_MAX_INPUT_BYTES <? len input then Some (UError, cap, b) else
    let sid := u64 sid in
    match acquire FSQL_TIER_EMBED x b with
    | (b, None) => Some (UError, cap, b)
    | (b, Some loaded) =>
      '(b, ok) ← ensure_embed_loaded x sid loaded b;
      if negb ok then Some (UError, cap, b) else
      '(b, r) ← embed_dispatch x sid input b;
      match r with
      | None => Some (UError, cap, b)
      | Some r => match judge x (bs "fractal_embed") r with
                  | inl _ => Some (UError, cap, b)
                  | inr s => Some (embed_text x cap s, b)
                  end
      end
    end
  | _, _ => Some (UNull, cap, b)
  end.

(** The tag as a C string of at most 63 bytes; [inl]: too long. *)
Definition tag_of (tag : option (list Z)) : unit + option (list Z) :=
  match tag with
  | Some (c :: r) => if 64 <=? len (c :: r) then inl tt else inr (Some (cstr (c :: r)))
  | _ => inr None
  end.
Definition fractal_t2s_generate (x : rio) (session_id : option Z) (prompt context tag : option (list Z)) (cap : Z) (b : bridge)
  : udf (list Z) * Z * bridge :=
  match session_id, prompt with
  | Some sid, Some prompt =>
    if FRACTAL_T2S_MAX_INPUT_BYTES <? len prompt then (UError, cap, b)
    else if match context with Some c => FRACTAL_T2S_MAX_INPUT_BYTES <? len c | None => false end then (UError, cap, b)
    else match tag_of tag with
    | inl _ => (UError, cap, b)
    | inr tag =>
      let sid := u64 sid in
      match acquire FSQL_TIER_T2S x b with
      | (b, None) => (UError, cap, b)
      | (b, Some loaded) =>
        let '(b, ok) := ensure_generate_loaded x sid loaded tag b in
        if negb ok then (UError, cap, b) else
        let '(b, ok) := generate_env_and_reload x 1%nat tag sid b in
        if negb ok then (UError, cap, b) else
        match judge x (bs "fractal_t2s_generate") (fsql_dispatch_ai (b_inst b FSQL_TIER_T2S) prompt (default (bs "{}") context)) with
        | inl _ => (UError, cap, b)
        | inr s => (out_or_error (str_out_set (s_malloc (r_sio x)) cap s), b)
        end
      end
    end
  | _, _ => (UNull, cap, b)
  end.

Definition review_lead : list Z := bs "Original request: ".
Definition review_mid : list Z := [10; 10] ++ bs "Candidate SQL:" ++ [10].
Definition review_tail : list Z :=
  [10; 10] ++ bs "Does this candidate correctly and completely answer the request? Answer PASS or FAIL on the first line, then explain briefly.".
Definition t2s_review_build_prompt (malloc : Z -> bool) (question sql : list Z) : option (list Z) :=
  if malloc (u64 (len review_lead + len question + len review_mid + len sql + len review_tail + 1))
  then Some (review_lead ++ question ++ review_mid ++ sql ++ review_tail) else None.
(** The verdict: the first four letters behind the blanks. *)
Definition review_passed (s : list Z) : bool :=
  match strip_space s with
  | a :: b :: c :: d :: _ => (tolower a =? 112) && (tolower b =? 97) && (tolower c =? 115) && (tolower d =? 115)
  | _ => false
  end.
Definition fractal_t2s_review (x : rio) (session_id : option Z) (question sql : option (list Z)) (cap : Z) (b : bridge)
  : udf (list Z) * Z * bridge :=
  match session_id, question, sql with
  | Some sid, Some question, Some sql =>
    if (FRACTAL_T2S_MAX_INPUT_BYTES <? len question) || (FRACTAL_T2S_MAX_SQL_BYTES <? len sql) then (UError, cap, b) else
    let sid := u64 sid in
    match acquire FSQL_TIER_REVIEW x b with
    | (b, None) => (UError, cap, b)
    | (b, Some loaded) =>
      let '(b, ok) := ensure_review_loaded x sid loaded b in
      if negb ok then (UError, cap, b) else
      match t2s_review_build_prompt (s_malloc (r_sio x)) question sql with
      | None => (UError, cap, b)
      | Some prompt =>
        let '(b, ok) := review_env_and_reload x 1%nat sid b in
        if negb ok then (UError, cap, b) else
        match judge x (bs "fractal_t2s_review") (fsql_dispatch_ai (b_inst b FSQL_TIER_REVIEW) prompt (bs "{}")) with
        | inl _ => (UError, cap, b)
        | inr s => if review_passed s then (UNull, cap, b) else (out_or_error (str_out_set (s_malloc (r_sio x)) cap s), b)
        end
      end
    end
  | _, _, _ => (UNull, cap, b)
  end.

(** ** The reload *)

Definition apply_cognition (dup : nat -> bool) (c : fsq_config) (b : bridge) : bridge * bool :=
  let '(s, l, ok) := fractalsql_cognition_apply_provider dup (b_env b) c (b_cog b, b_loads b) in (set_loads l (set_cog s b), ok).
Definition apply_textsql (dup : nat -> bool) (c : fsq_config) (b : bridge) : bridge * bool :=
  let '(s, l, ok) := fractalsql_textsql_apply_provider dup (b_env b) c (b_t2s b, b_loads b) in (set_loads l (set_t2s s b), ok).
End Tiers.
