(* ===== verification/BridgeProofs.v ===== *)
(** * The reasoning tiers: proofs

    What the environment holds after a publish, the bracket that puts the
    operator's values back, and the invariant that ties every tier's loaded
    instance to the configuration it is used for. *)

From stdpp Require Import gmap.
From S2P Require Import Prelude LedgerFmt AuditJson JsonText Float Config DaemonConf Session Daemon JsonOut Parse Vector TextSql Search Enterprise Cognition T2s Bridge AnalyticsProofs.

#[local] Arguments fractal_config_env_fingerprint : simpl never.
#[local] Arguments fractal_config_apply_env_overrides : simpl never.
#[local] Arguments set_all : simpl never.
(** Equal pairs, without evaluating what they hold. *)
Ltac pair_inv H := apply pair_equal_spec in H; let H1 := fresh in let H2 := fresh in destruct H as [H1 H2]; subst.

(** ** Environments *)

Lemma setenv_same (n : list Z) (v : option (list Z)) (ev : environ) : setenv n v ev !! n = v.
Proof. destruct v; cbn; [apply lookup_insert_eq|apply lookup_delete_eq]. Qed.
Lemma setenv_other (n m : list Z) (v : option (list Z)) (ev : environ) : n <> m -> setenv n v ev !! m = ev !! m.
Proof. intros H. destruct v; cbn; [by apply lookup_insert_ne|by apply lookup_delete_ne]. Qed.
Lemma set_all_other l : forall ev m, m ∉ l.*1 -> set_all l ev !! m = ev !! m.
Proof.
  induction l as [|[n v] l IH]; intros ev m H; [done|]. apply not_elem_of_cons in H as [H1 H2]. cbn.
  change (set_all l (setenv n v ev) !! m = ev !! m). rewrite IH by done. by apply setenv_other.
Qed.
Lemma set_all_in l : forall ev n v, NoDup l.*1 -> (n, v) ∈ l -> set_all l ev !! n = v.
Proof.
  induction l as [|[m w] l IH]; intros ev n v Hd Hi; [by apply not_elem_of_nil in Hi|]. apply NoDup_cons in Hd as [Hm Hd].
  apply elem_of_cons in Hi as [[= <- <-]|Hi]; [|by apply (IH (setenv m w ev))]. change (set_all l (setenv n v ev) !! n = v). rewrite set_all_other by done. apply setenv_same.
Qed.
(** Two environments that differ at most at the given variables. *)
Definition except (names : list (list Z)) (e e' : environ) : Prop := forall n, n ∉ names -> e' !! n = e !! n.
Lemma except_refl names e : except names e e.
Proof. done. Qed.
Lemma except_trans names e1 e2 e3 : except names e1 e2 -> except names e2 e3 -> except names e1 e3.
Proof. intros H1 H2 n Hn. by rewrite H2, H1. Qed.

(** *** The overrides *)

Definition names_in (l r : list (list Z)) : bool := forallb (fun n => bool_decide (n ∈ r)) l.
Lemma names_in_sub l r n : names_in l r = true -> n ∈ l -> n ∈ r.
Proof. unfold names_in. rewrite forallb_forall. intros H Hn%list_elem_of_In. specialize (H n Hn). by apply bool_decide_eq_true in H. Qed.
Lemma key_vars_bridge : forallb (fun k => match env_var k with Some v => bool_decide (v ∈ fsq_cfg_bridge_vars) | None => true end) g_keys = true.
Proof. by vm_compute. Qed.
Lemma overrides_bridge sid mask o ev : overlay_wf o ->
  except fsq_cfg_bridge_vars ev (snd (fractal_config_apply_env_overrides sid mask (o, ev))).
Proof.
  intros Hw n Hn. rewrite apply_env_spec by done. apply env_fold_other. intros i k Hin E. exfalso. apply Hn.
  apply list_elem_of_In, elem_of_zip_r, list_elem_of_In in Hin.
  pose proof key_vars_bridge as H. rewrite forallb_forall in H. specialize (H k Hin). rewrite E in H.
  by apply bool_decide_eq_true in H.
Qed.
Lemma overrides_wf sid mask o ev : overlay_wf o ->
  let o' := fst (fractal_config_apply_env_overrides sid mask (o, ev)) in
  overlay_wf o' /\ forall sid' k, overlay_get o' sid' k = overlay_get o sid' k.
Proof. intros Hw. by destruct (apply_fold_spec sid mask g_keys o ev 0 Hw) as (H1 & H2 & _). Qed.

(** A key of the tier publishes the session's override when it has one. *)
Definition tuned (o : overlay) (sid : Z) (id : nat) (base : option (list Z)) : option (list Z) :=
  match overlay_get o sid id with Some v => Some (env_text v) | None => base end.
Lemma env_fold_none s sid tiers var l : forall e,
  (forall i k, In (i, k) l -> env_var k = Some var -> Z.land (env_tiers k) tiers = 0 \/ overlay_get s sid i = None) ->
  fold_left (env_effect s sid tiers) l e !! var = e !! var.
Proof.
  induction l as [|[i k] l IH]; intros e Hl; [done|]. cbn [fold_left]. rewrite IH by (intros; eapply Hl; [by right|done]).
  unfold env_effect. destruct (env_var k) as [w|] eqn:E; [|done].
  destruct (overlay_get s sid i) as [v|] eqn:Eo; [|done]. destruct (decide (w = var)) as [->|Hne].
  - destruct (Hl i k) as [H|H]; [by left|done| |congruence]. rewrite H. cbn. by rewrite orb_true_r.
  - destruct (negb _ || _); [done|]. destruct (k_type k); try (by rewrite lookup_insert_ne).
    destruct (parse_bool _) as [[]|]; by rewrite ?lookup_insert_ne, ?lookup_delete_ne.
Qed.
(** The only key that publishes a variable for a tier. *)
Definition sole_key (mask : Z) (id : nat) (var : list Z) : bool :=
  forallb (fun ik => (fst ik =? id)%nat || negb (var_eqb (snd ik) var) || (Z.land (env_tiers (snd ik)) mask =? 0)) key_list &&
  match g_keys !! id with Some k => var_eqb k var && negb (Z.land (env_tiers k) mask =? 0) | None => false end.
Lemma tuned_var o sid mask ev id var : overlay_wf o -> In mask [FSQL_CFG_TIER_REASON; FSQL_CFG_TIER_EMBED; FSQL_CFG_TIER_T2S] ->
  sole_key mask id var = true ->
  snd (fractal_config_apply_env_overrides sid mask (o, ev)) !! var = tuned o sid id (ev !! var).
Proof.
  intros Hw Hm [Hs Hk]%andb_true_iff. destruct (g_keys !! id) as [k|] eqn:Ek; [|done]. apply andb_true_iff in Hk as [Hv Hl].
  unfold var_eqb in Hv. destruct (env_var k) as [w|] eqn:Ev; [|done]. apply bytes_eqb_true in Hv as ->. unfold tuned.
  destruct (overlay_get o sid id) as [v|] eqn:Eo.
  - apply (proj2 (overrides_tune_only o sid mask ev var Hw) id k v); [done..|lia|done].
  - rewrite apply_env_spec by done. fold key_list. apply env_fold_none. intros i k' Hin E. rewrite forallb_forall in Hs.
    specialize (Hs _ Hin). cbn [fst snd] in Hs. unfold var_eqb in Hs. rewrite E in Hs.
    rewrite (proj2 (bytes_eqb_true var var) eq_refl) in Hs. cbn [negb] in Hs. rewrite orb_false_r in Hs.
    apply orb_true_iff in Hs as [Hs|Hs]; [right|left; lia]. apply Nat.eqb_eq in Hs. by subst i.
Qed.

(** ** The bracket *)

Lemma names_set_all l ev : names_in l.*1 fsq_cfg_bridge_vars = true -> except fsq_cfg_bridge_vars ev (set_all l ev).
Proof. intros H n Hn. apply set_all_other. intros Hi. by apply Hn, (names_in_sub l.*1). Qed.
Lemma embed_publish_bridge c ev ev' : apply_embed_env_locked c ev = Some ev' -> except fsq_cfg_bridge_vars ev ev'.
Proof. unfold apply_embed_env_locked. destruct (http_embed_url c) as [u|]; [|done]. intros H. apply (inj Some) in H as <-. by apply names_set_all. Qed.

Lemma save_slots dup ev names : forall i saved ok, save_from dup i ev names = (saved, ok) ->
  length saved = length names /\
  (forall j n s, names !! j = Some n -> saved !! j = Some s -> s = EMBED_ENV_OOM \/ (match s with S_value v => Some v | _ => None end) = ev !! n) /\
  (ok = true -> EMBED_ENV_OOM ∉ saved).
Proof.
  induction names as [|n names IH]; intros i saved ok H; cbn [save_from] in H.
  - injection H as <- <-. split_and!; [done|done|]. intros _. apply not_elem_of_nil.
  - destruct (save_from dup (S i) ev names) as [r ok'] eqn:Er. destruct (IH _ _ _ Er) as (H1 & H2 & H3). injection H as <- <-. split_and!.
    + cbn. by rewrite H1.
    + intros [|j] m s Hm Hs; [|by apply (H2 j)]. cbn in Hm, Hs. injection Hm as <-. injection Hs as <-.
      unfold save_slot. destruct (ev !! n); [|by right]. destruct (dup i); [by right|by left].
    + intros Hok. apply not_elem_of_cons. destruct (save_slot (dup i) (ev !! n)); [..|done]; by split; [|apply H3].
Qed.
(** Restoring in an environment that differs from the saved one at most where
    a value was saved. *)
Lemma restore_all ev names : forall saved e, length saved = length names ->
  (forall j n s, names !! j = Some n -> saved !! j = Some s -> s = EMBED_ENV_OOM \/ (match s with S_value v => Some v | _ => None end) = ev !! n) ->
  (EMBED_ENV_OOM ∉ saved /\ except names ev e) \/ e = ev ->
  fold_left restore_one (zip names saved) e = ev.
Proof.
  induction names as [|n names IH]; intros [|s saved] e Hl Hs He; try done.
  - destruct He as [[_ He]|He]; [|done]. apply map_eq. intros m. apply He, not_elem_of_nil.
  - cbn [zip zip_with fold_left]. apply IH; [by injection Hl|intros j; by apply (Hs (S j))|].
    destruct (Hs 0%nat n s eq_refl eq_refl) as [->|Hv].
    + destruct He as [[Hn _]|He]; [|by right]. by apply not_elem_of_cons in Hn as [Hn _].
    + destruct He as [[[Hn Ho]%not_elem_of_cons He]|He].
      * left. split; [done|]. intros m Hm. destruct (decide (m = n)) as [->|Hne].
        -- unfold restore_one. cbn [fst snd]. destruct s; [|rewrite <- Hv; apply lookup_insert_eq|done]. rewrite <- Hv. apply lookup_delete_eq.
        -- rewrite <- (He m) by (apply not_elem_of_cons; done). unfold restore_one. cbn [fst snd].
           destruct s; [by apply lookup_delete_ne|by apply lookup_insert_ne|done].
      * right. subst e. unfold restore_one. cbn [fst snd]. destruct s; [by apply delete_id|by apply insert_id|done].
Qed.

Lemma with_overrides_frame sid mask ev b : let b' := with_overrides sid mask ev b in
  b_cog b' = b_cog b /\ b_t2s b' = b_t2s b /\ b_loads b' = b_loads b /\ b_reg b' = b_reg b /\ b_inst b' = b_inst b /\
  b_overlay b' = fst (fractal_config_apply_env_overrides sid mask (b_overlay b, ev)) /\
  b_env b' = snd (fractal_config_apply_env_overrides sid mask (b_overlay b, ev)).
Proof. unfold with_overrides. by destruct (fractal_config_apply_env_overrides sid mask (b_overlay b, ev)). Qed.

Section Laws.
Context (EVP_DigestVerify : list Z -> list Z -> list Z -> bool).
Context (load : option (list Z) -> environ -> option inst -> Z * option inst).
Context (dispatch : option inst -> list Z -> list Z -> ai_response).
#[local] Abbreviation reload := (reload EVP_DigestVerify load).
#[local] Abbreviation embed_env_open := (embed_env_open EVP_DigestVerify load).

Lemma reload_frame t p x k b b' r : reload t p x k b = (b', r) ->
  b_cog b' = b_cog b /\ b_t2s b' = b_t2s b /\ b_overlay b' = b_overlay b /\ b_env b' = b_env b /\ b_reg b' = b_reg b /\
  l_tiers (b_loads b') = l_tiers (b_loads b) /\
  (forall t', t' <> t -> b_inst b' t' = b_inst b t' /\ l_fp (b_loads b') t' = l_fp (b_loads b) t').
Proof.
  unfold Bridge.reload. cbv zeta. destruct (bool_decide _); [intros H; by pair_inv H|].
  destruct (checked_load_reasoning _ _ _ _ _ _ _) as [[rc verr] i]. destruct (negb (rc =? FSQL_OK)); intros H; pair_inv H;
    split_and!; try done; intros t' Ht; cbn; unfold upd_tier; rewrite ?decide_False by done; by split.
Qed.

(** Whatever happens between, closing puts the operator's values back. *)
Lemma bracket_restores x k sid b b' saved ok : overlay_wf (b_overlay b) -> embed_env_open x k sid b = Some (b', saved, ok) ->
  b_env (close_bracket saved b') = b_env b /\ overlay_wf (b_overlay (close_bracket saved b')).
Proof.
  intros Hw. unfold Bridge.embed_env_open. destruct (embed_env_save _ (b_env b)) as [sv ok1] eqn:Es.
  apply save_slots in Es as (H1 & H2 & H3). destruct ok1; cbn [negb].
  - destruct (apply_embed_env_locked _ (b_env b)) as [ev|] eqn:Ea; [|done]. cbn [mbind option_bind].
    destruct (reload _ _ x k _) as [b2 r] eqn:Er. intros [= <- <- _]. apply reload_frame in Er as (_ & _ & Eo & Ee & _).
    destruct (with_overrides_frame sid FSQL_CFG_TIER_EMBED ev b) as (_ & _ & _ & _ & _ & Eo2 & Ee2).
    split; [|change (b_overlay (close_bracket sv b2)) with (b_overlay b2); rewrite Eo, Eo2; by apply overrides_wf].
    change (b_env (close_bracket sv b2)) with (fold_left restore_one (zip fsq_cfg_bridge_vars sv) (b_env b2)).
    rewrite Ee, Ee2. apply restore_all; [done|done|left].
    split; [by apply H3|]. eapply except_trans; [by eapply embed_publish_bridge|by apply overrides_bridge].
  - intros [= <- <- _]. split; [|done].
    change (b_env (close_bracket sv b)) with (fold_left restore_one (zip fsq_cfg_bridge_vars sv) (b_env b)).
    apply restore_all; [done|done|by right].
Qed.

Lemma acquire_frame t x b b' r : acquire t x b = (b', r) -> b_cog b' = b_cog b /\ b_t2s b' = b_t2s b /\ b_env b' = b_env b /\
  b_overlay b' = b_overlay b /\ l_fp (b_loads b') = l_fp (b_loads b) /\ b_inst b' = b_inst b.
Proof. unfold acquire. destruct (tier_acquire _ _ _) as [s o]. intros H. by pair_inv H. Qed.
Lemma ensure_cog_frame x b b' ok : ensure_cog x b = (b', ok) -> b_env b' = b_env b /\ b_overlay b' = b_overlay b /\
  b_t2s b' = b_t2s b /\ b_loads b' = b_loads b /\ b_inst b' = b_inst b.
Proof. unfold ensure_cog. destruct (ensure_env_config _ _ _) as [s o]. intros H. by pair_inv H. Qed.

#[local] Abbreviation ensure_embed_loaded := (ensure_embed_loaded EVP_DigestVerify load).
Lemma ensure_embed_env x sid loaded b b' ok : overlay_wf (b_overlay b) -> ensure_embed_loaded x sid loaded b = Some (b', ok) ->
  b_env b' = b_env b /\ overlay_wf (b_overlay b').
Proof.
  intros Hw. unfold Bridge.ensure_embed_loaded. destruct loaded; [by intros [= <- _]|].
  destruct (ensure_cog x b) as [b1 ok1] eqn:Ec. apply ensure_cog_frame in Ec as (Ee & Eo & _).
  assert (Q : forall r, Some (b1, r) = Some (b', ok) -> b_env b' = b_env b /\ overlay_wf (b_overlay b')) by (intros r [= <- _]; by rewrite Eo).
  destruct (negb ok1); [apply Q|]. destruct (is_none _); [apply Q|]. destruct (is_none _); [apply Q|].
  destruct (embed_env_open x 0 sid b1) as [[[b2 saved] ok2]|] eqn:E; [|done]. cbn [mbind option_bind].
  apply bracket_restores in E as [E1 E2]; [|by rewrite Eo]. rewrite Ee in E1. destruct (negb ok2); by intros [= <- _].
Qed.
Lemma embed_dispatch_env x sid input b b' r : overlay_wf (b_overlay b) -> embed_dispatch EVP_DigestVerify load dispatch x sid input b = Some (b', r) ->
  b_env b' = b_env b /\ overlay_wf (b_overlay b').
Proof.
  intros Hw. unfold embed_dispatch. destruct (embed_env_open x 1 sid b) as [[[b2 saved] ok2]|] eqn:E; [|done]. cbn [mbind option_bind].
  apply bracket_restores in E as [E1 E2]; [|done]. destruct (negb ok2); by intros [= <- _].
Qed.

(** ** The invariant *)

(** The plugin path a tier is configured for. *)
Definition plugin_of (t : fsql_tier) (b : bridge) : option (list Z) :=
  match t with
  | FSQL_TIER_REASON | FSQL_TIER_EMBED => reasoning_plugin (g_cfg (b_cog b))
  | FSQL_TIER_T2S | FSQL_TIER_REVIEW => t_plugin (t_cfg (b_t2s b))
  end.
Record core_laws : Prop := {
  law_loaded : forall p ev i i', load p ev i = (FSQL_OK, i') -> exists q, p = Some q /\ i' = Some {| i_path := q; i_env := ev |};
  law_failed : forall p ev i rc i', load p ev i = (rc, i') -> rc <> FSQL_OK -> i' = i
}.
(** A valid fingerprint is the one of the environment the instance read. *)
Definition instance_for (t : fsql_tier) (f : Z) (b : bridge) : Prop :=
  exists i, b_inst b t = Some i /\ fractal_config_env_fingerprint (i_env i) = f /\ plugin_of t b = Some (i_path i).
Record bridge_ok (b : bridge) : Prop := {
  bo_overlay : overlay_wf (b_overlay b);
  bo_fp : forall t f, l_fp (b_loads b) t = Some f -> instance_for t f b;
  bo_cog : g_cfg_initialized (b_cog b) = false -> g_cfg (b_cog b) = cfg0;
  bo_t2s : t_cfg_initialized (b_t2s b) = false -> t_cfg (b_t2s b) = t2s_cfg0
}.
(** What can run between two holds of the locks, in any order. *)
Inductive bstep : bridge -> bridge -> Prop :=
  | st_acquire t x b : bstep b (fst (acquire t x b))
  | st_mark t b : bstep b (mark_loaded t b)
  | st_cog x b : bstep b (fst (ensure_cog x b))
  | st_t2s x b : bstep b (fst (ensure_t2s x b))
  | st_reason x k sid b : bstep b (fst (reason_env_and_reload EVP_DigestVerify load x k sid b))
  | st_generate x k tag sid b : bstep b (fst (generate_env_and_reload EVP_DigestVerify load x k tag sid b))
  | st_review x k sid b : bstep b (fst (review_env_and_reload EVP_DigestVerify load x k sid b))
  | st_embed x k sid b b' saved ok : embed_env_open x k sid b = Some (b', saved, ok) -> bstep b b'
  | st_apply_cognition dup c b : bstep b (fst (apply_cognition dup c b))
  | st_apply_textsql dup c b : bstep b (fst (apply_textsql dup c b))
  | st_outside o ev b : overlay_wf o -> bstep b (set_env o ev b).
Definition bridge0 (ev : environ) : bridge :=
  {| b_cog := cog0; b_t2s := t2s0; b_loads := {| l_tiers := {| g_tier_ctx := fun _ => None; g_tier_loaded := fun _ => false |}; l_fp := fun _ => None |};
     b_overlay := overlay0; b_env := ev; b_reg := empty_registry; b_inst := fun _ => None |}.
Definition breachable (b : bridge) : Prop := exists ev, rtc bstep (bridge0 ev) b.

Hypothesis laws : core_laws.

(** Loading keeps the invariant, and afterwards the tier's instance is the one
    for the environment in place. *)
Lemma reload_ok t x k b b' r : bridge_ok b -> reload t (plugin_of t b) x k b = (b', r) ->
  bridge_ok b' /\ (r = None -> instance_for t (fractal_config_env_fingerprint (b_env b)) b').
Proof.
  intros Hb H. pose proof (reload_frame _ _ _ _ _ _ _ H) as (Fc & Ft & Fo & Fe & _ & _ & Fi).
  assert (Hp : forall t', plugin_of t' b' = plugin_of t' b) by (intros t'; unfold plugin_of; by rewrite Fc, Ft).
  assert (Hrest : (forall f, l_fp (b_loads b') t = Some f -> instance_for t f b') -> bridge_ok b').
  { intros Hs. split; [rewrite Fo; apply Hb| |rewrite Fc; apply Hb|rewrite Ft; apply Hb].
    intros t' f Hf. destruct (decide (t' = t)) as [->|Hne]; [by apply Hs|]. destruct (Fi t' Hne) as [E1 E2]. rewrite E2 in Hf.
    destruct (bo_fp b Hb t' f Hf) as (i & H1 & H2 & H3). exists i. by rewrite E1, Hp. }
  unfold Bridge.reload in H. cbv zeta in H. destruct (bool_decide _) eqn:Ef.
  - apply bool_decide_eq_true in Ef. pair_inv H. split; [done|]. intros _. by apply Hb.
  - clear Ef. destruct (checked_load_reasoning _ _ _ _ _ _ _) as [[rc verr] i] eqn:El.
    assert (Hi : (rc = FSQL_OK -> exists q, plugin_of t b = Some q /\ i = Some {| i_path := q; i_env := b_env b |}) /\ (rc <> FSQL_OK -> i = b_inst b t)).
    { unfold checked_load_reasoning in El. destruct (fractal_plugin_verify _ _ _ _); [by simplify_eq|].
      destruct (load _ _ _) as [rc' i'] eqn:E. simplify_eq. split; [intros ->; by apply (law_loaded laws) in E|intros Hn; by apply (law_failed laws) in E]. }
    destruct Hi as [Hok Hno]. destruct (Z.eqb_spec rc FSQL_OK) as [->|Hrc]; cbn [negb] in H; pair_inv H.
    + destruct (Hok eq_refl) as (q & Hq & ->).
      assert (Hins : instance_for t (fractal_config_env_fingerprint (b_env b)) (set_fp t (fractal_config_env_fingerprint (b_env b)) (set_inst t (Some {| i_path := q; i_env := b_env b |}) b))).
      { exists {| i_path := q; i_env := b_env b |}. split; [cbn; unfold upd_tier; by rewrite decide_True|]. split; [done|]. by rewrite Hp. }
      split; [|done]. apply Hrest. intros f Hf. cbn in Hf. unfold upd_tier in Hf. rewrite decide_True in Hf by done. by injection Hf as <-.
    + specialize (Hno Hrc). split; [|done]. apply Hrest. intros f Hf. cbn in Hf.
      destruct (bo_fp b Hb t f Hf) as (j & H1 & H2 & H3). exists j. split; [|by rewrite Hp]. cbn. unfold upd_tier. by rewrite decide_True, Hno.
Qed.

(** Changing only the overlay and the environment. *)
Lemma set_env_ok o ev b : overlay_wf o -> bridge_ok b -> bridge_ok (set_env o ev b).
Proof. intros Hw [H1 H2 H3 H4]. by split. Qed.
Lemma overrides_ok sid mask ev b : bridge_ok b -> bridge_ok (with_overrides sid mask ev b).
Proof.
  intros Hb. unfold with_overrides. pose proof (overrides_wf sid mask (b_overlay b) ev (bo_overlay b Hb)) as [Hw _].
  destruct (fractal_config_apply_env_overrides sid mask (b_overlay b, ev)) as [o ev']. by apply set_env_ok.
Qed.
(** Changing only which tiers are marked and which contexts exist. *)
Lemma set_tiers_ok ts b : bridge_ok b -> bridge_ok (set_tiers ts b).
Proof. intros [H1 H2 H3 H4]. by split. Qed.
(** A tier without a plugin has no valid fingerprint. *)
Lemma no_plugin_no_fp t b : bridge_ok b -> plugin_of t b = None -> l_fp (b_loads b) t = None.
Proof. intros Hb Hp. destruct (l_fp (b_loads b) t) as [f|] eqn:E; [|done]. destruct (bo_fp b Hb t f E) as (i & _ & _ & H). congruence. Qed.
Lemma capture_keeps dup ev s : g_cfg (fst (capture_env_fb dup ev s)) = g_cfg s /\
  g_cfg_initialized (fst (capture_env_fb dup ev s)) = g_cfg_initialized s /\ g_provider_applied (fst (capture_env_fb dup ev s)) = g_provider_applied s.
Proof. unfold capture_env_fb. destruct (g_env_captured s); [done|]. by destruct (env_snapshot dup ev). Qed.
Lemma ensure_config_cases dup ev s : let s' := fst (ensure_env_config dup ev s) in
  (g_cfg s' = g_cfg s /\ g_cfg_initialized s' = g_cfg_initialized s) \/
  (g_cfg_initialized s = false /\ (g_cfg_initialized s' = false -> g_cfg s' = cfg0)).
Proof.
  cbv zeta. unfold ensure_env_config. destruct (capture_keeps dup ev s) as (H1 & H2 & H3).
  destruct (capture_env_fb dup ev s) as [s1 ok]. cbn [fst] in H1, H2, H3. destruct (ok && negb (g_provider_applied s1)); [|by left].
  cbn [andb]. destruct (g_cfg_initialized s1) eqn:E; [left; cbn; split; congruence|]. cbn [negb]. right. split; [congruence|]. by destruct (dup_cfg _ _).
Qed.
Lemma capture_t2s_keeps dup ev s : t_cfg (fst (capture_t2s_env_fb dup ev s)) = t_cfg s /\
  t_cfg_initialized (fst (capture_t2s_env_fb dup ev s)) = t_cfg_initialized s /\ t_provider_applied (fst (capture_t2s_env_fb dup ev s)) = t_provider_applied s.
Proof. unfold capture_t2s_env_fb. destruct (t_env_captured s); [done|]. by destruct (t2s_snapshot dup ev). Qed.
Lemma ensure_t2s_cases dup ev s : let s' := fst (ensure_t2s_config dup ev s) in
  (t_cfg s' = t_cfg s /\ t_cfg_initialized s' = t_cfg_initialized s) \/
  (t_cfg_initialized s = false /\ (t_cfg_initialized s' = false -> t_cfg s' = t2s_cfg0)).
Proof.
  cbv zeta. unfold ensure_t2s_config. destruct (capture_t2s_keeps dup ev s) as (H1 & H2 & H3).
  destruct (capture_t2s_env_fb dup ev s) as [s1 ok]. cbn [fst] in H1, H2, H3. destruct (ok && negb (t_provider_applied s1)); [|by left].
  cbn [andb]. destruct (t_cfg_initialized s1) eqn:E; [left; cbn; split; congruence|]. cbn [negb]. right. split; [congruence|]. by destruct (dup_t2s_cfg _ _).
Qed.
(** New settings for one family of tiers: its fingerprints are gone, or were
    never there, or its settings are the old ones. *)
Lemma set_cog_ok s b : bridge_ok b -> (g_cfg_initialized s = false -> g_cfg s = cfg0) ->
  (g_cfg s = g_cfg (b_cog b) \/ (l_fp (b_loads b) FSQL_TIER_REASON = None /\ l_fp (b_loads b) FSQL_TIER_EMBED = None)) -> bridge_ok (set_cog s b).
Proof.
  intros Hb Hs Hc. split; [apply Hb| |done|apply Hb]. intros t f Hf. cbn [set_cog b_loads] in Hf.
  destruct (bo_fp b Hb t f Hf) as (i & H1 & H2 & H3). exists i. split_and!; [done|done|].
  destruct Hc as [Hc|[N1 N2]]; [destruct t; cbn in *; congruence|]. destruct t; [congruence|congruence|done|done].
Qed.
Lemma set_t2s_ok s b : bridge_ok b -> (t_cfg_initialized s = false -> t_cfg s = t2s_cfg0) ->
  (t_cfg s = t_cfg (b_t2s b) \/ (l_fp (b_loads b) FSQL_TIER_T2S = None /\ l_fp (b_loads b) FSQL_TIER_REVIEW = None)) -> bridge_ok (set_t2s s b).
Proof.
  intros Hb Hs Hc. split; [apply Hb| |apply Hb|done]. intros t f Hf. cbn [set_t2s b_loads] in Hf.
  destruct (bo_fp b Hb t f Hf) as (i & H1 & H2 & H3). exists i. split_and!; [done|done|].
  destruct Hc as [Hc|[N1 N2]]; [destruct t; cbn in *; congruence|]. destruct t; [done|done|congruence|congruence].
Qed.
Lemma ensure_cog_ok x b : bridge_ok b -> bridge_ok (fst (ensure_cog x b)).
Proof.
  intros Hb. unfold ensure_cog. pose proof (ensure_config_cases (r_dup x) (b_env b) (b_cog b)) as H. cbv zeta in H.
  destruct (ensure_env_config (r_dup x) (b_env b) (b_cog b)) as [s ok]. cbn [fst] in *. destruct H as [[H1 H2]|[H1 H2]].
  - apply set_cog_ok; [done| |by left]. rewrite H1, H2. apply Hb.
  - apply set_cog_ok; [done|done|]. right. pose proof (bo_cog b Hb H1) as E. split; apply no_plugin_no_fp; try done; cbn; by rewrite E.
Qed.
Lemma ensure_t2s_ok x b : bridge_ok b -> bridge_ok (fst (ensure_t2s x b)).
Proof.
  intros Hb. unfold ensure_t2s. pose proof (ensure_t2s_cases (r_dup x) (b_env b) (b_t2s b)) as H. cbv zeta in H.
  destruct (ensure_t2s_config (r_dup x) (b_env b) (b_t2s b)) as [s ok]. cbn [fst] in *. destruct H as [[H1 H2]|[H1 H2]].
  - apply set_t2s_ok; [done| |by left]. rewrite H1, H2. apply Hb.
  - apply set_t2s_ok; [done|done|]. right. pose proof (bo_t2s b Hb H1) as E. split; apply no_plugin_no_fp; try done; cbn; by rewrite E.
Qed.
(** Dropping fingerprints. *)
Lemma set_loads_ok l b : bridge_ok b -> (forall t f, l_fp l t = Some f -> l_fp (b_loads b) t = Some f) -> bridge_ok (set_loads l b).
Proof. intros [H1 H2 H3 H4] H. split; [done| |done|done]. intros t f Hf. apply H in Hf. by apply H2. Qed.
Lemma forget_fp t l t' : l_fp (forget t l) t' = if decide (t' = t) then None else l_fp l t'.
Proof. done. Qed.
Lemma set_swap s l b : set_loads l (set_cog s b) = set_cog s (set_loads l b).
Proof. done. Qed.
Lemma set_swap_t2s s l b : set_loads l (set_t2s s b) = set_t2s s (set_loads l b).
Proof. done. Qed.

Lemma apply_cognition_ok dup c b : bridge_ok b -> bridge_ok (fst (apply_cognition dup c b)).
Proof.
  intros Hb. unfold apply_cognition, fractalsql_cognition_apply_provider. destruct (capture_keeps dup (b_env b) (b_cog b)) as (H1 & H2 & _).
  destruct (capture_env_fb dup (b_env b) (b_cog b)) as [s ok]. cbn [fst] in H1, H2.
  assert (Hold : bridge_ok (set_loads (b_loads b) (set_cog s b))).
  { rewrite set_swap. apply set_cog_ok; [by apply set_loads_ok| |by left]. rewrite H1, H2. apply Hb. }
  destruct ok; cbn [negb]; [|done]. destruct (dup_cfg _ _) as [n|]; [|done]. cbn [fst]. rewrite set_swap. apply set_cog_ok; [|done|by right].
  apply set_loads_ok; [done|]. intros t f. rewrite !forget_fp. do 2 (destruct (decide _); [done|]). done.
Qed.
Lemma apply_textsql_ok dup c b : bridge_ok b -> bridge_ok (fst (apply_textsql dup c b)).
Proof.
  intros Hb. unfold apply_textsql, fractalsql_textsql_apply_provider. destruct (capture_t2s_keeps dup (b_env b) (b_t2s b)) as (H1 & H2 & _).
  destruct (capture_t2s_env_fb dup (b_env b) (b_t2s b)) as [s ok]. cbn [fst] in H1, H2.
  assert (Hold : bridge_ok (set_loads (b_loads b) (set_t2s s b))).
  { rewrite set_swap_t2s. apply set_t2s_ok; [by apply set_loads_ok| |by left]. rewrite H1, H2. apply Hb. }
  destruct ok; cbn [negb]; [|done]. destruct (dup_t2s_cfg _ _) as [n|]; [|done]. cbn [fst]. rewrite set_swap_t2s. apply set_t2s_ok; [|done|by right].
  apply set_loads_ok; [done|]. intros t f. rewrite !forget_fp. do 2 (destruct (decide _); [done|]). done.
Qed.

(** A publish, then the load: the instance is the published environment's. *)
Lemma publish_reload t x k b sid mask ev b' r : bridge_ok b ->
  reload t (plugin_of t b) x k (with_overrides sid mask ev b) = (b', r) ->
  bridge_ok b' /\ b_env b' = snd (fractal_config_apply_env_overrides sid mask (b_overlay b, ev)) /\
  (r = None -> instance_for t (fractal_config_env_fingerprint (b_env b')) b').
Proof.
  intros Hb H. destruct (with_overrides_frame sid mask ev b) as (Fc & Ft & _ & _ & _ & _ & Fe).
  assert (Hp : plugin_of t b = plugin_of t (with_overrides sid mask ev b)) by (unfold plugin_of; by rewrite Fc, Ft).
  rewrite Hp in H. pose proof (reload_frame _ _ _ _ _ _ _ H) as (_ & _ & _ & Ee & _).
  destruct (reload_ok _ _ _ _ _ _ (overrides_ok sid mask ev b Hb) H) as [H1 H2]. by rewrite Ee, Fe in *.
Qed.
Lemma reason_reload x k sid b b' r : bridge_ok b -> reason_env_and_reload EVP_DigestVerify load x k sid b = (b', r) ->
  bridge_ok b' /\ b_env b' = snd (fractal_config_apply_env_overrides sid FSQL_CFG_TIER_REASON (b_overlay b, set_all (reason_settings (g_cfg (b_cog b))) (b_env b))) /\
  (r = None -> instance_for FSQL_TIER_REASON (fractal_config_env_fingerprint (b_env b')) b').
Proof.
  intros Hb. unfold reason_env_and_reload, publish_reason, apply_reason_env_locked. cbv zeta.
  set (ev := set_all (reason_settings (g_cfg (b_cog b))) (b_env b)). rewrite (proj1 (with_overrides_frame sid FSQL_CFG_TIER_REASON ev b)).
  destruct (reload _ _ _ _ _) as [b1 o] eqn:E. intros H. pair_inv H. apply publish_reload in E as (H1 & H2 & H3); [|done].
  split_and!; [done|done|]. intros Ho. apply H3. by destruct o.
Qed.
Lemma generate_reload x k tag sid b b' r : bridge_ok b -> generate_env_and_reload EVP_DigestVerify load x k tag sid b = (b', r) ->
  bridge_ok b' /\ b_env b' = snd (fractal_config_apply_env_overrides sid FSQL_CFG_TIER_T2S (b_overlay b, set_all (generate_settings (t_cfg (b_t2s b)) tag) (b_env b))) /\
  (r = true -> instance_for FSQL_TIER_T2S (fractal_config_env_fingerprint (b_env b')) b').
Proof.
  intros Hb. unfold generate_env_and_reload, publish_generate, apply_generate_env_locked. cbv zeta.
  set (ev := set_all (generate_settings (t_cfg (b_t2s b)) tag) (b_env b)). rewrite (proj1 (proj2 (with_overrides_frame sid FSQL_CFG_TIER_T2S ev b))).
  destruct (reload _ _ _ _ _) as [b1 o] eqn:E. intros H. pair_inv H. apply publish_reload in E as (H1 & H2 & H3); [|done].
  split_and!; [done|done|]. intros Ho. apply H3. by destruct o.
Qed.
Lemma review_reload x k sid b b' r : bridge_ok b -> review_env_and_reload EVP_DigestVerify load x k sid b = (b', r) ->
  bridge_ok b' /\ b_env b' = snd (fractal_config_apply_env_overrides sid FSQL_CFG_TIER_T2S (b_overlay b, set_all (review_settings (t_cfg (b_t2s b))) (b_env b))) /\
  (r = true -> instance_for FSQL_TIER_REVIEW (fractal_config_env_fingerprint (b_env b')) b').
Proof.
  intros Hb. unfold review_env_and_reload, publish_review, apply_review_env_locked. cbv zeta.
  set (ev := set_all (review_settings (t_cfg (b_t2s b))) (b_env b)). rewrite (proj1 (proj2 (with_overrides_frame sid FSQL_CFG_TIER_T2S ev b))).
  destruct (reload _ _ _ _ _) as [b1 o] eqn:E. intros H. pair_inv H. apply publish_reload in E as (H1 & H2 & H3); [|done].
  split_and!; [done|done|]. intros Ho. apply H3. by destruct o.
Qed.
Lemma embed_reload x k sid b b' saved r : bridge_ok b -> embed_env_open x k sid b = Some (b', saved, r) ->
  bridge_ok b' /\
  (r = true -> exists url, http_embed_url (g_cfg (b_cog b)) = Some url /\
   b_env b' = snd (fractal_config_apply_env_overrides sid FSQL_CFG_TIER_EMBED (b_overlay b, set_all (embed_settings url (g_cfg (b_cog b))) (b_env b))) /\
   instance_for FSQL_TIER_EMBED (fractal_config_env_fingerprint (b_env b')) b').
Proof.
  intros Hb. unfold Bridge.embed_env_open. destruct (embed_env_save _ _) as [sv ok]. destruct ok; cbn [negb]; [|by intros [= <- _ <-]].
  unfold apply_embed_env_locked. destruct (http_embed_url (g_cfg (b_cog b))) as [url|] eqn:Eu; [|done]. cbn [mbind option_bind].
  set (ev := set_all (embed_settings url (g_cfg (b_cog b))) (b_env b)). rewrite (proj1 (with_overrides_frame sid FSQL_CFG_TIER_EMBED ev b)).
  destruct (reload _ _ _ _ _) as [b1 o] eqn:E. intros [= <- _ <-]. apply publish_reload in E as (H1 & H2 & H3); [|done].
  split; [done|]. intros Ho. exists url. split_and!; [done|done|]. apply H3. by destruct o.
Qed.
Lemma bstep_ok b b' : bstep b b' -> bridge_ok b -> bridge_ok b'.
Proof.
  intros H Hb. destruct H as [t x b|t b|x b|x b|x k sid b|x k tag sid b|x k sid b|x k sid b b' saved ok E|dup c b|dup c b|o ev b Hw].
  - unfold acquire. destruct (tier_acquire _ _ _). by apply set_tiers_ok.
  - by apply set_tiers_ok.
  - by apply ensure_cog_ok.
  - by apply ensure_t2s_ok.
  - destruct (reason_env_and_reload _ _ x k sid b) eqn:E. by apply reason_reload in E as [? _].
  - destruct (generate_env_and_reload _ _ x k tag sid b) eqn:E. by apply generate_reload in E as [? _].
  - destruct (review_env_and_reload _ _ x k sid b) eqn:E. by apply review_reload in E as [? _].
  - by apply embed_reload in E as [? _].
  - by apply apply_cognition_ok.
  - by apply apply_textsql_ok.
  - by apply set_env_ok.
Qed.
Lemma breachable_ok b : breachable b -> bridge_ok b.
Proof.
  intros [ev H]. assert (H0 : bridge_ok (bridge0 ev)) by (split; [apply overlay0_wf|done|done|done]).
  induction H as [|b1 b2 b3 H1 _ IH]; [done|]. by apply IH, (bstep_ok b1).
Qed.
End Laws.

(** ** What a session's call runs with *)

(** The key a session may override a tier's variable with. *)
Definition key_for (mask : Z) (var : list Z) : option nat :=
  findi (fun k => var_eqb k var && negb (Z.land (env_tiers k) mask =? 0)) g_keys.
Definition effective (o : overlay) (sid mask : Z) (nv : list Z * option (list Z)) : option (list Z) :=
  match key_for mask (fst nv) with Some id => tuned o sid id (snd nv) | None => snd nv end.
Definition masks : list Z := [FSQL_CFG_TIER_REASON; FSQL_CFG_TIER_EMBED; FSQL_CFG_TIER_T2S].
Lemma keys_sole : forallb (fun m => forallb (fun n => match key_for m n with Some id => sole_key m id n | None => true end) fsq_cfg_bridge_vars) masks = true.
Proof. by vm_compute. Qed.
Lemma effective_var o sid mask ev n base : overlay_wf o -> In mask masks -> n ∈ fsq_cfg_bridge_vars -> ev !! n = base ->
  snd (fractal_config_apply_env_overrides sid mask (o, ev)) !! n = effective o sid mask (n, base).
Proof.
  intros Hw Hm Hn He. unfold effective. cbn [fst snd]. pose proof keys_sole as Hk. rewrite forallb_forall in Hk. specialize (Hk mask Hm).
  rewrite forallb_forall in Hk. specialize (Hk n (proj1 (list_elem_of_In _ _) Hn)). destruct (key_for mask n) as [id|] eqn:E.
  - rewrite <- He. by apply tuned_var.
  - rewrite apply_env_spec by done. rewrite env_fold_other; [done|]. intros i k Hin Ev. unfold key_for in E. apply findi_none in E.
    apply list_elem_of_In, elem_of_zip_r in Hin. rewrite Forall_forall in E. specialize (E k Hin). cbn beta in E. unfold var_eqb in E.
    rewrite Ev, (proj2 (bytes_eqb_true n n) eq_refl) in E. cbn [andb] in E. lia.
Qed.
Definition settings_ok (l : list (list Z * option (list Z))) : bool := bool_decide (NoDup l.*1) && names_in l.*1 fsq_cfg_bridge_vars.
Lemma published l o sid mask ev : overlay_wf o -> In mask masks -> settings_ok l = true ->
  Forall (fun nv => snd (fractal_config_apply_env_overrides sid mask (o, set_all l ev)) !! fst nv = effective o sid mask nv) l.
Proof.
  intros Hw Hm [Hd Hn]%andb_true_iff. apply bool_decide_eq_true in Hd. rewrite Forall_forall. intros [n v] Hi. apply effective_var; [done|done| |by apply set_all_in].
  apply (names_in_sub l.*1); [done|]. cbn [fst]. apply list_elem_of_fmap. by exists (n, v).
Qed.

(** Two environments agree on the bridge's variables, but for the system tag,
    which the fingerprint leaves out; or they are told apart by one of the
    other variables and share the 64-bit fingerprint all the same. *)
Definition same_bridge (ev ev' : environ) : Prop := Forall (fun n => n = system_tag \/ ev !! n = ev' !! n) fsq_cfg_bridge_vars.
Definition collides (ev ev' : environ) : Prop := ~ same_bridge ev ev' /\ fractal_config_env_fingerprint ev = fractal_config_env_fingerprint ev'.
(** The tier's instance is the one of the plugin in effect, and was loaded with
    the bridge settings now in the environment, unless those of its load
    collide with them. *)
Definition loaded_for (t : fsql_tier) (b' : bridge) : Prop :=
  exists i, b_inst b' t = Some i /\ plugin_of t b' = Some (i_path i) /\
    (same_bridge (i_env i) (b_env b') \/ collides (i_env i) (b_env b')).
Lemma instance_loaded t b' : instance_for t (fractal_config_env_fingerprint (b_env b')) b' -> loaded_for t b'.
Proof.
  intros (i & Hi & Hf & Hp). exists i. split_and!; [done|done|].
  destruct (decide (same_bridge (i_env i) (b_env b'))); [by left|by right].
Qed.
(** The environment holds the tier's settings with the session's own overrides
    over them, and the instance is for it. *)
Definition runs_for (b b' : bridge) (t : fsql_tier) (sid mask : Z) (settings : list (list Z * option (list Z))) : Prop :=
  loaded_for t b' /\ Forall (fun nv => b_env b' !! fst nv = effective (b_overlay b) sid mask nv) settings.

(** C15: the embed tier puts the operator's environment back: whatever the
    copies, the load, the dispatch and the response do, the process environment
    after fractal_embed is the one before it. *)
Theorem embed_restores_environment EVP load dispatch x sid input cap b r b' : overlay_wf (b_overlay b) ->
  fractal_embed EVP load dispatch x sid input cap b = Some (r, b') -> b_env b' = b_env b.
Proof.
  intros Hw. unfold fractal_embed. destruct sid as [sid|]; [|by intros [= _ <-]]. destruct input as [input|]; [|by intros [= _ <-]].
  destruct (_ <? _); [by intros [= _ <-]|]. destruct (acquire FSQL_TIER_EMBED x b) as [b1 o] eqn:Ea.
  apply acquire_frame in Ea as (_ & _ & Ee & Eo & _). destruct o as [loaded|]; [|by intros [= _ <-]].
  destruct (ensure_embed_loaded EVP load x (u64 sid) loaded b1) as [[b2 ok]|] eqn:El; [|done]. cbn [mbind option_bind].
  apply ensure_embed_env in El as [E1 Hw1]; [|by rewrite Eo]. rewrite Ee in E1. destruct (negb ok); [by intros [= _ <-]|].
  destruct (embed_dispatch EVP load dispatch x (u64 sid) input b2) as [[b3 a]|] eqn:Ed; [|done]. cbn [mbind option_bind].
  apply embed_dispatch_env in Ed as [E2 _]; [|done]. rewrite E1 in E2. destruct a as [a|]; [|by intros [= _ <-]].
  destruct (judge _ _ _); by intros [= _ <-].
Qed.

(** ** Runs *)

Definition demo_ev : environ := list_to_map [
  (bs "FRACTALSQL_REASONING_PLUGIN", bs "/opt/plugin.so"); (bs "FSQL_REASONING_REQUIRE_SIGNATURE", bs "0");
  (bs "FRACTALSQL_HTTP_EMBED_URL", bs "http://e"); (bs "FSQL_REASONING_HTTP_URL", bs "http://c"); (bs "FSQL_REASONING_HTTP_THINK", bs "high")].
Definition demo_load (p : option (list Z)) (ev : environ) (i : option inst) : Z * option inst :=
  match p with Some q => (FSQL_OK, Some {| i_path := q; i_env := ev |}) | None => (-1, i) end.
Definition demo_ai (i : option inst) (q c : list Z) : ai_response :=
  {| ai_rc := FSQL_OK; ai_resp_rc := 0; summary := Some (bs "[0.5, 2]"); null_len := 0 |}.
Definition no_sig : os := {| os_sig := None; os_so := None; os_evp := true; os_evp_init := true; os_memfd := None; os_tmpdir := None;
  os_tmp_ok := false; os_tmp_image := fun b => b; os_path_image := None |}.
Definition demo_rio : rio :=
  {| r_sio := {| s_env := {| now := 0; Session.calloc_ok := true; new_sovereign := Some 7 |}; s_malloc := fun _ => true; s_hook := None; s_underflow := fun _ => false |};
     r_dup := fun _ => true; r_os := fun _ => no_sig; r_error := [] |}.
Definition no_evp (k s m : list Z) : bool := false.
Lemma demo_load_laws : core_laws demo_load.
Proof. split; intros [q|] ev i; cbn; intros; simplify_eq; by eauto. Qed.
(** The settings captured from the environment, nothing loaded. *)
Definition demo_ready : bridge := fst (ensure_t2s demo_rio (fst (ensure_cog demo_rio (bridge0 demo_ev)))).
Lemma demo_ready_reachable : breachable no_evp demo_load demo_ready.
Proof. exists demo_ev. eapply rtc_l; [apply st_cog|]. eapply rtc_l; [apply st_t2s|]. apply rtc_refl. Qed.
Lemma embed_restores_environment_witness : exists r b', fractal_embed no_evp demo_load demo_ai demo_rio (Some 5) (Some (bs "text")) 0 demo_ready = Some (r, b') /\
  b_env b' = b_env demo_ready.
Proof.
  assert (E : match fractal_embed no_evp demo_load demo_ai demo_rio (Some 5) (Some (bs "text")) 0 demo_ready with Some (r, _) => r = (UVal (bs "[0.5,2]"), 256) | None => False end)
    by (vm_compute; reflexivity).
  destruct (fractal_embed no_evp demo_load demo_ai demo_rio (Some 5) (Some (bs "text")) 0 demo_ready) as [[r b']|] eqn:Ef; [|exfalso; exact E].
  exists r, b'. split; [done|]. apply (embed_restores_environment no_evp demo_load demo_ai demo_rio (Some 5) (Some (bs "text")) 0 demo_ready r b'); [|exact Ef].
  apply overlay0_wf.
Defined.

(** ** What the locks do not cover *)

(** A configuration without an embeddings endpoint. *)
Definition conf_plugin_only : fsq_config := with_str (bs "reasoning_plugin") (bs "/opt/plugin.so") (prov_bit 0) config0.
Definition no_embed_ev : environ := delete (bs "FRACTALSQL_HTTP_EMBED_URL") demo_ev.
(** The endpoint configured, the embed tier loaded. *)
Definition demo_embed_conf : fsq_config := with_str (bs "embed_url") (bs "http://e") (prov_bit 5) conf_plugin_only.
Definition embed_loaded : bridge :=
  let b := fst (apply_cognition (fun _ => true) demo_embed_conf (bridge0 no_embed_ev)) in
  let b := fst (acquire FSQL_TIER_EMBED demo_rio b) in
  match ensure_embed_loaded no_evp demo_load demo_rio 5 false b with Some (b, _) => b | None => b end.
(** The embed tier tests its endpoint only while its instance is not loaded.
    When a reload drops the endpoint between a call's acquire and its
    dispatch, the call goes on with the loaded flag it read and hands
    [setenv] a NULL value. *)
Theorem embed_reload_race : snd (acquire FSQL_TIER_EMBED demo_rio embed_loaded) = Some true /\
  snd (apply_cognition (fun _ => true) conf_plugin_only embed_loaded) = true /\
  embed_dispatch no_evp demo_load demo_ai demo_rio 5 (bs "text") (fst (apply_cognition (fun _ => true) conf_plugin_only embed_loaded)) = None.
Proof. split_and!; vm_compute; reflexivity. Qed.

(** The embed tier's bracket, opened. *)
Definition bracket_open : bridge * list saved_slot :=
  match embed_env_open no_evp demo_load demo_rio 1%nat 5 demo_ready with Some (b, saved, _) => (b, saved) | None => (demo_ready, []) end.
(** The two source files have a dispatch lock each, and the environment lock
    is not held across the dispatch: a generate call can publish inside an
    open bracket, and the embed request is dispatched in the chat tier's
    environment. *)
Theorem embed_bracket_not_exclusive :
  let b := fst bracket_open in let b' := fst (generate_env_and_reload no_evp demo_load demo_rio 0%nat None 9 b) in
  (b_env b !! var_mode, b_env b !! var_response_mode, b_env b !! var_think) = (Some (bs "embedding"), None, None) /\
  (b_env b' !! var_mode, b_env b' !! var_response_mode, b_env b' !! var_think) = (None, Some (bs "code"), Some (bs "high")).
Proof. split; vm_compute; reflexivity. Qed.
(** The bracket is closed without the environment lock: it can run between a
    generate call's publish and its load, and the generate tier's instance is
    loaded without its response mode. *)
Theorem bracket_close_unlocked :
  let b := close_bracket (snd bracket_open) (publish_generate None 9 (fst bracket_open)) in
  let '(b', r) := reload no_evp demo_load FSQL_TIER_T2S (t_plugin (t_cfg (b_t2s b))) demo_rio 0%nat b in
  r = None /\ (fun i => i_env i !! var_response_mode) <$> b_inst b' FSQL_TIER_T2S = Some None.
Proof. vm_compute. by split. Qed.

(** An embedding is not held to the floats' range, as vectors are: the
    function answers text that no vector function takes. *)
Theorem embed_overflow_not_a_vector : fst (embed_text demo_rio 0 (bs "[1e39]")) = UVal (bs "[inf]").
Proof. vm_compute. reflexivity. Qed.
