(* ===== verification/CognitionProofs.v ===== *)
(** * The tiers' settings: proofs

    The bounded detail, the partial-result document, the reload as all or
    nothing, the configuration of a text-to-SQL call, and the embed tier's
    endpoint under whole calls. *)

From stdpp Require Import gmap.
From S2P Require Import Prelude LedgerFmt AuditJson JsonText Float FloatValid Config DaemonConf Session Daemon JsonOut Parse ParseProofs Vector VectorProofs TextSql Search Enterprise AuditProofs AnalyticsProofs Cognition T2s Bridge BridgeProofs.

(** ** The buffer *)

(** Below the width's last doublings the two growth loops are the same. *)
Lemma str_loop need n : need <= 2 ^ 62 -> forall ncap, 0 <= ncap -> while (str_turn need) n ncap = while (ensure_turn need) n ncap.
Proof.
  intros Hn. induction n as [|n IH]; intros ncap Hc; [done|]. cbn [while]. unfold str_turn at 1, ensure_turn at 1.
  destruct (Z.ltb_spec ncap need); [|done]. destruct (Z.ltb_spec (SIZE_MAX / 2) ncap); [unfold SIZE_MAX in *; lia|].
  rewrite u64_id by lia. apply IH. lia.
Qed.
Lemma str_ensure malloc cap need : 0 <= cap -> need <= 2 ^ 62 -> str_out_ensure malloc cap need = json_out_ensure malloc cap need.
Proof. intros Hc Hn. unfold str_out_ensure, json_out_ensure. rewrite str_loop; [done|done|]. destruct (cap =? 0); lia. Qed.
Lemma str_ensure_mem malloc cap need : (forall n, malloc n = true) -> out_cap cap -> 0 < need <= 2 ^ 62 -> exists cap',
  str_out_ensure malloc cap need = (true, cap') /\ out_cap cap' /\ need <= cap' /\ 256 <= cap'.
Proof.
  intros Hm Hc Hn. rewrite str_ensure by (destruct Hc; lia).
  pose proof (ensure_spec malloc cap need Hc ltac:(unfold SIZE_MAX; lia)) as H. pose proof (ensure_mem malloc cap need Hm Hc ltac:(unfold SIZE_MAX; lia)) as Ho.
  destruct (json_out_ensure malloc cap need) as [ok cap']. cbn [fst] in Ho. subst ok. destruct H as (H1 & H2 & _). destruct (H2 eq_refl) as [H3 H4].
  exists cap'. split_and!; [done|done|done|]. apply H4. lia.
Qed.

(** ** Details *)

(** Text as its UTF-8 sequences: a byte that starts one and the bytes that
    continue it. *)
Definition utf8_seq (c : list Z) : Prop := match c with [] => False | a :: r => utf8_cont a = false /\ Forall (fun x => utf8_cont x = true) r end.
Lemma boundary_seqs cs : Forall utf8_seq cs -> forall k, (k <= length (concat cs))%nat -> exists n, take (to_boundary (concat cs) k) (concat cs) = concat (take n cs).
Proof.
  intros Hs k. induction k as [|k IH]; intros Hk; [by exists 0%nat|]. cbn [to_boundary].
  destruct (utf8_cont (at_ (concat cs) (S k))) eqn:E; [apply IH; lia|].
  (* the byte at S k starts a sequence, or the text ends there *)
  clear IH. revert k Hk E. induction Hs as [|c cs Hc _ IH]; intros k Hk E; [cbn in Hk; lia|].
  cbn [concat] in *. rewrite length_app in Hk. destruct (decide (S k < length c)%nat) as [Hl|Hl].
  - exfalso. destruct c as [|a r]; [done|]. destruct Hc as [_ Hr]. unfold at_ in E. cbn [length] in Hl. cbn [app nth] in E.
    rewrite app_nth1 in E by lia. rewrite Forall_forall in Hr. rewrite (Hr (nth k r 0)) in E; [done|]. apply list_elem_of_In, nth_In. lia.
  - destruct (decide (S k = length c)) as [He|He].
    + exists 1%nat. rewrite He, take_app_length. cbn. by rewrite app_nil_r.
    + destruct (IH (k - length c)%nat) as [n Hn]; [lia| |].
      * unfold at_ in *. rewrite app_nth2 in E by lia. by replace (S k - length c)%nat with (S (k - length c)) in E by lia.
      * exists (S n). rewrite take_app. rewrite (take_ge c) by lia. cbn [take concat]. rewrite <- Hn. f_equal.
        f_equal. lia.
Qed.

Lemma mark_len : length SFS_DETAIL_MARK = 14%nat.
Proof. done. Qed.
(** A bounded detail is whole or marked, and never cuts a character: a text
    of UTF-8 sequences that does not fit its buffer becomes some of its first
    sequences followed by the truncation marker, and with its NUL it fits. *)
Theorem detail_cut_clean cs cap : (15 <= cap)%nat -> Forall utf8_seq cs ->
  (length (sfs_detail_bounded (concat cs) cap) < cap)%nat /\
  (sfs_detail_bounded (concat cs) cap = concat cs \/ exists n, sfs_detail_bounded (concat cs) cap = concat (take n cs) ++ SFS_DETAIL_MARK).
Proof.
  intros Hc Hs. unfold sfs_detail_bounded. rewrite mark_len. destruct (Nat.leb_spec (length (concat cs) + 1) cap); [split; [lia|by left]|].
  rewrite (proj2 (Nat.ltb_ge _ _)) by lia. destruct (boundary_seqs cs Hs (cap - 1 - 14)) as [n Hn]; [lia|]. split; [|right; exists n; by rewrite Hn].
  rewrite length_app, length_take, mark_len. assert (H0 : forall d k, (to_boundary d k <= k)%nat).
  { intros d k. induction k as [|k IH]; [done|]. cbn. case_match; lia. }
  pose proof (H0 (concat cs) (cap - 1 - 14)%nat). lia.
Qed.
Definition demo_seqs : list (list Z) := (replicate 255 [97] ++ [[195; 169]] ++ replicate 20 [98])%Z.
Lemma demo_seqs_ok : Forall utf8_seq demo_seqs.
Proof.
  apply Forall_app; split; [apply Forall_replicate; split; [reflexivity|constructor]|]. apply Forall_app; split.
  - apply Forall_cons; split; [|constructor]. split; [reflexivity|]. apply Forall_cons; split; [reflexivity|constructor].
  - apply Forall_replicate; split; [reflexivity|constructor].
Qed.
Lemma detail_cut_clean_witness : sfs_detail_bounded (concat demo_seqs) DETAIL_CAP = replicate 255 97 ++ SFS_DETAIL_MARK /\
  (length (sfs_detail_bounded (concat demo_seqs) DETAIL_CAP) < DETAIL_CAP)%nat.
Proof. split; [vm_compute; reflexivity|]. apply (detail_cut_clean demo_seqs DETAIL_CAP); [vm_compute; lia|exact demo_seqs_ok]. Defined.

(** ** The partial-result document *)

Lemma json_piece_length c : (length (json_piece c) <= 6)%nat.
Proof. unfold json_piece. repeat case_match; cbn; lia. Qed.
Lemma pieces_length s : (length (flat_map json_piece s) <= 6 * length s)%nat.
Proof. induction s as [|c s IH]; [done|]. cbn [flat_map length]. rewrite length_app. pose proof (json_piece_length c). lia. Qed.
(** Six bytes per byte, and six more, and nothing is cut. *)
Lemma escape_whole cap s : forall w, w + 6 * Z.of_nat (length s) < cap -> 0 <= w -> json_escape_into cap w s = flat_map json_piece s.
Proof.
  induction s as [|c s IH]; intros w Hw Hp; [done|]. cbn [json_escape_into flat_map]. cbn [length] in Hw.
  rewrite (proj2 (Z.ltb_lt _ _)) by lia. rewrite IH; [done| |unfold len; lia]. pose proof (json_piece_length c). unfold len. lia.
Qed.
Lemma conf_hexd_range n : 0 <= n < 16 -> 48 <= Config.hexd n <= 57 \/ 97 <= Config.hexd n <= 102.
Proof. intros H. unfold Config.hexd. destruct (Z.ltb_spec n 10); lia. Qed.
Lemma piece_jstr c : byte_ok c -> jstr (json_piece c).
Proof.
  intros H. unfold byte_ok in H. unfold json_piece. destruct (nibble_bounds c H) as [H1 H2]. apply conf_hexd_range in H1, H2.
  destruct (_ || _) eqn:E1; [repeat constructor|]. destruct (c <? 32) eqn:E2; [|apply js_chr; [lia..|constructor]].
  apply js_esc. do 2 (apply js_chr; [lia..|]). do 2 (apply js_chr; [lia..|]). constructor.
Qed.
Lemma pieces_jstr s : bytes_ok s -> jstr (flat_map json_piece s).
Proof. induction 1 as [|c s Hc _ IH]; [constructor|]. cbn [flat_map]. apply jstr_app; [by apply piece_jstr|done]. Qed.
Definition partial_text (detail : list Z) : list Z := js "{'reasoning_step_failed':'" ++ flat_map json_piece detail ++ js "'}".
(** The partial-result document is whole.  For every error text of the
    buffer's size the document is JSON, nothing of it is cut, the buffer holds
    it, and reading it back gives the error text byte for byte. *)
Theorem partial_document malloc cap errbuf : (forall n, malloc n = true) -> out_cap cap -> bytes_ok errbuf -> errbuf <> [] ->
  (length errbuf <= FRACTAL_PARTIAL_DETAIL_MAX)%nat ->
  exists cap', agent_partial_sentinel malloc cap errbuf = (Some (partial_text errbuf), cap') /\ doc 2 (partial_text errbuf) /\
    len (partial_text errbuf) + 1 <= cap' /\ json_object (partial_text errbuf) = Some [(bs "reasoning_step_failed", errbuf)].
Proof.
  intros Hm Hc Hb Hne Hl. unfold agent_partial_sentinel. unfold FRACTAL_PARTIAL_DETAIL_MAX in *.
  assert (E : (match errbuf with [] => bs "(no detail)" | _ => errbuf end) = errbuf) by (by destruct errbuf). rewrite E. clear E.
  rewrite (proj2 (Nat.ltb_ge 512 (length errbuf))) by done. cbn iota.
  destruct (str_ensure_mem malloc cap ((len errbuf + 16) * 6 + 48) Hm Hc) as (cap' & -> & H1 & H2 & _); [unfold len; lia|]. cbn [negb].
  set (lead := js "{'reasoning_step_failed':'"). assert (Hlead : len lead = 26) by done. rewrite Hlead.
  rewrite escape_whole by (unfold len in *; lia). exists cap'. rewrite <- app_assoc. change (lead ++ flat_map json_piece errbuf ++ js "'}") with (partial_text errbuf).
  pose proof (pieces_length errbuf). split_and!; [done| | |].
  - assert (Eo : partial_text errbuf = object [(bs "reasoning_step_failed", 34 :: flat_map json_piece errbuf ++ [34])]).
    { unfold partial_text, object, member. cbn [joined comma fst snd]. rewrite app_nil_r. unfold js. generalize (flat_map json_piece errbuf). intros p.
      eval_bytes. cbn [app]. rewrite <- ?app_assoc. reflexivity. }
    rewrite Eo. apply doc_value, object_value; [done|]. apply Forall_cons; split; [|constructor]. split; [reflexivity|]. by apply V_str, pieces_jstr.
  - unfold partial_text, len. rewrite !length_app. change (length (js "{'reasoning_step_failed':'")) with 26%nat. change (length (js "'}")) with 2%nat.
    unfold len in H2. lia.
  - assert (Et : partial_text errbuf = 123 :: members_text true [(bs "reasoning_step_failed", errbuf)] ++ [125]).
    { unfold partial_text. cbn [members_text]. unfold member_text, json_lit.
      assert (El : flat_map json_piece (bs "reasoning_step_failed") = bs "reasoning_step_failed") by (vm_compute; reflexivity). rewrite El.
      generalize (flat_map json_piece errbuf). intros p. unfold js. eval_bytes. cbn [map app Z.eqb Pos.eqb]. rewrite <- ?app_assoc. reflexivity. }
    rewrite Et. unfold json_object. change (123 =? 123) with true. cbn iota.
    assert (Hq : forall l, bytes_eqb (34 :: l) [125] = false) by (intros l; apply bool_decide_eq_false; discriminate).
    change (members_text true [(bs "reasoning_step_failed", errbuf)] ++ [125]) with (34 :: tail (members_text true [(bs "reasoning_step_failed", errbuf)] ++ [125])) at 1.
    rewrite Hq.
    apply json_members_text; [|done|by repeat constructor]. cbn [length]. rewrite length_app. cbn [length]. lia.
Qed.
Lemma partial_document_witness : json_object (partial_text (bs "rc=" ++ [34; 10; 255])) = Some [(bs "reasoning_step_failed", bs "rc=" ++ [34; 10; 255])].
Proof.
  destruct (partial_document (fun _ => true) 0 (bs "rc=" ++ [34; 10; 255]) (fun _ => eq_refl) (or_introl eq_refl)) as (c & _ & _ & _ & H).
  - by vm_compute; repeat constructor.
  - discriminate.
  - vm_compute; lia.
  - exact H.
Defined.

(** ** The reload *)

Lemma dup_or_same ok s r : dup_or ok s = Some r -> r = s.
Proof. destruct s, ok; cbn; congruence. Qed.
Lemma dup_cfg_same dup c d : dup_cfg dup c = Some d -> d = c.
Proof.
  unfold dup_cfg. intros H. repeat (apply bind_Some in H as (? & ->%dup_or_same & H)). injection H as <-. by destruct c.
Qed.
Lemma dup_t2s_same dup c d : (length (allowed_statements c) <= 23)%nat -> dup_t2s_cfg dup c = Some d -> d = c.
Proof.
  unfold dup_t2s_cfg. intros Hl H. repeat (apply bind_Some in H as (? & ->%dup_or_same & H)). injection H as <-.
  rewrite take_ge by lia. by destruct c.
Qed.

Lemma snapshot_allowed dup ev c : t2s_snapshot dup ev = Some c -> (length (allowed_statements c) <= 23)%nat.
Proof.
  unfold t2s_snapshot. intros H. repeat (apply bind_Some in H as (? & _ & H)). apply (inj Some) in H as <-. cbn [allowed_statements].
  unfold env_allowed. destruct (ev !! _) as [v|]; [destruct (bytes_eqb v _)|]; vm_compute; lia.
Qed.
Definition fallback_ok (s : t2s) : Prop := (length (allowed_statements (t_env_fb s)) <= 23)%nat.
Lemma capture_fallback dup ev s : fallback_ok s -> fallback_ok (fst (capture_t2s_env_fb dup ev s)).
Proof.
  unfold fallback_ok, capture_t2s_env_fb. intros H. destruct (t_env_captured s); [done|]. destruct (t2s_snapshot dup ev) as [c|] eqn:E; [|cbn; lia].
  by eapply snapshot_allowed.
Qed.

(** The two reasoning consumers of the daemon's reload, and the enterprise
    tier's. *)
Section Reload.
Context (dup : nat -> bool).
#[local] Instance reasoning_consumers : Consumers (bridge * ent) := {
  cognition_check c w := fractalsql_cognition_check_provider c;
  textsql_check c w := fractalsql_textsql_check_provider c;
  enterprise_check c w := fst (fractalsql_enterprise_check_provider (fun n => b_env (fst w) !! n) dup c (snd w));
  cognition_apply c w := let '(b, ok) := apply_cognition dup c (fst w) in ((b, snd w), ok);
  textsql_apply c w := let '(b, ok) := apply_textsql dup c (fst w) in ((b, snd w), ok);
  enterprise_apply c w := let '(ok, s) := fractalsql_enterprise_apply_provider (fun n => b_env (fst w) !! n) dup c (snd w) in ((fst w, s), ok)
}.
(** What every tier holds after a reload that was applied. *)
Record reloaded (c : fsq_config) (b b' : bridge) : Prop := {
  rl_cog : g_cfg (b_cog b') = wanted c (g_env_fb (b_cog b')) /\ g_env_captured (b_cog b') = true;
  rl_cog_fb : g_env_captured (b_cog b) = true -> g_env_fb (b_cog b') = g_env_fb (b_cog b);
  rl_t2s : t_cfg (b_t2s b') = t2s_wanted c (t_env_fb (b_t2s b')) /\ t_env_captured (b_t2s b') = true;
  rl_t2s_fb : t_env_captured (b_t2s b) = true -> t_env_fb (b_t2s b') = t_env_fb (b_t2s b);
  rl_loads : forall t, g_tier_loaded (l_tiers (b_loads b')) t = false /\ l_fp (b_loads b') t = None;
  rl_rest : b_env b' = b_env b /\ b_overlay b' = b_overlay b /\ b_inst b' = b_inst b
}.
Lemma apply_cognition_spec c b b' ok : apply_cognition dup c b = (b', ok) ->
  b_t2s b' = b_t2s b /\ b_env b' = b_env b /\ b_overlay b' = b_overlay b /\ b_inst b' = b_inst b /\
  (g_env_captured (b_cog b) = true -> g_env_fb (b_cog b') = g_env_fb (b_cog b)) /\
  if ok then (g_cfg (b_cog b') = wanted c (g_env_fb (b_cog b')) /\ g_env_captured (b_cog b') = true) /\ b_loads b' = forget FSQL_TIER_EMBED (forget FSQL_TIER_REASON (b_loads b))
  else g_cfg (b_cog b') = g_cfg (b_cog b) /\ b_loads b' = b_loads b.
Proof.
  unfold apply_cognition, fractalsql_cognition_apply_provider. destruct (capture_env_fb dup (b_env b) (b_cog b)) as [s ok1] eqn:Ec.
  pose proof (capture_keeps dup (b_env b) (b_cog b)) as (H1 & _ & _). rewrite Ec in H1. cbn [fst] in H1.
  assert (H2 : g_env_captured (b_cog b) = true -> g_env_fb s = g_env_fb (b_cog b)).
  { intros H. unfold capture_env_fb in Ec. rewrite H in Ec. by injection Ec as <- _. }
  assert (H3 : ok1 = true -> g_env_captured s = true).
  { unfold capture_env_fb in Ec. destruct (g_env_captured (b_cog b)) eqn:E; [by injection Ec as <- <-|]. by destruct (env_snapshot _ _); injection Ec as <- <-. }
  destruct ok1; cbn [negb]; [|intros H; pair_inv H; by split_and!]. destruct (dup_cfg _ _) as [n|] eqn:En; [|intros H; pair_inv H; by split_and!].
  apply dup_cfg_same in En as ->. intros H. pair_inv H. split_and!; first [done|by apply H3].
Qed.
Lemma apply_textsql_spec c b b' ok : fallback_ok (b_t2s b) -> apply_textsql dup c b = (b', ok) ->
  b_cog b' = b_cog b /\ b_env b' = b_env b /\ b_overlay b' = b_overlay b /\ b_inst b' = b_inst b /\
  (t_env_captured (b_t2s b) = true -> t_env_fb (b_t2s b') = t_env_fb (b_t2s b)) /\
  if ok then (t_cfg (b_t2s b') = t2s_wanted c (t_env_fb (b_t2s b')) /\ t_env_captured (b_t2s b') = true) /\ b_loads b' = forget FSQL_TIER_REVIEW (forget FSQL_TIER_T2S (b_loads b))
  else t_cfg (b_t2s b') = t_cfg (b_t2s b) /\ b_loads b' = b_loads b.
Proof.
  intros Hf. unfold apply_textsql, fractalsql_textsql_apply_provider. destruct (capture_t2s_env_fb dup (b_env b) (b_t2s b)) as [s ok1] eqn:Ec.
  pose proof (capture_t2s_keeps dup (b_env b) (b_t2s b)) as (H1 & _ & _). pose proof (capture_fallback dup (b_env b) (b_t2s b) Hf) as Hs. rewrite Ec in H1, Hs. cbn [fst] in H1, Hs.
  assert (H2 : t_env_captured (b_t2s b) = true -> t_env_fb s = t_env_fb (b_t2s b)).
  { intros H. unfold capture_t2s_env_fb in Ec. rewrite H in Ec. by injection Ec as <- _. }
  assert (H3 : ok1 = true -> t_env_captured s = true).
  { unfold capture_t2s_env_fb in Ec. destruct (t_env_captured (b_t2s b)) eqn:E; [by injection Ec as <- <-|]. by destruct (t2s_snapshot _ _); injection Ec as <- <-. }
  destruct ok1; cbn [negb]; [|intros H; pair_inv H; by split_and!]. destruct (dup_t2s_cfg _ _) as [n|] eqn:En; [|intros H; pair_inv H; by split_and!].
  apply dup_t2s_same in En as ->.
  - intros H. pair_inv H. split_and!; first [done|by apply H3].
  - cbn [t2s_wanted allowed_statements]. destruct (has_bit _ _); [rewrite length_take; lia|done].
Qed.

(** A reload takes effect in every tier: when the daemon has applied a
    configuration, the chat, embed, generate and review tiers hold its values
    for the keys it has and the boot environment's for the ones it has not
    (so a key removed from the file reverts), no tier is marked loaded and
    every fingerprint is gone, so that the next call loads again; the
    environment, the overrides and the instances in use are untouched. *)
Theorem reload_takes_effect c b e b' e' : fallback_ok (b_t2s b) ->
  daemon_apply_provider c (b, e) = ((b', e'), true) -> reloaded c b b'.
Proof.
  intros Hf. unfold daemon_apply_provider. cbn [cognition_apply textsql_apply enterprise_apply reasoning_consumers fst snd].
  destruct (apply_cognition dup c b) as [b1 ok1] eqn:E1. destruct ok1; cbn [negb]; [|done]. apply apply_cognition_spec in E1 as (A1 & A2 & A3 & A4 & A5 & A6 & A7).
  cbn [fst snd]. destruct (apply_textsql dup c b1) as [b2 ok2] eqn:E2. destruct ok2; cbn [negb]; [|done]. apply apply_textsql_spec in E2 as (B1 & B2 & B3 & B4 & B5 & B6 & B7); [|by rewrite A1].
  cbn [fst snd]. destruct (fractalsql_enterprise_apply_provider _ dup c e) as [ok3 s3]. intros H. apply pair_equal_spec in H as [H _].
  apply pair_equal_spec in H as [<- _]. rewrite A1 in B5. split; [by rewrite B1|by rewrite B1|done|done| |rewrite B2, B3, B4; by split_and!].
  intros t. rewrite B7, A7. by destruct t.
Qed.
End Reload.
Definition demo_conf : fsq_config := with_str (bs "reasoning_model") (bs "m2") (prov_bit 3) config0.
Lemma reload_takes_effect_witness : let r := @daemon_apply_provider _ (reasoning_consumers (fun _ => true)) demo_conf (demo_ready, ent0) in
  snd r = true /\ http_model (g_cfg (b_cog (fst (fst r)))) = Some (bs "m2") /\ http_think (g_cfg (b_cog (fst (fst r)))) = Some (bs "high").
Proof.
  cbv zeta. assert (E : snd (@daemon_apply_provider _ (reasoning_consumers (fun _ => true)) demo_conf (demo_ready, ent0)) = true) by (vm_compute; reflexivity).
  destruct (@daemon_apply_provider _ (reasoning_consumers (fun _ => true)) demo_conf (demo_ready, ent0)) as [[b' e'] ok] eqn:Er. cbn [fst snd] in *. subst ok.
  assert (Hf : fallback_ok (b_t2s demo_ready)) by (vm_compute; lia).
  pose proof (reload_takes_effect (fun _ => true) demo_conf demo_ready ent0 b' e' Hf Er) as H.
  pose proof (rl_cog _ _ _ H) as [H1 _]. assert (Hc : g_env_captured (b_cog demo_ready) = true) by (vm_compute; reflexivity).
  rewrite (rl_cog_fb _ _ _ H Hc) in H1. rewrite H1. split_and!; vm_compute; reflexivity.
Defined.

(** ** Whole calls *)

Section Calls.
Context (EVP : list Z -> list Z -> list Z -> bool) (load : option (list Z) -> environ -> option inst -> Z * option inst).
Context (dispatch : option inst -> list Z -> list Z -> ai_response).

(** A loaded embed tier has its endpoint. *)
Definition embed_ready (b : bridge) : Prop :=
  (g_tier_loaded (l_tiers (b_loads b)) FSQL_TIER_EMBED = true -> http_embed_url (g_cfg (b_cog b)) <> None) /\
  (g_cfg_initialized (b_cog b) = false -> g_cfg (b_cog b) = cfg0).
Lemma ready_same b b' : embed_ready b -> b_cog b' = b_cog b ->
  g_tier_loaded (l_tiers (b_loads b')) FSQL_TIER_EMBED = g_tier_loaded (l_tiers (b_loads b)) FSQL_TIER_EMBED -> embed_ready b'.
Proof. unfold embed_ready. intros H -> ->. done. Qed.
Lemma acquire_ready t x b : embed_ready b -> embed_ready (fst (acquire t x b)).
Proof.
  intros H. apply (ready_same b); [done|unfold acquire; by destruct (tier_acquire _ _ _)|].
  unfold acquire, tier_acquire. destruct (g_tier_ctx _ t); [done|]. by destruct (new_sovereign _).
Qed.
Lemma ensure_cog_ready x b : embed_ready b -> embed_ready (fst (ensure_cog x b)).
Proof.
  intros [H1 H2]. unfold ensure_cog. pose proof (ensure_config_cases (r_dup x) (b_env b) (b_cog b)) as H. cbv zeta in H.
  destruct (ensure_env_config (r_dup x) (b_env b) (b_cog b)) as [s ok]. cbn [fst] in *. unfold embed_ready. cbn. destruct H as [[E1 E2]|[E1 E2]].
  - by rewrite E1, E2.
  - split; [|done]. intros Hl. specialize (H1 Hl). rewrite (H2 E1) in H1. by destruct H1.
Qed.
Lemma ensure_t2s_ready x b : embed_ready b -> embed_ready (fst (ensure_t2s x b)).
Proof. intros H. apply (ready_same b); unfold ensure_t2s; [done|by destruct (ensure_t2s_config _ _ _)..]. Qed.
Lemma mark_ready t b : embed_ready b -> t <> FSQL_TIER_EMBED -> embed_ready (mark_loaded t b).
Proof. intros H Ht. apply (ready_same b); [done|done|]. cbn. unfold upd_tier. by rewrite decide_False by congruence. Qed.
Lemma reload_ready t p x k sid mask ev b : embed_ready b -> embed_ready (fst (reload EVP load t p x k (with_overrides sid mask ev b))).
Proof.
  intros H. destruct (reload EVP load t p x k (with_overrides sid mask ev b)) as [b' r] eqn:E. apply reload_frame in E as (E1 & _ & _ & _ & _ & E2 & _).
  destruct (with_overrides_frame sid mask ev b) as (F1 & _ & F2 & _). apply (ready_same b); [done|cbn; by rewrite E1, F1|cbn; by rewrite E2, F2].
Qed.
Lemma reason_ready x k sid b : embed_ready b -> embed_ready (fst (reason_env_and_reload EVP load x k sid b)).
Proof.
  intros H. unfold reason_env_and_reload, publish_reason. cbv zeta. pose proof (fun t p mask ev => reload_ready t p x k sid mask ev b H) as R.
  match goal with |- context [reload EVP load ?t ?p x k (with_overrides sid ?m ?ev b)] => specialize (R t p m ev); destruct (reload EVP load t p x k (with_overrides sid m ev b)) end.
  done.
Qed.
Lemma generate_ready x k tag sid b : embed_ready b -> embed_ready (fst (generate_env_and_reload EVP load x k tag sid b)).
Proof.
  intros H. unfold generate_env_and_reload, publish_generate. cbv zeta. pose proof (fun t p mask ev => reload_ready t p x k sid mask ev b H) as R.
  match goal with |- context [reload EVP load ?t ?p x k (with_overrides sid ?m ?ev b)] => specialize (R t p m ev); destruct (reload EVP load t p x k (with_overrides sid m ev b)) end.
  done.
Qed.
Lemma review_ready x k sid b : embed_ready b -> embed_ready (fst (review_env_and_reload EVP load x k sid b)).
Proof.
  intros H. unfold review_env_and_reload, publish_review. cbv zeta. pose proof (fun t p mask ev => reload_ready t p x k sid mask ev b H) as R.
  match goal with |- context [reload EVP load ?t ?p x k (with_overrides sid ?m ?ev b)] => specialize (R t p m ev); destruct (reload EVP load t p x k (with_overrides sid m ev b)) end.
  done.
Qed.
(** With its endpoint the bracket opens or fails, and keeps the invariant. *)
Lemma open_ready x k sid b : embed_ready b -> http_embed_url (g_cfg (b_cog b)) <> None -> exists b' saved ok,
  embed_env_open EVP load x k sid b = Some (b', saved, ok) /\ embed_ready (close_bracket saved b') /\ b_cog (close_bracket saved b') = b_cog b.
Proof.
  intros H Hu. unfold embed_env_open. destruct (embed_env_save _ _) as [saved ok]. destruct ok; cbn [negb]; [|by exists b, saved, false].
  unfold apply_embed_env_locked. destruct (http_embed_url (g_cfg (b_cog b))) as [url|] eqn:Eu; [|done]. cbn [mbind option_bind]. cbv zeta.
  pose proof (fun t p mask ev => reload_ready t p x k sid mask ev b H) as R.
  match goal with |- context [reload EVP load ?t ?p x k (with_overrides sid ?m ?ev b)] =>
    specialize (R t p m ev); destruct (reload EVP load t p x k (with_overrides sid m ev b)) as [b1 r] eqn:E;
    apply reload_frame in E as (E1 & _); rewrite (proj1 (with_overrides_frame sid m ev b)) in E1 end.
  by eexists _, saved, _.
Qed.

Lemma ensure_embed_ready x sid loaded b : embed_ready b -> (loaded = true -> http_embed_url (g_cfg (b_cog b)) <> None) -> exists b' ok,
  ensure_embed_loaded EVP load x sid loaded b = Some (b', ok) /\ embed_ready b' /\ (ok = true -> http_embed_url (g_cfg (b_cog b')) <> None).
Proof.
  intros H Hl. unfold ensure_embed_loaded. destruct loaded; [exists b, true; split_and!; [done|done|by auto]|].
  pose proof (ensure_cog_ready x b H) as H1. destruct (ensure_cog x b) as [b1 ok1]. cbn [fst] in H1.
  destruct (negb ok1); [by exists b1, false|]. destruct (is_none (reasoning_plugin _)); [by exists b1, false|].
  destruct (http_embed_url (g_cfg (b_cog b1))) as [url|] eqn:Eu; cbn [is_none]; [|by exists b1, false].
  destruct (open_ready x 0%nat sid b1 H1) as (b2 & saved & ok2 & E & H2 & H3); [congruence|]. rewrite E. cbn [mbind option_bind].
  destruct (negb ok2); [by exists (close_bracket saved b2), false|]. exists (mark_loaded FSQL_TIER_EMBED (close_bracket saved b2)), true. split; [done|].
  assert (Hu : http_embed_url (g_cfg (b_cog (close_bracket saved b2))) <> None) by (rewrite H3, Eu; discriminate).
  split; [|done]. split; [done|]. apply H2.
Qed.
Lemma embed_call x sid input cap b : embed_ready b -> exists r b', fractal_embed EVP load dispatch x sid input cap b = Some (r, b') /\ embed_ready b'.
Proof.
  intros H. unfold fractal_embed. destruct sid as [sid|]; [|by eexists _, b]. destruct input as [input|]; [|by eexists _, b].
  destruct (_ <? _); [by eexists _, b|]. pose proof (acquire_ready FSQL_TIER_EMBED x b H) as H1.
  assert (Hl : snd (acquire FSQL_TIER_EMBED x b) = Some true -> http_embed_url (g_cfg (b_cog (fst (acquire FSQL_TIER_EMBED x b)))) <> None).
  { intros E. apply H1. unfold acquire, tier_acquire in *. destruct (g_tier_ctx _ _); [by injection E|]. destruct (new_sovereign _); [by injection E|done]. }
  destruct (acquire FSQL_TIER_EMBED x b) as [b1 o]. cbn [fst snd] in *. destruct o as [loaded|]; [|by eexists _, b1].
  destruct (ensure_embed_ready x (u64 sid) loaded b1 H1) as (b2 & ok & E & H2 & Hu); [intros ->; by apply Hl|]. rewrite E. cbn [mbind option_bind].
  destruct ok; cbn [negb]; [|by eexists _, b2]. unfold embed_dispatch. destruct (open_ready x 1%nat (u64 sid) b2 H2 (Hu eq_refl)) as (b3 & saved & ok3 & E3 & H3 & _).
  rewrite E3. cbn [mbind option_bind]. destruct (negb ok3); [by eexists _, _|]. cbn [mbind option_bind].
  destruct (judge _ _ _); by eexists _, _.
Qed.
Lemma reason_call x sid q c cap b : embed_ready b -> embed_ready (snd (fractal_reason EVP load dispatch x sid q c cap b)).
Proof.
  intros H. unfold fractal_reason. destruct sid as [sid|]; [|done]. destruct q as [q|]; [|done]. destruct (_ <? _); [done|].
  destruct (match c with Some _ => _ | None => _ end); [done|]. pose proof (acquire_ready FSQL_TIER_REASON x b H) as H1.
  destruct (acquire FSQL_TIER_REASON x b) as [b1 o]. cbn [fst] in H1. destruct o as [loaded|]; [|done].
  assert (H2 : embed_ready (fst (ensure_reason_loaded EVP load x (u64 sid) loaded b1))).
  { unfold ensure_reason_loaded. destruct loaded; [done|]. pose proof (ensure_cog_ready x b1 H1) as H2. destruct (ensure_cog x b1) as [b2 ok]. cbn [fst] in H2.
    destruct (negb ok); [done|]. destruct (is_none _); [done|]. pose proof (reason_ready x 0%nat (u64 sid) b2 H2) as H3.
    destruct (reason_env_and_reload EVP load x 0%nat (u64 sid) b2) as [b3 [e|]]; [done|]. by apply mark_ready. }
  destruct (ensure_reason_loaded EVP load x (u64 sid) loaded b1) as [b2 [ok e]]. cbn [fst] in H2. destruct ok; [|by destruct e].
  pose proof (reason_ready x 1%nat (u64 sid) b2 H2) as H3. destruct (reason_env_and_reload EVP load x 1%nat (u64 sid) b2) as [b3 [e'|]]; [done|].
  by destruct (judge _ _ _).
Qed.
Lemma generate_call x sid q c t cap b : embed_ready b -> embed_ready (snd (fractal_t2s_generate EVP load dispatch x sid q c t cap b)).
Proof.
  intros H. unfold fractal_t2s_generate. destruct sid as [sid|]; [|done]. destruct q as [q|]; [|done]. destruct (_ <? _); [done|].
  destruct (match c with Some _ => _ | None => _ end); [done|]. destruct (tag_of t) as [[]|tag]; [done|]. pose proof (acquire_ready FSQL_TIER_T2S x b H) as H1.
  destruct (acquire FSQL_TIER_T2S x b) as [b1 o]. cbn [fst] in H1. destruct o as [loaded|]; [|done].
  assert (H2 : embed_ready (fst (ensure_generate_loaded EVP load x (u64 sid) loaded tag b1))).
  { unfold ensure_generate_loaded. destruct loaded; [done|]. pose proof (ensure_t2s_ready x b1 H1) as H2. destruct (ensure_t2s x b1) as [b2 ok]. cbn [fst] in H2.
    destruct (negb ok); [done|]. destruct (is_none _); [done|]. pose proof (generate_ready x 0%nat tag (u64 sid) b2 H2) as H3.
    destruct (generate_env_and_reload EVP load x 0%nat tag (u64 sid) b2) as [b3 []]; [|done]. by apply mark_ready. }
  destruct (ensure_generate_loaded EVP load x (u64 sid) loaded tag b1) as [b2 ok]. cbn [fst] in H2. destruct (negb ok); [done|].
  pose proof (generate_ready x 1%nat tag (u64 sid) b2 H2) as H3. destruct (generate_env_and_reload EVP load x 1%nat tag (u64 sid) b2) as [b3 ok3]. cbn [fst] in H3.
  destruct (negb ok3); [done|]. by destruct (judge _ _ _).
Qed.
Lemma review_call x sid q s cap b : embed_ready b -> embed_ready (snd (fractal_t2s_review EVP load dispatch x sid q s cap b)).
Proof.
  intros H. unfold fractal_t2s_review. destruct sid as [sid|]; [|done]. destruct q as [q|]; [|done]. destruct s as [s|]; [|done]. destruct (_ || _); [done|].
  pose proof (acquire_ready FSQL_TIER_REVIEW x b H) as H1. destruct (acquire FSQL_TIER_REVIEW x b) as [b1 o]. cbn [fst] in H1. destruct o as [loaded|]; [|done].
  assert (H2 : embed_ready (fst (ensure_review_loaded EVP load x (u64 sid) loaded b1))).
  { unfold ensure_review_loaded. destruct loaded; [done|]. pose proof (ensure_t2s_ready x b1 H1) as H2. destruct (ensure_t2s x b1) as [b2 ok]. cbn [fst] in H2.
    destruct (negb ok); [done|]. destruct (is_none _); [done|]. pose proof (review_ready x 0%nat (u64 sid) b2 H2) as H3.
    destruct (review_env_and_reload EVP load x 0%nat (u64 sid) b2) as [b3 []]; [|done]. by apply mark_ready. }
  destruct (ensure_review_loaded EVP load x (u64 sid) loaded b1) as [b2 ok]. cbn [fst] in H2. destruct (negb ok); [done|].
  destruct (t2s_review_build_prompt _ _ _) as [p|]; [|done].
  pose proof (review_ready x 1%nat (u64 sid) b2 H2) as H3. destruct (review_env_and_reload EVP load x 1%nat (u64 sid) b2) as [b3 ok3]. cbn [fst] in H3.
  destruct (negb ok3); [done|]. destruct (judge _ _ _); [done|]. by destruct (review_passed _).
Qed.

(** Calls and reloads one after the other. *)
Inductive call_step : bridge -> bridge -> Prop :=
  | cs_reason x sid q c cap b : call_step b (snd (fractal_reason EVP load dispatch x sid q c cap b))
  | cs_embed x sid q cap b r b' : fractal_embed EVP load dispatch x sid q cap b = Some (r, b') -> call_step b b'
  | cs_generate x sid q c t cap b : call_step b (snd (fractal_t2s_generate EVP load dispatch x sid q c t cap b))
  | cs_review x sid q s cap b : call_step b (snd (fractal_t2s_review EVP load dispatch x sid q s cap b))
  | cs_cognition dup c b : call_step b (fst (apply_cognition dup c b))
  | cs_textsql dup c b : call_step b (fst (apply_textsql dup c b))
  | cs_overlay o ev b : overlay_wf o -> call_step b (set_env o ev b).
Lemma apply_cognition_ready dup c b : embed_ready b -> embed_ready (fst (apply_cognition dup c b)).
Proof.
  intros [H1 H2]. unfold apply_cognition, fractalsql_cognition_apply_provider. destruct (capture_keeps dup (b_env b) (b_cog b)) as (E1 & E2 & _).
  destruct (capture_env_fb dup (b_env b) (b_cog b)) as [s ok]. cbn [fst] in E1, E2. unfold embed_ready.
  destruct ok; cbn [negb]; [|cbn; by rewrite E1, E2]. destruct (dup_cfg _ _) as [n|]; [|cbn; by rewrite E1, E2]. by split.
Qed.
Lemma apply_textsql_ready dup c b : embed_ready b -> embed_ready (fst (apply_textsql dup c b)).
Proof.
  intros H. unfold apply_textsql, fractalsql_textsql_apply_provider. destruct (capture_t2s_env_fb dup (b_env b) (b_t2s b)) as [s ok].
  destruct ok; cbn [negb]; [|done]. by destruct (dup_t2s_cfg _ _).
Qed.
Lemma calls_ready b b' : rtc call_step b b' -> embed_ready b -> embed_ready b'.
Proof.
  intros H. induction H as [|b1 b2 b3 H _ IH]; [done|]. intros Hb. apply IH. destruct H.
  - by apply reason_call.
  - destruct (embed_call x sid q cap b Hb) as (r' & b2 & E & H2). congruence.
  - by apply generate_call.
  - by apply review_call.
  - by apply apply_cognition_ready.
  - by apply apply_textsql_ready.
  - done.
Qed.
End Calls.

(** After any sequence of whole calls, reloads and overlay changes the
    embed function runs to an answer: it never hands [setenv] an endpoint that
    is not there, because a tier marked loaded has one. *)
Theorem embed_always_answers EVP load dispatch ev b x sid input cap : rtc (call_step EVP load dispatch) (bridge0 ev) b ->
  exists r b', fractal_embed EVP load dispatch x sid input cap b = Some (r, b').
Proof.
  intros H. destruct (embed_call EVP load dispatch x sid input cap b) as (r & b' & E & _); [|by exists r, b'].
  apply (calls_ready EVP load dispatch _ _ H). by split.
Qed.
Lemma embed_always_answers_witness : exists r b',
  fractal_embed no_evp demo_load demo_ai demo_rio (Some 5) (Some (bs "x")) 0 (fst (apply_cognition (fun _ => true) conf_plugin_only (bridge0 no_embed_ev))) = Some (r, b').
Proof.
  apply (embed_always_answers no_evp demo_load demo_ai no_embed_ev _ demo_rio (Some 5) (Some (bs "x")) 0).
  eapply rtc_l; [apply (cs_cognition no_evp demo_load demo_ai (fun _ => true) conf_plugin_only)|apply rtc_refl].
Defined.
