(* ===== verification/T2sProofs.v ===== *)
(** * The text-to-SQL settings: proofs

    The attempt count and the statement mode stay in their ranges, from the
    environment, a reload or a session's override, and fractal_t2s_config
    reports them as a JSON document. *)

From stdpp Require Import gmap.
From S2P Require Import Prelude LedgerFmt AuditJson JsonText Config DaemonConf Session Daemon JsonOut TextSql Search Enterprise AnalyticsProofs Cognition T2s CognitionProofs.

(** ** The ranges *)

Definition modes : list (list Z) := [bs "select"; bs "select_insert_update"].
Definition ranged (c : t2s_config) : Prop := 1 <= max_attempts c <= 10 /\ In (allowed_statements c) modes.
Record t2s_wf (s : t2s) : Prop := {
  tw_fb : t_env_captured s = true -> ranged (t_env_fb s);
  tw_cfg : t_cfg_initialized s = true -> ranged (t_cfg s);
  tw_applied : t_provider_applied s = true -> t_cfg_initialized s = true
}.
Lemma t2s0_wf : t2s_wf t2s0.
Proof. by split. Qed.
Lemma snapshot_ranged dup ev c : t2s_snapshot dup ev = Some c -> ranged c.
Proof.
  unfold t2s_snapshot. intros H. repeat (apply bind_Some in H as (? & _ & H)). apply (inj Some) in H as <-. split; cbn [max_attempts allowed_statements].
  - unfold env_attempts. destruct (ev !! _) as [[|c r]|]; [lia| |lia]. destruct (_ && _) eqn:E; [apply andb_true_iff in E|]; lia.
  - unfold env_allowed, modes. destruct (ev !! _) as [v|]; [|by left]. destruct (bytes_eqb v _); [by right; left|by left].
Qed.
Lemma mode_short v : In v modes -> (length v <= 20)%nat.
Proof. intros [<-|[<-|[]]]; vm_compute; lia. Qed.
Lemma dup_ranged dup c d : ranged c -> dup_t2s_cfg dup c = Some d -> d = c.
Proof. intros [_ H%mode_short]. apply dup_t2s_same. lia. Qed.
Lemma capture_wf dup ev s : t2s_wf s -> t2s_wf (fst (capture_t2s_env_fb dup ev s)).
Proof.
  intros Hw. unfold capture_t2s_env_fb. destruct (t_env_captured s) eqn:E; [done|]. destruct Hw as [H1 H2 H3].
  destruct (t2s_snapshot dup ev) eqn:Es; split; try done. intros _. by eapply snapshot_ranged.
Qed.
Lemma capture_done dup ev s s' : capture_t2s_env_fb dup ev s = (s', true) -> t_env_captured s' = true.
Proof. unfold capture_t2s_env_fb. destruct (t_env_captured s) eqn:E; [by intros [= <-]|]. destruct (t2s_snapshot dup ev); [by intros [= <-]|done]. Qed.
Lemma ensure_t2s_wf dup ev s : t2s_wf s -> t2s_wf (fst (ensure_t2s_config dup ev s)).
Proof.
  intros Hw. unfold ensure_t2s_config. pose proof (capture_wf dup ev s Hw) as H. destruct (capture_t2s_env_fb dup ev s) as [s1 ok] eqn:E. cbn [fst] in H.
  destruct ok; cbn [andb]; [|done]. apply capture_done in E. destruct (t_provider_applied s1) eqn:Ea; cbn [negb andb]; [done|].
  destruct (t_cfg_initialized s1) eqn:Ei; cbn [negb]; [done|]. destruct H as [H1 H2 H3]. destruct (dup_t2s_cfg _ _) as [c|] eqn:Ed.
  - apply dup_ranged in Ed as ->; [|by apply H1]. split; cbn; [done| |done]. intros _. by apply H1.
  - split; cbn; [done|congruence|congruence].
Qed.
(** A configuration the daemon has validated. *)
Lemma wanted_ranged c fb : validate_provider_cfg c = true -> ranged fb -> ranged (t2s_wanted c fb).
Proof.
  unfold validate_provider_cfg. intros Hv [Ha Hm]. destruct (existsb _ str_keys); [done|]. destruct (existsb _ path_keys); [done|].
  destruct (has_bit _ (prov_bit 10) && _); [done|]. destruct (has_bit _ (prov_bit 11) && _) eqn:E11; [done|].
  destruct (has_bit _ (prov_bit 12) && _ && _) eqn:E12; [done|]. split; cbn [t2s_wanted max_attempts allowed_statements].
  - destruct (has_bit (prov_present c) (prov_bit 11)); [|done]. cbn [andb] in E11. set (n := default 0 _) in *. rewrite s32_id by lia. lia.
  - destruct (has_bit (prov_present c) (prov_bit 12)); [|done]. cbn [andb] in E12. unfold modes.
    destruct (bytes_eqb (str_of c (bs "t2s_allowed_statements")) (bs "select")) eqn:E1; [apply bytes_eqb_true in E1 as ->; by left|].
    destruct (bytes_eqb (str_of c (bs "t2s_allowed_statements")) (bs "select_insert_update")) eqn:E2; [apply bytes_eqb_true in E2 as ->; by right; left|done].
Qed.
Lemma apply_t2s_wf dup ev c s l : validate_provider_cfg c = true -> t2s_wf s -> t2s_wf (fst (fst (fractalsql_textsql_apply_provider dup ev c (s, l)))).
Proof.
  intros Hv Hw. unfold fractalsql_textsql_apply_provider. pose proof (capture_wf dup ev s Hw) as H. destruct (capture_t2s_env_fb dup ev s) as [s1 ok] eqn:E. cbn [fst] in H.
  destruct ok; cbn [negb]; [|done]. apply capture_done in E. destruct (dup_t2s_cfg _ _) as [d|] eqn:Ed; [|done]. destruct H as [H1 H2 H3].
  pose proof (wanted_ranged c (t_env_fb s1) Hv (H1 E)) as Hr. apply dup_ranged in Ed as ->; [|done]. by split.
Qed.

(** ** Numbers read from a cut text *)

Lemma digits_val_cont a : forall acc c, digits_val acc (a ++ c) =
  match snd (digits_val acc a) with [] => digits_val (fst (digits_val acc a)) c | r => (fst (digits_val acc a), r ++ c) end.
Proof.
  induction a as [|d a IH]; intros acc c; [done|]. cbn [app digits_val]. destruct (isdigit d); [apply IH|done].
Qed.
Lemma digits_val_ge l : forall acc, 0 <= acc -> acc <= fst (digits_val acc l).
Proof.
  induction l as [|d l IH]; intros acc Ha; cbn [digits_val]; [cbn; lia|]. destruct (isdigit d) eqn:E; [|cbn; lia].
  unfold isdigit in E. specialize (IH (acc * 10 + (d - 48)) ltac:(lia)). lia.
Qed.
Lemma strip_space_app a c : match strip_space a with [] => True | r => strip_space (a ++ c) = r ++ c end.
Proof.
  induction a as [|d a IH]; [done|]. cbn [strip_space app]. destruct (isspace d); [exact IH|done].
Qed.
(** What follows the sign. *)
Definition signed (neg : bool) (t whole : list Z) : Z * list Z :=
  match t with
  | c :: _ => if isdigit c then let '(v, r) := digits_val 0 t in (clamp LONG_MIN LONG_MAX (if neg then - v else v), r) else (0, whole)
  | [] => (0, whole)
  end.
Lemma strtol_signed l : strtol l = signed (fst (sign_of (strip_space l))) (snd (sign_of (strip_space l))) l.
Proof. unfold strtol. by destruct (sign_of (strip_space l)). Qed.
Lemma signed_prefix neg t c w w' n m : w <> [] -> w' <> [] -> signed neg (t ++ c) w' = (n, []) -> 1 <= n < LONG_MAX -> signed neg t w = (m, []) -> m <= n.
Proof.
  intros Hw Hw' H Hn Hm. destruct t as [|d t]; [cbn in Hm; congruence|]. unfold signed in *. cbn [app] in H.
  destruct (isdigit d) eqn:Ed; [|congruence]. change (d :: t ++ c) with ((d :: t) ++ c) in H. rewrite digits_val_cont in H.
  destruct (digits_val 0 (d :: t)) as [v r] eqn:Ev. injection Hm as <- ->. cbn [fst snd] in H.
  pose proof (digits_val_ge (d :: t) 0 ltac:(lia)) as H0. rewrite Ev in H0. cbn [fst] in H0. pose proof (digits_val_ge c v H0) as H1.
  destruct (digits_val v c) as [u r']. cbn [fst] in H1. injection H as <- ->. unfold clamp, LONG_MIN, LONG_MAX in *. destruct neg; lia.
Qed.
(** A prefix of a positive number reads as no larger a number, or not at all. *)
Lemma parse_long_prefix a c n m : parse_long (a ++ c) = Some n -> 1 <= n < LONG_MAX -> parse_long a = Some m -> m <= n.
Proof.
  intros H Hn Hm. assert (Ha : a <> []) by (by intros ->). assert (Hac : a ++ c <> []) by (by destruct a).
  assert (Q : forall l k, l <> [] -> parse_long l = Some k -> strtol l = (k, [])).
  { intros [|x l] k Hl; [done|]. unfold parse_long. destruct (strtol (x :: l)) as [j [|y e]]; [by intros [= ->]|done]. }
  apply Q in H; [|done]. apply Q in Hm; [|done]. rewrite strtol_signed in H, Hm. pose proof (strip_space_app a c) as Hs.
  destruct (strip_space a) as [|x r]; [cbn in Hm; congruence|]. rewrite Hs in H. cbn [app sign_of] in H, Hm.
  destruct (x =? 45); [|destruct (x =? 43)]; cbn [fst snd] in H, Hm.
  - by apply (signed_prefix true r c a (a ++ c) n m).
  - by apply (signed_prefix false r c a (a ++ c) n m).
  - by apply (signed_prefix false (x :: r) c a (a ++ c) n m).
Qed.

(** ** What a call reports *)

Lemma attempts_ranged o sid d : overlay_wf o -> 1 <= d <= 10 -> 1 <= snd (session_attempts sid d o) <= 10 /\ overlay_wf (fst (session_attempts sid d o)).
Proof.
  intros Hw Hd. unfold session_attempts, fractal_config_lookup_long.
  destruct (fractal_config_lookup_str sid (bs "t2s_max_attempts") (Some 64) o) as [o1 r] eqn:E.
  destruct (lookup_str_spec _ _ _ _ _ _ Hw E) as (Hw1 & _ & _ & Hr). split; [|done]. cbn [snd].
  change (fractal_config_key_by_name (Some (bs "t2s_max_attempts"))) with (Some 11%nat) in Hr.
  unfold overlay_get in Hr. destruct (Config.find_entry o sid) as [i|] eqn:Ef; [|by subst r].
  apply Config.find_entry_some in Ef as (e & He & _). rewrite (entry_at_lookup _ _ _ He) in Hr.
  destruct (values e !! 11%nat) as [[v|]|] eqn:Ev; [|by subst r..]. change (0 <? 64) with true in Hr. change (Z.to_nat (64 - 1)) with 63%nat in Hr. subst r.
  apply (eo_val _ (ow_entry _ Hw i e He)) in Ev as (k & Hk & _ & Hne & Hv). injection Hk as <-. unfold validate_value in Hv. destruct v as [|x v]; [done|].
  cbn [k_type key k_min k_max] in Hv. destruct (parse_long (x :: v)) as [n|] eqn:En; [|done]. destruct ((n <? 1) || (10 <? n)) eqn:Er; [done|].
  destruct (parse_long (take 63 (x :: v))) as [m|] eqn:Em; [|done]. destruct (1 <=? m) eqn:E1; [|done].
  rewrite <- (take_drop 63 (x :: v)) in En. pose proof (parse_long_prefix _ _ n m En ltac:(unfold LONG_MAX; lia) Em). rewrite s32_id by lia. lia.
Qed.
Lemma dec_d_small n : 1 <= n <= 10 -> (length (dec_d n) <= 2)%nat.
Proof.
  intros H. assert (F : forallb (fun n => (length (dec_d (Z.of_nat n)) <=? 2)%nat) (seq 0 11) = true) by (vm_compute; reflexivity).
  rewrite forallb_forall in F. specialize (F (Z.to_nat n)). rewrite Z2Nat.id in F by lia. apply Nat.leb_le, F, in_seq. lia.
Qed.
Lemma config_object a v r : config_text a v r = object [(bs "max_attempts", dec_d a); (bs "allowed_statements", 34 :: v ++ [34]); (bs "use_review", bool_text r)].
Proof. unfold config_text. generalize (dec_d a) (bool_text r). as_object. Qed.
Lemma config_answer malloc cap a v r : (forall n, malloc n = true) -> out_cap cap -> 1 <= a <= 10 -> In v modes ->
  len (config_text a v r) < 256 /\ answered (out_or_error (str_out_set malloc cap (config_text a v r))).
Proof.
  intros Hm Hc Ha Hv. pose proof (dec_d_small a Ha) as Hd. pose proof (mode_short v Hv) as Hl.
  assert (H : len (config_text a v r) < 256).
  { unfold config_text, len. rewrite !length_app. change (length (js "{'max_attempts':")) with 16%nat. change (length (js ",'allowed_statements':'")) with 23%nat.
    change (length (js "','use_review':")) with 15%nat. change (length (js "}")) with 1%nat. assert (length (bool_text r) <= 5)%nat by (destruct r; cbn; lia). lia. }
  split; [done|]. unfold str_out_set. assert (Hp : 0 <= len (config_text a v r)) by (unfold len; lia).
  destruct (str_ensure_mem malloc cap (len (config_text a v r) + 1) Hm Hc ltac:(lia)) as (cap' & -> & H1 & H2 & _). cbn [negb]. unfold out_or_error. cbn [fst snd].
  exists (config_text a v r). cbn [fst snd]. split_and!; [done| |done|done]. rewrite config_object. apply (doc_mono 1); [lia|]. apply doc_value, object_value; [done|].
  apply Forall_cons; split; [split; [reflexivity|apply V_num, dec_d_num]|]. apply Forall_cons; split; [split; [reflexivity|apply V_str, plain_jstr]|].
  - destruct Hv as [<-|[<-|[]]]; reflexivity.
  - apply Forall_cons; split; [|constructor]. split; [reflexivity|]. destruct r; [apply (V_lit _ 116)|apply (V_lit _ 102)]; reflexivity.
Qed.
Lemma config_text_of malloc cap t : answered (out_or_error (str_out_set malloc cap t)) -> fst (out_or_error (str_out_set malloc cap t)) = UVal t.
Proof. unfold answered, str_out_set. destruct (str_out_ensure _ _ _) as [ok c]. destruct ok; [done|]. intros (x & [=] & _). Qed.
Lemma dup_or_ok s : dup_or true s = Some s.
Proof. by destruct s. Qed.
Lemma dup_env_ok ev n : exists v, dup_env_into true ev n = Some v.
Proof. unfold dup_env_into. destruct (ev !! n) as [[|c v]|]; by eexists. Qed.
Lemma dup_pref_ok ev n l : exists v, dup_env_pref_into true ev n l = Some v.
Proof. unfold dup_env_pref_into. destruct (ev !! n) as [[|c v]|]; [apply dup_env_ok|by eexists|apply dup_env_ok]. Qed.
Lemma ensure_done dup ev s : (forall k, dup k = true) -> t2s_wf s ->
  snd (ensure_t2s_config dup ev s) = true /\ t_cfg_initialized (fst (ensure_t2s_config dup ev s)) = true.
Proof.
  intros Hd Hw. unfold ensure_t2s_config. assert (Hc : snd (capture_t2s_env_fb dup ev s) = true).
  { unfold capture_t2s_env_fb. destruct (t_env_captured s); [done|]. assert (E : exists c, t2s_snapshot dup ev = Some c); [|by destruct E as [c ->]].
    unfold t2s_snapshot. rewrite !Hd.
    repeat match goal with
      | |- context [dup_env_into true ev ?n] => let v := fresh in let E := fresh in destruct (dup_env_ok ev n) as [v E]; rewrite E; clear E; cbn [mbind option_bind]
      | |- context [dup_env_pref_into true ev ?n ?l] => let v := fresh in let E := fresh in destruct (dup_pref_ok ev n l) as [v E]; rewrite E; clear E; cbn [mbind option_bind]
      end. by eexists. }
  pose proof (capture_wf dup ev s Hw) as H. destruct (capture_t2s_env_fb dup ev s) as [s1 ok]. cbn [fst snd] in Hc, H. subst ok. cbn [andb].
  destruct (t_provider_applied s1) eqn:Ea; cbn [negb andb fst snd]; [split; [done|by apply H]|].
  destruct (t_cfg_initialized s1) eqn:Ei; cbn [negb fst snd]; [done|]. unfold dup_t2s_cfg. rewrite !Hd, !dup_or_ok. done.
Qed.
(** The text-to-SQL configuration is always usable: with memory, whatever
    the environment, the reloads and the session's overrides, the function
    answers a JSON document, whole in its buffer, whose attempt count is
    between 1 and 10 and whose mode is one of the two; an override of the count
    is cut to 63 bytes before it is read, which can only lower it. *)
Theorem t2s_config_document malloc dup ev sid cap s o : (forall n, malloc n = true) -> (forall k, dup k = true) -> out_cap cap ->
  t2s_wf s -> overlay_wf o -> exists a v r,
  fst (fst (fractal_t2s_config malloc dup ev sid cap (s, o))) = UVal (config_text a v r) /\
  answered (fst (fractal_t2s_config malloc dup ev sid cap (s, o))) /\ 1 <= a <= 10 /\ In v modes.
Proof.
  intros Hm Hd Hc Hs Ho. unfold fractal_t2s_config. pose proof (ensure_t2s_wf dup ev s Hs) as Hw.
  assert (E : snd (ensure_t2s_config dup ev s) = true /\ t_cfg_initialized (fst (ensure_t2s_config dup ev s)) = true) by (by apply ensure_done).
  destruct (ensure_t2s_config dup ev s) as [s1 ok]. cbn [fst snd] in *. destruct E as [-> Ei]. cbn [negb].
  destruct (tw_cfg _ Hw Ei) as [Ha Hv]. rewrite take_ge by (apply mode_short in Hv; lia). destruct sid as [sid|].
  - destruct (attempts_ranged o (u64 sid) (max_attempts (t_cfg s1)) Ho Ha) as [Hr _]. destruct (session_attempts (u64 sid) (max_attempts (t_cfg s1)) o) as [o1 a].
    destruct (session_review (u64 sid) (use_review (t_cfg s1)) o1) as [o2 r]. cbn [snd] in Hr. exists a, (allowed_statements (t_cfg s1)), r.
    destruct (config_answer malloc cap a _ r Hm Hc Hr Hv) as [Hl Hans]. rewrite (proj2 (Z.leb_gt _ _)) by done. cbn [fst]. split; [|split; [exact Hans|by split]].
    by apply config_text_of.
  - exists (max_attempts (t_cfg s1)), (allowed_statements (t_cfg s1)), (use_review (t_cfg s1)).
    destruct (config_answer malloc cap _ _ (use_review (t_cfg s1)) Hm Hc Ha Hv) as [Hl Hans]. rewrite (proj2 (Z.leb_gt _ _)) by done. cbn [fst]. split; [|split; [exact Hans|by split]].
    by apply config_text_of.
Qed.
Lemma t2s_config_document_witness : exists a v r,
  fst (fst (fractal_t2s_config (fun _ => true) (fun _ => true) ∅ (Some 42) 0 (t2s0, demo_overlay))) = UVal (config_text a v r) /\ 1 <= a <= 10.
Proof.
  destruct (t2s_config_document (fun _ => true) (fun _ => true) ∅ (Some 42) 0 t2s0 demo_overlay (fun _ => eq_refl) (fun _ => eq_refl) (or_introl eq_refl) t2s0_wf demo_overlay_wf)
    as (a & v & r & H1 & _ & H2 & _). exists a, v, r. split; [exact H1|exact H2].
Defined.
