(* ===== verification/Ctl.v ===== *)
(** * The command-line client (service/cli/fsqlctl.c)

    Its own framing, its key file, the argument syntax and the commands.  The
    socket is the interface the shim uses too; the HMAC is OpenSSL's, a
    parameter.  Standard output is part of the state; the messages on standard
    error are not modelled.  [getopt] has run: a command line is its options
    and the words after them. *)

From Stdlib Require Import SpecFloat.
From S2P Require Import Prelude Float Wire Cache Shim.

Definition FSQC_HDR : nat := 32.
Definition FSQC_TAG : Z := 32.
Definition FSQC_MAX_PAYLOAD : Z := 80 * 1024 * 1024.
Definition FSQC_MAX_ARGS : Z := 64.
Definition FSQC_MAX_FN_NAME : Z := 63.
Definition FSQC_VERSION : Z := 2.
Definition FSQC_MAX_KEY : Z := 64.
Definition FSQC_KEY_TEXT : Z := 1024.

Definition OP_PING : Z := 1.
Definition OP_VERSION : Z := 2.
Definition OP_INIT : Z := 16.
Definition OP_CALL : Z := 17.
Definition OP_DEINIT : Z := 18.
Definition OP_CANCEL : Z := 19.
Definition OP_RELOAD : Z := 20.

Definition T_STRING : Z := 1.
Definition T_INT : Z := 2.
Definition T_REAL : Z := 3.

Definition EXIT_OK : Z := 0.
Definition EXIT_FAIL : Z := 1.
Definition EXIT_USAGE : Z := 2.
Definition EXIT_AUTH : Z := 3.
Definition EXIT_NOFN : Z := 4.

Definition DEFAULT_SOCKET : list Z := bs "/run/fractalsql/fractalsqld.sock".
Definition DEFAULT_KEY : list Z := bs "/etc/fractalsql/hmac.key".
(** The generated table. *)
Definition fsqlctl_fns : list (list Z) := map (fun f => fst (fst f)) functions_def.

(** ** Little-endian encoding *)

Definition put16 (v : Z) : list Z := [u8 v; u8 (Z.shiftr v 8)].
Definition put32 (v : Z) : list Z := map (fun i => u8 (Z.shiftr v (8 * Z.of_nat i))) (seq 0 4).
Definition put64 (v : Z) : list Z := map (fun i => u8 (Z.shiftr v (8 * Z.of_nat i))) (seq 0 8).
Definition get16 (p : list Z) : Z := u16 (Z.lor (at_ p 0) (Z.shiftl (at_ p 1) 8)).
Definition get32 (p : list Z) : Z :=
  Z.lor (Z.lor (Z.lor (at_ p 0) (Z.shiftl (at_ p 1) 8)) (Z.shiftl (at_ p 2) 16)) (Z.shiftl (at_ p 3) 24).
Definition get64 (p : list Z) : Z := fold_left (fun v i => Z.lor (u64 (Z.shiftl v 8)) (at_ p i)) [7;6;5;4;3;2;1;0]%nat 0.

(** The bits of a double, and back. *)
Definition double_bits (x : double) : Z :=
  match x with
  | S754_zero s => if s then 2 ^ 63 else 0
  | S754_infinity s => (if s then 2 ^ 63 else 0) + 2047 * 2 ^ 52
  | S754_nan => 2047 * 2 ^ 52 + 2 ^ 51
  | S754_finite s m e =>
      (if s then 2 ^ 63 else 0) + (if Zpos m <? 2 ^ 52 then Zpos m else (e + 1075) * 2 ^ 52 + (Zpos m - 2 ^ 52))
  end.
Definition bits_double (b : Z) : double :=
  let s := 2 ^ 63 <=? b in
  let ex := b / 2 ^ 52 mod 2048 in
  let fr := b mod 2 ^ 52 in
  if ex =? 2047 then if fr =? 0 then S754_infinity s else S754_nan
  else if ex =? 0 then match fr with Zpos m => S754_finite s m (-1074) | _ => S754_zero s end
  else match fr + 2 ^ 52 with Zpos m => S754_finite s m (ex - 1075) | _ => S754_zero s end.

(** ** Key file *)

Definition hex_val (c : Z) : Z :=
  if (48 <=? c) && (c <=? 57) then c - 48
  else if (97 <=? c) && (c <=? 102) then c - 97 + 10
  else if (65 <=? c) && (c <=? 70) then c - 65 + 10 else -1.
(** The characters that are not white space; [None] past the buffer. *)
Fixpoint key_text (l text : list Z) : option (list Z) :=
  match l with
  | [] => Some text
  | c :: l =>
      if (c =? 32) || (c =? 9) || (c =? 13) || (c =? 10) then key_text l text
      else if blen text =? FSQC_KEY_TEXT then None else key_text l (text ++ [c])
  end.
Fixpoint key_digits (hi : Z) (text key : list Z) : option (list Z) :=
  match text with
  | [] => Some key
  | c :: r =>
      let v := hex_val c in
      if v <? 0 then None else if hi <? 0 then key_digits v r key
      else key_digits (-1) r (key ++ [u8 (Z.lor (Z.shiftl hi 4) v)])
  end.
Definition load_key (content : option (list Z)) : option (list Z) :=
  match content with
  | None => None
  | Some l =>
      match key_text l [] with
      | None => None
      | Some text =>
          let n := blen text in
          if (n =? 0) || negb (n mod 2 =? 0) || (FSQC_MAX_KEY <? n / 2) then None else key_digits (-1) text []
      end
  end.

(** ** Arguments *)

Inductive farg := F_s (text : list Z) | F_i (text : list Z) | F_r (text : list Z) | F_n.
Definition parse_arg (s : list Z) : farg :=
  if bytes_eqb s (bs "NULL") then F_n
  else match s with
  | k :: c :: text =>
      if c =? 58 then if k =? 115 then F_s text else if k =? 105 then F_i text else if k =? 114 then F_r text else F_s s else F_s s
  | _ => F_s s
  end.
Definition wire_type (a : farg) : Z := match a with F_i _ => T_INT | F_r _ => T_REAL | _ => T_STRING end.

(** [strtoll] of the whole text, in range. *)
Definition integer_text (text : list Z) : option Z :=
  let '(neg, t) := sign_of (strip_space text) in
  match t with
  | c :: _ =>
      if isdigit c then
        let '(v, r) := digits_val 0 t in
        let v := if neg then - v else v in
        if (v <? - 2 ^ 63) || (2 ^ 63 - 1 <? v) then None else match r with [] => Some v | _ => None end
      else None
  | [] => None
  end.
(** [strtoull] of the whole text: a sign negates within the unsigned range. *)
Definition handle_text (text : list Z) : option Z :=
  let '(neg, t) := sign_of (strip_space text) in
  match t with
  | c :: _ =>
      if isdigit c then
        let '(v, r) := digits_val 0 t in
        if 2 ^ 64 - 1 <? v then None else match r with [] => Some (if neg then u64 (- v) else v) | _ => None end
      else None
  | [] => None
  end.
Definition real_text (underflow : list Z -> bool) (text : list Z) : option double :=
  match strtod underflow text with Some (d, [], false) => Some d | _ => None end.

(** One TLV entry; [None] is a bad integer or real. *)
Definition arg_value (underflow : list Z -> bool) (a : farg) : option (list Z) :=
  match a with
  | F_i t => v ← integer_text t; Some (put64 (u64 v))
  | F_r t => d ← real_text underflow t; Some (put64 (double_bits d))
  | F_s t => Some (take (Z.to_nat (u32 (blen t))) t)
  | F_n => Some []
  end.
Definition put_tlv (underflow : list Z -> bool) (a : farg) : option (list Z) :=
  val ← arg_value underflow a;
  Some ([wire_type a; match a with F_n => 1 | _ => 0 end] ++ put32 (blen val) ++ val).
Fixpoint put_tlvs (underflow : list Z -> bool) (l : list farg) : option (list Z) :=
  match l with
  | [] => Some []
  | a :: r => t ← put_tlv underflow a; ts ← put_tlvs underflow r; Some (t ++ ts)
  end.

(** ** Exchanges *)

Inductive rt := RT_IO | RT_CLOSED | RT_AUTH | RT_BAD.
Record reply := { status : Z; core_rc : Z; body : list Z }.

Record ctl {E : Type} := { c_key : list Z; c_env : E; c_next_id : Z; c_mallocs : nat; c_out : list Z }.
Arguments ctl : clear implicits.

Section Client.
Context {E : Type} {TR : Transport E}.
Context (HMAC : list Z -> list Z -> list Z).        (* key, message *)
Context (malloc_ok : nat -> bool) (underflow : list Z -> bool).

Definition C (A : Type) : Type := ctl E -> A * ctl E.
Definition ret {A} (a : A) : C A := fun s => (a, s).
Definition bind {A B} (m : C A) (k : A -> C B) : C B := fun s => let '(a, s) := m s in k a s.
#[local] Notation "'let*' x ':=' e 'in' k" := (bind e (fun x => k)) (at level 10, x pattern, e at level 200, k at level 200).
Definition upd (e : E) (id : Z) (m : nat) (out : list Z) (s : ctl E) : ctl E :=
  {| c_key := c_key s; c_env := e; c_next_id := id; c_mallocs := m; c_out := out |}.
Definition malloc : C bool := fun s => (malloc_ok (c_mallocs s), upd (c_env s) (c_next_id s) (S (c_mallocs s)) (c_out s) s).
Definition printf (t : list Z) : C unit := fun s => (tt, upd (c_env s) (c_next_id s) (c_mallocs s) (c_out s ++ t) s).
Definition next_id : C Z := fun s => (c_next_id s, upd (c_env s) (u32 (c_next_id s + 1)) (c_mallocs s) (c_out s) s).
Definition write_frame (hdr tag req : list Z) : C bool := fun s =>
  let '(e, ok) := sock_send hdr tag req (c_env s) in (ok, upd e (c_next_id s) (c_mallocs s) (c_out s) s).
Definition read_all (n : nat) : C (option (list Z)) := fun s =>
  let '(e, r) := sock_read n (c_env s) in (r, upd e (c_next_id s) (c_mallocs s) (c_out s) s).
Definition close : C unit := fun s => (tt, upd (sock_close (c_env s)) (c_next_id s) (c_mallocs s) (c_out s) s).
(** A path of 108 bytes or more does not fit; [true] is a descriptor. *)
Definition connect_daemon (path : list Z) : C bool := fun s =>
  if 108 <=? blen path then (false, s)
  else let '(e, r) := sock_connect path (c_env s) in
       (match r with inr _ => true | inl _ => false end, upd e (c_next_id s) (c_mallocs s) (c_out s) s).

Definition frame_tag (hdr payload : list Z) : C (option (list Z)) :=
  let* ok := malloc in
  if negb ok then ret None
  else fun s => let t := HMAC (c_key s) (hdr ++ payload) in ((if blen t =? FSQC_TAG then Some t else None), s).

Definition request_header (opcode reqid rlen : Z) : list Z :=
  bs "FSQ1" ++ put16 FSQC_VERSION ++ put16 opcode ++ put32 0 ++ put32 reqid ++ put64 0 ++ put32 FSQC_TAG ++ put32 rlen.
(** From the response's header on. *)
Definition read_response (reqid : Z) : C (rt + reply) :=
  let* r := read_all FSQC_HDR in
  match r with
  | None => ret (inl RT_CLOSED)
  | Some rhdr =>
  if negb (bytes_eqb (take 4 rhdr) (bs "FSQ1")) || negb (get16 (drop 4 rhdr) =? FSQC_VERSION) || negb (get32 (drop 24 rhdr) =? FSQC_TAG)
  then ret (inl RT_BAD) else
  let plen := get32 (drop 28 rhdr) in
  if FSQC_MAX_PAYLOAD <? plen then ret (inl RT_BAD) else
  if (Z.land (get32 (drop 8 rhdr)) 1 =? 0) || negb (get32 (drop 12 rhdr) =? reqid) then ret (inl RT_BAD) else
  let* t := read_all 32 in
  match t with
  | None => ret (inl RT_CLOSED)
  | Some rtag =>
  let* p := if plen =? 0 then ret (Some []) else let* ok := malloc in if negb ok then ret None else read_all (Z.to_nat plen) in
  match p with
  | None => ret (inl RT_CLOSED)
  | Some rpay =>
  let* want := frame_tag rhdr rpay in
  match want with
  | None => ret (inl RT_AUTH)
  | Some want =>
  if negb (bytes_eqb rtag want) then ret (inl RT_AUTH)
  else if plen <? 8 then ret (inl RT_BAD)
  else
    let* ok := malloc in
    if negb ok then ret (inl RT_IO)
    else ret (inr {| status := get32 rpay; core_rc := s32 (get32 (drop 4 rpay)); body := drop 8 rpay |})
  end
  end
  end
  end.
Definition roundtrip (opcode : Z) (req : list Z) : C (rt + reply) :=
  let* reqid := next_id in
  let rlen := u32 (blen req) in
  let req := take (Z.to_nat rlen) req in
  let hdr := request_header opcode reqid rlen in
  if FSQC_MAX_PAYLOAD <? rlen then ret (inl RT_IO) else
  let* tag := frame_tag hdr req in
  match tag with
  | None => ret (inl RT_IO)
  | Some tag =>
      let* sent := write_frame hdr tag req in
      if negb sent then ret (inl RT_IO) else read_response reqid
  end.

Definition transport_fail (e : rt) : Z := match e with RT_CLOSED | RT_AUTH => EXIT_AUTH | RT_BAD | RT_IO => EXIT_FAIL end.
Definition status_fail (r : reply) : Z := if status r =? 0 then EXIT_OK else EXIT_FAIL.

(** ** Commands *)

Definition cmd_ping : C Z :=
  let* r := roundtrip OP_PING [] in
  match r with
  | inl e => ret (transport_fail e)
  | inr r =>
      if negb (status r =? 0) || negb (blen (body r) =? 2) then ret (let c := status_fail r in if c =? 0 then EXIT_FAIL else c)
      else let* _ := printf (bs "pong: protocol " ++ dec_u (get16 (body r)) ++ [10]) in ret EXIT_OK
  end.
Definition cmd_version : C Z :=
  let* r := roundtrip OP_VERSION [] in
  match r with
  | inl e => ret (transport_fail e)
  | inr r => if negb (status r =? 0) then ret (status_fail r) else let* _ := printf (cstr (body r) ++ [10]) in ret EXIT_OK
  end.
Definition cmd_cancel (idtext : list Z) : C Z :=
  match handle_text idtext with
  | None => ret EXIT_USAGE
  | Some id =>
      let* r := roundtrip OP_CANCEL (put64 id) in
      match r with
      | inl e => ret (transport_fail e)
      | inr r =>
          if status_fail r =? EXIT_OK then let* _ := printf (bs "cancelled: handle " ++ dec_u id ++ [10]) in ret EXIT_OK
          else ret (status_fail r)
      end
  end.
Definition cmd_reload : C Z :=
  let* r := roundtrip OP_RELOAD [] in
  match r with
  | inl e => ret (transport_fail e)
  | inr r =>
      if status_fail r =? EXIT_OK then let* _ := printf (bs "reloaded: configuration swapped in" ++ [10]) in ret EXIT_OK
      else ret (status_fail r)
  end.

(** [files] is what opening a path gives; [exists_] is whether stat succeeds. *)
Definition set_key (key : list Z) : C unit := fun s =>
  (tt, {| c_key := key; c_env := c_env s; c_next_id := c_next_id s; c_mallocs := c_mallocs s; c_out := c_out s |}).
Definition cmd_check (files : list Z -> option (list Z)) (exists_ : list Z -> bool) (socket keyfile : list Z) : C Z :=
  if negb (exists_ keyfile) then ret EXIT_FAIL else
  match load_key (files keyfile) with
  | None => ret EXIT_FAIL
  | Some key =>
      let* _ := set_key key in
      let* _ := printf (bs "key file: ok (" ++ dec_u (blen key) ++ bs " bytes)" ++ [10]) in
      let* fd := connect_daemon socket in
      if negb fd then ret EXIT_FAIL else
      let* _ := printf (bs "socket: ok (" ++ socket ++ bs ")" ++ [10]) in
      let* r := roundtrip OP_PING [] in
      let* code :=
        match r with
        | inl e => ret (transport_fail e)
        | inr r =>
            if negb (status r =? 0) || negb (blen (body r) =? 2) then ret (if status r =? 0 then EXIT_FAIL else status_fail r)
            else let* _ := printf (bs "ping: ok (protocol " ++ dec_u (get16 (body r)) ++ bs ")" ++ [10]) in ret EXIT_OK
        end in
      let* _ := close in ret code
  end.

(** The text of a result: type, NULL flag, length, bytes. *)
Definition result_text (b : list Z) : list Z :=
  let n := get32 (drop 2 b) in
  if negb (at_ b 1 =? 0) then bs "NULL"
  else if (at_ b 0 =? T_INT) && (n =? 8) then dec_d (s64 (get64 (drop 6 b)))
  else if (at_ b 0 =? T_REAL) && (n =? 8) then fmt_g 17 (bits_double (get64 (drop 6 b)))
  else cstr (take (Z.to_nat n) (drop 6 b)).
Definition deinit (handle : Z) : C unit := let* _ := roundtrip OP_DEINIT (put64 handle) in ret tt.
(** Once the handle is open. *)
Definition call_opened (name : list Z) (tlvs : list Z) (nargs handle : Z) : C Z :=
  let* ok := malloc in
  if negb ok then ret EXIT_FAIL else
  let* r := roundtrip OP_CALL (u8 (blen name) :: name ++ put64 handle ++ put32 nargs ++ tlvs) in
  match r with
  | inl e => ret (transport_fail e)
  | inr r =>
      if negb (status r =? 0) then let* _ := deinit handle in ret (status_fail r)
      else if (blen (body r) <? 6) || negb (blen (body r) =? u32 (6 + get32 (drop 2 (body r)))) then let* _ := deinit handle in ret EXIT_FAIL
      else let* _ := printf (result_text (body r) ++ [10]) in let* _ := deinit handle in ret EXIT_OK
  end.
Definition cmd_call (name : list Z) (words : list (list Z)) : C Z :=
  if negb (existsb (fun f => bytes_eqb f name) fsqlctl_fns) then ret EXIT_NOFN
  else if FSQC_MAX_FN_NAME <? blen name then ret EXIT_USAGE
  else
    let nargs := Z.of_nat (length words) in
    if FSQC_MAX_ARGS <? nargs then ret EXIT_USAGE else
    let* ok := malloc in
    if negb ok then ret EXIT_FAIL else
    let args := map parse_arg words in
    let* ok := malloc in
    if negb ok then ret EXIT_FAIL else
    match put_tlvs underflow args with
    | None => ret EXIT_USAGE
    | Some tlvs =>
        let* r := roundtrip OP_INIT (u8 (blen name) :: name ++ put32 nargs ++ tlvs) in
        match r with
        | inl e => ret (transport_fail e)
        | inr r =>
            if negb (status r =? 0) then ret (status_fail r)
            else if blen (body r) <? 17 then ret EXIT_FAIL
            else
              let nres := get32 (drop 13 (body r)) in
              if negb (nres =? nargs) || negb (blen (body r) =? u32 (17 + nres)) then ret EXIT_FAIL
              else call_opened name tlvs nargs (get64 (body r))
        end
    end.

(** ** Main *)

Inductive option_ := O_s (arg : list Z) | O_k (arg : list Z) | O_h | O_bad.
(** The options in order: the socket and the key file, or an exit. *)
Fixpoint options (l : list option_) (socket keyfile : list Z) : Z + list Z * list Z :=
  match l with
  | [] => inr (socket, keyfile)
  | O_s a :: l => options l a keyfile
  | O_k a :: l => options l socket a
  | O_h :: _ => inl EXIT_OK
  | O_bad :: _ => inl EXIT_USAGE
  end.
Definition command (words : list (list Z)) (cmd : list Z) : C Z :=
  if bytes_eqb cmd (bs "ping") then cmd_ping
  else if bytes_eqb cmd (bs "version") then cmd_version
  else if bytes_eqb cmd (bs "call") then match words with [] => ret EXIT_USAGE | name :: args => cmd_call name args end
  else if bytes_eqb cmd (bs "cancel") then match words with [] => ret EXIT_USAGE | id :: _ => cmd_cancel id end
  else if bytes_eqb cmd (bs "reload") then cmd_reload
  else ret EXIT_USAGE.
Definition ctl_main (getenv : list Z -> option (list Z)) (files : list Z -> option (list Z)) (exists_ : list Z -> bool)
    (opts : list option_) (words : list (list Z)) : C Z :=
  match options opts (default DEFAULT_SOCKET (getenv (bs "FSQLCTL_SOCKET"))) (default DEFAULT_KEY (getenv (bs "FSQLCTL_KEY"))) with
  | inl code => ret code
  | inr (socket, keyfile) =>
  match words with
  | [] => ret EXIT_USAGE
  | cmd :: words =>
  if bytes_eqb cmd (bs "check") then cmd_check files exists_ socket keyfile else
  match load_key (files keyfile) with
  | None => ret EXIT_FAIL
  | Some key =>
      let* _ := set_key key in
      let* fd := connect_daemon socket in
      if negb fd then ret EXIT_FAIL else
      let* code := command words cmd in
      let* _ := close in ret code
  end
  end
  end.
End Client.
