(* ===== verification/CtlProofs.v ===== *)
(** * The client over the daemon

    The client's frames against the daemon's parsers, its key file against the
    daemon's, whose answers it believes, and its commands run over the
    daemon's frame loop. *)

From Stdlib Require Import SpecFloat.
From stdpp Require Import gmap.
From S2P Require Import Prelude Float FloatValid Wire Sha256 Config DaemonConf Cache Daemon DaemonProofs Shim ShimProofs Ctl.

(** ** The key file *)

Definition not_space (c : Z) : bool := negb (key_space c).
Lemma key_text_spec l : forall text, blen text <= FSQC_KEY_TEXT ->
  key_text l text = if blen (text ++ List.filter not_space l) <=? FSQC_KEY_TEXT then Some (text ++ List.filter not_space l) else None.
Proof.
  induction l as [|c l IH]; intros text Ht; cbn [key_text List.filter].
  - rewrite app_nil_r. by rewrite (proj2 (Z.leb_le _ _)) by lia.
  - assert (Es : (c =? 32) || (c =? 9) || (c =? 13) || (c =? 10) = negb (not_space c)) by (unfold not_space, key_space; rewrite negb_involutive; lia).
    rewrite Es. destruct (not_space c); cbn [negb]; [|by apply IH]. destruct (Z.eqb_spec (blen text) FSQC_KEY_TEXT) as [E|E].
    + rewrite (proj2 (Z.leb_gt _ _)); [done|]. unfold blen in *. rewrite length_app. cbn [length]. lia.
    + rewrite IH by (unfold blen in *; rewrite length_app; cbn [length]; lia). by rewrite <- app_assoc.
Qed.
Lemma key_digits_decode text : forall hi key, key_digits hi text key = key_decode hi text key.
Proof. induction text as [|c text IH]; intros hi key; [done|]. cbn [key_digits key_decode]. change (hex_val c) with (DaemonConf.hex_nibble c). by rewrite !IH. Qed.

(** The client and the daemon read the same key from a key file, and refuse
    the same files: only white space separates the 2 to 128 digits, whatever
    the sizes of their two buffers. *)
Theorem keys_agree content : Ctl.load_key content = DaemonConf.load_key content.
Proof.
  destruct content as [l|]; [|done]. unfold Ctl.load_key, DaemonConf.load_key. rewrite key_text_spec by (unfold blen, FSQC_KEY_TEXT; cbn; lia). cbn [app].
  change (fun c => negb (key_space c)) with not_space. set (t := List.filter not_space l). unfold FSQC_KEY_TEXT, FSQC_MAX_KEY, blen.
  destruct (Z.le_gt_cases (Z.of_nat (length t)) 256) as [Hs|Hs].
  - rewrite (proj2 (Z.leb_le _ _)) by lia. rewrite take_ge by lia. rewrite key_digits_decode. done.
  - assert (Hl : Z.of_nat (length (take 256 t)) = 256) by (rewrite length_take; lia). rewrite Hl. change ((256 =? 0) || negb (256 mod 2 =? 0) || (64 <? 256 / 2)) with true. cbv iota.
    destruct (Z.leb_spec (Z.of_nat (length t)) 1024); [|done]. rewrite (proj2 (Z.ltb_lt 64 _)); [by rewrite orb_true_r|]. apply (Z.lt_le_trans _ 128); [lia|]. apply Z.div_le_lower_bound; lia.
Qed.

(** ** Arguments *)

(** What an argument on the command line is to the daemon. *)
Definition arg_of (underflow : list Z -> bool) (a : farg) : option (Item_result * arg_val) :=
  match a with
  | F_i t => v ← integer_text t; Some (INT_RESULT, AV_int v)
  | F_r t => d ← real_text underflow t; Some (REAL_RESULT, AV_real (double_bits d))
  | F_s t => Some (STRING_RESULT, AV_str t)
  | F_n => Some (STRING_RESULT, AV_null)
  end.
Definition text_fits (a : farg) : Prop := match a with F_s t => blen t < 2 ^ 32 | _ => True end.
Lemma put_tlv_arg underflow a tv : text_fits a -> arg_of underflow a = Some tv -> put_tlv underflow a = Some (encode_arg tv).
Proof.
  unfold put_tlv. destruct a as [t|t|t|]; cbn [arg_of arg_value text_fits]; intros Hf.
  - intros [= <-]. cbn [mbind option_bind]. unfold encode_arg, arg_len, arg_bytes. cbn [fst snd]. assert (0 <= blen t) by (unfold blen; lia). unfold arg_len. cbn [fst snd].
    rewrite !u32_id by lia. rewrite take_ge by (unfold blen; lia). done.
  - destruct (integer_text t) as [v|]; [|done]. cbn [mbind option_bind]. intros [= <-]. done.
  - destruct (real_text underflow t) as [d|]; [|done]. cbn [mbind option_bind]. intros [= <-]. done.
  - intros [= <-]. done.
Qed.
Lemma put_tlvs_args underflow l tvs : Forall text_fits l -> mapM (arg_of underflow) l = Some tvs -> put_tlvs underflow l = Some (encode_args tvs).
Proof.
  intros Hf. revert tvs. induction Hf as [|a l Ha _ IH]; intros tvs; cbn [mapM put_tlvs]; [by intros [= <-]|].
  destruct (arg_of underflow a) as [tv|] eqn:E; [|done]. cbn [mbind option_bind]. destruct (mapM (arg_of underflow) l) as [r|] eqn:Er; [|done].
  cbn [mbind option_bind]. intros [= <-]. rewrite (put_tlv_arg underflow a tv Ha E). cbn [mbind option_bind]. by rewrite (IH r).
Qed.

Lemma parse_arg_fits w : blen w < 2 ^ 32 -> text_fits (parse_arg w).
Proof.
  unfold parse_arg. intros H. destruct (bytes_eqb w (bs "NULL")); [done|]. destruct w as [|k [|c t]]; [done|done|]. 
  assert (blen t < 2 ^ 32) by (unfold blen in *; cbn [length] in H; lia). destruct (c =? 58); [|done]. by repeat case_match.
Qed.
Lemma valid64_cases s m e : valid64 (S754_finite s m e) = true -> (Zpos m < 2 ^ 52 /\ e = -1074) \/ (2 ^ 52 <= Zpos m < 2 ^ 53 /\ -1074 <= e <= 971).
Proof.
  unfold valid64. cbn [valid_binary]. unfold bounded, canonical_mantissa, fexp, emin. rewrite andb_true_iff, Z.eqb_eq, Z.leb_le.
  pose proof (digits2_bounds m) as Hb. intros [H1 H2]. destruct (Z.le_gt_cases (Zpos (digits2_pos m)) 52) as [Hd|Hd].
  - left. pose proof (Z.pow_le_mono_r 2 (Zpos (digits2_pos m)) 52 ltac:(lia) Hd). lia.
  - assert (Zpos (digits2_pos m) = 53) as E by lia. rewrite E in Hb. right. change (2 ^ (53 - 1)) with (2 ^ 52) in Hb. lia.
Qed.
Lemma double_bits_range x : valid64 x = true -> 0 <= double_bits x < 2 ^ 64.
Proof.
  destruct x as [s|s| |s m e]; intros Hv; [destruct s; cbn [double_bits]; lia|destruct s; cbn [double_bits]; lia|cbn [double_bits]; lia|].
  apply valid64_cases in Hv. cbn [double_bits]. destruct (Z.ltb_spec (Zpos m) (2 ^ 52)); destruct s; lia.
Qed.
Lemma args_well_formed underflow l tvs : Forall text_fits l -> mapM (arg_of underflow) l = Some tvs ->
  Forall arg_wf tvs /\ Forall (fun tv => fst tv <> DECIMAL_RESULT) tvs /\ length l = length tvs.
Proof.
  intros Hf. revert tvs. induction Hf as [|a l Ha _ IH]; intros tvs; cbn [mapM]; [by intros [= <-]|].
  destruct (arg_of underflow a) as [tv|] eqn:E; [|done]. cbn [mbind option_bind]. destruct (mapM (arg_of underflow) l) as [r|] eqn:Er; [|done].
  cbn [mbind option_bind]. intros [= <-]. destruct (IH r eq_refl) as (H1 & H2 & H3). split_and!; [| |cbn [length]; by rewrite H3].
  - constructor; [|done]. destruct a as [t|t|t|]; cbn [arg_of] in E.
    + by injection E as <-.
    + destruct (integer_text t) as [v|] eqn:Ei; [|done]. injection E as <-. unfold integer_text in Ei. destruct (sign_of _) as [neg q]. destruct q as [|c q]; [done|].
      destruct (isdigit c); [|done]. destruct (digits_val 0 (c :: q)) as [v0 r0]. cbv zeta in Ei. destruct (_ || _) eqn:Eb; [done|]. destruct r0; [|done]. injection Ei as <-.
      apply orb_false_iff in Eb as [Eb1%Z.ltb_ge Eb2%Z.ltb_ge]. cbn [arg_wf]. lia.
    + destruct (real_text underflow t) as [x|] eqn:Ei; [|done]. injection E as <-. unfold real_text in Ei. destruct (strtod underflow t) as [[[x' q] b]|] eqn:Es; [|done].
      destruct q; [|done]. destruct b; [done|]. injection Ei as <-. apply double_bits_range. by eapply strtod_valid.
    + by injection E as <-.
  - constructor; [|done]. destruct a as [t|t|t|]; cbn [arg_of] in E; [by injection E as <-| | |by injection E as <-].
    + destruct (integer_text t); [|done]. by injection E as <-.
    + destruct (real_text underflow t); [|done]. by injection E as <-.
Qed.

(** ** Frames *)

Lemma request_header_wire op id n : request_header op id n = fsq_header_encode
  {| h_version := FSQ_PROTOCOL_VERSION; h_opcode := op; h_flags := 0; h_request_id := id; h_context := 0; h_auth_len := FSQ_TAG_LEN; h_payload_len := n |}.
Proof. reflexivity. Qed.
(** The client reads the fields of a header as the daemon wrote them. *)
Lemma header_fields h : header_ok h -> let r := fsq_header_encode h in
  take 4 r = bs "FSQ1" /\ get16 (drop 4 r) = h_version h /\ get32 (drop 8 r) = h_flags h /\ get32 (drop 12 r) = h_request_id h /\
  get32 (drop 24 r) = h_auth_len h /\ get32 (drop 28 r) = h_payload_len h.
Proof.
  intros Hh r. pose proof (header_decode_encode h [] Hh) as E. rewrite app_nil_r in E. fold r in E. unfold fsq_header_decode in E.
  destruct (bytes_eqb (take 4 r) FSQ_MAGIC) eqn:Em; [|done]. cbn [negb] in E. apply bytes_eqb_true in Em. apply (inj Some) in E.
  split; [exact Em|]. rewrite <- E. cbn [h_version h_flags h_request_id h_auth_len h_payload_len]. done.
Qed.
Lemma ct_equal_refl a : fsq_ct_equal a a 32 = true.
Proof.
  unfold fsq_ct_equal. assert (H : forall l, fold_left (fun diff i => Z.lor diff (u8 (Z.lxor (at_ a i) (at_ a i)))) l 0 = 0).
  { induction l as [|i l IH]; [done|]. cbn [fold_left]. rewrite Z.lxor_nilpotent. exact IH. }
  by rewrite H.
Qed.

(** ** The client over the daemon *)

(** A connection: what the daemon's end is, if it is open, and what waits to
    be read. *)
Record wire {W I : Type} := { wi_d : daemon W I; wi_conn : option Z; wi_in : list Z }.
Arguments wire : clear implicits.

Section Over.
Context {W I : Type} {AD : Adapter W I} {CO : Consumers W}.
Context (junk ver : list Z) (sy : sys) (cur : fsq_config) (cred : option Z).

Definition hang_up (e : wire W I) : wire W I :=
  {| wi_d := match wi_conn e with Some c => handle_release_owner c (wi_d e) | None => wi_d e end; wi_conn := None; wi_in := [] |}.
#[local] Instance wire_transport : Transport (wire W I) := {
  sock_alive e := match wi_conn e with Some _ => true | None => false end;
  sock_connect _ e :=
    let '(c, d) := next_conn_id (wi_d e) in
    ({| wi_d := d; wi_conn := if peer_allowed cred cur then Some c else None; wi_in := [] |}, inr tt);
  sock_close := hang_up;
  sock_send hdr tag req e :=
    match wi_conn e with
    | None => (e, false)
    | Some c =>
        match serve_frame ok_malloc junk ver sy cur c true (hdr ++ tag ++ req) (wi_d e) with
        | (Some (_, out), d) => ({| wi_d := d; wi_conn := Some c; wi_in := wi_in e ++ out |}, true)
        | (None, d) => (hang_up {| wi_d := d; wi_conn := Some c; wi_in := [] |}, true)
        end
    end;
  sock_read n e :=
    if (length (wi_in e) <? n)%nat then (e, None)
    else ({| wi_d := wi_d e; wi_conn := wi_conn e; wi_in := drop n (wi_in e) |}, Some (take n (wi_in e))) }.

(** Handling a request, whatever has been allocated before. *)
Definition dispatches (c : Z) (h : fsq_header) (req : list Z) (d : daemon W I) (rep : fsq_reply) (d' : daemon W I) : Prop :=
  forall n, exists n', dispatch ok_malloc ver sy cur c h req (bump n d) = (rep, bump n' d').

Lemma mac_ok key hdr payload (d : daemon W I) : exists n, mac ok_malloc junk key hdr payload d = (fsq_hmac_sha256 junk key (hdr ++ payload), bump n d).
Proof. by eexists. Qed.
Lemma serve_authentic c h req (d d' : daemon W I) rep :
  header_ok h -> h_version h = FSQ_PROTOCOL_VERSION -> h_auth_len h = FSQ_TAG_LEN -> h_flags h = 0 ->
  h_payload_len h = blen req -> blen req <= FSQ_MAX_PAYLOAD -> dispatches c h req d rep d' ->
  exists n rh rpay, serve_frame ok_malloc junk ver sy cur c true (fsq_header_encode h ++ fsq_hmac_sha256 junk (DaemonConf.key_bytes cur) (fsq_header_encode h ++ req) ++ req) d =
    (Some ([], fsq_header_encode rh ++ fsq_hmac_sha256 junk (DaemonConf.key_bytes cur) (fsq_header_encode rh ++ rpay) ++ rpay), bump n d') /\
    rpay = fsq_put_u32 (r_status rep) ++ fsq_put_u32 (u32 (r_core_rc rep)) ++ r_body rep /\
    rh = {| h_version := FSQ_PROTOCOL_VERSION; h_opcode := h_opcode h; h_flags := Z.lor FSQ_FLAG_RESPONSE (if r_status rep =? FSQ_OK then 0 else FSQ_FLAG_ERROR);
            h_request_id := h_request_id h; h_context := h_context h; h_auth_len := FSQ_TAG_LEN; h_payload_len := u32 (8 + blen (r_body rep)) |}.
Proof.
  intros Hh Hv Ha Hf Hl Hm Hd. unfold serve_frame.
  set (tag := fsq_hmac_sha256 junk (DaemonConf.key_bytes cur) (fsq_header_encode h ++ req)).
  assert (Ht : length tag = 32%nat) by apply hmac_digest.
  assert (El : length (fsq_header_encode h) = FSQ_HEADER_LEN) by apply header_encode_length.
  rewrite !(drop_app_exact (fsq_header_encode h)), !(take_app_exact (fsq_header_encode h)) by done.
  replace (_ <? _)%nat with false by (symmetry; apply Nat.ltb_ge; rewrite length_app, El; lia).
  assert (Hdec : fsq_header_decode (fsq_header_encode h) = Some h) by (rewrite <- (app_nil_r (fsq_header_encode h)); by apply header_decode_encode).
  rewrite Hdec, Hv, Ha, Hf, Hl, !Z.eqb_refl. cbn [negb orb]. unfold blen in Hm |- *. rewrite (proj2 (Z.ltb_ge FSQ_MAX_PAYLOAD _)) by done.
  change (Z.land 0 FSQ_FLAG_RESPONSE =? 0) with true. cbn [negb]. cbv iota.
  rewrite !(drop_app_exact tag), !(take_app_exact tag) by done.
  replace (length (tag ++ req) <? 32)%nat with false by (symmetry; apply Nat.ltb_ge; rewrite length_app; lia). rewrite Nat2Z.id.
  assert (Em : exists n, (if (length req =? 0)%nat then Daemon.ret true else Daemon.malloc ok_malloc) d = (true, bump n d)).
  { destruct (length req =? 0)%nat; [exists (d_mallocs d); by destruct d|by eexists]. }
  destruct Em as [n1 Em]. rewrite (run_bind _ _ _ _ _ Em). cbn [negb orb]. rewrite Nat.ltb_irrefl, take_ge, drop_ge by lia.
  destruct (mac_ok (DaemonConf.key_bytes cur) (fsq_header_encode h) req (bump n1 d)) as [n2 E2]. rewrite (run_bind _ _ _ _ _ E2). fold tag. rewrite ct_equal_refl. cbn [negb].
  rewrite bump_bump. destruct (Hd n2) as [n3 E3]. rewrite (run_bind _ _ _ _ _ E3).
  unfold Daemon.bind at 1. unfold send_reply. unfold Daemon.bind at 1, Daemon.malloc at 1, ok_malloc at 1. cbn [negb]. cbv iota zeta.
  set (rh := {| h_version := _ |}). set (rpay := _ ++ _ ++ r_body rep).
  match goal with |- context [Daemon.bind (mac ok_malloc junk ?k ?hd ?p) _ ?d] => destruct (mac_ok k hd p d) as [n4 E4] end.
  rewrite (run_bind _ _ _ _ _ E4). unfold Daemon.ret.
  exists n4, rh, rpay. split_and!; reflexivity.
Qed.

Definition reply_fits (rep : fsq_reply) : Prop :=
  0 <= r_status rep < 2 ^ 32 /\ - 2 ^ 31 <= r_core_rc rep < 2 ^ 31 /\ blen (r_body rep) + 8 <= FSQ_MAX_PAYLOAD.
Lemma response_header op id n st : 0 <= op < 2 ^ 16 -> 0 <= id < 2 ^ 32 -> 0 <= n < 2 ^ 32 ->
  header_ok {| h_version := FSQ_PROTOCOL_VERSION; h_opcode := op; h_flags := Z.lor FSQ_FLAG_RESPONSE (if st =? FSQ_OK then 0 else FSQ_FLAG_ERROR);
               h_request_id := id; h_context := 0; h_auth_len := FSQ_TAG_LEN; h_payload_len := n |}.
Proof. intros. unfold header_ok. cbn [h_version h_opcode h_flags h_request_id h_context h_auth_len h_payload_len]. unfold FSQ_PROTOCOL_VERSION, FSQ_TAG_LEN.
  assert (E : forall b : bool, Z.lor FSQ_FLAG_RESPONSE (if b then 0 else FSQ_FLAG_ERROR) = if b then 1 else 3) by (by intros []). rewrite E. destruct (st =? FSQ_OK); lia. Qed.

(** The three fields of a reply's payload, read back. *)
Lemma payload_fields rep : reply_fits rep -> let p := fsq_put_u32 (r_status rep) ++ fsq_put_u32 (u32 (r_core_rc rep)) ++ r_body rep in
  get32 p = r_status rep /\ s32 (get32 (drop 4 p)) = r_core_rc rep /\ drop 8 p = r_body rep /\ blen p = 8 + blen (r_body rep).
Proof.
  intros (Hst & Hrc & Hb) p. assert (E4 : drop 4 p = fsq_put_u32 (u32 (r_core_rc rep)) ++ r_body rep) by (apply drop_app_exact; by rewrite put_u32_length).
  assert (E8 : drop 8 p = r_body rep) by (unfold p; rewrite app_assoc; apply drop_app_exact; by rewrite length_app, !put_u32_length).
  rewrite E4, E8. split; [by apply (get_put_u32 (r_status rep))|]. split; [|split; [done|unfold p, blen; rewrite !length_app, !put_u32_length; lia]].
  change (get32 (fsq_put_u32 (u32 (r_core_rc rep)) ++ r_body rep)) with (fsq_get_u32 (fsq_put_u32 (u32 (r_core_rc rep)) ++ r_body rep)).
  rewrite get_put_u32 by apply u32_range. unfold s32. cbv zeta. unfold u32. rewrite Z.mod_mod by lia.
  destruct (Z.le_gt_cases 0 (r_core_rc rep)) as [Hp|Hp].
  - rewrite Z.mod_small by lia. by rewrite (proj2 (Z.ltb_lt _ _)) by lia.
  - rewrite <- (Z_mod_plus_full (r_core_rc rep) 1), Z.mod_small by lia. rewrite (proj2 (Z.ltb_ge _ _)) by lia. lia.
Qed.
Lemma release_none c (d : daemon W I) : Forall (fun h => hd_owner h <> c) (d_handles d) -> handle_release_owner c d = d.
Proof.
  intros Hown. assert (E : List.filter (fun h => hd_owner h =? c) (d_handles d) = [] /\ List.filter (fun h => negb (hd_owner h =? c)) (d_handles d) = d_handles d).
  { induction Hown as [|h l Hh _ [IH1 IH2]]; [done|]. cbn [List.filter]. rewrite (proj2 (Z.eqb_neq _ _)) by done. cbn [negb]. by rewrite IH1, IH2. }
  destruct E as [E1 E2]. unfold handle_release_owner. rewrite E1, E2. by destruct d.
Qed.

Context (underflow : list Z -> bool).
Abbreviation hmac := (fsq_hmac_sha256 junk) (only parsing).
Abbreviation all_mem := (fun _ : nat => true) (only parsing).

Lemma crun {A B} (m : C A) (k : A -> C B) (s s1 : ctl (wire W I)) a : m s = (a, s1) -> bind m k s = k a s1.
Proof. unfold bind. by intros ->. Qed.
Lemma tag_ok hd p key (e : wire W I) id m o :
  frame_tag hmac all_mem hd p {| c_key := key; c_env := e; c_next_id := id; c_mallocs := m; c_out := o |} =
  (Some (hmac key (hd ++ p)), {| c_key := key; c_env := e; c_next_id := id; c_mallocs := S m; c_out := o |}).
Proof. unfold frame_tag, bind, malloc, upd. cbn [negb c_key c_env c_next_id c_mallocs c_out]. unfold blen. by rewrite (proj1 (hmac_digest _ _ _)). Qed.
Lemma read_ok n key (d : daemon W I) c inp rest id m o : length inp = n ->
  read_all n {| c_key := key; c_env := {| wi_d := d; wi_conn := c; wi_in := inp ++ rest |}; c_next_id := id; c_mallocs := m; c_out := o |} =
  (Some inp, {| c_key := key; c_env := {| wi_d := d; wi_conn := c; wi_in := rest |}; c_next_id := id; c_mallocs := m; c_out := o |}).
Proof.
  intros <-. unfold read_all, upd. cbn [c_key c_env c_next_id c_mallocs c_out sock_read wire_transport wi_in wi_d wi_conn].
  rewrite (proj2 (Nat.ltb_ge (length (inp ++ rest)) (length inp))) by (rewrite length_app; lia). by rewrite take_app_exact, drop_app_exact.
Qed.
Lemma read_payload key (d : daemon W I) c inp id m o : exists m',
  (if blen inp =? 0 then ret (Some []) else bind (malloc all_mem) (fun ok => if negb ok then ret None else read_all (Z.to_nat (blen inp))))
    {| c_key := key; c_env := {| wi_d := d; wi_conn := c; wi_in := inp |}; c_next_id := id; c_mallocs := m; c_out := o |} =
  (Some inp, {| c_key := key; c_env := {| wi_d := d; wi_conn := c; wi_in := [] |}; c_next_id := id; c_mallocs := m'; c_out := o |}).
Proof.
  destruct (Z.eqb_spec (blen inp) 0) as [E|E].
  - exists m. destruct inp; [done|unfold blen in E; cbn in E; lia].
  - exists (S m). unfold bind, malloc, upd. cbn [negb c_key c_env c_next_id c_mallocs c_out].
    pose proof (read_ok (Z.to_nat (blen inp)) key d c inp [] id (S m) o) as H. rewrite app_nil_r in H. apply H. unfold blen. lia.
Qed.

(** The daemon's response, read. *)
Lemma response_read key (d : daemon W I) c rh rpay id m o :
  header_ok rh -> h_version rh = FSQ_PROTOCOL_VERSION -> h_auth_len rh = FSQ_TAG_LEN -> Z.land (h_flags rh) 1 <> 0 -> h_request_id rh = id ->
  h_payload_len rh = blen rpay -> 8 <= blen rpay <= FSQ_MAX_PAYLOAD ->
  exists m', read_response hmac all_mem id
    {| c_key := key; c_env := {| wi_d := d; wi_conn := c; wi_in := fsq_header_encode rh ++ hmac key (fsq_header_encode rh ++ rpay) ++ rpay |};
       c_next_id := u32 (id + 1); c_mallocs := m; c_out := o |} =
    (inr {| status := get32 rpay; core_rc := s32 (get32 (drop 4 rpay)); body := drop 8 rpay |},
     {| c_key := key; c_env := {| wi_d := d; wi_conn := c; wi_in := [] |}; c_next_id := u32 (id + 1); c_mallocs := m'; c_out := o |}).
Proof.
  intros Hh Hv Ha Hf Hid Hp Hl. destruct (header_fields rh Hh) as (F1 & F2 & F3 & F4 & F5 & F6). unfold read_response.
  rewrite (crun _ _ _ _ _ (read_ok FSQC_HDR key d c (fsq_header_encode rh) _ (u32 (id + 1)) m o (header_encode_length rh))).
  rewrite F1, F2, F3, F4, F5, F6, Hv, Ha, Hid, Hp. unfold FSQC_MAX_PAYLOAD, FSQ_MAX_PAYLOAD in *.
  rewrite (proj2 (Z.ltb_ge (80 * 1024 * 1024) _)) by lia. change (bytes_eqb (bs "FSQ1") (bs "FSQ1")) with true. rewrite !Z.eqb_refl.
  change (FSQ_PROTOCOL_VERSION =? FSQC_VERSION) with true. change (FSQ_TAG_LEN =? FSQC_TAG) with true. rewrite (proj2 (Z.eqb_neq _ _)) by done. cbn [negb orb]. cbv iota zeta.
  rewrite (crun _ _ _ _ _ (read_ok 32 key d c (hmac key (fsq_header_encode rh ++ rpay)) rpay (u32 (id + 1)) m o (proj1 (hmac_digest _ _ _)))).
  destruct (read_payload key d c rpay (u32 (id + 1)) m o) as [m1 E1]. rewrite (crun _ _ _ _ _ E1).
  rewrite (crun _ _ _ _ _ (tag_ok _ _ _ _ _ _ _)). unfold bytes_eqb. rewrite bool_decide_true by done. cbn [negb]. rewrite (proj2 (Z.ltb_ge _ 8)) by lia.
  unfold bind, malloc, ret, upd. cbn [negb]. eexists. reflexivity.
Qed.

(** One exchange is one request handled: the answer is the daemon's, the
    connection stays open and nothing is left unread. *)
Lemma roundtrip_served c op req key id m o d d' rep :
  key = DaemonConf.key_bytes cur -> 0 <= id < 2 ^ 32 -> 0 <= op < 2 ^ 16 -> blen req <= FSQ_MAX_PAYLOAD ->
  dispatches c {| h_version := FSQ_PROTOCOL_VERSION; h_opcode := op; h_flags := 0; h_request_id := id; h_context := 0;
    h_auth_len := FSQ_TAG_LEN; h_payload_len := blen req |} req d rep d' -> reply_fits rep ->
  exists m' n, roundtrip hmac all_mem op req {| c_key := key; c_env := {| wi_d := d; wi_conn := Some c; wi_in := [] |}; c_next_id := id; c_mallocs := m; c_out := o |} =
    (inr {| status := r_status rep; core_rc := r_core_rc rep; body := r_body rep |},
     {| c_key := key; c_env := {| wi_d := bump n d'; wi_conn := Some c; wi_in := [] |}; c_next_id := u32 (id + 1); c_mallocs := m'; c_out := o |}).
Proof.
  intros -> Hid Hop Hm Hd (Hst & Hrc & Hb). assert (0 <= blen req /\ 0 <= blen (r_body rep)) as [H0 H1] by (unfold blen; lia).
  unfold roundtrip, next_id. unfold bind at 1. unfold upd. cbn [c_key c_env c_next_id c_mallocs c_out]. cbv zeta.
  assert (H80 : FSQ_MAX_PAYLOAD = 83886080) by reflexivity. rewrite u32_id by lia. rewrite (take_ge req) by (unfold blen; lia).
  change FSQC_MAX_PAYLOAD with FSQ_MAX_PAYLOAD. rewrite (proj2 (Z.ltb_ge _ _)) by lia.
  rewrite request_header_wire. set (h := {| h_version := _ |}) in *. rewrite (crun _ _ _ _ _ (tag_ok _ _ _ _ _ _ _)).
  assert (Hh : header_ok h) by (unfold header_ok, h; cbn [h_version h_opcode h_flags h_request_id h_context h_auth_len h_payload_len]; unfold FSQ_PROTOCOL_VERSION, FSQ_TAG_LEN; lia).
  destruct (serve_authentic c h req d d' rep Hh eq_refl eq_refl eq_refl eq_refl Hm Hd) as (n & rh & rpay & Es & Erp & Erh).
  unfold write_frame. unfold bind at 1. cbn [c_env c_key c_next_id c_mallocs c_out sock_send wire_transport wi_conn wi_d wi_in app]. rewrite Es. cbn [negb app]. unfold upd. cbn [c_env c_key c_next_id c_mallocs c_out].
  assert (Hl : blen rpay = 8 + blen (r_body rep)) by (rewrite Erp; unfold blen; rewrite !length_app, !put_u32_length; lia).
  destruct (response_read (DaemonConf.key_bytes cur) (bump n d') (Some c) rh rpay id (S m) o) as [m' Er].
  - rewrite Erh. cbn [h_opcode h_request_id h_context h]. rewrite u32_id by lia. by apply response_header; lia.
  - by rewrite Erh.
  - by rewrite Erh.
  - rewrite Erh. cbn [h_flags]. by destruct (_ =? _).
  - by rewrite Erh.
  - rewrite Erh, Hl. cbn [h_payload_len]. rewrite u32_id; lia.
  - lia.
  - destruct (payload_fields rep) as (F1 & F2 & F3 & _); [by split|]. exists m', n. by rewrite Er, Erp, F1, F2, F3.
Qed.

(** ** Requests the daemon serves *)

Lemma malloc_run (d : daemon W I) : Daemon.malloc ok_malloc d = (true, bump (S (d_mallocs d)) d).
Proof. reflexivity. Qed.
Lemma const_args_decode args : Forall arg_wf args -> Forall (fun tv => fst tv <> DECIMAL_RESULT) args ->
  forall d : daemon W I, exists n, const_args ok_malloc (map arg_on_wire args) d = (inr args, bump n d).
Proof.
  intros Hw Hd. induction Hw as [|tv args Hw1 _ IH]; intros d; [exists (d_mallocs d); by destruct d|]. apply Forall_cons in Hd as [Hd1 Hd]. cbn [map const_args].
  assert (K : forall v (d : daemon W I), exists n, Daemon.bind (const_args ok_malloc (map arg_on_wire args))
      (fun rest => Daemon.ret (match rest with inr l => inr ((fst tv, v) :: l) | inl e => inl e end)) d = (@inr Z _ ((fst tv, v) :: args), bump n d)).
  { intros v d0. destruct (IH Hd d0) as [n E]. rewrite (run_bind _ _ _ _ _ E). by exists n. }
  assert (Ht : wire_to_item (a_type (arg_on_wire tv)) = fst tv) by (destruct tv as [[] v]; [reflexivity..|done]). rewrite Ht.
  destruct tv as [t v]. cbn [fst] in *.
  destruct v as [|v|b|b]; [apply K| | |]; cbn [a_is_null arg_on_wire snd Z.eqb negb]; rewrite (run_bind _ _ _ _ _ (malloc_run d)); cbn [negb]; destruct t; try done; cbn in Hw1.
  - destruct (K (AV_int v) (bump (S (d_mallocs d)) d)) as [n E]. exists n. etransitivity; [|exact E]. change (negb (blen (a_bytes (arg_on_wire (INT_RESULT, AV_int v))) =? 8)) with false. cbv iota.
    cbn [arg_on_wire a_bytes arg_bytes fst snd]. unfold long_long. rewrite <- (app_nil_r (fsq_put_u64 _)), get_put_u64 by apply u64_range. by rewrite s64_u64.
  - destruct (K (AV_real b) (bump (S (d_mallocs d)) d)) as [n E]. exists n. etransitivity; [|exact E]. change (negb (blen (a_bytes (arg_on_wire (REAL_RESULT, AV_real b))) =? 8)) with false. cbv iota.
    cbn [arg_on_wire a_bytes arg_bytes fst snd]. by rewrite <- (app_nil_r (fsq_put_u64 _)), get_put_u64.
  - destruct (K (AV_str b) (bump (S (d_mallocs d)) d)) as [n E]. exists n. etransitivity; [|exact E].
    cbn [arg_on_wire a_bytes arg_bytes fst snd]. unfold arg_len. cbn [fst snd]. assert (0 <= blen b) by (unfold blen; lia).
    rewrite u32_id by lia. by rewrite take_ge by (unfold blen; lia).
Qed.
Lemma call_args_run args : Forall arg_wf args -> forall d : daemon W I, exists n, call_args ok_malloc (map fst args) (map arg_on_wire args) d = (inr args, bump n d).
Proof.
  intros Hw d. pose proof (call_args_decode ok_malloc args (fun _ => eq_refl) Hw d) as H. destruct (quiet_call_args ok_malloc (map fst args) (map arg_on_wire args) d) as [n Hn].
  exists n. destruct (call_args _ _ _ d). cbn [fst snd] in *. by subst.
Qed.
Lemma parse_init_encode name args : blen name < 256 -> Z.of_nat (length args) <= FSQ_MAX_ARGS -> Forall arg_wf args ->
  parse_init (u8 (blen name) :: name ++ put32 (Z.of_nat (length args)) ++ encode_args args) = Some (name, map arg_on_wire args).
Proof.
  intros Hn Ha Hw. assert (0 <= blen name) by (unfold blen; lia). unfold parse_init.
  rewrite u8_id by (unfold byte_ok; lia). replace (Z.to_nat (blen name)) with (length name) by (unfold blen; lia).
  set (q := name ++ _). assert (Hq : q = name ++ fsq_put_u32 (Z.of_nat (length args)) ++ encode_args args) by done. clearbody q. subst q.
  rewrite (proj2 (Nat.ltb_ge _ _)) by (rewrite !length_app, put_u32_length; lia).
  assert (D0 : drop (length name) (name ++ fsq_put_u32 (Z.of_nat (length args)) ++ encode_args args) = fsq_put_u32 (Z.of_nat (length args)) ++ encode_args args) by (by apply drop_app_exact).
  assert (D4 : drop (length name + 4) (name ++ fsq_put_u32 (Z.of_nat (length args)) ++ encode_args args) = encode_args args)
    by (rewrite app_assoc; apply drop_app_exact; by rewrite length_app, put_u32_length).
  rewrite D0, D4, take_app_exact by done. unfold FSQ_MAX_ARGS in *. rewrite get_put_u32 by lia. rewrite (proj2 (Z.ltb_ge 64 _)) by lia.
  by rewrite Nat2Z.id, parse_args_encode.
Qed.

Definition opened_handle (c : Z) (d : daemon W I) (name : list Z) (kind : fsq_kind) (init : UDF_INIT I) (args : list (Item_result * arg_val)) : fsq_handle I :=
  {| hd_id := d_next_handle d; hd_name := name; hd_kind := kind; hd_init := init; hd_types := map fst args; hd_owner := c; hd_cancelled := false |}.
Definition init_body (d : daemon W I) (init : UDF_INIT I) (args : list (Item_result * arg_val)) : list Z :=
  fsq_put_u64 (d_next_handle d) ++ fsq_put_u32 (u32 (ui_max_length init)) ++ [if ui_maybe_null init then 1 else 0] ++
  fsq_put_u32 (Z.of_nat (length args)) ++ map (fun tv : Item_result * arg_val => item_to_wire (fst tv)) args.
Definition opened (c : Z) (d : daemon W I) (w : W) (name : list Z) (kind : fsq_kind) (init : UDF_INIT I) (args : list (Item_result * arg_val)) : daemon W I :=
  set_handles (opened_handle c d name kind init args :: d_handles d)
    (set_ids (u64 (d_next_handle d + 1)) (d_next_conn d) (d_mallocs d) (set_world w d)).
Lemma init_dispatches c h p name kind cls args w init (d : daemon W I) : h_opcode h = OP_INIT ->
  parse_init p = Some (name, map arg_on_wire args) -> find_fn name = Some (name, kind, cls) -> Forall arg_wf args ->
  Forall (fun tv => fst tv <> DECIMAL_RESULT) args -> udf_init name args (d_world d) = (w, inr init) ->
  dispatches c h p d {| r_status := FSQ_OK; r_core_rc := 0; r_body := init_body d init args |} (opened c d w name kind init args).
Proof.
  intros Ho Hp Hf Hw Hd Hi n. unfold dispatch. rewrite Ho. change (OP_INIT =? FSQ_OP_PING) with false. change (OP_INIT =? FSQ_OP_VERSION) with false.
  change (OP_INIT =? FSQ_OP_UDF_INIT) with true. cbv iota. unfold handle_init. rewrite Hp, Hf. cbv zeta.
  do 5 (rewrite (run_bind _ _ _ _ _ (malloc_run _)); cbn [negb andb]; cbv iota).
  rewrite !bump_bump. match goal with |- context [Daemon.bind _ _ ?x] => destruct (const_args_decode args Hw Hd x) as [n1 E1] end. rewrite (run_bind _ _ _ _ _ E1).
  cbn [d_world bump set_ids]. rewrite Hi. cbn [Daemon.malloc ok_malloc negb]. eexists. rewrite length_map. reflexivity.
Qed.
Lemma deinit_dispatches c h p hd l (d : daemon W I) : h_opcode h = OP_DEINIT -> (8 <= length p)%nat -> unlink_handle c (fsq_get_u64 p) (d_handles d) = Some (hd, l) ->
  dispatches c h p d {| r_status := FSQ_OK; r_core_rc := 0; r_body := [] |} (set_world (udf_deinit (hd_name hd) (hd_init hd) (d_world d)) (set_handles l d)).
Proof.
  intros Ho Hp Hu n. unfold dispatch. rewrite Ho. change (OP_DEINIT =? FSQ_OP_PING) with false. change (OP_DEINIT =? FSQ_OP_VERSION) with false.
  change (OP_DEINIT =? FSQ_OP_UDF_INIT) with false. change (OP_DEINIT =? FSQ_OP_UDF_CALL) with false. change (OP_DEINIT =? FSQ_OP_UDF_DEINIT) with true. cbv iota.
  unfold handle_deinit. rewrite (proj2 (Nat.ltb_ge _ _)) by lia. cbn [d_handles bump set_ids]. rewrite Hu. by eexists.
Qed.

(** The type, NULL flag and bytes of a result that is not an error. *)
Definition result_tlv (kind : fsq_kind) (out : udf_out) : Z * bool * list Z :=
  match kind with
  | FSQ_KIND_INT => (FSQ_T_INT, uo_null out, fsq_put_u64 (u64 (uo_val out)))
  | FSQ_KIND_REAL => (FSQ_T_REAL, uo_null out, fsq_put_u64 (uo_val out))
  | _ => if uo_null out then (FSQ_T_STRING, true, []) else (FSQ_T_STRING, false, uo_str out)
  end.
Definition tlv_body (r : Z * bool * list Z) : list Z :=
  let '(t, null, b) := r in [t; if null then 1 else 0] ++ fsq_put_u32 (blen b) ++ b.
(** A result the daemon hands back: no error, and a string within the length
    the function declared. *)
Definition returns (kind : fsq_kind) (init : UDF_INIT I) (out : udf_out) : Prop :=
  uo_err out = false /\
  match kind with FSQ_KIND_CTL => False | FSQ_KIND_STR => blen (uo_str out) <= ui_max_length init | _ => True end.
Lemma upd_other id f (l : list (fsq_handle I)) : Forall (fun h => hd_id h <> id) l -> upd_handle id f l = l.
Proof. induction 1 as [|h l Hh _ IH]; [done|]. unfold upd_handle in *. cbn [map]. rewrite IH. by rewrite (proj2 (Z.eqb_neq _ _)) by done. Qed.

Lemma tlv_run ty null b m (d : daemon W I) : exists n, tlv_result ok_malloc ty null b (bump m d) =
  ({| r_status := FSQ_OK; r_core_rc := 0; r_body := tlv_body (ty, null, b) |}, bump n d).
Proof. by eexists. Qed.
Lemma call_dispatches c h p name args hd l w2 init2 out (d : daemon W I) :
  h_opcode h = OP_CALL -> h_context h = 0 -> parse_call p = Some (name, hd_id hd, map arg_on_wire args) -> Forall arg_wf args ->
  d_handles d = hd :: l -> hd_owner hd = c -> hd_name hd = name -> hd_types hd = map fst args -> hd_cancelled hd = false ->
  Forall (fun x => hd_id x <> hd_id hd) l -> udf_main name (hd_init hd) args (d_world d) = (w2, init2, out) -> returns (hd_kind hd) init2 out ->
  dispatches c h p d {| r_status := FSQ_OK; r_core_rc := 0; r_body := tlv_body (result_tlv (hd_kind hd) out) |}
    (set_handles (with_init init2 hd :: l) (set_world w2 d)).
Proof.
  intros Ho Hc Hp Hw Hl Hown Hn Ht Hcan Hfr Hm [Herr Hret] n. unfold dispatch. rewrite Ho, Hc. change (OP_CALL =? FSQ_OP_PING) with false.
  change (OP_CALL =? FSQ_OP_VERSION) with false. change (OP_CALL =? FSQ_OP_UDF_INIT) with false. change (OP_CALL =? FSQ_OP_UDF_CALL) with true. cbv iota.
  assert (Hfind : forall hs, handle_find_locked c (hd_id hd) (hd :: hs) = Some hd) by (intros; unfold handle_find_locked; cbn [List.find]; by rewrite Hown, !Z.eqb_refl).
  assert (Hfind2 : forall hs, handle_find_locked c (hd_id hd) (with_init init2 hd :: hs) = Some (with_init init2 hd))
    by (intros; unfold handle_find_locked; cbn [List.find with_init hd_id hd_owner]; by rewrite Hown, !Z.eqb_refl).
  unfold handle_call.
  assert (Hfront : exists n1, call_front ok_malloc c 0 p (bump n d) =
    (inr {| cl_token := 0; cl_id := hd_id hd; cl_name := name; cl_kind := hd_kind hd; cl_args := args |}, bump n1 d)).
  { unfold call_front. rewrite Hp. unfold Daemon.bind at 1. change (0 =? 0) with true. cbv iota. cbn [d_handles bump set_ids]. rewrite Hl, Hfind, Hn, Ht.
    unfold bytes_eqb. rewrite bool_decide_true by done. rewrite !length_map, Nat.eqb_refl, Hcan. cbn [negb orb].
    destruct (call_args_run args Hw (bump n d)) as [n2 E2]. rewrite (run_bind _ _ _ _ _ E2).
    destruct (hd_kind hd); [by eexists| |by eexists|by eexists]. rewrite (run_bind _ _ _ _ _ (malloc_run _)). cbn [negb]. by eexists. }
  destruct Hfront as [n1 Ef]. rewrite (run_bind _ _ _ _ _ Ef).
  assert (Eexec : call_exec c {| cl_token := 0; cl_id := hd_id hd; cl_name := name; cl_kind := hd_kind hd; cl_args := args |} (bump n1 d) =
    (out, bump n1 (set_handles (with_init init2 hd :: l) (set_world w2 d)))).
  { unfold call_exec. cbn [cl_id cl_name cl_args d_handles bump set_ids d_world]. rewrite Hl, Hfind, Hm. unfold upd_handle. cbn [map]. rewrite Z.eqb_refl.
    fold (upd_handle (hd_id hd) (with_init init2) l). by rewrite upd_other. }
  rewrite (run_bind _ _ _ _ _ Eexec). set (d2 := set_handles _ _).
  assert (Eres : exists n3, call_result ok_malloc c {| cl_token := 0; cl_id := hd_id hd; cl_name := name; cl_kind := hd_kind hd; cl_args := args |} out (bump n1 d2) =
    ({| r_status := FSQ_OK; r_core_rc := 0; r_body := tlv_body (result_tlv (hd_kind hd) out) |}, bump n3 d2)).
  { unfold call_result. cbn [cl_kind cl_id]. rewrite Herr. destruct (hd_kind hd); [done| | |]; cbn [result_tlv].
    - destruct (uo_null out); [apply tlv_run|]. unfold max_length_of. cbn [d_handles bump set_ids d2 set_handles]. rewrite Hfind2. cbn [with_init hd_init].
      rewrite (proj2 (Z.ltb_ge _ _)) by done. apply tlv_run.
    - apply tlv_run.
    - apply tlv_run. }
  destruct Eres as [n3 Er]. unfold call_finish. rewrite (run_bind _ _ _ _ _ Er). unfold Daemon.bind, call_record. cbn [cl_token Z.eqb negb andb]. by eexists.
Qed.

(** ** The call command *)

(** What is printed for a result. *)
Definition shown (kind : fsq_kind) (out : udf_out) : list Z :=
  if uo_null out then bs "NULL"
  else match kind with
  | FSQ_KIND_INT => dec_d (s64 (u64 (uo_val out)))
  | FSQ_KIND_REAL => fmt_g 17 (bits_double (uo_val out))
  | _ => cstr (uo_str out)
  end.
Definition out_fits (kind : fsq_kind) (out : udf_out) : Prop :=
  match kind with FSQ_KIND_STR => blen (uo_str out) + 14 <= FSQ_MAX_PAYLOAD | FSQ_KIND_REAL => 0 <= uo_val out < 2 ^ 64 | _ => True end.
Lemma tlv_fields t null b : 0 <= blen b < 2 ^ 32 ->
  at_ (tlv_body (t, null, b)) 0 = t /\ at_ (tlv_body (t, null, b)) 1 = (if null : bool then 1 else 0) /\
  get32 (drop 2 (tlv_body (t, null, b))) = blen b /\ drop 6 (tlv_body (t, null, b)) = b /\ blen (tlv_body (t, null, b)) = 6 + blen b.
Proof.
  intros Hb. unfold tlv_body. set (n := if null : bool then 1 else 0). cbn [app]. split; [done|]. split; [done|].
  change (drop 2 (t :: n :: ?x)) with x. change (drop 6 (t :: n :: fsq_put_u32 (blen b) ++ ?x)) with x. split_and!; [by apply (get_put_u32 (blen b))|done|].
  unfold blen. cbn [length]. rewrite length_app, put_u32_length. lia.
Qed.
Lemma get64_wire p : get64 p = fsq_get_u64 p.
Proof. unfold get64, fsq_get_u64. reflexivity. Qed.
Lemma get_put_u64_alone v : 0 <= v < 2 ^ 64 -> get64 (fsq_put_u64 v) = v.
Proof. intros Hv. rewrite get64_wire, <- (app_nil_r (fsq_put_u64 v)). exact (get_put_u64 v [] Hv). Qed.
Lemma result_shown kind out : out_fits kind out -> kind <> FSQ_KIND_CTL ->
  let b := tlv_body (result_tlv kind out) in result_text b = shown kind out /\ blen b = 6 + get32 (drop 2 b) /\ 6 <= blen b /\ blen b + 8 <= FSQ_MAX_PAYLOAD.
Proof.
  intros Hf Hk b. subst b. unfold result_text, shown. destruct kind; [done| | |]; cbn [result_tlv out_fits] in *; unfold FSQ_MAX_PAYLOAD in *.
  - assert (H0 : 0 <= blen (uo_str out)) by (unfold blen; lia). destruct (uo_null out).
    + destruct (tlv_fields FSQ_T_STRING true [] ltac:(split; [done|reflexivity])) as (-> & -> & -> & -> & ->). change (blen []) with 0. split_and!; try done; lia.
    + destruct (tlv_fields FSQ_T_STRING false (uo_str out) ltac:(lia)) as (-> & -> & -> & -> & ->). change (0 =? 0) with true.
      change (FSQ_T_STRING =? T_INT) with false. change (FSQ_T_STRING =? T_REAL) with false. cbn [negb andb]. rewrite take_ge by (unfold blen; lia). split_and!; try done; lia.
  - destruct (tlv_fields FSQ_T_INT (uo_null out) (fsq_put_u64 (u64 (uo_val out))) ltac:(split; [done|reflexivity])) as (-> & -> & -> & -> & ->). unfold blen. rewrite put_u64_length.
    rewrite (get_put_u64_alone (u64 (uo_val out))) by apply u64_range.
    destruct (uo_null out); cbn [negb Z.eqb andb]; split_and!; try done; lia.
  - destruct (tlv_fields FSQ_T_REAL (uo_null out) (fsq_put_u64 (uo_val out)) ltac:(split; [done|reflexivity])) as (-> & -> & -> & -> & ->). unfold blen. rewrite put_u64_length.
    rewrite (get_put_u64_alone (uo_val out)) by done.
    destruct (uo_null out); cbn [negb Z.eqb andb]; split_and!; try done; lia.
Qed.
Lemma init_body_fields (d : daemon W I) init args : 0 <= d_next_handle d < 2 ^ 64 -> Z.of_nat (length args) <= FSQ_MAX_ARGS ->
  get64 (init_body d init args) = d_next_handle d /\ get32 (drop 13 (init_body d init args)) = Z.of_nat (length args) /\
  blen (init_body d init args) = 17 + Z.of_nat (length args).
Proof.
  unfold FSQ_MAX_ARGS. intros Hh Ha. unfold init_body. split_and!.
  - rewrite get64_wire. by apply (get_put_u64 (d_next_handle d)).
  - assert (E : drop 13 (fsq_put_u64 (d_next_handle d) ++ fsq_put_u32 (u32 (ui_max_length init)) ++ [if ui_maybe_null init then 1 else 0] ++
      fsq_put_u32 (Z.of_nat (length args)) ++ map (fun tv : Item_result * arg_val => item_to_wire (fst tv)) args) = fsq_put_u32 (Z.of_nat (length args)) ++ map (fun tv : Item_result * arg_val => item_to_wire (fst tv)) args).
    { rewrite !app_assoc, <- app_assoc. apply drop_app_exact. rewrite !length_app, put_u64_length, put_u32_length. done. }
    rewrite E. apply (get_put_u32 (Z.of_nat (length args))). lia.
  - unfold blen. rewrite !length_app, put_u64_length, !put_u32_length, length_map. cbn [length]. lia.
Qed.
Lemma names_short name kind cls : find_fn name = Some (name, kind, cls) -> existsb (fun f => bytes_eqb f name) fsqlctl_fns = true /\ 0 <= blen name <= FSQC_MAX_FN_NAME /\ kind <> FSQ_KIND_CTL.
Proof.
  intros [Hin _]%find_fn_in. assert (Hall : forallb (fun f => (blen (fst (fst f)) <=? FSQC_MAX_FN_NAME) && negb (bool_decide (snd (fst f) = FSQ_KIND_CTL))) functions_def = true) by (vm_compute; reflexivity).
  rewrite forallb_forall in Hall. specialize (Hall _ Hin). cbn [fst snd] in Hall. apply andb_true_iff in Hall as [H1 H2]. split_and!.
  - apply existsb_exists. exists name. split; [|by apply bytes_eqb_true]. unfold fsqlctl_fns. apply in_map_iff. by exists (name, kind, cls).
  - unfold blen; lia.
  - lia.
  - apply negb_true_iff, bool_decide_eq_false in H2. done.
Qed.

(** The daemon afterwards: the statement is closed, and only the adapter's
    world and the handle counter have moved. *)
Definition after_call (name : list Z) (init : UDF_INIT I) (w : W) (d d' : daemon W I) : Prop :=
  exists n, d' = set_world (udf_deinit name init w) (set_ids (u64 (d_next_handle d + 1)) (d_next_conn d) n d).
Abbreviation at_wire key d c id m o :=
  {| c_key := key; c_env := {| wi_d := d; wi_conn := Some c; wi_in := [] |}; c_next_id := id; c_mallocs := m; c_out := o |} (only parsing).

Lemma deinit_served c id m o d hd l : 0 <= id < 2 ^ 32 -> 0 <= hd_id hd < 2 ^ 64 -> d_handles d = hd :: l -> hd_owner hd = c ->
  exists m' n, deinit hmac all_mem (hd_id hd) (at_wire (DaemonConf.key_bytes cur) d c id m o) =
    (tt, at_wire (DaemonConf.key_bytes cur) (bump n (set_world (udf_deinit (hd_name hd) (hd_init hd) (d_world d)) (set_handles l d))) c (u32 (id + 1)) m' o).
Proof.
  intros Hid Hh Hl Ho. assert (Hlen : length (put64 (hd_id hd)) = 8%nat) by done.
  assert (Hu : unlink_handle c (fsq_get_u64 (put64 (hd_id hd))) (d_handles d) = Some (hd, l)).
  { change (put64 (hd_id hd)) with (fsq_put_u64 (hd_id hd)). rewrite <- (app_nil_r (fsq_put_u64 _)), get_put_u64, Hl by done. cbn [unlink_handle]. by rewrite Ho, !Z.eqb_refl. }
  destruct (roundtrip_served c OP_DEINIT (put64 (hd_id hd)) (DaemonConf.key_bytes cur) id m o d
    (set_world (udf_deinit (hd_name hd) (hd_init hd) (d_world d)) (set_handles l d)) {| r_status := FSQ_OK; r_core_rc := 0; r_body := [] |}) as (m' & n & E); [done|done| | | | |].
  - unfold OP_DEINIT. lia.
  - unfold blen. by rewrite Hlen.
  - apply deinit_dispatches; [done|lia|done].
  - split_and!; done.
  - exists m', n. unfold deinit. by rewrite (crun _ _ _ _ _ E).
Qed.

Lemma call_served name kind cls args tlvs w1 init w2 init2 out c id m o d words :
  find_fn name = Some (name, kind, cls) -> map parse_arg words = tlvs -> put_tlvs underflow tlvs = Some (encode_args args) ->
  length words = length args -> Forall arg_wf args -> Forall (fun tv => fst tv <> DECIMAL_RESULT) args ->
  Z.of_nat (length args) <= FSQ_MAX_ARGS -> blen (encode_args args) + 128 <= FSQ_MAX_PAYLOAD ->
  udf_init name args (d_world d) = (w1, inr init) -> udf_main name init args w1 = (w2, init2, out) -> returns kind init2 out -> out_fits kind out ->
  0 <= id < 2 ^ 32 -> 0 <= d_next_handle d < 2 ^ 64 -> Forall (fun h => hd_id h <> d_next_handle d) (d_handles d) ->
  exists m' id' d', cmd_call hmac all_mem underflow name words (at_wire (DaemonConf.key_bytes cur) d c id m o) =
    (EXIT_OK, at_wire (DaemonConf.key_bytes cur) d' c id' m' (o ++ shown kind out ++ [10])) /\ after_call name init2 w2 d d'.
Proof.
  intros Hf <- Htl Hn Hw Hdec Hargs Hsz Hi Hmain Hret Hfit Hid Hnh Hfresh.
  destruct (names_short name kind cls Hf) as (Hex & Hnl & Hk). unfold FSQC_MAX_FN_NAME in Hnl. assert (He : 0 <= blen (encode_args args)) by (unfold blen; lia).
  assert (HM : FSQ_MAX_PAYLOAD = 83886080) by reflexivity. assert (HA : FSQ_MAX_ARGS = 64) by reflexivity.
  unfold cmd_call. rewrite Hex. cbn [negb]. unfold FSQC_MAX_FN_NAME, FSQC_MAX_ARGS. rewrite (proj2 (Z.ltb_ge 63 _)) by lia. rewrite Hn. cbv zeta. rewrite (proj2 (Z.ltb_ge 64 _)) by lia.
  unfold bind at 1, malloc at 1. cbn [negb]. unfold upd. cbn [c_env c_key c_next_id c_mallocs c_out].
  unfold bind at 1, malloc at 1. cbn [negb]. unfold upd. cbn [c_env c_key c_next_id c_mallocs c_out]. rewrite Htl.
  set (p := u8 (blen name) :: name ++ put32 (Z.of_nat (length args)) ++ encode_args args).
  assert (Hp : blen p = 5 + blen name + blen (encode_args args)) by (unfold p, blen; cbn [length]; rewrite !length_app; change (length (put32 (Z.of_nat (length args)))) with 4%nat; lia).
  destruct (init_body_fields d init args Hnh Hargs) as (B1 & B2 & B3).
  destruct (roundtrip_served c OP_INIT p (DaemonConf.key_bytes cur) id (S (S m)) o d (opened c d w1 name kind init args)
    {| r_status := FSQ_OK; r_core_rc := 0; r_body := init_body d init args |}) as (m1 & n1 & E1).
  { done. } { done. } { unfold OP_INIT. lia. } { lia. }
  { eapply init_dispatches; [done|apply parse_init_encode; [lia|done|done]|exact Hf|done|done|exact Hi]. }
  { split_and!; cbn [r_status r_core_rc r_body]; unfold FSQ_OK; lia. }
  rewrite (crun _ _ _ _ _ E1). cbn [status body r_status r_body]. change (FSQ_OK =? 0) with true. cbn [negb]. rewrite B3, B2, B1.
  rewrite (proj2 (Z.ltb_ge _ 17)) by lia. rewrite Z.eqb_refl, u32_id by lia. rewrite Z.eqb_refl. cbn [negb orb].
  set (d1 := bump n1 (opened c d w1 name kind init args)) in *. set (hd := opened_handle c d name kind init args).
  unfold call_opened. unfold bind at 1, malloc at 1. cbn [negb]. unfold upd. cbn [c_env c_key c_next_id c_mallocs c_out].
  set (p2 := u8 (blen name) :: name ++ put64 (d_next_handle d) ++ put32 (Z.of_nat (length args)) ++ encode_args args).
  assert (Hp2 : blen p2 = 13 + blen name + blen (encode_args args)).
  { unfold p2, blen. cbn [length]. rewrite !length_app. change (length (put32 (Z.of_nat (length args)))) with 4%nat. change (length (put64 (d_next_handle d))) with 8%nat. lia. }
  assert (Ep2 : p2 = call_req name (d_next_handle d) args).
  { unfold p2, call_req. rewrite u8_id by (unfold byte_ok; lia). by rewrite (take_ge name) by (unfold blen; lia). }
  destruct (result_shown kind out Hfit Hk) as (R1 & R2 & R3 & R4). set (rb := tlv_body (result_tlv kind out)) in *.
  destruct (roundtrip_served c OP_CALL p2 (DaemonConf.key_bytes cur) (u32 (id + 1)) (S m1) o d1
    (set_handles (with_init init2 hd :: d_handles d) (set_world w2 d1)) {| r_status := FSQ_OK; r_core_rc := 0; r_body := rb |}) as (m2 & n2 & E2).
  { done. } { apply u32_range. } { unfold OP_CALL. lia. } { lia. }
  { eapply (call_dispatches c _ p2 name args hd (d_handles d) w2 init2 out d1); try done. rewrite Ep2. by apply (parse_call_encode name (d_next_handle d)); [lia|..]. }
  { split_and!; cbn [r_status r_core_rc r_body]; unfold FSQ_OK; lia. }
  rewrite (crun _ _ _ _ _ E2). cbn [status body r_status r_body]. change (FSQ_OK =? 0) with true. cbn [negb].
  rewrite (proj2 (Z.ltb_ge _ 6)) by lia. rewrite u32_id by lia. rewrite <- R2, Z.eqb_refl. cbn [negb orb]. rewrite R1.
  unfold bind at 1, printf at 1. unfold upd. cbn [c_env c_key c_next_id c_mallocs c_out].
  set (d2 := bump n2 (set_handles (with_init init2 hd :: d_handles d) (set_world w2 d1))).
  destruct (deinit_served c (u32 (u32 (id + 1) + 1)) m2 (o ++ shown kind out ++ [10]) d2 (with_init init2 hd) (d_handles d)) as (m3 & n3 & E3); [apply u32_range|done|done|done|].
  change (hd_id (with_init init2 hd)) with (d_next_handle d) in E3. rewrite (crun _ _ _ _ _ E3). eexists _, _, _. split; [reflexivity|]. exists n3. reflexivity.
Qed.

(** C10: [fsqlctl call] against a daemon with the same key file that lets the
    user in: the command exits with 0 and prints the value the function's body
    returned for the very arguments on the command line; the body ran once,
    between its init and its deinit, and the daemon is left as it was but for
    the adapter's world and its counters. *)
Theorem call_over_daemon getenv files exists_ opts socket keyfile name kind cls words args w1 init w2 init2 out (d : daemon W I) key0 :
  options opts (default DEFAULT_SOCKET (getenv (bs "FSQLCTL_SOCKET"))) (default DEFAULT_KEY (getenv (bs "FSQLCTL_KEY"))) = inr (socket, keyfile) ->
  blen socket < 108 -> DaemonConf.load_key (files keyfile) = Some (DaemonConf.key_bytes cur) -> peer_allowed cred cur = true ->
  find_fn name = Some (name, kind, cls) -> mapM (arg_of underflow) (map parse_arg words) = Some args -> Forall (fun w => blen w < 2 ^ 32) words ->
  Z.of_nat (length args) <= FSQ_MAX_ARGS -> blen (encode_args args) + 128 <= FSQ_MAX_PAYLOAD ->
  udf_init name args (d_world d) = (w1, inr init) -> udf_main name init args w1 = (w2, init2, out) -> returns kind init2 out -> out_fits kind out ->
  0 <= d_next_handle d < 2 ^ 64 -> Forall (fun h => hd_id h <> d_next_handle d /\ hd_owner h <> d_next_conn d) (d_handles d) ->
  let '(code, s) := ctl_main hmac all_mem underflow getenv files exists_ opts (bs "call" :: name :: words)
    {| c_key := key0; c_env := {| wi_d := d; wi_conn := None; wi_in := [] |}; c_next_id := 1; c_mallocs := 0; c_out := [] |} in
  code = EXIT_OK /\ c_out s = shown kind out ++ [10] /\
  exists n, wi_d (c_env s) = set_world (udf_deinit name init2 w2) (set_ids (u64 (d_next_handle d + 1)) (u64 (d_next_conn d + 1)) n d).
Proof.
  intros Hopt Hsock Hkey Hpeer Hf Hargs Hw Hn Hsz Hi Hmain Hret Hfit Hnh Hfresh.
  assert (Hfit2 : Forall text_fits (map parse_arg words)) by (apply Forall_map; eapply Forall_impl; [exact Hw|]; apply parse_arg_fits).
  destruct (args_well_formed underflow (map parse_arg words) args Hfit2 Hargs) as (Hwf & Hdec & Hlen). rewrite length_map in Hlen.
  pose proof (put_tlvs_args underflow (map parse_arg words) args Hfit2 Hargs) as Htl.
  unfold ctl_main. rewrite Hopt. change (bytes_eqb (bs "call") (bs "check")) with false. cbv iota. rewrite keys_agree, Hkey.
  unfold bind at 1, set_key at 1. cbn [c_env c_key c_next_id c_mallocs c_out]. unfold bind at 1, connect_daemon at 1. rewrite (proj2 (Z.leb_gt _ _)) by lia.
  cbn [c_env sock_connect wire_transport wi_d next_conn_id]. rewrite Hpeer. cbn [negb]. unfold upd. cbn [c_env c_key c_next_id c_mallocs c_out].
  set (d0 := set_ids (d_next_handle d) (u64 (d_next_conn d + 1)) (d_mallocs d) d).
  change (command hmac all_mem underflow (name :: words) (bs "call")) with (cmd_call hmac all_mem underflow name words).
  destruct (call_served name kind cls args (map parse_arg words) w1 init w2 init2 out (d_next_conn d) 1 0%nat [] d0 words) as (m' & id' & d' & E & n & Hd'); try done; try lia.
  { eapply Forall_impl; [exact Hfresh|]. by intros h []. }
  rewrite (crun _ _ _ _ _ E). unfold bind, close, upd, ret. cbn [c_env c_key c_next_id c_mallocs c_out app]. split; [done|]. split; [done|].
  cbn [sock_close wire_transport hang_up wi_conn wi_d]. exists n. rewrite Hd', release_none; [done|]. eapply Forall_impl; [exact Hfresh|]. by intros h [].
Qed.
End Over.

(** The user's key file and the daemon's are one; uid 0 is let in. *)
Definition demo_conf : fsq_config := with_limits 64 300 [0] [1; 2; 3] config0.
Lemma call_over_daemon_witness :
  let '(code, s) := ctl_main (TR := wire_transport (repeat 0 64) (bs "1.0") sys0 demo_conf (Some 0)) (fsq_hmac_sha256 (repeat 0 64)) (fun _ => true) (fun _ => false)
    (fun _ => None) (fun _ => Some (bs "010203")) (fun _ => true) [] (bs "call" :: load_fn :: [bs "s:x"; bs "i:-5"; bs "NULL"])
    {| c_key := []; c_env := {| wi_d := dd0; wi_conn := None; wi_in := [] |}; c_next_id := 1; c_mallocs := 0; c_out := [] |} in
  code = EXIT_OK /\ c_out s = bs "42" ++ [10] /\ d_handles (wi_d (c_env s)) = [].
Proof.
  pose (w1 := {| w_opened := [load_fn]; w_closed := []; w_log := [] |}).
  pose (ini := {| ui_max_length := 4; ui_maybe_null := false; ui_ptr := tt |}).
  pose (out := {| uo_err := false; uo_null := false; uo_str := bs "12345"; uo_val := 42 |}).
  pose proof (call_over_daemon (repeat 0 64) (bs "1.0") sys0 demo_conf (Some 0) (fun _ => false) (fun _ => None) (fun _ => Some (bs "010203")) (fun _ => true) []
    DEFAULT_SOCKET DEFAULT_KEY load_fn FSQ_KIND_INT cls_s [bs "s:x"; bs "i:-5"; bs "NULL"]
    [(STRING_RESULT, AV_str (bs "x")); (INT_RESULT, AV_int (-5)); (STRING_RESULT, AV_null)] w1 ini
    {| w_opened := [load_fn]; w_closed := []; w_log := [load_fn] |} ini out dd0 []) as H.
  do 6 (specialize (H ltac:(vm_compute; first [reflexivity | repeat constructor]))).
  specialize (H ltac:(repeat constructor)). specialize (H ltac:(vm_compute; discriminate)). specialize (H ltac:(vm_compute; discriminate)).
  specialize (H ltac:(reflexivity)). specialize (H ltac:(reflexivity)). specialize (H ltac:(split; exact eq_refl || exact Logic.I)). specialize (H Logic.I).
  specialize (H ltac:(vm_compute; split; [discriminate|reflexivity])). specialize (H ltac:(constructor)).
  match type of H with (let '(_, _) := ?m in _) => destruct m as [code s] end. destruct H as (Hc & Ho & n & Hd).
  split; [exact Hc|]. split; [exact Ho|]. rewrite Hd. reflexivity.
Defined.
