(* ===== verification/McpConf.v ===== *)
(** * The MCP server's hold on the daemon's configuration
    (mcp/src/conf_file.cpp, policy.h, adapters/admin.cpp)

    The file as a map, read and written back whole; the operator's switches;
    and the two tools that change a key.  A std::map is the list of its
    entries in the order of their keys.  What the file system answers is an
    oracle; the daemon's reload is a parameter, the answer to a file. *)

From S2P Require Import Prelude DaemonConf.

(** ** Maps *)

Definition conf : Type := list (list Z * list Z).
Fixpoint bytes_ltb (a b : list Z) : bool :=
  match a, b with
  | _, [] => false
  | [], _ :: _ => true
  | x :: a, y :: b => (x <? y) || ((x =? y) && bytes_ltb a b)
  end.
Fixpoint conf_find (k : list Z) (m : conf) : option (list Z) :=
  match m with
  | [] => None
  | (k', v) :: m => if bytes_eqb k k' then Some v else conf_find k m
  end.
Fixpoint conf_set (k v : list Z) (m : conf) : conf :=
  match m with
  | [] => [(k, v)]
  | (k', v') :: r => if bytes_eqb k k' then (k, v) :: r else if bytes_ltb k k' then (k, v) :: m else (k', v') :: conf_set k v r
  end.

(** ** conf_file.cpp *)

Definition kSecretKeys : list (list Z) := [bs "reasoning_token"; bs "enterprise_ledger_key"; bs "http_token"].
Definition kOperatorOnlyKeys : list (list Z) :=
  [bs "enterprise_lib"; bs "enterprise_ledger_path"; bs "enterprise_ledger_key"; bs "enterprise_require_signature"].
Definition kEditableKeys : list (list Z) :=
  [bs "reasoning_plugin"; bs "reasoning_url"; bs "reasoning_token"; bs "reasoning_model"; bs "reasoning_allow_plaintext";
   bs "embed_url"; bs "embed_model"; bs "think"; bs "think_provider"; bs "think_native_url"; bs "think_num_ctx";
   bs "t2s_max_attempts"; bs "t2s_allowed_statements"; bs "t2s_use_review"].
Definition kPathKeys : list (list Z) := [bs "reasoning_plugin"; bs "enterprise_lib"; bs "enterprise_ledger_path"].
Definition is_in (l : list (list Z)) (k : list Z) : bool := existsb (bytes_eqb k) l.
Definition isSecretKey (k : list Z) : bool := is_in kSecretKeys k.
Definition isOperatorOnlyKey (k : list Z) : bool := is_in kOperatorOnlyKeys k.
Definition isEditableKey (k : list Z) : bool := is_in kEditableKeys k.
Definition isPathKey (k : list Z) : bool := is_in kPathKeys k.

(** A line feed, a carriage return or a NUL. *)
Definition lineBreakProblem (s : list Z) : bool := existsb (fun c => (c =? 10) || (c =? 13) || (c =? 0)) s.
Fixpoint has_dotdot (s : list Z) : bool :=
  match s with
  | c :: ((d :: _) as r) => ((c =? 46) && (d =? 46)) || has_dotdot r
  | _ => false
  end.
(** The POSIX branch. *)
Definition pathProblem (key value : list Z) : bool :=
  if negb (isPathKey key) then false
  else match value with
  | [] => true
  | c :: _ => negb (c =? 47) || has_dotdot value
  end.

Definition trim (s : list Z) : list Z := rtrim isspace (drop_while isspace s).
(** std::getline: the pieces between line feeds; no piece after the last one. *)
Fixpoint getlines (s : list Z) : list (list Z) :=
  match s with
  | [] => []
  | c :: r => if c =? 10 then [] :: getlines r else match getlines r with l :: ls => (c :: l) :: ls | [] => [[c]] end
  end.
Definition readConf_line (m : conf) (line : list Z) : conf :=
  match trim line with
  | [] => m
  | c :: _ =>
      if c =? 35 then m
      else match split_eq (trim line) with
           | None => m
           | Some (k, v) => match trim k with [] => m | k => conf_set k (trim v) m end
           end
  end.
(** [None]: the file cannot be opened. *)
Definition readConf (file : option (list Z)) : option conf :=
  content ← file; Some (fold_left readConf_line (getlines content) []).

Inductive ErrorClass := Schema | Engine | Connectivity | Cancelled | ServerInternal.
(** What the system does with the temporary file; [cio_stored] is what of the
    text is in it when it is renamed. *)
Record conf_io := { cio_open : bool; cio_stored : list Z -> list Z; cio_rename : bool }.
Definition conf_text_line (kv : list Z * list Z) : list Z := fst kv ++ bs " = " ++ snd kv ++ [10].
Definition conf_render (m : conf) : list Z := flat_map conf_text_line m.
(** The new content of the file, or why it is as it was. *)
Definition writeConf (io : conf_io) (m : conf) : ErrorClass + list Z :=
  if existsb (fun kv => lineBreakProblem (fst kv) || lineBreakProblem (snd kv)) m then inl Schema
  else if negb (cio_open io) then inl Connectivity
  else if negb (cio_rename io) then inl Connectivity
  else inr (cio_stored io (conf_render m)).

(** ** policy.h *)

Section Policy.
Context (getenv : list Z -> option (list Z)).
Definition policyLower (s : list Z) : list Z := map lower s.
Definition policyEnv (name : list Z) : list Z :=
  match getenv name with
  | None => []
  | Some v => policyLower (rtrim is_blank_tab (drop_while is_blank_tab v))
  end.
Definition yes_word (s : list Z) : bool := is_in [bs "on"; bs "1"; bs "true"; bs "yes"] s.
Definition policyEnvTrue (name : list Z) : bool := yes_word (policyEnv name).
Inductive ConfigWritesMode := WritesOff | WritesSafe | WritesAll.
Definition configWritesMode : ConfigWritesMode :=
  let s := policyEnv (bs "FSQL_MCP_CONFIG_WRITES") in
  if is_in [bs "off"; bs "0"; bs "false"; bs "no"] s then WritesOff
  else if bytes_eqb s (bs "all") || yes_word s then WritesAll else WritesSafe.
Definition autoExecuteAllowed : bool := policyEnvTrue (bs "FSQL_MCP_ALLOW_AUTO_EXECUTE").
Definition modernEraOnly : bool := bytes_eqb (policyEnv (bs "FSQL_MCP_PROTOCOL_ERA")) (bs "modern").
Definition isSafeConfigKey (k : list Z) : bool := is_in [bs "reasoning_model"; bs "embed_model"; bs "think"] k.
Definition configWriteAllowed (k : list Z) : bool :=
  match configWritesMode with WritesOff => false | WritesAll => true | WritesSafe => isSafeConfigKey k end.

(** ** adapters/admin.cpp *)

(** A tool's answer: whether the daemon took the reload, the keys changed. *)
Record outcome := { reloaded : bool; changed_keys : list (list Z); old_new : list (list Z * list Z) }.
Definition REDACTED : list Z := bs "<redacted>".
Definition shown_value (key value : list Z) : list Z := if isSecretKey key then REDACTED else value.

(** [reload] is the daemon's answer to RELOAD with this file. *)
Context (io : conf_io) (reload : list Z -> bool).

Definition whole_number (lo hi : Z) (value : list Z) : bool :=
  let '(n, e) := strtol (cstr value) in bytes_eqb e [] && (lo <=? n) && (n <=? hi).
(** The value as it will be stored, [None] when it is refused. *)
Definition checked_value (key value : list Z) : option (list Z) :=
  if bytes_eqb key (bs "t2s_max_attempts") && negb (whole_number 1 10 value) then None
  else if bytes_eqb key (bs "t2s_allowed_statements") && negb (is_in [bs "select"; bs "select_insert_update"] value) then None
  else
    let value := if bytes_eqb key (bs "t2s_use_review") then if is_in [bs "0"; bs "false"; bs "no"] value then bs "0" else bs "1" else value in
    if bytes_eqb key (bs "think_num_ctx") && negb (whole_number 1 10000000 value) then None
    else if pathProblem key value then None
    else if forallb isspace value then None
    else Some value.

(** The file after the call, and the answer or the error. *)
Definition set_config (key value : list Z) (file : option (list Z)) : option (list Z) * (ErrorClass + outcome) :=
  if isOperatorOnlyKey key then (file, inl Schema)
  else if negb (isEditableKey key) then (file, inl Schema)
  else if negb (configWriteAllowed key) then (file, inl Schema)
  else match checked_value key value with
  | None => (file, inl Schema)
  | Some value =>
  match readConf file with
  | None => (file, inl Connectivity)
  | Some old =>
  match writeConf io (conf_set key value old) with
  | inl e => (file, inl e)
  | inr new =>
      (Some new, inr {| reloaded := reload new; changed_keys := [key];
                        old_new := [(shown_value key (default [] (conf_find key old)), shown_value key value)] |})
  end
  end
  end.

(** The arguments of fractalsql_configure_reasoning, [None] when absent. *)
Record reasoning_args := { provider_url : option (list Z); embed_url_ : option (list Z); model : option (list Z);
  embed_model_ : option (list Z); allow_plaintext : option bool; think_mode : option (list Z) }.
Definition add_change (k : list Z) (v : option (list Z)) (m : conf) : conf := match v with Some v => conf_set k v m | None => m end.
Definition reasoning_changes (a : reasoning_args) : conf :=
  add_change (bs "think") (think_mode a)
  (add_change (bs "reasoning_allow_plaintext") (b ← allow_plaintext a; Some (if b : bool then bs "1" else bs "0"))
  (add_change (bs "embed_model") (embed_model_ a) (add_change (bs "reasoning_model") (model a)
  (add_change (bs "embed_url") (embed_url_ a) (add_change (bs "reasoning_url") (provider_url a) []))))).
Definition configure_reasoning (a : reasoning_args) (file : option (list Z)) : option (list Z) * (ErrorClass + outcome) :=
  let changes := reasoning_changes a in
  match changes with
  | [] => (file, inl Schema)
  | _ =>
  match readConf file with
  | None => (file, inl Connectivity)
  | Some old =>
  if existsb (fun kv => negb (configWriteAllowed (fst kv))) changes then (file, inl Schema)
  else match writeConf io (fold_left (fun m kv => conf_set (fst kv) (snd kv) m) changes old) with
  | inl e => (file, inl e)
  | inr new =>
      (Some new, inr {| reloaded := reload new; changed_keys := map fst changes;
                        old_new := map (fun kv => (shown_value (fst kv) (default [] (conf_find (fst kv) old)), shown_value (fst kv) (snd kv))) changes |})
  end
  end
  end.

(** fractalsql_get_config for a key that is not a text-to-sql one. *)
Definition get_config (key : list Z) (file : option (list Z)) : ErrorClass + option (list Z) :=
  if isOperatorOnlyKey key then inl Schema
  else if isSecretKey key then inl Schema
  else match readConf file with None => inl Connectivity | Some m => inr (conf_find key m) end.
Definition get_config_all (file : option (list Z)) : ErrorClass + conf :=
  match readConf file with
  | None => inl Connectivity
  | Some m => inr (map (fun kv => (fst kv, if isSecretKey (fst kv) then REDACTED else snd kv)) m)
  end.
End Policy.
