(* ===== verification/McpConfProofs.v ===== *)
(** * The MCP server's hold on the daemon's configuration: proofs

    What is written is read back, by this server and by the daemon; what a
    call can change; and where a long value or a full disk breaks that. *)

From stdpp Require Import gmap.
From S2P Require Import Prelude DaemonConf McpConf.

(** ** Trimming *)

Lemma drop_while_all f (a b : list Z) : forallb f a = true -> drop_while f (a ++ b) = drop_while f b.
Proof. induction a as [|x a IH]; [done|]. cbn [forallb app drop_while]. intros H. bools. rewrite H. by apply IH. Qed.
Lemma drop_while_head f (a : list Z) : drop_while f a = [] \/ exists x r, drop_while f a = x :: r /\ f x = false.
Proof. induction a as [|x a IH]; [by left|]. cbn [drop_while]. destruct (f x) eqn:E; [done|right; by exists x, a]. Qed.
Lemma drop_while_idem f (a : list Z) : drop_while f (drop_while f a) = drop_while f a.
Proof. destruct (drop_while_head f a) as [->|(x & r & -> & E)]; [done|]. cbn [drop_while]. by rewrite E. Qed.
Lemma drop_while_suffix f (a : list Z) : exists b, a = b ++ drop_while f a.
Proof. induction a as [|x a [b IH]]; [by exists []|]. cbn [drop_while]. destruct (f x); [exists (x :: b); cbn; by rewrite <- IH|by exists []]. Qed.
Lemma rtrim_prefix f (a : list Z) : exists b, a = rtrim f a ++ b.
Proof. unfold rtrim. destruct (drop_while_suffix f (rev a)) as [b E]. exists (rev b). rewrite <- rev_app_distr, <- E. by rewrite rev_involutive. Qed.
Lemma rtrim_all f (a b : list Z) : forallb f b = true -> rtrim f (a ++ b) = rtrim f a.
Proof.
  intros H. unfold rtrim. rewrite rev_app_distr, drop_while_all; [done|]. apply forallb_forall. intros x Hx. apply in_rev in Hx.
  rewrite forallb_forall in H. by apply H.
Qed.
(** Nothing to drop at either end. *)
Definition bare (f : Z -> bool) (s : list Z) : Prop := drop_while f s = s /\ rtrim f s = s.
Lemma bare_nil f : bare f [].
Proof. done. Qed.
Lemma rtrim_drop f (s : list Z) : drop_while f s = s -> drop_while f (rtrim f s) = rtrim f s.
Proof.
  intros H. destruct s as [|x s]; [done|]. assert (Hx : f x = false).
  { cbn [drop_while] in H. destruct (f x) eqn:E; [|done]. destruct (drop_while_suffix f s) as [b Eb]. rewrite H in Eb. apply (f_equal length) in Eb. rewrite length_app in Eb. cbn in Eb. lia. }
  destruct (rtrim_prefix f (x :: s)) as [b Eb]. destruct (rtrim f (x :: s)) as [|y t]; [done|]. cbn [app] in Eb. simplify_eq. cbn [drop_while]. by rewrite Hx.
Qed.
Lemma trim_bare s : bare isspace (trim s).
Proof.
  unfold trim. split.
  - apply rtrim_drop, drop_while_idem.
  - unfold rtrim. by rewrite rev_involutive, drop_while_idem.
Qed.
Lemma bare_mono f g s : (forall c, g c = true -> f c = true) -> bare f s -> bare g s.
Proof.
  intros Hfg. assert (K : forall l, drop_while f l = l -> drop_while g l = l).
  { intros [|x l]; [done|]. cbn [drop_while]. destruct (f x) eqn:E.
    - intros H. exfalso. destruct (drop_while_suffix f l) as [b Eb]. rewrite H in Eb. apply (f_equal length) in Eb. rewrite length_app in Eb. cbn in Eb. lia.
    - destruct (g x) eqn:G; [|done]. apply Hfg in G. congruence. }
  intros [H1 H2]. split; [by apply K|]. unfold rtrim in *. apply (f_equal (@rev Z)) in H2. rewrite rev_involutive in H2. rewrite K by done. by rewrite rev_involutive.
Qed.
Lemma drop_while_bare f (a r : list Z) : drop_while f a = a -> a <> [] -> drop_while f (a ++ r) = a ++ r.
Proof.
  destruct a as [|x a]; [done|]. cbn [app drop_while]. destruct (f x) eqn:E; [|done]. intros H. exfalso.
  destruct (drop_while_suffix f a) as [c Ec]. rewrite H in Ec. apply (f_equal length) in Ec. rewrite length_app in Ec. cbn in Ec. lia.
Qed.
Lemma rtrim_bare f (a r : list Z) : rtrim f a = a -> a <> [] -> rtrim f (r ++ a) = r ++ a.
Proof.
  unfold rtrim. intros H Hn. rewrite rev_app_distr, drop_while_bare; [by rewrite rev_app_distr, !rev_involutive| |].
  - apply (f_equal (@rev Z)) in H. by rewrite rev_involutive in H.
  - intros E. apply (f_equal (@rev Z)) in E. by rewrite rev_involutive in E.
Qed.
Lemma bare_join f a b c : bare f a -> a <> [] -> bare f c -> c <> [] -> bare f (a ++ b ++ c).
Proof. intros [Ha _] Hna [_ Hc] Hnc. split; [by apply drop_while_bare|]. rewrite app_assoc. by apply rtrim_bare. Qed.
(** A bare text between white space. *)
Lemma bare_middle f a s b : bare f s -> s <> [] -> forallb f a = true -> forallb f b = true -> drop_while f (a ++ s ++ b) = s ++ b /\ rtrim f (s ++ b) = s.
Proof.
  intros [H1 H2] Hs Ha Hb. split; [|by rewrite rtrim_all]. rewrite drop_while_all by done. destruct s as [|x s]; [done|]. cbn [app drop_while] in *.
  destruct (f x) eqn:E; [|done]. exfalso. destruct (drop_while_suffix f s) as [c Ec]. rewrite H1 in Ec. apply (f_equal length) in Ec. rewrite length_app in Ec. cbn in Ec. lia.
Qed.
Lemma rtrim_nil f s : forallb f s = true -> rtrim f s = [].
Proof. intros H. change s with ([] ++ s). by rewrite rtrim_all. Qed.
Lemma trim_middle a s b : bare isspace s -> forallb isspace a = true -> forallb isspace b = true -> trim (a ++ s ++ b) = s.
Proof.
  intros Hs Ha Hb. unfold trim. destruct s as [|x s].
  - cbn [app]. rewrite drop_while_all by done. destruct (drop_while_suffix isspace b) as [c Ec]. apply rtrim_nil. rewrite Ec, forallb_app in Hb. by bools.
  - destruct (bare_middle isspace a (x :: s) b Hs) as [-> ->]; done.
Qed.

(** ** Maps and their text *)

Lemma bytes_ltb_irrefl a : bytes_ltb a a = false.
Proof. induction a as [|x a IH]; [done|]. cbn [bytes_ltb]. rewrite IH. lia. Qed.
Lemma bytes_ltb_trans a : forall b c, bytes_ltb a b = true -> bytes_ltb b c = true -> bytes_ltb a c = true.
Proof.
  induction a as [|x a IH]; intros [|y b] [|z c] H1 H2; try done; cbn [bytes_ltb] in *. apply orb_true_iff in H1, H2.
  destruct H1 as [H1|H1], H2 as [H2|H2]; bools; try lia. rewrite (IH b c) by done. lia.
Qed.
Lemma bytes_ltb_total a : forall b, bytes_ltb a b = false -> a <> b -> bytes_ltb b a = true.
Proof.
  induction a as [|x a IH]; intros [|y b] H Hn; try done; cbn [bytes_ltb] in *. bools. destruct (decide (x = y)) as [->|]; [|lia].
  rewrite Z.eqb_refl in H0. rewrite (IH b); [lia|done|]. by intros ->.
Qed.
(** In the order of the keys. *)
Inductive ordered : conf -> Prop :=
  | ord_nil : ordered []
  | ord_cons k v m : ordered m -> Forall (fun kv => bytes_ltb k (fst kv) = true) m -> ordered ((k, v) :: m).
Lemma bytes_eqb_refl k : bytes_eqb k k = true.
Proof. by apply bytes_eqb_true. Qed.
Lemma bytes_eqb_ne a b : a <> b -> bytes_eqb a b = false.
Proof. intros H. destruct (bytes_eqb a b) eqn:E; [|done]. by apply bytes_eqb_true in E. Qed.
Lemma conf_set_keys k v m kv : kv ∈ conf_set k v m -> kv = (k, v) \/ kv ∈ m.
Proof.
  induction m as [|[k' v'] m IH]; cbn [conf_set].
  - intros H. apply list_elem_of_singleton in H. by left.
  - destruct (bytes_eqb k k') eqn:E; [|destruct (bytes_ltb k k')]; rewrite !elem_of_cons; naive_solver.
Qed.
Lemma conf_set_ordered k v m : ordered m -> ordered (conf_set k v m).
Proof.
  induction 1 as [|k' v' m Hm IH Hf]; cbn [conf_set]; [by repeat constructor|]. destruct (bytes_eqb k k') eqn:E.
  - apply bytes_eqb_true in E as ->. by constructor.
  - destruct (bytes_ltb k k') eqn:L.
    + constructor; [by constructor|]. constructor; [done|]. eapply Forall_impl; [exact Hf|]. intros kv Hkv. by eapply bytes_ltb_trans.
    + constructor; [done|]. apply Forall_forall. intros kv Hkv. apply conf_set_keys in Hkv as [->|Hkv]; [|by eapply Forall_forall in Hf].
      cbn [fst]. apply bytes_ltb_total; [done|]. intros ->. by rewrite bytes_eqb_refl in E.
Qed.
(** Setting is an insertion, or a replacement, in place. *)
Lemma conf_set_split k v m : ordered m -> exists m1 m2, conf_set k v m = m1 ++ (k, v) :: m2 /\ Forall (fun kv => fst kv <> k) m1 /\ Forall (fun kv => fst kv <> k) m2 /\
  (m = m1 ++ m2 \/ exists v0, m = m1 ++ (k, v0) :: m2).
Proof.
  induction 1 as [|k' v' m Hm IH Hf]; cbn [conf_set]; [by exists [], []; split_and!; auto|].
  destruct (bytes_eqb k k') eqn:E.
  - apply bytes_eqb_true in E as ->. exists [], m. split; [done|]. split; [done|]. split; [|right; by exists v'].
    eapply Forall_impl; [exact Hf|]. intros kv Hkv Ek. cbv beta in Hkv. by rewrite Ek, bytes_ltb_irrefl in Hkv.
  - assert (Hk : k' <> k) by (intros ->; by rewrite bytes_eqb_refl in E). destruct (bytes_ltb k k') eqn:L.
    + exists [], ((k', v') :: m). split; [done|]. split; [done|]. split; [|by left]. constructor; [done|]. eapply Forall_impl; [exact Hf|].
      intros kv Hkv Ek. cbv beta in Hkv. rewrite Ek in Hkv. pose proof (bytes_ltb_trans _ _ _ L Hkv) as H. by rewrite bytes_ltb_irrefl in H.
    + destruct IH as (m1 & m2 & -> & F1 & F2 & Hs). exists ((k', v') :: m1), m2. split; [done|]. split; [by constructor|]. split; [done|].
      destruct Hs as [->|[v0 ->]]; [by left|right; by exists v0].
Qed.
Lemma conf_set_last k v m : Forall (fun kv => bytes_ltb (fst kv) k = true) m -> conf_set k v m = m ++ [(k, v)].
Proof.
  induction 1 as [|[k' v'] m Hk _ IH]; [done|]. cbn [conf_set app fst] in *. rewrite bytes_eqb_ne by (intros ->; by rewrite bytes_ltb_irrefl in Hk).
  destruct (bytes_ltb k k') eqn:E; [|by rewrite IH]. pose proof (bytes_ltb_trans _ _ _ Hk E) as H. by rewrite bytes_ltb_irrefl in H.
Qed.

Lemma ordered_before m1 : forall k v m2, ordered (m1 ++ (k, v) :: m2) -> Forall (fun kv => bytes_ltb (fst kv) k = true) m1.
Proof.
  induction m1 as [|[k1 v1] m1 IH]; intros k v m2 H; [constructor|]. cbn [app] in H. inversion H; subst. constructor; [|by eapply IH].
  cbn [fst]. match goal with HF : Forall _ (_ ++ _) |- _ => apply Forall_app in HF as [_ HF]; by inversion HF end.
Qed.

(** A key as the reader leaves it: its line has no line feed, but may hold the
    other bytes the writer refuses. *)
Definition key_shape (k : list Z) : Prop := bare isspace k /\ k <> [] /\ 61 ∉ k /\ match k with c :: _ => c <> 35 | [] => True end.
Lemma split_eq_at a b : 61 ∉ a -> split_eq (a ++ 61 :: b) = Some (a, b).
Proof.
  induction a as [|x a IH]; [done|]. rewrite not_elem_of_cons. intros [Hx Ha]. cbn [app split_eq]. rewrite (proj2 (Z.eqb_neq x 61)) by done. by rewrite IH.
Qed.
Lemma no_break_in s c : lineBreakProblem s = false -> c ∈ s -> c <> 10 /\ c <> 13 /\ c <> 0.
Proof.
  unfold lineBreakProblem. intros H Hc. split_and!; intros ->; (apply not_true_iff_false in H; apply H; apply existsb_exists; eexists; split; [by apply list_elem_of_In|done]).
Qed.
Lemma getlines_line l r : 10 ∉ l -> getlines (l ++ 10 :: r) = l :: getlines r.
Proof.
  induction l as [|x l IH]; [done|]. rewrite not_elem_of_cons. intros [Hx Hl]. cbn [app getlines]. rewrite (proj2 (Z.eqb_neq x 10)) by done. by rewrite IH.
Qed.
Lemma entry_no_lf kv : lineBreakProblem (fst kv) = false -> lineBreakProblem (snd kv) = false -> 10 ∉ fst kv ++ bs " = " ++ snd kv.
Proof.
  intros Hk Hv. rewrite !elem_of_app. intros [H|[H|H]].
  - by apply (no_break_in _ _ Hk) in H as [? _].
  - by repeat (apply elem_of_cons in H as [?|H]; [done|]); inversion H.
  - by apply (no_break_in _ _ Hv) in H as [? _].
Qed.
Lemma getlines_render m : Forall (fun kv => lineBreakProblem (fst kv) = false /\ lineBreakProblem (snd kv) = false) m ->
  getlines (conf_render m) = map (fun kv => fst kv ++ bs " = " ++ snd kv) m.
Proof.
  induction 1 as [|kv m [Hk Hv] _ IH]; [done|]. unfold conf_render in *. cbn [flat_map map]. unfold conf_text_line at 1.
  replace ((fst kv ++ bs " = " ++ snd kv ++ [10]) ++ flat_map conf_text_line m) with ((fst kv ++ bs " = " ++ snd kv) ++ 10 :: flat_map conf_text_line m) by (by rewrite <- !app_assoc).
  rewrite getlines_line by by apply entry_no_lf. by rewrite IH.
Qed.
Lemma drop_while_split f (s : list Z) : exists a, s = a ++ drop_while f s /\ forallb f a = true.
Proof.
  induction s as [|x s (a & E & Ha)]; [by exists []|]. cbn [drop_while]. destruct (f x) eqn:Ex; [|by exists []].
  exists (x :: a). cbn [forallb app]. rewrite Ex. split; [by f_equal|done].
Qed.
Lemma rtrim_split f (s : list Z) : exists b, s = rtrim f s ++ b /\ forallb f b = true.
Proof.
  destruct (drop_while_split f (rev s)) as (a & E & Ha). exists (rev a). unfold rtrim. split.
  - rewrite <- rev_app_distr, <- E. by rewrite rev_involutive.
  - apply forallb_forall. intros x Hx%in_rev. rewrite forallb_forall in Ha. by apply Ha.
Qed.
Lemma trim_split s : exists a b, s = a ++ trim s ++ b /\ forallb isspace a = true /\ forallb isspace b = true.
Proof.
  destruct (drop_while_split isspace s) as (a & E & Ha). destruct (rtrim_split isspace (drop_while isspace s)) as (b & Eb & Hb).
  exists a, b. split; [|done]. unfold trim. by rewrite <- Eb.
Qed.
(** A key and a value, with whatever white space is around the value. *)
Lemma read_entry m k v : key_shape k -> readConf_line m (k ++ bs " = " ++ v) = conf_set k (trim v) m.
Proof.
  intros (Hb & Hn & He & Hh). unfold readConf_line.
  assert (E : exists w, trim (k ++ bs " = " ++ v) = k ++ 32 :: 61 :: w /\ trim w = trim v).
  { destruct (trim_split v) as (a & b & Ev & Ha & Hb'). pose proof (trim_bare v) as Hw. set (w := trim v) in *. clearbody w. subst v. destruct w as [|x w].
    - exists []. split; [|done]. pose proof (trim_middle [] (k ++ [32] ++ [61]) (32 :: a ++ b)) as H. rewrite <- !app_assoc in H.
      apply H; [by apply bare_join|done|]. cbn. by rewrite forallb_app, Ha.
    - exists (32 :: a ++ x :: w). split.
      + pose proof (trim_middle [] (k ++ (bs " = " ++ a) ++ x :: w) b) as H. rewrite <- !app_assoc in H. apply H; [|done..].
        pose proof (bare_join isspace k (bs " = " ++ a) (x :: w)) as H'. rewrite <- !app_assoc in H'. by apply H'.
      + pose proof (trim_middle (32 :: a) (x :: w) []) as H. rewrite app_nil_r in H. by apply H. }
  destruct E as (w & Et & Ew). rewrite Et. destruct k as [|c k]; [done|]. cbn [app]. rewrite (proj2 (Z.eqb_neq c 35)) by done.
  replace (c :: k ++ 32 :: 61 :: w) with (((c :: k) ++ [32]) ++ 61 :: w) by (cbn; by rewrite <- app_assoc).
  rewrite split_eq_at by (rewrite elem_of_app, list_elem_of_singleton; intros [|]; done).
  change ((c :: k) ++ [32]) with ([] ++ (c :: k) ++ [32]). rewrite trim_middle by done. by rewrite Ew.
Qed.
Definition trimmed (m : conf) : conf := map (fun kv => (fst kv, trim (snd kv))) m.
Lemma fold_entries m2 : forall m1, ordered (m1 ++ m2) -> Forall (fun kv => key_shape (fst kv)) m2 -> 
  fold_left readConf_line (map (fun kv => fst kv ++ bs " = " ++ snd kv) m2) (trimmed m1) = trimmed (m1 ++ m2).
Proof.
  induction m2 as [|[k v] m2 IH]; intros m1 Ho Hm; cbn [map fold_left]; [by rewrite app_nil_r|].
  apply Forall_cons in Hm as [Hk Hm]. pose proof (read_entry (trimmed m1) k v Hk) as Er. cbn [fst snd] in *. rewrite Er.
  rewrite conf_set_last. 2: { apply Forall_map. by eapply ordered_before. }
  replace (m1 ++ (k, v) :: m2) with ((m1 ++ [(k, v)]) ++ m2) in * by (by rewrite <- app_assoc).
  rewrite <- IH by done. unfold trimmed. by rewrite map_app.
Qed.

(** ** What a reading holds *)

Definition read_shape (m : conf) : Prop := ordered m /\ Forall (fun kv => key_shape (fst kv) /\ bare isspace (snd kv)) m.
Lemma conf_set_shape k v m : key_shape k -> bare isspace v -> read_shape m -> read_shape (conf_set k v m).
Proof.
  intros Hk Hv [Ho Hf]. split; [by apply conf_set_ordered|]. apply Forall_forall. intros kv Hkv.
  apply conf_set_keys in Hkv as [->|Hkv]; [done|]. by eapply Forall_forall in Hf.
Qed.
Lemma split_eq_inv s : forall a b, split_eq s = Some (a, b) -> s = a ++ 61 :: b /\ 61 ∉ a.
Proof.
  induction s as [|c s IH]; intros a b H; [done|]. cbn [split_eq] in H. destruct (c =? 61) eqn:E.
  - simplify_eq. apply Z.eqb_eq in E as ->. split; [done|]. by intros Hx%elem_of_nil.
  - destruct (split_eq s) as [[a' b']|] eqn:Es; [|done]. simplify_eq. destruct (IH _ _ eq_refl) as [-> Hn].
    split; [done|]. rewrite not_elem_of_cons. split; [|done]. intros <-. by rewrite Z.eqb_refl in E.
Qed.
Lemma trim_sub s c : c ∈ trim s -> c ∈ s.
Proof.
  unfold trim. intros H. destruct (rtrim_prefix isspace (drop_while isspace s)) as [b E]. destruct (drop_while_suffix isspace s) as [a Ea].
  rewrite Ea, E, !elem_of_app. tauto.
Qed.
Lemma trim_first c s r : trim (c :: s) = r -> isspace c = false -> exists t, r = c :: t.
Proof.
  intros <- Hc. unfold trim. cbn [drop_while]. rewrite Hc. destruct (rtrim_prefix isspace (c :: s)) as [b E].
  destruct (rtrim isspace (c :: s)) as [|x t] eqn:Er; [|cbn [app] in E; simplify_eq; by exists t].
  exfalso. apply (f_equal (@rev Z)) in Er. unfold rtrim in Er. rewrite rev_involutive in Er. cbn [rev] in Er.
  assert (Hd : forall l, drop_while isspace (l ++ [c]) <> []).
  { intros l. induction l as [|y l IH]; cbn [app drop_while]; [by rewrite Hc|]. by destruct (isspace y). }
  by apply (Hd (rev s)).
Qed.
Lemma readConf_line_shape m line : read_shape m -> read_shape (readConf_line m line).
Proof.
  intros Hm. unfold readConf_line. pose proof (trim_bare line) as Hb. destruct (trim line) as [|c r] eqn:Et; [done|].
  destruct (c =? 35) eqn:Ec; [done|]. destruct (split_eq (c :: r)) as [[k v]|] eqn:Es; [|done].
  apply split_eq_inv in Es as [Es Hk]. destruct (trim k) as [|x t] eqn:Ek; [done|]. apply conf_set_shape; [|apply trim_bare|done].
  assert (Hc : isspace c = false).
  { destruct Hb as [Hb _]. cbn [drop_while] in Hb. destruct (isspace c) eqn:E; [|done]. exfalso.
    destruct (drop_while_suffix isspace r) as [d Ed]. rewrite Hb in Ed. apply (f_equal length) in Ed. rewrite length_app in Ed. cbn in Ed. lia. }
  rewrite <- Ek. split_and!; [apply trim_bare|by rewrite Ek|by intros H%trim_sub|].
  destruct k as [|c' k]; [done|]. cbn [app] in Es. simplify_eq. destruct (trim_first _ k _ eq_refl Hc) as [t' ->]. by apply Z.eqb_neq.
Qed.
Lemma readConf_shape file m : readConf file = Some m -> read_shape m.
Proof.
  unfold readConf. destruct file as [content|]; [|done]. cbn [mbind option_bind]. intros [= <-].
  assert (H : forall ls m0, read_shape m0 -> read_shape (fold_left readConf_line ls m0)).
  { induction ls as [|l ls IH]; intros m0 H; [done|]. cbn [fold_left]. by apply IH, readConf_line_shape. }
  apply H. split; [constructor|done].
Qed.

(** ** What is written *)

Definition one_line (kv : list Z * list Z) : Prop := lineBreakProblem (fst kv) = false /\ lineBreakProblem (snd kv) = false.
Lemma writeConf_inv io m new : writeConf io m = inr new -> Forall one_line m /\ new = cio_stored io (conf_render m).
Proof.
  unfold writeConf. destruct (existsb _ m) eqn:E; [done|]. destruct (cio_open io); [|done]. destruct (cio_rename io); [|done]. intros [= <-].
  split; [|done]. apply Forall_forall. intros kv Hkv%list_elem_of_In. apply (existsb_false _ _ _ E) in Hkv. by apply orb_false_iff in Hkv.
Qed.
(** A write that the disk takes whole. *)
Definition stores (io : conf_io) : Prop := forall text, cio_stored io text = text.
Lemma conf_read_back m : ordered m -> Forall (fun kv => key_shape (fst kv)) m -> Forall one_line m -> readConf (Some (conf_render m)) = Some (trimmed m).
Proof.
  intros Ho Hk Hl. unfold readConf. cbn [mbind option_bind]. rewrite getlines_render by done. f_equal. by apply (fold_entries m []).
Qed.
Lemma read_back io m new : stores io -> ordered m -> Forall (fun kv => key_shape (fst kv)) m -> writeConf io m = inr new ->
  new = conf_render m /\ readConf (Some new) = Some (trimmed m).
Proof. intros Hio Ho Hk H. apply writeConf_inv in H as [Hl ->]. rewrite Hio. split; [done|by apply conf_read_back]. Qed.
Lemma trimmed_bare m : Forall (fun kv => bare isspace (snd kv)) m -> trimmed m = m.
Proof.
  induction 1 as [|[k v] m H _ IH]; [done|]. unfold trimmed in *. cbn [map fst snd] in *. rewrite IH.
  pose proof (trim_middle [] v [] H eq_refl eq_refl) as E. rewrite app_nil_r in E. cbn [app] in E. by rewrite E.
Qed.

(** ** The daemon's reading *)

(** What its loader takes from a file: the keys and values of the lines. *)
Definition daemon_pairs (content : list Z) : list (list Z * list Z) := omap conf_pair (conf_lines (length content) content).
Definition daemon_value (v : list Z) : list Z := rtrim is_eol_blank (drop_while is_blank_tab v).
(** A line the daemon's buffer takes whole. *)
Definition line_fits (kv : list Z * list Z) : Prop := Z.of_nat (length (conf_text_line kv)) <= 1023.

Lemma conf_fgets_line room : forall l r, 10 ∉ l -> (length l < room)%nat -> fgets room (l ++ 10 :: r) = (l ++ [10], r).
Proof.
  induction room as [|n IH]; intros l r Hl Hn; [lia|]. destruct l as [|c l]; [done|]. apply not_elem_of_cons in Hl as [Hc Hl].
  cbn [app fgets]. rewrite (proj2 (Z.eqb_neq c 10)) by done. rewrite IH; [done|done|]. cbn in Hn. lia.
Qed.
Lemma text_line_lf kv : conf_text_line kv = (fst kv ++ bs " = " ++ snd kv) ++ [10].
Proof. unfold conf_text_line. by rewrite <- !app_assoc. Qed.
Lemma conf_lines_render m : Forall one_line m -> Forall line_fits m -> forall fuel, (length (conf_render m) <= fuel)%nat ->
  conf_lines fuel (conf_render m) = map conf_text_line m.
Proof.
  induction 1 as [|kv m [Hk Hv] _ IH]; intros Hs fuel Hf; [by destruct fuel|]. apply Forall_cons in Hs as [Hs Hm].
  unfold conf_render in *. cbn [flat_map map] in *. rewrite text_line_lf, <- app_assoc in *. cbn [app] in *.
  destruct fuel as [|n]. { rewrite length_app in Hf. cbn in Hf. lia. }
  unfold line_fits in Hs. rewrite text_line_lf, length_app in Hs. cbn [length] in Hs. pose proof (entry_no_lf kv Hk Hv) as Hlf.
  destruct (fst kv ++ bs " = " ++ snd kv) as [|c l] eqn:E; cbn [app conf_lines].
  - by destruct (fst kv).
  - rewrite app_comm_cons, conf_fgets_line; [|done|lia]. rewrite IH; [done|done|]. cbn [app length] in Hf. rewrite length_app in Hf. cbn in Hf. lia.
Qed.
Lemma not_nul s : lineBreakProblem s = false -> 0 ∉ s.
Proof. intros H Hin. by destruct (no_break_in _ _ H Hin) as (_ & _ & ?). Qed.
Lemma text_no_nul k v : lineBreakProblem k = false -> lineBreakProblem v = false -> no_nul (k ++ bs " = " ++ v ++ [10]).
Proof.
  intros Hk%not_nul Hv%not_nul. apply Forall_forall. intros c Hc ->. revert Hc. rewrite !elem_of_app. intros [H|[H|[H|H]]]; [done| |done|];
    by repeat (apply elem_of_cons in H as [?|H]; [done|]); inversion H.
Qed.
Lemma drop_while_app f (s r : list Z) : drop_while f (s ++ r) = if forallb f s then drop_while f r else drop_while f s ++ r.
Proof. induction s as [|c s IH]; [done|]. cbn [app drop_while forallb]. destruct (f c); [by rewrite IH|done]. Qed.
Lemma drop_while_none f (s : list Z) : forallb f s = true -> drop_while f s = [].
Proof. intros H. pose proof (drop_while_app f s []) as E. by rewrite H, app_nil_r in E. Qed.
Lemma blank_space c : is_blank_tab c = true -> isspace c = true.
Proof. unfold is_blank_tab, isspace. intros H. apply orb_true_iff in H as [->%Z.eqb_eq | ->%Z.eqb_eq]; done. Qed.
Lemma pair_of_entry kv : key_shape (fst kv) -> one_line kv -> conf_pair (conf_text_line kv) = Some (fst kv, daemon_value (snd kv)).
Proof.
  destruct kv as [k v]. intros (Hb & Hn & He & Hh) [Hk Hv]. cbn [fst snd] in *. unfold conf_pair, conf_text_line. cbn [fst snd].
  rewrite cstr_id by by apply text_no_nul.
  replace (k ++ bs " = " ++ v ++ [10]) with ((k ++ [32]) ++ 61 :: 32 :: v ++ [10]) by (by rewrite <- app_assoc).
  rewrite split_eq_at by (rewrite elem_of_app, list_elem_of_singleton; intros [|]; done).
  assert (Hc : match (k ++ [32]) ++ 61 :: 32 :: v ++ [10] with c :: _ => c =? 35 | [] => false end = false).
  { destruct k as [|c k]; [done|]. cbn [app]. by apply Z.eqb_neq. }
  rewrite Hc. pose proof (bare_mono isspace is_blank_tab k blank_space Hb) as Hb'.
  destruct (bare_middle is_blank_tab [] k [32] Hb' Hn eq_refl eq_refl) as [E1 E2]. cbn [app] in E1. rewrite E1, E2. do 2 f_equal.
  cbn [drop_while]. change (is_blank_tab 32) with true. rewrite drop_while_app. unfold daemon_value. destruct (forallb is_blank_tab v) eqn:Ev.
  - by rewrite (drop_while_none is_blank_tab v).
  - by apply rtrim_all.
Qed.
Lemma daemon_reads m : Forall (fun kv => key_shape (fst kv)) m -> Forall one_line m -> Forall line_fits m ->
  daemon_pairs (conf_render m) = map (fun kv => (fst kv, daemon_value (snd kv))) m.
Proof.
  intros Hk Hl Hf. unfold daemon_pairs. rewrite conf_lines_render by done. clear Hf. induction m as [|kv m IH]; [done|].
  apply Forall_cons in Hk as [? Hk], Hl as [? Hl]. cbn [map]. rewrite <- IH by done. cbn. by rewrite pair_of_entry.
Qed.

(** ** The calls that change a key *)

Lemma conf_find_set k v m k' : conf_find k' (conf_set k v m) = if bytes_eqb k' k then Some v else conf_find k' m.
Proof.
  induction m as [|[k0 v0] m IH]; cbn [conf_set conf_find]; [done|]. destruct (bytes_eqb k k0) eqn:E; [|destruct (bytes_ltb k k0)]; cbn [conf_find].
  - apply bytes_eqb_true in E as ->. by destruct (bytes_eqb k' k0).
  - done.
  - rewrite IH. destruct (bytes_eqb k' k0) eqn:E', (bytes_eqb k' k) eqn:E''; try done.
    apply bytes_eqb_true in E', E''. subst. by rewrite bytes_eqb_refl in E.
Qed.
Lemma is_in_elem l k : is_in l k = true <-> k ∈ l.
Proof.
  unfold is_in. rewrite existsb_exists. split.
  - intros (x & Hx & ->%bytes_eqb_true). by apply list_elem_of_In.
  - intros H%list_elem_of_In. exists k. by rewrite bytes_eqb_refl.
Qed.
Definition key_shape_b (k : list Z) : bool :=
  bytes_eqb (drop_while isspace k) k && bytes_eqb (rtrim isspace k) k && negb (bytes_eqb k []) && negb (existsb (fun c => c =? 61) k) &&
  match k with c :: _ => negb (c =? 35) | [] => true end.
Lemma key_shape_spec k : key_shape_b k = true -> key_shape k.
Proof.
  unfold key_shape_b. intros H. repeat apply andb_true_iff in H as [H ?]. split_and!.
  - by split; apply bytes_eqb_true.
  - intros ->. done.
  - intros Hin%list_elem_of_In. match goal with HE : negb (existsb _ _) = true |- _ => apply negb_true_iff in HE; by apply (existsb_false _ _ _ HE) in Hin end.
  - destruct k; [done|]. intros ->. done.
Qed.
Lemma editable_key k : isEditableKey k = true -> key_shape k /\ isOperatorOnlyKey k = false.
Proof.
  intros H%is_in_elem. assert (Hall : forallb (fun k => key_shape_b k && negb (isOperatorOnlyKey k)) kEditableKeys = true) by reflexivity.
  rewrite forallb_forall in Hall. specialize (Hall k (proj1 (list_elem_of_In _ _) H)). apply andb_true_iff in Hall as [Hs Ho].
  split; [by apply key_shape_spec|by apply negb_true_iff].
Qed.

(** The two tools, and the changes a call asks for, in their order. *)
Inductive conf_call := SetConfig (key value : list Z) | ConfigureReasoning (a : reasoning_args).
Definition changes_of (c : conf_call) : conf :=
  match c with
  | SetConfig key value => match checked_value key value with Some v => [(key, v)] | None => [] end
  | ConfigureReasoning a => reasoning_changes a
  end.
Definition run_call (getenv : list Z -> option (list Z)) (io : conf_io) (reload : list Z -> bool) (c : conf_call) (file : option (list Z)) :
    option (list Z) * (ErrorClass + outcome) :=
  match c with
  | SetConfig key value => set_config getenv io reload key value file
  | ConfigureReasoning a => configure_reasoning getenv io reload a file
  end.
Definition apply_changes (ch m : conf) : conf := fold_left (fun m kv => conf_set (fst kv) (snd kv) m) ch m.

Lemma add_change_all (P : list Z * list Z -> Prop) k v m : Forall P m -> (forall v, P (k, v)) -> Forall P (add_change k v m).
Proof.
  intros Hm Hk. destruct v as [v|]; [|done]. cbn [add_change]. apply Forall_forall. intros kv H. apply conf_set_keys in H as [->|H]; [done|].
  by eapply Forall_forall in Hm.
Qed.
Lemma reasoning_editable a : Forall (fun kv => isEditableKey (fst kv) = true) (reasoning_changes a).
Proof. unfold reasoning_changes. repeat (apply add_change_all; [|done]). constructor. Qed.

Section Calls.
Context (getenv : list Z -> option (list Z)) (io : conf_io) (reload : list Z -> bool).
Lemma run_call_cases c file :
  (exists e, run_call getenv io reload c file = (file, inl e)) \/
  (exists old new o, run_call getenv io reload c file = (Some new, inr o) /\ readConf file = Some old /\
    writeConf io (apply_changes (changes_of c) old) = inr new /\ changed_keys o = map fst (changes_of c) /\
    old_new o = map (fun kv => (shown_value (fst kv) (default [] (conf_find (fst kv) old)), shown_value (fst kv) (snd kv))) (changes_of c) /\
    Forall (fun kv => isEditableKey (fst kv) = true /\ configWriteAllowed getenv (fst kv) = true) (changes_of c) /\ changes_of c <> []).
Proof.
  destruct c as [key value|a]; cbn [run_call changes_of].
  - unfold set_config. destruct (isOperatorOnlyKey key); [left; by eexists|]. destruct (isEditableKey key) eqn:Ee; [|left; by eexists].
    destruct (configWriteAllowed getenv key) eqn:Ea; [|left; by eexists]. cbn [negb]. destruct (checked_value key value) as [v|]; [|left; by eexists].
    destruct (readConf file) as [old|]; [|left; by eexists]. destruct (writeConf io (conf_set key v old)) as [e|new] eqn:Ew; [left; by eexists|].
    right. eexists old, new, _. split; [done|]. split_and!; [done|exact Ew|done|done|by constructor|done].
  - unfold configure_reasoning. pose proof (reasoning_editable a) as He. destruct (reasoning_changes a) as [|kv ch] eqn:Er; [left; by eexists|].
    assert (Hne : reasoning_changes a <> []) by (by rewrite Er). rewrite <- Er in *. clear Er.
    destruct (readConf file) as [old|]; [|left; by eexists]. destruct (existsb _ (reasoning_changes a)) eqn:Ex; [left; by eexists|].
    destruct (writeConf io _) as [e|new] eqn:Ew; [left; by eexists|]. right. eexists old, new, _. split; [done|]. split_and!; [done|exact Ew|done|done| |done].
    apply Forall_forall. intros kv' Hin. split; [by eapply Forall_forall in He|].
    apply list_elem_of_In in Hin. apply (existsb_false _ _ _ Ex) in Hin. by apply negb_false_iff.
Qed.
(** The answer's word on the reload is the daemon's on the file written. *)
Lemma run_call_reloaded c file new o : run_call getenv io reload c file = (Some new, inr o) -> reloaded o = reload new.
Proof.
  destruct c as [key value|a]; cbn [run_call]; unfold set_config, configure_reasoning; repeat case_match; intros E; simplify_eq; done.
Qed.
Lemma apply_shape ch : forall m, Forall (fun kv => key_shape (fst kv)) ch -> ordered m -> Forall (fun kv => key_shape (fst kv)) m ->
  ordered (apply_changes ch m) /\ Forall (fun kv => key_shape (fst kv)) (apply_changes ch m).
Proof.
  induction ch as [|[k v] ch IH]; intros m Hc Ho Hm; [done|]. apply Forall_cons in Hc as [Hk Hc]. cbn. apply IH; [done|by apply conf_set_ordered|].
  apply Forall_forall. intros kv H. apply conf_set_keys in H as [->|H]; [done|]. by eapply Forall_forall in Hm.
Qed.
Lemma apply_other ch : forall m k, k ∉ map fst ch -> conf_find k (apply_changes ch m) = conf_find k m.
Proof.
  induction ch as [|[k v] ch IH]; intros m k' Hk; [done|]. cbn [map fst] in Hk. apply not_elem_of_cons in Hk as [Hne Hk]. cbn.
  fold (apply_changes ch (conf_set k v m)). rewrite IH by done. rewrite conf_find_set. by rewrite bytes_eqb_ne.
Qed.
End Calls.

(** ** Properties *)

(** C38: A call of fractalsql_set_config or fractalsql_configure_reasoning that
    succeeds takes the map of the entries the server reads in the file, the
    last line of each key, sets in it the keys of the call and no other, each of
    them a key of the editable set that the deployment's switch allows and none
    an operator's key, and replaces the file by what the disk stores of that
    map's text.  If the disk stores it whole, the file reads back as those
    entries, and when besides no line is longer than the daemon's buffer, the
    daemon reads the same keys, each with its value and no others.  The stream
    is not checked, so a short write replaces the file all the same
    ([short_write_replaces]); and a key on several lines of the old file, which
    for allowed_uids the daemon adds up, is left with its last one
    ([repeated_uids_lost]). *)
Theorem config_call_confined getenv io reload c file file' o :
  run_call getenv io reload c file = (file', inr o) ->
  exists old new, readConf file = Some old /\ new = apply_changes (changes_of c) old /\ file' = Some (cio_stored io (conf_render new)) /\
    Forall (fun kv => isEditableKey (fst kv) = true /\ isOperatorOnlyKey (fst kv) = false /\ configWriteAllowed getenv (fst kv) = true) (changes_of c) /\
    (forall k, k ∉ map fst (changes_of c) -> conf_find k new = conf_find k old) /\
    (cio_stored io (conf_render new) = conf_render new ->
      readConf file' = Some (trimmed new) /\
      (Forall line_fits new -> daemon_pairs (conf_render new) = map (fun kv => (fst kv, daemon_value (snd kv))) new)).
Proof.
  intros Hr. destruct (run_call_cases getenv io reload c file) as [[e E]|(old & new & o' & E & Hf & Hw & _ & _ & Hk & _)]; rewrite E in Hr; simplify_eq.
  destruct (readConf_shape _ _ Hf) as [Ho Hs].
  assert (Hc : Forall (fun kv => key_shape (fst kv)) (changes_of c)) by (eapply Forall_impl; [exact Hk|]; intros kv [H%editable_key _]; apply H).
  destruct (apply_shape _ old Hc Ho) as [Ho' Hs']; [eapply Forall_impl; [exact Hs|]; by intros kv [? _]|].
  destruct (writeConf_inv _ _ _ Hw) as [Hl ->].
  exists old, (apply_changes (changes_of c) old). split_and!; try done; [|by intros; apply apply_other|].
  - eapply Forall_impl; [exact Hk|]. intros kv [H1 H2]. by destruct (editable_key _ H1).
  - intros Hst. rewrite Hst. split; [by apply conf_read_back|by apply daemon_reads].
Qed.

(** A refused call leaves the file as it was; with the switch off every
    call is refused, and in the safe mode, the default, the keys a call changes
    are among the two model names and the think mode. *)
Theorem config_call_refused getenv io reload c file :
  match run_call getenv io reload c file with
  | (file', inl _) => file' = file
  | (_, inr o) =>
      configWritesMode getenv <> WritesOff /\
      (configWritesMode getenv = WritesSafe -> Forall (fun k => k ∈ [bs "reasoning_model"; bs "embed_model"; bs "think"]) (changed_keys o))
  end.
Proof.
  destruct (run_call_cases getenv io reload c file) as [[e ->]|(old & new & o & -> & _ & _ & Hc & _ & Hk & Hne)]; [done|]. rewrite Hc. split.
  - intros Hm. destruct (changes_of c) as [|kv ch]; [done|]. apply Forall_cons in Hk as [[_ Ha] _]. unfold configWriteAllowed in Ha. by rewrite Hm in Ha.
  - intros Hm. apply Forall_map. eapply Forall_impl; [exact Hk|]. intros kv [_ Ha]. unfold configWriteAllowed in Ha. rewrite Hm in Ha.
    by apply is_in_elem.
Qed.

(** What the server wrote it reads back: a map in the order of its keys,
    whose keys are as its reader leaves them and whose values have no white
    space at their ends, is written when no key and no value breaks a line,
    and the file reads as the same map; a map with a line break in it is
    refused before a file is opened. *)
Theorem written_map_reads_back io m : read_shape m -> cio_open io = true -> cio_rename io = true -> stores io ->
  match writeConf io m with
  | inr new => readConf (Some new) = Some m
  | inl e => e = Schema /\ exists kv, kv ∈ m /\ ~ one_line kv
  end.
Proof.
  intros [Ho Hs] H1 H2 Hio. destruct (writeConf io m) as [e|new] eqn:E.
  - unfold writeConf in E. destruct (existsb _ m) eqn:Ex; [|by rewrite H1, H2 in E]. simplify_eq. split; [done|].
    apply existsb_exists in Ex as (kv & Hin%list_elem_of_In & Hb). exists kv. split; [done|]. intros [Hk Hv]. by rewrite Hk, Hv in Hb.
  - destruct (read_back io m new Hio Ho) as [_ ->]; [eapply Forall_impl; [exact Hs|]; by intros kv [? _]|done|].
    f_equal. apply trimmed_bare. eapply Forall_impl; [exact Hs|]. by intros kv [_ ?].
Qed.

(** Two readings that differ at most in the values of the secret keys. *)
Definition same_but_secrets (m1 m2 : conf) : Prop := Forall2 (fun a b => fst a = fst b /\ (isSecretKey (fst a) = true \/ snd a = snd b)) m1 m2.
Lemma secret_find k m1 m2 : same_but_secrets m1 m2 -> isSecretKey k = false -> conf_find k m1 = conf_find k m2.
Proof.
  intros H Hk. induction H as [|[k1 v1] [k2 v2] m1 m2 [Ek Ev] _ IH]; [done|]. cbn [fst snd conf_find] in *. subst k2. destruct (bytes_eqb k k1) eqn:E; [|done].
  apply bytes_eqb_true in E as <-. destruct Ev as [Hs | ->]; [congruence|done].
Qed.
(** No answer depends on the value of a secret key: for two files whose
    readings differ only there, both forms of fractalsql_get_config answer
    the same, and the tools that change a key report the same old and new
    values. *)
Theorem secrets_not_read_back getenv io reload c f1 f2 m1 m2 : readConf f1 = Some m1 -> readConf f2 = Some m2 -> same_but_secrets m1 m2 ->
  get_config_all f1 = get_config_all f2 /\ (forall key, get_config key f1 = get_config key f2) /\
  forall o1 o2, snd (run_call getenv io reload c f1) = inr o1 -> snd (run_call getenv io reload c f2) = inr o2 -> old_new o1 = old_new o2.
Proof.
  intros E1 E2 H. split_and!.
  - unfold get_config_all. rewrite E1, E2. f_equal. clear E1 E2. induction H as [|[k1 v1] [k2 v2] m1' m2' [Ek Ev] _ IH]; [done|].
    cbn [map fst snd] in *. subst k2. rewrite IH. destruct Ev as [-> | ->]; [done|by destruct (isSecretKey k1)].
  - intros key. unfold get_config. destruct (isOperatorOnlyKey key); [done|]. destruct (isSecretKey key) eqn:Es; [done|]. rewrite E1, E2. f_equal. by apply secret_find.
  - intros o1 o2. destruct (run_call_cases getenv io reload c f1) as [[e ->]|(? & new1 & p1 & -> & R1 & _ & _ & X1 & _)]; [done|].
    destruct (run_call_cases getenv io reload c f2) as [[e ->]|(? & new2 & p2 & -> & R2 & _ & _ & X2 & _)]; [done|]. intros [= <-] [= <-]. rewrite X1, X2. simplify_eq.
    apply map_ext. intros [k v]. cbn [fst snd]. f_equal. unfold shown_value. destruct (isSecretKey k) eqn:Es; [done|]. by rewrite (secret_find k _ _ H Es).
Qed.

(** ** Witnesses *)

Definition demo_conf_io : conf_io := {| cio_open := true; cio_stored := fun text => text; cio_rename := true |}.
Definition demo_conf_file : option (list Z) := Some (bs "# the daemon
reasoning_model=m1
  reasoning_token = s3
enterprise_require_signature = 1
").
Definition demo_set : conf_call := SetConfig (bs "reasoning_model") (bs " m2").
Lemma config_call_confined_witness : exists old new, readConf demo_conf_file = Some old /\ new = apply_changes (changes_of demo_set) old /\
  readConf (Some (conf_render new)) = Some (trimmed new) /\ conf_find (bs "reasoning_token") new = Some (bs "s3") /\
  conf_find (bs "reasoning_model") (trimmed new) = Some (bs "m2").
Proof.
  pose proof (config_call_confined (fun _ => None) demo_conf_io (fun _ => true) demo_set demo_conf_file _ _ eq_refl) as (old & new & Ho & Hn & Hf & _ & Hk & Hw).
  destruct (Hw eq_refl) as [Hr _]. rewrite Hf in Hr. exists old, new. split_and!; [done|done|done| |].
  - rewrite (Hk (bs "reasoning_token")); [|by vm_compute; intros H%list_elem_of_singleton]. vm_compute in Ho. injection Ho as <-. vm_compute. reflexivity.
  - rewrite Hn. vm_compute in Ho. injection Ho as <-. vm_compute. reflexivity.
Defined.
Lemma written_map_reads_back_witness : readConf (Some (conf_render [(bs "embed_model", bs "e"); (bs "think", bs "")])) = Some [(bs "embed_model", bs "e"); (bs "think", bs "")].
Proof.
  refine (written_map_reads_back demo_conf_io [(bs "embed_model", bs "e"); (bs "think", bs "")] _ eq_refl eq_refl (fun _ => eq_refl)). split.
  - constructor; [constructor; constructor|]. by repeat constructor.
  - repeat (apply Forall_cons; split); [split; [by apply key_shape_spec|done]..|constructor].
Defined.
Lemma secrets_not_read_back_witness : get_config_all (Some (bs "reasoning_token = a")) = get_config_all (Some (bs "reasoning_token = b")).
Proof.
  refine (proj1 (secrets_not_read_back (fun _ => None) demo_conf_io (fun _ => true) demo_set (Some (bs "reasoning_token = a")) (Some (bs "reasoning_token = b")) _ _ eq_refl eq_refl _)).
  constructor; [|constructor]. split; [reflexivity|by left].
Defined.

(** ** Where a call does more than it says *)

(** The daemon's settings from a file, when it loads. *)
Definition daemon_bool (k content : list Z) : option bool := c ← conf_loop config0 (conf_lines (length content) content); c_bool c !! k.
Definition daemon_uids (content : list Z) : option (list Z) := option_map allowed_uids (conf_loop config0 (conf_lines (length content) content)).
(** Nothing bounds the length of a value, and the daemon reads lines of at most
    1023 bytes: in the safe mode, a model name with enough spaces in it turns
    off the signature check, an operator's key. *)
Theorem long_value_injects :
  let file := Some (bs "enterprise_require_signature = 1
") in
  let value := bs "m" ++ repeat 32 1004 ++ bs "enterprise_require_signature = 0" in
  daemon_bool (bs "enterprise_require_signature") (default [] file) = Some true /\
  match set_config (fun _ => None) demo_conf_io (fun _ => true) (bs "reasoning_model") value file with
  | (Some new, inr _) => daemon_bool (bs "enterprise_require_signature") new = Some false
  | _ => False
  end.
Proof. vm_compute. split; reflexivity. Qed.
(** What the disk did not take is not noticed: the cut file replaces the old one. *)
Theorem short_write_replaces :
  let io := {| cio_open := true; cio_stored := take 20; cio_rename := true |} in
  match set_config (fun _ => None) io (fun _ => true) (bs "think") (bs "low") demo_conf_file with
  | (Some new, inr _) => readConf (Some new) = Some []
  | _ => False
  end.
Proof. vm_compute. reflexivity. Qed.
(** The daemon adds up the uids of several lines, the server keeps the last
    line: setting another key narrows who may connect. *)
Theorem repeated_uids_lost :
  let file := Some (bs "allowed_uids = 1000
allowed_uids = 1001
") in
  daemon_uids (default [] file) = Some [1000; 1001] /\
  match set_config (fun _ => None) demo_conf_io (fun _ => true) (bs "think") (bs "low") file with
  | (Some new, inr _) => daemon_uids new = Some [1001]
  | _ => False
  end.
Proof. vm_compute. split; reflexivity. Qed.
