(* ===== verification/McpCtl.v ===== *)
(** * The MCP server's client of the daemon (mcp/src/fsqlctl.cpp)

    The key file, one exchange per connection, and the three requests the
    admin tools make; then reloadAndReport (adapters/admin.cpp), which turns
    what was thrown into the tool's answer.  The socket is the interface the
    shim and fsqlctl use; the HMAC is OpenSSL's, a parameter.  An exception is
    a value: its class, and the message of a refusal. *)

From S2P Require Import Prelude Wire DaemonConf Cache Shim McpConf.

Definition OP_PING : Z := 1.
Definition OP_VERSION : Z := 2.
Definition OP_RELOAD : Z := 20.
Definition kStatusNames : list (list Z) :=
  [bs "OK"; bs "ARGS"; bs "LIMIT"; bs "CORE"; bs "NOT_LICENSED"; bs "AUTH"; bs "INTERNAL"; bs "NOTSUP"; bs "BUSY"].

(** ** The key file *)

(** Up to the first end of line. *)
Fixpoint first_line (l : list Z) : list Z :=
  match l with [] => [] | c :: l => if (c =? 10) || (c =? 13) then [] else c :: first_line l end.
(** The value of a hexadecimal digit, -1 for another character. *)
Definition xdigit (c : Z) : Z :=
  if (48 <=? c) && (c <=? 57) then c - 48
  else if (97 <=? c) && (c <=? 102) then c - 87
  else if (65 <=? c) && (c <=? 70) then c - 55 else -1.
Definition isxdigit (c : Z) : bool := 0 <=? xdigit c.
Fixpoint key_pairs (l : list Z) : list Z :=
  match l with a :: b :: l => 16 * xdigit a + xdigit b :: key_pairs l | _ => [] end.
(** The constructor: the key, from the two settings and what opening the key
    file gives. *)
Definition FsqlCtl (socketPath keyPath : list Z) (content : option (list Z)) : ErrorClass + list Z :=
  if bytes_eqb socketPath [] then inl Connectivity
  else if bytes_eqb keyPath [] then inl Connectivity
  else match content with
  | None => inl Connectivity
  | Some l =>
      let tight := List.filter (fun c => negb (isspace c)) (first_line l) in
      if (blen tight <? 2) || (128 <? blen tight) || negb (blen tight mod 2 =? 0) then inl Connectivity
      else if negb (forallb isxdigit tight) then inl Connectivity
      else
        let hmacKey := key_pairs tight in
        if bytes_eqb hmacKey [] || (64 <? blen hmacKey) then inl Connectivity else inr hmacKey
  end.

(** ** Frames *)

Definition putLE16 (v : Z) : list Z := [Z.land v 255; Z.land (Z.shiftr v 8) 255].
Definition putLE32 (v : Z) : list Z := map (fun i => Z.land (Z.shiftr v (8 * Z.of_nat i)) 255) (seq 0 4).
Definition putLE64 (v : Z) : list Z := map (fun i => Z.land (Z.shiftr v (8 * Z.of_nat i)) 255) (seq 0 8).
Definition getLE16 (p : list Z) : Z := u16 (Z.lor (at_ p 0) (Z.shiftl (at_ p 1) 8)).
Definition getLE32 (p : list Z) : Z :=
  Z.lor (Z.lor (Z.lor (at_ p 0) (Z.shiftl (at_ p 1) 8)) (Z.shiftl (at_ p 2) 16)) (Z.shiftl (at_ p 3) 24).

(** A ToolError of the class, a refusal with its message, or what the
    allocation of the reply's body throws. *)
Inductive thrown := Tool (c : ErrorClass) | Refused (message : list Z) | Bad_alloc.
Record Reply := { rp_opcode : Z; rp_flags : Z; rp_status : Z; rp_coreRc : Z; rp_body : list Z }.

Section Client.
Context {E : Type} {TR : Transport E}.
Context (HMAC : list Z -> list Z -> list Z).        (* key, message: 32 bytes *)
Context (string_ok : Z -> bool).                    (* whether a string of this size is allocated *)

Definition X (A : Type) : Type := E -> (thrown + A) * E.
Definition ret {A} (a : A) : X A := fun e => (inr a, e).
Definition throw {A} (t : thrown) : X A := fun e => (inl t, e).
Definition bind {A B} (m : X A) (k : A -> X B) : X B := fun e => match m e with (inl t, e) => (inl t, e) | (inr a, e) => k a e end.
#[local] Notation "'let*' x ':=' e 'in' k" := (bind e (fun x => k)) (at level 10, x pattern, e at level 200, k at level 200).
Abbreviation unreachable := (throw (Tool Connectivity)) (only parsing).

(** The connection is closed when the object goes, thrown or not. *)
Definition closing {A} (m : X A) : X A := fun e => let '(r, e) := m e in (r, sock_close e).
(** A path of 108 bytes or more is refused, not cut. *)
Definition DaemonTransport (path : list Z) : X unit := fun e =>
  if 108 <=? blen path then (inl (Tool Connectivity), e)
  else match sock_connect path e with (e, inl _) => (inl (Tool Connectivity), e) | (e, inr tt) => (inr tt, e) end.
Definition writeAll (header tag payload : list Z) : X unit := fun e =>
  match sock_send header tag payload e with (e, true) => (inr tt, e) | (e, false) => (inl (Tool Connectivity), e) end.
Definition readExact (n : nat) : X (list Z) := fun e =>
  match sock_read n e with (e, Some b) => (inr b, e) | (e, None) => (inl (Tool Connectivity), e) end.
Definition string_of_size (n : Z) : X unit := if string_ok n then ret tt else throw Bad_alloc.

Definition request_header (opcode n : Z) : list Z :=
  bs "FSQ1" ++ putLE16 2 ++ putLE16 opcode ++ putLE32 0 ++ putLE32 1 ++ putLE64 0 ++ putLE32 32 ++ putLE32 (u32 n).
Definition rawRoundtrip (socketPath hmacKey : list Z) (opcode : Z) (payload : list Z) : X Reply :=
  let header := request_header opcode (blen payload) in
  let tag := HMAC hmacKey (header ++ payload) in
  let* _ := DaemonTransport socketPath in
  closing (
  let* _ := writeAll header tag payload in
  let* rh := readExact 32 in
  if negb (bytes_eqb (take 4 rh) (bs "FSQ1")) then unreachable else
  if negb (getLE16 (drop 4 rh) =? 2) then unreachable else
  let rlen := getLE32 (drop 28 rh) in
  let* rt := readExact 32 in
  let* _ := string_of_size rlen in
  let* body := if rlen =? 0 then ret [] else readExact (Z.to_nat rlen) in
  if negb (bytes_eqb (HMAC hmacKey (rh ++ body)) rt) then unreachable
  else if blen body <? 8 then throw (Tool Engine)
  else ret {| rp_opcode := getLE16 (drop 6 rh); rp_flags := getLE32 (drop 8 rh); rp_status := getLE32 body;
              rp_coreRc := s32 (getLE32 (drop 4 body)); rp_body := drop 8 body |}).

(** ** Requests *)

Definition trailing (c : Z) : bool := (c =? 10) || (c =? 32).
Definition refusal_message (r : Reply) (what : list Z) : list Z :=
  let name := if rp_status r <? 9 then nth (Z.to_nat (rp_status r)) kStatusNames [] else bs "UNKNOWN" in
  let reason := DaemonConf.rtrim trailing (rp_body r) in
  let msg := what ++ bs " refused (" ++ name ++ bs ")" in
  match reason with [] => msg | _ => msg ++ bs ": " ++ reason end.
Definition raiseRefusal {A} (r : Reply) (what : list Z) : X A := throw (Refused (refusal_message r what)).
Definition refused (r : Reply) : bool := negb (Z.land (rp_flags r) 2 =? 0).
Definition ping (socketPath hmacKey : list Z) : X Z :=
  let* r := rawRoundtrip socketPath hmacKey OP_PING [] in
  if refused r then unreachable else ret (if 2 <=? blen (rp_body r) then getLE16 (rp_body r) else 0).
Definition version (socketPath hmacKey : list Z) : X (list Z) :=
  let* r := rawRoundtrip socketPath hmacKey OP_VERSION [] in
  if refused r then raiseRefusal r (bs "version") else ret (rp_body r).
Definition reload (socketPath hmacKey : list Z) : X (list Z) :=
  let* r := rawRoundtrip socketPath hmacKey OP_RELOAD [] in
  if refused r then raiseRefusal r (bs "reload") else ret (bs "reloaded: configuration swapped in").

(** catch( const ToolError& ): an allocation's failure is not one. *)
Definition caught {A} (m : X A) : X (thrown + A) := fun e =>
  match m e with
  | (inl Bad_alloc, e) => (inl Bad_alloc, e)
  | (inl t, e) => (inr (inl t), e)
  | (inr a, e) => (inr (inr a), e)
  end.
Definition daemonOrNull (socketPath keyPath : list Z) (content : option (list Z)) : X (list Z) :=
  match FsqlCtl socketPath keyPath content with inl c => throw (Tool c) | inr key => ret key end.
(** The answer: the daemon took the reload, or why not. *)
Definition reloadAndReport (socketPath keyPath : list Z) (content : option (list Z)) : X (thrown + unit) :=
  caught (
  let* key := daemonOrNull socketPath keyPath content in
  let* _ := ping socketPath key in
  let* _ := reload socketPath key in ret tt).
(** fractalsql_get_version's daemon_version, [None] for null. *)
Definition daemon_version (socketPath keyPath : list Z) (content : option (list Z)) : X (option (list Z)) :=
  let* r := caught (let* key := daemonOrNull socketPath keyPath content in version socketPath key) in
  ret (match r with inl _ => None | inr v => Some v end).
End Client.
