(* ===== verification/McpCtlProofs.v ===== *)
(** * The MCP server's client over the daemon

    The key it reads against the daemon's, its requests run over the daemon's
    frame loop, and the tools that change the configuration composed with the
    daemon's RELOAD: from the call of a tool to the snapshot published. *)

From stdpp Require Import gmap.
From S2P Require Import Prelude Wire Sha256 Config DaemonConf Cache Daemon DaemonProofs Shim ShimProofs Ctl CtlProofs McpConf McpConfProofs McpCtl.

(** ** The key *)

Lemma xdigit_nibble c : xdigit c = hex_nibble c.
Proof. unfold xdigit, hex_nibble. repeat case_match; lia. Qed.
Lemma xdigit_range c : -1 <= xdigit c < 16.
Proof. unfold xdigit. repeat case_match; lia. Qed.
Lemma nibbles_join a b : 0 <= a < 16 -> 0 <= b < 16 -> u8 (Z.lor (Z.shiftl a 4) b) = 16 * a + b.
Proof.
  intros Ha Hb. assert (H : forallb (fun a => forallb (fun b => u8 (Z.lor (Z.shiftl a 4) b) =? 16 * a + b) (map Z.of_nat (seq 0 16))) (map Z.of_nat (seq 0 16)) = true) by reflexivity.
  assert (Hin : forall x, 0 <= x < 16 -> In x (map Z.of_nat (seq 0 16))) by (intros x Hx; apply in_map_iff; exists (Z.to_nat x); rewrite in_seq; lia).
  rewrite forallb_forall in H. specialize (H a (Hin a Ha)). rewrite forallb_forall in H. by apply Z.eqb_eq, H, Hin.
Qed.
Lemma key_decode_pairs n : forall l acc, length l = (2 * n)%nat ->
  key_decode (-1) l acc = if forallb isxdigit l then Some (acc ++ key_pairs l) else None.
Proof.
  induction n as [|n IH]; intros l acc Hl; [destruct l; [by rewrite app_nil_r|done]|]. destruct l as [|a [|b l]]; [done|cbn in Hl; lia|].
  cbn [key_decode forallb key_pairs]. rewrite <- !xdigit_nibble. unfold isxdigit at 1 2. pose proof (xdigit_range a). pose proof (xdigit_range b).
  destruct (Z.ltb_spec (xdigit a) 0); [by rewrite (proj2 (Z.leb_gt _ _))|]. rewrite (proj2 (Z.leb_le 0 (xdigit a))) by done. change (-1 <? 0) with true.
  cbn [andb]. destruct (Z.ltb_spec (xdigit b) 0); [by rewrite (proj2 (Z.leb_gt _ _))|]. rewrite (proj2 (Z.leb_le 0 (xdigit b))) by done.
  cbn [andb]. rewrite IH by (cbn in Hl; lia). rewrite nibbles_join by lia. by rewrite <- app_assoc.
Qed.
Lemma key_pairs_length n : forall l, length l = (2 * n)%nat -> length (key_pairs l) = n.
Proof. induction n as [|n IH]; intros l Hl; [by destruct l|]. destruct l as [|a [|b l]]; [done|cbn in Hl; lia|]. cbn [key_pairs length]. f_equal. apply IH. cbn in Hl. lia. Qed.

(** A key file with one line: after its first end of line there is only white
    space, and it has no vertical tab and no form feed. *)
Definition one_key_line (l : list Z) : Prop :=
  Forall (fun c => c <> 11 /\ c <> 12) l /\ Forall (fun c => key_space c = true) (drop (length (first_line l)) l).
Lemma first_line_split l : l = first_line l ++ drop (length (first_line l)) l.
Proof. induction l as [|c l IH]; [done|]. cbn [first_line]. destruct (_ || _); [done|]. cbn [length drop app]. by f_equal. Qed.
Lemma no_space (l : list Z) : Forall (fun c => key_space c = true) l -> List.filter (fun c => negb (key_space c)) l = [].
Proof. induction 1 as [|c l Hc _ IH]; [done|]. cbn [List.filter]. by rewrite Hc. Qed.
Lemma one_key_line_digits l : one_key_line l ->
  List.filter (fun c => negb (key_space c)) l = List.filter (fun c => negb (isspace c)) (first_line l).
Proof.
  intros [Hv Hr]. rewrite (first_line_split l) at 1. rewrite List.filter_app, (no_space _ Hr), app_nil_r.
  assert (Hf : Forall (fun c => c <> 11 /\ c <> 12) (first_line l)) by (rewrite (first_line_split l) in Hv; by apply Forall_app in Hv as [? _]).
  clear Hr. induction Hf as [|c m Hc _ IH]; [done|]. cbn [List.filter]. rewrite IH.
  assert (key_space c = isspace c) as -> by (unfold key_space, isspace; lia). done.
Qed.

(** From a key file of one line the server and the daemon read the same key,
    and refuse the same files. *)
Theorem mcp_key_agrees socketPath keyPath l : socketPath <> [] -> keyPath <> [] -> one_key_line l ->
  FsqlCtl socketPath keyPath (Some l) = match DaemonConf.load_key (Some l) with Some key => inr key | None => inl Connectivity end.
Proof.
  intros Hs Hk Hl. unfold FsqlCtl, DaemonConf.load_key, bytes_eqb. rewrite !(bool_decide_false (_ = [])) by done. rewrite (one_key_line_digits l Hl).
  set (t := List.filter _ (first_line l)). clearbody t. cbv zeta. unfold blen. destruct (Z.lt_ge_cases 256 (Z.of_nat (length t))) as [Hb|Hb].
  - rewrite (proj2 (Z.ltb_lt 128 _)) by lia. rewrite orb_true_r. cbn [orb]. assert (length (take 256 t) = 256%nat) as -> by (rewrite length_take; lia). done.
  - rewrite take_ge by lia. set (n := Z.of_nat (length t)). assert (Hn : 0 <= n) by lia. pose proof (Z.div_mod n 2 ltac:(lia)) as Hdm. pose proof (Z.mod_pos_bound n 2 ltac:(lia)) as Hm.
    assert (Ec : (n <? 2) || (128 <? n) || negb (n mod 2 =? 0) = (n =? 0) || negb (n mod 2 =? 0) || (64 <? n / 2)).
    { apply eq_true_iff_eq. rewrite !orb_true_iff, !negb_true_iff, !Z.ltb_lt, !Z.eqb_eq, !Z.eqb_neq. lia. }
    rewrite Ec. destruct (_ || (64 <? n / 2)) eqn:E; [done|]. apply orb_false_iff in E as [[E1 E2]%orb_false_iff E3]. apply negb_false_iff, Z.eqb_eq in E2.
    assert (Hlen : length t = (2 * Z.to_nat (n / 2))%nat) by lia. rewrite (key_decode_pairs _ t [] Hlen). destruct (forallb isxdigit t); [|done]. cbn [negb app].
    pose proof (key_pairs_length _ t Hlen) as Hp. rewrite (proj2 (Z.ltb_ge 64 _)) by lia. rewrite bool_decide_false; [done|]. intros E. rewrite E in Hp. cbn in Hp. lia.
Qed.
Lemma mcp_key_agrees_witness : FsqlCtl [115] [107] (Some (bs "00fF" ++ [10])) = inr [0; 255].
Proof.
  rewrite (mcp_key_agrees [115] [107] (bs "00fF" ++ [10])); [reflexivity|done|done|].
  split; vm_compute; repeat constructor; discriminate.
Defined.

(** A key written over two lines is the daemon's whole, and the server's is
    its first line: every reply it reads fails the check. *)
Lemma hex_visible key : bytes_ok key -> Forall (fun c => isspace c = false) (flat_map hex_of key).
Proof.
  induction 1 as [|b key Hb _ IH]; [done|]. unfold byte_ok in Hb. cbn [flat_map hex_of app]. pose proof (Z.mod_pos_bound b 16 ltac:(lia)).
  assert (0 <= b / 16 < 16) by (split; [apply Z.div_pos; lia|apply Z.div_lt_upper_bound; lia]).
  repeat constructor; [..|exact IH]; unfold hexd, isspace; case_match; lia.
Qed.
Lemma visible_line l r : Forall (fun c => isspace c = false) l -> first_line (l ++ 10 :: r) = l /\ first_line l = l.
Proof.
  induction 1 as [|c l Hc _ [IH1 IH2]]; [done|]. cbn [app first_line]. assert ((c =? 10) || (c =? 13) = false) as -> by (unfold isspace in Hc; lia). by rewrite IH1, IH2.
Qed.
Lemma hex_digits key : bytes_ok key -> List.filter (fun c => negb (key_space c)) (flat_map hex_of key) = flat_map hex_of key.
Proof.
  intros H%hex_visible. induction H as [|c l Hc _ IH]; [done|]. cbn [List.filter]. rewrite IH.
  assert (key_space c = false) as -> by (unfold key_space, isspace in *; lia). done.
Qed.
Theorem second_key_line_ignored socketPath keyPath k1 k2 : socketPath <> [] -> keyPath <> [] -> bytes_ok k1 -> bytes_ok k2 ->
  (1 <= length k1)%nat -> (length k1 + length k2 <= 64)%nat ->
  let file := Some (flat_map hex_of k1 ++ 10 :: flat_map hex_of k2) in
  FsqlCtl socketPath keyPath file = inr k1 /\ DaemonConf.load_key file = Some (k1 ++ k2).
Proof.
  intros Hs Hk H1 H2 Hl Hl2 file. assert (Hsp : key_space 10 = true) by done. split.
  - pose proof (visible_line (flat_map hex_of k1) (flat_map hex_of k2) (hex_visible k1 H1)) as [E1 E2].
    pose proof (visible_line (flat_map hex_of k1) [] (hex_visible k1 H1)) as [E3 _].
    assert (E : FsqlCtl socketPath keyPath file = FsqlCtl socketPath keyPath (Some (flat_map hex_of k1 ++ [10]))) by (unfold FsqlCtl, file; by rewrite E1, E3).
    rewrite E, mcp_key_agrees, key_file_roundtrip; [done|done|lia|done|done|]. split; [|rewrite E3, drop_app_exact by done; by constructor].
    apply Forall_app; split; [|by repeat constructor]. eapply Forall_impl; [by apply hex_visible|]. intros c. unfold isspace. lia.
  - rewrite <- (key_file_roundtrip (k1 ++ k2)); [|by apply Forall_app|rewrite length_app; lia]. unfold file, DaemonConf.load_key.
    rewrite !List.filter_app, flat_map_app, !List.filter_app. cbn [List.filter]. rewrite Hsp. cbn [negb]. by rewrite app_nil_r, !hex_digits.
Qed.
Lemma second_key_line_ignored_witness :
  let file := Some (flat_map hex_of [0; 255] ++ 10 :: flat_map hex_of [171]) in
  FsqlCtl [115] [107] file = inr [0; 255] /\ DaemonConf.load_key file = Some [0; 255; 171].
Proof. apply (second_key_line_ignored [115] [107] [0; 255] [171]); try done; repeat constructor; done. Defined.

(** ** Frames *)

Lemma low_byte v : Z.land v 255 = u8 v.
Proof. change 255 with (Z.ones 8). by rewrite Z.land_ones. Qed.
Lemma mcp_request_header_wire op n : McpCtl.request_header op n = fsq_header_encode
  {| h_version := FSQ_PROTOCOL_VERSION; h_opcode := op; h_flags := 0; h_request_id := 1; h_context := 0; h_auth_len := FSQ_TAG_LEN; h_payload_len := u32 n |}.
Proof.
  assert (E2 : forall v, putLE16 v = fsq_put_u16 v) by (intros; unfold putLE16; by rewrite !low_byte).
  assert (E4 : forall v, putLE32 v = fsq_put_u32 v) by (intros; unfold putLE32; cbn [map seq]; by rewrite !low_byte).
  assert (E8 : forall v, putLE64 v = fsq_put_u64 v) by (intros; unfold putLE64; cbn [map seq]; by rewrite !low_byte).
  unfold McpCtl.request_header. by rewrite !E2, !E4, !E8.
Qed.

(** ** Requests over the daemon *)

Section Over.
Context {W I : Type} {AD : Adapter W I} {CO : Consumers W}.
Context (junk ver : list Z) (sy : sys) (cur : fsq_config) (cred : option Z).
#[local] Instance over : Transport (wire W I) := wire_transport junk ver sy cur cred.
Abbreviation hmac := (fsq_hmac_sha256 junk) (only parsing).
Abbreviation all_mem := (fun _ : Z => true) (only parsing).

(** A daemon no connection is open to, and a connection just made to it. *)
Definition idle (d : daemon W I) : wire W I := {| wi_d := d; wi_conn := None; wi_in := [] |}.
Definition no_handles (c : Z) (d : daemon W I) : Prop := Forall (fun h => hd_owner h <> c) (d_handles d).
Definition count_conn (d : daemon W I) : daemon W I := set_ids (d_next_handle d) (u64 (d_next_conn d + 1)) (d_mallocs d) d.

Lemma run_r {A B} (m : X A) (k : A -> X B) (e e1 : wire W I) a : m e = (inr a, e1) -> McpCtl.bind m k e = k a e1.
Proof. unfold McpCtl.bind. by intros ->. Qed.
Lemma run_l {A B} (m : X A) (k : A -> X B) (e e1 : wire W I) t : m e = (inl t, e1) -> McpCtl.bind m k e = (inl t, e1).
Proof. unfold McpCtl.bind. by intros ->. Qed.
Lemma read_ready n (d : daemon W I) c inp rest : length inp = n ->
  readExact n {| wi_d := d; wi_conn := c; wi_in := inp ++ rest |} = (inr inp, {| wi_d := d; wi_conn := c; wi_in := rest |}).
Proof.
  intros <-. unfold readExact. cbn [sock_read over wire_transport wi_in wi_d wi_conn].
  rewrite (proj2 (Nat.ltb_ge (length (inp ++ rest)) (length inp))) by (rewrite length_app; lia). by rewrite take_app_exact, drop_app_exact.
Qed.

Lemma size_ok n (e : wire W I) : string_of_size all_mem n e = (inr tt, e).
Proof. reflexivity. Qed.
Lemma get16_opcode h : header_ok h -> get16 (drop 6 (fsq_header_encode h)) = h_opcode h.
Proof.
  intros Hh. pose proof (header_decode_encode h [] Hh) as E. rewrite app_nil_r in E. unfold fsq_header_decode in E.
  destruct (negb _); [done|]. apply (inj Some) in E. by rewrite <- E at 2.
Qed.
(** What a request is answered with. *)
Definition reply_of (op : Z) (rep : fsq_reply) : Reply :=
  {| rp_opcode := op; rp_flags := if r_status rep =? FSQ_OK then 1 else 3; rp_status := r_status rep; rp_coreRc := r_core_rc rep; rp_body := r_body rep |}.
Definition request (op : Z) : fsq_header :=
  {| h_version := FSQ_PROTOCOL_VERSION; h_opcode := op; h_flags := 0; h_request_id := 1; h_context := 0; h_auth_len := FSQ_TAG_LEN; h_payload_len := 0 |}.
Lemma raw_served path op (d d' : daemon W I) rep :
  blen path < 108 -> peer_allowed cred cur = true -> 0 <= op < 2 ^ 16 ->
  dispatches ver sy cur (d_next_conn d) (request op) [] (count_conn d) rep d' -> reply_fits rep -> no_handles (d_next_conn d) d' ->
  exists n, rawRoundtrip hmac all_mem path (key_bytes cur) op [] (idle d) = (inr (reply_of op rep), idle (bump n d')).
Proof.
  intros Hpath Hpeer Hop Hd Hfit Hown. unfold rawRoundtrip. change (blen []) with 0. rewrite mcp_request_header_wire. change (u32 0) with 0. fold (request op).
  unfold McpCtl.bind at 1. unfold DaemonTransport. rewrite (proj2 (Z.leb_gt 108 _)) by lia.
  cbn [sock_connect over wire_transport wi_d idle next_conn_id]. rewrite Hpeer. fold (count_conn d). set (c := d_next_conn d) in *.
  assert (Hh : header_ok (request op)) by (unfold header_ok, request; cbn [h_version h_opcode h_flags h_request_id h_context h_auth_len h_payload_len]; unfold FSQ_PROTOCOL_VERSION, FSQ_TAG_LEN; lia).
  destruct (serve_authentic junk ver sy cur c (request op) [] (count_conn d) d' rep Hh eq_refl eq_refl eq_refl eq_refl ltac:(done) Hd) as (n & rh & rpay & Es & Erp & Erh).
  destruct (payload_fields rep Hfit) as (F1 & F2 & F3 & F4). rewrite <- Erp in F1, F2, F3, F4.
  destruct Hfit as (Hst & Hrc & Hb). assert (0 <= blen (r_body rep)) as H0 by (unfold blen; lia). assert (H80 : FSQ_MAX_PAYLOAD = 83886080) by reflexivity.
  assert (Hrh : header_ok rh) by (rewrite Erh; cbn [h_opcode h_request_id h_context request]; rewrite u32_id by lia; by apply response_header; lia).
  destruct (header_fields rh Hrh) as (G1 & G2 & G3 & _ & _ & G6). assert (G0 : get16 (drop 6 (fsq_header_encode rh)) = op) by (rewrite get16_opcode by done; by rewrite Erh).
  assert (Hflags : h_flags rh = if r_status rep =? FSQ_OK then 1 else 3) by (rewrite Erh; cbn [h_flags]; by destruct (_ =? _)).
  assert (Hlen : h_payload_len rh = blen rpay) by (rewrite Erh, F4; cbn [h_payload_len]; apply u32_id; lia).
  assert (Hver : h_version rh = FSQ_PROTOCOL_VERSION) by (by rewrite Erh). exists n.
  unfold closing. unfold writeAll. unfold McpCtl.bind at 1. cbn [sock_send over wire_transport wi_conn wi_d wi_in app]. rewrite Es.
  rewrite (run_r _ _ _ _ _ (read_ready 32 _ _ _ _ (header_encode_length rh))). change getLE16 with get16. change getLE32 with get32.
  rewrite G1, G2, G6, Hver, Hlen. change (bytes_eqb (bs "FSQ1") (bs "FSQ1")) with true. change (FSQ_PROTOCOL_VERSION =? 2) with true. cbn [negb]. cbv zeta.
  rewrite (run_r _ _ _ _ _ (read_ready 32 _ _ _ rpay (proj1 (hmac_digest _ _ _)))).
  assert (El : (if blen rpay =? 0 then McpCtl.ret [] else readExact (Z.to_nat (blen rpay))) {| wi_d := bump n d'; wi_conn := Some c; wi_in := rpay |} =
    (inr rpay, {| wi_d := bump n d'; wi_conn := Some c; wi_in := [] |})).
  { rewrite (proj2 (Z.eqb_neq _ _)) by lia. pose proof (read_ready (Z.to_nat (blen rpay)) (bump n d') (Some c) rpay []) as H. rewrite app_nil_r in H. apply H. unfold blen. lia. }
  rewrite (run_r _ _ _ _ _ (size_ok _ _)). rewrite (run_r _ _ _ _ _ El). unfold bytes_eqb. rewrite bool_decide_true by done. cbn [negb].
  rewrite (proj2 (Z.ltb_ge _ 8)) by lia. rewrite G0, G3, Hflags, F1, F2, F3. unfold McpCtl.ret. f_equal.
  unfold sock_close, over, wire_transport, hang_up. cbn [wi_conn wi_d]. by rewrite release_none.
Qed.

(** ** The three requests *)

Lemma text_run st t (d : daemon W I) : set_text ok_malloc st t d =
  ({| r_status := st; r_core_rc := 0; r_body := take (Nat.min (length t) (Z.to_nat (FSQ_MSG_MAX - 1))) t |}, bump (S (d_mallocs d)) d).
Proof. reflexivity. Qed.
Lemma text_fits st t (d : daemon W I) : 0 <= st < 2 ^ 32 -> reply_fits (fst (set_text ok_malloc st t d)).
Proof.
  intros Hst. rewrite text_run. cbn [fst]. split_and!; cbn [r_status r_core_rc r_body]; [lia..|]. unfold blen. rewrite length_take.
  change (Z.to_nat (FSQ_MSG_MAX - 1)) with 511%nat. unfold FSQ_MAX_PAYLOAD. lia.
Qed.
Lemma ping_dispatches c (d : daemon W I) : dispatches ver sy cur c (request OP_PING) [] d
  {| r_status := FSQ_OK; r_core_rc := 0; r_body := fsq_put_u16 FSQ_PROTOCOL_VERSION |} d.
Proof. intros n. eexists. reflexivity. Qed.
(** RELOAD does not depend on what was allocated before. *)
Lemma reload_text (d : daemon W I) : exists st t w s, 0 <= st < 2 ^ 32 /\
  forall n, exists m, handle_reload ok_malloc sy cur (bump n d) = set_text ok_malloc st t (bump m (set_snaps s (set_world w d))).
Proof.
  assert (K : forall st t, 0 <= st < 2 ^ 32 -> (forall n, handle_reload ok_malloc sy cur (bump n d) = set_text ok_malloc st t (bump n d)) ->
    exists st t w s, 0 <= st < 2 ^ 32 /\ forall n, exists m, handle_reload ok_malloc sy cur (bump n d) = set_text ok_malloc st t (bump m (set_snaps s (set_world w d)))).
  { intros st t Hst Hn. exists st, t, (d_world d), (d_snaps d). split; [done|]. intros n. exists n. by rewrite Hn. }
  destruct (load_config (sy_files sy) (sy_euid sy) (sy_path sy)) as [next|] eqn:E1; [|apply (K FSQ_ERR_ARGS (bs "reload failed: config file unreadable") ltac:(done)); intros n; unfold handle_reload; by rewrite E1].
  destruct (negb (bytes_eqb (str_of next (bs "socket_path")) (str_of cur (bs "socket_path"))) || negb (bytes_eqb (str_of next (bs "hmac_key_file")) (str_of cur (bs "hmac_key_file")))) eqn:E2;
    [apply (K FSQ_ERR_ARGS (bs "socket_path and hmac_key_file changes require a restart") ltac:(done)); intros n; unfold handle_reload; by rewrite E1, E2|].
  destruct (validate_cfg (sy_stat sy) (Some (sy_path sy)) next) eqn:E3;
    [|apply (K FSQ_ERR_ARGS (bs "reload failed: key/config file permissions rejected") ltac:(done)); intros n; unfold handle_reload; by rewrite E1, E2, E3].
  destruct (daemon_check_provider next (d_world d)) eqn:E4;
    [|apply (K FSQ_ERR_ARGS (bs "reload failed: provider settings rejected (see the daemon log)") ltac:(done)); intros n; unfold handle_reload; rewrite E1, E2, E3; change (d_world (bump n d)) with (d_world d); by rewrite E4].
  destruct (daemon_apply_provider next (d_world d)) as [w ok] eqn:E5. set (r := cfg_publish (Some (fresh (dom (snaps (d_snaps d))))) next (d_snaps d)).
  assert (Hgo : forall n, handle_reload ok_malloc sy cur (bump n d) =
    if negb ok then set_text ok_malloc FSQ_ERR_ARGS (bs "reload failed: applying provider settings (see the daemon log)") (set_world w (bump n d))
    else if negb (snd r) then set_text ok_malloc FSQ_ERR_INTERNAL (bs "out of memory") (bump (S n) (set_snaps (fst r) (set_world w d)))
    else set_text ok_malloc FSQ_OK (bs "reloaded") (bump (S n) (set_snaps (fst r) (set_world w d)))).
  { intros n. unfold handle_reload. rewrite E1, E2, E3. change (d_world (bump n d)) with (d_world d). rewrite E4, E5. cbn [negb]. destruct (negb ok); [done|].
    unfold r. cbn [Daemon.malloc ok_malloc]. change (d_snaps (set_ids _ _ _ (set_world w (bump n d)))) with (d_snaps d). by destruct (cfg_publish _ next (d_snaps d)). }
  destruct (negb ok); [exists FSQ_ERR_ARGS, (bs "reload failed: applying provider settings (see the daemon log)"), w, (d_snaps d); split; [done|]; intros n; exists n; by rewrite Hgo|].
  destruct (negb (snd r)); eexists _, _, w, (fst r); split; [|intros n; exists (S n); by rewrite Hgo| |intros n; exists (S n); by rewrite Hgo]; done.
Qed.
Lemma reload_runs (d : daemon W I) rep d' : handle_reload ok_malloc sy cur d = (rep, d') ->
  reply_fits rep /\ (forall n, exists n', handle_reload ok_malloc sy cur (bump n d) = (rep, bump n' d')) /\ d_handles d' = d_handles d.
Proof.
  destruct (reload_text d) as (st & t & w & s & Hst & Hn). intros E.
  destruct (Hn (d_mallocs d)) as [m Em]. assert (Ed : bump (d_mallocs d) d = d) by (by destruct d). rewrite Ed, E in Em. rewrite text_run in Em. injection Em as -> ->.
  split; [exact (text_fits st t d Hst)|]. split; [|done]. intros n. destruct (Hn n) as [m' E']. rewrite E', text_run. by eexists.
Qed.
Lemma rp_refused op rep : refused (reply_of op rep) = negb (r_status rep =? FSQ_OK).
Proof. unfold refused, reply_of. cbn [rp_flags]. by destruct (r_status rep =? FSQ_OK). Qed.
Lemma count_bump n (d : daemon W I) : count_conn (bump n d) = bump n (count_conn d).
Proof. done. Qed.

(** The tool's two requests over the daemon: the daemon's protocol version is
    read on one connection and RELOAD is run once on the next; the answer is
    the daemon's, and nothing of either connection is left. *)
Lemma reload_over_daemon path (d : daemon W I) rep d' : blen path < 108 -> peer_allowed cred cur = true ->
  Forall (fun h => hd_owner h <> d_next_conn d /\ hd_owner h <> u64 (d_next_conn d + 1)) (d_handles d) ->
  handle_reload ok_malloc sy cur (count_conn (count_conn d)) = (rep, d') ->
  exists n, caught (McpCtl.bind (ping hmac all_mem path (key_bytes cur)) (fun _ => McpCtl.bind (reload hmac all_mem path (key_bytes cur)) (fun _ => McpCtl.ret tt))) (idle d) =
    (inr (if r_status rep =? FSQ_OK then inr tt else inl (Refused (refusal_message (reply_of OP_RELOAD rep) (bs "reload")))), idle (bump n d')).
Proof.
  intros Hpath Hpeer Hown Hr. destruct (reload_runs _ _ _ Hr) as (Hfit & Hrun & Hh).
  destruct (raw_served path OP_PING d (count_conn d) _ Hpath Hpeer ltac:(unfold OP_PING; lia) (ping_dispatches _ _)) as [n1 E1].
  { split_and!; cbn [r_status r_core_rc r_body]; unfold FSQ_OK; [lia..|done]. }
  { eapply Forall_impl; [exact Hown|]. by intros h [? _]. }
  destruct (raw_served path OP_RELOAD (bump n1 (count_conn d)) d' rep Hpath Hpeer ltac:(unfold OP_RELOAD; lia)) as [n2 E2].
  { intros n. rewrite count_bump, bump_bump. apply Hrun. }
  { exact Hfit. }
  { unfold no_handles. rewrite Hh. eapply Forall_impl; [exact Hown|]. by intros h [_ ?]. }
  exists n2. unfold caught, ping. unfold McpCtl.bind at 1. rewrite (run_r _ _ _ _ _ E1). rewrite rp_refused. cbn [r_status negb]. change (FSQ_OK =? FSQ_OK) with true. cbn [negb].
  unfold McpCtl.ret at 1. unfold reload. unfold McpCtl.bind at 1. rewrite (run_r _ _ _ _ _ E2), rp_refused. by destruct (r_status rep =? FSQ_OK).
Qed.
End Over.

(** ** From the file to the daemon's fields *)

(** What the daemon keeps of a key's text, in the field the key has. *)
Definition long_of (v : list Z) : Z := let '(n, e) := strtol v in if bytes_eqb e v || negb (bytes_eqb e []) then -1 else n.
Definition conf_holds (c : fsq_config) (k v : list Z) : Prop :=
  match List.find (fun kt => bytes_eqb (fst kt) k) conf_keys with
  | Some (_, K_str _ _) => c_str c !! k = Some v
  | Some (_, K_bool _) => c_bool c !! k = Some (cfg_bool_true v)
  | Some (_, K_long _) => c_long c !! k = Some (long_of v)
  | _ => False
  end.
Definition field_key (k : list Z) : Prop :=
  exists k' t, List.find (fun kt => bytes_eqb (fst kt) k) conf_keys = Some (k', t) /\ match t with K_str _ _ | K_bool _ | K_long _ => True | _ => False end.
Lemma editable_field k : isEditableKey k = true -> field_key k.
Proof.
  intros H%is_in_elem.
  assert (Hall : forallb (fun k => match List.find (fun kt => bytes_eqb (fst kt) k) conf_keys with Some (_, (K_str _ _ | K_bool _ | K_long _)) => true | _ => false end) kEditableKeys = true) by reflexivity.
  rewrite forallb_forall in Hall. specialize (Hall k (proj1 (list_elem_of_In _ _) H)). unfold field_key. destruct (List.find _ conf_keys) as [[k' t]|]; [|done].
  exists k', t. by destruct t.
Qed.
(** A line sets its own key's field and no other's. *)
Lemma conf_line_holds c line c' k v : conf_line c line = Some c' -> conf_pair line = Some (k, v) -> field_key k -> conf_holds c' k v.
Proof.
  unfold conf_line, conf_holds. intros H Hp (k' & t & Hf & Ht). rewrite Hp, Hf in H. rewrite Hf. apply find_some in Hf as [_ E]. apply bytes_eqb_true in E. cbn [fst] in E. subst k'.
  destruct t as [size bit|bit|bit| | |]; try done.
  - destruct (size <=? _); [done|]. injection H as <-. cbn [with_str c_str]. apply lookup_insert_eq.
  - injection H as <-. cbn [with_bool c_bool]. apply lookup_insert_eq.
  - unfold long_of. destruct (strtol v) as [n e]. injection H as <-. cbn [with_long c_long]. apply lookup_insert_eq.
Qed.
Lemma conf_line_keeps c line c' k v : conf_line c line = Some c' -> (forall v', conf_pair line <> Some (k, v')) -> conf_holds c k v -> conf_holds c' k v.
Proof.
  unfold conf_line. destruct (conf_pair line) as [[k1 v1]|]; [|by intros [= <-]]. intros H Hne Hc. assert (Hk : k1 <> k) by (intros ->; by apply (Hne v1)).
  destruct (List.find _ conf_keys) as [[k2 t]|] eqn:Ef; [|by injection H as <-]. apply find_some in Ef as [_ E]. apply bytes_eqb_true in E. cbn [fst] in E. subst k2.
  unfold conf_holds in *. destruct t as [size bit|bit|bit| | |].
  - destruct (size <=? _); [done|]. injection H as <-. cbn [with_str c_str c_bool c_long]. by rewrite lookup_insert_ne.
  - injection H as <-. cbn [with_bool c_str c_bool c_long]. by rewrite lookup_insert_ne.
  - destruct (strtol v1). injection H as <-. cbn [with_long c_str c_bool c_long]. by rewrite lookup_insert_ne.
  - by injection H as <-.
  - by injection H as <-.
  - destruct (add_uids _ _); [|done]. by injection H as <-.
Qed.
Lemma conf_loop_keeps ls : forall c c' k v, conf_loop c ls = Some c' -> k ∉ map fst (omap conf_pair ls) -> conf_holds c k v -> conf_holds c' k v.
Proof.
  induction ls as [|l ls IH]; intros c c' k v H Hk Hc; cbn [conf_loop] in H; [by injection H as <-|]. destruct (conf_line c l) as [c1|] eqn:E; [|done].
  cbn [omap list_omap] in Hk. apply (IH c1 c' k v H).
  - intros Hin. apply Hk. destruct (conf_pair l); [|done]. cbn [map]. by right.
  - apply (conf_line_keeps c l c1); [done| |done]. intros v' Ep. rewrite Ep in Hk. apply Hk. cbn [map fst]. by left.
Qed.
Lemma conf_loop_holds ls : forall c c' k v, conf_loop c ls = Some c' -> NoDup (map fst (omap conf_pair ls)) -> (k, v) ∈ omap conf_pair ls -> field_key k -> conf_holds c' k v.
Proof.
  induction ls as [|l ls IH]; intros c c' k v H Hn Hin Hf; [by apply elem_of_nil in Hin|]. cbn [conf_loop] in H. destruct (conf_line c l) as [c1|] eqn:E; [|done].
  cbn [omap list_omap] in Hn, Hin. destruct (conf_pair l) as [[k1 v1]|] eqn:Ep; [|by apply (IH c1)]. cbn [map fst] in Hn. apply NoDup_cons in Hn as [Hk Hn].
  apply elem_of_cons in Hin as [[= -> ->]|Hin]; [|by apply (IH c1)]. apply (conf_loop_keeps ls c1); [done|done|]. by apply (conf_line_holds c l).
Qed.

Lemma ordered_keys m : ordered m -> NoDup (map fst m).
Proof.
  induction 1 as [|k v m _ IH Hf]; [constructor|]. cbn [map fst]. constructor; [|done]. intros ([k' v'] & Ek & Hin)%list_elem_of_fmap. cbn [fst] in Ek. subst k'.
  eapply Forall_forall in Hf; [|exact Hin]. cbn [fst] in Hf. by rewrite bytes_ltb_irrefl in Hf.
Qed.
Lemma apply_in ch : forall m k v, NoDup (map fst ch) -> (k, v) ∈ ch -> conf_find k (apply_changes ch m) = Some v.
Proof.
  induction ch as [|[k1 v1] ch IH]; intros m k v Hn Hin; [by apply elem_of_nil in Hin|]. cbn [map fst] in Hn. apply NoDup_cons in Hn as [Hk Hn].
  cbn. fold (apply_changes ch (conf_set k1 v1 m)). apply elem_of_cons in Hin as [[= -> ->]|Hin]; [|by apply IH].
  rewrite apply_other by done. by rewrite conf_find_set, bytes_eqb_refl.
Qed.
Lemma find_in k v m : conf_find k m = Some v -> (k, v) ∈ m.
Proof.
  induction m as [|[k1 v1] m IH]; [done|]. cbn [conf_find]. destruct (bytes_eqb k k1) eqn:E.
  - apply bytes_eqb_true in E as <-. intros [= ->]. by left.
  - intros H. right. by apply IH.
Qed.
Lemma changes_keys c : NoDup (map fst (changes_of c)).
Proof.
  destruct c as [key value|a]; cbn [changes_of].
  - destruct (checked_value key value); [|constructor]. cbn [map fst]. apply NoDup_singleton.
  - apply ordered_keys. unfold reasoning_changes.
    assert (H : forall k v m, ordered m -> ordered (add_change k v m)) by (intros k [v|] m Hm; [by apply conf_set_ordered|done]).
    do 6 apply H. constructor.
Qed.

(** ** From a tool's call to the daemon's configuration *)

Section Live.
Context {W I : Type} {AD : Adapter W I} {CO : Consumers W}.
Context (junk ver : list Z) (sy : sys) (cur : fsq_config) (cred : option Z).
Context (socketPath keyPath : list Z).                    (* FSQLCTL_SOCKET, FSQLCTL_KEY *)

(** The system once the daemon's file is [new]. *)
Definition with_file (new : list Z) : sys :=
  {| sy_files := fun p => if bytes_eqb p (sy_path sy) then Some new else sy_files sy p; sy_stat := sy_stat sy; sy_euid := sy_euid sy; sy_path := sy_path sy |}.
(** reloadAndReport, with the daemon [d] at the socket. *)
Definition report (d : daemon W I) (new : list Z) : (thrown + (thrown + unit)) * wire W I :=
  reloadAndReport (TR := wire_transport junk ver (with_file new) cur cred) (fsq_hmac_sha256 junk) (fun _ => true)
    socketPath keyPath (sy_files sy keyPath) (idle d).
Definition live_reload (d : daemon W I) (new : list Z) : bool := match fst (report d new) with inr (inr tt) => true | _ => false end.
Definition live_daemon (d : daemon W I) (new : list Z) : daemon W I := wi_d (snd (report d new)).

Context (d : daemon W I) (Hkey : FsqlCtl socketPath keyPath (sy_files sy keyPath) = inr (key_bytes cur)) (Hpath : blen socketPath < 108)
  (Hpeer : peer_allowed cred cur = true)
  (Hown : Forall (fun h => hd_owner h <> d_next_conn d /\ hd_owner h <> u64 (d_next_conn d + 1)) (d_handles d)).

Lemma report_over new : exists rep d' n, handle_reload ok_malloc (with_file new) cur (count_conn (count_conn d)) = (rep, d') /\
  report d new = (inr (if r_status rep =? FSQ_OK then inr tt else inl (Refused (refusal_message (reply_of OP_RELOAD rep) (bs "reload")))), idle (bump n d')).
Proof.
  destruct (handle_reload ok_malloc (with_file new) cur (count_conn (count_conn d))) as [rep d'] eqn:E.
  destruct (reload_over_daemon junk ver (with_file new) cur cred socketPath d rep d' Hpath Hpeer Hown E) as [n En].
  exists rep, d', n. split; [done|]. unfold report, reloadAndReport, daemonOrNull. rewrite Hkey. exact En.
Qed.
(** The daemon's new configuration, or the old one. *)
Lemma live_outcome new : d_handles (live_daemon d new) = d_handles d /\ d_cache (live_daemon d new) = d_cache d /\
  if live_reload d new then exists next q, load_config (sy_files (with_file new)) (sy_euid sy) (sy_path sy) = Some next /\
    str_of next (bs "socket_path") = str_of cur (bs "socket_path") /\ str_of next (bs "hmac_key_file") = str_of cur (bs "hmac_key_file") /\
    g_snap (d_snaps (live_daemon d new)) = Some q /\ snaps (d_snaps (live_daemon d new)) !! q = Some (next, 0)
  else d_snaps (live_daemon d new) = d_snaps d.
Proof.
  destruct (report_over new) as (rep & d' & n & E & Er). unfold live_reload, live_daemon. rewrite Er. cbn [fst snd idle wi_d].
  destruct (handle_reload_outcome _ _ _ _ _ _ E) as [rep w m Hs|rep w m s next q Hs Hl H1 H2 _ _ _ Hg Hq].
  - rewrite (proj2 (Z.eqb_neq _ _)) by done. done.
  - rewrite Hs. change (FSQ_OK =? FSQ_OK) with true. split; [done|]. split; [done|]. by exists next, q.
Qed.

(** C26: A configuration tool over the socket, on a disk that takes the whole
    write ([stores]; a short write is not noticed, [short_write_replaces]).
    When the call is answered, the file is the one it wrote; if the answer says
    the daemon took the reload, the configuration the daemon has published has
    the socket and the key file it was started with and, provided every line
    written is within the daemon's buffer of 1023 bytes ([line_fits]; a longer
    one does set other keys, [long_value_injects]), every key the call set with
    its value; if it says the daemon did not, the published configuration is the
    one before.  Handles and the replay cache are as they were. *)
Theorem config_change_reaches_daemon getenv io c file file' o : stores io ->
  run_call getenv io (live_reload d) c file = (file', inr o) ->
  exists old new, readConf file = Some old /\ new = apply_changes (changes_of c) old /\ file' = Some (conf_render new) /\ let d' := live_daemon d (conf_render new) in
    d_handles d' = d_handles d /\ d_cache d' = d_cache d /\
    if reloaded o then exists next q, g_snap (d_snaps d') = Some q /\ snaps (d_snaps d') !! q = Some (next, 0) /\
      str_of next (bs "socket_path") = str_of cur (bs "socket_path") /\ str_of next (bs "hmac_key_file") = str_of cur (bs "hmac_key_file") /\
      (Forall line_fits new -> Forall (fun kv => conf_holds next (fst kv) (daemon_value (snd kv))) (changes_of c))
    else d_snaps d' = d_snaps d.
Proof.
  intros Hio Hr. destruct (run_call_cases getenv io (live_reload d) c file) as [[e E]|(old & new & o' & E & Hf & Hw & _ & _ & Hk & _)]; rewrite E in Hr; simplify_eq.
  destruct (readConf_shape _ _ Hf) as [Ho Hs].
  assert (Hc : Forall (fun kv => key_shape (fst kv)) (changes_of c)) by (eapply Forall_impl; [exact Hk|]; intros kv [H%editable_key _]; apply H).
  destruct (apply_shape _ old Hc Ho) as [Ho' Hs']; [eapply Forall_impl; [exact Hs|]; by intros kv [? _]|].
  destruct (writeConf_inv _ _ _ Hw) as [Hl _]. destruct (read_back io _ _ Hio Ho' Hs' Hw) as [-> _].
  set (m := apply_changes (changes_of c) old) in *. exists old, m. split; [done|]. split; [done|]. split; [done|]. destruct (live_outcome (conf_render m)) as (L1 & L2 & L3). split; [exact L1|]. split; [exact L2|].
  assert (Ho2 : reloaded o = live_reload d (conf_render m)) by (by apply (run_call_reloaded _ _ _ _ _ _ _ E)). rewrite Ho2. destruct (live_reload d (conf_render m)); [|exact L3].
  destruct L3 as (next & q & Hn & H1 & H2 & Hg & Hq). exists next, q. split_and!; try done. intros Hfit.
  apply load_config_inv in Hn as (c0 & content & key & Hcont & Hloop & _ & Hnext & _). cbn [with_file sy_files] in Hcont. rewrite bytes_eqb_refl in Hcont. injection Hcont as <-.
  assert (Hp : omap conf_pair (conf_lines (length (conf_render m)) (conf_render m)) = map (fun kv => (fst kv, daemon_value (snd kv))) m) by (by apply daemon_reads).
  apply Forall_forall. intros [k v] Hin. cbn [fst snd].
  assert (Hh : conf_holds c0 k (daemon_value v)).
  { apply (conf_loop_holds _ _ _ _ _ Hloop); rewrite ?Hp.
    - rewrite map_map. cbn [fst]. by apply ordered_keys.
    - apply list_elem_of_fmap. exists (k, v). split; [done|]. apply find_in, apply_in; [apply changes_keys|done].
    - apply editable_field. eapply Forall_forall in Hk; [|exact Hin]. apply Hk. }
  rewrite Hnext. exact Hh.
Qed.
End Live.

(** A daemon started from a file, and a call that names another model. *)
Definition live_sys : sys := {| sy_files := conf_files; sy_stat := fun _ => None; sy_euid := 0; sy_path := bs "/etc/fractalsqld.conf" |}.
Definition live_conf : fsq_config := default config0 (load_config conf_files 0 (bs "/etc/fractalsqld.conf")).
Definition live_call : conf_call := SetConfig (bs "reasoning_model") (bs " m2").
Abbreviation live_run := (run_call (fun _ => None) demo_conf_io
  (live_reload (repeat 0 64) (bs "1.0") live_sys live_conf (Some 0) (bs "/run/fractalsqld.sock") (bs "/etc/fractalsql/key") dd0) live_call (Some conf_text)) (only parsing).
Lemma config_change_reaches_daemon_witness : exists new o next q, live_run = (Some new, inr o) /\ reloaded o = true /\
  let s := d_snaps (live_daemon (repeat 0 64) (bs "1.0") live_sys live_conf (Some 0) (bs "/run/fractalsqld.sock") (bs "/etc/fractalsql/key") dd0 new) in
  g_snap s = Some q /\ snaps s !! q = Some (next, 0) /\ c_str next !! bs "reasoning_model" = Some (bs "m2").
Proof.
  assert (H : (fun r => match r with (Some new, inr o) => reloaded o | _ => false end) live_run = true) by (vm_compute; reflexivity).
  destruct live_run as [[new|] [e|o]] eqn:E; try done. cbv beta iota in H.
  destruct (config_change_reaches_daemon (repeat 0 64) (bs "1.0") live_sys live_conf (Some 0) (bs "/run/fractalsqld.sock") (bs "/etc/fractalsql/key") dd0
    ltac:(vm_compute; reflexivity) ltac:(vm_compute; reflexivity) ltac:(vm_compute; reflexivity) ltac:(constructor) (fun _ => None) demo_conf_io live_call (Some conf_text) (Some new) o (fun _ => eq_refl) E)
    as (old & m & Ho & Hm & [= ->] & _ & _ & Hd). rewrite H in Hd. destruct Hd as (next & q & Hg & Hq & _ & _ & Hh). exists (conf_render m), o, next, q. split; [done|]. split; [done|]. split; [done|]. split; [done|].
  assert (Hfit : Forall line_fits m) by (rewrite Hm; vm_compute in Ho; injection Ho as <-; vm_compute; repeat constructor; discriminate).
  apply Hh in Hfit. assert (Hc : changes_of live_call = [(bs "reasoning_model", bs " m2")]) by (vm_compute; reflexivity). rewrite Hc in Hfit.
  assert (Hf : conf_holds next (bs "reasoning_model") (daemon_value (bs " m2"))) by exact (proj1 (Forall_singleton _ _) Hfit). assert (Hv : daemon_value (bs " m2") = bs "m2") by (vm_compute; reflexivity). rewrite Hv in Hf.
  assert (Hx : forall c v, conf_holds c (bs "reasoning_model") v -> c_str c !! bs "reasoning_model" = Some v) by (intros c v; vm_compute; trivial).
  exact (Hx next (bs "m2") Hf).
Defined.

(** ** A reply to another request *)

(** A peer that plays back the bytes it recorded. *)
Definition recorded : Transport (list Z) := {|
  sock_alive _ := true; sock_connect _ e := (e, inr tt); sock_close e := e; sock_send _ _ _ e := (e, true);
  sock_read n e := if (length e <? n)%nat then (e, None) else (drop n e, Some (take n e)) |}.
(** The daemon's answer to another client's PING. *)
Definition ping_frame : list Z :=
  Ctl.request_header OP_PING 7 0 ++ fsq_hmac_sha256 (repeat 0 64) [1; 2; 3] (Ctl.request_header OP_PING 7 0).
Definition bytes_out (r : option (list Z * list Z)) : list Z := match r with Some (_, out) => out | None => [] end.
Definition recorded_ping : list Z :=
  bytes_out (fst (serve_frame (W := dworld) (I := unit) ok_malloc (repeat 0 64) (bs "1.0") sys0 demo_conf 1 true ping_frame dd0)).
(** The server reads it as the success of its RELOAD: the response flag, the
    opcode and the request id of a reply are not compared with the request. *)
Theorem stale_reply_accepted : 
  fst (reload (TR := recorded) (fsq_hmac_sha256 (repeat 0 64)) (fun _ => true) (bs "/run/fractalsqld.sock") [1; 2; 3] recorded_ping) =
  inr (bs "reloaded: configuration swapped in").
Proof. vm_compute. reflexivity. Qed.
