(* ===== verification/McpServer.v ===== *)
(** * The MCP server's dispatch core
    (mcp/src/jsonrpc_server.cpp, tool_registry.h, concurrency.h, mcp_json.h)

    One line of a client is one request, answered by a thread of its own.  A
    thread is a program counter and what it holds; the servers of a process
    share one concurrency manager.  The JSON parser and printer (vendored) are
    parameters, and so are the resource and prompt catalogs; a tool's handler
    is whatever it answers.  A set or a count kept per server is one set of
    pairs of a server and a member. *)

From stdpp Require Import gmap.
From S2P Require Import Prelude McpConf.

(** ** mcp_json.h *)

(** A floating number is its double's bits. *)
Inductive Json :=
  | JNull | JBool (b : bool) | JInt (z : Z) | JFloat (bits : Z) | JStr (s : list Z) | JArr (l : list Json) | JObj (m : list (list Z * Json)).
Inductive JsonType := TString | TInteger | TNumber | TBoolean | TObject | TArray | TNull.
Definition jsonTypeMatches (t : JsonType) (v : Json) : bool :=
  match t, v with
  | TString, JStr _ | TInteger, JInt _ | TNumber, (JInt _ | JFloat _) | TBoolean, JBool _ | TObject, JObj _ | TArray, JArr _ | TNull, JNull => true
  | _, _ => false
  end.
Definition jsonTypeName (t : JsonType) : list Z :=
  match t with
  | TString => bs "string" | TInteger => bs "integer" | TNumber => bs "number" | TBoolean => bs "boolean" | TObject => bs "object"
  | TArray => bs "array" | TNull => bs "null"
  end.
Definition kMaxJsonDepth : Z := 128.
Fixpoint nests (depth : Z) (inString skip : bool) (s : list Z) : bool :=
  match s with
  | [] => false
  | c :: s =>
      if skip then nests depth inString false s
      else if inString then
        if c =? 92 then nests depth true true s else nests depth (negb (c =? 34)) false s
      else if c =? 34 then nests depth true false s
      else if (c =? 91) || (c =? 123) then (kMaxJsonDepth <? depth + 1) || nests (depth + 1) false false s
      else if ((c =? 93) || (c =? 125)) && (0 <? depth) then nests (depth - 1) false false s
      else nests depth false false s
  end.
Definition jsonNestsTooDeep (s : list Z) : bool := nests 0 false false s.

(** Objects are std::maps: the members in the order of their names. *)
Fixpoint jfind (k : list Z) (m : list (list Z * Json)) : option Json :=
  match m with [] => None | (k', v) :: m => if bytes_eqb k k' then Some v else jfind k m end.
Fixpoint jput (k : list Z) (v : Json) (m : list (list Z * Json)) : list (list Z * Json) :=
  match m with
  | [] => [(k, v)]
  | (k', v') :: r => if bytes_eqb k k' then (k, v) :: r else if bytes_ltb k k' then (k, v) :: m else (k', v') :: jput k v r
  end.
Definition jerase (k : list Z) (m : list (list Z * Json)) : list (list Z * Json) := List.filter (fun kv => negb (bytes_eqb k (fst kv))) m.
Definition jobj (l : list (list Z * Json)) : Json := JObj (fold_left (fun m kv => jput (fst kv) (snd kv) m) l []).
(** [v["k"] = x], of an object. *)
Definition jset (k : list Z) (x : Json) (v : Json) : Json := match v with JObj m => JObj (jput k x m) | v => v end.
(** valueOr<std::string>(obj, k, ""). *)
Definition valueOr (obj : Json) (k : list Z) : list Z :=
  match obj with JObj m => match jfind k m with Some (JStr s) => s | _ => [] end | _ => [] end.

(** ** tool_registry.h *)

Inductive ToolClass := Cheap | Expensive.
Record ToolParam := { p_name : list Z; p_type : JsonType; p_required : bool; p_default : Json; p_description : list Z;
  p_nullable : bool; p_item : JsonType }.
Record ToolSpec := { t_name : list Z; t_category : list Z; t_description : list Z; t_class : ToolClass; t_params : list ToolParam;
  t_retryTier : option (list Z); destructiveHint : bool; readOnlyHint : bool; idempotentHint : bool; openWorldHint : bool; secretHint : bool }.
(** ToolError: its class and its message. *)
Record terr := { te_class : ErrorClass; te_msg : list Z }.
Definition schema (msg : list Z) : terr := {| te_class := Schema; te_msg := msg |}.

(** The first complaint of validateArgs. *)
Fixpoint validate_params (ps : list ToolParam) (m : list (list Z * Json)) : option terr :=
  match ps with
  | [] => None
  | p :: ps =>
      match jfind (p_name p) m with
      | None | Some JNull => if p_required p then Some (schema (bs "missing required argument: " ++ p_name p)) else validate_params ps m
      | Some v =>
          if negb (jsonTypeMatches (p_type p) v) then Some (schema (p_name p ++ bs " has the wrong type"))
          else match p_type p, v with
               | TArray, JArr l =>
                   if forallb (jsonTypeMatches (p_item p)) l then validate_params ps m
                   else Some (schema (p_name p ++ bs " elements must be " ++ jsonTypeName (p_item p)))
               | _, _ => validate_params ps m
               end
      end
  end.
Definition validateArgs (spec : ToolSpec) (args : Json) : option terr :=
  match args with JObj m => validate_params (t_params spec) m | _ => Some (schema (bs "arguments must be a JSON object")) end.
Definition drop_null (m : list (list Z * Json)) (p : ToolParam) : list (list Z * Json) :=
  if p_nullable p then m else match jfind (p_name p) m with Some JNull => jerase (p_name p) m | _ => m end.
Definition withoutNullDefaults (spec : ToolSpec) (args : Json) : Json :=
  match args with JObj m => JObj (fold_left drop_null (t_params spec) m) | v => v end.

Definition jtype (t : list Z) : Json := JStr t.
Definition param_schema (p : ToolParam) : Json :=
  let type := JStr (jsonTypeName (p_type p)) in
  jobj ([(bs "type", if p_nullable p then JArr [type; JStr (bs "null")] else type)] ++
        match p_type p with TArray => [(bs "items", jobj [(bs "type", JStr (jsonTypeName (p_item p)))])] | _ => [] end ++
        [(bs "description", JStr (p_description p))] ++
        (if negb (p_required p) && negb (match p_default p with JNull => true | _ => false end) then [(bs "default", p_default p)] else [])).
Definition buildInputSchema (spec : ToolSpec) : Json :=
  let props := jobj (map (fun p => (p_name p, param_schema p)) (t_params spec)) in
  let required := map (fun p => JStr (p_name p)) (List.filter p_required (t_params spec)) in
  jobj ([(bs "type", JStr (bs "object")); (bs "properties", props); (bs "additionalProperties", JBool false)] ++
        (match required with [] => [] | _ => [(bs "required", JArr required)] end) ++
        (match t_params spec with [] => [(bs "x-fractalsql-no-arguments", JBool true)] | _ => [] end)).
Definition buildAnnotations (t : ToolSpec) : Json :=
  jobj ([(bs "readOnlyHint", JBool (readOnlyHint t)); (bs "destructiveHint", JBool (destructiveHint t));
         (bs "idempotentHint", JBool (idempotentHint t)); (bs "openWorldHint", JBool (openWorldHint t))] ++
        (if secretHint t then [(bs "secretHint", JBool true)] else []) ++
        (match t_retryTier t with Some r => [(bs "x-fractalsql-retry-tier", JStr r)] | None => [] end)).

Definition stateMutating : list (list Z) :=
  [bs "fractal_audit_log"; bs "fractal_ledger_load"; bs "fractal_vectorizer_create"; bs "fractal_vectorizer_pause"; bs "fractal_vectorizer_resume";
   bs "fractal_vectorizer_process_queue"; bs "fractal_vectorizer_enqueue"; bs "fractal_vectorizer_drop"; bs "fractal_store_morphology";
   bs "fractal_diversify_enable"; bs "fractal_diversify_disable"; bs "fractal_diversify_set_params"; bs "fractal_diversify_params";
   bs "fractal_feedback_report"; bs "fractal_isolate_background"; bs "fractal_agent_data_analyst"; bs "fractal_sql_agent";
   bs "fractal_agent_feedback_audit"; bs "fractal_agent_recommend_diverse"; bs "fractal_session_close"; bs "fractalsql_session_config_reset";
   bs "fractal_lock_destructive"; bs "fractal_store_vectors"; bs "fractal_store_series"; bs "fractal_store_hash"; bs "fractal_delete_key"].
Definition isStateMutatingTool (n : list Z) : bool := is_in stateMutating n.
Definition with_hints (d r i : bool) (t : ToolSpec) : ToolSpec :=
  {| t_name := t_name t; t_category := t_category t; t_description := t_description t; t_class := t_class t; t_params := t_params t;
     t_retryTier := t_retryTier t; destructiveHint := d; readOnlyHint := r; idempotentHint := i; openWorldHint := openWorldHint t; secretHint := secretHint t |}.
Definition classifyStateMutatingTools (tools : list ToolSpec) : list ToolSpec :=
  map (fun t => if isStateMutatingTool (t_name t) then with_hints true false (idempotentHint t) t else t) tools.
Definition applyDerivedHints (tools : list ToolSpec) : list ToolSpec :=
  map (fun t => if readOnlyHint t || is_in [bs "fractal_diversify_enable"; bs "fractal_diversify_disable"] (t_name t)
                then with_hints (destructiveHint t) (readOnlyHint t) true t else t) tools.

(** ** jsonrpc_server.cpp: a line *)

Inductive ProtocolEra := Legacy | Modern.
Record CallOptions := { era : ProtocolEra; contextId : list Z; toolAllow : option (list (list Z)) }.
Record ServerConfig := { serverName : list Z; serverVersion : list Z; readOnlyMode : bool; modernOnly : bool }.
Definition kSupportedProtocolVersions : list (list Z) := [bs "2024-11-05"; bs "2025-03-26"; bs "2025-06-18"; bs "2025-11-25"; bs "2026-07-28"].
Definition kDefaultProtocolVersion : list Z := bs "2025-06-18".
Definition takesAutoExecute (name : list Z) : bool := is_in [bs "fractal_sql_agent"; bs "fractal_agent_data_analyst"] name.

Definition jsonrpc : list Z * Json := (bs "jsonrpc", JStr (bs "2.0")).
Definition makeError (id : Json) (code : Z) (msg : list Z) : Json :=
  jobj [jsonrpc; (bs "id", id); (bs "error", jobj [(bs "code", JInt code); (bs "message", JStr msg)])].
Definition makeResult (id result : Json) : Json := jobj [jsonrpc; (bs "id", id); (bs "result", result)].
Definition capabilities : list Z * Json := (bs "capabilities", jobj [(bs "tools", JObj []); (bs "resources", JObj []); (bs "prompts", JObj [])]).
Definition serverInfo (cfg : ServerConfig) : list Z * Json :=
  (bs "serverInfo", jobj [(bs "name", JStr (serverName cfg)); (bs "version", JStr (serverVersion cfg))]).
Definition negotiated (params : Json) : list Z :=
  match params with
  | JObj m => match jfind (bs "protocolVersion") m with Some (JStr v) => if is_in kSupportedProtocolVersions v then v else kDefaultProtocolVersion | _ => kDefaultProtocolVersion end
  | _ => kDefaultProtocolVersion
  end.
Definition handleInitialize (cfg : ServerConfig) (params : Json) : Json :=
  jobj [(bs "protocolVersion", JStr (negotiated params)); serverInfo cfg; capabilities].
Definition handleServerDiscover (cfg : ServerConfig) : Json :=
  jobj [(bs "protocolVersions", JArr (map JStr kSupportedProtocolVersions)); serverInfo cfg; capabilities].

Definition allowed (opts : CallOptions) (name : list Z) : bool := match toolAllow opts with Some l => is_in l name | None => true end.
Fixpoint insert_tool (t : ToolSpec) (l : list ToolSpec) : list ToolSpec :=
  match l with [] => [t] | u :: r => if bytes_ltb (t_name t) (t_name u) then t :: l else u :: insert_tool t r end.
Definition sort_tools (l : list ToolSpec) : list ToolSpec := fold_left (fun acc t => insert_tool t acc) l [].
Definition tool_entry (t : ToolSpec) : Json :=
  let meta := [(bs "x-fractalsql-tier", JStr (t_category t)); (bs "x-fractalsql-class", JStr (match t_class t with Cheap => bs "cheap" | Expensive => bs "expensive" end))] ++
              match t_retryTier t with Some r => [(bs "x-fractalsql-retry-tier", JStr r)] | None => [] end in
  jobj [(bs "name", JStr (t_name t)); (bs "description", JStr (t_description t)); (bs "inputSchema", buildInputSchema t); (bs "_meta", jobj meta);
        (bs "annotations", buildAnnotations t)].
Definition listed (tools : list ToolSpec) (opts : CallOptions) : list ToolSpec := List.filter (fun t => allowed opts (t_name t)) (sort_tools tools).
Definition handleToolsList (tools : list ToolSpec) (opts : CallOptions) : Json := jobj [(bs "tools", JArr (map tool_entry (listed tools opts)))].
(** byName_: of two tools of one name the later. *)
Definition byName (tools : list ToolSpec) (name : list Z) : option ToolSpec :=
  fold_left (fun r t => if bytes_eqb name (t_name t) then Some t else r) tools None.

Definition quoted (name : list Z) : list Z := bs "'" ++ name ++ bs "'".
Fixpoint joined_names (l : list (list Z)) : list Z := match l with [] => [] | [n] => n | n :: r => n ++ bs ", " ++ joined_names r end.
(** handleToolsCall down to the point where the call counts: the tool and its
    arguments, or the refusal. *)
Definition call_checks (getenv : list Z -> option (list Z)) (cfg : ServerConfig) (tools : list ToolSpec) (opts : CallOptions) (params : Json) : terr + ToolSpec * Json :=
  let name := valueOr params (bs "name") in
  match byName tools name with
  | None => inl (schema (bs "unknown tool " ++ quoted name ++ bs " (see tools/list)"))
  | Some spec =>
      if readOnlyMode cfg && destructiveHint spec then
        inl (schema (bs "server is running in read-only mode (FSQL_MCP_READ_ONLY=true); " ++ quoted name ++ bs " is destructive and was refused before reaching the engine"))
      else if negb (allowed opts name) then
        inl (schema (bs "tool " ++ quoted name ++ bs " is not in this client's tool allowlist; the credential that made this request may only call: " ++
                     joined_names (default [] (toolAllow opts))))
      else match (match params with JObj m => default (JObj []) (jfind (bs "arguments") m) | _ => JObj [] end) with
           | JObj m =>
               let args := jerase (bs "context_id") m in
               if takesAutoExecute (t_name spec) && (match jfind (bs "auto_execute") args with Some (JBool b) => b | _ => false end) && negb (autoExecuteAllowed getenv)
               then inl (schema (bs "auto_execute is refused: this server runs with FSQL_MCP_ALLOW_AUTO_EXECUTE unset, so a generated statement is never executed without an operator turning that switch on (FSQL_MCP_ALLOW_AUTO_EXECUTE=true). Generate the SQL and run it yourself instead."))
               else inr (spec, JObj args)
           | _ => inl (schema (bs "arguments must be a JSON object"))
           end
  end.

Section Server.
Context (getenv : list Z -> option (list Z)) (cfg : ServerConfig) (tools : list ToolSpec).
(** Json::parse, dump (which throws on text that is not UTF-8), and the
    catalogs of resources.cpp and prompts.cpp: a result, a ToolError, or
    another exception. *)
Context (parse : list Z -> option Json) (dump : Json -> option (list Z)) (catalog : list Z -> Json -> Json + option terr).

Definition internal_message : list Z := bs "internal server error (server-side log carries the detail); retry later".
Definition backstop : Json := makeError JNull (-32603) (bs "internal error handling the request").
Definition rpc_error (id : Json) (e : option terr) : Json :=
  match e with
  | Some e => makeError id (match te_class e with Schema => -32602 | _ => -32000 end) (te_msg e)
  | None => makeError id (-32000) internal_message
  end.
(** A reply that cannot be printed is an exception, answered by [other]. *)
Definition printed (other reply : Json) : Json := match dump reply with Some _ => reply | None => other end.
Definition envelope (o : CallOptions) (list_result : bool) (result : Json) : Json :=
  match era o with
  | Legacy => result
  | Modern =>
      let r := jset (bs "resultType") (JStr (bs "complete")) result in
      if list_result then jset (bs "cacheScope") (JStr (bs "session")) (jset (bs "ttlMs") (JInt 0) r) else r
  end.
Definition answer (o : CallOptions) (id : Json) (list_result : bool) (r : Json + option terr) : Json :=
  match r with
  | inl result => printed (rpc_error id None) (makeResult id (envelope o list_result result))
  | inr e => printed backstop (rpc_error id e)
  end.

(** What a line comes to: a reply or none, a cancellation, or a tool call
    whose checks have passed. *)
Inductive verdict := V_reply (r : option Json) | V_cancel (rid : list Z) | V_call (id : Json) (rid : list Z) (spec : ToolSpec) (args : Json).
Definition id_or_null (m : list (list Z * Json)) : Json := default JNull (jfind (bs "id") m).
Definition list_methods : list (list Z) := [bs "resources/list"; bs "resources/read"; bs "resources/templates/list"; bs "prompts/list"].
Definition other_methods : list (list Z) := bs "prompts/get" :: list_methods.
Definition line_method (shutting : bool) (opts : CallOptions) (id params : Json) (method : list Z) : verdict :=
  if shutting then V_reply (Some (makeError id (-32000) (bs "server shutting down")))
  else if bytes_eqb method (bs "initialize") then
    if modernOnly cfg then
      V_reply (Some (makeError id (-32000) (bs "this server speaks the modern protocol era only (FSQL_MCP_PROTOCOL_ERA=modern); the initialize handshake is part of the legacy era and is refused. Supported versions: 2025-11-25, 2026-07-28")))
    else V_reply (Some (answer opts id false (inl (handleInitialize cfg params))))
  else if bytes_eqb method (bs "server/discover") then V_reply (Some (answer opts id false (inl (handleServerDiscover cfg))))
  else if bytes_eqb method (bs "ping") then V_reply (Some (answer opts id false (inl (JObj []))))
  else if bytes_eqb method (bs "tools/list") then V_reply (Some (answer opts id true (inl (handleToolsList tools opts))))
  else if bytes_eqb method (bs "tools/call") then
    match dump id with
    | None => V_reply (Some (answer opts id false (inr None)))
    | Some rid =>
        match call_checks getenv cfg tools opts params with
        | inl e => V_reply (Some (answer opts id false (inr (Some e))))
        | inr (spec, args) => V_call id rid spec args
        end
    end
  else if is_in other_methods method then V_reply (Some (answer opts id (is_in list_methods method) (catalog method params)))
  else V_reply (Some (printed (rpc_error id None) (makeError id (-32601) (bs "method not found: " ++ method)))).
Definition handleLine_start (shutting : bool) (opts : CallOptions) (line : list Z) : verdict :=
  if jsonNestsTooDeep line then V_reply (Some (makeError JNull (-32700) (bs "parse error: nesting too deep")))
  else match parse line with
  | None => V_reply (Some (makeError JNull (-32700) (bs "parse error")))
  | Some (JObj m) =>
      match jfind (bs "jsonrpc") m, jfind (bs "method") m with
      | Some _, Some (JStr method) =>
          match jfind (bs "params") m with
          | None | Some (JObj _) =>
              let params := default (JObj []) (jfind (bs "params") m) in
              if bytes_eqb method (bs "notifications/cancelled") then
                match jfind (bs "params") m with
                | Some (JObj p) =>
                    match jfind (bs "requestId") p with
                    | Some rid => match dump rid with Some t => V_cancel t | None => V_reply (Some backstop) end
                    | None => V_reply None
                    end
                | _ => V_reply None
                end
              else match jfind (bs "id") m with
                   | None => V_reply None
                   | Some id => line_method shutting opts id params method
                   end
          | Some _ => V_reply (Some (printed backstop (makeError (id_or_null m) (-32602) (bs "invalid params (must be a JSON object)"))))
          end
      | Some _, Some _ => V_reply (Some (printed backstop (makeError (id_or_null m) (-32600) (bs "invalid request (method must be a string)"))))
      | _, _ => V_reply (Some (printed backstop (makeError (id_or_null m) (-32600) (bs "invalid request"))))
      end
  | Some _ => V_reply (Some (makeError JNull (-32600) (bs "invalid request (not a JSON object)")))
  end.

(** ** A tool call *)

(** What the handler does: a result, a ToolError or another exception. *)
Inductive hres := H_ok (result : Json) | H_tool (e : terr) | H_exn.
Definition internal : terr := {| te_class := ServerInternal; te_msg := bs "internal error" |}.
Definition cancelled_error (msg : list Z) : terr := {| te_class := Cancelled; te_msg := msg |}.
(** runTool, once the arguments are valid. *)
Definition runTool (cancelled : bool) (h : hres) : terr + Json :=
  match h with
  | H_ok r => if cancelled then inl (cancelled_error (bs "call was cancelled by the client")) else inr r
  | H_tool e => inl e
  | H_exn => inl internal
  end.
Definition errorClassName (c : ErrorClass) : list Z :=
  match c with Schema => bs "schema" | Engine => bs "engine" | Connectivity => bs "connectivity" | Cancelled => bs "cancelled" | ServerInternal => bs "server" end.
Definition client_message (e : terr) : list Z :=
  match te_class e with
  | ServerInternal => bs "internal server error (server-side log carries the detail); retry later or alert the operator"
  | _ => te_msg e
  end.
Definition clientPayload (e : terr) : Json := jobj [(bs "error_class", JStr (errorClassName (te_class e))); (bs "message", JStr (client_message e))].
Definition text_content (t : list Z) : Json := JArr [jobj [(bs "type", JStr (bs "text")); (bs "text", JStr t)]].
Definition with_context (o : CallOptions) (out : Json) : Json := match contextId o with [] => out | c => jset (bs "context_id") (JStr c) out end.
(** The end of handleToolsCall. *)
Definition call_result (o : CallOptions) (cancelledAfter : bool) (r : terr + Json) : Json + option terr :=
  if cancelledAfter then inr (Some (cancelled_error (bs "call was cancelled; result discarded")))
  else match r with
  | inl e => inl (with_context o (jobj [(bs "content", text_content (client_message e)); (bs "isError", JBool true); (bs "structuredContent", clientPayload e)]))
  | inr result =>
      match dump result with
      | None => inr None
      | Some t => inl (with_context o (jobj [(bs "content", text_content t); (bs "isError", JBool false); (bs "structuredContent", result)]))
      end
  end.
Definition busy_client : terr := {| te_class := Connectivity; te_msg := bs "server busy: per-client expensive-tier concurrency limit reached" |}.
Definition busy : terr := {| te_class := Connectivity; te_msg := bs "server busy: concurrency limit reached" |}.

(** ** Threads *)

Record ConcurrencyConfig := { cheapLimit : Z; expensiveLimit : Z; expensivePerClient : Z }.
Context (conc : ConcurrencyConfig).
Definition limit (c : ToolClass) : Z := match c with Cheap => cheapLimit conc | Expensive => expensiveLimit conc end.

Record callinfo := { c_srv : nat; c_client : list Z; c_opts : CallOptions; c_id : Json; c_rid : list Z; c_spec : ToolSpec; c_args : Json }.
Definition c_key (c : callinfo) : nat * list Z := (c_srv c, c_rid c).
Definition c_class (c : callinfo) : ToolClass := t_class (c_spec c).
(** Where a call is: its checks passed; its id listed; counted as active;
    waiting for the gate of its tool's class, with a client's slot if the
    class has them; the wait given up; refused; admitted; about to run, with
    the flag its context holds; in its handler; back; and on the way out, the
    client's slot given back, then the gate's, then the count. *)
Inductive phase :=
  | P_checked | P_listed | P_counted | P_slot | P_timeout | P_refused (e : terr) | P_admitted | P_run (cancelled : bool)
  | P_in (cancelled : bool) | P_ran (r : terr + Json) | P_client (reply : Json) | P_gate (reply : Json) | P_leave (reply : Json).
Inductive thread := T_call (c : callinfo) (p : phase) | T_cancel (srv : nat) (rid : list Z) | T_kill (srv : nat) | T_done.
(** What is seen from outside: a reply, a handler begun, a statement killed. *)
Inductive event := E_reply (srv : nat) (client : list Z) (reply : Json) | E_handler (c : callinfo) | E_kill (srv : nat).

Record world := { w_gate : ToolClass -> Z; w_clients : gmap (list Z) Z; w_inflight : gset (nat * list Z); w_cancelled : gset (nat * list Z);
  w_active : nat -> Z; w_shutting : gset nat; w_threads : list thread; w_events : list event }.
Definition world0 : world :=
  {| w_gate := fun _ => 0; w_clients := ∅; w_inflight := ∅; w_cancelled := ∅; w_active := fun _ => 0; w_shutting := ∅; w_threads := []; w_events := [] |}.
Definition with_threads (ts : list thread) (w : world) : world :=
  {| w_gate := w_gate w; w_clients := w_clients w; w_inflight := w_inflight w; w_cancelled := w_cancelled w; w_active := w_active w;
     w_shutting := w_shutting w; w_threads := ts; w_events := w_events w |}.
Definition with_gate (c : ToolClass) (n : Z) (w : world) : world :=
  {| w_gate := fun c' => match c, c' with Cheap, Cheap | Expensive, Expensive => n | _, _ => w_gate w c' end; w_clients := w_clients w;
     w_inflight := w_inflight w; w_cancelled := w_cancelled w; w_active := w_active w; w_shutting := w_shutting w; w_threads := w_threads w; w_events := w_events w |}.
Definition with_clients (m : gmap (list Z) Z) (w : world) : world :=
  {| w_gate := w_gate w; w_clients := m; w_inflight := w_inflight w; w_cancelled := w_cancelled w; w_active := w_active w;
     w_shutting := w_shutting w; w_threads := w_threads w; w_events := w_events w |}.
Definition with_ids (inflight cancelled : gset (nat * list Z)) (w : world) : world :=
  {| w_gate := w_gate w; w_clients := w_clients w; w_inflight := inflight; w_cancelled := cancelled; w_active := w_active w;
     w_shutting := w_shutting w; w_threads := w_threads w; w_events := w_events w |}.
Definition with_active (s : nat) (n : Z) (w : world) : world :=
  {| w_gate := w_gate w; w_clients := w_clients w; w_inflight := w_inflight w; w_cancelled := w_cancelled w;
     w_active := fun s' => if Nat.eqb s s' then n else w_active w s'; w_shutting := w_shutting w; w_threads := w_threads w; w_events := w_events w |}.
Definition with_shutting (m : gset nat) (w : world) : world :=
  {| w_gate := w_gate w; w_clients := w_clients w; w_inflight := w_inflight w; w_cancelled := w_cancelled w; w_active := w_active w;
     w_shutting := m; w_threads := w_threads w; w_events := w_events w |}.
Definition emit (e : event) (w : world) : world :=
  {| w_gate := w_gate w; w_clients := w_clients w; w_inflight := w_inflight w; w_cancelled := w_cancelled w; w_active := w_active w;
     w_shutting := w_shutting w; w_threads := w_threads w; w_events := w_events w ++ [e] |}.

(** ConcurrencyManager. *)
Definition acquireClientSlot (key : list Z) (w : world) : option world :=
  let n := default 0 (w_clients w !! key) in
  if expensivePerClient conc <=? n then None else Some (with_clients (<[key := n + 1]> (w_clients w)) w).
Definition releaseClient (key : list Z) (w : world) : world :=
  match w_clients w !! key with
  | None => w
  | Some n => let n := if 0 <? n then n - 1 else n in with_clients (if n <=? 0 then delete key (w_clients w) else <[key := n]> (w_clients w)) w
  end.
Definition release (c : ToolClass) (w : world) : world := if 0 <? w_gate w c then with_gate c (w_gate w c - 1) w else w.

(** One step of the call of thread [i]: where it is next, and the world. *)
Inductive call_step (w : world) (c : callinfo) : phase -> world -> thread -> Prop :=
  | CS_list : call_step w c P_checked (with_ids ({[c_key c]} ∪ w_inflight w) (w_cancelled w) w) (T_call c P_listed)
  | CS_count : call_step w c P_listed (with_active (c_srv c) (w_active w (c_srv c) + 1) w) (T_call c P_counted)
  | CS_cheap : c_class c = Cheap -> call_step w c P_counted w (T_call c P_slot)
  | CS_slot w' : c_class c = Expensive -> acquireClientSlot (c_client c) w = Some w' -> call_step w c P_counted w' (T_call c P_slot)
  | CS_no_slot : c_class c = Expensive -> acquireClientSlot (c_client c) w = None -> call_step w c P_counted w (T_call c (P_refused busy_client))
  | CS_acquire : w_gate w (c_class c) < limit (c_class c) -> call_step w c P_slot (with_gate (c_class c) (w_gate w (c_class c) + 1) w) (T_call c P_admitted)
  | CS_timeout : limit (c_class c) <= w_gate w (c_class c) -> call_step w c P_slot w (T_call c P_timeout)
  | CS_give_up : call_step w c P_timeout (match c_class c with Expensive => releaseClient (c_client c) w | Cheap => w end) (T_call c (P_refused busy))
  | CS_refused e : call_step w c (P_refused e) (with_ids (w_inflight w ∖ {[c_key c]}) (w_cancelled w) w)
                     (T_call c (P_leave (answer (c_opts c) (c_id c) false (inr (Some e)))))
  | CS_flag : call_step w c P_admitted w (T_call c (P_run (bool_decide (c_key c ∈ w_cancelled w))))
  | CS_invalid b e : validateArgs (c_spec c) (c_args c) = Some e -> call_step w c (P_run b) w (T_call c (P_ran (inl e)))
  | CS_handler b : validateArgs (c_spec c) (c_args c) = None -> call_step w c (P_run b) (emit (E_handler c) w) (T_call c (P_in b))
  | CS_return b h : call_step w c (P_in b) w (T_call c (P_ran (runTool b h)))
  | CS_after r : call_step w c (P_ran r) (with_ids (w_inflight w ∖ {[c_key c]}) (w_cancelled w ∖ {[c_key c]}) w)
                   (T_call c (P_client (answer (c_opts c) (c_id c) false (call_result (c_opts c) (bool_decide (c_key c ∈ w_cancelled w)) r))))
  | CS_client reply : call_step w c (P_client reply) (match c_class c with Expensive => releaseClient (c_client c) w | Cheap => w end) (T_call c (P_gate reply))
  | CS_gate reply : call_step w c (P_gate reply) (release (c_class c) w) (T_call c (P_leave reply))
  | CS_leave reply : call_step w c (P_leave reply) (emit (E_reply (c_srv c) (c_client c) reply) (with_active (c_srv c) (w_active w (c_srv c) - 1) w)) T_done.
Definition line_thread (srv : nat) (client : list Z) (opts : CallOptions) (v : verdict) : option thread :=
  match v with
  | V_reply _ => None
  | V_cancel rid => Some (T_cancel srv rid)
  | V_call id rid spec args =>
      Some (T_call {| c_srv := srv; c_client := client; c_opts := opts; c_id := id; c_rid := rid; c_spec := spec; c_args := args |} P_checked)
  end.
Definition line_events (srv : nat) (client : list Z) (v : verdict) : list event :=
  match v with V_reply (Some r) => [E_reply srv client r] | _ => [] end.
(** A thread's step: a call's, or the two of a cancellation. *)
Inductive thread_step : world -> world -> Prop :=
  | S_call w i c p w' t : w_threads w !! i = Some (T_call c p) -> call_step w c p w' t -> thread_step w (with_threads (<[i := t]> (w_threads w)) w')
  | S_cancel w i srv rid : w_threads w !! i = Some (T_cancel srv rid) ->
      thread_step w (with_threads (<[i := if bool_decide ((srv, rid) ∈ w_inflight w) then T_kill srv else T_done]> (w_threads w))
                       (with_ids (w_inflight w) ({[(srv, rid)]} ∪ w_cancelled w) w))
  | S_kill w i srv : w_threads w !! i = Some (T_kill srv) -> thread_step w (with_threads (<[i := T_done]> (w_threads w)) (emit (E_kill srv) w)).
(** A line of a client, a thread's step, or the order to shut down. *)
Inductive step : world -> world -> Prop :=
  | S_line w srv client opts line :
      let v := handleLine_start (bool_decide (srv ∈ w_shutting w)) opts line in
      step w (with_threads (w_threads w ++ option_list (line_thread srv client opts v)) (fold_left (fun w e => emit e w) (line_events srv client v) w))
  | S_thread w w' : thread_step w w' -> step w w'
  | S_shutdown w srv : step w (with_shutting ({[srv]} ∪ w_shutting w) w).
End Server.
