(* ===== verification/McpServerProofs.v ===== *)
(** * The MCP server's dispatch core: proofs

    The concurrency caps, what reaches a tool's handler, that every call is
    answered, what a cancellation does, and where it does something else. *)

From stdpp Require Import gmap relations.
From S2P Require Import Prelude McpConf McpServer.

Section Proofs.
Context (getenv : list Z -> option (list Z)) (cfg : ServerConfig) (tools : list ToolSpec).
Context (parse : list Z -> option Json) (dump : Json -> option (list Z)) (catalog : list Z -> Json -> Json + option terr) (conc : ConcurrencyConfig).
Notation step := (step getenv cfg tools parse dump catalog conc).
Notation call_step := (call_step dump conc).
Notation thread_step := (thread_step dump conc).

(** ** What the threads hold *)

Fixpoint sum (f : thread -> Z) (ts : list thread) : Z := match ts with [] => 0 | t :: ts => f t + sum f ts end.
Lemma sum_app f a b : sum f (a ++ b) = sum f a + sum f b.
Proof. induction a as [|t a IH]; cbn [app sum]; lia. Qed.
Lemma sum_insert f ts : forall i t t', ts !! i = Some t -> sum f (<[i := t']> ts) = sum f ts - f t + f t'.
Proof.
  induction ts as [|u ts IH]; intros [|i] t t' H; [done|done| |]; [cbn in *; simplify_eq; lia|].
  change (f u + sum f (<[i := t']> ts) = f u + sum f ts - f t + f t'). rewrite (IH i t t') by exact H. lia.
Qed.
Lemma sum_nonneg f ts : (forall t, 0 <= f t) -> 0 <= sum f ts.
Proof. intros H. induction ts as [|t ts IH]; cbn; [lia|]. specialize (H t). lia. Qed.
Lemma sum_in f ts : (forall t, 0 <= f t) -> forall i t, ts !! i = Some t -> f t <= sum f ts.
Proof.
  intros H. induction ts as [|u ts IH]; intros [|i] t Hi; [done|done| |]; cbn in *; simplify_eq.
  - pose proof (sum_nonneg f ts H). lia.
  - specialize (IH i t Hi). specialize (H u). lia.
Qed.
Lemma sum_done f ts : f T_done = 0 -> Forall (eq T_done) ts -> sum f ts = 0.
Proof. intros H. induction 1 as [|t ts <- _ IH]; [done|]. cbn. lia. Qed.

Definition b2z (b : bool) : Z := if b then 1 else 0.
Definition same_class (a b : ToolClass) : bool := match a, b with Cheap, Cheap | Expensive, Expensive => true | _, _ => false end.
(** The phases with a place at the gate, with a client's slot, counted as
    active, and with an id listed. *)
Definition at_gate (p : phase) : bool := match p with P_admitted | P_run _ | P_in _ | P_ran _ | P_client _ | P_gate _ => true | _ => false end.
Definition at_slot (p : phase) : bool := match p with P_slot | P_timeout | P_admitted | P_run _ | P_in _ | P_ran _ | P_client _ => true | _ => false end.
Definition at_count (p : phase) : bool := match p with P_checked | P_listed => false | _ => true end.
Definition at_list (p : phase) : bool :=
  match p with P_listed | P_counted | P_slot | P_timeout | P_refused _ | P_admitted | P_run _ | P_in _ | P_ran _ => true | _ => false end.
Definition holds_gate (cl : ToolClass) (t : thread) : Z := match t with T_call c p => b2z (at_gate p && same_class cl (c_class c)) | _ => 0 end.
Definition holds_slot (k : list Z) (t : thread) : Z :=
  match t with T_call c p => b2z (at_slot p && same_class Expensive (c_class c) && bool_decide (c_client c = k)) | _ => 0 end.
Definition is_active (s : nat) (t : thread) : Z := match t with T_call c p => b2z (at_count p && Nat.eqb (c_srv c) s) | _ => 0 end.
Definition lists (x : nat * list Z) (t : thread) : Prop := match t with T_call c p => at_list p = true /\ c_key c = x | _ => False end.

Lemma b2z_nonneg b : 0 <= b2z b.
Proof. by destruct b. Qed.
Lemma holds_gate_nonneg cl t : 0 <= holds_gate cl t.
Proof. destruct t; cbn; auto using b2z_nonneg with lia. Qed.
Lemma holds_slot_nonneg k t : 0 <= holds_slot k t.
Proof. destruct t; cbn; auto using b2z_nonneg with lia. Qed.

Record inv (w : world) : Prop := {
  i_gate : forall cl, w_gate w cl = sum (holds_gate cl) (w_threads w) /\ w_gate w cl <= Z.max 0 (limit conc cl);
  i_slot : forall k, default 0 (w_clients w !! k) = sum (holds_slot k) (w_threads w) /\ default 0 (w_clients w !! k) <= Z.max 0 (expensivePerClient conc);
  i_used : forall k n, w_clients w !! k = Some n -> 0 < n;
  i_active : forall s, w_active w s = sum (is_active s) (w_threads w);
  i_listed : forall x, x ∈ w_inflight w -> exists i t, w_threads w !! i = Some t /\ lists x t }.

Lemma with_gate_same cl n w : w_gate (with_gate cl n w) cl = n.
Proof. by destruct cl. Qed.
Lemma with_gate_other cl cl' n w : same_class cl' cl = false -> w_gate (with_gate cl n w) cl' = w_gate w cl'.
Proof. by destruct cl, cl'. Qed.
Lemma same_class_true a b : same_class a b = true -> a = b.
Proof. by destruct a, b. Qed.
Lemma same_class_refl a : same_class a a = true.
Proof. by destruct a. Qed.
Ltac steps H := destruct H as [| | Hc | w1 Hc Ha | Hc Ha | Hlt | Hle | | e | | b e Hv | b Hv | b h | r | reply | reply | reply ].
Ltac flags := cbn [w_gate w_clients w_active with_ids with_active emit holds_gate holds_slot is_active at_gate at_slot at_count at_list andb b2z same_class] in *.
Lemma releaseClient_other key w : w_gate (releaseClient key w) = w_gate w /\ w_active (releaseClient key w) = w_active w /\
  w_inflight (releaseClient key w) = w_inflight w /\ w_cancelled (releaseClient key w) = w_cancelled w /\
  w_threads (releaseClient key w) = w_threads w /\ w_events (releaseClient key w) = w_events w /\ w_shutting (releaseClient key w) = w_shutting w.
Proof. unfold releaseClient. by destruct (w_clients w !! key). Qed.
Lemma acquireClientSlot_other key w w' : acquireClientSlot conc key w = Some w' -> w_gate w' = w_gate w /\ w_active w' = w_active w /\
  w_inflight w' = w_inflight w /\ w_cancelled w' = w_cancelled w /\ w_threads w' = w_threads w /\ w_events w' = w_events w /\ w_shutting w' = w_shutting w.
Proof. unfold acquireClientSlot. destruct (_ <=? _); [done|]. by intros [= <-]. Qed.
Lemma release_other cl w : w_clients (release cl w) = w_clients w /\ w_active (release cl w) = w_active w /\
  w_inflight (release cl w) = w_inflight w /\ w_cancelled (release cl w) = w_cancelled w /\ w_threads (release cl w) = w_threads w /\ w_events (release cl w) = w_events w.
Proof. unfold release. by destruct (0 <? w_gate w cl). Qed.

(** A step changes each count by what its thread took or gave back. *)
Lemma call_step_threads w c p w' t : call_step w c p w' t -> w_threads w' = w_threads w.
Proof.
  destruct 1; try done.
  - by apply (acquireClientSlot_other (c_client c)).
  - destruct (c_class c); [done|apply releaseClient_other].
  - destruct (c_class c); [done|apply releaseClient_other].
  - apply release_other.
Qed.
Lemma call_step_gate w c p w' t cl : call_step w c p w' t -> holds_gate cl (T_call c p) <= w_gate w cl -> w_gate w cl <= Z.max 0 (limit conc cl) ->
  w_gate w' cl = w_gate w cl - holds_gate cl (T_call c p) + holds_gate cl t /\ w_gate w' cl <= Z.max 0 (limit conc cl).
Proof.
  intros Hst Hh Hb. steps Hst; flags; try lia.
  - destruct (acquireClientSlot_other _ _ _ Ha) as [-> _]. lia.
  - destruct (same_class cl (c_class c)) eqn:E; cbn [b2z]; [apply same_class_true in E as ->; rewrite with_gate_same; lia|rewrite with_gate_other by done; lia].
  - destruct (c_class c); [lia|]. rewrite (proj1 (releaseClient_other _ _)). lia.
  - destruct (c_class c); [lia|]. rewrite (proj1 (releaseClient_other _ _)). lia.
  - unfold release. destruct (same_class cl (c_class c)) eqn:E; cbn [b2z] in *.
    + apply same_class_true in E as ->. rewrite (proj2 (Z.ltb_lt 0 _)) by lia. rewrite with_gate_same. lia.
    + destruct (0 <? _); [rewrite with_gate_other by done|]; lia.
Qed.
Lemma call_step_active w c p w' t s : call_step w c p w' t -> w_active w' s = w_active w s - is_active s (T_call c p) + is_active s t.
Proof.
  intros Hst. steps Hst; flags; try lia.
  - cbn. destruct (Nat.eqb (c_srv c) s) eqn:E; cbn [b2z]; [apply Nat.eqb_eq in E as <-|]; lia.
  - destruct (acquireClientSlot_other _ _ _ Ha) as (_ & -> & _). lia.
  - cbn [w_active with_gate]. lia.
  - destruct (c_class c); [lia|]. rewrite (proj1 (proj2 (releaseClient_other _ _))). lia.
  - destruct (c_class c); [lia|]. rewrite (proj1 (proj2 (releaseClient_other _ _))). lia.
  - rewrite (proj1 (proj2 (release_other _ _))). lia.
  - cbn. destruct (Nat.eqb (c_srv c) s) eqn:E; cbn [b2z]; [apply Nat.eqb_eq in E as <-|]; lia.
Qed.
Lemma clients_take key w w' k : acquireClientSlot conc key w = Some w' -> (forall k n, w_clients w !! k = Some n -> 0 < n) ->
  default 0 (w_clients w' !! k) = default 0 (w_clients w !! k) + b2z (bool_decide (key = k)) /\
  (default 0 (w_clients w !! k) <= Z.max 0 (expensivePerClient conc) -> default 0 (w_clients w' !! k) <= Z.max 0 (expensivePerClient conc)) /\
  (forall n, w_clients w' !! k = Some n -> 0 < n).
Proof.
  unfold acquireClientSlot. destruct (_ <=? _) eqn:E; [done|]. intros [= <-] Hp. cbn [w_clients with_clients]. case_bool_decide as Hk.
  - subst k. rewrite lookup_insert_eq. cbn [from_option id b2z]. split_and!; [done|lia|]. intros n [= <-]. destruct (w_clients w !! key) eqn:Ek; cbn; [apply Hp in Ek|]; lia.
  - rewrite lookup_insert_ne by done. cbn [b2z]. split_and!; [lia|done|]. intros n. apply Hp.
Qed.
Lemma clients_give key w k : 0 < default 0 (w_clients w !! key) -> (forall k n, w_clients w !! k = Some n -> 0 < n) ->
  default 0 (w_clients (releaseClient key w) !! k) = default 0 (w_clients w !! k) - b2z (bool_decide (key = k)) /\
  (forall n, w_clients (releaseClient key w) !! k = Some n -> 0 < n).
Proof.
  intros H Hp. unfold releaseClient. destruct (w_clients w !! key) as [n|] eqn:E; [|cbn in H; lia]. cbn [from_option id] in H. rewrite (proj2 (Z.ltb_lt 0 n)) by done.
  cbn [w_clients with_clients]. case_bool_decide as Hk.
  - subst k. rewrite E. cbn [from_option id b2z]. destruct (n - 1 <=? 0) eqn:En.
    + rewrite lookup_delete_eq. cbn. split; [lia|done].
    + rewrite lookup_insert_eq. cbn. split; [lia|]. intros ? [= <-]. lia.
  - cbn [b2z]. destruct (n - 1 <=? 0); [rewrite lookup_delete_ne by done|rewrite lookup_insert_ne by done]; (split; [lia|intros m; apply Hp]).
Qed.
Lemma call_step_slot w c p w' t k : call_step w c p w' t -> (forall k, holds_slot k (T_call c p) <= default 0 (w_clients w !! k)) ->
  (forall k n, w_clients w !! k = Some n -> 0 < n) -> default 0 (w_clients w !! k) <= Z.max 0 (expensivePerClient conc) ->
  default 0 (w_clients w' !! k) = default 0 (w_clients w !! k) - holds_slot k (T_call c p) + holds_slot k t /\
  default 0 (w_clients w' !! k) <= Z.max 0 (expensivePerClient conc) /\ (forall n, w_clients w' !! k = Some n -> 0 < n).
Proof.
  intros H Hh Hp Hb. assert (Hgive : forall p', at_slot p' = true -> p = p' -> at_slot (match t with T_call _ q => q | _ => P_checked end) = false ->
    w' = (match c_class c with Expensive => releaseClient (c_client c) w | Cheap => w end) ->
    default 0 (w_clients w' !! k) = default 0 (w_clients w !! k) - holds_slot k (T_call c p) /\
    default 0 (w_clients w' !! k) <= Z.max 0 (expensivePerClient conc) /\ (forall n, w_clients w' !! k = Some n -> 0 < n)).
  { intros p' Hs -> _ ->. cbn [holds_slot]. rewrite Hs. cbn [andb]. destruct (c_class c) eqn:Ec; cbn [same_class andb b2z]; [split_and!; [lia|done|apply Hp]|].
    assert (Hc : 0 < default 0 (w_clients w !! c_client c)). { specialize (Hh (c_client c)). cbn [holds_slot] in Hh. rewrite Hs, Ec, bool_decide_true in Hh by done. cbn in Hh. lia. }
    destruct (clients_give (c_client c) w k Hc Hp) as [-> Hn]. pose proof (b2z_nonneg (bool_decide (c_client c = k))). split_and!; [done|lia|done]. }
  steps H; flags; try (rewrite ?Z.sub_0_r, ?Z.add_0_r; split_and!; [lia|done|apply Hp]).
  - rewrite Hc. cbn [same_class andb b2z]. split_and!; [lia|done|apply Hp].
  - destruct (clients_take _ _ _ k Ha Hp) as (-> & Hb' & Hn). rewrite Hc. cbn [same_class andb]. split_and!; [lia|by apply Hb'|done].
  - cbn [w_clients with_gate]. split_and!; [lia|done|apply Hp].
  - rewrite Z.add_0_r. by apply (Hgive P_timeout).
  - rewrite Z.add_0_r. by apply (Hgive (P_client reply)).
  - rewrite (proj1 (release_other _ _)). split_and!; [lia|done|apply Hp].
Qed.

Lemma call_step_inflight w c p w' t x : call_step w c p w' t -> x ∈ w_inflight w' ->
  (lists x t \/ (x ∈ w_inflight w /\ (at_list p = true -> c_key c = x -> lists x t))).
Proof.
  intros Hst. steps Hst; cbn [w_inflight with_ids with_active emit with_gate] in *; intros Hx; try (right; split; [done|intros; by split]).
  - apply elem_of_union in Hx as [->%elem_of_singleton|Hx]; [by left|right; split; [done|by intros]].
  - destruct (acquireClientSlot_other _ _ _ Ha) as (_ & _ & E & _). rewrite E in Hx. right. split; [done|intros; by split].
  - destruct (c_class c); [|rewrite (proj1 (proj2 (proj2 (releaseClient_other _ _)))) in Hx]; right; (split; [done|intros; by split]).
  - apply elem_of_difference in Hx as [Hx Hn]. right. split; [done|]. intros _ <-. exfalso. apply Hn. by apply elem_of_singleton.
  - apply elem_of_difference in Hx as [Hx Hn]. right. split; [done|]. intros _ <-. exfalso. apply Hn. by apply elem_of_singleton.
  - right. destruct (c_class c); [|rewrite (proj1 (proj2 (proj2 (releaseClient_other _ _)))) in Hx]; (split; [done|by intros]).
  - right. rewrite (proj1 (proj2 (proj2 (release_other _ _)))) in Hx. by split.
  - right. by split.
Qed.
Lemma limits_inv0 : inv world0.
Proof.
  split; [intros cl; cbn; lia|intros k; cbn; rewrite lookup_empty; cbn; lia|intros k n; cbn; by rewrite lookup_empty|done|].
  intros x Hx. by apply elem_of_empty in Hx.
Qed.
Lemma lists_kept (ts : list thread) (i : nat) t0 t x (j : nat) u : ts !! i = Some t0 -> ts !! j = Some u -> lists x u -> (lists x t0 -> lists x t) -> exists j u, <[i := t]> ts !! j = Some u /\ lists x u.
Proof.
  intros Hi Hj Hu Ht. destruct (decide (j = i)) as [->|Hne].
  - exists i, t. rewrite list_lookup_insert_eq by by eapply lookup_lt_Some. split; [done|]. apply Ht. by simplify_eq.
  - exists j, u. by rewrite list_lookup_insert_ne.
Qed.
Lemma emit_all es : forall w, fold_left (fun w e => emit e w) es w =
  {| w_gate := w_gate w; w_clients := w_clients w; w_inflight := w_inflight w; w_cancelled := w_cancelled w; w_active := w_active w;
     w_shutting := w_shutting w; w_threads := w_threads w; w_events := w_events w ++ es |}.
Proof. induction es as [|e es IH]; intros w; cbn [fold_left]; [by destruct w; rewrite app_nil_r|]. rewrite IH. cbn. by rewrite <- app_assoc. Qed.
(** A thread that holds nothing comes or goes. *)
Definition idle (t : thread) : Prop := match t with T_call _ p => p = P_checked | _ => True end.
Lemma idle_holds t : idle t -> (forall cl, holds_gate cl t = 0) /\ (forall k, holds_slot k t = 0) /\ (forall s, is_active s t = 0) /\ (forall x, ~ lists x t).
Proof. destruct t as [c p| | |]; cbn; [intros ->|intros _..]; (split_and!; try done; try (by intros ? [? ?]); by intros ? ?). Qed.
Lemma line_thread_idle srv client opts v : Forall idle (option_list (line_thread srv client opts v)).
Proof. destruct v; cbn; by repeat constructor. Qed.
Lemma sum_zero f ts : Forall (fun t => f t = 0) ts -> sum f ts = 0.
Proof. induction 1 as [|t ts H _ IH]; cbn; lia. Qed.
(** The same fields but the threads' and the events. *)
Lemma inv_threads w ts : inv w -> (forall cl, sum (holds_gate cl) ts = sum (holds_gate cl) (w_threads w)) -> (forall k, sum (holds_slot k) ts = sum (holds_slot k) (w_threads w)) ->
  (forall s, sum (is_active s) ts = sum (is_active s) (w_threads w)) -> (forall x i t, w_threads w !! i = Some t -> lists x t -> exists i t, ts !! i = Some t /\ lists x t) ->
  inv (with_threads ts w).
Proof.
  intros [Hg Hs Hu Ha Hl] Eg Es Ea El. split; cbn [with_threads w_gate w_clients w_active w_inflight w_threads].
  - intros cl. rewrite Eg. apply Hg.
  - intros k. rewrite Es. apply Hs.
  - done.
  - intros s. rewrite Ea. apply Ha.
  - intros x Hx. destruct (Hl x Hx) as (i & t & Hi & Ht). by eapply El.
Qed.
Lemma inv_idle_insert w i t0 t : inv w -> w_threads w !! i = Some t0 -> idle t0 -> idle t -> inv (with_threads (<[i := t]> (w_threads w)) w).
Proof.
  intros Hi H0 I0 I. destruct (idle_holds _ I0) as (G0 & S0 & A0 & L0), (idle_holds _ I) as (G & S & A & L). apply inv_threads; [done|..].
  - intros cl. rewrite (sum_insert _ _ _ _ _ H0), G0, G. lia.
  - intros k. rewrite (sum_insert _ _ _ _ _ H0), S0, S. lia.
  - intros s. rewrite (sum_insert _ _ _ _ _ H0), A0, A. lia.
  - intros x j u Hj Hu. eapply lists_kept; [done..|]. by intros ?%L0.
Qed.
Lemma inv_same w w' : inv w -> w_gate w' = w_gate w -> w_clients w' = w_clients w -> w_active w' = w_active w -> w_inflight w' = w_inflight w -> w_threads w' = w_threads w -> inv w'.
Proof. intros [Hg Hs Hu Ha Hl] E1 E2 E3 E4 E5. split; rewrite ?E1, ?E2, ?E3, ?E4, ?E5; done. Qed.
Lemma limits_step_inv w w' : inv w -> step w w' -> inv w'.
Proof.
  intros Hi Hst. destruct Hst as [w srv client opts line v|w w' [w1 i c p w2 t Ht Hst|w1 i srv rid Ht|w1 i srv Ht]|w srv].
  - assert (inv (fold_left (fun w e => emit e w) (line_events srv client v) w)) as Hi' by (rewrite emit_all; by eapply inv_same).
    pose proof (line_thread_idle srv client opts v) as Hid.
    assert (Et : w_threads (fold_left (fun w e => emit e w) (line_events srv client v) w) = w_threads w) by by rewrite emit_all.
    apply inv_threads; [done|..]; rewrite Et.
    + intros cl. rewrite sum_app, (sum_zero _ (option_list _)); [lia|]. eapply Forall_impl; [exact Hid|]. intros t H. by apply idle_holds.
    + intros k. rewrite sum_app, (sum_zero _ (option_list _)); [lia|]. eapply Forall_impl; [exact Hid|]. intros t H. by apply idle_holds.
    + intros s. rewrite sum_app, (sum_zero _ (option_list _)); [lia|]. eapply Forall_impl; [exact Hid|]. intros t H. by apply idle_holds.
    + intros x i t Hx Hl. exists i, t. split; [|done]. by apply lookup_app_l_Some.
  - destruct Hi as [Hg Hs Hu Ha Hl]. pose proof (call_step_threads _ _ _ _ _ Hst) as Et.
    split; cbn [with_threads w_gate w_clients w_active w_inflight w_threads]; rewrite ?Et.
    + intros cl. destruct (Hg cl) as [Eg Hb]. rewrite (sum_insert _ _ _ _ _ Ht), <- Eg. apply call_step_gate; [done| |done].
      rewrite Eg. eapply sum_in; [apply holds_gate_nonneg|done].
    + intros k. destruct (Hs k) as [Es Hb]. rewrite (sum_insert _ _ _ _ _ Ht), <- Es. destruct (call_step_slot _ _ _ _ _ k Hst) as (-> & Hb' & _); try done.
      intros k'. rewrite (proj1 (Hs k')). eapply sum_in; [apply holds_slot_nonneg|done].
    + intros k n Hk. destruct (Hs k) as [Es Hb]. destruct (call_step_slot _ _ _ _ _ k Hst) as (_ & _ & Hn); try done; [|by apply Hn].
      intros k'. rewrite (proj1 (Hs k')). eapply sum_in; [apply holds_slot_nonneg|done].
    + intros s. rewrite (sum_insert _ _ _ _ _ Ht), <- Ha. by apply call_step_active.
    + intros x Hx. destruct (call_step_inflight _ _ _ _ _ _ Hst Hx) as [Hn|[Hin Hk]].
      * exists i, t. rewrite list_lookup_insert_eq by by eapply lookup_lt_Some. done.
      * destruct (Hl x Hin) as (j & u & Hj & Hux). eapply lists_kept; [done..|]. intros [H1 H2]. by apply Hk.
  - eapply (inv_same (with_threads (<[i := if bool_decide ((srv, rid) ∈ w_inflight w1) then T_kill srv else T_done]> (w_threads w1)) w1)); try done.
    eapply inv_idle_insert; [done|done|done|by destruct (bool_decide _)].
  - eapply (inv_same (with_threads (<[i := T_done]> (w_threads w1)) w1)); try done. by eapply inv_idle_insert.
  - by eapply inv_same.
Qed.
Lemma reachable_caps w : rtc step world0 w -> inv w.
Proof.
  intros H. remember world0 as w0 eqn:E. assert (Hi : inv w0) by (rewrite E; apply limits_inv0). clear E. induction H as [|w0 w1 w2 H _ IH]; [done|].
  apply IH. by eapply limits_step_inv.
Qed.

(** When every thread has ended nothing is left. *)
Lemma drained w : inv w -> Forall (eq T_done) (w_threads w) -> w_clients w = ∅ /\ w_inflight w = ∅ /\ forall cl s, w_gate w cl = 0 /\ w_active w s = 0.
Proof.
  intros [Hg Hs Hu Ha Hl] Hd. split_and!.
  - apply map_eq. intros k. rewrite lookup_empty. destruct (w_clients w !! k) as [n|] eqn:E; [|done]. destruct (Hs k) as [Es _]. rewrite E, sum_done in Es by done.
    apply Hu in E. cbn in Es. lia.
  - apply set_eq. intros x. split; [|by intros ?%elem_of_empty]. intros Hx. destruct (Hl x Hx) as (i & t & Hi & Ht).
    rewrite Forall_lookup in Hd. specialize (Hd i t Hi). by subst t.
  - intros cl s. rewrite Ha. destruct (Hg cl) as [-> _]. by rewrite !sum_done.
Qed.
(** In every interleaving of lines, calls, cancellations and the shutdown
    the counts of the caps are the calls that hold a place, at most the limit
    of each class and of each client; no client keeps an entry without a call;
    the ids listed as in flight and the active counts are those of calls not
    yet over; and when every thread has ended nothing is left. *)
Theorem calls_bounded w : rtc step world0 w ->
  (forall cl, w_gate w cl = sum (holds_gate cl) (w_threads w) /\ w_gate w cl <= Z.max 0 (limit conc cl)) /\
  (forall k, sum (holds_slot k) (w_threads w) <= Z.max 0 (expensivePerClient conc)) /\
  (forall k n, w_clients w !! k = Some n -> 0 < n /\ n = sum (holds_slot k) (w_threads w)) /\
  (forall x, x ∈ w_inflight w -> exists i t, w_threads w !! i = Some t /\ lists x t) /\
  (Forall (eq T_done) (w_threads w) -> w_clients w = ∅ /\ w_inflight w = ∅ /\ forall cl s, w_gate w cl = 0 /\ w_active w s = 0).
Proof.
  intros Hi%reachable_caps. pose proof (drained w Hi) as Hd. destruct Hi as [Hg Hs Hu Ha Hl]. split_and!.
  - done.
  - intros k. destruct (Hs k) as [<- ?]. done.
  - intros k n Hk. split; [by eapply Hu|]. destruct (Hs k) as [E _]. by rewrite Hk in E.
  - done.
  - exact Hd.
Qed.

(** ** Every call ends and is answered *)

#[local] Instance done_dec t : Decision (eq T_done t).
Proof. destruct t; [right|right|right|left]; done. Defined.
Definition phase_rank (p : phase) : nat :=
  match p with
  | P_checked => 12 | P_listed => 11 | P_counted => 10 | P_slot => 9 | P_timeout => 8 | P_refused _ => 7 | P_admitted => 7 | P_run _ => 6 | P_in _ => 5
  | P_ran _ => 4 | P_client _ => 3 | P_gate _ => 2 | P_leave _ => 1
  end.
Definition rank (t : thread) : Z := match t with T_call _ p => Z.of_nat (phase_rank p) | T_cancel _ _ => 2 | T_kill _ => 1 | T_done => 0 end.
(** The call a thread has not answered yet, and a reply to it: to the client
    and under the id of its request. *)
Definition open_call (t : thread) : option callinfo := match t with T_call c _ => Some c | _ => None end.
Definition answered_with (c : callinfo) (r : Json) : Prop := exists x, r = answer dump (c_opts c) (c_id c) false x.
Definition answered_to (c : callinfo) (e : event) : Prop := exists r, answered_with c r /\ e = E_reply (c_srv c) (c_client c) r.
Definition is_reply (e : event) : bool := match e with E_reply _ _ _ => true | _ => false end.
(** A reply on its way out is its call's. *)
Definition addressed (t : thread) : Prop := match t with T_call c (P_client r | P_gate r | P_leave r) => answered_with c r | _ => True end.
Lemma call_step_rank w c p w' t : call_step w c p w' t -> rank t < rank (T_call c p).
Proof. destruct 1; cbn; lia. Qed.
Lemma thread_step_rank w w' : thread_step w w' -> sum rank (w_threads w') < sum rank (w_threads w).
Proof.
  intros Hst. destruct Hst as [w i c p w' t Ht Hst|w i srv rid Ht|w i srv Ht]; cbn [w_threads with_threads]; rewrite !(sum_insert _ _ _ _ _ Ht).
  - apply call_step_rank in Hst. lia.
  - destruct (bool_decide _); cbn; lia.
  - cbn. lia.
Qed.
(** A step answers its thread's call, or answers nothing and leaves it open. *)
Lemma call_step_answers w c p w' t : call_step w c p w' t -> addressed (T_call c p) -> addressed t /\
  ((open_call t = Some c /\ exists new, w_events w' = w_events w ++ new /\ List.filter is_reply new = []) \/
   (t = T_done /\ exists e, w_events w' = w_events w ++ [e] /\ answered_to c e)).
Proof.
  intros Hst Had. steps Hst; cbn [addressed] in *;
    try (split; [done|left; split; [done|]; exists []; rewrite app_nil_r; split; [reflexivity|done]]; fail).
  - destruct (acquireClientSlot_other _ _ _ Ha) as (_ & _ & _ & _ & _ & E & _). split; [done|left; split; [done|]; exists []; by rewrite app_nil_r].
  - split; [done|left; split; [done|]]. exists []. rewrite app_nil_r. split; [|done]. destruct (c_class c); [done|]. apply releaseClient_other.
  - split; [by eexists|left; split; [done|]]. exists []. by rewrite app_nil_r.
  - split; [done|left; split; [done|]]. exists [E_handler c]. done.
  - split; [by eexists|left; split; [done|]]. exists []. by rewrite app_nil_r.
  - split; [done|left; split; [done|]]. exists []. rewrite app_nil_r. split; [|done]. destruct (c_class c); [done|]. apply releaseClient_other.
  - split; [done|left; split; [done|]]. exists []. rewrite app_nil_r. split; [|done]. apply release_other.
  - split; [done|right; split; [done|]]. eexists. split; [reflexivity|]. by exists reply.
Qed.
Lemma open_calls_insert ts i t0 t : ts !! i = Some t0 ->
  exists a b, omap open_call ts = a ++ option_list (open_call t0) ++ b /\ omap open_call (<[i := t]> ts) = a ++ option_list (open_call t) ++ b.
Proof.
  intros Hi. apply list_elem_of_split_length in Hi as (l1 & l2 & -> & ->). exists (omap open_call l1), (omap open_call l2).
  rewrite insert_app_r_alt, Nat.sub_diag by lia. cbn [insert list_insert]. rewrite !omap_app. cbn [omap list_omap]. by destruct (open_call t0), (open_call t).
Qed.
Lemma addressed_insert ts i t : Forall addressed ts -> addressed t -> Forall addressed (<[i := t]> ts).
Proof. intros H Ht. by apply Forall_insert. Qed.
(** From one state to another: who has been answered. *)
Definition settled (w w' : world) : Prop := exists new cs, w_events w' = w_events w ++ new /\
  omap open_call (w_threads w) ≡ₚ cs ++ omap open_call (w_threads w') /\ Forall2 answered_to cs (List.filter is_reply new).
Lemma settled_none w w' new : w_events w' = w_events w ++ new -> List.filter is_reply new = [] -> omap open_call (w_threads w') = omap open_call (w_threads w) -> settled w w'.
Proof. intros E Hn Ho. exists new, []. rewrite Hn, Ho. split_and!; done. Qed.
Lemma settled_trans w1 w2 w3 : settled w1 w2 -> settled w2 w3 -> settled w1 w3.
Proof.
  intros (n1 & c1 & E1 & P1 & F1) (n2 & c2 & E2 & P2 & F2). exists (n1 ++ n2), (c1 ++ c2). split_and!.
  - by rewrite E2, E1, app_assoc.
  - by rewrite P1, P2, app_assoc.
  - rewrite List.filter_app. by apply Forall2_app.
Qed.
Lemma thread_step_settled w w' : thread_step w w' -> Forall addressed (w_threads w) -> Forall addressed (w_threads w') /\ settled w w'.
Proof.
  intros Hst Had. destruct Hst as [w i c p w' t Ht Hst|w i srv rid Ht|w i srv Ht].
  - assert (Hc : addressed (T_call c p)) by by eapply Forall_lookup_1. destruct (call_step_answers _ _ _ _ _ Hst Hc) as [Ha Hcase].
    split; [by apply addressed_insert|]. destruct (open_calls_insert (w_threads w) i (T_call c p) t Ht) as (a & b & E1 & E2). cbn [option_list open_call] in E1.
    destruct Hcase as [[Ho (new & En & Hf)]|[-> (e & En & Hans)]].
    + apply (settled_none _ _ new); [exact En|exact Hf|]. cbn [w_threads with_threads]. by rewrite E2, E1, Ho.
    + exists [e], [c]. split; [exact En|]. cbn [w_threads with_threads]. rewrite E1, E2. cbn [option_list open_call app]. split; [solve_Permutation|].
      destruct Hans as (r & Hr & ->). cbn [List.filter is_reply]. constructor; [by exists r|constructor].
  - split; [apply addressed_insert; [done|by destruct (bool_decide _)]|]. apply (settled_none _ _ []); [cbn; by rewrite app_nil_r|done|]. cbn [w_threads with_threads].
    destruct (open_calls_insert (w_threads w) i _ (if bool_decide ((srv, rid) ∈ w_inflight w) then T_kill srv else T_done) Ht) as (a & b & -> & ->). by destruct (bool_decide _).
  - split; [by apply addressed_insert|]. apply (settled_none _ _ [E_kill srv]); [done|done|]. cbn [w_threads with_threads].
    by destruct (open_calls_insert (w_threads w) i _ T_done Ht) as (a & b & -> & ->).
Qed.
Lemma step_addressed w w' : step w w' -> Forall addressed (w_threads w) -> Forall addressed (w_threads w').
Proof.
  destruct 1 as [w srv client opts line v|w w' H|w srv]; intros Had; [|by apply (thread_step_settled w)|done].
  cbn [w_threads with_threads]. apply Forall_app. split; [done|]. destruct v; cbn; by repeat constructor.
Qed.
Lemma reachable_addressed w : rtc step world0 w -> Forall addressed (w_threads w).
Proof.
  intros H. assert (H0 : Forall addressed (w_threads world0)) by constructor. revert H0. induction H as [|w0 w1 w2 H _ IH]; [done|]. intros Ha. apply IH. by eapply step_addressed.
Qed.
Lemma threads_settled w w' : rtc thread_step w w' -> Forall addressed (w_threads w) -> settled w w'.
Proof.
  induction 1 as [w|w0 w1 w2 H _ IH]; intros Ha; [apply (settled_none _ _ []); [by rewrite app_nil_r|done|done]|].
  destruct (thread_step_settled _ _ H Ha) as [Ha1 Hs]. apply (settled_trans _ w1); [done|by apply IH].
Qed.
Lemma rank_nonneg t : 0 <= rank t.
Proof. destruct t; cbn; lia. Qed.
(** The step of a thread that its handler's answer [h] determines. *)
Definition exec_call (w : world) (c : callinfo) (p : phase) (h : hres) : world * thread :=
  match p with
  | P_checked => (with_ids ({[c_key c]} ∪ w_inflight w) (w_cancelled w) w, T_call c P_listed)
  | P_listed => (with_active (c_srv c) (w_active w (c_srv c) + 1) w, T_call c P_counted)
  | P_counted =>
      match c_class c with
      | Cheap => (w, T_call c P_slot)
      | Expensive => match acquireClientSlot conc (c_client c) w with Some w' => (w', T_call c P_slot) | None => (w, T_call c (P_refused busy_client)) end
      end
  | P_slot =>
      if w_gate w (c_class c) <? limit conc (c_class c) then (with_gate (c_class c) (w_gate w (c_class c) + 1) w, T_call c P_admitted) else (w, T_call c P_timeout)
  | P_timeout => (match c_class c with Expensive => releaseClient (c_client c) w | Cheap => w end, T_call c (P_refused busy))
  | P_refused e => (with_ids (w_inflight w ∖ {[c_key c]}) (w_cancelled w) w, T_call c (P_leave (answer dump (c_opts c) (c_id c) false (inr (Some e)))))
  | P_admitted => (w, T_call c (P_run (bool_decide (c_key c ∈ w_cancelled w))))
  | P_run b => match validateArgs (c_spec c) (c_args c) with Some e => (w, T_call c (P_ran (inl e))) | None => (emit (E_handler c) w, T_call c (P_in b)) end
  | P_in b => (w, T_call c (P_ran (runTool b h)))
  | P_ran r => (with_ids (w_inflight w ∖ {[c_key c]}) (w_cancelled w ∖ {[c_key c]}) w,
                T_call c (P_client (answer dump (c_opts c) (c_id c) false (call_result dump (c_opts c) (bool_decide (c_key c ∈ w_cancelled w)) r))))
  | P_client reply => (match c_class c with Expensive => releaseClient (c_client c) w | Cheap => w end, T_call c (P_gate reply))
  | P_gate reply => (release (c_class c) w, T_call c (P_leave reply))
  | P_leave reply => (emit (E_reply (c_srv c) (c_client c) reply) (with_active (c_srv c) (w_active w (c_srv c) - 1) w), T_done)
  end.
Lemma exec_call_sound w c p h : call_step w c p (fst (exec_call w c p h)) (snd (exec_call w c p h)).
Proof.
  destruct p; cbn [exec_call]; try (cbn [fst snd]; constructor; fail).
  - destruct (c_class c) eqn:Ec; [by apply CS_cheap|]. destruct (acquireClientSlot conc (c_client c) w) eqn:E; [by eapply CS_slot|by apply CS_no_slot].
  - destruct (w_gate w (c_class c) <? limit conc (c_class c)) eqn:E; [apply CS_acquire; by apply Z.ltb_lt|apply CS_timeout; by apply Z.ltb_ge].
  - destruct (validateArgs (c_spec c) (c_args c)) eqn:E; [by apply CS_invalid|by apply CS_handler].
Qed.
Definition exec_thread (w : world) (i : nat) (h : hres) : world :=
  match w_threads w !! i with
  | Some (T_call c p) => with_threads (<[i := snd (exec_call w c p h)]> (w_threads w)) (fst (exec_call w c p h))
  | Some (T_cancel srv rid) =>
      with_threads (<[i := if bool_decide ((srv, rid) ∈ w_inflight w) then T_kill srv else T_done]> (w_threads w)) (with_ids (w_inflight w) ({[(srv, rid)]} ∪ w_cancelled w) w)
  | Some (T_kill srv) => with_threads (<[i := T_done]> (w_threads w)) (emit (E_kill srv) w)
  | _ => w
  end.
Lemma exec_thread_sound w i h : exec_thread w i h = w \/ thread_step w (exec_thread w i h).
Proof.
  unfold exec_thread. destruct (w_threads w !! i) as [[c p|srv rid|srv|]|] eqn:E; [right..|by left|by left].
  - eapply S_call; [exact E|apply exec_call_sound].
  - by apply S_cancel.
  - by apply S_kill.
Qed.
Definition exec_line (w : world) (srv : nat) (line : list Z) : world :=
  let opts := {| era := Legacy; contextId := []; toolAllow := None |} in
  let v := handleLine_start getenv cfg tools parse dump catalog (bool_decide (srv ∈ w_shutting w)) opts line in
  with_threads (w_threads w ++ option_list (line_thread srv (bs "stdio") opts v)) (fold_left (fun w e => emit e w) (line_events srv (bs "stdio") v) w).
(** A schedule: lines to server 0, and threads with what their handlers answer. *)
Definition exec (w : world) (a : list Z + nat * hres) : world := match a with inl line => exec_line w 0 line | inr (i, h) => exec_thread w i h end.
Lemma exec_step w a : exec w a = w \/ step w (exec w a).
Proof.
  destruct a as [line|[i h]]; cbn [exec]; [right; apply S_line|]. destruct (exec_thread_sound w i h) as [->|H]; [by left|]. right. by apply S_thread.
Qed.
Lemma exec_sound sched : forall w, rtc step w (fold_left exec sched w).
Proof.
  induction sched as [|a sched IH]; intros w; cbn [fold_left]; [done|]. etrans; [|apply IH]. destruct (exec_step w a) as [->|H]; [done|by apply rtc_once].
Qed.
Lemma call_progress w c p : exists w' t, call_step w c p w' t.
Proof. eexists _, _. apply (exec_call_sound w c p H_exn). Qed.
Lemma progress w : ~ Forall (eq T_done) (w_threads w) -> exists w', thread_step w w'.
Proof.
  intros Hn. apply not_Forall_Exists in Hn; [|intros t; apply done_dec].
  apply Exists_exists in Hn as (t & [i Hi]%list_elem_of_lookup & Ht). destruct t as [c p|srv rid|srv|]; [| | |done].
  - destruct (call_progress w c p) as (w' & t & H). eexists. by eapply S_call.
  - eexists. by eapply S_cancel.
  - eexists. by eapply S_kill.
Qed.
(** A state whose steps end has an end of its steps. *)
Lemma sn_ends w : sn thread_step w -> exists w', rtc thread_step w w' /\ nf thread_step w'.
Proof.
  induction 1 as [w _ IH]. destruct (decide (Forall (eq T_done) (w_threads w))) as [Hd|Hd].
  - exists w. split; [done|]. intros [w' H]. apply thread_step_rank in H. pose proof (sum_nonneg rank (w_threads w') rank_nonneg). rewrite (sum_done rank (w_threads w)) in H by done. lia.
  - destruct (progress w Hd) as [w1 H1]. destruct (IH w1 H1) as (w' & Hr & Hn). exists w'. split; [by eapply rtc_l|done].
Qed.
Lemma steps_end w : sn thread_step w.
Proof.
  remember (Z.to_nat (sum rank (w_threads w))) as n eqn:En. revert w En. induction (lt_wf n) as [n _ IH]. intros w ->. constructor. intros w' H.
  eapply IH; [|done]. pose proof (thread_step_rank _ _ H). pose proof (sum_nonneg rank (w_threads w') rank_nonneg). lia.
Qed.
(** C39: Every call is answered and gives back what it took. From any reachable
    state, if every handler that has begun returns, the threads' own steps come
    to an end, in whatever order they are taken (the wait for the gate ends by
    its timeout at the latest); they end with every thread over, with the
    places of both classes, every client's slots, the active counts and the ids
    in flight all given back; and the replies sent on the way are, one for one,
    to the calls that were open, each to its client and under its request's id. *)
Theorem every_call_answered w : rtc step world0 w -> sn thread_step w /\
  (forall w', rtc thread_step w w' -> nf thread_step w' ->
    Forall (eq T_done) (w_threads w') /\
    (w_clients w' = ∅ /\ w_inflight w' = ∅ /\ forall cl s, w_gate w' cl = 0 /\ w_active w' s = 0) /\
    exists new cs, w_events w' = w_events w ++ new /\ cs ≡ₚ omap open_call (w_threads w) /\ Forall2 answered_to cs (List.filter is_reply new)).
Proof.
  intros Hw. split; [apply steps_end|]. intros w' Hr Hn. assert (Hd : Forall (eq T_done) (w_threads w')).
  { destruct (decide (Forall (eq T_done) (w_threads w'))) as [|Hnd]; [done|]. exfalso. apply Hn. by apply progress. }
  split; [done|]. split.
  - apply drained; [|done]. apply reachable_caps. etrans; [exact Hw|]. eapply rtc_subrel; [|exact Hr]. intros a b H. by apply S_thread.
  - destruct (threads_settled _ _ Hr (reachable_addressed _ Hw)) as (new & cs & En & Hp & Hf). exists new, cs. split; [done|]. split; [|done].
    rewrite Hp. assert (omap open_call (w_threads w') = []) as ->; [|by rewrite app_nil_r]. clear -Hd. by induction Hd as [|t ts <- _ IH].
Qed.

(** ** What reaches a handler *)

Definition call_checked (c : callinfo) : Prop := exists params, call_checks getenv cfg tools (c_opts c) params = inr (c_spec c, c_args c).
Lemma line_call sh opts line id rid spec args : handleLine_start getenv cfg tools parse dump catalog sh opts line = V_call id rid spec args ->
  exists params, call_checks getenv cfg tools opts params = inr (spec, args) /\ dump id = Some rid.
Proof.
  unfold handleLine_start. destruct (jsonNestsTooDeep line); [done|]. destruct (parse line) as [[| | | | | |m]|]; try done.
  destruct (jfind (bs "jsonrpc") m); [|done]. destruct (jfind (bs "method") m) as [[| | | |method| |]|]; try done.
  assert (H : forall params, line_method getenv cfg tools dump catalog sh opts (default JNull (jfind (bs "id") m)) params method = V_call id rid spec args ->
    exists params, call_checks getenv cfg tools opts params = inr (spec, args) /\ dump id = Some rid).
  { intros params. unfold line_method. destruct sh; [done|]. destruct (bytes_eqb method (bs "initialize")); [by destruct (modernOnly cfg)|].
    destruct (bytes_eqb method (bs "server/discover")); [done|]. destruct (bytes_eqb method (bs "ping")); [done|]. destruct (bytes_eqb method (bs "tools/list")); [done|].
    destruct (bytes_eqb method (bs "tools/call")); [|by destruct (is_in other_methods method)]. destruct (dump _) as [t|] eqn:Ed; [|done].
    destruct (call_checks getenv cfg tools opts params) as [e|[sp a]] eqn:Ec; [done|]. intros E. inversion E; subst. by exists params. }
  destruct (jfind (bs "params") m) as [[| | | | | |p]|]; try done.
  - destruct (bytes_eqb method _); [destruct (jfind (bs "requestId") p) as [r|]; [by destruct (dump r)|done]|].
    destruct (jfind (bs "id") m) as [i|]; [|done]. apply H.
  - destruct (bytes_eqb method _); [done|]. destruct (jfind (bs "id") m) as [i|]; [|done]. apply H.
Qed.
Lemma call_step_thread w c p w' t : call_step w c p w' t -> t = T_done \/ exists p', t = T_call c p'.
Proof. destruct 1; (by left) || (right; by eexists). Qed.
Lemma call_step_events w c p w' t : call_step w c p w' t -> w_events w' = w_events w \/ (exists e, w_events w' = w_events w ++ [e] /\ is_reply e = true) \/
  (w_events w' = w_events w ++ [E_handler c] /\ validateArgs (c_spec c) (c_args c) = None).
Proof.
  intros Hst. steps Hst; try (by left).
  - left. by destruct (acquireClientSlot_other _ _ _ Ha) as (_ & _ & _ & _ & _ & -> & _).
  - left. destruct (c_class c); [done|]. by destruct (releaseClient_other (c_client c) w) as (_ & _ & _ & _ & _ & -> & _).
  - right. by right.
  - left. destruct (c_class c); [done|]. by destruct (releaseClient_other (c_client c) w) as (_ & _ & _ & _ & _ & -> & _).
  - left. by destruct (release_other (c_class c) w) as (_ & _ & _ & _ & _ & ->).
  - right. left. by eexists.
Qed.
Definition thread_checked (t : thread) : Prop := match t with T_call c _ => call_checked c | _ => True end.
Definition gated (w : world) : Prop := Forall thread_checked (w_threads w) /\
  forall c, E_handler c ∈ w_events w -> call_checked c /\ validateArgs (c_spec c) (c_args c) = None.
Lemma gated_step w w' : gated w -> step w w' -> gated w'.
Proof.
  intros [Ht He] Hst. destruct Hst as [w srv client opts line v|w w' [w1 i c p w2 t Hi Hst|w1 i srv rid Hi|w1 i srv Hi]|w srv]; unfold gated.
  - cbn [w_threads with_threads]. rewrite emit_all. cbn [w_events with_threads]. split.
    + apply Forall_app. split; [done|]. destruct v as [r|rid|id rid spec args] eqn:Ev; cbn; [constructor|by repeat constructor|].
      constructor; [|constructor]. destruct (line_call _ _ _ _ _ _ _ Ev) as (params & Hc & _). by exists params.
    + intros c [Hc|Hc]%elem_of_app; [by apply He|]. destruct v as [[r|]| |]; cbn in Hc; try (by apply elem_of_nil in Hc). by apply list_elem_of_singleton in Hc.
  - cbn [w_threads w_events with_threads]. assert (Hc : call_checked c) by (eapply Forall_lookup_1 in Ht; [|exact Hi]; done). split.
    + apply Forall_insert; [done|]. by destruct (call_step_thread _ _ _ _ _ Hst) as [-> | [p' ->]].
    + intros c'. destruct (call_step_events _ _ _ _ _ Hst) as [-> | [(e & -> & Hr)|[-> Hv]]]; [by apply He| |]; intros [H|H%list_elem_of_singleton]%elem_of_app; try by apply He.
      * by subst e.
      * by simplify_eq.
  - cbn. split; [|done]. apply Forall_insert; [done|]. by destruct (bool_decide _).
  - cbn. split; [by apply Forall_insert|]. intros c [H|H%list_elem_of_singleton]%elem_of_app; [by apply He|done].
  - done.
Qed.
Lemma reachable_gated w : rtc step world0 w -> gated w.
Proof.
  intros H. assert (H0 : gated world0) by (split; [constructor|by intros c ?%elem_of_nil]). revert H0. induction H as [|w0 w1 w2 H _ IH]; [done|].
  intros Hg. apply IH. by eapply gated_step.
Qed.
Lemma byName_in name t : byName tools name = Some t -> t ∈ tools /\ t_name t = name.
Proof.
  unfold byName. assert (H : forall l r, fold_left (fun r t => if bytes_eqb name (t_name t) then Some t else r) l r = Some t -> r = Some t \/ (t ∈ l /\ t_name t = name)).
  { induction l as [|u l IH]; intros r; cbn [fold_left]; [by left|]. intros [E|[Hin Hn]]%IH.
    - destruct (bytes_eqb name (t_name u)) eqn:En; [|by left]. apply bytes_eqb_true in En. simplify_eq. right. split; [by left|done].
    - right. split; [by right|done]. }
  intros [?|?]%H; done.
Qed.
Lemma jerase_find k m : jfind k (jerase k m) = None.
Proof.
  unfold jerase. induction m as [|[k' v] m IH]; [done|]. cbn [List.filter fst]. destruct (bytes_eqb k k') eqn:E; cbn [negb jfind]; [done|]. by rewrite E.
Qed.
(** C34: Whatever the lines of the clients and their interleaving, a handler
    runs only for a tool of the registry that the presenting credential may
    call, with arguments that pass the tool's schema and no context handle
    among them; never for a destructive tool in the read-only mode, nor for
    one of the tools known to change state, however it was registered; and
    with auto_execute only where the operator allows it. *)
Theorem handlers_gated w c : rtc step world0 w -> E_handler c ∈ w_events w ->
  c_spec c ∈ tools /\ allowed (c_opts c) (t_name (c_spec c)) = true /\ validateArgs (c_spec c) (c_args c) = None /\
  (readOnlyMode cfg = true -> destructiveHint (c_spec c) = false /\
     forall ts, tools = classifyStateMutatingTools ts -> isStateMutatingTool (t_name (c_spec c)) = false) /\
  exists m, c_args c = JObj m /\ jfind (bs "context_id") m = None /\
    (takesAutoExecute (t_name (c_spec c)) = true -> jfind (bs "auto_execute") m = Some (JBool true) -> autoExecuteAllowed getenv = true).
Proof.
  intros [_ Hg]%reachable_gated [[params Hc] Hv]%Hg. unfold call_checks in Hc. destruct (byName tools _) as [spec|] eqn:En; [|done].
  apply byName_in in En as [Hin Hn]. destruct (readOnlyMode cfg && destructiveHint spec) eqn:Er; [done|].
  destruct (allowed (c_opts c) _) eqn:Ea; [|done]. cbn [negb] in Hc. destruct (match params with JObj m => _ | _ => JObj [] end) as [| | | | | |m]; try done.
  pose proof (jerase_find (bs "context_id") m) as Hf. set (a := jerase (bs "context_id") m) in *. clearbody a.
  destruct (_ && _ && _) eqn:Ex; [done|]. assert (Es : spec = c_spec c) by congruence. assert (Eargs : JObj a = c_args c) by congruence. clear Hc. rewrite <- Es, Hn. split_and!; [done|done|by rewrite Es| |].
  - intros Hro. rewrite Hro in Er. cbn [andb] in Er. split; [done|]. intros ts Ets. rewrite Ets in Hin. unfold classifyStateMutatingTools in Hin.
    apply list_elem_of_fmap in Hin as (t & -> & _). rewrite <- Hn. destruct (isStateMutatingTool (t_name t)) eqn:Em; [done|done].
  - eexists. split; [symmetry; exact Eargs|]. split; [exact Hf|]. intros Ht Hj. rewrite Hn, Ht, Hj in Ex. cbn [andb] in Ex. by apply negb_false_iff in Ex.
Qed.

(** ** Cancellation *)

(** Before the check that follows the handler. *)
Definition before_check (p : phase) : bool :=
  match p with P_client _ | P_gate _ | P_leave _ => false | P_refused e => match te_class e with Connectivity => true | _ => false end | _ => true end.
Definition refusal (c : callinfo) (r : Json) : Prop :=
  exists e, (te_class e = Cancelled \/ te_class e = Connectivity) /\ r = answer dump (c_opts c) (c_id c) false (inr (Some e)).
Definition sole (i : nat) (c : callinfo) (w : world) : Prop := forall j c' p, w_threads w !! j = Some (T_call c' p) -> c_key c' = c_key c -> j = i.
Definition doomed (i : nat) (c : callinfo) (w : world) : Prop :=
  w_threads w !! i = Some T_done \/
  exists p, w_threads w !! i = Some (T_call c p) /\
    match p with P_client r | P_gate r | P_leave r => refusal c r | p => before_check p = true /\ c_key c ∈ w_cancelled w end.
Lemma call_step_cancelled w c p w' t x : call_step w c p w' t -> x ∈ w_cancelled w -> (forall r, p = P_ran r -> x <> c_key c) -> x ∈ w_cancelled w'.
Proof.
  intros Hst Hx Hn. steps Hst; try done.
  - by destruct (acquireClientSlot_other _ _ _ Ha) as (_ & _ & _ & -> & _).
  - destruct (c_class c); [done|]. by destruct (releaseClient_other (c_client c) w) as (_ & _ & _ & -> & _).
  - cbn. apply elem_of_difference. split; [done|]. intros E%elem_of_singleton. by apply (Hn r).
  - destruct (c_class c); [done|]. by destruct (releaseClient_other (c_client c) w) as (_ & _ & _ & -> & _).
  - by destruct (release_other (c_class c) w) as (_ & _ & _ & -> & _).
Qed.
Lemma doomed_self w i c p w' t : w_threads w !! i = Some (T_call c p) -> doomed i c w -> call_step w c p w' t -> doomed i c (with_threads (<[i := t]> (w_threads w)) w').
Proof.
  intros Hi Hd Hst. assert (Hlen : (i < length (w_threads w))%nat) by by eapply lookup_lt_Some.
  assert (Hd' : match p with P_client r | P_gate r | P_leave r => refusal c r | p => before_check p = true /\ c_key c ∈ w_cancelled w end).
  { destruct Hd as [Hd|(p' & Hp & Hd)]; [congruence|]. assert (p' = p) as -> by congruence. exact Hd. }
  assert (Hkeep : (forall r, p <> P_ran r) -> c_key c ∈ w_cancelled w -> c_key c ∈ w_cancelled w') by (intros Hp Hx; eapply call_step_cancelled; [exact Hst|done|intros r ->; by destruct (Hp r)]).
  unfold doomed. cbn [w_threads with_threads w_cancelled]. rewrite list_lookup_insert_eq by done. clear Hd.
  steps Hst; try (right; eexists; split; [reflexivity|]; cbn [before_check] in *; split; [done|apply Hkeep; [done|apply Hd']]).
  - right. eexists. split; [reflexivity|]. exists e. split; [|reflexivity]. right. destruct Hd' as [He _]. cbn [before_check] in He. by destruct (te_class e).
  - right. eexists. split; [reflexivity|]. rewrite bool_decide_true by apply Hd'. eexists. split; [|reflexivity]. by left.
  - right. by eexists.
  - right. by eexists.
  - by left.
Qed.
Lemma doomed_step i c w w' : doomed i c w -> step w w' -> sole i c w -> doomed i c w'.
Proof.
  intros Hd Hst Hs. assert (Hother : forall j t w2, j <> i -> (forall x, x = c_key c -> x ∈ w_cancelled w -> x ∈ w_cancelled w2) -> doomed i c (with_threads (<[j := t]> (w_threads w)) w2)).
  { intros j t w2 Hne Hx. unfold doomed. cbn [w_threads with_threads w_cancelled]. rewrite list_lookup_insert_ne by done.
    destruct Hd as [Hd|(p & Hp & Hd)]; [by left|right]. exists p. split; [done|]. destruct p; try done; (destruct Hd; split; [done|by apply Hx]). }
  destruct Hst as [w srv client opts line v|w w' [w1 j cj p w2 t Hj Hst|w1 j srv rid Hj|w1 j srv Hj]|w srv].
  - unfold doomed. cbn [w_threads with_threads w_cancelled]. rewrite emit_all. cbn [w_cancelled]. destruct Hd as [Hd|(p & Hp & Hd)]; [left|right; exists p; split; [|done]]; by apply lookup_app_l_Some.
  - destruct (decide (j = i)) as [->|Hne].
    + assert (cj = c) as -> by (destruct Hd as [Hd|(p' & Hp & _)]; congruence). by apply doomed_self with p.
    + apply Hother; [done|]. intros x -> Hx. eapply call_step_cancelled; [exact Hst|done|]. intros r -> E. apply Hne. by eapply Hs.
  - destruct (decide (j = i)) as [->|Hne]; [destruct Hd as [Hd|(p & Hp & _)]; congruence|]. apply Hother; [done|]. intros x _ Hx. cbn. by apply elem_of_union_r.
  - destruct (decide (j = i)) as [->|Hne]; [destruct Hd as [Hd|(p & Hp & _)]; congruence|]. by apply Hother.
  - done.
Qed.
(** A call whose id is marked as cancelled before the check that follows
    its handler never delivers a result: whatever happens next, and as long as
    no other call of that server has its id, the reply it leaves with is an
    error, the cancellation or the refusal of a busy server. *)
Theorem cancelled_not_delivered i c p w w' r : w_threads w !! i = Some (T_call c p) -> before_check p = true -> c_key c ∈ w_cancelled w ->
  rtc (fun a b => step a b /\ sole i c a) w w' -> w_threads w' !! i = Some (T_call c (P_leave r)) -> refusal c r.
Proof.
  intros Hi Hb Hk Hr Hl. assert (Hd : doomed i c w) by (right; exists p; split; [done|]; by destruct p). assert (Hd' : doomed i c w').
  { clear Hi Hl Hk Hb. induction Hr as [|w0 w1 w2 [Hst Hs] _ IH]; [done|]. apply IH. by eapply doomed_step. }

  destruct Hd' as [Hd'|(p' & Hp & H)]; [congruence|]. assert (p' = P_leave r) as -> by congruence. exact H.
Qed.
End Proofs.

(** ** Runs *)

Definition demo_tool : ToolSpec :=
  {| t_name := bs "t"; t_category := bs "c"; t_description := bs "d"; t_class := Cheap; t_params := []; t_retryTier := None;
     destructiveHint := false; readOnlyHint := true; idempotentHint := true; openWorldHint := false; secretHint := false |}.
Definition demo_cfg : ServerConfig := {| serverName := bs "fractalsql-mcp"; serverVersion := bs "1"; readOnlyMode := true; modernOnly := false |}.
Definition demo_conc : ConcurrencyConfig := {| cheapLimit := 1; expensiveLimit := 1; expensivePerClient := 1 |}.
Definition demo_request (id : Z) : Json :=
  jobj [jsonrpc; (bs "id", JInt id); (bs "method", JStr (bs "tools/call")); (bs "params", jobj [(bs "name", JStr (bs "t"))])].
Definition demo_cancel (id : Z) : Json :=
  jobj [jsonrpc; (bs "method", JStr (bs "notifications/cancelled")); (bs "params", jobj [(bs "requestId", JInt id)])].
(** Lines of two characters stand for the requests of an id and their cancellations. *)
Definition demo_parse (l : list Z) : option Json := match l with [99; n] => Some (demo_request n) | [120; n] => Some (demo_cancel n) | _ => None end.
Definition demo_dump (j : Json) : option (list Z) := match j with JInt z => Some [z] | _ => Some [] end.
Definition demo_catalog (m : list Z) (p : Json) : Json + option terr := inr None.
Definition demo_exec := exec (fun _ => None) demo_cfg [demo_tool] demo_parse demo_dump demo_catalog demo_conc.
Definition demo_step := step (fun _ => None) demo_cfg [demo_tool] demo_parse demo_dump demo_catalog demo_conc.
Definition demo_run (sched : list (list Z + nat * hres)) : world := fold_left demo_exec sched world0.
Lemma demo_server_reachable sched : rtc demo_step world0 (demo_run sched).
Proof. apply exec_sound. Qed.
Definition go (i n : nat) : list (list Z + nat * hres) := repeat (inr (i, H_ok (JObj []))) n.
Definition demo_info (id : Z) : callinfo :=
  {| c_srv := 0; c_client := bs "stdio"; c_opts := {| era := Legacy; contextId := []; toolAllow := None |}; c_id := JInt id; c_rid := [id]; c_spec := demo_tool; c_args := JObj [] |}.

(** The call of id 1 in its handler. *)
Definition demo_busy : world := demo_run (inl [99; 1] :: go 0 6).
Lemma calls_bounded_witness : w_gate demo_busy Cheap = 1 /\ w_gate demo_busy Cheap <= Z.max 0 (limit demo_conc Cheap).
Proof.
  split; [vm_compute; reflexivity|].
  exact (proj2 (proj1 (calls_bounded (fun _ => None) demo_cfg [demo_tool] demo_parse demo_dump demo_catalog demo_conc demo_busy (demo_server_reachable _)) Cheap)).
Defined.
Lemma handlers_gated_witness : w_events demo_busy = [E_handler (demo_info 1)] /\ c_spec (demo_info 1) ∈ [demo_tool] /\ destructiveHint demo_tool = false.
Proof.
  assert (E : w_events demo_busy = [E_handler (demo_info 1)]) by (vm_compute; reflexivity). split; [exact E|].
  pose proof (handlers_gated (fun _ => None) demo_cfg [demo_tool] demo_parse demo_dump demo_catalog demo_conc demo_busy (demo_info 1) (demo_server_reachable _)) as H.
  rewrite E in H. destruct (H (list_elem_of_here _ _)) as (Hin & _ & _ & Hro & _). split; [exact Hin|]. exact (proj1 (Hro eq_refl)).
Defined.
Lemma demo_sole w : w_threads w !! 1%nat = Some (T_kill 0) /\ length (w_threads w) = 2%nat -> sole 0 (demo_info 1) w.
Proof.
  intros [H1 H2] j c p Hj _. destruct j as [|[|j]]; [done|congruence|]. apply lookup_lt_Some in Hj. lia.
Qed.
Lemma demo_sole_run n : forall w, (forall k, (k <= n)%nat -> w_threads (fold_left demo_exec (go 0 k) w) !! 1%nat = Some (T_kill 0) /\ length (w_threads (fold_left demo_exec (go 0 k) w)) = 2%nat) ->
  rtc (fun a b => demo_step a b /\ sole 0 (demo_info 1) a) w (fold_left demo_exec (go 0 n) w).
Proof.
  induction n as [|n IH]; intros w H; [done|]. unfold go in *. cbn [repeat fold_left]. etrans; [|apply IH; intros k Hk; apply (H (S k)); lia].
  destruct (exec_step (fun _ => None) demo_cfg [demo_tool] demo_parse demo_dump demo_catalog demo_conc w (inr (0%nat, H_ok (JObj [])))) as [E|Hs].
  - unfold demo_exec at 1. rewrite E. done.
  - apply rtc_once. split; [exact Hs|]. apply demo_sole, (H 0%nat). lia.
Qed.
(** A call in its handler while the other waits: both are answered. *)
Definition demo_two : world := demo_run (inl [99; 1] :: go 0 6 ++ inl [99; 2] :: go 1 3).
Lemma every_call_answered_witness : omap open_call (w_threads demo_two) = [demo_info 1; demo_info 2] /\
  exists w', rtc (thread_step demo_dump demo_conc) demo_two w' /\ w_inflight w' = ∅ /\ w_gate w' Cheap = 0 /\
    exists new cs, w_events w' = w_events demo_two ++ new /\ cs ≡ₚ [demo_info 1; demo_info 2] /\ Forall2 (answered_to demo_dump) cs (List.filter is_reply new).
Proof.
  assert (Eo : omap open_call (w_threads demo_two) = [demo_info 1; demo_info 2]) by (vm_compute; reflexivity). split; [exact Eo|].
  destruct (every_call_answered (fun _ => None) demo_cfg [demo_tool] demo_parse demo_dump demo_catalog demo_conc demo_two (demo_server_reachable _)) as [Hsn Hend].
  destruct (sn_ends (fun _ => None) demo_parse demo_dump demo_catalog demo_conc demo_two Hsn) as (w' & Hr & Hn). exists w'. split; [exact Hr|]. destruct (Hend w' Hr Hn) as (_ & (_ & Hi & Hg) & Hnew).
  rewrite Eo in Hnew. split; [exact Hi|]. split; [exact (proj1 (Hg Cheap 0%nat))|exact Hnew].
Defined.
(** Cancelled while in its handler. *)
Definition demo_marked : world := demo_run (inl [99; 1] :: go 0 6 ++ inl [120; 1] :: go 1 1).
Lemma cancelled_not_delivered_witness : exists w' r, w_threads w' !! 0%nat = Some (T_call (demo_info 1) (P_leave r)) /\ refusal demo_dump (demo_info 1) r.
Proof.
  set (w' := fold_left demo_exec (go 0 4) demo_marked).
  assert (Hl : exists r, w_threads w' !! 0%nat = Some (T_call (demo_info 1) (P_leave r))) by (eexists; vm_compute; reflexivity).
  destruct Hl as [r Hl]. exists w', r. split; [exact Hl|].
  refine (cancelled_not_delivered (fun _ => None) demo_cfg [demo_tool] demo_parse demo_dump demo_catalog demo_conc 0 (demo_info 1) (P_in false) demo_marked w' r _ eq_refl _ _ Hl).
  - vm_compute. reflexivity.
  - apply (bool_decide_unpack _). vm_compute. exact I.
  - apply demo_sole_run; intros n Hn; do 5 (destruct n as [|n]; [vm_compute; split; reflexivity|]); lia.
Defined.

(** A cancellation kills the statement of the server's connection, whichever
    call's it is: the call that is cancelled waits for the gate, and the one
    whose handler runs, which nobody cancelled, loses its statement. *)
Theorem cancel_kills_another : exists w, rtc demo_step world0 w /\
  w_threads w = [T_call (demo_info 2) (P_in false); T_call (demo_info 1) P_slot; T_done] /\
  w_events w = [E_handler (demo_info 2); E_kill 0] /\ (0%nat, [2]) ∉ w_cancelled w.
Proof.
  exists (demo_run (inl [99; 2] :: go 0 6 ++ inl [99; 1] :: go 1 3 ++ inl [120; 1] :: go 2 2)). split; [apply demo_server_reachable|].
  split_and!; [vm_compute; reflexivity|vm_compute; reflexivity|]. apply (bool_decide_unpack _). vm_compute. exact I.
Qed.
(** A cancellation that comes when its call is over, or was never made, is kept:
    a later request with that id runs its handler and its result is discarded,
    though nobody cancelled it. *)
Theorem late_cancel_discards : exists w w' r, rtc demo_step world0 w /\ Forall (eq T_done) (w_threads w) /\ w_events w = [] /\
  rtc demo_step w w' /\ w_threads w' = [T_done; T_done] /\ w_events w' = [E_handler (demo_info 1); E_reply 0 (bs "stdio") r] /\ refusal demo_dump (demo_info 1) r.
Proof.
  pose (w := demo_run (inl [120; 1] :: go 0 1)). pose (w' := fold_left demo_exec (inl [99; 1] :: go 1 11) w).
  exists w, w', (answer demo_dump (c_opts (demo_info 1)) (JInt 1) false (inr (Some (cancelled_error (bs "call was cancelled; result discarded"))))).
  split_and!; [apply demo_server_reachable|vm_compute; by repeat constructor|vm_compute; reflexivity|apply exec_sound|vm_compute; reflexivity|vm_compute; reflexivity|].
  eexists. split; [|reflexivity]. by left.
Qed.
