(* ===== verification/McpHttp.v ===== *)
(** * The MCP server's HTTP transport (mcp/src/transport_http.cpp)

    A connection carries one request.  What its client sends before it stops
    is a list of bytes; the head is read byte by byte and bounded, the
    request is routed after the credential and the origin are checked, and a
    registry hands out the server of a session, a context or a credential.
    SHA-256 in hexadecimal, the base64 block decoder (OpenSSL) and the JSON
    parser are parameters; so is the readiness probe.  POSIX branches; the
    texts of the replies, TLS and the listener are not modelled. *)

From stdpp Require Import gmap.
From S2P Require Import Prelude DaemonConf McpConf McpServer.

(** ** Text *)

Definition lowerCopy (s : list Z) : list Z := map lower s.
Definition crlf_space (c : Z) : bool := (c =? 32) || (c =? 9) || (c =? 13) || (c =? 10).
Definition trimCopy (s : list Z) : list Z := rtrim crlf_space (drop_while crlf_space s).
Definition blank_trim (s : list Z) : list Z := rtrim is_blank_tab (drop_while is_blank_tab s).
Fixpoint prefix_of (p s : list Z) : bool :=
  match p, s with [], _ => true | x :: p, y :: s => (x =? y) && prefix_of p s | _, [] => false end.
(** What follows the first occurrence of [p]. *)
Fixpoint after_sub (p s : list Z) : option (list Z) :=
  if prefix_of p s then Some (drop (length p) s) else match s with [] => None | _ :: s => after_sub p s end.
(** What precedes the first [c], if there is one. *)
Fixpoint before_char (c : Z) (s : list Z) : option (list Z) :=
  match s with [] => None | x :: s => if x =? c then Some [] else option_map (cons x) (before_char c s) end.
(** What precedes the last [c], if there is one. *)
Fixpoint before_last (c : Z) (s : list Z) : option (list Z) :=
  match s with
  | [] => None
  | x :: s => match before_last c s with Some r => Some (x :: r) | None => if x =? c then Some [] else None end
  end.
Fixpoint skip_to_space (s : list Z) : list Z * list Z :=
  match s with [] => ([], []) | c :: r => if isspace c then ([], s) else let '(a, b) := skip_to_space r in (c :: a, b) end.
(** [stream >> word]. *)
Definition next_word (s : list Z) : list Z * list Z := skip_to_space (drop_while isspace s).

(** ** The request head *)

Definition kHeadMax : Z := 64 * 1024.
Definition kMaxHeaders : Z := 100.
Definition kBodyMax : Z := 32 * 1024 * 1024.
Definition drop_cr (s : list Z) : list Z := match rev s with 13 :: r => rev r | _ => s end.
(** readLine: the line, or nothing when the line or the head is too long or
    the client stops; the bytes counted so far; what is left. *)
Fixpoint read_line (cap headBytes len : Z) (buf s : list Z) : option (list Z) * Z * list Z :=
  if cap <? len then (None, headBytes, s)
  else if kHeadMax <? headBytes + 1 then (None, headBytes + 1, s)
  else match s with
  | [] => (None, headBytes + 1, [])
  | c :: r => if c =? 10 then (Some (drop_cr (rev buf)), headBytes + 1, r) else read_line cap (headBytes + 1) (len + 1) (c :: buf) r
  end.
Record HttpRequest := { method : list Z; target : list Z; bearer : list Z; sessionId : list Z; contentLength : Z; chunked : bool;
  malformed : bool; headers : conf; repeated : list (list Z) }.
Definition request0 (m t : list Z) : HttpRequest :=
  {| method := m; target := t; bearer := []; sessionId := []; contentLength := 0; chunked := false; malformed := false; headers := []; repeated := [] |}.
Definition path (r : HttpRequest) : list Z := default (target r) (before_char 63 (target r)).
Definition all_digits (s : list Z) : bool := forallb isdigit s.
Definition with_header (name value : list Z) (r : HttpRequest) : HttpRequest :=
  {| method := method r; target := target r; bearer := bearer r; sessionId := sessionId r; contentLength := contentLength r; chunked := chunked r; malformed := malformed r;
     headers := conf_set name value (headers r); repeated := match conf_find name (headers r) with Some _ => name :: repeated r | None => repeated r end |}.
Definition with_framing (n : Z) (c m : bool) (r : HttpRequest) : HttpRequest :=
  {| method := method r; target := target r; bearer := bearer r; sessionId := sessionId r; contentLength := n; chunked := c; malformed := m; headers := headers r; repeated := repeated r |}.
Definition with_names (b s : list Z) (r : HttpRequest) : HttpRequest :=
  {| method := method r; target := target r; bearer := b; sessionId := s; contentLength := contentLength r; chunked := chunked r; malformed := malformed r;
     headers := headers r; repeated := repeated r |}.
Definition bearer_of (value : list Z) : option (list Z) := if prefix_of (bs "bearer ") (lowerCopy value) then Some (trimCopy (drop 7 value)) else None.
(** One header line: the request, what has been seen of the framing, and
    whether the head is refused. *)
Definition header_line (h : list Z) (r : HttpRequest) (sawLength sawEncoding : bool) : HttpRequest * bool * bool * bool :=
  match before_char 58 h with
  | None => (r, sawLength, sawEncoding, true)
  | Some n =>
      let name := lowerCopy (blank_trim n) in
      let value := blank_trim (drop (S (length n)) h) in
      let r := with_header name value r in
      if bytes_eqb name (bs "authorization") then
        (match bearer_of value with Some b => with_names b (sessionId r) r | None => r end, sawLength, sawEncoding, true)
      else if bytes_eqb name (bs "mcp-session-id") then (with_names (bearer r) value r, sawLength, sawEncoding, true)
      else if bytes_eqb name (bs "content-length") then
        if sawLength || negb (negb (bytes_eqb value []) && (Z.of_nat (length value) <=? 12) && all_digits value)
        then (with_framing (contentLength r) (chunked r) true r, sawLength, sawEncoding, false)
        else (with_framing (fst (digits_val 0 value)) (chunked r) (malformed r) r, true, sawEncoding, true)
      else if bytes_eqb name (bs "transfer-encoding") then
        if sawEncoding || negb (bytes_eqb (lowerCopy value) (bs "chunked")) then (with_framing (contentLength r) (chunked r) true r, sawLength, sawEncoding, false)
        else (with_framing (contentLength r) true (malformed r) r, sawLength, true, true)
      else (r, sawLength, sawEncoding, true)
  end.
(** The loop over the headers: ended by an empty line, or by a line that
    cannot be read; [false] refuses the head. *)
Fixpoint read_headers (fuel : nat) (count headBytes : Z) (s : list Z) (r : HttpRequest) (sawLength sawEncoding : bool) : bool * HttpRequest * list Z :=
  let finish s := if sawLength && sawEncoding then (false, with_framing (contentLength r) (chunked r) true r, s)
                  else (negb (bytes_eqb (method r) []), r, s) in
  match fuel with
  | O => finish s
  | S fuel =>
      match read_line (64 * 1024) headBytes 0 [] s with
      | (None, _, s) => finish s
      | (Some [], _, s) => finish s
      | (Some h, headBytes, s) =>
          if kMaxHeaders <? count + 1 then (false, r, s)
          else match header_line h r sawLength sawEncoding with
               | (r, _, _, false) => (false, r, s)
               | (r, sl, se, true) => read_headers fuel (count + 1) headBytes s r sl se
               end
      end
  end.
Definition readRequestHead (s : list Z) : bool * HttpRequest * list Z :=
  match read_line (16 * 1024) 0 0 [] s with
  | (None, _, s) => (false, request0 [] [], s)
  | (Some head, headBytes, s) =>
      let '(m, rest) := next_word head in
      let '(t, _) := next_word rest in
      read_headers 102 0 headBytes s (request0 m t) false false
  end.
(** The body: [None] when the client stops before its end. *)
Definition readRequestBody (r : HttpRequest) (s : list Z) : option (list Z) :=
  if Z.of_nat (length s) <? contentLength r then None else Some (take (Z.to_nat (contentLength r)) s).

(** ** Origin, bind address *)

Definition originIsLoopback (origin : list Z) : bool :=
  match after_sub (bs "://") origin with
  | None => false
  | Some host =>
      let host := default host (before_char 47 host) in
      match host with
      | 91 :: inner => match before_char 93 inner with Some a => bytes_eqb a (bs "::1") | None => false end
      | _ =>
          let host := default host (before_last 58 host) in
          bytes_eqb host (bs "localhost") || prefix_of (bs "127.") host
      end
  end.
Definition originAllowed (allowedOrigins : list (list Z)) (origin : list Z) : bool :=
  bytes_eqb origin [] || originIsLoopback origin || existsb (fun a => bytes_eqb (lowerCopy (trimCopy a)) (lowerCopy (trimCopy origin))) allowedOrigins.
(** The address the listener binds: [inet_pton] is a parameter. *)
Inductive bind_addr := Bind_loopback | Bind_any | Bind_addr (a : Z).
Definition resolveBindAddr (inet_pton : list Z -> option Z) (host : list Z) : option bind_addr :=
  let h := trimCopy host in
  if is_in [[]; bs "localhost"; bs "127.0.0.1"] h then Some Bind_loopback
  else if is_in [bs "*"; bs "0.0.0.0"] h then Some Bind_any
  else option_map Bind_addr (inet_pton h).
Definition hostIsLoopback (h : list Z) : bool := is_in [[]; bs "localhost"; bs "::1"] h || prefix_of (bs "127.") h.
(** What the start of the listener refuses. *)
Definition bind_refused (getenv : list Z -> option (list Z)) (inet_pton : list Z -> option Z) (tls : bool) (host : list Z) : bool :=
  match resolveBindAddr inet_pton host with
  | None => true
  | Some _ =>
      negb tls && negb (hostIsLoopback host) &&
      match getenv (bs "FSQL_MCP_ALLOW_PLAINTEXT_NONLOOPBACK") with
      | Some v => is_in [[]; bs "0"; bs "false"] v
      | None => true
      end
  end.

(** ** Credentials *)

Record PolicyEntry := { pe_name : list Z; pe_sha256 : list Z; pe_allTools : bool; pe_tools : list (list Z); pe_expiresAt : Z }.
Record TokenStore := { ts_token : list Z; ts_policies : list PolicyEntry }.
Record Credential := { cr_ok : bool; cr_expired : bool; cr_name : list Z; cr_allow : option (list (list Z)) }.
Definition no_credential : Credential := {| cr_ok := false; cr_expired := false; cr_name := []; cr_allow := None |}.
Definition entry_expired (now : Z) (e : PolicyEntry) : bool := negb (pe_expiresAt e =? 0) && (pe_expiresAt e <=? now).

Section Transport.
Context (getenv : list Z -> option (list Z)) (sha256Hex : list Z -> list Z) (decodeBlock : list Z -> option (list Z)) (parse : list Z -> option Json).

(** One entry of the policy against the presented token. *)
Definition check_entry (now : Z) (hex : list Z) (acc : bool * Credential) (e : PolicyEntry) : bool * Credential :=
  if bytes_eqb (pe_sha256 e) hex then
    let c := snd acc in
    if entry_expired now e then (true, {| cr_ok := cr_ok c; cr_expired := true; cr_name := cr_name c; cr_allow := cr_allow c |})
    else (true, {| cr_ok := true; cr_expired := cr_expired c; cr_name := (match pe_name e with [] => bs "client:" ++ take 8 hex | n => n end);
                   cr_allow := if pe_allTools e then None else Some (pe_tools e) |})
  else acc.
(** TokenStore::check, after the reload. *)
Definition check (ts : TokenStore) (now : Z) (presented : list Z) : Credential :=
  match presented with
  | [] => no_credential
  | _ =>
      if negb (bytes_eqb (ts_token ts) []) && bytes_eqb presented (ts_token ts) then
        {| cr_ok := true; cr_expired := false; cr_name := bs "token:" ++ take 8 (sha256Hex presented); cr_allow := None |}
      else match ts_policies ts with
      | [] => no_credential
      | ps => let '(known, c) := fold_left (check_entry now (sha256Hex presented)) ps (false, no_credential) in if known then c else no_credential
      end
  end.
Definition header (r : HttpRequest) (name : list Z) : option (list Z) := conf_find name (headers r).
Definition presented_token (r : HttpRequest) : list Z :=
  default [] (bearer_of (default [] (header r (bs "authorization")))).
Definition authenticate (ts : TokenStore) (now : Z) (r : HttpRequest) : Credential :=
  match presented_token r with [] => no_credential | t => check ts now t end.
Definition tokenFingerprint (t : list Z) : list Z := take 32 (sha256Hex t).
Definition clientKeyFor (bearer session : list Z) : list Z := match session with [] => bs "token:" ++ take 8 bearer | _ => bs "session:" ++ session end.

(** ** A modern request *)

Definition url_char (c : Z) : Z := if c =? 45 then 43 else if c =? 95 then 47 else c.
Definition pad4 (s : list Z) : list Z := s ++ repeat 61 (Z.to_nat ((- Z.of_nat (length s)) mod 4)).
Fixpoint count_pad (s : list Z) : Z := match s with 61 :: r => 1 + count_pad r | _ => 0 end.
(** The decoder counts the padding as decoded bytes. *)
Definition base64Decode (s : list Z) : list Z :=
  match s with
  | [] => []
  | _ => match decodeBlock s with
         | None => []
         | Some out => let pad := count_pad (rev s) in if pad <=? Z.of_nat (length out) then take (Z.to_nat (Z.of_nat (length out) - pad)) out else out
         end
  end.
(** What precedes the last [?=]. *)
Fixpoint before_last_mark (s : list Z) : option (list Z) :=
  match s with
  | [] => None
  | c :: r => match before_last_mark r with
              | Some t => Some (c :: t)
              | None => if prefix_of (bs "?=") s then Some [] else None
              end
  end.
Definition kPrefix : list Z := bs "=?base64?".
Definition decodeMcpName (raw : list Z) : list Z :=
  let v := trimCopy raw in
  if negb (prefix_of kPrefix v) then v
  else match before_last_mark v with
       | Some u => if (length u <? length kPrefix)%nat then [] else base64Decode (pad4 (map url_char (drop (length kPrefix) u)))
       | None => []
       end.
Definition member (k : list Z) (v : Json) : option Json := match v with JObj m => jfind k m | _ => None end.
Definition str_member (k : list Z) (v : option Json) : list Z := match v with Some (JObj m) => match jfind k m with Some (JStr s) => s | _ => [] end | _ => [] end.
Definition modernMetaVersion (body : Json) : list Z :=
  match member (bs "_meta") body with
  | Some (JObj m) =>
      match jfind (bs "io.modelcontextprotocol/protocolVersion") m with
      | Some (JStr v) => v
      | _ => str_member (bs "protocolVersion") (jfind (bs "io.modelcontextprotocol") m)
      end
  | _ => []
  end.
Definition paramsString (body : Json) (k : list Z) : list Z := str_member k (member (bs "params") body).
Definition modernProtocolVersions : list (list Z) := [bs "2025-11-25"; bs "2026-07-28"].
Definition isKnownRpcMethod (m : list Z) : bool :=
  is_in [bs "initialize"; bs "ping"; bs "tools/list"; bs "tools/call"; bs "resources/list"; bs "resources/read"; bs "resources/templates/list";
         bs "prompts/list"; bs "prompts/get"; bs "server/discover"; bs "logging/setLevel"; bs "notifications/initialized"; bs "notifications/cancelled"; bs "$/cancel"] m.
(** The JSON-RPC error of the check, [None] when the headers and the body agree. *)
Definition validateModernRequest (r : HttpRequest) (body : Json) (bodyMethod : list Z) : option Z :=
  match header r (bs "mcp-protocol-version") with
  | None => Some (-32020)
  | Some pv =>
      let hv := trimCopy pv in
      if negb (is_in modernProtocolVersions hv) then Some (-32022)
      else if bytes_eqb (modernMetaVersion body) [] then Some (-32020)
      else if negb (bytes_eqb (modernMetaVersion body) hv) then Some (-32020)
      else match header r (bs "mcp-method") with
      | None => Some (-32020)
      | Some mm =>
          if negb (bytes_eqb (trimCopy mm) bodyMethod) then Some (-32020)
          else
            let named := if is_in [bs "tools/call"; bs "prompts/get"] bodyMethod then Some (paramsString body (bs "name"))
                         else if bytes_eqb bodyMethod (bs "resources/read") then Some (paramsString body (bs "uri")) else None in
            match named with
            | None => None
            | Some expected =>
                match header r (bs "mcp-name") with
                | None => Some (-32020)
                | Some mn => if bytes_eqb (decodeMcpName mn) expected then None else Some (-32020)
                end
            end
      end
  end.
Definition contextScoped : list (list Z) :=
  [bs "fractal_diversify_enable"; bs "fractal_diversify_disable"; bs "fractal_diversify_set_params"; bs "fractal_feedback_report"; bs "fractal_agent_feedback_audit";
   bs "fractal_isolate_background"; bs "fractal_agent_recommend_diverse"; bs "fractal_search_telemetry"; bs "fractal_vectorizer_create"; bs "fractal_vectorizer_pause";
   bs "fractal_vectorizer_resume"; bs "fractal_vectorizer_process_queue"; bs "fractal_vectorizer_enqueue"; bs "fractal_vectorizer_drop"; bs "fractal_session_close";
   bs "fractal_explain_result"; bs "fractal_detect_collapse"; bs "fractalsql_session_config_set"; bs "fractalsql_session_config_get"; bs "fractalsql_session_config_reset";
   bs "fractalsql_session_config_list"].
Definition isContextScopedTool (n : list Z) : bool := is_in contextScoped n.
Definition context_argument (body : Json) : list Z :=
  match member (bs "params") body with Some p => str_member (bs "context_id") (member (bs "arguments") p) | None => [] end.

(** ** One connection *)

(** What a request comes to: closed without a reply; answered by this file
    with a status; or work on the registry, for the owner of the presented
    token: a session torn down, created or used (with the context the call
    names), a context used or created, or the credential's own connection. *)
Inductive work :=
  | W_delete (sid : list Z) | W_create_session | W_session (sid named : list Z) | W_context (ctx : list Z) | W_create_context | W_credential (name : list Z).
Record dispatch := { d_work : work; d_owner : list Z; d_client : option (list Z); d_allow : option (list (list Z)); d_body : list Z; d_modern : bool }.
Inductive decision := D_close | D_reply (status : Z) | D_dispatch (d : dispatch).
Record HttpConfig := { cfg_path : list Z; cfg_origins : list (list Z) }.

Definition json_object (v : option Json) : option (list (list Z * Json)) := match v with Some (JObj m) => Some m | _ => None end.
Definition modern_dispatch (r : HttpRequest) (raw : list Z) (body : Json) (m : list Z) (cred : Credential) (owner : list Z) : decision :=
  match validateModernRequest r body m with
  | Some _ => D_reply 400
  | None =>
      if negb (isKnownRpcMethod m) then D_reply 404
      else
        let toolName := if bytes_eqb m (bs "tools/call") then paramsString body (bs "name") else [] in
        let w := if negb (bytes_eqb toolName []) && isContextScopedTool toolName then
                   match context_argument body with [] => W_create_context | c => W_context c end
                 else W_credential (cr_name cred) in
        D_dispatch {| d_work := w; d_owner := owner; d_client := Some (cr_name cred); d_allow := cr_allow cred; d_body := raw; d_modern := true |}
  end.
Definition legacy_dispatch (r : HttpRequest) (raw : list Z) (body : Json) (cred : Credential) (owner : list Z) : decision :=
  match sessionId r with
  | [] => D_reply 400
  | sid =>
      D_dispatch {| d_work := W_session sid (context_argument body); d_owner := owner; d_client := Some (clientKeyFor (bearer r) sid); d_allow := cr_allow cred; d_body := raw; d_modern := false |}
  end.
Definition initialize_dispatch (r : HttpRequest) (raw : list Z) (cred : Credential) (owner : list Z) : decision :=
  match sessionId r with
  | [] => D_dispatch {| d_work := W_create_session; d_owner := owner; d_client := None; d_allow := cr_allow cred; d_body := raw; d_modern := false |}
  | _ => D_reply 400
  end.
(** A POST whose body has been read. *)
Definition serve_body (r : HttpRequest) (raw : list Z) (cred : Credential) (owner : list Z) : decision :=
  if jsonNestsTooDeep raw then D_reply 400
  else match (match raw with [] => None | _ => parse raw end) with
  | Some (JObj m) =>
      let body := JObj m in
      let meth := match jfind (bs "method") m with Some (JStr s) => s | _ => [] end in
      let isInitialize := bytes_eqb meth (bs "initialize") in
      let byHeader := match header r (bs "mcp-protocol-version") with Some _ => true | None => false end in
      let isModern := negb isInitialize && (byHeader || negb (bytes_eqb (modernMetaVersion body) [])) in
      if modernEraOnly getenv && negb isModern then D_reply 400
      else if isModern then modern_dispatch r raw body meth cred owner
      else if isInitialize then initialize_dispatch r raw cred owner
      else legacy_dispatch r raw body cred owner
  | _ => D_reply 400
  end.
Definition serve_authenticated (r : HttpRequest) (s : list Z) (cred : Credential) (owner : list Z) : decision :=
  if chunked r then D_reply 411
  else
    let wants := bytes_eqb (method r) (bs "POST") || (0 <? contentLength r) in
    if wants && (kBodyMax <? contentLength r) then D_reply 413
    else match (if wants then readRequestBody r s else Some []) with
    | None => D_close
    | Some raw =>
        if bytes_eqb (method r) (bs "GET") then D_reply 405
        else if bytes_eqb (method r) (bs "DELETE") then
          if (match header r (bs "mcp-protocol-version") with Some _ => true | None => false end) || modernEraOnly getenv then D_reply 405
          else match sessionId r with
               | [] => D_reply 400
               | sid => D_dispatch {| d_work := W_delete sid; d_owner := owner; d_client := None; d_allow := cr_allow cred; d_body := []; d_modern := false |}
               end
        else if negb (bytes_eqb (method r) (bs "POST")) then D_reply 405
        else serve_body r raw cred owner
    end.
(** serveConnection down to the registry. *)
Definition serveConnection (cfg : HttpConfig) (ts : TokenStore) (now : Z) (ready stopping : bool) (s : list Z) : decision :=
  match readRequestHead s with
  | (false, r, _) => if malformed r then D_reply 400 else D_close
  | (true, r, s) =>
      if stopping then D_close
      else if bytes_eqb (path r) (bs "/healthz") then D_reply 200
      else if bytes_eqb (path r) (bs "/readyz") then D_reply (if ready then 200 else 503)
      else if negb (bytes_eqb (path r) (cfg_path cfg)) then D_reply 404
      else if negb (originAllowed (cfg_origins cfg) (trimCopy (default [] (header r (bs "origin"))))) then D_reply 403
      else
        let cred := authenticate ts now r in
        if negb (cr_ok cred) then D_reply 401
        else serve_authenticated r s cred (tokenFingerprint (presented_token r))
  end.
End Transport.

(** ** The registry of clients *)

Inductive kind := K_session | K_context | K_cred.
#[export] Instance kind_eq : EqDecision kind.
Proof. solve_decision. Defined.
#[export] Instance kind_countable : Countable kind.
Proof.
  refine {| encode k := match k with K_session => 1 | K_context => 2 | K_cred => 3 end%positive;
            decode p := match p with 1 => Some K_session | 2 => Some K_context | 3 => Some K_cred | _ => None end%positive |}.
  by intros [].
Defined.
Record Entry := { e_srv : nat; ownerFp : list Z; lastUse : Z }.
(** The three maps as one; the servers built, each with the owner it was
    built for. *)
Record registry := { r_entries : gmap (kind * list Z) Entry; r_built : list (list Z) }.
Definition registry0 : registry := {| r_entries := ∅; r_built := [] |}.
Definition with_entries (m : gmap (kind * list Z) Entry) (r : registry) : registry := {| r_entries := m; r_built := r_built r |}.
(** findSession, findContext and the first look of credentialContext. *)
Definition find_entry (k : kind) (id owner : list Z) (now : Z) (r : registry) : option (nat * registry) :=
  match r_entries r !! (k, id) with
  | Some e => if bytes_eqb (ownerFp e) owner
              then Some (e_srv e, with_entries (<[(k, id) := {| e_srv := e_srv e; ownerFp := ownerFp e; lastUse := now |}]> (r_entries r)) r) else None
  | None => None
  end.
Definition eraseSession (id owner : list Z) (r : registry) : bool * registry :=
  match r_entries r !! (K_session, id) with
  | Some e => if bytes_eqb (ownerFp e) owner then (true, with_entries (delete (K_session, id) (r_entries r)) r) else (false, r)
  | None => (false, r)
  end.
Definition env_count (v : option (list Z)) (d : Z) : Z := let n := match v with Some (_ :: _ as v) => fst (strtol v) | _ => d end in if 0 <? n then n else d.
Definition maxSessions (getenv : list Z -> option (list Z)) : Z := env_count (getenv (bs "FSQL_MCP_MAX_SESSIONS")) 64.
Definition sessionTtl (getenv : list Z -> option (list Z)) : Z := env_count (getenv (bs "FSQL_MCP_SESSION_TTL_SECS")) 3600.
Definition idle_too_long (ttl now : Z) (e : Entry) : bool := ttl <? now - lastUse e.
Definition evictIdle (ttl now : Z) (r : registry) : registry := with_entries (filter (fun kv => idle_too_long ttl now (snd kv) = false) (r_entries r)) r.
Definition sizeLocked (r : registry) : Z := Z.of_nat (size (r_entries r)).
(** [cfg_.sessionFactory()]: a server of its own. *)
Definition build_server (owner : list Z) (r : registry) : nat * registry := (length (r_built r), {| r_entries := r_entries r; r_built := r_built r ++ [owner] |}).
Definition put_entry (k : kind) (id owner : list Z) (srv : nat) (now : Z) (r : registry) : registry :=
  with_entries (<[(k, id) := {| e_srv := srv; ownerFp := owner; lastUse := now |}]> (r_entries r)) r.

(** A context handle, 128 bits in hex: the first RAND_bytes, the second one
    when that fails, and the buffer as it was, zeros, when both do. *)
Definition mintContextId (first second : option (list Z)) : list Z :=
  flat_map hex_of (match first with Some rnd => rnd | None => default (repeat 0 16) second end).
(** A connection's work, each critical section a step: not begun; nothing
    found, to be created; idle entries evicted; room found; the server built;
    a server in hand; answered with a status. *)
Inductive rphase := R_begin | R_create | R_evicted | R_room | R_built (srv : nat) | R_use (srv : nat) | R_status (code : Z).
Record rthread := { rt_owner : list Z; rt_work : work; rt_phase : rphase }.
Definition at_phase (t : rthread) (p : rphase) : rthread := {| rt_owner := rt_owner t; rt_work := rt_work t; rt_phase := p |}.
Definition credKey (owner name : list Z) : list Z := owner ++ bs "|" ++ name.
(** Where the created server goes: a minted handle, or the credential's key. *)
Definition slot_of (t : rthread) (minted : list Z) : kind * list Z :=
  match rt_work t with W_create_session => (K_session, minted) | W_credential n => (K_cred, credKey (rt_owner t) n) | _ => (K_context, minted) end.
Inductive rstep (max ttl : Z) (now : Z) (t : rthread) (r : registry) : rphase -> registry -> Prop :=
  | RS_delete sid : rt_phase t = R_begin -> rt_work t = W_delete sid ->
      rstep max ttl now t r (R_status (if fst (eraseSession sid (rt_owner t) r) then 200 else 404)) (snd (eraseSession sid (rt_owner t) r))
  | RS_session sid named srv r' : rt_phase t = R_begin -> rt_work t = W_session sid named -> find_entry K_session sid (rt_owner t) now r = Some (srv, r') ->
      rstep max ttl now t r (if negb (bytes_eqb named []) && negb (bytes_eqb named sid) then R_status 400 else R_use srv) r'
  | RS_no_session sid named : rt_phase t = R_begin -> rt_work t = W_session sid named -> find_entry K_session sid (rt_owner t) now r = None -> rstep max ttl now t r (R_status 404) r
  | RS_context c srv r' : rt_phase t = R_begin -> rt_work t = W_context c -> find_entry K_context c (rt_owner t) now r = Some (srv, r') -> rstep max ttl now t r (R_use srv) r'
  | RS_no_context c : rt_phase t = R_begin -> rt_work t = W_context c -> find_entry K_context c (rt_owner t) now r = None -> rstep max ttl now t r (R_status 404) r
  | RS_cred n srv r' : rt_phase t = R_begin -> rt_work t = W_credential n -> find_entry K_cred (credKey (rt_owner t) n) (rt_owner t) now r = Some (srv, r') -> rstep max ttl now t r (R_use srv) r'
  | RS_no_cred n : rt_phase t = R_begin -> rt_work t = W_credential n -> find_entry K_cred (credKey (rt_owner t) n) (rt_owner t) now r = None -> rstep max ttl now t r R_create r
  | RS_create : rt_phase t = R_begin -> rt_work t = W_create_session \/ rt_work t = W_create_context -> rstep max ttl now t r R_create r
  | RS_evict : rt_phase t = R_create -> rstep max ttl now t r R_evicted (evictIdle ttl now r)
  | RS_full : rt_phase t = R_evicted -> max <= sizeLocked r -> rstep max ttl now t r (R_status 503) r
  | RS_room : rt_phase t = R_evicted -> sizeLocked r < max -> rstep max ttl now t r R_room r
  | RS_no_server : rt_phase t = R_room -> rstep max ttl now t r (R_status 503) r
  | RS_server : rt_phase t = R_room -> rstep max ttl now t r (R_built (fst (build_server (rt_owner t) r))) (snd (build_server (rt_owner t) r))
  | RS_insert srv first second : rt_phase t = R_built srv -> let slot := slot_of t (mintContextId first second) in
      rstep max ttl now t r (R_use srv) (put_entry (fst slot) (snd slot) (rt_owner t) srv now r).
(** The connections of a process, at times that do not go back; an owner is a
    fingerprint, 32 digits of a digest. *)
Record rworld := { rw_now : Z; rw_reg : registry; rw_threads : list rthread }.
Definition rworld0 : rworld := {| rw_now := 0; rw_reg := registry0; rw_threads := [] |}.
Inductive rwstep (max ttl : Z) (w : rworld) : rworld -> Prop :=
  | RW_arrive owner wk : length owner = 32%nat -> rwstep max ttl w {| rw_now := rw_now w; rw_reg := rw_reg w; rw_threads := rw_threads w ++ [{| rt_owner := owner; rt_work := wk; rt_phase := R_begin |}] |}
  | RW_tick d : 0 <= d -> rwstep max ttl w {| rw_now := rw_now w + d; rw_reg := rw_reg w; rw_threads := rw_threads w |}
  | RW_step i t p r : rw_threads w !! i = Some t -> rstep max ttl (rw_now w) t (rw_reg w) p r ->
      rwstep max ttl w {| rw_now := rw_now w; rw_reg := r; rw_threads := <[i := at_phase t p]> (rw_threads w) |}.
