(* ===== verification/McpHttpProofs.v ===== *)
(** * The MCP server's HTTP transport: proofs

    What a request head may cost, what a request must carry to reach a server,
    and whose server it reaches; and where a check lets through what it was
    written to refuse. *)

From stdpp Require Import gmap relations.
From S2P Require Import Prelude DaemonConf McpConf McpConfProofs McpServer McpHttp.

(** ** The head *)

Lemma read_line_spec cap : forall s hb len buf l hb' rest, read_line cap hb len buf s = (l, hb', rest) -> hb <= kHeadMax ->
  hb + (Z.of_nat (length s) - Z.of_nat (length rest)) <= kHeadMax /\ (length rest <= length s)%nat /\
  (forall x, l = Some x -> hb' = hb + (Z.of_nat (length s) - Z.of_nat (length rest))).
Proof.
  induction s as [|c s IH]; intros hb len buf l hb' rest H Hb; cbn [read_line] in H.
  - destruct (cap <? len); [simplify_eq; split_and!; [lia|lia|done]|]. destruct (kHeadMax <? hb + 1) eqn:E; simplify_eq; (split_and!; [cbn; lia|done|done]).
  - destruct (cap <? len); [simplify_eq; split_and!; [lia|lia|done]|]. destruct (kHeadMax <? hb + 1) eqn:E; [simplify_eq; split_and!; [lia|lia|done]|].
    destruct (c =? 10); [simplify_eq; cbn [length]; split_and!; [lia|lia|intros; lia]|]. apply IH in H as (H1 & H2 & H3); [|lia]. cbn [length].
    split_and!; [lia|lia|]. intros x Hx. rewrite (H3 x Hx). lia.
Qed.
Lemma digits_bound l : forall acc, 0 <= acc -> 0 <= fst (digits_val acc l) < (acc + 1) * 10 ^ Z.of_nat (length l).
Proof.
  induction l as [|c l IH]; intros acc Ha; cbn [digits_val length]; [cbn; lia|].
  replace (Z.of_nat (S (length l))) with (Z.succ (Z.of_nat (length l))) by lia. rewrite Z.pow_succ_r by lia. pose proof (Z.pow_pos_nonneg 10 (Z.of_nat (length l)) ltac:(lia) ltac:(lia)) as Hp.
  destruct (isdigit c) eqn:E; [|cbn [fst]; nia]. unfold isdigit in E. specialize (IH (acc * 10 + (c - 48)) ltac:(lia)). nia.
Qed.
(** The framing that the header lines seen so far leave. *)
Definition framed (sl se : bool) (r : HttpRequest) : Prop :=
  malformed r = false /\ chunked r = se /\ 0 <= contentLength r < 10 ^ 12 /\ (sl = false -> contentLength r = 0).
Lemma header_line_framed h r sl se r' sl' se' : framed sl se r -> header_line h r sl se = (r', sl', se', true) -> framed sl' se' r'.
Proof.
  intros (Hm & Hc & Hl & Hz). unfold header_line. destruct (before_char 58 h) as [n|]; [|by intros [= <- <- <-]].
  set (name := lowerCopy (blank_trim n)). set (v := blank_trim _). clearbody name v.
  destruct (bytes_eqb name (bs "authorization")). { destruct (bearer_of v); intros [= <- <- <-]; done. }
  destruct (bytes_eqb name (bs "mcp-session-id")). { by intros [= <- <- <-]. }
  destruct (bytes_eqb name (bs "content-length")).
  { destruct (sl || _) eqn:E; [done|]. apply orb_false_iff in E as [-> E]. apply negb_false_iff in E. intros [= <- <- <-]. bools.
    pose proof (digits_bound v 0 ltac:(lia)) as Hd. assert (Hp : 10 ^ Z.of_nat (length v) <= 10 ^ 12) by (apply Z.pow_le_mono_r; lia). unfold framed. cbn. split_and!; try done; lia. }
  destruct (bytes_eqb name (bs "transfer-encoding")); [|by intros [= <- <- <-]].
  destruct (se || _) eqn:E; [done|]. intros [= <- <- <-]. unfold framed. cbn. split_and!; try done; lia.
Qed.
Lemma read_headers_spec fuel : forall count hb s r sl se r' rest, hb <= kHeadMax -> framed sl se r -> read_headers fuel count hb s r sl se = (true, r', rest) ->
  hb + (Z.of_nat (length s) - Z.of_nat (length rest)) <= kHeadMax /\ exists sl', framed sl' (chunked r') r' /\ (sl' && chunked r') = false.
Proof.
  induction fuel as [|fuel IH]; intros count hb s r sl se r' rest Hb Hf H; cbn [read_headers] in H.
  - destruct (sl && se) eqn:E; [done|]. simplify_eq. split; [lia|]. exists sl. pose proof Hf as (_ & Ec & _). rewrite Ec. by split.
  - assert (Hfin : forall s2, hb + (Z.of_nat (length s) - Z.of_nat (length s2)) <= kHeadMax ->
      (if sl && se then (false, with_framing (contentLength r) (chunked r) true r, s2) else (negb (bytes_eqb (method r) []), r, s2)) = (true, r', rest) ->
      hb + (Z.of_nat (length s) - Z.of_nat (length rest)) <= kHeadMax /\ exists sl', framed sl' (chunked r') r' /\ (sl' && chunked r') = false).
    { intros s2 H2 Hx. destruct (sl && se) eqn:E; [done|]. simplify_eq. split; [lia|]. exists sl. pose proof Hf as (_ & Ec & _). rewrite Ec. by split. }
    destruct (read_line (64 * 1024) hb 0 [] s) as [[l hb'] s'] eqn:El. destruct (read_line_spec _ _ _ _ _ _ _ _ El Hb) as (H1 & H2 & H3).
    destruct l as [[|c h]|]; [by apply Hfin in H|..]; [|by apply Hfin in H]. destruct (kMaxHeaders <? count + 1); [done|].
    destruct (header_line (c :: h) r sl se) as [[[r1 sl1] se1] []] eqn:Eh; [|done]. specialize (H3 _ eq_refl).
    apply IH in H as [H4 H5]; [|lia|by eapply header_line_framed]. split; [lia|done].
Qed.
Lemma read_headers_fuel fuel : forall fuel' count hb s r sl se, 100 - count < Z.of_nat fuel -> 100 - count < Z.of_nat fuel' -> count <= 100 ->
  read_headers fuel count hb s r sl se = read_headers fuel' count hb s r sl se.
Proof.
  induction fuel as [|fuel IH]; intros [|fuel'] count hb s r sl se H1 H2 Hc; [lia|lia|lia|]. cbn [read_headers].
  destruct (read_line _ _ _ _ _) as [[[[|c h]|] hb'] s']; try done. unfold kMaxHeaders. destruct (100 <? count + 1) eqn:E; [done|].
  destruct (header_line _ _ _ _) as [[[r1 sl1] se1] []]; [|done]. apply IH; lia.
Qed.
(** The head of a request costs at most 64 KiB of reading whatever the
    client sends, and the fuel of the model is never what ends it; a head that
    is taken names one length of at most twelve digits or the chunked coding,
    never both, and nothing else of its framing was refused. *)
Theorem head_bounded s r rest : readRequestHead s = (true, r, rest) ->
  Z.of_nat (length s) - Z.of_nat (length rest) <= kHeadMax /\ malformed r = false /\ 0 <= contentLength r < 10 ^ 12 /\ (chunked r = true -> contentLength r = 0) /\
  forall fuel hb s' r', (101 <= fuel)%nat -> read_headers 102 0 hb s' r' false false = read_headers fuel 0 hb s' r' false false.
Proof.
  unfold readRequestHead. destruct (read_line (16 * 1024) 0 0 [] s) as [[[head|] hb] s1] eqn:El; [|done].
  destruct (read_line_spec _ _ _ _ _ _ _ _ El ltac:(done)) as (H1 & H2 & H3). specialize (H3 _ eq_refl).
  destruct (next_word head) as [m w]. destruct (next_word w) as [t w']. intros H. apply read_headers_spec in H as (H4 & sl & (Hm & Hc & Hl & Hz) & Hsc); [|lia|].
  - split_and!; [lia|done|lia|lia| |]; [intros Ht; apply Hz; rewrite Ht in Hsc; by destruct sl|]. intros fuel hb' s' r' Hf. apply read_headers_fuel; lia.
  - by split_and!.
Qed.

(** ** The credential and the origin *)

Section Http.
Context (getenv : list Z -> option (list Z)) (sha256Hex : list Z -> list Z) (decodeBlock : list Z -> option (list Z)) (parse : list Z -> option Json).
(** The token of the deployment, for every tool; or one whose digest an entry
    names that has not expired, for the entry's tools. *)
Definition vouched (ts : TokenStore) (now : Z) (token : list Z) (allow : option (list (list Z))) : Prop :=
  token <> [] /\
  ((token = ts_token ts /\ allow = None) \/
   exists e, e ∈ ts_policies ts /\ pe_sha256 e = sha256Hex token /\ (pe_expiresAt e = 0 \/ now < pe_expiresAt e) /\
     allow = (if pe_allTools e then None else Some (pe_tools e))).
Lemma check_vouched ts now token : cr_ok (check sha256Hex ts now token) = true -> vouched ts now token (cr_allow (check sha256Hex ts now token)).
Proof.
  unfold check, vouched. destruct token as [|c t]; [done|]. set (token := c :: t). destruct (negb _ && bytes_eqb token (ts_token ts)) eqn:E.
  - intros _. apply andb_true_iff in E as [_ E%bytes_eqb_true]. split; [done|]. by left.
  - destruct (ts_policies ts) as [|p0 ps0] eqn:Ep; [done|]. rewrite <- Ep. clear Ep. set (hex := sha256Hex token).
    set (P := fun (ps : list PolicyEntry) (c : Credential) => cr_ok c = true -> exists e, e ∈ ps /\ pe_sha256 e = hex /\ (pe_expiresAt e = 0 \/ now < pe_expiresAt e) /\ cr_allow c = (if pe_allTools e then None else Some (pe_tools e))).
    assert (H : forall ps dn acc, P dn (snd acc) -> P (dn ++ ps) (snd (fold_left (check_entry now hex) ps acc))).
    { induction ps as [|e ps IH]; intros dn acc Ha; cbn [fold_left]; [by rewrite app_nil_r|].
      replace (dn ++ e :: ps) with ((dn ++ [e]) ++ ps) by (by rewrite <- app_assoc). apply IH. unfold check_entry.
      assert (Hold : P (dn ++ [e]) (snd acc)) by (intros Hk; destruct (Ha Hk) as (e' & Hin & ?); exists e'; split; [by apply elem_of_app; left|done]).
      destruct (bytes_eqb (pe_sha256 e) hex) eqn:Eh; [|done]. apply bytes_eqb_true in Eh. unfold entry_expired.
      destruct (negb (pe_expiresAt e =? 0) && (pe_expiresAt e <=? now)) eqn:Ex; [exact Hold|]. intros _. exists e.
      split; [apply elem_of_app; right; by left|]. split; [done|]. split; [|done]. apply andb_false_iff in Ex. destruct Ex as [Ex|Ex]; [left|right]; [apply negb_false_iff in Ex|]; lia. }
    specialize (H (ts_policies ts) [] (false, no_credential) ltac:(done)). destruct (fold_left _ _ _) as [known cr]. cbn [snd] in H.
    destruct known; [|done]. intros Hk. split; [done|]. right. by apply H.
Qed.
Lemma serve_authenticated_inv r s cred owner d : serve_authenticated getenv decodeBlock parse r s cred owner = D_dispatch d ->
  chunked r = false /\ d_owner d = owner /\ d_allow d = cr_allow cred /\ Z.of_nat (length (d_body d)) <= kBodyMax.
Proof.
  unfold serve_authenticated. destruct (chunked r); [done|]. set (wants := bytes_eqb (method r) (bs "POST") || (0 <? contentLength r)).
  destruct (wants && (kBodyMax <? contentLength r)) eqn:Eb; [done|].
  destruct (if wants then readRequestBody r s else Some []) as [raw|] eqn:Er; [|done].
  assert (Hraw : Z.of_nat (length raw) <= kBodyMax).
  { destruct wants; [|simplify_eq; done]. cbn [andb] in Eb. unfold readRequestBody in Er. destruct (Z.of_nat (length s) <? contentLength r) eqn:El; [done|].
    assert (Et : raw = take (Z.to_nat (contentLength r)) s) by congruence. rewrite Et, length_take. unfold kBodyMax in *. lia. }
  assert (Hall : forall w cl b m, D_dispatch {| d_work := w; d_owner := owner; d_client := cl; d_allow := cr_allow cred; d_body := b; d_modern := m |} = D_dispatch d -> Z.of_nat (length b) <= kBodyMax ->
    false = false /\ d_owner d = owner /\ d_allow d = cr_allow cred /\ Z.of_nat (length (d_body d)) <= kBodyMax).
  { intros w cl b m H Hb. inversion H; subst d. cbn. by split_and!. }
  destruct (bytes_eqb (method r) (bs "GET")); [done|]. destruct (bytes_eqb (method r) (bs "DELETE")).
  { destruct ((match header r (bs "mcp-protocol-version") with Some _ => true | None => false end) || modernEraOnly getenv); [done|].
    destruct (sessionId r); [done|]. intros H. by apply (Hall _ _ _ _ H). }
  destruct (bytes_eqb (method r) (bs "POST")); [|done]. cbn [negb]. unfold serve_body. destruct (jsonNestsTooDeep raw); [done|].
  destruct (match raw with [] => None | _ => parse raw end) as [[| | | | | |m]|]; try done.
  destruct (modernEraOnly getenv && _); [done|]. destruct (_ && (_ || _)).
  - unfold modern_dispatch. destruct (validateModernRequest _ _ _ _); [done|]. destruct (isKnownRpcMethod _); [|done]. intros H. exact (Hall _ _ _ _ H Hraw).
  - destruct (bytes_eqb _ (bs "initialize")).
    + unfold initialize_dispatch. destruct (sessionId r); [|done]. intros H. exact (Hall _ _ _ _ H Hraw).
    + unfold legacy_dispatch. destruct (sessionId r); [done|]. intros H. exact (Hall _ _ _ _ H Hraw).
Qed.
(** C32: What reaches a server, whatever the bytes of the connection: a request
    for the server's path, from an origin that is allowed, with a bearer token
    of the deployment or of an unexpired entry of the policy, under the owner
    that is the token's fingerprint and with that entry's tools; a body of its
    stated length, at most 32 MiB, and not a chunked one. *)
Theorem requests_vouched cfg ts now ready stopping s d : serveConnection getenv sha256Hex decodeBlock parse cfg ts now ready stopping s = D_dispatch d ->
  exists r rest token, readRequestHead s = (true, r, rest) /\ path r = cfg_path cfg /\ stopping = false /\ chunked r = false /\
    originAllowed (cfg_origins cfg) (trimCopy (default [] (header r (bs "origin")))) = true /\
    token = presented_token r /\ vouched ts now token (d_allow d) /\ d_owner d = tokenFingerprint sha256Hex token /\
    Z.of_nat (length (d_body d)) <= kBodyMax.
Proof.
  unfold serveConnection. destruct (readRequestHead s) as [[[] r] rest] eqn:Eh; [|by destruct (malformed r)]. destruct stopping; [done|].
  destruct (bytes_eqb (path r) (bs "/healthz")); [done|]. destruct (bytes_eqb (path r) (bs "/readyz")); [done|].
  destruct (bytes_eqb (path r) (cfg_path cfg)) eqn:Ep; [|done]. apply bytes_eqb_true in Ep. destruct (originAllowed _ _) eqn:Eo; [|done].
  destruct (cr_ok (authenticate sha256Hex ts now r)) eqn:Ec; [|done]. cbn [negb]. intros Hd.
  assert (Hv : vouched ts now (presented_token r) (cr_allow (authenticate sha256Hex ts now r))).
  { unfold authenticate in *. destruct (presented_token r) as [|c t] eqn:Et; [done|]. by apply check_vouched. }
  destruct (serve_authenticated_inv _ _ _ _ _ Hd) as (Hch & Ho & Ha & Hb). exists r, rest, (presented_token r). rewrite Ha. by split_and!.
Qed.
End Http.

(** ** The registry *)

Definition entry_ok' (r : registry) (key : kind * list Z) (e : Entry) : Prop :=
  r_built r !! e_srv e = Some (ownerFp e) /\ length (ownerFp e) = 32%nat /\ (fst key = K_cred -> exists name, snd key = credKey (ownerFp e) name).
Definition entries_ok (r : registry) : Prop := forall key e, r_entries r !! key = Some e -> entry_ok' r key e.
Definition thread_ok (r : registry) (t : rthread) : Prop :=
  length (rt_owner t) = 32%nat /\ match rt_phase t with R_built srv | R_use srv => r_built r !! srv = Some (rt_owner t) | _ => True end.
Definition reg_inv (w : rworld) : Prop := entries_ok (rw_reg w) /\ Forall (thread_ok (rw_reg w)) (rw_threads w).
(** A registry whose servers are those of [r] and maybe more. *)
Definition grows (r r' : registry) : Prop := exists more, r_built r' = r_built r ++ more.
Lemma grows_refl r : grows r r.
Proof. exists []. by rewrite app_nil_r. Qed.
Lemma grows_lookup r r' srv o : grows r r' -> r_built r !! srv = Some o -> r_built r' !! srv = Some o.
Proof. intros [more ->] H. by apply lookup_app_l_Some. Qed.
Lemma thread_grows r r' t : grows r r' -> thread_ok r t -> thread_ok r' t.
Proof. intros Hg [Hl Hp]. split; [done|]. destruct (rt_phase t); try done; by eapply grows_lookup. Qed.
Lemma find_entry_spec k id owner now r srv r' : find_entry k id owner now r = Some (srv, r') ->
  exists e, r_entries r !! (k, id) = Some e /\ ownerFp e = owner /\ srv = e_srv e /\
    r' = with_entries (<[(k, id) := {| e_srv := e_srv e; ownerFp := ownerFp e; lastUse := now |}]> (r_entries r)) r.
Proof.
  unfold find_entry. destruct (r_entries r !! (k, id)) as [e|]; [|done]. destruct (bytes_eqb (ownerFp e) owner) eqn:E; [|done]. apply bytes_eqb_true in E.
  intros [= <- <-]. by exists e.
Qed.
Lemma touch_ok k id now r e : entries_ok r -> r_entries r !! (k, id) = Some e ->
  entries_ok (with_entries (<[(k, id) := {| e_srv := e_srv e; ownerFp := ownerFp e; lastUse := now |}]> (r_entries r)) r).
Proof.
  intros Hr He key e' H. cbn [r_entries with_entries] in H. apply lookup_insert_Some in H as [[<- <-]|[_ H]]; [|by apply Hr]. exact (Hr _ _ He).
Qed.
Lemma rstep_ok max ttl now t r p r' : entries_ok r -> thread_ok r t -> rstep max ttl now t r p r' -> entries_ok r' /\ grows r r' /\ thread_ok r' (at_phase t p).
Proof.
  intros Hr [Hl Hp] H. unfold thread_ok. cbn [rt_owner rt_phase at_phase]. destruct H as [sid H0 Hw|sid named srv r' H0 Hw Hf|sid named H0 Hw Hf|c srv r' H0 Hw Hf|c H0 Hw Hf|n srv r' H0 Hw Hf|n H0 Hw Hf|H0 Hw|H0|H0 Hs|H0 Hs|H0|H0|srv rnd1 rnd2 H0 slot];
    try (split; [done|]; split; [apply grows_refl|done]).
  - unfold eraseSession. destruct (r_entries r !! (K_session, sid)) as [e|]; [|split; [done|]; split; [apply grows_refl|done]].
    destruct (bytes_eqb (ownerFp e) (rt_owner t)); (split; [|split; [exists []; by rewrite app_nil_r|done]]); [|done].
    intros key e' Hk. cbn [snd r_entries with_entries] in Hk. apply lookup_delete_Some in Hk as [_ Hk]. by apply Hr.
  - apply find_entry_spec in Hf as (e & He & Ho & -> & ->). split; [by apply touch_ok|]. split; [exists []; by rewrite app_nil_r|]. split; [done|].
    destruct (negb _ && _); [done|]. rewrite <- Ho. by apply (Hr _ _ He).
  - apply find_entry_spec in Hf as (e & He & Ho & -> & ->). split; [by apply touch_ok|]. split; [exists []; by rewrite app_nil_r|]. split; [done|].
    rewrite <- Ho. by apply (Hr _ _ He).
  - apply find_entry_spec in Hf as (e & He & Ho & -> & ->). split; [by apply touch_ok|]. split; [exists []; by rewrite app_nil_r|]. split; [done|].
    rewrite <- Ho. by apply (Hr _ _ He).
  - split; [|split; [exists []; by rewrite app_nil_r|done]]. intros key e Hk. cbn [r_entries evictIdle with_entries] in Hk. apply map_lookup_filter_Some in Hk as [Hk _]. by apply Hr.
  - cbn [fst snd build_server]. split; [|split; [by eexists|]].
    + intros key e Hk. destruct (Hr key e Hk) as (H1 & H2). split; [|done]. cbn. by apply lookup_app_l_Some.
    + split; [done|]. cbn. rewrite lookup_app_r, Nat.sub_diag by lia. done.
  - rewrite H0 in Hp. split; [|split; [exists []; by rewrite app_nil_r|done]]. intros key e Hk. cbn [r_entries put_entry with_entries] in Hk.
    apply lookup_insert_Some in Hk as [[Ek <-]|[_ Hk]]; [|by apply Hr]. split_and!; [done|done|]. rewrite <- Ek. cbn [fst snd]. unfold slot, slot_of. destruct (rt_work t); try done.
    intros _. by eexists.
Qed.
Lemma rwstep_inv max ttl w w' : reg_inv w -> rwstep max ttl w w' -> reg_inv w'.
Proof.
  intros [Hr Ht] H. destruct H as [owner wk Ho|d Hd|i t p r Hi Hs]; unfold reg_inv; cbn [rw_reg rw_threads].
  - split; [done|]. apply Forall_app. split; [done|]. constructor; [|done]. by split.
  - done.
  - assert (Hti : thread_ok (rw_reg w) t) by (eapply Forall_lookup_1; [exact Ht|exact Hi]). destruct (rstep_ok _ _ _ _ _ _ _ Hr Hti Hs) as (H1 & H2 & H3).
    split; [done|]. apply Forall_insert; [|done]. eapply Forall_impl; [exact Ht|]. intros t'. by apply thread_grows.
Qed.
Lemma reg_reachable max ttl w : rtc (rwstep max ttl) rworld0 w -> reg_inv w.
Proof.
  intros H. assert (H0 : reg_inv rworld0) by (split; [intros key e He; unfold rworld0, registry0 in He; cbn [rw_reg r_entries] in He; by rewrite lookup_empty in He|constructor]). revert H0.
  induction H as [|w0 w1 w2 H _ IH]; [done|]. intros Hi. apply IH. by eapply rwstep_inv.
Qed.
Lemma app_sep {A} (x : A) a1 b1 a2 b2 : length a1 = length a2 -> a1 ++ x :: b1 = a2 ++ x :: b2 -> a1 = a2.
Proof. intros Hl H. by apply app_inj_1 in H as [? _]. Qed.
(** What a step leaves of an entry of another owner. *)
Definition kept (r' : registry) (key : kind * list Z) (e : Entry) : Prop := exists e', r_entries r' !! key = Some e' /\ e_srv e' = e_srv e /\ ownerFp e' = ownerFp e.
Lemma touch_kept k id now r e0 key e : r_entries r !! (k, id) = Some e0 -> r_entries r !! key = Some e ->
  kept (with_entries (<[(k, id) := {| e_srv := e_srv e0; ownerFp := ownerFp e0; lastUse := now |}]> (r_entries r)) r) key e.
Proof.
  intros H0 H. unfold kept. cbn [r_entries with_entries]. destruct (decide ((k, id) = key)) as [<-|Hne].
  - rewrite lookup_insert_eq. eexists. split; [done|]. rewrite H0 in H. by simplify_eq.
  - rewrite lookup_insert_ne by done. by exists e.
Qed.
(** A connection that creates puts its entry under a minted handle that an
    entry had: the entry is now its own. *)
Definition overwritten (now : Z) (t : rthread) (p : rphase) (r' : registry) (key : kind * list Z) : Prop :=
  exists srv first second, rt_phase t = R_built srv /\ p = R_use srv /\ fst key <> K_cred /\ key = slot_of t (mintContextId first second) /\
    r_entries r' !! key = Some {| e_srv := srv; ownerFp := rt_owner t; lastUse := now |}.
Lemma rstep_kept max ttl now t r p r' key e : entries_ok r -> thread_ok r t -> rstep max ttl now t r p r' -> r_entries r !! key = Some e -> rt_owner t <> ownerFp e ->
  kept r' key e \/ idle_too_long ttl now e = true \/ overwritten now t p r' key.
Proof.
  intros Hr [Hl _] H He Hne. assert (Hsame : kept r key e) by by exists e.
  destruct H as [sid H0 Hw|sid named srv r' H0 Hw Hf|sid named H0 Hw Hf|c srv r' H0 Hw Hf|c H0 Hw Hf|n srv r' H0 Hw Hf|n H0 Hw Hf|H0 Hw|H0|H0 Hs|H0 Hs|H0|H0|srv rnd1 rnd2 H0 slot]; try (by left).
  - left. unfold eraseSession. destruct (r_entries r !! (K_session, sid)) as [e0|] eqn:E; [|done]. destruct (bytes_eqb (ownerFp e0) (rt_owner t)) eqn:Eo; [|done].
    apply bytes_eqb_true in Eo. exists e. split; [|done]. cbn [snd r_entries with_entries]. rewrite lookup_delete_ne; [done|]. intros <-. rewrite E in He. by simplify_eq.
  - left. apply find_entry_spec in Hf as (e0 & H1 & _ & _ & ->). by apply touch_kept.
  - left. apply find_entry_spec in Hf as (e0 & H1 & _ & _ & ->). by apply touch_kept.
  - left. apply find_entry_spec in Hf as (e0 & H1 & _ & _ & ->). by apply touch_kept.
  - destruct (idle_too_long ttl now e) eqn:Ei; [by right; left|left]. exists e. split; [|done]. cbn [r_entries evictIdle with_entries]. by apply map_lookup_filter_Some.
  - destruct (decide (slot = key)) as [Ek|Hk].
    + right; right. exists srv, rnd1, rnd2. split_and!; [done|done| |done|cbn [r_entries put_entry with_entries]; by rewrite <- surjective_pairing, Ek, lookup_insert_eq].
      intros Hc. destruct (Hr _ _ He) as (_ & Hlen & Hn). destruct (Hn Hc) as [name' En]. rewrite <- Ek in En, Hc. unfold slot, slot_of in En, Hc.
      destruct (rt_work t) as [| | | | |name]; try done. cbn [snd] in En. unfold credKey in En. cbn [app bs] in En.
      apply Hne. eapply (app_sep 124); [by rewrite Hlen|exact En].
    + left. exists e. split; [|done]. cbn [r_entries put_entry with_entries]. by rewrite <- surjective_pairing, lookup_insert_ne.
Qed.
(** C37: Clients are kept apart: in every interleaving of connections, the
    server a connection comes to use was built for the owner of the token it
    presented; and an entry of the registry is changed, other than by the
    steps of its own owner's connections, only by expiring or by a collision of
    handles: any other step leaves it with its server and its owner.  A
    collision ([overwritten]) is a session or context created under a handle
    that its mintContextId, 128 random bits unless RAND_bytes fails twice, gave
    an entry before: the entry becomes the new client's, with the new client's
    server; a credential's entry is never overwritten by another's. *)
Theorem clients_isolated max ttl w : rtc (rwstep max ttl) rworld0 w ->
  (forall i t srv, rw_threads w !! i = Some t -> rt_phase t = R_use srv -> r_built (rw_reg w) !! srv = Some (rt_owner t)) /\
  (forall w' key e, rwstep max ttl w w' -> r_entries (rw_reg w) !! key = Some e ->
     kept (rw_reg w') key e \/ idle_too_long ttl (rw_now w) e = true \/
     exists i t p, rw_threads w !! i = Some t /\ rw_threads w' = <[i := at_phase t p]> (rw_threads w) /\
       (rt_owner t = ownerFp e \/ overwritten (rw_now w) t p (rw_reg w') key)).
Proof.
  intros [Hr Ht]%reg_reachable. split.
  - intros i t srv Hi Hp. eapply Forall_lookup_1 in Ht as [_ Ht]; [|exact Hi]. by rewrite Hp in Ht.
  - intros w' key e Hst He. destruct Hst as [owner wk Ho|d Hd|i t p r Hi Hs]; [left; by exists e..|]. cbn [rw_reg rw_threads].
    destruct (decide (rt_owner t = ownerFp e)) as [Ho|Ho]; [right; right; exists i, t, p; auto|].
    eapply Forall_lookup_1 in Ht; [|exact Hi]. destruct (rstep_kept _ _ _ _ _ _ _ _ _ Hr Ht Hs He Ho) as [|[|]]; auto.
    right; right. exists i, t, p. auto.
Qed.

(** ** Runs *)

(** A step of a connection that creates a session or a context, with what
    RAND_bytes gives it. *)
Definition create_step (max ttl now : Z) (t : rthread) (r : registry) (rnd : option (list Z)) : option (rphase * registry) :=
  match rt_phase t, rt_work t with
  | R_begin, (W_create_session | W_create_context) => Some (R_create, r)
  | R_create, _ => Some (R_evicted, evictIdle ttl now r)
  | R_evicted, _ => Some (if max <=? sizeLocked r then R_status 503 else R_room, r)
  | R_room, _ => Some (R_built (fst (build_server (rt_owner t) r)), snd (build_server (rt_owner t) r))
  | R_built srv, _ => let slot := slot_of t (mintContextId rnd None) in Some (R_use srv, put_entry (fst slot) (snd slot) (rt_owner t) srv now r)
  | _, _ => None
  end.
Lemma create_step_sound max ttl now t r rnd p r' : create_step max ttl now t r rnd = Some (p, r') -> rstep max ttl now t r p r'.
Proof.
  unfold create_step. destruct (rt_phase t) eqn:Ep.
  - destruct (rt_work t) eqn:Ew; try done; intros [= <- <-]; apply RS_create; auto.
  - intros [= <- <-]. by apply RS_evict.
  - intros [= <- <-]. destruct (max <=? sizeLocked r) eqn:E; [apply RS_full|apply RS_room]; lia || done.
  - intros H. inversion H; subst. by apply RS_server.
  - intros [= <- <-]. by apply (RS_insert _ _ _ _ _ srv rnd None).
  - done.
  - done.
Qed.
Definition rgo (max ttl : Z) (w : rworld) (a : nat * option (list Z)) : rworld :=
  match rw_threads w !! fst a with
  | Some t => match create_step max ttl (rw_now w) t (rw_reg w) (snd a) with
              | Some (p, r) => {| rw_now := rw_now w; rw_reg := r; rw_threads := <[fst a := at_phase t p]> (rw_threads w) |}
              | None => w
              end
  | None => w
  end.
Lemma rgo_sound max ttl sched : forall w, rtc (rwstep max ttl) w (fold_left (rgo max ttl) sched w).
Proof.
  induction sched as [|[i rnd] sched IH]; intros w; cbn [fold_left]; [done|]. etrans; [|apply IH]. unfold rgo. cbn [fst snd].
  destruct (rw_threads w !! i) as [t|] eqn:Et; [|done]. destruct (create_step _ _ _ _ _ _) as [[p r]|] eqn:Es; [|done].
  apply rtc_once. eapply RW_step; [exact Et|by eapply create_step_sound].
Qed.
Definition demo_owner : list Z := repeat 97 32.
(** Two clients, each about to create a session. *)
Definition demo_clients : rworld :=
  {| rw_now := 0; rw_reg := registry0; rw_threads := [{| rt_owner := demo_owner; rt_work := W_create_session; rt_phase := R_begin |}; {| rt_owner := repeat 98 32; rt_work := W_create_session; rt_phase := R_begin |}] |}.
Lemma demo_clients_reachable max ttl : rtc (rwstep max ttl) rworld0 demo_clients.
Proof. eapply rtc_l; [by apply (RW_arrive max ttl rworld0 demo_owner W_create_session)|]. apply rtc_once. by apply (RW_arrive max ttl {| rw_now := 0; rw_reg := registry0; rw_threads := [_] |}). Qed.
Definition draw (b : Z) : option (list Z) := Some (repeat b 16).
Definition demo_served (max : Z) (sched : list (nat * option (list Z))) : rworld := fold_left (rgo max 3600) sched demo_clients.
Lemma demo_served_reachable max sched : rtc (rwstep max 3600) rworld0 (demo_served max sched).
Proof. etrans; [apply demo_clients_reachable|apply rgo_sound]. Qed.
Definition demo_first : rworld := demo_served 1 (repeat (0%nat, draw 1) 5).
Lemma clients_isolated_witness : rt_phase (at_phase {| rt_owner := demo_owner; rt_work := W_create_session; rt_phase := R_begin |} (R_use 0)) = R_use 0 /\
  r_built (rw_reg demo_first) !! 0%nat = Some demo_owner.
Proof.
  split; [reflexivity|].
  refine (proj1 (clients_isolated 1 3600 demo_first (demo_served_reachable _ _)) 0%nat {| rt_owner := demo_owner; rt_work := W_create_session; rt_phase := R_use 0 |} 0%nat _ eq_refl).
  vm_compute. reflexivity.
Defined.
(** The room is looked for and taken in different critical sections: with a
    limit of one session, two clients at once have two. *)
Theorem sessions_over_limit : exists w, rtc (rwstep 1 3600) rworld0 w /\ sizeLocked (rw_reg w) = 2 /\ map rt_phase (rw_threads w) = [R_use 0; R_use 1].
Proof.
  exists (demo_served 1 (repeat (0%nat, draw 1) 3 ++ repeat (1%nat, draw 2) 3 ++ repeat (0%nat, draw 1) 2 ++ repeat (1%nat, draw 2) 2)).
  split; [apply demo_served_reachable|]. split; vm_compute; reflexivity.
Qed.
(** Without randomness every handle is 32 zeros, and no one looks whether an
    entry has it: the second client's session takes the first one's place. *)
Theorem zero_handle_replaces : exists w w', rtc (rwstep 64 3600) rworld0 w /\ rtc (rwstep 64 3600) w w' /\ let key := (K_session, repeat 48 32) in
  option_map ownerFp (r_entries (rw_reg w) !! key) = Some demo_owner /\ option_map ownerFp (r_entries (rw_reg w') !! key) = Some (repeat 98 32) /\
  sizeLocked (rw_reg w') = 1 /\ map rt_phase (rw_threads w') = [R_use 0; R_use 1].
Proof.
  exists (demo_served 64 (repeat (0%nat, None) 5)), (fold_left (rgo 64 3600) (repeat (1%nat, None) 5) (demo_served 64 (repeat (0%nat, None) 5))).
  split; [apply demo_served_reachable|]. split; [apply rgo_sound|]. split_and!; vm_compute; reflexivity.
Qed.

Definition demo_hex (t : list Z) : list Z := take 64 (t ++ repeat 48 64).
Definition demo_body (l : list Z) : option Json := Some (jobj [(bs "method", JStr (bs "initialize"))]).
Definition demo_store : TokenStore := {| ts_token := bs "tok"; ts_policies := [] |}.
Definition demo_http : HttpConfig := {| cfg_path := bs "/mcp"; cfg_origins := [] |}.
Definition demo_serve := serveConnection (fun _ => None) demo_hex (fun _ => None) demo_body demo_http demo_store 0 true false.
Definition demo_post : list Z := bs "POST /mcp HTTP/1.1
Authorization: bearer tok
Content-Length: 2

{}".
Definition is_dispatch (d : decision) : bool := match d with D_dispatch _ => true | _ => false end.
Definition dispatched (d : decision) : dispatch :=
  match d with D_dispatch d => d | _ => {| d_work := W_create_session; d_owner := []; d_client := None; d_allow := None; d_body := []; d_modern := false |} end.
Lemma requests_vouched_witness : vouched demo_hex demo_store 0 (bs "tok") (d_allow (dispatched (demo_serve demo_post))).
Proof.
  assert (E : demo_serve demo_post = D_dispatch (dispatched (demo_serve demo_post))) by (vm_compute; reflexivity).
  destruct (requests_vouched (fun _ => None) demo_hex (fun _ => None) demo_body demo_http demo_store 0 true false demo_post (dispatched (demo_serve demo_post)) E)
    as (r & rest & token & Hh & _ & _ & _ & _ & Ht & Hv & _ & _).
  assert (Et : token = bs "tok").
  { rewrite Ht. assert (Er : option_map presented_token (match readRequestHead demo_post with (true, r, _) => Some r | _ => None end) = Some (bs "tok")) by (vm_compute; reflexivity).
    rewrite Hh in Er. cbn [option_map] in Er. congruence. }
  rewrite <- Et. exact Hv.
Defined.
Definition demo_head : bool * HttpRequest * list Z := readRequestHead demo_post.
Lemma head_bounded_witness : fst (fst demo_head) = true /\ Z.of_nat (length demo_post) - Z.of_nat (length (snd demo_head)) <= kHeadMax.
Proof.
  assert (E : readRequestHead demo_post = (true, snd (fst demo_head), snd demo_head)) by (vm_compute; reflexivity).
  split; [vm_compute; reflexivity|]. exact (proj1 (head_bounded demo_post (snd (fst demo_head)) (snd demo_head) E)).
Defined.

(** ** Where a check lets a request through *)

(** A host that only begins like a loopback address passes for one. *)
Theorem origin_prefix_accepted : is_dispatch (demo_serve (bs "POST /mcp HTTP/1.1
Authorization: Bearer tok
Origin: http://127.0.0.1.evil.example
Content-Length: 2

{}")) = true.
Proof. vm_compute. reflexivity. Qed.
(** The names of repeated headers are kept and never looked at: of two origins
    the last one decides. *)
Theorem repeated_origin_accepted : is_dispatch (demo_serve (bs "POST /mcp HTTP/1.1
Authorization: Bearer tok
Origin: http://evil.example
Origin: http://localhost
Content-Length: 2

{}")) = true /\ demo_serve (bs "POST /mcp HTTP/1.1
Authorization: Bearer tok
Origin: http://evil.example
Content-Length: 2

{}") = D_reply 403.
Proof. vm_compute. split; reflexivity. Qed.
(** A head that breaks the bound of 64 KiB is not refused: the headers end
    there, those that would follow (an origin, here) are not looked at, and
    what follows is taken for the body. *)
Theorem long_head_accepted : is_dispatch (demo_serve (bs "POST /mcp HTTP/1.1
Authorization: Bearer tok
Content-Length: 2
X: " ++ repeat 97 (Z.to_nat 65600) ++ bs "
Origin: http://evil.example

{}")) = true.
Proof. vm_compute. reflexivity. Qed.
