(* ===== verification/McpPack.v ===== *)
(** * What a tool hands to a statement, and what it hands back
    (mcp/src/adapters/helpers.h, vectors.cpp, tool_param_helpers.h)

    A tool's arrays are packed into the text the engine's parsers read; its
    row limit bounds what is returned.  The JSON printer (vendored) is a
    parameter; a number of a JSON value is the double it is read as. *)

From Stdlib Require Import SpecFloat.
From S2P Require Import Prelude Float Ctl McpConf McpServer.

(** ** vectors.cpp *)

(** [get<double>()] of a number. *)
Definition number_value (v : Json) : option double :=
  match v with JInt z => Some (of_int z) | JFloat b => Some (bits_double b) | _ => None end.

Section Pack.
Context (underflow : list Z -> bool).               (* whether strtod reports an underflow of this text *)
Context (dump : Json -> list Z).                    (* nlohmann::json::dump *)

(** A text that is wholly one finite number becomes that number. *)
Definition coerceNumber (element : Json) : Json :=
  match element with
  | JStr s =>
      match strtod underflow (cstr s) with
      | Some (v, [], false) => if isfinite v then JFloat (double_bits v) else element
      | _ => element
      end
  | _ => element
  end.
Definition acceptable (element : Json) : bool :=
  match number_value (coerceNumber element) with Some d => isfinite d | None => false end.

(** ** Argument grammars *)

(** The loop over the elements: the text, whether it is still empty, and how
    many elements were refused. *)
Definition pack_element (s : list Z * bool * nat) (rawElem : Json) : list Z * bool * nat :=
  let '(out, first, bad) := s in
  if negb (acceptable rawElem) then (out, first, S bad)
  else (out ++ (if first then [] else bs ",") ++ dump (coerceNumber rawElem), false, bad).
Definition packVector (v : Json) : ErrorClass + list Z :=
  match v with
  | JArr [] => inl Schema
  | JArr l =>
      let '(out, _, bad) := fold_left pack_element l (bs "[", true, 0%nat) in
      if negb (bad =? 0)%nat then inl Schema else inr (out ++ bs "]")
  | _ => inl Schema
  end.
Fixpoint pack_rows (rows : list Json) (out : list Z) (first : bool) : ErrorClass + list Z :=
  match rows with
  | [] => inr out
  | JArr row :: rows =>
      match packVector (JArr row) with
      | inl e => inl e
      | inr t => pack_rows rows (out ++ (if first then [] else bs ",") ++ t) false
      end
  | _ :: _ => inl Schema
  end.
Definition packMatrix (m : Json) : ErrorClass + list Z :=
  match m with
  | JArr rows => match pack_rows rows (bs "[") true with inl e => inl e | inr out => inr (out ++ bs "]") end
  | _ => inl Schema
  end.
Fixpoint flatten_rows (rows : list Json) (flat : list Json) : ErrorClass + list Json :=
  match rows with
  | [] => inr flat
  | JArr row :: rows => flatten_rows rows (flat ++ map coerceNumber row)
  | _ :: _ => inl Schema
  end.
Definition flattenMatrix (m : Json) : ErrorClass + list Z :=
  match m with
  | JArr rows => match flatten_rows rows [] with inl e => inl e | inr flat => packVector (JArr flat) end
  | _ => inl Schema
  end.
Definition packParams (p : Json) : list Z := dump (match p with JObj _ => p | _ => JObj [] end).
Definition dumpParamsNo (p : Json) (drop : list (list Z)) : list Z :=
  dump (JObj (fold_left (fun m k => jerase k m) drop (match p with JObj m => m | _ => [] end))).
Definition is_int (v : Json) : bool := match v with JInt _ => true | _ => false end.
Definition is_str (v : Json) : bool := match v with JStr _ => true | _ => false end.
Definition intArrayToJsonText (value : Json) : ErrorClass + list Z :=
  match value with JArr l => if forallb is_int l then inr (dump (JArr l)) else inl Schema | _ => inl Schema end.
Definition stringArrayToJsonText (value : Json) : ErrorClass + list Z :=
  match value with JArr l => if forallb is_str l then inr (dump value) else inl Schema | _ => inl Schema end.

(** ** The row limit *)

Context (maxRowsCeiling : Z).                       (* FSQL_MCP_MAX_ROWS_CEILING *)

(** [args] is the members of the arguments; [get<int>()] keeps 32 bits. *)
Definition effectiveLimit (args : list (list Z * Json)) : ErrorClass + Z :=
  match jfind (bs "limit") args with
  | None | Some JNull => inr (Z.min 100 maxRowsCeiling)
  | Some (JInt z) => inr (Z.min (Z.max 1 (s32 z)) maxRowsCeiling)
  | Some _ => inl Schema
  end.
Definition limitKCheck (args : list (list Z * Json)) : bool :=
  match jfind (bs "k") args with Some (JInt z) => s32 z <=? maxRowsCeiling | _ => true end.
(** The neighbours a search is asked for. *)
Definition kOf (args : list (list Z * Json)) : ErrorClass + Z :=
  if negb (limitKCheck args) then inl Schema
  else match effectiveLimit args with
       | inl e => inl e
       | inr limit => inr (Z.min (match jfind (bs "k") args with Some (JInt z) => s32 z | _ => 5 end) limit)
       end.

Definition kTruncateFields : list (list Z) := [bs "top_k"; bs "population"; bs "candidates"; bs "cohort_matches"; bs "rows"].
Definition truncated_note : list Z :=
  bs "result truncated at the MCP row ceiling; re-call with search-level filtering (smaller k / a cohort restriction) rather than just a higher limit".
Definition json_size (l : list Json) : Z := s32 (Z.of_nat (length l)).
Fixpoint truncate_fields (fields : list (list Z)) (limit : Z) (m : list (list Z * Json)) : list (list Z * Json) :=
  match fields with
  | [] => m
  | field :: fields =>
      match jfind field m with
      | Some (JArr l) =>
          if limit <? json_size l then
            jput (bs "total_scanned") (JInt (json_size l)) (jput (bs "truncated") (JBool true) (jput field (JArr (take (Z.to_nat limit) l)) m))
          else truncate_fields fields limit m
      | _ => truncate_fields fields limit m
      end
  end.
Definition truncateResult (result : Json) (limit : Z) : Json :=
  match result with
  | JArr l =>
      if limit <? json_size l then
        jobj [(bs "rows", JArr (take (Z.to_nat limit) l)); (bs "truncated", JBool true); (bs "total_scanned", JInt (json_size l)); (bs "_note", JStr truncated_note)]
      else result
  | JObj m => JObj (truncate_fields kTruncateFields limit m)
  | _ => result
  end.
Definition resultIsNull (result : Json) : bool :=
  match result with
  | JNull => true
  | JObj [(k, JNull)] => bytes_eqb k (bs "value") || bytes_eqb k (bs "result")
  | _ => false
  end.
End Pack.
