(* ===== verification/McpPackProofs.v ===== *)
(** * What a tool hands to a statement: proofs

    The packed_text arrays are read back by the engine's parsers, number for
    number; what is returned is within the row limit; and where the limit and
    the lenient conversion do not hold. *)

From Stdlib Require Import SpecFloat.
From S2P Require Import Prelude Float FloatValid Parse ParseProofs Ctl McpConf McpServer McpPack.

Section Pack.
Context (underflow : list Z -> bool) (dump : Json -> list Z).
Abbreviation coerce := (coerceNumber underflow) (only parsing).

(** The number an element stands for, if it stands for one. *)
Definition number_of (x : Json) : option double := d ← number_value (coerce x); if isfinite d then Some d else None.
Lemma acceptable_number x : acceptable underflow x = bool_decide (is_Some (number_of x)).
Proof.
  unfold acceptable, number_of. destruct (number_value (coerce x)) as [d|]; cbn [mbind option_bind]; [|by rewrite bool_decide_false by (by intros [])].
  destruct (isfinite d); [by rewrite bool_decide_true|by rewrite bool_decide_false by (by intros [])].
Qed.

(** The text of the elements, between commas. *)
Fixpoint packed_text (first : bool) (l : list Json) : list Z :=
  match l with
  | [] => []
  | x :: l => if acceptable underflow x then (if first then [] else bs ",") ++ dump (coerce x) ++ packed_text false l else packed_text first l
  end.
Lemma pack_loop l : forall out first bad, exists f', fold_left (pack_element underflow dump) l (out, first, bad) =
  (out ++ packed_text first l, f', (bad + length (List.filter (fun x => negb (acceptable underflow x)) l))%nat).
Proof.
  induction l as [|x l IH]; intros out first bad; cbn [fold_left packed_text List.filter]; [exists first; by rewrite app_nil_r, Nat.add_0_r|].
  unfold pack_element at 2. destruct (acceptable underflow x); cbn [negb].
  - destruct (IH (out ++ (if first then [] else bs ",") ++ dump (coerce x)) false bad) as [f' ->]. exists f'. by rewrite !app_assoc.
  - destruct (IH out first (S bad)) as [f1 ->]. exists f1. cbn [length]. by rewrite Nat.add_succ_r, Nat.add_succ_l.
Qed.
Lemma filter_none (f : Json -> bool) l : (length (List.filter (fun x => negb (f x)) l) =? 0)%nat = forallb f l.
Proof. induction l as [|x l IH]; [done|]. cbn [List.filter forallb]. by destruct (f x). Qed.
Lemma packVector_spec l : packVector underflow dump (JArr l) =
  if negb (bool_decide (l = [])) && forallb (acceptable underflow) l then inr (bs "[" ++ packed_text true l ++ bs "]") else inl Schema.
Proof.
  destruct l as [|x l]; [done|]. unfold packVector. destruct (pack_loop (x :: l) (bs "[") true 0%nat) as [f' ->]. cbn [Nat.add].
  rewrite filter_none, bool_decide_false by done. cbn [negb andb]. destruct (forallb _ _); [|done]. cbn [negb]. by rewrite <- app_assoc.
Qed.

(** The printer writes this number as a text without separators that [strtod]
    reads, whole, as the same number, reporting nothing. *)
Definition sep_start (r : list Z) : Prop := r = [] \/ csv_sep (at_ r 0) = true.
Definition prints (e : Json) : Prop :=
  dump e <> [] /\ Forall (fun c => csv_sep c = false /\ c <> 0 /\ c <> 59) (dump e) /\
  forall d r, number_value e = Some d -> sep_start r -> strtod underflow (dump e ++ r) = Some (d, r, false).

Lemma numbers_sep c p vs : csv_sep c = true -> numbers underflow p vs -> numbers underflow (c :: p) vs.
Proof.
  intros Hc [w Hw|w t d r vs' Hw Ht Hd Hf Hn]; [by apply numbers_end; constructor|].
  change (c :: w ++ t) with ((c :: w) ++ t). by apply (numbers_next _ (c :: w) t d r); [constructor|..].
Qed.
Lemma packed_sep l r : sep_start r -> sep_start (packed_text false l ++ r).
Proof.
  intros Hr. induction l as [|x l IH]; [done|]. cbn [packed_text]. destruct (acceptable underflow x); [by right|done].
Qed.
Lemma packed_numbers l r ds : forall first, mapM number_of l = Some ds -> Forall (fun x => prints (coerce x)) l -> sep_start r -> numbers underflow r [] ->
  numbers underflow (packed_text first l ++ r) ds.
Proof.
  revert ds. induction l as [|x l IH]; intros ds first Hm Hp Hs Hr; cbn [mapM packed_text] in *; [by injection Hm as <-|].
  apply Forall_cons in Hp as [(Hne & Hc & Hp1) Hp]. destruct (number_of x) as [d|] eqn:Ex; [|done]. cbn [mbind option_bind] in Hm.
  destruct (mapM number_of l) as [ds'|] eqn:El; [|done]. cbn [mbind option_bind] in Hm. injection Hm as <-.
  rewrite acceptable_number, Ex, bool_decide_true by done. unfold number_of in Ex. destruct (number_value (coerce x)) as [d0|] eqn:En; [|done].
  cbn [mbind option_bind] in Ex. destruct (isfinite d0) eqn:Ef; [|done]. injection Ex as ->.
  assert (Hn : numbers underflow (dump (coerce x) ++ packed_text false l ++ r) (d :: ds')).
  { apply (numbers_next _ [] _ d (packed_text false l ++ r)); [constructor| |by apply Hp1, packed_sep|done|by apply IH].
    destruct (dump (coerce x)) as [|c t]; [done|]. apply Forall_cons in Hc as [[Hc _] _]. exact Hc. }
  rewrite <- !app_assoc. destruct first; [exact Hn|]. by apply numbers_sep.
Qed.
Lemma packed_plain l first : Forall (fun x => prints (coerce x)) l -> Forall (fun c => c <> 0 /\ c <> 59 /\ c <> 91) (packed_text first l).
Proof.
  intros Hp. revert first. induction Hp as [|x l (_ & Hc & _) _ IH]; intros first; cbn [packed_text]; [done|]. destruct (acceptable underflow x); [|done].
  apply Forall_app; split; [destruct first; [constructor|by repeat constructor]|]. apply Forall_app; split; [|done].
  eapply Forall_impl; [exact Hc|]. intros c (Hs & H0 & H59). split_and!; [done|done|]. by intros ->.
Qed.

Lemma all_acceptable l : forallb (acceptable underflow) l = bool_decide (is_Some (mapM number_of l)).
Proof.
  induction l as [|x l IH]; [done|]. cbn [forallb mapM]. rewrite acceptable_number, IH. apply eq_true_iff_eq. rewrite andb_true_iff, !bool_decide_eq_true.
  destruct (number_of x), (mapM number_of l); cbn [mbind option_bind]; unfold is_Some; naive_solver.
Qed.
Lemma packVector_numbers l ds : mapM number_of l = Some ds -> l <> [] -> packVector underflow dump (JArr l) = inr (bs "[" ++ packed_text true l ++ bs "]").
Proof. intros Hm Hne. rewrite packVector_spec, all_acceptable, Hm. rewrite (bool_decide_false (l = [])), bool_decide_true by done. done. Qed.

(** The engine's vector parser, on what packVector makes of an array. *)
Lemma vector_arrives malloc g_hook l ds k : quiet malloc g_hook -> mapM number_of l = Some ds -> l <> [] -> Z.of_nat (length l) <= PARSE_MAX_ELEMS ->
  Forall (fun x => prints (coerce x)) l ->
  exists text k', packVector underflow dump (JArr l) = inr text /\ parse_vector_csv underflow malloc g_hook text k = (inr ds, k').
Proof.
  intros Hq Hm Hne Hl Hp. assert (Hd : length l = length ds) by by eapply length_mapM. rewrite (packVector_numbers l ds Hm Hne). set (text := _ ++ _ ++ _).
  assert (Hn : numbers underflow (cstr text) ds).
  { rewrite cstr_id.
    - apply numbers_sep; [done|]. apply packed_numbers; [done|done|by right|]. by apply numbers_end; repeat constructor.
    - apply Forall_app; split; [by repeat constructor|]. apply Forall_app; split; [|by repeat constructor].
      eapply Forall_impl; [exact (packed_plain l true Hp)|]. by intros c [? _]. }
  destruct (parse_vector_complete underflow malloc g_hook text k ds Hq Hn) as [k' E]; [|lia|by exists text, k'].
  rewrite <- Hd. destruct l; [done|cbn; lia].
Qed.

(** ** Rows *)

Definition row_packed (l : list Json) : list Z := bs "[" ++ packed_text true l ++ bs "]".
Fixpoint joined (first : bool) (ls : list (list Json)) : list Z :=
  match ls with [] => [] | l :: ls => (if first then [] else bs ",") ++ row_packed l ++ joined false ls end.
Lemma pack_rows_joined ls dss : mapM (mapM number_of) ls = Some dss -> Forall (fun l => l <> []) ls -> forall out first,
  pack_rows underflow dump (map JArr ls) out first = inr (out ++ joined first ls).
Proof.
  revert dss. induction ls as [|l ls IH]; intros dss Hm Hne out first; cbn [map pack_rows joined]; [by rewrite app_nil_r|].
  apply Forall_cons in Hne as [Hl Hne]. cbn [mapM] in Hm. destruct (mapM number_of l) as [ds|] eqn:El; [|done]. cbn [mbind option_bind] in Hm.
  destruct (mapM (mapM number_of) ls) as [dss'|] eqn:Els; [|done]. rewrite (packVector_numbers l ds El Hl). rewrite (IH dss' eq_refl Hne). unfold row_packed. by rewrite <- !app_assoc.
Qed.

(** A row's text starts and ends with a number. *)
Lemma packed_ends l ds : mapM number_of l = Some ds -> l <> [] -> Forall (fun x => prints (coerce x)) l ->
  (exists c t, packed_text true l = c :: t /\ csv_sep c = false) /\ (forall first, exists t c, packed_text first l = t ++ [c] /\ csv_sep c = false).
Proof.
  intros Hm Hne Hp. assert (Ha : forallb (acceptable underflow) l = true) by (rewrite all_acceptable, Hm; by rewrite bool_decide_true). clear Hm.
  induction Hp as [|x l (Hd & Hc & _) Hp IH]; [done|]. clear Hne. cbn [forallb] in Ha. apply andb_true_iff in Ha as [Hx Ha]. cbn [packed_text]. rewrite Hx.
  assert (Hs : Forall (fun c => csv_sep c = false) (dump (coerce x))) by (eapply Forall_impl; [exact Hc|]; by intros c []). split.
  - destruct (dump (coerce x)) as [|c t]; [done|]. apply Forall_cons in Hs as [Hs _]. by exists c, (t ++ packed_text false l).
  - intros first. destruct l as [|y l].
    + cbn [packed_text]. rewrite app_nil_r. destruct (exists_last Hd) as (t & c & E). rewrite E in *. apply Forall_app in Hs as [_ [Hs _]%Forall_cons].
      exists ((if first then [] else bs ",") ++ t), c. split; [by rewrite <- app_assoc|done].
    + destruct (IH ltac:(done) Ha) as [_ IH']. destruct (IH' false) as (t & c & E & Hcc). rewrite E. exists ((if first then [] else bs ",") ++ dump (coerce x) ++ t), c.
      split; [by rewrite <- !app_assoc|done].
Qed.
Lemma trim_row l ds w : mapM number_of l = Some ds -> l <> [] -> Forall (fun x => prints (coerce x)) l -> w = [] \/ w = [44] ->
  ParseProofs.trim (row_packed l ++ w) = packed_text true l.
Proof.
  intros Hm Hne Hp Hw. destruct (packed_ends l ds Hm Hne Hp) as [(c & t & E1 & H1) H2]. destruct (H2 true) as (t' & c' & E2 & H3). unfold ParseProofs.trim, row_packed.
  assert (Hr : rstrip row_tail ((bs "[" ++ packed_text true l ++ [93]) ++ w) = bs "[" ++ packed_text true l).
  { assert (Hs : rstrip row_tail (bs "[" ++ packed_text true l ++ [93]) = bs "[" ++ packed_text true l).
    { rewrite app_assoc. rewrite rstrip_snoc. change (row_tail 93) with true. cbv iota. rewrite E2, app_assoc, rstrip_snoc.
      assert (row_tail c' = false) as -> by (unfold row_tail, csv_sep in *; lia). done. }
    destruct Hw as [->| ->]; [by rewrite app_nil_r|]. rewrite rstrip_snoc. change (row_tail 44) with true. exact Hs. }
  change (bs "]") with [93]. rewrite Hr. change (bs "[" ++ packed_text true l) with (91 :: packed_text true l). cbn [skip]. change (row_head 91) with true. cbv iota. rewrite E1. cbn [skip].
  assert (row_head c = false) as -> by (unfold row_head, csv_sep in *; lia). done.
Qed.

Lemma pieces_plain br s : Forall (fun c => c <> 0 /\ c <> 59 /\ c <> 91) s -> forall cur r, pieces br cur (s ++ r) = pieces br (cur ++ s) r.
Proof.
  induction 1 as [|c s (_ & H1 & H2) _ IH]; intros cur r; [by rewrite app_nil_r|]. cbn [app pieces]. rewrite (proj2 (Z.eqb_neq c 59)), (proj2 (Z.eqb_neq c 91)) by done.
  rewrite andb_false_r. cbn [andb]. rewrite IH. by rewrite <- app_assoc.
Qed.
(** The rows as the engine cuts them. *)
Fixpoint row_pieces (l : list Json) (ls : list (list Json)) : list (list Z) :=
  match ls with [] => [row_packed l] | l' :: ls => (row_packed l ++ [44]) :: row_pieces l' ls end.
Lemma row_cut l r : Forall (fun x => prints (coerce x)) l -> pieces true [] (row_packed l ++ r) = pieces true (row_packed l) r.
Proof.
  intros Hp. unfold row_packed. change ((bs "[" ++ packed_text true l ++ bs "]") ++ r) with (91 :: (packed_text true l ++ bs "]") ++ r). cbn [pieces]. change (91 =? 59) with false. cbv iota.
  rewrite (bool_decide_true ([] = [])) by done. change ((91 =? 91) && negb true) with false. rewrite andb_false_r. cbv iota.
  apply (pieces_plain true (packed_text true l ++ bs "]")). apply Forall_app; split; [by apply packed_plain|by repeat constructor].
Qed.
Lemma joined_pieces ls : forall l, Forall (fun x => prints (coerce x)) l -> Forall (Forall (fun x => prints (coerce x))) ls ->
  pieces true [] (row_packed l ++ joined false ls) = row_pieces l ls.
Proof.
  induction ls as [|l' ls IH]; intros l Hl Hls; rewrite row_cut by done; cbn [joined row_pieces]; [done|]. apply Forall_cons in Hls as [Hl' Hls].
  rewrite (pieces_plain true (bs ",")) by (by repeat constructor). rewrite <- (IH l' Hl' Hls). rewrite (row_cut l') by done.
  unfold row_packed at 2 3. change ((bs "[" ++ packed_text true l' ++ bs "]") ++ joined false ls) with (91 :: (packed_text true l' ++ bs "]") ++ joined false ls). cbn [pieces].
  change (91 =? 59) with false. cbv iota. rewrite bool_decide_false by (by destruct (row_packed l)). change (true && (91 =? 91) && negb false) with true. cbv iota. f_equal.
  rewrite pieces_plain; [done|]. apply Forall_app; split; [by apply packed_plain|by repeat constructor].
Qed.

Lemma mul_ok_true a b c : 0 < a -> 0 <= b -> 0 < c -> a * b * c <= SIZE_MAX -> mul_ok a b c = true.
Proof.
  unfold mul_ok. intros Ha Hb Hc H. assert (HS : 0 <= SIZE_MAX < 2 ^ 64) by (unfold SIZE_MAX; lia). assert (Hab : a * b <= SIZE_MAX) by nia.
  rewrite (proj2 (Z.eqb_neq a 0)), (proj2 (Z.eqb_neq c 0)) by lia. cbn [negb andb].
  rewrite (proj2 (Z.ltb_ge (SIZE_MAX / a) b)) by (apply Z.div_le_lower_bound; lia). rewrite u64_id by nia.
  by rewrite (proj2 (Z.ltb_ge (SIZE_MAX / c) (a * b))) by (apply Z.div_le_lower_bound; lia).
Qed.
(** Rows appended so far: how many, of which length, in which capacity. *)
Definition stored (dim n : nat) (st : list double) (c : corpus) : Prop :=
  store c = st /\ n_rows c = n /\ (c_dim c = dim \/ (c_dim c = 0%nat /\ n = 0%nat)) /\
  ((cap_rows c = 0 /\ n = 0%nat) \/ (Z.of_nat n <= cap_rows c /\ exists j, 0 <= j /\ cap_rows c = 16 * 2 ^ j)).
Definition MAX_ROWS : Z := 2 ^ 20.
Lemma row_appended malloc g_hook txt ds dim n st c k : quiet malloc g_hook -> txt <> [] -> no_nul txt -> numbers underflow txt ds -> length ds = dim ->
  (0 < dim)%nat -> Z.of_nat dim <= PARSE_MAX_ELEMS -> Z.of_nat n < MAX_ROWS -> stored dim n st c ->
  exists c' k', add_row underflow malloc g_hook txt c k = (inr c', k') /\ stored dim (S n) (st ++ ds) c'.
Proof.
  intros Hq Hne Hz Hn Hl Hd Hm Hrows (Hst & Hnr & Hdim & Hcap). unfold add_row. destruct txt as [|x txt]; [done|]. set (t := x :: txt) in *.
  destruct (parse_vector_complete underflow malloc g_hook t k ds Hq) as [k' E]; [by rewrite cstr_id|lia|lia|]. rewrite E, Hl.
  assert (Hdd : (if (c_dim c =? 0)%nat then dim else c_dim c) = dim) by (destruct Hdim as [->|[-> _]]; [by destruct dim|done]). rewrite Hdd. cbv zeta. rewrite Nat.eqb_refl. cbn [negb].
  unfold PARSE_MAX_ELEMS, MAX_ROWS in *. rewrite Hnr. destruct (Z.eqb_spec (Z.of_nat n) (cap_rows c)) as [Ec|Ec].
  - set (ncap := if cap_rows c =? 0 then 16 else u64 (cap_rows c * 2)).
    assert (Hnc : cap_rows c < ncap <= 2 ^ 21 + 16 /\ exists j, 0 <= j /\ ncap = 16 * 2 ^ j).
    { unfold ncap. destruct Hcap as [[H0 _]|(_ & j & Hj & Hjc)]; [rewrite H0; cbn [Z.eqb]; split; [lia|by exists 0]|].
      assert (0 < 2 ^ j) by (by apply Z.pow_pos_nonneg). rewrite (proj2 (Z.eqb_neq _ 0)) by lia. rewrite u64_id by lia. split; [lia|]. exists (j + 1). split; [lia|]. rewrite Z.pow_add_r by lia. lia. }
    destruct Hnc as [Hnc Hj]. rewrite (proj2 (Z.ltb_ge _ _)) by lia. assert (0 <= cap_rows c) by lia. rewrite mul_ok_true by (unfold SIZE_MAX; nia). cbn [negb orb]. rewrite (proj1 Hq).
    eexists _, k'. split; [done|]. split_and!; cbn [store n_rows c_dim cap_rows]; [by rewrite Hst|done|by left|]. right. split; [lia|exact Hj].
  - eexists _, k'. split; [done|]. split_and!; cbn [store n_rows c_dim cap_rows]; [by rewrite Hst|done|by left|]. right. destruct Hcap as [[H0 Hn0]|[Hle Hj]]; [lia|]. split; [lia|done].
Qed.
Lemma row_taken malloc g_hook l ds dim n st c k : quiet malloc g_hook -> mapM number_of l = Some ds -> Forall (fun x => prints (coerce x)) l -> length ds = dim ->
  (0 < dim)%nat -> Z.of_nat dim <= PARSE_MAX_ELEMS -> Z.of_nat n < MAX_ROWS -> stored dim n st c ->
  l <> [] /\ exists c' k', add_row underflow malloc g_hook (packed_text true l) c k = (inr c', k') /\ stored dim (S n) (st ++ ds) c'.
Proof.
  intros Hq Hl Hp Hd H0 Hm Hn Hc. assert (Hne : l <> []) by (intros ->; cbn in Hl; injection Hl as <-; cbn in Hd; lia). split; [done|].
  apply row_appended; try done.
  - by destruct (packed_ends l ds Hl Hne Hp) as [(x & t & -> & _) _].
  - eapply Forall_impl; [exact (packed_plain l true Hp)|]. by intros x [? _].
  - rewrite <- (app_nil_r (packed_text true l)). apply packed_numbers; [done|done|by left|]. by apply (numbers_end _ []).
Qed.
Lemma rows_appended malloc g_hook dim ls : forall l ds dss n st c k, quiet malloc g_hook -> mapM number_of l = Some ds -> mapM (mapM number_of) ls = Some dss ->
  Forall (fun x => prints (coerce x)) l -> Forall (Forall (fun x => prints (coerce x))) ls -> Forall (fun ds => length ds = dim) (ds :: dss) ->
  (0 < dim)%nat -> Z.of_nat dim <= PARSE_MAX_ELEMS -> Z.of_nat (n + S (length ls)) <= MAX_ROWS -> stored dim n st c ->
  exists c' k', add_rows underflow malloc g_hook (row_pieces l ls) c k = (inr c', k') /\ stored dim (n + S (length ls)) (st ++ ds ++ concat dss) c'.
Proof.
  induction ls as [|l' ls IH]; intros l ds dss n st c k Hq Hl Hls Hp Hps Hlen Hd Hm Hrows Hc; apply Forall_cons in Hlen as [Hld Hlen]; cbn [length] in Hrows.
  all: destruct (row_taken malloc g_hook l ds dim n st c (S k) Hq Hl Hp Hld Hd Hm ltac:(lia) Hc) as (Hne & c1 & k1 & E & Hc1).
  - cbn [mapM] in Hls. injection Hls as <-. cbn [row_pieces add_rows length concat]. rewrite (proj2 Hq).
    pose proof (trim_row l ds [] Hl Hne Hp (or_introl eq_refl)) as Ht. rewrite app_nil_r in Ht. rewrite Ht, E. exists c1, k1. split; [done|]. by rewrite app_nil_r, Nat.add_1_r.
  - cbn [mapM] in Hls. destruct (mapM number_of l') as [ds'|] eqn:El'; [|done]. cbn [mbind option_bind] in Hls. destruct (mapM (mapM number_of) ls) as [dss'|] eqn:Els; [|done].
    cbn [mbind option_bind] in Hls. injection Hls as <-. apply Forall_cons in Hps as [Hp' Hps]. cbn [row_pieces add_rows]. rewrite (proj2 Hq), (trim_row l ds [44] Hl Hne Hp), E by by right.
    destruct (IH l' ds' dss' (S n) (st ++ ds) c1 k1 Hq El' eq_refl Hp' Hps Hlen Hd Hm ltac:(lia) Hc1) as (c' & k' & E' & Hc'). rewrite E'.
    exists c', k'. split; [done|]. cbn [length concat]. rewrite <- app_assoc in Hc'. by rewrite Nat.add_succ_r.
Qed.

(** The bracketed form: the outer brackets are the frame. *)
Lemma frame_of l ls : frame_ref (bs "[" ++ joined true (l :: ls) ++ bs "]") = (joined true (l :: ls), true).
Proof.
  set (r := joined true (l :: ls)). assert (Hr : exists t, r = 91 :: t) by (by eexists). unfold frame_ref. change (bs "[" ++ r ++ bs "]") with (91 :: r ++ [93]). cbn [skip].
  change (is_blank 91) with false. cbv iota. assert (Hs : skip is_blank (r ++ [93]) = r ++ [93]) by (destruct Hr as [t ->]; done). rewrite Hs.
  destruct Hr as [t Ht]. rewrite bool_decide_true by (by rewrite Ht). change ((91 =? 91) && true) with true. cbv iota. unfold rstrip. rewrite rev_unit. cbn [skip]. change (is_blank 93) with false.
  cbv iota. rewrite <- rev_unit, rev_involutive. unfold strip_close. rewrite rev_unit. change (93 =? 93) with true. cbv iota. by rewrite rev_involutive.
Qed.
Lemma corpus_arrives malloc g_hook ls dss dim expected k : quiet malloc g_hook -> mapM (mapM number_of) ls = Some dss -> Forall (fun ds => length ds = dim) dss ->
  (0 < dim)%nat -> Z.of_nat dim <= PARSE_MAX_ELEMS -> ls <> [] -> Z.of_nat (length ls) <= MAX_ROWS -> expected = 0%nat \/ expected = dim ->
  Forall (Forall (fun x => prints (coerce x))) ls ->
  exists k', parse_corpus underflow malloc g_hook (bs "[" ++ joined true ls ++ bs "]") expected k = (inr (concat dss, length ls, dim), k').
Proof.
  intros Hq Hm Hlen Hd Hmax Hne Hrows Hexp Hp. destruct ls as [|l ls]; [done|]. cbn [mapM] in Hm. destruct (mapM number_of l) as [ds|] eqn:El; [|done]. cbn [mbind option_bind] in Hm.
  destruct (mapM (mapM number_of) ls) as [dss'|] eqn:Els; [|done]. cbn [mbind option_bind] in Hm. injection Hm as <-. apply Forall_cons in Hp as [Hp Hps].
  rewrite parse_corpus_ref. unfold corpus_ref. rewrite frame_of. pose proof Hlen as Hlen'. apply Forall_cons in Hlen' as [Hld _].
  assert (Hl : l <> []) by (intros ->; cbn in El; injection El as <-; cbn in Hld; lia).
  destruct (packed_ends l ds El Hl Hp) as [(x & t & E & Hx) _].
  assert (Hskip : skip (fun c => is_blank c || (c =? 91) || (c =? 93)) (joined true (l :: ls)) <> []).
  { cbn [joined app]. unfold row_packed. rewrite E. change ((bs "[" ++ (x :: t) ++ bs "]") ++ joined false ls) with (91 :: x :: (t ++ bs "]") ++ joined false ls). cbn [skip].
    change (is_blank 91 || (91 =? 91) || (91 =? 93)) with true. cbv iota. assert (is_blank x || (x =? 91) || (x =? 93) = false) as -> by (unfold is_blank, csv_sep in *; lia). done. }
  rewrite bool_decide_false by exact Hskip. change (joined true (l :: ls)) with (row_packed l ++ joined false ls). rewrite (joined_pieces ls l Hp Hps).
  destruct (rows_appended malloc g_hook dim ls l ds dss' 0 [] {| store := []; cap_rows := 0; n_rows := 0; c_dim := expected |} k Hq El Els Hp Hps Hlen Hd Hmax) as (c' & k' & Er & Hc').
  - cbn [length] in Hrows. lia.
  - split_and!; cbn [store n_rows c_dim cap_rows]; [done|done| |by left]. destruct Hexp as [->| ->]; [by right|by left].
  - rewrite Er. destruct Hc' as (-> & -> & [->|[_ H]] & _); [by exists k'|done].
Qed.
(** A refused matrix has a row that is empty or holds no number. *)
Lemma pack_rows_refused ls e : forall out first, pack_rows underflow dump (map JArr ls) out first = inl e ->
  e = Schema /\ Exists (fun l => l = [] \/ mapM number_of l = None) ls.
Proof.
  induction ls as [|l ls IH]; intros out first H; cbn [map pack_rows] in H; [done|]. rewrite packVector_spec, all_acceptable in H.
  destruct (decide (l = [])) as [->|Hne]; [cbn in H; injection H as <-; split; [done|]; left; by left|]. rewrite (bool_decide_false (l = [])) in H by done.
  destruct (mapM number_of l) as [ds|] eqn:El; [|cbn in H; injection H as <-; split; [done|]; left; by right].
  rewrite bool_decide_true in H by done. cbn [negb andb] in H. apply IH in H as [-> H]. split; [done|]. by right.
Qed.
Lemma pack_rows_taken ls text : forall out first, pack_rows underflow dump (map JArr ls) out first = inr text ->
  (exists dss, mapM (mapM number_of) ls = Some dss) /\ text = out ++ joined first ls.
Proof.
  induction ls as [|l ls IH]; intros out first H; cbn [map pack_rows joined mapM] in *; [injection H as <-; split; [by eexists|by rewrite app_nil_r]|].
  rewrite packVector_spec, all_acceptable in H. destruct (bool_decide (l = [])); [done|]. destruct (mapM number_of l) as [ds|]; [|by rewrite bool_decide_false in H by (by intros [])].
  rewrite bool_decide_true in H by done. cbn [negb andb] in H. apply IH in H as [[dss Hd] ->]. rewrite Hd. cbn [mbind option_bind]. split; [by eexists|].
  unfold row_packed. by rewrite <- !app_assoc.
Qed.
End Pack.

(** ** What the parsers receive *)

(** C28: What a tool packs is what the engine reads.  With memory, and
    uninterrupted, for elements the JSON printer writes as texts that read
    back: an array of up to a million elements is refused exactly when it is
    empty or one of them is not a finite number, and otherwise the engine's
    vector parser returns the numbers, in order; rows are refused exactly
    when one of them is, and otherwise, when they have one length, the
    engine's corpus parser returns them, row after row, with their count and
    their dimension. *)
Theorem arguments_arrive underflow dump malloc g_hook : quiet malloc g_hook ->
  (forall l k, Z.of_nat (length l) <= PARSE_MAX_ELEMS -> Forall (fun x => prints underflow dump (coerceNumber underflow x)) l ->
    match packVector underflow dump (JArr l) with
    | inl e => e = Schema /\ (l = [] \/ mapM (number_of underflow) l = None)
    | inr text => exists ds k', mapM (number_of underflow) l = Some ds /\ parse_vector_csv underflow malloc g_hook text k = (inr ds, k')
    end) /\
  (forall ls dim k, (0 < dim)%nat -> Z.of_nat dim <= PARSE_MAX_ELEMS -> ls <> [] -> Z.of_nat (length ls) <= MAX_ROWS ->
    Forall (Forall (fun x => prints underflow dump (coerceNumber underflow x))) ls ->
    match packMatrix underflow dump (JArr (map JArr ls)) with
    | inl e => e = Schema /\ Exists (fun l => l = [] \/ mapM (number_of underflow) l = None) ls
    | inr text => exists dss, mapM (mapM (number_of underflow)) ls = Some dss /\
        (Forall (fun ds => length ds = dim) dss -> exists k', parse_corpus underflow malloc g_hook text 0 k = (inr (concat dss, length ls, dim), k'))
    end).
Proof.
  intros Hq. split.
  - intros l k Hl Hp. destruct (packVector underflow dump (JArr l)) as [e|text] eqn:E.
    + rewrite packVector_spec, (all_acceptable underflow dump) in E. destruct (decide (l = [])) as [->|Hne]; [cbn in E; injection E as <-; split; [done|by left]|]. rewrite (bool_decide_false (l = [])) in E by done.
      destruct (mapM (number_of underflow) l); [by rewrite bool_decide_true in E by done|]. cbn in E. injection E as <-. split; [done|by right].
    + pose proof E as E'. rewrite packVector_spec, (all_acceptable underflow dump) in E'. destruct (decide (l = [])) as [->|Hne]; [done|].
      destruct (mapM (number_of underflow) l) as [ds|] eqn:Em; [|cbn in E'; by rewrite andb_false_r in E'].
      destruct (vector_arrives underflow dump malloc g_hook l ds k Hq Em Hne Hl Hp) as (text' & k' & E1 & E2). rewrite E in E1. injection E1 as <-. by exists ds, k'.
  - intros ls dim k Hd Hm Hne Hn Hp. unfold packMatrix. destruct (pack_rows underflow dump (map JArr ls) (bs "[") true) as [e|text] eqn:E.
    + by apply pack_rows_refused in E.
    + apply pack_rows_taken in E as [[dss Hdss] ->]. exists dss. split; [done|]. intros Hlen. rewrite <- app_assoc.
      apply (corpus_arrives underflow dump malloc g_hook ls dss dim 0 k); try done. by left.
Qed.

(** A printer for the witness: integers in decimal, one half. *)
Definition demo_dump (v : Json) : list Z := match v with JInt z => dec_d z | JFloat _ => bs "0.5" | _ => [] end.
Definition half : Json := JFloat (1022 * 2 ^ 52).
Lemma sep_cases r : sep_start r -> r = [] \/ exists c t, r = c :: t /\ In c [32; 9; 44; 91; 93; 10; 13].
Proof. intros [->|H]; [by left|]. destruct r as [|c t]; [done|]. right. exists c, t. split; [done|]. cbn [at_ nth] in H. unfold csv_sep in H. cbn. lia. Qed.
Ltac prints_concrete := split_and!; [done|repeat (constructor; [split_and!; done|]); constructor|];
  intros d r Hd Hr; vm_compute in Hd; injection Hd as <-; apply sep_cases in Hr as [->|(c & t & -> & Hc)]; [vm_compute; reflexivity|];
  cbn in Hc; repeat (destruct Hc as [<-|Hc]; [vm_compute; reflexivity|]); done.
Lemma demo_prints u z : In z [-3; 7] -> prints u demo_dump (JInt z).
Proof. intros [<-|[<-|[]]]; prints_concrete. Qed.
Lemma half_prints u : prints u demo_dump half.
Proof. prints_concrete. Qed.
Lemma demo_row l : Forall (fun x => In x [JInt (-3); JInt 7; half]) l ->
  Forall (fun x => prints (fun _ => false) demo_dump (coerceNumber (fun _ => false) x)) l.
Proof.
  intros H. eapply Forall_impl; [exact H|]. intros x [<-|[<-|[<-|[]]]]; cbn [coerceNumber half]; [apply demo_prints; cbn; tauto..|apply half_prints].
Qed.
Lemma arguments_arrive_witness :
  (exists k', parse_vector_csv (fun _ => false) (fun _ => true) None (bs "[-3,0.5]") 0 = (inr [of_int (-3); bits_double (1022 * 2 ^ 52)], k')) /\
  (exists k', parse_corpus (fun _ => false) (fun _ => true) None (bs "[[7,0.5],[-3,7]]") 0 0 =
    (inr ([of_int 7; bits_double (1022 * 2 ^ 52); of_int (-3); of_int 7], 2%nat, 2%nat), k')).
Proof.
  assert (Hq : quiet (fun _ => true) None) by done. destruct (arguments_arrive (fun _ => false) demo_dump (fun _ => true) None Hq) as [H1 H2]. split.
  - assert (Hp : Forall (fun x => prints (fun _ => false) demo_dump (coerceNumber (fun _ => false) x)) [JInt (-3); half])
      by (apply demo_row; repeat (constructor; [cbn; tauto|]); constructor).
    specialize (H1 [JInt (-3); half] 0%nat ltac:(vm_compute; discriminate) Hp).
    assert (E : packVector (fun _ => false) demo_dump (JArr [JInt (-3); half]) = inr (bs "[-3,0.5]")) by (vm_compute; reflexivity). rewrite E in H1.
    destruct H1 as (ds & k' & Hm & Hk). vm_compute in Hm. injection Hm as <-. exists k'. exact Hk.
  - set (ls := [[JInt 7; half]; [JInt (-3); JInt 7]]).
    assert (Hp : Forall (Forall (fun x => prints (fun _ => false) demo_dump (coerceNumber (fun _ => false) x))) ls)
      by (repeat (constructor; [apply demo_row; repeat (constructor; [cbn; tauto|]); constructor|]); constructor).
    specialize (H2 ls 2%nat 0%nat ltac:(lia) ltac:(vm_compute; discriminate) ltac:(done) ltac:(vm_compute; discriminate) Hp).
    assert (E : packMatrix (fun _ => false) demo_dump (JArr (map JArr ls)) = inr (bs "[[7,0.5],[-3,7]]")) by (vm_compute; reflexivity). rewrite E in H2.
    destruct H2 as (dss & Hm & Hk). vm_compute in Hm. injection Hm as <-. exact (Hk ltac:(repeat constructor)).
Defined.

(** ** The row limit *)

Lemma jfind_jput k v m k' : jfind k' (jput k v m) = if bytes_eqb k' k then Some v else jfind k' m.
Proof.
  induction m as [|[k0 v0] m IH]; cbn [jput jfind]; [done|]. destruct (bytes_eqb k k0) eqn:E; [|destruct (bytes_ltb k k0)]; cbn [jfind].
  - apply bytes_eqb_true in E as ->. by destruct (bytes_eqb k' k0).
  - done.
  - rewrite IH. destruct (bytes_eqb k' k0) eqn:E0; [|done]. apply bytes_eqb_true in E0 as ->. destruct (bytes_eqb k0 k) eqn:E1; [|done].
    apply bytes_eqb_true in E1 as ->. unfold bytes_eqb in E. by rewrite bool_decide_true in E.
Qed.
Definition too_long (limit : Z) (m : list (list Z * Json)) (field : list Z) : bool :=
  match jfind field m with Some (JArr l) => limit <? json_size l | _ => false end.
(** Arrays a process can hold. *)
Definition sizes_fit (m : list (list Z * Json)) : Prop := forall f l, jfind f m = Some (JArr l) -> Z.of_nat (length l) < 2 ^ 31.
Lemma size_small (l : list Json) : Z.of_nat (length l) < 2 ^ 31 -> json_size l = Z.of_nat (length l).
Proof. intros H. unfold json_size, s32. cbv zeta. rewrite u32_id by lia. by rewrite (proj2 (Z.ltb_lt _ _)) by lia. Qed.
(** The first field that is too long is cut, and no other. *)
Lemma truncate_fields_first fields limit m :
  (Forall (fun f => too_long limit m f = false) fields /\ truncate_fields fields limit m = m) \/
  exists f1 f f2 l, fields = f1 ++ f :: f2 /\ Forall (fun f => too_long limit m f = false) f1 /\ jfind f m = Some (JArr l) /\ limit < json_size l /\
    truncate_fields fields limit m = jput (bs "total_scanned") (JInt (json_size l)) (jput (bs "truncated") (JBool true) (jput f (JArr (take (Z.to_nat limit) l)) m)).
Proof.
  induction fields as [|f fields IH]; [by left|]. cbn [truncate_fields]. destruct (too_long limit m f) eqn:E.
  - unfold too_long in E. destruct (jfind f m) as [[| | | | |l|]|] eqn:Ef; try done. rewrite E. right. exists [], f, fields, l. apply Z.ltb_lt in E. by split_and!.
  - assert (Hs : truncate_fields (f :: fields) limit m = truncate_fields fields limit m).
    { unfold too_long in E. cbn [truncate_fields]. destruct (jfind f m) as [[| | | | |l|]|]; try done. by rewrite E. }
    change (match jfind f m with Some (JArr l) => _ | _ => _ end) with (truncate_fields (f :: fields) limit m). rewrite Hs.
    destruct IH as [[IH ->]|(f1 & f' & f2 & l & -> & H1 & H2 & H3 & ->)]; [left; by split; [constructor|]|]. right. exists (f :: f1), f', f2, l. split_and!; [done|by constructor|done|done|done].
Qed.

Lemma field_names f : In f kTruncateFields -> bytes_eqb f (bs "truncated") = false /\ bytes_eqb f (bs "total_scanned") = false /\ bytes_eqb (bs "total_scanned") f = false.
Proof. cbn [kTruncateFields In]. intros [<-|[<-|[<-|[<-|[<-|[]]]]]]; done. Qed.
(** What cutting the one array that is too long leaves. *)
Lemma cut_one limit m f l : In f kTruncateFields -> (forall g, In g kTruncateFields -> too_long limit m g = true -> g = f) -> jfind f m = Some (JArr l) -> limit < json_size l -> sizes_fit m -> 0 <= limit ->
  let m' := jput (bs "total_scanned") (JInt (json_size l)) (jput (bs "truncated") (JBool true) (jput f (JArr (take (Z.to_nat limit) l)) m)) in
  (forall g l', In g kTruncateFields -> jfind g m' = Some (JArr l') -> Z.of_nat (length l') <= limit) /\
  (forall k, k <> f -> k <> bs "truncated" -> k <> bs "total_scanned" -> jfind k m' = jfind k m) /\
  jfind f m' = Some (JArr (take (Z.to_nat limit) l)) /\ jfind (bs "total_scanned") m' = Some (JInt (Z.of_nat (length l))).
Proof.
  intros Hin Hone Hf Hl Hfit H0 m'. assert (Hm : forall g, In g kTruncateFields -> jfind g m' = if bytes_eqb g f then Some (JArr (take (Z.to_nat limit) l)) else jfind g m).
  { intros g Hg. destruct (field_names g Hg) as (E1 & E2 & _). unfold m'. by rewrite !jfind_jput, E1, E2. }
  assert (Hff : bytes_eqb f f = true) by (by apply bytes_eqb_true). split_and!.
  - intros g l' Hg. rewrite Hm by done. destruct (bytes_eqb g f) eqn:E; [intros [= <-]; rewrite length_take; lia|]. intros Hg'.
    destruct (too_long limit m g) eqn:Et; [apply Hone in Et; [|done]; subst; congruence|]. unfold too_long in Et. rewrite Hg' in Et.
    rewrite size_small in Et by by eapply Hfit. lia.
  - intros k K1 K2 K3. unfold m'. rewrite !jfind_jput. unfold bytes_eqb. by rewrite !bool_decide_false by done.
  - by rewrite Hm, Hff.
  - unfold m'. rewrite jfind_jput. change (bytes_eqb (bs "total_scanned") (bs "total_scanned")) with true. rewrite size_small; [done|by eapply Hfit].
Qed.
(** A tool's rows are within the operator's ceiling: the limit a call asks
    for is cut to it and the neighbours of a search to the limit; an array
    longer than the limit comes back as its first rows with the number there
    were, a shorter one as it is; and of an answer with one array of rows too
    long, that array comes back cut, every other member as it was, with the
    number there were. *)
Theorem rows_within_ceiling maxRowsCeiling args limit : 0 <= maxRowsCeiling -> effectiveLimit maxRowsCeiling args = inr limit ->
  0 <= limit <= maxRowsCeiling /\ (forall k, kOf maxRowsCeiling args = inr k -> k <= limit) /\
  (forall l, Z.of_nat (length l) < 2 ^ 31 -> truncateResult (JArr l) limit =
    if Z.of_nat (length l) <=? limit then JArr l
    else jobj [(bs "rows", JArr (take (Z.to_nat limit) l)); (bs "truncated", JBool true); (bs "total_scanned", JInt (Z.of_nat (length l))); (bs "_note", JStr truncated_note)]) /\
  (forall m, sizes_fit m -> (length (List.filter (too_long limit m) kTruncateFields) <= 1)%nat -> exists m', truncateResult (JObj m) limit = JObj m' /\
    (forall f l, In f kTruncateFields -> jfind f m' = Some (JArr l) -> Z.of_nat (length l) <= limit) /\
    (forall k, ~ In k (bs "truncated" :: bs "total_scanned" :: List.filter (too_long limit m) kTruncateFields) -> jfind k m' = jfind k m) /\
    (forall f l, too_long limit m f = true -> In f kTruncateFields -> jfind f m = Some (JArr l) ->
      jfind f m' = Some (JArr (take (Z.to_nat limit) l)) /\ jfind (bs "total_scanned") m' = Some (JInt (Z.of_nat (length l))))).
Proof.
  intros Hc He. assert (Hlim : 0 <= limit <= maxRowsCeiling).
  { unfold effectiveLimit in He. destruct (jfind _ args) as [[| |z| | | |]|]; try done; injection He as <-; lia. }
  split; [done|]. split; [|split].
  - intros k. unfold kOf. rewrite He. destruct (limitKCheck _ _); [|done]. intros [= <-]. lia.
  - intros l Hl. unfold truncateResult. rewrite size_small by done. by destruct (Z.ltb_spec limit (Z.of_nat (length l))), (Z.leb_spec (Z.of_nat (length l)) limit); try lia.
  - intros m Hfit H1. unfold truncateResult. destruct (truncate_fields_first kTruncateFields limit m) as [[Hn ->]|(f1 & f & f2 & l & Ef & _ & Hf & Hl & ->)].
    + assert (Hn' : forall f, In f kTruncateFields -> too_long limit m f = false) by (intros f Hf; by eapply (proj1 (Forall_forall _ _) Hn), list_elem_of_In).
      exists m. split_and!; [done| |done|intros f l Ht Hf; by rewrite Hn' in Ht]. intros f l Hf Hj. specialize (Hn' f Hf). unfold too_long in Hn'. rewrite Hj in Hn'.
      rewrite size_small in Hn' by by eapply Hfit. lia.
    + assert (Hin : In f kTruncateFields) by (rewrite Ef; apply in_or_app; right; by left).
      assert (Ht : too_long limit m f = true) by (unfold too_long; rewrite Hf; lia).
      assert (Hone : forall g, In g kTruncateFields -> too_long limit m g = true -> g = f).
      { intros g Hg Hgt. assert (Hgf : In g (List.filter (too_long limit m) kTruncateFields)) by (by apply filter_In). assert (Hff : In f (List.filter (too_long limit m) kTruncateFields)) by (by apply filter_In).
        destruct (List.filter _ kTruncateFields) as [|x [|y r]]; [done| |cbn in H1; lia]. destruct Hgf as [<-|[]], Hff as [<-|[]]. done. }
      destruct (cut_one limit m f l Hin Hone Hf Hl Hfit (proj1 Hlim)) as (C1 & C2 & C3 & C4). eexists. split; [done|]. split; [exact C1|]. split.
      * intros k Hk. apply C2; intros ->; apply Hk; [right; right; by apply filter_In|by left|right; by left].
      * intros g lg Hgt Hg Hgl. assert (g = f) as -> by by apply Hone. assert (lg = l) as -> by congruence. done.
Qed.
Lemma rows_within_ceiling_witness :
  let args := [(bs "k", JInt 9); (bs "limit", JInt 2)] in
  kOf 1000 args = inr 2 /\ exists m', truncateResult (JObj [(bs "k", JInt 9); (bs "top_k", JArr [JInt 1; JInt 2; JInt 3])]) 2 = JObj m' /\
    jfind (bs "top_k") m' = Some (JArr [JInt 1; JInt 2]) /\ jfind (bs "total_scanned") m' = Some (JInt 3) /\ jfind (bs "k") m' = Some (JInt 9).
Proof.
  intros args. assert (He : effectiveLimit 1000 args = inr 2) by (vm_compute; reflexivity). destruct (rows_within_ceiling 1000 args 2 ltac:(lia) He) as (_ & _ & _ & H).
  split; [vm_compute; reflexivity|]. set (m := [(bs "k", JInt 9); (bs "top_k", JArr [JInt 1; JInt 2; JInt 3])]).
  assert (Hfit : sizes_fit m).
  { intros f l. unfold m. cbn [jfind]. destruct (bytes_eqb f (bs "k")); [done|]. destruct (bytes_eqb f (bs "top_k")); [|done]. intros [= <-]. vm_compute. reflexivity. }
  destruct (H m Hfit ltac:(vm_compute; lia)) as (m' & E & _ & Hk & Ht). exists m'. split; [exact E|].
  destruct (Ht (bs "top_k") [JInt 1; JInt 2; JInt 3] ltac:(vm_compute; reflexivity) ltac:(by left) ltac:(vm_compute; reflexivity)) as [H1 H2].
  split; [exact H1|]. split; [exact H2|]. rewrite Hk; [vm_compute; reflexivity|]. vm_compute. intros [K|[K|[K|[]]]]; discriminate.
Defined.

(** ** What the limits let through *)

(** A second array that is too long comes back whole. *)
Theorem second_array_uncut : exists m, jfind (bs "population") m = Some (JArr [JInt 1; JInt 2; JInt 3]) /\
  truncateResult (JObj [(bs "population", JArr [JInt 1; JInt 2; JInt 3]); (bs "top_k", JArr [JInt 1; JInt 2])]) 1 = JObj m.
Proof. eexists. split; [|vm_compute; reflexivity]. vm_compute. reflexivity. Qed.
(** A k beyond 32 bits passes the check that refuses a k above the ceiling,
    and is another k. *)
Theorem large_k_wraps : kOf 1000 [(bs "k", JInt 1001)] = inl Schema /\ kOf 1000 [(bs "k", JInt (2 ^ 32 + 7))] = inr 7.
Proof. split; vm_compute; reflexivity. Qed.
(** The conversion of a text to a number does not reach an array of numbers:
    the check of the arguments has refused the text before. *)
Theorem coercion_not_reached u dump : exists spec args l, t_params spec = [{| p_name := bs "query"; p_type := TArray; p_required := true; p_default := JNull;
    p_description := []; p_nullable := false; p_item := TNumber |}] /\ args = JObj [(bs "query", JArr l)] /\
  (exists text, packVector u dump (JArr l) = inr text) /\ exists e, validateArgs spec args = Some e.
Proof.
  exists {| t_name := []; t_category := []; t_description := []; t_class := Cheap; t_params := [{| p_name := bs "query"; p_type := TArray; p_required := true; p_default := JNull;
    p_description := []; p_nullable := false; p_item := TNumber |}]; t_retryTier := None; destructiveHint := false; readOnlyHint := true; idempotentHint := true; openWorldHint := false; secretHint := false |}.
  exists (JObj [(bs "query", JArr [JStr (bs "2")])]), [JStr (bs "2")]. split; [done|]. split; [done|]. split; [|eexists; vm_compute; reflexivity].
  rewrite packVector_spec. eexists. vm_compute. reflexivity.
Qed.
