(* ===== verification/McpPolicy.v ===== *)
(** * The MCP server's credential file (mcp/src/transport_http.cpp, TokenStore)

    The file of named clients, its expiry dates, and when the file and the
    token file are read again: at each check whose forced flag is set or whose
    file has another modification time.  What the files are at a check is an
    input of it; the JSON parser and SHA-256 are parameters. *)

From S2P Require Import Prelude DaemonConf McpConf McpServer McpHttp.

(** ** Dates *)

(** [%d]: past the range of long the value is clamped, past int cut, as
    glibc does where C leaves it open. *)
Definition scan_d (s : list Z) : option (Z * list Z) :=
  let '(neg, t) := sign_of (strip_space s) in
  match t with
  | c :: _ => if isdigit c then let '(v, r) := digits_val 0 t in Some (s32 (clamp LONG_MIN LONG_MAX (if neg then - v else v)), r) else None
  | [] => None
  end.
(** sscanf: the values converted; a directive is [%d], or a byte to match. *)
Fixpoint scanf (fmt : list (option Z)) (s : list Z) : list Z :=
  match fmt with
  | [] => []
  | None :: fmt => match scan_d s with Some (v, r) => v :: scanf fmt r | None => [] end
  | Some c :: fmt => match s with x :: s => if x =? c then scanf fmt s else [] | [] => [] end
  end.
Definition date_format : list (option Z) := [None; Some 45; None; Some 45; None].
Definition date_time_format : list (option Z) := date_format ++ [Some 84; None; Some 58; None; Some 58; None].

(** timegm: the seconds since 1970 of a month of 1 to 12; the other fields
    may be out of range. *)
Definition leap_year (y : Z) : bool := (y mod 4 =? 0) && (negb (y mod 100 =? 0) || (y mod 400 =? 0)).
Definition month_start (y m : Z) : Z :=
  nth (Z.to_nat (m - 1)) [0; 31; 59; 90; 120; 151; 181; 212; 243; 273; 304; 334] 0 + (if (2 <? m) && leap_year y then 1 else 0).
Definition days_since (y m d : Z) : Z := 365 * (y - 1970) + ((y - 1) / 4 - (y - 1) / 100 + (y - 1) / 400 - 477) + month_start y m + (d - 1).
Definition timegm (y m d h mi se : Z) : Z := days_since y m d * 86400 + h * 3600 + mi * 60 + se.

(** 0 when the text is not a usable expiry. *)
Definition parseExpiry (text : list Z) : Z :=
  if Z.of_nat (length text) <? 10 then 0 else
  let vals := scanf date_time_format (cstr text) in
  let vals := if (length vals <? 3)%nat then scanf date_format (cstr text) else vals in
  if (length vals <? 3)%nat then 0 else
  let v i := nth i vals 0 in
  if (v 0%nat <? 1970) || (v 1%nat <? 1) || (12 <? v 1%nat) || (v 2%nat <? 1) || (31 <? v 2%nat) then 0
  else timegm (v 0%nat) (v 1%nat) (v 2%nat) (v 3%nat) (v 4%nat) (v 5%nat).

(** ** The file *)

Definition tool_name (n : Json) : option (list Z) := match n with JStr s => Some s | _ => None end.
(** One element of "tokens"; [None] is an exception. *)
Definition policy_entry (t : Json) : option PolicyEntry :=
  match t with
  | JObj m =>
      let name := match jfind (bs "name") m with Some (JStr s) => s | _ => [] end in
      match jfind (bs "sha256") m with
      | Some (JStr s) =>
          if negb (Z.of_nat (length s) =? 64) then None else
          let sha := map lower s in
          match (match jfind (bs "tools") m with
                 | Some (JStr s) => if bytes_eqb s (bs "*") then Some (true, []) else None
                 | Some (JArr l) => match mapM tool_name l with Some ns => Some (false, ns) | None => None end
                 | _ => None
                 end) with
          | None => None
          | Some (all, tools) =>
              match jfind (bs "expires") m with
              | Some (JStr e) =>
                  if parseExpiry e =? 0 then None
                  else Some {| pe_name := name; pe_sha256 := sha; pe_allTools := all; pe_tools := tools; pe_expiresAt := parseExpiry e |}
              | _ => Some {| pe_name := name; pe_sha256 := sha; pe_allTools := all; pe_tools := tools; pe_expiresAt := 0 |}
              end
          end
      | _ => None
      end
  | _ => None
  end.

(** What a file is when it is looked at: its modification time when it can be
    found, its content when it can be opened. *)
Record file_now := { f_mtime : option Z; f_content : option (list Z) }.
Record token_store := { st_tokens : TokenStore; lastMtime : Z; policyError : bool; lastPolicyMtime : Z; policyLoaded : bool }.
(** The settings: the token, and whether each of the two files is set. *)
Record token_config := { authToken : list Z; authTokenFile : bool; tokenPolicyFile : bool }.

Section Store.
Context (sha256Hex : list Z -> list Z) (parse : list Z -> option Json).

(** The entries of a content that is valid. *)
Definition policy_of (content : list Z) : option (list PolicyEntry) :=
  match parse content with
  | Some (JObj m) => match jfind (bs "tokens") m with Some (JArr l) => mapM policy_entry l | _ => None end
  | _ => None
  end.
Definition with_policy (ps : list PolicyEntry) (err : bool) (s : token_store) : token_store :=
  {| st_tokens := {| ts_token := ts_token (st_tokens s); ts_policies := ps |}; lastMtime := lastMtime s; policyError := err;
     lastPolicyMtime := lastPolicyMtime s; policyLoaded := policyLoaded s |}.
Definition with_token (t : list Z) (mtime : Z) (s : token_store) : token_store :=
  {| st_tokens := {| ts_token := t; ts_policies := ts_policies (st_tokens s) |}; lastMtime := mtime; policyError := policyError s;
     lastPolicyMtime := lastPolicyMtime s; policyLoaded := policyLoaded s |}.
Definition with_seen (mtime : Z) (loaded : bool) (s : token_store) : token_store :=
  {| st_tokens := st_tokens s; lastMtime := lastMtime s; policyError := policyError s; lastPolicyMtime := mtime; policyLoaded := loaded |}.
(** A file that cannot be read or is not valid keeps the last good policy. *)
Definition loadPolicyLocked (content : option (list Z)) (s : token_store) : token_store :=
  match content with
  | None => with_policy (ts_policies (st_tokens s)) true s
  | Some text =>
      match policy_of text with
      | None => with_policy (ts_policies (st_tokens s)) true s
      | Some next => with_policy next false s
      end
  end.

(** The two halves of reload: the token, then the credential file. *)
Definition reload_tokenFile (cfg : token_config) (force : bool) (tokenFile : file_now) (s : token_store) : token_store :=
  if authTokenFile cfg then
    match f_mtime tokenFile with
    | Some cur =>
        if force || negb (cur =? lastMtime s) then
          match f_content tokenFile with
          | Some content => match drop_cr (default content (before_char 10 content)) with [] => s | t => with_token t cur s end
          | None => s
          end
        else s
    | None => s
    end
  else with_token (authToken cfg) (lastMtime s) s.
Definition reload_policyFile (cfg : token_config) (force : bool) (policyFile : file_now) (s : token_store) : token_store :=
  if tokenPolicyFile cfg then
    match f_mtime policyFile with
    | Some cur =>
        if force || negb (cur =? lastPolicyMtime s) then let s := loadPolicyLocked (f_content policyFile) s in with_seen cur (policyLoaded s) s
        else s
    | None => if policyLoaded s then s else let s := loadPolicyLocked (f_content policyFile) s in with_seen (lastPolicyMtime s) true s
    end
  else with_seen (lastPolicyMtime s) true s.
Definition reload (cfg : token_config) (force : bool) (tokenFile policyFile : file_now) (s : token_store) : token_store :=
  reload_policyFile cfg force policyFile (reload_tokenFile cfg force tokenFile s).

(** The constructor. *)
Definition store0 : token_store :=
  {| st_tokens := {| ts_token := []; ts_policies := [] |}; lastMtime := 0; policyError := false; lastPolicyMtime := 0; policyLoaded := false |}.
Definition newTokenStore (cfg : token_config) (tokenFile policyFile : file_now) : token_store := reload cfg true tokenFile policyFile store0.

(** A check: the signal's flag, the files, the clock, and what was presented. *)
Record check_input := { ci_forced : bool; ci_tokenFile : file_now; ci_policyFile : file_now; ci_now : Z; ci_presented : list Z }.
Definition store_check (cfg : token_config) (i : check_input) (s : token_store) : Credential * token_store :=
  let s := if ci_forced i || authTokenFile cfg || tokenPolicyFile cfg then reload cfg (ci_forced i) (ci_tokenFile i) (ci_policyFile i) s else s in
  (check sha256Hex (st_tokens s) (ci_now i) (ci_presented i), s).
(** The store after a series of checks. *)
Definition after_checks (cfg : token_config) (ins : list check_input) (s : token_store) : token_store := fold_left (fun s i => snd (store_check cfg i s)) ins s.
End Store.
