(* ===== verification/McpPolicyProofs.v ===== *)
(** * The MCP server's credential file: proofs

    The calendar behind the expiry dates, and which version of the file a
    check is against; where a revocation does not arrive. *)

From S2P Require Import Prelude DaemonConf McpConf McpServer McpHttp McpHttpProofs McpPolicy.

(** ** The calendar *)

Definition month_length (y m : Z) : Z :=
  if m =? 2 then if leap_year y then 29 else 28 else if (m =? 4) || (m =? 6) || (m =? 9) || (m =? 11) then 30 else 31.
Definition next_day (d : Z * Z * Z) : Z * Z * Z :=
  let '(y, m, d) := d in
  if d <? month_length y m then (y, m, d + 1) else if m <? 12 then (y, m + 1, 1) else (y + 1, 1, 1).
Definition date_ok (d : Z * Z * Z) : Prop := let '(y, m, d) := d in 1970 <= y /\ 1 <= m <= 12 /\ 1 <= d <= month_length y m.
Lemma year_days y : days_since (y + 1) 1 1 = days_since y 1 1 + (if leap_year y then 366 else 365).
Proof.
  unfold days_since, month_start, leap_year. change (2 <? 1) with false. cbn [andb]. change (Z.to_nat (1 - 1)) with 0%nat. cbn [nth].
  replace (y + 1 - 1) with y by lia. 
  pose proof (Z.div_mod y 4 ltac:(lia)). pose proof (Z.mod_pos_bound y 4 ltac:(lia)). pose proof (Z.div_mod (y - 1) 4 ltac:(lia)). pose proof (Z.mod_pos_bound (y - 1) 4 ltac:(lia)).
  pose proof (Z.div_mod y 100 ltac:(lia)). pose proof (Z.mod_pos_bound y 100 ltac:(lia)). pose proof (Z.div_mod (y - 1) 100 ltac:(lia)). pose proof (Z.mod_pos_bound (y - 1) 100 ltac:(lia)).
  pose proof (Z.div_mod y 400 ltac:(lia)). pose proof (Z.mod_pos_bound y 400 ltac:(lia)). pose proof (Z.div_mod (y - 1) 400 ltac:(lia)). pose proof (Z.mod_pos_bound (y - 1) 400 ltac:(lia)).
  destruct (Z.eqb_spec (y mod 4) 0), (Z.eqb_spec (y mod 100) 0), (Z.eqb_spec (y mod 400) 0); cbn [negb andb orb]; lia.
Qed.
Lemma month_days y m : 1 <= m <= 11 -> month_start y (m + 1) = month_start y m + month_length y m.
Proof.
  intros Hm. assert (H : m = 1 \/ m = 2 \/ m = 3 \/ m = 4 \/ m = 5 \/ m = 6 \/ m = 7 \/ m = 8 \/ m = 9 \/ m = 10 \/ m = 11) by lia. unfold month_start, month_length.
  repeat match goal with H : _ \/ _ |- _ => destruct H as [H|H] end; subst m; cbn; by destruct (leap_year y).
Qed.
(** The days from 1970 on are counted one by one: the count of a date is the
    number of next days that lead to it from the first of January 1970. *)
Theorem days_counted n : let '(y, m, d) := Nat.iter n next_day (1970, 1, 1) in date_ok (y, m, d) /\ days_since y m d = Z.of_nat n.
Proof.
  induction n as [|n IH]; [done|]. change (Nat.iter (S n) next_day (1970, 1, 1)) with (next_day (Nat.iter n next_day (1970, 1, 1))). destruct (Nat.iter n next_day (1970, 1, 1)) as [[y m] d]. destruct IH as [(Hy & Hm & Hd) E].
  unfold next_day. destruct (Z.ltb_spec d (month_length y m)) as [Hl|Hl].
  - cbv iota beta. split; [unfold date_ok; lia|]. unfold days_since in *. lia.
  - assert (Ed : d = month_length y m) by lia. subst d. destruct (Z.ltb_spec m 12) as [Hm2|Hm2].
    + assert (Hml : 1 <= month_length y (m + 1)) by (unfold month_length; repeat case_match; lia).
      cbv iota beta. split; [unfold date_ok; lia|]. unfold days_since in *. rewrite month_days by lia. lia.
    + assert (Em : m = 12) by lia. subst m. cbv iota beta. split; [unfold date_ok, month_length; cbn; lia|]. pose proof (year_days y) as Hy2.
      assert (E1 : month_start y 12 = 334 + (if leap_year y then 1 else 0)) by done. assert (E2 : forall y', month_start y' 1 = 0) by done.
      change (month_length y 12) with 31 in *. unfold days_since in *. rewrite E1 in E. rewrite !E2 in *. destruct (leap_year y); lia.
Qed.

(** ** Which version of the file is in force *)

Section Store.
Context (sha256Hex : list Z -> list Z) (parse : list Z -> option Json) (version : Z -> list Z) (cfg : token_config).

(** A file whose content goes with its modification time, and which is not
    there to open when it is not there to look at. *)
Definition dated (f : file_now) : Prop :=
  match f_mtime f with Some t => 0 < t /\ f_content f = Some (version t) | None => f_content f = None end.
(** What the store knows: the entries of the version it saw last if that is
    valid, and in any case the entries of some valid version, or none. *)
Definition in_force (s : token_store) : Prop :=
  (lastPolicyMtime s <> 0 -> forall es, policy_of parse (version (lastPolicyMtime s)) = Some es -> ts_policies (st_tokens s) = es) /\
  (ts_policies (st_tokens s) = [] \/ exists t, policy_of parse (version t) = Some (ts_policies (st_tokens s))).

(** The part of a reload that reads the token file. *)
Definition same_policy (s s' : token_store) : Prop :=
  ts_policies (st_tokens s') = ts_policies (st_tokens s) /\ lastPolicyMtime s' = lastPolicyMtime s /\ policyLoaded s' = policyLoaded s.
Lemma reload_token_same force tokenFile s : same_policy s (reload_tokenFile cfg force tokenFile s).
Proof. unfold reload_tokenFile. repeat case_match; done. Qed.
Lemma in_force_same s s' : same_policy s s' -> in_force s -> in_force s'.
Proof. intros (E1 & E2 & _) [H1 H2]. unfold in_force. by rewrite E1, E2. Qed.
Lemma reload_in_force force tokenFile policyFile s : dated policyFile -> in_force s ->
  let s' := reload parse cfg force tokenFile policyFile s in
  in_force s' /\ (tokenPolicyFile cfg = true -> forall t, f_mtime policyFile = Some t ->
    (forall es, policy_of parse (version t) = Some es -> ts_policies (st_tokens s') = es) /\
    (policy_of parse (version t) = None -> ts_policies (st_tokens s') = ts_policies (st_tokens s))).
Proof.
  intros Hd Hs. unfold reload. pose proof (reload_token_same force tokenFile s) as Hsame. set (s1 := reload_tokenFile cfg force tokenFile s) in *. clearbody s1. unfold reload_policyFile. pose proof (in_force_same s s1 Hsame Hs) as H1. destruct Hsame as (Ep & _ & _).
  destruct (tokenPolicyFile cfg); [|done]. unfold dated in Hd. destruct (f_mtime policyFile) as [cur|].
  - destruct Hd as [Hpos Hc]. destruct (force || negb (cur =? lastPolicyMtime s1)) eqn:E.
    + cbv zeta. rewrite Hc. unfold loadPolicyLocked. destruct (policy_of parse (version cur)) as [es|] eqn:Ev.
      * split; [split; [intros _ es' Hes; cbn in Hes |- *; congruence|right; exists cur; exact Ev]|]. intros _ t [= <-]. split; [intros es' Hes; cbn; congruence|congruence].
      * split; [split; [intros _ es' Hes; cbn in Hes; congruence|exact (proj2 H1)]|]. intros _ t [= <-]. split; [congruence|]. intros _. exact Ep.
    + apply orb_false_iff in E as [_ E%negb_false_iff%Z.eqb_eq]. split; [exact H1|]. intros _ t [= <-]. split; [|intros _; exact Ep].
      intros es Hes. apply (proj1 H1); rewrite <- E; [lia|exact Hes].
  - destruct (policyLoaded s1); [by split|]. rewrite Hd. split; [exact H1|done].
Qed.
Lemma store0_in_force : in_force store0.
Proof. split; [done|by left]. Qed.
Lemma check_in_force i s : dated (ci_policyFile i) -> in_force s -> in_force (snd (store_check sha256Hex parse cfg i s)).
Proof. intros Hd Hs. unfold store_check. cbn [snd]. destruct (_ || _); [by apply reload_in_force|done]. Qed.
Lemma after_in_force ins : forall s, Forall (fun i => dated (ci_policyFile i)) ins -> in_force s -> in_force (after_checks sha256Hex parse cfg ins s).
Proof. induction ins as [|i ins IH]; intros s Hd Hs; [done|]. apply Forall_cons in Hd as [Hi Hd]. cbn. apply IH; [done|]. by apply check_in_force. Qed.

(** C35: A revocation takes effect at the next check that sees another
    modification time. For a credential file whose every change moves that
    time, kept in whole seconds ([dated]; a second rewrite within one second is
    not seen until a forced reload, [same_second_unseen]), whatever the checks, the
    forced reloads and the files before: a check made while the file is there
    and valid is against the entries it has then, so a token is let in only as
    the deployment's or by an unexpired entry that file has, for that entry's
    tools; while it is not valid the policy is the one before; and the policy
    in force is at all times that of some valid version, or empty. *)
Theorem credentials_current tokenFile policyFile ins i :
  tokenPolicyFile cfg = true -> dated policyFile -> Forall (fun i => dated (ci_policyFile i)) (ins ++ [i]) ->
  let s := after_checks sha256Hex parse cfg ins (newTokenStore parse cfg tokenFile policyFile) in
  let '(c, s') := store_check sha256Hex parse cfg i s in
  (ts_policies (st_tokens s') = [] \/ exists t, policy_of parse (version t) = Some (ts_policies (st_tokens s'))) /\
  forall t, f_mtime (ci_policyFile i) = Some t ->
    match policy_of parse (version t) with
    | Some es => cr_ok c = true ->
        vouched sha256Hex {| ts_token := ts_token (st_tokens s'); ts_policies := es |} (ci_now i) (ci_presented i) (cr_allow c)
    | None => ts_policies (st_tokens s') = ts_policies (st_tokens s)
    end.
Proof.
  intros Hcfg Hd0 Hd s. apply Forall_app in Hd as [Hd [Hi _]%Forall_cons]. assert (Hs : in_force s).
  { apply after_in_force; [done|]. exact (proj1 (reload_in_force true tokenFile policyFile store0 Hd0 store0_in_force)). }
  unfold store_check. rewrite Hcfg, orb_true_r. destruct (reload_in_force (ci_forced i) (ci_tokenFile i) (ci_policyFile i) s Hi Hs) as [[_ H2] H3].
  split; [exact H2|]. intros t Ht. destruct (H3 Hcfg t Ht) as [Hes Hnone]. destruct (policy_of parse (version t)) as [es|]; [|by apply Hnone].
  intros Hok. pose proof (check_vouched (fun _ => None) sha256Hex (fun _ => None) parse _ _ _ Hok) as Hv. rewrite <- (Hes es eq_refl). by destruct (st_tokens (reload _ _ _ _ _ _)).
Qed.
End Store.

(** A rewrite that leaves the modification time of the version last seen is
    not read until a forced reload: a client it removes is still let in. *)
Theorem same_second_unseen sha256Hex parse cfg tokenFile content now token s : tokenPolicyFile cfg = true -> authTokenFile cfg = false -> authToken cfg = [] ->
  let i := {| ci_forced := false; ci_tokenFile := tokenFile; ci_policyFile := {| f_mtime := Some (lastPolicyMtime s); f_content := content |}; ci_now := now; ci_presented := token |} in
  fst (store_check sha256Hex parse cfg i s) = check sha256Hex {| ts_token := []; ts_policies := ts_policies (st_tokens s) |} now token.
Proof. intros H1 H2 H3 i. unfold store_check, reload, reload_policyFile, reload_tokenFile. cbn [i ci_forced ci_policyFile ci_tokenFile f_mtime ci_now ci_presented]. rewrite H1, H2, H3. cbn. by rewrite Z.eqb_refl. Qed.

(** An expiry that is not a string is passed over, and the credential never
    expires; every other member of the wrong type makes the file invalid. *)
Theorem untyped_expiry_forever m v e : jfind (bs "expires") m = Some v -> (forall text, v <> JStr text) -> policy_entry (JObj m) = Some e -> forall now, entry_expired now e = false.
Proof.
  intros Hv Hn He now. unfold policy_entry in He. rewrite Hv in He. unfold entry_expired.
  assert (E : pe_expiresAt e = 0); [|by rewrite E].
  repeat case_match; simplify_eq; first [done|by destruct (Hn _ eq_refl)].
Qed.

(** ** The deployment the witness runs *)

Definition demo_entry (token tool : list Z) : Json :=
  jobj [(bs "sha256", JStr (demo_hex token)); (bs "tools", JArr [JStr tool]); (bs "expires", JStr (bs "2027-01-31"))].
Definition demo_policy (content : list Z) : option Json :=
  Some (jobj [(bs "tokens", JArr [match content with [1] => demo_entry (bs "abc") (bs "search") | _ => demo_entry (bs "xyz") (bs "ledger") end])]).
Definition demo_version (t : Z) : list Z := if t =? 10 then [1] else [2].
Definition demo_tokens : token_config := {| authToken := []; authTokenFile := false; tokenPolicyFile := true |}.
Definition demo_file (t : Z) : file_now := {| f_mtime := Some t; f_content := Some (demo_version t) |}.
Definition demo_check (t : Z) (token : list Z) : check_input :=
  {| ci_forced := false; ci_tokenFile := {| f_mtime := None; f_content := None |}; ci_policyFile := demo_file t; ci_now := 1700000000; ci_presented := token |}.
Definition demo_before : token_store := after_checks demo_hex demo_policy demo_tokens [demo_check 10 (bs "abc")] (newTokenStore demo_policy demo_tokens (demo_file 10) (demo_file 10)).
Definition demo_answer : Credential := fst (store_check demo_hex demo_policy demo_tokens (demo_check 20 (bs "xyz")) demo_before).
Example expiry_2027 : parseExpiry (bs "2027-01-31") = 1801353600 /\ parseExpiry (bs "2027-01-31T00:00:09Z") = 1801353609 /\ parseExpiry (bs "31.01.2027") = 0.
Proof. vm_compute. done. Qed.
Lemma credentials_current_witness : cr_ok demo_answer = true /\
  exists es, policy_of demo_policy (demo_version 20) = Some es /\ vouched demo_hex {| ts_token := []; ts_policies := es |} 1700000000 (bs "xyz") (cr_allow demo_answer).
Proof.
  assert (Hok : cr_ok demo_answer = true) by (vm_compute; reflexivity). split; [exact Hok|].
  assert (Hes : exists es, policy_of demo_policy (demo_version 20) = Some es) by (eexists; vm_compute; reflexivity). destruct Hes as [es Hes]. exists es. split; [exact Hes|].
  pose proof (credentials_current demo_hex demo_policy demo_version demo_tokens (demo_file 10) (demo_file 10) [demo_check 10 (bs "abc")] (demo_check 20 (bs "xyz"))
    eq_refl (conj eq_refl eq_refl)) as H.
  assert (Hd : Forall (fun i => dated demo_version (ci_policyFile i)) ([demo_check 10 (bs "abc")] ++ [demo_check 20 (bs "xyz")])).
  { repeat (apply Forall_cons; split; [split; reflexivity|]). apply Forall_nil. done. }
  specialize (H Hd). cbv zeta in H. fold demo_before in H. unfold demo_answer in *.
  assert (Et : ts_token (st_tokens (snd (store_check demo_hex demo_policy demo_tokens (demo_check 20 (bs "xyz")) demo_before))) = []) by (vm_compute; reflexivity).
  destruct (store_check demo_hex demo_policy demo_tokens (demo_check 20 (bs "xyz")) demo_before) as [c s']. cbn [fst snd] in *.
  destruct H as [_ H]. specialize (H 20 eq_refl). rewrite Hes in H. rewrite Et in H. exact (H Hok).
Defined.
