(* ===== verification/McpLog.v ===== *)
(** * The MCP server's log (mcp/src/logging.cpp, errors.cpp, tool_registry.h)

    What is masked in the text of an exception and in the arguments of a call
    before they are written to standard error, and the lines of one call.
    SHA-256 and the JSON printer are parameters, and so is the hash a client's
    key is abbreviated with. *)

From S2P Require Import Prelude DaemonConf McpConf McpServer.

(** ** errors.cpp *)

(** The longest run of characters of a class, and the rest. *)
Fixpoint span (f : Z -> bool) (s : list Z) : list Z * list Z :=
  match s with c :: r => if f c then let '(a, b) := span f r in (c :: a, b) else ([], s) | [] => ([], []) end.
Definition isWord (c : Z) : bool := isalnum c || (c =? 95).
Definition user_char (c : Z) : bool := negb (c =? 58) && negb (c =? 47) && negb (c =? 64) && negb (isspace c).
Definition password_char (c : Z) : bool := negb (c =? 64) && negb (isspace c).
Definition stars : list Z := bs "***".

(** "://user:password@" here: what is written for it up to the '@', and the
    text from the '@' on. *)
Definition uri_here (s : list Z) : option (list Z * list Z) :=
  match s with
  | a :: b :: c :: t =>
      if (a =? 58) && (b =? 47) && (c =? 47) then
        let '(user, t1) := span user_char t in
        match user, t1 with
        | _ :: _, c :: t2 =>
            if c =? 58 then
              let '(pw, t3) := span password_char t2 in
              match pw, t3 with
              | _ :: _, c :: _ => if c =? 64 then Some (bs "://" ++ user ++ bs ":" ++ stars, t3) else None
              | _, _ => None
              end
            else None
        | _, _ => None
        end
      else None
  | _ => None
  end.
Definition after_word (out s : list Z) : option (list Z * list Z) :=
  match out with x :: _ => if isWord x then uri_here s else None | [] => None end.
(** The loop; what has been written is kept in reverse. *)
Fixpoint uri_loop (fuel : nat) (out s : list Z) : list Z :=
  match fuel, s with
  | S fuel, c :: r =>
      match after_word out s with
      | Some (w, rest) => uri_loop fuel (rev w ++ out) rest
      | None => uri_loop fuel (c :: out) r
      end
  | _, _ => rev out
  end.
Definition maskUriCredentials (s : list Z) : list Z := uri_loop (length s) [] s.

(** The text whose reverse this is ends with the suffix, whatever the case. *)
Definition endsWithNoCase (out suffix : list Z) : bool :=
  bool_decide (map tolower (take (length suffix) out) = map tolower (rev suffix)).
Definition secret_key_ends (out : list Z) : bool :=
  let key := drop_while isspace out in
  endsWithNoCase key (bs "PASSWORD") || endsWithNoCase key (bs "AUTH_TOKEN") || endsWithNoCase key (bs "_KEY").
Definition value_here (s : list Z) : option (list Z * list Z) :=
  match s with
  | c :: t =>
      if c =? 61 then
        let '(blank, t1) := span isspace t in
        let '(v, t2) := span (fun c => negb (isspace c)) t1 in
        match v with _ :: _ => Some (61 :: blank ++ stars, t2) | [] => None end
      else None
  | [] => None
  end.
Definition after_key (out s : list Z) : option (list Z * list Z) := if secret_key_ends out then value_here s else None.
Fixpoint kv_loop (fuel : nat) (out s : list Z) : list Z :=
  match fuel, s with
  | S fuel, c :: r =>
      match after_key out s with
      | Some (w, rest) => kv_loop fuel (rev w ++ out) rest
      | None => kv_loop fuel (c :: out) r
      end
  | _, _ => rev out
  end.
Definition maskKeyValueCredentials (s : list Z) : list Z := kv_loop (length s) [] s.
Definition sanitizeSecrets (text : list Z) : list Z := maskKeyValueCredentials (maskUriCredentials text).

(** ** logging.cpp *)

Fixpoint contains (needle s : list Z) : bool :=
  bytes_eqb (take (length needle) s) needle || match s with [] => false | _ :: r => contains needle r end.
Definition looksSecretKey (key : list Z) : bool :=
  existsb (fun needle => contains needle (map tolower key)) [bs "token"; bs "password"; bs "key"; bs "secret"].
Inductive Level := L_Error | L_Info | L_Debug.
Definition level_value (l : Level) : Z := match l with L_Error => 10 | L_Info => 5 | L_Debug => 20 end.

Section Log.
Context (sha256 : list Z -> option (list Z)) (dump : Json -> list Z) (strHash : list Z -> Z).

Definition sha256_8 (s : list Z) : list Z := match sha256 s with Some d => flat_map hex_of (take 4 d) | None => bs "unavailable" end.
Definition digest_note (kind : list Z) (len : nat) (s : list Z) : Json :=
  JStr (bs "<" ++ kind ++ bs " len=" ++ dec_u (Z.of_nat len) ++ bs " sha256_8=" ++ sha256_8 s ++ bs ">").
Fixpoint redactAndCap (depth : Z) (v : Json) : Json :=
  match v with
  | JObj m =>
      if 2 <=? depth then JStr (bs "<object>")
      else JObj (map (fun kv => (fst kv, if looksSecretKey (fst kv) then JStr stars else redactAndCap (depth + 1) (snd kv))) m)
  | JArr l => digest_note (bs "array") (length l) (dump v)
  | JStr s => if (256 <? length s)%nat then digest_note (bs "str") (length s) s else v
  | _ => v
  end.

Definition emitLine (line : Json) : list Z := dump line ++ [10].
Definition client_digest (clientKey : list Z) : list Z := bs "c-" ++ flat_map hex_of (map (fun i => Z.land (Z.shiftr (strHash clientKey) (24 - 8 * i)) 255) [0; 1; 2; 3]).
Definition toolCall (level : Level) (toolName : list Z) (args : Json) (latency : Z) (err : option ErrorClass) (clientKey era : list Z) : list (list Z) :=
  if level_value level <? level_value L_Info then [] else
  [emitLine (jobj ([(bs "event", JStr (bs "tool_call")); (bs "tool", JStr toolName); (bs "latency_ms", JFloat latency)] ++
     (match clientKey with [] => [] | _ => [(bs "client", JStr (client_digest clientKey))] end) ++
     (match era with [] => [] | _ => [(bs "era", JStr era)] end) ++
     (match err with Some e => [(bs "error_class", JStr (errorClassName e))] | None => [] end) ++
     (match level, err with L_Debug, _ | _, Some Schema => [(bs "args", args)] | _, _ => [] end)))].
Definition exceptionDetail (where_ detail : list Z) : list Z :=
  emitLine (jobj [(bs "event", JStr (bs "exception")); (bs "where", JStr where_); (bs "detail", JStr detail); (bs "level", JStr (bs "error"))]).

(** The lines runTool writes for one call: the text of an exception that is no
    ToolError, then the call, from the arguments as the client sent them.  An
    exception of another handler, or of the dispatch itself, is logged by the
    dispatch core: [core_line]. *)
Definition call_lines (level : Level) (spec : ToolSpec) (args : Json) (latency : Z) (r : hres) (what : list Z) (cancelled : bool) (clientKey era : list Z) : list (list Z) :=
  let err := match validateArgs spec args with
             | Some e => Some (te_class e)
             | None => match runTool cancelled r with inl e => Some (te_class e) | inr _ => None end
             end in
  (match validateArgs spec args, r with None, H_exn => [exceptionDetail (t_name spec) (sanitizeSecrets what)] | _, _ => [] end) ++
  toolCall level (t_name spec) (redactAndCap 0 args) latency err clientKey era.
(** The catch blocks of the dispatch core (handleLine, and handleLineImpl with
    the request's method): the text of the exception as it is. *)
Definition core_line (where_ what : list Z) : list Z := exceptionDetail where_ what.
End Log.
