(* ===== verification/McpLogProofs.v ===== *)
(** * The MCP server's log: proofs

    What never reaches a line of the log: the password of a URI, the value of
    a secret key, the secret members of the arguments.  And what does. *)

From S2P Require Import Prelude DaemonConf McpConf McpServer McpLog.

(** ** Runs of characters *)

Lemma span_app f s : let '(a, b) := span f s in s = a ++ b /\ forallb f a = true /\ match b with c :: _ => f c = false | [] => True end.
Proof.
  induction s as [|c s IH]; [done|]. cbn [span]. destruct (f c) eqn:Ec; [|done]. destruct (span f s) as [a b]. destruct IH as (-> & Ha & Hb).
  split_and!; [done|cbn; by rewrite Ec|done].
Qed.
Lemma span_run f a b : forallb f a = true -> match b with c :: _ => f c = false | [] => True end -> span f (a ++ b) = (a, b).
Proof.
  intros Ha Hb. induction a as [|c a IH]; cbn [app].
  - destruct b as [|c b]; [done|]. cbn [span]. by rewrite Hb.
  - cbn in Ha. apply andb_true_iff in Ha as [Hc Ha]. cbn [span]. by rewrite Hc, IH.
Qed.
Lemma span_run2 f a c b t : forallb f a = true -> f c = false -> span f ((a ++ c :: b) ++ t) = (a, c :: b ++ t).
Proof. intros Ha Hc. rewrite <- app_assoc. by apply span_run. Qed.
Lemma span_through f s t : forallb f s = true -> span f (s ++ t) = let '(a, b) := span f t in (s ++ a, b).
Proof.
  intros Hs. pose proof (span_app f t) as H. destruct (span f t) as [a b]. destruct H as (-> & Ha & Hb). rewrite app_assoc. apply span_run; [|done].
  by rewrite forallb_app, Hs, Ha.
Qed.
Lemma last_of_suffix {A} (a b p : list A) (x : A) : a ++ b = p ++ [x] -> b <> [] -> exists q, b = q ++ [x].
Proof.
  intros E Hb. destruct (exists_last Hb) as (q & y & ->). rewrite app_assoc in E. apply app_inj_tail in E as [_ ->]. by exists q.
Qed.

(** ** The password of a URI *)

Lemma uri_shorter s w rest : uri_here s = Some (w, rest) -> (length rest < length s)%nat.
Proof.
  unfold uri_here. intros H. destruct s as [|x1 [|x2 [|x3 t]]]; try discriminate. destruct (_ && _); [|discriminate].
  pose proof (span_app user_char t) as H1. destruct (span user_char t) as [[|u us] [|c t2]]; try discriminate. destruct (c =? 58); [|discriminate]. destruct H1 as [-> _].
  pose proof (span_app password_char t2) as H2. destruct (span password_char t2) as [[|q qs] [|d t3]]; try discriminate. destruct (d =? 64); [|discriminate]. destruct H2 as [-> _].
  simplify_eq. cbn. rewrite !length_app. cbn. rewrite !length_app. cbn. lia.
Qed.
Lemma after_shorter out s w rest : after_word out s = Some (w, rest) -> (length rest < length s)%nat.
Proof. unfold after_word. destruct out as [|x out]; [done|]. destruct (isWord x); [apply uri_shorter|done]. Qed.
Lemma uri_fuel n m out s : (length s <= n)%nat -> (length s <= m)%nat -> uri_loop n out s = uri_loop m out s.
Proof.
  revert m out s. induction n as [|n IH]; intros m out s Hn Hm.
  - destruct s; [|cbn in Hn; lia]. by destruct m.
  - destruct s as [|c r]; [by destruct m|]. destruct m as [|m]; [cbn in Hm; lia|]. cbn [uri_loop].
    destruct (after_word out (c :: r)) as [[w rest]|] eqn:E; cbn [length] in *; [apply after_shorter in E; cbn in E|]; apply IH; lia.
Qed.
(** The loop from here, with the fuel it is given. *)
Definition uri_run (out s : list Z) : list Z := uri_loop (length s) out s.
Lemma uri_take out s w rest : after_word out s = Some (w, rest) -> uri_run out s = uri_run (rev w ++ out) rest.
Proof.
  intros E. pose proof (after_shorter _ _ _ _ E) as Hl. unfold uri_run. destruct s as [|c r]; [cbn in Hl; lia|]. cbn [uri_loop length] in *. rewrite E. apply uri_fuel; lia.
Qed.
Lemma uri_push out c r : after_word out (c :: r) = None -> uri_run out (c :: r) = uri_run (c :: out) r.
Proof. intros E. unfold uri_run. cbn [uri_loop length]. by rewrite E. Qed.

Section Uri.
Context (user post : list Z) (Huser : user <> []) (Hall : forallb user_char user = true).
Definition password_ok (pw : list Z) : Prop := pw <> [] /\ forallb password_char pw = true.
Definition with_password (pw : list Z) : list Z := bs "://" ++ user ++ bs ":" ++ pw ++ bs "@" ++ post.
Definition ends_word (p : list Z) : Prop := exists q c, p = q ++ [c] /\ isWord c = true.

Lemma user_is_password : forallb password_char user = true.
Proof using Hall.
  rewrite forallb_forall in *. intros c Hc. specialize (Hall c Hc). unfold user_char, password_char in *. bools. lia.
Qed.
Lemma run_to_at t pw : forallb password_char t = true -> password_ok pw ->
  span password_char (t ++ with_password pw) = (t ++ bs "://" ++ user ++ bs ":" ++ pw, 64 :: post).
Proof using Hall.
  intros Ht [_ Hpw]. unfold with_password. pose proof user_is_password as Hu.
  replace (t ++ bs "://" ++ user ++ bs ":" ++ pw ++ bs "@" ++ post) with ((t ++ bs "://" ++ user ++ bs ":" ++ pw) ++ 64 :: post) by (by rewrite <- !app_assoc).
  apply span_run; [|done]. rewrite !forallb_app, Ht, Hu, Hpw. done.
Qed.
Lemma uri_here_now pw : password_ok pw -> uri_here (with_password pw) = Some (bs "://" ++ user ++ bs ":" ++ stars, 64 :: post).
Proof using Huser Hall.
  intros Hp. unfold with_password, uri_here. cbn [bs app]. pose proof (run_to_at [] pw eq_refl Hp) as Hr.
  change (bs "://") with [58; 47; 47]. cbn [app]. rewrite !Z.eqb_refl. cbn [andb]. change (bs ":" ++ pw ++ bs "@" ++ post) with (58 :: pw ++ 64 :: post).
  rewrite (span_run user_char user) by done. destruct user as [|u us]; [done|]. rewrite Z.eqb_refl.
  destruct Hp as [Hne Hp]. rewrite (span_run password_char pw) by done. destruct pw; [done|]. by rewrite Z.eqb_refl.
Qed.
Lemma run_colon pw : password_ok pw -> exists zs, with_password pw = 58 :: zs /\ span password_char zs = (bs "//" ++ user ++ bs ":" ++ pw, 64 :: post).
Proof using Hall.
  intros [_ Hpw]. exists ((bs "//" ++ user ++ bs ":" ++ pw) ++ 64 :: post). split; [unfold with_password; by rewrite <- !app_assoc|].
  apply span_run; [|done]. rewrite !forallb_app, user_is_password, Hpw. done.
Qed.
Lemma ends_word_tail a b : ends_word (a ++ b) -> b <> [] -> ends_word b.
Proof. intros (q & c & E & Hc) Hb. destruct (last_of_suffix a b q c E Hb) as [q' ->]. by exists q', c. Qed.
Lemma ends_word_not a c : ends_word (a ++ [c]) -> isWord c = true.
Proof. intros (q & c' & E & Hc). by apply app_inj_tail in E as [_ ->]. Qed.
Lemma uri_here_uniform p : ends_word p ->
  (forall pw, password_ok pw -> uri_here (p ++ with_password pw) = None) \/
  (exists w, forall pw, password_ok pw -> uri_here (p ++ with_password pw) = Some (w, 64 :: post)) \/
  (exists w p2, ends_word p2 /\ (length p2 < length p)%nat /\ forall pw, password_ok pw -> uri_here (p ++ with_password pw) = Some (w, p2 ++ with_password pw)).
Proof using Hall.
  intros Hp. destruct p as [|x1 [|x2 [|x3 t]]].
  - by destruct Hp as ([|] & ? & ? & ?).
  - left. intros pw _. apply (ends_word_not []) in Hp. unfold uri_here. cbn. by destruct (Z.eqb_spec x1 58); [subst|].
  - left. intros pw _. apply (ends_word_not [x1]) in Hp. unfold uri_here. cbn. destruct (Z.eqb_spec x2 47); [by subst|]. by destruct (x1 =? 58).
  - unfold uri_here. cbn [app]. destruct ((x1 =? 58) && (x2 =? 47) && (x3 =? 47)) eqn:E; [|by left]. bools.
    assert (Ht : t <> []). { intros ->. apply (ends_word_not [x1; x2]) in Hp. assert (x3 = 47) as -> by lia. done. }
    apply (ends_word_tail [x1; x2; x3]) in Hp; [|done]. destruct (span user_char t) as [u [|c b]] eqn:Eu; pose proof (span_app user_char t) as Hs; rewrite Eu in Hs; destruct Hs as (-> & Hu & Hc).
    + right; left. rewrite app_nil_r in *. exists (bs "://" ++ u ++ bs ":" ++ stars). intros pw Hpw. destruct (run_colon pw Hpw) as (zs & E1 & E2). rewrite E1.
      rewrite (span_run user_char u) by done. destruct u as [|y u]; [done|]. rewrite Z.eqb_refl, E2. reflexivity.
    + destruct u as [|y u]; [left; intros pw _; by rewrite <- app_assoc, span_run|]. destruct (Z.eqb_spec c 58) as [->|Hn].
      2: { left. intros pw _. rewrite <- app_assoc, span_run by done. cbn [app]. by apply Z.eqb_neq in Hn as ->. }
      assert (Hb : b <> []). { intros ->. by apply ends_word_not in Hp. }
      replace ((y :: u) ++ 58 :: b) with (((y :: u) ++ [58]) ++ b) in Hp by (by rewrite <- app_assoc). apply ends_word_tail in Hp; [|done].
      destruct (span password_char b) as [w [|d b2]] eqn:Ew; pose proof (span_app password_char b) as Hs; rewrite Ew in Hs; destruct Hs as (-> & Hw & Hd).
      * right; left. rewrite app_nil_r in *. exists (bs "://" ++ (y :: u) ++ bs ":" ++ stars). intros pw Hpw. rewrite <- app_assoc, span_run by done. cbn [app]. rewrite Z.eqb_refl, run_to_at by done.
        destruct w; [done|]. cbn [app]. rewrite Z.eqb_refl. reflexivity.
      * destruct w as [|z w]; [left; intros pw _; rewrite <- app_assoc, span_run by done; cbn [app]; rewrite Z.eqb_refl; cbn [span]; by rewrite Hd|].
        destruct (Z.eqb_spec d 64) as [->|Hn].
        2: { left. intros pw _. rewrite <- app_assoc, span_run by done. cbn [app]. rewrite Z.eqb_refl. change (z :: (w ++ ?x :: b2) ++ ?t) with (((z :: w) ++ x :: b2) ++ t). rewrite span_run2 by done. cbn [app]. by apply Z.eqb_neq in Hn as ->. }
        right; right. exists (bs "://" ++ (y :: u) ++ bs ":" ++ stars), (64 :: b2). split; [by apply (ends_word_tail (z :: w))|]. split; [cbn; rewrite length_app; cbn; rewrite length_app; cbn; lia|].
        intros pw _. rewrite <- app_assoc, span_run by done. cbn [app]. rewrite Z.eqb_refl. change (z :: (w ++ ?x :: b2) ++ ?t) with (((z :: w) ++ x :: b2) ++ t). rewrite span_run2 by done. cbn [app]. rewrite Z.eqb_refl. reflexivity.
Qed.
Definition word_before (out p : list Z) : Prop := match p with [] => exists x o, out = x :: o /\ isWord x = true | _ => ends_word p end.
Lemma uri_uniform n : forall p out, (length p <= n)%nat -> word_before out p ->
  exists out', forall pw, password_ok pw -> uri_run out (p ++ with_password pw) = uri_run out' (64 :: post).
Proof using Huser Hall.
  induction n as [|n IH]; intros [|c p] out Hn Hw; try (cbn in Hn; lia).
  1-2: destruct Hw as (x & o & -> & Hx); eexists; intros pw Hpw; apply uri_take; cbn [app after_word]; rewrite Hx; by apply uri_here_now.
  assert (Hpush : exists out', forall pw, password_ok pw -> uri_run (c :: out) (p ++ with_password pw) = uri_run out' (64 :: post)).
  { apply IH; [cbn in Hn; lia|]. destruct p as [|d p]; [exists c, out; split; [done|by apply (ends_word_not [])]|]. by apply (ends_word_tail [c]). }
  assert (Hnone : (forall pw, password_ok pw -> after_word out ((c :: p) ++ with_password pw) = None) ->
    exists out', forall pw, password_ok pw -> uri_run out ((c :: p) ++ with_password pw) = uri_run out' (64 :: post)).
  { intros H. destruct Hpush as [out' E]. exists out'. intros pw Hpw. cbn [app]. rewrite uri_push; [by apply E|by apply H]. }
  destruct out as [|x o]; [by apply Hnone|]. cbn [after_word] in *. destruct (isWord x) eqn:Hx; [|by apply Hnone].
  destruct (uri_here_uniform (c :: p) Hw) as [H|[[w H]|(w & p2 & Hp2 & Hl & H)]]; [by apply Hnone| |].
  - exists (rev w ++ x :: o). intros pw Hpw. apply uri_take. cbn [after_word]. rewrite Hx. by apply H.
  - destruct (IH p2 (rev w ++ x :: o)) as [out' E]; [cbn in *; lia|destruct p2; [by destruct Hp2 as ([|] & ? & ? & ?)|exact Hp2]|]. exists out'. intros pw Hpw. rewrite <- (E pw Hpw). apply uri_take. cbn [after_word]. rewrite Hx. by apply H.
Qed.
End Uri.

(** ** The value of a key *)

Lemma value_shorter s w rest : value_here s = Some (w, rest) -> (length rest < length s)%nat.
Proof.
  unfold value_here. intros H. destruct s as [|c t]; [done|]. destruct (c =? 61); [|done].
  pose proof (span_app isspace t) as H1. destruct (span isspace t) as [b t1]. destruct H1 as [-> _].
  pose proof (span_app (fun c => negb (isspace c)) t1) as H2. destruct (span _ t1) as [[|v vs] t2]; [done|]. destruct H2 as [-> _].
  simplify_eq. cbn. rewrite length_app. cbn. rewrite length_app. lia.
Qed.
Lemma key_shorter out s w rest : after_key out s = Some (w, rest) -> (length rest < length s)%nat.
Proof. unfold after_key. destruct (secret_key_ends out); [apply value_shorter|done]. Qed.
Lemma kv_fuel n m out s : (length s <= n)%nat -> (length s <= m)%nat -> kv_loop n out s = kv_loop m out s.
Proof.
  revert m out s. induction n as [|n IH]; intros m out s Hn Hm.
  - destruct s; [|cbn in Hn; lia]. by destruct m.
  - destruct s as [|c r]; [by destruct m|]. destruct m as [|m]; [cbn in Hm; lia|]. cbn [kv_loop].
    destruct (after_key out (c :: r)) as [[w rest]|] eqn:E; cbn [length] in *; [apply key_shorter in E; cbn in E|]; apply IH; lia.
Qed.
Definition kv_run (out s : list Z) : list Z := kv_loop (length s) out s.
Lemma kv_take out s w rest : after_key out s = Some (w, rest) -> kv_run out s = kv_run (rev w ++ out) rest.
Proof.
  intros E. pose proof (key_shorter _ _ _ _ E) as Hl. unfold kv_run. destruct s as [|c r]; [cbn in Hl; lia|]. cbn [kv_loop length] in *. rewrite E. apply kv_fuel; lia.
Qed.
Lemma kv_push out c r : after_key out (c :: r) = None -> kv_run out (c :: r) = kv_run (c :: out) r.
Proof. intros E. unfold kv_run. cbn [kv_loop length]. by rewrite E. Qed.

Section Value.
Context (key post : list Z) (Hkey : map tolower key ∈ map (map tolower) [bs "PASSWORD"; bs "AUTH_TOKEN"; bs "_KEY"]).
Context (Hpost : match post with c :: _ => isspace c = true | [] => True end).
Definition value_ok (v : list Z) : Prop := v <> [] /\ forallb (fun c => negb (isspace c)) v = true.
Definition with_value (v : list Z) : list Z := bs "=" ++ v ++ post.
(** The key is the last of what was written and of what is to come. *)
Definition key_before (out p : list Z) : Prop := exists a, rev out ++ p = a ++ key.

Lemma key_chars : Forall (fun c => isspace c = false /\ c <> 61) key /\ key <> [].
Proof using Hkey.
  assert (H : Forall (fun c => isspace c = false /\ c <> 61) (map tolower key) /\ map tolower key <> []).
  { cbn [map] in Hkey. rewrite !elem_of_cons, elem_of_nil in Hkey.
    destruct Hkey as [->|[->|[->|[]]]]; (split; [|discriminate]); repeat (apply Forall_cons; split; [split; [reflexivity|discriminate]|]); by apply Forall_nil. }
  destruct H as [H Hne]. rewrite Forall_map in H. split; [|by intros ->]. eapply Forall_impl; [exact H|]. intros c [Hs Hq]. unfold tolower, isspace, isupper in *. destruct (_ && _) eqn:E; bools; lia.
Qed.
Lemma ends_with suffix out a : map tolower key = map tolower suffix -> out = rev key ++ a -> endsWithNoCase out suffix = true.
Proof.
  intros E ->. unfold endsWithNoCase. apply bool_decide_eq_true. assert (El : length suffix = length (rev key)).
  { rewrite length_rev. apply (f_equal length) in E. by rewrite !length_map in E. }
  rewrite El, take_app_length, !map_rev. by f_equal.
Qed.
Lemma key_found out : key_before out [] -> secret_key_ends out = true.
Proof using Hkey.
  intros [a E]. rewrite app_nil_r in E. apply (f_equal (@rev Z)) in E. rewrite rev_involutive, rev_app_distr in E. destruct key_chars as [Hc Hne].
  assert (Hd : drop_while isspace out = out).
  { rewrite E. destruct (exists_last Hne) as (k & x & Ek). rewrite Ek, rev_app_distr. cbn. rewrite Ek in Hc. apply Forall_app in Hc as [_ [[Hx _] _]%Forall_cons]. by rewrite Hx. }
  unfold secret_key_ends. rewrite Hd. cbn [map] in Hkey. rewrite !elem_of_cons, elem_of_nil in Hkey.
  destruct Hkey as [H|[H|[H|[]]]]; rewrite (ends_with _ _ _ H E), ?orb_true_r; done.
Qed.
Lemma key_inside out a p c : key_before out (a ++ c :: p) -> isspace c = true \/ c = 61 -> p <> [] /\ forall o, key_before o p.
Proof using Hkey.
  intros [b E] Hc. destruct key_chars as [Hk Hne]. rewrite app_assoc in E.
  assert (Hin : c ∉ key). { intros Hin. rewrite Forall_forall in Hk. destruct (Hk c Hin) as [H1 H2]. destruct Hc; congruence. }
  apply app_eq_inv in E as [(k & _ & Ek)|(k & _ & Ek)]; [exfalso; apply Hin; rewrite Ek; apply elem_of_app; right; by left|].
  destruct k as [|x k]; cbn [app] in Ek; [exfalso; apply Hin; rewrite <- Ek; by left|]. simplify_eq. split; [by destruct k|].
  intros o. exists (rev o ++ k). by rewrite app_assoc.
Qed.
Lemma key_not_blank o p : key_before o p -> p <> [] -> (forall o', key_before o' p) -> forallb isspace p = false.
Proof using Hkey.
  intros _ Hp Ho. destruct (Ho []) as [a E]. cbn in E. subst p. destruct key_chars as [Hk Hne]. rewrite forallb_app. destruct key as [|c k]; [done|].
  apply Forall_cons in Hk as [[Hc _] _]. cbn [forallb]. by rewrite Hc, andb_false_r.
Qed.
Lemma nonspace_run t v : forallb (fun c => negb (isspace c)) t = true -> value_ok v -> span (fun c => negb (isspace c)) (t ++ with_value v) = (t ++ bs "=" ++ v, post).
Proof using Hpost.
  intros Ht [_ Hv]. unfold with_value. replace (t ++ bs "=" ++ v ++ post) with ((t ++ bs "=" ++ v) ++ post) by (by rewrite <- !app_assoc).
  apply span_run; [by rewrite !forallb_app, Ht, Hv|]. destruct post; [done|]. by rewrite Hpost.
Qed.
Lemma value_here_now v : value_ok v -> value_here (with_value v) = Some (61 :: stars, post).
Proof using Hpost.
  intros [Hne Hv]. unfold with_value, value_here. change (bs "=" ++ v ++ post) with (61 :: (v ++ post)). cbn [Z.eqb Pos.eqb].
  assert (E : span isspace (v ++ post) = ([], v ++ post)). { destruct v as [|c v]; [done|]. cbn in Hv |- *. bools. by destruct (isspace c). }
  rewrite E.
  rewrite span_run by (first [done|destruct post; [done|]; by rewrite Hpost]). by destruct v.
Qed.
Lemma value_here_uniform out p : key_before out p -> p <> [] ->
  (forall v, value_ok v -> value_here (p ++ with_value v) = None) \/
  (exists w, forall v, value_ok v -> value_here (p ++ with_value v) = Some (w, post)) \/
  (exists w p2, (forall o, key_before o p2) /\ (length p2 < length p)%nat /\ forall v, value_ok v -> value_here (p ++ with_value v) = Some (w, p2 ++ with_value v)).
Proof using Hkey Hpost.
  intros Hp Hne. destruct p as [|c p]; [done|]. cbn [app value_here]. destruct (Z.eqb_spec c 61) as [->|Hc]; [|by left].
  destruct (key_inside out [] p 61 Hp) as [Hp0 Hk]; [by right|]. pose proof (key_not_blank out p (Hk out) Hp0 Hk) as Hb.
  pose proof (span_app isspace p) as Hs. destruct (span isspace p) as [b t]. destruct Hs as (-> & Hsp & Hd).
  destruct t as [|d t]; [rewrite app_nil_r in Hb; congruence|]. right.
  pose proof (span_app (fun c => negb (isspace c)) (d :: t)) as Hs. destruct (span _ (d :: t)) as [w b2] eqn:Ew. destruct Hs as (Et & Hw & He).
  assert (Hw0 : w <> []). { intros ->. cbn [span] in Ew. rewrite Hd in Ew. cbn in Ew. by destruct (span _ t). }
  destruct b2 as [|e b2].
  - left. exists (61 :: b ++ stars). intros v Hv. rewrite <- app_assoc. rewrite (span_run isspace b) by done. rewrite Et, app_nil_r, nonspace_run by done. by destruct w.
  - right. apply negb_false_iff in He. exists (61 :: b ++ stars), (e :: b2). rewrite Et in *. split_and!.
    + intros o. destruct (key_inside out (61 :: b ++ w) b2 e) as [_ H]; [change (key_before out (61 :: (b ++ w) ++ e :: b2)); by rewrite <- app_assoc|by left|]. destruct (H (e :: o)) as [a Ea]. exists a. rewrite <- Ea. cbn. by rewrite <- app_assoc.
    + cbn. rewrite !length_app. destruct w; [done|]. cbn. lia.
    + intros v Hv. rewrite <- app_assoc, (span_run isspace b) by (first [done|destruct w as [|x w]; [done|]; cbn in *; by simplify_eq]).
      rewrite (span_run2 (fun c => negb (isspace c)) w) by (done || by rewrite He). by destruct w.
Qed.
Lemma kv_uniform n : forall p out, (length p <= n)%nat -> key_before out p ->
  exists out', forall v, value_ok v -> kv_run out (p ++ with_value v) = kv_run out' post.
Proof using Hkey Hpost.
  induction n as [|n IH]; intros [|c p] out Hn Hw; try (cbn in Hn; lia).
  1-2: eexists; intros v Hv; apply kv_take; unfold after_key; rewrite key_found by done; by apply value_here_now.
  assert (Hnone : (forall v, value_ok v -> after_key out ((c :: p) ++ with_value v) = None) ->
    exists out', forall v, value_ok v -> kv_run out ((c :: p) ++ with_value v) = kv_run out' post).
  { intros H. destruct (IH p (c :: out)) as [out' E]; [cbn in Hn; lia|destruct Hw as [a Ea]; exists a; rewrite <- Ea; cbn; by rewrite <- app_assoc|].
    exists out'. intros v Hv. cbn [app]. rewrite kv_push; [by apply E|by apply H]. }
  unfold after_key in *. destruct (secret_key_ends out) eqn:Hs; [|by apply Hnone].
  destruct (value_here_uniform out (c :: p) Hw) as [H|[[w H]|(w & p2 & Hp2 & Hl & H)]]; [done|by apply Hnone| |].
  - exists (rev w ++ out). intros v Hv. apply kv_take. unfold after_key. rewrite Hs. by apply H.
  - destruct (IH p2 (rev w ++ out)) as [out' E]; [cbn in *; lia|done|]. exists out'. intros v Hv. rewrite <- (E v Hv). apply kv_take. unfold after_key. rewrite Hs. by apply H.
Qed.
End Value.

(** ** Texts and arguments that show the same *)

Definition no_scheme (s : list Z) : Prop := forall a b, s <> a ++ bs "://" ++ b.
Lemma uri_here_scheme s x : uri_here s = Some x -> exists b, s = bs "://" ++ b.
Proof.
  unfold uri_here. destruct s as [|x1 [|x2 [|x3 t]]]; try discriminate. destruct (_ && _) eqn:E; [|discriminate]. bools. intros _. exists t.
  assert (x1 = 58 /\ x2 = 47 /\ x3 = 47) as (-> & -> & ->) by lia. done.
Qed.
Lemma uri_no_scheme s : forall out, no_scheme s -> uri_run out s = rev out ++ s.
Proof.
  induction s as [|c s IH]; intros out Hs; [unfold uri_run; cbn; by rewrite app_nil_r|]. rewrite uri_push.
  - rewrite IH; [cbn; by rewrite <- app_assoc|]. intros a b E. apply (Hs (c :: a) b). cbn. by rewrite E.
  - unfold after_word. destruct out as [|x out]; [done|]. destruct (isWord x); [|done]. destruct (uri_here (c :: s)) eqn:E; [|done].
    apply uri_here_scheme in E as [b E]. by destruct (Hs [] b).
Qed.

(** Texts that differ in secrets the masking finds, step by step: in the
    password of a URI whose scheme ends as names do and whose user is not empty,
    a password without blanks or at signs; or in the value, without blanks, of a
    key PASSWORD, AUTH_TOKEN or _KEY as it stands once the passwords of URIs are
    masked (in a text without a URI, as it stands). What else a person would
    call a password is not covered: see [password_rest_shown]. *)
Inductive same_shown : list Z -> list Z -> Prop :=
  | SS_same s : same_shown s s
  | SS_trans s1 s2 s3 : same_shown s1 s2 -> same_shown s2 s3 -> same_shown s1 s3
  | SS_uri pre user pw pw' post : ends_word pre -> user <> [] -> forallb user_char user = true -> password_ok pw -> password_ok pw' ->
      same_shown (pre ++ with_password user post pw) (pre ++ with_password user post pw')
  | SS_key s s' pre key v v' post : map tolower key ∈ map (map tolower) [bs "PASSWORD"; bs "AUTH_TOKEN"; bs "_KEY"] ->
      match post with c :: _ => isspace c = true | [] => True end -> value_ok v -> value_ok v' ->
      maskUriCredentials s = (pre ++ key) ++ with_value post v -> maskUriCredentials s' = (pre ++ key) ++ with_value post v' ->
      same_shown s s'.
Lemma mask_plain s : no_scheme s -> maskUriCredentials s = s.
Proof. intros H. exact (uri_no_scheme s [] H). Qed.
Lemma sanitize_same s s' : same_shown s s' -> sanitizeSecrets s = sanitizeSecrets s'.
Proof.
  induction 1 as [s1|s1 s2 s3 _ IH1 _ IH2|pre user pw pw' post Hp Hu Hall H1 H2|s s' pre key v v' post Hk Hpost H1 H2 N1 N2]; [done|congruence| |]; unfold sanitizeSecrets.
  - unfold maskUriCredentials. change (uri_loop ?n [] ?x) with (uri_run [] x).
    destruct (uri_uniform user post Hu Hall (length pre) pre []) as [out E]; [done|destruct pre; [by destruct Hp as ([|] & ? & ? & ?)|exact Hp]|]. by rewrite (E pw H1), (E pw' H2).
  - rewrite N1, N2. destruct (kv_uniform key post Hk Hpost (length (pre ++ key)) (pre ++ key) []) as [out E]; [done|by exists pre|].
    unfold maskKeyValueCredentials. fold (kv_run [] ((pre ++ key) ++ with_value post v)) (kv_run [] ((pre ++ key) ++ with_value post v')). by rewrite (E v H1), (E v' H2).
Qed.

(** Arguments that differ in the values of secret keys, of the same type, and
    below the second level. *)
Definition same_type (v v' : Json) : Prop := (forall t, jsonTypeMatches t v = jsonTypeMatches t v') /\ jsonTypeMatches TArray v = false.
Inductive alike : Z -> Json -> Json -> Prop :=
  | A_same d v : alike d v v
  | A_deep d m m' : 2 <= d -> alike d (JObj m) (JObj m')
  | A_object d m m' : members_alike d m m' -> alike d (JObj m) (JObj m')
with members_alike : Z -> list (list Z * Json) -> list (list Z * Json) -> Prop :=
  | M_none d : members_alike d [] []
  | M_secret d k v v' m m' : looksSecretKey k = true -> same_type v v' -> members_alike d m m' -> members_alike d ((k, v) :: m) ((k, v') :: m')
  | M_member d k v v' m m' : alike (d + 1) v v' -> members_alike d m m' -> members_alike d ((k, v) :: m) ((k, v') :: m').
Scheme alike_mind := Induction for alike Sort Prop with members_mind := Induction for members_alike Sort Prop.
Combined Scheme alike_members_ind from alike_mind, members_mind.

Section Log.
Context (sha256 : list Z -> option (list Z)) (dump : Json -> list Z) (strHash : list Z -> Z).
Local Notation redact := (redactAndCap sha256 dump).
Definition redact_member (d : Z) (kv : list Z * Json) : list Z * Json := (fst kv, if looksSecretKey (fst kv) then JStr stars else redact (d + 1) (snd kv)).
Lemma redact_alike :
  (forall d v v', alike d v v' -> redact d v = redact d v') /\ (forall d m m', members_alike d m m' -> map (redact_member d) m = map (redact_member d) m').
Proof.
  apply alike_members_ind; try done.
  - intros d m m' Hd. cbn [redactAndCap]. by destruct (Z.leb_spec 2 d); [|lia].
  - intros d m m' _ E. cbn [redactAndCap]. destruct (2 <=? d); [done|]. f_equal. exact E.
  - intros d k v v' m m' Hk _ _ E. cbn [map]. rewrite E. f_equal. unfold redact_member. cbn [fst snd]. by rewrite Hk.
  - intros d k v v' m m' _ E1 _ E2. cbn [map]. rewrite E2. f_equal. unfold redact_member. cbn [fst snd]. by rewrite E1.
Qed.
Lemma objects_same_type m m' : same_type (JObj m) (JObj m').
Proof. split; [by intros []|done]. Qed.
Lemma jfind_alike d m m' k : members_alike d m m' ->
  jfind k m = jfind k m' \/ exists v v', jfind k m = Some v /\ jfind k m' = Some v' /\ same_type v v'.
Proof.
  induction 1 as [|d k1 v v' m m' Hk Hv Hm IH|d k1 v v' m m' Hv Hm IH]; [by left| |]; cbn [jfind]; destruct (bytes_eqb k k1); try done.
  - right. by exists v, v'.
  - inversion Hv; subst; [by left|right; eexists _, _; split_and!; [done..|apply objects_same_type]..].
Qed.
Lemma validate_alike d m m' ps : members_alike d m m' -> validate_params ps m = validate_params ps m'.
Proof.
  intros H. induction ps as [|p ps IH]; [done|]. cbn [validate_params]. destruct (jfind_alike d m m' (p_name p) H) as [->|(v & v' & -> & -> & Ht & Ha)].
  - by rewrite IH.
  - assert (Hn := Ht TNull). assert (Ha' := Ht TArray). rewrite Ha in Ha'. rewrite (Ht (p_type p)), IH.
    destruct v, v'; try discriminate; done.
Qed.
Lemma args_alike args args' spec : alike 0 args args' -> validateArgs spec args = validateArgs spec args'.
Proof. intros H. inversion H; subst; [done|lia|]. cbn. by eapply validate_alike. Qed.

(** C33: The lines runTool writes for a call hide the secrets the masking
    finds. At every level and whatever the outcome, they do not depend on the
    values of the arguments, down to the second level, whose name says token,
    password, key or secret, nor on what an exception's text has as the
    password of a URI with a user (a password without at signs or blanks) or as
    the value of a PASSWORD, AUTH_TOKEN or _KEY: two calls that differ in
    nothing else ([alike], [same_shown]) write the same lines.  The rest of a
    password with an at sign and the password of a URI without a user are
    written ([password_rest_shown]), and the dispatch core's own catch blocks
    do not mask at all ([core_logs_raw]). *)
Theorem log_hides_secrets level spec args args' latency r what what' cancelled clientKey era : alike 0 args args' -> same_shown what what' ->
  call_lines sha256 dump strHash level spec args latency r what cancelled clientKey era = call_lines sha256 dump strHash level spec args' latency r what' cancelled clientKey era.
Proof. intros Ha Hw. unfold call_lines. by rewrite (args_alike args args' spec Ha), (sanitize_same what what' Hw), (proj1 redact_alike 0 args args' Ha). Qed.
End Log.

(** ** What is shown all the same *)

(** The rest of a password with an at sign, and the password of a URI with no
    user, are left as they are. *)
Theorem password_rest_shown :
  sanitizeSecrets (bs "mysql://root:p@ss@db") = bs "mysql://root:***@ss@db" /\ sanitizeSecrets (bs "redis://:hunter2@cache") = bs "redis://:hunter2@cache".
Proof. split; vm_compute; reflexivity. Qed.
(** The catch blocks of the dispatch core log the text of the exception as it
    is: where the printer tells lines apart, no byte of it is hidden. *)
Theorem core_logs_raw dump where_ what what' : (forall v v', dump v = dump v' -> v = v') ->
  core_line dump where_ what = core_line dump where_ what' -> what = what'.
Proof. unfold core_line, exceptionDetail, emitLine. intros Hd E%app_inj_tail. destruct E as [E%Hd _]. by injection E. Qed.
(** The text of an argument is not searched: a connection string is logged. *)
Theorem connection_string_logged sha256 dump : redactAndCap sha256 dump 0 (jobj [(bs "dsn", JStr (bs "mysql://root:hunter2@db"))]) = jobj [(bs "dsn", JStr (bs "mysql://root:hunter2@db"))].
Proof. vm_compute. reflexivity. Qed.
(** A name that has one of the words anywhere is taken for a secret's. *)
Theorem keywords_masked sha256 dump v : redactAndCap sha256 dump 0 (JObj [(bs "keywords", v)]) = JObj [(bs "keywords", JStr stars)].
Proof. reflexivity. Qed.

(** ** The call the witness logs *)

Definition demo_tool : ToolSpec :=
  {| t_name := bs "fractalsql_set_config"; t_category := bs "admin"; t_description := []; t_class := Cheap; t_params := []; t_retryTier := None;
     destructiveHint := true; readOnlyHint := false; idempotentHint := false; openWorldHint := false; secretHint := true |}.
Definition demo_args (token : list Z) : Json := JObj [(bs "api_token", JStr token); (bs "name", JStr (bs "x"))].
Definition demo_text (password : list Z) : list Z := bs "mysql" ++ with_password (bs "root") (bs "db FSQL_DB_PASSWORD=" ++ password) password.
Definition demo_lines (token password : list Z) : list (list Z) :=
  call_lines (fun _ => None) (fun v => match v with JObj m => flat_map fst m | _ => [] end) (fun _ => 7) L_Debug demo_tool (demo_args token) 0 H_exn
    (demo_text password) false (bs "c") (bs "modern").
Lemma log_hides_secrets_witness : demo_lines (bs "tok-1") (bs "hunter2") = demo_lines (bs "another") (bs "x") /\ (length (demo_lines [] []) = 2)%nat.
Proof.
  split; [|vm_compute; reflexivity]. unfold demo_lines. apply log_hides_secrets.
  - apply A_object. apply M_secret; [vm_compute; reflexivity|split; [intros []; reflexivity|reflexivity]|]. apply M_member; [apply A_same|apply M_none].
  - apply (SS_trans _ (bs "mysql" ++ with_password (bs "root") (bs "db FSQL_DB_PASSWORD=hunter2") (bs "x"))).
    + apply SS_uri; [exists (bs "mysq"), 108; split; reflexivity|discriminate|vm_compute; reflexivity|split; [discriminate|vm_compute; reflexivity]|split; [discriminate|vm_compute; reflexivity]].
    + apply (SS_key _ _ (bs "mysql://root:***@db FSQL_DB_") (bs "PASSWORD") (bs "hunter2") (bs "x") []).
      * by apply list_elem_of_here.
      * exact I.
      * split; [discriminate|vm_compute; reflexivity].
      * split; [discriminate|vm_compute; reflexivity].
      * vm_compute; reflexivity.
      * vm_compute; reflexivity.
Defined.
