(* ===== verification/McpStart.v ===== *)
(** * The MCP server's start (mcp/src/main.cpp, build_tools.cpp, config.h,
    lock_paths.h, schema_lock.cpp, safety_lock.cpp)

    From the command line, the environment and the files to what is served, or
    the exit code.  The adapters' tools, the files, the executable's path, the
    database's and the listener's answers, SHA-256 and the JSON printer are
    parameters; what is printed on the way is left out. *)

From stdpp Require Import gmap.
From S2P Require Import Prelude DaemonConf McpConf McpServer McpHttp McpPolicy.

(** ** config.h *)

Section Env.
Context (getenv : list Z -> option (list Z)).
Definition envOr (name def : list Z) : list Z := default def (getenv name).
Definition envBoolOr (name : list Z) (def : bool) : bool :=
  match getenv name with None | Some [] => def | Some v => is_in [bs "true"; bs "1"; bs "on"; bs "yes"] (map lower v) end.
Definition atoi (v : list Z) : Z := s32 (fst (strtol (cstr v))).
Definition envIntOr (name : list Z) (def : Z) : Z := match getenv name with Some v => atoi v | None => def end.
(** [None]: the message is printed and the server does not start.  ERANGE is
    not looked at on its own: the value strtol gives with it is out of bounds. *)
Definition envIntAtLeast (name : list Z) (def minValue : Z) : option Z :=
  match getenv name with
  | None => Some def
  | Some v =>
      let '(n, e) := strtol v in
      if bytes_eqb e v || negb (bytes_eqb e []) || (n <? minValue) || (2147483647 <? n) then None else Some n
  end.

(** ** lock_paths.h *)

(** Whether the variable is set, and to a word for yes. *)
Definition lockEnvTruthy (name : list Z) : bool * bool :=
  match getenv name with None | Some [] => (false, false) | Some v => (true, is_in [bs "true"; bs "1"; bs "on"; bs "yes"] (map lower v)) end.
Definition requireLocks : bool :=
  if snd (lockEnvTruthy (bs "FSQL_MCP_ALLOW_MISSING_LOCKS")) then false
  else let '(reqSet, req) := lockEnvTruthy (bs "FSQL_MCP_REQUIRE_LOCKS") in negb (reqSet && negb req).
End Env.

(** The directory of the executable; [None] of [exe] is a failed readlink. *)
Fixpoint after_last (f : Z -> bool) (s : list Z) : option (list Z * list Z) :=
  match s with
  | [] => None
  | c :: r => match after_last f r with Some (a, b) => Some (c :: a, b) | None => if f c then Some ([], r) else None end
  end.
Definition selfDirectory (exe : option (list Z)) : list Z := match after_last (Z.eqb 47) (default [] exe) with Some (dir, _) => dir | None => [] end.
Definition base_name (path : list Z) : list Z := match after_last (fun c => (c =? 47) || (c =? 92)) path with Some (_, b) => b | None => path end.
(** [file]: the content of a file that can be opened. *)
Definition lockFileExists (file : list Z -> option (list Z)) (path : list Z) : bool := match file path with Some _ => true | None => false end.
Definition resolveLockPath (file : list Z -> option (list Z)) (exe : option (list Z)) (path : list Z) : list Z :=
  if lockFileExists file path then path
  else if negb (bytes_eqb path []) && negb (at_ path 0 =? 47) && forallb (fun c => negb (c =? 58)) path then
    let beside := selfDirectory exe ++ bs "/" ++ base_name path in
    if negb (bytes_eqb (selfDirectory exe) []) && lockFileExists file beside then beside else path
  else path.

(** ** safety_lock.cpp, schema_lock.cpp *)

Definition normalizeCrlf (s : list Z) : list Z := List.filter (fun c => negb (c =? 13)) s.
Fixpoint insert_tool (t : ToolSpec) (l : list ToolSpec) : list ToolSpec :=
  match l with [] => [t] | u :: r => if bytes_ltb (t_name t) (t_name u) then t :: l else u :: insert_tool t r end.
(** std::sort by the name; the names of a catalog differ. *)
Definition sort_tools (l : list ToolSpec) : list ToolSpec := fold_left (fun acc t => insert_tool t acc) l [].
Definition flag (b : bool) : list Z := if b then bs "1" else bs "0".
Definition safety_line (t : ToolSpec) : list Z :=
  t_name t ++ bs " destructive=" ++ flag (destructiveHint t) ++ bs " readOnly=" ++ flag (readOnlyHint t) ++ bs " idempotent=" ++ flag (idempotentHint t) ++
  bs " openWorld=" ++ flag (openWorldHint t) ++ bs " secret=" ++ flag (secretHint t) ++ [10].
Definition renderSafetyAnnotations (tools : list ToolSpec) : list Z := flat_map safety_line (sort_tools tools).
Definition checkSafetyAnnotations (lock : option (list Z)) (rendered : list Z) : bool :=
  match lock with None => true | Some existing => bytes_eqb (normalizeCrlf existing) rendered end.

Fixpoint sortKeysRecursive (v : Json) : Json :=
  match v with
  | JObj m => jobj (map (fun kv => (fst kv, sortKeysRecursive (snd kv))) m)
  | JArr l => JArr (map sortKeysRecursive l)
  | _ => v
  end.
Definition tool_projection (t : ToolSpec) : Json :=
  jobj [(bs "category", JStr (t_category t)); (bs "toolClass", JStr (match t_class t with Cheap => bs "cheap" | Expensive => bs "expensive" end));
        (bs "description", JStr (t_description t)); (bs "annotations", buildAnnotations t); (bs "inputSchema", buildInputSchema t)].
(** The digest of the catalog; [None] is an exception. *)
Definition computeSchemaHash (sha256 : list Z -> option (list Z)) (dump : Json -> list Z) (tools : list ToolSpec) : option (list Z) :=
  option_map (flat_map hex_of) (sha256 (dump (sortKeysRecursive (jobj (map (fun t => (t_name t, tool_projection t)) tools))))).
Inductive LockCheckResult := Lock_Ok | Lock_Warn | Lock_Absent.
Definition lock_blank (c : Z) : bool := (c =? 13) || (c =? 10) || (c =? 32) || (c =? 9).
Definition checkSchemaLock (lock : option (list Z)) (computedHash : list Z) : LockCheckResult :=
  match lock with
  | None => Lock_Absent
  | Some text => if bytes_eqb (rtrim lock_blank (default text (before_char 10 text))) computedHash then Lock_Ok else Lock_Warn
  end.

(** ** build_tools.cpp and the catalog of main.cpp *)

Definition contextIdParam : ToolParam :=
  {| p_name := bs "context_id"; p_type := TString; p_required := false; p_default := JNull;
     p_description := bs "Optional state handle (the modern protocol era's explicit context): omit it and the server mints one and returns it with the result; pass it back to keep using the same engine state. In the legacy era the protocol session supplies the context instead.";
     p_nullable := false; p_item := TNumber |}.
Definition with_params (ps : list ToolParam) (t : ToolSpec) : ToolSpec :=
  {| t_name := t_name t; t_category := t_category t; t_description := t_description t; t_class := t_class t; t_params := ps; t_retryTier := t_retryTier t;
     destructiveHint := destructiveHint t; readOnlyHint := readOnlyHint t; idempotentHint := idempotentHint t; openWorldHint := openWorldHint t; secretHint := secretHint t |}.
(** The tools of the adapters, in their order. *)
Definition buildAllTools (parts : list (list ToolSpec)) : list ToolSpec :=
  map (fun t => if isContextScopedTool (t_name t) then with_params (t_params t ++ [contextIdParam]) t else t) (classifyStateMutatingTools (concat parts)).
Fixpoint split_csv (cur s : list Z) : list (list Z) :=
  match s with
  | [] => match cur with [] => [] | _ => [cur] end
  | c :: s => if c =? 44 then (match cur with [] => [] | _ => [cur] end) ++ split_csv [] s else split_csv (cur ++ [c]) s
  end.
Definition splitCsv (s : list Z) : list (list Z) := split_csv [] s.
Definition applyCatalogFilters (tools : list ToolSpec) (enabledCategories toolWhitelist : list (list Z)) : list ToolSpec :=
  match enabledCategories, toolWhitelist with
  | [], [] => tools
  | _, _ =>
      List.filter (fun t => (match enabledCategories with [] => true | l => is_in l (t_category t) end) &&
                            (match toolWhitelist with [] => true | l => is_in l (t_name t) end)) tools
  end.

(** ** main.cpp *)

Record CliArgs := { writeLock : bool; writeSafetyLock : bool; writeManifest : bool; listTools : bool; httpMode : bool; httpPort : Z;
  httpBind : list Z; lockPath : list Z; safetyLockPath : list Z; manifestPath : list Z; toolWhitelist : list (list Z); enabledCategories : list (list Z) }.
Definition with_flags (wl ws wm li : bool) (a : CliArgs) : CliArgs :=
  {| writeLock := wl; writeSafetyLock := ws; writeManifest := wm; listTools := li; httpMode := httpMode a; httpPort := httpPort a; httpBind := httpBind a;
     lockPath := lockPath a; safetyLockPath := safetyLockPath a; manifestPath := manifestPath a; toolWhitelist := toolWhitelist a; enabledCategories := enabledCategories a |}.
Definition with_http (mode : bool) (port : Z) (bind : list Z) (a : CliArgs) : CliArgs :=
  {| writeLock := writeLock a; writeSafetyLock := writeSafetyLock a; writeManifest := writeManifest a; listTools := listTools a; httpMode := mode; httpPort := port; httpBind := bind;
     lockPath := lockPath a; safetyLockPath := safetyLockPath a; manifestPath := manifestPath a; toolWhitelist := toolWhitelist a; enabledCategories := enabledCategories a |}.
Definition with_paths (lock safety : list Z) (a : CliArgs) : CliArgs :=
  {| writeLock := writeLock a; writeSafetyLock := writeSafetyLock a; writeManifest := writeManifest a; listTools := listTools a; httpMode := httpMode a; httpPort := httpPort a; httpBind := httpBind a;
     lockPath := lock; safetyLockPath := safety; manifestPath := manifestPath a; toolWhitelist := toolWhitelist a; enabledCategories := enabledCategories a |}.
Definition with_filters (tools categories : list (list Z)) (a : CliArgs) : CliArgs :=
  {| writeLock := writeLock a; writeSafetyLock := writeSafetyLock a; writeManifest := writeManifest a; listTools := listTools a; httpMode := httpMode a; httpPort := httpPort a; httpBind := httpBind a;
     lockPath := lockPath a; safetyLockPath := safetyLockPath a; manifestPath := manifestPath a; toolWhitelist := tools; enabledCategories := categories |}.
(** The arguments after the program's name; an exit code ends the process. *)
Fixpoint parseArgs (argv : list (list Z)) (a : CliArgs) : Z + CliArgs :=
  match argv with
  | [] => inr a
  | arg :: rest =>
      if bytes_eqb arg (bs "--write-schema-lock") then parseArgs rest (with_flags true (writeSafetyLock a) (writeManifest a) (listTools a) a)
      else if bytes_eqb arg (bs "--write-safety-annotations-lock") then parseArgs rest (with_flags (writeLock a) true (writeManifest a) (listTools a) a)
      else if bytes_eqb arg (bs "--write-manifest") then parseArgs rest (with_flags (writeLock a) (writeSafetyLock a) true (listTools a) a)
      else if bytes_eqb arg (bs "--list-tools") then parseArgs rest (with_flags (writeLock a) (writeSafetyLock a) (writeManifest a) true a)
      else if bytes_eqb arg (bs "--schema-lock-path") then
        match rest with v :: rest => parseArgs rest (with_paths v (safetyLockPath a) a) | [] => inl 2 end
      else if bytes_eqb arg (bs "--tool") then
        match rest with v :: rest => parseArgs rest (with_filters (splitCsv v) (enabledCategories a) a) | [] => inl 2 end
      else if bytes_eqb arg (bs "--category") then
        match rest with v :: rest => parseArgs rest (with_filters (toolWhitelist a) (splitCsv v) a) | [] => inl 2 end
      else if bytes_eqb arg (bs "--http") then
        match rest with
        | v :: rest' => if at_ v 0 =? 45 then parseArgs rest (with_http true (httpPort a) (httpBind a) a) else parseArgs rest' (with_http true (atoi v) (httpBind a) a)
        | [] => inr (with_http true (httpPort a) (httpBind a) a)
        end
      else if bytes_eqb arg (bs "--bind") || bytes_eqb arg (bs "--host") then
        match rest with v :: rest => parseArgs rest (with_http (httpMode a) (httpPort a) v a) | [] => inl 2 end
      else if bytes_eqb arg (bs "--help") || bytes_eqb arg (bs "-h") || bytes_eqb arg (bs "--version") then inl 0
      else inl 2
  end.

(** The limits of the concurrency manager. *)
Record limits := { l_cheap : Z; l_expensive : Z; l_perClient : Z; l_maxQueueWaitMs : Z }.
Record http_settings := { h_host : list Z; h_port : Z; h_path : list Z; h_origins : list (list Z); h_tls : bool; h_tokens : token_config; h_drainMs : Z }.
(** How a start ends: an exit, an exception that ends the process, a file
    written, the tools listed, or a transport over a catalog; an HTTP session
    has its own. *)
Inductive started :=
  | S_exit (code : Z) | S_terminate | S_wrote (path content : list Z) | S_manifest (path : list Z) (manifest : Json) | S_listed (tools : list ToolSpec)
  | S_stdio (tools : list ToolSpec) (readOnly modern : bool) (l : limits) (drainMs : Z)
  | S_http (tools session : list ToolSpec) (readOnly modern : bool) (l : limits) (h : http_settings).

Section Start.
Context (getenv file : list Z -> option (list Z)) (exe : option (list Z)) (parts : list (list ToolSpec)).
Context (sha256 : list Z -> option (list Z)) (dump : Json -> list Z) (parse : list Z -> option Json).
Context (connects : bool).                                    (* the database answers *)
Context (tokenFile policyFile : list Z -> file_now).          (* the two files of credentials, by their path *)
Context (tlsLoads : bool) (inet_pton : list Z -> option Z) (listens : bool). (* the certificate and key; the socket *)

Definition cli0 : CliArgs :=
  {| writeLock := false; writeSafetyLock := false; writeManifest := false; listTools := false; httpMode := false;
     httpPort := envIntOr getenv (bs "FSQL_MCP_HTTP_PORT") 8765; httpBind := envOr getenv (bs "FSQL_MCP_BIND") (bs "127.0.0.1");
     lockPath := envOr getenv (bs "FSQL_MCP_SCHEMA_LOCK") (bs "mcp/.mcp-schema-lock");
     safetyLockPath := envOr getenv (bs "FSQL_MCP_SAFETY_LOCK") (bs "mcp/.mcp-safety-annotations-lock");
     manifestPath := envOr getenv (bs "FSQL_MCP_MANIFEST") (bs "mcp/manifest.json"); toolWhitelist := []; enabledCategories := [] |}.
(** main's changes of the arguments once they are parsed. *)
Definition resolved (a : CliArgs) : CliArgs :=
  let a := with_paths (resolveLockPath file exe (lockPath a)) (resolveLockPath file exe (safetyLockPath a)) a in
  with_filters (match toolWhitelist a with [] => splitCsv (envOr getenv (bs "FSQL_MCP_TOOL_WHITELIST") []) | l => l end)
               (match enabledCategories a with [] => splitCsv (envOr getenv (bs "FSQL_MCP_ENABLED_CATEGORIES") []) | l => l end) a.
Definition catalog (a : CliArgs) : list ToolSpec := applyCatalogFilters (applyDerivedHints (buildAllTools parts)) (enabledCategories a) (toolWhitelist a).
Definition manifest (tools : list ToolSpec) : Json :=
  jobj [(bs "name", JStr (bs "fractalsql-mariadb-mcp")); (bs "version", JStr (bs "2.0.12"));
        (bs "server", jobj [(bs "type", JStr (bs "binary")); (bs "entry_point", JStr (bs "fractalsql-mariadb-mcp"))]);
        (bs "tools", JArr (map (fun t => jobj [(bs "name", JStr (t_name t)); (bs "description", JStr (t_description t))]) tools))].
Definition maybeRunOneShot (a : CliArgs) (tools : list ToolSpec) (hash : list Z) : option started :=
  if writeLock a then Some (S_wrote (lockPath a) (hash ++ [10]))
  else if writeSafetyLock a then Some (S_wrote (safetyLockPath a) (renderSafetyAnnotations tools))
  else if writeManifest a then Some (S_manifest (manifestPath a) (manifest tools))
  else if listTools a then Some (S_listed tools)
  else None.
(** 0, or the exit code. *)
Definition checkSafetyGate (path : list Z) (tools : list ToolSpec) : Z :=
  if negb (lockFileExists file path) && requireLocks getenv then 3
  else if negb (checkSafetyAnnotations (file path) (renderSafetyAnnotations tools)) then 3 else 0.
Definition checkSchemaGate (path hash : list Z) : Z :=
  match checkSchemaLock (file path) hash with
  | Lock_Absent => if requireLocks getenv then 2 else 0
  | Lock_Warn => if envBoolOr getenv (bs "FSQL_MCP_STRICT_SCHEMA_HASH") true then 2 else 0
  | Lock_Ok => 0
  end.
Definition read_limits : option limits :=
  let at_least := fun name def => envIntAtLeast getenv name def 1 in
  match at_least (bs "FSQL_MCP_MAX_CONCURRENT_CHEAP") 50, at_least (bs "FSQL_MCP_MAX_CONCURRENT_EXPENSIVE") 5,
        at_least (bs "FSQL_MCP_MAX_CONCURRENT_EXPENSIVE_PER_CLIENT") 2, at_least (bs "FSQL_MCP_MAX_QUEUE_WAIT_MS") 900000 with
  | Some c, Some e, Some p, Some w => Some {| l_cheap := c; l_expensive := e; l_perClient := p; l_maxQueueWaitMs := w |}
  | _, _, _, _ => None
  end.

Definition token_settings : token_config :=
  {| authToken := envOr getenv (bs "FSQL_MCP_AUTH_TOKEN") []; authTokenFile := negb (bytes_eqb (envOr getenv (bs "FSQL_MCP_AUTH_TOKEN_FILE") []) []);
     tokenPolicyFile := negb (bytes_eqb (envOr getenv (bs "FSQL_MCP_TOKEN_POLICY_FILE") []) []) |}.
(** tokenPolicyError: what the constructor of a store comes to. *)
Definition store_now : token_store :=
  newTokenStore parse token_settings (tokenFile (envOr getenv (bs "FSQL_MCP_AUTH_TOKEN_FILE") [])) (policyFile (envOr getenv (bs "FSQL_MCP_TOKEN_POLICY_FILE") [])).
(** The listener of runHttpTransport comes up: its certificate, the address. *)
Definition listener_up (tls : bool) (host : list Z) : bool :=
  (negb tls || tlsLoads) && negb (bind_refused getenv inet_pton tls host) && listens.
Definition runHttpMode (a : CliArgs) (tools : list ToolSpec) (readOnly modern : bool) (l : limits) : started :=
  let tls := envBoolOr getenv (bs "FSQL_MCP_HTTP_TLS") false in
  let t := token_settings in
  let h := {| h_host := httpBind a; h_port := httpPort a; h_path := envOr getenv (bs "FSQL_MCP_HTTP_PATH") (bs "/mcp");
              h_origins := splitCsv (envOr getenv (bs "FSQL_MCP_ALLOWED_ORIGINS") []); h_tls := tls; h_tokens := t;
              h_drainMs := envIntOr getenv (bs "FSQL_MCP_SHUTDOWN_DRAIN_MS") 5000 |} in
  if bytes_eqb (authToken t) [] && negb (authTokenFile t) && negb (tokenPolicyFile t) then S_exit 2
  else if policyError store_now then S_exit 2
  else if tls && (bytes_eqb (envOr getenv (bs "FSQL_MCP_TLS_CERT") []) [] || bytes_eqb (envOr getenv (bs "FSQL_MCP_TLS_KEY") []) []) then S_exit 2
  else if negb (listener_up tls (httpBind a)) then S_exit 1
  else S_http tools (catalog a) readOnly modern l h.

Definition main (argv : list (list Z)) : started :=
  match parseArgs argv cli0 with
  | inl code => S_exit code
  | inr a =>
      let a := resolved a in
      let tools := catalog a in
      match computeSchemaHash sha256 dump tools with
      | None => S_terminate
      | Some hash =>
          match maybeRunOneShot a tools hash with
          | Some s => s
          | None =>
              if negb (checkSchemaGate (lockPath a) hash =? 0) then S_exit (checkSchemaGate (lockPath a) hash)
              else if negb (checkSafetyGate (safetyLockPath a) tools =? 0) then S_exit (checkSafetyGate (safetyLockPath a) tools)
              else match read_limits with
              | None => S_exit 2
              | Some l =>
                  let readOnly := envBoolOr getenv (bs "FSQL_MCP_READ_ONLY") false in
                  let modern := modernEraOnly getenv in
                  if httpMode a then runHttpMode a tools readOnly modern l
                  else if negb connects then S_exit 1
                  else S_stdio tools readOnly modern l (envIntOr getenv (bs "FSQL_MCP_SHUTDOWN_DRAIN_MS") 5000)
              end
          end
      end
  end.
End Start.
