(* ===== verification/McpStartProofs.v ===== *)
(** * The MCP server's start: proofs

    What was checked before a transport serves: the locks against the catalog
    that is served, the limits, the credentials, the address. *)

From stdpp Require Import gmap.
From S2P Require Import Prelude DaemonConf McpConf McpServer McpHttp McpPolicy McpStart.

(** ** The safety lock fixes the hints *)

(** A name as tools have: no blank and no line break. *)
Definition name_ok (t : ToolSpec) : Prop := Forall (fun c => c <> 32 /\ c <> 10) (t_name t).
Definition hints (t : ToolSpec) : list Z * (bool * bool * bool * bool * bool) :=
  (t_name t, (destructiveHint t, readOnlyHint t, idempotentHint t, openWorldHint t, secretHint t)).

Lemma first_blank a b x y : Forall (fun c => c <> 32 /\ c <> 10) a -> Forall (fun c => c <> 32 /\ c <> 10) b -> a ++ 32 :: x = b ++ 32 :: y -> a = b /\ x = y.
Proof.
  revert b. induction a as [|c a IH]; intros [|d b] Ha Hb E; cbn [app] in E.
  - by injection E as ->.
  - injection E as <- _. by apply Forall_cons in Hb as [[? _] _].
  - injection E as -> _. by apply Forall_cons in Ha as [[? _] _].
  - injection E as -> E. apply Forall_cons in Ha as [_ Ha], Hb as [_ Hb]. by destruct (IH b Ha Hb E) as [-> ->].
Qed.
Lemma flag_next b c x y : flag b ++ x = flag c ++ y -> b = c /\ x = y.
Proof. destruct b, c; cbn; intros E; by simplify_eq. Qed.
Lemma label_next (l x y : list Z) : l ++ x = l ++ y -> x = y.
Proof. apply app_inv_head. Qed.
Lemma line_next t u x y : name_ok t -> name_ok u -> safety_line t ++ x = safety_line u ++ y -> hints t = hints u /\ x = y.
Proof.
  intros Ht Hu E. unfold safety_line in E. rewrite <- !app_assoc in E.
  change (bs " destructive=") with (32 :: bs "destructive=") in E. cbn [app] in E. apply first_blank in E as [En E]; [|done..].
  apply label_next, flag_next in E as [E1 E]. apply label_next, flag_next in E as [E2 E]. apply label_next, flag_next in E as [E3 E].
  apply label_next, flag_next in E as [E4 E]. apply label_next, flag_next in E as [E5 E]. injection E as ->. unfold hints. by rewrite En, E1, E2, E3, E4, E5.
Qed.
Lemma lines_inj l : forall k, Forall name_ok l -> Forall name_ok k -> flat_map safety_line l = flat_map safety_line k -> map hints l = map hints k.
Proof.
  assert (Hne : forall t x, safety_line t ++ x <> []) by (intros t x E; apply (f_equal length) in E; unfold safety_line in E; rewrite !length_app in E; cbn in E; lia).
  induction l as [|t l IH]; intros [|u k] Hl Hk E; cbn [flat_map map] in *; [done|by destruct (Hne u (flat_map safety_line k))|by destruct (Hne t (flat_map safety_line l))|].
  apply Forall_cons in Hl as [Ht Hl]. apply Forall_cons in Hk as [Hu Hk]. apply line_next in E as [Eh E]; [|done..]. by rewrite Eh, (IH k Hl Hk E).
Qed.
Lemma insert_tool_perm t l : insert_tool t l ≡ₚ t :: l.
Proof. induction l as [|u l IH]; [done|]. cbn [insert_tool]. destruct (bytes_ltb _ _); [done|]. rewrite IH. apply Permutation_swap. Qed.
Lemma sort_tools_perm l : sort_tools l ≡ₚ l.
Proof.
  unfold sort_tools. assert (H : forall l acc, fold_left (fun acc t => insert_tool t acc) l acc ≡ₚ l ++ acc).
  { clear l. induction l as [|t l IH]; intros acc; [done|]. cbn [fold_left]. rewrite IH, insert_tool_perm. symmetry. apply Permutation_middle. }
  rewrite H. by rewrite app_nil_r.
Qed.
(** Equal renderings are of catalogs with the same tools and hints. *)
Lemma rendering_fixes_hints l k : Forall name_ok l -> Forall name_ok k -> renderSafetyAnnotations l = renderSafetyAnnotations k -> map hints l ≡ₚ map hints k.
Proof.
  intros Hl Hk E. rewrite <- (sort_tools_perm l), <- (sort_tools_perm k). unfold renderSafetyAnnotations in E.
  rewrite (lines_inj (sort_tools l) (sort_tools k)); [done|by rewrite sort_tools_perm..|done].
Qed.

(** ** What is served was checked *)

Lemma at_least_spec getenv name def m n : envIntAtLeast getenv name def m = Some n -> m <= def <= 2147483647 -> m <= n <= 2147483647.
Proof.
  unfold envIntAtLeast. destruct (getenv name) as [v|]; [|intros [= ->]; done]. destruct (strtol v) as [x e]. destruct (_ || _) eqn:E; [done|]. intros [= ->] _.
  bools. lia.
Qed.
Lemma read_limits_spec getenv l : read_limits getenv = Some l -> 
  1 <= l_cheap l <= 2147483647 /\ 1 <= l_expensive l <= 2147483647 /\ 1 <= l_perClient l <= 2147483647 /\ 1 <= l_maxQueueWaitMs l <= 2147483647.
Proof.
  unfold read_limits. repeat (match goal with |- context [match ?x with Some _ => _ | None => _ end] => destruct x eqn:? end; try done). intros [= <-]. cbn.
  split_and!; eapply at_least_spec; try done; lia.
Qed.

Section Start.
Context (getenv file : list Z -> option (list Z)) (exe : option (list Z)) (parts : list (list ToolSpec)).
Context (sha256 : list Z -> option (list Z)) (dump : Json -> list Z) (parse : list Z -> option Json).
Context (connects : bool) (tokenFile policyFile : list Z -> file_now) (tlsLoads : bool) (inet_pton : list Z -> option Z) (listens : bool).
Local Notation start := (main getenv file exe parts sha256 dump parse connects tokenFile policyFile tlsLoads inet_pton listens).

Definition off (name : list Z) : Prop := envBoolOr getenv name true = false.
(** The operator let the server start without its locks. *)
Definition locks_waived : Prop := requireLocks getenv = false.
(** The schema lock agrees, or the operator let it be. *)
Definition schema_checked (path : list Z) (tools : list ToolSpec) : Prop :=
  exists hash, computeSchemaHash sha256 dump tools = Some hash /\
  match file path with
  | Some text => rtrim lock_blank (default text (before_char 10 text)) = hash \/ off (bs "FSQL_MCP_STRICT_SCHEMA_HASH")
  | None => locks_waived
  end.
(** The safety lock agrees, or is missing by leave of the operator. *)
Definition safety_checked (path : list Z) (tools : list ToolSpec) : Prop :=
  match file path with
  | Some text => normalizeCrlf text = renderSafetyAnnotations tools /\
      forall committed, Forall name_ok committed -> Forall name_ok tools -> normalizeCrlf text = renderSafetyAnnotations committed -> map hints tools ≡ₚ map hints committed
  | None => locks_waived
  end.
Definition limits_ok (l : limits) : Prop :=
  1 <= l_cheap l <= 2147483647 /\ 1 <= l_expensive l <= 2147483647 /\ 1 <= l_perClient l <= 2147483647 /\ 1 <= l_maxQueueWaitMs l <= 2147483647.
(** A credential is set, the file of clients is valid, and the address is one
    that may be served in clear, or over TLS. *)
Definition http_checked (h : http_settings) : Prop :=
  (authToken (h_tokens h) <> [] \/ authTokenFile (h_tokens h) = true \/ tokenPolicyFile (h_tokens h) = true) /\
  policyError (newTokenStore parse (h_tokens h) (tokenFile (envOr getenv (bs "FSQL_MCP_AUTH_TOKEN_FILE") [])) (policyFile (envOr getenv (bs "FSQL_MCP_TOKEN_POLICY_FILE") []))) = false /\
  (h_tls h = true -> tlsLoads = true) /\ bind_refused getenv inet_pton (h_tls h) (h_host h) = false.

Lemma schema_gate path tools hash : computeSchemaHash sha256 dump tools = Some hash -> checkSchemaGate getenv file path hash = 0 -> schema_checked path tools.
Proof.
  intros Eh H. exists hash. split; [done|]. unfold checkSchemaGate, checkSchemaLock in H. destruct (file path) as [text|].
  - destruct (bytes_eqb _ hash) eqn:E; [left; by apply bytes_eqb_true|right]. unfold off. by destruct (envBoolOr _ _ _).
  - unfold locks_waived. by destruct (requireLocks getenv).
Qed.
Lemma safety_gate path tools : checkSafetyGate getenv file path tools = 0 -> safety_checked path tools.
Proof.
  unfold checkSafetyGate, safety_checked, lockFileExists, checkSafetyAnnotations, locks_waived. destruct (file path) as [text|]; cbn [negb andb].
  - destruct (bytes_eqb _ _) eqn:E; [|done]. apply bytes_eqb_true in E. intros _. split; [done|]. intros committed Hc Ht Ec. apply rendering_fixes_hints; [done..|congruence].
  - by destruct (requireLocks getenv).
Qed.
Lemma http_spec a tools ro mo l s : runHttpMode getenv parts parse tokenFile policyFile tlsLoads inet_pton listens a tools ro mo l = s ->
  match s with S_http tools' session ro' _ l' h => ro' = ro /\ tools' = tools /\ session = catalog parts a /\ l' = l /\ http_checked h | S_exit code => code <> 0 | _ => False end.
Proof.
  intros <-. unfold runHttpMode. destruct (_ && _ && _) eqn:E1; [done|]. destruct (policyError _) eqn:E2; [done|]. destruct (_ && (_ || _)) eqn:E3; [done|].
  destruct (negb (listener_up _ _ _ _ _ _)) eqn:E4; [done|]. split_and!; try done. unfold http_checked. cbn [h_tokens h_tls h_host].
  unfold listener_up in E4. bools. split_and!; [|done| |done].
  - apply andb_false_iff in E1 as [[E1|E1]%andb_false_iff|E1]; bools; [left|right; by left|right; by right].
    intros Ht. rewrite Ht in E1. discriminate.
  - intros Ht. rewrite Ht in *. done.
Qed.

(** C36: Nothing is served that was not checked. When a start reaches a
    transport, over standard input or HTTP, the catalog it serves, and that of
    every HTTP session, is the adapters' narrowed by the operator's categories
    and names; the schema lock has its digest and the safety lock its hints
    (so that its tools are those of the committed file with the same hints),
    except where a variable of the operator's waives a lock; every limit is a
    positive int; and an HTTP start has a credential, a valid file of clients
    if one is named, and an address that may be served. *)
Theorem serving_checked argv tools session readOnly modern l :
  (exists drain, start argv = S_stdio tools readOnly modern l drain /\ session = tools) \/ (exists h, start argv = S_http tools session readOnly modern l h) ->
  exists a, option_map (resolved getenv file exe) (match parseArgs argv (cli0 getenv) with inr a => Some a | inl _ => None end) = Some a /\
    tools = catalog parts a /\ session = tools /\
    schema_checked (lockPath a) tools /\ safety_checked (safetyLockPath a) tools /\ limits_ok l /\
    readOnly = envBoolOr getenv (bs "FSQL_MCP_READ_ONLY") false /\
    forall h, start argv = S_http tools session readOnly modern l h -> http_checked h.
Proof.
  unfold main. destruct (parseArgs argv (cli0 getenv)) as [code|a0]; [intros [(? & [=] & _)|(? & [=])]|]. set (a := resolved getenv file exe a0).
  destruct (computeSchemaHash _ _ _) as [hash|] eqn:Eh; [|intros [(? & [=] & _)|(? & [=])]].
  destruct (maybeRunOneShot _ _ _) as [s|] eqn:Eo; [unfold maybeRunOneShot in Eo; intros H; exfalso; repeat case_match; simplify_eq; destruct H as [(? & [=] & _)|(? & [=])]|].
  destruct (checkSchemaGate _ _ _ _ =? 0) eqn:E1; cbn [negb]; [|intros [(? & [=] & _)|(? & [=])]].
  destruct (checkSafetyGate _ _ _ _ =? 0) eqn:E2; cbn [negb]; [|intros [(? & [=] & _)|(? & [=])]].
  destruct (read_limits getenv) as [l0|] eqn:El; [|intros [(? & [=] & _)|(? & [=])]].
  apply Z.eqb_eq in E1, E2. intros H. exists a. split; [done|].
  assert (Hs : tools = catalog parts a /\ session = tools /\ l = l0 /\ readOnly = envBoolOr getenv (bs "FSQL_MCP_READ_ONLY") false).
  { destruct (httpMode a).
    - destruct H as [(d & H & _)|[h H]]; [by apply http_spec in H|]. pose proof (http_spec _ _ _ _ _ _ H) as (-> & -> & -> & -> & _). by split_and!.
    - destruct connects; [|destruct H as [(d & H & _)|[h H]]; discriminate]. destruct H as [(d & H & ->)|[h H]]; [injection H; intros; subst; by split_and!|discriminate]. }
  destruct Hs as (Et & -> & El2 & Er). rewrite El2. split_and!; try done.
  - rewrite Et. by eapply schema_gate.
  - rewrite Et. by apply safety_gate.
  - by apply (read_limits_spec getenv).
  - intros h Hh. destruct (httpMode a); [|by destruct connects]. by apply http_spec in Hh as (_ & _ & _ & _ & Hh).
Qed.
End Start.

(** ** Where the checks do not do what they are for *)

(** A narrowed catalog does not pass the lock of the whole one: with the lock
    that comes with the server, a whitelist that leaves a tool out keeps the
    server from starting. *)
Theorem narrowed_catalog_refused getenv file parts a path text : Forall name_ok (applyDerivedHints (buildAllTools parts)) ->
  file path = Some text -> normalizeCrlf text = renderSafetyAnnotations (applyDerivedHints (buildAllTools parts)) ->
  (length (catalog parts a) < length (applyDerivedHints (buildAllTools parts)))%nat -> checkSafetyGate getenv file path (catalog parts a) = 3.
Proof.
  intros Hn Hf Ht Hl. unfold checkSafetyGate, lockFileExists, checkSafetyAnnotations. rewrite Hf, Ht. cbn [negb andb].
  destruct (bytes_eqb _ _) eqn:E; [|done]. exfalso. apply bytes_eqb_true, rendering_fixes_hints in E; [|done|].
  - apply Permutation_length in E. rewrite !length_map in E. lia.
  - unfold catalog, applyCatalogFilters. repeat case_match; try done; apply List.Forall_forall; intros x [Hx _]%filter_In; rewrite List.Forall_forall in Hn; by apply Hn.
Qed.
(** Any word but four in FSQL_MCP_REQUIRE_LOCKS waives the locks, and in
    FSQL_MCP_STRICT_SCHEMA_HASH makes a mismatch a warning. *)
Theorem misspelt_switch_waives : let env v := fun n => if is_in [bs "FSQL_MCP_REQUIRE_LOCKS"; bs "FSQL_MCP_STRICT_SCHEMA_HASH"] n then Some v else None in
  Forall (fun v => requireLocks (env v) = false /\ envBoolOr (env v) (bs "FSQL_MCP_STRICT_SCHEMA_HASH") true = false) [bs "ture"; bs "required"; bs "true "].
Proof. repeat (apply Forall_cons; split; [split; vm_compute; reflexivity|]). by apply Forall_nil. Qed.
(** A filter of commas alone publishes every tool. *)
Theorem comma_filter_publishes_all tools : applyCatalogFilters tools (splitCsv (bs ",")) (splitCsv (bs ",,")) = tools.
Proof. reflexivity. Qed.

(** ** The start the witness makes *)

Definition demo_tool (name : list Z) : ToolSpec :=
  {| t_name := name; t_category := bs "discovery"; t_description := bs "d"; t_class := Cheap; t_params := []; t_retryTier := None;
     destructiveHint := false; readOnlyHint := true; idempotentHint := true; openWorldHint := false; secretHint := false |}.
Definition demo_parts : list (list ToolSpec) := [[demo_tool (bs "fractal_search")]; [demo_tool (bs "fractal_distance")]].
Definition demo_env (n : list Z) : option (list Z) := if bytes_eqb n (bs "FSQL_MCP_AUTH_TOKEN") then Some (bs "secret") else if bytes_eqb n (bs "FSQL_MCP_READ_ONLY") then Some (bs "On") else None.
Definition demo_files (p : list Z) : option (list Z) :=
  if bytes_eqb p (bs "/opt/mcp/.mcp-schema-lock") then Some (bs "00" ++ [13; 10])
  else if bytes_eqb p (bs "/opt/mcp/.mcp-safety-annotations-lock") then Some (renderSafetyAnnotations [demo_tool (bs "fractal_distance")]) else None.
Definition no_file : file_now := {| f_mtime := None; f_content := None |}.
Definition demo_start (http : bool) : started :=
  main demo_env demo_files (Some (bs "/opt/mcp/server")) demo_parts (fun _ => Some [0]) (fun _ => []) (fun _ => None) true (fun _ => no_file) (fun _ => no_file) true (fun _ => None) true
    ((if http then [bs "--http"; bs "9000"] else []) ++ [bs "--tool"; bs "fractal_distance"]).
Definition served (s : started) : list (list Z) := match s with S_stdio t _ _ _ _ | S_http t _ _ _ _ _ => map t_name t | _ => [] end.
Lemma serving_checked_witness : served (demo_start true) = [bs "fractal_distance"] /\
  exists tools l h, demo_start true = S_http tools tools true false l h /\ limits_ok l /\ http_checked demo_env (fun _ => None) (fun _ => no_file) (fun _ => no_file) true (fun _ => None) h.
Proof.
  split; [vm_compute; reflexivity|].
  assert (H : match demo_start true with S_http _ _ ro mo _ _ => (ro, mo) | _ => (false, true) end = (true, false)) by (vm_compute; reflexivity).
  destruct (demo_start true) as [| | | | | |tools session ro mo l h] eqn:E; try discriminate H. injection H as -> ->.
  destruct (serving_checked demo_env demo_files (Some (bs "/opt/mcp/server")) demo_parts (fun _ => Some [0]) (fun _ => []) (fun _ => None) true (fun _ => no_file) (fun _ => no_file) true (fun _ => None) true
    ([bs "--http"; bs "9000"] ++ [bs "--tool"; bs "fractal_distance"]) tools session true false l) as (a & _ & _ & Es & _ & _ & Hl & _ & Hh); [right; by exists h|].
  subst session. exists tools, l, h. split; [done|]. split; [exact Hl|]. by apply Hh.
Defined.
