(* ===== verification/McpLoop.v ===== *)
(** * The MCP server's loops (mcp/src/transport_stdio.cpp, transport_http.cpp)

    Standard input: the reader, a worker for each line, at most 64 of them, and
    their answers on standard output.  HTTP: the accept loop, a thread for each
    connection, the reaper, and the refusals past the limit.  What a worker
    answers and when a thread runs is open: the steps interleave. *)

From S2P Require Import Prelude McpHttp.

(** ** Standard input and output *)

(** The bytes of a line that are kept, the rest of the input, and whether a
    line break ended it. *)
Fixpoint read_until_eol (room : Z) (s : list Z) : list Z * list Z * bool :=
  match s with
  | [] => ([], [], false)
  | c :: r =>
      if c =? 10 then ([], r, true)
      else let '(l, rest, eol) := read_until_eol (if 0 <? room then room - 1 else 0) r in (if 0 <? room then c :: l else l, rest, eol)
  end.
(** [None] at the end of the input. *)
Definition readLineBounded (maxBytes : Z) (s : list Z) : option (list Z * list Z) :=
  let '(l, rest, eol) := read_until_eol maxBytes s in
  if eol then Some (l, rest) else match l with [] => None | _ => Some (l, rest) end.
Definition kMaxLine : Z := 8 * 1024 * 1024.
Definition kMaxLiveWorkers : nat := 64.
Definition blank_line (l : list Z) : bool := forallb crlf_space l.

(** A worker: at its line, with an answer to write or none, done. *)
Inductive worker := W_running (line : list Z) | W_answer (r : list Z) | W_done.
(** The main thread: before a read, with a line to hand on, waiting for the
    requests in flight, joining, returned. *)
Inductive reader := R_read | R_hand (line : list Z) | R_drain | R_join | R_return.
(** The live workers have the number of their line; [spawned] is every line
    handed on, [answers] what the workers answered, [written] the answers
    written, and they are kept only to be spoken about. *)
Record stdio := { s_main : reader; s_input : list Z; s_signalled : bool; s_shutting : bool; s_workers : list (nat * worker); s_output : list Z;
  spawned : list (list Z); answers : list (nat * option (list Z)); written : list (nat * list Z) }.
Definition stdio0 (input : list Z) : stdio :=
  {| s_main := R_read; s_input := input; s_signalled := false; s_shutting := false; s_workers := []; s_output := []; spawned := []; answers := []; written := [] |}.
Definition with_main (m : reader) (input : list Z) (s : stdio) : stdio :=
  {| s_main := m; s_input := input; s_signalled := s_signalled s; s_shutting := s_shutting s; s_workers := s_workers s; s_output := s_output s;
     spawned := spawned s; answers := answers s; written := written s |}.
Definition with_workers (ws : list (nat * worker)) (s : stdio) : stdio :=
  {| s_main := s_main s; s_input := s_input s; s_signalled := s_signalled s; s_shutting := s_shutting s; s_workers := ws; s_output := s_output s;
     spawned := spawned s; answers := answers s; written := written s |}.
Definition is_done (w : nat * worker) : bool := match snd w with W_done => true | _ => false end.
(** Reap the workers that are done, and hand the line to a new one if there is
    room. *)
Definition hand_on (line : list Z) (s : stdio) : stdio :=
  let live := List.filter (fun w => negb (is_done w)) (s_workers s) in
  if (length live <? kMaxLiveWorkers)%nat || s_signalled s then
    {| s_main := R_read; s_input := s_input s; s_signalled := s_signalled s; s_shutting := s_shutting s; s_workers := live ++ [(length (spawned s), W_running line)];
       s_output := s_output s; spawned := spawned s ++ [line]; answers := answers s; written := written s |}
  else with_workers live s.
(** One step of the main thread; waiting for the requests in flight ends when
    they have ended, or at the deadline. *)
Definition main_step (s : stdio) : option stdio :=
  match s_main s with
  | R_read =>
      if s_signalled s then Some (with_main R_drain (s_input s) s) else
      match readLineBounded kMaxLine (s_input s) with
      | None => Some (with_main R_drain [] s)
      | Some (line, rest) => Some (with_main (if blank_line line || s_shutting s then R_read else R_hand line) rest s)
      end
  | R_hand line => Some (hand_on line s)
  | R_drain => Some (with_main R_join (s_input s) s)
  | R_join => if forallb is_done (s_workers s) then Some {| s_main := R_return; s_input := s_input s; s_signalled := s_signalled s; s_shutting := true; s_workers := [];
                s_output := s_output s; spawned := spawned s; answers := answers s; written := written s |} else None
  | R_return => None
  end.
(** A worker: handleLine answers, one write of the line, the flag. *)
Definition worker_step (w : nat * worker) (resp : option (list Z)) (s : stdio) : stdio :=
  let set v := map (fun x => if Nat.eqb (fst x) (fst w) then (fst w, v) else x) (s_workers s) in
  match snd w with
  | W_running _ =>
      {| s_main := s_main s; s_input := s_input s; s_signalled := s_signalled s; s_shutting := s_shutting s;
         s_workers := set (match resp with Some r => W_answer r | None => W_done end); s_output := s_output s;
         spawned := spawned s; answers := answers s ++ [(fst w, resp)]; written := written s |}
  | W_answer r =>
      {| s_main := s_main s; s_input := s_input s; s_signalled := s_signalled s; s_shutting := s_shutting s; s_workers := set W_done; s_output := s_output s ++ r ++ [10];
         spawned := spawned s; answers := answers s; written := written s ++ [(fst w, r)] |}
  | W_done => s
  end.
Inductive stdio_step (s : stdio) : stdio -> Prop :=
  | SS_main s' : main_step s = Some s' -> stdio_step s s'
  | SS_worker w resp : w ∈ s_workers s -> stdio_step s (worker_step w resp s)
  | SS_signal : stdio_step s {| s_main := s_main s; s_input := s_input s; s_signalled := true; s_shutting := s_shutting s; s_workers := s_workers s; s_output := s_output s;
      spawned := spawned s; answers := answers s; written := written s |}.
(** The lines of an input, with fuel for each of its bytes. *)
Fixpoint stdin_lines (fuel : nat) (s : list Z) : list (list Z) :=
  match fuel with
  | O => []
  | S fuel => match readLineBounded kMaxLine s with Some (l, rest) => l :: stdin_lines fuel rest | None => [] end
  end.
Definition requests (s : list Z) : list (list Z) := List.filter (fun l => negb (blank_line l)) (stdin_lines (length s) s).

(** ** The accept loop *)

Definition kMaxRefusalsInFlight : nat := 64.
(** maxConnections: the variable, half the descriptors of the process. *)
Definition maxConnections (v : option (list Z)) (rlim_cur : option Z) : Z :=
  let n := match v with Some v => let x := fst (strtol v) in if 0 <? x then x else 256 | None => 256 end in
  match rlim_cur with Some r => if 8 <? r then Z.min n (s64 (r / 2)) else n | None => n end.
(** The accept thread between two polls, or with a connection it has admitted. *)
Inductive acceptor := A_poll | A_admitted (fd : Z).
(** The connections with whether their thread is done, the refusals that are
    still delivered; [accepted], [closed] and [leaked] are what became of the
    descriptors, and are kept only to be spoken about. *)
Record http_loop := { a_pc : acceptor; a_conns : list (Z * bool); a_refusals : list Z; accepted : list Z; closed : list Z; leaked : list Z }.
Definition http_loop0 : http_loop := {| a_pc := A_poll; a_conns := []; a_refusals := []; accepted := []; closed := []; leaked := [] |}.
Definition reap (s : http_loop) : http_loop :=
  {| a_pc := a_pc s; a_conns := List.filter (fun c => negb (snd c)) (a_conns s); a_refusals := a_refusals s; accepted := accepted s; closed := closed s; leaked := leaked s |}.
(** A connection comes in: past the limit it is refused, in clear by a thread
    of its own while there are few of them. *)
Definition accept (tls : bool) (connLimit : nat) (fd : Z) (s : http_loop) : http_loop :=
  let s := reap s in
  if (connLimit <=? length (a_conns s))%nat then
    if negb tls && (length (a_refusals s) <? kMaxRefusalsInFlight)%nat then
      {| a_pc := A_poll; a_conns := a_conns s; a_refusals := fd :: a_refusals s; accepted := fd :: accepted s; closed := closed s; leaked := leaked s |}
    else {| a_pc := A_poll; a_conns := a_conns s; a_refusals := a_refusals s; accepted := fd :: accepted s; closed := fd :: closed s; leaked := leaked s |}
  else {| a_pc := A_admitted fd; a_conns := a_conns s; a_refusals := a_refusals s; accepted := fd :: accepted s; closed := closed s; leaked := leaked s |}.
Definition start_thread (fd : Z) (s : http_loop) : http_loop :=
  reap {| a_pc := A_poll; a_conns := a_conns s ++ [(fd, false)]; a_refusals := a_refusals s; accepted := accepted s; closed := closed s; leaked := leaked s |}.
(** A connection's thread ends: closeWire, which for TLS frees the session and
    leaves the socket, and the flag. *)
Definition finish (tls : bool) (fd : Z) (l r : list (Z * bool)) (s : http_loop) : http_loop :=
  {| a_pc := a_pc s; a_conns := l ++ (fd, true) :: r; a_refusals := a_refusals s; accepted := accepted s;
     closed := if tls then closed s else fd :: closed s; leaked := if tls then fd :: leaked s else leaked s |}.
Definition refused (fd : Z) (l r : list Z) (s : http_loop) : http_loop :=
  {| a_pc := a_pc s; a_conns := a_conns s; a_refusals := l ++ r; accepted := accepted s; closed := fd :: closed s; leaked := leaked s |}.
Inductive accept_step (tls : bool) (connLimit : nat) (s : http_loop) : http_loop -> Prop :=
  | AS_accept fd : a_pc s = A_poll -> accept_step tls connLimit s (accept tls connLimit fd s)
  | AS_start fd : a_pc s = A_admitted fd -> accept_step tls connLimit s (start_thread fd s)
  | AS_finish l fd r : a_conns s = l ++ (fd, false) :: r -> accept_step tls connLimit s (finish tls fd l r s)
  | AS_refused l fd r : a_refusals s = l ++ fd :: r -> accept_step tls connLimit s (refused fd l r s)
  | AS_reap : accept_step tls connLimit s (reap s).
