(* ===== verification/McpLoopProofs.v ===== *)
(** * The MCP server's loops: proofs

    Every request of standard input is answered once, each answer whole on a
    line of its own; the workers and the connections are bounded. *)

From stdpp Require Import relations.
From S2P Require Import Prelude McpHttp McpLoop.

(** ** Reading *)

Lemma read_rest room s : let '(_, rest, eol) := read_until_eol room s in (length rest <= length s)%nat /\ (eol = true -> (length rest < length s)%nat) /\ (eol = false -> rest = []).
Proof.
  revert room. induction s as [|c s IH]; intros room; cbn [read_until_eol]; [done|]. destruct (c =? 10); [cbn; split_and!; [lia|lia|done]|].
  specialize (IH (if 0 <? room then room - 1 else 0)). destruct (read_until_eol _ s) as [[l rest] eol]. destruct IH as (H1 & H2 & H3). cbn [length].
  split_and!; [lia| |done]. intros E. specialize (H2 E). lia.
Qed.
Lemma readLine_shorter n s l rest : readLineBounded n s = Some (l, rest) -> (length rest < length s)%nat.
Proof.
  unfold readLineBounded. pose proof (read_rest n s) as H. destruct (read_until_eol n s) as [[l' rest'] [|]] eqn:E.
  - intros [= <- <-]. by apply H.
  - destruct H as (_ & _ & H). rewrite (H eq_refl). destruct l' as [|x l']; [done|]. intros [= <- <-]. destruct s; [discriminate|]. cbn. lia.
Qed.
Lemma readLine_none n s : readLineBounded n s = None -> stdin_lines (length s) s = [] \/ n <> kMaxLine.
Proof. destruct (decide (n = kMaxLine)) as [->|]; [|by right]. intros E. left. destruct s; [done|]. cbn [length stdin_lines]. by rewrite E. Qed.
Lemma stdin_fuel n m s : (length s <= n)%nat -> (length s <= m)%nat -> stdin_lines n s = stdin_lines m s.
Proof.
  revert m s. induction n as [|n IH]; intros m s Hn Hm.
  - destruct s; [|cbn in Hn; lia]. by destruct m.
  - destruct m as [|m]; [destruct s; [done|cbn in Hm; lia]|]. cbn [stdin_lines]. destruct (readLineBounded kMaxLine s) as [[l rest]|] eqn:E; [|done].
    apply readLine_shorter in E. f_equal. apply IH; lia.
Qed.
Lemma requests_none s : readLineBounded kMaxLine s = None -> requests s = [].
Proof. intros E. unfold requests. by destruct (readLine_none _ _ E) as [->|]. Qed.
Lemma requests_some s l rest : readLineBounded kMaxLine s = Some (l, rest) -> requests s = (if blank_line l then [] else [l]) ++ requests rest.
Proof.
  intros E. pose proof (readLine_shorter _ _ _ _ E) as Hl. unfold requests. destruct s as [|c s]; [done|]. cbn [length] in *. cbn [stdin_lines]. rewrite E.
  rewrite (stdin_fuel (length s) (length rest)) by lia. cbn [List.filter]. by destruct (blank_line l).
Qed.

(** ** Exactly one answer *)

#[local] Arguments requests : simpl never.
Definition running (ws : list (nat * worker)) : list nat := omap (fun w => match snd w with W_running _ => Some (fst w) | _ => None end) ws.
Definition answering (ws : list (nat * worker)) : list (nat * list Z) := omap (fun w => match snd w with W_answer r => Some (fst w, r) | _ => None end) ws.
Definition given (l : list (nat * option (list Z))) : list (nat * list Z) := omap (fun a => option_map (pair (fst a)) (snd a)) l.
Definition pending (s : stdio) : list (list Z) := match s_main s with R_hand l => [l] | _ => [] end.
Definition closing (m : reader) : Prop := match m with R_read | R_hand _ => False | _ => True end.
Record good (input : list Z) (s : stdio) : Prop := {
  g_lines : spawned s ++ pending s ++ requests (s_input s) = requests input;
  g_end : closing (s_main s) -> s_signalled s = false -> s_input s = [];
  g_shut : s_shutting s = true -> s_main s = R_return;
  g_ids : NoDup (map fst (s_workers s)) /\ Forall (fun w => (fst w < length (spawned s))%nat) (s_workers s);
  g_held : Forall (fun w => match snd w with W_running l => spawned s !! fst w = Some l | _ => True end) (s_workers s);
  g_answers : map fst (answers s) ++ running (s_workers s) ≡ₚ seq 0 (length (spawned s));
  g_given : given (answers s) ≡ₚ written s ++ answering (s_workers s);
  g_out : s_output s = flat_map (fun a => snd a ++ [10]) (written s);
  g_bound : (length (s_workers s) <= kMaxLiveWorkers + (if s_signalled s then match s_main s with R_hand _ => 0 | _ => 1 end else 0))%nat;
  g_return : s_main s = R_return -> s_workers s = [] }.

#[local] Arguments running : simpl never.
#[local] Arguments answering : simpl never.
#[local] Arguments given : simpl never.
#[local] Arguments kMaxLiveWorkers : simpl never.
Lemma good0 input : good input (stdio0 input).
Proof. split; cbn; try done; try lia. split; [apply NoDup_nil_2|by apply Forall_nil]. Qed.
Lemma set_worker (ws a b : list (nat * worker)) i v0 v : ws = a ++ (i, v0) :: b -> NoDup (map fst ws) -> map (fun x => if Nat.eqb (fst x) i then (i, v) else x) ws = a ++ (i, v) :: b.
Proof.
  intros -> Hn. rewrite map_app in Hn. cbn [map fst] in Hn. apply NoDup_app in Hn as (_ & Ha & Hb). apply NoDup_cons in Hb as [Hb _].
  assert (Hid : forall l, i ∉ map fst l -> map (fun x => if Nat.eqb (fst x) i then (i, v) else x) l = l).
  { intros l. induction l as [|x l IH]; [done|]. cbn [map]. rewrite not_elem_of_cons. intros [Hx Hl]. rewrite IH by done. destruct (Nat.eqb_spec (fst x) i); [congruence|done]. }
  assert (Hai : i ∉ map fst a) by (intros Hi; apply (Ha i Hi); by left). rewrite map_app. cbn [map fst]. by rewrite Nat.eqb_refl, !Hid.
Qed.
Lemma filter_sub {A} (f : A -> bool) l : List.filter f l `sublist_of` l.
Proof. induction l as [|x l IH]; cbn [List.filter]; [constructor|]. destruct (f x); [by apply sublist_skip|by apply sublist_cons]. Qed.
Lemma live_same ws : running (List.filter (fun w => negb (is_done w)) ws) = running ws /\ answering (List.filter (fun w => negb (is_done w)) ws) = answering ws.
Proof. induction ws as [|[i [l|r|]] ws [IH1 IH2]]; [done|..]; unfold running, answering in *; cbn; by rewrite ?IH1, ?IH2. Qed.
Lemma hand_good input s line : good input s -> s_main s = R_hand line -> good input (hand_on line s).
Proof.
  intros [Hl He Hs [Hi1 Hi2] Hh Ha Hg Ho Hb Hr] Em. unfold hand_on. set (live := List.filter _ _).
  pose proof (filter_sub (fun w => negb (is_done w)) (s_workers s)) as Hsub. fold live in Hsub.
  assert (Hf : forall P, Forall P (s_workers s) -> Forall P live). { intros P HP. rewrite Forall_forall in *. intros x Hx. apply HP. by eapply elem_of_sublist. }
  destruct (live_same (s_workers s)) as [Hrun Hans]. fold live in Hrun, Hans. unfold pending in Hl. rewrite Em in Hl.
  assert (Hlen := sublist_length _ _ Hsub). rewrite Em in Hb. assert (Hb2 : (length (s_workers s) <= kMaxLiveWorkers)%nat) by (destruct (s_signalled s); lia).
  assert (Hid : NoDup (map fst live)) by (eapply sublist_NoDup; [exact Hi1|by apply fmap_sublist]).
  destruct ((length live <? kMaxLiveWorkers)%nat || s_signalled s) eqn:Er.
  - split; unfold pending; cbn; rewrite ?length_app; cbn.
    + by rewrite <- app_assoc.
    + done.
    + intros E. by rewrite (Hs E) in Em.
    + split.
      * rewrite map_app. cbn. apply NoDup_app. split_and!; [done| |apply NoDup_singleton]. intros x Hx ->%list_elem_of_singleton. apply list_elem_of_fmap in Hx as (w & E & Hw).
        apply Hf in Hi2. rewrite Forall_forall in Hi2. specialize (Hi2 w Hw). lia.
      * apply Forall_app. split; [|apply Forall_singleton; cbn; rewrite ?length_app; cbn; lia]. eapply Forall_impl; [exact (Hf _ Hi2)|]. intros w Hw. cbn in Hw |- *. rewrite ?length_app. cbn. lia.
    + apply Forall_app. split; [|apply Forall_singleton; cbn; by rewrite list_lookup_middle].
      eapply Forall_impl; [exact (proj2 (Forall_and _ _) (conj (Hf _ Hi2) (Hf _ Hh)))|]. intros [j [l| |]] [Hj Hw]; cbn in *; try done. by apply lookup_app_l_Some.
    + unfold running in *. rewrite omap_app. cbn. rewrite Hrun, app_assoc, Ha, Nat.add_1_r, seq_S. done.
    + unfold answering in *. rewrite omap_app. cbn. rewrite Hans, app_nil_r. done.
    + done.
    + destruct (s_signalled s); [unfold kMaxLiveWorkers in *; lia|]. rewrite orb_false_r in Er. apply Nat.ltb_lt in Er. unfold kMaxLiveWorkers in *. lia.
    + done.
  - apply orb_false_iff in Er as [_ Er]. rewrite Er in *. unfold kMaxLiveWorkers in *. split; unfold pending; cbn; rewrite ?Em, ?Hrun, ?Hans; try done.
    + intros E. by rewrite (Hs E) in Em.
    + split; [done|exact (Hf _ Hi2)].
    + exact (Hf _ Hh).
    + unfold kMaxLiveWorkers. rewrite Er. lia.
Qed.
Lemma main_good input s s' : good input s -> main_step s = Some s' -> good input s'.
Proof.
  intros G. unfold main_step. destruct (s_main s) as [|line| | |] eqn:Em; try done.
  - assert (Hsh : s_shutting s = false). { destruct (s_shutting s) eqn:E; [|done]. by rewrite (g_shut _ _ G E) in Em. }
    destruct G as [Hl He Hs Hi Hh Ha Hg Ho Hb Hr]. unfold pending in Hl. rewrite Em in *.
    destruct (s_signalled s) eqn:Esig; [intros [= <-]; split; unfold pending; cbn; rewrite ?Esig, ?Hsh; try done|].
    destruct (readLineBounded kMaxLine (s_input s)) as [[l rest]|] eqn:E; intros [= <-]; rewrite ?Hsh, ?orb_false_r; split; unfold pending; cbn; rewrite ?Esig, ?Hsh; try done.
    + rewrite (requests_some _ _ _ E) in Hl. cbn in Hl. by destruct (blank_line l).
    + by destruct (blank_line l).
    + by destruct (blank_line l).
    + by rewrite (requests_none _ E) in Hl.
  - intros [= <-]. by apply hand_good.
  - destruct G as [Hl He Hs Hi Hh Ha Hg Ho Hb Hr]. unfold pending in Hl. rewrite Em in *. intros [= <-]. split; unfold pending; cbn; try done. intros E. by apply Hs in E.
  - destruct G as [Hl He Hs Hi Hh Ha Hg Ho Hb Hr]. unfold pending in Hl. rewrite Em in *. destruct (forallb is_done (s_workers s)) eqn:Ed; [|done]. intros [= <-].
    assert (Hn : running (s_workers s) = [] /\ answering (s_workers s) = []).
    { clear -Ed. induction (s_workers s) as [|[i [|r|]] ws IH]; [done|..]; cbn in Ed; try done. by apply IH. }
    destruct Hn as [Hn1 Hn2]. rewrite Hn1 in Ha. rewrite Hn2 in Hg. split; unfold pending; cbn; try done; [split; [apply NoDup_nil_2|by apply Forall_nil]|lia].
Qed.
Lemma worker_good input s w resp : good input s -> w ∈ s_workers s -> good input (worker_step w resp s).
Proof.
  intros [Hl He Hs [Hi1 Hi2] Hh Ha Hg Ho Hb Hr] Hw. destruct w as [i v0]. apply list_elem_of_split in Hw as (a & b & Ew).
  assert (Hset : forall v, map (fun x => if Nat.eqb (fst x) i then (i, v) else x) (s_workers s) = a ++ (i, v) :: b) by (intros v; by eapply set_worker).
  assert (Hfst : forall v, map fst (a ++ (i, v) :: b) = map fst (s_workers s)) by (intros v; rewrite Ew, !map_app; done).
  assert (Hlen : forall v, length (a ++ (i, v) :: b) = length (s_workers s)) by (intros v; rewrite Ew, !length_app; done).
  assert (Hlt : forall v, Forall (fun w => (fst w < length (spawned s))%nat) (a ++ (i, v) :: b)).
  { intros v. rewrite Ew in Hi2. apply Forall_app in Hi2 as [H1 H2]. apply Forall_cons in H2 as [H2 H3]. apply Forall_app. split; [done|]. by apply Forall_cons. }
  assert (Hret : s_main s = R_return -> False). { intros E. rewrite (Hr E) in Ew. by destruct a. }
  assert (Hhold : forall v, (match v with W_running _ => False | _ => True end) -> Forall (fun w => match snd w with W_running l => spawned s !! fst w = Some l | _ => True end) (a ++ (i, v) :: b)).
  { intros v Hv. rewrite Ew in Hh. apply Forall_app in Hh as [H1 H2]. apply Forall_cons in H2 as [_ H3]. apply Forall_app. split; [done|]. apply Forall_cons. split; [by destruct v|done]. }
  unfold running in Ha. unfold answering in Hg. rewrite Ew, omap_app in Ha. rewrite Ew, omap_app in Hg. fold (running a) (running b) (answering a) (answering b) in Ha, Hg.
  unfold worker_step. cbn [fst snd]. destruct v0 as [l|r|]; [| |by split; try (rewrite Ew; unfold running, answering; rewrite omap_app)].
  - split; unfold pending; cbn; rewrite ?Hset, ?Hfst, ?Hlen; try done.
    + apply Hhold. by destruct resp.
    + rewrite map_app. cbn. unfold running at 1. rewrite omap_app. fold (running a). rewrite <- Ha. cbn. destruct resp; cbn; fold (running b); solve_Permutation.
    + unfold given, answering. rewrite !omap_app. fold (given (answers s)) (answering a). rewrite Hg. destruct resp; cbn; fold (answering b); solve_Permutation.
  - split; unfold pending; cbn; rewrite ?Hset, ?Hfst, ?Hlen; try done.
    + by apply Hhold.
    + unfold running. rewrite omap_app. rewrite <- Ha. done.
    + unfold answering. rewrite omap_app, Hg. cbn. fold (answering a) (answering b). solve_Permutation.
    + rewrite Ho, flat_map_app. cbn. by rewrite app_nil_r.
Qed.
Lemma step_good input s s' : good input s -> stdio_step s s' -> good input s'.
Proof.
  intros G [s1 H|w resp Hw|]; [by eapply main_good|by apply worker_good|]. destruct G as [Hl He Hs Hi Hh Ha Hg Ho Hb Hr]. split; unfold pending in *; cbn; try done.
  destruct (s_signalled s), (s_main s); lia.
Qed.
Lemma reach_good input s : rtc stdio_step (stdio0 input) s -> good input s.
Proof. intros H. refine (rtc_ind_r (good input) _ (good0 input) _ s H). intros s1 s2 _ Hs G. by eapply step_good. Qed.

(** C30: Every request of standard input is answered once, on a line of its
    own. However the workers interleave, the output is the answers written so
    far, each whole and with its line break, each the answer of another
    request; at most 64 workers live (65 once a signal has come). When the
    transport returns, every line handed on has been answered by one worker and
    every answer has been written once; and if no signal came, the lines handed
    on are all those of the input, in their order, blank ones left out. *)
Theorem requests_answered_once input s : rtc stdio_step (stdio0 input) s ->
  s_output s = flat_map (fun a => snd a ++ [10]) (written s) /\ NoDup (map fst (written s)) /\ (forall i r, (i, r) ∈ written s -> (i, Some r) ∈ answers s) /\
  (exists rest, requests input = spawned s ++ rest) /\ (length (s_workers s) <= kMaxLiveWorkers + if s_signalled s then 1 else 0)%nat /\
  (s_main s = R_return ->
    map fst (answers s) ≡ₚ seq 0 (length (spawned s)) /\ written s ≡ₚ given (answers s) /\ (s_signalled s = false -> spawned s = requests input)).
Proof.
  intros Hr. destruct (reach_good input s Hr) as [Hl He Hs Hi Hh Ha Hg Ho Hb Hret].
  assert (Hin : forall i r, (i, r) ∈ given (answers s) -> (i, Some r) ∈ answers s).
  { intros i r (x & Hx & E)%list_elem_of_omap. destruct x as [j [o|]]; cbn in E; by simplify_eq. }
  assert (Hnd : NoDup (map fst (given (answers s)))).
  { assert (Hn : NoDup (map fst (answers s))). { pose proof (NoDup_seq 0 (length (spawned s))) as Hn. rewrite <- Ha in Hn. by apply NoDup_app in Hn as [Hn _]. }
    clear -Hn. induction (answers s) as [|[j o] l IH]; [apply NoDup_nil_2|]. cbn [map fst] in Hn. apply NoDup_cons in Hn as [Hj Hn].
    unfold given in *. cbn. destruct o as [r|]; cbn; [|by apply IH]. apply NoDup_cons. split; [|by apply IH].
    intros (x & -> & Hx)%list_elem_of_fmap. apply list_elem_of_omap in Hx as (y & Hy & E). destruct y as [k [q|]]; cbn in E; simplify_eq/=.
    apply Hj. apply list_elem_of_fmap. by exists (k, Some q). }
  rewrite Hg, map_app in Hnd. apply NoDup_app in Hnd as (Hw & _). split_and!; try done.
  - intros i r Hi1. apply Hin. rewrite Hg. apply elem_of_app. by left.
  - rewrite <- Hl. by eexists.
  - destruct (s_signalled s); [|done]. destruct (s_main s); lia.
  - intros E. rewrite (Hret E) in Ha, Hg. unfold running, answering in Ha, Hg. cbn in Ha, Hg. rewrite app_nil_r in Ha, Hg. unfold pending in Hl. rewrite E in *. cbn in Hl.
    split_and!; [done|by symmetry|]. intros Es. rewrite (He I Es) in Hl. cbn in Hl. by rewrite app_nil_r in Hl.
Qed.

(** The shutdown waits for every worker, past any deadline: while one runs the
    main thread has no step once it joins. *)
Theorem join_waits s : s_main s = R_join -> existsb (fun w => negb (is_done w)) (s_workers s) = true -> main_step s = None.
Proof.
  intros E H. unfold main_step. rewrite E. destruct (forallb is_done (s_workers s)) eqn:Ed; [|done]. rewrite forallb_forall in Ed.
  apply existsb_exists in H as (w & Hw & Hd). by rewrite (Ed w Hw) in Hd.
Qed.

(** ** The accept loop *)

#[local] Arguments kMaxRefusalsInFlight : simpl never.
Definition admitted (s : http_loop) : list Z := match a_pc s with A_admitted fd => [fd] | A_poll => [] end.
Definition live_fds (s : http_loop) : list Z := map fst (List.filter (fun c => negb (snd c)) (a_conns s)).
Record held (tls : bool) (connLimit : nat) (s : http_loop) : Prop := {
  h_conns : (length (admitted s) + length (a_conns s) <= connLimit)%nat;
  h_refusals : (length (a_refusals s) <= if tls then 0 else kMaxRefusalsInFlight)%nat;
  h_fds : accepted s ≡ₚ admitted s ++ live_fds s ++ a_refusals s ++ closed s ++ leaked s;
  h_leaked : tls = false -> leaked s = [] }.
Lemma reap_live s : live_fds (reap s) = live_fds s.
Proof. unfold live_fds, reap. cbn. f_equal. induction (a_conns s) as [|[fd [|]] l IH]; cbn; [done|done|by f_equal]. Qed.
Lemma reap_held tls connLimit s : held tls connLimit s -> held tls connLimit (reap s).
Proof.
  intros [H1 H2 H3 H4]. split; try done.
  - pose proof (sublist_length _ _ (filter_sub (fun c : Z * bool => negb (snd c)) (a_conns s))) as Hl. unfold admitted in *. cbn. lia.
  - by rewrite reap_live.
Qed.
Lemma accept_held tls connLimit s s' : held tls connLimit s -> accept_step tls connLimit s s' -> held tls connLimit s'.
Proof.
  intros H [fd Hp|fd Hp|l fd r Hc|l fd r Hc|]; [| | | |by apply reap_held].
  - pose proof (reap_held _ _ s H) as [H1 H2 H3 H4]. unfold accept. set (t := reap s) in *. assert (Hp' : a_pc t = A_poll) by exact Hp. clearbody t. unfold admitted in *. rewrite Hp' in *. cbn in H1, H3.
    destruct (Nat.leb_spec connLimit (length (a_conns t))) as [Hl|Hl].
    + destruct (negb tls && _) eqn:E.
      * apply andb_true_iff in E as [Et E]. apply Nat.ltb_lt in E. destruct tls; [done|]. split; unfold admitted, live_fds in *; cbn; try done; try lia. rewrite H3, <- ?Permutation_middle. done.
      * split; unfold admitted, live_fds in *; cbn; try done. rewrite H3, <- ?Permutation_middle. done.
    + split; unfold admitted, live_fds in *; cbn; try done; try lia. by rewrite H3.
  - apply reap_held. destruct H as [H1 H2 H3 H4]. unfold admitted in *. rewrite Hp in *. split; unfold admitted, live_fds in *; cbn in *; try done.
    + rewrite length_app. cbn. lia.
    + rewrite H3, List.filter_app, map_app, <- app_assoc. cbn. by rewrite <- Permutation_middle.
  - destruct H as [H1 H2 H3 H4]. unfold live_fds in H3. rewrite Hc in H1, H3. split; unfold live_fds; cbn; try done.
    + unfold admitted in *. cbn. rewrite length_app in *. cbn in *. lia.
    + unfold admitted in *. cbn. rewrite List.filter_app, map_app in H3 |- *. cbn in H3 |- *. rewrite H3. rewrite <- ?app_assoc. cbn. destruct tls; cbn; by rewrite <- ?Permutation_middle.
    + by destruct tls.
  - destruct H as [H1 H2 H3 H4]. rewrite Hc in H2, H3. split; unfold admitted, live_fds in *; cbn; try done.
    + rewrite length_app in *. cbn in *. lia.
    + rewrite H3, <- !app_assoc. cbn. by rewrite <- ?Permutation_middle.
Qed.
(** The accept loop keeps its bounds and its descriptors. However the
    threads interleave, at most the limit of connections and 64 refusals are in
    flight, and every accepted descriptor is in one place: with the accept
    thread, with the one connection or refusal that will close it, or closed,
    once; without TLS none is lost. *)
Theorem accepted_accounted tls connLimit s : rtc (accept_step tls connLimit) http_loop0 s ->
  (length (a_conns s) <= connLimit)%nat /\ (length (a_refusals s) <= kMaxRefusalsInFlight)%nat /\
  accepted s ≡ₚ admitted s ++ live_fds s ++ a_refusals s ++ closed s ++ leaked s /\ (tls = false -> leaked s = []).
Proof.
  intros Hr. assert (H : held tls connLimit s).
  { refine (rtc_ind_r (held tls connLimit) _ _ _ s Hr); [|intros s1 s2 _ Hs G; by eapply accept_held]. split; cbn; try done; lia. }
  destruct H as [H1 H2 H3 H4]. split_and!; try done; [lia|destruct tls; lia].
Qed.

(** Each TLS connection leaves its descriptor open for good. *)
Theorem tls_connections_leak n : exists s, rtc (accept_step true 1) http_loop0 s /\ a_conns s = [] /\ a_pc s = A_poll /\ length (leaked s) = n.
Proof.
  induction n as [|n (s & Hr & Hc & Hp & Hn)]; [exists http_loop0; by split_and!|].
  eexists. split; [|split_and!; cycle 2].
  - etrans; [exact Hr|]. eapply rtc_l; [by apply (AS_accept true 1 s 7)|]. eapply rtc_l; [apply (AS_start true 1 _ 7); unfold accept, reap; cbn; by rewrite Hc|].
    eapply rtc_l; [apply (AS_finish true 1 _ [] 7 []); unfold accept, reap; cbn; by rewrite Hc|]. apply rtc_once, AS_reap.
  - unfold accept, reap. cbn. rewrite Hc. cbn. by rewrite Hn.
  - done.
  - done.
Qed.

(** ** The runs the witnesses take *)

Inductive move := M_main | M_worker (i : nat) (resp : option (list Z)).
Definition exec (s : stdio) (m : move) : stdio :=
  match m with
  | M_main => default s (main_step s)
  | M_worker i resp => match List.find (fun w => Nat.eqb (fst w) i) (s_workers s) with Some w => worker_step w resp s | None => s end
  end.
Lemma stdio_exec_sound ms : forall s, rtc stdio_step s (fold_left exec ms s).
Proof.
  induction ms as [|m ms IH]; intros s; [done|]. cbn [fold_left]. etrans; [|apply IH]. destruct m as [|i resp]; cbn [exec].
  - destruct (main_step s) eqn:E; [|done]. by apply rtc_once, SS_main.
  - destruct (List.find _ _) eqn:E; [|done]. apply List.find_some in E as [Hw _]. apply rtc_once, SS_worker. by apply list_elem_of_In.
Qed.
Definition demo_input : list Z := bs "ping" ++ [10; 32; 10] ++ bs "note" ++ [10] ++ bs "last".
Definition demo_run : stdio :=
  fold_left exec [M_main; M_main; M_main; M_main; M_main; M_worker 1 None; M_main; M_main; M_worker 2 (Some (bs "C")); M_worker 0 (Some (bs "A")); M_worker 2 None;
    M_worker 0 None; M_main; M_main; M_main; M_main] (stdio0 demo_input).
Lemma requests_answered_once_witness : s_main demo_run = R_return /\ s_output demo_run = bs "C" ++ [10] ++ bs "A" ++ [10] /\
  requests demo_input = [bs "ping"; bs "note"; bs "last"] /\ written demo_run ≡ₚ given (answers demo_run) /\ spawned demo_run = requests demo_input.
Proof.
  assert (Em : s_main demo_run = R_return) by (vm_compute; reflexivity).
  destruct (requests_answered_once demo_input demo_run (stdio_exec_sound _ _)) as (_ & _ & _ & _ & _ & H). destruct (H Em) as (_ & Hw & Hs).
  split; [exact Em|]. split; [vm_compute; reflexivity|]. split; [vm_compute; reflexivity|]. split; [exact Hw|]. apply Hs. vm_compute. reflexivity.
Defined.
Lemma accepted_accounted_witness : exists s, rtc (accept_step false 1) http_loop0 s /\ a_refusals s = [8] /\ accepted s ≡ₚ admitted s ++ live_fds s ++ a_refusals s ++ closed s ++ leaked s.
Proof.
  assert (Hr : rtc (accept_step false 1) http_loop0 (accept false 1 8 (start_thread 7 (accept false 1 7 http_loop0)))).
  { eapply rtc_l; [by apply (AS_accept false 1 http_loop0 7)|]. eapply rtc_l; [by apply (AS_start false 1 _ 7)|]. apply rtc_once. by apply (AS_accept false 1 _ 8). }
  eexists. split; [exact Hr|]. split; [reflexivity|]. by apply (accepted_accounted false 1).
Defined.
