(* ===== verification/McpDb.v ===== *)
(** * The MCP server's database connection (mcp/src/db.cpp, db.h)

    What each operation sends to the client library and what it makes of the
    answers, error paths included.  The library, and the server behind it, are
    a parameter: an answer for a call after the calls before it.  An operation
    is a function of the calls made so far, which it extends.  The mutex of the
    connection makes each operation one piece; connecting is not modelled. *)

From stdpp Require Import gmap.
From S2P Require Import Prelude McpConf McpServer McpLog.

(** ** The client library *)

Inductive SqlValue := V_null | V_int (n : Z) | V_double (bits : Z) | V_text (s : list Z).
(** MYSQL_BIND: its type, its buffer, its sign flag. *)
Inductive bound := B_null | B_longlong (n : Z) (is_unsigned : bool) | B_long (n : Z) | B_double (bits : Z) | B_string (s : list Z).
(** mysql_stmt_next_result until there is no other is one call, and so are the
    fetch of a row with its columns. *)
Inductive call :=
  | C_init | C_prepare (sql : list Z) | C_bind (l : list bound) | C_execute | C_store | C_fetch | C_drain | C_close
  | C_query (sql : list Z) | C_store_result | C_rows | C_free_result.
(** An answer: whether the call failed, the errno and message then, the row or
    rows (a cell can be NULL), the number of the columns and their names. *)
Record answer := { a_failed : bool; a_errno : Z; a_error : list Z; a_rows : list (list (option (list Z))); a_names : list (list Z) }.

Inductive MergeMode := Single | Fields | NoneMode | ResultSet.

Section Db.
Context (lib : list call -> answer) (parse : list Z -> option Json).

Definition op (A : Type) : Type := list call -> (terr + A) * list call.
Definition ret {A} (x : A) : op A := fun h => (inr x, h).
Definition throw {A} (e : terr) : op A := fun h => (inl e, h).
Definition bind {A B} (m : op A) (f : A -> op B) : op B := fun h => match m h with (inl e, h) => (inl e, h) | (inr x, h) => f x h end.
Definition do_call (c : call) : op answer := fun h => (inr (lib (c :: h)), c :: h).
Local Notation "x <- m ; k" := (bind m (fun x => k)) (at level 60, m at next level, right associativity).

Definition server_error (msg : list Z) : terr := {| te_class := ServerInternal; te_msg := msg |}.
(** Db::classify. *)
Definition classify (msg : list Z) (code : Z) : terr :=
  if code =? 1644 then {| te_class := Engine; te_msg := sanitizeSecrets msg |}
  else if code =? 1317 then {| te_class := Cancelled; te_msg := bs "call was cancelled" |}
  else if existsb (Z.eqb code) [2006; 2013; 2002; 2005; 2003] then {| te_class := Connectivity; te_msg := sanitizeSecrets msg |}
  else {| te_class := Engine; te_msg := sanitizeSecrets msg |}.
(** A call on a statement: when it fails the statement is closed and the error
    thrown. *)
Definition stmt_call (c : call) : op answer :=
  a <- do_call c; if a_failed a then (_ <- do_call C_close; throw (classify (a_error a) (a_errno a))) else ret a.
Definition stmt_init : op unit :=
  a <- do_call C_init; if a_failed a then throw (server_error (bs "mysql_stmt_init failed")) else ret tt.

(** ** Values *)

Definition nib (c : Z) : Z := if c <=? 57 then c - 48 else c - 97 + 10.
Definition hexByte (s : list Z) (i : nat) : Z := Z.lor (Z.shiftl (nib (at_ s i)) 4) (nib (at_ s (i + 1))).
Definition looksLikeCanonicalVectorHex (s : list Z) : bool :=
  let n := Z.of_nat (length s) in
  if (n <? 16) || negb (n mod 8 =? 0) then false
  else if negb (forallb (fun c => ((48 <=? c) && (c <=? 57)) || ((97 <=? c) && (c <=? 102))) s) then false
  else
    let dim := Z.lor (hexByte s 0) (Z.shiftl (hexByte s 2) 8) in
    if dim <? 1 then false
    else if negb (hexByte s 4 =? 0) || negb (hexByte s 6 =? 0) then false
    else n =? 8 + 8 * dim.
(** The text is a C string. *)
Definition parseJsonOrValue (text : option (list Z)) : Json :=
  match text with
  | None => JNull
  | Some t =>
      let s := cstr t in
      if looksLikeCanonicalVectorHex s then JStr s
      else match parse s with Some v => v | None => jobj [(bs "value", JStr s)] end
  end.
(** The binds of callProc and scalarTextLocked. *)
Definition bind_of (v : SqlValue) : bound :=
  match v with V_null => B_null | V_int n => B_longlong n true | V_double b => B_double b | V_text s => B_string s end.
(** Those of callProcResultSet. *)
Definition bind_wide (v : SqlValue) : bound :=
  match v with
  | V_null => B_null
  | V_int n => if (- 2 ^ 31 <=? n) && (n <=? 2 ^ 31 - 1) then B_long n else B_longlong n false
  | V_double b => B_double b
  | V_text s => B_string s
  end.
(** The integer the server reads from a bound buffer. *)
Definition bound_int (b : bound) : option Z :=
  match b with B_longlong n true => Some (u64 n) | B_longlong n false => Some (s64 n) | B_long n => Some (s32 n) | _ => None end.

(** ** Statements *)

Fixpoint placeholders (first : bool) (n : nat) : list Z :=
  match n with O => [] | S n => (if first then bs "?" else bs ",?") ++ placeholders false n end.
Definition outVarToken (i : nat) : list Z := bs "fsq_out_" ++ dec_u (Z.of_nat i).
Fixpoint out_vars (first : bool) (i n : nat) : list Z :=
  match n with O => [] | S n => (if first then bs "@" else bs ",@") ++ outVarToken i ++ out_vars false (S i) n end.
(** The text of callProc, of the procedure and the numbers alone. *)
Definition call_sql (proc : list Z) (nparams nouts : nat) : list Z :=
  bs "CALL " ++ proc ++ bs "(" ++ placeholders true nparams ++ out_vars (Nat.eqb nparams 0) 0 nouts ++ bs ")".
Definition select_sql (nouts : nat) : list Z := bs "SELECT " ++ out_vars true 0 nouts.
Definition bind_params (l : list bound) : op unit := match l with [] => ret tt | _ => _ <- stmt_call (C_bind l); ret tt end.

(** ** The operations *)

(** The members of [out], a later one of a name in place of an earlier one. *)
Definition decode_cells (row : list (option (list Z))) (n : nat) : list Json := map parseJsonOrValue (take n row).
Definition decodeOutVars (outVars : list (list Z)) (mode : MergeMode) : op Json :=
  q <- do_call (C_query (select_sql (length outVars)));
  if a_failed q then throw (classify (a_error q) (a_errno q)) else
  r <- do_call C_store_result;
  if a_failed r then throw (server_error (bs "procedure's OUT-variable SELECT returned no row")) else
  rows <- do_call C_rows;
  _ <- do_call C_free_result;
  let parsed := match a_rows rows with row :: _ => decode_cells row (length outVars) | [] => [] end in
  ret (match mode with
       | Single => match parsed with v :: _ => v | [] => JNull end
       | _ => jobj (combine outVars parsed)
       end).
Definition callProc (proc : list Z) (params : list SqlValue) (outVars : list (list Z)) (mode : MergeMode) : op Json :=
  _ <- stmt_init;
  _ <- stmt_call (C_prepare (call_sql proc (length params) (length outVars)));
  _ <- bind_params (map bind_of params);
  _ <- stmt_call C_execute;
  d <- do_call C_drain;
  _ <- do_call C_close;
  if negb (a_errno d =? 0) then throw (classify (bs "procedure " ++ proc ++ bs " failed while producing results") (a_errno d))
  else match mode with NoneMode => ret (jobj [(bs "ok", JBool true)]) | _ => decodeOutVars outVars mode end.

(** A fetched cell: NULL and the empty text are both null. *)
Definition cell_text (c : option (list Z)) : option (list Z) := match c with Some [] => None | c => c end.
Definition first_cell (a : answer) : option (list Z) :=
  if a_failed a then None else match a_rows a with (c :: _) :: _ => cell_text c | _ => None end.
Definition callProcResultSet (proc : list Z) (params : list SqlValue) (column : list Z) : op Json :=
  _ <- stmt_init;
  _ <- stmt_call (C_prepare (call_sql proc (length params) 0));
  _ <- bind_params (map bind_wide params);
  e <- stmt_call C_execute;
  out <- (match a_names e with
          | [] => ret JNull
          | _ => _ <- stmt_call C_store; f <- do_call C_fetch; ret (parseJsonOrValue (first_cell f))
          end);
  d <- do_call C_drain;
  _ <- do_call C_close;
  if negb (a_errno d =? 0) then throw (classify (bs "procedure " ++ proc ++ bs " failed while producing results") (a_errno d))
  else ret (jobj [(column, out)]).
Definition selectScalarJson (expr : list Z) : op Json :=
  q <- do_call (C_query expr);
  if a_failed q then throw (classify (a_error q) (a_errno q)) else
  r <- do_call C_store_result;
  if a_failed r then ret JNull else
  rows <- do_call C_rows;
  _ <- do_call C_free_result;
  ret (match a_rows rows with (c :: _) :: _ => parseJsonOrValue c | _ => JNull end).
Definition scalarTextLocked (sql : list Z) (binds : list SqlValue) : op (option (list Z)) :=
  _ <- stmt_init;
  _ <- stmt_call (C_prepare sql);
  _ <- bind_params (map bind_of binds);
  _ <- stmt_call C_execute;
  s <- stmt_call C_store;
  text <- (match a_names s with [] => ret None | _ => f <- do_call C_fetch; ret (first_cell f) end);
  _ <- do_call C_close;
  ret text.
Definition callScalarBind (sql : list Z) (binds : list SqlValue) : op Json :=
  t <- scalarTextLocked sql binds; ret (parseJsonOrValue t).
Definition callScalarBindText (sql : list Z) (binds : list SqlValue) : op (option (list Z)) := scalarTextLocked sql binds.
Definition raw_cell (c : option (list Z)) : Json :=
  match c with None | Some [] => JNull | Some v => match parse v with Some j => j | None => JStr v end end.
Definition selectRowsRaw (sql : list Z) : op Json :=
  q <- do_call (C_query sql);
  if a_failed q then throw (classify (a_error q) (a_errno q)) else
  r <- do_call C_store_result;
  if a_failed r then ret (JArr []) else
  rows <- do_call C_rows;
  _ <- do_call C_free_result;
  ret (JArr (map (fun row => jobj (combine (a_names r) (map raw_cell row))) (a_rows rows))).
(** One statement on the session's id, whatever comes of it: the partial-result
    mode, the latch of FSQL_MCP_READ_ONLY, the close of the session.  The
    answer is whether it was applied. *)
Definition session_stmt (sql : list Z) (sid : Z) : op bool :=
  i <- do_call C_init;
  if a_failed i then ret false else
  p <- do_call (C_prepare sql);
  if a_failed p then (_ <- do_call C_close; ret false) else
  b <- do_call (C_bind [B_longlong sid true]);
  if a_failed b then (_ <- do_call C_close; ret false) else
  e <- do_call C_execute;
  if a_failed e then (_ <- do_call C_close; ret false) else
  _ <- do_call C_drain;
  _ <- do_call C_close;
  ret true.
Definition bootstrapSession (agentPartialReasoningFail : bool) (sid : Z) : op bool :=
  if negb agentPartialReasoningFail || (sid =? 0) then ret false else session_stmt (bs "SELECT fractal_agent_partial_fail(?, 'on')") sid.
Definition applyDestructiveLatch (lockDestructive : bool) (sid : Z) : op bool :=
  if negb lockDestructive || (sid =? 0) then ret false else session_stmt (bs "SELECT fractal_lock_destructive(?)") sid.
Definition sessionClose (sid : Z) : op bool := session_stmt (bs "SELECT fractal_session_close(?)") sid.
End Db.
