(* ===== verification/McpDbProofs.v ===== *)
(** * The MCP server's database connection: proofs

    Which texts are kept from the JSON parser: those of the engine's vectors,
    exactly.  And what every operation leaves behind: no open statement, no
    value in a text of SQL, no credential in an error. *)

From stdpp Require Import gmap.
From S2P Require Import Prelude Float JsonOut LedgerFmt HeadProofs Vector VectorProofs McpConf McpServer McpLog McpDb.

(** ** The text of a vector *)

Lemma byte_nibs b : byte_ok b -> Z.lor (Z.shiftl (nib (hexd (Z.land (Z.shiftr b 4) 15))) 4) (nib (hexd (Z.land b 15))) = b.
Proof.
  intros Hb. assert (H : forallb (fun n => let b := Z.of_nat n in Z.lor (Z.shiftl (nib (hexd (Z.land (Z.shiftr b 4) 15))) 4) (nib (hexd (Z.land b 15))) =? b) (seq 0 256) = true) by (vm_compute; reflexivity).
  rewrite forallb_forall in H. unfold byte_ok in Hb. specialize (H (Z.to_nat b) ltac:(apply in_seq; lia)). cbv zeta in H. rewrite Z2Nat.id in H by lia. lia.
Qed.
Lemma hex_text_cons b l : hex_text (b :: l) = hexd (Z.land (Z.shiftr b 4) 15) :: hexd (Z.land b 15) :: hex_text l.
Proof. done. Qed.
Lemma hexByte_text l : forall i b, bytes_ok l -> l !! i = Some b -> hexByte (hex_text l) (2 * i) = b.
Proof.
  induction l as [|x l IH]; intros [|i] b Hl Hi; try done; apply Forall_cons in Hl as [Hx Hl]; rewrite hex_text_cons.
  - injection Hi as ->. unfold hexByte, at_. cbn [nth Nat.mul Nat.add]. by apply byte_nibs.
  - rewrite <- (IH i b Hl Hi). unfold hexByte, at_. replace (2 * S i)%nat with (S (S (2 * i))) by lia. done.
Qed.
Definition low_digit (c : Z) : bool := ((48 <=? c) && (c <=? 57)) || ((97 <=? c) && (c <=? 102)).
Lemma low_digit_hexval c : low_digit c = true -> (exists n, hexval c = Some n) /\ tolower c = c.
Proof. unfold low_digit, hexval, tolower, isupper, isdigit. intros H. assert (Hc : 48 <= c <= 57 \/ 97 <= c <= 102) by lia. split; [|repeat case_match; bools; lia]. repeat case_match; eauto; exfalso; bools; lia. Qed.
Lemma hexd_low n : 0 <= n < 16 -> low_digit (hexd n) = true.
Proof.
  intros Hn. assert (H : forallb (fun n => low_digit (hexd (Z.of_nat n))) (seq 0 16) = true) by (vm_compute; reflexivity).
  rewrite forallb_forall in H. specialize (H (Z.to_nat n) ltac:(apply in_seq; lia)). by rewrite Z2Nat.id in H by lia.
Qed.
Lemma hex_text_low l : forallb low_digit (hex_text l) = true.
Proof. induction l as [|b l IH]; [done|]. rewrite hex_text_cons. cbn [forallb]. by rewrite !hexd_low by apply land_15. Qed.
(** A text of an even number of such digits is that of bytes. *)
Lemma low_text s n : forallb low_digit s = true -> length s = (2 * n)%nat -> exists l, bytes_ok l /\ hex_text l = s /\ length l = n.
Proof.
  intros Hs Hn. assert (Hb : exists l, hex_bytes s = Some l).
  { clear Hn. induction s as [s IH] using (induction_ltof1 _ (@length Z)). destruct s as [|a [|b r]]; [by eexists|by eexists|].
    cbn [forallb] in Hs. bools. destruct (low_digit_hexval a H) as [[x Ea] _], (low_digit_hexval b H0) as [[y Eb] _].
    destruct (IH r) as [l El]; [unfold ltof; cbn; lia|done|]. cbn [hex_bytes]. unfold hex_nibble. rewrite Ea, Eb, El. by eexists. }
  destruct Hb as [l El]. destruct (hex_bytes_inv n s l Hn El) as (H1 & H2 & H3). exists l. split_and!; [done| |done]. rewrite H2.
  clear -Hs. induction s as [|c s IH]; [done|]. cbn [forallb map] in *. bools. destruct (low_digit_hexval c H) as [_ ->]. by rewrite IH.
Qed.
Lemma canonical_text_exact s : looksLikeCanonicalVectorHex s = true <->
  exists dim payload, 1 <= dim < 65536 /\ bytes_ok payload /\ Z.of_nat (length payload) = 4 * dim /\ s = hex_text (le16_put dim ++ le16_put 0 ++ payload).
Proof.
  unfold looksLikeCanonicalVectorHex. fold low_digit. split.
  - intros H. destruct (_ || _) eqn:E1; [done|]. destruct (negb (forallb _ s)) eqn:E2; [done|]. apply orb_false_iff in E1 as [E1 E3]. apply negb_false_iff in E2, E3.
    assert (Hn : exists n, length s = (2 * n)%nat). { exists (length s / 2)%nat. pose proof (Nat.div_mod_eq (length s) 2). assert ((length s mod 2)%nat = 0%nat); [|lia]. pose proof (Nat.mod_upper_bound (length s) 2 ltac:(lia)). lia. }
    destruct Hn as [n Hn]. destruct (low_text s n E2 Hn) as (l & Hl & <- & Hln). destruct l as [|a [|b [|c [|d p]]]]; try (cbn in Hln; lia).
    pose proof (hexByte_text _ 0 a Hl eq_refl) as Ha. pose proof (hexByte_text _ 1 b Hl eq_refl) as Hb. pose proof (hexByte_text _ 2 c Hl eq_refl) as Hc. pose proof (hexByte_text _ 3 d Hl eq_refl) as Hd.
    cbn [Nat.mul Nat.add] in Ha, Hb, Hc, Hd. rewrite Ha, Hb, Hc, Hd, Hn in H. set (dim := Z.lor a (Z.shiftl b 8)) in H.
    destruct (Z.ltb_spec dim 1); [done|]. destruct (Z.eqb_spec c 0) as [->|]; [|done]. destruct (Z.eqb_spec d 0) as [->|]; [|done]. cbn [negb orb] in H. apply Z.eqb_eq in H.
    pose proof Hl as (Hba & (Hbb & (_ & (_ & Hp)%Forall_cons)%Forall_cons)%Forall_cons)%Forall_cons.
    destruct (le16_get_put a b [] Hba Hbb) as [Hr Ep]. assert (Ed : le16_get [a; b] = dim).
    { unfold le16_get, at_. cbn [nth]. apply u16_id. unfold byte_ok in *. unfold dim. rewrite lor_shiftl_add by lia. lia. }
    rewrite Ed in *. exists dim, p. split_and!; [lia|lia|done|cbn in Hln; lia|by rewrite Ep].
  - intros (dim & payload & Hd & Hp & Hl & ->). destruct (le16_put_ok dim ltac:(lia)) as [Hdok Hget]. specialize (Hget []). rewrite app_nil_r in Hget.
    set (l := le16_put dim ++ le16_put 0 ++ payload). assert (Hlen : Z.of_nat (length (hex_text l)) = 8 + 8 * dim).
    { unfold l. rewrite hex_text_length, !length_app. cbn. lia. }
    assert (Hok : bytes_ok l). { unfold l. rewrite !bytes_ok_app. split_and!; [done|by destruct (le16_put_ok 0 ltac:(lia))|done]. }
    rewrite Hlen. destruct (Z.ltb_spec (8 + 8 * dim) 16); [lia|]. replace ((8 + 8 * dim) mod 8) with 0 by (symmetry; apply Z.mod_divide; [lia|exists (1 + dim); lia]). cbn [Z.eqb negb orb].
    rewrite hex_text_low. cbn [negb]. unfold le16_put in *. unfold l in *. clear l. cbn [app] in *.
    pose proof (fun i b => hexByte_text _ i b Hok) as Hb. pose proof (Hb 0%nat _ eq_refl) as B0. pose proof (Hb 1%nat _ eq_refl) as B1. pose proof (Hb 2%nat _ eq_refl) as B2. pose proof (Hb 3%nat _ eq_refl) as B3.
    cbn [Nat.mul Nat.add] in B0, B1, B2, B3. rewrite B0, B1, B2, B3. unfold le16_get, at_ in Hget. cbn [nth] in Hget.
    apply Forall_cons in Hdok as [Hb0 [Hb1 _]%Forall_cons]. unfold byte_ok in Hb0, Hb1. rewrite u16_id in Hget by (rewrite lor_shiftl_add by lia; lia). rewrite Hget.
    destruct (Z.ltb_spec dim 1); [lia|]. cbn [Z.land Z.shiftr Z.eqb negb orb]. apply Z.eqb_refl.
Qed.

(** ** What an operation sends, and leaves open *)

Section Ops.
Context (lib : list call -> answer) (parse : list Z -> option Json).

(** The statements and the results that are open after some calls. *)
Fixpoint open_statements (h : list call) : Z :=
  match h with
  | [] => 0
  | C_init :: r => (if a_failed (lib (C_init :: r)) then 0 else 1) + open_statements r
  | C_close :: r => open_statements r - 1
  | _ :: r => open_statements r
  end.
Fixpoint open_results (h : list call) : Z :=
  match h with
  | [] => 0
  | C_store_result :: r => (if a_failed (lib (C_store_result :: r)) then 0 else 1) + open_results r
  | C_free_result :: r => open_results r - 1
  | _ :: r => open_results r
  end.
(** An error the client may see: a text that was searched for credentials, or
    one of the connection's own. *)
Definition masked (e : terr) : Prop :=
  (exists msg, te_msg e = sanitizeSecrets msg) \/ te_class e = ServerInternal \/ te_msg e = bs "call was cancelled".
(** A postcondition: from whatever calls before, [m] adds calls of [P]; thrown,
    it has changed the open statements by [e] and the error is masked;
    returned, by [s]; the open results by [r]. *)
Definition post {A} (P : call -> Prop) (e s r : Z) (m : op A) : Prop :=
  forall h, let '(x, h') := m h in
  (exists new, h' = new ++ h /\ Forall P new) /\
  match x with
  | inl t => open_statements h' = open_statements h + e /\ open_results h' = open_results h /\ masked t
  | inr _ => open_statements h' = open_statements h + s /\ open_results h' = open_results h + r
  end.
Lemma post_bind {A B} P e s1 s r (m : op A) (f : A -> op B) : post P e s1 0 m -> (forall x, post P (e - s1) (s - s1) r (f x)) -> post P e s r (bind m f).
Proof.
  intros Hm Hf h. unfold bind. specialize (Hm h). destruct (m h) as [[t|x] h1]; [exact Hm|]. specialize (Hf x h1). destruct (f x h1) as [y h2].
  destruct Hm as [(n1 & -> & H1) [S1 R1]], Hf as [(n2 & -> & H2) Hy]. split; [exists (n2 ++ n1); split; [by rewrite app_assoc|by apply Forall_app]|].
  destruct y as [t|y]; [destruct Hy as (Y1 & Y2 & Y3); split_and!; [lia|lia|done]|destruct Hy; lia].
Qed.
Lemma post_ret {A} P e s r (x : A) : s = 0 -> r = 0 -> post P e s r (ret x).
Proof. intros -> -> h. cbn. split; [by exists []|lia]. Qed.
Lemma post_throw {A} P e s r t : e = 0 -> masked t -> post P e s r (throw (A := A) t).
Proof. intros -> Ht h. cbn. split; [by exists []|]. split_and!; [lia|lia|done]. Qed.
(** A call that opens and closes nothing, and the close of a statement. *)
Definition neutral (c : call) : Prop := match c with C_init | C_close | C_store_result | C_free_result => False | _ => True end.
Lemma post_call P e c : P c -> neutral c -> post P e 0 0 (do_call lib c).
Proof. intros Hc Hn h. cbn. split; [exists [c]; split; [done|by apply Forall_singleton]|]. destruct c; try done; cbn; lia. Qed.
Lemma post_close P e : P C_close -> post P e (-1) 0 (do_call lib C_close).
Proof. intros Hc h. cbn. split; [exists [C_close]; split; [done|by apply Forall_singleton]|]. lia. Qed.
Lemma classify_masked msg code : masked (classify msg code).
Proof. unfold classify, masked. repeat case_match; cbn; eauto. Qed.
Lemma post_stmt_init P e : P C_init -> e = 0 -> post P e 1 0 (stmt_init lib).
Proof.
  intros Hc -> h. unfold stmt_init, bind, do_call. destruct (a_failed (lib (C_init :: h))) eqn:E; cbn; rewrite E; (split; [exists [C_init]; split; [done|by apply Forall_singleton]|]); [|lia].
  split_and!; [lia|lia|right; by left].
Qed.
Lemma post_stmt_call P e c : P c -> P C_close -> neutral c -> e = -1 -> post P e 0 0 (stmt_call lib c).
Proof.
  intros Hc Hcl Hn ->. eapply post_bind; [by apply post_call|]. intros a. destruct (a_failed a); [|by apply post_ret].
  eapply post_bind; [by apply post_close|]. intros _. apply post_throw; [lia|apply classify_masked].
Qed.
(** A stored result is read and freed, or there is none. *)
Lemma post_result {A} P (none : op A) (f : answer -> answer -> A) e s : P C_store_result -> P C_rows -> P C_free_result -> s = 0 -> post P e s 0 none ->
  post P e s 0 (bind (do_call lib C_store_result) (fun r => if a_failed r then none else bind (do_call lib C_rows) (fun rows => bind (do_call lib C_free_result) (fun _ => ret (f r rows))))).
Proof.
  intros H1 H2 H3 -> Hn h. unfold bind at 1, do_call at 1. destruct (a_failed (lib (C_store_result :: h))) eqn:E.
  - specialize (Hn (C_store_result :: h)). destruct (none _) as [x h']. destruct Hn as [(new & -> & Hnew) Hx]. split; [exists (new ++ [C_store_result]); split; [by rewrite <- app_assoc|apply Forall_app; split; [done|by apply Forall_singleton]]|].
    cbn [open_statements open_results] in Hx. rewrite E in Hx. destruct x; intuition lia.
  - cbn. rewrite E. split; [|lia]. exists [C_free_result; C_rows; C_store_result]. split; [done|]. repeat (apply Forall_cons; split; [done|]). by apply Forall_nil.
Qed.

(** The texts of SQL an operation may send, and what it binds. *)
Definition sends (texts : list (list Z)) (binds : list bound) (c : call) : Prop :=
  match c with C_prepare t | C_query t => t ∈ texts | C_bind l => l = binds | _ => True end.
Ltac sent := cbn [sends neutral]; first [done | by left | by right; left].
Ltac op_step :=
  lazymatch goal with
  | |- post _ _ _ _ (ret _) => apply post_ret; lia
  | |- post _ _ _ _ (throw (classify _ _)) => apply post_throw; [lia|apply classify_masked]
  | |- post _ _ _ _ (throw (server_error _)) => apply post_throw; [lia|right; by left]
  | |- post _ _ _ _ (bind (do_call _ C_store_result) _) => apply post_result; [sent|sent|sent|lia|]
  | |- post _ _ _ _ (bind (stmt_init _) _) => eapply post_bind; [apply post_stmt_init; [sent|lia]|intros _]
  | |- post _ _ _ _ (bind (stmt_call _ _) _) => eapply post_bind; [apply post_stmt_call; [sent|sent|sent|lia]|intros ?]
  | |- post _ _ _ _ (bind (do_call _ C_close) _) => eapply post_bind; [apply post_close; sent|intros _]
  | |- post _ _ _ _ (bind (do_call _ _) _) => eapply post_bind; [apply post_call; sent|intros ?]
  | |- post _ _ _ _ (if ?b then _ else _) => destruct b
  | |- post _ _ _ _ (match ?x with _ => _ end) => destruct x
  end.
Lemma post_binds texts binds e : e = -1 -> post (sends texts binds) e 0 0 (bind_params lib binds).
Proof. intros ->. unfold bind_params. destruct binds; repeat op_step. Qed.
Ltac op_binds := lazymatch goal with |- post _ _ _ _ (bind (bind_params _ _) _) => eapply post_bind; [apply post_binds; lia|intros _] end.

Lemma post_decode outVars mode binds texts e s : select_sql (length outVars) ∈ texts -> e = 0 -> s = 0 -> post (sends texts binds) e s 0 (decodeOutVars lib parse outVars mode).
Proof. intros Hin -> ->. unfold decodeOutVars. eapply post_bind; [by apply post_call|intros q]. repeat op_step. Qed.
Lemma post_callProc proc params outVars mode :
  post (sends [call_sql proc (length params) (length outVars); select_sql (length outVars)] (map bind_of params)) 0 0 0 (callProc lib parse proc params outVars mode).
Proof. unfold callProc. repeat first [op_binds|op_step]. all: apply post_decode; [right; by left|lia|lia]. Qed.
Lemma post_callProcResultSet proc params column :
  post (sends [call_sql proc (length params) 0] (map bind_wide params)) 0 0 0 (callProcResultSet lib parse proc params column).
Proof.
  unfold callProcResultSet. repeat first [op_binds|op_step]. eapply post_bind with (s1 := 0); [repeat op_step|intros ?]. repeat op_step.
Qed.
Lemma post_scalar sql binds : post (sends [sql] (map bind_of binds)) 0 0 0 (scalarTextLocked lib sql binds).
Proof.
  unfold scalarTextLocked. repeat first [op_binds|op_step]. eapply post_bind with (s1 := 0); [repeat op_step|intros ?]. repeat op_step.
Qed.
Lemma post_selectScalar expr binds : post (sends [expr] binds) 0 0 0 (selectScalarJson lib parse expr).
Proof. unfold selectScalarJson. repeat op_step. Qed.
Lemma post_selectRows sql binds : post (sends [sql] binds) 0 0 0 (selectRowsRaw lib parse sql).
Proof. unfold selectRowsRaw. repeat op_step. Qed.
Lemma post_init_or {A} P e s r (none k : op A) : P C_init -> post P e s r none -> post P (e - 1) (s - 1) r k ->
  post P e s r (bind (do_call lib C_init) (fun i => if a_failed i then none else k)).
Proof.
  intros Hc Hn Hk h. unfold bind, do_call. destruct (a_failed (lib (C_init :: h))) eqn:E; [specialize (Hn (C_init :: h))|specialize (Hk (C_init :: h))].
  1: destruct (none _) as [x h']; rename Hn into Hx. 2: destruct (k _) as [x h']; rename Hk into Hx.
  all: destruct Hx as [(new & -> & Hnew) Hx]; (split; [exists (new ++ [C_init]); split; [by rewrite <- app_assoc|apply Forall_app; split; [done|by apply Forall_singleton]]|]);
    cbn [open_statements open_results] in Hx; rewrite E in Hx; destruct x; intuition lia.
Qed.
Lemma post_session sql sid : post (sends [sql] [B_longlong sid true]) 0 0 0 (session_stmt lib sql sid).
Proof. unfold session_stmt. apply post_init_or; [done|by apply post_ret|]. repeat op_step. Qed.

Definition marks (s : list Z) : nat := length (List.filter (Z.eqb 63) s).
Lemma marks_app a b : marks (a ++ b) = (marks a + marks b)%nat.
Proof. unfold marks. by rewrite List.filter_app, length_app. Qed.
Lemma marks_params first n : marks (placeholders first n) = n.
Proof. revert first. induction n as [|n IH]; intros first; [done|]. cbn [placeholders]. rewrite marks_app, IH. by destruct first. Qed.

(** C31: Every operation on the database is closed, whatever the library
    answers and wherever it fails: each statement it opens is closed and each
    stored result freed before it returns or throws; the texts of SQL it sends
    are built from the procedure's name (or are the caller's constant text) and
    the numbers of the values, with a mark for each value; the values go in the
    bind alone; and an error it throws shows no credential. *)
Theorem database_calls_closed proc params outVars mode column sql binds sid :
  post (sends [call_sql proc (length params) (length outVars); select_sql (length outVars)] (map bind_of params)) 0 0 0 (callProc lib parse proc params outVars mode) /\
  post (sends [call_sql proc (length params) 0] (map bind_wide params)) 0 0 0 (callProcResultSet lib parse proc params column) /\
  post (sends [sql] (map bind_of binds)) 0 0 0 (scalarTextLocked lib sql binds) /\
  post (sends [sql] []) 0 0 0 (selectScalarJson lib parse sql) /\ post (sends [sql] []) 0 0 0 (selectRowsRaw lib parse sql) /\
  post (sends [sql] [B_longlong sid true]) 0 0 0 (session_stmt lib sql sid) /\ marks (placeholders true (length params)) = length params.
Proof.
  split_and!; [apply post_callProc|apply post_callProcResultSet|apply post_scalar|apply post_selectScalar|apply post_selectRows|apply post_session|apply marks_params].
Qed.
End Ops.

(** ** Values *)

Lemma hex_no_nul l : cstr (hex_text l) = hex_text l.
Proof.
  pose proof (hex_text_low l) as H. induction (hex_text l) as [|c s IH]; [done|]. cbn [forallb] in H. apply andb_true_iff in H as [Hc Hs]. cbn [cstr].
  destruct (Z.eqb_spec c 0); [subst; discriminate|]. by rewrite IH.
Qed.
(** C29: A vector comes through as the text it is. The check that keeps a text
    from the JSON parser accepts exactly the texts of a canonical header and
    its payload; so whatever the parser makes of digits, the text the engine
    formats a vector to is handed on as that text, and the engine reads the
    vector back from it, bit for bit. *)
Theorem vectors_kept_from_json parse :
  (forall s, looksLikeCanonicalVectorHex s = true <->
    exists dim payload, 1 <= dim < 65536 /\ bytes_ok payload /\ Z.of_nat (length payload) = 4 * dim /\ s = hex_text (le16_put dim ++ le16_put 0 ++ payload)) /\
  (forall h malloc cap v t cap', (forall n, malloc n = true) -> vec_ok v -> format_canonical_hex h malloc cap v = (Some t, cap') ->
    parseJsonOrValue parse (Some t) = JStr t /\ decode_canonical_hex h malloc t = Some v).
Proof.
  split; [apply canonical_text_exact|]. intros h malloc cap v t cap' Hm Hv Hf.
  assert (Et : t = hex_text (canonical h v)).
  { unfold format_canonical_hex in Hf. destruct (_ || _); [done|]. destruct (json_out_ensure _ _ _) as [ok c]. destruct (negb ok); [done|]. by injection Hf as <- _. }
  subst t. split; [|by apply decode_canonical]. unfold parseJsonOrValue. rewrite hex_no_nul.
  destruct Hv as [He Hd]. unfold FSQL_VEC_MAX_DIM in Hd. destruct (elems_bytes h v He) as [H1 H2].
  assert (E : looksLikeCanonicalVectorHex (hex_text (canonical h v)) = true); [|by rewrite E].
  apply canonical_text_exact. exists (Z.of_nat (length v)), (flat_map (le_float_put h) v). split_and!; [lia|lia|done|rewrite H2; lia|done].
Qed.

(** ** Where it does not hold *)

(** A negative integer bound by callProc or a scalar read reaches the server as
    2^64 more; callProcResultSet binds it as it is. *)
Theorem negative_bound_unsigned n : - 2 ^ 63 <= n < 0 -> bound_int (bind_of (V_int n)) = Some (n + 2 ^ 64) /\ bound_int (bind_wide (V_int n)) = Some n.
Proof.
  intros Hn. split.
  - cbn. f_equal. unfold u64. rewrite <- (Z.mod_add n 1) by done. rewrite Z.mod_small; lia.
  - unfold bind_wide. destruct (_ && _) eqn:E; unfold bound_int, s32, s64, u32, u64; f_equal.
    + rewrite <- (Z.mod_add n 1), Z.mod_small by lia. destruct (Z.ltb_spec (n + 1 * 2 ^ 32) (2 ^ 31)); lia.
    + rewrite <- (Z.mod_add n 1), Z.mod_small by lia. destruct (Z.ltb_spec (n + 1 * 2 ^ 64) (2 ^ 63)); lia.
Qed.
(** The rows of selectRowsRaw are parsed without the check: a vector of digits
    becomes what the parser reads. *)
Theorem raw_vector_parsed parse s v : looksLikeCanonicalVectorHex s = true -> parse s = Some v -> raw_cell parse (Some s) = v.
Proof. intros Hs Hp. unfold raw_cell. destruct s; [done|]. by rewrite Hp. Qed.
(** A text column that holds the empty text reads as one that is NULL. *)
Theorem empty_text_is_null a rest : a_failed a = false -> a_rows a = [[Some []]] ++ rest -> first_cell a = None.
Proof. intros H1 H2. unfold first_cell. by rewrite H1, H2. Qed.

Lemma vectors_kept_from_json_witness : exists t cap', format_canonical_hex false (fun _ => true) 0 [bits_float 0] = (Some t, cap') /\
  parseJsonOrValue (fun _ => Some (JInt 7)) (Some t) = JStr t /\ decode_canonical_hex false (fun _ => true) t = Some [bits_float 0].
Proof.
  destruct (format_canonical_hex false (fun _ => true) 0 [bits_float 0]) as [[t|] cap'] eqn:E; [|exfalso; vm_compute in E; discriminate].
  exists t, cap'. split; [done|]. apply (proj2 (vectors_kept_from_json (fun _ => Some (JInt 7))) false (fun _ => true) 0 [bits_float 0] t cap'); [done| |exact E].
  split; [apply Forall_singleton; split; vm_compute; reflexivity|vm_compute; split; discriminate].
Defined.
